(* ===== verification/_CoqProject ===== *)
-Q . S2P
Prelude.v
TQueue.v
TQueueRep.v
TQueueHeap.v
TQueueProps.v
MBuffer.v
MBufferRep.v
MBufferProps.v
Atomic.v
Barrier.v
Fifo.v
Sem.v
SockConn.v
SockSR.v
SockProps.v
Types.v
RdcOp.v
ElementWise.v
Allreduce.v
AllreduceCtrl.v
AllreduceData.v
AllreduceProps.v
HandleLists.v
Bcast.v
BcastInv.v
Reduce.v
ReduceInv.v
ReduceRefine.v
ReduceProps.v
NetRun.v
NetRounds.v
NetdOp.v
NetdMsg.v
NetdMsgProps.v
NetdGroup.v
NetdTree.v
NetdBcast.v
NetdReduce.v
NetdBarrier.v
NetdRounds.v
Netq.v
StackAlloc.v
NetqConf.v
NetqConfProps.v
NetqStart.v
NetqStartProps.v
Group.v
GroupProps.v
Comm.v
Ukey.v
Util.v
Startup.v
MpiColl.v
MpiBarrier.v
MpiBcast.v
Node.v
IntraSR.v
InterSR.v
MpiSR.v
IntraRep.v
IntraInit.v
IntraWait.v
IntraNew.v
IntraDemo.v
IntraProps.v
AsMalloc.v
HashTab.v
HashRep.v
MiscTr.v
MiscProps.v
Symbol.v
SymRep.v
TransDecl.v
SymProps.v
TransMain.v
