(* ===== verification/Prelude.v ===== *)
(** * TMPI: thread-based MPI for clusters of SMP machines

    This development models the run-time system under src/src/runtime/src of the
    repository, and the parts written in C of the source-to-source translator under
    src/src/compile/mpitrans. MPI processes are threads; processes of one machine
    communicate through shared queues and one copy of the data, processes of different
    machines through messages that a network thread receives. The translator turns
    global variables into variables of the threads.

    ** The parts of the program and where they are

    Foundations:
    - [Prelude] (this file): outcomes of C calls ([Ret], [Fault] for an access to
      memory the program does not own, [Stuck] for a call that never returns), the
      state monad, record update, machine integers of the ILP32 target, byte
      memory and [memcpy].
    - [Types] has the constants and structures of mpi/include and
      mpi/util/tmpi_util.c.
    - [TQueue] is utils/tqueue/tqueue.c: pointers, buckets, the element pool of a
      queue. [TQueueRep] says which list a ring of buckets represents and proves
      the laws [QueueSpec] clients rely on; [TQueueHeap] the laws [QueueHeap] of
      creation and destruction; [TQueueProps] holds the theorems.
    - [MBuffer] is utils/buffer/mbuffer.c and mpi/buffer/mpi_buffer.c: the buffers
      of buffered sends. [MBufferRep] relates the chain of headers to a list of
      blocks; [MBufferProps] holds the theorems.
    - [Atomic] is machine/atomic.c and machine/cas64.s: compare-and-swap and the loops
      around it.
    - [Util] and [Ukey] are the small services: utils/tmpi_debug.c, utils/usc, the
      inquiries of mpi/util, the deadline of a timed wait, the numbers of threads.

    Threads of one machine:
    - [Barrier] is intra/barrier.c, [Fifo] net/netd/fifo.c, [Sem] net/netd/sem/sem.c:
      the primitives through which threads wait for each other, each with the step
      relation of its threads, its invariant and its theorems.
    - [RdcOp] is intra/rdc_op.c and the operator table of intra/reduce.c, with threads
      that reduce into one array at once.
    - [Allreduce] is the allreduce object of intra/reduce.c: [ardco_run] is the next step
      of a thread, and in the loop over the elements of an array that is one access to
      one element, made without a lock, by several threads at once. A second system
      ([atomic_step]) takes an array of one element in one step; [AllreduceCtrl] and
      [AllreduceData] have its invariants. [ElementWise] looks at one element of an
      array; with it [AllreduceProps] shows that the program, seen at any one element, is
      a run of that second system ([reachable_refines]), and carries the theorems over.
    - [HandleLists] has the lock-free lists of free handles; [Bcast] is intra/bcast.c,
      [BcastInv] its invariant and theorems; [Reduce] is the reduce object of
      intra/reduce.c, in the same two versions: [ReduceInv] has the invariant of the
      one for a single element, [ReduceRefine] the refinement, [ReduceProps] the theorems.
    - [Node] is the state of one machine, which all its threads share: the
      components' states, the handles by address, the data memory, the channels.
    - [IntraSR] is intra/intra_sr.c, [InterSR] intra/inter_sr.c, [MpiSR]
      mpi/pt2pt/mpi_sr.c: channels and requests, the handlers of messages from
      other machines, the MPI calls.
    - [IntraRep] states the invariant of a node ([node_inv]) and what starting a
      request does to it; [IntraInit] shows that initialization establishes the
      invariant; [IntraWait] has the completion calls, [IntraNew] the creation of
      requests, [IntraDemo] a concrete node for the witnesses; [IntraProps] holds the
      theorems.
    - [Group] and [Comm] are mpi/context/group.c and comm.c; [GroupProps] holds the
      theorems on groups.

    Machines:
    - [SockConn] is net/netd/sock_conn.c, [SockSR] net/netd/sock_sr.c, over the system
      calls; [SockProps] has the theorems on transfers.
    - [NetdMsg] is what net/netd/netd_sock_c has for messages: sending, the receiver that
      waits for any of the machines, and the end; [NetdMsgProps] has the theorems.
    - [NetRun] runs the collectives of the net device on all machines at once,
      [NetRounds] any number of them one after the other. [NetdOp] is
      net/netd/netd_op.c; [NetdGroup] the collectives of net/netd/netd_sock_c; [NetdTree]
      shows that its trees span the machines (class and instances); [NetdBcast],
      [NetdReduce], [NetdBarrier] and [NetdRounds] have the theorems.
    - [StackAlloc] is net/netd/stackallocator_c, the pool of requests: critical sections of
      threads, the lists in memory. [Netq] counts its items; a theorem of [StackAlloc]
      says that it counts right. Likewise [Netq] has a log for the sockets, and the
      theorems of [NetdMsgProps] say what is on them.
    - [Netq] is net/netd/netq.c (ranks, headers, sending, receiving); [NetqConf] its
      command line and group file, [NetqConfProps] what a group file means; [NetqStart]
      its start, its end and its two threads, [NetqStartProps] the theorems.

    The cluster:
    - [MpiColl] is mpi/group/: the collectives of MPI, which put the objects shared by
      the threads of a machine and the collectives among machines together.
      [MpiBarrier] and [MpiBcast] run them on all threads of all machines.
    - [Startup] is mpi/init, the communicators' shared objects of mpi/context/comm.c and
      the batches of threads of thread/pthread/thread.c: the life of a process.

    The translator:
    - [AsMalloc] is asmalloc.c, [HashTab] hash.c, with [HashRep]; [MiscTr] misc.c, with
      [MiscProps]; [Symbol] symbol.c, with [SymRep] and [SymProps]; [TransMain] main.c.
    - [TransDecl] has what a declaration of variables goes through in mpitrans.l and
      mpitrans.y: the scanner's classification of a name, the rules for an identifier and
      for a list of declarators, the reversal of the list and its output.

    ** How calls are modelled

    A C function is a function of the state monad over its component's state;
    [zoom] runs it on the part of a node that is its own. Mutexes are flags of the
    state: a thread keeps one only within a call, or until the wait that gives it
    up, so locking a held mutex is [Stuck]. A call that waits on a condition
    variable gives back where it sleeps ([Sleeping]) and [resume_wait] goes on from
    there; interleavings of calls are explicit sequences of calls and resumptions.

    Where threads meet in one object without any other order between them (atomics,
    barrier, bounded FIFO, semaphore, broadcast, reductions), a call is cut at its
    accesses to shared memory and at its critical sections; a step relation lets any
    thread make its next step, and includes spurious wake-ups. The theorems hold of
    every reachable state, for any number of threads and calls. A compare-and-swap and
    the other atomic operations are one step of those relations; file [Atomic] shows
    that the loops they are made of have that effect.

    Machines are programs of moves (write these bytes to that machine, read so many
    from that one) over streams of bytes; their moves come in any order. A collective
    of MPI is the tree of the calls its thread makes, run against the step relation of
    the shared object and the programs of the machines.

    Memory allocators, system calls, the thread library, the clock and the parser of
    the translator are arguments of the definitions that use them: which allocation
    succeeds and where, what a system call returns.

    ** What the theorems show

    - The queue refines one list per queue, through all of its pointer
      manipulation; the contract is a class, so that the theorems on channels and
      requests hold for every implementation that meets it.
    - The message buffers are first-fit allocators; blocks tile the buffer before
      and after each call; release coalesces and undoes allocation.
    - Initialization establishes the node's invariant; starting a send or a receive
      is matching the first acceptable request of the other queue, in order, or
      queueing; the data, tag, source and length arrive; synchronous senders sleep
      until they are received; buffered ones leave and their data survives.
    - Atomic operations are linearizable and lock-free.
    - The barrier lets nobody pass before all have arrived; the FIFO keeps order and
      bound and loses no wake-up; allreduce, broadcast and reduce give their callers the
      right results (of a reduction, each element combines what every thread sent, once,
      in an order that may differ between elements) and touch no memory they do not own. The free list of the reduce
      object is exposed to the ABA problem, and a run shows it: its theorems hold of the
      runs in which no removal acts on a stale value, and say so.
    - Sending on a socket transfers all bytes or reports a prefix, whatever partial
      writes and interruptions the system makes of it; connecting leaks no descriptor.
      The receiver of messages hands over each message once, in order, and serves every
      machine that has sent one within a bounded number of calls.
    - The pool of requests hands out memory that is the caller's alone, for any number of
      threads; no call faults but the one that overruns the table, which is a defect.
    - Broadcasts and reductions among machines deliver over every tree the code may
      build, in every order of the machines' moves; the tables of ranks of all machines
      agree with the list of machines; a group file means what its lines say.
    - MPI_Barrier lets no thread of any machine pass early, and some thread can always
      go on; tmpi_Bcast gives every thread of every machine the data of the root, round
      after round.
    - The main program runs each thread once and gives back its memory, whatever
      allocation fails.
    - The symbols of the translator: leaving a scope restores the bindings outside it,
      and the hash table refines a list. The checked allocator keeps blocks apart
      and reports every overrun within its margin. The forms of the command line agree.
    - The defects the proofs uncovered are theorems too where they could be, and
      listed as findings.

    ** Bounds and fuel

    Loops that follow pointers ([search], [Q_reset_loop], [first_fit]) have more
    fuel than there are buckets or headers in memory: running out means that the
    walk entered a cycle, and such a loop does not return in C either. The loop of
    [mb_init] decreases the size it asks for and its fuel is proved enough. The loops of
    sock_sr.c have the system calls as a parameter: their fuel counts calls, and a
    theorem gives the number that is enough. Loops of the step relations (compare-and-swap,
    waiting) need no fuel: each turn is a sequence of steps.

    ** Not modelled

    - The grammar and the scanner of the translator (mpitrans.y, mpitrans.l) but for the
      rules in [TransDecl]: they are written in the languages of bison and flex, and most
      of them put text together; and mpitl.c, a test program for the scanner.
    - The start-up of the net device: the command line, the remote shells and the first
      connections of net/netd/netd_sock_c; its variant for another library, netd_p4_c. What it leaves behind, a connection
      between every two machines, is what [NetdGroup] starts from. Failing allocations in
      the construction of its trees are left out as well.
    - A failure of pthread_create, whose result thr_start does not look at.
    - Functions that only hand on to the thread library (thread/, ukey/), the reading of
      the clock and floating-point conversion (usc_time.c), dumps of data structures for
      debugging, and code that is compiled only with the debugging switches of misc.c.
    - tmpi_Reduce and tmpi_Allreduce are modelled call by call in [MpiColl]; their parts
      have theorems of their own, for the threads of a machine and among machines, but
      the composition on the whole cluster has none.
    - The lock-free variant of the pool, net/netd/salf_c.
    - The test programs of the repository. *)
From Stdlib Require Export ZArith Lia.
From stdpp Require Export base tactics option list list_numbers numbers gmap.

Open Scope Z_scope.

(** Map and list accesses stay folded under [cbn]. *)
#[global] Arguments lookup : simpl never.
#[global] Arguments insert : simpl never.
#[global] Arguments delete : simpl never.
#[global] Arguments Z.add : simpl never.
#[global] Arguments Z.sub : simpl never.
#[global] Arguments Z.mul : simpl never.

(** ** Outcomes and the state monad of the C code *)

(** What a call of a C function comes to: it returns a value in a new state; it
    reads or writes memory the program does not own ([Fault]); or it never
    returns, because it waits for a mutex nobody will release or loops for ever
    ([Stuck]). *)
Inductive outcome (S A : Type) :=
  | Ret (a : A) (s : S)
  | Fault
  | Stuck.
Arguments Ret {S A} a s.
Arguments Fault {S A}.
Arguments Stuck {S A}.

Definition M (S A : Type) : Type := S -> outcome S A.

#[export] Instance M_ret {S} : MRet (M S) := fun A a s => Ret a s.
#[export] Instance M_bind {S} : MBind (M S) := fun A B f m s =>
  match m s with
  | Ret a s' => f a s'
  | Fault => Fault
  | Stuck => Stuck
  end.

Definition get {S} : M S S := fun s => Ret s s.
Definition gets {S A} (f : S -> A) : M S A := fun s => Ret (f s) s.
Definition modify {S} (f : S -> S) : M S unit := fun s => Ret tt (f s).
Definition fault {S A} : M S A := fun _ => Fault.
Definition stuck {S A} : M S A := fun _ => Stuck.

(** [or_fault o] is the value of a load: nothing there, undefined behaviour. *)
Definition or_fault {S A} (o : option A) : M S A :=
  match o with Some a => mret a | None => fault end.

Definition when {S} (b : bool) (m : M S unit) : M S unit :=
  if b then m else mret tt.

(** Runs an operation of a component on the part of a larger state that is its own. *)
Definition zoom {W S A} (rd : W -> S) (wr : S -> W -> W) (m : M S A) : M W A :=
  fun w => match m (rd w) with
           | Ret a s => Ret a (wr s w)
           | Fault => Fault
           | Stuck => Stuck
           end.

(** Unfolds the monad: the goal shows the matches on the outcomes of the calls. *)
Ltac mrun :=
  cbv beta iota delta
    [mbind M_bind mret M_ret get gets modify fault stuck or_fault when zoom].
Ltac mrun_in H :=
  cbv beta iota delta
    [mbind M_bind mret M_ret get gets modify fault stuck or_fault when zoom] in H.

(** Monad equations: sequencing a call whose outcome is known. *)
Section MonadLaws.
Context {S : Type}.

Lemma bind_Ret {A B} (m : M S A) (f : A -> M S B) s a s' :
  m s = Ret a s' -> (m ≫= f) s = f a s'.
Proof. unfold mbind, M_bind. by intros ->. Qed.

Lemma bind_mret {A B} (a : A) (f : A -> M S B) s : (mret a ≫= f) s = f a s.
Proof. done. Qed.

Lemma bind_get {A} (f : S -> M S A) s : (get ≫= f) s = f s s.
Proof. done. Qed.

Lemma bind_modify {A} (g : S -> S) (f : unit -> M S A) s : (modify g ≫= f) s = f tt (g s).
Proof. done. Qed.

Lemma bind_Stuck {A B} (m : M S A) (f : A -> M S B) s : m s = Stuck -> (m ≫= f) s = Stuck.
Proof. unfold mbind, M_bind. by intros ->. Qed.

Lemma Ret_inj {A} (a b : A) (s t : S) : Ret a s = Ret b t -> a = b /\ s = t.
Proof. by intros [= -> ->]. Qed.

Lemma bind_inv {A B} (m : M S A) (f : A -> M S B) s b s' :
  (m ≫= f) s = Ret b s' -> exists a s1, m s = Ret a s1 /\ f a s1 = Ret b s'.
Proof. unfold mbind, M_bind. destruct (m s) as [a s1| |]; naive_solver. Qed.

Lemma bind_assoc {A B C} (m : M S A) (f : A -> M S B) (g : B -> M S C) s :
  ((m ≫= f) ≫= g) s = (m ≫= (fun a => f a ≫= g)) s.
Proof. unfold mbind, M_bind. by destruct (m s). Qed.
End MonadLaws.

Lemma zoom_Ret {W S A} (rd : W -> S) (wr : S -> W -> W) (m : M S A) w a s :
  m (rd w) = Ret a s -> zoom rd wr m w = Ret a (wr s w).
Proof. unfold zoom. by intros ->. Qed.

(** ** Record update *)

Declare Scope tmpi_scope.
Delimit Scope tmpi_scope with tmpi.
Open Scope tmpi_scope.

(** [Eta R] is the identity of the record type [R] written as its constructor
    applied to its projections; a field's update is obtained from it by
    abstracting that projection. *)
Class Eta (R : Type) := MkEta { eta_of : R -> R }.
Class Field {R T : Type} (proj : R -> T) := MkField { upd : (T -> T) -> R -> R }.
Arguments upd {R T} proj {Field} f r : simpl nomatch.

Ltac derive_field :=
  lazymatch goal with
  | |- @Field ?R ?T ?proj =>
      let body := eval hnf in (@eta_of R _) in
      lazymatch eval pattern proj in body with
      | (fun p => @?k p) _ =>
          let u := eval cbv beta in (fun (f : T -> T) => k (fun r : R => f (proj r))) in
          exact (MkField R T proj u)
      end
  end.
#[export] Hint Extern 0 (Field _) => derive_field : typeclass_instances.

Notation "r <| f := v |>" := (upd f (fun _ => v) r)
  (at level 12, f at next level, left associativity) : tmpi_scope.

(** ** Machine integers (ILP32, the i386 target of machine/) *)

(** A C [int] is held at its value; [int32] wraps a result to 32 bits, two's
    complement, and [uint32] wraps an [unsigned]. *)
Definition uint32 (z : Z) : Z := z mod 2 ^ 32.
Definition int32 (z : Z) : Z := (z + 2 ^ 31) mod 2 ^ 32 - 2 ^ 31.
Definition is_int32 (z : Z) : bool := (- 2 ^ 31 <=? z) && (z <? 2 ^ 31).
Definition is_uint32 (z : Z) : bool := (0 <=? z) && (z <? 2 ^ 32).

Definition NULL : Z := 0.
Definition sizeof_ptr : Z := 4.
Definition sizeof_int : Z := 4.

Lemma int32_id z : is_int32 z = true -> int32 z = z.
Proof.
  unfold is_int32, int32. intros H. apply andb_prop in H as [H1 H2].
  apply Z.leb_le in H1. apply Z.ltb_lt in H2.
  rewrite Z.mod_small; lia.
Qed.

Lemma int32_range z : - 2 ^ 31 <= int32 z < 2 ^ 31.
Proof. unfold int32. pose proof (Z.mod_pos_bound (z + 2 ^ 31) (2 ^ 32)). lia. Qed.

Lemma int32_int32 z : int32 (int32 z) = int32 z.
Proof.
  apply int32_id. unfold is_int32. pose proof (int32_range z).
  apply andb_true_intro. split; [apply Z.leb_le | apply Z.ltb_lt]; lia.
Qed.

Lemma int32_add_l a b : int32 (int32 a + b) = int32 (a + b).
Proof.
  unfold int32. f_equal.
  replace ((a + 2 ^ 31) mod 2 ^ 32 - 2 ^ 31 + b + 2 ^ 31)
    with ((a + 2 ^ 31) mod 2 ^ 32 + b) by lia.
  rewrite Zplus_mod_idemp_l. f_equal. lia.
Qed.

Lemma uint32_id z : is_uint32 z = true -> uint32 z = z.
Proof.
  unfold is_uint32, uint32. intros H. apply andb_prop in H as [H1 H2].
  apply Z.leb_le in H1. apply Z.ltb_lt in H2. by rewrite Z.mod_small.
Qed.

Lemma uint32_range z : 0 <= uint32 z < 2 ^ 32.
Proof. apply Z.mod_pos_bound. lia. Qed.

(** C's [/] and [%] truncate towards zero. *)
Definition cdiv (a b : Z) : Z := Z.quot a b.
Definition cmod (a b : Z) : Z := Z.rem a b.

(** ** Data memory *)

(** Byte memory: an address that holds no known byte is absent. [memcpy] reads
    the source before it writes, as the copies of the program never overlap. *)
Notation mem := (gmap Z Z).

Fixpoint memcpy_from (src_m : mem) (m : mem) (dst src : Z) (n : nat) : mem :=
  match n with
  | O => m
  | S n' =>
      let m' := memcpy_from src_m m dst src n' in
      match src_m !! (src + Z.of_nat n') with
      | Some b => <[dst + Z.of_nat n' := b]> m'
      | None => delete (dst + Z.of_nat n') m'
      end
  end.
Definition memcpy (m : mem) (dst src n : Z) : mem := memcpy_from m m dst src (Z.to_nat n).

Lemma memcpy_from_lookup sm m dst src n a :
  memcpy_from sm m dst src n !! a =
    if decide (dst <= a < dst + Z.of_nat n) then sm !! (src + (a - dst)) else m !! a.
Proof.
  induction n as [|n IH]; cbn [memcpy_from].
  - rewrite decide_False by lia. done.
  - destruct (decide (a = dst + Z.of_nat n)) as [->|Hne].
    + rewrite decide_True by lia.
      replace (src + (dst + Z.of_nat n - dst)) with (src + Z.of_nat n) by lia.
      destruct (sm !! (src + Z.of_nat n)); by simplify_map_eq.
    + transitivity (memcpy_from sm m dst src n !! a).
      { destruct (sm !! (src + Z.of_nat n)); by rewrite ?lookup_insert_ne, ?lookup_delete_ne by done. }
      rewrite IH. repeat case_decide; try done; lia.
Qed.

Lemma memcpy_in m dst src n a :
  dst <= a < dst + n -> memcpy m dst src n !! a = m !! (src + (a - dst)).
Proof. intros H. unfold memcpy. rewrite memcpy_from_lookup, decide_True; [done|lia]. Qed.

Lemma memcpy_out m dst src n a :
  ~ (dst <= a < dst + n) -> memcpy m dst src n !! a = m !! a.
Proof. intros H. unfold memcpy. rewrite memcpy_from_lookup, decide_False; [done|lia]. Qed.

(** The [n] bytes at [a]. *)
Definition bytes_at (m : mem) (a n : Z) : list (option Z) :=
  (fun i => m !! (a + i)) <$> seqZ 0 n.

Lemma bytes_at_memcpy m dst src n k :
  k <= n -> bytes_at (memcpy m dst src n) dst k = bytes_at m src k.
Proof.
  intros Hk. unfold bytes_at. apply list_fmap_ext. intros i x Hx.
  apply lookup_seqZ in Hx. rewrite memcpy_in by lia. f_equal. lia.
Qed.

Lemma bytes_at_ext m m' a n :
  (forall i, a <= i < a + n -> m' !! i = m !! i) -> bytes_at m' a n = bytes_at m a n.
Proof.
  intros H. unfold bytes_at. apply list_fmap_ext. intros i x Hx.
  apply lookup_seqZ in Hx. apply H. lia.
Qed.

Lemma bytes_at_memcpy_other m dst src n a k :
  (forall i, a <= i < a + k -> ~ (dst <= i < dst + n)) ->
  bytes_at (memcpy m dst src n) a k = bytes_at m a k.
Proof. intros H. apply bytes_at_ext. intros i Hi. apply memcpy_out. auto. Qed.

(** Stores a list of bytes at consecutive addresses (data that comes from a device). *)
Fixpoint store_bytes (m : mem) (a : Z) (bs : list Z) : mem :=
  match bs with
  | [] => m
  | b :: bs' => store_bytes (<[a := b]> m) (a + 1) bs'
  end.

Lemma store_bytes_out m a bs i :
  ~ (a <= i < a + Z.of_nat (length bs)) -> store_bytes m a bs !! i = m !! i.
Proof.
  revert m a. induction bs as [|b bs IH]; intros m a H; cbn in *; [done|].
  rewrite IH by lia. apply lookup_insert_ne. lia.
Qed.

Lemma store_bytes_in m a bs i b :
  bs !! i = Some b -> store_bytes m a bs !! (a + Z.of_nat i) = Some b.
Proof.
  revert m a i. induction bs as [|c bs IH]; intros m a i H; [done|].
  destruct i as [|i]; cbn in *; simplify_eq.
  - rewrite store_bytes_out by lia. rewrite Z.add_0_r. by rewrite lookup_insert_eq.
  - replace (a + Z.of_nat (S i)) with (a + 1 + Z.of_nat i) by lia. by apply IH.
Qed.

(** ** Counting the elements a test accepts (threads in a state, for instance) *)

Definition count_if {A} (p : A -> bool) (l : list A) : nat := length (List.filter p l).
#[global] Arguments count_if : simpl never.

Section Counting.
Context {A : Type} (p : A -> bool).

Lemma count_if_cons a l : count_if p (a :: l) = ((if p a then 1 else 0) + count_if p l)%nat.
Proof. unfold count_if. cbn. by destruct (p a). Qed.

Lemma count_if_insert l t a b :
  l !! t = Some a ->
  (count_if p (<[t := b]> l) + (if p a then 1 else 0) = count_if p l + (if p b then 1 else 0))%nat.
Proof.
  revert t. induction l as [|c l IH]; intros [|t] H; try discriminate.
  - injection H as ->. change (<[0%nat := b]> (a :: l)) with (b :: l). rewrite !count_if_cons. lia.
  - change (<[S t := b]> (c :: l)) with (c :: <[t := b]> l). rewrite !count_if_cons.
    specialize (IH t H). lia.
Qed.

Lemma count_if_le l : (count_if p l <= length l)%nat.
Proof. induction l; [done|]. rewrite count_if_cons. cbn. destruct (p _); lia. Qed.

Lemma count_if_all l : count_if p l = length l <-> Forall (fun a => p a = true) l.
Proof.
  induction l as [|a l IH]; [by split|]. rewrite count_if_cons, Forall_cons, <- IH. cbn [length].
  pose proof (count_if_le l). destruct (p a); cbn; split; [|intros [? ?]; lia|lia|by intros [? _]].
  intros H1. split; [done|lia].
Qed.

Lemma count_if_none l : Forall (fun a => p a = false) l -> count_if p l = O.
Proof. induction 1 as [|a l Ha _ IH]; [done|]. by rewrite count_if_cons, Ha, IH. Qed.

Lemma count_if_pos l : (0 < count_if p l)%nat <-> exists t a, l !! t = Some a /\ p a = true.
Proof.
  induction l as [|b l IH]; [split; [unfold count_if; cbn; lia|by intros (t & a & H & _)]|]. rewrite count_if_cons.
  destruct (p b) eqn:E.
  - split; [|intros _; lia]. intros _. by exists 0%nat, b.
  - cbn. rewrite IH. split.
    + intros (t & a & Ht & Ha). by exists (S t), a.
    + intros ([|t] & a & Ht & Ha); [injection Ht as ->; congruence|]. by exists t, a.
Qed.
End Counting.

(** Bounds on a count, from one element. *)
Lemma count_if_bounds {A} (p : A -> bool) (l : list A) t a :
  l !! t = Some a ->
  ((if p a then 1 else 0) <= count_if p l /\ count_if p l + (if p a then 0 else 1) <= length l)%nat.
Proof.
  revert t. induction l as [|c l IH]; intros [|t] H; try discriminate; rewrite count_if_cons; cbn [length].
  - injection H as ->. pose proof (count_if_le p l). destruct (p a); lia.
  - specialize (IH t H). pose proof (count_if_le p l). destruct (p c), (p a); lia.
Qed.

Lemma count_if_fmap {A} (p : A -> bool) (f : A -> A) (l : list A) :
  (forall a, p (f a) = p a) -> count_if p (f <$> l) = count_if p l.
Proof. intros H. induction l as [|a l IH]; [done|]. cbn. by rewrite !count_if_cons, H, IH. Qed.
