(* ===== verification/TQueue.v ===== *)
(** The message queue of utils/tqueue/tqueue.c: a circular doubly linked list of
    buckets with an element allocator per queue, at the level of its pointers.
    The control block's [qctrl] is the ring's sentinel; a user pointer is the
    address just past an element's bucket. *)
From S2P Require Import Prelude.

(** sizeof(BUCKET): two pointers. sizeof(TQueue): [qctrl], six words and the mutex. *)
Definition sizeof_BUCKET : Z := 2 * sizeof_ptr.
Definition sizeof_TQueue : Z := sizeof_BUCKET + 6 * 4 + 24.

Record BUCKET := Bucket { b_next : Z; b_prev : Z }.
#[export] Instance eta_BUCKET : Eta BUCKET := MkEta _ (fun r => Bucket (b_next r) (b_prev r)).

(** [(BUCKET * )elem - 1] and [(void * )(b + 1)]. *)
Definition bucket_of (elem : Z) : Z := elem - sizeof_BUCKET.
Definition elem_of_bucket (b : Z) : Z := b + sizeof_BUCKET.

(** The control block without its [qctrl], which lives in [links] at the queue's
    own address. [F] is the type of comparison function pointers. *)
Record TQueue (F : Type) := mkTQueue {
  q_count : Z;
  q_ucount : Z;
  q_cmp : option F;
  q_allocate : Z;
  q_item_size : Z;
  q_chunk_group : Z
}.
Arguments mkTQueue {F} _ _ _ _ _ _.
Arguments q_count {F} _.
Arguments q_ucount {F} _.
Arguments q_cmp {F} _.
Arguments q_allocate {F} _.
Arguments q_item_size {F} _.
Arguments q_chunk_group {F} _.
#[export] Instance eta_TQueue {F} : Eta (TQueue F) := MkEta _ (fun r =>
  mkTQueue (q_count r) (q_ucount r) (q_cmp r) (q_allocate r) (q_item_size r) (q_chunk_group r)).

(** The memory the queues live in: every bucket, by address; every control block;
    and the heap's break and limit, between which [malloc] serves requests. *)
Record qmem (F : Type) := mkQmem {
  links : gmap Z BUCKET;
  queues : gmap Z (TQueue F);
  brk : Z;
  lim : Z
}.
Arguments mkQmem {F} _ _ _ _.
Arguments links {F} _.
Arguments queues {F} _.
Arguments brk {F} _.
Arguments lim {F} _.
#[export] Instance eta_qmem {F} : Eta (qmem F) := MkEta _ (fun r =>
  mkQmem (links r) (queues r) (brk r) (lim r)).

(** A fresh bucket holds no valid pointer until it is written. *)
Definition uninit : Z := -1.

Section Operations.
  Context {F : Type}.
  Notation M := (M (qmem F)).

(** *** Loads and stores *)

Definition load_bucket (a : Z) : M BUCKET :=
  s ← get; or_fault (links s !! a).
Definition get_next (a : Z) : M Z := b ← load_bucket a; mret (b_next b).
Definition get_prev (a : Z) : M Z := b ← load_bucket a; mret (b_prev b).
Definition set_next (a v : Z) : M unit :=
  b ← load_bucket a; modify (fun s => s <| links := <[a := b <| b_next := v |>]> (links s) |>).
Definition set_prev (a v : Z) : M unit :=
  b ← load_bucket a; modify (fun s => s <| links := <[a := b <| b_prev := v |>]> (links s) |>).
Definition load_queue (p : Z) : M (TQueue F) :=
  s ← get; or_fault (queues s !! p).
Definition store_queue (p : Z) (q : TQueue F) : M unit :=
  modify (fun s => s <| queues := <[p := q]> (queues s) |>).

(** [malloc(n)] hands out the next [n] bytes, rounded to the alignment of 8, or
    NULL when they do not fit. *)
Definition align8 (n : Z) : Z := (n + 7) / 8 * 8.
Definition malloc (n : Z) : M Z :=
  s ← get;
  if brk s + align8 n <=? lim s
  then modify (fun s => s <| brk := brk s + align8 n |>);; mret (brk s)
  else mret NULL.

(** The [n] elements of [size] bytes of a chunk at [base] become addressable. *)
Fixpoint chunk_buckets (base size : Z) (n : nat) : list Z :=
  match n with
  | O => []
  | S n' => base :: chunk_buckets (base + size) size n'
  end.
Definition touch (l : list Z) (h : gmap Z BUCKET) : gmap Z BUCKET :=
  foldr (fun a h => <[a := Bucket uninit uninit]> h) h l.
(** [malloc(size1*p->chunk_group)]: the product of [int]s is taken as a [size_t]; there are
    as many elements as fit into what it asks for. *)
Definition malloc_chunk (size n : Z) : M Z :=
  let bytes := uint32 (size * n) in
  b ← malloc bytes;
  if b =? NULL then mret NULL
  else modify (fun s => s <| links := touch (chunk_buckets b size (Z.to_nat (bytes / size))) (links s) |>);;
       mret b.

(** *** Item management *)

(** The loop that links the buckets of a new chunk through [prev]: [b1] is the
    bucket to be linked, the result the last one. *)
Fixpoint link_chunk (n : nat) (b1 size1 : Z) : M Z :=
  match n with
  | O => mret b1
  | S n' =>
      let b := b1 in
      let b1 := b + size1 in
      set_prev b b1;; link_chunk n' b1 size1
  end.

Definition Q_newElem (p : Z) : M Z :=
  q ← load_queue p;
  if q_allocate q =? NULL then
    let size1 := q_item_size q in
    elem ← malloc_chunk size1 (q_chunk_group q);
    if elem =? NULL then mret NULL
    else
      b1 ← link_chunk (Z.to_nat (q_chunk_group q - 2)) (elem + size1) size1;
      set_prev b1 NULL;;
      store_queue p (q <| q_allocate := elem + size1 |>);;
      set_next elem NULL;;
      mret (elem_of_bucket elem)
  else
    let elem := q_allocate q in
    nx ← get_prev elem;
    store_queue p (q <| q_allocate := nx |>);;
    set_next elem NULL;;
    mret (elem_of_bucket elem).

Definition Q_freeElem (p elem : Z) : M unit :=
  if elem =? NULL then mret tt
  else
    let e := bucket_of elem in
    q ← load_queue p;
    set_prev e (q_allocate q);;
    store_queue p (q <| q_allocate := e |>).

(** *** Creation and termination *)

Definition adjust_item_size (item_size : Z) : Z :=
  if negb (cmod item_size 7 =? 0)
  then Z.shiftl (Z.shiftr (item_size + 7) 3) 3
  else item_size.

(** A chunk is not larger than an [int] can say. *)
Definition chunk_fits (item_size group : Z) : Prop := (adjust_item_size item_size + sizeof_BUCKET) * group < 2 ^ 31.

Definition Q_init (p : Z) (cmp_function : option F) (item_size group : Z) : M unit :=
  modify (fun s => s <| links := <[p := Bucket p p]> (links s) |>);;
  store_queue p (mkTQueue 0 0 cmp_function NULL
                          (adjust_item_size item_size + sizeof_BUCKET) group);;
  e ← Q_newElem p;
  Q_freeElem p e.

Definition Q_create (cmp_function : option F) (item_size group : Z) : M Z :=
  if (item_size <=? 0) || (group <=? 1) then mret NULL
  else
    p ← malloc sizeof_TQueue;
    if p =? NULL then mret NULL
    else Q_init p cmp_function item_size group;; mret p.

(** All memory of the elements is lost, as the source says. *)
Definition Q_free (p : Z) : M unit :=
  _ ← load_queue p;
  modify (fun s => s <| queues := delete p (queues s) |> <| links := delete p (links s) |>).

(** *** Queue operations *)

Definition add_count (p d : Z) : M unit :=
  q ← load_queue p; store_queue p (q <| q_count := int32 (q_count q + d) |>).

Definition Q_delElem (p e : Z) : M Z :=
  n ← get_next e;
  pr ← get_prev e;
  set_next pr n;;
  n ← get_next e;
  pr ← get_prev e;
  set_prev n pr;;
  add_count p (-1);;
  mret e.

Definition Q_removeElem (p elem : Z) : M Z :=
  Q_delElem p (bucket_of elem);; mret elem.

Definition enQ (p elem : Z) : M unit :=
  let e := bucket_of elem in
  set_next e p;;
  pr ← get_prev p;
  set_prev e pr;;
  pr ← get_prev p;
  set_next pr e;;
  set_prev p e;;
  add_count p 1.

Definition deQ (p : Z) : M Z :=
  n ← get_next p;
  if n =? p then mret NULL
  else e ← Q_delElem p n; mret (elem_of_bucket e).

(** [while ( &(p->qctrl) != p->qctrl.next ) Q_freeElem(p, Q_removeElem(p, p->qctrl.next));] *)
Fixpoint Q_reset_loop (fuel : nat) (p : Z) : M unit :=
  match fuel with
  | O => stuck
  | S fuel' =>
      n ← get_next p;
      if n =? p then mret tt
      else
        e ← Q_removeElem p n;
        Q_freeElem p e;;
        Q_reset_loop fuel' p
  end.
Definition Q_reset (p : Z) : M unit :=
  s ← get;
  Q_reset_loop (S (size (links s))) p;;
  q ← load_queue p;
  store_queue p (q <| q_ucount := 0 |>).

(** The search loop of [Q_probe] and [Q_find]: [call f] runs the comparison
    function [f] points to. The fuel exceeds the number of buckets, so that
    running out of it means that the walk has entered a cycle without the
    sentinel: the loop does not end. *)
Fixpoint search (call : Z -> bool) (fuel : nat) (f e : Z) : M (option Z) :=
  match fuel with
  | O => stuck
  | S fuel' =>
      if (e =? NULL) || (e =? f) then mret None
      else if call (elem_of_bucket e) then mret (Some e)
      else n ← get_next e; search call fuel' f n
  end.

Definition Q_probe (call : F -> Z -> Z -> Z -> Z -> Z) (p context tag src : Z) : M Z :=
  q ← load_queue p;
  match q_cmp q with
  | None => mret NULL
  | Some cmp =>
      s ← get;
      n ← get_next p;
      r ← search (fun it => call cmp it context tag src =? 0) (S (size (links s))) p n;
      match r with
      | Some e => mret (elem_of_bucket e)
      | None => mret NULL
      end
  end.

Definition Q_find (call : F -> Z -> Z -> Z -> Z -> Z) (p context tag src : Z) : M Z :=
  q ← load_queue p;
  match q_cmp q with
  | None => mret NULL
  | Some cmp =>
      s ← get;
      n ← get_next p;
      r ← search (fun it => call cmp it context tag src =? 0) (S (size (links s))) p n;
      match r with
      | Some e => Q_delElem p e;; mret (elem_of_bucket e)
      | None => mret NULL
      end
  end.

(** *** Traversal, checks and counters *)

Definition Q_isEmpty (p : Z) : M Z :=
  q ← load_queue p; mret (if q_count q =? 0 then 1 else 0).
Definition Q_first (p : Z) : M Z :=
  f ← get_next p; mret (if p =? f then NULL else elem_of_bucket f).
Definition Q_next (p item : Z) : M Z :=
  f ← get_next (bucket_of item); mret (if p =? f then NULL else elem_of_bucket f).
Definition Q_last (p : Z) : M Z :=
  f ← get_prev p; mret (if p =? f then NULL else elem_of_bucket f).
Definition Q_cnt (p : Z) : M Z := q ← load_queue p; mret (q_count q).

Definition Q_incr (p n : Z) : M Z :=
  q ← load_queue p;
  if n =? 0 then mret (q_ucount q)
  else let v := int32 (q_ucount q + n) in
       store_queue p (q <| q_ucount := v |>);; mret v.
Definition Q_decr (p n : Z) : M Z :=
  q ← load_queue p;
  if n =? 0 then mret (q_ucount q)
  else let v := int32 (q_ucount q - n) in
       store_queue p (q <| q_ucount := v |>);; mret v.
Definition Q_ucnt (p : Z) : M Z := q ← load_queue p; mret (q_ucount q).
Definition Q_resetUcnt (p : Z) : M unit :=
  q ← load_queue p; store_queue p (q <| q_ucount := 0 |>).

End Operations.

(** ** The contract of the queues *)

(** What a client sees of the queues: the elements of each, head first, the
    comparison function it was created with, and the elements handed out by
    [Q_newElem] and not yet given back. *)
Record qview (F : Type) := QView {
  v_list : gmap Z (list Z);
  v_cmp : gmap Z (option F);
  v_live : gset Z
}.
Arguments QView {F} _ _ _.
Arguments v_list {F} _.
Arguments v_cmp {F} _.
Arguments v_live {F} _.
#[export] Instance eta_qview {F} : Eta (qview F) := MkEta _ (fun r => QView (v_list r) (v_cmp r) (v_live r)).

(** The element is in no queue. *)
Definition unqueued {F} (v : qview F) (e : Z) : Prop :=
  forall p l, v_list v !! p = Some l -> e ∉ l.

(** The first element a predicate accepts, and the list without it. *)
Fixpoint take_first (P : Z -> bool) (l : list Z) : option (Z * list Z) :=
  match l with
  | [] => None
  | x :: r => if P x then Some (x, r) else
      match take_first P r with Some (y, r') => Some (y, x :: r') | None => None end
  end.

(** What the queue promises its clients: every operation does to the view what
    its name says. [R s v] relates the memory of the queues to the view. *)
Class QueueSpec {F : Type} (R : qmem F -> qview F -> Prop) : Prop := {
  newElem_law s v p l :
    R s v -> v_list v !! p = Some l ->
    exists e s', Q_newElem p s = Ret e s' /\
      (e = NULL /\ R s' v \/
       e <> NULL /\ e ∉ v_live v /\ unqueued v e /\ R s' (v <| v_live := {[e]} ∪ v_live v |>));
  freeElem_law s v p l e :
    R s v -> v_list v !! p = Some l -> e ∈ v_live v -> unqueued v e ->
    exists s', Q_freeElem p e s = Ret tt s' /\ R s' (v <| v_live := v_live v ∖ {[e]} |>);
  enQ_law s v p l e :
    R s v -> v_list v !! p = Some l -> e ∈ v_live v -> unqueued v e ->
    exists s', enQ p e s = Ret tt s' /\ R s' (v <| v_list := <[p := l ++ [e]]> (v_list v) |>);
  find_law s v p l f call context tag src :
    R s v -> v_list v !! p = Some l -> v_cmp v !! p = Some (Some f) ->
    match take_first (fun it => call f it context tag src =? 0) l with
    | None => Q_find call p context tag src s = Ret NULL s
    | Some (e, l') => exists s', Q_find call p context tag src s = Ret e s' /\
                        R s' (v <| v_list := <[p := l']> (v_list v) |>)
    end;
  deQ_law s v p l :
    R s v -> v_list v !! p = Some l ->
    match l with
    | [] => deQ p s = Ret NULL s
    | e :: l' => exists s', deQ p s = Ret e s' /\ R s' (v <| v_list := <[p := l']> (v_list v) |>)
    end;
  live_law s v p l e : R s v -> v_list v !! p = Some l -> e ∈ l -> e ∈ v_live v;
  disjoint_law s v p p' l l' e :
    R s v -> v_list v !! p = Some l -> v_list v !! p' = Some l' -> e ∈ l -> e ∈ l' -> p = p';
  nonnull_law s v e : R s v -> e ∈ v_live v -> e <> NULL;
  nodup_law s v p l : R s v -> v_list v !! p = Some l -> NoDup l
}.

(** What it promises to who creates and destroys queues: a queue starts empty, at a
    new address; the heap only grows, and the other queues are left alone. *)
Class QueueHeap {F : Type} (R : qmem F -> qview F -> Prop) : Prop := {
  brk_law s v : R s v -> 0 < brk s;
  malloc_law s v n :
    R s v -> 0 < n ->
    exists a s', malloc n s = Ret a s' /\ R s' v /\ brk s <= brk s' /\ (a = NULL \/ brk s <= a < brk s');
  create_law s v cmp item_size group :
    R s v -> chunk_fits item_size group ->
    exists p s', Q_create cmp item_size group s = Ret p s' /\ brk s <= brk s' /\
      (p = NULL /\ R s' v \/
       p <> NULL /\ v_list v !! p = None /\
       R s' (v <| v_list := <[p := []]> (v_list v) |> <| v_cmp := <[p := cmp]> (v_cmp v) |>));
  destroy_law s v p :
    R s v -> v_list v !! p = Some [] ->
    exists s', Q_free p s = Ret tt s' /\ brk s' = brk s /\
      R s' (v <| v_list := delete p (v_list v) |> <| v_cmp := delete p (v_cmp v) |>)
}.
