(* ===== verification/TQueueRep.v ===== *)
(** The implementation of the message queue meets its contract: rings and free
    lists in the heap, the effect of every pointer store on them, the invariant
    that gives each bucket one place, and its preservation by every operation. *)
From S2P Require Import Prelude TQueue.

Lemma take_first_split P l x r :
  take_first P l = Some (x, r) ->
  exists l1 l2, l = l1 ++ x :: l2 /\ r = l1 ++ l2 /\ P x = true /\ Forall (fun y => P y = false) l1.
Proof.
  revert x r. induction l as [|y l IH]; intros x r H; cbn in H; [done|].
  destruct (P y) eqn:Hy; simplify_eq.
  - exists [], r. done.
  - destruct (take_first P l) as [[z r']|]; simplify_eq.
    destruct (IH _ _ eq_refl) as (l1 & l2 & -> & -> & Hp & Hf).
    exists (y :: l1), l2. split_and!; try done. by constructor.
Qed.

Lemma take_first_None P l : take_first P l = None <-> Forall (fun y => P y = false) l.
Proof.
  induction l as [|y l IH]; cbn; [by split; [constructor|]|].
  rewrite Forall_cons. destruct (P y) eqn:Hy; [naive_solver|].
  destruct (take_first P l) as [[z r']|]; naive_solver.
Qed.

Lemma find_take_first P l : find P l = fst <$> take_first P l.
Proof.
  induction l as [|y l IH]; cbn; [done|]. destruct (P y); [done|].
  rewrite IH. by destruct (take_first P l) as [[? ?]|].
Qed.

(** ** Doubly linked lists in the heap *)

Definition nxt (h : gmap Z BUCKET) (a : Z) : option Z := b_next <$> h !! a.
Definition prv (h : gmap Z BUCKET) (a : Z) : option Z := b_prev <$> h !! a.

#[global] Arguments nxt : simpl never.
#[global] Arguments prv : simpl never.

(** Consecutive buckets of [L] point at each other. *)
Fixpoint linked (h : gmap Z BUCKET) (L : list Z) : Prop :=
  match L with
  | a :: L' =>
      match L' with
      | b :: _ => nxt h a = Some b /\ prv h b = Some a /\ linked h L'
      | [] => True
      end
  | [] => True
  end.

(** The ring of queue [p] holds the buckets [l], head first. *)
Definition ring (h : gmap Z BUCKET) (p : Z) (l : list Z) : Prop :=
  linked h (p :: l ++ [p]) /\ NoDup (p :: l).

(** The allocator's free list, linked through [prev] and closed by NULL. *)
Fixpoint flist (h : gmap Z BUCKET) (a : Z) (l : list Z) : Prop :=
  match l with
  | [] => a = NULL
  | b :: l' => a = b /\ a <> NULL /\ exists a', prv h a = Some a' /\ flist h a' l'
  end.

Lemma linked_cons2 h a b L :
  linked h (a :: b :: L) <-> nxt h a = Some b /\ prv h b = Some a /\ linked h (b :: L).
Proof. done. Qed.

Lemma linked_app h L1 a L2 :
  linked h (L1 ++ a :: L2) <-> linked h (L1 ++ [a]) /\ linked h (a :: L2).
Proof.
  induction L1 as [|x L1 IH].
  - cbn. tauto.
  - destruct L1 as [|y L1].
    + cbn [app] in *. rewrite linked_cons2. cbn [linked]. destruct L2; tauto.
    + cbn [app] in *. rewrite !linked_cons2. tauto.
Qed.

Lemma linked_snoc h L a b :
  linked h (L ++ [a; b]) <-> linked h (L ++ [a]) /\ nxt h a = Some b /\ prv h b = Some a.
Proof. rewrite (linked_app h L a [b]). cbn. tauto. Qed.

(** Links outside of the list may change: only the [next] of all but the last
    and the [prev] of all but the first matter. *)
Lemma linked_frame h h' L :
  (forall a L1 b L2, L = L1 ++ a :: b :: L2 -> nxt h' a = nxt h a /\ prv h' b = prv h b) ->
  linked h L -> linked h' L.
Proof.
  induction L as [|a L IH]; [done|]. intros Hf Hl.
  destruct L as [|b L]; [done|].
  apply linked_cons2 in Hl as (Hn & Hp & Hl). apply linked_cons2.
  destruct (Hf a [] b L eq_refl) as [-> ->].
  repeat split; [done..|]. apply IH; [|done].
  intros x L1 y L2 E. apply (Hf x (a :: L1) y L2). cbn. by rewrite E.
Qed.

Lemma linked_frame2 h h' L :
  (forall a, a ∈ removelast L -> nxt h' a = nxt h a) ->
  (forall b, b ∈ tail L -> prv h' b = prv h b) ->
  linked h L -> linked h' L.
Proof.
  intros Hn Hp. apply linked_frame. intros a L1 b L2 ->. split.
  - apply Hn. rewrite removelast_app by done. cbn [removelast]. set_solver.
  - apply Hp. destruct L1; set_solver.
Qed.

Lemma linked_frame_notin h h' L :
  (forall a, a ∈ L -> h' !! a = h !! a) -> linked h L -> linked h' L.
Proof.
  intros Hf. apply linked_frame. intros a L1 b L2 E. unfold nxt, prv. rewrite E in Hf.
  rewrite !Hf; [done|set_solver..].
Qed.

Lemma flist_frame h h' a l :
  (forall b, b ∈ l -> h' !! b = h !! b) -> flist h a l -> flist h' a l.
Proof.
  revert a. induction l as [|b l IH]; intros a Hf; [done|].
  intros (-> & Hn & a' & Hp & Hfl). split; [done|]. split; [done|]. exists a'.
  unfold prv in *. rewrite Hf by set_solver. split; [done|].
  apply IH; [|done]. intros. apply Hf. set_solver.
Qed.

Lemma ring_is_Some h p l a : ring h p l -> a ∈ p :: l -> is_Some (h !! a).
Proof.
  intros [Hl _] Ha.
  assert (exists L1 b L2, p :: l ++ [p] = L1 ++ a :: b :: L2) as (L1 & b & L2 & E).
  { apply list_elem_of_split in Ha as (l1 & l2 & E).
    assert (p :: l ++ [p] = l1 ++ a :: (l2 ++ [p])) as ->.
    { change (p :: l ++ [p]) with ((p :: l) ++ [p]). rewrite E. by rewrite <- app_assoc. }
    destruct l2 as [|c l2]; cbn; eauto. }
  rewrite E in Hl. apply linked_app in Hl as [_ Hl]. apply linked_cons2 in Hl as [Hn _].
  unfold nxt in Hn. destruct (h !! a); eauto; done.
Qed.

(** The first and the last of a ring, read from the sentinel. *)
Lemma ring_next h p l : ring h p l -> nxt h p = Some (default p (head l)).
Proof. intros [Hl _]. destruct l as [|a l]; cbn in Hl; tauto. Qed.

Lemma ring_prev h p l : ring h p l -> prv h p = Some (default p (last l)).
Proof.
  intros [Hl _]. destruct l as [|a l _] using rev_ind.
  - cbn in Hl. tauto.
  - rewrite <- app_assoc in Hl. change (p :: l ++ [a] ++ [p]) with ((p :: l) ++ [a; p]) in Hl.
    apply linked_snoc in Hl as (_ & _ & Hp). rewrite last_snoc. done.
Qed.

Lemma nxt_insert h a b x : nxt (<[a := b]> h) x = if decide (a = x) then Some (b_next b) else nxt h x.
Proof. unfold nxt. rewrite lookup_insert. by case_decide. Qed.
Lemma prv_insert h a b x : prv (<[a := b]> h) x = if decide (a = x) then Some (b_prev b) else prv h x.
Proof. unfold prv. rewrite lookup_insert. by case_decide. Qed.

(** The sentinel-rooted list ends with the ring's last bucket and, seen from its
    tail, starts with the ring's head. *)
Lemma ring_split_last (p : Z) l : exists L, p :: l = L ++ [default p (last l)].
Proof.
  destruct l as [|y l _] using rev_ind; [by exists []|].
  rewrite last_snoc. by exists (p :: l).
Qed.
Lemma ring_split_head (p : Z) l : exists C, l ++ [p] = default p (head l) :: C.
Proof. destruct l as [|y l]; cbn; eauto. Qed.

(** What the four stores of an append do to the ring. *)
Lemma ring_snoc h h' p l e :
  ring h p l -> e ∉ p :: l ->
  (forall x, nxt h' x = if decide (x = default p (last l)) then Some e
                        else if decide (x = e) then Some p else nxt h x) ->
  (forall x, prv h' x = if decide (x = p) then Some e
                        else if decide (x = e) then Some (default p (last l)) else prv h x) ->
  ring h' p (l ++ [e]).
Proof.
  intros [Hl Hnd] He N P.
  destruct (ring_split_last p l) as [L HL]. set (z := default p (last l)) in *.
  assert (z ∈ p :: l) as Hz by (rewrite HL; set_solver).
  assert (p <> e /\ z <> e) as [Hpe Hze] by (split; intros ->; set_solver).
  split.
  - replace (p :: (l ++ [e]) ++ [p]) with ((p :: l) ++ [e; p]) by (rewrite <- app_assoc; done).
    rewrite linked_snoc, HL, <- app_assoc. change ([z] ++ [e]) with [z; e]. rewrite linked_snoc.
    rewrite !N, !P. repeat ((rewrite decide_True by done) || (rewrite decide_False by done)).
    split_and!; try done.
    apply linked_frame2 with (h := h).
    3:{ change (p :: l ++ [p]) with ((p :: l) ++ [p]) in Hl. rewrite HL, <- app_assoc in Hl.
        by apply linked_snoc in Hl as [? _]. }
    + intros a Ha. rewrite removelast_last in Ha.
      assert (a <> z) by (rewrite HL in Hnd; apply NoDup_app in Hnd; set_solver).
      assert (a ∈ p :: l) by (rewrite HL; set_solver).
      rewrite N, !decide_False by set_solver. done.
    + intros a Ha. rewrite <- HL in Ha. cbn in Ha. apply NoDup_cons in Hnd as [Hnp _].
      rewrite P, !decide_False by set_solver. done.
  - change (p :: l ++ [e]) with ((p :: l) ++ [e]). apply NoDup_app. split; [done|].
    split; [|apply NoDup_singleton]. set_solver.
Qed.

(** What the two stores of an unlink do to the ring. *)
Lemma ring_delete h h' p l1 x l2 :
  ring h p (l1 ++ x :: l2) ->
  (forall y, nxt h' y = if decide (y = default p (last l1)) then Some (default p (head l2))
                        else nxt h y) ->
  (forall y, prv h' y = if decide (y = default p (head l2)) then Some (default p (last l1))
                        else prv h y) ->
  ring h' p (l1 ++ l2).
Proof.
  intros [Hl Hnd] N P.
  destruct (ring_split_last p l1) as [A HA]. destruct (ring_split_head p l2) as [C HC].
  set (a := default p (last l1)) in *. set (c := default p (head l2)) in *.
  change (p :: l1 ++ x :: l2) with ((p :: l1) ++ x :: l2) in Hnd.
  assert (p :: (l1 ++ x :: l2) ++ [p] = A ++ a :: x :: c :: C) as E1.
  { change (p :: (l1 ++ x :: l2) ++ [p]) with (((p :: l1) ++ x :: l2) ++ [p]).
    rewrite HA, <- app_assoc. cbn. rewrite HC. by rewrite <- app_assoc. }
  assert (p :: (l1 ++ l2) ++ [p] = A ++ a :: c :: C) as E2.
  { change (p :: (l1 ++ l2) ++ [p]) with (((p :: l1) ++ l2) ++ [p]).
    rewrite HA, <- app_assoc, HC. by rewrite <- app_assoc. }
  rewrite E1 in Hl. apply linked_app in Hl as [HlA Hl].
  apply linked_cons2 in Hl as (_ & _ & Hl). apply linked_cons2 in Hl as (_ & _ & HlC).
  apply NoDup_app in Hnd as (Hnd1 & Hdis & Hnd2).
  apply NoDup_cons in Hnd1 as [Hp1 Hnd1]. apply NoDup_cons in Hnd2 as [Hx2 Hnd2].
  split.
  - rewrite E2. apply linked_app. split.
    + apply linked_frame2 with (h := h); [..|done].
      * intros b Hb. rewrite removelast_last in Hb. rewrite N, decide_False; [done|].
        intros ->. assert (NoDup (A ++ [a])) as Hn by (rewrite <- HA; by constructor).
        apply NoDup_app in Hn. set_solver.
      * intros b Hb. rewrite <- HA in Hb. cbn in Hb. rewrite P, decide_False; [done|].
        intros ->. assert (c ∈ l2 ++ [p]) as Hc by (rewrite HC; set_solver).
        apply elem_of_app in Hc as [Hc|Hc]; [|apply list_elem_of_singleton in Hc; congruence]. apply (Hdis c); by right.
    + apply linked_cons2. rewrite N, P, !decide_True by done. split_and!; [done..|].
      apply linked_frame2 with (h := h); [..|done].
      * intros b Hb. rewrite <- HC, removelast_last in Hb. rewrite N, decide_False; [done|].
        intros ->. assert (a ∈ p :: l1) by (rewrite HA; set_solver).
        apply (Hdis a); [done|by right].
      * intros b Hb. cbn in Hb. rewrite P, decide_False; [done|]. intros ->.
        assert (NoDup (l2 ++ [p])) as Hn.
        { apply NoDup_app. split; [done|]. split; [|apply NoDup_singleton].
          intros y Hy Hyp. apply (Hdis y); [set_solver|by right]. }
        rewrite HC in Hn. apply NoDup_cons in Hn as [? _]. done.
  - change (p :: l1 ++ l2) with ((p :: l1) ++ l2). apply NoDup_app.
    split; [by constructor|]. split; [set_solver|done].
Qed.

(** An inner bucket's neighbours. *)
Lemma ring_inner h p l1 x l2 :
  ring h p (l1 ++ x :: l2) ->
  nxt h x = Some (default p (head l2)) /\ prv h x = Some (default p (last l1)).
Proof.
  intros [Hl _]. destruct (ring_split_last p l1) as [A HA].
  destruct (ring_split_head p l2) as [C HC].
  assert (p :: (l1 ++ x :: l2) ++ [p]
          = A ++ default p (last l1) :: x :: default p (head l2) :: C) as E1.
  { change (p :: (l1 ++ x :: l2) ++ [p]) with (((p :: l1) ++ x :: l2) ++ [p]).
    rewrite HA, <- app_assoc. cbn. rewrite HC. by rewrite <- app_assoc. }
  rewrite E1 in Hl. apply linked_app in Hl as [_ Hl].
  apply linked_cons2 in Hl as (_ & ? & Hl). apply linked_cons2 in Hl as (? & _ & _). done.
Qed.

(** A ring none of whose buckets changes. *)
Lemma ring_frame h h' p l :
  (forall a, a ∈ p :: l -> h' !! a = h !! a) -> ring h p l -> ring h' p l.
Proof.
  intros Hf [Hl Hnd]. split; [|done]. eapply linked_frame_notin; [|done]. set_solver.
Qed.

(** ** Heap-level specifications of the pointer operations *)

Section HeapSpecs.
Context {F : Type}.
Implicit Types (s : qmem F) (q : TQueue F) (h : gmap Z BUCKET).

(** [h'] is [h] with the bucket [a]'s next (prev) pointer set to [v]. *)
Definition next_set h h' (a v : Z) : Prop :=
  (forall x, nxt h' x = if decide (x = a) then Some v else nxt h x) /\
  (forall x, prv h' x = prv h x) /\
  (forall x, x <> a -> h' !! x = h !! x) /\
  dom h' = dom h.
Definition prev_set h h' (a v : Z) : Prop :=
  (forall x, prv h' x = if decide (x = a) then Some v else prv h x) /\
  (forall x, nxt h' x = nxt h x) /\
  (forall x, x <> a -> h' !! x = h !! x) /\
  dom h' = dom h.

Lemma dom_insert_same h a b b' : h !! a = Some b -> dom (<[a := b']> h) = dom h.
Proof. intros H. rewrite dom_insert_lookup_L; eauto. Qed.

Lemma set_next_spec s a v :
  is_Some (links s !! a) ->
  exists h', set_next a v s = Ret tt (s <| links := h' |>) /\ next_set (links s) h' a v.
Proof.
  intros [b Hb]. exists (<[a := b <| b_next := v |>]> (links s)). split.
  - unfold set_next, load_bucket. mrun. rewrite Hb. done.
  - repeat split; [..|by eapply dom_insert_same].
    + intros x. rewrite nxt_insert. cbn. repeat case_decide; congruence.
    + intros x. rewrite prv_insert. cbn. case_decide; [|done]. subst.
      unfold prv. rewrite Hb. done.
    + intros x Hx. by rewrite lookup_insert_ne.
Qed.

Lemma set_prev_spec s a v :
  is_Some (links s !! a) ->
  exists h', set_prev a v s = Ret tt (s <| links := h' |>) /\ prev_set (links s) h' a v.
Proof.
  intros [b Hb]. exists (<[a := b <| b_prev := v |>]> (links s)). split.
  - unfold set_prev, load_bucket. mrun. rewrite Hb. done.
  - repeat split; [..|by eapply dom_insert_same].
    + intros x. rewrite prv_insert. cbn. repeat case_decide; congruence.
    + intros x. rewrite nxt_insert. cbn. case_decide; [|done]. subst.
      unfold nxt. rewrite Hb. done.
    + intros x Hx. by rewrite lookup_insert_ne.
Qed.

Lemma get_next_spec s a v : nxt (links s) a = Some v -> get_next a s = Ret v s.
Proof.
  unfold nxt, get_next, load_bucket. mrun. destruct (links s !! a) as [b|]; cbn; [|done].
  by intros [= ->].
Qed.

Lemma get_prev_spec s a v : prv (links s) a = Some v -> get_prev a s = Ret v s.
Proof.
  unfold prv, get_prev, load_bucket. mrun. destruct (links s !! a) as [b|]; cbn; [|done].
  by intros [= ->].
Qed.

Lemma load_queue_spec s p q : queues s !! p = Some q -> load_queue p s = Ret q s.
Proof. intros H. unfold load_queue. mrun. by rewrite H. Qed.
Lemma store_queue_spec s p q :
  store_queue p q s = Ret tt (s <| queues := <[p := q]> (queues s) |>).
Proof. done. Qed.

Lemma add_count_spec s p q d :
  queues s !! p = Some q ->
  add_count p d s = Ret tt (s <| queues := <[p := q <| q_count := int32 (q_count q + d) |>]> (queues s) |>).
Proof. intros H. unfold add_count, load_queue, store_queue. mrun. by rewrite H. Qed.

Lemma dom_is_Some h h' (a : Z) : dom h' = dom h -> is_Some (h !! a) -> is_Some (h' !! a).
Proof. intros Hd. by rewrite <- !elem_of_dom, Hd. Qed.

(** Appending bucket [e] to the ring. *)
Lemma enQ_spec s p l elem q :
  let e := bucket_of elem in
  ring (links s) p l -> e ∉ p :: l -> is_Some (links s !! e) -> queues s !! p = Some q ->
  exists h', enQ p elem s =
      Ret tt (s <| links := h' |>
                <| queues := <[p := q <| q_count := int32 (q_count q + 1) |>]> (queues s) |>)
    /\ ring h' p (l ++ [e])
    /\ (forall a, a ∉ e :: p :: l -> h' !! a = links s !! a)
    /\ dom h' = dom (links s).
Proof.
  intros e Hr He Hie Hq.
  pose proof (ring_is_Some _ _ _ p Hr ltac:(set_solver)) as Hip.
  pose proof (ring_prev _ _ _ Hr) as Hz.
  destruct (ring_split_last p l) as [L HL]. set (z := default p (last l)) in *.
  assert (z ∈ p :: l) as Hzin by (rewrite HL; set_solver).
  pose proof (ring_is_Some _ _ _ z Hr Hzin) as Hiz.
  assert (p <> e /\ z <> e) as [Hpe Hze] by (split; intros ->; set_solver).
  destruct (set_next_spec s e p Hie) as (h1 & E1 & N1 & P1 & O1 & D1).
  destruct (set_prev_spec (s <| links := h1 |>) e z) as (h2 & E2 & P2 & N2 & O2 & D2);
    [by eapply dom_is_Some|].
  destruct (set_next_spec (s <| links := h2 |>) z e) as (h3 & E3 & N3 & P3 & O3 & D3);
    [cbn in *; eapply dom_is_Some; [|exact Hiz]; congruence|].
  destruct (set_prev_spec (s <| links := h3 |>) p e) as (h4 & E4 & P4 & N4 & O4 & D4);
    [cbn in *; eapply dom_is_Some; [|exact Hip]; congruence|].
  cbn in *. exists h4. split_and!.
  - unfold enQ. fold e. rewrite (bind_Ret _ _ _ _ _ E1).
    rewrite (bind_Ret _ _ _ z (s <| links := h1 |>)).
    2:{ apply get_prev_spec. cbn. by rewrite P1. }
    rewrite (bind_Ret _ _ _ _ _ E2).
    rewrite (bind_Ret _ _ _ z (s <| links := h2 |>)).
    2:{ apply get_prev_spec. cbn. rewrite P2, decide_False by done. by rewrite P1. }
    rewrite (bind_Ret _ _ _ _ _ E3), (bind_Ret _ _ _ _ _ E4).
    by erewrite add_count_spec.
  - apply (ring_snoc (links s)); [done|done|..]; fold z.
    + intros x. by rewrite N4, N3, N2, N1.
    + intros x. by rewrite P4, P3, P2, P1.
  - intros a Ha. assert (a <> z) by (intros ->; set_solver).
    rewrite O4, O3, O2, O1 by set_solver. done.
  - congruence.
Qed.

(** Unlinking an inner bucket of the ring. *)
Lemma Q_delElem_spec s p l1 e l2 q :
  ring (links s) p (l1 ++ e :: l2) -> queues s !! p = Some q ->
  exists h', Q_delElem p e s =
      Ret e (s <| links := h' |>
               <| queues := <[p := q <| q_count := int32 (q_count q + -1) |>]> (queues s) |>)
    /\ ring h' p (l1 ++ l2)
    /\ (forall a, a ∉ p :: l1 ++ l2 -> h' !! a = links s !! a)
    /\ dom h' = dom (links s).
Proof.
  intros Hr Hq. destruct (ring_inner _ _ _ _ _ Hr) as [Hc Ha].
  destruct (ring_split_last p l1) as [A HA]. destruct (ring_split_head p l2) as [C HC].
  set (a := default p (last l1)) in *. set (c := default p (head l2)) in *.
  assert (a ∈ p :: l1) as Hain by (rewrite HA; set_solver).
  assert (c ∈ l2 ++ [p]) as Hcin by (rewrite HC; set_solver).
  assert (is_Some (links s !! a)) as Hia by (eapply ring_is_Some; [done|]; set_solver).
  assert (is_Some (links s !! c)) as Hic by (eapply ring_is_Some; [done|]; set_solver).
  assert (e <> a) as Hea.
  { intros Heq. destruct Hr as [_ Hnd].
    change (p :: l1 ++ e :: l2) with ((p :: l1) ++ e :: l2) in Hnd.
    apply NoDup_app in Hnd as (_ & Hdis & _). apply (Hdis e); [congruence|by left]. }
  destruct (set_next_spec s a c Hia) as (h1 & E1 & N1 & P1 & O1 & D1).
  destruct (set_prev_spec (s <| links := h1 |>) c a) as (h2 & E2 & P2 & N2 & O2 & D2);
    [by eapply dom_is_Some|].
  cbn in *. exists h2. split_and!.
  - unfold Q_delElem.
    rewrite (bind_Ret _ _ _ _ _ (get_next_spec s e c Hc)).
    rewrite (bind_Ret _ _ _ _ _ (get_prev_spec s e a Ha)).
    rewrite (bind_Ret _ _ _ _ _ E1).
    rewrite (bind_Ret _ _ _ c (s <| links := h1 |>)).
    2:{ apply get_next_spec. cbn. rewrite N1, decide_False by done. done. }
    rewrite (bind_Ret _ _ _ a (s <| links := h1 |>)).
    2:{ apply get_prev_spec. cbn. by rewrite P1. }
    rewrite (bind_Ret _ _ _ _ _ E2).
    erewrite bind_Ret; [|by apply add_count_spec]. done.
  - eapply ring_delete; [exact Hr|..].
    + intros y. fold a c. by rewrite N2, N1.
    + intros y. fold a c. by rewrite P2, P1.
  - intros x Hx. rewrite O2, O1; [done|..]; intros ->; set_solver.
  - congruence.
Qed.

(** The search walks the ring up to the first element the comparison accepts. *)
Lemma search_spec s (call : Z -> bool) p done_l todo fuel :
  ring (links s) p (bucket_of <$> done_l ++ todo) ->
  (forall x, x ∈ todo -> bucket_of x <> NULL) ->
  (length todo < fuel)%nat ->
  search call fuel p (default p (head (bucket_of <$> todo))) s =
    Ret (bucket_of <$> find call todo) s.
Proof.
  revert done_l fuel. induction todo as [|x todo IH]; intros dl fuel Hr Hnn Hf;
    (destruct fuel as [|fuel]; [cbn in Hf; lia|]); cbn [search].
  - cbn. rewrite Z.eqb_refl, orb_true_r. done.
  - change (default p (head (bucket_of <$> x :: todo))) with (bucket_of x).
    assert (bucket_of x <> NULL) as Hx by (apply Hnn; by left).
    assert (bucket_of x <> p) as Hxp.
    { destruct Hr as [_ Hnd]. apply NoDup_cons in Hnd as [Hnd _]. intros <-. apply Hnd.
      apply list_elem_of_fmap_2. set_solver. }
    rewrite (proj2 (Z.eqb_neq _ _) Hx), (proj2 (Z.eqb_neq _ _) Hxp). cbn [orb].
    replace (elem_of_bucket (bucket_of x)) with x by (unfold elem_of_bucket, bucket_of; lia).
    cbn [find]. destruct (call x); [done|].
    rewrite fmap_app, fmap_cons in Hr.
    rewrite (bind_Ret _ _ _ _ _ (get_next_spec _ _ _ (proj1 (ring_inner _ _ _ _ _ Hr)))).
    apply (IH (dl ++ [x])); [|set_solver|cbn in Hf; lia].
    rewrite <- app_assoc, fmap_app. cbn. done.
Qed.
End HeapSpecs.

(** ** The representation invariant *)

(** Where a bucket is: on the ring of a queue, in a queue's pool of free
    elements, handed out, or the sentinel of a queue. *)
Inductive place := InRing (p : Z) | InPool (p : Z) | Out | Sentinel.

(** Bucket [b] is at place [w] of the view and the pools [fl]. *)
Definition at_place {F} (v : qview F) (fl : gmap Z (list Z)) (w : place) (b : Z) : Prop :=
  match w with
  | InRing p => exists l, v_list v !! p = Some l /\ elem_of_bucket b ∈ l
  | InPool p => exists f, fl !! p = Some f /\ b ∈ f
  | Out => elem_of_bucket b ∈ v_live v /\ unqueued v (elem_of_bucket b)
  | Sentinel => is_Some (v_list v !! b)
  end.

(** Queue [p] holds [l] and its pool. *)
Definition queue_ok {F} (s : qmem F) (v : qview F) (fl : gmap Z (list Z)) p l : Prop :=
  exists q f, queues s !! p = Some q /\ fl !! p = Some f /\
    ring (links s) p (bucket_of <$> l) /\
    flist (links s) (q_allocate q) f /\ NoDup f /\
    q_count q = int32 (Z.of_nat (length l)) /\ v_cmp v !! p = Some (q_cmp q) /\
    sizeof_BUCKET < q_item_size q /\ 2 <= q_chunk_group q /\ q_item_size q * q_chunk_group q < 2 ^ 31.

(** [pl] records the one place of every bucket in use. *)
Record rep {F} (s : qmem F) (v : qview F) (pl : gmap Z place) (fl : gmap Z (list Z)) : Prop := {
  rep_places b w : pl !! b = Some w <-> at_place v fl w b;
  rep_queue p l : v_list v !! p = Some l -> queue_ok s v fl p l;
  rep_queued_live p l e : v_list v !! p = Some l -> e ∈ l -> e ∈ v_live v;
  rep_heap a w : pl !! a = Some w -> is_Some (links s !! a) /\ 0 < a < brk s;
  rep_brk : 0 < brk s;
  rep_pools p : is_Some (fl !! p) -> is_Some (v_list v !! p)
}.

Definition Rep {F} (s : qmem F) (v : qview F) : Prop := exists pl fl, rep s v pl fl.

Create HintDb tqueue.
Lemma bucket_of_inj a b : bucket_of a = bucket_of b -> a = b.
Proof. unfold bucket_of. lia. Qed.
Lemma bucket_elem b : bucket_of (elem_of_bucket b) = b.
Proof. unfold bucket_of, elem_of_bucket. lia. Qed.
Lemma elem_bucket e : elem_of_bucket (bucket_of e) = e.
Proof. unfold bucket_of, elem_of_bucket. lia. Qed.

#[export] Hint Rewrite @bucket_elem @elem_bucket : tqueue.

#[export] Instance bucket_of_Inj : Inj (=) (=) bucket_of.
Proof. intros a b. apply bucket_of_inj. Qed.

Section Representation.
Context {F : Type}.
Implicit Types (s : qmem F) (v : qview F) (pl : gmap Z place) (fl : gmap Z (list Z)).

(** An operation on queue [p] changes only buckets of [p], elements handed out,
    and new memory. *)
Definition local_change pl (p : Z) (h h' : gmap Z BUCKET) : Prop :=
  forall a, h' !! a = h !! a \/ a = p \/ pl !! a = Some Out \/ pl !! a = Some (InRing p) \/
            pl !! a = Some (InPool p) \/ pl !! a = None.

Lemma place_sentinel s v pl fl p l :
  rep s v pl fl -> v_list v !! p = Some l -> pl !! p = Some Sentinel.
Proof. intros HR Hl. apply (rep_places _ _ _ _ HR). cbn. eauto. Qed.

Lemma place_ring s v pl fl p l a :
  rep s v pl fl -> v_list v !! p = Some l -> a ∈ bucket_of <$> l -> pl !! a = Some (InRing p).
Proof.
  intros HR Hl Ha. apply list_elem_of_fmap in Ha as (e & -> & He).
  apply (rep_places _ _ _ _ HR). cbn. rewrite elem_bucket. eauto.
Qed.

Lemma place_pool s v pl fl p f a :
  rep s v pl fl -> fl !! p = Some f -> a ∈ f -> pl !! a = Some (InPool p).
Proof. intros HR Hf Ha. apply (rep_places _ _ _ _ HR). cbn. eauto. Qed.

Lemma place_out s v pl fl e :
  rep s v pl fl -> e ∈ v_live v -> unqueued v e -> pl !! bucket_of e = Some Out.
Proof. intros HR He Hu. apply (rep_places _ _ _ _ HR). cbn. rewrite elem_bucket. eauto. Qed.

(** The other queues do not notice. *)
Lemma queue_ok_other s s' v v' pl fl fl' p p' l' l :
  rep s v pl fl -> v_list v !! p = Some l -> v_list v !! p' = Some l' -> p' <> p ->
  local_change pl p (links s) (links s') ->
  queues s' !! p' = queues s !! p' -> fl' !! p' = fl !! p' -> v_cmp v' = v_cmp v ->
  queue_ok s' v' fl' p' l'.
Proof.
  intros HR Hp Hp' Hne Hloc Hq Hfl Hc.
  destruct (rep_queue _ _ _ _ HR _ _ Hp') as (q & f & Eq & Ef & Hring & Hflist & Hrest).
  pose proof (place_sentinel _ _ _ _ _ _ HR Hp). pose proof (place_sentinel _ _ _ _ _ _ HR Hp').
  exists q, f. rewrite Hq, Hfl, Hc. split_and!; try tauto.
  - eapply ring_frame; [|done]. intros a Ha.
    destruct (Hloc a) as [?|Hx]; [done|].
    apply elem_of_cons in Ha as [->|Ha]; [naive_solver congruence|].
    pose proof (place_ring _ _ _ _ _ _ _ HR Hp' Ha). naive_solver congruence.
  - eapply flist_frame; [|done]. intros a Ha.
    destruct (Hloc a) as [?|Hx]; [done|].
    pose proof (place_pool _ _ _ _ _ _ _ HR Ef Ha). naive_solver congruence.
Qed.

(** Moving bucket [b] to place [w']. *)
Lemma places_move s v v' pl fl fl' b w' :
  rep s v pl fl ->
  (forall w0 b0, b0 <> b -> at_place v' fl' w0 b0 <-> at_place v fl w0 b0) ->
  (forall w0, at_place v' fl' w0 b <-> w0 = w') ->
  forall b0 w0, <[b := w']> pl !! b0 = Some w0 <-> at_place v' fl' w0 b0.
Proof.
  intros HR Ho Hb b0 w0. rewrite lookup_insert. case_decide as Hd.
  - subst b0. rewrite Hb. naive_solver.
  - rewrite Ho by done. apply HR.
Qed.

Lemma heap_move s v pl fl s' b w w' :
  rep s v pl fl -> pl !! b = Some w -> dom (links s') = dom (links s) -> brk s' = brk s ->
  forall a w0, <[b := w']> pl !! a = Some w0 -> is_Some (links s' !! a) /\ 0 < a < brk s'.
Proof.
  intros HR Hb Hd Hbrk a w0 Ha. rewrite Hbrk.
  destruct (rep_heap _ _ _ _ HR a (if decide (b = a) then w else w0)) as [Hi Hr].
  { rewrite lookup_insert in Ha. case_decide; naive_solver. }
  split; [by eapply dom_is_Some|done].
Qed.

Lemma elem_of_snoc (l : list Z) (x y : Z) : x ∈ l ++ [y] <-> x ∈ l \/ x = y.
Proof. by rewrite elem_of_app, list_elem_of_singleton. Qed.

(** *** enQ *)
Lemma enQ_places s v pl fl p l e :
  rep s v pl fl -> v_list v !! p = Some l -> e ∈ v_live v -> unqueued v e ->
  forall b w, <[bucket_of e := InRing p]> pl !! b = Some w <->
              at_place (v <| v_list := <[p := l ++ [e]]> (v_list v) |>) fl w b.
Proof.
  intros HR Hl He Hu. pose proof (place_out _ _ _ _ _ HR He Hu) as Hpe.
  eapply places_move; [done|..].
  - intros w0 b0 Hb0. assert (elem_of_bucket b0 <> e) as Hne.
    { intros <-. by rewrite bucket_elem in Hb0. }
    destruct w0 as [p0|p0| |]; cbn; [|done|..].
    + destruct (decide (p0 = p)) as [->|]; [|by rewrite lookup_insert_ne].
      rewrite lookup_insert_eq, Hl. split; intros (l0 & [= <-] & Hin); eexists; (split; [done|]).
      * apply elem_of_snoc in Hin as [?|?]; done.
      * apply elem_of_snoc. by left.
    + apply and_iff_compat_l. unfold unqueued. cbn. split; intros Hq p0 l0 Hl0.
      * destruct (decide (p0 = p)) as [->|]; [|apply (Hq p0); by rewrite lookup_insert_ne].
        simplify_eq. specialize (Hq p (l ++ [e])). rewrite lookup_insert_eq in Hq.
        intros Hin. apply Hq; [done|]. apply elem_of_snoc. by left.
      * apply lookup_insert_Some in Hl0 as [[<- <-]|[? Hl0]]; [|by eapply Hq].
        intros [?|?]%elem_of_snoc; [by eapply Hq|done].
    + destruct (decide (b0 = p)) as [->|]; [|by rewrite lookup_insert_ne].
      rewrite lookup_insert_eq, Hl. naive_solver.
  - intros w0. pose proof (rep_places _ _ _ _ HR (bucket_of e)) as Hpl. rewrite Hpe in Hpl.
    destruct w0 as [p0|p0| |]; cbn; rewrite ?elem_bucket.
    + destruct (decide (p0 = p)) as [->|].
      * rewrite lookup_insert_eq. split; [done|]. intros _. eexists. split; [done|].
        apply elem_of_snoc. by right.
      * rewrite lookup_insert_ne by done. split; [|congruence].
        intros (l0 & Hl0 & Hin). exfalso. by apply (Hu p0 l0).
    + specialize (Hpl (InPool p0)). cbn in Hpl. naive_solver congruence.
    + split; [|done]. intros [_ Hq]. exfalso. specialize (Hq p (l ++ [e])). cbn in Hq.
      rewrite lookup_insert_eq in Hq. apply Hq; [done|]. apply elem_of_snoc. by right.
    + specialize (Hpl Sentinel). cbn in Hpl. split; [|done]. intros Hs.
      destruct (decide (bucket_of e = p)) as [Hep|]; [|rewrite lookup_insert_ne in Hs by done; naive_solver congruence].
      rewrite Hep, Hl in Hpl. assert (Some Out = Some Sentinel) by (apply Hpl; eauto). done.
Qed.

Lemma enQ_rep s v pl fl p l e :
  rep s v pl fl -> v_list v !! p = Some l -> e ∈ v_live v -> unqueued v e ->
  exists s', enQ p e s = Ret tt s' /\
    rep s' (v <| v_list := <[p := l ++ [e]]> (v_list v) |>) (<[bucket_of e := InRing p]> pl) fl.
Proof.
  intros HR Hl He Hu. pose proof (place_out _ _ _ _ _ HR He Hu) as Hpe.
  destruct (rep_queue _ _ _ _ HR _ _ Hl) as (q & f & Eq & Ef & Hring & Hfl & Hnd & Hc & Hrest).
  pose proof (place_sentinel _ _ _ _ _ _ HR Hl) as Hps.
  assert (bucket_of e ∉ p :: (bucket_of <$> l)) as Hnin.
  { intros [?|Hin]%elem_of_cons; [congruence|].
    pose proof (place_ring _ _ _ _ _ _ _ HR Hl Hin). congruence. }
  destruct (enQ_spec s p (bucket_of <$> l) e q Hring Hnin) as (h' & E & Hring' & Hoth & Hdom);
    [by apply (rep_heap _ _ _ _ HR _ _ Hpe)|done|].
  eexists. split; [exact E|]. constructor.
  - by eapply enQ_places.
  - intros p' l' Hl'. cbn in Hl'. apply lookup_insert_Some in Hl' as [[<- <-]|[Hne Hl']].
    + exists (q <| q_count := int32 (q_count q + 1) |>), f. cbn. rewrite lookup_insert_eq.
      split_and!; try tauto.
      * by rewrite fmap_app.
      * eapply flist_frame; [|done]. intros b Hb. apply Hoth. intros Hin.
        pose proof (place_pool _ _ _ _ _ _ _ HR Ef Hb).
        apply elem_of_cons in Hin as [->|[->|Hin]%elem_of_cons]; [congruence..|].
        pose proof (place_ring _ _ _ _ _ _ _ HR Hl Hin). congruence.
      * rewrite Hc, int32_add_l, length_app. f_equal. cbn. lia.
    + eapply (queue_ok_other s _ v _ pl fl fl p p' l' l); [done|done|done|congruence| |cbn; by rewrite lookup_insert_ne|done|done].
      intros a. cbn.
      destruct (decide (a ∈ bucket_of e :: p :: (bucket_of <$> l))) as [Hin|]; [|by auto].
      right. apply elem_of_cons in Hin as [->|[->|Hin]%elem_of_cons]; auto.
      right. right. left. by eapply place_ring.
  - intros p' l' x Hl' Hx. cbn in *. apply lookup_insert_Some in Hl' as [[<- <-]|[Hne Hl']].
    + apply elem_of_snoc in Hx as [Hx| ->]; [by eapply rep_queued_live|done].
    + by eapply rep_queued_live.
  - by eapply heap_move.
  - apply HR.
  - intros p0 Hp0. cbn. rewrite lookup_insert_is_Some'. right. by eapply rep_pools.
Qed.

(** *** Q_find *)
Lemma ring_length h p l : ring h p l -> (length l < size h)%nat.
Proof.
  intros Hr. pose proof (proj2 Hr) as Hnd.
  assert (list_to_set (p :: l) ⊆ dom h) as Hsub.
  { intros a Ha. apply elem_of_list_to_set in Ha. apply elem_of_dom. by eapply ring_is_Some. }
  apply subseteq_size in Hsub. rewrite size_list_to_set in Hsub by done.
  rewrite size_dom in Hsub. cbn in Hsub. lia.
Qed.

Lemma find_places s v pl fl p l1 e l2 :
  rep s v pl fl -> v_list v !! p = Some (l1 ++ e :: l2) ->
  forall b w, <[bucket_of e := Out]> pl !! b = Some w <->
              at_place (v <| v_list := <[p := l1 ++ l2]> (v_list v) |>) fl w b.
Proof.
  intros HR Hl.
  assert (e ∈ l1 ++ e :: l2) as Hel by set_solver.
  assert (pl !! bucket_of e = Some (InRing p)) as Hpe.
  { eapply place_ring; [done..|]. by apply list_elem_of_fmap_2. }
  destruct (rep_queue _ _ _ _ HR _ _ Hl) as (q & f & _ & _ & [_ Hnd] & _).
  apply NoDup_cons in Hnd as [_ Hnd]. apply (NoDup_fmap_1 bucket_of) in Hnd.
  apply NoDup_app in Hnd as (Hnd1 & Hd1 & Hnd2). apply NoDup_cons in Hnd2 as [Hn2 _].
  assert (e ∉ l1 ++ l2) as Hnin.
  { intros [?|?]%elem_of_app; [|done]. by apply (Hd1 e); [|left]. }
  eapply places_move; [done|..].
  - intros w0 b0 Hb0. assert (elem_of_bucket b0 <> e) as Hne.
    { intros <-. by rewrite bucket_elem in Hb0. }
    assert (forall x, x <> e -> x ∈ l1 ++ e :: l2 <-> x ∈ l1 ++ l2) as Hx.
    { intros x ?. rewrite !elem_of_app, elem_of_cons. naive_solver. }
    destruct w0 as [p0|p0| |]; cbn; [|done|..].
    + destruct (decide (p0 = p)) as [->|]; [|by rewrite lookup_insert_ne].
      rewrite lookup_insert_eq, Hl. specialize (Hx _ Hne). naive_solver.
    + apply and_iff_compat_l. unfold unqueued. cbn. split; intros Hq p0 l0 Hl0.
      * destruct (decide (p0 = p)) as [->|]; [|apply (Hq p0); by rewrite lookup_insert_ne].
        simplify_eq. rewrite Hx by done. apply (Hq p). by rewrite lookup_insert_eq.
      * apply lookup_insert_Some in Hl0 as [[<- <-]|[? Hl0]]; [|by eapply Hq].
        rewrite <- Hx by done. by apply (Hq p).
    + destruct (decide (b0 = p)) as [->|]; [|by rewrite lookup_insert_ne].
      rewrite lookup_insert_eq, Hl. naive_solver.
  - intros w0. pose proof (rep_places _ _ _ _ HR (bucket_of e)) as Hpl. rewrite Hpe in Hpl.
    destruct w0 as [p0|p0| |]; cbn; rewrite ?elem_bucket.
    + split; [|done]. intros (l0 & Hl0 & Hin). exfalso.
      apply lookup_insert_Some in Hl0 as [[<- <-]|[? Hl0]]; [done|].
      assert (Some (InRing p) = Some (InRing p0)); [|congruence].
      apply Hpl. cbn. rewrite elem_bucket. eauto.
    + specialize (Hpl (InPool p0)). cbn in Hpl. naive_solver congruence.
    + split; [done|]. intros _. split; [by eapply rep_queued_live|].
      intros p0 l0 Hl0 Hin. cbn in Hl0.
      apply lookup_insert_Some in Hl0 as [[<- <-]|[? Hl0]]; [done|].
      assert (Some (InRing p) = Some (InRing p0)); [|congruence].
      apply Hpl. cbn. rewrite elem_bucket. eauto.
    + specialize (Hpl Sentinel). cbn in Hpl. split; [|done]. intros Hs.
      assert (Some (InRing p) = Some Sentinel); [|done]. apply Hpl.
      destruct (decide (bucket_of e = p)) as [->|]; [by rewrite Hl|].
      by rewrite lookup_insert_ne in Hs by done.
Qed.

Lemma take_first_run s v pl fl p l f call context tag src :
  rep s v pl fl -> v_list v !! p = Some l -> v_cmp v !! p = Some (Some f) ->
  let P it := call f it context tag src =? 0 in
  Q_find call p context tag src s =
    match take_first P l with
    | None => Ret NULL s
    | Some (e, _) => (Q_delElem p (bucket_of e);; mret e) s
    end.
Proof.
  intros HR Hl Hf P.
  destruct (rep_queue _ _ _ _ HR _ _ Hl) as (q & fr & Eq & Ef & Hring & _ & _ & _ & Hcmp & _).
  unfold Q_find, load_queue. mrun. rewrite Eq, Hf in *. injection Hcmp as <-.
  rewrite (get_next_spec _ _ _ (ring_next _ _ _ Hring)).
  pose proof (ring_length _ _ _ Hring) as Hlen. rewrite length_fmap in Hlen.
  rewrite (search_spec s P p [] l); [|done| |lia].
  - rewrite find_take_first. destruct (take_first P l) as [[e l']|]; cbn; [|done].
    by rewrite elem_bucket.
  - intros x Hx. destruct (rep_heap _ _ _ _ HR (bucket_of x) (InRing p)) as [_ Hr].
    { eapply place_ring; [done..|]. by apply list_elem_of_fmap_2. }
    unfold NULL. lia.
Qed.

Lemma delElem_rep s v pl fl p l1 e l2 :
  rep s v pl fl -> v_list v !! p = Some (l1 ++ e :: l2) ->
  exists s', Q_delElem p (bucket_of e) s = Ret (bucket_of e) s' /\
    rep s' (v <| v_list := <[p := l1 ++ l2]> (v_list v) |>) (<[bucket_of e := Out]> pl) fl.
Proof.
  intros HR Hl.
  assert (pl !! bucket_of e = Some (InRing p)) as Hpe.
  { eapply place_ring; [done..|]. apply list_elem_of_fmap_2. set_solver. }
  destruct (rep_queue _ _ _ _ HR _ _ Hl) as (q & fr & Eq & Ef & Hring & Hfl & Hnd & Hc & Hrest).
  rewrite fmap_app, fmap_cons in Hring.
  destruct (Q_delElem_spec s p _ _ _ q Hring Eq) as (h' & E & Hring' & Hoth & Hdom).
  eexists. split; [exact E|].
  assert (forall a, a ∈ p :: (bucket_of <$> l1) ++ (bucket_of <$> l2) ->
            a = p \/ pl !! a = Some (InRing p)) as Hin.
  { intros a [->|Ha]%elem_of_cons; [by left|right]. eapply place_ring; [done..|].
    rewrite fmap_app, fmap_cons. set_solver. }
  constructor.
  - by eapply find_places.
  - intros p' l' Hl'. cbn in Hl'. apply lookup_insert_Some in Hl' as [[<- <-]|[Hne Hl']].
    + exists (q <| q_count := int32 (q_count q + -1) |>), fr. cbn. rewrite lookup_insert_eq.
      split_and!; try tauto.
      * by rewrite fmap_app.
      * eapply flist_frame; [|done]. intros b Hb. apply Hoth. intros Hbin.
        pose proof (place_pool _ _ _ _ _ _ _ HR Ef Hb).
        pose proof (place_sentinel _ _ _ _ _ _ HR Hl).
        apply Hin in Hbin. naive_solver congruence.
      * rewrite Hc, int32_add_l, !length_app. f_equal. cbn. lia.
    + eapply (queue_ok_other s _ v _ pl fl fl p p' l' (l1 ++ e :: l2));
        [done|done|done|congruence| |cbn; by rewrite lookup_insert_ne|done|done].
      intros a. cbn.
      destruct (decide (a ∈ p :: (bucket_of <$> l1) ++ (bucket_of <$> l2))) as [Ha|]; [|by auto].
      right. apply Hin in Ha as [|]; auto.
  - intros p' l' x Hl' Hx. cbn in *. apply lookup_insert_Some in Hl' as [[<- <-]|[Hne Hl']].
    + eapply rep_queued_live; [done..|]. rewrite elem_of_app in *. rewrite elem_of_cons. tauto.
    + by eapply rep_queued_live.
  - by eapply heap_move.
  - apply HR.
  - intros p0 Hp0. cbn. rewrite lookup_insert_is_Some'. right. by eapply rep_pools.
Qed.

Lemma find_rep s v pl fl p l f call context tag src e l' :
  rep s v pl fl -> v_list v !! p = Some l -> v_cmp v !! p = Some (Some f) ->
  take_first (fun it => call f it context tag src =? 0) l = Some (e, l') ->
  exists s', Q_find call p context tag src s = Ret e s' /\
    rep s' (v <| v_list := <[p := l']> (v_list v) |>) (<[bucket_of e := Out]> pl) fl.
Proof.
  intros HR Hl Hf Ht. rewrite (take_first_run _ _ _ _ _ _ _ _ _ _ _ HR Hl Hf), Ht.
  apply take_first_split in Ht as (l1 & l2 & -> & -> & _ & _).
  destruct (delElem_rep _ _ _ _ _ _ _ _ HR Hl) as (s' & E & HR').
  exists s'. by rewrite (bind_Ret _ _ _ _ _ E).
Qed.

Lemma deQ_rep s v pl fl p l :
  rep s v pl fl -> v_list v !! p = Some l ->
  match l with
  | [] => deQ p s = Ret NULL s
  | e :: l' => exists s', deQ p s = Ret e s' /\
      rep s' (v <| v_list := <[p := l']> (v_list v) |>) (<[bucket_of e := Out]> pl) fl
  end.
Proof.
  intros HR Hl. destruct (rep_queue _ _ _ _ HR _ _ Hl) as (q & fr & Eq & Ef & Hring & _).
  unfold deQ. rewrite (bind_Ret _ _ _ _ _ (get_next_spec _ _ _ (ring_next _ _ _ Hring))).
  destruct l as [|e l'].
  - cbn. by rewrite Z.eqb_refl.
  - change (default p (head (bucket_of <$> e :: l'))) with (bucket_of e).
    destruct (delElem_rep _ _ _ _ p [] e l' HR Hl) as (s' & E & HR').
    assert (bucket_of e <> p) as Hne.
    { destruct Hring as [_ Hnd]. apply NoDup_cons in Hnd as [Hnd _]. intros <-. apply Hnd.
      by left. }
    rewrite (proj2 (Z.eqb_neq _ _) Hne), (bind_Ret _ _ _ _ _ E).
    exists s'. split; [|done]. mrun. by rewrite elem_bucket.
Qed.

(** *** Q_freeElem *)
Lemma free_places s v pl fl p l f e :
  rep s v pl fl -> v_list v !! p = Some l -> fl !! p = Some f ->
  e ∈ v_live v -> unqueued v e ->
  forall b w, <[bucket_of e := InPool p]> pl !! b = Some w <->
    at_place (v <| v_live := v_live v ∖ {[e]} |>) (<[p := bucket_of e :: f]> fl) w b.
Proof.
  intros HR Hl Hf He Hu. pose proof (place_out _ _ _ _ _ HR He Hu) as Hpe.
  eapply places_move; [done|..].
  - intros w0 b0 Hb0. assert (elem_of_bucket b0 <> e) as Hne.
    { intros <-. by rewrite bucket_elem in Hb0. }
    destruct w0 as [p0|p0| |]; cbn; [done|..|done].
    + destruct (decide (p0 = p)) as [->|]; [|by rewrite lookup_insert_ne].
      rewrite lookup_insert_eq, Hf. split; intros (l0 & [= <-] & Hin); eexists; (split; [done|]).
      * by apply elem_of_cons in Hin as [?|?].
      * apply elem_of_cons. by right.
    + set_solver.
  - intros w0. pose proof (rep_places _ _ _ _ HR (bucket_of e)) as Hpl. rewrite Hpe in Hpl.
    destruct w0 as [p0|p0| |]; cbn; rewrite ?elem_bucket.
    + specialize (Hpl (InRing p0)). cbn in Hpl. rewrite elem_bucket in Hpl.
      naive_solver congruence.
    + destruct (decide (p0 = p)) as [->|].
      * rewrite lookup_insert_eq. split; [done|]. intros _. eexists. split; [done|]. by left.
      * rewrite lookup_insert_ne by done. specialize (Hpl (InPool p0)). cbn in Hpl.
        naive_solver congruence.
    + set_solver.
    + specialize (Hpl Sentinel). cbn in Hpl. naive_solver congruence.
Qed.

Lemma free_rep s v pl fl p l f e :
  rep s v pl fl -> v_list v !! p = Some l -> fl !! p = Some f ->
  e ∈ v_live v -> unqueued v e -> e <> NULL ->
  exists s', Q_freeElem p e s = Ret tt s' /\
    rep s' (v <| v_live := v_live v ∖ {[e]} |>) (<[bucket_of e := InPool p]> pl)
           (<[p := bucket_of e :: f]> fl).
Proof.
  intros HR Hl Hf He Hu Hnn. pose proof (place_out _ _ _ _ _ HR He Hu) as Hpe.
  destruct (rep_queue _ _ _ _ HR _ _ Hl) as (q & f' & Eq & Ef & Hring & Hfl & Hnd & Hrest).
  simplify_eq. destruct (rep_heap _ _ _ _ HR _ _ Hpe) as [Hie Hpos].
  destruct (set_prev_spec s (bucket_of e) (q_allocate q) Hie) as (h' & E & P & N & O & D).
  eexists. split.
  { unfold Q_freeElem, load_queue. rewrite (proj2 (Z.eqb_neq _ _) Hnn). mrun. rewrite Eq.
    rewrite E. unfold store_queue. mrun. done. }
  assert (bucket_of e ∉ f) as Hnf.
  { intros Hin. pose proof (place_pool _ _ _ _ _ _ _ HR Hf Hin). congruence. }
  constructor.
  - by eapply free_places.
  - intros p' l' Hl'. cbn in Hl'. destruct (decide (p' = p)) as [->|Hne].
    + rewrite Hl in Hl'. injection Hl' as <-.
      exists (q <| q_allocate := bucket_of e |>), (bucket_of e :: f). cbn.
      rewrite !lookup_insert_eq. split_and!; try tauto.
      * eapply ring_frame; [|done]. intros a Ha. apply O. intros ->.
        apply elem_of_cons in Ha as [Ha|Ha].
        -- pose proof (place_sentinel _ _ _ _ _ _ HR Hl). congruence.
        -- pose proof (place_ring _ _ _ _ _ _ _ HR Hl Ha). congruence.
      * unfold NULL. lia.
      * exists (q_allocate q). rewrite P, decide_True by done. split; [done|].
        eapply flist_frame; [|done]. intros b Hb. apply O. by intros ->.
      * by constructor.
    + eapply (queue_ok_other s _ v _ pl fl _ p p' l' l);
        [done|done|done|done| |cbn; by rewrite lookup_insert_ne|by rewrite lookup_insert_ne|done].
      intros a. cbn. destruct (decide (a = bucket_of e)) as [->|]; [by auto|]. left. by apply O.
  - intros p' l' x Hl' Hx. cbn in *. apply elem_of_difference.
    split; [by eapply rep_queued_live|]. intros ->%elem_of_singleton. by eapply Hu.
  - by eapply heap_move.
  - apply HR.
  - intros p0 [->|Hp0]%lookup_insert_is_Some'; cbn; [by eauto|by eapply rep_pools].
Qed.

(** *** Q_newElem: an element from the pool *)
Lemma new_pool_places s v pl fl p l b f :
  rep s v pl fl -> v_list v !! p = Some l -> fl !! p = Some (b :: f) -> NoDup (b :: f) ->
  forall b0 w, <[b := Out]> pl !! b0 = Some w <->
    at_place (v <| v_live := {[elem_of_bucket b]} ∪ v_live v |>) (<[p := f]> fl) w b0.
Proof.
  intros HR Hl Hf Hnd.
  assert (pl !! b = Some (InPool p)) as Hpb by (eapply place_pool; [done..|by left]).
  apply NoDup_cons in Hnd as [Hbf _].
  eapply places_move; [done|..].
  - intros w0 b0 Hb0. assert (elem_of_bucket b0 <> elem_of_bucket b) as Hne.
    { intros H%(f_equal bucket_of). by rewrite !bucket_elem in H. }
    destruct w0 as [p0|p0| |]; cbn; [done|..|done].
    + destruct (decide (p0 = p)) as [->|]; [|by rewrite lookup_insert_ne].
      rewrite lookup_insert_eq, Hf. split; intros (l0 & [= <-] & Hin); eexists; (split; [done|]).
      * by right.
      * by apply elem_of_cons in Hin as [?|?].
    + set_solver.
  - intros w0. pose proof (rep_places _ _ _ _ HR b) as Hpl. rewrite Hpb in Hpl.
    destruct w0 as [p0|p0| |]; cbn.
    + specialize (Hpl (InRing p0)). cbn in Hpl. naive_solver congruence.
    + split; [|done]. intros (f0 & Hf0 & Hin).
      destruct (decide (p0 = p)) as [->|Hne0]; [rewrite lookup_insert_eq in Hf0; by simplify_eq|].
      rewrite lookup_insert_ne in Hf0 by done.
      pose proof (place_pool _ _ _ _ _ _ _ HR Hf0 Hin). congruence.
    + split; [done|]. intros _. split; [set_solver|]. intros p0 l0 Hl0 Hin. cbn in Hl0.
      specialize (Hpl (InRing p0)). cbn in Hpl. naive_solver congruence.
    + specialize (Hpl Sentinel). cbn in Hpl. naive_solver congruence.
Qed.

Lemma new_pool_rep s v pl fl p l q :
  rep s v pl fl -> v_list v !! p = Some l -> queues s !! p = Some q -> q_allocate q <> NULL ->
  exists e s' f, Q_newElem p s = Ret e s' /\ e <> NULL /\ e ∉ v_live v /\ unqueued v e /\
    rep s' (v <| v_live := {[e]} ∪ v_live v |>) (<[bucket_of e := Out]> pl) (<[p := f]> fl).
Proof.
  intros HR Hl Hq Hnn.
  destruct (rep_queue _ _ _ _ HR _ _ Hl) as (q' & f & Eq & Ef & Hring & Hfl & Hnd & Hrest).
  simplify_eq. destruct f as [|b f]; [done|]. destruct Hfl as (Hb & _ & a' & Hp & Hfl). subst b.
  set (b := q_allocate q) in *.
  assert (pl !! b = Some (InPool p)) as Hpb by (eapply place_pool; [done..|by left]).
  destruct (rep_heap _ _ _ _ HR _ _ Hpb) as [Hib Hpos].
  destruct (set_next_spec (s <| queues := <[p := q <| q_allocate := a' |>]> (queues s) |>) b NULL)
    as (h' & E & N & P & O & D); [done|]. cbn in N, P, O, D.
  pose proof (rep_places _ _ _ _ HR b) as Hpl. rewrite Hpb in Hpl.
  assert (unqueued v (elem_of_bucket b)) as Huq.
  { intros p0 l0 Hl0 Hin. specialize (Hpl (InRing p0)). cbn in Hpl. naive_solver congruence. }
  exists (elem_of_bucket b). eexists. exists f. split_and!.
  - unfold Q_newElem. rewrite (bind_Ret _ _ _ _ _ (load_queue_spec _ _ _ Hq)). fold b.
    rewrite (proj2 (Z.eqb_neq _ _) Hnn). cbv zeta.
    rewrite (bind_Ret _ _ _ _ _ (get_prev_spec _ _ _ Hp)), (bind_Ret _ _ _ _ _ (store_queue_spec _ _ _)).
    rewrite (bind_Ret _ _ _ _ _ E). done.
  - unfold elem_of_bucket, NULL, sizeof_BUCKET, sizeof_ptr. lia.
  - intros Hin. specialize (Hpl Out). cbn in Hpl. naive_solver congruence.
  - done.
  - rewrite bucket_elem. apply NoDup_cons in Hnd as [Hbf Hnd']. constructor.
    + eapply new_pool_places; [done..|by constructor].
    + intros p' l' Hl'. cbn in Hl'. destruct (decide (p' = p)) as [->|Hne].
      * rewrite Hl in Hl'. injection Hl' as <-.
        exists (q <| q_allocate := a' |>), f. cbn. rewrite !lookup_insert_eq.
        split_and!; try tauto.
        -- eapply ring_frame; [|done]. intros a Ha. apply O. intros ->.
           apply elem_of_cons in Ha as [Ha|Ha].
           ++ pose proof (place_sentinel _ _ _ _ _ _ HR Hl). congruence.
           ++ pose proof (place_ring _ _ _ _ _ _ _ HR Hl Ha). congruence.
        -- eapply flist_frame; [|done]. intros x Hx. apply O. by intros ->.
      * eapply (queue_ok_other s _ v _ pl fl _ p p' l' l);
          [done|done|done|done| |cbn; by rewrite lookup_insert_ne|by rewrite lookup_insert_ne|done].
        intros a. destruct (decide (a = b)) as [->|]; [tauto|]. left. by apply O.
    + intros p' l' x Hl' Hx. cbn in *. apply elem_of_union. right. by eapply rep_queued_live.
    + by eapply heap_move.
    + apply HR.
    + intros p0 [->|Hp0]%lookup_insert_is_Some'; cbn; [by eauto|by eapply rep_pools].
Qed.

(** *** Q_newElem: a new chunk *)
Lemma chunk_bounds base size n a :
  0 < size -> a ∈ chunk_buckets base size n -> base <= a < base + Z.of_nat n * size.
Proof.
  intros Hs. revert base. induction n as [|n IH]; intros base Ha; cbn in Ha.
  - by apply not_elem_of_nil in Ha.
  - apply elem_of_cons in Ha as [->|Ha]; [nia|]. apply IH in Ha. nia.
Qed.

Lemma chunk_NoDup base size n : 0 < size -> NoDup (chunk_buckets base size n).
Proof.
  intros Hs. revert base. induction n as [|n IH]; intros base; cbn; constructor; [|done].
  intros Ha. apply chunk_bounds in Ha; lia.
Qed.

Lemma lookup_touch l h a :
  touch l h !! a = if decide (a ∈ l) then Some (Bucket uninit uninit) else h !! a.
Proof.
  induction l as [|x l IH]; [done|].
  change (touch (x :: l) h) with (<[x := Bucket uninit uninit]> (touch l h)).
  rewrite lookup_insert, IH. repeat case_decide; set_solver.
Qed.

Lemma carve_spec s size n b1 :
  0 < size -> 0 < b1 ->
  (forall a, a ∈ chunk_buckets b1 size (S n) -> is_Some (links s !! a)) ->
  exists h', (b ← link_chunk n b1 size; set_prev b NULL) s = Ret tt (s <| links := h' |>) /\
    flist h' b1 (chunk_buckets b1 size (S n)) /\
    (forall a, a ∉ chunk_buckets b1 size (S n) -> h' !! a = links s !! a) /\
    dom h' = dom (links s).
Proof.
  intros Hs. revert s b1. induction n as [|n IH]; intros s b1 Hb1 Hin.
  - destruct (set_prev_spec s b1 NULL) as (h' & E & P & N & O & D); [apply Hin; by left|].
    exists h'. cbn [link_chunk]. rewrite bind_mret. split_and!; try done.
    + cbn. split; [done|]. split; [unfold NULL; lia|]. exists NULL.
      by rewrite P, decide_True.
    + intros a Ha. apply O. intros ->. apply Ha. by left.
  - destruct (set_prev_spec s b1 (b1 + size)) as (h1 & E & P & N & O & D); [apply Hin; by left|].
    destruct (IH (s <| links := h1 |>) (b1 + size)) as (h' & E' & Hf & O' & D'); [lia| |].
    { intros a Ha. cbn. eapply dom_is_Some; [done|]. apply Hin. by right. }
    exists h'. split_and!.
    + cbn [link_chunk]. cbv zeta. rewrite bind_assoc, (bind_Ret _ _ _ _ _ E). exact E'.
    + split; [done|]. split; [unfold NULL; lia|]. exists (b1 + size). split; [|exact Hf].
      unfold prv. rewrite O'; [|intros Ha%chunk_bounds; lia]. cbn. fold (prv h1 b1).
      by rewrite P, decide_True.
    + intros a Ha. cbn [chunk_buckets] in Ha. apply not_elem_of_cons in Ha as [? Ha].
      rewrite O' by done. by apply O.
    + cbn in D'. congruence.
Qed.

Definition mark (p : Z) (l : list Z) pl : gmap Z place :=
  foldr (fun a m => <[a := InPool p]> m) pl l.
Lemma lookup_mark p l pl a :
  mark p l pl !! a = if decide (a ∈ l) then Some (InPool p) else pl !! a.
Proof.
  induction l as [|x l IH]; [done|].
  change (mark p (x :: l) pl) with (<[x := InPool p]> (mark p l pl)).
  rewrite lookup_insert, IH.
  repeat case_decide; set_solver.
Qed.

Lemma new_chunk_places s v pl fl p l b f :
  rep s v pl fl -> v_list v !! p = Some l -> fl !! p = Some [] ->
  brk s <= b -> b ∉ f -> (forall a, a ∈ f -> brk s <= a) ->
  forall b0 w, <[b := Out]> (mark p f pl) !! b0 = Some w <->
    at_place (v <| v_live := {[elem_of_bucket b]} ∪ v_live v |>) (<[p := f]> fl) w b0.
Proof.
  intros HR Hl Hf0 Hb Hbf Hf.
  assert (forall a w, brk s <= a -> ~ at_place v fl w a) as Hnew.
  { intros a w Ha Hw. apply (rep_places _ _ _ _ HR), (rep_heap _ _ _ _ HR) in Hw. lia. }
  assert (forall w0 b0, b0 <> b -> b0 ∉ f ->
            at_place (v <| v_live := {[elem_of_bucket b]} ∪ v_live v |>) (<[p := f]> fl) w0 b0
            <-> at_place v fl w0 b0) as Hold.
  { intros w0 b0 Hb0 Hb0f. assert (elem_of_bucket b0 <> elem_of_bucket b) as Hne.
    { intros H%(f_equal bucket_of). by rewrite !bucket_elem in H. }
    destruct w0 as [p0|p0| |]; cbn; [done|..|done].
    - destruct (decide (p0 = p)) as [->|]; [|by rewrite lookup_insert_ne].
      rewrite lookup_insert_eq, Hf0. naive_solver set_solver.
    - set_solver. }
  assert (forall w0 b0, brk s <= b0 -> 
            at_place (v <| v_live := {[elem_of_bucket b]} ∪ v_live v |>) (<[p := f]> fl) w0 b0
            <-> (w0 = Out /\ b0 = b) \/ (w0 = InPool p /\ b0 ∈ f)) as Hnews.
  { intros w0 b0 Hb0. pose proof (Hnew b0) as Hno. destruct w0 as [p0|p0| |]; cbn.
    - specialize (Hno (InRing p0) Hb0). cbn in Hno. naive_solver.
    - specialize (Hno (InPool p0) Hb0). cbn in Hno.
      destruct (decide (p0 = p)) as [->|]; [rewrite lookup_insert_eq; naive_solver|].
      rewrite lookup_insert_ne by done. naive_solver.
    - specialize (Hno Out Hb0). cbn in Hno. split.
      + intros [[Hx|Hx]%elem_of_union Hu]; [|exfalso; by apply Hno].
        left. split; [done|]. apply elem_of_singleton in Hx.
        apply (f_equal bucket_of) in Hx. by rewrite !bucket_elem in Hx.
      + intros [[_ ->]|[? _]]; [|done]. split; [set_solver|].
        intros p0 l0 Hl0 Hin. cbn in Hl0. apply (Hnew b (InRing p0) Hb0). cbn. eauto.
    - specialize (Hno Sentinel Hb0). cbn in Hno. naive_solver. }
  intros b0 w. rewrite lookup_insert, lookup_mark. repeat case_decide; subst.
  - rewrite Hnews by done. naive_solver.
  - rewrite Hnews by auto. naive_solver.
  - rewrite Hold by done. apply HR.
Qed.

Lemma malloc_chunk_spec s size n :
  0 < size -> 0 <= n -> size * n < 2 ^ 31 ->
  malloc_chunk size n s =
    if brk s + align8 (size * n) <=? lim s
    then if brk s =? NULL then Ret NULL (s <| brk := brk s + align8 (size * n) |>)
         else Ret (brk s) (s <| brk := brk s + align8 (size * n) |>
                <| links := touch (chunk_buckets (brk s) size (Z.to_nat n)) (links s) |>)
    else Ret NULL s.
Proof.
  intros Hs Hn Hb. unfold malloc_chunk, malloc. mrun. rewrite uint32_id by (unfold is_uint32; lia).
  rewrite Z.mul_comm, Z.div_mul by lia. destruct (_ <=? _); [|done]. by destruct (brk s =? NULL).
Qed.

Lemma align8_ge n : n <= align8 n < n + 8.
Proof. unfold align8. pose proof (Z.div_mod (n + 7) 8). pose proof (Z.mod_pos_bound (n + 7) 8). lia. Qed.

(** The state [Q_newElem] leaves when it has carved a new chunk. *)
Lemma new_chunk_run s p q :
  queues s !! p = Some q -> q_allocate q = NULL -> 0 < brk s ->
  sizeof_BUCKET < q_item_size q -> 2 <= q_chunk_group q /\ q_item_size q * q_chunk_group q < 2 ^ 31 ->
  let size := q_item_size q in
  let chunk := chunk_buckets (brk s + size) size (S (Z.to_nat (q_chunk_group q - 2))) in
  if brk s + align8 (size * q_chunk_group q) <=? lim s then
    exists h', Q_newElem p s = Ret (elem_of_bucket (brk s))
        (s <| links := h' |> <| queues := <[p := q <| q_allocate := brk s + size |>]> (queues s) |>
           <| brk := brk s + align8 (size * q_chunk_group q) |>) /\
      flist h' (brk s + size) chunk /\
      (forall a, a <> brk s -> a ∉ chunk -> h' !! a = links s !! a) /\
      (forall a, a = brk s \/ a ∈ chunk \/ is_Some (links s !! a) -> is_Some (h' !! a))
  else Q_newElem p s = Ret NULL s.
Proof.
  intros Hq Ha Hb Hsz [Hg Hfit] size chunk. assert (sizeof_BUCKET > 0) as Hsb by done.
  unfold Q_newElem. rewrite (bind_Ret _ _ _ _ _ (load_queue_spec _ _ _ Hq)), Ha, Z.eqb_refl.
  cbv zeta. fold size. pose proof (malloc_chunk_spec s size (q_chunk_group q) ltac:(lia) ltac:(lia) Hfit) as Hm.
  destruct (_ <=? _); [|by rewrite (bind_Ret _ _ _ _ _ Hm)].
  assert (brk s =? NULL = false) as Hbn by (apply Z.eqb_neq; unfold NULL; lia).
  rewrite Hbn in Hm. rewrite (bind_Ret _ _ _ _ _ Hm), Hbn. clear Hm.
  assert (Z.to_nat (q_chunk_group q) = S (S (Z.to_nat (q_chunk_group q - 2)))) as Hgn by lia.
  rewrite Hgn; change (chunk_buckets (brk s) size (S (S (Z.to_nat (q_chunk_group q - 2)))))
                 with (brk s :: chunk). 
  set (s1 := s <| brk := brk s + align8 (size * q_chunk_group q) |>
               <| links := touch (brk s :: chunk) (links s) |>).
  destruct (carve_spec s1 size (Z.to_nat (q_chunk_group q - 2)) (brk s + size))
    as (h1 & E1 & Hfl & Ho1 & Hd1); [lia|lia| |].
  { intros a Hin. subst s1. cbn [links]. change (is_Some (touch (brk s :: chunk) (links s) !! a)).
    rewrite lookup_touch, decide_True by (by right). eauto. }
  destruct (set_next_spec (s1 <| links := h1 |>
      <| queues := <[p := q <| q_allocate := brk s + size |>]> (queues s) |>) (brk s) NULL)
    as (h2 & E2 & N2 & P2 & O2 & D2).
  { eapply (dom_is_Some _ _ _ Hd1).
    change (is_Some (touch (brk s :: chunk) (links s) !! brk s)).
    rewrite lookup_touch, decide_True by (by left). eauto. }
  assert (brk s ∉ chunk) as Hnb by (intros Hin%chunk_bounds; lia).
  exists h2. split_and!.
  - apply bind_inv in E1 as (b1 & s2 & E1 & E1'). change (brk s1) with (brk s + align8 (size * q_chunk_group q)) in *.
    rewrite (bind_Ret _ _ _ _ _ E1), (bind_Ret _ _ _ _ _ E1').
    rewrite (bind_Ret _ _ _ _ _ (store_queue_spec _ _ _)). rewrite (bind_Ret _ _ _ _ _ E2). done.
  - eapply flist_frame; [|exact Hfl]. intros a Hin. apply O2. by intros ->.
  - intros a Hne Hnin. rewrite O2 by done. cbn. rewrite Ho1 by done. subst s1. cbn.
    change (touch (brk s :: chunk) (links s) !! a = links s !! a).
    rewrite lookup_touch, decide_False; [done|]. by apply not_elem_of_cons.
  - intros a Hin. eapply (dom_is_Some _ _ _ D2). eapply (dom_is_Some _ _ _ Hd1).
    change (is_Some (touch (brk s :: chunk) (links s) !! a)). rewrite lookup_touch.
    case_decide as Hc; [eauto|]. apply not_elem_of_cons in Hc. naive_solver.
Qed.

Lemma new_chunk_rep s v pl fl p l q :
  rep s v pl fl -> v_list v !! p = Some l -> queues s !! p = Some q -> q_allocate q = NULL ->
  exists e s', Q_newElem p s = Ret e s' /\
    (e = NULL /\ s' = s \/
     e <> NULL /\ e ∉ v_live v /\ unqueued v e /\
     exists pl' fl', rep s' (v <| v_live := {[e]} ∪ v_live v |>) pl' fl').
Proof.
  intros HR Hl Hq Ha.
  destruct (rep_queue _ _ _ _ HR _ _ Hl) as (q' & f & Eq & Ef & Hring & Hfl & Hnd & Hc & Hcmp & Hsz & Hg).
  simplify_eq. assert (f = []) as -> by (destruct f as [|? ?]; [done|cbn in Hfl; naive_solver]).
  pose proof (new_chunk_run s p q Hq Ha (rep_brk _ _ _ _ HR) Hsz Hg) as Hrun. cbv zeta in Hrun.
  set (size := q_item_size q) in *.
  set (chunk := chunk_buckets (brk s + size) size (S (Z.to_nat (q_chunk_group q - 2)))) in *.
  destruct (_ <=? _); [|by eauto 10].
  destruct Hrun as (h' & E & Hfl' & Ho & Hs). eexists _, _. split; [exact E|]. right.
  assert (sizeof_BUCKET > 0) as Hsb by done. pose proof (rep_brk _ _ _ _ HR) as Hb.
  assert (forall w, ~ at_place v fl w (brk s)) as Hnew.
  { intros w Hw. apply (rep_places _ _ _ _ HR), (rep_heap _ _ _ _ HR) in Hw. lia. }
  assert (forall a, a ∈ chunk -> brk s < a < brk s + align8 (size * q_chunk_group q)) as Hch.
  { intros a Hin%chunk_bounds; [|lia]. pose proof (align8_ge (size * q_chunk_group q)). nia. }
  assert (NoDup chunk) as Hnd' by (apply chunk_NoDup; lia).
  clearbody chunk. split_and!.
  - unfold elem_of_bucket, NULL, sizeof_BUCKET, sizeof_ptr. lia.
  - intros Hin. apply (Hnew Out). split; [done|].
    intros p0 l0 Hl0 Hin0. apply (Hnew (InRing p0)). cbn. eauto.
  - intros p0 l0 Hl0 Hin. apply (Hnew (InRing p0)). cbn. eauto.
  - exists (<[brk s := Out]> (mark p chunk pl)), (<[p := chunk]> fl). constructor.
    + eapply new_chunk_places; [done..|lia| |].
      * intros Hin%Hch. lia.
      * intros a Hin%Hch. lia.
    + intros p' l' Hl'. cbn in Hl'. destruct (decide (p' = p)) as [->|Hne].
      * rewrite Hl in Hl'. injection Hl' as <-.
        exists (q <| q_allocate := brk s + size |>), chunk. cbn. rewrite !lookup_insert_eq.
        split_and!; try done; try apply Hg.
        -- eapply ring_frame; [|done]. intros a Hin.
           assert (exists w, pl !! a = Some w) as [w Hw].
           { apply elem_of_cons in Hin as [->|Hin]; eexists;
               [by eapply place_sentinel|by eapply place_ring]. }
           apply (rep_heap _ _ _ _ HR) in Hw as [_ Hw].
           apply Ho; [lia|]. intros Hin'%Hch. lia.
      * eapply (queue_ok_other s _ v _ pl fl _ p p' l' l);
          [done|done|done|done| |cbn; by rewrite lookup_insert_ne|by rewrite lookup_insert_ne|done].
        intros a. destruct (pl !! a) as [w|] eqn:Hw; [left|tauto].
        apply (rep_heap _ _ _ _ HR) in Hw as [_ Hw]. apply Ho; [lia|]. intros Hin'%Hch. lia.
    + intros p' l' x Hl' Hx. cbn in *. apply elem_of_union. right. by eapply rep_queued_live.
    + intros a w. cbn. rewrite lookup_insert, lookup_mark. intros Hw.
      pose proof (align8_ge (size * q_chunk_group q)). repeat case_decide; subst.
      * split; [apply Hs; tauto|nia].
      * split; [apply Hs; tauto|]. by apply Hch in H1; lia.
      * apply (rep_heap _ _ _ _ HR) in Hw as [Hi Hw]. split; [apply Hs; tauto|nia].
    + cbn. pose proof (align8_ge (size * q_chunk_group q)). nia.
    + intros p0 [->|Hp0]%lookup_insert_is_Some'; cbn; [by eauto|by eapply rep_pools].
Qed.

(** *** Creation *)
Lemma Rep_empty b l : 0 < b -> Rep (mkQmem (F := F) ∅ ∅ b l) (QView ∅ ∅ ∅).
Proof.
  intros Hb. exists ∅, ∅. constructor; cbn; try done.
  intros a w. rewrite lookup_empty. destruct w as [p|p| |]; cbn; split; try done.
  - by intros (? & ? & _).
  - by intros (? & ? & _).
  - by intros [? _].
  - intros [? ?]. done.
Qed.

Lemma adjust_item_size_ge n : 0 < n -> n <= adjust_item_size n.
Proof.
  intros Hn. unfold adjust_item_size. destruct (negb _); [|lia].
  rewrite Z.shiftl_mul_pow2, Z.shiftr_div_pow2 by lia. change (2 ^ 3) with 8.
  pose proof (Z.div_mod (n + 7) 8). pose proof (Z.mod_pos_bound (n + 7) 8). lia.
Qed.

Definition new_queue (cmp : option F) (item_size group : Z) : TQueue F :=
  mkTQueue 0 0 cmp NULL (adjust_item_size item_size + sizeof_BUCKET) group.

(** The control block with an empty ring and an empty pool. *)
Lemma control_rep s v pl fl p cmp item_size group n :
  rep s v pl fl -> brk s <= p -> p < n -> 0 < item_size -> 1 < group -> chunk_fits item_size group ->
  rep (s <| brk := n |> <| links := <[p := Bucket p p]> (links s) |>
         <| queues := <[p := new_queue cmp item_size group]> (queues s) |>)
      (v <| v_list := <[p := []]> (v_list v) |> <| v_cmp := <[p := cmp]> (v_cmp v) |>)
      (<[p := Sentinel]> pl) (<[p := []]> fl).
Proof.
  intros HR Hp Hn Hi Hg Hfit. pose proof (rep_brk _ _ _ _ HR) as Hb.
  assert (forall w, ~ at_place v fl w p) as Hnew.
  { intros w Hw. apply (rep_places _ _ _ _ HR), (rep_heap _ _ _ _ HR) in Hw. lia. }
  assert (v_list v !! p = None) as Hvp.
  { destruct (v_list v !! p) eqn:E; [|done]. exfalso. apply (Hnew Sentinel). cbn. eauto. }
  assert (forall e, unqueued (v <| v_list := <[p := []]> (v_list v) |>
                               <| v_cmp := <[p := cmp]> (v_cmp v) |>) e <-> unqueued v e) as Hun.
  { intros e. unfold unqueued. cbn. split; intros Hu p0 l0 Hl0.
    - apply (Hu p0). rewrite lookup_insert_ne; [done|congruence].
    - apply lookup_insert_Some in Hl0 as [[_ <-]|[_ Hl0]]; [apply not_elem_of_nil|by eapply Hu]. }
  constructor.
  - eapply places_move; [done|..].
    + intros w0 b0 Hb0. destruct w0 as [p0|p0| |]; cbn.
      * destruct (decide (p0 = p)) as [->|]; [|by rewrite lookup_insert_ne].
        rewrite lookup_insert_eq, Hvp. split; [|naive_solver].
        by intros (l0 & [= <-] & Hin%not_elem_of_nil).
      * destruct (decide (p0 = p)) as [->|]; [|by rewrite lookup_insert_ne].
        rewrite lookup_insert_eq. split.
        -- by intros (l0 & [= <-] & Hin%not_elem_of_nil).
        -- intros (f0 & Hf0 & Hin). exfalso.
           destruct (rep_pools _ _ _ _ HR p) as [? ?]; [by eauto|congruence].
      * by rewrite Hun.
      * by rewrite lookup_insert_ne.
    + intros w0. pose proof (Hnew w0) as Hno. destruct w0 as [p0|p0| |]; cbn in *.
      * destruct (decide (p0 = p)) as [->|].
        -- rewrite lookup_insert_eq. split; [|done]. by intros (l0 & [= <-] & Hin%not_elem_of_nil).
        -- rewrite lookup_insert_ne by done. naive_solver.
      * destruct (decide (p0 = p)) as [->|].
        -- rewrite lookup_insert_eq. split; [|done]. by intros (l0 & [= <-] & Hin%not_elem_of_nil).
        -- rewrite lookup_insert_ne by done. naive_solver.
      * rewrite Hun. naive_solver.
      * rewrite lookup_insert_eq. split; [done|]. by eauto.
  - intros p' l' Hl'. cbn in Hl'. apply lookup_insert_Some in Hl' as [[<- <-]|[Hne Hl']].
    + exists (new_queue cmp item_size group), []. cbn. rewrite !lookup_insert_eq.
      pose proof (adjust_item_size_ge item_size Hi).
      split_and!; try done; try apply NoDup_nil_2; try exact Hfit; try (unfold sizeof_BUCKET in *; lia).
      split; [|apply NoDup_singleton]. cbn. unfold nxt, prv. rewrite lookup_insert_eq. done.
    + destruct (rep_queue _ _ _ _ HR _ _ Hl') as (q & f & Eq & Ef & Hring & Hfl & Hrest).
      exists q, f. cbn. rewrite !lookup_insert_ne by done. split_and!; try tauto.
      * eapply ring_frame; [|done]. intros a Hin. apply lookup_insert_ne. intros ->.
        assert (exists w, pl !! a = Some w) as [w Hw].
        { apply elem_of_cons in Hin as [->|Hin]; eexists;
            [by eapply place_sentinel|by eapply place_ring]. }
        by apply (rep_places _ _ _ _ HR), Hnew in Hw.
      * eapply flist_frame; [|done]. intros a Hin. apply lookup_insert_ne. intros ->.
        eapply (Hnew (InPool p')). cbn. eauto.
  - intros p' l' x Hl' Hx. cbn in *.
    apply lookup_insert_Some in Hl' as [[_ <-]|[_ Hl']]; [by apply not_elem_of_nil in Hx|].
    by eapply rep_queued_live.
  - intros a w. cbn. rewrite lookup_insert. case_decide as Ha; subst.
    + intros _. rewrite lookup_insert_eq. split; [by eauto|lia].
    + intros Hw. rewrite lookup_insert_ne by done.
      apply (rep_heap _ _ _ _ HR) in Hw as [? ?]. split; [done|lia].
  - cbn. lia.
  - intros p0 [->|Hp0]%lookup_insert_is_Some'; cbn; apply lookup_insert_is_Some'; [by left|].
    right. by eapply rep_pools.
Qed.

Lemma live_placed s v pl fl e : rep s v pl fl -> e ∈ v_live v -> is_Some (pl !! bucket_of e).
Proof.
  intros HR He.
  destruct (decide (Exists (fun x => e ∈ x.2) (map_to_list (v_list v)))) as [Hex|Hnex].
  - apply Exists_exists in Hex as ([p l] & Hl%elem_of_map_to_list & Hin). exists (InRing p).
    apply (rep_places _ _ _ _ HR). cbn. rewrite elem_bucket. eauto.
  - exists Out. eapply place_out; [done..|]. intros p l Hl Hin. apply Hnex, Exists_exists.
    exists (p, l). by rewrite elem_of_map_to_list.
Qed.

(** *** The operations keep the contract *)
Lemma Rep_newElem s v p l :
  Rep s v -> v_list v !! p = Some l ->
  exists e s', Q_newElem p s = Ret e s' /\
    (e = NULL /\ Rep s' v \/
     e <> NULL /\ e ∉ v_live v /\ unqueued v e /\ Rep s' (v <| v_live := {[e]} ∪ v_live v |>)).
Proof.
  intros (pl & fl & HR) Hl.
  destruct (rep_queue _ _ _ _ HR _ _ Hl) as (q & f & Eq & _).
  destruct (decide (q_allocate q = NULL)) as [Ha|Ha].
  - destruct (new_chunk_rep _ _ _ _ _ _ _ HR Hl Eq Ha) as (e & s' & E & [[-> ->]|(? & ? & ? & ? & ? & ?)]);
      exists e || exists NULL; eexists; (split; [exact E|]).
    + left. split; [done|]. by exists pl, fl.
    + right. split_and!; try done. eexists _, _. done.
  - destruct (new_pool_rep _ _ _ _ _ _ _ HR Hl Eq Ha) as (e & s' & f' & E & ? & ? & ? & ?).
    exists e, s'. split; [done|]. right. split_and!; try done. eexists _, _. done.
Qed.

#[export] Instance Rep_QueueSpec : QueueSpec (F := F) Rep.
Proof.
  split.
  - apply Rep_newElem.
  - intros s v p l e (pl & fl & HR) Hl He Hu.
    destruct (rep_queue _ _ _ _ HR _ _ Hl) as (q & f & _ & Hf & _).
    assert (e <> NULL) as Hnn.
    { pose proof (place_out _ _ _ _ _ HR He Hu) as Hp. apply (rep_heap _ _ _ _ HR) in Hp as [_ Hp].
      unfold bucket_of, NULL, sizeof_BUCKET, sizeof_ptr in *. lia. }
    destruct (free_rep _ _ _ _ _ _ _ _ HR Hl Hf He Hu Hnn) as (s' & E & HR').
    exists s'. split; [done|]. by eexists _, _.
  - intros s v p l e (pl & fl & HR) Hl He Hu.
    destruct (enQ_rep _ _ _ _ _ _ _ HR Hl He Hu) as (s' & E & HR').
    exists s'. split; [done|]. by eexists _, _.
  - intros s v p l f call context tag src (pl & fl & HR) Hl Hf.
    destruct (take_first (fun it => call f it context tag src =? 0) l) as [[e l']|] eqn:Ht.
    + destruct (find_rep _ _ _ _ _ _ _ _ _ _ _ _ _ HR Hl Hf Ht) as (s' & E & HR').
      exists s'. split; [done|]. by eexists _, _.
    + by rewrite (take_first_run _ _ _ _ _ _ _ _ _ _ _ HR Hl Hf), Ht.
  - intros s v p l (pl & fl & HR) Hl. pose proof (deQ_rep _ _ _ _ _ _ HR Hl) as Hd.
    destruct l as [|e l']; [done|]. destruct Hd as (s' & E & HR').
    exists s'. split; [done|]. by eexists _, _.
  - intros s v p l e (pl & fl & HR). by apply HR.
  - intros s v p p' l l' e (pl & fl & HR) Hl Hl' He He'.
    assert (pl !! bucket_of e = Some (InRing p)) by (eapply place_ring, list_elem_of_fmap_2; done).
    assert (pl !! bucket_of e = Some (InRing p')) by (eapply place_ring, list_elem_of_fmap_2; done).
    congruence.
  - intros s v e (pl & fl & HR) He ->.
    destruct (live_placed _ _ _ _ _ HR He) as [w Hw].
    apply (rep_heap _ _ _ _ HR) in Hw as [_ Hw]. unfold bucket_of, NULL, sizeof_BUCKET, sizeof_ptr in Hw. lia.
  - intros s v p l (pl & fl & HR) Hl.
    destruct (rep_queue _ _ _ _ HR _ _ Hl) as (q & f & _ & _ & [_ Hnd] & _).
    apply NoDup_cons in Hnd as [_ Hnd]. by eapply NoDup_fmap_1.
Qed.

Lemma Rep_create s v cmp item_size group :
  Rep s v -> chunk_fits item_size group ->
  exists p s', Q_create cmp item_size group s = Ret p s' /\
    (p = NULL /\ Rep s' v \/
     p <> NULL /\ v_list v !! p = None /\
     Rep s' (v <| v_list := <[p := []]> (v_list v) |> <| v_cmp := <[p := cmp]> (v_cmp v) |>)).
Proof.
  intros HRep Hfit. unfold Q_create. destruct ((_ <=? _) || _) eqn:Hg; [by eauto 6|].
  apply orb_false_iff in Hg as [Hi%Z.leb_gt Hg%Z.leb_gt].
  unfold malloc. rewrite bind_assoc. mrun. destruct (_ <=? _); [|by eauto 6].
  destruct HRep as (pl & fl & HR). pose proof (rep_brk _ _ _ _ HR) as Hb.
  assert (brk s =? NULL = false) as -> by (apply Z.eqb_neq; unfold NULL; lia).
  assert (0 < align8 sizeof_TQueue) as Hal by done.
  pose proof (control_rep _ _ _ _ (brk s) cmp item_size group (brk s + align8 sizeof_TQueue) HR
                ltac:(lia) ltac:(lia) Hi Hg Hfit) as HR1.
  assert (v_list v !! brk s = None) as Hvp.
  { destruct (v_list v !! brk s) as [l0|] eqn:E; [|done]. exfalso.
    pose proof (place_sentinel _ _ _ _ _ _ HR E) as Hw. apply (rep_heap _ _ _ _ HR) in Hw. lia. }
  assert (brk s <> NULL) as Hnn by (unfold NULL; lia).
  match type of HR1 with rep ?s1 ?v1 ?pl1 ?fl1 =>
    assert (Rep s1 v1) as HRep1 by (by exists pl1, fl1);
    set (s1' := s1) in *; set (v1' := v1) in *
  end.
  assert (v_list v1' !! brk s = Some []) as Hl1 by (cbn; by rewrite lookup_insert_eq).
  destruct (Rep_newElem s1' v1' (brk s) [] HRep1 Hl1) as (e & s2 & E2 & He).
  assert (exists s3, Q_freeElem (brk s) e s2 = Ret tt s3 /\ Rep s3 v1') as (s3 & E3 & HR3).
  { destruct He as [[-> HR2]|(Hen & Hnl & Hu & HR2)]; [by exists s2|].
    destruct (freeElem_law (R := Rep) s2 _ (brk s) [] e HR2 Hl1 ltac:(cbn; set_solver) Hu)
      as (s3 & E3 & HR3).
    exists s3. split; [done|]. cbn in HR3.
    replace (({[e]} ∪ v_live v) ∖ {[e]}) with (v_live v) in HR3 by (cbn in Hnl; set_solver). done. }
  exists (brk s), s3. split; [|right; done].
  unfold mbind, M_bind.
  assert (Q_init (brk s) cmp item_size group (s <| brk := brk s + align8 sizeof_TQueue |>)
          = Ret tt s3) as ->; [|done].
  unfold Q_init. erewrite bind_Ret by reflexivity. erewrite bind_Ret by reflexivity.
  rewrite (bind_Ret _ _ _ _ _ E2). exact E3.
Qed.
End Representation.
