(* ===== verification/TQueueHeap.v ===== *)
(** The heap of the queues: it only grows, and the pointer-level representation
    supports the creation and the destruction of queues. *)
From S2P Require Import Prelude TQueue TQueueRep.

(** ** Operations that only move the break up *)

Section Grows.
Context {F : Type}.

Definition grows {A} (m : M (qmem F) A) : Prop := forall s a s', m s = Ret a s' -> brk s <= brk s'.

Lemma grows_ret {A} (a : A) : grows (mret a).
Proof. intros s b s' [= _ <-]. lia. Qed.
Lemma grows_bind {A B} (m : M (qmem F) A) (f : A -> M (qmem F) B) :
  grows m -> (forall a, grows (f a)) -> grows (m ≫= f).
Proof.
  intros Hm Hf s b s' H. apply bind_inv in H as (a & s1 & H1 & H2).
  apply Hm in H1. apply Hf in H2. lia.
Qed.
Lemma grows_or_fault {A} (o : option A) : grows (or_fault o).
Proof. destruct o; [apply grows_ret|]. by intros s a s'. Qed.
Lemma grows_get : grows get.
Proof. intros s a s' [= _ <-]. lia. Qed.
Lemma grows_modify f : (forall s, brk s <= brk (f s)) -> grows (modify f).
Proof. intros Hf s a s' [= _ <-]. apply Hf. Qed.
Lemma grows_if {A} (b : bool) (m1 m2 : M (qmem F) A) : grows m1 -> grows m2 -> grows (if b then m1 else m2).
Proof. by destruct b. Qed.
End Grows.

Create HintDb grows.
#[export] Hint Resolve grows_ret grows_bind grows_or_fault grows_get grows_if : grows.
(** Walks through a monadic term. *)
Ltac grow :=
  repeat (intros; first
    [ apply grows_bind | apply grows_if | apply grows_ret | apply grows_get | apply grows_or_fault
    | apply grows_modify; intros; cbn; lia | solve [auto with grows] ]).

Section GrowOps.
Context {F : Type}.

Lemma malloc_grows n : 0 <= n -> grows (malloc (F := F) n).
Proof.
  intros Hn s a s'. unfold malloc. mrun. pose proof (align8_ge n).
  destruct (_ <=? _); intros [= _ <-]; cbn; lia.
Qed.
Lemma link_chunk_grows n b size : grows (link_chunk (F := F) n b size).
Proof. revert b. induction n as [|n IH]; intros b; cbn; unfold set_prev, load_bucket; grow. Qed.
Lemma newElem_grows p s e s' q : queues s !! p = Some q ->
  Q_newElem (F := F) p s = Ret e s' -> brk s <= brk s'.
Proof.
  intros Hq. unfold Q_newElem. rewrite (bind_Ret _ _ _ _ _ (load_queue_spec _ _ _ Hq)).
  cut (grows (if q_allocate q =? NULL
     then let size1 := q_item_size q in
          elem ← malloc_chunk (F := F) size1 (q_chunk_group q);
          if elem =? NULL then mret NULL
          else b1 ← link_chunk (Z.to_nat (q_chunk_group q - 2)) (elem + size1) size1;
               set_prev b1 NULL;; store_queue p (q <| q_allocate := elem + size1 |>);;
               set_next elem NULL;; mret (elem_of_bucket elem)
     else let elem := q_allocate q in
          nx ← get_prev elem; store_queue p (q <| q_allocate := nx |>);;
          set_next elem NULL;; mret (elem_of_bucket elem))); [intros H; apply H|].
  unfold malloc_chunk, set_prev, set_next, load_bucket, store_queue, get_prev, load_bucket. cbv zeta.
  pose proof (align8_ge (uint32 (q_item_size q * q_chunk_group q))). pose proof (Z.mod_pos_bound (q_item_size q * q_chunk_group q) (2 ^ 32)).
  unfold uint32 in *.
  grow; try apply link_chunk_grows; apply grows_modify; intros s1; cbn; lia.
Qed.
Lemma freeElem_grows p e : grows (Q_freeElem (F := F) p e).
Proof. unfold Q_freeElem, load_queue, set_prev, load_bucket, store_queue. grow. Qed.

Lemma create_grows cmp item_size group : grows (Q_create (F := F) cmp item_size group).
Proof.
  unfold Q_create. destruct ((_ <=? _) || _) eqn:Hg; [apply grows_ret|].
  apply orb_false_iff in Hg as [Hi%Z.leb_gt Hg%Z.leb_gt].
  apply grows_bind; [by apply malloc_grows|]. intros p. apply grows_if; [apply grows_ret|].
  apply grows_bind; [|grow]. unfold Q_init. intros s a s' H.
  apply bind_inv in H as (? & s1 & H1 & H). injection H1 as _ <-.
  apply bind_inv in H as (? & s1 & H1 & H). injection H1 as _ <-.
  apply bind_inv in H as (e & s1 & H1 & H). apply freeElem_grows in H.
  eapply newElem_grows in H1; [|cbn; by rewrite lookup_insert_eq]. cbn in H1. lia.
Qed.

(** *** The representation *)
Lemma Rep_malloc (s : qmem F) v b : Rep s v -> brk s <= b -> Rep (s <| brk := b |>) v.
Proof.
  intros (pl & fl & HR) Hb. exists pl, fl. destruct HR as [H1 H2 H3 H4 H5 H6]. split; try done.
  - intros a w Ha. destruct (H4 a w Ha). split; [done|cbn; lia].
  - cbn. lia.
Qed.

Lemma unqueued_delete (v : qview F) p e : v_list v !! p = Some [] ->
  unqueued (v <| v_list := delete p (v_list v) |> <| v_cmp := delete p (v_cmp v) |>) e <-> unqueued v e.
Proof.
  intros Hp. unfold unqueued. cbn. split; intros H p' l Hl.
  - destruct (decide (p' = p)) as [->|Hne].
    + rewrite Hp in Hl. injection Hl as <-. apply not_elem_of_nil.
    + apply (H p'). by rewrite lookup_delete_ne.
  - apply lookup_delete_Some in Hl as [_ Hl]. by apply (H p').
Qed.

#[local] Instance place_eq : EqDecision place.
Proof. solve_decision. Defined.

(** A destroyed queue takes its pool and its sentinel along. *)
Lemma destroy_rep (s : qmem F) v pl fl p :
  rep s v pl fl -> v_list v !! p = Some [] ->
  rep (s <| queues := delete p (queues s) |> <| links := delete p (links s) |>)
      (v <| v_list := delete p (v_list v) |> <| v_cmp := delete p (v_cmp v) |>)
      (filter (fun bw => bw.1 <> p /\ bw.2 <> InPool p) pl) (delete p fl).
Proof.
  intros HR Hp. pose proof (place_sentinel _ _ _ _ _ _ HR Hp) as Hs.
  assert (forall b w, filter (fun bw => bw.1 <> p /\ bw.2 <> InPool p) pl !! b = Some w <->
                      pl !! b = Some w /\ b <> p /\ w <> InPool p) as Hfilter.
  { intros b w. rewrite map_lookup_filter_Some. cbn. tauto. }
  constructor.
  - intros b w. rewrite Hfilter, (rep_places _ _ _ _ HR). destruct w as [p'|p'| |]; cbn.
    + split.
      * intros ((l & Hl & Hin) & _ & _). exists l. rewrite lookup_delete_ne; [done|].
        intros <-. rewrite Hp in Hl. injection Hl as <-. by apply not_elem_of_nil in Hin.
      * intros (l & [Hne Hl]%lookup_delete_Some & Hin). split_and!; [by eauto| |done].
        intros ->. assert (pl !! p = Some (InRing p')) by (apply (rep_places _ _ _ _ HR); cbn; eauto). congruence.
    + split.
      * intros ((f & Hf & Hin) & _ & Hne). exists f. rewrite lookup_delete_ne; [done|congruence].
      * intros (f & [Hne Hf]%lookup_delete_Some & Hin). split_and!; [by eauto| |congruence].
        intros ->. assert (pl !! p = Some (InPool p')) by (apply (rep_places _ _ _ _ HR); cbn; eauto). congruence.
    + rewrite (unqueued_delete v p _ Hp). split; [tauto|]. intros H. split; [tauto|]. split; [|done].
      intros ->. assert (pl !! p = Some Out) by (apply (rep_places _ _ _ _ HR); done). congruence.
    + split.
      * intros (Hb & Hne & _). by rewrite lookup_delete_ne.
      * intros [l [Hne Hl]%lookup_delete_Some]. repeat split; [by eauto|done|done].
  - intros p' l Hl. cbn in Hl. apply lookup_delete_Some in Hl as [Hne Hl].
    destruct (rep_queue _ _ _ _ HR _ _ Hl) as (q & f & Eq & Ef & Hring & Hfl & Hrest).
    exists q, f. cbn. rewrite !lookup_delete_ne by done. split_and!; try tauto.
    + eapply ring_frame; [|done]. intros a Ha. apply lookup_delete_ne. intros <-.
      apply elem_of_cons in Ha as [->|Ha]; [done|].
      pose proof (place_ring _ _ _ _ _ _ _ HR Hl Ha). congruence.
    + eapply flist_frame; [|done]. intros a Ha. apply lookup_delete_ne. intros <-.
      pose proof (place_pool _ _ _ _ _ _ _ HR Ef Ha). congruence.
  - intros p' l e Hl He. cbn in *. apply lookup_delete_Some in Hl as [Hne Hl]. by eapply (rep_queued_live _ _ _ _ HR).
  - intros a w (Ha & Hne & _)%Hfilter. cbn. rewrite lookup_delete_ne by done. by apply (rep_heap _ _ _ _ HR) in Ha.
  - apply HR.
  - intros p' [f [Hne Hf]%lookup_delete_Some]. cbn. rewrite lookup_delete_ne by done.
    apply (rep_pools _ _ _ _ HR). eauto.
Qed.

#[export] Instance Rep_QueueHeap : QueueHeap (F := F) Rep.
Proof.
  split.
  - intros s v (pl & fl & HR). apply HR.
  - intros s v n HR Hn. unfold malloc. mrun. pose proof (align8_ge n).
    assert (0 < brk s) by (destruct HR as (? & ? & HR); apply HR).
    destruct (_ <=? _); do 2 eexists; (split; [done|]).
    + split_and!; [apply Rep_malloc; [done|lia]|cbn; lia|right; cbn; lia].
    + split_and!; [done|lia|by left].
  - intros s v cmp item_size group HR Hfit. destruct (Rep_create s v cmp item_size group HR Hfit) as (p & s' & E & H).
    exists p, s'. split_and!; [done| |done]. by eapply create_grows.
  - intros s v p (pl & fl & HR) Hp. destruct (rep_queue _ _ _ _ HR _ _ Hp) as (q & f & Eq & _).
    eexists. split; [|split].
    + unfold Q_free. by rewrite (bind_Ret _ _ _ _ _ (load_queue_spec _ _ _ Eq)).
    + done.
    + eexists _, _. by apply destroy_rep.
Qed.
End GrowOps.
