(* ===== verification/TQueueProps.v ===== *)
(** Properties of the message queue: its operations refine a list per queue,
    creation establishes the contract, searching is first-match, and two
    defects of tqueue.c (the rounding test of [Q_init], the pointer [Q_reset]
    hands to [Q_removeElem]). *)
From S2P Require Import Prelude TQueue TQueueRep.

(** ** The abstract machine of the queues *)

(** The calls a client makes. *)
Inductive qop :=
  | OpNew (p : Z)
  | OpFree (p e : Z)
  | OpEnq (p e : Z)
  | OpDeq (p : Z)
  | OpFind (p context tag src : Z).

Section Machine.
Context {F : Type} (call : F -> Z -> Z -> Z -> Z -> Z).

Definition run_op (op : qop) : M (qmem F) Z :=
  match op with
  | OpNew p => Q_newElem p
  | OpFree p e => Q_freeElem p e;; mret 0
  | OpEnq p e => enQ p e;; mret 0
  | OpDeq p => deQ p
  | OpFind p context tag src => Q_find call p context tag src
  end.

(** What the caller must respect: the queue exists, and an element that is
    queued or freed was handed out and is on no queue. *)
Definition legal (v : qview F) (op : qop) : Prop :=
  match op with
  | OpNew p | OpDeq p => is_Some (v_list v !! p)
  | OpFree p e | OpEnq p e => is_Some (v_list v !! p) /\ e ∈ v_live v /\ unqueued v e
  | OpFind p _ _ _ => is_Some (v_list v !! p) /\ exists f, v_cmp v !! p = Some (Some f)
  end.

(** One call on the lists: its result and the lists after it. *)
Inductive qstep (v : qview F) : qop -> Z -> qview F -> Prop :=
  | step_new_fail p : qstep v (OpNew p) NULL v
  | step_new p e : e <> NULL -> e ∉ v_live v -> unqueued v e ->
      qstep v (OpNew p) e (v <| v_live := {[e]} ∪ v_live v |>)
  | step_free p e : qstep v (OpFree p e) 0 (v <| v_live := v_live v ∖ {[e]} |>)
  | step_enq p l e : v_list v !! p = Some l ->
      qstep v (OpEnq p e) 0 (v <| v_list := <[p := l ++ [e]]> (v_list v) |>)
  | step_deq_empty p : v_list v !! p = Some [] -> qstep v (OpDeq p) NULL v
  | step_deq p e l : v_list v !! p = Some (e :: l) ->
      qstep v (OpDeq p) e (v <| v_list := <[p := l]> (v_list v) |>)
  | step_find_none p l f c t sr : v_list v !! p = Some l -> v_cmp v !! p = Some (Some f) ->
      Forall (fun x => call f x c t sr <> 0) l -> qstep v (OpFind p c t sr) NULL v
  | step_find p l1 e l2 f c t sr :
      v_list v !! p = Some (l1 ++ e :: l2) -> v_cmp v !! p = Some (Some f) ->
      call f e c t sr = 0 -> Forall (fun x => call f x c t sr <> 0) l1 ->
      qstep v (OpFind p c t sr) e (v <| v_list := <[p := l1 ++ l2]> (v_list v) |>).
End Machine.

(** A concrete heap for witnesses: comparison function pointers are numbers, and
    the function they point to compares the element with the searched tag. *)
Definition heap0 : qmem Z := mkQmem ∅ ∅ 4096 1048576.
Definition call0 (f it context tag src : Z) : Z := if it =? tag then 0 else 1.
Definition state_of {S A} (d : S) (o : outcome S A) : S :=
  match o with Ret _ s => s | _ => d end.

(** (C1) Every legal call of a queue operation returns, with the result and the
    effect the abstract list machine allows: enQ appends, deQ takes the head,
    Q_find removes the first element the comparison accepts and keeps the order
    of the others, Q_newElem hands out a fresh element (or NULL), and no
    operation disturbs another queue. The chunks of the queues, item_size*chunk_group
    bytes, are smaller than 2^31 bytes, as that product is an int (part of [Rep]). *)
Theorem queue_simulation {F} (call : F -> Z -> Z -> Z -> Z -> Z) (s : qmem F) (v : qview F) op :
  Rep s v -> legal v op ->
  exists r s' v', run_op call op s = Ret r s' /\ qstep call v op r v' /\ Rep s' v'.
Proof.
  intros HR Hop. destruct op as [p|p e|p e|p|p c t sr]; cbn in Hop.
  - destruct Hop as [l Hl]. destruct (newElem_law _ _ _ _ HR Hl) as (e & s' & E & [[-> ?]|(?&?&?&?)]);
      do 3 eexists; (split; [exact E|]); (split; [|done]); by constructor.
  - destruct Hop as ([l Hl] & He & Hu). destruct (freeElem_law _ _ _ _ _ HR Hl He Hu) as (s' & E & ?).
    do 3 eexists. cbn. rewrite (bind_Ret _ _ _ _ _ E). split; [done|]. split; [constructor|done].
  - destruct Hop as ([l Hl] & He & Hu). destruct (enQ_law _ _ _ _ _ HR Hl He Hu) as (s' & E & ?).
    do 3 eexists. cbn. rewrite (bind_Ret _ _ _ _ _ E). split; [done|]. split; [by constructor|done].
  - destruct Hop as [l Hl]. pose proof (deQ_law _ _ _ _ HR Hl) as Hd. destruct l as [|e l].
    + do 3 eexists. split; [exact Hd|]. split; [by constructor|done].
    + destruct Hd as (s' & E & ?). do 3 eexists. split; [exact E|]. split; [by constructor|done].
  - destruct Hop as [[l Hl] [f Hf]]. pose proof (find_law _ _ _ _ _ call c t sr HR Hl Hf) as Hd.
    destruct (take_first _ l) as [[e l']|] eqn:Ht.
    + destruct Hd as (s' & E & ?). apply take_first_split in Ht as (l1 & l2 & -> & -> & He & Hl1).
      do 3 eexists. split; [exact E|]. split; [|done]. eapply step_find; try done.
      * by apply Z.eqb_eq.
      * eapply Forall_impl; [exact Hl1|]. intros x Hx. by apply Z.eqb_neq.
    + do 3 eexists. split; [exact Hd|]. split; [|done]. apply take_first_None in Ht.
      eapply step_find_none; try done. eapply Forall_impl; [exact Ht|]. intros x Hx. by apply Z.eqb_neq.
Qed.

(** A queue created in any well-formed heap is empty, does not disturb the
    others, and meets the contract; a refused request leaves them as they were. A chunk
    of its elements must not be larger than an int can say. *)
Theorem Q_create_contract {F} (s : qmem F) (v : qview F) cmp item_size group :
  Rep s v -> chunk_fits item_size group ->
  exists p s', Q_create cmp item_size group s = Ret p s' /\
    (p = NULL /\ Rep s' v \/
     p <> NULL /\ v_list v !! p = None /\
     Rep s' (v <| v_list := <[p := []]> (v_list v) |> <| v_cmp := <[p := cmp]> (v_cmp v) |>)).
Proof. apply Rep_create. Qed.

Lemma Q_create_contract_witness :
  exists p s', Q_create (Some 0) 16 4 heap0 = Ret p s' /\
    (p = NULL /\ Rep s' (QView ∅ ∅ ∅) \/
     p <> NULL /\ (∅ : gmap Z (list Z)) !! p = None /\
     Rep s' (QView (<[p := []]> ∅) (<[p := Some 0]> ∅) ∅)).
Proof. apply (Q_create_contract heap0 (QView ∅ ∅ ∅) (Some 0) 16 4); [apply Rep_empty; lia|done]. Defined.

(** A call on the created queue, for the witness of the simulation. *)
Lemma queue1_legal :
  exists s v p, Q_create (F := Z) (Some 0) 16 4 heap0 = Ret p s /\ Rep s v /\
    legal v (OpFind p 0 5 0).
Proof.
  destruct (Rep_create heap0 (QView ∅ ∅ ∅) (Some 0) 16 4) as (p & s & E & Hp).
  { apply Rep_empty. lia. }
  { done. }
  assert (p <> NULL) as Hn.
  { assert (exists s', Q_create (Some 0) 16 4 heap0 = Ret 4096 s') as [s' E'].
    { eexists. vm_compute. reflexivity. }
    rewrite E' in E. injection E as <- _. done. }
  destruct Hp as [[? _]|(_ & _ & HR)]; [done|].
  eexists s, _, p. split; [done|]. split; [exact HR|]. cbn. rewrite !lookup_insert_eq. eauto.
Qed.

Lemma queue_simulation_witness :
  exists p s v r s' v', run_op call0 (OpFind p 0 5 0) s = Ret r s' /\
    qstep call0 v (OpFind p 0 5 0) r v' /\ Rep s' v'.
Proof.
  destruct queue1_legal as (s & v & p & _ & HR & Hlegal).
  exists p, s, v. exact (queue_simulation call0 s v (OpFind p 0 5 0) HR Hlegal).
Defined.

(** [Q_init] leaves an element size that is a multiple of 8, as its comment
    demands, exactly when the size already is one or is not a multiple of 7: the
    test [item_size % 0x07] should have been [item_size & 0x07]. *)
Theorem adjust_item_size_aligned n :
  0 < n -> (adjust_item_size n mod 8 = 0 <-> n mod 8 = 0 \/ n mod 7 <> 0).
Proof.
  intros Hn. unfold adjust_item_size, cmod. rewrite Z.rem_mod_nonneg by lia.
  destruct (n mod 7 =? 0) eqn:E; cbn [negb].
  - apply Z.eqb_eq in E. rewrite E. tauto.
  - apply Z.eqb_neq in E. split; [by right|]. intros _.
    rewrite Z.shiftl_mul_pow2, Z.shiftr_div_pow2 by lia. apply Z_mod_mult.
Qed.

Lemma adjust_item_size_aligned_witness :
  0 < 28 /\ (adjust_item_size 28 mod 8 = 0 <-> 28 mod 8 = 0 \/ 28 mod 7 <> 0) /\
  adjust_item_size 28 = 28.
Proof. split; [lia|]. split; [apply (adjust_item_size_aligned 28); lia|reflexivity]. Defined.

(** [Q_reset] on a queue that is not empty reads before the head's bucket:
    it passes the bucket where [Q_removeElem] expects the user pointer, so the
    unlink goes through an address one bucket too low. *)
Theorem Q_reset_nonempty_faults {F} (s : qmem F) (v : qview F) p e l :
  Rep s v -> v_list v !! p = Some (e :: l) -> links s !! bucket_of (bucket_of e) = None ->
  Q_reset p s = Fault.
Proof.
  intros (pl & fl & HR) Hl Hnone.
  destruct (rep_queue _ _ _ _ HR _ _ Hl) as (q & f & _ & _ & Hring & _).
  assert (bucket_of e <> p) as Hne.
  { destruct Hring as [_ Hnd]. apply NoDup_cons in Hnd as [Hnd _]. intros <-. apply Hnd. by left. }
  assert (get_next p s = Ret (bucket_of e) s) as Hg.
  { apply get_next_spec. by rewrite (ring_next _ _ _ Hring). }
  unfold Q_reset. mrun. cbn [Q_reset_loop]. unfold mbind, M_bind. rewrite Hg.
  rewrite (proj2 (Z.eqb_neq _ _) Hne).
  unfold Q_removeElem, Q_delElem, get_next, load_bucket. mrun. by rewrite Hnone.
Qed.

(** The states on the way to [queue1], and what they represent. *)
Definition after_create : qmem Z := state_of heap0 (Q_create (Some 0) 16 4 heap0).
Definition after_new : qmem Z := state_of heap0 (Q_newElem 4096 after_create).
Definition after_enq : qmem Z := state_of heap0 (enQ 4096 4160 after_new).

Lemma after_create_eq : Q_create (Some 0) 16 4 heap0 = Ret 4096 after_create.
Proof. vm_compute. reflexivity. Qed.
Lemma after_new_eq : Q_newElem 4096 after_create = Ret 4160 after_new.
Proof. vm_compute. reflexivity. Qed.
Lemma after_enq_eq : enQ 4096 4160 after_new = Ret tt after_enq.
Proof. vm_compute. reflexivity. Qed.

Lemma after_enq_Rep : exists v, Rep after_enq v /\ v_list v !! 4096 = Some [4160].
Proof.
  destruct (Rep_create heap0 (QView ∅ ∅ ∅) (Some 0) 16 4) as (p & s & E & Hp).
  { apply Rep_empty. lia. }
  { done. }
  rewrite after_create_eq in E. injection E as <- <-.
  destruct Hp as [[? _]|(_ & _ & HR)]; [done|].
  set (v := QView _ _ _ <| v_list := _ |> <| v_cmp := _ |>) in HR.
  assert (v_list v !! 4096 = Some []) as Hl by (subst v; cbn; by rewrite lookup_insert_eq).
  clearbody v.
  destruct (newElem_law _ _ _ _ HR Hl) as (e & s & E & He).
  rewrite after_new_eq in E. injection E as <- <-.
  destruct He as [[? _]|(_ & _ & Hu & HR')]; [done|].
  set (v' := v <| v_live := _ |>) in HR'.
  assert (v_list v' !! 4096 = Some []) as Hl' by done.
  destruct (enQ_law _ _ _ _ 4160 HR' Hl') as (s & E & HR'').
  { subst v'. cbn. set_solver. }
  { exact Hu. }
  rewrite after_enq_eq in E. injection E as <-.
  eexists. split; [exact HR''|]. cbn. by rewrite lookup_insert_eq.
Qed.

Lemma Q_reset_nonempty_faults_witness : Q_reset 4096 after_enq = Fault.
Proof.
  destruct after_enq_Rep as (v & HR & Hl).
  apply (Q_reset_nonempty_faults after_enq v 4096 4160 [] HR Hl).
  vm_compute. reflexivity.
Defined.
