(* ===== verification/MBuffer.v ===== *)
(** The message buffers of utils/buffer/mbuffer.c: per process a system buffer and
    an optional user buffer, each a chain of headers embedded in the space they
    manage, allocated first fit, split on allocation and coalesced on release.
    The second half of the file defines what a chain is and how each operation
    acts on the sequence of its blocks. *)
From S2P Require Import Prelude.

(** ** Data *)

Record BufferHandle := BH { bh_pre : Z; bh_next : Z; bh_free : Z; bh_size : Z }.
#[export] Instance eta_BufferHandle : Eta BufferHandle :=
  MkEta _ (fun r => BH (bh_pre r) (bh_next r) (bh_free r) (bh_size r)).

Definition Alignment : Z := 32.
Definition AlignmentMask : Z := 0xffffffe0.
Definition AdjustSize (x : Z) : Z := Z.land (uint32 (x + Alignment - 1)) AlignmentMask.
Definition sizeof_BufferHandle : Z := 2 * sizeof_ptr + 2 * sizeof_int.
Definition BUF_HEADER_SIZE : Z := AdjustSize sizeof_BufferHandle.
Definition MinFragment : Z := BUF_HEADER_SIZE + 64.
Definition CACHE_LINE : Z := 64.
Definition sizeof_thr_mtx_t : Z := 24.

(** The three arrays (an absent index is outside the array, or the array is
    NULL), the headers by address, and the heap between [mb_brk] and [mb_lim].
    A lock is NULL or a mutex, held or not. *)
Record mbuf := mkMbuf {
  SysBuffer : gmap Z Z;
  UsrBuffer : gmap Z Z;
  BufferLock : gmap Z (option bool);
  hdrs : gmap Z BufferHandle;
  mb_brk : Z;
  mb_lim : Z
}.
#[export] Instance eta_mbuf : Eta mbuf := MkEta _ (fun r =>
  mkMbuf (SysBuffer r) (UsrBuffer r) (BufferLock r) (hdrs r) (mb_brk r) (mb_lim r)).

#[local] Notation M := (Prelude.M mbuf).

(** ** Memory and locks *)

Definition mb_malloc (n : Z) : M Z :=
  s ← get;
  if mb_brk s + n <=? mb_lim s
  then modify (fun s => s <| mb_brk := mb_brk s + n |>);; mret (mb_brk s)
  else mret NULL.

Definition sys_buffer (id : Z) : M Z := s ← get; or_fault (SysBuffer s !! id).
Definition usr_buffer (id : Z) : M Z := s ← get; or_fault (UsrBuffer s !! id).
Definition set_sys (id v : Z) : M unit :=
  _ ← sys_buffer id; modify (fun s => s <| SysBuffer := <[id := v]> (SysBuffer s) |>).
Definition set_usr (id v : Z) : M unit :=
  _ ← usr_buffer id; modify (fun s => s <| UsrBuffer := <[id := v]> (UsrBuffer s) |>).
Definition buffer_lock (id : Z) : M (option bool) := s ← get; or_fault (BufferLock s !! id).
Definition set_lock (id : Z) (l : option bool) : M unit :=
  _ ← buffer_lock id; modify (fun s => s <| BufferLock := <[id := l]> (BufferLock s) |>).

Definition mb_lock (id : Z) : M unit :=
  l ← buffer_lock id;
  match l with
  | None => fault
  | Some true => stuck
  | Some false => set_lock id (Some true)
  end.
Definition mb_unlock (id : Z) : M unit :=
  l ← buffer_lock id;
  match l with None => fault | Some _ => set_lock id (Some false) end.

Definition load_hdr (a : Z) : M BufferHandle := s ← get; or_fault (hdrs s !! a).
Definition put_hdr (a : Z) (b : BufferHandle) : M unit :=
  modify (fun s => s <| hdrs := <[a := b]> (hdrs s) |>).
(** A store to fields of the header at [a]. *)
Definition upd_hdr (a : Z) (f : BufferHandle -> BufferHandle) : M unit :=
  b ← load_hdr a; put_hdr a (f b).

(** ** Initialization *)

Definition calloc_array {A} (nproc : Z) (v : A) : gmap Z A :=
  list_to_map ((fun i => (i, v)) <$> seqZ 0 nproc).

Definition mb_global_end : M Z :=
  modify (fun s => s <| SysBuffer := ∅ |> <| UsrBuffer := ∅ |> <| BufferLock := ∅ |>);;
  mret 0.

Definition mb_global_init (nproc : Z) : M Z :=
  a ← mb_malloc (nproc * sizeof_ptr);
  b ← mb_malloc (nproc * sizeof_ptr);
  c ← mb_malloc (nproc * sizeof_ptr);
  modify (fun s => s
    <| SysBuffer := if a =? NULL then ∅ else calloc_array nproc NULL |>
    <| UsrBuffer := if b =? NULL then ∅ else calloc_array nproc NULL |>
    <| BufferLock := if c =? NULL then ∅ else calloc_array nproc None |>);;
  if (a =? NULL) || (b =? NULL) || (c =? NULL)
  then mb_global_end;; mret (-1)
  else mret 0.

Definition mb_end (id : Z) : M Z :=
  b ← sys_buffer id;
  when (negb (b =? NULL)) (set_sys id NULL);;
  l ← buffer_lock id;
  when (match l with None => false | Some _ => true end) (set_lock id None);;
  mret 0.

(** The loop that looks for a buffer size [malloc] accepts. *)
Fixpoint mb_init_loop (fuel : nat) (id bsize : Z) : M (option Z) :=
  match fuel with
  | O => stuck
  | S fuel' =>
      if bsize >? 0 then
        let bsize := if bsize <? 0x100000 then 0x100000 else bsize in
        p ← mb_malloc bsize;
        set_sys id p;;
        if negb (p =? NULL) then mret (Some bsize)
        else mb_init_loop fuel' id (bsize - 0x100000)
      else mret None
  end.

Definition mb_init (id bsize : Z) : M Z :=
  r ← mb_init_loop (Z.to_nat (Z.max 0 bsize / 0x100000 + 3)) id bsize;
  match r with
  | None => mret (-1)
  | Some bsize =>
      b ← sys_buffer id;
      put_hdr b (BH NULL NULL 1 bsize);;
      set_usr id NULL;;
      l ← mb_malloc ((sizeof_thr_mtx_t + CACHE_LINE - 1) / CACHE_LINE * CACHE_LINE);
      if negb (l =? NULL)
      then set_lock id (Some false);; mret 0
      else set_lock id None;; mb_end id;; mret (-1)
  end.

(** ** Allocation and release *)

(** [while (tmp!=NULL && (tmp->free==0 || tmp->size<adjusted_size)) tmp = tmp->next;] *)
Fixpoint first_fit (fuel : nat) (tmp adjusted_size : Z) : M Z :=
  match fuel with
  | O => stuck
  | S fuel' =>
      if tmp =? NULL then mret NULL
      else
        b ← load_hdr tmp;
        if (bh_free b =? 0) || (bh_size b <? adjusted_size)
        then first_fit fuel' (bh_next b) adjusted_size
        else mret tmp
  end.

Definition mb_adjusted (isize : Z) : Z := uint32 (AdjustSize isize + BUF_HEADER_SIZE).

(** Takes the block found, and splits it when the rest is worth a block. *)
Definition mb_claim (tmp adjusted_size : Z) : M unit :=
  upd_hdr tmp (fun b => b <| bh_free := 0 |>);;
  b ← load_hdr tmp;
  when (bh_size b >=? uint32 (adjusted_size + MinFragment))
    (let tmpnext := tmp + adjusted_size in
     put_hdr tmpnext (BH tmp (bh_next b) 1 (uint32 (bh_size b - adjusted_size)));;
     when (negb (bh_next b =? NULL))
       (upd_hdr (bh_next b) (fun n => n <| bh_pre := tmpnext |>));;
     upd_hdr tmp (fun b => b <| bh_size := adjusted_size |> <| bh_next := tmpnext |>)).

Definition mb_alloc (id isize : Z) : M Z :=
  mb_lock id;;
  let adjusted_size := mb_adjusted isize in
  s ← get;
  let fuel := S (size (hdrs s)) in
  sb ← sys_buffer id;
  tmp ← first_fit fuel sb adjusted_size;
  ub ← usr_buffer id;
  tmp ← (if (tmp =? NULL) && negb (ub =? NULL)
         then first_fit fuel ub adjusted_size
         else mret tmp);
  if tmp =? NULL then mb_unlock id;; mret NULL
  else
    mb_claim tmp adjusted_size;;
    mb_unlock id;;
    mret (tmp + BUF_HEADER_SIZE).

(** [p && p->free==1] *)
Definition is_free (p : Z) : M bool :=
  if p =? NULL then mret false
  else b ← load_hdr p; mret (bh_free b =? 1).

(** The release of the block at [bh], the lock being held. *)
Definition mb_release (bh : Z) : M unit :=
  b ← load_hdr bh;
  nfree ← is_free (bh_next b);
  pfree ← is_free (bh_pre b);
  if (nfree : bool) then
    n ← load_hdr (bh_next b);
    if (pfree : bool) then
      upd_hdr (bh_pre b) (fun p => p <| bh_size := uint32 (bh_size p + uint32 (bh_size b + bh_size n)) |>
                                     <| bh_next := bh_next n |>);;
      when (negb (bh_next n =? NULL))
        (upd_hdr (bh_next n) (fun m => m <| bh_pre := bh_pre b |>))
    else
      upd_hdr bh (fun b => b <| bh_free := 1 |> <| bh_size := uint32 (bh_size b + bh_size n) |>
                             <| bh_next := bh_next n |>);;
      when (negb (bh_next n =? NULL))
        (upd_hdr (bh_next n) (fun m => m <| bh_pre := bh |>))
  else
    if (pfree : bool) then
      upd_hdr (bh_pre b) (fun p => p <| bh_size := uint32 (bh_size p + bh_size b) |>
                                     <| bh_next := bh_next b |>);;
      when (negb (bh_next b =? NULL))
        (upd_hdr (bh_next b) (fun m => m <| bh_pre := bh_pre b |>))
    else upd_hdr bh (fun b => b <| bh_free := 1 |>).

Definition mb_free (id item : Z) : M unit :=
  let bh := item - BUF_HEADER_SIZE in
  mb_lock id;;
  mb_release bh;;
  mb_unlock id.

(** ** User buffers (MPI_Buffer_attach, MPI_Buffer_detach) *)

Definition mb_attach_buffer (id buf bsize : Z) : M Z :=
  u ← usr_buffer id;
  if negb (u =? NULL) then mret (-1)
  else
    mb_lock id;;
    set_usr id buf;;
    put_hdr buf (BH NULL NULL 1 (uint32 bsize));;
    mb_unlock id;;
    mret 0.

(** The result and what is stored through [buf] and [bsize], if anything. *)
Definition mb_detach_buffer (id : Z) : M (Z * option (Z * Z)) :=
  u ← usr_buffer id;
  if u =? NULL then mret (-1, None)
  else
    mb_lock id;;
    b ← load_hdr u;
    if (bh_free b =? 0) || negb (bh_next b =? NULL)
    then mb_unlock id;; mret (-1, Some (u, int32 (bh_size b)))
    else set_usr id NULL;; mb_unlock id;; mret (0, Some (u, int32 (bh_size b))).

Definition MPI_SUCCESS : Z := 0.
Definition MPI_ERR_BUFFER : Z := 1.

Definition tmpi_Buffer_attach (myid buf bsize : Z) : M Z :=
  r ← mb_attach_buffer myid buf bsize;
  mret (if r <? 0 then MPI_ERR_BUFFER else MPI_SUCCESS).
Definition tmpi_Buffer_detach (myid : Z) : M (Z * option (Z * Z)) :=
  r ← mb_detach_buffer myid;
  mret (if r.1 <? 0 then MPI_ERR_BUFFER else MPI_SUCCESS, r.2).
