(* ===== verification/MBufferRep.v ===== *)
(** What the chains of mbuffer.c represent: a sequence of blocks that tile the
    buffer, and the effect of allocation and release on that sequence. *)
From S2P Require Import Prelude MBuffer.

(** ** Blocks *)

Record blk := Blk { k_free : bool; k_size : Z }.

Fixpoint total (bl : list blk) : Z :=
  match bl with [] => 0 | b :: r => k_size b + total r end.

(** Reference definition of coalescing: neighbouring free blocks become one. *)
Definition merge1 (b : blk) (acc : list blk) : list blk :=
  match acc with
  | c :: r => if k_free b && k_free c then Blk true (k_size b + k_size c) :: r else b :: acc
  | [] => [b]
  end.
Fixpoint merge (bl : list blk) : list blk :=
  match bl with [] => [] | b :: r => merge1 b (merge r) end.

(** No two neighbours are free. *)
Fixpoint sep (bl : list blk) : Prop :=
  match bl with
  | [] => True
  | b :: r => match r with c :: _ => k_free b && k_free c = false | [] => True end /\ sep r
  end.

(** Splitting of a free block for a request of [need] bytes, header included. *)
Definition split_blk (need : Z) (b : blk) : list blk :=
  if k_size b >=? need + MinFragment
  then [Blk false need; Blk true (k_size b - need)]
  else [Blk false (k_size b)].

Definition fits (need : Z) (b : blk) : bool := k_free b && (need <=? k_size b).

Lemma total_app l1 l2 : total (l1 ++ l2) = total l1 + total l2.
Proof. induction l1 as [|b l1 IH]; cbn; [lia|]. rewrite IH. lia. Qed.

Lemma total_cons b l : total (b :: l) = k_size b + total l.
Proof. done. Qed.

Lemma total_split need b : total (split_blk need b) = k_size b.
Proof. unfold split_blk. destruct (_ >=? _); cbn; lia. Qed.

Lemma total_merge bl : total (merge bl) = total bl.
Proof.
  induction bl as [|b bl IH]; [done|]. change (merge (b :: bl)) with (merge1 b (merge bl)).
  cbn [total]. rewrite <- IH. unfold merge1.
  destruct (merge bl) as [|c r]; [done|]. destruct (_ && _); cbn; lia.
Qed.

Lemma sep_merge1 b acc : sep acc -> sep (merge1 b acc).
Proof.
  destruct acc as [|c r]; [done|]. unfold merge1. destruct (k_free b && k_free c) eqn:E.
  - intros [H ?]. split; [|done]. destruct r as [|d r]; [done|].
    apply andb_true_iff in E as [_ E]. by rewrite E in H.
  - intros H. by split.
Qed.

Lemma sep_merge bl : sep (merge bl).
Proof. induction bl as [|b bl IH]; [done|]. by apply sep_merge1. Qed.

Lemma merge_sep bl : sep bl -> merge bl = bl.
Proof.
  induction bl as [|b bl IH]; [done|]. intros [H1 H2]. cbn. rewrite IH by done.
  destruct bl as [|c r]; [done|]. cbn. by rewrite H1.
Qed.

Lemma merge_app l1 l2 : merge (l1 ++ l2) = foldr merge1 (merge l2) l1.
Proof. induction l1 as [|b l1 IH]; [done|]. cbn. by rewrite IH. Qed.

Lemma merge_split l1 l2 s n :
  merge (l1 ++ Blk true n :: Blk true (s - n) :: l2) = merge (l1 ++ Blk true s :: l2).
Proof.
  rewrite !merge_app. f_equal. cbn [merge]. unfold merge1.
  destruct (merge l2) as [|c r]; cbn; [|destruct (k_free c); cbn]; do 2 f_equal; lia.
Qed.

Lemma sep_app l1 l2 : sep (l1 ++ l2) -> sep l1 /\ sep l2.
Proof.
  induction l1 as [|b l1 IH]; [by split|]. cbn. intros [H1 H2]. apply IH in H2 as [??].
  split_and!; try done. by destruct l1.
Qed.

(** The neighbours of a block decide whether the whole stays separated. *)
Lemma sep_app_r l1 b b' r r' :
  k_free b = k_free b' -> sep (l1 ++ b :: r) -> sep (b' :: r') -> sep (l1 ++ b' :: r').
Proof.
  intros Hb. induction l1 as [|c l1 IH]; [done|]. cbn [app sep]. intros [H1 H2] H3.
  split; [|by apply IH]. destruct l1 as [|d l1]; cbn in *; [by rewrite <- Hb|done].
Qed.

Lemma merge_nonnil bl : bl <> [] -> merge bl <> [].
Proof.
  destruct bl as [|b bl]; [done|]. intros _. cbn. unfold merge1. destruct (merge bl); [done|].
  by destruct (_ && _).
Qed.

(** ** Chains in memory *)

(** The pointer to what follows: the block at [a], or [nxt] when there is none. *)
Definition nextp (a : Z) (bl : list blk) (nxt : Z) : Z :=
  match bl with [] => nxt | _ :: _ => a end.
(** The last block's address, or [pre] when there is none. *)
Fixpoint lastp (pre a : Z) (bl : list blk) : Z :=
  match bl with [] => pre | b :: r => lastp a (a + k_size b) r end.

Definition bit (b : bool) : Z := if b then 1 else 0.

(** Consecutive headers from [a]: each block starts where its neighbour ends. *)
Fixpoint seg (h : gmap Z BufferHandle) (pre a : Z) (bl : list blk) (nxt : Z) : Prop :=
  match bl with
  | [] => True
  | b :: r =>
      h !! a = Some (BH pre (nextp (a + k_size b) r nxt) (bit (k_free b)) (k_size b)) /\
      seg h a (a + k_size b) r nxt
  end.

Definition sized (bl : list blk) : Prop := Forall (fun b => BUF_HEADER_SIZE <= k_size b) bl.

Lemma header_size : BUF_HEADER_SIZE = 32.
Proof. reflexivity. Qed.

Lemma total_nonneg bl : sized bl -> 0 <= total bl.
Proof. induction 1 as [|b bl ? ? ?]; [done|]. rewrite total_cons, header_size in *. lia. Qed.

Lemma sized_app l1 l2 : sized (l1 ++ l2) <-> sized l1 /\ sized l2.
Proof. apply Forall_app. Qed.

Lemma seg_app h pre a l1 l2 nxt :
  seg h pre a (l1 ++ l2) nxt <->
  seg h pre a l1 (nextp (a + total l1) l2 nxt) /\ seg h (lastp pre a l1) (a + total l1) l2 nxt.
Proof.
  revert pre a. induction l1 as [|b l1 IH]; intros pre a.
  - cbn. replace (a + 0) with a by lia. tauto.
  - cbn [app seg lastp]. rewrite IH, total_cons.
    replace (a + k_size b + total l1) with (a + (k_size b + total l1)) by lia.
    assert (nextp (a + k_size b) (l1 ++ l2) nxt =
            nextp (a + k_size b) l1 (nextp (a + (k_size b + total l1)) l2 nxt)) as ->.
    { destruct l1; cbn; [|done]. destruct l2; cbn; [done|]. lia. }
    tauto.
Qed.

(** Headers outside the segment do not matter. *)
Lemma seg_ext h h' pre a bl nxt :
  sized bl -> (forall x, a <= x < a + total bl -> h' !! x = h !! x) ->
  seg h pre a bl nxt -> seg h' pre a bl nxt.
Proof.
  intros Hs. revert pre a. induction Hs as [|b bl Hb Hs IH]; intros pre a Hx; [done|].
  pose proof (total_nonneg _ Hs). rewrite header_size in Hb. rewrite total_cons in Hx.
  cbn. intros [H1 H2]. split; [rewrite Hx by lia; done|]. apply IH; [|done]. intros x ?. apply Hx. lia.
Qed.

Lemma seg_insert h pre a bl nxt x v :
  sized bl -> x < a \/ a + total bl <= x -> seg h pre a bl nxt -> seg (<[x := v]> h) pre a bl nxt.
Proof.
  intros Hs Hx. apply seg_ext; [done|]. intros y Hy. apply lookup_insert_ne. lia.
Qed.

(** The segment with its last [next] pointer changed: only the last header matters. *)
Lemma seg_nxt h pre a bl nxt nxt' :
  bl = [] -> seg h pre a bl nxt -> seg h pre a bl nxt'.
Proof. by intros ->. Qed.

(** The header of the block after [l1]. *)
Lemma seg_lookup h pre a l1 b l2 nxt :
  seg h pre a (l1 ++ b :: l2) nxt ->
  h !! (a + total l1) =
    Some (BH (lastp pre a l1) (nextp (a + total l1 + k_size b) l2 nxt) (bit (k_free b)) (k_size b)).
Proof. intros H. apply seg_app in H as [_ [H _]]. done. Qed.

Lemma lastp_snoc pre a l b : lastp pre a (l ++ [b]) = a + total l.
Proof.
  revert pre a. induction l as [|c l IH]; intros pre a; cbn [app lastp]; [cbn; lia|].
  rewrite IH, total_cons. lia.
Qed.

(** Writes [pre'] into the header that follows, when there is one. *)
Definition relink (h : gmap Z BufferHandle) (pre' a : Z) (bl : list blk) : gmap Z BufferHandle :=
  match bl with
  | [] => h
  | b :: r => <[a := BH pre' (nextp (a + k_size b) r NULL) (bit (k_free b)) (k_size b)]> h
  end.

Lemma seg_relink h pre pre' a bl :
  sized bl -> seg h pre a bl NULL -> seg (relink h pre' a bl) pre' a bl NULL.
Proof.
  intros Hs. destruct bl as [|b r]; [done|]. cbn. intros [_ H]. split; [by rewrite lookup_insert_eq|].
  apply Forall_cons in Hs as [Hb Hs]. rewrite header_size in Hb. apply seg_insert; [done|lia|done].
Qed.

Lemma relink_ne h pre' a bl x : x <> a -> relink h pre' a bl !! x = h !! x.
Proof. intros Hx. destruct bl; cbn; [done|]. by apply lookup_insert_ne. Qed.

(** The code of a relink, under the guard the program puts on it. *)
Lemma upd_hdr_spec a f s b :
  hdrs s !! a = Some b -> upd_hdr a f s = Ret tt (s <| hdrs := <[a := f b]> (hdrs s) |>).
Proof. intros H. unfold upd_hdr, load_hdr, put_hdr. mrun. by rewrite H. Qed.

Lemma load_hdr_spec a s b : hdrs s !! a = Some b -> load_hdr a s = Ret b s.
Proof. intros H. unfold load_hdr. mrun. by rewrite H. Qed.

Lemma relink_spec s pre pre' a bl :
  0 < a -> seg (hdrs s) pre a bl NULL ->
  when (negb (nextp a bl NULL =? NULL)) (upd_hdr (nextp a bl NULL) (fun n => n <| bh_pre := pre' |>)) s =
  Ret tt (s <| hdrs := relink (hdrs s) pre' a bl |>).
Proof.
  intros Ha Hs. destruct bl as [|b r]; cbn [nextp].
  - unfold when. rewrite Z.eqb_refl. by destruct s.
  - rewrite (proj2 (Z.eqb_neq a NULL)) by (unfold NULL; lia).
    cbn [negb when]. destruct Hs as [Hs _]. by rewrite (upd_hdr_spec _ _ _ _ Hs).
Qed.

(** ** Requests *)

Lemma land_mask y : 0 <= y < 2 ^ 32 -> Z.land y AlignmentMask = y / 32 * 32.
Proof.
  intros Hy. change AlignmentMask with (Z.shiftl (Z.ones 27) 5).
  replace (y / 32 * 32) with (Z.shiftl (Z.shiftr y 5) 5)
    by (rewrite Z.shiftl_mul_pow2, Z.shiftr_div_pow2 by lia; reflexivity).
  apply Z.bits_inj'. intros n Hn. rewrite Z.land_spec, !Z.shiftl_spec by lia.
  destruct (Z.lt_ge_cases n 5).
  - rewrite !(Z.testbit_neg_r _ (n - 5)) by lia. apply andb_false_r.
  - rewrite Z.shiftr_spec by lia. replace (n - 5 + 5) with n by lia.
    destruct (Z.lt_ge_cases (n - 5) 27).
    + rewrite Z.ones_spec_low by lia. apply andb_true_r.
    + rewrite Z.ones_spec_high by lia. rewrite andb_false_r.
      destruct (Z.eq_dec y 0) as [->|]; [by rewrite Z.testbit_0_l|].
      symmetry. apply Z.bits_above_log2; [lia|]. apply Z.log2_lt_pow2; [lia|].
      assert (2 ^ 32 <= 2 ^ n) by (apply Z.pow_le_mono_r; lia). lia.
Qed.

(** The sizes the allocator accepts: no intermediate result wraps around. *)
Definition size_ok (isize : Z) : Prop := 0 <= isize <= 2 ^ 31 - 32.

Lemma AdjustSize_eq x : size_ok x -> AdjustSize x = (x + 31) / 32 * 32.
Proof.
  intros Hx. unfold size_ok in Hx. unfold AdjustSize, Alignment.
  replace (x + 32 - 1) with (x + 31) by lia. rewrite uint32_id.
  - apply land_mask. lia.
  - unfold is_uint32. lia.
Qed.

Lemma mb_adjusted_eq x : size_ok x ->
  mb_adjusted x = (x + 31) / 32 * 32 + 32.
Proof.
  intros Hx. unfold mb_adjusted. rewrite AdjustSize_eq, header_size by done.
  apply uint32_id. unfold size_ok in Hx. unfold is_uint32.
  pose proof (Z.div_mod (x + 31) 32). pose proof (Z.mod_pos_bound (x + 31) 32). lia.
Qed.

Lemma mb_adjusted_bounds x : size_ok x ->
  x + 32 <= mb_adjusted x < x + 64 /\ mb_adjusted x mod 32 = 0.
Proof.
  intros Hx. rewrite mb_adjusted_eq by done. unfold size_ok in Hx.
  pose proof (Z.div_mod (x + 31) 32). pose proof (Z.mod_pos_bound (x + 31) 32).
  split; [lia|]. replace ((x + 31) / 32 * 32 + 32) with (((x + 31) / 32 + 1) * 32) by lia.
  apply Z_mod_mult.
Qed.

(** ** The effect of taking and releasing a block *)

(** A segment whose middle part was rewritten in place. *)
Lemma seg_replace h h' pre a l1 mid mid' l2 :
  let A := a + total l1 in
  sized l1 -> mid' <> [] ->
  seg h pre a (l1 ++ mid ++ l2) NULL -> mid <> [] ->
  (forall x, x < A -> h' !! x = h !! x) ->
  seg h' (lastp pre a l1) A (mid' ++ l2) NULL ->
  seg h' pre a (l1 ++ mid' ++ l2) NULL.
Proof.
  intros A Hs Hm' H Hm Hout Hin. apply seg_app. split; [|done].
  apply seg_app in H as [H _]. eapply seg_ext; [done| |].
  - intros x Hx. apply Hout. subst A. lia.
  - destruct mid, mid'; done.
Qed.

(** What the two operations leave alone. *)
Definition same_outside (h h' : gmap Z BufferHandle) (a n : Z) : Prop :=
  forall x, ~ (a <= x < a + n) -> h' !! x = h !! x.

Lemma same_outside_refl h a n : same_outside h h a n.
Proof. done. Qed.

Lemma same_outside_insert h h' a n x v :
  a <= x < a + n -> same_outside h h' a n -> same_outside h (<[x := v]> h') a n.
Proof. intros Hx H y Hy. rewrite lookup_insert_ne by lia. by apply H. Qed.

Lemma same_outside_relink h h' a n x p l :
  (l <> [] -> a <= x < a + n) -> same_outside h h' a n -> same_outside h (relink h' p x l) a n.
Proof.
  intros Hx H. destruct l; cbn; [done|]. apply same_outside_insert; [|done]. by apply Hx.
Qed.

(** A run of blocks becomes one block of the joint size. *)
Lemma seg_absorb h pre a l1 mid l2 f :
  let A := a + total l1 in
  let h' := relink (<[A := BH (lastp pre a l1) (nextp (A + total mid) l2 NULL) (bit f) (total mid)]> h)
                   A (A + total mid) l2 in
  sized (l1 ++ mid ++ l2) -> mid <> [] ->
  seg h pre a (l1 ++ mid ++ l2) NULL ->
  seg h' pre a (l1 ++ Blk f (total mid) :: l2) NULL /\
  same_outside h h' a (total (l1 ++ mid ++ l2)).
Proof.
  intros A h' Hs Hm H. apply sized_app in Hs as [Hs1 Hs]. apply sized_app in Hs as [Hsm Hs2].
  pose proof (total_nonneg _ Hs1). pose proof (total_nonneg _ Hsm). pose proof (total_nonneg _ Hs2).
  assert (0 < total mid) as Hpos.
  { destruct mid as [|b mid]; [done|]. apply Forall_cons in Hsm as [Hb Hsm].
    rewrite header_size in Hb. pose proof (total_nonneg _ Hsm). cbn. lia. }
  split.
  - apply (seg_replace h h' pre a l1 mid [Blk f (total mid)] l2); try done.
    + intros x Hx. subst h' A. rewrite relink_ne by lia. apply lookup_insert_ne. lia.
    + apply seg_app in H as [_ H]. apply seg_app in H as [_ H].
      cbn [app seg k_free k_size]. fold A. split.
      * subst h'. rewrite relink_ne by lia. by rewrite lookup_insert_eq.
      * subst h'. eapply seg_relink; [done|]. apply seg_insert; [done| |exact H]. lia.
  - rewrite !total_app. apply same_outside_relink.
    + intros Hl2. destruct l2 as [|b l2]; [done|]. apply Forall_cons in Hs2 as [Hb Hs2].
      rewrite header_size in Hb. pose proof (total_nonneg _ Hs2). cbn [total]. subst A. lia.
    + apply same_outside_insert; [subst A; lia|]. apply same_outside_refl.
Qed.

Lemma lookup_blk s pre a l1 b l2 :
  seg (hdrs s) pre a (l1 ++ b :: l2) NULL ->
  load_hdr (a + total l1) s =
    Ret (BH (lastp pre a l1) (nextp (a + total l1 + k_size b) l2 NULL) (bit (k_free b)) (k_size b)) s.
Proof. intros H. apply load_hdr_spec. by apply seg_lookup. Qed.

Lemma u32 z : 0 <= z < 2 ^ 32 -> uint32 z = z.
Proof. intros H. apply uint32_id. unfold is_uint32. lia. Qed.

Lemma claim_spec s pre a l1 b l2 need :
  seg (hdrs s) pre a (l1 ++ b :: l2) NULL -> sized (l1 ++ b :: l2) -> 0 < a ->
  total (l1 ++ b :: l2) < 2 ^ 32 -> fits need b = true -> 32 <= need < 2 ^ 32 - 96 ->
  exists h', mb_claim (a + total l1) need s = Ret tt (s <| hdrs := h' |>) /\
    seg h' pre a (l1 ++ split_blk need b ++ l2) NULL /\
    same_outside (hdrs s) h' a (total (l1 ++ b :: l2)).
Proof.
  intros H Hs Ha Ht Hf Hn. apply andb_true_iff in Hf as [Hfree Hfit]. apply Z.leb_le in Hfit.
  pose proof Hs as Hs'. apply sized_app in Hs' as [Hs1 Hs2]. apply Forall_cons in Hs2 as [Hsb Hs2].
  rewrite header_size in Hsb. rewrite total_app in *. cbn [total] in *.
  pose proof (total_nonneg _ Hs1). pose proof (total_nonneg _ Hs2).
  pose proof (seg_lookup _ _ _ _ _ _ _ H) as Hl.
  set (A := a + total l1) in *. set (nx := nextp (A + k_size b) l2 NULL) in *.
  unfold mb_claim. rewrite (bind_Ret _ _ _ _ _ (upd_hdr_spec _ _ _ _ Hl)). cbn [hdrs upd eta_of eta_mbuf bh_size bh_next bh_pre bh_free].
  set (h1 := <[A := _]> (hdrs s)). set (s1 := s <| hdrs := h1 |>).
  assert (h1 !! A = Some (BH (lastp pre a l1) nx 0 (k_size b))) as Hl1 by (subst h1; by rewrite lookup_insert_eq).
  rewrite (bind_Ret _ _ _ _ _ (load_hdr_spec A s1 _ Hl1)). cbn [bh_size bh_next].
  apply seg_app in H as [G1 G2]. fold A in G1, G2. destruct G2 as [G0 G2].
  unfold split_blk, MinFragment. change (BUF_HEADER_SIZE + 64) with 96. rewrite u32 by lia.
  destruct (k_size b >=? need + 96) eqn:E; cbn [when].
  - (* split *)
    assert (need + 96 <= k_size b) as Hbig by lia.
    set (tn := A + need).
    set (h2 := <[tn := BH A nx 1 (k_size b - need)]> h1).
    assert (seg h2 A (A + k_size b) l2 NULL) as Hsl2.
    { subst h2 h1. apply seg_insert; [done|lia|]. apply seg_insert; [done|lia|done]. }
    set (h3 := relink h2 tn (A + k_size b) l2).
    assert (h3 !! A = Some (BH (lastp pre a l1) nx 0 (k_size b))) as Hl3.
    { subst h3 h2. rewrite relink_ne by lia. by rewrite lookup_insert_ne by lia. }
    exists (<[A := BH (lastp pre a l1) tn 0 need]> h3). split_and!.
    + cbv zeta. rewrite u32 by lia.
      set (s2 := s <| hdrs := h2 |>). set (s3 := s <| hdrs := h3 |>).
      rewrite (bind_Ret _ _ _ tt s2) by done.
      rewrite (bind_Ret _ _ _ _ _ (relink_spec s2 A tn (A + k_size b) l2 ltac:(lia) Hsl2)).
      rewrite (upd_hdr_spec A _ s3 _ Hl3). done.
    + apply (seg_replace (hdrs s) _ pre a l1 [b] _ l2); try done.
      * apply seg_app. fold A. split; [done|]. cbn [app seg]. split; [exact G0|exact G2].
      * intros x Hx. fold A in Hx. rewrite lookup_insert_ne by lia. subst h3 h2 h1.
        rewrite relink_ne by lia. rewrite !lookup_insert_ne by lia. done.
      * fold A. cbn [app seg k_free k_size nextp bit]. split_and!.
        -- rewrite lookup_insert_eq. done.
        -- fold tn. rewrite lookup_insert_ne by lia. subst h3. rewrite relink_ne by lia.
           subst h2. rewrite lookup_insert_eq. do 2 f_equal. subst nx. f_equal. lia.
        -- fold tn. replace (tn + (k_size b - need)) with (A + k_size b) by lia.
           apply seg_insert; [done|lia|]. by eapply seg_relink.
    + apply same_outside_insert; [lia|]. apply same_outside_relink.
      { intros Hne. destruct l2 as [|c l2]; [done|]. apply Forall_cons in Hs2 as [Hc Hs2].
        rewrite header_size in Hc. pose proof (total_nonneg _ Hs2). cbn [total]. lia. }
      apply same_outside_insert; [lia|]. apply same_outside_insert; [lia|]. apply same_outside_refl.
  - (* whole block *)
    exists h1. split_and!.
    + done.
    + apply (seg_replace (hdrs s) _ pre a l1 [b] _ l2); try done.
      * apply seg_app. fold A. split; [done|]. cbn [app seg]. split; [exact G0|exact G2].
      * intros x Hx. fold A in Hx. subst h1. rewrite lookup_insert_ne by lia. done.
      * fold A. cbn [app seg k_free k_size bit]. split; [done|]. subst h1.
        apply seg_insert; [done|lia|done].
    + apply same_outside_insert; [lia|]. apply same_outside_refl.
Qed.

(** *** Release *)

Definition head_free (bl : list blk) : bool := match bl with b :: _ => k_free b | [] => false end.

Lemma bit_eq1 f : (bit f =? 1) = f.
Proof. by destruct f. Qed.

Lemma is_free_hdr s a p n f z :
  0 < a -> hdrs s !! a = Some (BH p n (bit f) z) -> is_free a s = Ret f s.
Proof.
  intros Ha H. unfold is_free. rewrite (proj2 (Z.eqb_neq a NULL)) by (unfold NULL; lia).
  rewrite (bind_Ret _ _ _ _ _ (load_hdr_spec _ _ _ H)). cbn. by rewrite bit_eq1.
Qed.

Lemma is_free_next s pre a bl :
  0 < a -> seg (hdrs s) pre a bl NULL -> is_free (nextp a bl NULL) s = Ret (head_free bl) s.
Proof.
  intros Ha H. destruct bl as [|b r]; cbn [nextp head_free]; [done|].
  destruct H as [H _]. by eapply is_free_hdr.
Qed.

(** Whether the last block of a list is free. *)
Definition last_free (bl : list blk) : bool := default false (k_free <$> last bl).

Lemma last_free_snoc bl b : last_free (bl ++ [b]) = k_free b.
Proof. unfold last_free. by rewrite last_snoc. Qed.

Lemma is_free_last s a bl nxt :
  0 < a -> sized bl -> seg (hdrs s) NULL a bl nxt -> is_free (lastp NULL a bl) s = Ret (last_free bl) s.
Proof.
  intros Ha Hs H. destruct bl as [|b bl _] using rev_ind; [done|].
  rewrite lastp_snoc, last_free_snoc. apply sized_app in Hs as [Hs _].
  pose proof (total_nonneg _ Hs). apply seg_lookup in H. eapply is_free_hdr; [lia|exact H].
Qed.

Lemma sep_cons_eq b b' r : k_free b = k_free b' -> sep (b :: r) -> sep (b' :: r).
Proof. intros Hb [H1 H2]. split; [|done]. destruct r; [done|]. by rewrite <- Hb. Qed.

Lemma sep_cons_free b r : head_free r = false -> sep r -> sep (b :: r).
Proof. intros Hf H. split; [|done]. destruct r; [done|]. cbn in Hf. rewrite Hf. apply andb_false_r. Qed.

Lemma sep_free_head b r : k_free b = true -> sep (b :: r) -> head_free r = false.
Proof. intros Hb [H _]. destruct r; [done|]. by rewrite Hb in H. Qed.

(** The block may change its freeness when its left neighbour is not free. *)
Lemma sep_put l1 b b' r r' :
  last_free l1 = false -> sep (l1 ++ b :: r) -> sep (b' :: r') -> sep (l1 ++ b' :: r').
Proof.
  intros Hl H Hr. destruct l1 as [|p l1 _] using rev_ind; [done|].
  rewrite last_free_snoc in Hl. rewrite <- app_assoc in *. cbn [app] in *.
  eapply sep_app_r; [done|exact H|]. split; [|done]. by rewrite Hl.
Qed.

(** What coalescing does to a list in which one block becomes free, by the
    freeness of its neighbours. *)
Lemma merge_pair l w y r :
  merge (l ++ Blk true w :: Blk true y :: r) = merge (l ++ Blk true (w + y) :: r).
Proof. rewrite <- (merge_split l r (w + y) w). by replace (w + y - w) with y by lia. Qed.

Lemma merge_release_none l1 z l2 :
  last_free l1 = false -> head_free l2 = false -> sep (l1 ++ Blk false z :: l2) ->
  merge (l1 ++ Blk true z :: l2) = l1 ++ Blk true z :: l2.
Proof.
  intros Hl Hh H. apply merge_sep. eapply sep_put; [done|exact H|].
  apply sep_cons_free; [done|]. by apply sep_app in H as [_ [_ H]].
Qed.

Lemma merge_release_next l1 z y r :
  last_free l1 = false -> sep (l1 ++ Blk false z :: Blk true y :: r) ->
  merge (l1 ++ Blk true z :: Blk true y :: r) = l1 ++ Blk true (z + y) :: r.
Proof.
  intros Hl H. rewrite merge_pair. apply merge_sep. eapply sep_put; [done|exact H|].
  apply sep_app in H as [_ [_ H]]. by eapply sep_cons_eq; [|exact H].
Qed.

Lemma merge_release_prev l x z l2 :
  head_free l2 = false -> sep (l ++ Blk true x :: Blk false z :: l2) ->
  merge (l ++ Blk true x :: Blk true z :: l2) = l ++ Blk true (x + z) :: l2.
Proof.
  intros Hh H. rewrite merge_pair. apply merge_sep. eapply sep_app_r; [|exact H|]; [done|].
  apply sep_cons_free; [done|]. by apply sep_app in H as [_ [_ [_ H]]].
Qed.

Lemma merge_release_both l x z y r :
  sep (l ++ Blk true x :: Blk false z :: Blk true y :: r) ->
  merge (l ++ Blk true x :: Blk true z :: Blk true y :: r) = l ++ Blk true (x + z + y) :: r.
Proof.
  intros H. rewrite !merge_pair. apply merge_sep. eapply sep_app_r; [|exact H|]; [done|].
  apply sep_app in H as [_ [_ [_ H]]]. by eapply sep_cons_eq; [|exact H].
Qed.

Lemma last_free_inv l : last_free l = true -> exists l' x, l = l' ++ [Blk true x].
Proof.
  destruct l as [|[f x] l _] using rev_ind; [done|]. rewrite last_free_snoc. cbn. intros ->. eauto.
Qed.
Lemma head_free_inv l : head_free l = true -> exists y r, l = Blk true y :: r.
Proof. destruct l as [|[f y] r]; [done|]. cbn. intros ->. eauto. Qed.

(** The store of a run of blocks into its first header. *)
Lemma absorb_spec (s : mbuf) a l1 mid l2 f (g : BufferHandle -> BufferHandle) b0 nx A :
  sized (l1 ++ mid ++ l2) -> 0 < a -> mid <> [] ->
  seg (hdrs s) NULL a (l1 ++ mid ++ l2) NULL ->
  hdrs s !! (a + total l1) = Some b0 ->
  g b0 = BH (lastp NULL a l1) nx (bit f) (total mid) ->
  A = a + total l1 -> nx = nextp (A + total mid) l2 NULL ->
  exists h', ((upd_hdr A g;;
      when (negb (nx =? NULL)) (upd_hdr nx (fun m => m <| bh_pre := A |>))) : Prelude.M mbuf unit) s =
      Ret tt (s <| hdrs := h' |>) /\
    seg h' NULL a (l1 ++ Blk f (total mid) :: l2) NULL /\
    same_outside (hdrs s) h' a (total (l1 ++ mid ++ l2)).
Proof.
  intros Hs Ha Hm H Hl Hg -> ->.
  destruct (seg_absorb _ NULL a l1 mid l2 f Hs Hm H) as [Hseg Hout].
  set (A := a + total l1) in *. rewrite <- Hg in Hseg, Hout.
  eexists. split; [|split; [exact Hseg|exact Hout]].
  set (s' := s <| hdrs := <[A := g b0]> (hdrs s) |>).
  rewrite (bind_Ret _ _ _ _ _ (upd_hdr_spec _ _ _ _ Hl)). fold s'.
  apply sized_app in Hs as [Hs1 Hs]. apply sized_app in Hs as [Hsm Hs2].
  pose proof (total_nonneg _ Hs1). pose proof (total_nonneg _ Hsm).
  assert (0 < total mid) as Hpos.
  { destruct mid as [|b mid]; [done|]. apply Forall_cons in Hsm as [Hb Hsm].
    rewrite header_size in Hb. pose proof (total_nonneg _ Hsm). cbn. lia. }
  assert (seg (hdrs s') (lastp (lastp NULL a l1) A mid) (A + total mid) l2 NULL) as Hl2.
  { cbn. apply seg_insert; [done|lia|]. by apply seg_app in H as [_ [_ H]%seg_app]. }
  rewrite (relink_spec s' _ A (A + total mid) l2 ltac:(lia) Hl2). done.
Qed.

Lemma release_spec s a l1 z l2 :
  let bl := l1 ++ Blk false z :: l2 in
  seg (hdrs s) NULL a bl NULL -> sized bl -> sep bl -> 0 < a -> total bl < 2 ^ 32 ->
  exists h', mb_release (a + total l1) s = Ret tt (s <| hdrs := h' |>) /\
    seg h' NULL a (merge (l1 ++ Blk true z :: l2)) NULL /\
    same_outside (hdrs s) h' a (total bl).
Proof.
  intros bl H Hs Hsep Ha Ht.
  pose proof Hs as Hs'. apply sized_app in Hs' as [Hs1 Hs2]. apply Forall_cons in Hs2 as [Hsb Hs2].
  rewrite header_size in Hsb. cbn in Hsb.
  pose proof (total_nonneg _ Hs1). pose proof (total_nonneg _ Hs2).
  pose proof (lookup_blk s NULL a l1 (Blk false z) l2 H) as Hload. cbn [k_free k_size bit] in Hload.
  pose proof (seg_lookup _ _ _ _ _ _ _ H) as Hl. cbn [k_free k_size bit] in Hl.
  pose proof H as H'. apply seg_app in H' as [G1 [_ G2]]. cbn [k_size] in G2.
  pose proof (is_free_last s a l1 _ Ha Hs1 G1) as Hp.
  pose proof (is_free_next s _ (a + total l1 + z) _ ltac:(lia) G2) as Hn.
  unfold mb_release. rewrite (bind_Ret _ _ _ _ _ Hload). cbn [bh_next bh_pre bh_size].
  rewrite (bind_Ret _ _ _ _ _ Hn), (bind_Ret _ _ _ _ _ Hp).
  subst bl. pose proof Ht as Ht'. rewrite total_app in Ht'. cbn [total k_size] in Ht'.
  destruct (head_free l2) eqn:Eh.
  - apply head_free_inv in Eh as (y & r & ->). apply Forall_cons in Hs2 as [Hsy Hsr].
    rewrite header_size in Hsy. cbn [k_size total nextp] in *. pose proof (total_nonneg _ Hsr).
    destruct G2 as [G2 _]. cbn [k_size k_free bit] in G2.
    rewrite (bind_Ret _ _ _ _ _ (load_hdr_spec _ _ _ G2)). cbn [bh_next bh_size].
    destruct (last_free l1) eqn:El.
    + apply last_free_inv in El as (l & x & ->). rewrite lastp_snoc.
      apply sized_app in Hs1 as [Hs1 Hsx]. apply Forall_cons in Hsx as [Hsx _].
      rewrite header_size in Hsx. cbn in Hsx. pose proof (total_nonneg _ Hs1).
      rewrite total_app in *. cbn [total k_size] in *. rewrite <- !app_assoc in *. cbn [app] in *.
      rewrite merge_release_both by done. pose proof (seg_lookup _ _ _ _ _ _ _ H) as Hlx.
      edestruct (absorb_spec s a l [Blk true x; Blk false z; Blk true y] r true) as (h' & E & Hseg & Hout);
        [exact Hs|exact Ha|done|exact H|exact Hlx| | | |exists h'; split; [exact E|split; [|exact Hout]]].
      { cbn. rewrite ?(u32 (z + _)) by lia. rewrite ?u32 by lia. f_equal; lia. }
      { done. }
      { cbn [total k_size]. f_equal. lia. }
      { cbn [total k_size] in Hseg. revert Hseg. repeat match goal with |- context [?u + (?w + 0)] => replace (u + (w + 0)) with (u + w) by lia end. rewrite ?Z.add_assoc. done. }
    + rewrite merge_release_next by done.
      edestruct (absorb_spec s a l1 [Blk false z; Blk true y] r true) as (h' & E & Hseg & Hout);
        [exact Hs|exact Ha|done|exact H|exact Hl| | | |exists h'; split; [exact E|split; [|exact Hout]]].
      { cbn. rewrite ?(u32 (z + _)) by lia. rewrite ?u32 by lia. f_equal; lia. }
      { done. }
      { cbn [total k_size]. f_equal. lia. }
      { cbn [total k_size] in Hseg. revert Hseg. repeat match goal with |- context [?u + (?w + 0)] => replace (u + (w + 0)) with (u + w) by lia end. rewrite ?Z.add_assoc. done. }
  - destruct (last_free l1) eqn:El.
    + apply last_free_inv in El as (l & x & ->). rewrite lastp_snoc.
      apply sized_app in Hs1 as [Hs1 Hsx]. apply Forall_cons in Hsx as [Hsx _].
      rewrite header_size in Hsx. cbn in Hsx. pose proof (total_nonneg _ Hs1).
      rewrite total_app in *. cbn [total k_size] in *. rewrite <- !app_assoc in *. cbn [app] in *.
      rewrite merge_release_prev by done. pose proof (seg_lookup _ _ _ _ _ _ _ H) as Hlx.
      edestruct (absorb_spec s a l [Blk true x; Blk false z] l2 true) as (h' & E & Hseg & Hout);
        [exact Hs|exact Ha|done|exact H|exact Hlx| | | |exists h'; split; [exact E|split; [|exact Hout]]].
      { cbn. rewrite ?(u32 (z + _)) by lia. rewrite ?u32 by lia. f_equal; lia. }
      { done. }
      { cbn [total k_size]. f_equal. lia. }
      { cbn [total k_size] in Hseg. revert Hseg. repeat match goal with |- context [?u + (?w + 0)] => replace (u + (w + 0)) with (u + w) by lia end. rewrite ?Z.add_assoc. done. }
    + rewrite merge_release_none by done. eexists. rewrite (upd_hdr_spec _ _ _ _ Hl).
      split; [done|]. split.
      * apply (seg_replace (hdrs s) _ NULL a l1 [Blk false z] [Blk true z] l2); try done.
        -- intros x Hx. apply lookup_insert_ne. lia.
        -- cbn [app seg k_free k_size bit]. split; [by rewrite lookup_insert_eq|].
           apply seg_insert; [done|lia|done].
      * apply same_outside_insert; [rewrite total_app; cbn [total k_size]; lia|apply same_outside_refl].
Qed.

(** ** Searching *)

Fixpoint take_fit (need : Z) (bl : list blk) : option (list blk * blk * list blk) :=
  match bl with
  | [] => None
  | b :: r =>
      if fits need b then Some ([], b, r)
      else match take_fit need r with
           | Some (l1, c, l2) => Some (b :: l1, c, l2)
           | None => None
           end
  end.

Lemma take_fit_Some need bl l1 b l2 :
  take_fit need bl = Some (l1, b, l2) ->
  bl = l1 ++ b :: l2 /\ fits need b = true /\ Forall (fun c => fits need c = false) l1.
Proof.
  revert l1. induction bl as [|c bl IH]; intros l1 H; cbn in H; [done|].
  destruct (fits need c) eqn:Hc; [simplify_eq; done|].
  destruct (take_fit need bl) as [[[l1' d] l2']|]; [|done]. simplify_eq.
  destruct (IH _ eq_refl) as (-> & ? & ?). split_and!; try done. by constructor.
Qed.

Lemma take_fit_None need bl : take_fit need bl = None <-> Forall (fun c => fits need c = false) bl.
Proof.
  induction bl as [|c bl IH]; cbn; [done|]. rewrite Forall_cons.
  destruct (fits need c) eqn:Hc; [naive_solver|].
  destruct (take_fit need bl) as [[[? ?] ?]|]; naive_solver.
Qed.

Lemma first_fit_spec s pre a bl need fuel :
  seg (hdrs s) pre a bl NULL -> sized bl -> 0 < a -> (length bl < fuel)%nat ->
  first_fit fuel (nextp a bl NULL) need s =
    Ret (match take_fit need bl with Some (l1, _, _) => a + total l1 | None => NULL end) s.
Proof.
  intros H Hs. revert pre a fuel H. induction Hs as [|b bl Hb Hs IH]; intros pre a fuel H Ha Hf.
  - destruct fuel; [cbn in Hf; lia|]. done.
  - destruct fuel as [|fuel]; [cbn in Hf; lia|]. cbn [length] in Hf. rewrite header_size in Hb.
    cbn [nextp first_fit]. rewrite (proj2 (Z.eqb_neq a NULL)) by (unfold NULL; lia).
    destruct H as [H1 H2]. rewrite (bind_Ret _ _ _ _ _ (load_hdr_spec _ _ _ H1)). cbn [bh_free bh_size bh_next].
    cbn [take_fit]. unfold fits at 1.
    assert ((bit (k_free b) =? 0) || (k_size b <? need) = negb (k_free b && (need <=? k_size b))) as ->.
    { rewrite Z.leb_antisym. by destruct (k_free b), (k_size b <? need). }
    destruct (k_free b && (need <=? k_size b)) eqn:E; cbn [negb].
    + cbn [total]. by rewrite Z.add_0_r.
    + rewrite (IH _ _ fuel H2) by lia. destruct (take_fit need bl) as [[[l1 ?] ?]|]; [|done].
      cbn [total]. f_equal. lia.
Qed.

(** A chain has no more blocks than there are headers. *)
Fixpoint starts (a : Z) (bl : list blk) : list Z :=
  match bl with [] => [] | b :: r => a :: starts (a + k_size b) r end.

Lemma starts_ge a bl x : sized bl -> x ∈ starts a bl -> a <= x.
Proof.
  intros Hs. revert a. induction Hs as [|b bl Hb Hs IH]; intros a H; cbn in H; [by apply elem_of_nil in H|].
  rewrite header_size in Hb. apply elem_of_cons in H as [->|H]; [lia|]. apply IH in H. lia.
Qed.

Lemma starts_NoDup a bl : sized bl -> NoDup (starts a bl).
Proof.
  intros Hs. revert a. induction Hs as [|b bl Hb Hs IH]; intros a; cbn; [constructor|].
  rewrite header_size in Hb. constructor; [|done]. intros H. apply starts_ge in H; [lia|done].
Qed.

Lemma seg_starts h pre a bl nxt x : seg h pre a bl nxt -> x ∈ starts a bl -> is_Some (h !! x).
Proof.
  revert pre a. induction bl as [|b bl IH]; intros pre a H Hx; cbn in Hx; [by apply elem_of_nil in Hx|].
  destruct H as [H1 H2]. apply elem_of_cons in Hx as [->|Hx]; [eauto|]. by eapply IH.
Qed.

Lemma seg_length h pre a bl nxt : sized bl -> seg h pre a bl nxt -> (length bl <= size h)%nat.
Proof.
  intros Hs H. transitivity (length (starts a bl)).
  { clear. revert a. induction bl; intros; cbn; [done|]. specialize (IHbl (a0 + k_size a)). lia. }
  rewrite <- (size_list_to_set (C := gset Z)) by (by apply starts_NoDup).
  rewrite <- size_dom. apply subseteq_size. intros x Hx. apply elem_of_list_to_set in Hx.
  apply elem_of_dom. by eapply seg_starts.
Qed.

(** ** The representation of a process' buffers *)

(** The blocks of the system buffer and, when one is attached, of the user
    buffer, each with the address it starts at. *)
Record mview := MView { m_sys : Z * list blk; m_usr : option (Z * list blk) }.

Record chain (h : gmap Z BufferHandle) (a : Z) (bl : list blk) : Prop := Chain {
  ch_seg : seg h NULL a bl NULL;
  ch_sized : sized bl;
  ch_sep : sep bl;
  ch_addr : 0 < a;
  ch_total : total bl < 2 ^ 32;
  ch_ne : bl <> []
}.

Definition disjoint_ranges (a n b m : Z) : Prop := a + n <= b \/ b + m <= a.

(** The buffers of process [id], its lock free. *)
Definition mb_rep (id : Z) (s : mbuf) (v : mview) : Prop :=
  SysBuffer s !! id = Some (fst (m_sys v)) /\
  BufferLock s !! id = Some (Some false) /\
  chain (hdrs s) (fst (m_sys v)) (snd (m_sys v)) /\
  match m_usr v with
  | None => UsrBuffer s !! id = Some NULL
  | Some (u, ubl) =>
      UsrBuffer s !! id = Some u /\ chain (hdrs s) u ubl /\
      disjoint_ranges (fst (m_sys v)) (total (snd (m_sys v))) u (total ubl)
  end.

(** The reference allocator: first fit in the system buffer, then in the user buffer. *)
Definition alloc_chain (need a : Z) (bl : list blk) : option (Z * list blk) :=
  match take_fit need bl with
  | Some (l1, b, l2) => Some (a + total l1 + BUF_HEADER_SIZE, l1 ++ split_blk need b ++ l2)
  | None => None
  end.
Definition alloc_view (need : Z) (v : mview) : option (Z * mview) :=
  match alloc_chain need (fst (m_sys v)) (snd (m_sys v)) with
  | Some (p, bl) => Some (p, MView (fst (m_sys v), bl) (m_usr v))
  | None =>
      match m_usr v with
      | None => None
      | Some (u, ubl) =>
          match alloc_chain need u ubl with
          | Some (p, bl) => Some (p, MView (m_sys v) (Some (u, bl)))
          | None => None
          end
      end
  end.

(** The allocated block whose user pointer is [p], its neighbours before and after. *)
Definition owns (a : Z) (bl : list blk) (p : Z) (l1 : list blk) (z : Z) (l2 : list blk) : Prop :=
  bl = l1 ++ Blk false z :: l2 /\ p = a + total l1 + BUF_HEADER_SIZE.

Lemma sized_split need b : fits need b = true -> 32 <= need -> sized [b] -> sized (split_blk need b).
Proof.
  intros Hf Hn Hb. apply Forall_cons in Hb as [Hb _]. rewrite header_size in Hb. unfold split_blk, MinFragment, sized.
  rewrite header_size. destruct (k_size b >=? need + (32 + 64)) eqn:E; repeat constructor; cbn; rewrite ?header_size; lia.
Qed.

Lemma sep_split need b r : k_free b = true -> sep (b :: r) -> sep (split_blk need b ++ r).
Proof.
  intros Hf H. unfold split_blk. destruct (_ >=? _); cbn [app].
  - split; [done|]. by eapply sep_cons_eq; [|exact H].
  - destruct H as [_ H]. by split; [destruct r|].
Qed.

Lemma sep_alloc need l1 b l2 :
  k_free b = true -> sep (l1 ++ b :: l2) -> sep (l1 ++ split_blk need b ++ l2).
Proof.
  intros Hf H. induction l1 as [|c l1 IH]; cbn [app] in *; [by apply sep_split|].
  destruct H as [H1 H2]. split; [|by apply IH].
  destruct l1 as [|d l1]; cbn [app] in *; [|done].
  unfold split_blk. destruct (_ >=? _); cbn; apply andb_false_r.
Qed.

Lemma chain_ext h h' a bl :
  (forall x, a <= x < a + total bl -> h' !! x = h !! x) -> chain h a bl -> chain h' a bl.
Proof. intros Hx [H1 H2 H3 H4 H5 H6]. split; try done. by eapply seg_ext. Qed.

Lemma mb_lock_spec id s :
  BufferLock s !! id = Some (Some false) ->
  mb_lock id s = Ret tt (s <| BufferLock := <[id := Some true]> (BufferLock s) |>).
Proof.
  intros H. unfold mb_lock, buffer_lock. mrun. rewrite H. unfold set_lock, buffer_lock. mrun. by rewrite H.
Qed.

Lemma mb_unlock_spec id s b :
  BufferLock s !! id = Some (Some b) ->
  mb_unlock id s = Ret tt (s <| BufferLock := <[id := Some false]> (BufferLock s) |>).
Proof.
  intros H. unfold mb_unlock, buffer_lock. mrun. rewrite H. unfold set_lock, buffer_lock. mrun. by rewrite H.
Qed.

(** Claiming the block found in a chain. *)
Lemma claim_chain s a bl need l1 b l2 :
  chain (hdrs s) a bl -> take_fit need bl = Some (l1, b, l2) -> 32 <= need < 2 ^ 32 - 96 ->
  exists h', mb_claim (a + total l1) need s = Ret tt (s <| hdrs := h' |>) /\
    chain h' a (l1 ++ split_blk need b ++ l2) /\ same_outside (hdrs s) h' a (total bl) /\
    total (l1 ++ split_blk need b ++ l2) = total bl.
Proof.
  intros [H1 H2 H3 H4 H5 H6] Ht Hn. apply take_fit_Some in Ht as (-> & Hf & _).
  destruct (claim_spec s NULL a l1 b l2 need H1 H2 H4 H5 Hf Hn) as (h' & E & Hseg & Hout).
  assert (total (l1 ++ split_blk need b ++ l2) = total (l1 ++ b :: l2)) as Htot.
  { rewrite !total_app, total_split. done. }
  exists h'. split_and!; try done. apply andb_true_iff in Hf as Hf'. destruct Hf' as [Hfree _].
  split; try done.
  - apply sized_app in H2 as [? H2]. apply sized_app. split; [done|].
    apply Forall_cons in H2 as [? ?]. apply sized_app. split; [|done].
    apply sized_split; [done|lia|]. by apply Forall_singleton.
  - by apply sep_alloc.
  - by rewrite Htot.
  - destruct l1; [|done]. unfold split_blk. by destruct (_ >=? _).
Qed.

(** Releasing an owned block of a chain. *)
Lemma release_chain s a bl p l1 z l2 :
  chain (hdrs s) a bl -> owns a bl p l1 z l2 ->
  exists h', mb_release (p - BUF_HEADER_SIZE) s = Ret tt (s <| hdrs := h' |>) /\
    chain h' a (merge (l1 ++ Blk true z :: l2)) /\ same_outside (hdrs s) h' a (total bl) /\
    total (merge (l1 ++ Blk true z :: l2)) = total bl.
Proof.
  intros [H1 H2 H3 H4 H5 H6] [-> ->].
  destruct (release_spec s a l1 z l2 H1 H2 H3 H4 H5) as (h' & E & Hseg & Hout).
  assert (total (merge (l1 ++ Blk true z :: l2)) = total (l1 ++ Blk false z :: l2)) as Ht.
  { rewrite total_merge, !total_app. done. }
  exists h'. replace (a + total l1 + BUF_HEADER_SIZE - BUF_HEADER_SIZE) with (a + total l1) by lia.
  split_and!; try done. split; try done.
  - assert (sized (l1 ++ Blk true z :: l2)) as Hs.
    { apply sized_app in H2 as [? H2]. apply sized_app. split; [done|].
      apply Forall_cons in H2 as [? ?]. by constructor. }
    clear -Hs. induction Hs as [|b bl Hb Hs IH]; [constructor|]. cbn. unfold merge1.
    destruct (merge bl) as [|c r]; [by repeat constructor|].
    destruct (_ && _); [|by constructor].
    apply Forall_cons in IH as [Hc ?]. constructor; [|done]. rewrite header_size in *. cbn. lia.
  - apply sep_merge.
  - by rewrite Ht.
  - apply merge_nonnil. by destruct l1.
Qed.

(** ** The operations on the representation *)

(** What an operation on the buffers [v] of process [id] leaves alone. *)
Definition in_view (v : mview) (x : Z) : Prop :=
  fst (m_sys v) <= x < fst (m_sys v) + total (snd (m_sys v)) \/
  match m_usr v with None => False | Some (u, ubl) => u <= x < u + total ubl end.
Definition untouched (id : Z) (v : mview) (s s' : mbuf) : Prop :=
  (forall x, ~ in_view v x -> hdrs s' !! x = hdrs s !! x) /\
  SysBuffer s' = SysBuffer s /\ UsrBuffer s' = UsrBuffer s /\
  (forall i, i <> id -> BufferLock s' !! i = BufferLock s !! i).

(** Two processes' buffers that do not overlap do not interfere. *)
Lemma untouched_rep id id' s s' v v' :
  untouched id v s s' -> id' <> id -> (forall x, in_view v x -> ~ in_view v' x) ->
  mb_rep id' s v' -> mb_rep id' s' v'.
Proof.
  intros (Hh & Hsy & Hus & Hlk) Hid Hap (R1 & R2 & R3 & R4).
  assert (forall x, in_view v' x -> hdrs s' !! x = hdrs s !! x) as Hx.
  { intros x Hin. apply Hh. intros Hv. by apply (Hap x). }
  unfold mb_rep. rewrite Hsy, Hus, Hlk by done. split_and!; try done.
  - eapply chain_ext; [|exact R3]. intros x ?. apply Hx. by left.
  - destruct (m_usr v') as [[u ubl]|] eqn:E; [|done]. destruct R4 as (? & ? & ?). split_and!; try done.
    eapply chain_ext; [|done]. intros x ?. apply Hx. right. by rewrite E.
Qed.

Lemma chain_outside h h' a bl b n :
  same_outside h h' b n -> disjoint_ranges a (total bl) b n -> chain h a bl -> chain h' a bl.
Proof.
  intros Ho Hd. apply chain_ext. intros x Hx. apply Ho. unfold disjoint_ranges in Hd. lia.
Qed.

Lemma disjoint_comm a n b m : disjoint_ranges a n b m -> disjoint_ranges b m a n.
Proof. unfold disjoint_ranges. lia. Qed.

Lemma adjusted_range isize : size_ok isize -> 32 <= mb_adjusted isize < 2 ^ 32 - 96.
Proof. intros H. pose proof (mb_adjusted_bounds _ H). unfold size_ok in H. lia. Qed.

(** The state with the lock held, and after the lock is given back with new headers. *)
Definition locked (id : Z) (s : mbuf) : mbuf := s <| BufferLock := <[id := Some true]> (BufferLock s) |>.
Definition done_with (id : Z) (s : mbuf) (h : gmap Z BufferHandle) : mbuf :=
  s <| hdrs := h |> <| BufferLock := <[id := Some false]> (<[id := Some true]> (BufferLock s)) |>.

Lemma unlock_done id s h :
  mb_unlock id (locked id s <| hdrs := h |>) = Ret tt (done_with id s h).
Proof. rewrite (mb_unlock_spec id _ true); [done|]. cbn. by rewrite lookup_insert_eq. Qed.

Lemma unlock_same id s : mb_unlock id (locked id s) = Ret tt (done_with id s (hdrs s)).
Proof. rewrite (mb_unlock_spec id _ true); [done|]. cbn. by rewrite lookup_insert_eq. Qed.

Lemma done_untouched id v s h :
  (forall x, ~ in_view v x -> h !! x = hdrs s !! x) -> untouched id v s (done_with id s h).
Proof. intros H. split_and!; try done. intros i Hi. cbn. by rewrite !lookup_insert_ne by done. Qed.

Lemma done_rep_sys id s v h bl :
  mb_rep id s v -> same_outside (hdrs s) h (fst (m_sys v)) (total (snd (m_sys v))) ->
  chain h (fst (m_sys v)) bl -> total bl = total (snd (m_sys v)) ->
  mb_rep id (done_with id s h) (MView (fst (m_sys v), bl) (m_usr v)) /\
  untouched id v s (done_with id s h).
Proof.
  intros (R1 & R2 & R3 & R4) Ho Hc Ht. split.
  - split_and!; try done; cbn.
    { by rewrite lookup_insert_eq. }
    destruct (m_usr v) as [[u ubl]|]; [|done]. destruct R4 as (? & Hch & Hd).
    split_and!; [done| |by rewrite Ht]. eapply chain_outside; [exact Ho|by apply disjoint_comm|done].
  - apply done_untouched. intros x Hx. apply Ho. intros Hin. apply Hx. by left.
Qed.

Lemma done_rep_usr id s v h u ubl bl :
  mb_rep id s v -> m_usr v = Some (u, ubl) -> same_outside (hdrs s) h u (total ubl) ->
  chain h u bl -> total bl = total ubl ->
  mb_rep id (done_with id s h) (MView (m_sys v) (Some (u, bl))) /\
  untouched id v s (done_with id s h).
Proof.
  intros (R1 & R2 & R3 & R4) E Ho Hc Ht. rewrite E in R4. destruct R4 as (? & Hch & Hd). split.
  - split_and!; try done; cbn.
    { by rewrite lookup_insert_eq. }
    { by eapply chain_outside. }
    split_and!; [done..|by rewrite Ht].
  - apply done_untouched. intros x Hx. apply Ho. intros Hin. apply Hx. right. by rewrite E.
Qed.

Lemma done_same id s v :
  mb_rep id s v -> mb_rep id (done_with id s (hdrs s)) v /\ untouched id v s (done_with id s (hdrs s)).
Proof.
  intros H. pose proof (done_rep_sys id s v (hdrs s) (snd (m_sys v)) H (same_outside_refl _ _ _)
    (proj1 (proj2 (proj2 H))) eq_refl) as [H1 H2].
  split; [|done]. by destruct v as [[? ?] ?].
Qed.

Lemma first_fit_chain s a bl need fuel :
  chain (hdrs s) a bl -> (size (hdrs s) < fuel)%nat ->
  first_fit fuel a need s =
    Ret (match take_fit need bl with Some (l1, _, _) => a + total l1 | None => NULL end) s.
Proof.
  intros [H1 H2 H3 H4 H5 H6] Hf. pose proof (seg_length _ _ _ _ _ H2 H1).
  destruct bl as [|b r]; [done|]. apply (first_fit_spec s NULL a (b :: r) need fuel); try done. lia.
Qed.

Lemma fit_addr_nonnull a bl need l1 b l2 h :
  chain h a bl -> take_fit need bl = Some (l1, b, l2) -> (a + total l1 =? NULL) = false.
Proof.
  intros [_ H2 _ H4 _ _] H. apply take_fit_Some in H as (-> & _ & _).
  apply sized_app in H2 as [H2 _]. pose proof (total_nonneg _ H2). apply Z.eqb_neq. unfold NULL. lia.
Qed.

Lemma alloc_rep id s v isize :
  mb_rep id s v -> size_ok isize ->
  exists s', mb_alloc id isize s =
      Ret (match alloc_view (mb_adjusted isize) v with Some (p, _) => p | None => NULL end) s' /\
    mb_rep id s' (match alloc_view (mb_adjusted isize) v with Some (_, v') => v' | None => v end) /\
    untouched id v s s'.
Proof.
  intros HR Hsz. pose proof HR as (R1 & R2 & R3 & R4). pose proof (adjusted_range _ Hsz) as Hn.
  unfold mb_alloc. rewrite (bind_Ret _ _ _ _ _ (mb_lock_spec _ _ R2)). fold (locked id s).
  set (need := mb_adjusted isize) in *. set (s1 := locked id s).
  rewrite (bind_Ret get _ s1 s1 s1) by done.
  rewrite (bind_Ret (sys_buffer id) _ s1 (fst (m_sys v)) s1)
    by (unfold sys_buffer; mrun; by rewrite (R1 : SysBuffer s1 !! id = _)).
  rewrite (bind_Ret _ _ _ _ _ (first_fit_chain s1 _ _ need (S (size (hdrs s1))) R3 ltac:(lia))).
  unfold alloc_view, alloc_chain.
  destruct (take_fit need (snd (m_sys v))) as [[[l1 b] l2]|] eqn:Ef.
  - (* in the system buffer *)
    assert (exists ub, UsrBuffer s1 !! id = Some ub) as [ub Hub].
    { destruct (m_usr v) as [[u ubl]|]; [destruct R4 as (? & _)|]; eauto. }
    rewrite (bind_Ret (usr_buffer id) _ s1 ub s1) by (unfold usr_buffer; mrun; by rewrite Hub).
    rewrite (fit_addr_nonnull _ _ _ _ _ _ _ R3 Ef). cbn [andb]. rewrite bind_mret.
    rewrite (fit_addr_nonnull _ _ _ _ _ _ _ R3 Ef).
    destruct (claim_chain s1 _ _ need l1 b l2 R3 Ef Hn) as (h' & E & Hc & Ho & Ht).
    rewrite (bind_Ret _ _ _ _ _ E), (bind_Ret _ _ _ _ _ (unlock_done id s h')).
    destruct (done_rep_sys id s v h' _ HR Ho Hc Ht). eauto.
  - destruct (m_usr v) as [[u ubl]|] eqn:Eu.
    + (* in the user buffer *)
      destruct R4 as (Hub & Hc & Hd).
      rewrite (bind_Ret (usr_buffer id) _ s1 u s1)
        by (unfold usr_buffer; mrun; by rewrite (Hub : UsrBuffer s1 !! id = _)).
      assert ((NULL =? NULL) && negb (u =? NULL) = true) as ->.
      { destruct Hc as [_ _ _ Hu _ _]. rewrite (proj2 (Z.eqb_neq u NULL)) by (unfold NULL; lia). done. }
      rewrite (bind_Ret _ _ _ _ _ (first_fit_chain s1 _ _ need (S (size (hdrs s1))) Hc ltac:(lia))).
      destruct (take_fit need ubl) as [[[l1 b] l2]|] eqn:Ef'.
      * rewrite (fit_addr_nonnull _ _ _ _ _ _ _ Hc Ef').
        destruct (claim_chain s1 _ _ need l1 b l2 Hc Ef' Hn) as (h' & E & Hc' & Ho & Ht).
        rewrite (bind_Ret _ _ _ _ _ E), (bind_Ret _ _ _ _ _ (unlock_done id s h')).
        destruct (done_rep_usr id s v h' u ubl _ HR Eu Ho Hc' Ht). eauto.
      * rewrite Z.eqb_refl, (bind_Ret _ _ _ _ _ (unlock_same id s)).
        destruct (done_same id s v HR). eauto.
    + rewrite (bind_Ret (usr_buffer id) _ s1 NULL s1)
        by (unfold usr_buffer; mrun; by rewrite (R4 : UsrBuffer s1 !! id = _)).
      cbn [andb negb]. rewrite Z.eqb_refl. cbn [andb negb]. rewrite bind_mret, Z.eqb_refl.
      rewrite (bind_Ret _ _ _ _ _ (unlock_same id s)).
      destruct (done_same id s v HR). eauto.
Qed.

(** The buffers after the block of [p] is given back. *)
Inductive freed (v : mview) (p : Z) : mview -> Prop :=
  | freed_sys a bl l1 z l2 :
      m_sys v = (a, bl) -> owns a bl p l1 z l2 ->
      freed v p (MView (a, merge (l1 ++ Blk true z :: l2)) (m_usr v))
  | freed_usr u ubl l1 z l2 :
      m_usr v = Some (u, ubl) -> owns u ubl p l1 z l2 ->
      freed v p (MView (m_sys v) (Some (u, merge (l1 ++ Blk true z :: l2)))).

Lemma mb_free_rep id s v p v' :
  mb_rep id s v -> freed v p v' ->
  exists s', mb_free id p s = Ret tt s' /\ mb_rep id s' v' /\ untouched id v s s'.
Proof.
  intros HR Hf. pose proof HR as (R1 & R2 & R3 & R4).
  unfold mb_free. rewrite (bind_Ret _ _ _ _ _ (mb_lock_spec _ _ R2)). fold (locked id s).
  destruct Hf as [a bl l1 z l2 E Ho|u ubl l1 z l2 E Ho].
  - rewrite E in R3. cbn in R3.
    destruct (release_chain (locked id s) a bl p l1 z l2 R3 Ho) as (h' & Er & Hc & Hout & Ht).
    rewrite (bind_Ret _ _ _ _ _ Er), unlock_done.
    pose proof (done_rep_sys id s v h' (merge (l1 ++ Blk true z :: l2)) HR) as Hd. rewrite E in Hd.
    destruct (Hd Hout Hc Ht). eauto.
  - rewrite E in R4. destruct R4 as (Hu & Hch & Hdis).
    destruct (release_chain (locked id s) u ubl p l1 z l2 Hch Ho) as (h' & Er & Hc & Hout & Ht).
    rewrite (bind_Ret _ _ _ _ _ Er), unlock_done.
    destruct (done_rep_usr id s v h' u ubl _ HR E Hout Hc Ht). eauto.
Qed.
