(* ===== verification/MBufferProps.v ===== *)
(** Properties of the message buffers: first-fit allocation and its round trip with
    release, coalescing, attaching and detaching a user buffer, initialization. *)
From S2P Require Import Prelude MBuffer MBufferRep.

(** ** What an allocated pointer owns *)

Lemma split_owned need b l1 l2 :
  fits need b = true -> sep (l1 ++ b :: l2) ->
  exists z l2', l1 ++ split_blk need b ++ l2 = l1 ++ Blk false z :: l2' /\
    need <= z /\ merge (l1 ++ Blk true z :: l2') = l1 ++ b :: l2.
Proof.
  intros Hf Hs. apply andb_true_iff in Hf as [Hb Hz]. apply Z.leb_le in Hz.
  destruct b as [f z0]. cbn in Hb, Hz. subst f. unfold split_blk. cbn [k_size].
  destruct (z0 >=? need + MinFragment); cbn [app].
  - exists need, (Blk true (z0 - need) :: l2). split_and!; [done|lia|].
    rewrite merge_split. by apply merge_sep.
  - exists z0, l2. split_and!; [done|lia|]. by apply merge_sep.
Qed.

Lemma alloc_chain_owned need a bl p bl' :
  sep bl -> alloc_chain need a bl = Some (p, bl') ->
  exists l1 z l2, owns a bl' p l1 z l2 /\ need <= z /\ merge (l1 ++ Blk true z :: l2) = bl.
Proof.
  intros Hs. unfold alloc_chain. destruct (take_fit need bl) as [[[l1 b] l2]|] eqn:E; [|done].
  intros [= <- <-]. apply take_fit_Some in E as (-> & Hf & _).
  destruct (split_owned need b l1 l2 Hf Hs) as (z & l2' & -> & Hz & Hm).
  exists l1, z, l2'. done.
Qed.

(** An allocated pointer can be given back, which restores the blocks. *)
Lemma alloc_view_freed id s need v p v' :
  mb_rep id s v -> alloc_view need v = Some (p, v') -> freed v' p v.
Proof.
  intros (_ & _ & Hc & Hu). unfold alloc_view. destruct v as [[a bl] us]. cbn in *.
  destruct (alloc_chain need a bl) as [[q bl']|] eqn:E.
  - intros [= <- <-]. destruct (alloc_chain_owned _ _ _ _ _ (ch_sep _ _ _ Hc) E) as (l1 & z & l2 & Ho & _ & <-).
    by eapply freed_sys.
  - destruct us as [[u ubl]|]; [|done]. destruct Hu as (_ & Hu & _).
    destruct (alloc_chain need u ubl) as [[q bl']|] eqn:E'; [|done]. intros [= <- <-].
    destruct (alloc_chain_owned _ _ _ _ _ (ch_sep _ _ _ Hu) E') as (l1 & z & l2 & Ho & _ & <-).
    by eapply freed_usr.
Qed.

Lemma alloc_view_room id s need v p v' :
  mb_rep id s v -> alloc_view need v = Some (p, v') ->
  exists a bl l1 z l2, (m_sys v' = (a, bl) \/ m_usr v' = Some (a, bl)) /\
    owns a bl p l1 z l2 /\ need <= z.
Proof.
  intros (_ & _ & Hc & Hu). unfold alloc_view. destruct v as [[a bl] us]. cbn in *.
  destruct (alloc_chain need a bl) as [[q bl']|] eqn:E.
  - intros [= <- <-]. destruct (alloc_chain_owned _ _ _ _ _ (ch_sep _ _ _ Hc) E) as (l1 & z & l2 & Ho & ? & _).
    exists a, bl', l1, z, l2. cbn. auto.
  - destruct us as [[u ubl]|]; [|done]. destruct Hu as (_ & Hu & _).
    destruct (alloc_chain need u ubl) as [[q bl']|] eqn:E'; [|done]. intros [= <- <-].
    destruct (alloc_chain_owned _ _ _ _ _ (ch_sep _ _ _ Hu) E') as (l1 & z & l2 & Ho & ? & _).
    exists u, bl', l1, z, l2. cbn. auto.
Qed.

(** ** A concrete buffer, for the witnesses *)

Definition mbuf0 : mbuf :=
  mkMbuf {[ 0 := 4096 ]} {[ 0 := NULL ]} {[ 0 := Some false ]}
         {[ 4096 := BH NULL NULL 1 1024 ]} 8192 16384.
Definition view0 : mview := MView (4096, [Blk true 1024]) None.

Lemma mbuf0_rep : mb_rep 0 mbuf0 view0.
Proof.
  split_and!; cbn; [done|done| |done]. apply Chain; try done.
  repeat constructor. by rewrite header_size.
Qed.

(** (C18) [mb_alloc] is first fit: it returns NULL exactly when no free block of
    the system buffer and of the attached user buffer is large enough, and
    otherwise the first that is, split when the rest is worth a block; the block
    behind the pointer holds the requested bytes, blocks still tile the buffers,
    and no header outside them, no other process' lock, is touched. *)
Theorem mb_alloc_first_fit id s v isize :
  mb_rep id s v -> size_ok isize ->
  exists s', untouched id v s s' /\
    match alloc_view (mb_adjusted isize) v with
    | None => mb_alloc id isize s = Ret NULL s' /\ mb_rep id s' v
    | Some (p, v') => mb_alloc id isize s = Ret p s' /\ mb_rep id s' v' /\
        exists a bl l1 z l2, (m_sys v' = (a, bl) \/ m_usr v' = Some (a, bl)) /\
          owns a bl p l1 z l2 /\ isize <= z - BUF_HEADER_SIZE
    end.
Proof.
  intros HR Hs. destruct (alloc_rep id s v isize HR Hs) as (s' & E & HR' & Hu).
  exists s'. split; [done|].
  destruct (alloc_view (mb_adjusted isize) v) as [[p v']|] eqn:Ev; [|done].
  split_and!; try done. destruct (alloc_view_room _ _ _ _ _ _ HR Ev) as (a & bl & l1 & z & l2 & ? & ? & ?).
  exists a, bl, l1, z, l2. split_and!; try done.
  pose proof (mb_adjusted_bounds _ Hs). rewrite header_size. lia.
Qed.

Lemma mb_alloc_first_fit_witness :
  exists s', untouched 0 view0 mbuf0 s' /\
    match alloc_view (mb_adjusted 100) view0 with
    | None => mb_alloc 0 100 mbuf0 = Ret NULL s' /\ mb_rep 0 s' view0
    | Some (p, v') => mb_alloc 0 100 mbuf0 = Ret p s' /\ mb_rep 0 s' v' /\
        exists a bl l1 z l2, (m_sys v' = (a, bl) \/ m_usr v' = Some (a, bl)) /\
          owns a bl p l1 z l2 /\ 100 <= z - BUF_HEADER_SIZE
    end.
Proof. apply (mb_alloc_first_fit 0 mbuf0 view0 100); [apply mbuf0_rep|]. unfold size_ok. lia. Defined.

(** [mb_free] of an allocated pointer, in either buffer, makes its block free
    and coalesces it with its free neighbours, so that the blocks are again those
    of the reference definition [merge]; it never fails. *)
Theorem mb_free_coalesces id s v p v' :
  mb_rep id s v -> freed v p v' ->
  exists s', mb_free id p s = Ret tt s' /\ mb_rep id s' v' /\ untouched id v s s'.
Proof. apply mb_free_rep. Qed.

(** (C19) An allocation followed by the release of its block leaves the buffers as
    they were, whatever was split and whatever the neighbours are. *)
Theorem mb_alloc_free_roundtrip id s v isize p s1 :
  mb_rep id s v -> size_ok isize -> mb_alloc id isize s = Ret p s1 -> p <> NULL ->
  exists s2, mb_free id p s1 = Ret tt s2 /\ mb_rep id s2 v.
Proof.
  intros HR Hs E Hp. destruct (alloc_rep id s v isize HR Hs) as (s' & E' & HR' & _).
  rewrite E in E'. injection E' as -> ->.
  destruct (alloc_view (mb_adjusted isize) v) as [[q v']|] eqn:Ev; [|done].
  destruct (mb_free_rep id s' v' q v HR' (alloc_view_freed _ _ _ _ _ _ HR Ev)) as (s2 & ? & ? & _). eauto.
Qed.

Definition mbuf1 : mbuf := match mb_alloc 0 100 mbuf0 with Ret _ s => s | _ => mbuf0 end.

Lemma mb_alloc_free_roundtrip_witness :
  exists s2, mb_free 0 4128 mbuf1 = Ret tt s2 /\ mb_rep 0 s2 view0.
Proof.
  apply (mb_alloc_free_roundtrip 0 mbuf0 view0 100 4128 mbuf1 mbuf0_rep).
  - unfold size_ok. lia.
  - vm_compute. reflexivity.
  - discriminate.
Defined.

Lemma mbuf1_rep : mb_rep 0 mbuf1 (MView (4096, [Blk false 160; Blk true 864]) None).
Proof.
  destruct (alloc_rep 0 mbuf0 view0 100 mbuf0_rep ltac:(unfold size_ok; lia)) as (s' & E & HR & _).
  replace mbuf1 with s'; [exact HR|]. unfold mbuf1. by rewrite E.
Qed.

Lemma mb_free_coalesces_witness :
  exists s', mb_free 0 4128 mbuf1 = Ret tt s' /\
    mb_rep 0 s' (MView (4096, merge [Blk true 160; Blk true 864]) None) /\
    untouched 0 (MView (4096, [Blk false 160; Blk true 864]) None) mbuf1 s'.
Proof.
  apply (mb_free_coalesces 0 mbuf1 (MView (4096, [Blk false 160; Blk true 864]) None) 4128).
  - apply mbuf1_rep.
  - exact (freed_sys (MView (4096, [Blk false 160; Blk true 864]) None) 4128 4096
      [Blk false 160; Blk true 864] [] 160 [Blk true 864] eq_refl (conj eq_refl eq_refl)).
Defined.

(** ** User buffers *)

Lemma usr_buffer_spec id s u : UsrBuffer s !! id = Some u -> usr_buffer id s = Ret u s.
Proof. intros H. unfold usr_buffer. mrun. by rewrite H. Qed.

Lemma set_usr_spec id s u v :
  UsrBuffer s !! id = Some u -> set_usr id v s = Ret tt (s <| UsrBuffer := <[id := v]> (UsrBuffer s) |>).
Proof. intros H. unfold set_usr. by rewrite (bind_Ret _ _ _ _ _ (usr_buffer_spec _ _ _ H)). Qed.

(** Blocks that are all free are one block. *)
Lemma all_free_single bl : sep bl -> bl <> [] -> forallb k_free bl = true -> bl = [Blk true (total bl)].
Proof.
  destruct bl as [|[f z] [|c r]]; cbn; [done|..].
  - intros _ _ H. rewrite andb_true_r in H. subst f. f_equal. f_equal. lia.
  - intros [H _] _ H2. rewrite andb_assoc in H2. by rewrite H in H2.
Qed.

Lemma detach_spec id s a bl u ubl :
  mb_rep id s (MView (a, bl) (Some (u, ubl))) -> total ubl < 2 ^ 31 ->
  exists s' n, mb_detach_buffer id s = Ret (if forallb k_free ubl then 0 else -1, Some (u, n)) s' /\
    mb_rep id s' (MView (a, bl) (if forallb k_free ubl then None else Some (u, ubl))) /\
    (forallb k_free ubl = true -> n = total ubl).
Proof.
  intros HR Ht. pose proof HR as (R1 & R2 & R3 & R4 & R5 & R6). cbn in R1, R2, R3.
  pose proof R5 as [S1 S2 S3 S4 S5 S6].
  unfold mb_detach_buffer. rewrite (bind_Ret _ _ _ _ _ (usr_buffer_spec _ _ _ R4)).
  rewrite (proj2 (Z.eqb_neq u NULL)) by (unfold NULL; lia).
  rewrite (bind_Ret _ _ _ _ _ (mb_lock_spec _ _ R2)). fold (locked id s).
  destruct ubl as [|b r]; [done|]. pose proof S1 as [Hb _].
  rewrite (bind_Ret _ _ _ _ _ (load_hdr_spec u (locked id s) _ Hb)). cbn [bh_free bh_next bh_size].
  pose proof (total_nonneg _ S2) as Hnn. apply Forall_cons in S2 as [Hsb Hsr]. rewrite header_size in Hsb.
  pose proof (total_nonneg _ Hsr). cbn [total] in Ht.
  destruct (forallb k_free (b :: r)) eqn:Ef.
  - pose proof (all_free_single _ S3 S6 Ef) as E. destruct b as [f z]. injection E as -> _ ->.
    cbn [k_free bit nextp orb k_size] in *. rewrite Z.eqb_refl. cbn [orb negb Z.eqb].
    rewrite (bind_Ret _ _ _ _ _ (set_usr_spec id (locked id s) u NULL R4)).
    set (s2 := locked id s <| UsrBuffer := _ |>).
    assert (BufferLock s2 !! id = Some (Some true)) as Hl2 by (cbn; by rewrite lookup_insert_eq).
    rewrite (bind_Ret _ _ _ _ _ (mb_unlock_spec id s2 true Hl2)).
    eexists _, _. split; [done|]. split.
    + split_and!; cbn; rewrite ?lookup_insert_eq; done.
    + intros _. rewrite int32_id; [cbn; lia|]. unfold is_int32. cbn in *. lia.
  - assert ((bit (k_free b) =? 0) || negb (nextp (u + k_size b) r NULL =? NULL) = true) as ->.
    { cbn in Ef. destruct (k_free b); cbn; [|done]. destruct r as [|c r]; [done|]. cbn.
      apply negb_true_iff, Z.eqb_neq. unfold NULL. lia. }
    rewrite (bind_Ret _ _ _ _ _ (unlock_same id s)). destruct (done_same id s _ HR) as [HR' _].
    eexists _, _. split; [done|]. split; [done|]. done.
Qed.

(** [mb_detach_buffer] gives the user buffer back exactly when none of its
    blocks is in use; otherwise it fails and the buffer stays attached. *)
Theorem mb_detach_iff_unused id s a bl u ubl :
  mb_rep id s (MView (a, bl) (Some (u, ubl))) -> total ubl < 2 ^ 31 ->
  exists s' n, mb_detach_buffer id s = Ret (if forallb k_free ubl then 0 else -1, Some (u, n)) s' /\
    mb_rep id s' (MView (a, bl) (if forallb k_free ubl then None else Some (u, ubl))) /\
    (forallb k_free ubl = true -> n = total ubl).
Proof. apply detach_spec. Qed.

(** A buffer attached by MPI_Buffer_attach and not used meanwhile comes back
    from MPI_Buffer_detach, with its address and size. *)
Theorem buffer_attach_detach id s a bl buf n :
  mb_rep id s (MView (a, bl) None) -> 0 < buf -> BUF_HEADER_SIZE <= n < 2 ^ 31 ->
  disjoint_ranges a (total bl) buf n ->
  exists s1 s2, tmpi_Buffer_attach id buf n s = Ret MPI_SUCCESS s1 /\
    mb_rep id s1 (MView (a, bl) (Some (buf, [Blk true n]))) /\
    tmpi_Buffer_detach id s1 = Ret (MPI_SUCCESS, Some (buf, n)) s2 /\
    mb_rep id s2 (MView (a, bl) None).
Proof.
  intros HR Hbuf Hn Hd. pose proof HR as (R1 & R2 & R3 & R4). cbn in R1, R2, R3, R4.
  rewrite header_size in Hn.
  set (s1 := s <| UsrBuffer := <[id := buf]> (UsrBuffer s) |>
               <| hdrs := <[buf := BH NULL NULL 1 n]> (hdrs s) |>
               <| BufferLock := <[id := Some false]> (<[id := Some true]> (BufferLock s)) |>).
  assert (tmpi_Buffer_attach id buf n s = Ret MPI_SUCCESS s1) as E1.
  { unfold tmpi_Buffer_attach, mb_attach_buffer.
    rewrite bind_assoc, (bind_Ret _ _ _ _ _ (usr_buffer_spec _ _ _ R4)).
    rewrite Z.eqb_refl. cbn [negb].
    rewrite bind_assoc, (bind_Ret _ _ _ _ _ (mb_lock_spec _ _ R2)). fold (locked id s).
    rewrite bind_assoc, (bind_Ret _ _ _ _ _ (set_usr_spec id (locked id s) _ buf R4)).
    unfold put_hdr. rewrite u32 by lia. mrun. unfold mb_unlock, buffer_lock. mrun. cbn.
    rewrite lookup_insert_eq. unfold set_lock, buffer_lock. mrun. cbn. by rewrite lookup_insert_eq. }
  assert (mb_rep id s1 (MView (a, bl) (Some (buf, [Blk true n])))) as HR1.
  { split_and!; cbn.
    - done.
    - by rewrite lookup_insert_eq.
    - eapply chain_ext; [|exact R3]. intros x Hx. apply lookup_insert_ne.
      unfold disjoint_ranges in Hd. lia.
    - rewrite lookup_insert_eq. split_and!; [done| |by rewrite Z.add_0_r].
      apply Chain; cbn; try done; [|repeat constructor; rewrite header_size; cbn; lia|lia].
      by rewrite lookup_insert_eq. }
  pose proof HR1 as (_ & _ & _ & Q4 & _ & _).
  assert (hdrs s1 !! buf = Some (BH NULL NULL 1 n)) as Hh by (cbn; by rewrite lookup_insert_eq).
  assert (BufferLock s1 !! id = Some (Some false)) as Hl by (cbn; by rewrite lookup_insert_eq).
  clearbody s1.
  destruct (detach_spec id s1 a bl buf [Blk true n] HR1) as (s2 & m & E2 & HR2 & Hm); [cbn; lia|].
  exists s1, s2. split_and!; try done. unfold tmpi_Buffer_detach. rewrite (bind_Ret _ _ _ _ _ E2). cbn.
  rewrite Hm by done. cbn. by rewrite Z.add_0_r.
Qed.

Lemma buffer_attach_detach_witness :
  exists s1 s2, tmpi_Buffer_attach 0 12288 512 mbuf0 = Ret MPI_SUCCESS s1 /\
    mb_rep 0 s1 (MView (4096, [Blk true 1024]) (Some (12288, [Blk true 512]))) /\
    tmpi_Buffer_detach 0 s1 = Ret (MPI_SUCCESS, Some (12288, 512)) s2 /\
    mb_rep 0 s2 (MView (4096, [Blk true 1024]) None).
Proof.
  apply (buffer_attach_detach 0 mbuf0 4096 [Blk true 1024] 12288 512 mbuf0_rep).
  - lia.
  - rewrite header_size. lia.
  - unfold disjoint_ranges. cbn. lia.
Defined.

(** A user buffer with a block in use. *)
Definition mbuf2 : mbuf :=
  mkMbuf {[ 0 := 4096 ]} {[ 0 := 12288 ]} {[ 0 := Some false ]}
         (<[12288 := BH NULL NULL 0 512]> {[ 4096 := BH NULL NULL 1 1024 ]}) 8192 16384.

Lemma mb_detach_iff_unused_witness :
  exists s' n, mb_detach_buffer 0 mbuf2 = Ret (-1, Some (12288, n)) s' /\
    mb_rep 0 s' (MView (4096, [Blk true 1024]) (Some (12288, [Blk false 512]))) /\
    (false = true -> n = 512).
Proof.
  apply (mb_detach_iff_unused 0 mbuf2 4096 [Blk true 1024] 12288 [Blk false 512]); [|cbn; lia].
  split_and!; cbn; try done.
  - apply Chain; try done. repeat constructor. by rewrite header_size.
  - split_and!; [done| |unfold disjoint_ranges; lia].
    apply Chain; try done. repeat constructor. by rewrite header_size.
Defined.

(** ** Initialization *)

Lemma set_sys_spec id s u v :
  SysBuffer s !! id = Some u -> set_sys id v s = Ret tt (s <| SysBuffer := <[id := v]> (SysBuffer s) |>).
Proof. intros H. unfold set_sys, sys_buffer. mrun. by rewrite H. Qed.

(** The loop ends, with a buffer or with none. *)
Lemma mb_init_loop_spec fuel : forall id bsize s u,
  SysBuffer s !! id = Some u -> 0 < mb_brk s -> bsize < 2 ^ 31 ->
  bsize <= 0x100000 * (Z.of_nat fuel - 1) -> (1 <= fuel)%nat ->
  exists r s', mb_init_loop fuel id bsize s = Ret r s' /\
    UsrBuffer s' = UsrBuffer s /\ BufferLock s' = BufferLock s /\ hdrs s' = hdrs s /\
    0 < mb_brk s' /\ is_Some (SysBuffer s' !! id) /\
    match r with
    | Some n => SysBuffer s' !! id = Some (mb_brk s) /\ 0x100000 <= n < 2 ^ 31
    | None => True
    end.
Proof.
  induction fuel as [|fuel IH]; intros id bsize s u Hu Hb Hz Hf Hf1; [lia|].
  cbn [mb_init_loop]. destruct (bsize >? 0) eqn:Epos.
  2:{ exists None, s. split_and!; done. }
  set (n := if bsize <? 0x100000 then 0x100000 else bsize).
  assert (0x100000 <= n < 2 ^ 31) as Hn by (subst n; destruct (bsize <? 0x100000) eqn:E; lia).
  unfold mb_malloc at 1. rewrite bind_assoc. rewrite (bind_Ret get _ s s s) by done.
  destruct (mb_brk s + n <=? mb_lim s) eqn:Em.
  - set (s1 := s <| mb_brk := mb_brk s + n |>). rewrite bind_assoc.
    rewrite (bind_Ret (modify _) _ s tt s1) by done. rewrite bind_mret.
    rewrite (bind_Ret _ _ _ _ _ (set_sys_spec id s1 u (mb_brk s) Hu)).
    rewrite (proj2 (Z.eqb_neq (mb_brk s) NULL)) by (unfold NULL; lia). cbn [negb].
    eexists _, _. split; [done|]. cbn. rewrite lookup_insert_eq. split_and!; try done; lia.
  - rewrite bind_mret. rewrite (bind_Ret _ _ _ _ _ (set_sys_spec id s u NULL Hu)). cbn [negb Z.eqb NULL].
    destruct (IH id (n - 0x100000) (s <| SysBuffer := <[id := NULL]> (SysBuffer s) |>) NULL)
      as (r & s' & E & H1 & H2 & H3 & H4 & H5 & H6); [cbn; by rewrite lookup_insert_eq|done|lia| |lia|].
    + subst n. destruct (bsize <? 0x100000) eqn:E; lia.
    + exists r, s'. split; [exact E|]. split_and!; done.
Qed.

(** [mb_init] terminates: it leaves the process with a system buffer that is
    one free block, or reports -1 when [malloc] refuses every size it tries. *)
Theorem mb_init_total id bsize s :
  is_Some (SysBuffer s !! id) -> is_Some (UsrBuffer s !! id) -> is_Some (BufferLock s !! id) ->
  0 < mb_brk s -> bsize < 2 ^ 31 ->
  exists r s', mb_init id bsize s = Ret r s' /\
    (r = -1 \/ r = 0 /\ exists n, 0x100000 <= n /\ mb_rep id s' (MView (mb_brk s, [Blk true n]) None)).
Proof.
  intros [u Hu] [w Hw] [l Hl] Hb Hz.
  destruct (mb_init_loop_spec (Z.to_nat (Z.max 0 bsize / 0x100000 + 3)) id bsize s u Hu Hb Hz)
    as (r & s1 & E & H1 & H2 & H3 & H4 & H5 & H6).
  - pose proof (Z.div_pos (Z.max 0 bsize) 0x100000). rewrite Z2Nat.id by lia.
    pose proof (Z.div_mod (Z.max 0 bsize) 0x100000). pose proof (Z.mod_pos_bound (Z.max 0 bsize) 0x100000). lia.
  - pose proof (Z.div_pos (Z.max 0 bsize) 0x100000). lia.
  - unfold mb_init. rewrite (bind_Ret _ _ _ _ _ E). destruct r as [n|].
    2:{ eexists _, _. split; [done|]. by left. }
    destruct H6 as [H6 Hn]. unfold sys_buffer at 1. rewrite bind_assoc, (bind_Ret get _ s1 s1 s1) by done.
    rewrite H6. cbn [or_fault]. rewrite bind_mret. set (b := mb_brk s) in *.
    set (s2 := s1 <| hdrs := <[b := BH NULL NULL 1 n]> (hdrs s1) |>).
    rewrite (bind_Ret (put_hdr _ _) _ s1 tt s2) by done.
    assert (UsrBuffer s2 !! id = Some w) as Hw2 by (cbn; by rewrite H1).
    rewrite (bind_Ret _ _ _ _ _ (set_usr_spec id s2 w NULL Hw2)).
    set (s3 := s2 <| UsrBuffer := _ |>).
    assert (BufferLock s3 !! id = Some l) as Hl3 by (cbn; by rewrite H2).
    assert (SysBuffer s3 !! id = Some b) as Hs3 by done.
    unfold mb_malloc. rewrite bind_assoc, (bind_Ret get _ s3 s3 s3) by done.
    destruct (_ <=? _).
    + rewrite bind_assoc. rewrite (bind_Ret (modify _) _ s3 tt (s3 <| mb_brk := mb_brk s3 + 64 |>)) by done.
      rewrite bind_mret. rewrite (proj2 (Z.eqb_neq (mb_brk s3) NULL)) by (unfold NULL; cbn; lia). cbn [negb].
      unfold set_lock, buffer_lock. mrun. cbn. rewrite H2, Hl. eexists _, _. split; [done|]. right.
      split; [done|]. exists n. split; [lia|]. split_and!; cbn.
      * done.
      * by rewrite lookup_insert_eq.
      * apply Chain; try done; cbn.
        -- by rewrite lookup_insert_eq.
        -- repeat constructor. rewrite header_size. cbn. lia.
        -- lia.
      * by rewrite lookup_insert_eq.
    + rewrite bind_mret. cbn [negb Z.eqb NULL]. unfold set_lock, buffer_lock. mrun.
      unfold mb_end, sys_buffer, set_sys, sys_buffer, buffer_lock, set_lock, buffer_lock. mrun. cbn.
      rewrite H2, Hl. cbn. rewrite H6. rewrite (proj2 (Z.eqb_neq b NULL)) by (unfold NULL; lia). cbn.
      rewrite H6. cbn. rewrite lookup_insert_eq. eexists _, _. split; [done|]. by left.
Qed.

Lemma mb_init_total_witness :
  exists r s', mb_init 0 300000 (mkMbuf {[ 0 := NULL ]} {[ 0 := NULL ]} {[ 0 := None ]} ∅ 4096 4000000) = Ret r s' /\
    (r = -1 \/ r = 0 /\ exists n, 0x100000 <= n /\ mb_rep 0 s' (MView (4096, [Blk true n]) None)).
Proof.
  apply (mb_init_total 0 300000 (mkMbuf {[ 0 := NULL ]} {[ 0 := NULL ]} {[ 0 := None ]} ∅ 4096 4000000));
    cbn; rewrite ?lookup_singleton_eq; try (by eexists); lia.
Defined.
