(* ===== verification/Atomic.v ===== *)
(** Atomic operations (machine/atomic.c, machine/cas64.s): compare-and-swap, the bit
    operations, and the additions and subtractions that are loops around
    compare-and-swap, as steps of threads which share a memory cell. *)
From stdpp Require Import relations.
From S2P Require Import Prelude.

Open Scope Z_scope.

(** A [long long]. *)
Definition int64 (z : Z) : Z := (z + 2 ^ 63) mod 2 ^ 64 - 2 ^ 63.
Definition is_int64 (z : Z) : bool := (- 2 ^ 63 <=? z) && (z <? 2 ^ 63).

(** ** Instructions *)

(** What is returned, and the cell afterwards. *)
Definition cas32 (m old new : Z) : Z * Z := if m =? old then (1, new) else (0, m).
Definition cas64 (m old new : Z) : Z * Z := if m =? old then (1, new) else (0, m).
Definition casp (m old new : Z) : Z * Z :=
  if sizeof_ptr =? sizeof_int then cas32 m old new else cas64 m old new.

(** [sbbl] makes -1 of the old bit, which the functions negate. *)
Definition oldbit (m bit : Z) : Z := if Z.testbit m bit then -1 else 0.
(** [btsl] and its like take any bit: the word they work on is the one [bit / 32] words
    after the address (before it when that is negative). [word] is the memory around the
    address, by words. *)
Definition bit_word (bit : Z) : Z := bit / 32.
Definition bit_in_word (bit : Z) : Z := bit mod 32.
Definition set_word (word : Z -> Z) (k m : Z) : Z -> Z := fun j => if j =? k then m else word j.
Definition test_and_set (word : Z -> Z) (bit : Z) : Z * (Z -> Z) :=
  let m := word (bit_word bit) in
  (- oldbit m (bit_in_word bit), set_word word (bit_word bit) (int32 (Z.setbit m (bit_in_word bit)))).
Definition test_and_clear (word : Z -> Z) (bit : Z) : Z * (Z -> Z) :=
  let m := word (bit_word bit) in
  (- oldbit m (bit_in_word bit), set_word word (bit_word bit) (int32 (Z.clearbit m (bit_in_word bit)))).
Definition test_and_change (word : Z -> Z) (bit : Z) : Z * (Z -> Z) :=
  let m := word (bit_word bit) in
  (- oldbit m (bit_in_word bit), set_word word (bit_word bit) (int32 (Z.lxor m (2 ^ bit_in_word bit)))).
(** One of them seen at the word of the address, for a bit of this word. *)
Definition on_word (op : (Z -> Z) -> Z -> Z * (Z -> Z)) (m bit : Z) : Z * Z :=
  let '(r, word) := op (fun _ => m) bit in (r, word 0).

(** The macros of atomic.h; they have no value. *)
Definition inc (m : Z) : Z * Z := (0, int32 (m + 1)).
Definition dec (m : Z) : Z * Z := (0, int32 (m - 1)).
Definition aadd32 (m val : Z) : Z * Z := (0, int32 (m + val)).
Definition asub32 (m val : Z) : Z * Z := (0, int32 (m - val)).

(** ** Loops *)

(** Where a thread is in a call. A [long long] is read in two halves on a machine
    of 32 bits: [Half] and [HalfRead] hold the low one. *)
Inductive place := Enter | Reload | Half (low : Z) | Try (old : Z) | HalfRead (low : Z) | Return (ret : Z).

(** The next access to the cell, from a place. *)
Definition code_step : Type := place -> Z -> place * Z.

Definition cas_loop32 (val : Z) (new ret : Z -> Z) : code_step := fun p m =>
  match p with
  | Enter => if val =? 0 then (Return m, m) else (Try m, m)
  | Try old =>
      let '(ok, m') := cas32 m old (new old) in
      if ok =? 0 then (Reload, m') else (Return (ret old), m')
  | Return _ => (p, m)
  | _ => (Try m, m)
  end.

Definition low_half (m : Z) : Z := m mod 2 ^ 32.
Definition high_half (m : Z) : Z := m / 2 ^ 32.

Definition cas_loop64 (val : Z) (new ret : Z -> Z) : code_step := fun p m =>
  match p with
  | Enter => if val =? 0 then (HalfRead (low_half m), m) else (Half (low_half m), m)
  | HalfRead low => (Return (high_half m * 2 ^ 32 + low), m)
  | Half low => (Try (high_half m * 2 ^ 32 + low), m)
  | Try old =>
      let '(ok, m') := cas64 m old (new old) in
      if ok =? 0 then (Reload, m') else (Return (ret old), m')
  | Return _ => (p, m)
  | Reload => (Half (low_half m), m)
  end.

Definition anf32 (val : Z) : code_step :=
  cas_loop32 val (fun old => int32 (old + val)) (fun old => int32 (old + val)).
Definition snf32 (val : Z) : code_step :=
  cas_loop32 val (fun old => int32 (old - val)) (fun old => int32 (old - val)).
Definition fna32 (val : Z) : code_step :=
  cas_loop32 val (fun old => int32 (old + val)) (fun old => old).
Definition fns32 (val : Z) : code_step :=
  cas_loop32 val (fun old => int32 (old - val)) (fun old => old).
Definition anf64 (val : Z) : code_step :=
  cas_loop64 val (fun old => int64 (old + val)) (fun old => int64 (old + val)).
(** Declared [int] where it is defined: the difference is cut to 32 bits. *)
Definition snf64 (val : Z) : code_step :=
  cas_loop64 val (fun old => int64 (old - val)) (fun old => int32 (int64 (old - val))).

Definition one_instruction (f : Z -> Z * Z) : code_step := fun p m =>
  match p with Return _ => (p, m) | _ => let '(r, m') := f m in (Return r, m') end.

(** ** Calls, and what each is to be: one step *)

Inductive call :=
  | Anf32 (val : Z) | Snf32 (val : Z) | Fna32 (val : Z) | Fns32 (val : Z)
  | Anf64 (val : Z) | Snf64 (val : Z)
  | Set_bit (bit : Z) | Clear_bit (bit : Z) | Change_bit (bit : Z)
  | Inc | Dec | Aadd32 (val : Z) | Asub32 (val : Z).

Definition code (c : call) : code_step :=
  match c with
  | Anf32 val => anf32 val
  | Snf32 val => snf32 val
  | Fna32 val => fna32 val
  | Fns32 val => fns32 val
  | Anf64 val => anf64 val
  | Snf64 val => snf64 val
  | Set_bit bit => one_instruction (fun m => on_word test_and_set m bit)
  | Clear_bit bit => one_instruction (fun m => on_word test_and_clear m bit)
  | Change_bit bit => one_instruction (fun m => on_word test_and_change m bit)
  | Inc => one_instruction inc
  | Dec => one_instruction dec
  | Aadd32 val => one_instruction (fun m => aadd32 m val)
  | Asub32 val => one_instruction (fun m => asub32 m val)
  end.

(** The result and the new value of the cell. *)
Definition spec (c : call) (m : Z) : Z * Z :=
  match c with
  | Anf32 val => (int32 (m + val), int32 (m + val))
  | Snf32 val => (int32 (m - val), int32 (m - val))
  | Fna32 val => (m, int32 (m + val))
  | Fns32 val => (m, int32 (m - val))
  | Anf64 val => (int64 (m + val), int64 (m + val))
  | Snf64 val => (int32 (int64 (m - val)), int64 (m - val))
  | Set_bit bit => (if Z.testbit m bit then 1 else 0, int32 (Z.setbit m bit))
  | Clear_bit bit => (if Z.testbit m bit then 1 else 0, int32 (Z.clearbit m bit))
  | Change_bit bit => (if Z.testbit m bit then 1 else 0, int32 (Z.lxor m (2 ^ bit)))
  | Inc => (0, int32 (m + 1))
  | Dec => (0, int32 (m - 1))
  | Aadd32 val => (0, int32 (m + val))
  | Asub32 val => (0, int32 (m - val))
  end.

(** The calls on a cell of 32 or of 64 bits; adding nothing to one of 64 bits is left
    out (see [anf64_tears]), and so are the bits of other words than the cell's. *)
Definition on_cell (w64 : bool) (c : call) : bool :=
  match c with
  | Anf64 val | Snf64 val => w64 && negb (val =? 0)
  | Set_bit bit | Clear_bit bit | Change_bit bit => negb w64 && (0 <=? bit) && (bit <? 32)
  | _ => negb w64
  end.
Definition fits (w64 : bool) (m : Z) : bool := if w64 then is_int64 m else is_int32 m.

(** ** Threads *)

Record thread := Thread { pc : place; log : list Z }.
Notation system := (Z * list thread)%type.

Definition after (p : place) (lg : list Z) : thread :=
  match p with Return r => Thread Enter (lg ++ [r]) | _ => Thread p lg end.

(** [calls t j] is call [j] of thread [t]. *)
Inductive atomic_step (calls : nat -> nat -> call) : system -> system -> Prop :=
  | step_thread t m ths p lg p' m' : ths !! t = Some (Thread p lg) ->
      code (calls t (length lg)) p m = (p', m') ->
      atomic_step calls (m, ths) (m', <[t := after p' lg]> ths).

Definition atomic_start (n : nat) (m : Z) : system := (m, replicate n (Thread Enter [])).

(** The same calls made one after the other, each in one step, by the threads [h]. *)
Fixpoint serial (calls : nat -> nat -> call) (h : list nat) (m : Z) (logs : list (list Z)) : Z * list (list Z) :=
  match h with
  | [] => (m, logs)
  | t :: h' =>
      match logs !! t with
      | Some lg => let '(r, m') := spec (calls t (length lg)) m in serial calls h' m' (<[t := lg ++ [r]]> logs)
      | None => (m, logs)
      end
  end.

(** Calls that have returned. *)
Definition returned (s : system) : nat := sum_list (length ∘ log <$> s.2).

(** ** Each call takes effect in one of its steps *)

(** The steps that are left to a thread while nobody else writes. *)
Definition steps_left (p : place) (m : Z) : nat :=
  match p with
  | Enter | Reload => 3
  | Half low => if low =? low_half m then 2 else 5
  | Try old => if old =? m then 1 else 4
  | HalfRead _ => 2
  | Return _ => 0
  end.

(** No thread is reading for a call that adds nothing. *)
Definition place_ok (p : place) : bool := match p with HalfRead _ | Return _ => false | _ => true end.

Lemma halves m : high_half m * 2 ^ 32 + low_half m = m.
Proof. unfold high_half, low_half. pose proof (Z.div_mod m (2 ^ 32)). lia. Qed.

Lemma fits_int32 z : is_int32 (int32 z) = true.
Proof. unfold is_int32. pose proof (int32_range z). apply andb_true_intro. split; [apply Z.leb_le|apply Z.ltb_lt]; lia. Qed.

Lemma fits_int64 z : is_int64 (int64 z) = true.
Proof.
  unfold is_int64, int64. pose proof (Z.mod_pos_bound (z + 2 ^ 63) (2 ^ 64)).
  apply andb_true_intro. split; [apply Z.leb_le|apply Z.ltb_lt]; lia.
Qed.

(** What one step of a call has to be: it takes effect and returns what it should, or it
    leaves the cell alone and is nearer to its end. *)
Definition step_fine (w64 : bool) (c : call) (p : place) (m : Z) (p' : place) (m' : Z) : Prop :=
  match p' with
  | Return r => spec c m = (r, m') /\ fits w64 m' = true
  | _ => place_ok p' = true /\ m' = m /\ (steps_left p' m < steps_left p m)%nat
  end.

Lemma cas_loop32_fine w64 c val new ret p m p' m' :
  place_ok p = true -> fits w64 m = true -> (forall o, fits w64 (new o) = true) ->
  spec c m = (ret m, new m) -> (val = 0 -> new m = m /\ ret m = m) ->
  cas_loop32 val new ret p m = (p', m') -> step_fine w64 c p m p' m'.
Proof.
  intros Hp Hm Hnew Hspec H0 H. unfold cas_loop32, cas32 in H. destruct p; try done; cbn [place_ok] in Hp.
  - destruct (Z.eqb_spec val 0) as [Hv|_]; injection H as <- <-.
    + destruct (H0 Hv) as [E1 E2]. split; [rewrite Hspec; congruence|done].
    + cbn. rewrite Z.eqb_refl. split; [done|]. split; [done|]. lia.
  - injection H as <- <-. cbn. rewrite Z.eqb_refl. split; [done|]. split; [done|]. lia.
  - injection H as <- <-. cbn. rewrite Z.eqb_refl. split; [done|]. split; [done|]. destruct (low =? _); lia.
  - destruct (Z.eqb_spec m old) as [<-|Hne]; cbn in H; injection H as <- <-.
    + split; [done|]. apply Hnew.
    + cbn. rewrite (proj2 (Z.eqb_neq old m)) by congruence. split; [done|]. split; [done|]. lia.
Qed.

Lemma cas_loop64_fine w64 c val new ret p m p' m' :
  place_ok p = true -> val <> 0 -> (forall o, fits w64 (new o) = true) -> spec c m = (ret m, new m) ->
  cas_loop64 val new ret p m = (p', m') -> step_fine w64 c p m p' m'.
Proof.
  intros Hp Hv Hnew Hspec H. unfold cas_loop64, cas64 in H. destruct p; try done; cbn [place_ok] in Hp.
  - rewrite (proj2 (Z.eqb_neq val 0)) in H by done. injection H as <- <-. cbn. rewrite Z.eqb_refl. split; [done|]. split; [done|]. lia.
  - injection H as <- <-. cbn. rewrite Z.eqb_refl. split; [done|]. split; [done|]. lia.
  - injection H as <- <-. cbn. split; [done|]. split; [done|]. destruct (Z.eqb_spec low (low_half m)) as [->|_].
    + rewrite halves, Z.eqb_refl. lia.
    + case_match; lia.
  - destruct (Z.eqb_spec m old) as [<-|Hne]; cbn in H; injection H as <- <-.
    + split; [done|]. apply Hnew.
    + cbn. rewrite (proj2 (Z.eqb_neq old m)) by congruence. split; [done|]. split; [done|]. lia.
Qed.

Lemma one_instruction_fine w64 c f p m p' m' :
  place_ok p = true -> fits w64 (f m).2 = true -> spec c m = f m ->
  one_instruction f p m = (p', m') -> step_fine w64 c p m p' m'.
Proof. intros Hp Hm Hspec H. unfold one_instruction in H. destruct (f m) as [r m1]. destruct p; try done; by simplify_eq/=. Qed.

Lemma oldbit_negated m bit : - oldbit m bit = if Z.testbit m bit then 1 else 0.
Proof. unfold oldbit. by destruct (Z.testbit m bit). Qed.

Lemma bit_word_in bit : (0 <=? bit) && (bit <? 32) = true -> bit_word bit = 0.
Proof. intros [H0 H1]%andb_prop. apply Z.leb_le in H0. apply Z.ltb_lt in H1. by apply Z.div_small. Qed.
Lemma bit_in_word_in bit : (0 <=? bit) && (bit <? 32) = true -> bit_in_word bit = bit.
Proof. intros [H0 H1]%andb_prop. apply Z.leb_le in H0. apply Z.ltb_lt in H1. by apply Z.mod_small. Qed.

(** Every function has such steps. *)
Lemma code_fine w64 c p m p' m' :
  on_cell w64 c = true -> fits w64 m = true -> place_ok p = true ->
  code c p m = (p', m') -> step_fine w64 c p m p' m'.
Proof.
  intros Hc Hm Hp H. destruct c; cbn [code] in H; destruct w64; cbn [on_cell negb andb] in Hc; try done.
  1-4: eapply cas_loop32_fine; [..|exact H]; try done; [intros o; apply fits_int32|]; intros ->; cbn in Hm;
    rewrite ?Z.add_0_r, ?Z.sub_0_r, ?int32_id by done; done.
  1-2: apply negb_true_iff, Z.eqb_neq in Hc; eapply cas_loop64_fine; [..|exact H]; try done; intros o; apply fits_int64.
  1-3: eapply one_instruction_fine; [done| | |exact H]; unfold on_word, test_and_set, test_and_clear, test_and_change; cbn [snd];
    rewrite (bit_word_in bit Hc), (bit_in_word_in bit Hc); [apply fits_int32|by rewrite oldbit_negated].
  all: eapply one_instruction_fine; [..|exact H]; try done; try apply fits_int32; done.
Qed.

(** ** Runs *)

Section Runs.
Context (calls : nat -> nat -> call) (w64 : bool) (Hcalls : forall t j, on_cell w64 (calls t j) = true).

Definition sane (s : system) : Prop :=
  fits w64 s.1 = true /\ Forall (fun th => place_ok (pc th) = true) s.2.

Lemma atomic_start_sane n m : fits w64 m = true -> sane (atomic_start n m).
Proof. intros Hm. split; [done|]. by apply Forall_replicate. Qed.

Lemma returned_insert m m' ths t th th0 : ths !! t = Some th0 ->
  (returned (m', <[t := th]> ths) + length (log th0) = returned (m, ths) + length (log th))%nat.
Proof.
  unfold returned. cbn [snd]. revert t. induction ths as [|x ths IH]; intros [|t] Ht; try done.
  - injection Ht as ->. change (<[0%nat := th]> (th0 :: ths)) with (th :: ths). cbn. lia.
  - specialize (IH t Ht). change (<[S t := th]> (x :: ths)) with (x :: <[t := th]> ths). cbn [fmap list_fmap]. cbn in *. lia.
Qed.

(** A step is silent or does what one serial call does. *)
Lemma step_serial s s' : sane s -> atomic_step calls s s' ->
  sane s' /\
  (s'.1 = s.1 /\ log <$> s'.2 = log <$> s.2 /\
     (exists t th th', s.2 !! t = Some th /\ s'.2 = <[t := th']> s.2 /\
       (steps_left (pc th') s.1 < steps_left (pc th) s.1)%nat) \/
   (exists t, (t < length s.2)%nat /\ serial calls [t] s.1 (log <$> s.2) = (s'.1, log <$> s'.2)) /\ (returned s < returned s')%nat).
Proof.
  intros [Hm Hths] Hs. destruct Hs as [t m ths p lg p' m' Ht Hrun]. cbn [fst snd] in *.
  pose proof (proj1 (Forall_lookup _ _) Hths t _ Ht) as Hp. cbn in Hp.
  pose proof (code_fine w64 _ _ _ _ _ (Hcalls t (length lg)) Hm Hp Hrun) as H.
  assert (Hret : forall r, <[t := lg ++ [r]]> (log <$> ths) = log <$> <[t := Thread Enter (lg ++ [r])]> ths).
  { intros r. by rewrite list_fmap_insert. }
  assert (Hsame : place_ok p' = true /\ m' = m /\ (steps_left p' m < steps_left p m)%nat -> after p' lg = Thread p' lg ->
    sane (m', <[t := after p' lg]> ths) /\ m' = m /\ log <$> <[t := after p' lg]> ths = log <$> ths /\
    exists t0 th th', ths !! t0 = Some th /\ <[t := after p' lg]> ths = <[t0 := th']> ths /\
      (steps_left (pc th') m < steps_left (pc th) m)%nat).
  { intros (Hp' & -> & Hlt) ->. split; [split; [done|by apply Forall_insert]|]. split; [done|]. split.
    - rewrite list_fmap_insert. cbn. apply list_insert_id. by rewrite list_lookup_fmap, Ht.
    - by exists t, (Thread p lg), (Thread p' lg). }
  unfold step_fine in H. destruct p'; try (destruct (Hsame H eq_refl) as (? & ? & ? & ?); by eauto 10).
  destruct H as [Hspec Hm']. split; [split; [done|by apply Forall_insert]|]. right. split.
  - exists t. split; [by eapply lookup_lt_Some|]. cbn [serial fst snd]. rewrite list_lookup_fmap, Ht. cbn. rewrite Hspec. by rewrite Hret.
  - pose proof (returned_insert m m' ths t (Thread Enter (lg ++ [ret])) _ Ht) as Hsum. cbn [log] in Hsum.
    rewrite length_app in Hsum. cbn [length] in Hsum. cbn [after]. lia.
Qed.

Lemma serial_app h h' m logs :
  Forall (fun t => (t < length logs)%nat) h ->
  serial calls (h ++ h') m logs = let '(m1, logs1) := serial calls h m logs in serial calls h' m1 logs1.
Proof.
  revert m logs. induction h as [|t h IH]; intros m logs Hh; [done|]. inversion Hh as [|? ? Ht Hh']; subst. cbn [serial app].
  destruct (lookup_lt_is_Some_2 logs t Ht) as [lg Hlg]. rewrite Hlg. destruct (spec _ m) as [r m1]. apply IH. by rewrite length_insert.
Qed.

Lemma run_serial s s' : sane s -> rtc (atomic_step calls) s s' ->
  sane s' /\ exists h, Forall (fun t => (t < length s.2)%nat) h /\ serial calls h s.1 (log <$> s.2) = (s'.1, log <$> s'.2).
Proof.
  intros Hs Hrun. induction Hrun as [s|s s1 s2 Hstep _ IH]; [split; [done|]; by exists []|].
  destruct (step_serial s s1 Hs Hstep) as [Hs1 Hor]. destruct (IH Hs1) as (Hs2 & h & Hlt & Hh). split; [done|].
  assert (Hlen : length s1.2 = length s.2) by (destruct Hstep; cbn; by rewrite length_insert).
  destruct Hor as [(E1 & E2 & _)|[(t & Hl & Ht) _]].
  - exists h. rewrite <- E1, <- E2, <- Hlen. done.
  - exists (t :: h). split; [constructor; [done|by rewrite <- Hlen]|]. change (t :: h) with ([t] ++ h).
    rewrite serial_app, Ht by (constructor; [by rewrite length_fmap|done]). done.
Qed.

(** The steps that are left to all threads. *)
Definition work (m : Z) (ths : list thread) : nat := sum_list ((fun th => steps_left (pc th) m) <$> ths).

Lemma steps_left_bounds p m : place_ok p = true -> (1 <= steps_left p m <= 5)%nat.
Proof. destruct p; cbn; intros; try done; repeat case_match; lia. Qed.

Lemma work_bounds m ths : Forall (fun th => place_ok (pc th) = true) ths ->
  (length ths <= work m ths <= 5 * length ths)%nat.
Proof.
  unfold work. induction 1 as [|th ths Hth _ IH]; [done|]. cbn.
  pose proof (steps_left_bounds _ m Hth). lia.
Qed.

Lemma work_insert m ths t th th' : ths !! t = Some th ->
  (steps_left (pc th') m < steps_left (pc th) m)%nat -> (work m (<[t := th']> ths) < work m ths)%nat.
Proof.
  unfold work. revert t. induction ths as [|x ths IH]; intros [|t] Ht Hlt; try done.
  - injection Ht as ->. change (<[0%nat := th']> (th :: ths)) with (th' :: ths). cbn. lia.
  - specialize (IH t Ht Hlt). change (<[S t := th']> (x :: ths)) with (x :: <[t := th']> ths). cbn in *. lia.
Qed.

(** [k] steps without a return use up [k] of the work. *)
Lemma silent_steps k s s' : sane s -> nsteps (atomic_step calls) k s s' ->
  (returned s <= returned s' /\ (returned s' = returned s -> work s'.1 s'.2 + k <= work s.1 s.2))%nat.
Proof.
  intros Hs Hrun. induction Hrun as [s|k s s1 s2 Hstep _ IH]; [lia|].
  destruct (step_serial s s1 Hs Hstep) as [Hs1 [(E1 & E2 & t & th & th' & Ht & E3 & Hlt)|[_ Hret]]]; destruct (IH Hs1) as [IH1 IH2].
  - assert (returned s1 = returned s) as Er.
    { unfold returned. rewrite !list_fmap_compose. by rewrite E2. }
    split; [lia|]. intros E. specialize (IH2 ltac:(lia)). pose proof (work_insert s.1 _ _ _ _ Ht Hlt). rewrite E3, E1 in IH2. lia.
  - lia.
Qed.
End Runs.

Lemma run_length calls s s' : rtc (atomic_step calls) s s' -> length s'.2 = length s.2.
Proof. induction 1 as [|s s1 s2 H _ IH]; [done|]. rewrite IH. destruct H. apply length_insert. Qed.

(** ** Schedules *)

(** The steps of the threads [sched], in turn. *)
Fixpoint run_schedule (calls : nat -> nat -> call) (sched : list nat) (s : system) : option system :=
  match sched with
  | [] => Some s
  | t :: sched' =>
      match s.2 !! t with
      | Some (Thread p lg) =>
          let '(p', m') := code (calls t (length lg)) p s.1 in
          run_schedule calls sched' (m', <[t := after p' lg]> s.2)
      | None => None
      end
  end.

Lemma run_schedule_steps calls sched s s' :
  run_schedule calls sched s = Some s' -> nsteps (atomic_step calls) (length sched) s s'.
Proof.
  revert s. induction sched as [|t sched IH]; intros [m ths] H; cbn in H; [injection H as ->; constructor|].
  destruct (ths !! t) as [[p lg]|] eqn:Ht; [|done]. destruct (code _ p m) as [p' m'] eqn:Hrun.
  econstructor; [by econstructor|by apply IH].
Qed.

Lemma total_insert (logs : list (list Z)) t lg r : logs !! t = Some lg ->
  sum_list (length <$> <[t := lg ++ [r]]> logs) = S (sum_list (length <$> logs)).
Proof.
  revert t. induction logs as [|x logs IH]; intros [|t] Ht; try done.
  - injection Ht as ->. change (<[0%nat := lg ++ [r]]> (lg :: logs)) with ((lg ++ [r]) :: logs). cbn. rewrite length_app. cbn. lia.
  - specialize (IH t Ht). change (<[S t := lg ++ [r]]> (x :: logs)) with (x :: <[t := lg ++ [r]]> logs). cbn in *. lia.
Qed.

(** The calls of threads that exist, as many as there are results. *)
Lemma serial_valid calls h m logs :
  exists h', serial calls h m logs = serial calls h' m logs /\ Forall (fun t => (t < length logs)%nat) h' /\
    sum_list (length <$> (serial calls h m logs).2) = (sum_list (length <$> logs) + length h')%nat.
Proof.
  revert m logs. induction h as [|t h IH]; intros m logs; cbn [serial].
  - exists []. cbn. split; [done|]. split; [done|]. lia.
  - destruct (logs !! t) as [lg|] eqn:Ht; [|exists []; cbn; split; [done|]; split; [done|]; lia].
    destruct (spec (calls t (length lg)) m) as [r m'] eqn:E. destruct (IH m' (<[t := lg ++ [r]]> logs)) as (h' & Hh & Hlt & Hsum).
    rewrite length_insert in Hlt. exists (t :: h'). cbn [serial]. rewrite Ht, E. split; [done|]. split.
    + constructor; [by eapply lookup_lt_Some|done].
    + rewrite Hsum, (total_insert _ _ _ _ Ht). cbn. lia.
Qed.

(** ** Properties *)

(** (C15) The atomic operations are atomic: take any number of threads that make any
    sequences of calls on one cell, of 32 or of 64 bits, and any interleaving of their
    accesses to it. Two kinds of calls are left out: [anf64] and [snf64] with the value 0,
    which read the cell in two halves and may tear (theorem [anf64_tears]), and the bit
    operations with a bit outside 0 to 31, which work on another word than the cell. Up to each moment, the value of the cell and all results are those of
    some order in which each call that has returned is made in one step; the calls that
    return later come later in that order. Addition and subtraction wrap; [snf64] returns
    the low half of the difference only. *)
Theorem atomic_linearizable calls w64 n m s s'
  (Hcalls : forall t j, on_cell w64 (calls t j) = true) (Hm : fits w64 m = true)
  (Hs : rtc (atomic_step calls) (atomic_start n m) s) (Hs' : rtc (atomic_step calls) s s') :
  exists h h', serial calls h m (replicate n []) = (s.1, log <$> s.2) /\
    serial calls h' s.1 (log <$> s.2) = (s'.1, log <$> s'.2) /\
    serial calls (h ++ h') m (replicate n []) = (s'.1, log <$> s'.2).
Proof.
  destruct (run_serial calls w64 Hcalls _ _ (atomic_start_sane w64 n m Hm) Hs) as (Hsane & h & Hlt & Hh).
  destruct (run_serial calls w64 Hcalls _ _ Hsane Hs') as (_ & h' & _ & Hh').
  unfold atomic_start in Hh, Hlt. cbn [fst snd] in Hh, Hlt. rewrite fmap_replicate in Hh. cbn [log] in Hh.
  exists h, h'. split; [done|]. split; [done|]. rewrite serial_app, Hh; [done|].
  eapply Forall_impl; [exact Hlt|]. intros t. by rewrite !length_replicate.
Qed.

(** The loops are lock-free: of [n] threads, however their steps interleave, one
    returns from a call within any [4n+1] steps, so no pattern of failing
    compare-and-swaps keeps all of them from going on. *)
Theorem atomic_lock_free calls w64 n m s s'
  (Hcalls : forall t j, on_cell w64 (calls t j) = true) (Hm : fits w64 m = true) (Hn : (0 < n)%nat)
  (Hs : rtc (atomic_step calls) (atomic_start n m) s) (Hs' : nsteps (atomic_step calls) (4 * n + 1) s s') :
  (returned s < returned s')%nat.
Proof.
  destruct (run_serial calls w64 Hcalls _ _ (atomic_start_sane w64 n m Hm) Hs) as (Hsane & _).
  destruct (silent_steps calls w64 Hcalls _ _ _ Hsane Hs') as [Hle Hwork].
  assert (length s.2 = n) as Hlen by (rewrite (run_length _ _ _ Hs); apply length_replicate).
  assert (length s'.2 = n) as Hlen' by (by rewrite (run_length _ _ _ (rtc_nsteps_2 _ _ _ Hs'))).
  apply rtc_nsteps_2 in Hs'. destruct (run_serial calls w64 Hcalls _ _ Hsane Hs') as ([_ Hp'] & _).
  pose proof (work_bounds s.1 s.2 (proj2 Hsane)). pose proof (work_bounds s'.1 s'.2 Hp').
  destruct (decide (returned s = returned s')%nat) as [E|]; [|lia]. specialize (Hwork (eq_sym E)). lia.
Qed.

(** A [long long] is read in two halves, so adding nothing to one is not atomic: while
    another thread adds 1 to 4294967295, [anf64] with 0 returns 8589934591, a value that
    the cell never has and no order of the two calls explains. *)
Theorem anf64_tears :
  let calls := fun (t j : nat) => if (t =? 0)%nat then Anf64 0 else Anf64 1 in
  exists s, rtc (atomic_step calls) (atomic_start 2 (2 ^ 32 - 1)) s /\ s.1 = 2 ^ 32 /\
    log <$> s.2 = [[2 ^ 33 - 1]; [2 ^ 32]] /\
    forall h, (serial calls h (2 ^ 32 - 1) (replicate 2 [])).2 <> log <$> s.2.
Proof.
  intros calls. exists (2 ^ 32, [Thread Enter [2 ^ 33 - 1]; Thread Enter [2 ^ 32]]). split.
  - eapply rtc_nsteps_2, (run_schedule_steps calls [0; 1; 1; 1; 0]%nat). vm_compute. reflexivity.
  - split; [done|]. split; [done|]. intros h H.
    destruct (serial_valid calls h (2 ^ 32 - 1) (replicate 2 [])) as (h' & E & Hlt & Hsum).
    rewrite H in Hsum. rewrite E in H. cbn in Hsum. clear E.
    destruct h' as [|t [|u [|]]]; try discriminate. inversion Hlt as [|? ? Ht Hu]; subst. inversion Hu as [|? ? Hu' _]; subst.
    cbn in Ht, Hu'. clear Hlt Hu Hsum. destruct t as [|[|t]]; [| |lia]; destruct u as [|[|u]]; try lia; vm_compute in H; discriminate.
Qed.

(** Two threads, one adds 5 and the other takes 3 away from 2147483647. *)
Definition demo_calls (t j : nat) : call := if (t =? 0)%nat then Anf32 5 else Fns32 3.

(** Both read the cell; thread 1 is first, so the compare-and-swap of thread 0 fails. *)
Lemma atomic_linearizable_witness :
  exists s s', run_schedule demo_calls [0; 1; 1; 0; 0]%nat (atomic_start 2 (2 ^ 31 - 1)) = Some s /\
    run_schedule demo_calls [0; 1; 1]%nat s = Some s' /\
    (log <$> s'.2 = [[- 2 ^ 31 + 1]; [2 ^ 31 - 1; - 2 ^ 31 + 1]]) /\
    exists h h', serial demo_calls h (2 ^ 31 - 1) (replicate 2 []) = (s.1, log <$> s.2) /\
      serial demo_calls h' s.1 (log <$> s.2) = (s'.1, log <$> s'.2) /\
      serial demo_calls (h ++ h') (2 ^ 31 - 1) (replicate 2 []) = (s'.1, log <$> s'.2).
Proof.
  eexists _, _. split; [vm_compute; reflexivity|]. split; [vm_compute; reflexivity|]. split; [vm_compute; reflexivity|].
  apply (atomic_linearizable demo_calls false 2).
  - intros [|t] j; reflexivity.
  - reflexivity.
  - eapply rtc_nsteps_2, (run_schedule_steps demo_calls [0; 1; 1; 0; 0]%nat). vm_compute. reflexivity.
  - eapply rtc_nsteps_2, (run_schedule_steps demo_calls [0; 1; 1]%nat). vm_compute. reflexivity.
Defined.

Lemma atomic_lock_free_witness :
  exists s s', run_schedule demo_calls [0]%nat (atomic_start 2 0) = Some s /\
    run_schedule demo_calls [1; 1; 0; 1; 1; 0; 1; 1; 0]%nat s = Some s' /\ (returned s < returned s')%nat.
Proof.
  eexists _, _. split; [vm_compute; reflexivity|]. split; [vm_compute; reflexivity|].
  eapply (atomic_lock_free demo_calls false 2 0).
  - intros [|t] j; reflexivity.
  - reflexivity.
  - lia.
  - eapply rtc_nsteps_2, (run_schedule_steps demo_calls [0]%nat). vm_compute. reflexivity.
  - apply (run_schedule_steps demo_calls [1; 1; 0; 1; 1; 0; 1; 1; 0]%nat). vm_compute. reflexivity.
Defined.
