(* ===== verification/Barrier.v ===== *)
(** The barrier of intra/barrier.c: two sub-barriers used in turn. A call of
    [bar_wait] reads the current sub-barrier outside any mutex and then runs its
    critical section; the critical section and each wake-up are steps of their own,
    so that threads interleave as the mutex and the condition variable allow. *)
From stdpp Require Import relations.
From S2P Require Import Prelude.

Open Scope Z_scope.

(** ** The code *)

(** [sbp] says which sub-barrier is the current one, [false] for [sb[0]]. *)
Record tmpi_Bar := mkBar { maxcnt : Z; runners0 : Z; runners1 : Z; sbp : bool }.
#[export] Instance eta_Bar : Eta tmpi_Bar :=
  MkEta _ (fun r => mkBar (maxcnt r) (runners0 r) (runners1 r) (sbp r)).

Definition runners (b : tmpi_Bar) (i : bool) : Z := if i then runners1 b else runners0 b.
Definition set_runners (i : bool) (v : Z) (b : tmpi_Bar) : tmpi_Bar :=
  if i then b <| runners1 := v |> else b <| runners0 := v |>.

(** The result code, and the barrier on success. [mtx i] and [cnd i] are what [thr_mtx_init]
    and [thr_cnd_init] return for sub-barrier [i]: 0, or the code of a failure. *)
Definition bar_init (mtx cnd : bool -> Z) (count : Z) : Z * option tmpi_Bar :=
  if count <? 1 then (-1, None)
  else if negb (mtx false =? 0) then (mtx false, None)
  else if negb (cnd false =? 0) then (cnd false, None)
  else if negb (mtx true =? 0) then (mtx true, None)
  else if negb (cnd true =? 0) then (cnd true, None)
  else (0, Some (mkBar count count count false)).

(** What the first run of the critical section does to the caller. *)
Inductive arrival :=
  | Passes (broadcast : bool)
  | Sleeps.

(** From the lock of the sub-barrier's mutex to [thr_cnd_wait] or the unlock. *)
Definition bar_arrive (b : tmpi_Bar) (i : bool) : tmpi_Bar * arrival :=
  if runners b i =? 1 then
    if negb (maxcnt b =? 1) then
      (set_runners i (maxcnt b) b <| sbp := if bool_decide (sbp b = false) then true else false |>,
       Passes true)
    else (b, Passes false)
  else
    let b := set_runners i (runners b i - 1) b in
    (b, if negb (runners b i =? maxcnt b) then Sleeps else Passes false).

(** After a wake-up: whether the loop around [thr_cnd_wait] ends. *)
Definition bar_woken (b : tmpi_Bar) (i : bool) : bool := runners b i =? maxcnt b.

(** ** Threads *)

(** Where a thread is: outside, before the lock with the sub-barrier it read, asleep on
    the condition variable, or woken and about to take the mutex again. *)
Inductive place :=
  | Outside
  | AtLock (i : bool)
  | Asleep (i : bool)
  | Woken (i : bool).
(** With the number of its calls that have returned. *)
Record thread := Thread { pc : place; passed : nat }.

Definition bcast (i : bool) (th : thread) : thread :=
  match pc th with
  | Asleep j => if eqb i j then Thread (Woken j) (passed th) else th
  | _ => th
  end.

Definition system : Type := tmpi_Bar * list thread.

(** A step of thread [t]. *)
Inductive bar_step (t : nat) : system -> system -> Prop :=
  | step_call b ths k : ths !! t = Some (Thread Outside k) ->
      bar_step t (b, ths) (b, <[t := Thread (AtLock (sbp b)) k]> ths)
  | step_pass b ths i k b' w : ths !! t = Some (Thread (AtLock i) k) ->
      bar_arrive b i = (b', Passes w) ->
      bar_step t (b, ths) (b', (if w then fmap (bcast i) else id) (<[t := Thread Outside (S k)]> ths))
  | step_sleep b ths i k b' : ths !! t = Some (Thread (AtLock i) k) ->
      bar_arrive b i = (b', Sleeps) ->
      bar_step t (b, ths) (b', <[t := Thread (Asleep i) k]> ths)
  | step_leave b ths i k : ths !! t = Some (Thread (Woken i) k) -> bar_woken b i = true ->
      bar_step t (b, ths) (b, <[t := Thread Outside (S k)]> ths)
  | step_again b ths i k : ths !! t = Some (Thread (Woken i) k) -> bar_woken b i = false ->
      bar_step t (b, ths) (b, <[t := Thread (Asleep i) k]> ths)
  | step_spurious b ths i k : ths !! t = Some (Thread (Asleep i) k) ->
      bar_step t (b, ths) (b, <[t := Thread (Woken i) k]> ths).

(** As many threads as the barrier is for, all outside. *)
Definition started (n : nat) (s : system) : Prop :=
  exists mtx cnd b, bar_init mtx cnd (Z.of_nat n) = (0, Some b) /\ s = (b, replicate n (Thread Outside 0)).
Definition bar_reachable (n : nat) (s : system) : Prop := exists s0, started n s0 /\ rtc (fun s s' => exists t, bar_step t s s') s0 s.

(** ** The invariant *)

(** The thread takes part in the current round: it was counted. *)
Definition entered (cur : bool) (g : nat) (th : thread) : bool :=
  match pc th with
  | Asleep i | Woken i => eqb i cur && (passed th =? g)%nat
  | _ => false
  end.
Notation n_entered cur g := (count_if (entered cur g)).

(** A thread in round [g]: not yet counted, counted, or still leaving round [g-1]. *)
Definition in_round (cur : bool) (g : nat) (th : thread) : Prop :=
  passed th = g /\ (pc th = Outside \/ pc th = AtLock cur \/ pc th = Asleep cur \/ pc th = Woken cur) \/
  S (passed th) = g /\ pc th = Woken (negb cur).

Record bar_inv (n : nat) (g : nat) (s : system) : Prop := BarInv {
  bi_max : maxcnt s.1 = Z.of_nat n;
  bi_len : length s.2 = n;
  bi_old : runners s.1 (negb (sbp s.1)) = Z.of_nat n;
  bi_cur : runners s.1 (sbp s.1) = Z.of_nat n - Z.of_nat (n_entered (sbp s.1) g s.2);
  bi_less : (n_entered (sbp s.1) g s.2 < n)%nat;
  bi_round : Forall (in_round (sbp s.1) g) s.2
}.

Lemma entered_woken cur g : entered cur g (Thread (Woken cur) g) = true.
Proof. unfold entered. cbn. by rewrite eqb_reflx, Nat.eqb_refl. Qed.

Lemma entered_asleep cur g : entered cur g (Thread (Asleep cur) g) = true.
Proof. exact (entered_woken cur g). Qed.

(** When all threads but one were counted, that one is the only exception. *)
Lemma n_entered_others cur g ths t th :
  ths !! t = Some th -> entered cur g th = false -> S (n_entered cur g ths) = length ths ->
  Forall (fun th => entered cur g th = true) (<[t := Thread (Woken cur) g]> ths).
Proof.
  intros Ht He Hn. apply count_if_all.
  pose proof (count_if_insert (entered cur g) ths t th (Thread (Woken cur) g) Ht) as Hi.
  rewrite He, entered_woken in Hi.
  rewrite length_insert. lia.
Qed.

(** ** The invariant holds *)

Lemma runners_set i j v b :
  runners (set_runners i v b) j = if eqb i j then v else runners b j.
Proof. by destruct i, j. Qed.

Lemma sbp_set i v b : sbp (set_runners i v b) = sbp b.
Proof. by destruct i. Qed.

Lemma maxcnt_set i v b : maxcnt (set_runners i v b) = maxcnt b.
Proof. by destruct i. Qed.

Lemma init_inv n s : started n s -> bar_inv n 0 s.
Proof.
  intros (mtx & cnd & b & E & ->). unfold bar_init in E. destruct (_ <? 1) eqn:Hn; [done|]. apply Z.ltb_ge in Hn.
  do 4 (destruct (negb _) in E; [done|]).
  injection E as <-.
  assert (n_entered false 0 (replicate n (Thread Outside 0)) = O) as H0 by (by apply count_if_none, Forall_replicate).
  split; cbn; rewrite ?H0, ?length_replicate; try done; try lia.
  apply Forall_replicate. left. auto.
Qed.

(** A step of one thread that neither counts it nor ends the round. *)
Lemma inv_move n g b ths t th th' :
  bar_inv n g (b, ths) -> ths !! t = Some th -> in_round (sbp b) g th' ->
  entered (sbp b) g th = entered (sbp b) g th' -> bar_inv n g (b, <[t := th']> ths).
Proof.
  intros [Hm Hl Ho Hc Hs Hr] Ht Hth He. cbn in *.
  pose proof (count_if_insert (entered (sbp b) g) ths t th th' Ht) as Hi. rewrite He in Hi.
  assert (n_entered (sbp b) g (<[t := th']> ths) = n_entered (sbp b) g ths) as Heq by lia.
  split; cbn; rewrite ?length_insert, ?Heq; try done. by apply Forall_insert.
Qed.

(** Where a thread is, given what the invariant says of it. *)
Lemma round_of n g b ths t th :
  bar_inv n g (b, ths) -> ths !! t = Some th -> in_round (sbp b) g th.
Proof. intros H Ht. exact (proj1 (Forall_lookup _ _) (bi_round _ _ _ H) _ _ Ht). Qed.

(** The last thread to arrive ends the round. *)
Lemma inv_last n g b ths t k b' :
  bar_inv n g (b, ths) -> ths !! t = Some (Thread (AtLock (sbp b)) k) ->
  runners b (sbp b) = 1 -> maxcnt b <> 1 ->
  b' = set_runners (sbp b) (maxcnt b) b <| sbp := negb (sbp b) |> -> k = g ->
  bar_inv n (S g) (b', bcast (sbp b) <$> <[t := Thread Outside (S k)]> ths).
Proof.
  intros [Hm Hl Ho Hc Hs Hr] Ht H1 Hne -> ->. cbn in *.
  assert (Forall (fun th => entered (sbp b) g th = true) (<[t := Thread (Woken (sbp b)) g]> ths)) as Hall.
  { eapply n_entered_others; [exact Ht|done|lia]. }
  set (ths' := bcast _ <$> _).
  assert (Forall (fun th => in_round (negb (sbp b)) (S g) th /\ entered (negb (sbp b)) (S g) th = false) ths') as H'.
  { apply Forall_lookup. intros u th Hu. unfold ths' in Hu. rewrite list_lookup_fmap in Hu.
    destruct (decide (u = t)) as [->|Hut].
    - rewrite list_lookup_insert_eq in Hu by (by eapply lookup_lt_Some). injection Hu as <-. cbn. split; [left; auto|done].
    - rewrite list_lookup_insert_ne in Hu by done. destruct (ths !! u) as [a|] eqn:Ea; [|done]. injection Hu as <-.
      assert (entered (sbp b) g a = true) as He.
      { refine (proj1 (Forall_lookup _ _) Hall u a _). by rewrite list_lookup_insert_ne. }
      destruct a as [p q]. unfold entered in He. cbn in He.
      destruct p as [|i|i|i]; try done; apply andb_prop in He as [Hi Hq];
        apply eqb_prop in Hi as ->; apply Nat.eqb_eq in Hq as ->; unfold bcast; cbn; rewrite ?eqb_reflx; cbn.
      all: split; [right; by rewrite negb_involutive|]. all: unfold entered; cbn; by destruct (sbp b). }
  apply Forall_and in H' as [Hr' He'].
  assert (n_entered (negb (sbp b)) (S g) ths' = O) as H0 by (by apply count_if_none).
  split; cbn.
  - by destruct (sbp b).
  - unfold ths'. by rewrite length_fmap, length_insert.
  - rewrite negb_involutive. destruct b as [m r0 r1 []]; cbn in *; lia.
  - rewrite H0. destruct b as [m r0 r1 []]; cbn in *; lia.
  - rewrite H0. lia.
  - done.
Qed.

(** A thread that is counted. *)
Lemma inv_count n g b ths t k b' :
  bar_inv n g (b, ths) -> ths !! t = Some (Thread (AtLock (sbp b)) k) -> k = g ->
  runners b (sbp b) <> 1 -> b' = set_runners (sbp b) (runners b (sbp b) - 1) b ->
  bar_inv n g (b', <[t := Thread (Asleep (sbp b)) k]> ths) /\ bar_woken b' (sbp b) = false.
Proof.
  intros [Hm Hl Ho Hc Hs Hr] Ht -> Hne ->. cbn in *.
  assert (sbp (set_runners (sbp b) (runners b (sbp b) - 1) b) = sbp b) as Hcur by apply sbp_set.
  pose proof (count_if_insert (entered (sbp b) g) ths t _ (Thread (Asleep (sbp b)) g) Ht) as Hi.
  rewrite entered_asleep in Hi. cbn in Hi.
  split.
  - split; cbn; rewrite ?Hcur, ?maxcnt_set, ?length_insert, ?runners_set, ?eqb_reflx; try done; try lia.
    + by destruct (sbp b).
    + apply Forall_insert; [done|]. left. auto.
  - unfold bar_woken. rewrite runners_set, eqb_reflx. apply Z.eqb_neq.
    rewrite maxcnt_set. lia.
Qed.

Lemma at_lock_round cur g i k : in_round cur g (Thread (AtLock i) k) -> k = g /\ i = cur.
Proof. intros [[? H]|[_ ?]]; [|done]. cbn in *. naive_solver. Qed.

(** Every step keeps the invariant; the round only grows. *)
Lemma bar_step_inv n g t s s' : bar_inv n g s -> bar_step t s s' -> exists g', bar_inv n g' s'.
Proof.
  intros HI Hs. destruct Hs as [b ths k Ht|b ths i k b' w Ht Ha|b ths i k b' Ht Ha
    |b ths i k Ht Hw|b ths i k Ht Hw|b ths i k Ht]; pose proof (round_of _ _ _ _ _ _ HI Ht) as Hr.
  - exists g. eapply inv_move; [done|done| |done]. destruct Hr as [[? ?]|[_ ?]]; [left; cbn in *; auto|done].
  - apply at_lock_round in Hr as [-> ->]. unfold bar_arrive in Ha. destruct (runners b (sbp b) =? 1) eqn:E1.
    + apply Z.eqb_eq in E1. destruct (maxcnt b =? 1) eqn:Em; cbn [negb] in Ha; injection Ha as <- <-.
      * (* the barrier is for one thread *)
        apply Z.eqb_eq in Em. exists (S g). destruct HI as [Hm Hl Ho Hc Hs Hr]. cbn in *.
        destruct ths as [|a [|]]; cbn in Hl; try lia. destruct t as [|t]; [|done]. injection Ht as ->.
        rewrite count_if_cons in Hc. cbn in Hc.
        split; cbn; rewrite ?length_insert; try done.
        constructor; [|done]. left. auto.
      * apply Z.eqb_neq in Em. exists (S g). eapply inv_last; try done. by destruct (sbp b).
    + injection Ha as <- Ha. destruct HI as [Hm Hl Ho Hc Hs Hr]. cbn in *.
      destruct (_ =? maxcnt _) eqn:E2 in Ha; [|done]. apply Z.eqb_eq in E2.
      rewrite runners_set, eqb_reflx, maxcnt_set in E2. lia.
  - apply at_lock_round in Hr as [-> ->]. unfold bar_arrive in Ha. destruct (runners b (sbp b) =? 1) eqn:E1.
    + by destruct (negb _).
    + apply Z.eqb_neq in E1. injection Ha as <- _. exists g. by eapply inv_count.
  - exists g. destruct Hr as [[Hk [Hp|[Hp|[Hp|Hp]]]]|[Hk Hp]]; cbn in Hk, Hp; try discriminate Hp; injection Hp as ->; subst.
    + unfold bar_woken in Hw. apply Z.eqb_eq in Hw. destruct HI as [Hm Hl Ho Hc Hs Hr]. cbn in *.
      assert (n_entered (sbp b) g ths <> 0%nat); [|cbn in *; lia].
      intros H0. pose proof (count_if_insert (entered (sbp b) g) ths t _ (Thread Outside g) Ht) as Hi.
      rewrite entered_woken in Hi. cbn in *. lia.
    + eapply inv_move; [done|done|left; cbn; auto|]. unfold entered. cbn. by destruct (sbp b).
  - exists g. destruct Hr as [[Hk [Hp|[Hp|[Hp|Hp]]]]|[Hk Hp]]; cbn in Hk, Hp; try discriminate Hp; injection Hp as ->; subst.
    + eapply inv_move; [done|done|left; cbn; auto|done].
    + unfold bar_woken in Hw. apply Z.eqb_neq in Hw. destruct HI as [Hm Hl Ho Hc Hs Hr]. cbn in *. lia.
  - exists g. destruct Hr as [[Hk [Hp|[Hp|[Hp|Hp]]]]|[Hk Hp]]; cbn in Hk, Hp; try discriminate Hp; injection Hp as ->; subst.
    eapply inv_move; [done|done|left; cbn; auto|done].
Qed.

Lemma bar_reachable_inv n s : bar_reachable n s -> exists g, bar_inv n g s.
Proof.
  intros (s0 & H0 & Hs). apply init_inv in H0. revert H0. generalize 0%nat.
  induction Hs as [s|s1 s2 s3 [t H12] _ IH]; intros g Hg; [eauto|].
  destruct (bar_step_inv _ _ _ _ _ Hg H12) as [g' Hg']. by eapply IH.
Qed.

(** ** Properties *)

(** The number of calls in which the thread has been counted. *)
Definition arrived (th : thread) : nat :=
  match pc th with Asleep _ | Woken _ => S (passed th) | _ => passed th end.

Lemma passed_le_arrived n s t u a c :
  bar_reachable n s -> s.2 !! t = Some a -> s.2 !! u = Some c -> (passed a <= arrived c)%nat.
Proof.
  intros Hs Ha Hc. apply bar_reachable_inv in Hs as [g HI]. destruct s as [b ths]. cbn in Ha, Hc.
  pose proof (round_of _ _ _ _ _ _ HI Ha) as Hra. pose proof (round_of _ _ _ _ _ _ HI Hc) as Hrc.
  unfold arrived. destruct Hra as [[<- _]|[H _]], Hrc as [[<- [-> | [-> | [-> | ->]]]]|[Hg ->]]; lia.
Qed.

Lemma someone_moves n s :
  bar_reachable n s -> Forall (fun th => pc th <> Outside) s.2 ->
  exists t th i, s.2 !! t = Some th /\
    (pc th = AtLock i \/ pc th = Woken i /\ bar_woken s.1 i = true).
Proof.
  intros Hs Hin. apply bar_reachable_inv in Hs as [g HI]. destruct s as [b ths]. cbn in *.
  destruct (decide (Exists (fun th => entered (sbp b) g th = false) ths)) as [Hex|Hno].
  - apply Exists_exists in Hex as (th & Hth & He). apply list_elem_of_lookup in Hth as [t Ht].
    pose proof (round_of _ _ _ _ _ _ HI Ht) as Hr.
    pose proof (proj1 (Forall_lookup _ _) Hin _ _ Ht) as Hout. destruct th as [p k]. cbn in *.
    destruct Hr as [[Hk [? | [? | [? | ?]]]]|[_ Hw]]; cbn in *; subst; try done.
    + exists t, (Thread (AtLock (sbp b)) g), (sbp b). auto.
    + by rewrite ?entered_woken, ?entered_asleep in He.
    + by rewrite ?entered_woken, ?entered_asleep in He.
    + exists t, (Thread (Woken (negb (sbp b))) k), (negb (sbp b)). split; [done|]. right. split; [done|].
      apply Z.eqb_eq. destruct HI as [Hm _ Ho _ _ _]. cbn in *. lia.
  - exfalso. destruct HI as [_ Hl _ _ Hless _]. cbn in *.
    assert (n_entered (sbp b) g ths = length ths); [|lia]. apply count_if_all.
    apply Forall_forall. intros th Hth. destruct (entered (sbp b) g th) eqn:E; [done|].
    exfalso. apply Hno, Exists_exists. eauto.
Qed.

(** (C14) The barrier is safe: in every reachable state, however the threads interleave
    and whatever spurious wake-ups there are, no thread has passed more rounds than
    any other has arrived at; in particular no call returns before all threads have
    made the corresponding call. *)
Theorem barrier_safe n s t u a c :
  bar_reachable n s -> s.2 !! t = Some a -> s.2 !! u = Some c -> (passed a <= arrived c)%nat.
Proof. apply passed_le_arrived. Qed.

(** The barrier does not get stuck: whenever all threads are inside [bar_wait], one
    of them can go on without a spurious wake-up, because it has still to be counted
    or because it was woken and will leave. *)
Theorem barrier_progress n s :
  bar_reachable n s -> Forall (fun th => pc th <> Outside) s.2 ->
  exists t th i, s.2 !! t = Some th /\
    (pc th = AtLock i \/ pc th = Woken i /\ bar_woken s.1 i = true).
Proof. apply someone_moves. Qed.

(** Two threads: the first is asleep, the second about to arrive. *)
Definition two : system :=
  (mkBar 2 1 2 false, [Thread (Asleep false) 0; Thread (AtLock false) 0]).
Lemma two_reachable : bar_reachable 2 two.
Proof.
  eexists. split; [exists (fun _ => 0), (fun _ => 0), (mkBar 2 2 2 false); split; reflexivity|].
  eapply rtc_l; [exists 0%nat; eapply step_call; reflexivity|].
  eapply rtc_l; [exists 1%nat; eapply step_call; reflexivity|].
  eapply rtc_l; [exists 0%nat; eapply step_sleep; reflexivity|]. apply rtc_refl.
Qed.

(** After the second has arrived, both may pass; neither is a round ahead. *)
Lemma barrier_safe_witness :
  (passed (Thread Outside 1) <= arrived (Thread (Woken false) 0))%nat.
Proof.
  apply (barrier_safe 2 (mkBar 2 2 2 true, [Thread (Woken false) 0; Thread Outside 1]) 1 0
    (Thread Outside 1) (Thread (Woken false) 0)); [|done|done].
  destruct two_reachable as (s0 & H0 & Hs). exists s0. split; [done|].
  eapply rtc_r; [exact Hs|]. exists 1%nat. apply (step_pass 1 (mkBar 2 1 2 false) [Thread (Asleep false) 0; Thread (AtLock false) 0]
    false 0 (mkBar 2 2 2 true) true); reflexivity.
Defined.

Lemma barrier_progress_witness :
  exists t th i, two.2 !! t = Some th /\ (pc th = AtLock i \/ pc th = Woken i /\ bar_woken two.1 i = true).
Proof. apply (barrier_progress 2 two two_reachable). by repeat constructor. Defined.
