(* ===== verification/Fifo.v ===== *)
(** The bounded buffer of net/netd/fifo.c, the queue of outgoing messages: a ring of
    [buf_size] places, of which one stays empty, a mutex and two condition variables.
    The critical sections are functions on the ring; producers and consumers
    interleave as steps. *)
From stdpp Require Import relations.
From S2P Require Import Prelude.

Open Scope Z_scope.

(** ** The code *)

(** The places of [queue] by index. *)
Record FIFO := mkFIFO { buf_size : Z; queue : gmap Z Z; header : Z; tail : Z }.
#[export] Instance eta_FIFO : Eta FIFO := MkEta _ (fun r => mkFIFO (buf_size r) (queue r) (header r) (tail r)).

Definition FIFO_LEN_DEFAULT : Z := 1024.

(** [ok] says which of the five requests (memory for the control block and the ring, the
    mutex, the two condition variables) the system grants. *)
Definition fifo_create (ok : nat -> bool) (len : Z) : option FIFO :=
  if negb (ok 0%nat) then None
  else
    let len := if len <? FIFO_LEN_DEFAULT then FIFO_LEN_DEFAULT else len in
    if negb (ok 1%nat) then None
    else if negb (ok 2%nat) then None
    else if negb (ok 3%nat) then None
    else if negb (ok 4%nat) then None
    else Some (mkFIFO len (list_to_map ((fun i => (i, 0)) <$> seqZ 0 len)) 0 0).

#[local] Notation M := (M FIFO).

(** From the lock (or the return of [thr_cnd_wait]) to the unlock or the next wait:
    whether the item was stored; if not the caller waits. The store also signals
    [empty]. *)
Definition fifo_enqueue (item : Z) : M bool :=
  q ← get;
  let newtail := cmod (tail q + 1) (buf_size q) in
  if newtail =? header q then mret false
  else
    _ ← or_fault (queue q !! tail q);
    modify (fun q => q <| queue := <[tail q := item]> (queue q) |> <| tail := newtail |>);;
    mret true.

(** The item taken, or none when the caller waits. *)
Definition fifo_dequeue : M (option Z) :=
  q ← get;
  if tail q =? header q then mret None
  else
    item ← or_fault (queue q !! header q);
    modify (fun q => q <| header := cmod (header q + 1) (buf_size q) |>);;
    mret (Some item).

(** ** The ring represents a list *)

Definition slot (q : FIFO) (i : Z) : Z := (header q + i) mod buf_size q.

Record fifo_rep (q : FIFO) (l : list Z) : Prop := FifoRep {
  fr_len : Z.of_nat (length l) < buf_size q;
  fr_head : 0 <= header q < buf_size q;
  fr_tail : tail q = slot q (Z.of_nat (length l));
  fr_dom : forall i, 0 <= i < buf_size q -> is_Some (queue q !! i);
  fr_items : forall i x, l !! i = Some x -> queue q !! slot q (Z.of_nat i) = Some x
}.

Lemma slot_range q i : 0 < buf_size q -> 0 <= slot q i < buf_size q.
Proof. intros. apply Z.mod_pos_bound. lia. Qed.

Lemma slot_inj q i j :
  0 <= i < buf_size q -> 0 <= j < buf_size q -> slot q i = slot q j -> i = j.
Proof.
  intros Hi Hj H. unfold slot in H.
  assert ((i - j) mod buf_size q = 0) as H0.
  { replace (i - j) with ((header q + i) - (header q + j)) by lia.
    rewrite Zminus_mod, H, Z.sub_diag. apply Z.mod_0_l. lia. }
  destruct (Z.lt_trichotomy i j) as [Hlt|[Heq|Hlt]]; [|done|].
  - assert ((j - i) mod buf_size q = 0) as Hm.
    { replace (j - i) with (- (i - j)) by lia. apply Z.mod_opp_l_z; [lia|done]. }
    rewrite Z.mod_small in Hm; lia.
  - rewrite Z.mod_small in H0; lia.
Qed.

Lemma slot_succ q i : 0 < buf_size q -> cmod (slot q i + 1) (buf_size q) = slot q (i + 1).
Proof.
  intros. unfold cmod, slot. pose proof (Z.mod_pos_bound (header q + i) (buf_size q)).
  rewrite Z.rem_mod_nonneg by lia. rewrite Zplus_mod_idemp_l. f_equal. lia.
Qed.

Lemma slot_0 q : 0 <= header q < buf_size q -> slot q 0 = header q.
Proof. intros. unfold slot. rewrite Z.add_0_r. by apply Z.mod_small. Qed.

(** The ring is full exactly when [buf_size-1] items are in it, empty when none is. *)
Lemma full_iff q l : fifo_rep q l ->
  (cmod (tail q + 1) (buf_size q) =? header q) = (Z.of_nat (length l) =? buf_size q - 1).
Proof.
  intros [Hl Hh Ht _ _]. rewrite Ht, slot_succ by lia. destruct (Z.eqb_spec (Z.of_nat (length l)) (buf_size q - 1)) as [->|Hne].
  - apply Z.eqb_eq. unfold slot. replace (_ + _) with (header q + 1 * buf_size q) by lia.
    rewrite Z_mod_plus_full. apply Z.mod_small. lia.
  - apply Z.eqb_neq. rewrite <- (slot_0 q) by done. intros H. apply slot_inj in H; lia.
Qed.

Lemma empty_iff q l : fifo_rep q l -> (tail q =? header q) = match l with [] => true | _ => false end.
Proof.
  intros [Hl Hh Ht _ _]. rewrite Ht. destruct l as [|x l]; cbn [length].
  - apply Z.eqb_eq. by apply slot_0.
  - apply Z.eqb_neq. rewrite <- (slot_0 q) by done. intros H. apply slot_inj in H; cbn in *; lia.
Qed.

Lemma enqueue_rep q l x : fifo_rep q l -> Z.of_nat (length l) < buf_size q - 1 ->
  exists q', fifo_enqueue x q = Ret true q' /\ fifo_rep q' (l ++ [x]) /\ buf_size q' = buf_size q.
Proof.
  intros HR Hlt. unfold fifo_enqueue. mrun. rewrite (full_iff q l HR), (proj2 (Z.eqb_neq _ _)) by lia.
  destruct HR as [Hl Hh Ht Hd Hi].
  destruct (Hd (tail q)) as [y ->]; [rewrite Ht; apply slot_range; lia|].
  eexists. split; [reflexivity|]. split; [|done].
  assert (forall i, slot (q <| queue := <[tail q := x]> (queue q) |> <| tail := cmod (tail q + 1) (buf_size q) |>) i = slot q i) as Hs by done.
  split; cbn [buf_size header tail queue eta_FIFO].
  - cbn. rewrite length_app. cbn. lia.
  - done.
  - rewrite Hs. cbn. rewrite Ht, slot_succ, length_app by lia. f_equal. cbn. lia.
  - intros i Hi'. cbn. destruct (decide (i = tail q)) as [->|]; [rewrite lookup_insert_eq; eauto|].
    rewrite lookup_insert_ne by done. by apply Hd.
  - intros i z Hz. rewrite Hs. cbn. destruct (decide (i = length l)) as [->|Hne].
    + rewrite lookup_app_r, Nat.sub_diag in Hz by lia. injection Hz as ->. rewrite Ht. apply lookup_insert_eq.
    + assert (i < length l)%nat as Hlt'.
      { apply lookup_lt_Some in Hz. rewrite length_app in Hz. cbn in Hz. lia. }
      rewrite lookup_app_l in Hz by done. rewrite lookup_insert_ne; [by apply Hi|].
      rewrite Ht. intros H. apply slot_inj in H; lia.
Qed.

Lemma dequeue_rep q x l : fifo_rep q (x :: l) ->
  exists q', fifo_dequeue q = Ret (Some x) q' /\ fifo_rep q' l /\ buf_size q' = buf_size q.
Proof.
  intros HR. unfold fifo_dequeue. mrun. rewrite (empty_iff q _ HR).
  destruct HR as [Hl Hh Ht Hd Hi]. cbn [length] in *.
  pose proof (Hi O x eq_refl) as H0. change (Z.of_nat 0) with 0 in H0. rewrite slot_0 in H0 by done. rewrite H0.
  eexists. split; [reflexivity|]. split; [|done].
  assert (cmod (header q + 1) (buf_size q) = slot q 1) as Hh1.
  { rewrite <- (slot_0 q) by done. by rewrite slot_succ by lia. }
  assert (forall i, slot (q <| header := cmod (header q + 1) (buf_size q) |>) i = slot q (i + 1)) as Hs.
  { intros i. unfold slot at 1. cbn. rewrite Hh1. unfold slot. rewrite Zplus_mod_idemp_l. f_equal. lia. }
  split.
  - cbn. lia.
  - cbn. rewrite Hh1. apply slot_range. lia.
  - rewrite Hs. cbn. rewrite Ht. f_equal. lia.
  - done.
  - intros i z Hz. rewrite Hs. cbn. specialize (Hi (S i) z Hz). by replace (Z.of_nat i + 1) with (Z.of_nat (S i)) by lia.
Qed.

Lemma create_rep ok len q : fifo_create ok len = Some q -> fifo_rep q [] /\ buf_size q = Z.max len FIFO_LEN_DEFAULT.
Proof.
  unfold fifo_create. repeat (destruct (ok _); cbn [negb]; [|done]). intros [= <-].
  assert ((if len <? FIFO_LEN_DEFAULT then FIFO_LEN_DEFAULT else len) = Z.max len FIFO_LEN_DEFAULT) as ->.
  { destruct (Z.ltb_spec len FIFO_LEN_DEFAULT); lia. }
  split; [|done]. assert (0 < Z.max len FIFO_LEN_DEFAULT) by (unfold FIFO_LEN_DEFAULT; lia).
  split; cbn; try done.
  intros i Hi. apply elem_of_dom. rewrite dom_list_to_map_L. set_unfold.
  exists (i, 0). split; [done|]. exists i. split; [done|lia].
Qed.

(** ** Producers and consumers *)

(** A thread is outside, or waits in [fifo_enqueue] (with its item) or [fifo_dequeue],
    asleep or woken. *)
Inductive place :=
  | Idle
  | Producer (asleep : bool) (item : Z)
  | Consumer (asleep : bool).

Definition p_asleep (th : place) : bool := match th with Producer true _ => true | _ => false end.
Definition p_woken (th : place) : bool := match th with Producer false _ => true | _ => false end.
Definition c_asleep (th : place) : bool := match th with Consumer true => true | _ => false end.
Definition c_woken (th : place) : bool := match th with Consumer false => true | _ => false end.

(** [thr_cnd_signal]: one of the sleepers is woken, if there is one. *)
Inductive signals (sleeper : place -> bool) (wake : place -> place) (ths : list place) : list place -> Prop :=
  | signal_none : Forall (fun th => sleeper th = false) ths -> signals sleeper wake ths ths
  | signal_one t th : ths !! t = Some th -> sleeper th = true ->
      signals sleeper wake ths (<[t := wake th]> ths).
Definition woken (th : place) : place :=
  match th with Producer _ x => Producer false x | Consumer _ => Consumer false | Idle => Idle end.

(** The ring, the threads, and the items stored and taken so far, in order. *)
Record system := System { ring : FIFO; threads : list place; stored : list Z; taken : list Z }.

(** The thread may run the critical section of [fifo_enqueue] with item [x]: a new call
    or one that was woken; likewise of [fifo_dequeue]. *)
Definition can_store (th : place) (x : Z) : Prop := th = Idle \/ th = Producer false x.
Definition can_take (th : place) : Prop := th = Idle \/ th = Consumer false.

Inductive fifo_step : system -> system -> Prop :=
  | step_store q ths st tk t th x q' ths' : ths !! t = Some th -> can_store th x ->
      fifo_enqueue x q = Ret true q' -> signals c_asleep woken (<[t := Idle]> ths) ths' ->
      fifo_step (System q ths st tk) (System q' ths' (st ++ [x]) tk)
  | step_full q ths st tk t th x q' : ths !! t = Some th -> can_store th x ->
      fifo_enqueue x q = Ret false q' ->
      fifo_step (System q ths st tk) (System q' (<[t := Producer true x]> ths) st tk)
  | step_take q ths st tk t th x q' ths' : ths !! t = Some th -> can_take th ->
      fifo_dequeue q = Ret (Some x) q' -> signals p_asleep woken (<[t := Idle]> ths) ths' ->
      fifo_step (System q ths st tk) (System q' ths' st (tk ++ [x]))
  | step_empty q ths st tk t th q' : ths !! t = Some th -> can_take th ->
      fifo_dequeue q = Ret None q' ->
      fifo_step (System q ths st tk) (System q' (<[t := Consumer true]> ths) st tk)
  | step_spurious q ths st tk t th : ths !! t = Some th -> p_asleep th || c_asleep th = true ->
      fifo_step (System q ths st tk) (System q (<[t := woken th]> ths) st tk).

Definition fifo_started (len : Z) (s : system) : Prop :=
  exists ok q n, fifo_create ok len = Some q /\ s = System q (replicate n Idle) [] [].
Definition fifo_reachable (len : Z) (s : system) : Prop := exists s0, fifo_started len s0 /\ rtc fifo_step s0 s.

(** Items and free places are never more than the woken threads that will see to
    them, as long as others sleep. *)
Record fifo_inv (cap : Z) (s : system) (l : list Z) : Prop := FifoInv {
  fi_rep : fifo_rep (ring s) l;
  fi_cap : buf_size (ring s) = cap;
  fi_order : stored s = taken s ++ l;
  fi_consumers : (0 < count_if c_asleep (threads s) -> length l <= count_if c_woken (threads s))%nat;
  fi_producers : (0 < count_if p_asleep (threads s))%nat ->
    cap - 1 - Z.of_nat (length l) <= Z.of_nat (count_if p_woken (threads s))
}.

Lemma signals_consumers ths ths' : signals c_asleep woken ths ths' ->
  count_if p_asleep ths' = count_if p_asleep ths /\ count_if p_woken ths' = count_if p_woken ths /\
  (count_if c_asleep ths' = O /\ count_if c_woken ths' = count_if c_woken ths \/
   S (count_if c_asleep ths') = count_if c_asleep ths /\ count_if c_woken ths' = S (count_if c_woken ths)).
Proof.
  intros [H|t th Ht Ha]; [apply count_if_none in H; auto|].
  destruct th as [| |[]]; try done. cbn [woken].
  pose proof (count_if_insert p_asleep ths t _ (Consumer false) Ht).
  pose proof (count_if_insert p_woken ths t _ (Consumer false) Ht).
  pose proof (count_if_insert c_asleep ths t _ (Consumer false) Ht).
  pose proof (count_if_insert c_woken ths t _ (Consumer false) Ht). cbn in *. lia.
Qed.

Lemma signals_producers ths ths' : signals p_asleep woken ths ths' ->
  count_if c_asleep ths' = count_if c_asleep ths /\ count_if c_woken ths' = count_if c_woken ths /\
  (count_if p_asleep ths' = O /\ count_if p_woken ths' = count_if p_woken ths \/
   S (count_if p_asleep ths') = count_if p_asleep ths /\ count_if p_woken ths' = S (count_if p_woken ths)).
Proof.
  intros [H|t th Ht Ha]; [apply count_if_none in H; auto|].
  destruct th as [|[] x|]; try done. cbn [woken].
  pose proof (count_if_insert p_asleep ths t _ (Producer false x) Ht).
  pose proof (count_if_insert p_woken ths t _ (Producer false x) Ht).
  pose proof (count_if_insert c_asleep ths t _ (Producer false x) Ht).
  pose proof (count_if_insert c_woken ths t _ (Producer false x) Ht). cbn in *. lia.
Qed.

(** The four counts after thread [t] went from [th] to [th']. *)
Ltac move_counts ths t th' Ht :=
  pose proof (count_if_insert p_asleep ths t _ th' Ht);
  pose proof (count_if_insert p_woken ths t _ th' Ht);
  pose proof (count_if_insert c_asleep ths t _ th' Ht);
  pose proof (count_if_insert c_woken ths t _ th' Ht).

(** What the critical sections return, given the list in the ring. *)
Lemma enqueue_inv q l x r q' : fifo_rep q l -> fifo_enqueue x q = Ret r q' ->
  buf_size q' = buf_size q /\
  (r = true /\ fifo_rep q' (l ++ [x]) \/ r = false /\ q' = q /\ Z.of_nat (length l) = buf_size q - 1).
Proof.
  intros HR E. destruct (Z.eq_dec (Z.of_nat (length l)) (buf_size q - 1)) as [Heq|Hne].
  - unfold fifo_enqueue in E. mrun_in E. rewrite (full_iff q l HR), (proj2 (Z.eqb_eq _ _) Heq) in E.
    injection E as <- <-. auto.
  - destruct (enqueue_rep q l x HR) as (q2 & E2 & HR2 & Hb); [pose proof (fr_len _ _ HR); lia|].
    rewrite E in E2. injection E2 as -> ->. auto.
Qed.

Lemma dequeue_inv q l r q' : fifo_rep q l -> fifo_dequeue q = Ret r q' ->
  buf_size q' = buf_size q /\
  match r with Some x => exists l', l = x :: l' /\ fifo_rep q' l' | None => l = [] /\ q' = q end.
Proof.
  intros HR E. destruct l as [|x l].
  - unfold fifo_dequeue in E. mrun_in E. rewrite (empty_iff q _ HR) in E. injection E as <- <-. auto.
  - destruct (dequeue_rep q x l HR) as (q2 & E2 & HR2 & Hb). rewrite E in E2. injection E2 as -> ->. eauto.
Qed.

Lemma fifo_step_inv cap s s' l : fifo_inv cap s l -> fifo_step s s' -> exists l', fifo_inv cap s' l'.
Proof.
  intros [HR Hcap Hord Hc Hp] Hs.
  destruct Hs as [q ths st tk t th x q' ths' Ht Hth E Hsig|q ths st tk t th x q' Ht Hth E
    |q ths st tk t th x q' ths' Ht Hth E Hsig|q ths st tk t th q' Ht Hth E|q ths st tk t th Ht Hth];
    cbn [ring threads stored taken] in *.
  - destruct (enqueue_inv _ _ _ _ _ HR E) as [Hb [[_ HR']|[? _]]]; [|done].
    exists (l ++ [x]). apply signals_consumers in Hsig. move_counts ths t Idle Ht.
    split; cbn [ring threads stored taken]; [done|congruence|by rewrite Hord, app_assoc|..];
      rewrite length_app; cbn [length]; destruct Hth as [-> | ->]; cbn in *; lia.
  - destruct (enqueue_inv _ _ _ _ _ HR E) as [_ [[? _]|(_ & -> & Hfull)]]; [done|].
    exists l. move_counts ths t (Producer true x) Ht.
    split; cbn [ring threads stored taken]; [done|done|done|..];
      destruct Hth as [-> | ->]; cbn in *; lia.
  - destruct (dequeue_inv _ _ _ _ HR E) as [Hb (l' & -> & HR')].
    exists l'. apply signals_producers in Hsig. move_counts ths t Idle Ht.
    split; cbn [ring threads stored taken]; [done|congruence|by rewrite <- app_assoc|..];
      cbn [length] in *; destruct Hth as [-> | ->]; cbn in *; lia.
  - destruct (dequeue_inv _ _ _ _ HR E) as [_ [-> ->]].
    exists []. move_counts ths t (Consumer true) Ht.
    split; cbn [ring threads stored taken]; [done|done|done|..];
      destruct Hth as [-> | ->]; cbn in *; lia.
  - exists l. move_counts ths t (woken th) Ht.
    split; cbn [ring threads stored taken]; [done|done|done|..];
      destruct th as [|[] ?|[]]; try done; cbn in *; lia.
Qed.

Lemma fifo_reachable_inv len s :
  fifo_reachable len s -> exists l, fifo_inv (Z.max len FIFO_LEN_DEFAULT) s l.
Proof.
  intros (s0 & (ok & q & n & E & ->) & Hs). destruct (create_rep _ _ _ E) as [HR Hb].
  assert (fifo_inv (Z.max len FIFO_LEN_DEFAULT) (System q (replicate n Idle) [] []) []) as H0.
  { split; cbn; try done; intros H; exfalso;
      (rewrite count_if_none in H; [lia|by apply Forall_replicate]). }
  revert H0. generalize (@nil Z) at 3. induction Hs as [s|s1 s2 s3 H12 _ IH]; intros l Hl; [eauto|].
  destruct (fifo_step_inv _ _ _ _ Hl H12) as [l' Hl']. by eapply IH.
Qed.

(** ** Properties *)

(** (C16) First in, first out, bounded: in every reachable state, for any number of
    producers and consumers and any interleaving, the items taken are a prefix of the
    items stored, in order, none lost and none taken twice, and what is stored and
    not taken is what the ring represents: at most [max(len,1024)-1] items. *)
Theorem fifo_order_bounded len s :
  fifo_reachable len s ->
  exists l, stored s = taken s ++ l /\ fifo_rep (ring s) l /\
    Z.of_nat (length l) <= Z.max len FIFO_LEN_DEFAULT - 1.
Proof.
  intros Hs. apply fifo_reachable_inv in Hs as (l & [HR Hb Ho _ _]).
  exists l. split_and!; [done|done|]. pose proof (fr_len _ _ HR). lia.
Qed.

(** (C17) No lost wake-up: whenever a consumer sleeps although an item is there, some
    consumer was woken and will run; whenever a producer sleeps although there is
    room, some producer was woken. One signal per operation is enough. *)
Theorem fifo_no_lost_wakeup len s t th :
  fifo_reachable len s -> threads s !! t = Some th ->
  (c_asleep th = true -> tail (ring s) <> header (ring s) ->
     exists u th', threads s !! u = Some th' /\ c_woken th' = true) /\
  (p_asleep th = true -> cmod (tail (ring s) + 1) (buf_size (ring s)) <> header (ring s) ->
     exists u th', threads s !! u = Some th' /\ p_woken th' = true).
Proof.
  intros Hs Ht. apply fifo_reachable_inv in Hs as (l & [HR Hb Ho Hc Hp]).
  split; intros Ha Hne; apply count_if_pos.
  - assert (0 < count_if c_asleep (threads s))%nat as H1 by (apply count_if_pos; eauto).
    apply Hc in H1. apply Z.eqb_neq in Hne. rewrite (empty_iff _ _ HR) in Hne.
    destruct l; [done|cbn in H1; lia].
  - assert (0 < count_if p_asleep (threads s))%nat as H1 by (apply count_if_pos; eauto).
    apply Hp in H1. apply Z.eqb_neq in Hne. rewrite (full_iff _ _ HR) in Hne. apply Z.eqb_neq in Hne.
    pose proof (fr_len _ _ HR). lia.
Qed.

(** A consumer finds the buffer empty and sleeps; a producer stores an item. *)
Lemma fifo_demo : exists q q1,
  fifo_reachable 16 (System q [Consumer true; Idle] [] []) /\
  fifo_reachable 16 (System q1 [Consumer false; Idle] [77] []).
Proof.
  assert (exists q, fifo_create (fun _ => true) 16 = Some q) as [q E] by (eexists; reflexivity).
  destruct (create_rep _ _ _ E) as [HR Hb].
  destruct (enqueue_rep q [] 77 HR) as (q1 & E1 & _ & _); [rewrite Hb; done|].
  assert (fifo_dequeue q = Ret None q) as E0.
  { unfold fifo_dequeue. mrun. by rewrite (empty_iff q _ HR). }
  assert (fifo_started 16 (System q [Idle; Idle] [] [])) as H0 by (exists (fun _ => true), q, 2%nat; done).
  assert (fifo_step (System q [Idle; Idle] [] []) (System q [Consumer true; Idle] [] [])) as S1.
  { apply (step_empty q [Idle; Idle] [] [] 0 Idle q); [done|by left|done]. }
  exists q, q1. split; (eexists; split; [exact H0|]); eapply rtc_l; [exact S1|apply rtc_refl|exact S1|].
  eapply rtc_l; [|apply rtc_refl].
  apply (step_store q [Consumer true; Idle] [] [] 1 Idle 77 q1); [done|by left|done|].
  apply (signal_one c_asleep woken [Consumer true; Idle] 0 (Consumer true)); done.
Qed.

Lemma fifo_order_bounded_witness : exists q l,
  [77] = [] ++ l /\ fifo_rep q l /\ Z.of_nat (length l) <= Z.max 16 FIFO_LEN_DEFAULT - 1.
Proof.
  destruct fifo_demo as (_ & q & _ & H). exists q. exact (fifo_order_bounded 16 _ H).
Defined.

(** Two consumers sleep and an item is stored; two producers sleep at a full ring and an
    item is taken. In both cases one has been woken and the other still sleeps. *)
Lemma fill_up k q l ths st tk : ths !! 0%nat = Some Idle -> Forall (fun th => c_asleep th = false) ths ->
  fifo_rep q l -> (length l + k < Z.to_nat (buf_size q))%nat ->
  exists q', rtc fifo_step (System q ths st tk) (System q' ths (st ++ repeat 7 k) tk) /\
    fifo_rep q' (l ++ repeat 7 k) /\ buf_size q' = buf_size q.
Proof.
  intros H0 Hths. revert q l st. induction k as [|k IH]; intros q l st HR Hk.
  - exists q. rewrite !app_nil_r. split; [apply rtc_refl|done].
  - destruct (enqueue_rep q l 7 HR) as (q1 & E1 & HR1 & Hb); [lia|].
    destruct (IH q1 (l ++ [7]) (st ++ [7]) HR1) as (q' & Hs & HR' & Hb'); [rewrite length_app, Hb; cbn; lia|].
    exists q'. rewrite <- !app_assoc in *. split; [|split; [done|congruence]].
    eapply rtc_l; [|exact Hs]. eapply (step_store q ths st tk 0 Idle 7); [done|by left|done|].
    rewrite (list_insert_id ths 0 Idle H0). by apply signal_none.
Qed.

Lemma crowd_consumers : exists q, fifo_reachable 16 (System q [Consumer false; Consumer true; Idle] [77] []) /\ tail q <> header q.
Proof.
  assert (exists q, fifo_create (fun _ => true) 16 = Some q) as [q E] by (eexists; reflexivity).
  destruct (create_rep _ _ _ E) as [HR Hb].
  destruct (enqueue_rep q [] 77 HR) as (q1 & E1 & HR1 & _); [rewrite Hb; done|]. exists q1.
  assert (fifo_dequeue q = Ret None q) as E0.
  { unfold fifo_dequeue. mrun. by rewrite (empty_iff q _ HR). }
  split; [|apply Z.eqb_neq; by rewrite (empty_iff q1 _ HR1)].
  exists (System q [Idle; Idle; Idle] [] []). split; [by exists (fun _ => true), q, 3%nat|].
  eapply rtc_l; [apply (step_empty q [Idle; Idle; Idle] [] [] 0 Idle q); [done|by left|done]|].
  eapply rtc_l; [apply (step_empty q [Consumer true; Idle; Idle] [] [] 1 Idle q); [done|by left|done]|].
  eapply rtc_l; [|apply rtc_refl]. eapply (step_store q [Consumer true; Consumer true; Idle] [] [] 2 Idle 77); [done|by left|done|].
  by apply (signal_one c_asleep woken [Consumer true; Consumer true; Idle] 0 (Consumer true)).
Qed.

Lemma crowd_producers : exists q st tk, fifo_reachable 16 (System q [Idle; Producer false 5; Producer true 6] st tk) /\
  cmod (tail q + 1) (buf_size q) <> header q.
Proof.
  assert (exists q, fifo_create (fun _ => true) 16 = Some q) as [q E] by (eexists; reflexivity).
  destruct (create_rep _ _ _ E) as [HR Hb].
  destruct (fill_up 1023 q [] [Idle; Idle; Idle] [] []) as (q1 & Hs & HR1 & Hb1); [done|by repeat constructor|done|rewrite Hb; vm_compute; lia|].
  change ([] ++ repeat 7 1023) with (repeat 7 1023) in *.
  destruct (dequeue_rep q1 7 (repeat 7 1022) HR1) as (q2 & E2 & HR2 & Hb2). exists q2, (repeat 7 1023), [7].
  assert (forall x, fifo_enqueue x q1 = Ret false q1) as E1.
  { intros x. unfold fifo_enqueue. mrun. rewrite (full_iff q1 _ HR1), repeat_length, Hb1, Hb. done. }
  split; [|apply Z.eqb_neq; rewrite (full_iff q2 _ HR2), repeat_length, Hb2, Hb1, Hb; done].
  exists (System q [Idle; Idle; Idle] [] []). split; [by exists (fun _ => true), q, 3%nat|].
  etransitivity; [exact Hs|].
  eapply rtc_l; [apply (step_full q1 [Idle; Idle; Idle] _ [] 1 Idle 5 q1); [done|by left|done]|].
  eapply rtc_l; [apply (step_full q1 [Idle; Producer true 5; Idle] _ [] 2 Idle 6 q1); [done|by left|done]|].
  eapply rtc_l; [|apply rtc_refl]. eapply (step_take q1 [Idle; Producer true 5; Producer true 6] _ [] 0 Idle 7 q2); [done|by left|done|].
  by apply (signal_one p_asleep woken [Idle; Producer true 5; Producer true 6] 1 (Producer true 5)).
Qed.

Lemma fifo_no_lost_wakeup_witness : exists q1 q2 st tk,
  (tail q1 <> header q1 /\ exists u th', [Consumer false; Consumer true; Idle] !! u = Some th' /\ c_woken th' = true) /\
  (cmod (tail q2 + 1) (buf_size q2) <> header q2 /\
   fifo_reachable 16 (System q2 [Idle; Producer false 5; Producer true 6] st tk) /\
   exists u th', [Idle; Producer false 5; Producer true 6] !! u = Some th' /\ p_woken th' = true).
Proof.
  destruct crowd_consumers as (q1 & H1 & N1), crowd_producers as (q2 & st & tk & H2 & N2). exists q1, q2, st, tk. split.
  - split; [exact N1|]. exact (proj1 (fifo_no_lost_wakeup 16 _ 1 (Consumer true) H1 eq_refl) eq_refl N1).
  - split; [exact N2|]. split; [exact H2|]. exact (proj2 (fifo_no_lost_wakeup 16 _ 2 (Producer true 6) H2 eq_refl) eq_refl N2).
Defined.
