(* ===== verification/Sem.v ===== *)
(** The counting semaphore of net/netd/sem/sem.c, built from a mutex and a condition
    variable, with counters of the threads that wait ([waiters]) and of those that
    were signalled and have not run yet ([pendings]). *)
From stdpp Require Import relations.
From S2P Require Import Prelude.

Open Scope Z_scope.

(** ** The code *)

Record MYSEM := mkSem { waiters : Z; pendings : Z; value : Z }.
#[export] Instance eta_MYSEM : Eta MYSEM := MkEta _ (fun r => mkSem (waiters r) (pendings r) (value r)).

(** The initializations of the condition variable and the mutex may fail. *)
Definition mysem_init (cnd_ok mtx_ok : bool) (n : Z) : Z * option MYSEM :=
  if n <? 0 then (-1, None)
  else if negb cnd_ok then (-1, None)
  else if negb mtx_ok then (-1, None)
  else (0, Some (mkSem 0 0 n)).

(** [while (sem->value<=0)], from its test: the caller waits, or takes a unit. *)
Definition P_test (sem : MYSEM) : MYSEM * bool :=
  if value sem <=? 0 then (sem <| waiters := waiters sem + 1 |>, false)
  else (sem <| value := value sem - 1 |>, true).

(** [mysem_P] from the lock to the first wait or the unlock: the new state and whether the
    call returns. *)
Definition mysem_P (sem : MYSEM) : MYSEM * bool :=
  if waiters sem + pendings sem >? 0 then (sem <| waiters := waiters sem + 1 |>, false)
  else P_test sem.
(** ... and from the return of either [thr_cnd_wait] to the next wait or the unlock. *)
Definition P_resume (sem : MYSEM) : MYSEM * bool :=
  P_test (sem <| pendings := pendings sem - 1 |>).

(** Whether it signals the condition variable. *)
Definition mysem_V (sem : MYSEM) : MYSEM * bool :=
  let sem := sem <| value := value sem + 1 |> in
  if waiters sem >? 0
  then (sem <| waiters := waiters sem - 1 |> <| pendings := pendings sem + 1 |>, true)
  else (sem, false).

(** ** Threads *)

Inductive place := Outside | Asleep | Woken.
Definition asleep (th : place) : bool := match th with Asleep => true | _ => false end.
Definition woken (th : place) : bool := match th with Woken => true | _ => false end.

(** The semaphore, the threads, and how many calls of [mysem_P] and [mysem_V] have
    returned. The condition variable has no spurious wake-ups here. *)
Record system := System { sem : MYSEM; threads : list place; n_P : Z; n_V : Z }.

Inductive sem_step : system -> system -> Prop :=
  | step_P s ths p v t s' done : ths !! t = Some Outside -> mysem_P s = (s', done) ->
      sem_step (System s ths p v)
        (System s' (<[t := if done then Outside else Asleep]> ths) (if done then p + 1 else p) v)
  | step_resume s ths p v t s' done : ths !! t = Some Woken -> P_resume s = (s', done) ->
      sem_step (System s ths p v)
        (System s' (<[t := if done then Outside else Asleep]> ths) (if done then p + 1 else p) v)
  | step_V_quiet s ths p v s' sig : mysem_V s = (s', sig) ->
      (sig = true -> Forall (fun th => asleep th = false) ths) ->
      sem_step (System s ths p v) (System s' ths p (v + 1))
  | step_V_wakes s ths p v s' t : mysem_V s = (s', true) -> ths !! t = Some Asleep ->
      sem_step (System s ths p v) (System s' (<[t := Woken]> ths) p (v + 1)).

Definition sem_started (n : Z) (s : system) : Prop :=
  exists s0 k, mysem_init true true n = (0, Some s0) /\ s = System s0 (replicate k Outside) 0 0.
Definition sem_reachable (n : Z) (s : system) : Prop := exists s0, sem_started n s0 /\ rtc sem_step s0 s.

(** The counters count the threads, and no unit is created or lost. *)
Record sem_inv (n : Z) (s : system) : Prop := SemInv {
  si_waiters : waiters (sem s) = Z.of_nat (count_if asleep (threads s));
  si_pendings : pendings (sem s) = Z.of_nat (count_if woken (threads s));
  si_value : 0 <= value (sem s);
  si_units : value (sem s) + n_P s = n + n_V s
}.

Ltac sem_counts ths t th' Ht :=
  pose proof (count_if_insert asleep ths t _ th' Ht);
  pose proof (count_if_insert woken ths t _ th' Ht).

Lemma P_test_inv s s' r : P_test s = (s', r) ->
  pendings s' = pendings s /\
  (r = false /\ value s <= 0 /\ value s' = value s /\ waiters s' = waiters s + 1 \/
   r = true /\ 0 < value s /\ value s' = value s - 1 /\ waiters s' = waiters s).
Proof.
  unfold P_test. destruct (Z.leb_spec (value s) 0); intros [= <- <-]; cbn; (split; [done|]); [left|right]; done.
Qed.

Lemma sem_step_inv n s s' : sem_inv n s -> sem_step s s' -> sem_inv n s'.
Proof.
  intros [Hw Hp Hv Hu] Hs.
  destruct Hs as [s ths p v t s' r Ht E|s ths p v t s' r Ht E|s ths p v s' sig E Hsig|s ths p v s' t E Ht];
    cbn [sem threads n_P n_V] in *.
  - sem_counts ths t (if r then Outside else Asleep) Ht. unfold mysem_P in E.
    destruct (_ >? 0); [injection E as <- <-|apply P_test_inv in E as (Hp' & [(-> & ?)|(-> & ?)])];
      split; cbn [sem threads n_P n_V] in *; cbn in *; lia.
  - sem_counts ths t (if r then Outside else Asleep) Ht. unfold P_resume in E.
    apply P_test_inv in E as (Hp' & [(-> & ?)|(-> & ?)]);
      split; cbn [sem threads n_P n_V] in *; cbn in *; lia.
  - unfold mysem_V in E. cbn in E. destruct (Z.gtb_spec (waiters s) 0) as [Hgt|]; injection E as <- <-.
    + specialize (Hsig eq_refl). apply count_if_none in Hsig. lia.
    + split; cbn in *; lia.
  - sem_counts ths t Woken Ht. unfold mysem_V in E. cbn in E.
    destruct (Z.gtb_spec (waiters s) 0) as [Hgt|]; injection E as <-; split; cbn in *; lia.
Qed.

Lemma sem_reachable_inv n s : sem_reachable n s -> sem_inv n s.
Proof.
  intros (s0 & (s1 & k & E & ->) & Hs). unfold mysem_init in E. cbn in E.
  destruct (Z.ltb_spec n 0); [done|]. injection E as <-.
  assert (sem_inv n (System (mkSem 0 0 n) (replicate k Outside) 0 0)) as H0.
  { split; cbn; rewrite ?count_if_none by (by apply Forall_replicate); lia. }
  revert H0. induction Hs as [|s1 s2 s3 H12 _ IH]; [done|]. intros H0. by apply IH, (sem_step_inv n s1).
Qed.

(** ** Properties *)

(** Without spurious wake-ups the semaphore is safe: its value is never negative
    and is exactly the initial value plus the calls of [mysem_V] less the calls of
    [mysem_P] that have returned, so no more of them return than there were units;
    the two counters are the numbers of sleeping and of signalled threads. *)
Theorem sem_conserves_units n s :
  sem_reachable n s ->
  0 <= value (sem s) /\ value (sem s) = n + n_V s - n_P s /\ n_P s <= n + n_V s /\
  waiters (sem s) = Z.of_nat (count_if asleep (threads s)) /\
  pendings (sem s) = Z.of_nat (count_if woken (threads s)).
Proof. intros Hs. destruct (sem_reachable_inv _ _ Hs) as [Hw Hp Hv Hu]. split_and!; try done; lia. Qed.

(** The run that loses a wake-up: the first thread sleeps; two units come, the second
    without a signal because nobody is counted as waiting any more; a newcomer then
    queues behind the signalled thread, which takes one unit and goes. *)
Definition s1 : system := System (mkSem 1 0 0) [Asleep; Outside] 0 0.
Definition s2 : system := System (mkSem 0 1 1) [Woken; Outside] 0 1.
Definition s3 : system := System (mkSem 0 1 2) [Woken; Outside] 0 2.
Definition s4 : system := System (mkSem 1 1 2) [Woken; Asleep] 0 2.
Definition s5 : system := System (mkSem 1 0 1) [Outside; Asleep] 1 2.

Lemma lost_run : sem_reachable 0 s4 /\ sem_reachable 0 s5.
Proof.
  assert (sem_started 0 (System (mkSem 0 0 0) [Outside; Outside] 0 0)) as H0
    by (exists (mkSem 0 0 0), 2%nat; done).
  assert (rtc sem_step (System (mkSem 0 0 0) [Outside; Outside] 0 0) s4) as H4.
  { eapply rtc_l; [apply (step_P (mkSem 0 0 0) [Outside; Outside] 0 0 0 (mkSem 1 0 0) false); reflexivity|].
    eapply rtc_l; [apply (step_V_wakes (mkSem 1 0 0) [Asleep; Outside] 0 0 (mkSem 0 1 1) 0); reflexivity|].
    eapply rtc_l; [apply (step_V_quiet (mkSem 0 1 1) [Woken; Outside] 0 1 (mkSem 0 1 2) false); [reflexivity|done]|].
    eapply rtc_l; [apply (step_P (mkSem 0 1 2) [Woken; Outside] 0 2 1 (mkSem 1 1 2) false); reflexivity|].
    apply rtc_refl. }
  split; (eexists; split; [exact H0|]); [exact H4|].
  eapply rtc_r; [exact H4|].
  apply (step_resume (mkSem 1 1 2) [Woken; Asleep] 0 2 0 (mkSem 1 0 1) true); reflexivity.
Qed.

Lemma sem_conserves_units_witness :
  0 <= 2 /\ 2 = 0 + 2 - 0 /\ 0 <= 0 + 2 /\ 1 = Z.of_nat (count_if asleep [Woken; Asleep]) /\
  1 = Z.of_nat (count_if woken [Woken; Asleep]).
Proof. exact (sem_conserves_units 0 s4 (proj1 lost_run)). Defined.

(** A wake-up can be lost: a state is reachable in which a thread sleeps in
    [mysem_P] although the value is positive, no thread was signalled, and every
    other thread is outside: it sleeps until a further [mysem_V]. The call that made a
    unit available when [waiters] was 0 did not signal, and the newcomer waited
    because of [pendings], not because of [value]. *)
Theorem sem_loses_wakeup :
  exists s, sem_reachable 0 s /\ 0 < value (sem s) /\
    count_if asleep (threads s) = 1%nat /\ count_if woken (threads s) = O.
Proof. exists s5. split; [apply lost_run|]. done. Qed.
