(* ===== verification/SockConn.v ===== *)
(** Connections (net/netd/sock_conn.c): connecting with retries, listening, accepting, and
    the names and ports of the two ends. The system calls are a parameter, as are the
    resolver and the tables of the kernel that the queries read. *)
From S2P Require Import Prelude.

Open Scope Z_scope.

Definition SOCK_PORT_ANY : Z := 0.
Definition AF_INET : Z := 2.
Definition INADDR_ANY : Z := 0.

(** Network byte order on the little-endian target; the argument is a [short]. *)
Definition htons (x : Z) : Z := Z.lor (Z.shiftl (Z.land x 255) 8) (Z.land (Z.shiftr x 8) 255).
Definition ntohs (x : Z) : Z := htons x.

Record sockaddr_in := mkAddr { sin_family : Z; sin_port : Z; sin_addr : Z }.
(** The addresses, of four bytes each, up to the NULL that ends their list. *)
Record hostent := mkHost { h_name : list Z; h_addrtype : Z; h_addr_list : list Z }.

Inductive sysop :=
  | Socket | Setsockopt (fd : Z) | Bind (fd : Z) (sa : sockaddr_in) | Listen (fd backlog : Z)
  | Connect (fd : Z) (sa : sockaddr_in) | Accept (fd : Z) | Close (fd : Z) | Sleep (n : Z).

(** The open descriptors of the process, and the calls it has made. *)
Record net := mkNet { open_fds : gset Z; log : list sysop }.
#[export] Instance eta_net : Eta net := MkEta _ (fun r => mkNet (open_fds r) (log r)).

Definition open_after (o : sysop) (r : Z) (X : gset Z) : gset Z :=
  match o with
  | Socket | Accept _ => if 0 <=? r then {[r]} ∪ X else X
  | Close fd => X ∖ {[fd]}
  | _ => X
  end.

(** A new descriptor is one that is not open. *)
Definition os_fresh (os : net -> sysop -> Z) : Prop :=
  forall s o, match o with Socket | Accept _ => 0 <= os s o -> os s o ∉ open_fds s | _ => True end.

(** ** Queries *)

Section Queries.
Context (getsockname getpeername : net -> Z -> option sockaddr_in).
Context (inet_ntoa : Z -> list Z) (gethostbyaddr : Z -> option hostent).
Notation M := (M net).

Definition sock_myport (fd : Z) : M Z :=
  s ← get; mret (match getsockname s fd with Some sin => ntohs (sin_port sin) | None => -1 end).
Definition sock_peerport (fd : Z) : M Z :=
  s ← get; mret (match getpeername s fd with Some sin => ntohs (sin_port sin) | None => -1 end).
Definition sock_myip (fd : Z) : M (option (list Z)) :=
  s ← get; mret (match getsockname s fd with Some sin => Some (inet_ntoa (sin_addr sin)) | None => None end).
Definition sock_peerip (fd : Z) : M (option (list Z)) :=
  s ← get; mret (match getpeername s fd with Some sin => Some (inet_ntoa (sin_addr sin)) | None => None end).
Definition sock_peerhost (fd : Z) : M (option (list Z)) :=
  s ← get;
  mret (match getpeername s fd with
        | Some sin =>
            match gethostbyaddr (sin_addr sin) with
            | Some hent => Some (h_name hent)
            | None => Some (inet_ntoa (sin_addr sin))
            end
        | None => None
        end).
End Queries.

Section Calls.
Context (os : net -> sysop -> Z).
Context (gethostbyname : list Z -> option hostent) (gethostname : option (list Z)).
Notation M := (M net).

Definition sys (o : sysop) : M Z :=
  s ← get; let r := os s o in
  modify (fun s => s <| open_fds := open_after o r (open_fds s) |> <| log := log s ++ [o] |>);; mret r.

Definition sock_hostname : option (list Z) := gethostname.

Definition DOT : list Z := [46].

(** The name of this host is computed for a dot, and the dot is looked up. *)
Definition sock_gethostbyname (host : option (list Z)) : M (option hostent) :=
  match host with
  | None => mret None
  | Some host =>
      xhost ← (if decide (host = DOT) then h ← or_fault sock_hostname; mret (take 1023 h) else mret host);
      let _ := xhost in mret (gethostbyname host)
  end.

(** ** The client's side *)

(** Binds a new socket to the local address, if there is one; closes it on failure. *)
Definition bind_local (bound : option sockaddr_in) (fd : Z) : M bool :=
  match bound with
  | Some sin => r ← sys (Bind fd sin); if r <? 0 then sys (Close fd);; mret false else mret true
  | None => mret true
  end.

(** The loop [while (retry--)] for one address; [bound] is the local address to bind to.
    Returns [fd] and [connected]; nothing where the code returns -1 at once. *)
Fixpoint try_connect (bound : option sockaddr_in) (retry : nat) (serv : sockaddr_in) (fd : Z) : M (option (Z * bool)) :=
  match retry with
  | O => mret (Some (fd, false))
  | S retry' =>
      fd ← sys Socket;
      if fd <? 0 then sys (Sleep 1);; try_connect bound retry' serv fd
      else
        ok ← bind_local bound fd;
        if negb ok then mret None
        else
          sys (Setsockopt fd);;
          r ← sys (Connect fd serv);
          if r <? 0 then sys (Close fd);; sys (Sleep 1);; try_connect bound retry' serv (-1)
          else mret (Some (fd, true))
  end.

(** The loop over the addresses; -1 and false when it ends. *)
Fixpoint try_addresses (bound : option sockaddr_in) (addrs : list Z) (family port fd : Z) : M (option (Z * bool)) :=
  match addrs with
  | [] => mret (Some (fd, false))
  | a :: addrs' =>
      r ← try_connect bound 10 (mkAddr family (htons port) a) fd;
      match r with
      | Some (fd, false) => try_addresses bound addrs' family port fd
      | _ => mret r
      end
  end.

(** What follows the loops. *)
Definition conn_result (r : option (Z * bool)) : M Z :=
  match r with
  | Some (fd, true) => mret fd
  | Some (fd, false) => when (0 <=? fd) (sys (Close fd);; mret tt);; mret (-1)
  | None => mret (-1)
  end.

Definition sock_conn (host : option (list Z)) (port : Z) : M Z :=
  if port <=? 0 then mret (-1)
  else if port =? SOCK_PORT_ANY then mret (-1)
  else
    hp ← sock_gethostbyname host;
    match hp with
    | None => mret (-1)
    | Some hp => r ← try_addresses None (h_addr_list hp) (h_addrtype hp) port (-1); conn_result r
    end.

(** The local address; nothing where the code returns -1. *)
Definition bind_address (bind_host : option (list Z)) : M (option (option sockaddr_in)) :=
  match bind_host with
  | None => mret (Some None)
  | Some h =>
      if decide (h = DOT) then mret (Some None)
      else
        bhp ← sock_gethostbyname (Some h);
        match bhp with
        | None => mret None
        | Some bhp => a ← or_fault (h_addr_list bhp !! 0%nat); mret (Some (Some (mkAddr AF_INET (htons 0) a)))
        end
  end.

Definition sock_conn2 (host : option (list Z)) (port : Z) (bind_host : option (list Z)) : M Z :=
  if port <=? 0 then mret (-1)
  else if port =? SOCK_PORT_ANY then mret (-1)
  else
    b ← bind_address bind_host;
    match b with
    | None => mret (-1)
    | Some bound =>
        hp ← sock_gethostbyname host;
        match hp with
        | None => mret (-1)
        | Some hp => r ← try_addresses bound (h_addr_list hp) (h_addrtype hp) port (-1); conn_result r
        end
    end.

(** ** The server's side *)

Definition listen_port (port : Z) : Z := if port =? SOCK_PORT_ANY then htons 0 else htons port.

(** [bind] and [listen], with their failures. *)
Definition bind_listen (fd : Z) (sin : sockaddr_in) (backlog : Z) : M Z :=
  r ← sys (Bind fd sin);
  if r <? 0 then sys (Close fd);; mret (-1)
  else
    r ← sys (Listen fd backlog);
    if r <? 0 then sys (Close fd);; mret (-1) else mret fd.

Definition sock_listen (port backlog : Z) : M Z :=
  fd ← sys Socket;
  if fd =? -1 then mret (-1)
  else sys (Setsockopt fd);; bind_listen fd (mkAddr AF_INET (listen_port port) INADDR_ANY) backlog.

Definition sock_listen2 (port backlog : Z) (bind_host : option (list Z)) : M Z :=
  match bind_host with
  | None => mret (-1)
  | Some h =>
      fd ← sys Socket;
      if fd =? -1 then mret (-1)
      else
        sys (Setsockopt fd);;
        a ← (if decide (h = DOT) then mret (Some INADDR_ANY)
             else
               hp ← sock_gethostbyname (Some h);
               match hp with
               | None => sys (Close fd);; mret None
               | Some hp => a ← or_fault (h_addr_list hp !! 0%nat); mret (Some a)
               end);
        match a with
        | None => mret (-1)
        | Some a => bind_listen fd (mkAddr AF_INET (listen_port port) a) backlog
        end
  end.

Definition sock_accept (fd : Z) : M Z :=
  if fd <? 0 then mret (-1)
  else newfd ← sys (Accept fd); if newfd <? 0 then mret (-1) else mret newfd.


(** ** Descriptors *)

(** Calls that ask for a descriptor. *)
Definition is_socket (o : sysop) : bool := match o with Socket => true | _ => false end.
Definition sockets (ops : list sysop) : nat := count_if is_socket ops.

(** A call fails and leaves no descriptor open, or returns a new one that is open. *)
Definition accounts (s : net) (r : Z) (s' : net) : Prop :=
  r = -1 /\ open_fds s' = open_fds s \/
  0 <= r /\ r ∉ open_fds s /\ open_fds s' = {[r]} ∪ open_fds s.

Lemma sys_eq o s : sys o s = Ret (os s o) (mkNet (open_after o (os s o) (open_fds s)) (log s ++ [o])).
Proof. by destruct s. Qed.

Lemma sockets_app l k : sockets (l ++ k) = (sockets l + sockets k)%nat.
Proof. unfold sockets, count_if. by rewrite List.filter_app, length_app. Qed.

(** One step of a proof: the next system call. *)
Ltac next_call := rewrite (bind_Ret _ _ _ _ _ (sys_eq _ _)); cbn [open_after open_fds log].

Context (Hfresh : os_fresh os).

Lemma socket_fresh s : 0 <= os s Socket -> os s Socket ∉ open_fds s.
Proof. apply (Hfresh s Socket). Qed.

Lemma closed_again (fd : Z) (X : gset Z) : fd ∉ X -> ({[fd]} ∪ X) ∖ {[fd]} = X.
Proof. set_solver. Qed.

Lemma bind_local_spec bound fd s X : fd ∉ X -> open_fds s = {[fd]} ∪ X ->
  exists ok s' ops, bind_local bound fd s = Ret ok s' /\ log s' = log s ++ ops /\ sockets ops = 0%nat /\
    if (ok : bool) then open_fds s' = {[fd]} ∪ X else bound <> None /\ open_fds s' = X.
Proof.
  intros Hfd Ho. destruct bound as [sin|]; [|exists true, s, []; cbn; by rewrite app_nil_r].
  cbn [bind_local]. next_call. destruct (_ <? 0).
  - next_call. eexists false, _, [Bind fd sin; Close fd]. split; [reflexivity|]. cbn. split; [by rewrite <- app_assoc|].
    split; [done|]. split; [done|]. rewrite Ho. by apply closed_again.
  - eexists true, _, [Bind fd sin]. split; [reflexivity|]. done.
Qed.

(** What the attempts for one address come to. *)
Lemma try_connect_spec bound serv retry : forall fd s, fd < 0 ->
  exists r s' ops, try_connect bound retry serv fd s = Ret r s' /\ log s' = log s ++ ops /\
    match r with
    | Some (fd', true) => 0 <= fd' /\ fd' ∉ open_fds s /\ open_fds s' = {[fd']} ∪ open_fds s /\
        last ops = Some (Connect fd' serv) /\ (0 < sockets ops <= retry)%nat
    | Some (fd', false) => fd' < 0 /\ open_fds s' = open_fds s /\ sockets ops = retry
    | None => bound <> None /\ open_fds s' = open_fds s
    end.
Proof.
  induction retry as [|retry IH]; intros fd s Hfd.
  - exists (Some (fd, false)), s, []. cbn. rewrite app_nil_r. done.
  - cbn [try_connect]. next_call. set (fd1 := os s Socket) in *. pose proof (socket_fresh s) as Hnew. fold fd1 in Hnew.
    destruct (Z.ltb_spec fd1 0) as [Hneg|Hpos].
    + rewrite (proj2 (Z.leb_gt 0 fd1)) by done. next_call.
      match goal with |- context [try_connect _ _ _ _ ?s1] => destruct (IH fd1 s1 Hneg) as (r & s' & ops & E & Hlog & Hr) end.
      exists r, s', ([Socket; Sleep 1] ++ ops). split; [exact E|]. split; [rewrite Hlog; cbn; by rewrite <- !app_assoc|].
      destruct r as [[fd' []]|]; cbn [log open_fds] in *; rewrite ?sockets_app; change (sockets [Socket; Sleep 1]) with 1%nat.
      * destruct Hr as (? & ? & ? & Hlast & ? & ?). rewrite last_app, Hlast. split_and!; try done; lia.
      * destruct Hr as (? & ? & ->). split_and!; done.
      * done.
    + rewrite (proj2 (Z.leb_le 0 fd1)) by done. specialize (Hnew Hpos).
      destruct (bind_local_spec bound fd1 (mkNet ({[fd1]} ∪ open_fds s) (log s ++ [Socket])) (open_fds s) Hnew eq_refl)
        as (ok & s1 & ops1 & E1 & Hl & Hs1 & Hok). cbn [log] in Hl. rewrite <- app_assoc in Hl. cbn [app] in Hl.
      rewrite (bind_Ret _ _ _ _ _ E1). destruct ok; cbn [negb]; [|exists None, s1, (Socket :: ops1); done].
      next_call. next_call. rename Hok into Ho. destruct (_ <? 0).
      * next_call. next_call.
           match goal with |- context [try_connect _ _ _ _ ?s2] => destruct (IH (-1) s2 ltac:(lia)) as (r & s' & ops & E & Hlog & Hr) end.
           cbn [log open_fds] in *. rewrite Ho, closed_again in Hr by done.
           exists r, s', ((Socket :: ops1 ++ [Setsockopt fd1; Connect fd1 serv; Close fd1; Sleep 1]) ++ ops).
           split; [exact E|]. split; [rewrite Hlog, Hl; cbn; by rewrite <- !app_assoc|].
           assert (sockets (Socket :: ops1 ++ [Setsockopt fd1; Connect fd1 serv; Close fd1; Sleep 1]) = 1%nat) as Hk.
           { change (sockets ([Socket] ++ ops1 ++ [Setsockopt fd1; Connect fd1 serv; Close fd1; Sleep 1]) = 1%nat). rewrite !sockets_app, Hs1. done. }
           rewrite sockets_app, Hk. destruct r as [[fd' []]|].
           -- destruct Hr as (? & ? & ? & Hlast & ? & ?). rewrite last_app, Hlast. split_and!; try done; lia.
           -- destruct Hr as (? & ? & ->). done.
           -- done.
      * eexists _, _, (Socket :: ops1 ++ [Setsockopt fd1; Connect fd1 serv]). split; [reflexivity|]. cbn [log open_fds]. split; [rewrite Hl; cbn; by rewrite <- !app_assoc|].
           split; [done|]. split; [done|]. split; [done|]. split; [by rewrite app_comm_cons, last_app|].
           assert (sockets (Socket :: ops1 ++ [Setsockopt fd1; Connect fd1 serv]) = 1%nat) as ->; [|lia].
           change (sockets ([Socket] ++ ops1 ++ [Setsockopt fd1; Connect fd1 serv]) = 1%nat). rewrite !sockets_app, Hs1. done.
Qed.

Lemma try_addresses_spec bound family port addrs : forall fd s, fd < 0 ->
  exists r s' ops, try_addresses bound addrs family port fd s = Ret r s' /\ log s' = log s ++ ops /\
    match r with
    | Some (fd', true) => 0 <= fd' /\ fd' ∉ open_fds s /\ open_fds s' = {[fd']} ∪ open_fds s /\
        exists i a, addrs !! i = Some a /\ last ops = Some (Connect fd' (mkAddr family (htons port) a)) /\
          (10 * i < sockets ops <= 10 * (i + 1))%nat
    | Some (fd', false) => fd' < 0 /\ open_fds s' = open_fds s /\ sockets ops = (10 * length addrs)%nat
    | None => bound <> None /\ open_fds s' = open_fds s
    end.
Proof.
  induction addrs as [|a addrs IH]; intros fd s Hfd.
  - exists (Some (fd, false)), s, []. cbn. by rewrite app_nil_r.
  - cbn [try_addresses]. destruct (try_connect_spec bound (mkAddr family (htons port) a) 10 fd s Hfd) as (r & s1 & ops1 & E1 & Hl1 & H1).
    rewrite (bind_Ret _ _ _ _ _ E1). destruct r as [[fd1 []]|].
    + exists (Some (fd1, true)), s1, ops1. split; [done|]. split; [done|]. destruct H1 as (? & ? & ? & ? & ? & ?). split_and!; try done.
      exists 0%nat, a. split; [done|]. split; [done|]. lia.
    + destruct H1 as (Hneg & Ho1 & Hs1). destruct (IH fd1 s1 Hneg) as (r & s' & ops & E & Hl & H).
      exists r, s', (ops1 ++ ops). split; [exact E|]. split; [by rewrite Hl, Hl1, <- app_assoc|]. rewrite Ho1 in H. rewrite sockets_app, Hs1.
      destruct r as [[fd' []]|]; [|destruct H as (? & ? & ->); cbn [length]; split_and!; try done; lia|done].
      destruct H as (? & ? & ? & i & b & Hi & Hlast & ? & ?). split; [done|]. split; [done|]. split; [done|].
      exists (S i), b. rewrite last_app, Hlast. split; [done|]. split; [done|]. lia.
    + exists None, s1, ops1. done.
Qed.

(** The end of both functions that connect. *)
Lemma conn_result_spec bound family port addrs s :
  exists fd s' ops, (r ← try_addresses bound addrs family port (-1); conn_result r) s = Ret fd s' /\
    log s' = log s ++ ops /\ accounts s fd s' /\
    (fd = -1 -> bound = None -> sockets ops = (10 * length addrs)%nat) /\
    (0 <= fd -> exists i a, addrs !! i = Some a /\ last ops = Some (Connect fd (mkAddr family (htons port) a)) /\
       (10 * i < sockets ops <= 10 * (i + 1))%nat).
Proof.
  destruct (try_addresses_spec bound family port addrs (-1) s ltac:(lia)) as (r & s' & ops & E & Hl & H).
  rewrite (bind_Ret _ _ _ _ _ E). destruct r as [[fd []]|]; cbn [conn_result].
  - exists fd, s', ops. destruct H as (? & ? & ? & ?). split; [done|]. split; [done|]. split; [by right|]. split; [lia|done].
  - destruct H as (Hneg & Ho & Hs). rewrite (proj2 (Z.leb_gt 0 fd)) by done. exists (-1), s', ops.
    split; [done|]. split; [done|]. split; [by left|]. split; [done|lia].
  - exists (-1), s', ops. split; [done|]. split; [done|]. split; [left; by destruct H|]. split; [intros _ Hb; by destruct (proj1 H)|lia].
Qed.

(** What gethostbyname(3) and gethostname(2) document. *)
Definition resolver_ok : Prop :=
  gethostname <> None /\ forall h hp, gethostbyname h = Some hp -> h_addr_list hp <> [].

Lemma lookup_name host s : gethostname <> None ->
  sock_gethostbyname host s = Ret (match host with Some h => gethostbyname h | None => None end) s.
Proof.
  intros Hn. destruct host as [h|]; [|done]. unfold sock_gethostbyname, sock_hostname. destruct (decide (h = DOT)); [|done].
  destruct gethostname as [l|]; [done|by destruct Hn].
Qed.

Lemma lookup_any host s : gethostname <> None -> exists hp, sock_gethostbyname host s = Ret hp s.
Proof. intros Hn. eexists. by apply lookup_name. Qed.

Lemma first_address h hp s : resolver_ok -> gethostbyname h = Some hp ->
  exists a, or_fault (S:=net) (h_addr_list hp !! 0%nat) s = Ret a s.
Proof. intros [_ H] Hh. specialize (H h hp Hh). destruct (h_addr_list hp) as [|a l]; [done|]. by exists a. Qed.

Lemma bind_address_spec bind_host s : resolver_ok -> exists b, bind_address bind_host s = Ret b s.
Proof.
  intros Hr. destruct bind_host as [h|]; [|by eexists]. cbn [bind_address]. destruct (decide (h = DOT)); [by eexists|].
  rewrite (bind_Ret _ _ _ _ _ (lookup_name (Some h) s (proj1 Hr))). destruct (gethostbyname h) as [hp|] eqn:E; [|by eexists].
  destruct (first_address h hp s Hr E) as [a Ea]. rewrite (bind_Ret _ _ _ _ _ Ea). by eexists.
Qed.

Lemma bind_listen_spec fd sin backlog s X : 0 <= fd -> fd ∉ X -> open_fds s = {[fd]} ∪ X ->
  exists r s', bind_listen fd sin backlog s = Ret r s' /\ (r = -1 /\ open_fds s' = X \/ r = fd /\ open_fds s' = {[fd]} ∪ X).
Proof.
  intros Hpos Hfd Ho. unfold bind_listen. next_call. destruct (_ <? 0).
  - next_call. eexists _, _. split; [reflexivity|]. left. split; [done|]. cbn. rewrite Ho. by apply closed_again.
  - next_call. destruct (_ <? 0).
    + next_call. eexists _, _. split; [reflexivity|]. left. split; [done|]. cbn. rewrite Ho. by apply closed_again.
    + eexists _, _. split; [reflexivity|]. by right.
Qed.

(** Opening a socket to listen on. *)
Lemma listen_socket s : -1 <= os s Socket ->
  os s Socket = -1 /\ open_after Socket (os s Socket) (open_fds s) = open_fds s \/
  os s Socket <> -1 /\ 0 <= os s Socket /\ os s Socket ∉ open_fds s /\ open_after Socket (os s Socket) (open_fds s) = {[os s Socket]} ∪ open_fds s.
Proof.
  intros H. cbn. pose proof (socket_fresh s). destruct (Z.leb_spec 0 (os s Socket)); [right|left]; [split; [lia|auto]|split; [lia|done]].
Qed.

Lemma listen_accounts s r s' fd : 0 <= fd -> fd ∉ open_fds s ->
  r = -1 /\ open_fds s' = open_fds s \/ r = fd /\ open_fds s' = {[fd]} ∪ open_fds s -> accounts s r s'.
Proof. intros H0 Hfd [H|[-> H]]; [by left|by right]. Qed.

(** (C35) No descriptor is lost: connecting, listening and accepting return -1 with the
    descriptors as they were, or return one new descriptor, which is open, and have
    closed all others they opened; whatever calls fail, in whatever order, with or
    without a local address, and however often they try. The machine has a name
    (gethostname does not fail), a host the resolver finds has at least one address, and
    calls return -1 or a number that is not negative. *)
Theorem no_descriptor_leaks s host port backlog bind_host lfd
  (Hr : resolver_ok) (Hos : forall s o, -1 <= os s o) :
  (exists r s', sock_conn host port s = Ret r s' /\ accounts s r s') /\
  (exists r s', sock_conn2 host port bind_host s = Ret r s' /\ accounts s r s') /\
  (exists r s', sock_listen port backlog s = Ret r s' /\ accounts s r s') /\
  (exists r s', sock_listen2 port backlog bind_host s = Ret r s' /\ accounts s r s') /\
  (exists r s', sock_accept lfd s = Ret r s' /\ accounts s r s').
Proof.
  pose proof (proj1 Hr) as Hn.
  assert (Hsame : accounts s (-1) s) by (by left).
  split; [|split; [|split; [|split]]].
  - unfold sock_conn. destruct (_ <=? 0); [by eauto|]. destruct (_ =? _); [by eauto|].
    destruct (lookup_any host s Hn) as [hp Eh]. rewrite (bind_Ret _ _ _ _ _ Eh). destruct hp as [hp|]; [|by eauto].
    destruct (conn_result_spec None (h_addrtype hp) port (h_addr_list hp) s) as (r & s' & ? & E & _ & H & _). by eauto.
  - unfold sock_conn2. destruct (_ <=? 0); [by eauto|]. destruct (_ =? _); [by eauto|].
    destruct (bind_address_spec bind_host s Hr) as [b Eb]. rewrite (bind_Ret _ _ _ _ _ Eb). destruct b as [bound|]; [|by eauto].
    destruct (lookup_any host s Hn) as [hp Eh]. rewrite (bind_Ret _ _ _ _ _ Eh). destruct hp as [hp|]; [|by eauto].
    destruct (conn_result_spec bound (h_addrtype hp) port (h_addr_list hp) s) as (r & s' & ? & E & _ & H & _). by eauto.
  - unfold sock_listen. rewrite (bind_Ret _ _ _ _ _ (sys_eq _ _)).
    destruct (listen_socket s (Hos s Socket)) as [[E Ho]|(Hne & H0 & Hfd & Ho)]; rewrite Ho.
    + rewrite E, Z.eqb_refl. eexists _, _. split; [reflexivity|]. by left.
    + rewrite (proj2 (Z.eqb_neq _ _) Hne). next_call.
      match goal with |- context [bind_listen ?fd ?sin ?b ?s1] => destruct (bind_listen_spec fd sin b s1 (open_fds s) H0 Hfd eq_refl) as (r & s' & E & H) end.
      exists r, s'. split; [exact E|]. by eapply listen_accounts.
  - unfold sock_listen2. destruct bind_host as [h|]; [|by eauto]. rewrite (bind_Ret _ _ _ _ _ (sys_eq _ _)).
    destruct (listen_socket s (Hos s Socket)) as [[E Ho]|(Hne & H0 & Hfd & Ho)]; rewrite Ho.
    + rewrite E, Z.eqb_refl. eexists _, _. split; [reflexivity|]. by left.
    + rewrite (proj2 (Z.eqb_neq _ _) Hne). next_call. destruct (decide (h = DOT)) as [Hd|Hd].
      * rewrite bind_mret.
        match goal with |- context [bind_listen ?fd ?sin ?b ?s1] => destruct (bind_listen_spec fd sin b s1 (open_fds s) H0 Hfd eq_refl) as (r & s' & E & H) end.
        exists r, s'. split; [exact E|]. by eapply listen_accounts.
      * rewrite bind_assoc. rewrite (bind_Ret _ _ _ _ _ (lookup_name (Some h) _ Hn)). destruct (gethostbyname h) as [hp|] eqn:Eh.
        -- rewrite bind_assoc.
           match goal with |- context [(or_fault _ ≫= _) ?s1] => destruct (first_address h hp s1 Hr Eh) as [a Ea] end.
           rewrite (bind_Ret _ _ _ _ _ Ea), bind_mret.
           match goal with |- context [bind_listen ?fd ?sin ?b ?s1] => destruct (bind_listen_spec fd sin b s1 (open_fds s) H0 Hfd eq_refl) as (r & s' & E & H) end.
           exists r, s'. split; [exact E|]. by eapply listen_accounts.
        -- rewrite bind_assoc. next_call. eexists _, _. split; [reflexivity|]. left. split; [done|]. cbn. by apply closed_again.
  - unfold sock_accept. destruct (_ <? 0); [by eauto|]. rewrite (bind_Ret _ _ _ _ _ (sys_eq _ _)). cbn [open_after].
    destruct (Z.ltb_spec (os s (Accept lfd)) 0) as [Hneg|Hpos].
    + rewrite (proj2 (Z.leb_gt _ _) Hneg). eexists _, _. split; [reflexivity|]. by left.
    + rewrite (proj2 (Z.leb_le _ _) Hpos). eexists _, _. split; [reflexivity|]. right. split; [done|]. split; [|done].
      by apply (Hfresh s (Accept lfd)).
Qed.

(** Connecting gives up when it should: a call of [sock_conn] with a port and a name
    that is known tries the addresses in their order, each up to ten times; it returns
    -1 after exactly ten sockets for every address, or a descriptor whose last call was
    the connection to the address it was trying. *)
Theorem sock_conn_tries s h hp port (Hn : gethostname <> None) (Hport : 0 < port) (Hh : gethostbyname h = Some hp) :
  exists fd s' ops, sock_conn (Some h) port s = Ret fd s' /\ log s' = log s ++ ops /\
    (fd = -1 /\ sockets ops = (10 * length (h_addr_list hp))%nat \/
     exists i a, h_addr_list hp !! i = Some a /\
       last ops = Some (Connect fd (mkAddr (h_addrtype hp) (htons port) a)) /\
       (10 * i < sockets ops <= 10 * (i + 1))%nat).
Proof.
  unfold sock_conn. rewrite (proj2 (Z.leb_gt port 0)), (proj2 (Z.eqb_neq port SOCK_PORT_ANY)) by (unfold SOCK_PORT_ANY; lia).
  rewrite (bind_Ret _ _ _ _ _ (lookup_name (Some h) s Hn)), Hh.
  destruct (conn_result_spec None (h_addrtype hp) port (h_addr_list hp) s) as (fd & s' & ops & E & Hl & Ha & Hfail & Hok).
  exists fd, s', ops. split; [exact E|]. split; [done|]. destruct Ha as [[-> _]|[H0 _]]; [left; split; [done|by apply Hfail]|right; by apply Hok].
Qed.
End Calls.

(** ** Examples *)

(** A new descriptor is one more than the largest; the first eleven connections fail. *)
Definition largest (X : gset Z) : Z := foldr Z.max 0 (elements X).
Definition demo_os (s : net) (o : sysop) : Z :=
  match o with
  | Socket | Accept _ => largest (open_fds s) + 1
  | Connect _ _ => if (sockets (log s) <=? 11)%nat then -1 else 0
  | _ => 0
  end.
Definition demo_resolver (h : list Z) : option hostent := if decide (h = [104]) then Some (mkHost h AF_INET [10; 20; 30]) else None.
Definition demo_net : net := mkNet {[0; 1; 2]} [].

Lemma largest_le X x : x ∈ X -> x <= largest X.
Proof.
  intros Hx. apply elem_of_elements in Hx. unfold largest. induction (elements X) as [|y l IH]; [by apply not_elem_of_nil in Hx|].
  cbn. apply elem_of_cons in Hx as [->|Hx]; [lia|]. specialize (IH Hx). lia.
Qed.

Lemma largest_pos X : 0 <= largest X.
Proof. unfold largest. induction (elements X); cbn; lia. Qed.

Lemma demo_os_fresh : os_fresh demo_os.
Proof. intros s o. destruct o; try done; intros _ H%largest_le; cbn in *; lia. Qed.

Lemma no_descriptor_leaks_witness :
  exists r s', sock_conn demo_os demo_resolver (Some [46]) (Some [104]) 80 demo_net = Ret r s' /\ accounts demo_net r s'.
Proof.
  apply (no_descriptor_leaks demo_os demo_resolver (Some [46]) demo_os_fresh demo_net (Some [104]) 80 5 None 3).
  - split; [done|]. intros h hp H. unfold demo_resolver in H. case_decide; [by injection H as <-|done].
  - intros s o. pose proof (largest_pos (open_fds s)). destruct o; cbn; try destruct (_ <=? _)%nat; lia.
Defined.

(** The second address answers at the second attempt. *)
Lemma sock_conn_tries_witness :
  (exists s', sock_conn demo_os demo_resolver (Some [46]) (Some [104]) 80 demo_net = Ret 3 s') /\ exists fd s' ops, sock_conn demo_os demo_resolver (Some [46]) (Some [104]) 80 demo_net = Ret fd s' /\ log s' = log demo_net ++ ops /\ (fd = -1 /\ sockets ops = (10 * 3)%nat \/
     exists i a, [10; 20; 30] !! i = Some a /\ last ops = Some (Connect fd (mkAddr AF_INET (htons 80) a)) /\ (10 * i < sockets ops <= 10 * (i + 1))%nat).
Proof.
  split; [eexists; vm_compute; reflexivity|].
  apply (sock_conn_tries demo_os demo_resolver (Some [46]) demo_os_fresh demo_net [104] (mkHost [104] AF_INET [10; 20; 30]) 80); done.
Defined.
