(* ===== verification/SockSR.v ===== *)
(** Sending and receiving over a socket (net/netd/sock_sr.c): the loops that write and
    read a whole buffer in spite of interrupted and short system calls, and the
    reader of lines. The system calls are a parameter: [os k n] is what the [k]th
    call of the process returns when it asks for [n] bytes. *)
From S2P Require Import Prelude.

(** A system call fails because of a signal, fails for good, or transfers [m] bytes. *)
Inductive sysret := Eintr | Efail | Got (m : Z).

(** How many calls were made, what was written to the socket, and what the peer has
    written and was not read yet. *)
Record sock := mkSock { calls : nat; outgoing : list Z; incoming : list Z }.
#[export] Instance eta_sock : Eta sock := MkEta _ (fun r => mkSock (calls r) (outgoing r) (incoming r)).

Definition MAX_RETRY : Z := 100.

(** What write(2) and recv(2) document: no more than was asked for, and nothing that
    the peer has not sent. *)
Definition os_spec (os : nat -> Z -> sysret) : Prop :=
  forall k n m, 0 <= n -> os k n = Got m -> 0 <= m <= n.

Section Calls.
Context (os : nat -> Z -> sysret).
Notation M := (M sock).

Definition sys_call (n : Z) : M sysret :=
  s ← get; modify (fun s => s <| calls := S (calls s) |>);; mret (os (calls s) n).
Definition sys_write (buf : list Z) : M sysret :=
  r ← sys_call (Z.of_nat (length buf));
  match r with
  | Got m => modify (fun s => s <| outgoing := outgoing s ++ take (Z.to_nat m) buf |>);; mret r
  | _ => mret r
  end.
(** The bytes are taken from what is waiting; when the peer has closed there is
    nothing and the call returns 0. *)
Definition sys_read (n : Z) : M (sysret * list Z) :=
  s ← get;
  r ← sys_call n;
  match r with
  | Got m =>
      let m := Z.min m (Z.of_nat (length (incoming s))) in
      modify (fun s => s <| incoming := drop (Z.to_nat m) (incoming s) |>);;
      mret (Got m, take (Z.to_nat m) (incoming s))
  | _ => mret (r, [])
  end.

(** ** Writing *)

(** [while (n<len)] of [sock_write]. *)
Fixpoint write_loop (fuel : nat) (data : list Z) (n len retry : Z) : M Z :=
  match fuel with
  | O => stuck
  | S fuel' =>
      if n <? len then
        r ← sys_write (take (Z.to_nat (len - n)) (drop (Z.to_nat n) data));
        match r with
        | Efail => mret (-1)
        | Eintr =>
            if retry + 1 >=? MAX_RETRY then mret (-1) else write_loop fuel' data n len (retry + 1)
        | Got m =>
            if m =? 0 then
              if retry + 1 >=? MAX_RETRY then mret (-1) else write_loop fuel' data n len (retry + 1)
            else write_loop fuel' data (n + m) len retry
        end
      else mret 0
  end.
Definition loop_fuel (len : Z) : nat := S (Z.to_nat (len + MAX_RETRY)).
Definition sock_write (data : list Z) (len : Z) : M Z := write_loop (loop_fuel len) data 0 len 0.

(** The vectors after [m] bytes of them were written, and the bytes that belong to
    none of them. *)
Fixpoint adjust_iov (iov : list (list Z)) (m : Z) : list (list Z) * Z :=
  match iov with
  | [] => ([], m)
  | v :: iov' =>
      let t := Z.min m (Z.of_nat (length v)) in
      let v' := drop (Z.to_nat t) v in
      if m - t =? 0 then (v' :: iov', 0)
      else let '(iov'', m') := adjust_iov iov' (m - t) in (v' :: iov'', m')
  end.
(** [for (i=0; i<count; i++) if (iov[i].iov_len>0) break; iov+=i; count-=i;] *)
Fixpoint skip_empty (iov : list (list Z)) : list (list Z) :=
  match iov with
  | [] => []
  | v :: iov' => if (0 <? Z.of_nat (length v)) then iov else skip_empty iov'
  end.

Definition iov_len (iov : list (list Z)) : Z := Z.of_nat (length (concat iov)).

Fixpoint writev_loop (fuel : nat) (iov : list (list Z)) (n len retry : Z) : M Z :=
  match fuel with
  | O => stuck
  | S fuel' =>
      if n <? len then
        r ← sys_write (concat iov);
        match r with
        | Efail => mret (-1)
        | Eintr =>
            if retry + 1 >=? MAX_RETRY then mret (-1) else writev_loop fuel' iov n len (retry + 1)
        | Got m =>
            if m =? 0 then
              if retry + 1 >=? MAX_RETRY then mret (-1) else writev_loop fuel' iov n len (retry + 1)
            else
              let '(iov', m') := adjust_iov iov m in
              if negb (m' =? 0) then mret (-1)
              else writev_loop fuel' (skip_empty iov') (n + m) len retry
        end
      else mret 0
  end.
Definition sock_writev (iov : list (list Z)) : M Z :=
  writev_loop (loop_fuel (iov_len iov)) iov 0 (iov_len iov) 0.

(** ** Reading *)

(** The result code and the bytes stored in the buffer. *)
Fixpoint read_loop (fuel : nat) (data : list Z) (n len retry : Z) : M (Z * list Z) :=
  match fuel with
  | O => stuck
  | S fuel' =>
      if n <? len then
        r ← sys_read (len - n);
        match r with
        | (Efail, _) => mret (-1, data)
        | (Eintr, _) =>
            if retry + 1 >=? MAX_RETRY then mret (-1, data) else read_loop fuel' data n len (retry + 1)
        | (Got m, bs) =>
            if m =? 0 then
              if retry + 1 >=? MAX_RETRY then mret (-1, data) else read_loop fuel' data n len (retry + 1)
            else read_loop fuel' (data ++ bs) (n + m) len retry
        end
      else mret (0, data)
  end.
Definition sock_read (len : Z) : M (Z * list Z) := read_loop (loop_fuel len) [] 0 len 0.

(** Reads until the peer closes; the result is the number of bytes. *)
Fixpoint till_close_loop (fuel : nat) (data : list Z) (n len retry : Z) : M (Z * list Z) :=
  match fuel with
  | O => stuck
  | S fuel' =>
      if n <? len then
        r ← sys_read (len - n);
        match r with
        | (Efail, _) => mret (n, data)
        | (Eintr, _) =>
            if retry + 1 >=? MAX_RETRY then mret (n, data) else till_close_loop fuel' data n len (retry + 1)
        | (Got m, bs) =>
            if m =? 0 then mret (n, data)
            else till_close_loop fuel' (data ++ bs) (n + m) len retry
        end
      else mret (n, data)
  end.
Definition sock_read_till_close (len : Z) : M (Z * list Z) := till_close_loop (loop_fuel len) [] 0 len 0.

Definition sock_readmax (len : Z) : M (Z * list Z) :=
  r ← sys_read len;
  match r with
  | (Got m, bs) => mret (m, bs)
  | (_, _) => mret (-1, [])
  end.

(** *** Polling: [ret] and [revents] are what poll(2) gives back for the descriptor *)

Definition POLLIN : Z := 0x1.
Definition POLLOUT : Z := 0x4.
(** On the systems that have them; 0 elsewhere. *)
Definition POLLRDNORM : Z := 0.
Definition POLLWRNORM : Z := 0.

Definition sock_canread (ret revents : Z) : Z :=
  if ret =? -1 then -1
  else if ret =? 0 then 0
  else if negb (Z.land revents (Z.lor POLLIN POLLRDNORM) =? 0) then 1 else -1.
Definition sock_canwrite (ret revents : Z) : Z :=
  if ret =? -1 then -1
  else if ret =? 0 then 0
  else if negb (Z.land revents (Z.lor POLLOUT POLLWRNORM) =? 0) then 1 else -1.

(** *** Lines *)

Definition newline : Z := 10.

(** The [for] loop of [sock_gets] over the buffer: [k] places are left before the
    last one, [idx] is the current place. An interrupted read goes on with the next
    place. *)
Fixpoint gets_loop (k : nat) (buf : list Z) (idx : nat) (retry : Z) : M (list Z) :=
  match k with
  | O => mret buf
  | S k' =>
      r ← sys_read 1;
      match r with
      | (Efail, _) => mret (<[idx := 0]> buf)
      | (Eintr, _) =>
          if retry + 1 >=? MAX_RETRY then mret (<[idx := 0]> buf)
          else gets_loop k' buf (S idx) (retry + 1)
      | (Got m, bs) =>
          match bs with
          | [] => mret (<[idx := 0]> buf)
          | b :: _ =>
              let buf := <[idx := b]> buf in
              if b =? newline then mret (<[S idx := 0]> buf)
              else gets_loop k' buf (S idx) retry
          end
      end
  end.

(** [buf] is the caller's buffer, all of its places; the result is its new contents,
    or none for NULL. *)
Definition sock_gets (buf : list Z) : M (option (list Z)) :=
  match buf with
  | [] => fault
  | _ =>
      let buf := <[(length buf - 1)%nat := 0]> (<[0%nat := 0]> buf) in
      buf ← gets_loop (length buf - 1) buf 0 0;
      mret (if default 0 (head buf) =? 0 then None else Some buf)
  end.

End Calls.
