(* ===== verification/SockProps.v ===== *)
(** Theorems on net/netd/sock_sr.c: what the loops of its calls transfer, and that they end. *)
From S2P Require Import Prelude SockSR.

(** ** The loops *)

Section Loops.
Context (os : nat -> Z -> sysret) (HO : os_spec os).

(** What a call of write(2) does to the socket. *)
Lemma sys_write_spec buf s :
  exists s', calls s' = S (calls s) /\ incoming s' = incoming s /\
    sys_write os buf s = Ret (os (calls s) (Z.of_nat (length buf))) s' /\
    outgoing s' = outgoing s ++ match os (calls s) (Z.of_nat (length buf)) with
                                | Got m => take (Z.to_nat m) buf | _ => [] end.
Proof.
  unfold sys_write, sys_call. mrun. cbn.
  destruct (os (calls s) (Z.of_nat (length buf))) as [| |m] eqn:E;
    (eexists; split; [|split; [|split; [reflexivity|]]]; cbn; by rewrite ?app_nil_r).
Qed.

Lemma take_drop_add {A} (l : list A) (n m k : Z) :
  0 <= n -> 0 <= m -> m <= k ->
  take (Z.to_nat m) (take (Z.to_nat k) (drop (Z.to_nat n) l)) ++
    take (Z.to_nat (k - m)) (drop (Z.to_nat (n + m)) l) = take (Z.to_nat k) (drop (Z.to_nat n) l).
Proof.
  intros. rewrite take_take, Nat.min_l by lia.
  replace (drop (Z.to_nat (n + m)) l) with (drop (Z.to_nat m) (drop (Z.to_nat n) l))
    by (rewrite drop_drop; f_equal; lia).
  rewrite take_take_drop. f_equal. lia.
Qed.

Lemma write_loop_spec fuel data n len retry s :
  0 <= n <= len -> len <= Z.of_nat (length data) -> 0 <= retry < MAX_RETRY ->
  (len - n) + (MAX_RETRY - retry) < Z.of_nat fuel ->
  exists r s' n', write_loop os fuel data n len retry s = Ret r s' /\ n <= n' <= len /\
    outgoing s' = outgoing s ++ take (Z.to_nat (n' - n)) (drop (Z.to_nat n) data) /\
    incoming s' = incoming s /\
    Z.of_nat (calls s') <= Z.of_nat (calls s) + (len - n) + (MAX_RETRY - retry) /\
    (r = 0 /\ n' = len \/ r = -1 /\ n' < len).
Proof.
  revert n retry s. induction fuel as [|fuel IH]; intros n retry s Hn Hlen Hr Hf; [lia|].
  cbn [write_loop]. destruct (n <? len) eqn:En; [apply Z.ltb_lt in En|apply Z.ltb_ge in En].
  2: { exists 0, s, n. rewrite Z.sub_diag. cbn. rewrite take_0, app_nil_r. unfold MAX_RETRY in *. split_and!; try done; lia. }
  destruct (sys_write_spec (take (Z.to_nat (len - n)) (drop (Z.to_nat n) data)) s)
    as (s1 & Hc1 & Hi1 & E1 & Ho1).
  rewrite (bind_Ret _ _ _ _ _ E1). rewrite length_take, length_drop in *.
  replace (Z.of_nat (_ `min` _)%nat) with (len - n) in * by lia.
  (* a try that moved nothing *)
  assert (outgoing s1 = outgoing s -> exists r s' n',
    (if retry + 1 >=? MAX_RETRY then mret (-1) else write_loop os fuel data n len (retry + 1)) s1 = Ret r s' /\
    n <= n' <= len /\
    outgoing s' = outgoing s ++ take (Z.to_nat (n' - n)) (drop (Z.to_nat n) data) /\ incoming s' = incoming s /\
    Z.of_nat (calls s') <= Z.of_nat (calls s) + (len - n) + (MAX_RETRY - retry) /\
    (r = 0 /\ n' = len \/ r = -1 /\ n' < len)) as Hretry.
  { intros Hsame. unfold MAX_RETRY in *. destruct (retry + 1 >=? 100) eqn:Er.
    - exists (-1), s1, n. rewrite Z.sub_diag. cbn. rewrite take_0, app_nil_r. split_and!; try done; lia.
    - rewrite Z.geb_leb, Z.leb_gt in Er.
      destruct (IH n (retry + 1) s1) as (r & s' & n' & E & ? & Ho & Hi & Hc' & Hres); try lia.
      exists r, s', n'. rewrite Ho, Hi, Hsame, Hi1. split_and!; try done; lia. }
  destruct (os (calls s) (len - n)) as [| |m] eqn:Eos.
  - rewrite app_nil_r in Ho1. by apply Hretry.
  - exists (-1), s1, n. rewrite Z.sub_diag. cbn. rewrite take_0. unfold MAX_RETRY in *.
    split_and!; try done; lia.
  - apply HO in Eos; [|lia]. destruct (m =? 0) eqn:Em.
    + apply Z.eqb_eq in Em as ->. rewrite take_0, app_nil_r in Ho1. by apply Hretry.
    + apply Z.eqb_neq in Em.
      destruct (IH (n + m) retry s1) as (r & s' & n' & E & ? & Ho & Hi & Hc' & Hres); try lia.
      exists r, s', n'. rewrite E, Ho, Hi, Ho1, Hi1. split_and!; try done; try lia.
      rewrite <- app_assoc. f_equal.
      rewrite take_take, Nat.min_l by lia.
      replace (n' - (n + m)) with ((n' - n) - m) by lia.
      rewrite <- (take_drop_add data n m (n' - n)) by lia.
      by rewrite take_take, Nat.min_l by lia.
Qed.

Lemma adjust_iov_spec iov m :
  0 <= m <= iov_len iov ->
  snd (adjust_iov iov m) = 0 /\ concat (fst (adjust_iov iov m)) = drop (Z.to_nat m) (concat iov).
Proof.
  unfold iov_len. revert m. induction iov as [|v iov IH]; intros m Hm; cbn in *.
  - assert (m = 0) as -> by lia. done.
  - rewrite length_app in Hm. set (t := Z.min m (Z.of_nat (length v))).
    destruct (m - t =? 0) eqn:E; [apply Z.eqb_eq in E|apply Z.eqb_neq in E]; cbn.
    + split; [done|]. rewrite drop_app. replace (Z.to_nat t) with (Z.to_nat m) by lia.
      replace (Z.to_nat m - length v)%nat with O by lia. by rewrite drop_0.
    + destruct (IH (m - t)) as [H1 H2]; [lia|]. destruct (adjust_iov iov (m - t)) as [iov' m'].
      cbn in *. split; [done|]. rewrite H2, drop_app, (drop_ge v), (drop_ge v) by lia. cbn. f_equal. lia.
Qed.

Lemma concat_skip_empty iov : concat (skip_empty iov) = concat iov.
Proof.
  induction iov as [|v iov IH]; [done|]. cbn. destruct (0 <? _) eqn:E; [done|].
  apply Z.ltb_ge in E. destruct v; [done|cbn in E; lia].
Qed.

Lemma writev_loop_eq fuel data iov n len retry s :
  0 <= n <= len -> len = Z.of_nat (length data) -> concat iov = drop (Z.to_nat n) data ->
  writev_loop os fuel iov n len retry s = write_loop os fuel data n len retry s.
Proof.
  intros Hn Hlen Hd. revert iov n retry s Hn Hd. induction fuel as [|fuel IH]; intros iov n retry s Hn Hd; [done|].
  cbn [writev_loop write_loop]. destruct (n <? len); [|done].
  rewrite (take_ge (drop _ _)) by (rewrite length_drop; lia). rewrite Hd.
  destruct (sys_write_spec (drop (Z.to_nat n) data) s) as (s1 & _ & _ & E1 & _).
  rewrite !(bind_Ret _ _ _ _ _ E1). rewrite length_drop in *.
  destruct (os _ _) as [| |m] eqn:Eos; [|done|].
  - destruct (_ >=? _); [done|]. by apply IH.
  - apply HO in Eos; [|lia]. destruct (m =? 0) eqn:Em; [destruct (_ >=? _); [done|]; by apply IH|].
    destruct (adjust_iov_spec iov m) as [H1 H2].
    { unfold iov_len. rewrite Hd, length_drop. lia. }
    destruct (adjust_iov iov m) as [iov' m']. cbn in H1, H2. subst m'. cbn.
    apply IH; [lia|]. rewrite concat_skip_empty, H2, Hd, drop_drop. f_equal. lia.
Qed.

(** What a call of recv(2) does: the bytes returned are the next ones. *)
Lemma sys_read_spec n s :
  0 <= n ->
  exists r s', sys_read os n s = Ret (r, take (length (incoming s) - length (incoming s')) (incoming s)) s' /\
    calls s' = S (calls s) /\ outgoing s' = outgoing s /\
    incoming s' = drop (length (incoming s) - length (incoming s')) (incoming s) /\
    match r with
    | Got m => 0 <= m <= n /\ Z.of_nat (length (incoming s')) = Z.of_nat (length (incoming s)) - m
    | _ => incoming s' = incoming s
    end.
Proof.
  intros Hn. unfold sys_read, sys_call. mrun. cbn.
  destruct (os (calls s) n) as [| |m] eqn:E; cbn.
  1,2: eexists _, (s <| calls := S (calls s) |>); cbn; rewrite Nat.sub_diag; split_and!; reflexivity.
  apply HO in E; [|done]. set (k := Z.min _ _).
  assert ((length (incoming s) - length (drop (Z.to_nat k) (incoming s)))%nat = Z.to_nat k) as Hk
    by (rewrite length_drop; lia).
  eexists _, (s <| calls := S (calls s) |> <| incoming := drop (Z.to_nat k) (incoming s) |>).
  cbn. rewrite Hk. split_and!; try done; rewrite ?length_drop; lia.
Qed.

Lemma read_loop_spec fuel data n len retry s :
  0 <= n <= len -> 0 <= retry < MAX_RETRY -> (len - n) + (MAX_RETRY - retry) < Z.of_nat fuel ->
  exists r bs s', read_loop os fuel data n len retry s = Ret (r, data ++ bs) s' /\
    incoming s = bs ++ incoming s' /\ outgoing s' = outgoing s /\
    Z.of_nat (calls s') <= Z.of_nat (calls s) + (len - n) + (MAX_RETRY - retry) /\
    (r = 0 /\ Z.of_nat (length bs) = len - n \/ r = -1 /\ Z.of_nat (length bs) < len - n).
Proof.
  revert data n retry s. unfold MAX_RETRY. induction fuel as [|fuel IH]; intros data n retry s Hn Hr Hf; [lia|].
  cbn [read_loop]. destruct (n <? len) eqn:En; [apply Z.ltb_lt in En|apply Z.ltb_ge in En].
  2: { exists 0, [], s. rewrite app_nil_r. cbn. split_and!; try done; lia. }
  destruct (sys_read_spec (len - n) s) as (r & s1 & E1 & Hc1 & Ho1 & Hd & Hm); [lia|].
  rewrite (bind_Ret _ _ _ _ _ E1). set (b := (_ - _)%nat) in *.
  assert (incoming s = take b (incoming s) ++ incoming s1) as Hsplit.
  { rewrite Hd. by rewrite take_drop. }
  assert (incoming s1 = incoming s -> exists r bs s',
    (if retry + 1 >=? 100 then mret (-1, data) else read_loop os fuel data n len (retry + 1)) s1 =
      Ret (r, data ++ bs) s' /\
    incoming s = bs ++ incoming s' /\ outgoing s' = outgoing s /\
    Z.of_nat (calls s') <= Z.of_nat (calls s) + (len - n) + (100 - retry) /\
    (r = 0 /\ Z.of_nat (length bs) = len - n \/ r = -1 /\ Z.of_nat (length bs) < len - n)) as Hretry.
  { intros Hsame. destruct (retry + 1 >=? 100) eqn:Er.
    - exists (-1), [], s1. rewrite app_nil_r, Hsame. cbn. split_and!; try done; lia.
    - rewrite Z.geb_leb, Z.leb_gt in Er.
      destruct (IH data n (retry + 1) s1) as (r' & bs & s' & E & ? & Ho & Hc' & Hres); try lia.
      exists r', bs, s'. rewrite E, Ho, <- Hsame, Ho1. split_and!; try done; lia. }
  destruct r as [| |m].
  - by apply Hretry.
  - exists (-1), [], s1. rewrite app_nil_r, Hm. cbn. split_and!; try done; lia.
  - destruct Hm as [Hm Hlen]. destruct (m =? 0) eqn:Em.
    + apply Z.eqb_eq in Em as ->. apply Hretry. rewrite Hd. by replace b with O by lia.
    + apply Z.eqb_neq in Em.
      destruct (IH (data ++ take b (incoming s)) (n + m) retry s1) as (r' & bs & s' & E & Hi & Ho & Hc' & Hres); try lia.
      exists r', (take b (incoming s) ++ bs), s'. rewrite E, Ho, Ho1, <- app_assoc.
      assert (length (take b (incoming s)) = Z.to_nat m) as Hb by (rewrite length_take; lia).
      rewrite length_app, Hb. split_and!; [done| |done|lia|lia].
      rewrite <- app_assoc, <- Hi. exact Hsplit.
Qed.

Lemma insert_middle {A} (pre : list A) x y slots :
  <[length pre := y]> (pre ++ x :: slots) = pre ++ y :: slots.
Proof. rewrite <- (Nat.add_0_r (length pre)). by rewrite insert_app_r. Qed.

Lemma read_one s b rest :
  os (calls s) 1 = Got 1 -> incoming s = b :: rest ->
  sys_read os 1 s = Ret (Got 1, [b]) (s <| calls := S (calls s) |> <| incoming := rest |>).
Proof.
  intros E Hin. unfold sys_read, sys_call. mrun. rewrite E. cbn. rewrite Hin. cbn.
  by replace (Z.min 1 _) with 1 by lia.
Qed.

(** A line that fits is stored from the current place on, with a zero after it. *)
Lemma gets_loop_line k pre slots retry line rest s :
  (forall i, (calls s <= i)%nat -> os i 1 = Got 1) ->
  incoming s = line ++ newline :: rest -> newline ∉ line ->
  (length line < k)%nat -> (k < length slots)%nat ->
  exists s', gets_loop os k (pre ++ slots) (length pre) retry s =
      Ret (pre ++ line ++ newline :: 0 :: drop (length line + 2) slots) s' /\
    incoming s' = rest.
Proof.
  revert k pre slots s. induction line as [|b line IH]; intros k pre slots s Hos Hin Hnl Hk Hb.
  - destruct k as [|k]; [cbn in Hk; lia|]. destruct slots as [|x [|y slots]]; [cbn in Hb; lia..|].
    cbn [gets_loop]. rewrite (bind_Ret _ _ _ _ _ (read_one _ _ _ (Hos _ (Nat.le_refl _)) Hin)).
    cbv iota. rewrite Z.eqb_refl, insert_middle.
    replace (S (length pre)) with (length (pre ++ [newline])) by (rewrite length_app; cbn; lia).
    rewrite (cons_middle newline pre (y :: slots)), app_assoc, insert_middle, <- app_assoc.
    eexists. split; reflexivity.
  - destruct k as [|k]; [cbn in Hk; lia|]. destruct slots as [|x slots]; [cbn in Hb; lia|].
    cbn [gets_loop]. rewrite (bind_Ret _ _ _ _ _ (read_one _ _ _ (Hos _ (Nat.le_refl _)) Hin)).
    cbv iota. apply not_elem_of_cons in Hnl as [Hb0 Hnl].
    rewrite insert_middle, (proj2 (Z.eqb_neq b newline)) by congruence.
    rewrite (cons_middle b pre slots), app_assoc.
    replace (S (length pre)) with (length (pre ++ [b])) by (rewrite length_app; cbn; lia).
    set (s1 := s <| calls := _ |> <| incoming := _ |>).
    destruct (IH k (pre ++ [b]) slots s1) as (s' & E & Hs'); [|done|done|cbn in *; lia|cbn in *; lia|].
    { intros i Hi. apply Hos. cbn in Hi. lia. }
    exists s'. split; [|done]. rewrite E. by rewrite <- app_assoc.
Qed.

(** The fuel of the loops is enough. *)
Lemma sock_write_spec data len s :
  0 <= len <= Z.of_nat (length data) ->
  exists r s' n, sock_write os data len s = Ret r s' /\
    outgoing s' = outgoing s ++ take (Z.to_nat n) data /\
    Z.of_nat (calls s') <= Z.of_nat (calls s) + len + MAX_RETRY /\
    (r = 0 /\ n = len \/ r = -1 /\ 0 <= n < len).
Proof.
  intros Hlen.
  destruct (write_loop_spec (loop_fuel len) data 0 len 0 s) as (r & s' & n & E & Hn & Ho & _ & Hc & Hr);
    unfold loop_fuel, MAX_RETRY in *; try lia.
  exists r, s', n. rewrite Z.sub_0_r in Ho. split_and!; try done; lia.
Qed.

Lemma sock_read_spec len s :
  0 <= len ->
  exists r bs s', sock_read os len s = Ret (r, bs) s' /\ incoming s = bs ++ incoming s' /\
    Z.of_nat (calls s') <= Z.of_nat (calls s) + len + MAX_RETRY /\
    (r = 0 /\ Z.of_nat (length bs) = len \/ r = -1 /\ Z.of_nat (length bs) < len).
Proof.
  intros Hlen.
  destruct (read_loop_spec (loop_fuel len) [] 0 len 0 s) as (r & bs & s' & E & Hi & _ & Hc & Hr);
    unfold loop_fuel, MAX_RETRY in *; try lia.
  exists r, bs, s'. split_and!; try done; lia.
Qed.

End Loops.

(** ** The theorems *)

(** [sock_write] never hangs, whatever the system calls return: it writes the
    whole buffer and returns 0, or returns -1 after a proper prefix; no byte is
    skipped or written twice, and there are at most [len+100] system calls. *)
Theorem sock_write_all_or_prefix os data len s :
  os_spec os -> 0 <= len <= Z.of_nat (length data) ->
  exists r s' n, sock_write os data len s = Ret r s' /\
    outgoing s' = outgoing s ++ take (Z.to_nat n) data /\
    Z.of_nat (calls s') <= Z.of_nat (calls s) + len + MAX_RETRY /\
    (r = 0 /\ n = len \/ r = -1 /\ 0 <= n < len).
Proof. intros HO. by apply sock_write_spec. Qed.

(** A kernel that is interrupted at every third call and transfers two bytes at most. *)
Definition os_slow (k : nat) (n : Z) : sysret :=
  if (k mod 3 =? 1)%nat then Eintr else Got (Z.max 0 (Z.min n 2)).
Lemma os_slow_spec : os_spec os_slow.
Proof. intros k n m Hn. unfold os_slow. destruct (_ =? _)%nat; intros [= <-]; lia. Qed.
Definition sock0 (waiting : list Z) : sock := mkSock 0 [] waiting.

Lemma sock_write_all_or_prefix_witness :
  exists r s' n, sock_write os_slow [1; 2; 3; 4; 5] 5 (sock0 []) = Ret r s' /\
    outgoing s' = [] ++ take (Z.to_nat n) [1; 2; 3; 4; 5] /\
    Z.of_nat (calls s') <= 0 + 5 + MAX_RETRY /\ (r = 0 /\ n = 5 \/ r = -1 /\ 0 <= n < 5).
Proof. apply (sock_write_all_or_prefix os_slow [1; 2; 3; 4; 5] 5 (sock0 []) os_slow_spec). cbn. lia. Defined.

(** Gathering: [sock_writev] makes the same system calls as [sock_write] of the
    vectors' concatenation, with the same result and the same bytes on the wire,
    wherever the calls stop short, also in the middle of a vector or at an empty
    one; the branch for bytes that belong to no vector is never taken. *)
Theorem sock_writev_is_write os iov s :
  os_spec os -> sock_writev os iov s = sock_write os (concat iov) (iov_len iov) s.
Proof.
  intros HO. unfold sock_writev, sock_write. apply writev_loop_eq; [done|unfold iov_len; lia|done|done].
Qed.

Lemma sock_writev_is_write_witness :
  sock_writev os_slow [[1; 2; 3]; []; [4]; [5; 6; 7]] (sock0 []) =
  sock_write os_slow [1; 2; 3; 4; 5; 6; 7] 7 (sock0 []).
Proof. exact (sock_writev_is_write os_slow [[1; 2; 3]; []; [4]; [5; 6; 7]] (sock0 []) os_slow_spec). Defined.

Lemma take_app_exact {A} (l bs rest tail : list A) :
  l ++ rest = bs ++ tail -> length bs = length l -> bs = l /\ tail = rest.
Proof. intros H Hl. symmetry in H. by apply app_inj_1 in H. Qed.

(** (C20) Round trip over a connection: what one side wrote with [sock_write] and the
    other reads with [sock_read] of the same length arrives unchanged, and what
    follows stays to be read; a read that gives up has stored a prefix of it. *)
Theorem sock_transfer os1 os2 data s1 s1' s2 rest :
  os_spec os1 -> os_spec os2 ->
  let len := Z.of_nat (length data) in
  sock_write os1 data len s1 = Ret 0 s1' ->
  outgoing s1 ++ incoming s2 = outgoing s1' ++ rest ->
  exists r bs s2', sock_read os2 len s2 = Ret (r, bs) s2' /\
    (r = 0 /\ bs = data /\ incoming s2' = rest \/ r = -1 /\ exists n, bs = take n data).
Proof.
  intros HO1 HO2 len E1 Hwire.
  destruct (sock_write_spec os1 HO1 data len s1) as (r & s' & n & E & Ho & _ & Hr); [lia|].
  apply (fun H => Ret_inj _ _ _ _ (eq_trans (eq_sym E1) H)) in E as [<- <-].
  destruct Hr as [[_ ->]|[? _]]; [|done].
  rewrite Ho, take_ge, <- app_assoc in Hwire by lia. apply app_inv_head in Hwire.
  destruct (sock_read_spec os2 HO2 len s2) as (r & bs & s2' & E2 & Hi & _ & Hr2); [lia|].
  exists r, bs, s2'. split; [done|]. rewrite Hi in Hwire.
  destruct Hr2 as [[-> Hl]|[-> Hl]]; [left|right].
  - apply app_inj_1 in Hwire as [-> ->]; [done|lia].
  - split; [done|]. exists (length bs).
    apply (f_equal (take (length bs))) in Hwire.
    rewrite take_app_length, take_app_le in Hwire by lia. exact Hwire.
Qed.

Lemma sock_transfer_witness :
  let data := [1; 2; 3; 4; 5] in
  exists r bs s2', sock_read os_slow 5 (sock0 (data ++ [9])) = Ret (r, bs) s2' /\
    (r = 0 /\ bs = data /\ incoming s2' = [9] \/ r = -1 /\ exists n, bs = take n data).
Proof.
  apply (sock_transfer os_slow os_slow [1; 2; 3; 4; 5] (sock0 []) (mkSock 4 [1; 2; 3; 4; 5] [])
    (sock0 [1; 2; 3; 4; 5; 9]) [9] os_slow_spec os_slow_spec); reflexivity.
Defined.

(** [sock_gets] without interruptions: a line that fits in the buffer arrives with
    its newline and a zero after it, and what follows the line stays to be read. *)
Theorem sock_gets_line os buf line rest s :
  (forall i, (calls s <= i)%nat -> os i 1 = Got 1) ->
  incoming s = line ++ newline :: rest -> newline ∉ line -> head line <> Some 0 ->
  (length line + 2 <= length buf)%nat ->
  exists buf' s', sock_gets os buf s = Ret (Some buf') s' /\
    take (length line + 2) buf' = line ++ [newline; 0] /\ length buf' = length buf /\ incoming s' = rest.
Proof.
  intros Hos Hin Hnl H0 Hlen. unfold sock_gets. destruct buf as [|x buf]; [cbn in Hlen; lia|].
  set (b := <[_ := 0]> _). assert (length b = length (x :: buf)) as Hb by (unfold b; by rewrite !length_insert).
  destruct (gets_loop_line os (length b - 1) [] b 0 line rest s) as (s' & E & Hs');
    [done|done|done|lia|cbn in *; lia|].
  cbn [app] in E. change (length (@nil Z)) with 0%nat in E. rewrite (bind_Ret _ _ _ _ _ E).
  exists (line ++ newline :: 0 :: drop (length line + 2) b), s'. split; [|split; [|split; [|done]]].
  - destruct line as [|c line]; cbn; [reflexivity|]. cbn in H0.
    destruct (c =? 0) eqn:Ec; [apply Z.eqb_eq in Ec; congruence|done].
  - change (newline :: 0 :: drop (length line + 2) b) with ([newline; 0] ++ drop (length line + 2) b).
    rewrite app_assoc, take_app_le by (rewrite length_app; cbn; lia). apply take_ge. rewrite length_app. cbn. lia.
  - rewrite length_app. cbn. rewrite length_drop, Hb. cbn in *. lia.
Qed.

Lemma sock_gets_line_witness :
  exists buf' s', sock_gets (fun _ _ => Got 1) (replicate 8 7) (sock0 [72; 105; 10; 66]) = Ret (Some buf') s' /\
    take 4 buf' = [72; 105; 10; 0] /\ length buf' = 8%nat /\ incoming s' = [66].
Proof.
  apply (sock_gets_line (fun _ _ => Got 1) (replicate 8 7) [72; 105] [66] (sock0 [72; 105; 10; 66]));
    [done|done|set_solver|done|cbn; lia].
Defined.

(** A signal during the first read of [sock_gets] loses the line: the place the
    interrupted read was for is skipped and stays zero, so the caller gets NULL,
    as for a closed connection, although the whole line was consumed. *)
Theorem sock_gets_interrupted_loses_line os buf line rest s :
  os (calls s) 1 = Eintr -> (forall i, (calls s < i)%nat -> os i 1 = Got 1) ->
  incoming s = line ++ newline :: rest -> newline ∉ line ->
  (length line + 3 <= length buf)%nat ->
  exists s', sock_gets os buf s = Ret None s' /\ incoming s' = rest.
Proof.
  intros Hint Hos Hin Hnl Hlen. unfold sock_gets. destruct buf as [|x [|y buf]]; [cbn in Hlen; lia..|].
  set (b := <[_ := 0]> _). assert (length b = S (S (length buf))) as Hb by (unfold b; by rewrite !length_insert).
  rewrite Hb. replace (S (S (length buf)) - 1)%nat with (S (length buf)) by lia.
  assert (sys_read os 1 s = Ret (Eintr, []) (s <| calls := S (calls s) |>)) as Er.
  { unfold sys_read, sys_call. mrun. by rewrite Hint. }
  assert (exists c l, b = [0] ++ c :: l) as (c & l & Hbl).
  { unfold b. cbn. destruct buf; cbn; eauto. }
  destruct (gets_loop_line os (length buf) [0] (c :: l) 1 line rest (s <| calls := S (calls s) |>)) as (s' & E & Hs');
    [intros i Hi; apply Hos; cbn in Hi; lia|done|done|cbn in Hlen; lia| |].
  { rewrite Hbl in Hb. cbn in *. lia. }
  exists s'. split; [|done].
  rewrite <- Hbl in E. change (length [0]) with 1%nat in E. mrun. cbn [gets_loop]. mrun. rewrite Er.
  cbv iota beta. change (0 + 1 >=? MAX_RETRY) with false. cbv iota. change (0 + 1) with 1. rewrite E. done.
Qed.

Lemma sock_gets_interrupted_loses_line_witness :
  exists s', sock_gets (fun k _ => if (k =? 0)%nat then Eintr else Got 1) (replicate 8 7)
      (sock0 [72; 105; 10; 66]) = Ret None s' /\ incoming s' = [66].
Proof.
  apply (sock_gets_interrupted_loses_line (fun k _ => if (k =? 0)%nat then Eintr else Got 1)
    (replicate 8 7) [72; 105] [66] (sock0 [72; 105; 10; 66])); [done| |done|set_solver|cbn; lia].
  intros i Hi. cbn in Hi. by destruct i; [lia|].
Defined.
