(* ===== verification/Types.v ===== *)
(** The data of the run-time system: the constants of mpi/include/mpi_def.h,
    mpi/include/mpi_struct.h and mpi/include/tmpi_struct.h, the message handles,
    the inter-node messages, groups and communicators, and the size of data types. *)
From S2P Require Import Prelude.
From S2P Require Export MBuffer.

(** ** Constants *)

Definition MPI_ERR_RANK : Z := 6.
Definition MPI_ERR_COMM : Z := 5.
Definition MPI_ERR_GROUP : Z := 8.
Definition MPI_ERR_ARG : Z := 12.
Definition MPI_ERR_INTERN : Z := 16.
Definition MPI_ERR_REQUEST : Z := 19.
Definition MPI_ERR_PERM_GROUP : Z := 20.
Definition MPI_ERR_CANCEL : Z := 21.
Definition MPI_ERR_NRDY : Z := 22.

Definition MPI_IDENT : Z := 0.
Definition MPI_CONGRUENT : Z := 1.
Definition MPI_SIMILAR : Z := 2.
Definition MPI_UNEQUAL : Z := 3.
Definition MPI_UNDEFINED : Z := -32766.
Definition MPI_ANY_SOURCE : Z := -2.
Definition MPI_ANY_TAG : Z := -1.
Definition MPI_COMM_WORLD : Z := 1.
Definition MPI_COMM_NULL : Z := 0.
Definition MPI_REQUEST_NULL : Z := 0.
Definition MPI_GROUP_COOKIE : Z := 0x87ef54a0.
Definition MPI_COMM_COOKIE : Z := 0xbad2face.
Definition MPI_REQUEST_COOKIE : Z := 0xaddbcafe.

(** Send modes. *)
Definition STANDARD : Z := 1.
Definition READY : Z := 2.
Definition SYNC : Z := 4.
Definition BUFFERED : Z := 8.

(** Handle types. *)
Definition MPI_SEND : Z := 1.
Definition MPI_RECV : Z := 2.
Definition MPI_PERSISTENT_SEND : Z := 4.
Definition MPI_PERSISTENT_RECV : Z := 8.
Definition MPI_IMMEDIATE_SEND : Z := 16.
Definition MPI_IMMEDIATE_RECV : Z := 32.
Definition MPI_REMOTE_MSG_SEND : Z := 64.
Definition MPI_REMOTE_DAT_SEND : Z := 128.
Definition MPI_REMOTE_MSGDAT_SEND : Z := Z.lor MPI_REMOTE_MSG_SEND MPI_REMOTE_DAT_SEND.
Definition MPI_REMOTE_MSG_RECV : Z := 256.
Definition MPI_REMOTE_DAT_RECV : Z := 512.
Definition MPI_REMOTE_MSGDAT_RECV : Z := Z.lor MPI_REMOTE_MSG_RECV MPI_REMOTE_DAT_RECV.
Definition MPI_REMOTE_NRDY : Z := 1024.

(** Handle states. *)
Definition TMPI_CREATE : Z := 0x1.
Definition TMPI_PEND : Z := 0x2.
Definition TMPI_PEND_STRT : Z := TMPI_PEND.
Definition TMPI_WAIT : Z := 0x4.
Definition TMPI_PEND_WAIT : Z := Z.lor TMPI_PEND TMPI_WAIT.
Definition TMPI_RELS : Z := 0x8.
Definition TMPI_PEND_RELS : Z := Z.lor TMPI_PEND TMPI_RELS.
Definition TMPI_DATA : Z := 0x10.
Definition TMPI_PEND_DATA : Z := Z.lor TMPI_PEND TMPI_DATA.
Definition TMPI_PEND_DWAT : Z := Z.lor TMPI_PEND (Z.lor TMPI_DATA TMPI_WAIT).
Definition TMPI_NRDY : Z := 0x20.
Definition TMPI_PEND_NRDY : Z := Z.lor TMPI_PEND TMPI_NRDY.
Definition TMPI_MATCH : Z := 0x40.
Definition TMPI_CANCEL : Z := 0x80.
Definition TMPI_FREE : Z := 0x100.

(** [stat & mask] as a condition. *)
Definition has (stat mask : Z) : bool := negb (Z.land stat mask =? 0).

(** ** Handles *)

Record SHandle := mkSHandle {
  sh_type : Z;
  sh_cookie : Z;
  sh_stat : Z;
  sh_context : Z;
  sh_tag : Z;
  sh_src : Z;
  sh_dest : Z;
  sh_comm : Z;
  sh_count : Z;
  sh_curdata : Z;
  sh_buflen : Z;
  sh_send_mode : Z;
  sh_user_buf : Z;
  sh_errval : Z;
  sh_sys_buf : Z;
  sh_isRemote : bool;
  sh_lock : bool;
  sh_datatype : Z
}.
#[export] Instance eta_SHandle : Eta SHandle := MkEta _ (fun r =>
  mkSHandle (sh_type r) (sh_cookie r) (sh_stat r) (sh_context r) (sh_tag r) (sh_src r) (sh_dest r)
    (sh_comm r) (sh_count r) (sh_curdata r) (sh_buflen r) (sh_send_mode r) (sh_user_buf r)
    (sh_errval r) (sh_sys_buf r) (sh_isRemote r) (sh_lock r) (sh_datatype r)).

Record RHandle := mkRHandle {
  rh_type : Z;
  rh_cookie : Z;
  rh_stat : Z;
  rh_context : Z;
  rh_tag : Z;
  rh_src : Z;
  rh_dest : Z;
  rh_comm : Z;
  rh_count : Z;
  rh_data : Z;
  rh_buflen : Z;
  rh_errval : Z;
  rh_lock : bool;
  rh_datatype : Z;
  rh_perm_source : Z;
  rh_perm_tag : Z;
  rh_perm_len : Z
}.
#[export] Instance eta_RHandle : Eta RHandle := MkEta _ (fun r =>
  mkRHandle (rh_type r) (rh_cookie r) (rh_stat r) (rh_context r) (rh_tag r) (rh_src r) (rh_dest r)
    (rh_comm r) (rh_count r) (rh_data r) (rh_buflen r) (rh_errval r) (rh_lock r) (rh_datatype r)
    (rh_perm_source r) (rh_perm_tag r) (rh_perm_len r)).

Record RMSHandle := mkRMSHandle {
  rms_type : Z;
  rms_cookie : Z;
  rms_stat : Z;
  rms_context : Z;
  rms_tag : Z;
  rms_src : Z;
  rms_dest : Z;
  rms_comm : Z;
  rms_count : Z;
  rms_curdata : Z;
  rms_buflen : Z;
  rms_send_mode : Z;
  rms_remote_send_handle : Z;
  rms_errval : Z
}.
#[export] Instance eta_RMSHandle : Eta RMSHandle := MkEta _ (fun r =>
  mkRMSHandle (rms_type r) (rms_cookie r) (rms_stat r) (rms_context r) (rms_tag r) (rms_src r)
    (rms_dest r) (rms_comm r) (rms_count r) (rms_curdata r) (rms_buflen r) (rms_send_mode r)
    (rms_remote_send_handle r) (rms_errval r)).

Record RMRHandle := mkRMRHandle {
  rmr_type : Z; rmr_local_send_handle : Z; rmr_remote_recv_handle : Z; rmr_buflen : Z; rmr_errval : Z
}.
Record RDSHandle := mkRDSHandle {
  rds_type : Z; rds_remote_send_handle : Z; rds_local_recv_handle : Z; rds_buflen : Z; rds_errval : Z
}.
Record RDRHandle := mkRDRHandle {
  rdr_type : Z; rdr_local_send_handle : Z; rdr_buflen : Z; rdr_errval : Z
}.

(** [union tmpi_Handle], as far as the queues hold it. *)
Inductive handle :=
  | HS (s : SHandle)
  | HR (r : RHandle)
  | HM (m : RMSHandle).

(** The view of a handle the comparison functions have ([tmpi_Common]). *)
Record Common := mkCommon {
  c_type : Z; c_stat : Z; c_context : Z; c_tag : Z; c_src : Z; c_dest : Z
}.
Definition common (h : handle) : Common :=
  match h with
  | HS s => mkCommon (sh_type s) (sh_stat s) (sh_context s) (sh_tag s) (sh_src s) (sh_dest s)
  | HR r => mkCommon (rh_type r) (rh_stat r) (rh_context r) (rh_tag r) (rh_src r) (rh_dest r)
  | HM m => mkCommon (rms_type m) (rms_stat m) (rms_context m) (rms_tag m) (rms_src m) (rms_dest m)
  end.

(** The body of an inter-node message, and its first word. *)
Inductive msg_body :=
  | BRMS (h : RMSHandle)
  | BRDS (h : RDSHandle)
  | BRMR (h : RMRHandle)
  | BRDR (h : RDRHandle).
Definition body_type (b : msg_body) : Z :=
  match b with
  | BRMS h => rms_type h
  | BRDS h => rds_type h
  | BRMR h => rmr_type h
  | BRDR h => rdr_type h
  end.

Record MPI_Status := mkStatus {
  st_buflen : Z; MPI_SOURCE : Z; MPI_TAG : Z; MPI_ERROR : Z
}.

(** Sizes of the structures on the ILP32 target. *)
Definition sizeof_NETQ_HEADER : Z := 16.
Definition sizeof_RMSHandle : Z := 56.
Definition sizeof_SHandle : Z := 140.
Definition sizeof_RHandle : Z := 136.
Definition sizeof_MSG : Z := sizeof_NETQ_HEADER + sizeof_RMSHandle.

(** ** Data types (mpi/util/tmpi_util.c) *)

Definition MPI_CHAR : Z := 1.
Definition MPI_BYTE : Z := 3.
Definition MPI_SHORT : Z := 4.
Definition MPI_INT : Z := 6.
Definition MPI_LONG : Z := 8.
Definition MPI_UNSIGNED_LONG : Z := 9.
Definition MPI_FLOAT : Z := 10.
Definition MPI_DOUBLE : Z := 11.
Definition MPI_LONG_DOUBLE : Z := 12.
Definition MPI_LOGICAL : Z := 25.
Definition MPI_DOUBLE_PRECISION : Z := 27.
Definition MPI_INTEGER : Z := 28.

Definition tmpi_Usize (unit : Z) : Z :=
  if unit =? MPI_BYTE then 1
  else if unit =? MPI_CHAR then 1
  else if unit =? MPI_SHORT then 2
  else if unit =? MPI_INT then 4
  else if unit =? MPI_LONG then 4
  else if unit =? MPI_UNSIGNED_LONG then 4
  else if unit =? MPI_FLOAT then 4
  else if unit =? MPI_DOUBLE then 8
  else if unit =? MPI_LONG_DOUBLE then 12
  else if unit =? MPI_DOUBLE_PRECISION then 8
  else if unit =? MPI_INTEGER then 4
  else if unit =? MPI_LOGICAL then 4
  else 4.

(** The result and, on success, what is stored through [count]. *)
Definition tmpi_Get_count (status : option MPI_Status) (datatype : Z) : Z * option Z :=
  match status with
  | None => (MPI_ERR_ARG, None)
  | Some st =>
      if negb (cmod (st_buflen st) (tmpi_Usize datatype) =? 0) then (MPI_ERR_ARG, None)
      else (MPI_SUCCESS, Some (cdiv (st_buflen st) (tmpi_Usize datatype)))
  end.

Lemma tmpi_Usize_pos unit : 0 < tmpi_Usize unit.
Proof. unfold tmpi_Usize. repeat (destruct (unit =? _); [lia|]). lia. Qed.
