(* ===== verification/RdcOp.v ===== *)
(** The reduction operators of intra/rdc_op.c and their table in intra/reduce.c.
    Several threads reduce their arrays into one shared array at once; an element is
    updated by a compare-and-swap loop, or by a locked addition. *)
From stdpp Require Import relations.
From S2P Require Import Prelude Types.

Open Scope Z_scope.

(** ** The operators *)

(** What one iteration of the [do]-loop does with the value read ([tmp1]) and the
    thread's own ([tmp2]): leave it ([skip]), or try to store [upd]. [locked] is the
    single instruction of [aadd32] in place of the loop. *)
Record rdc_op (A : Type) := RdcOp { skip : A -> A -> bool; newval : A -> A -> A; locked : bool }.
Arguments RdcOp {A} _ _ _.
Arguments skip {A} _ _ _.
Arguments newval {A} _ _ _.
Arguments locked {A} _.

Definition rdc_int_max : rdc_op Z := RdcOp (fun tmp1 tmp2 => tmp2 <=? tmp1) (fun _ tmp2 => tmp2) false.
Definition rdc_int_min : rdc_op Z := RdcOp (fun tmp1 tmp2 => tmp2 >=? tmp1) (fun _ tmp2 => tmp2) false.
Definition rdc_int_sum : rdc_op Z := RdcOp (fun _ _ => false) (fun tmp1 tmp2 => int32 (tmp1 + tmp2)) true.

(** The floating-point types of the machine: values up to their bits, with the
    comparison and the addition of the hardware. *)
Record float_type := FloatType { fbits : Type; fle : fbits -> fbits -> bool; fadd : fbits -> fbits -> fbits }.

Definition rdc_flt_max (F : float_type) : rdc_op (fbits F) := RdcOp (fun tmp1 tmp2 => fle F tmp2 tmp1) (fun _ tmp2 => tmp2) false.
Definition rdc_flt_min (F : float_type) : rdc_op (fbits F) := RdcOp (fun tmp1 tmp2 => fle F tmp1 tmp2) (fun _ tmp2 => tmp2) false.
Definition rdc_flt_sum (F : float_type) : rdc_op (fbits F) := RdcOp (fun _ _ => false) (fun tmp1 tmp2 => fadd F tmp2 tmp1) false.
Definition rdc_dbl_max (F : float_type) : rdc_op (fbits F) := RdcOp (fun tmp1 tmp2 => fle F tmp2 tmp1) (fun _ tmp2 => tmp2) false.
Definition rdc_dbl_min (F : float_type) : rdc_op (fbits F) := RdcOp (fun tmp1 tmp2 => fle F tmp1 tmp2) (fun _ tmp2 => tmp2) false.
Definition rdc_dbl_sum (F : float_type) : rdc_op (fbits F) := RdcOp (fun _ _ => false) (fun tmp1 tmp2 => fadd F tmp2 tmp1) false.

(** ** The table *)

Definition MPI_MAX : Z := 1.
Definition MPI_MIN : Z := 2.
Definition MPI_SUM : Z := 3.
Definition MPI_PROD : Z := 4.
Definition MPI_MAXLOC : Z := 12.

(** The data types that only reductions know by name. *)
Definition MPI_REAL : Z := 26.
Definition MPI_UNSIGNED_SHORT : Z := 5.
Definition MPI_UNSIGNED : Z := 7.
Definition MPI_LONG_LONG_INT : Z := 13.
(** The last of the numbered types. *)
Definition MPI_2DOUBLE_PRECISION : Z := 33.

Definition one_of (z : Z) (l : list Z) : bool := existsb (Z.eqb z) l.

(** 0 for the types of mpi_struct.h without operators, -1 for the rest. *)
Definition rdc_type_idx (type : Z) : Z :=
  if one_of type [MPI_INT; MPI_INTEGER; MPI_LONG] then 1
  else if one_of type [MPI_FLOAT; MPI_REAL] then 2
  else if one_of type [MPI_DOUBLE; MPI_DOUBLE_PRECISION] then 3
  else if one_of type [MPI_CHAR; MPI_BYTE] then 4
  else if one_of type [MPI_SHORT] then 5
  else if one_of type [MPI_LONG_LONG_INT] then 6
  else if one_of type [MPI_UNSIGNED_SHORT] then 7
  else if one_of type [MPI_UNSIGNED; MPI_UNSIGNED_LONG] then 8
  else if (1 <=? type) && (type <=? MPI_2DOUBLE_PRECISION) then 0
  else -1.

Definition rdc_op_idx (op : Z) : Z :=
  if op =? MPI_MAX then 1
  else if op =? MPI_MIN then 2
  else if op =? MPI_SUM then 3
  else if (MPI_PROD <=? op) && (op <=? MPI_MAXLOC) then 0
  else -1.

(** The entries of [optable]: the operation on the type of the row, if any. *)
Inductive opfunc :=
  | IntOp (o : rdc_op Z)
  | FloatOp (o : forall F, rdc_op (fbits F))
  | DoubleOp (o : forall F, rdc_op (fbits F)).
Definition optable (type_idx op_idx : Z) : option opfunc :=
  if type_idx =? 1 then
    if op_idx =? 1 then Some (IntOp rdc_int_max)
    else if op_idx =? 2 then Some (IntOp rdc_int_min)
    else if op_idx =? 3 then Some (IntOp rdc_int_sum) else None
  else if type_idx =? 2 then
    if op_idx =? 1 then Some (FloatOp rdc_flt_max)
    else if op_idx =? 2 then Some (FloatOp rdc_flt_min)
    else if op_idx =? 3 then Some (FloatOp rdc_flt_sum) else None
  else if type_idx =? 3 then
    if op_idx =? 1 then Some (DoubleOp rdc_dbl_max)
    else if op_idx =? 2 then Some (DoubleOp rdc_dbl_min)
    else if op_idx =? 3 then Some (DoubleOp rdc_dbl_sum) else None
  else None.

(** The function [simple_reduce] calls, if it calls one. *)
Definition simple_reduce (type op : Z) : option opfunc :=
  let type_idx := rdc_type_idx type in
  let op_idx := rdc_op_idx op in
  if (type_idx =? -1) || (op_idx =? -1) then None else optable type_idx op_idx.

(** ** Threads that reduce into one array *)

Section Reduce.
Context {A : Type} (o : rdc_op A).

(** What the update of an element comes to. *)
Definition combine (r x : A) : A := if negb (locked o) && skip o r x then r else newval o r x.

(** A thread in the loop over its [source]: the index, and the value it has read. *)
Record worker := Worker { source : list A; pos : nat; seen : option A }.

Definition worker_at (w : worker) : option A := source w !! pos w.

Inductive rdc_step : list A * list worker -> list A * list worker -> Prop :=
  | step_read res ws t w r x : ws !! t = Some w -> locked o = false -> seen w = None ->
      worker_at w = Some x -> res !! pos w = Some r ->
      rdc_step (res, ws) (res, <[t := Worker (source w) (pos w) (Some r)]> ws)
  | step_skip res ws t w r x : ws !! t = Some w -> seen w = Some r -> worker_at w = Some x ->
      skip o r x = true ->
      rdc_step (res, ws) (res, <[t := Worker (source w) (S (pos w)) None]> ws)
  | step_cas res ws t w r x : ws !! t = Some w -> seen w = Some r -> worker_at w = Some x ->
      skip o r x = false -> res !! pos w = Some r ->
      rdc_step (res, ws)
        (<[pos w := newval o r x]> res, <[t := Worker (source w) (S (pos w)) None]> ws)
  | step_cas_fails res ws t w r x : ws !! t = Some w -> seen w = Some r -> worker_at w = Some x ->
      skip o r x = false -> res !! pos w <> Some r ->
      rdc_step (res, ws) (res, <[t := Worker (source w) (pos w) None]> ws)
  | step_locked res ws t w r x : ws !! t = Some w -> locked o = true -> worker_at w = Some x ->
      res !! pos w = Some r ->
      rdc_step (res, ws)
        (<[pos w := newval o r x]> res, <[t := Worker (source w) (S (pos w)) None]> ws).

(** The next step of a thread in the loop, on the array as it is; nothing when an index
    is out of one of the arrays. *)
Definition rdc_run `{!EqDecision A} (res : list A) (w : worker) : option (list A * worker) :=
  let next := Worker (source w) (S (pos w)) None in
  match worker_at w, res !! pos w with
  | Some x, Some r =>
      if locked o then Some (<[pos w := newval o r x]> res, next)
      else
        match seen w with
        | None => Some (res, Worker (source w) (pos w) (Some r))
        | Some tmp1 =>
            if skip o tmp1 x then Some (res, next)
            else if decide (r = tmp1) then Some (<[pos w := newval o tmp1 x]> res, next)
            else Some (res, Worker (source w) (pos w) None)
        end
  | _, _ => None
  end.

(** All calls have returned. *)
Definition all_done (ws : list worker) : Prop := Forall (fun w => worker_at w = None) ws.

(** Thread [w] has taken effect on element [i]: it is past it, or it has read a value
    that makes it skip. *)
Definition took_effect (w : worker) (i : nat) : bool :=
  (i <? pos w)%nat && (i <? length (source w))%nat ||
  (i =? pos w)%nat && match seen w, worker_at w with Some r, Some x => skip o r x | _, _ => false end.

(** The values the threads contribute to element [i], in the order [l] of threads. *)
Definition contributions (srcs : list (list A)) (i : nat) (l : list nat) : list A :=
  omap (fun t => srcs !! t ≫= fun s => s !! i) l.

(** The effects on element [i] happened in the order [l], one at a time. *)
Record serialized (srcs : list (list A)) (res0 res : list A) (ws : list worker) (i : nat) (l : list nat) : Prop := Serialized {
  sz_nodup : NoDup l;
  sz_in : forall t, t ∈ l <-> exists w, ws !! t = Some w /\ took_effect w i = true;
  sz_value : res !! i = (fun r => foldl combine r (contributions srcs i l)) <$> res0 !! i
}.
End Reduce.

Lemma rdc_run_step {A} `{!EqDecision A} (o : rdc_op A) res w res' w' ws t :
  rdc_run o res w = Some (res', w') -> ws !! t = Some w -> rdc_step o (res, ws) (res', <[t := w']> ws).
Proof.
  unfold rdc_run. intros H Ht. destruct (worker_at w) as [x|] eqn:Hx; [|done]. destruct (res !! pos w) as [r|] eqn:Hr; [|done].
  destruct (locked o) eqn:Hl; [injection H as <- <-; by apply step_locked|].
  destruct (seen w) as [v|] eqn:Hv; [|injection H as <- <-; by eapply step_read].
  destruct (skip o v x) eqn:Hs; [injection H as <- <-; by eapply step_skip|].
  destruct (decide (r = v)) as [->|Hne]; injection H as <- <-; [by apply step_cas|].
  eapply step_cas_fails; eauto. congruence.
Qed.

(** ** Every run is serialized *)

Section Serial.
Context {A : Type} (o : rdc_op A) (srcs : list (list A)) (res0 : list A).
Notation serialized := (serialized o srcs res0).

(** The move of thread [t] has no effect on element [i]. *)
Lemma serialized_same res res' ws t w w' i l :
  serialized res ws i l -> ws !! t = Some w ->
  took_effect o w' i = took_effect o w i -> res' !! i = res !! i ->
  serialized res' (<[t := w']> ws) i l.
Proof.
  intros [Hnd Hin Hv] Ht He Hr. split; [done| |congruence].
  intros u. rewrite Hin. destruct (decide (u = t)) as [->|].
  - rewrite list_lookup_insert_eq by (by eapply lookup_lt_Some). rewrite Ht.
    split; intros (x & [= <-] & Hx); eexists; (split; [done|]); congruence.
  - by rewrite list_lookup_insert_ne.
Qed.

(** It is the next effect on it. *)
Lemma serialized_next res res' ws t w w' i l r x :
  serialized res ws i l -> ws !! t = Some w ->
  took_effect o w i = false -> took_effect o w' i = true ->
  (srcs !! t ≫= fun s => s !! i) = Some x -> res !! i = Some r -> res' !! i = Some (combine o r x) ->
  serialized res' (<[t := w']> ws) i (l ++ [t]).
Proof.
  intros [Hnd Hin Hv] Ht He He' Hx Hr Hr'. split.
  - apply NoDup_app. split_and!; [done| |apply NoDup_singleton].
    intros u Hu ->%list_elem_of_singleton. apply Hin in Hu as (? & ? & ?). congruence.
  - intros u. rewrite elem_of_app, list_elem_of_singleton, Hin. destruct (decide (u = t)) as [->|Hne].
    + rewrite list_lookup_insert_eq by (by eapply lookup_lt_Some). split; [|by right]. intros _. eauto.
    + rewrite list_lookup_insert_ne by done. naive_solver.
  - rewrite Hr'. rewrite Hr in Hv. destruct (res0 !! i) as [r0|]; [|done]. cbn in *. injection Hv as ->.
    unfold contributions. rewrite omap_app, foldl_app. cbn. by rewrite Hx.
Qed.

(** The state of a run: every element is serialized, and a value is only kept by the
    loops that compare and swap. *)
Record run_inv (s : list A * list (@worker A)) : Prop := RunInv {
  ri_sources : source <$> s.2 = srcs;
  ri_pos : Forall (fun w => (pos w <= length (source w))%nat) s.2;
  ri_seen : locked o = true -> Forall (fun w => seen w = None) s.2;
  ri_serial : forall i, exists l, serialized s.1 s.2 i l
}.

Lemma source_lookup ws t w i : source <$> ws = srcs -> ws !! t = Some w ->
  (srcs !! t ≫= fun s => s !! i) = source w !! i.
Proof. intros <- Ht. by rewrite list_lookup_fmap, Ht. Qed.

Lemma took_effect_move (w : @worker A) i x :
  worker_at w = Some x -> i <> pos w ->
  took_effect o (Worker (source w) (S (pos w)) None) i = took_effect o w i.
Proof.
  intros Hx Hne. unfold took_effect. cbn [source pos seen].
  rewrite (proj2 (Nat.eqb_neq i (pos w)) Hne), andb_false_r, andb_false_l. destruct (Nat.ltb_spec i (pos w)), (Nat.ltb_spec i (S (pos w))); try done; lia.
Qed.

Lemma took_effect_moved (w : @worker A) x :
  worker_at w = Some x -> took_effect o (Worker (source w) (S (pos w)) None) (pos w) = true.
Proof.
  intros Hx%lookup_lt_Some. unfold took_effect. cbn [source pos seen].
  rewrite (proj2 (Nat.ltb_lt (pos w) (S (pos w)))), (proj2 (Nat.ltb_lt _ _) Hx) by lia. done.
Qed.

Lemma took_effect_here (w : @worker A) i : i = pos w ->
  took_effect o w i = match seen w, worker_at w with Some r, Some x => skip o r x | _, _ => false end.
Proof. intros ->. unfold took_effect. by rewrite Nat.ltb_irrefl, Nat.eqb_refl. Qed.

(** A move that keeps the position changes nothing elsewhere. *)
Lemma took_effect_else (w : @worker A) v i :
  i <> pos w -> took_effect o (Worker (source w) (pos w) v) i = took_effect o w i.
Proof. intros Hne. unfold took_effect. cbn. by rewrite (proj2 (Nat.eqb_neq i (pos w)) Hne), !andb_false_l. Qed.

(** The thread updates the element it is at. *)
Lemma run_inv_update res ws t w r x :
  run_inv (res, ws) -> ws !! t = Some w -> worker_at w = Some x -> res !! pos w = Some r ->
  took_effect o w (pos w) = false -> combine o r x = newval o r x ->
  forall i, exists l, serialized (<[pos w := newval o r x]> res) (<[t := Worker (source w) (S (pos w)) None]> ws) i l.
Proof.
  intros [Hs Hp Hl Hi] Ht Hx Hr He Hc i. cbn in *. destruct (Hi i) as [l Hsz]. destruct (decide (i = pos w)) as [->|Hne].
  - eexists. eapply serialized_next; [done|done|done|by eapply took_effect_moved| |done|].
    + rewrite (source_lookup ws t w); [exact Hx|done|done].
    + rewrite Hc. apply list_lookup_insert_eq. by eapply lookup_lt_Some.
  - exists l. eapply serialized_same; [done|done|by eapply took_effect_move|]. by apply list_lookup_insert_ne.
Qed.

Lemma run_inv_step s s' : run_inv s -> rdc_step o s s' -> run_inv s'.
Proof.
  intros HI Hstep. pose proof HI as [Hs Hp Hl Hi].
  destruct Hstep as [res ws t w r x Ht Hlk Hn Hx Hr|res ws t w r x Ht Hn Hx Hk|res ws t w r x Ht Hn Hx Hk Hr
    |res ws t w r x Ht Hn Hx Hk Hr|res ws t w r x Ht Hlk Hx Hr]; cbn [fst snd] in *.
  all: assert (pos w < length (source w))%nat as Hlt by (by apply lookup_lt_Some in Hx).
  all: assert (forall p v, source <$> <[t := Worker (source w) p v]> ws = srcs) as Hsrc
    by (intros p v; rewrite list_fmap_insert; cbn; rewrite list_insert_id; [done|by rewrite list_lookup_fmap, Ht]).
  all: assert (forall v, locked o = true -> v = None ->
    forall p, Forall (fun w => seen w = None) (<[t := Worker (source w) p v]> ws)) as Hseen
    by (intros v Hlk' -> p; apply Forall_insert; [auto|done]).
  - split; cbn; [apply Hsrc|apply Forall_insert; [done|cbn; lia]|congruence|].
    intros i. destruct (Hi i) as [l Hsz]. destruct (decide (i = pos w)) as [->|Hne].
    + destruct (skip o r x) eqn:Hk.
      * eexists. eapply serialized_next; [done|done|by rewrite took_effect_here, Hn by done| | |exact Hr|].
        { rewrite took_effect_here by done. cbn. unfold worker_at in *. cbn. by rewrite Hx. }
        { by rewrite (source_lookup ws t w). }
        { unfold combine. by rewrite Hlk, Hk. }
      * exists l. eapply serialized_same; [done|done| |done]. rewrite !took_effect_here, Hn by done. cbn.
        unfold worker_at in *. cbn. by rewrite Hx.
    + exists l. eapply serialized_same; [done|done|by apply took_effect_else|done].
  - split; cbn; [apply Hsrc|apply Forall_insert; [done|cbn; lia]|by intros ?; apply Hseen|].
    intros i. destruct (Hi i) as [l Hsz]. exists l. eapply serialized_same; [done|done| |done].
    destruct (decide (i = pos w)) as [->|Hne]; [|by eapply took_effect_move].
    by rewrite (took_effect_moved w x Hx), took_effect_here, Hn, Hx by done.
  - split; cbn; [apply Hsrc|apply Forall_insert; [done|cbn; lia]|by intros ?; apply Hseen|].
    assert (locked o = false) as Hlk.
    { destruct (locked o) eqn:E; [|done]. pose proof (proj1 (Forall_lookup _ _) (Hl eq_refl) _ _ Ht). congruence. }
    eapply run_inv_update; [done|done|done|done| |].
    + by rewrite took_effect_here, Hn, Hx by done.
    + unfold combine. by rewrite Hlk, Hk.
  - split; cbn; [apply Hsrc|apply Forall_insert; [done|cbn; lia]|by intros ?; apply Hseen|].
    intros i. destruct (Hi i) as [l Hsz]. exists l. eapply serialized_same; [done|done| |done].
    destruct (decide (i = pos w)) as [->|Hne]; [|by apply took_effect_else].
    rewrite !took_effect_here, Hn, Hx by done. by rewrite Hk.
  - split; cbn; [apply Hsrc|apply Forall_insert; [done|cbn; lia]|by intros ?; apply Hseen|].
    eapply run_inv_update; [done|done|done|done| |].
    + pose proof (proj1 (Forall_lookup _ _) (Hl Hlk) _ _ Ht) as Hn. cbn in Hn. by rewrite took_effect_here, Hn by done.
    + unfold combine. by rewrite Hlk.
Qed.

Definition starting : list A * list worker := (res0, (fun s => Worker s 0 None) <$> srcs).

Lemma run_inv_start : run_inv starting.
Proof.
  split; cbn.
  - rewrite <- list_fmap_compose. apply list_fmap_id.
  - apply Forall_fmap, Forall_true. intros. cbn. lia.
  - intros _. by apply Forall_fmap, Forall_true.
  - intros i. exists []. split; [constructor| |by destruct (res0 !! i)].
    intros t. split; [intros H; by apply not_elem_of_nil in H|]. intros (w & Hw & He). exfalso.
    rewrite list_lookup_fmap in Hw. destruct (srcs !! t); [|done]. injection Hw as <-.
    unfold took_effect in He. cbn in He. by rewrite andb_false_r in He.
Qed.

Lemma run_inv_rtc s : rtc (rdc_step o) starting s -> run_inv s.
Proof.
  intros H. assert (forall s1 s2, rtc (rdc_step o) s1 s2 -> run_inv s1 -> run_inv s2) as Hg.
  { induction 1; eauto using run_inv_step. }
  eapply Hg; [exact H|apply run_inv_start].
Qed.
End Serial.

(** ** Orders of the threads *)

Lemma omap_seq {A B} (g : A -> option B) (l : list A) :
  omap (fun t => l !! t ≫= g) (seq 0 (length l)) = omap g l.
Proof.
  induction l as [|x l IH] using rev_ind; [done|].
  rewrite length_app, seq_app, !omap_app. f_equal.
  - rewrite <- IH. apply list_omap_ext, Forall2_same_length_lookup_2; [done|].
    intros t u v Hu Hv. assert (u = v) as -> by congruence.
    apply lookup_seq in Hv as [-> Hv]. by rewrite lookup_app_l by lia.
  - cbn. by rewrite lookup_app_r, Nat.sub_diag by lia.
Qed.

Lemma contributions_perm {A} (srcs : list (list A)) i l :
  NoDup l -> (forall t, t ∈ l <-> is_Some (srcs !! t ≫= fun s => s !! i)) ->
  contributions srcs i l ≡ₚ omap (fun s => s !! i) srcs.
Proof.
  intros Hnd Hin. set (f := fun t => srcs !! t ≫= fun s => s !! i).
  rewrite <- (omap_seq (fun s => s !! i) srcs). change (omap f l ≡ₚ omap f (seq 0 (length srcs))).
  set (rest := filter (fun t => f t = None) (seq 0 (length srcs))).
  assert (seq 0 (length srcs) ≡ₚ l ++ rest) as ->.
  { apply NoDup_Permutation; [apply NoDup_seq| |].
    - apply NoDup_app. split_and!; [done| |apply NoDup_filter, NoDup_seq].
      intros t Ht Hr. apply list_elem_of_filter in Hr as [Hr _]. apply Hin in Ht as [x Hx]. unfold f in Hr. congruence.
    - intros t. rewrite elem_of_seq, elem_of_app, Hin. unfold rest. rewrite list_elem_of_filter, elem_of_seq.
      unfold f. split.
      + intros Ht. destruct (srcs !! t ≫= _) eqn:E; [left; eauto|right; auto].
      + intros [[x Hx]|[_ Ht]]; [|lia]. destruct (srcs !! t) eqn:E; [|done]. apply lookup_lt_Some in E. lia. }
  rewrite omap_app. assert (omap f rest = []) as ->; [|by rewrite app_nil_r].
  unfold rest. induction (seq 0 (length srcs)) as [|t ts IH]; [done|]. rewrite filter_cons.
  case_decide as Hf; cbn; [by rewrite Hf|done].
Qed.

Lemma foldl_perm {A B} (f : A -> B -> A) :
  (forall r x y, f (f r x) y = f (f r y) x) ->
  forall l l', l ≡ₚ l' -> forall r, foldl f r l = foldl f r l'.
Proof.
  intros Hf l l' H. induction H as [| |x y l|l l1 l2 _ IH1 _ IH2]; intros r; cbn; [done|done|by rewrite Hf|].
  by rewrite IH1.
Qed.

(** The order in which the effects happened, for a run that has ended. *)
Lemma rdc_serial_order {A} (o : rdc_op A) srcs res0 res ws i :
  rtc (rdc_step o) (starting srcs res0) (res, ws) -> all_done ws ->
  exists xs, xs ≡ₚ omap (fun s => s !! i) srcs /\
    res !! i = (fun r => foldl (combine o) r xs) <$> res0 !! i.
Proof.
  intros Hrun Hdone. destruct (run_inv_rtc o srcs res0 _ Hrun) as [Hs Hp _ Hi]. cbn in *.
  destruct (Hi i) as [l [Hnd Hin Hv]]. exists (contributions srcs i l). split; [|done].
  apply contributions_perm; [done|]. intros t. rewrite Hin, <- Hs, list_lookup_fmap.
  split.
  - intros (w & Hw & He). rewrite Hw. cbn. apply lookup_lt_is_Some.
    pose proof (proj1 (Forall_lookup _ _) Hdone _ _ Hw) as Hd. cbn in Hd. unfold worker_at in Hd.
    unfold took_effect, worker_at in He. rewrite Hd in He. apply lookup_ge_None in Hd.
    destruct (seen w); rewrite ?andb_false_r, orb_false_r in He; apply andb_prop in He as [_ He]; by apply Nat.ltb_lt.
  - intros [x Hx]. destruct (ws !! t) as [w|] eqn:Hw; [|done]. cbn in Hx. exists w. split; [done|].
    pose proof (proj1 (Forall_lookup _ _) Hdone _ _ Hw) as Hd. cbn in Hd. unfold worker_at in Hd.
    apply lookup_ge_None in Hd. apply lookup_lt_Some in Hx. unfold took_effect.
    rewrite (proj2 (Nat.ltb_lt i (pos w))), (proj2 (Nat.ltb_lt _ _) Hx) by lia. done.
Qed.

(** ** Properties *)

(** Concurrent reductions are serializable: whatever the number of threads, the
    lengths of their arrays and the interleaving of reads and swaps, stale reads and
    failed swaps included, when all calls have returned every element of the shared
    array is the initial one combined with each thread's element exactly once, one
    after the other in some order. This holds for every operator of the table, the
    floating-point ones too, whatever the hardware's comparison and addition are. *)
Theorem rdc_serializable {A} (o : rdc_op A) srcs res0 res ws i :
  rtc (rdc_step o) (starting srcs res0) (res, ws) -> all_done ws ->
  exists xs, xs ≡ₚ omap (fun s => s !! i) srcs /\
    res !! i = (fun r => foldl (combine o) r xs) <$> res0 !! i.
Proof. apply rdc_serial_order. Qed.

(** Two threads add 5 and 7 to 1: one read, the other's swap, a failed swap, a retry. *)
Definition add_op : rdc_op Z := rdc_flt_sum (FloatType Z Z.leb Z.add).
Definition add_ws (p1 : nat) (v1 : option Z) (p2 : nat) (v2 : option Z) : list worker :=
  [Worker [5] p1 v1; Worker [7] p2 v2].
Lemma add_run : rtc (rdc_step add_op) (starting [[5]; [7]] [1]) ([13], add_ws 1 None 1 None).
Proof.
  eapply rtc_l; [apply (step_read add_op [1] (add_ws 0 None 0 None) 0 (Worker [5] 0 None) 1 5); reflexivity|].
  eapply rtc_l; [apply (step_read add_op [1] (add_ws 0 (Some 1) 0 None) 1 (Worker [7] 0 None) 1 7); reflexivity|].
  eapply rtc_l; [apply (step_cas add_op [1] (add_ws 0 (Some 1) 0 (Some 1)) 1 (Worker [7] 0 (Some 1)) 1 7); reflexivity|].
  eapply rtc_l; [apply (step_cas_fails add_op [8] (add_ws 0 (Some 1) 1 None) 0 (Worker [5] 0 (Some 1)) 1 5); done|].
  eapply rtc_l; [apply (step_read add_op [8] (add_ws 0 None 1 None) 0 (Worker [5] 0 None) 8 5); reflexivity|].
  eapply rtc_l; [apply (step_cas add_op [8] (add_ws 0 (Some 8) 1 None) 0 (Worker [5] 0 (Some 8)) 8 5); reflexivity|].
  apply rtc_refl.
Qed.

Lemma rdc_serializable_witness :
  exists xs, xs ≡ₚ [5; 7] /\ Some 13 = (fun r => foldl (combine add_op) r xs) <$> Some 1.
Proof.
  apply (rdc_serializable add_op [[5]; [7]] [1] [13] (add_ws 1 None 1 None) 0 add_run). by repeat constructor.
Defined.

(** What an operation on int means. *)
Definition int_meaning (op : Z) (r x : Z) : Z :=
  if op =? MPI_MAX then Z.max r x else if op =? MPI_MIN then Z.min r x else int32 (r + x).

Lemma int_op_meaning op o : simple_reduce MPI_INT op = Some (IntOp o) -> forall r x, combine o r x = int_meaning op r x.
Proof.
  unfold simple_reduce, rdc_op_idx, int_meaning. change (rdc_type_idx MPI_INT) with 1. intros H r x.
  destruct (op =? MPI_MAX).
  { injection H as <-. unfold combine. cbn. destruct (Z.leb_spec x r); lia. }
  destruct (op =? MPI_MIN).
  { injection H as <-. unfold combine. cbn. destruct (Z.geb_spec x r); lia. }
  destruct (op =? MPI_SUM); [by injection H as <-|]. by destruct (_ && _).
Qed.

Lemma int_meaning_comm op r x y : int_meaning op (int_meaning op r x) y = int_meaning op (int_meaning op r y) x.
Proof.
  unfold int_meaning. destruct (op =? MPI_MAX); [lia|]. destruct (op =? MPI_MIN); [lia|].
  rewrite !int32_add_l. f_equal. lia.
Qed.

(** The maximum, minimum and sum of ints do not depend on the order: however the
    threads interleave, each element is the one a single thread gets by combining the
    contributions in the order of the threads, the sum wrapping to 32 bits. *)
Theorem rdc_int_deterministic op o srcs res0 res ws i :
  simple_reduce MPI_INT op = Some (IntOp o) ->
  rtc (rdc_step o) (starting srcs res0) (res, ws) -> all_done ws ->
  res !! i = (fun r => foldl (int_meaning op) r (omap (fun s => s !! i) srcs)) <$> res0 !! i.
Proof.
  intros Hop Hrun Hdone. pose proof (int_op_meaning _ _ Hop) as Hm.
  destruct (rdc_serial_order o srcs res0 res ws i Hrun Hdone) as (xs & Hp & ->).
  destruct (res0 !! i) as [r|]; [|done]. cbn. f_equal.
  transitivity (foldl (int_meaning op) r xs); [|by apply foldl_perm; [apply int_meaning_comm|]].
  clear Hp. revert r. induction xs as [|x xs IH]; intros r; cbn; [done|]. by rewrite Hm, IH.
Qed.

(** Two threads, the sum overflowing. *)
Lemma sum_run :
  rtc (rdc_step rdc_int_sum) (starting [[2147483647; 1]; [1]] [0; 0])
    ([-2147483648; 1], [Worker [2147483647; 1] 2 None; Worker [1] 1 None]).
Proof.
  eapply rtc_l; [apply (step_locked rdc_int_sum [0; 0] [Worker [2147483647; 1] 0 None; Worker [1] 0 None] 1
    (Worker [1] 0 None) 0 1); reflexivity|].
  eapply rtc_l; [apply (step_locked rdc_int_sum [1; 0] [Worker [2147483647; 1] 0 None; Worker [1] 1 None] 0
    (Worker [2147483647; 1] 0 None) 1 2147483647); reflexivity|].
  eapply rtc_l; [apply (step_locked rdc_int_sum [-2147483648; 0] [Worker [2147483647; 1] 1 None; Worker [1] 1 None] 0
    (Worker [2147483647; 1] 1 None) 0 1); reflexivity|].
  apply rtc_refl.
Qed.

Lemma rdc_int_deterministic_witness :
  Some (-2147483648) = (fun r => foldl (int_meaning MPI_SUM) r [2147483647; 1]) <$> Some 0.
Proof.
  apply (rdc_int_deterministic MPI_SUM rdc_int_sum [[2147483647; 1]; [1]] [0; 0] [-2147483648; 1]
    [Worker [2147483647; 1] 2 None; Worker [1] 1 None] 0); [reflexivity|exact sum_run|by repeat constructor].
Defined.
