(* ===== verification/ElementWise.v ===== *)
(** Reduction of whole arrays, and what it comes to for one element. Threads reduce into
    a shared array element by element, each at its own pace, so two elements may see the
    threads in different orders. The arrays of a system are projected to one element:
    there the steps of a thread in [simple_reduce] come to a single one, the moment it
    takes effect on the element. *)
From S2P Require Import Prelude RdcOp.

Open Scope Z_scope.

(** ** The specification: a call of [simple_reduce] in one step *)

(** [simple_reduce] on the first [c] elements; without an operator it only reports. *)
Definition reduce_into {A} (o : option (rdc_op A)) (c : nat) (r s : list A) : list A :=
  match o with
  | Some op => zip_with (combine op) (take c r) (take c s) ++ drop c r
  | None => r
  end.

(** The [x]s combined from the left, in the order of the list. *)
Definition combine_all {A} (o : option (rdc_op A)) (xs : list A) : option A :=
  match xs with
  | [] => None
  | x :: xs' => Some (match o with Some op => foldl (combine op) x xs' | None => x end)
  end.

(** ** Arrays at one element *)

Definition elem {A} (i : nat) (l : list A) : list A := match l !! i with Some x => [x] | None => [] end.
Definition one (i c : nat) : nat := if (i <? c)%nat then 1%nat else 0%nat.

Lemma one_lt i c : (i < c)%nat -> one i c = 1%nat.
Proof. intros H. unfold one. by rewrite (proj2 (Nat.ltb_lt _ _) H). Qed.
Lemma one_ge i c : (c <= i)%nat -> one i c = 0%nat.
Proof. intros H. unfold one. by rewrite (proj2 (Nat.ltb_ge _ _) H). Qed.
Lemma one_inv i c d : one i c = one i d -> (i < c)%nat <-> (i < d)%nat.
Proof. unfold one. destruct (Nat.ltb_spec i c), (Nat.ltb_spec i d); lia. Qed.

Section Elem.
Context {A : Type}.
Implicit Types l s : list A.

Lemma elem_lookup i l l' : l !! i = l' !! i -> elem i l = elem i l'.
Proof. unfold elem. by intros ->. Qed.
Lemma lookup_elem i l l' : elem i l = elem i l' -> l !! i = l' !! i.
Proof. unfold elem. destruct (l !! i), (l' !! i); by intros [= ->] || done. Qed.
Lemma elem_inj l l' : (forall i, elem i l = elem i l') -> l = l'.
Proof. intros H. apply list_eq. intros i. by apply lookup_elem. Qed.

Lemma length_elem i l : length (elem i l) = one i (length l).
Proof.
  unfold elem. destruct (l !! i) eqn:E.
  - by rewrite one_lt by (by eapply lookup_lt_Some).
  - by rewrite one_ge by (by apply lookup_ge_None).
Qed.

Lemma elem_take i c l : elem i (take c l) = take (one i c) (elem i l).
Proof.
  destruct (Nat.lt_ge_cases i c) as [H|H].
  - rewrite one_lt by done. unfold elem. rewrite lookup_take_lt by done. by destruct (l !! i).
  - rewrite one_ge by done. unfold elem. by rewrite lookup_take_ge by done.
Qed.

Lemma one_min i a b : one i (Nat.min a b) = Nat.min (one i a) (one i b).
Proof. unfold one. destruct (Nat.ltb_spec i a), (Nat.ltb_spec i b), (Nat.ltb_spec i (Nat.min a b)); lia. Qed.

Lemma reduce_into_0 (o : option (rdc_op A)) l s : reduce_into o 0 l s = l.
Proof. by destruct o. Qed.
Lemma reduce_into_elem op i l s r x : l !! i = Some r -> s !! i = Some x ->
  reduce_into (Some op) 1 (elem i l) (elem i s) = [combine op r x].
Proof. intros Hr Hx. unfold elem. by rewrite Hr, Hx. Qed.
End Elem.

(** ** The loop at one element *)

Section Loop.
Context {A : Type} `{!EqDecision A} (op : rdc_op A).

(** The thread has nothing more to do to element [i]. *)
Definition done_with (w : worker (A:=A)) (i : nat) : bool := (length (source w) <=? i)%nat || took_effect op w i.

(** A thread in the loop on the first elements of its own array. *)
Record in_loop (send : list A) (w : worker (A:=A)) : Prop := InLoop {
  il_source : exists m, source w = take m send;
  il_pos : (pos w <= length (source w))%nat;
  il_seen : locked op = true -> seen w = None
}.

Lemma source_send send w i x : in_loop send w -> source w !! i = Some x -> send !! i = Some x.
Proof.
  intros [(m & ->) _ _] H. rewrite lookup_take_lt in H; [done|]. apply lookup_lt_Some in H. rewrite length_take in H. lia.
Qed.

Lemma in_loop_start c send : in_loop send (Worker (take c send) 0 None).
Proof. split; [by exists c|cbn; lia|done]. Qed.

Lemma done_start s i : done_with (Worker s 0 None) i = (length s <=? i)%nat.
Proof. unfold done_with, took_effect. cbn. by rewrite andb_false_r, orb_false_r. Qed.

(** At the end of the loop there is nothing more to do. *)
Lemma done_end send w i : in_loop send w -> worker_at w = None -> done_with w i = true.
Proof.
  intros [_ Hp _] Hn%lookup_ge_None. unfold done_with, took_effect. destruct (Nat.leb_spec (length (source w)) i); [done|].
  rewrite (proj2 (Nat.ltb_lt i (pos w))), (proj2 (Nat.ltb_lt i (length (source w)))) by lia. done.
Qed.

(** The thread moves on in its array. *)
Lemma done_next w x i : worker_at w = Some x -> i <> pos w ->
  done_with (Worker (source w) (S (pos w)) None) i = done_with w i.
Proof. intros Hx Hi. unfold done_with. cbn [source]. by rewrite (took_effect_move op w i x). Qed.
Lemma done_moved w x : worker_at w = Some x -> done_with (Worker (source w) (S (pos w)) None) (pos w) = true.
Proof. intros Hx. unfold done_with. by rewrite (took_effect_moved op w x), orb_true_r. Qed.
Lemma done_else w v i : i <> pos w -> done_with (Worker (source w) (pos w) v) i = done_with w i.
Proof. intros Hi. unfold done_with. cbn [source]. by rewrite took_effect_else. Qed.
Lemma done_here (w : worker (A:=A)) x : worker_at w = Some x ->
  done_with w (pos w) = match seen w with Some r => skip op r x | None => false end.
Proof.
  intros Hx. unfold done_with. rewrite (took_effect_here op w _ eq_refl), Hx.
  apply lookup_lt_Some in Hx. rewrite (proj2 (Nat.leb_gt _ _) Hx). by destruct (seen w).
Qed.

(** What a step of the loop is for element [i]: nothing, or the whole reduction. *)
Lemma rdc_run_elem send res w res' w' i : in_loop send w -> rdc_run op res w = Some (res', w') ->
  in_loop send w' /\ length res' = length res /\ source w' = source w /\
  (done_with w' i = done_with w i /\ res' !! i = res !! i \/
   done_with w i = false /\ done_with w' i = true /\
   exists r x, res !! i = Some r /\ source w !! i = Some x /\ res' !! i = Some (combine op r x)).
Proof.
  intros [(m & Hs) Hp Hl] H. unfold rdc_run in H. destruct (worker_at w) as [x|] eqn:Hx; [|done].
  destruct (res !! pos w) as [r|] eqn:Hr; [|done]. pose proof (lookup_lt_Some _ _ _ Hx) as Hlt.
  assert (forall v, in_loop send (Worker (source w) (S (pos w)) None) /\ (locked op = false -> in_loop send (Worker (source w) (pos w) v))) as Hin.
  { intros v. split; [split; cbn; [by exists m|lia|done]|]. intros E. split; cbn; [by exists m|lia|congruence]. }
  pose proof (done_here w x Hx) as Hhere. pose proof (done_moved w x Hx) as Hmoved.
  assert (forall y, y = combine op r x -> done_with w (pos w) = false ->
    done_with (Worker (source w) (S (pos w)) None) i = done_with w i /\ <[pos w := y]> res !! i = res !! i \/
    done_with w i = false /\ done_with (Worker (source w) (S (pos w)) None) i = true /\
    exists r x, res !! i = Some r /\ source w !! i = Some x /\ <[pos w := y]> res !! i = Some (combine op r x)) as Hw.
  { intros y -> Hd. destruct (decide (i = pos w)) as [->|Hne].
    - right. split_and!; [done|done|]. exists r, x. split_and!; [done|done|]. by apply list_lookup_insert_eq, (lookup_lt_Some _ _ _ Hr).
    - left. split; [by eapply done_next|by apply list_lookup_insert_ne]. }
  destruct (locked op) eqn:El.
  { injection H as <- <-. split_and!; [exact (proj1 (Hin None))|by rewrite length_insert|done|].
    apply Hw; [unfold combine; by rewrite El|]. by rewrite Hhere, Hl. }
  destruct (seen w) as [v|] eqn:Ev.
  - destruct (skip op v x) eqn:Ek; [|destruct (decide (r = v)) as [->|Hne]]; injection H as <- <-.
    + split_and!; [exact (proj1 (Hin None))|done|done|]. left. split; [|done].
      destruct (decide (i = pos w)) as [->|Hne]; [congruence|by eapply done_next].
    + split_and!; [exact (proj1 (Hin None))|by rewrite length_insert|done|].
      apply Hw; [unfold combine; by rewrite El, Ek|done].
    + split_and!; [by apply (Hin None)|done|done|]. left. split; [|done].
      destruct (decide (i = pos w)) as [->|Hni]; [|by apply done_else].
      rewrite Hhere. exact (done_here (Worker (source w) (pos w) None) x Hx).
  - injection H as <- <-. split_and!; [by apply (Hin (Some r))|done|done|].
    destruct (decide (i = pos w)) as [->|Hni]; [|left; split; [by apply done_else|done]].
    pose proof (done_here (Worker (source w) (pos w) (Some r)) x Hx) as Hread. cbn [seen pos] in Hread.
    destruct (skip op r x) eqn:Ek; [right|left; split; [congruence|done]].
    split_and!; [done|done|]. exists r, x. split_and!; [done|done|]. rewrite Hr. unfold combine. by rewrite El, Ek.
Qed.

(** A thread in the loop can go on when the shared array is as long as its own. *)
Lemma rdc_run_goes res (w : worker (A:=A)) x : worker_at w = Some x -> (length (source w) <= length res)%nat ->
  is_Some (rdc_run op res w).
Proof.
  intros Hx Hl. unfold rdc_run. rewrite Hx. apply lookup_lt_Some in Hx. destruct (lookup_lt_is_Some_2 res (pos w)) as [r ->]; [lia|].
  destruct (locked op); [done|]. destruct (seen w); [|done]. destruct (skip op _ x); [done|]. by destruct (decide _).
Qed.
End Loop.
