(* ===== verification/Allreduce.v ===== *)
(** The allreduce object of intra/reduce.c: two sub-objects used in turn. A call of
    [tmpi_ardco_allreduce] is cut at its accesses to shared memory, each of them (or
    each critical section) one step, so that threads interleave as they may. In
    [simple_reduce] several threads work on the shared array at once, each of them by
    the steps of its loop over the elements (file RdcOp). The last section is the
    specification the object is compared with, in which the whole of [simple_reduce]
    is one step. *)
From stdpp Require Import relations.
From S2P Require Import Prelude Types RdcOp ElementWise.

Open Scope Z_scope.

(** ** The object *)

(** What [subp->data] points to. *)
Inductive block (A : Type) :=
  | Null
  | Freed
  | Live (l : list A).
Arguments Null {A}.
Arguments Freed {A}.
Arguments Live {A} l.

Record sub (A : Type) := mkSub { avail : Z; done_ : Z; data : block A; count : nat }.
Arguments mkSub {A}.
Arguments avail {A}.
Arguments done_ {A}.
Arguments data {A}.
Arguments count {A}.
#[export] Instance eta_sub A : Eta (sub A) := MkEta _ (fun r => mkSub (avail r) (done_ r) (data r) (count r)).

(** [subp] says which sub-object is the current one, [false] for [sub[0]]. *)
Record tmpi_AllreduceObj (A : Type) := mkArdco { group_size : Z; sub0 : sub A; sub1 : sub A; subp : bool }.
Arguments mkArdco {A}.
Arguments group_size {A}.
Arguments sub0 {A}.
Arguments sub1 {A}.
Arguments subp {A}.
#[export] Instance eta_ardco A : Eta (tmpi_AllreduceObj A) :=
  MkEta _ (fun r => mkArdco (group_size r) (sub0 r) (sub1 r) (subp r)).

Definition sub_at {A} (b : tmpi_AllreduceObj A) (i : bool) : sub A := if i then sub1 b else sub0 b.
Definition set_sub {A} (i : bool) (s : sub A) (b : tmpi_AllreduceObj A) : tmpi_AllreduceObj A :=
  if i then b <| sub1 := s |> else b <| sub0 := s |>.

Definition set_subp {A} (i : bool) (b : tmpi_AllreduceObj A) : tmpi_AllreduceObj A := b <| subp := i |>.

(** The object is allocated with calloc. *)
Definition tmpi_ardco_create {A} (groupsize : Z) : tmpi_AllreduceObj A :=
  let s := mkSub (-1) 0 Null 0 in mkArdco groupsize s s false.

(** ** A call *)

(** Where a thread is in the call: what it does next. *)
Inductive place :=
  | Outside      (** about to call *)
  | AtFirst      (** the test [subp->avail==-1] *)
  | AtClaim      (** the [cas32] behind it *)
  | Filling      (** allocates, copies its data *)
  | ToPublish    (** the lock, [subp->avail=1], the broadcast *)
  | AtWait       (** the lock and the loop [while (subp->avail==0)] *)
  | Asleep
  | Woken
  | Reducing     (** [simple_reduce] *)
  | ToCount      (** the lock, [subp->avail++] *)
  | AtTest       (** the test [subp->avail!=ardco->group_size] *)
  | AtResult     (** the lock and the loop *)
  | Asleep2
  | Woken2
  | Copying      (** the copy to [recvbuf] *)
  | AtDone       (** [anf32(&(subp->done), 1)] *)
  | Resetting    (** the last one: free, [done=0], [avail=-1] *)
  | AtSwitch     (** the test [ardco->subp==subp] *)
  | AtSwap.      (** the [casp] *)
#[export] Instance place_eq_dec : EqDecision place.
Proof. solve_decision. Defined.

(** The registers of a thread in a call, and what its calls have given so far: the
    result code and what was copied to [recvbuf]. *)
Record thread (A : Type) := Thread {
  pc : place; reg : bool; cnt : nat; ret : Z; got : option (list A); log : list (Z * option (list A))
}.
Arguments Thread {A}.
Arguments pc {A}.
Arguments reg {A}.
Arguments cnt {A}.
Arguments ret {A}.
Arguments got {A}.
Arguments log {A}.
#[export] Instance eta_thread A : Eta (thread A) :=
  MkEta _ (fun r => Thread (pc r) (reg r) (cnt r) (ret r) (got r) (log r)).

(** A thread and, while it is in the loop of [simple_reduce], its place there: the part
    of its [sendbuf] that it reduces, the index, the value it has read. *)
Record caller (A : Type) := Caller { regs : thread A; inloop : option (worker (A:=A)) }.
Arguments Caller {A}.
Arguments regs {A}.
Arguments inloop {A}.

(** What a step comes to: a new state of the object and of the thread, of type [T], and
    whether [thr_cnd_bcast] is called; the thread sleeps; undefined behaviour. *)
Inductive effect (A T : Type) :=
  | Moves (b : tmpi_AllreduceObj A) (th : T) (broadcast : bool)
  | Blocked
  | Undefined.
Arguments Moves {A T}.
Arguments Blocked {A T}.
Arguments Undefined {A T}.

Section Body.
Context {A : Type}.

Definition goes (p : place) (th : thread A) : thread A := th <| pc := p |>.
Definition returns (th : thread A) : thread A :=
  th <| pc := Outside |> <| log := log th ++ [(ret th, got th)] |>.

(** The next step of a thread whose [sendbuf] holds [send]; [nomem] makes the
    allocation fail; [reduce] is what it does where it reduces. *)
Definition ardco_body (reduce : effect A (thread A)) (nomem : bool) (send : list A)
    (b : tmpi_AllreduceObj A) (th : thread A) : effect A (thread A) :=
  let i := reg th in
  let s := sub_at b i in
  match pc th with
  | Outside =>
      if group_size b <? 2
      then Moves b (th <| log := log th ++ [(0, Some send)] |>) false
      else Moves b (Thread AtFirst (subp b) (length send) 0 None (log th)) false
  | AtFirst => Moves b (goes (if avail s =? -1 then AtClaim else AtWait) th) false
  | AtClaim =>
      if avail s =? -1
      then Moves (set_sub i (s <| avail := 0 |>) b) (goes Filling th) false
      else Moves b (goes AtWait th) false
  | Filling =>
      if nomem
      then Moves (set_sub i (s <| data := Null |> <| count := 0%nat |>) b) (goes ToPublish th <| ret := -2 |>) false
      else Moves (set_sub i (s <| data := Live send |> <| count := cnt th |>) b) (goes ToPublish th) false
  | ToPublish => Moves (set_sub i (s <| avail := 1 |>) b) (goes AtTest th) true
  | AtWait | Woken => Moves b (goes (if avail s =? 0 then Asleep else Reducing) th) false
  | Asleep | Asleep2 => Blocked
  | Reducing => reduce
  | ToCount =>
      let s := s <| avail := avail s + 1 |> in
      Moves (set_sub i s b) (goes AtTest th) (avail s =? group_size b)
  | AtTest => Moves b (goes (if negb (avail s =? group_size b) then AtResult else Copying) th) false
  | AtResult | Woken2 => Moves b (goes (if negb (avail s =? group_size b) then Asleep2 else Copying) th) false
  | Copying =>
      match data s with
      | Live l => Moves b (goes AtDone th <| got := Some (take (cnt th) l) |>) false
      | Null => Moves b (goes AtDone th) false
      | Freed => Undefined
      end
  | AtDone =>
      let s := s <| done_ := done_ s + 1 |> in
      Moves (set_sub i s b) (goes (if done_ s =? group_size b then Resetting else AtSwitch) th) false
  | Resetting =>
      match data s with
      | Freed => Undefined
      | Live _ => Moves (set_sub i (mkSub (-1) 0 Freed (count s)) b) (goes AtSwitch th) false
      | Null => Moves (set_sub i (mkSub (-1) 0 Null (count s)) b) (goes AtSwitch th) false
      end
  | AtSwitch => Moves b (if eqb (subp b) i then goes AtSwap th else returns th) false
  | AtSwap => Moves (if eqb (subp b) i then set_subp (negb i) b else b) (returns th) false
  end.

(** The broadcast: one condition variable for both loops and both sub-objects. *)
Definition wake (th : thread A) : thread A :=
  match pc th with Asleep => goes Woken th | Asleep2 => goes Woken2 th | _ => th end.

End Body.

(** ** Threads *)

Section Step.
Context {A : Type} `{!EqDecision A} (o : option (rdc_op A)).

(** The thread leaves [simple_reduce], or does not call it, with this [count]. *)
Definition reduced (c : nat) (th : thread A) : caller A := Caller (goes ToCount th <| cnt := c |>) None.

(** [count=MIN(count, subp->count)], the test of [subp->data], the call of
    [simple_reduce]: a type or an operator it does not know is only reported. *)
Definition ardco_enter (send : list A) (b : tmpi_AllreduceObj A) (th : thread A) : effect A (caller A) :=
  let s := sub_at b (reg th) in
  let c := Nat.min (cnt th) (count s) in
  match data s with
  | Live _ =>
      match o with
      | Some _ => Moves b (Caller th (Some (Worker (take c send) 0 None))) false
      | None => Moves b (reduced c th) false
      end
  | Null => Moves b (reduced c (th <| ret := -2 |>)) false
  | Freed => Undefined
  end.

(** A step in the loop of [simple_reduce], at element [pos w]. *)
Definition ardco_loop (w : worker) (b : tmpi_AllreduceObj A) (th : thread A) : effect A (caller A) :=
  let s := sub_at b (reg th) in
  match worker_at w with
  | None => Moves b (reduced (length (source w)) th) false
  | Some _ =>
      match o, data s with
      | Some op, Live l =>
          match rdc_run op l w with
          | Some (l', w') => Moves (set_sub (reg th) (s <| data := Live l' |>) b) (Caller th (Some w')) false
          | None => Undefined
          end
      | _, _ => Undefined
      end
  end.

Definition outside_loop (e : effect A (thread A)) : effect A (caller A) :=
  match e with Moves b th w => Moves b (Caller th None) w | Blocked => Blocked | Undefined => Undefined end.

(** The next step of a thread. *)
Definition ardco_run (nomem : bool) (send : list A) (b : tmpi_AllreduceObj A) (c : caller A) : effect A (caller A) :=
  let th := regs c in
  match inloop c, pc th with
  | Some w, _ => ardco_loop w b th
  | None, Reducing => ardco_enter send b th
  | None, _ => outside_loop (ardco_body Blocked nomem send b th)
  end.

Definition wake_caller (c : caller A) : caller A := Caller (wake (regs c)) (inloop c).

(** Thread [t] calls with [sends t k] in its call number [k]. *)
Context (sends : nat -> nat -> list A).

Definition system : Type := tmpi_AllreduceObj A * list (caller A).

Inductive ardco_step : system -> system -> Prop :=
  | step_run nomem b cs t c b' c' w :
      cs !! t = Some c ->
      ardco_run nomem (sends t (length (log (regs c)))) b c = Moves b' c' w ->
      ardco_step (b, cs) (b', (if w then fmap wake_caller else id) (<[t := c']> cs))
  | step_spurious b cs t c :
      cs !! t = Some c ->
      ardco_step (b, cs) (b, <[t := wake_caller c]> cs).

(** As many threads as the object is for, all outside. *)
Definition ardco_start (n : nat) : system :=
  (tmpi_ardco_create (Z.of_nat n), replicate n (Caller (Thread Outside false 0 0 None []) None)).
Definition ardco_reachable (n : nat) (s : system) : Prop := rtc ardco_step (ardco_start n) s.
End Step.

(** ** The specification: [simple_reduce] in one step *)

Section Atomic.
Context {A : Type} (o : option (rdc_op A)).

Definition ardco_atomic (nomem : bool) (send : list A) (b : tmpi_AllreduceObj A) (th : thread A) : effect A (thread A) :=
  let s := sub_at b (reg th) in
  let c := Nat.min (cnt th) (count s) in
  ardco_body
    match data s with
    | Live l => Moves (set_sub (reg th) (s <| data := Live (reduce_into o c l send) |>) b) (goes ToCount th <| cnt := c |>) false
    | Null => Moves b (goes ToCount th <| cnt := c |> <| ret := -2 |>) false
    | Freed => Undefined
    end nomem send b th.

Context (sends : nat -> nat -> list A).

Definition atomic_system : Type := tmpi_AllreduceObj A * list (thread A).

Inductive atomic_step : atomic_system -> atomic_system -> Prop :=
  | atomic_run nomem b ths t th b' th' w :
      ths !! t = Some th ->
      ardco_atomic nomem (sends t (length (log th))) b th = Moves b' th' w ->
      atomic_step (b, ths) (b', (if w then fmap wake else id) (<[t := th']> ths))
  | atomic_spurious b ths t th :
      ths !! t = Some th ->
      atomic_step (b, ths) (b, <[t := wake th]> ths).

Definition atomic_start (n : nat) : atomic_system :=
  (tmpi_ardco_create (Z.of_nat n), replicate n (Thread Outside false 0 0 None [])).
Definition atomic_reachable (n : nat) (s : atomic_system) : Prop := rtc atomic_step (atomic_start n) s.
End Atomic.
