(* ===== verification/AllreduceCtrl.v ===== *)
(** Control in the allreduce object: which thread may be where, and how the counters
    of the two sub-objects follow from it. *)
From stdpp Require Import relations.
From S2P Require Import Prelude Types RdcOp ElementWise Allreduce.

Open Scope Z_scope.

(** ** Control: who is where *)

(** The sub-object of round [g]. *)
Notation cur_of g := (Nat.odd g).

Section Control.
Context {A : Type} (o : option (rdc_op A)) (sends : nat -> nat -> list A).

(** The number of calls a thread has completed. *)
Definition rnd (th : thread A) : nat := length (log th).

Definition filling (th : thread A) : bool :=
  match pc th with Filling | ToPublish => true | _ => false end.
(** Counted in [avail] of round [g]. *)
Definition counted (g : nat) (th : thread A) : bool :=
  match pc th with AtTest | AtResult | Asleep2 | Woken2 => (rnd th =? g)%nat | _ => false end.
(** Counted in [done] of the round before, if there is one. *)
Definition finished (g : nat) (th : thread A) : bool :=
  (rnd th =? g)%nat || match pc th with Resetting | AtSwitch | AtSwap => true | _ => false end.
Definition resetting (th : thread A) : bool :=
  match pc th with Resetting => true | _ => false end.

(** Round [g] collects in the sub-object [cur], whose [avail] is [a]; threads leave
    round [g-1] with the other one. *)
Definition place_ok (g : nat) (cur : bool) (a : Z) (th : thread A) : Prop :=
  match pc th with
  | Outside => rnd th = g
  | AtFirst | AtClaim | Filling | ToPublish | Asleep2 => rnd th = g /\ reg th = cur
  | AtWait | Woken => rnd th = g /\ reg th = cur /\ 0 <= a
  | Asleep => rnd th = g /\ reg th = cur /\ a = 0
  | Reducing | ToCount => rnd th = g /\ reg th = cur /\ 1 <= a
  | AtTest | AtResult | Woken2 => rnd th = g /\ reg th = cur \/ S (rnd th) = g /\ reg th = negb cur
  | Copying | AtDone | Resetting | AtSwitch | AtSwap => S (rnd th) = g /\ reg th = negb cur
  end.

(** The fields of the current sub-object and of the other one, by the numbers of
    threads that fill, are counted, have finished the round before, and reset. *)
Definition tally (n : nat) (cur old : sub A) (f k d x : nat) : Prop :=
  ((f = 0 /\ k = 0 /\ avail cur = (-1)%Z \/ f = 1 /\ k = 0 /\ avail cur = 0%Z \/
    f = 0 /\ 1 <= k < n /\ avail cur = Z.of_nat k) /\ done_ cur = 0%Z /\
   (d < n /\ x = 0 /\ avail old = Z.of_nat n /\ done_ old = Z.of_nat d \/
    d = n /\ x = 1 /\ avail old = Z.of_nat n /\ done_ old = Z.of_nat n \/
    d = n /\ x = 0 /\ avail old = (-1)%Z /\ done_ old = 0%Z))%nat.

Record ctrl_inv (n g : nat) (s : atomic_system) : Prop := CtrlInv {
  ci_size : group_size s.1 = Z.of_nat n;
  ci_two : (2 <= n)%nat;
  ci_len : length s.2 = n;
  ci_tally : tally n (sub_at s.1 (cur_of g)) (sub_at s.1 (negb (cur_of g)))
    (count_if filling s.2) (count_if (counted g) s.2) (count_if (finished g) s.2) (count_if resetting s.2);
  ci_subp : subp s.1 = cur_of g \/ Forall (fun th => S (rnd th) = g) s.2;
  ci_place : Forall (place_ok g (cur_of g) (avail (sub_at s.1 (cur_of g)))) s.2
}.

Lemma sub_at_set (i j : bool) (s : sub A) b : sub_at (set_sub i s b) j = if eqb i j then s else sub_at b j.
Proof. by destruct i, j. Qed.
Lemma subp_set (i : bool) (s : sub A) b : subp (set_sub i s b) = subp b.
Proof. by destruct i. Qed.
Lemma size_set (i : bool) (s : sub A) b : group_size (set_sub i s b) = group_size b.
Proof. by destruct i. Qed.

Lemma sub_at_subp (i j : bool) (b : tmpi_AllreduceObj A) : sub_at (set_subp i b) j = sub_at b j.
Proof. by destruct j. Qed.
Lemma size_subp (i : bool) (b : tmpi_AllreduceObj A) : group_size (set_subp i b) = group_size b.
Proof. done. Qed.
Lemma subp_subp (i : bool) (b : tmpi_AllreduceObj A) : subp (set_subp i b) = i.
Proof. done. Qed.

Definition wake_if (w : bool) (th : thread A) : thread A := if w then wake th else th.

Lemma wake_if_list (w : bool) (ths : list (thread A)) : (if w then fmap wake else id : list (thread A) -> list (thread A)) ths = wake_if w <$> ths.
Proof. destruct w; [done|]. symmetry. exact (list_fmap_id ths). Qed.

Lemma rnd_wake_if w th : rnd (wake_if w th) = rnd th.
Proof. destruct w; [|done]. unfold wake_if, wake, rnd. by destruct th as [[] ? ? ? ? ?]. Qed.

Lemma filling_wake_if w th : filling (wake_if w th) = filling th.
Proof. destruct w; [|done]. by destruct th as [[] ? ? ? ? ?]. Qed.
Lemma counted_wake_if w g th : counted g (wake_if w th) = counted g th.
Proof. destruct w; [|done]. by destruct th as [[] ? ? ? ? ?]. Qed.
Lemma finished_wake_if w g th : finished g (wake_if w th) = finished g th.
Proof. destruct w; [|done]. by destruct th as [[] ? ? ? ? ?]. Qed.
Lemma resetting_wake_if w th : resetting (wake_if w th) = resetting th.
Proof. destruct w; [|done]. by destruct th as [[] ? ? ? ? ?]. Qed.

(** A broadcast makes up for a change of [avail]. *)
Lemma place_ok_mono g cur a a' w th :
  a <= a' -> (a = a' \/ w = true /\ 1 <= a' \/ a <> 0) -> place_ok g cur a th -> place_ok g cur a' (wake_if w th).
Proof.
  intros Ha Hw. destruct w; destruct th as [[] i c r gt lg]; unfold wake_if, wake, place_ok, rnd; cbn; intros H;
    repeat match goal with H : _ /\ _ |- _ => destruct H end; try done; try lia; auto with lia.
Qed.

(** The numbers of a property of threads change as the moving thread does. *)
Lemma count_move (p : thread A -> bool) w ths t th th' :
  (forall x, p (wake_if w x) = p x) -> ths !! t = Some th ->
  (count_if p (wake_if w <$> <[t := th']> ths) + (if p th then 1 else 0) =
   count_if p ths + (if p th' then 1 else 0))%nat.
Proof. intros Hp Ht. rewrite count_if_fmap by done. by apply count_if_insert. Qed.

(** A step of thread [t] that does not end the collection of round [g]. *)
Lemma ctrl_move n g b ths t th b' th' w f k d x :
  ctrl_inv n g (b, ths) -> ths !! t = Some th ->
  f = count_if filling ths -> k = count_if (counted g) ths ->
  d = count_if (finished g) ths -> x = count_if resetting ths ->
  group_size b' = group_size b ->
  (subp b' = cur_of g \/ subp b' = subp b /\ rnd th' = rnd th) ->
  (let a := avail (sub_at b (cur_of g)) in let a' := avail (sub_at b' (cur_of g)) in
   a <= a' /\ (a = a' \/ w = true /\ 1 <= a' \/ a <> 0)) ->
  place_ok g (cur_of g) (avail (sub_at b' (cur_of g))) (wake_if w th') ->
  (forall f' k' d' x',
    (f' + (if filling th then 1 else 0) = f + (if filling th' then 1 else 0))%nat ->
    (k' + (if counted g th then 1 else 0) = k + (if counted g th' then 1 else 0))%nat ->
    (d' + (if finished g th then 1 else 0) = d + (if finished g th' then 1 else 0))%nat ->
    (x' + (if resetting th then 1 else 0) = x + (if resetting th' then 1 else 0))%nat ->
    tally n (sub_at b' (cur_of g)) (sub_at b' (negb (cur_of g))) f' k' d' x') ->
  ctrl_inv n g (b', wake_if w <$> <[t := th']> ths).
Proof.
  intros [Hn H2 Hl Ht Hs Hp] Hth -> -> -> -> Hsz Hsub [Ha Hw] Hpl Hta. cbn [fst snd] in *.
  split; cbn [fst snd]; rewrite ?length_fmap, ?length_insert; try done; try congruence.
  - apply Hta.
    + apply count_move; [apply filling_wake_if|done].
    + apply count_move; [apply counted_wake_if|done].
    + apply count_move; [apply finished_wake_if|done].
    + apply count_move; [apply resetting_wake_if|done].
  - destruct Hsub as [?|[E R]]; [by left|]. rewrite E. destruct Hs as [?|Hs]; [by left|right].
    apply Forall_fmap, Forall_insert.
    + eapply Forall_impl; [exact Hs|]. intros x Hx. cbn in *. by rewrite rnd_wake_if.
    + cbn. rewrite rnd_wake_if, R. exact (proj1 (Forall_lookup _ _) Hs _ _ Hth).
  - apply Forall_fmap, Forall_insert; [|done].
    eapply Forall_impl; [exact Hp|]. intros x Hx. by eapply place_ok_mono.
Qed.

Lemma odd_S g : Nat.odd (S g) = negb (Nat.odd g).
Proof. by rewrite Nat.odd_succ, <- Nat.negb_odd. Qed.

(** What a thread that was counted is once the collection has ended. *)
Lemma counted_leaves g cur a x :
  place_ok g cur a x -> counted g x = true ->
  place_ok (S g) (negb cur) (-1) (wake x) /\ rnd x = g /\ filling (wake x) = false /\
  counted (S g) (wake x) = false /\ finished (S g) (wake x) = false /\ resetting x = false /\ resetting (wake x) = false.
Proof.
  destruct x as [[] i c r gt lg]; unfold place_ok, counted, finished, filling, resetting, wake, goes; cbn; try done;
    intros Hp Hc; apply Nat.eqb_eq in Hc; unfold rnd in *; cbn in *; rewrite Hc in *;
    rewrite negb_involutive, (proj2 (Nat.eqb_neq g (S g))) by lia; cbn;
    (destruct Hp as [[_ ->]|[? _]] || destruct Hp as [_ ->]); try lia; auto 10.
Qed.

(** When [avail] is one short, all threads but one have been counted. *)
Lemma last_counted n g b ths t th th' :
  ctrl_inv n g (b, ths) -> ths !! t = Some th -> pc th = ToCount ->
  avail (sub_at b (reg th)) + 1 = group_size b -> counted g th' = true ->
  Forall (fun x => counted g x = true) (<[t := th']> ths).
Proof.
  intros [Hn H2 Hl (HC & _) _ Hp] Hth Hpc Ha Hc. cbn [fst snd] in *.
  pose proof (proj1 (Forall_lookup _ _) Hp _ _ Hth) as Hpl. unfold place_ok in Hpl. rewrite Hpc in Hpl.
  destruct Hpl as (_ & Hreg & _). rewrite Hreg in Ha.
  pose proof (count_if_insert (counted g) ths t th th' Hth) as Ck. rewrite Hc in Ck.
  unfold counted at 2 in Ck. rewrite Hpc in Ck. apply count_if_all. rewrite length_insert. lia.
Qed.

(** The last thread to reduce ends the collection of round [g]. *)
Lemma ctrl_last n g b ths t th :
  ctrl_inv n g (b, ths) -> ths !! t = Some th -> pc th = ToCount ->
  avail (sub_at b (reg th)) + 1 = group_size b ->
  ctrl_inv n (S g)
    (set_sub (reg th) (sub_at b (reg th) <| avail := avail (sub_at b (reg th)) + 1 |>) b,
     wake <$> <[t := goes AtTest th]> ths).
Proof.
  intros HI Hth Hpc Ha. pose proof HI as [Hn H2 Hl Ht Hs Hp]. cbn [fst snd] in *.
  pose proof (last_counted _ _ _ _ _ _ (goes AtTest th) HI Hth Hpc Ha) as Hall.
  pose proof (proj1 (Forall_lookup _ _) Hp _ _ Hth) as Hpl. unfold place_ok in Hpl. rewrite Hpc in Hpl.
  destruct Hpl as (Hr & Hreg & Ha1). rewrite Hreg in *. set (cur := Nat.odd g) in *.
  assert (pc (goes AtTest th) = AtTest /\ rnd (goes AtTest th) = g /\ reg (goes AtTest th) = cur) as (Hpc' & Hr' & Hreg') by done.
  revert Hall Hpc' Hr' Hreg'. generalize (goes AtTest th). intros th' Hall Hpc' Hr' Hreg'. set (ths' := <[t := th']> ths) in *.
  pose proof (count_if_insert (finished g) ths t th th' Hth) as Cd.
  pose proof (count_if_insert resetting ths t th th' Hth) as Cx.
  unfold finished at 2 4 in Cd. unfold resetting at 2 4 in Cx.
  rewrite Hpc, Hpc' in Cd, Cx. rewrite Hr, Hr', Nat.eqb_refl in *. cbn in Cd, Cx.
  fold ths' in Cd, Cx. destruct Ht as (Hc & HdC & Hold).
  assert (Forall (fun x => counted g x = true) ths') as Hall'.
  { apply Hall. unfold counted. rewrite Hpc', Hr'. apply Nat.eqb_refl. }
  clear Hall. rename Hall' into Hall.
  assert (Forall (place_ok g cur (avail (sub_at b cur))) ths') as Hp'.
  { apply Forall_insert; [done|]. unfold place_ok. rewrite Hpc'. by left. }
  assert (Forall (fun x => place_ok (S g) (negb cur) (-1) (wake x) /\ rnd x = g /\ filling (wake x) = false /\
    counted (S g) (wake x) = false /\ finished (S g) (wake x) = false /\ resetting x = false /\ resetting (wake x) = false) ths') as HF.
  { apply Forall_lookup. intros u x Hu. rewrite Forall_lookup in Hall, Hp'. eapply counted_leaves; eauto. }
  repeat (apply Forall_and in HF as [? HF]).
  assert (count_if (finished g) ths' = n) as Hd.
  { rewrite <- Hl, <- (length_insert ths t th'). apply count_if_all.
    eapply Forall_impl; [exact H0|]. intros x <-. unfold finished. by rewrite Nat.eqb_refl. }
  assert (count_if resetting ths' = O) as Hx by (by apply count_if_none).
  assert (forall p, Forall (fun x => p (wake x) = false) ths' -> count_if p (wake <$> ths') = O) as Hw.
  { intros p Hf. apply count_if_none, Forall_fmap. exact Hf. }
  split; cbn [fst snd]; rewrite ?odd_S, ?size_set, ?subp_set, ?sub_at_set, ?length_fmap; fold cur; try done.
  - unfold ths'. by rewrite length_insert.
  - rewrite !Hw, negb_involutive, eqb_reflx by done. replace (eqb cur (negb cur)) with false by (by destruct cur).
    unfold tally. cbn. repeat split; lia.
  - right. apply Forall_fmap. eapply Forall_impl; [exact H0|]. intros x <-. cbn. f_equal. exact (rnd_wake_if true x).
  - apply Forall_fmap. replace (eqb cur (negb cur)) with false by (by destruct cur).
    replace (avail (sub_at b (negb cur))) with (-1) by lia. done.
Qed.

(** The step that ends the collection of a round. *)
Definition ends (b : tmpi_AllreduceObj A) (th : thread A) : bool :=
  match pc th with ToCount => avail (sub_at b (reg th)) + 1 =? group_size b | _ => false end.

Lemma eqb_negb_r c : eqb c (negb c) = false.
Proof. by destruct c. Qed.
Lemma eqb_negb_l c : eqb (negb c) c = false.
Proof. by destruct c. Qed.

Lemma not_eq_negb (x y : bool) : x <> y -> x = negb y.
Proof. by destruct x, y. Qed.

(** Splits the tests of the step, and turns them into equations. *)
Ltac split_tests H :=
  repeat match type of H with
  | context [if ?c then _ else _] => destruct c eqn:?
  | context [match data ?s with _ => _ end] => destruct (data s) eqn:?
  end; cbn [negb] in H; try discriminate H;
  repeat match goal with
  | E : (_ =? _) = true |- _ => apply Z.eqb_eq in E
  | E : (_ =? _) = false |- _ => apply Z.eqb_neq in E
  | E : eqb _ _ = true |- _ => apply eqb_prop in E
  | E : eqb _ _ = false |- _ => apply eqb_false_iff, not_eq_negb in E
  end.

(** The premises of [ctrl_move]. *)
Ltac ctrl_unfold :=
  unfold place_ok, wake_if, wake, goes, returns, filling, counted, finished, resetting in *; unfold rnd in *;
  cbn [pc reg cnt ret got log avail done_ data count upd] in *; rewrite ?length_app in *; cbn [length] in *.
Ltac ctrl_simpl :=
  rewrite ?size_set, ?subp_set, ?sub_at_set, ?size_subp, ?subp_subp, ?sub_at_subp, ?eqb_reflx, ?eqb_negb_l, ?eqb_negb_r; ctrl_unfold.
Ltac pick := first [left; lia | right; left; lia | right; right; lia].
(** The numbers after the step, by the ones before. *)
Ltac tally_case :=
  intros ? ? ? ?;
  repeat match goal with |- context [(?a =? ?b)%nat] => destruct (Nat.eqb_spec a b); try lia end; cbn [orb];
  (split; cbn [avail done_]; [pick|(split; cbn [avail done_]; [lia|pick])]).
Ltac ctrl_case HI Hth Ef Ek Ed Ex :=
  eapply (ctrl_move _ _ _ _ _ _ _ _ _ _ _ _ _ HI Hth Ef Ek Ed Ex);
  [ctrl_simpl; done|ctrl_simpl; rewrite ?negb_involutive in *; auto|ctrl_simpl; auto with lia|ctrl_simpl; auto with lia|ctrl_simpl; tally_case].

(** A thread that is not in the round before shows that the object has switched. *)
Lemma switched n g b ths t th :
  ctrl_inv n g (b, ths) -> ths !! t = Some th -> rnd th = g -> subp b = cur_of g.
Proof.
  intros HI Hth Hr. destruct (ci_subp _ _ _ HI) as [?|Hs]; [done|].
  pose proof (proj1 (Forall_lookup _ _) Hs _ _ Hth) as Hg. cbn in Hg. lia.
Qed.

(** Every step of a thread keeps the invariant. *)
Lemma ctrl_run n g b ths t th nomem send b' th' w :
  ctrl_inv n g (b, ths) -> ths !! t = Some th -> ardco_atomic o nomem send b th = Moves b' th' w ->
  ctrl_inv n (if ends b th then S g else g) (b', wake_if w <$> <[t := th']> ths).
Proof.
  intros HI Hth Hrun. destruct (ends b th) eqn:Hends.
  { unfold ends in Hends. destruct (pc th) eqn:Hpc; try done. apply Z.eqb_eq in Hends.
    unfold ardco_atomic, ardco_body in Hrun. rewrite Hpc in Hrun. injection Hrun as <- <- <-. cbn [avail upd].
    rewrite (proj2 (Z.eqb_eq _ _) Hends). by apply (ctrl_last n g b ths t th). }
  pose proof (proj1 (Forall_lookup _ _) (ci_place _ _ _ HI) _ _ Hth) as Hpl.
  pose proof (switched _ _ _ _ _ _ HI Hth) as Hsw.
  pose proof HI as [Hn H2 Hl (HC & HdC & HO) _ _]. cbn [fst snd] in *.
  pose proof (count_if_bounds (counted g) _ _ _ Hth) as B1.
  pose proof (count_if_bounds (finished g) _ _ _ Hth) as B2.
  pose proof (count_if_bounds filling _ _ _ Hth) as B3.
  pose proof (count_if_bounds resetting _ _ _ Hth) as B4.
  remember (count_if filling ths) as f eqn:Ef. remember (count_if (counted g) ths) as k eqn:Ek.
  remember (count_if (finished g) ths) as d eqn:Ed. remember (count_if resetting ths) as x eqn:Ex.
  unfold ends in Hends. destruct th as [p i c r gt lg].
  unfold place_ok in Hpl. unfold ardco_atomic, ardco_body in Hrun. unfold counted in B1. unfold finished in B2.
  unfold rnd in Hsw, Hpl, B1, B2. cbn [pc reg cnt ret got log] in *.
  destruct p; split_tests Hrun; injection Hrun as <- <- <-; cbn [avail upd];
    try (rewrite (proj2 (Z.eqb_neq _ _) Hends)).
  all: lazymatch type of Hpl with
       | _ \/ _ => destruct Hpl as [[Hr ->]|[Hr ->]]
       | _ /\ _ /\ _ => destruct Hpl as [Hr [-> Ha]]
       | _ /\ _ => destruct Hpl as [Hr ->]
       | _ => rename Hpl into Hr end.
  all: repeat match type of B1 with context [(?a =? ?b)%nat] => destruct (Nat.eqb_spec a b); try lia end.
  all: repeat match type of B2 with context [(?a =? ?b)%nat] => destruct (Nat.eqb_spec a b); try lia end; cbn [orb] in *.
  all: destruct HC as [HC|[HC|HC]]; try lia; destruct HO as [HO|[HO|HO]]; try lia.
  all: ctrl_case HI Hth Ef Ek Ed Ex.
Qed.

Lemma wake_wake_if th : wake th = wake_if true th.
Proof. done. Qed.

(** So do spurious wake-ups. *)
Lemma ctrl_spurious n g b ths t th :
  ctrl_inv n g (b, ths) -> ths !! t = Some th -> ctrl_inv n g (b, <[t := wake th]> ths).
Proof.
  intros HI Hth. pose proof (proj1 (Forall_lookup _ _) (ci_place _ _ _ HI) _ _ Hth) as Hpl.
  replace (<[t := wake th]> ths) with (wake_if false <$> <[t := wake th]> ths)
    by (symmetry; apply (wake_if_list false)).
  eapply (ctrl_move _ _ _ _ _ _ _ _ _ _ _ _ _ HI Hth eq_refl eq_refl eq_refl eq_refl); try done.
  - right. split; [done|]. exact (rnd_wake_if true th).
  - split; [done|]. by left.
  - refine (place_ok_mono _ _ _ _ true _ _ _ Hpl); [done|by left].
  - intros f' k' d' x'. rewrite wake_wake_if, filling_wake_if, counted_wake_if, finished_wake_if, resetting_wake_if.
    intros Hf Hk Hd Hx. replace f' with (count_if filling ths) by lia. replace k' with (count_if (counted g) ths) by lia.
    replace d' with (count_if (finished g) ths) by lia. replace x' with (count_if resetting ths) by lia.
    exact (ci_tally _ _ _ HI).
Qed.

Lemma ctrl_start n : (2 <= n)%nat -> ctrl_inv n 0 (atomic_start n).
Proof.
  intros Hn. assert (forall p : thread A -> bool, p (Thread Outside false 0 0 None []) = false ->
    count_if p (replicate n (Thread Outside false 0 0 None [])) = O) as Hp.
  { intros p Hp. by apply count_if_none, Forall_replicate. }
  split; cbn; rewrite ?length_replicate; try done.
  - rewrite (Hp filling), (Hp (counted 0)), (Hp resetting) by done. replace (count_if (finished 0) _) with n; [split; [by left|]; split; [done|]; right; by right|].
    symmetry. rewrite <- (length_replicate n (Thread (A:=A) Outside false 0 0 None [])) at 2.
    apply count_if_all, Forall_replicate. done.
  - by left.
  - by apply Forall_replicate.
Qed.
End Control.
