(* ===== verification/AllreduceData.v ===== *)
(** Data in the allreduce object: the block of a round holds what its threads have
    contributed, and every caller gets it. *)
From stdpp Require Import relations.
From S2P Require Import Prelude Types RdcOp ElementWise Allreduce AllreduceCtrl.

Open Scope Z_scope.

Section Data.
Context {A : Type} (o : option (rdc_op A)) (sends : nat -> nat -> list A).

(** ** Data: what is reduced and what comes back *)

(** The number of elements is the same in all threads' calls of a round. *)
Hypothesis same_count : forall t u k, length (sends t k) = length (sends u k).

(** What the callers get when the round's block is this. *)
Definition outcome_of (blk : block A) : Z * option (list A) :=
  match blk with Live l => (0, Some l) | _ => (-2, None) end.

Definition reduce_all (k : nat) (first : nat) (rest : list nat) : list A :=
  fold_left (fun r u => reduce_into o (length r) r (sends u k)) rest (sends first k).

(** The contributions of the threads [order] to round [k] were reduced in that order,
    or there was no memory. *)
Definition serial (k : nat) (order : list nat) (blk : block A) : Prop :=
  blk = Null \/ exists first rest, order = first :: rest /\ blk = Live (reduce_all k first rest).

Definition agrees (blk : block A) (th : thread A) : Prop :=
  got th = None /\
  match blk with
  | Live l => ret th = 0 /\ cnt th = length l
  | Null => ret th = -2
  | Freed => False
  end.

(** The data of the thread has been reduced in round [g]. *)
Definition contributed (g : nat) (th : thread A) : bool :=
  match pc th with
  | ToPublish | ToCount | AtTest | AtResult | Asleep2 | Woken2 => (rnd th =? g)%nat
  | _ => false
  end.

(** Registers and past results of thread [t]; [R] holds the results of the rounds so far. *)
Definition regs_ok (R : list (Z * option (list A))) (g : nat) (b : tmpi_AllreduceObj A) (t : nat) (th : thread A) : Prop :=
  log th `prefix_of` R /\
  match pc th with
  | Outside => True
  | AtFirst | AtClaim | Filling | AtWait | Asleep | Woken | Reducing =>
      ret th = 0 /\ cnt th = length (sends t g) /\ got th = None
  | ToPublish | ToCount | AtTest | AtResult | Asleep2 | Woken2 | Copying => agrees (data (sub_at b (reg th))) th
  | AtDone | Resetting | AtSwitch | AtSwap => R !! rnd th = Some (ret th, got th)
  end.

(** Every result in [R] is the reduction of all contributions in some order. *)
Definition rounds_ok (n : nat) (R : list (Z * option (list A))) : Prop :=
  forall j e, R !! j = Some e ->
    exists order blk, order ≡ₚ seq 0 n /\ serial j order blk /\ e = outcome_of blk.

Definition block_ok (g : nat) (s : sub A) : Prop :=
  match data s with
  | Live l => count s = length l /\ length l = length (sends 0%nat g)
  | Null => count s = 0%nat
  | Freed => False
  end.

Record data_inv (n g : nat) (R : list (Z * option (list A))) (s : atomic_system) : Prop := DataInv {
  di_len : length R = g;
  di_rounds : rounds_ok n R;
  di_regs : forall t th, s.2 !! t = Some th -> regs_ok R g s.1 t th;
  di_old : avail (sub_at s.1 (negb (cur_of g))) = Z.of_nat n ->
    data (sub_at s.1 (negb (cur_of g))) <> Freed /\
    R !! pred g = Some (outcome_of (data (sub_at s.1 (negb (cur_of g)))));
  di_cur : exists order, NoDup order /\
    (forall t, t ∈ order <-> exists th, s.2 !! t = Some th /\ contributed g th = true) /\
    (order <> [] -> serial g order (data (sub_at s.1 (cur_of g))) /\ block_ok g (sub_at s.1 (cur_of g)))
}.

Lemma contributed_wake_if w g (th : thread A) : contributed g (wake_if w th) = contributed g th.
Proof. destruct w; [|done]. by destruct th as [[] ? ? ? ? ?]. Qed.

Lemma log_wake_if w (th : thread A) : log (wake_if w th) = log th.
Proof. destruct w; [|done]. by destruct th as [[] ? ? ? ? ?]. Qed.

(** The places where the block matters. *)
Definition uses_block (th : thread A) : bool :=
  match pc th with
  | ToPublish | ToCount | AtTest | AtResult | Asleep2 | Woken2 | Copying => true
  | _ => false
  end.

(** Another thread's registers after a step, if it does not depend on what changed. *)
Lemma regs_other R g b b' w u x :
  regs_ok R g b u x ->
  (uses_block x = true -> agrees (data (sub_at b (reg x))) x -> agrees (data (sub_at b' (reg x))) x) ->
  regs_ok R g b' u (wake_if w x).
Proof.
  intros [Hl Hp] Hag. split; [by rewrite log_wake_if|].
  destruct w; destruct x as [[] i c r gt lg]; unfold wake_if, wake, goes in *; cbn in *; auto.
Qed.

Lemma wake_if_lookup w ths t th' u (x : thread A) :
  (t < length ths)%nat -> (wake_if w <$> <[t := th']> ths) !! u = Some x ->
  u = t /\ x = wake_if w th' \/ u <> t /\ exists y, ths !! u = Some y /\ x = wake_if w y.
Proof.
  intros Hlt. rewrite list_lookup_fmap. destruct (decide (u = t)) as [->|Hne].
  - rewrite list_lookup_insert_eq by done. intros [= <-]. by left.
  - rewrite list_lookup_insert_ne by done. intros H. right. split; [done|].
    destruct (ths !! u) as [y|] eqn:E; [|done]. injection H as <-. eauto.
Qed.

(** The threads that contributed, when a thread moves. *)
Lemma contributed_move g w (ths : list (thread A)) t th th' order :
  ths !! t = Some th ->
  (forall u, u ∈ order <-> exists x, ths !! u = Some x /\ contributed g x = true) ->
  (contributed g th = true -> contributed g th' = true) ->
  forall u, u ∈ (if contributed g th' && negb (contributed g th) then order ++ [t] else order) <->
    exists x, (wake_if w <$> <[t := th']> ths) !! u = Some x /\ contributed g x = true.
Proof.
  intros Ht Ho Hm u. pose proof (lookup_lt_Some _ _ _ Ht) as Hlt. rewrite list_lookup_fmap.
  destruct (decide (u = t)) as [->|Hne].
  - rewrite list_lookup_insert_eq by done. cbn.
    assert ((exists x, Some (wake_if w th') = Some x /\ contributed g x = true) <-> contributed g th' = true) as ->.
    { split; [intros (x & [= <-] & Hx); by rewrite contributed_wake_if in Hx|]. intros Hx. eexists. split; [done|].
      by rewrite contributed_wake_if. }
    destruct (contributed g th') eqn:E', (contributed g th) eqn:E; cbn.
    + rewrite Ho. split; [done|]. intros _. eauto.
    + rewrite elem_of_app, list_elem_of_singleton. tauto.
    + by specialize (Hm eq_refl).
    + rewrite Ho. split; [|done]. intros (x & Hx & ?). congruence.
  - rewrite list_lookup_insert_ne by done.
    transitivity (u ∈ order); [destruct (_ && _); [|done]; rewrite elem_of_app, list_elem_of_singleton; tauto|].
    rewrite Ho. split.
    + intros (x & Hx & Hc). exists (wake_if w x). rewrite Hx, contributed_wake_if. done.
    + destruct (ths !! u) as [x|]; [|by intros (? & ? & _)]. cbn. intros (y & [= <-] & Hc).
      rewrite contributed_wake_if in Hc. eauto.
Qed.

Notation next_order t th th' g order :=
  (if contributed g th' && negb (contributed g th) then order ++ [t] else order).

(** A step of thread [t] within round [g]. *)
Lemma data_move n g R b ths t th b' th' w :
  data_inv n g R (b, ths) -> ths !! t = Some th ->
  (contributed g th = true -> contributed g th' = true) ->
  (forall u x, u <> t -> ths !! u = Some x -> uses_block x = true ->
     agrees (data (sub_at b (reg x))) x -> agrees (data (sub_at b' (reg x))) x) ->
  regs_ok R g b' t th' ->
  (let i := negb (cur_of g) in avail (sub_at b' i) = Z.of_nat n ->
     avail (sub_at b i) = Z.of_nat n /\ data (sub_at b' i) = data (sub_at b i)) ->
  (forall order, NoDup order ->
     (forall u, u ∈ order <-> exists x, ths !! u = Some x /\ contributed g x = true) ->
     (order <> [] -> serial g order (data (sub_at b (cur_of g))) /\ block_ok g (sub_at b (cur_of g))) ->
     next_order t th th' g order <> [] ->
     serial g (next_order t th th' g order) (data (sub_at b' (cur_of g))) /\ block_ok g (sub_at b' (cur_of g))) ->
  data_inv n g R (b', wake_if w <$> <[t := th']> ths).
Proof.
  intros [Hl Hr Hg Ho Hc] Hth Hct Hothers Hme Hold Hcur. pose proof (lookup_lt_Some _ _ _ Hth) as Hlt. cbn [fst snd] in *.
  split; cbn [fst snd]; try done.
  - intros u x Hu. apply wake_if_lookup in Hu as [[-> ->]|(Hne & y & Hy & ->)]; [|..|done].
    + by apply regs_other with b'.
    + apply regs_other with b; [by apply Hg|]. by apply (Hothers u).
  - intros Ha. destruct (Hold Ha) as [Ha' E]. rewrite E. by apply Ho.
  - destruct Hc as (order & Hnd & Hin & Hs). exists (next_order t th th' g order). split; [|split].
    + destruct (contributed g th') eqn:E', (contributed g th) eqn:E; try done. cbn. apply NoDup_app. split; [done|].
      split; [|apply NoDup_singleton]. intros u Hu ->%list_elem_of_singleton. apply Hin in Hu as (x & Hx & ?). congruence.
    + by apply contributed_move.
    + by apply Hcur.
Qed.

(** A step that leaves the blocks alone. *)
Lemma data_keep n g R b ths t th b' th' w :
  data_inv n g R (b, ths) -> ths !! t = Some th ->
  contributed g th' = contributed g th ->
  (forall i, data (sub_at b' i) = data (sub_at b i) /\ count (sub_at b' i) = count (sub_at b i)) ->
  (avail (sub_at b' (negb (cur_of g))) = avail (sub_at b (negb (cur_of g)))) ->
  regs_ok R g b' t th' ->
  data_inv n g R (b', wake_if w <$> <[t := th']> ths).
Proof.
  intros HI Hth Hct Hd Ha Hme. eapply data_move; [exact HI|exact Hth|by rewrite Hct|..]; try done.
  - intros u x _ _ _. by rewrite (proj1 (Hd _)).
  - cbn. rewrite Ha. intros ?. by rewrite (proj1 (Hd _)).
  - intros order Hnd Hin Hs. rewrite Hct. replace (_ && negb _) with false by (by destruct (contributed g th)).
    unfold block_ok. rewrite (proj1 (Hd _)), (proj2 (Hd _)). exact Hs.
Qed.

Lemma data_at_set (i : bool) (s : sub A) (b : tmpi_AllreduceObj A) j :
  data s = data (sub_at b i) -> count s = count (sub_at b i) ->
  data (sub_at (set_sub i s b) j) = data (sub_at b j) /\ count (sub_at (set_sub i s b) j) = count (sub_at b j).
Proof. intros Hd Hc. rewrite sub_at_set. destruct (eqb i j) eqn:E; [|done]. apply eqb_prop in E as ->. done. Qed.

(** A result that is logged is the next of [R]. *)
Lemma prefix_next {B} (l R : list B) e : l `prefix_of` R -> R !! length l = Some e -> l ++ [e] `prefix_of` R.
Proof.
  intros [k ->]. rewrite lookup_app_r, Nat.sub_diag by lia. destruct k as [|x k]; [done|]. intros [= ->].
  exists k. by rewrite <- app_assoc.
Qed.

(** *** What control says about the blocks *)

Lemma avail_less n g (b : tmpi_AllreduceObj A) ths : ctrl_inv n g (b, ths) -> avail (sub_at b (cur_of g)) < Z.of_nat n.
Proof. intros [_ Hn _ (HC & _) _ _]. cbn in *. lia. Qed.

Lemma place_of n g (b : tmpi_AllreduceObj A) ths t th :
  ctrl_inv n g (b, ths) -> ths !! t = Some th -> place_ok g (cur_of g) (avail (sub_at b (cur_of g))) th.
Proof. intros HI Ht. exact (proj1 (Forall_lookup _ _) (ci_place _ _ _ HI) _ _ Ht). Qed.

Lemma unfinished_avail n g (b : tmpi_AllreduceObj A) ths t th :
  ctrl_inv n g (b, ths) -> ths !! t = Some th -> finished g th = false ->
  avail (sub_at b (negb (cur_of g))) = Z.of_nat n.
Proof.
  intros [_ _ Hl (_ & _ & HO) _ _] Ht Hf. cbn in *. pose proof (count_if_bounds (finished g) _ _ _ Ht) as B.
  rewrite Hf in B. lia.
Qed.

(** A thread that uses a block: the current one when its data are in it, else the other. *)
Lemma uses_which n g (b : tmpi_AllreduceObj A) ths t th :
  ctrl_inv n g (b, ths) -> ths !! t = Some th -> uses_block th = true ->
  contributed g th = true /\ reg th = cur_of g \/ finished g th = false /\ reg th = negb (cur_of g).
Proof.
  intros HI Ht Hu. pose proof (place_of _ _ _ _ _ _ HI Ht) as Hp. unfold uses_block in Hu. unfold place_ok in Hp.
  unfold contributed, finished. destruct (pc th); try done.
  all: repeat match goal with H : _ \/ _ |- _ => destruct H | H : _ /\ _ |- _ => destruct H end;
    try (left; split; [by apply Nat.eqb_eq|done]); right; (split; [|done]); rewrite orb_false_r; apply Nat.eqb_neq; lia.
Qed.

(** While a thread fills the block, it is the only one concerned. *)
Lemma filling_alone n g (b : tmpi_AllreduceObj A) ths t th u x :
  ctrl_inv n g (b, ths) -> ths !! t = Some th -> pc th = Filling -> ths !! u = Some x -> contributed g x = false.
Proof.
  intros HI Ht Hpc Hu. destruct (contributed g x) eqn:Hc; [|done]. exfalso.
  pose proof (place_of _ _ _ _ _ _ HI Hu) as Hp. destruct HI as [_ _ _ (HC & _) _ _]. cbn in HC.
  pose proof (proj1 (count_if_bounds filling _ _ _ Ht)) as B. unfold filling at 1 in B. rewrite Hpc in B.
  unfold contributed in Hc. unfold place_ok in Hp.
  destruct (pc x) eqn:Hx; try done; try lia.
  2-5: pose proof (proj1 (count_if_bounds (counted g) _ _ _ Hu)) as B2; unfold counted at 1 in B2; rewrite Hx, Hc in B2; lia.
  pose proof (count_if_insert filling ths t th (goes Outside th) Ht) as Hi.
  assert (u <> t) as Hne by congruence.
  pose proof (proj1 (count_if_bounds filling (<[t := goes Outside th]> ths) u x
    ltac:(by rewrite list_lookup_insert_ne))) as B3.
  unfold filling at 1 in B3. rewrite Hx in B3. unfold filling at 2 4 in Hi. rewrite Hpc in Hi. cbn in Hi, B3. lia.
Qed.

(** *** The steps that touch a block *)

Lemma data_fill n g R b ths t th s p :
  ctrl_inv n g (b, ths) -> data_inv n g R (b, ths) -> ths !! t = Some th -> pc th = Filling ->
  (data s = Null /\ count s = 0%nat /\ p = -2 \/
   data s = Live (sends t g) /\ count s = length (sends t g) /\ p = ret th) ->
  avail s = avail (sub_at b (reg th)) ->
  data_inv n g R (set_sub (reg th) s b, wake_if false <$> <[t := goes ToPublish th <| ret := p |>]> ths).
Proof.
  intros HC HD Hth Hpc Hs Ha. pose proof (place_of _ _ _ _ _ _ HC Hth) as Hp. unfold place_ok in Hp. rewrite Hpc in Hp.
  destruct Hp as [Hr Hreg]. pose proof (di_regs _ _ _ _ HD _ _ Hth) as Hregs. unfold regs_ok in Hregs.
  rewrite Hpc in Hregs. destruct Hregs as (Hlog & Hret & Hcnt & Hgot). cbn [fst snd] in *.
  assert (contributed g th = false) as Hc0 by (by eapply filling_alone).
  assert (contributed g (goes ToPublish th <| ret := p |>) = true) as Hc1 by (by apply Nat.eqb_eq).
  rewrite Hreg in *.
  eapply data_move; [exact HD|exact Hth|congruence|..].
  - intros u x Hne Hu Hub. destruct (uses_which _ _ _ _ _ _ HC Hu Hub) as [[Hx _]|[_ ->]].
    + by rewrite (filling_alone _ _ _ _ _ _ _ _ HC Hth Hpc Hu) in Hx.
    + by rewrite sub_at_set, eqb_negb_r.
  - split; [done|]. cbn. rewrite Hreg, sub_at_set, eqb_reflx. split; [done|]. cbn.
    destruct Hs as [(-> & _ & ->)|(-> & _ & ->)]; [done|]. by rewrite Hcnt.
  - cbn. by rewrite sub_at_set, eqb_negb_r.
  - intros order _ Hin _ _. rewrite Hc0, Hc1, sub_at_set, eqb_reflx. cbn.
    assert (order = []) as ->.
    { destruct order as [|u order]; [done|]. destruct (proj1 (Hin u)) as (x & Hx & Hcx); [by left|].
      by rewrite (filling_alone _ _ _ _ _ _ _ _ HC Hth Hpc Hx) in Hcx. }
    unfold block_ok, serial. destruct Hs as [(-> & -> & _)|(-> & -> & _)]; split; auto.
    right. exists t, []. done.
Qed.

Lemma length_reduce_into (r s : list A) : length s = length r -> length (reduce_into o (length r) r s) = length r.
Proof.
  intros Hl. unfold reduce_into. destruct o; [|done].
  rewrite length_app, length_zip_with, !length_take, length_drop. lia.
Qed.

(** Once [avail] is positive, some contribution is there, and the block with it. *)
Lemma block_there n g (b : tmpi_AllreduceObj A) ths :
  ctrl_inv n g (b, ths) -> 1 <= avail (sub_at b (cur_of g)) ->
  forall order, (forall u, u ∈ order <-> exists x, ths !! u = Some x /\ contributed g x = true) -> order <> [].
Proof.
  intros [_ _ _ (HC & _) _ _] Ha order Hin ->. cbn in HC.
  assert (0 < count_if (counted g) ths)%nat as Hk by lia. apply count_if_pos in Hk as (u & x & Hu & Hx).
  assert (u ∈ ([] : list nat)) as H; [|by apply not_elem_of_nil in H]. apply Hin. exists x. split; [done|].
  unfold counted in Hx. unfold contributed. by destruct (pc x).
Qed.

Lemma data_reduce n g R b ths t th b' th' w nomem :
  ctrl_inv n g (b, ths) -> data_inv n g R (b, ths) -> ths !! t = Some th -> pc th = Reducing ->
  ardco_atomic o nomem (sends t g) b th = Moves b' th' w ->
  data_inv n g R (b', wake_if w <$> <[t := th']> ths).
Proof.
  intros HC HD Hth Hpc Hrun. pose proof (place_of _ _ _ _ _ _ HC Hth) as Hp. unfold place_ok in Hp. rewrite Hpc in Hp.
  destruct Hp as (Hr & Hreg & Ha). pose proof (di_regs _ _ _ _ HD _ _ Hth) as Hregs. unfold regs_ok in Hregs.
  rewrite Hpc in Hregs. destruct Hregs as (Hlog & Hret & Hcnt & Hgot). cbn [fst snd] in *.
  assert (contributed g th = false) as Hc0 by (unfold contributed; by rewrite Hpc).
  unfold ardco_atomic, ardco_body in Hrun. rewrite Hpc, Hreg in Hrun.
  destruct (di_cur _ _ _ _ HD) as (order0 & _ & Hin0 & Hs0). cbn [fst snd] in *.
  destruct (Hs0 (block_there _ _ _ _ HC Ha _ Hin0)) as [_ Hb]. unfold block_ok in Hb.
  destruct (data (sub_at b (cur_of g))) as [| |l] eqn:Hd; [|done|].
  - injection Hrun as <- <- <-. eapply data_move; [exact HD|exact Hth|congruence|done| |done|].
    + split; [done|]. cbn. by rewrite Hreg, Hd.
    + intros order Hnd Hin Hs _. rewrite Hd. split; [by left|]. unfold block_ok. by rewrite Hd.
  - destruct Hb as [Hcount Hlen].
    replace (Nat.min (cnt th) (count (sub_at b (cur_of g)))) with (length l) in Hrun
      by (rewrite Hcnt, Hcount, (same_count t 0 g); lia).
    assert (length (sends t g) = length l) as Hst by (rewrite Hlen; apply same_count).
    pose proof (length_reduce_into l (sends t g) Hst) as Hl'. injection Hrun as <- <- <-.
    match goal with |- data_inv _ _ _ (_, _ <$> <[_ := ?x]> _) => assert (contributed g x = true) as Hc1 by (by apply Nat.eqb_eq) end.
    eapply data_move; [exact HD|exact Hth|congruence|..].
    + intros u x _ _ _. rewrite sub_at_set. destruct (eqb _ (reg x)) eqn:E; [|done]. apply eqb_prop in E as <-.
      rewrite Hd. unfold agrees. cbn. by rewrite Hl'.
    + split; [done|]. cbn. rewrite Hreg, sub_at_set, eqb_reflx. split; [done|]. cbn. by rewrite Hl'.
    + cbn. by rewrite sub_at_set, eqb_negb_r.
    + intros order Hnd Hin Hs _. rewrite Hc0, Hc1, sub_at_set, eqb_reflx. cbn [negb andb].
      destruct (Hs (block_there _ _ _ _ HC Ha _ Hin)) as [[Hn|(first & rest & -> & Hl)] _]; [congruence|].
      rewrite Hd in Hl. injection Hl as ->. split; [|unfold block_ok; cbn; by rewrite Hl'].
      right. exists first, (rest ++ [t]). split; [done|]. unfold reduce_all. by rewrite fold_left_app.
Qed.

Lemma data_reset n g R b ths t th s :
  ctrl_inv n g (b, ths) -> data_inv n g R (b, ths) -> ths !! t = Some th -> pc th = Resetting ->
  avail s = -1 ->
  data_inv n g R (set_sub (reg th) s b, wake_if false <$> <[t := goes AtSwitch th]> ths).
Proof.
  intros HC HD Hth Hpc Ha. pose proof (place_of _ _ _ _ _ _ HC Hth) as Hp. unfold place_ok in Hp. rewrite Hpc in Hp.
  destruct Hp as [Hr Hreg]. pose proof (di_regs _ _ _ _ HD _ _ Hth) as Hregs. unfold regs_ok in Hregs.
  rewrite Hpc in Hregs. destruct Hregs as (Hlog & Hnext). cbn [fst snd] in *. rewrite Hreg in *.
  assert (count_if (finished g) ths = length ths) as Hall.
  { destruct HC as [_ _ Hl (_ & _ & HO) _ _]. cbn in *. pose proof (proj1 (count_if_bounds resetting _ _ _ Hth)) as B.
    unfold resetting at 1 in B. rewrite Hpc in B. lia. }
  rewrite count_if_all, Forall_lookup in Hall.
  eapply data_move; [exact HD|exact Hth|unfold contributed; by rewrite Hpc|..].
  - intros u x Hne Hu Hub. destruct (uses_which _ _ _ _ _ _ HC Hu Hub) as [[_ ->]|[Hf _]].
    + by rewrite sub_at_set, eqb_negb_l.
    + by rewrite (Hall _ _ Hu) in Hf.
  - split; [done|]. exact Hnext.
  - destruct HC as [_ Hn _ _ _ _]. cbn. rewrite sub_at_set, eqb_reflx. lia.
  - intros order Hnd Hin Hs. unfold contributed. cbn [pc goes upd]. cbn. rewrite sub_at_set, eqb_negb_l. exact Hs.
Qed.

Lemma counted_contributed g x : counted g x = true -> contributed g x = true.
Proof. unfold counted, contributed. by destruct (pc x). Qed.

Lemma data_last n g R b ths t th :
  ctrl_inv n g (b, ths) -> data_inv n g R (b, ths) -> ths !! t = Some th -> pc th = ToCount ->
  avail (sub_at b (reg th)) + 1 = group_size b ->
  exists e, data_inv n (S g) (R ++ [e])
    (set_sub (reg th) (sub_at b (reg th) <| avail := avail (sub_at b (reg th)) + 1 |>) b,
     wake <$> <[t := goes AtTest th]> ths).
Proof.
  intros HC HD Hth Hpc Ha. pose proof (place_of _ _ _ _ _ _ HC Hth) as Hp. unfold place_ok in Hp. rewrite Hpc in Hp.
  destruct Hp as (Hr & Hreg & Ha1). pose proof (lookup_lt_Some _ _ _ Hth) as Hlt.
  assert (Forall (fun x => counted g x = true) (<[t := goes AtTest th]> ths)) as Hall.
  { eapply last_counted; try done. by apply Nat.eqb_eq. }
  rewrite Hreg. set (s := _ <| avail := _ |>). set (b' := set_sub _ s b).
  assert (forall i, data (sub_at b' i) = data (sub_at b i)) as Hd by (intros i; by apply data_at_set).
  exists (outcome_of (data (sub_at b (cur_of g)))).
  destruct HD as [Hl Hrs Hg Ho (order & Hnd & Hin & Hs)]. cbn [fst snd] in *.
  destruct (Hs (block_there _ _ _ _ HC Ha1 _ Hin)) as [Hser Hb].
  rewrite Forall_lookup in Hall.
  split; cbn [fst snd]; rewrite ?odd_S, ?negb_involutive.
  - rewrite length_app. cbn. lia.
  - intros j e Hj. apply lookup_app_Some in Hj as [Hj|[Hge Hj]]; [by apply Hrs|].
    destruct (j - length R)%nat as [|] eqn:Hz; [|done]. injection Hj as <-. replace j with g by lia.
    exists order, (data (sub_at b (cur_of g))). split; [|done]. apply NoDup_Permutation; [done|apply NoDup_seq|].
    intros u. rewrite Hin, elem_of_seq, <- (ci_len _ _ _ HC). cbn [snd].
    split; [intros (x & Hx & _); apply lookup_lt_Some in Hx; lia|]. intros [_ Hu]. apply lookup_lt_is_Some in Hu as [x Hx].
    exists x. split; [done|]. destruct (decide (u = t)) as [->|Hne].
    + replace x with th by congruence. unfold contributed. rewrite Hpc. by apply Nat.eqb_eq.
    + apply counted_contributed. apply (Hall u). by rewrite list_lookup_insert_ne.
  - intros u x Hu. apply (wake_if_lookup true) in Hu as [[-> ->]|(Hne & y & Hy & ->)]; [|..|done].
    + destruct (Hg _ _ Hth) as [Hlog Hag]. rewrite Hpc in Hag. split; [by apply prefix_app_r|]. cbn. by rewrite Hd.
    + destruct (Hg _ _ Hy) as [Hlog Hag]. apply regs_other with b'; [|done].
      split; [by apply prefix_app_r|]. pose proof (Hall u y ltac:(by rewrite list_lookup_insert_ne)) as Hc.
      unfold counted in Hc. rewrite Hd. by destruct (pc y).
  - intros _. rewrite Hd. cbn [pred]. split; [intros E; unfold block_ok in Hb; by rewrite E in Hb|].
    by rewrite lookup_app_r, Hl, Nat.sub_diag by lia.
  - exists []. split; [constructor|]. split; [|done]. intros u. split; [by intros ?%not_elem_of_nil|].
    intros (x & Hx & Hc). exfalso. rewrite (list_lookup_fmap wake) in Hx.
    destruct (_ !! u) as [y|] eqn:Hy in Hx; [|done]. injection Hx as <-.
    rewrite wake_wake_if, contributed_wake_if in Hc. specialize (Hall _ _ Hy).
    unfold contributed in Hc. unfold counted in Hall.
    destruct (pc y); try done; apply Nat.eqb_eq in Hc, Hall; lia.
Qed.

(** The object does not change, except for [subp]. *)
Lemma data_stay n g R b ths t th th' w i :
  data_inv n g R (b, ths) -> ths !! t = Some th -> contributed g th' = contributed g th -> regs_ok R g b t th' ->
  data_inv n g R (b, wake_if w <$> <[t := th']> ths) /\ data_inv n g R (set_subp i b, wake_if w <$> <[t := th']> ths).
Proof.
  intros HD Hth Hc Hr. split; (eapply data_keep; [exact HD|exact Hth|done|..]); done.
Qed.

(** Only the counters of the thread's sub-object change. *)
Lemma data_set n g R b ths t th th' w s :
  data_inv n g R (b, ths) -> ths !! t = Some th -> contributed g th' = contributed g th -> regs_ok R g b t th' ->
  data s = data (sub_at b (reg th)) -> count s = count (sub_at b (reg th)) ->
  (reg th = cur_of g \/ avail s = avail (sub_at b (reg th))) ->
  data_inv n g R (set_sub (reg th) s b, wake_if w <$> <[t := th']> ths).
Proof.
  intros HD Hth Hc Hr Hd Hn Ha.
  assert (forall i, data (sub_at (set_sub (reg th) s b) i) = data (sub_at b i) /\
    count (sub_at (set_sub (reg th) s b) i) = count (sub_at b i)) as Hdata by (intros i; by apply data_at_set).
  eapply data_keep; [exact HD|exact Hth|done|done|..].
  - rewrite sub_at_set. destruct (eqb (reg th) _) eqn:E; [|done]. apply eqb_prop in E. rewrite E in Ha.
    destruct Ha as [Ha|Ha]; [by destruct (cur_of g)|exact Ha].
  - destruct Hr as [? Hp]. split; [done|]. destruct (pc th'); by rewrite ?(proj1 (Hdata _)).
Qed.

(** Threads that wait for the result of round [g] go on waiting. *)
Lemma still_waits n g (b : tmpi_AllreduceObj A) ths t th :
  ctrl_inv n g (b, ths) -> ths !! t = Some th -> uses_block th = true -> finished g th = true ->
  (avail (sub_at b (reg th)) =? group_size b) = false.
Proof.
  intros HC Hth Hu Hf. pose proof (avail_less _ _ _ _ HC). pose proof (ci_size _ _ _ HC) as Hn. cbn in Hn.
  destruct (uses_which _ _ _ _ _ _ HC Hth Hu) as [[_ ->]|[Hf' _]]; [apply Z.eqb_neq; lia|congruence].
Qed.

Lemma data_test n g R b ths t th w p q :
  ctrl_inv n g (b, ths) -> data_inv n g R (b, ths) -> ths !! t = Some th ->
  (pc th = AtTest \/ pc th = AtResult \/ pc th = Woken2) -> (p = AtResult \/ p = Asleep2) -> q = Copying ->
  data_inv n g R (b, wake_if w <$>
    <[t := goes (if negb (avail (sub_at b (reg th)) =? group_size b) then p else q) th]> ths).
Proof.
  intros HC HD Hth Hpc Hp ->. pose proof (di_regs _ _ _ _ HD _ _ Hth) as [Hlog Hq]. cbn in Hlog, Hq.
  assert (agrees (data (sub_at b (reg th))) th) as Hag by (by destruct Hpc as [E|[E|E]]; rewrite E in Hq).
  refine (proj1 (data_stay _ _ _ _ _ _ _ _ _ true HD Hth _ _)).
  - destruct (rnd th =? g)%nat eqn:Hr.
    + rewrite (still_waits _ _ _ _ _ _ HC Hth).
      * unfold contributed. cbn. by destruct Hp as [-> | ->], Hpc as [-> |[-> | ->]].
      * unfold uses_block. by destruct Hpc as [-> |[-> | ->]].
      * unfold finished. by rewrite Hr.
    + destruct (negb _); unfold contributed; cbn; destruct Hpc as [-> |[-> | ->]]; rewrite Hr; by destruct Hp as [-> | ->].
  - split; [done|]. destruct (negb _); cbn; [|done]. by destruct Hp as [-> | ->].
Qed.

Lemma data_copy n g R b ths t th nomem send b' th' w :
  ctrl_inv n g (b, ths) -> data_inv n g R (b, ths) -> ths !! t = Some th -> pc th = Copying ->
  ardco_atomic o nomem send b th = Moves b' th' w ->
  data_inv n g R (b', wake_if w <$> <[t := th']> ths).
Proof.
  intros HC HD Hth Hpc Hrun. pose proof (di_regs _ _ _ _ HD _ _ Hth) as [Hlog Hq]. cbn in Hlog, Hq.
  pose proof (place_of _ _ _ _ _ _ HC Hth) as Hp. unfold place_ok in Hp. rewrite Hpc in Hp, Hq. destruct Hp as [Hr Hreg].
  unfold ardco_atomic, ardco_body in Hrun. rewrite Hpc, Hreg in Hrun. rewrite Hreg in Hq.
  destruct (di_old _ _ _ _ HD) as [_ HR].
  { eapply unfinished_avail; [done|exact Hth|]. unfold finished. rewrite Hpc, orb_false_r. apply Nat.eqb_neq. lia. }
  cbn [fst] in HR. replace (pred g) with (rnd th) in HR by lia. destruct Hq as [Hgot Hq].
  destruct (data (sub_at b (negb (cur_of g)))) as [| |l]; [|done|]; injection Hrun as <- <- <-;
    refine (proj1 (data_stay _ _ _ _ _ _ _ _ _ true HD Hth _ _)); try (unfold contributed; by rewrite Hpc);
    (split; [done|]); cbn.
  - change (R !! rnd th = Some (ret th, got th)). by rewrite HR, Hgot, Hq.
  - destruct Hq as [Hret Hcnt]. rewrite firstn_all2 by lia. rewrite Hret. exact HR.
Qed.

Lemma data_switch n g R b ths t th nomem send b' th' w :
  data_inv n g R (b, ths) -> ths !! t = Some th -> pc th = AtSwitch \/ pc th = AtSwap ->
  ardco_atomic o nomem send b th = Moves b' th' w ->
  data_inv n g R (b', wake_if w <$> <[t := th']> ths).
Proof.
  intros HD Hth Hpc Hrun. pose proof (di_regs _ _ _ _ HD _ _ Hth) as [Hlog Hq]. cbn in Hlog, Hq.
  assert (contributed g th = false) as Hc by (unfold contributed; by destruct Hpc as [-> | ->]).
  assert (contributed g (returns th) = contributed g th) as Hc' by (by rewrite Hc).
  assert (R !! rnd th = Some (ret th, got th)) as HR by (by destruct Hpc as [E|E]; rewrite E in Hq).
  assert (regs_ok R g b t (returns th)) as Hret by (split; [by apply prefix_next|done]).
  unfold ardco_atomic, ardco_body in Hrun. destruct Hpc as [E|E]; rewrite E in Hrun; injection Hrun as <- <- <-.
  - destruct (eqb _ _); refine (proj1 (data_stay _ _ _ _ _ _ _ _ _ true HD Hth _ _)); done.
  - destruct (eqb _ _).
    + exact (proj2 (data_stay _ _ _ _ _ _ _ _ _ _ HD Hth Hc' Hret)).
    + exact (proj1 (data_stay _ _ _ _ _ _ _ _ _ true HD Hth Hc' Hret)).
Qed.

(** Until the reduction, and its counting. *)
Lemma data_collect n g R b ths t th nomem b' th' w :
  ctrl_inv n g (b, ths) -> data_inv n g R (b, ths) -> ths !! t = Some th ->
  ardco_atomic o nomem (sends t g) b th = Moves b' th' w -> ends b th = false ->
  rnd th = g -> (pc th = Outside \/ reg th = cur_of g) ->
  match pc th with
  | Outside | AtFirst | AtClaim | Filling | ToPublish | AtWait | Woken | ToCount => True
  | _ => False
  end ->
  data_inv n g R (b', wake_if w <$> <[t := th']> ths).
Proof.
  intros HC HD Hth Hrun Hends Hr Hreg Hpc. pose proof (di_regs _ _ _ _ HD _ _ Hth) as [Hlog Hq].
  pose proof (ci_two _ _ _ HC) as H2. pose proof (ci_size _ _ _ HC) as Hn. cbn [fst snd] in *.
  unfold ardco_atomic, ardco_body in Hrun. unfold ends in Hends. destruct (pc th) eqn:E; try done.
  all: try (destruct Hreg as [?|Hreg]; [done|]).
  - destruct (_ <? 2) eqn:E2; [apply Z.ltb_lt in E2; lia|]. injection Hrun as <- <- <-.
    refine (proj1 (data_stay _ _ _ _ _ _ _ _ _ true HD Hth _ _)); [unfold contributed; by rewrite E|]. done.
  - injection Hrun as <- <- <-. refine (proj1 (data_stay _ _ _ _ _ _ _ _ _ true HD Hth _ _));
      [unfold contributed; cbn; rewrite E; by destruct (_ =? -1)|]. split; [done|]. by destruct (_ =? -1).
  - assert (contributed g th = false) as Hc by (unfold contributed; by rewrite E).
    destruct (_ =? -1); injection Hrun as <- <- <-.
    + eapply (data_set _ _ _ _ _ _ _ (goes Filling th)); try done. by left.
    + by refine (proj1 (data_stay _ _ _ _ _ _ _ _ _ true HD Hth _ _)).
  - destruct Hq as (_ & Hcnt & _). destruct nomem; injection Hrun as <- <- <-; eapply data_fill; try done; [by left|].
    right. by rewrite <- Hcnt.
  - assert (contributed g th = true) as Hc by (unfold contributed; rewrite E; by apply Nat.eqb_eq).
    injection Hrun as <- <- <-. eapply (data_set _ _ _ _ _ _ _ (goes AtTest th)); try done; [|by left]. rewrite Hc. by apply Nat.eqb_eq.
  - injection Hrun as <- <- <-. refine (proj1 (data_stay _ _ _ _ _ _ _ _ _ true HD Hth _ _));
      [unfold contributed; cbn; rewrite E; by destruct (_ =? 0)|]. split; [done|]. by destruct (_ =? 0).
  - injection Hrun as <- <- <-. refine (proj1 (data_stay _ _ _ _ _ _ _ _ _ true HD Hth _ _));
      [unfold contributed; cbn; rewrite E; by destruct (_ =? 0)|]. split; [done|]. by destruct (_ =? 0).
  - assert (contributed g th = true) as Hc by (unfold contributed; rewrite E; by apply Nat.eqb_eq).
    injection Hrun as <- <- <-. eapply (data_set _ _ _ _ _ _ _ (goes AtTest th)); try done; [|by left]. rewrite Hc. by apply Nat.eqb_eq.
Qed.

(** Every step of a thread that does not end a collection. *)
Lemma data_run n g R b ths t th nomem b' th' w :
  ctrl_inv n g (b, ths) -> data_inv n g R (b, ths) -> ths !! t = Some th ->
  ardco_atomic o nomem (sends t (rnd th)) b th = Moves b' th' w -> ends b th = false ->
  data_inv n g R (b', wake_if w <$> <[t := th']> ths).
Proof.
  intros HC HD Hth Hrun Hends. pose proof (place_of _ _ _ _ _ _ HC Hth) as Hp. unfold place_ok in Hp.
  destruct (pc th) eqn:Hpc.
  1-6,8: eapply (data_collect _ _ _ _ _ _ _ nomem _ _ _ HC HD Hth); rewrite ?Hpc; naive_solver.
  - unfold ardco_atomic, ardco_body in Hrun. by rewrite Hpc in Hrun.
  - destruct Hp as [Hr _]. rewrite Hr in Hrun. by eapply data_reduce.
  - eapply (data_collect _ _ _ _ _ _ _ nomem _ _ _ HC HD Hth); rewrite ?Hpc; naive_solver.
  - unfold ardco_atomic, ardco_body in Hrun. rewrite Hpc in Hrun. injection Hrun as <- <- <-. apply data_test; auto.
  - unfold ardco_atomic, ardco_body in Hrun. rewrite Hpc in Hrun. injection Hrun as <- <- <-. apply data_test; auto.
  - unfold ardco_atomic, ardco_body in Hrun. by rewrite Hpc in Hrun.
  - unfold ardco_atomic, ardco_body in Hrun. rewrite Hpc in Hrun. injection Hrun as <- <- <-. apply data_test; auto.
  - by eapply data_copy.
  - pose proof (di_regs _ _ _ _ HD _ _ Hth) as [Hlog Hq]. cbn in Hlog, Hq. rewrite Hpc in Hq.
    unfold ardco_atomic, ardco_body in Hrun. rewrite Hpc in Hrun. injection Hrun as <- <- <-.
    eapply (data_set _ _ _ _ _ _ _ (goes (if _ : bool then Resetting else AtSwitch) th)); try done; [..|by right].
    + unfold contributed. cbn. rewrite Hpc. by destruct (_ =? _).
    + split; [done|]. by destruct (_ =? _).
  - unfold ardco_atomic, ardco_body in Hrun. rewrite Hpc in Hrun.
    destruct (data _); [..|]; try discriminate; injection Hrun as <- <- <-; by apply data_reset.
  - eapply data_switch; eauto.
  - eapply data_switch; eauto.
Qed.

Lemma no_undefined n g R b ths t th nomem send :
  ctrl_inv n g (b, ths) -> data_inv n g R (b, ths) -> ths !! t = Some th ->
  ardco_atomic o nomem send b th <> Undefined.
Proof.
  intros HC HD Hth. pose proof (place_of _ _ _ _ _ _ HC Hth) as Hp. unfold place_ok in Hp.
  pose proof (di_old _ _ _ _ HD) as Hold. cbn [fst snd] in Hold.
  unfold ardco_atomic, ardco_body. cbv zeta. destruct (pc th) eqn:Hpc; try done; try (by destruct (_ <? 2)); try (by destruct (_ =? _)); try by destruct nomem.
  - destruct Hp as (_ & -> & Ha). destruct (di_cur _ _ _ _ HD) as (order & _ & Hin & Hs). cbn [fst snd] in *.
    destruct (Hs (block_there _ _ _ _ HC Ha _ Hin)) as [_ Hb]. unfold block_ok in Hb.
    by destruct (data (sub_at b (cur_of g))).
  - destruct Hp as [Hr ->]. destruct Hold as [Hd _]; [|by destruct (data (sub_at b (negb (cur_of g))))].
    eapply unfinished_avail; [done|exact Hth|]. unfold finished. rewrite Hpc, orb_false_r. apply Nat.eqb_neq. lia.
  - destruct Hp as [_ ->]. destruct Hold as [Hd _]; [|by destruct (data (sub_at b (negb (cur_of g))))].
    destruct HC as [_ _ _ (_ & _ & HO) _ _]. cbn in HO. pose proof (proj1 (count_if_bounds resetting _ _ _ Hth)) as B.
    unfold resetting at 1 in B. rewrite Hpc in B. lia.
Qed.

Definition awake (e : effect A (thread A)) : Prop :=
  exists b' th' w, e = Moves b' th' w /\ pc th' <> Asleep /\ pc th' <> Asleep2.

Lemma awake_Moves b' th' w : pc th' <> Asleep /\ pc th' <> Asleep2 -> awake (Moves b' th' w).
Proof. intros H. by exists b', th', w. Qed.

Lemma filling_goes b th nomem send : filling th = true -> awake (ardco_atomic o nomem send b th).
Proof.
  unfold filling, ardco_atomic, ardco_body. destruct (pc th); try done; intros _; [destruct nomem|]; by apply awake_Moves.
Qed.

(** Nobody fills; the thread is not among those that wait for the result. *)
Lemma uncounted_goes n g R b ths t th nomem send :
  ctrl_inv n g (b, ths) -> data_inv n g R (b, ths) -> ths !! t = Some th ->
  ~ Exists (fun th => filling th = true) ths -> counted g th = false -> pc th <> Outside ->
  awake (ardco_atomic o nomem send b th).
Proof.
  intros HC HD Hth Hf Hc Hout. pose proof (place_of _ _ _ _ _ _ HC Hth) as Hp. unfold place_ok in Hp.
  pose proof (no_undefined _ _ _ _ _ _ _ nomem send HC HD Hth) as Hnu.
  assert (avail (sub_at b (cur_of g)) <> 0) as Ha.
  { rewrite <- Forall_Exists_neg in Hf. assert (count_if filling ths = O) as H0.
    { apply count_if_none. eapply Forall_impl; [exact Hf|]. intros x Hx. cbn in Hx. by destruct (filling x). }
    destruct HC as [_ _ _ (HC & _) _ _]. cbn in HC. lia. }
  pose proof (ci_size _ _ _ HC) as Hn. cbn [fst] in Hn.
  pose proof (unfinished_avail _ _ _ _ _ _ HC Hth) as Huf. unfold finished in Huf. unfold counted in Hc.
  unfold ardco_atomic, ardco_body in *. cbv zeta in *. destruct (pc th) eqn:Hpc; try done; try (by apply awake_Moves).
  - apply awake_Moves. cbn. by destruct (_ =? -1).
  - destruct (_ =? -1); by apply awake_Moves.
  - destruct nomem; by apply awake_Moves.
  - destruct Hp as (_ & -> & _). apply awake_Moves. by rewrite (proj2 (Z.eqb_neq _ 0) Ha).
  - destruct Hp as (_ & _ & ?). done.
  - destruct Hp as (_ & -> & _). apply awake_Moves. by rewrite (proj2 (Z.eqb_neq _ 0) Ha).
  - destruct (data _); [|done|]; by apply awake_Moves.
  - destruct Hp as [[Hr _]|[_ ->]]; [by rewrite Hr, Nat.eqb_refl in Hc|]. apply awake_Moves.
    rewrite Huf, Hn, Z.eqb_refl by (by rewrite Hc). done.
  - destruct Hp as [[Hr _]|[_ ->]]; [by rewrite Hr, Nat.eqb_refl in Hc|]. apply awake_Moves.
    rewrite Huf, Hn, Z.eqb_refl by (by rewrite Hc). done.
  - destruct Hp as [Hr _]. by rewrite Hr, Nat.eqb_refl in Hc.
  - destruct Hp as [[Hr _]|[_ ->]]; [by rewrite Hr, Nat.eqb_refl in Hc|]. apply awake_Moves.
    rewrite Huf, Hn, Z.eqb_refl by (by rewrite Hc). done.
  - destruct (data _); [|done|]; by apply awake_Moves.
  - apply awake_Moves. by destruct (_ =? _).
  - destruct (data _); [|done|]; by apply awake_Moves.
  - apply awake_Moves. by destruct (eqb _ _).
Qed.

(** *** Reachable states *)

Lemma data_start n : data_inv n 0 [] (atomic_start n).
Proof.
  split; cbn; try done.
  - intros t th [-> _]%lookup_replicate. split; [done|]. done.
  - lia.
  - exists []. split; [constructor|]. split; [|done]. intros t. split; [by intros ?%not_elem_of_nil|].
    by intros (th & [-> _]%lookup_replicate & ?).
Qed.

Lemma data_spurious n g R b ths t th :
  data_inv n g R (b, ths) -> ths !! t = Some th -> data_inv n g R (b, <[t := wake th]> ths).
Proof.
  intros HD Hth. rewrite wake_wake_if.
  replace (<[t := wake_if true th]> ths) with (wake_if false <$> <[t := wake_if true th]> ths)
    by (symmetry; apply (wake_if_list false)).
  refine (proj1 (data_stay _ _ _ _ _ _ _ _ _ true HD Hth _ _)); [apply contributed_wake_if|].
  apply regs_other with b; [|done]. exact (di_regs _ _ _ _ HD _ _ Hth).
Qed.

Lemma step_inv n g R s s' :
  ctrl_inv n g s -> data_inv n g R s -> atomic_step o sends s s' ->
  exists g' R', ctrl_inv n g' s' /\ data_inv n g' R' s'.
Proof.
  intros HC HD Hs. destruct Hs as [nomem b ths t th b' th' w Hth Hrun|b ths t th Hth].
  - rewrite wake_if_list. pose proof (ctrl_run _ _ _ _ _ _ _ _ _ _ _ _ HC Hth Hrun) as HC'.
    destruct (ends b th) eqn:Hends; [|eauto using data_run].
    pose proof Hends as He. unfold ends in He. destruct (pc th) eqn:Hpc; try done. apply Z.eqb_eq in He.
    unfold ardco_atomic, ardco_body in Hrun. rewrite Hpc in Hrun. injection Hrun as <- <- <-. cbn [avail upd] in *.
    rewrite (proj2 (Z.eqb_eq _ _) He) in *. destruct (data_last _ _ _ _ _ _ _ HC HD Hth Hpc He) as [e HD']. eauto.
  - exists g, R. split; [by apply ctrl_spurious|by apply data_spurious].
Qed.

Lemma reachable_inv n s :
  (2 <= n)%nat -> atomic_reachable o sends n s -> exists g R, ctrl_inv n g s /\ data_inv n g R s.
Proof.
  intros Hn Hs. unfold atomic_reachable in Hs.
  assert (exists g R, ctrl_inv n g (atomic_start (A:=A) n) /\ data_inv n g R (atomic_start n)) as H0
    by (exists 0%nat, []; split; [by apply ctrl_start|apply data_start]).
  revert H0. induction Hs as [s|s1 s2 s3 H12 _ IH]; [done|]. intros (g & R & HC & HD).
  apply IH. by eapply step_inv.
Qed.

(** ** What the specification gives *)

Lemma length_reduce_all j f rest : length (reduce_all j f rest) = length (sends 0%nat j).
Proof.
  unfold reduce_all. assert (forall r, length r = length (sends 0%nat j) ->
    length (fold_left (fun r u => reduce_into o (length r) r (sends u j)) rest r) = length (sends 0%nat j)) as H; [|by apply H].
  induction rest as [|u rest IH]; intros r Hr; [done|]. cbn. apply IH. rewrite length_reduce_into; [done|].
  rewrite Hr. apply same_count.
Qed.

Theorem atomic_results n s
  (Hn : (2 <= n)%nat) (Hs : atomic_reachable o sends n s) :
  exists R,
    (forall t th, s.2 !! t = Some th -> log th `prefix_of` R) /\
    forall j e, R !! j = Some e ->
      e = (-2, None) \/
      exists first rest, first :: rest ≡ₚ seq 0 n /\ e = (0, Some (reduce_all j first rest)).
Proof.
  destruct (reachable_inv n s Hn Hs) as (g & R & HC & HD). exists R. split.
  - intros t th Hth. exact (proj1 (di_regs _ _ _ _ HD _ _ Hth)).
  - intros j e He. destruct (di_rounds _ _ _ _ HD j e He) as (order & blk & Hp & [->|(first & rest & -> & ->)] & ->).
    + by left.
    + right. exists first, rest. done.
Qed.

Lemma atomic_memory_safe n s t th nomem send :
  (2 <= n)%nat -> atomic_reachable o sends n s -> s.2 !! t = Some th -> ardco_atomic o nomem send s.1 th <> Undefined.
Proof.
  intros Hn Hs Ht. destruct (reachable_inv n s Hn Hs) as (g & R & HC & HD). destruct s as [b ths].
  exact (no_undefined _ _ _ _ _ _ _ _ _ HC HD Ht).
Qed.

Lemma atomic_progress n s :
  (2 <= n)%nat -> atomic_reachable o sends n s -> Forall (fun th => pc th <> Outside) s.2 ->
  exists t th, s.2 !! t = Some th /\ forall nomem send, awake (ardco_atomic o nomem send s.1 th).
Proof.
  intros Hn Hs Hin. destruct (reachable_inv n s Hn Hs) as (g & R & HC & HD). destruct s as [b ths]. cbn [fst snd] in *.
  destruct (decide (Exists (fun th : thread A => filling th = true) ths)) as [Hf|Hf].
  - apply Exists_exists in Hf as (th & Hth & Hf). apply list_elem_of_lookup in Hth as [t Ht]. exists t, th. split; [done|].
    intros nomem send. by apply filling_goes.
  - destruct (decide (Exists (fun th => counted g th = false) ths)) as [Hc|Hc].
    + apply Exists_exists in Hc as (th & Hth & Hc). apply list_elem_of_lookup in Hth as [t Ht]. exists t, th. split; [done|].
      intros nomem send. eapply (uncounted_goes _ _ _ _ _ _ _ nomem send HC HD Ht); try done.
      exact (proj1 (Forall_lookup _ _) Hin _ _ Ht).
    + exfalso. rewrite <- Forall_Exists_neg in Hc. destruct HC as [_ _ Hl (HC & _) _ _]. cbn in *.
      assert (count_if (counted g) ths = length ths); [|lia]. apply count_if_all. eapply Forall_impl; [exact Hc|].
      intros x Hx. cbn in Hx. by destruct (counted g x).
Qed.

(** A thread about to reduce, and the block it reduces into. *)
Lemma atomic_reducing n s t th :
  (2 <= n)%nat -> atomic_reachable o sends n s -> s.2 !! t = Some th -> pc th = Reducing ->
  ret th = 0 /\ cnt th = length (sends t (rnd th)) /\
  match data (sub_at s.1 (reg th)) with
  | Live l => length l = length (sends t (rnd th)) /\ count (sub_at s.1 (reg th)) = length l
  | Null => True
  | Freed => False
  end.
Proof.
  intros Hn Hs Ht Hpc. destruct (reachable_inv n s Hn Hs) as (g & R & HC & HD). destruct s as [b ths]. cbn [fst snd] in *.
  pose proof (place_of _ _ _ _ _ _ HC Ht) as Hp. pose proof (di_regs _ _ _ _ HD _ _ Ht) as [_ Hr]. unfold place_ok in Hp.
  rewrite Hpc in Hp, Hr. destruct Hp as (<- & -> & Ha), Hr as (Hret & Hcnt & _). split; [done|]. split; [done|].
  destruct (di_cur _ _ _ _ HD) as (order & _ & Hin & Hcur).
  destruct (Hcur (block_there _ _ _ _ HC Ha _ Hin)) as [_ Hb]. cbn [fst] in Hb. unfold block_ok in Hb.
  destruct (data _); [done|done|]. destruct Hb as [-> ->]. by rewrite (same_count t 0).
Qed.

(** A thread that has reduced: there was a block unless it says otherwise. *)
Lemma atomic_reduced n s t th :
  (2 <= n)%nat -> atomic_reachable o sends n s -> s.2 !! t = Some th -> pc th = ToCount -> ret th = 0 ->
  exists l, data (sub_at s.1 (reg th)) = Live l /\ cnt th = length l.
Proof.
  intros Hn Hs Ht Hpc H0. destruct (reachable_inv n s Hn Hs) as (g & R & HC & HD).
  pose proof (di_regs _ _ _ _ HD _ _ Ht) as [_ Hr]. rewrite Hpc in Hr. destruct Hr as [_ Hr].
  destruct (data (sub_at s.1 (reg th))) as [| |l]; [congruence|done|]. exists l. split; [done|exact (proj2 Hr)].
Qed.

(** Nobody fills or frees a block while a thread reduces into it. *)
Lemma atomic_exclusive n s t u th x :
  (2 <= n)%nat -> atomic_reachable o sends n s -> s.2 !! t = Some th -> s.2 !! u = Some x ->
  (pc th = Reducing \/ pc th = ToCount) -> reg x = reg th -> pc x <> Filling /\ pc x <> Resetting.
Proof.
  intros Hn Hs Ht Hu Hpc Hreg. destruct (reachable_inv n s Hn Hs) as (g & R & HC & HD). destruct s as [b ths]. cbn [fst snd] in *.
  pose proof (place_of _ _ _ _ _ _ HC Ht) as Hp. pose proof (place_of _ _ _ _ _ _ HC Hu) as Hx. unfold place_ok in Hp, Hx.
  assert (reg th = cur_of g /\ 1 <= avail (sub_at b (cur_of g))) as [Hr Ha] by (destruct Hpc as [E|E]; rewrite E in Hp; tauto).
  split; intros E; rewrite E in Hx.
  - destruct HC as [_ _ _ (HC & _) _ _]. cbn in HC. pose proof (proj1 (count_if_bounds filling _ _ _ Hu)) as B.
    unfold filling at 1 in B. rewrite E in B. lia.
  - destruct Hx as [_ Hx]. rewrite Hreg, Hr in Hx. by destruct (cur_of g).
Qed.
End Data.
