(* ===== verification/AllreduceProps.v ===== *)
(** The allreduce object refines its specification, one element at a time: seen at one
    element, a run in which the threads work on the shared array side by side is a run
    in which each call of [simple_reduce] is one step, the one that takes effect on the
    element. The properties of allreduce follow. *)
From stdpp Require Import relations.
From S2P Require Import Prelude Types RdcOp ElementWise Allreduce AllreduceCtrl AllreduceData.

Open Scope Z_scope.

(** ** The object at one element *)

Section Project.
Context {A : Type} `{!EqDecision A} (o : option (rdc_op A)) (i : nat).

Definition at_block (blk : block A) : block A := match blk with Live l => Live (elem i l) | _ => blk end.
Definition at_sub (s : sub A) : sub A := mkSub (avail s) (done_ s) (at_block (data s)) (one i (count s)).
Definition at_obj (b : tmpi_AllreduceObj A) : tmpi_AllreduceObj A :=
  mkArdco (group_size b) (at_sub (sub0 b)) (at_sub (sub1 b)) (subp b).
Definition at_result (e : Z * option (list A)) : Z * option (list A) := (e.1, elem i <$> e.2).
Definition at_thread (th : thread A) : thread A :=
  Thread (pc th) (reg th) (one i (cnt th)) (ret th) (elem i <$> got th) (at_result <$> log th).

(** A thread in the loop is about to reduce, or has done so when there is nothing more
    for it to do to the element. *)
Definition at_caller (c : caller A) : thread A :=
  match inloop c, o with
  | Some w, Some op =>
      if done_with op w i then goes ToCount (at_thread (regs c)) <| cnt := one i (length (source w)) |> else at_thread (regs c)
  | _, _ => at_thread (regs c)
  end.
Definition at_system (s : system) : atomic_system := (at_obj s.1, at_caller <$> s.2).

Definition at_effect (e : effect A (thread A)) : effect A (thread A) :=
  match e with Moves b th w => Moves (at_obj b) (at_thread th) w | Blocked => Blocked | Undefined => Undefined end.

Lemma at_set j s b : at_obj (set_sub j s b) = set_sub j (at_sub s) (at_obj b).
Proof. by destruct j. Qed.
Lemma sub_at_obj j b : sub_at (at_obj b) j = at_sub (sub_at b j).
Proof. by destruct j. Qed.
Lemma at_log_length th : length (log (at_thread th)) = length (log th).
Proof. apply length_fmap. Qed.

(** The steps outside [simple_reduce] do the same at each element. *)
Lemma body_at reduce reduce' nomem send b th : pc th <> Reducing ->
  ardco_body reduce' nomem (elem i send) (at_obj b) (at_thread th) = at_effect (ardco_body reduce nomem send b th).
Proof.
  intros Hpc. unfold ardco_body. cbn [pc reg at_thread group_size at_obj]. rewrite sub_at_obj. cbv zeta.
  destruct (pc th); try done.
  - destruct (_ <? _); unfold at_effect, at_thread; cbn; by rewrite ?fmap_app, ?length_elem.
  - cbn. destruct (_ =? _); cbn; rewrite ?at_set; done.
  - destruct nomem; cbn; rewrite ?at_set; done.
  - cbn. by rewrite at_set.
  - cbn. by rewrite at_set.
  - cbn. destruct (data _); cbn; [done|done|]. unfold at_thread. cbn. by rewrite elem_take.
  - cbn. by rewrite at_set.
  - cbn. destruct (data _); cbn; by rewrite ?at_set.
  - cbn. destruct (eqb _ _); cbn; unfold at_thread; cbn; by rewrite ?fmap_app.
  - cbn. destruct (eqb _ _); cbn; unfold at_thread, at_obj; cbn; rewrite ?fmap_app; [|done]. by destruct (reg th).
Qed.
End Project.

(** ** The simulation *)

Section Refine.
Context {A : Type} `{!EqDecision A} (o : option (rdc_op A)) (sends : nat -> nat -> list A).

(** What the threads send of element [i]. *)
Definition sends_at (i t k : nat) : list A := elem i (sends t k).

Definition caller_ok (t : nat) (c : caller A) : Prop :=
  match inloop c with
  | None => True
  | Some w => pc (regs c) = Reducing /\ ret (regs c) = 0 /\
      exists op, o = Some op /\ in_loop op (sends t (length (log (regs c)))) w
  end.

Lemma wake_at i t c : caller_ok t c -> at_caller o i (wake_caller c) = wake (at_caller o i c).
Proof.
  unfold caller_ok, at_caller, wake_caller. cbn [inloop regs]. destruct (inloop c) as [w|].
  - intros (Hpc & _ & op & -> & _). unfold wake at 1 2. rewrite Hpc. by destruct (done_with _ _ _); unfold wake; cbn; rewrite ?Hpc.
  - intros _. unfold wake. cbn. by destruct (pc (regs c)).
Qed.
Lemma wake_caller_ok t c : caller_ok t c -> caller_ok t (wake_caller c).
Proof.
  unfold caller_ok, wake_caller. cbn [inloop regs]. destruct (inloop c) as [w|]; [|done]. intros (Hpc & H). unfold wake. by rewrite Hpc.
Qed.

Definition callers_ok (cs : list (caller A)) : Prop := forall t c, cs !! t = Some c -> caller_ok t c.

Lemma callers_move (w : bool) cs t c' : callers_ok cs -> caller_ok t c' ->
  callers_ok ((if w then fmap wake_caller else id) (<[t := c']> cs)).
Proof.
  intros Hcs Hc'. assert (callers_ok (<[t := c']> cs)) as H.
  { intros u c Hu. destruct (decide (u = t)) as [->|Hne]; [|rewrite list_lookup_insert_ne in Hu by done; by apply Hcs].
    rewrite list_lookup_insert_eq in Hu; [by injection Hu as <-|]. apply lookup_lt_Some in Hu. by rewrite length_insert in Hu. }
  destruct w; [|done]. intros u c Hu. rewrite list_lookup_fmap in Hu. destruct (_ !! u) as [x|] eqn:E; [|done].
  injection Hu as <-. apply wake_caller_ok. by apply H.
Qed.

Lemma at_move i (w : bool) b cs t c' : callers_ok (<[t := c']> cs) ->
  at_system o i (b, (if w then fmap wake_caller else id) (<[t := c']> cs)) =
  (at_obj i b, (if w then fmap wake else id) (<[t := at_caller o i c']> (at_caller o i <$> cs))).
Proof.
  intros Hok. unfold at_system. cbn [fst snd]. f_equal. rewrite <- list_fmap_insert. destruct w; [|done].
  rewrite <- !list_fmap_compose. apply list_fmap_ext. intros u c Hu. by apply (wake_at i u), Hok.
Qed.

(** A step that is none at the element. *)
Lemma at_stutter i b b' cs t c c' : cs !! t = Some c -> at_obj i b' = at_obj i b -> at_caller o i c' = at_caller o i c ->
  at_system o i (b', <[t := c']> cs) = at_system o i (b, cs).
Proof.
  intros Ht Hb Hc. unfold at_system. cbn [fst snd]. rewrite Hb, list_fmap_insert, Hc. f_equal.
  apply list_insert_id. by rewrite list_lookup_fmap, Ht.
Qed.

(** A step that is one. *)
Lemma at_step i nomem b b' cs t c c' bi th' : cs !! t = Some c ->
  ardco_atomic o nomem (sends_at i t (length (log (at_caller o i c)))) (at_obj i b) (at_caller o i c) = Moves bi th' false ->
  bi = at_obj i b' -> th' = at_caller o i c' ->
  atomic_step o (sends_at i) (at_system o i (b, cs)) (at_system o i (b', <[t := c']> cs)).
Proof.
  intros Ht Hrun -> ->. unfold at_system. cbn [fst snd]. rewrite list_fmap_insert.
  eapply (atomic_run o (sends_at i) nomem _ _ t _ _ _ false); [by rewrite list_lookup_fmap, Ht|done].
Qed.

Lemma reducing_at i nomem send b th : pc th = Reducing ->
  let s := at_sub i (sub_at b (reg th)) in
  let c := one i (Nat.min (cnt th) (count (sub_at b (reg th)))) in
  ardco_atomic o nomem (elem i send) (at_obj i b) (at_thread i th) =
  match data (sub_at b (reg th)) with
  | Live l => Moves (set_sub (reg th) (s <| data := Live (reduce_into o c (elem i l) (elem i send)) |>) (at_obj i b))
      (goes ToCount (at_thread i th) <| cnt := c |>) false
  | Null => Moves (at_obj i b) (goes ToCount (at_thread i th) <| cnt := c |> <| ret := -2 |>) false
  | Freed => Undefined
  end.
Proof.
  intros Hpc. unfold ardco_atomic, ardco_body. cbv zeta. cbn [at_thread pc reg cnt]. rewrite Hpc, sub_at_obj.
  cbn [at_sub data count]. rewrite one_min. by destruct (data _).
Qed.

Hypothesis same_count : forall t u k, length (sends t k) = length (sends u k).
Context (n : nat).
Hypothesis two : (2 <= n)%nat.

Lemma same_count_at i t u k : length (sends_at i t k) = length (sends_at i u k).
Proof. unfold sends_at. by rewrite !length_elem, (same_count t u). Qed.

(** The states of the system whose threads are in order and which are reachable at each
    element in the specification. *)
Record refines (s : system) : Prop := Refines {
  rf_callers : callers_ok s.2;
  rf_atomic : forall i, atomic_reachable o (sends_at i) n (at_system o i s)
}.

Lemma at_lookup i (s : system (A:=A)) t c : s.2 !! t = Some c -> (at_system o i s).2 !! t = Some (at_caller o i c).
Proof. intros H. cbn. by rewrite list_lookup_fmap, H. Qed.

Lemma log_at i c : length (log (at_caller o i c)) = length (log (regs c)).
Proof.
  unfold at_caller. destruct (inloop c), o as [op|]; try apply length_fmap. destruct (done_with op _ i); apply length_fmap.
Qed.
Lemma reg_at i c : reg (at_caller o i c) = reg (regs c).
Proof. unfold at_caller. destruct (inloop c), o as [op|]; try done. by destruct (done_with op _ i). Qed.

(** What the specification knows of a thread about to reduce. *)
Lemma enter_facts s t th : refines s -> s.2 !! t = Some (Caller th None) -> pc th = Reducing ->
  ret th = 0 /\ cnt th = length (sends t (length (log th))) /\
  match data (sub_at s.1 (reg th)) with
  | Live l => length l = length (sends t (length (log th))) /\ count (sub_at s.1 (reg th)) = length l
  | Null => True
  | Freed => False
  end.
Proof.
  intros HR Ht Hpc.
  assert (forall i, _) as H by (intros i; exact (atomic_reducing o (sends_at i) (same_count_at i) n _ t _ two (rf_atomic _ HR i) (at_lookup i _ _ _ Ht) Hpc)).
  unfold rnd in H. cbn [at_caller inloop regs at_system fst at_thread ret cnt reg log] in H.
  assert (forall x y, (forall i, one i x = one i y) -> x = y) as Hone.
  { intros x y Hxy. pose proof (one_inv _ _ _ (Hxy x)). pose proof (one_inv _ _ _ (Hxy y)). lia. }
  split; [by destruct (H 0%nat)|]. split.
  - apply Hone. intros i. destruct (H i) as (_ & Hc & _). by rewrite length_fmap in Hc; unfold sends_at in Hc; rewrite length_elem in Hc.
  - assert (forall i, match data (sub_at s.1 (reg th)) with
      | Live l => one i (length l) = one i (length (sends t (length (log th)))) /\ one i (count (sub_at s.1 (reg th))) = one i (length l)
      | Null => True | Freed => False end) as Hd.
    { intros i. destruct (H i) as (_ & _ & Hd). rewrite length_fmap, sub_at_obj in Hd. cbn [at_sub data count] in Hd.
      destruct (data _); cbn [at_block] in Hd; try done. unfold sends_at in Hd. by rewrite !length_elem in Hd. }
    clear H. destruct (data _) as [| |l]; [done|by apply (Hd 0%nat)|]. split; apply Hone; intros i; apply (Hd i).
Qed.

(** What it knows of a thread in the loop. *)
Lemma loop_facts s t th w op : refines s -> s.2 !! t = Some (Caller th (Some w)) -> o = Some op ->
  exists l, data (sub_at s.1 (reg th)) = Live l /\ (length (source w) <= length l)%nat /\
    forall i, done_with op w i = false ->
      one i (cnt th) = 1%nat /\ one i (count (sub_at s.1 (reg th))) = 1%nat.
Proof.
  intros HR Ht Ho. pose proof (rf_callers _ HR _ _ Ht) as (Hpc & Hret & op' & Ho' & Hin). cbn [regs] in Hin, Hpc, Hret.
  assert (op' = op) as -> by congruence.
  assert (forall i, done_with op w i = false -> (i < length (sends t (length (log th))))%nat) as Hlt.
  { intros i Hd. unfold done_with in Hd. apply orb_false_elim in Hd as [Hd _]. apply Nat.leb_gt in Hd.
    destruct Hin as [(m & Hs) _ _]. rewrite Hs, length_take in Hd. lia. }
  assert (forall i, done_with op w i = true -> exists l, data (sub_at s.1 (reg th)) = Live l /\
    one i (length (source w)) = one i (length l)) as Hdone.
  { intros i Hd.
    destruct (atomic_reduced o (sends_at i) (same_count_at i) n _ t (at_caller o i (Caller th (Some w))) two (rf_atomic _ HR i) (at_lookup i _ _ _ Ht)) as (l' & Hl & Hc);
      [unfold at_caller; cbn [inloop]; by rewrite Ho, Hd..|].
    rewrite reg_at in Hl. cbn [at_system fst regs] in Hl. rewrite sub_at_obj in Hl. cbn [at_sub data] in Hl.
    destruct (data (sub_at s.1 (reg th))) as [| |l]; [done|done|]. exists l. split; [done|]. injection Hl as <-.
    unfold at_caller in Hc. cbn [inloop] in Hc. rewrite Ho, Hd, length_elem in Hc. done. }
  destruct (Hdone (length (source w))) as (l & Hl & _); [unfold done_with; by rewrite Nat.leb_refl|]. exists l. split; [done|].
  assert (forall i, done_with op w i = false -> (i < length l)%nat /\ one i (cnt th) = 1%nat /\ one i (count (sub_at s.1 (reg th))) = 1%nat) as Hi.
  { intros i Hn.
    destruct (atomic_reducing o (sends_at i) (same_count_at i) n _ t (at_caller o i (Caller th (Some w))) two (rf_atomic _ HR i) (at_lookup i _ _ _ Ht)) as (_ & Hc & Hb).
    { unfold at_caller. cbn [inloop]. by rewrite Ho, Hn. }
    rewrite reg_at in Hb. unfold rnd in *. rewrite log_at in *. unfold at_caller in Hc. cbn [inloop] in Hc. rewrite Ho, Hn in Hc.
    cbn [at_system fst regs at_thread cnt] in *. rewrite sub_at_obj in Hb. cbn [at_sub data count] in Hb. rewrite Hl in Hb.
    cbn [at_block] in Hb. unfold sends_at in *. rewrite !length_elem in *. rewrite (one_lt i (length (sends _ _))) in * by (by apply Hlt).
    destruct Hb as [Hb1 Hb2]. split_and!; [|done|congruence].
    apply (one_inv i (length l) (S i)); [rewrite Hb1; by rewrite one_lt by lia|lia]. }
  split; [|intros i Hn; by destruct (Hi i Hn)].
  destruct (Nat.le_gt_cases (length (source w)) (length l)) as [|Hgt]; [done|].
  destruct (done_with op w (length l)) eqn:Hd; [|destruct (Hi _ Hd); lia].
  destruct (Hdone _ Hd) as (l' & Hl' & H1). assert (l' = l) as -> by congruence. rewrite (one_lt (length l)), one_ge in H1 by lia. done.
Qed.

Lemma at_obj_same i j (s : sub A) b : at_sub i s = at_sub i (sub_at b j) -> at_obj i (set_sub j s b) = at_obj i b.
Proof. intros H. rewrite at_set, H. destruct b as [? ? ? ?]. by destruct j. Qed.

Notation simulated s s' := (forall i, rtc (atomic_step o (sends_at i)) (at_system o i s) (at_system o i s')).

(** The end of the loop is no step of the specification, which has reduced by then. *)
Lemma leave_sim b cs t th w : refines (b, cs) -> cs !! t = Some (Caller th (Some w)) -> worker_at w = None ->
  simulated (b, cs) (b, <[t := reduced (length (source w)) th]> cs).
Proof.
  intros HR Ht Hw i. destruct (rf_callers _ HR _ _ Ht) as (Hpc & _ & op & Ho & Hin).
  erewrite at_stutter; [apply rtc_refl|exact Ht|done|]. unfold at_caller, reduced. cbn [inloop regs].
  by rewrite Ho, (done_end op _ w i Hin Hw).
Qed.

(** A step in the loop. *)
Lemma loop_sim b cs t th w op l l' w' : refines (b, cs) -> cs !! t = Some (Caller th (Some w)) -> o = Some op ->
  data (sub_at b (reg th)) = Live l -> rdc_run op l w = Some (l', w') ->
  simulated (b, cs) (set_sub (reg th) (sub_at b (reg th) <| data := Live l' |>) b, <[t := Caller th (Some w')]> cs).
Proof.
  intros HR Ht Ho Hl Hrun i. pose proof (loop_facts _ _ _ _ _ HR Ht Ho) as (l0 & Hl0 & _ & Hd). cbn [fst] in Hl0, Hd.
  assert (l0 = l) as -> by congruence. specialize (Hd i).
  destruct (rf_callers _ HR _ _ Ht) as (Hpc & _ & op' & Ho' & Hin). assert (op' = op) as -> by congruence. cbn [regs] in Hin, Hpc.
  destruct (rdc_run_elem op _ _ _ _ _ i Hin Hrun) as (_ & _ & Hsrc & [[Hsame Hli]|(Hn & Hy & r & x & Hr & Hx & Hr')]).
  - erewrite at_stutter; [apply rtc_refl|exact Ht| |].
    + apply at_obj_same. unfold at_sub. cbn. rewrite Hl. cbn. by rewrite (elem_lookup _ _ _ Hli).
    + unfold at_caller. cbn [inloop regs]. by rewrite Ho, Hsame, Hsrc.
  - destruct (Hd Hn) as [Hc1 Hc2]. apply rtc_once. eapply at_step; [exact Ht|..].
    + unfold at_caller. cbn [inloop regs]. rewrite Ho, Hn, at_log_length.
      pose proof (reducing_at i false (sends t (length (log th))) b th Hpc) as HE. cbv zeta in HE. rewrite Hl, Ho in HE. exact HE.
    + rewrite at_set. f_equal. unfold at_sub. cbn. rewrite one_min, Hc1, Hc2. cbn [Nat.min].
      rewrite ?Ho, (reduce_into_elem op i l _ r x Hr (source_send _ _ _ _ _ Hin Hx)). unfold elem. by rewrite Hr'.
    + unfold at_caller. cbn [inloop regs]. rewrite Ho, Hy, Hsrc, one_min, Hc1, Hc2. cbn [Nat.min].
      by rewrite one_lt by (by eapply lookup_lt_Some).
Qed.

(** The entry to the loop: a step of the specification where the loop does not reach. *)
Lemma enter_sim nomem b cs t th b' c' w : refines (b, cs) -> cs !! t = Some (Caller th None) -> pc th = Reducing ->
  ardco_run o nomem (sends t (length (log th))) b (Caller th None) = Moves b' c' w ->
  w = false /\ b' = b /\ caller_ok t c' /\ simulated (b, cs) (b', <[t := c']> cs).
Proof.
  intros HR Ht Hpc Hrun. destruct (enter_facts _ _ _ HR Ht Hpc) as (Hret & Hcnt & Hd). cbn [fst] in Hd.
  unfold ardco_run, ardco_enter in Hrun. cbn [inloop regs] in Hrun. rewrite Hpc in Hrun. cbv zeta in Hrun.
  assert (forall i, ardco_atomic o false (sends_at i t (length (log (at_caller o i (Caller th None))))) (at_obj i b) (at_caller o i (Caller th None)) =
    ardco_atomic o false (elem i (sends t (length (log th)))) (at_obj i b) (at_thread i th)) as Hbase
    by (intros i; unfold at_caller; cbn [inloop regs]; by rewrite at_log_length).
  pose proof (fun i => reducing_at i false (sends t (length (log th))) b th Hpc) as Hat. cbv zeta in Hat.
  set (c := Nat.min (cnt th) (count (sub_at b (reg th)))) in *.
  assert (forall i r, reduce_into o (one i c) (elem i r) (elem i (sends t (length (log th)))) = elem i r -> data (sub_at b (reg th)) = Live r ->
    set_sub (reg th) (at_sub i (sub_at b (reg th)) <| data := Live (reduce_into o (one i c) (elem i r) (elem i (sends t (length (log th))))) |>) (at_obj i b) = at_obj i b) as Hid.
  { intros i r -> E. rewrite <- (at_obj_same i (reg th) (sub_at b (reg th)) b eq_refl) at 2. rewrite at_set. f_equal. unfold at_sub. cbn. by rewrite E. }
  destruct (data (sub_at b (reg th))) as [| |l] eqn:E; [|done|].
  - injection Hrun as <- <- <-. split_and!; [done|done|done|]. intros i. apply rtc_once.
    eapply at_step; [exact Ht|rewrite Hbase; apply Hat|done|done].
  - destruct o as [op|] eqn:Ho in Hrun; injection Hrun as <- <- <-; (split_and!; [done|done| |]).
    + split; [done|]. split; [done|]. exists op. split; [done|]. apply in_loop_start.
    + intros i. destruct (Nat.le_gt_cases (length (take c (sends t (length (log th))))) i) as [Hi|Hi].
      * apply rtc_once. assert (one i c = 0%nat) as H0.
        { rewrite length_take in Hi. apply one_ge. lia. }
        eapply at_step; [exact Ht|rewrite Hbase; apply Hat| |].
        { apply Hid; [|done]. rewrite H0. apply reduce_into_0. }
        unfold at_caller. cbn [inloop regs]. rewrite Ho, done_start, (proj2 (Nat.leb_le _ _) Hi). cbn [source].
        by rewrite H0, one_ge.
      * erewrite at_stutter; [apply rtc_refl|exact Ht|done|]. unfold at_caller. cbn [inloop regs].
        by rewrite Ho, done_start, (proj2 (Nat.leb_gt _ _) Hi).
    + done.
    + intros i. apply rtc_once. eapply at_step; [exact Ht|rewrite Hbase; apply Hat| |done]. apply Hid; [by rewrite Ho|done].
Qed.

(** The other steps. *)
Lemma body_sim nomem b cs t th b' th' w : refines (b, cs) -> cs !! t = Some (Caller th None) -> pc th <> Reducing ->
  ardco_body Blocked nomem (sends t (length (log th))) b th = Moves b' th' w ->
  simulated (b, cs) (b', (if w then fmap wake_caller else id) (<[t := Caller th' None]> cs)).
Proof.
  intros HR Ht Hpc Hrun i. rewrite at_move by (by apply (callers_move false); [apply (rf_callers _ HR)|]). apply rtc_once.
  eapply (atomic_run o (sends_at i) nomem _ _ t _ _ _ w); [by apply (at_lookup i (b, cs) t _ Ht)|].
  unfold at_caller. cbn [inloop regs]. rewrite at_log_length. unfold ardco_atomic, sends_at. rewrite (body_at i Blocked) by done. cbn [fst]. by rewrite Hrun.
Qed.

Lemma run_sim nomem b cs t c b' c' w : refines (b, cs) -> cs !! t = Some c ->
  ardco_run o nomem (sends t (length (log (regs c)))) b c = Moves b' c' w ->
  caller_ok t c' /\ simulated (b, cs) (b', (if w then fmap wake_caller else id) (<[t := c']> cs)).
Proof.
  intros HR Ht Hrun. destruct c as [th [lp|]]; cbn [regs] in *.
  - pose proof (rf_callers _ HR _ _ Ht) as (Hpc & Hret & op & Ho & Hin). cbn [regs] in *.
    unfold ardco_run, ardco_loop in Hrun. cbn [inloop regs] in Hrun. destruct (worker_at lp) eqn:Hw.
    + destruct o as [op'|] eqn:Ho' in Hrun; [|done]. assert (op' = op) as -> by congruence.
      destruct (data (sub_at b (reg th))) as [| |l] eqn:Hl; [done|done|].
      destruct (rdc_run op l lp) as [[l' w']|] eqn:Hstep; [|done]. injection Hrun as <- <- <-. split.
      * destruct (rdc_run_elem op _ _ _ _ _ 0 Hin Hstep) as (Hin' & _). split; [done|]. split; [done|]. by exists op.
      * by eapply loop_sim.
    + injection Hrun as <- <- <-. split; [done|]. by apply leave_sim.
  - destruct (decide (pc th = Reducing)) as [Hpc|Hpc].
    + by destruct (enter_sim _ _ _ _ _ _ _ _ HR Ht Hpc Hrun) as (-> & -> & Hok & Hsim).
    + assert (ardco_run o nomem (sends t (length (log th))) b (Caller th None) =
        outside_loop (ardco_body Blocked nomem (sends t (length (log th))) b th)) as Hbody
        by (unfold ardco_run; cbn [inloop regs]; by destruct (pc th)).
      rewrite Hbody in Hrun. destruct (ardco_body _ _ _ _ _) as [b1 th1 w1| |] eqn:E; [|done|done]. injection Hrun as <- <- <-.
      split; [done|]. by eapply body_sim.
Qed.

Lemma step_refines s s' : refines s -> ardco_step o sends s s' -> refines s'.
Proof.
  intros HR Hs. destruct Hs as [nomem b cs t c b' c' w Ht Hrun|b cs t c Ht].
  - destruct (run_sim _ _ _ _ _ _ _ _ HR Ht Hrun) as [Hok Hsim]. split; cbn [fst snd].
    + apply callers_move; [apply (rf_callers _ HR)|done].
    + intros i. unfold atomic_reachable. transitivity (at_system o i (b, cs)); [apply (rf_atomic _ HR i)|apply Hsim].
  - pose proof (rf_callers _ HR t c Ht) as Hok.
    assert (callers_ok (<[t := wake_caller c]> cs)) as Hcs by (apply (callers_move false); [apply (rf_callers _ HR)|by apply wake_caller_ok]).
    split; [done|]. intros i. eapply rtc_r; [apply (rf_atomic _ HR i)|]. rewrite (at_move i false _ _ _ _ Hcs). cbn [id].
    rewrite (wake_at i t c Hok). unfold id. apply atomic_spurious. by rewrite list_lookup_fmap, Ht.
Qed.

Lemma start_refines : refines (ardco_start n).
Proof.
  split.
  - intros t c [-> _]%lookup_replicate. done.
  - intros i. replace (at_system o i (ardco_start n)) with (atomic_start (A:=A) n); [apply rtc_refl|].
    unfold at_system, ardco_start, atomic_start. cbn [fst snd]. by rewrite fmap_replicate.
Qed.

(** Every reachable state is, at each element, a reachable state of the specification. *)
Lemma reachable_refines s : ardco_reachable o sends n s -> refines s.
Proof.
  intros Hs. unfold ardco_reachable in Hs. pose proof start_refines as H0. revert H0.
  induction Hs as [s|s1 s2 s3 H12 _ IH]; [done|]. intros H. apply IH. by eapply step_refines.
Qed.

(** ** Results *)

Lemma at_result_inj e e' : (forall i, at_result i e = at_result (A:=A) i e') -> e = e'.
Proof.
  destruct e as [r g], e' as [r' g']. intros H. pose proof (H 0%nat) as [= -> H0]. f_equal.
  destruct g as [l|], g' as [l'|]; try done. f_equal. apply elem_inj. intros i. specialize (H i). unfold at_result in H. cbn in H. by injection H.
Qed.

(** Logs that are prefixes of one list at every element are prefixes of each other. *)
Lemma logs_comparable (l l' : list (Z * option (list A))) :
  (forall i, exists R, at_result i <$> l `prefix_of` R /\ at_result i <$> l' `prefix_of` R) ->
  (length l <= length l')%nat -> l `prefix_of` l'.
Proof.
  intros H Hl. exists (drop (length l) l'). rewrite <- (take_drop (length l) l') at 1. f_equal. apply list_eq. intros j.
  destruct (Nat.lt_ge_cases j (length l)) as [Hj|Hj]; [|by rewrite !(proj2 (lookup_ge_None _ _)) by (rewrite ?length_take; lia)].
  rewrite lookup_take_lt by done. destruct (lookup_lt_is_Some_2 l' j) as [e' He']; [lia|]. destruct (lookup_lt_is_Some_2 l j Hj) as [e He].
  rewrite He, He'. f_equal. apply at_result_inj. intros i. destruct (H i) as (R & HR & HR').
  assert (R !! j = Some (at_result i e)) as E by (eapply prefix_lookup_Some; [|exact HR]; by rewrite list_lookup_fmap, He).
  assert (R !! j = Some (at_result i e')) as E' by (eapply prefix_lookup_Some; [|exact HR']; by rewrite list_lookup_fmap, He').
  congruence.
Qed.

Lemma longest {X} (ls : list (list X)) :
  (forall l l', l ∈ ls -> l' ∈ ls -> (length l <= length l')%nat -> l `prefix_of` l') ->
  exists R, (forall l, l ∈ ls -> l `prefix_of` R) /\ (R = [] \/ R ∈ ls).
Proof.
  induction ls as [|a ls IH]; intros H; [exists []; split; [by intros l ?%not_elem_of_nil|by left]|].
  destruct IH as (R & HR & Hin); [intros l l' Hl Hl'; apply H; by right|]. destruct (Nat.le_gt_cases (length a) (length R)) as [Hle|Hgt].
  - exists R. split; [|destruct Hin; [by left|right; by right]]. intros l [->|Hl]%elem_of_cons; [|by apply HR].
    destruct Hin as [->|Hin]; [by destruct a; [|cbn in Hle; lia]|]. apply H; [by left|by right|done].
  - exists a. split; [|right; by left]. intros l [->|Hl]%elem_of_cons; [done|]. apply H; [by right|by left|].
    pose proof (prefix_length _ _ (HR l Hl)). lia.
Qed.

(** What the threads [order] contribute to element [i] in their call [j]. *)
Definition sent_at (j i : nat) (order : list nat) : list A := omap (fun t => sends t j !! i) order.

Lemma combine_rest j i rest r : (i < length (sends 0%nat j))%nat ->
  fold_left (fun r u => reduce_into o (length r) r (sends_at i u j)) rest [r] =
  [match o with Some op => foldl (combine op) r (sent_at j i rest) | None => r end].
Proof.
  intros Hi. revert r. induction rest as [|u rest IH]; intros r; cbn; [by destruct o|].
  assert (exists x, sends u j !! i = Some x) as [x Hx] by (apply lookup_lt_is_Some_2; by rewrite (same_count u 0)).
  unfold sends_at at 2. unfold elem. rewrite Hx. destruct o as [op|]; cbn; apply IH.
Qed.
Lemma reduce_all_at j i first rest : (i < length (sends 0%nat j))%nat ->
  exists x, reduce_all o (sends_at i) j first rest = [x] /\ combine_all o (sent_at j i (first :: rest)) = Some x.
Proof.
  intros Hi. assert (exists x, sends first j !! i = Some x) as [x Hx] by (apply lookup_lt_is_Some_2; by rewrite (same_count first 0)).
  unfold reduce_all, sent_at, sends_at at 2, elem. cbn [omap list_omap]. rewrite Hx, combine_rest by done. eexists. split; [done|]. cbn. by destruct o.
Qed.

(** A result is right when it is at each element. *)
Lemma results_at j e :
  (forall i, at_result i e = (-2, None) \/ exists first rest, first :: rest ≡ₚ seq 0 n /\
    at_result i e = (0, Some (reduce_all o (sends_at i) j first rest))) ->
  e = (-2, None) \/
  exists d, e = (0, Some d) /\ length d = length (sends 0%nat j) /\
    forall i x, d !! i = Some x -> exists order, order ≡ₚ seq 0 n /\ combine_all o (sent_at j i order) = Some x.
Proof.
  intros Hat. destruct e as [r [d|]]; unfold at_result in Hat; cbn [fst snd] in Hat.
  - assert (r = 0) as -> by (destruct (Hat 0%nat) as [|(? & ? & _ & ?)]; [done|congruence]). right. exists d. split; [done|].
    assert (forall i, exists order, order ≡ₚ seq 0 n /\ ((i < length (sends 0%nat j))%nat -> exists x, elem i d = [x] /\ combine_all o (sent_at j i order) = Some x) /\
      length (elem i d) = one i (length (sends 0%nat j))) as Hd.
    { intros i. destruct (Hat i) as [|(first & rest & Hp & [= E])]; [done|]. exists (first :: rest). split; [done|]. rewrite E. split.
      - intros Hi. by apply reduce_all_at.
      - rewrite (length_reduce_all o (sends_at i) (same_count_at i)). unfold sends_at. by rewrite length_elem. }
    assert (length d = length (sends 0%nat j)) as Hlen.
    { assert (forall i, one i (length d) = one i (length (sends 0%nat j))) as H1 by (intros i; destruct (Hd i) as (_ & _ & _ & H); by rewrite length_elem in H).
      pose proof (one_inv _ _ _ (H1 (length d))). pose proof (one_inv _ _ _ (H1 (length (sends 0%nat j)))). lia. }
    split; [done|]. intros i x Hx. destruct (Hd i) as (order & Hp & Hc & _). exists order. split; [done|].
    destruct Hc as (y & Hy & Hc); [rewrite <- Hlen; by eapply lookup_lt_Some|]. unfold elem in Hy. rewrite Hx in Hy. congruence.
  - left. destruct (Hat 0%nat) as [[= ->]|(? & ? & _ & [=])]. done.
Qed.

(** (C11) Allreduce gives every process the same, right result: whatever the threads of a
    group of two or more do in which order, however many calls they make, as long as all
    pass the same number of elements in the same call, the results of every thread's
    calls so far are the first of one list [R] common to all. Its [j]th entry is the code
    0 and an array of that number of elements, each of which is the combination of what
    all the threads sent for it in their [j]th call, each exactly once, one after the
    other in some order; or, when the first to arrive got no memory, the code -2 for all.
    The threads reduce into the shared array at the same time, element by element, so the
    order may differ from one element to the next (which only floating-point sums can
    show). *)
Theorem allreduce_results s (Hs : ardco_reachable o sends n s) :
  exists R,
    (forall t c, s.2 !! t = Some c -> log (regs c) `prefix_of` R) /\
    forall j e, R !! j = Some e ->
      e = (-2, None) \/
      exists d, e = (0, Some d) /\ length d = length (sends 0%nat j) /\
        forall i x, d !! i = Some x -> exists order, order ≡ₚ seq 0 n /\ combine_all o (sent_at j i order) = Some x.
Proof.
  pose proof (reachable_refines s Hs) as HR.
  assert (forall i, exists R, _) as HA by (intros i; exact (atomic_results o (sends_at i) (same_count_at i) n _ two (rf_atomic _ HR i))).
  assert (forall i t c, s.2 !! t = Some c -> exists th, (at_system o i s).2 !! t = Some th /\ log th = at_result i <$> log (regs c)) as Hlog.
  { intros i t c Ht. exists (at_caller o i c). split; [by apply at_lookup|]. unfold at_caller. destruct (inloop c), o as [op|]; try done. by destruct (done_with _ _ _). }
  destruct (longest ((fun c => log (regs c)) <$> s.2)) as (R & Hpre & Hin).
  { intros l l' (c & -> & [t Ht]%list_elem_of_lookup)%list_elem_of_fmap (c' & -> & [t' Ht']%list_elem_of_lookup)%list_elem_of_fmap.
    apply logs_comparable. intros i. destruct (HA i) as (R & HR1 & _). exists R.
    destruct (Hlog i _ _ Ht) as (th & Hth & <-), (Hlog i _ _ Ht') as (th' & Hth' & <-). eauto. }
  exists R. split; [intros t c Ht; apply Hpre, list_elem_of_fmap; exists c; split; [done|by eapply list_elem_of_lookup_2]|].
  intros j e He. destruct Hin as [->|(c & -> & [t Ht]%list_elem_of_lookup)%list_elem_of_fmap]; [done|].
  assert (forall i, at_result i e = (-2, None) \/ exists first rest, first :: rest ≡ₚ seq 0 n /\
    at_result i e = (0, Some (reduce_all o (sends_at i) j first rest))) as Hat.
  { intros i. destruct (HA i) as (R & HR1 & HR2). apply HR2. destruct (Hlog i _ _ Ht) as (th & Hth & E).
    eapply prefix_lookup_Some; [|by eapply HR1]. by rewrite E, list_lookup_fmap, He. }
  exact (results_at j e Hat).
Qed.

(** *** Memory *)

Lemma run_body nomem send b th : pc th <> Reducing ->
  ardco_run o nomem send b (Caller th None) = outside_loop (ardco_body Blocked nomem send b th).
Proof. intros Hpc. unfold ardco_run. cbn [inloop regs]. by destruct (pc th). Qed.

(** Outside the loop the step is the specification's at any element. *)
Lemma run_at i nomem send b th : pc th <> Reducing ->
  ardco_atomic o nomem (elem i send) (at_obj i b) (at_thread i th) = at_effect i (ardco_body Blocked nomem send b th).
Proof. intros Hpc. unfold ardco_atomic. by apply body_at. Qed.

Lemma run_defined s t c nomem : refines s -> s.2 !! t = Some c ->
  ardco_run o nomem (sends t (length (log (regs c)))) s.1 c <> Undefined.
Proof.
  intros HR Ht. destruct s as [b cs]. cbn [fst snd] in *. destruct c as [th [w|]]; cbn [inloop regs] in *.
  - pose proof (rf_callers _ HR _ _ Ht) as (_ & _ & op & Ho & _).
    destruct (loop_facts _ _ _ _ _ HR Ht Ho) as (l & Hl & Hlen & _). cbn [fst] in Hl.
    unfold ardco_run, ardco_loop. cbn [inloop regs]. destruct (worker_at w) as [x|] eqn:Hx; [|done]. rewrite Ho, Hl.
    by destruct (rdc_run_goes op l w x Hx Hlen) as [[l' w'] ->].
  - destruct (decide (pc th = Reducing)) as [Hpc|Hpc].
    + destruct (enter_facts _ _ _ HR Ht Hpc) as (_ & _ & Hd). cbn [fst] in Hd. unfold ardco_run, ardco_enter. cbn [inloop regs]. rewrite Hpc.
      destruct (data _); [done|done|]. by destruct o.
    + pose proof (atomic_memory_safe o (sends_at 0) (same_count_at 0) n _ t _ nomem (elem 0 (sends t (length (log th)))) two (rf_atomic _ HR 0) (at_lookup 0 (b, cs) _ _ Ht)) as Hn.
      unfold at_caller in Hn. cbn [inloop regs at_system fst] in Hn. rewrite run_at in Hn by done. rewrite run_body by done.
      by destruct (ardco_body _ _ _ _ _).
Qed.

Lemma loop_alone s t c u x : refines s -> s.2 !! t = Some c -> inloop c <> None -> s.2 !! u = Some x ->
  reg (regs x) = reg (regs c) -> pc (regs x) <> Filling /\ pc (regs x) <> Resetting.
Proof.
  intros HR Ht Hl Hu Hreg. pose proof (rf_callers _ HR _ _ Ht) as Hok. unfold caller_ok in Hok. destruct (inloop c) as [w|] eqn:Hw; [|done].
  destruct Hok as (Hpc & _ & op & Ho & _).
  destruct (atomic_exclusive o (sends_at 0) (same_count_at 0) n _ t u _ _ two (rf_atomic _ HR 0) (at_lookup 0 _ _ _ Ht) (at_lookup 0 _ _ _ Hu)) as [H1 H2].
  { unfold at_caller. rewrite Hw, Ho. destruct (done_with _ _ _); [by right|by left]. }
  { by rewrite !reg_at. }
  pose proof (rf_callers _ HR _ _ Hu) as Hxok. unfold caller_ok in Hxok. unfold at_caller in H1, H2.
  destruct (inloop x); [by destruct Hxok as (-> & _)|done].
Qed.

(** (C22) No thread of an allreduce touches a block that was freed or lies outside its
    arrays: no reachable state gives undefined behaviour, in the loop of [simple_reduce]
    or elsewhere, as long as all threads pass the same number of elements in the same
    call. While a thread is in the loop no other one fills or frees the block it works
    on; so the last thread to leave frees it after all others have copied it, and only
    once. *)
Theorem allreduce_memory_safe s t c nomem
  (Hs : ardco_reachable o sends n s) (Ht : s.2 !! t = Some c) :
  ardco_run o nomem (sends t (length (log (regs c)))) s.1 c <> Undefined /\
  (inloop c <> None -> forall u x, s.2 !! u = Some x -> reg (regs x) = reg (regs c) ->
    pc (regs x) <> Filling /\ pc (regs x) <> Resetting).
Proof.
  pose proof (reachable_refines s Hs) as HR. split; [by apply run_defined|]. intros Hl u x Hu. by eapply loop_alone.
Qed.

(** Allreduce does not get stuck: whenever all threads are inside a call, one of
    them can take a step that does not end in sleep, without any spurious wake-up. *)
Theorem allreduce_progress s (Hs : ardco_reachable o sends n s) (Hin : Forall (fun c => pc (regs c) <> Outside) s.2) :
  exists t c, s.2 !! t = Some c /\ forall nomem, exists b' c' w,
    ardco_run o nomem (sends t (length (log (regs c)))) s.1 c = Moves b' c' w /\ pc (regs c') <> Asleep /\ pc (regs c') <> Asleep2.
Proof.
  pose proof (reachable_refines s Hs) as HR.
  destruct (atomic_progress o (sends_at 0) (same_count_at 0) n _ two (rf_atomic _ HR 0)) as (t & th0 & Ht0 & Hgo).
  { cbn [at_system snd]. apply Forall_fmap. eapply Forall_impl; [exact Hin|]. intros c Hc. cbn. unfold at_caller.
    destruct (inloop c), o as [op|]; try done. by destruct (done_with _ _ _). }
  cbn [at_system snd] in Ht0. rewrite list_lookup_fmap in Ht0. destruct (s.2 !! t) as [c|] eqn:Ht; [|done]. injection Ht0 as <-.
  exists t, c. split; [done|]. intros nomem. pose proof (run_defined s t c nomem HR Ht) as Hu. pose proof (rf_callers _ HR _ _ Ht) as Hok.
  specialize (Hgo nomem (elem 0 (sends t (length (log (regs c)))))). unfold caller_ok in Hok.
  destruct c as [th [w|]]; cbn [regs inloop] in *.
  - destruct Hok as (Hpc & _). unfold ardco_run, ardco_loop in *. cbn [inloop regs] in *. destruct (worker_at w); [|by eexists _, _, _].
    destruct o as [op|]; [|done]. destruct (data _); try done. destruct (rdc_run op _ _) as [[l' w']|]; [|done].
    eexists _, _, _. split; [done|]. cbn [regs]. by rewrite Hpc.
  - destruct (decide (pc th = Reducing)) as [Hpc|Hpc].
    + unfold ardco_run, ardco_enter in *. cbn [inloop regs] in *. rewrite Hpc in *. cbv zeta in *.
      destruct (data _); [by eexists _, _, _|done|]. destruct o; (eexists _, _, _; split; [done|]; cbn; by rewrite ?Hpc).
    + unfold at_caller in Hgo. cbn [inloop regs at_system fst] in Hgo. rewrite run_at in Hgo by done. rewrite run_body by done.
      destruct Hgo as (b1 & th1 & w & E & H1 & H2). destruct (ardco_body _ _ _ _ _) as [b2 th2 w2| |]; [|done|done].
      injection E as _ <- _. by exists b2, (Caller th2 None), w2.
Qed.
End Refine.

(** ** A run of three processes *)

(** Thread after thread of the list makes its next step, with memory. *)
Fixpoint run_schedule (sched : list nat) (sends : nat -> nat -> list Z) (s : system (A:=Z)) : option (system (A:=Z)) :=
  match sched with
  | [] => Some s
  | t :: sched' =>
      match s.2 !! t with
      | Some c =>
          match ardco_run (Some add_op) false (sends t (length (log (regs c)))) s.1 c with
          | Moves b' c' w => run_schedule sched' sends (b', (if w then fmap wake_caller else id) (<[t := c']> s.2))
          | _ => None
          end
      | None => None
      end
  end.

Lemma run_schedule_reach sched sends s s' :
  run_schedule sched sends s = Some s' -> rtc (ardco_step (Some add_op) sends) s s'.
Proof.
  revert s. induction sched as [|t sched IH]; intros s H; cbn in H; [injection H as ->; apply rtc_refl|].
  destruct s as [b ths]. cbn in H. destruct (ths !! t) as [th|] eqn:Hth; [|done].
  destruct (ardco_run _ _ _ _ _) as [b' th' w| |] eqn:Hrun; try done.
  eapply rtc_l; [by eapply step_run|by apply IH].
Qed.

(** Process [t] sends [t+1] and [10(t+1)] in call 0. *)
Definition three_sends (t k : nat) : list Z := [Z.of_nat (t + 1); 10 * Z.of_nat (t + 1)].
Definition steps_of (t k : nat) : list nat := replicate k t.
(** The first process fills the block and sleeps; the others go into the loop and read
    element 0; one of them swaps, the other fails and tries again, is then the first to
    add to element 1. *)
Definition in_the_loop : list nat := steps_of 0 7 ++ steps_of 1 5 ++ steps_of 2 5 ++ [2; 1; 1; 1]%nat.
Definition all_leave : list nat := in_the_loop ++ steps_of 1 5 ++ steps_of 2 15 ++ steps_of 1 6 ++ steps_of 0 6.

Definition three_run (sched : list nat) : option (system (A:=Z)) := run_schedule sched three_sends (ardco_start 3).
Lemma three_reachable sched s : three_run sched = Some s -> ardco_reachable (Some add_op) three_sends 3 s.
Proof. exact (run_schedule_reach sched three_sends (ardco_start 3) s). Qed.

Lemma allreduce_results_witness :
  exists s, three_run all_leave = Some s /\ (fun c => log (regs c)) <$> s.2 = replicate 3 [(0, Some [6; 60])] /\
    exists R, (forall t c, s.2 !! t = Some c -> log (regs c) `prefix_of` R) /\
      forall j e, R !! j = Some e -> e = (-2, None) \/
        exists d, e = (0, Some d) /\ length d = 2%nat /\
          forall i x, d !! i = Some x -> exists order, order ≡ₚ seq 0 3 /\ combine_all (Some add_op) (sent_at three_sends j i order) = Some x.
Proof.
  destruct (three_run all_leave) as [s|] eqn:E; [|vm_compute in E; discriminate E]. exists s. split; [done|].
  split; [vm_compute in E; injection E as <-; reflexivity|].
  apply (allreduce_results (Some add_op) three_sends (fun _ _ _ => eq_refl) 3 ltac:(lia) s). by apply three_reachable with all_leave.
Defined.

(** Two processes are in the loop. *)
Lemma allreduce_memory_safe_witness :
  exists s c w, three_run in_the_loop = Some s /\ s.2 !! 1%nat = Some c /\ inloop c = Some w /\
    ardco_run (Some add_op) false (three_sends 1 (length (log (regs c)))) s.1 c <> Undefined.
Proof.
  destruct (three_run in_the_loop) as [s|] eqn:E; [|vm_compute in E; discriminate E].
  destruct (s.2 !! 1%nat) as [c|] eqn:Hc; [|vm_compute in E; injection E as <-; discriminate Hc].
  destruct (inloop c) as [w|] eqn:Hw; [|vm_compute in E; injection E as <-; injection Hc as <-; discriminate Hw].
  exists s, c, w. split; [done|]. split; [done|]. split; [done|].
  apply (allreduce_memory_safe (Some add_op) three_sends (fun _ _ _ => eq_refl) 3 ltac:(lia) s 1 c false); [|done]. by apply three_reachable with in_the_loop.
Defined.

(** The first sleeps, the others are in the loop. *)
Lemma allreduce_progress_witness :
  exists s, three_run in_the_loop = Some s /\
    exists t c, s.2 !! t = Some c /\ forall nomem, exists b' c' w,
      ardco_run (Some add_op) nomem (three_sends t (length (log (regs c)))) s.1 c = Moves b' c' w /\ pc (regs c') <> Asleep /\ pc (regs c') <> Asleep2.
Proof.
  destruct (three_run in_the_loop) as [s|] eqn:E; [|vm_compute in E; discriminate E]. exists s. split; [done|].
  apply (allreduce_progress (Some add_op) three_sends (fun _ _ _ => eq_refl) 3 ltac:(lia) s); [by apply three_reachable with in_the_loop|].
  vm_compute in E. injection E as <-. repeat constructor; discriminate.
Defined.
