(* ===== verification/HandleLists.v ===== *)
(** Handles as lists in memory: chains of [next] pointers, and the blocks in which
    handles are allocated. The queues of intra/bcast.c and of intra/reduce.c keep their
    free handles in the same way; the type of a handle, its link and its size are
    parameters. *)
From S2P Require Import Prelude.

Open Scope Z_scope.

(** ** Lists of handles in memory *)

(** [mk e] is a new handle linked to [e]. *)
Class Handle (T : Type) := { next_of : T -> Z; linked_to : Z -> T; sizeof_handle : Z }.
Arguments sizeof_handle T {_}.
Class HandleLaws (T : Type) `{Handle T} := {
  next_linked_to : forall e, next_of (linked_to e) = e;
  sizeof_handle_pos : 0 < sizeof_handle T
}.

Section Lists.
Context {T : Type} `{!Handle T} `{!HandleLaws T}.
Notation memory := (gmap Z T).

(** [p] is the list [l] of handles, linked by [next]. *)
Fixpoint chain (m : memory) (p : Z) (l : list Z) : Prop :=
  match l with
  | [] => p = 0
  | h :: l' => p = h /\ exists x, m !! h = Some x /\ chain m (next_of x) l'
  end.

Lemma chain_lookup m p l h : chain m p l -> h ∈ l -> exists x, m !! h = Some x.
Proof.
  revert p. induction l as [|a l IH]; intros p H Hh; [by apply not_elem_of_nil in Hh|].
  destruct H as (-> & x & Hx & Hl). apply elem_of_cons in Hh as [->|Hh]; [by exists x|by eapply IH].
Qed.

Lemma chain_frame m m' p l : (forall a, a ∈ l -> m' !! a = m !! a) -> chain m p l -> chain m' p l.
Proof.
  revert p. induction l as [|a l IH]; intros p Hm H; [done|]. destruct H as (-> & x & Hx & Hl). split; [done|].
  exists x. split; [rewrite Hm; [done|by left]|]. apply IH; [|done]. intros b Hb. apply Hm. by right.
Qed.

Lemma chain_insert m p l a x : a ∉ l -> chain m p l -> chain (<[a := x]> m) p l.
Proof. intros Ha. apply chain_frame. intros b Hb. apply lookup_insert_ne. by intros ->. Qed.

(** The [k] handles of a block at [p]. *)
Fixpoint block_handles (k : nat) (p : Z) : list Z :=
  match k with O => [] | S k' => p :: block_handles k' (p + sizeof_handle T) end.

Lemma elem_of_block k p a : a ∈ block_handles k p -> p <= a < p + Z.of_nat k * sizeof_handle T.
Proof.
  revert p. induction k as [|k IH]; intros p H; cbn in H; [by apply not_elem_of_nil in H|].
  pose proof (sizeof_handle_pos (T:=T)). apply elem_of_cons in H as [->|H]; [lia|]. apply IH in H. lia.
Qed.

Lemma NoDup_block k p : NoDup (block_handles k p).
Proof.
  revert p. induction k as [|k IH]; intros p; constructor; [|done]. intros H. apply elem_of_block in H.
  pose proof (sizeof_handle_pos (T:=T)). lia.
Qed.

(** [l] is the linked part from [p] to the handle [z], which ends it. *)
Fixpoint linked (m : memory) (p z : Z) (k : nat) : Prop :=
  match k with
  | O => False
  | S O => p = z /\ exists x, m !! p = Some x
  | S k' => (exists x, m !! p = Some x /\ next_of x = p + sizeof_handle T) /\ linked m (p + sizeof_handle T) z k'
  end.

Lemma linked_chain m p z k x l :
  linked m p z k -> m !! z = Some x -> chain m (next_of x) l -> chain m p (block_handles k p ++ l).
Proof.
  revert p. induction k as [|[|k] IH]; intros p H Hx Hl; [done|..].
  - destruct H as [-> _]. cbn. split; [done|]. by exists x.
  - destruct H as [(y & Hy & Hn) H]. split; [done|]. exists y. split; [done|]. rewrite Hn. by apply IH.
Qed.

Lemma handles_linked_frame m m' p z k :
  (forall a, a ∈ block_handles k p -> m' !! a = m !! a) -> linked m p z k -> linked m' p z k.
Proof.
  revert p. induction k as [|[|k] IH]; intros p Hm H; [done|..].
  - cbn in *. rewrite Hm by (by left). done.
  - destruct H as [Hx H]. split; [rewrite Hm by (by left); done|]. apply IH; [|done]. intros a Ha. apply Hm. by right.
Qed.

Lemma linked_insert_last m p z k x :
  linked m p z k -> (forall a, a ∈ block_handles (pred k) p -> a <> z) -> linked (<[z := x]> m) p z k.
Proof.
  revert p. induction k as [|[|k] IH]; intros p H Hne; [done|..].
  - destruct H as [-> _]. split; [done|]. rewrite lookup_insert_eq. by eexists.
  - destruct H as [Hy H]. split; [rewrite lookup_insert_ne; [done|apply not_eq_sym, Hne; by left]|].
    apply IH; [done|]. intros a Ha. apply Hne. by right.
Qed.

Lemma linked_last m p z k : linked m p z k -> exists x, m !! z = Some x.
Proof.
  revert p. induction k as [|[|k] IH]; intros p H; [done|..]; [by destruct H as [-> H]|].
  destruct H as [_ H]. by eapply IH.
Qed.

Lemma block_tail k p : (1 <= k)%nat -> block_handles k p = p :: block_handles (pred k) (p + sizeof_handle T).
Proof. destruct k; [lia|done]. Qed.

Lemma last_in_block k p : (1 <= k)%nat -> p + (Z.of_nat k - 1) * sizeof_handle T ∈ block_handles k p.
Proof.
  revert p. induction k as [|[|k] IH]; intros p Hk; [lia|..]; cbn [block_handles]; apply elem_of_cons.
  - left. cbn. lia.
  - right. replace (p + _) with (p + sizeof_handle T + (Z.of_nat (S k) - 1) * sizeof_handle T)
      by (rewrite (Nat2Z.inj_succ (S k)); ring). apply IH. lia.
Qed.

(** [k] handles from address [p] on, each linked to the one behind it, the last to [e]. *)
Fixpoint link_handles (k : nat) (p e : Z) : memory :=
  match k with
  | O => ∅
  | S O => {[ p := linked_to e ]}
  | S k' => <[p := linked_to (p + sizeof_handle T)]> (link_handles k' (p + sizeof_handle T) e)
  end.

Lemma link_handles_lookup k p e a :
  (exists x, link_handles k p e !! a = Some x) <-> a ∈ block_handles k p.
Proof.
  revert p. induction k as [|k IH]; intros p.
  - cbn. split; [intros (x & H); by rewrite lookup_empty in H|by intros ?%not_elem_of_nil].
  - destruct k as [|k].
    + cbn. rewrite list_elem_of_singleton. split.
      * intros (x & H). apply lookup_singleton_Some in H as [-> _]. done.
      * intros ->. rewrite lookup_singleton_eq. by eexists.
    + change (link_handles (S (S k)) p e) with
        (<[p := linked_to (p + sizeof_handle T)]> (link_handles (S k) (p + sizeof_handle T) e)).
      change (block_handles (S (S k)) p) with (p :: block_handles (S k) (p + sizeof_handle T)).
      rewrite elem_of_cons, <- IH. destruct (decide (a = p)) as [->|Hne].
      * rewrite lookup_insert_eq. split; [by left|]. intros _. by eexists.
      * rewrite lookup_insert_ne by done. naive_solver.
Qed.

Lemma link_handles_linked k p e m :
  (0 < k)%nat -> linked (link_handles k p e ∪ m) p (p + (Z.of_nat k - 1) * sizeof_handle T) k.
Proof.
  revert p. induction k as [|[|k] IH]; intros p Hk; [lia|..].
  - cbn [linked]. split; [lia|]. eexists. apply lookup_union_Some_l. cbn. by rewrite lookup_singleton_eq.
  - split.
    + eexists. split; [apply lookup_union_Some_l; cbn; by rewrite lookup_insert_eq|apply next_linked_to].
    + replace (p + (Z.of_nat (S (S k)) - 1) * sizeof_handle T) with
        (p + sizeof_handle T + (Z.of_nat (S k) - 1) * sizeof_handle T) by (rewrite (Nat2Z.inj_succ (S k)); generalize (Z.of_nat (S k)), (sizeof_handle T); intros; nia).
      eapply handles_linked_frame; [|apply IH; lia]. intros a Ha.
      change (link_handles (S (S k)) p e) with
        (<[p := linked_to (p + sizeof_handle T)]> (link_handles (S k) (p + sizeof_handle T) e)).
      rewrite <- insert_union_l, lookup_insert_ne; [done|]. apply elem_of_block in Ha. pose proof (sizeof_handle_pos (T:=T)). lia.
Qed.

Lemma link_handles_chain k p m : chain (link_handles (S k) p 0 ∪ m) p (block_handles (S k) p).
Proof.
  pose proof (link_handles_linked (S k) p 0 m ltac:(lia)) as H. rewrite <- (app_nil_r (block_handles (S k) p)).
  assert (exists x, (link_handles (S k) p 0 ∪ m) !! (p + (Z.of_nat (S k) - 1) * sizeof_handle T) = Some x /\ next_of x = 0) as (x & Hx & Hn).
  { clear H. revert p. induction k as [|k IH]; intros p.
    - exists (linked_to 0). split; [|apply next_linked_to]. apply lookup_union_Some_l. cbn [link_handles]. rewrite Z.mul_0_l, Z.add_0_r.
      by rewrite lookup_singleton_eq.
    - destruct (IH (p + sizeof_handle T)) as (x & Hx & Hn). exists x. split; [|done].
      replace (p + (Z.of_nat (S (S k)) - 1) * sizeof_handle T) with (p + sizeof_handle T + (Z.of_nat (S k) - 1) * sizeof_handle T)
        by (rewrite (Nat2Z.inj_succ (S k)); ring).
      change (link_handles (S (S k)) p 0) with (<[p := linked_to (p + sizeof_handle T)]> (link_handles (S k) (p + sizeof_handle T) 0)).
      rewrite <- insert_union_l, lookup_insert_ne; [done|]. pose proof (sizeof_handle_pos (T:=T)). nia. }
  eapply linked_chain; [exact H|exact Hx|]. by rewrite Hn.
Qed.
End Lists.
Arguments block_handles T {_}.

(** ** Queues by root *)

Section Objects.
Context {T : Type} `{!Handle T}.
#[local] Notation M := (Prelude.M unit).

(** The walk from [p] over the handles whose mutexes are destroyed. *)
Fixpoint destroy_from (fuel : nat) (m : gmap Z T) (p : Z) : M unit :=
  match fuel with
  | O => stuck
  | S fuel' => if p =? 0 then mret tt else x ← or_fault (m !! p); destroy_from fuel' m (next_of x)
  end.

Context {Q : Type} (create : option Z -> option Q) (destroy : Q -> M unit).

Fixpoint destroy_all (qs : list (option Q)) : M unit :=
  match qs with
  | [] => mret tt
  | None :: qs' => destroy_all qs'
  | Some q :: qs' => destroy q;; destroy_all qs'
  end.

(** [for (i=0;i<groupsize;i++)], from [i], with [k] queues left and those so far;
    [mem i] is where there is memory for queue [i]. *)
Fixpoint create_queues (mem : nat -> option Z) (i k : nat) (qs : list (option Q)) : M (option (list (option Q))) :=
  match k with
  | O => mret (Some qs)
  | S k' =>
      match create (mem i) with
      | Some q => create_queues mem (S i) k' (qs ++ [Some q])
      | None => destroy_all qs;; mret None
      end
  end.

(** A chain ends in NULL, and the walk over it gets there. *)
Lemma destroy_chain fuel m p l : chain m p l -> Forall (fun a => a <> 0) l -> (length l < fuel)%nat -> destroy_from fuel m p tt = Ret tt tt.
Proof.
  revert p l. induction fuel as [|fuel IH]; intros p [|a l] Hc Hl Hf; cbn in Hf; try lia; cbn [destroy_from].
  - cbn in Hc. subst p. reflexivity.
  - destruct Hc as (-> & x & Hx & Hc). apply Forall_cons in Hl as [Ha Hl]. rewrite (proj2 (Z.eqb_neq _ _) Ha), Hx.
    exact (IH (next_of x) l Hc Hl ltac:(lia)).
Qed.

Context (create_none : create None = None) (mem : nat -> option Z)
  (created : forall i p, mem i = Some p -> exists q, create (Some p) = Some q /\ destroy q tt = Ret tt tt).

Definition destroyable (qs : list (option Q)) : Prop := Forall (fun oq => exists q, oq = Some q /\ destroy q tt = Ret tt tt) qs.

Lemma destroy_all_ret qs : destroyable qs -> destroy_all qs tt = Ret tt tt.
Proof.
  induction 1 as [|oq qs (q & -> & Hq) H IH]; [done|]. cbn [destroy_all]. by rewrite (bind_Ret _ _ _ _ _ Hq).
Qed.

(** All queues, or none: the ones that were created are destroyed when one is missing. *)
Lemma create_queues_ret k : forall i qs, destroyable qs ->
  exists r, create_queues mem i k qs tt = Ret r tt /\
    match r with
    | Some l => destroyable l /\ length l = (length qs + k)%nat /\ Forall (fun j => mem j <> None) (seq i k)
    | None => Exists (fun j => mem j = None) (seq i k)
    end.
Proof.
  induction k as [|k IH]; intros i qs Hqs; cbn [create_queues seq].
  - exists (Some qs). split; [done|]. split; [done|]. split; [by rewrite Nat.add_0_r|done].
  - destruct (mem i) as [p|] eqn:Hm.
    + destruct (created i p Hm) as (q & -> & Hq).
      destruct (IH (S i) (qs ++ [Some q])) as (r & Hr & Hs); [apply Forall_app; split; [done|]; apply Forall_singleton; eauto|].
      exists r. split; [done|]. destruct r as [l|]; [|by apply Exists_cons_tl].
      destruct Hs as (Hd & Hl & Hall). split; [done|]. rewrite length_app in Hl. cbn in Hl. split; [lia|]. constructor; [congruence|done].
    + rewrite create_none. exists None. rewrite (bind_Ret _ _ _ _ _ (destroy_all_ret _ Hqs)). split; [done|]. by apply Exists_cons_hd.
Qed.
End Objects.

(** ** What threads hold, taken together *)

Section Bind.
Context {B C : Type} (f : B -> list C).
Implicit Types (l : list B).

Lemma bind_insert l t a b : l !! t = Some a -> (<[t := b]> l ≫= f) ++ f a ≡ₚ (l ≫= f) ++ f b.
Proof.
  revert t. induction l as [|c l IH]; intros [|t] H; try discriminate.
  - injection H as ->. change (<[0%nat := b]> (a :: l)) with (b :: l). cbn. rewrite <- !app_assoc.
    rewrite (Permutation_app_comm (l ≫= f) (f a)), (Permutation_app_comm (l ≫= f) (f b)).
    rewrite !(Permutation_app_swap_app (f b)). done.
  - change (<[S t := b]> (c :: l)) with (c :: <[t := b]> l). cbn. rewrite <- !app_assoc. f_equiv. by apply IH.
Qed.

Lemma bind_insert_same l t a b : l !! t = Some a -> f b = f a -> <[t := b]> l ≫= f = l ≫= f.
Proof.
  revert t. induction l as [|c l IH]; intros [|t] H Hf; try discriminate.
  - injection H as ->. change (<[0%nat := b]> (a :: l)) with (b :: l). cbn. by rewrite Hf.
  - change (<[S t := b]> (c :: l)) with (c :: <[t := b]> l). cbn. f_equal. by apply IH.
Qed.

Lemma in_bind l t a x : l !! t = Some a -> x ∈ f a -> x ∈ l ≫= f.
Proof. intros Ht Hx. apply list_elem_of_bind. exists a. split; [done|]. by apply list_elem_of_lookup_2 with t. Qed.

(** No two hold the same. *)
Lemma bind_apart l t u a b x : NoDup (l ≫= f) -> l !! t = Some a -> l !! u = Some b -> u <> t -> x ∈ f a -> x ∈ f b -> False.
Proof.
  revert t u. induction l as [|y l IH]; intros t u Hn Ht Hu Hne Ha Hx; [done|]. cbn in Hn.
  apply NoDup_app in Hn as (_ & Hd & Hn). destruct t as [|t], u as [|u]; [done|..].
  - injection Ht as ->. apply (Hd x Ha). by eapply in_bind.
  - injection Hu as ->. apply (Hd x Hx). by eapply in_bind.
  - eapply (IH t u); eauto.
Qed.

Lemma bind_fmap_same (g : B -> B) l : (forall a, f (g a) = f a) -> (g <$> l) ≫= f = l ≫= f.
Proof. intros H. induction l as [|a l IH]; [done|]. cbn. by rewrite H, IH. Qed.
End Bind.

Lemma NoDup_app_ne {B} (l k : list B) a b : NoDup (l ++ k) -> a ∈ l -> b ∈ k -> a <> b.
Proof. intros H Ha Hb ->. apply NoDup_app in H as (_ & H & _). by apply (H b). Qed.

(** ** What is left of a list *)

Lemma dropped_apart (H : list Z) m i j a b :
  NoDup (drop m H) -> (m <= i)%nat -> (m <= j)%nat -> i <> j -> H !! i = Some a -> H !! j = Some b -> a <> b.
Proof.
  intros Hn Hi Hj Hne Ha Hb ->. apply Hne. assert (i - m = j - m)%nat; [|lia].
  eapply NoDup_lookup; [exact Hn|..]; rewrite lookup_drop; by rewrite Nat.add_comm, Nat.sub_add.
Qed.

Lemma elem_of_dropped (H : list Z) m j h : (m <= j)%nat -> H !! j = Some h -> h ∈ drop m H.
Proof.
  intros Hj Hh. apply list_elem_of_lookup. exists (j - m)%nat. rewrite lookup_drop. by replace (m + (j - m))%nat with j by lia.
Qed.
