(* ===== verification/Bcast.v ===== *)
(** The broadcast object of intra/bcast.c: one queue of handles per root. The root
    fills the handle at the end of the queue and links a new one behind it; each of
    the others copies from the handle it has come to, and the last to leave a handle
    gives it back to the queue's lock-free list of free handles. A call of
    [tmpi_bco_bcast] is cut at its accesses to shared memory; this file has the
    queue of one root, whose process is kept apart from the receivers. *)
From stdpp Require Import relations.
From S2P Require Import Prelude Allreduce HandleLists.

Open Scope Z_scope.

(** ** Handles and their queue *)

(** [next] is an address; 8 stands for a handle that could not be allocated. *)
Record tmpi_BCHandle (A : Type) := mkBch { next : Z; avail : Z; data : block A; len : nat }.
Arguments mkBch {A}.
Arguments next {A}.
Arguments avail {A}.
Arguments data {A}.
Arguments len {A}.
#[export] Instance eta_bch A : Eta (tmpi_BCHandle A) := MkEta _ (fun r => mkBch (next r) (avail r) (data r) (len r)).

Definition NO_HANDLE : Z := 8.
Definition sizeof_BCHandle : Z := 64.

(** A handle as [tmpi_bcq_create] and [tmpi_bch_alloc] leave it in a block. *)
Definition new_handle {A} : tmpi_BCHandle A := mkBch 0 0 Null 0.
#[export] Instance bch_handle A : Handle (tmpi_BCHandle A) :=
  {| next_of := next; linked_to e := new_handle <| next := e |>; sizeof_handle := sizeof_BCHandle |}.
#[export] Instance bch_laws A : HandleLaws (tmpi_BCHandle A).
Proof. split; [done|]. cbn. unfold sizeof_BCHandle. lia. Qed.

(** The queue of one root, with the handles by address and the end of the memory the
    queue has taken; [group_size] is that of the object. *)
Record tmpi_BCQueue (A : Type) := mkBcq { group_size : Z; first : Z; free : Z; handles : gmap Z (tmpi_BCHandle A); brk : Z }.
Arguments mkBcq {A}.
Arguments group_size {A}.
Arguments first {A}.
Arguments free {A}.
Arguments handles {A}.
Arguments brk {A}.
#[export] Instance eta_bcq A : Eta (tmpi_BCQueue A) :=
  MkEta _ (fun r => mkBcq (group_size r) (first r) (free r) (handles r) (brk r)).

(** The object: the size of the group and the queues by root. *)
Record tmpi_BcastObj (A : Type) := mkBco { bco_size : Z; bco_array : list (option (tmpi_BCQueue A)) }.
Arguments mkBco {A}.
Arguments bco_size {A}.
Arguments bco_array {A}.

Section Queue.
Context {A : Type}.

(** The queue at address [p], if there is memory and a key for it: [groupsize]+1 cached
    handles, the first of them at the front of the queue and the others free. *)
Definition tmpi_bcq_create (groupsize : Z) (mem : option Z) : option (tmpi_BCQueue A) :=
  if groupsize <? 2 then None
  else
    match mem with
    | None => None
    | Some p =>
        let f := p + sizeof_BCHandle in
        Some (mkBcq groupsize p f (<[p := new_handle]> (link_handles (Z.to_nat groupsize) f 0))
                (f + groupsize * sizeof_BCHandle))
    end.

#[local] Notation M := (Prelude.M unit).

Definition tmpi_bcq_destroy (q : tmpi_BCQueue A) : M unit := destroy_from (S (size (handles q))) (handles q) (first q).

(** [obj]: whether there is memory for the object; [mem]: where the queues are. *)
Definition tmpi_bco_create (groupsize : Z) (obj : bool) (mem : nat -> option Z) : M (option (tmpi_BcastObj A)) :=
  if negb obj then mret None
  else if groupsize <? 2 then mret (Some (mkBco groupsize [None]))
  else
    r ← create_queues (tmpi_bcq_create groupsize) tmpi_bcq_destroy mem 0 (Z.to_nat groupsize) [];
    mret (match r with Some qs => Some (mkBco groupsize qs) | None => None end).
Definition tmpi_bco_destroy (bco : option (tmpi_BcastObj A)) : M Z :=
  match bco with
  | Some b => destroy_all tmpi_bcq_destroy (take (Z.to_nat (bco_size b)) (bco_array b));; mret 0
  | None => mret 0
  end.
End Queue.

(** ** A call *)

(** Where a thread is in the call: what it does next. *)
Inductive place :=
  | Outside
  | AtPop        (** the root: [ret=*pfree] *)
  | AtNext       (** [localfree=ret->next] *)
  | AtCas        (** the [casp] that takes [ret] off the list *)
  | AtChunk      (** the [calloc] of more handles *)
  | AtLink       (** [localfree[i].next=*pfree] *)
  | AtLinkCas    (** the [casp] that adds them to the list *)
  | AtFill       (** the new handle, the link to it, the data *)
  | AtPublish    (** the lock, [avail=1], the broadcast; the key *)
  | AtWait       (** a receiver: the lock and the loop *)
  | Asleep
  | Woken
  | AtCopy       (** the copy to [data] *)
  | AtKey        (** [ukey_setval(q->key_curhandle, curitem->next)] *)
  | AtLeave      (** [anf32(&(curitem->avail), 1)] *)
  | AtFree       (** the last one: the free of the data, [q->first] *)
  | AtPush       (** [handle->next=*pfree] *)
  | AtPushCas.   (** the [casp] that gives the handle back *)

(** The registers of a thread in a call, its key, and the results of its calls so far:
    the code and, in a receiver, the bytes that were copied. *)
Record thread (A : Type) := Thread {
  pc : place; key : Z; curitem : Z; newitem : Z; localfree : Z; ret : Z; got : option (list A);
  log : list (Z * option (list A))
}.
Arguments Thread {A}.
Arguments pc {A}.
Arguments key {A}.
Arguments curitem {A}.
Arguments newitem {A}.
Arguments localfree {A}.
Arguments ret {A}.
Arguments got {A}.
Arguments log {A}.
#[export] Instance eta_thread A : Eta (thread A) := MkEta _ (fun r =>
  Thread (pc r) (key r) (curitem r) (newitem r) (localfree r) (ret r) (got r) (log r)).

(** What a step comes to. A broadcast wakes the threads asleep on the handle given. *)
Inductive effect (A : Type) :=
  | Moves (q : tmpi_BCQueue A) (th : thread A) (broadcast : option Z)
  | Blocked
  | Undefined.
Arguments Moves {A}.
Arguments Blocked {A}.
Arguments Undefined {A}.

Section Step.
Context {A : Type}.

Definition goes (p : place) (th : thread A) : thread A := th <| pc := p |>.
Definition returns (th : thread A) : thread A :=
  th <| pc := Outside |> <| log := log th ++ [(ret th, got th)] |>.

(** An access to a handle. *)
Definition with_handle (q : tmpi_BCQueue A) (h : Z) (k : tmpi_BCHandle A -> effect A) : effect A :=
  match handles q !! h with Some x => k x | None => Undefined end.
Definition set_handle (h : Z) (x : tmpi_BCHandle A) (q : tmpi_BCQueue A) : tmpi_BCQueue A :=
  q <| handles := <[h := x]> (handles q) |>.

(** The beginning of a call, up to the test of [myid==root]. *)
Definition bco_call (at_root : bool) (q : tmpi_BCQueue A) (th : thread A) : effect A :=
  let c := if key th =? 0 then first q else key th in
  if c =? NO_HANDLE
  then Moves q (th <| log := log th ++ [(-1, None)] |>) None
  else Moves q (Thread (if at_root then AtPop else AtWait) (key th) c 0 0 0 None (log th)) None.

(** The last handle of a chunk of [group_size] handles. *)
Definition chunk_last (q : tmpi_BCQueue A) (th : thread A) : Z :=
  newitem th + (group_size q - 1) * sizeof_BCHandle.

(** The next step in [tmpi_bch_alloc]; [nomem] makes the allocation of a chunk fail. *)
Definition bch_alloc_run (nomem : bool) (q : tmpi_BCQueue A) (th : thread A) : effect A :=
  match pc th with
  | AtPop => Moves q (goes (if negb (free q =? 0) then AtNext else AtChunk) th <| newitem := free q |>) None
  | AtNext => with_handle q (newitem th) (fun x => Moves q (goes AtCas th <| localfree := next x |>) None)
  | AtCas =>
      if free q =? newitem th
      then Moves (q <| free := localfree th |>) (goes AtFill th) None
      else Moves q (goes AtPop th) None
  | AtChunk =>
      if nomem then Moves q (goes AtFill th <| newitem := NO_HANDLE |>) None
      else
        let p := brk q in
        Moves (q <| handles := <[p := new_handle]>
                 (link_handles (Z.to_nat (group_size q - 1)) (p + sizeof_BCHandle) 0 ∪ handles q) |>
               <| brk := p + group_size q * sizeof_BCHandle |>)
          (goes AtLink th <| newitem := p |>) None
  | AtLink =>
      with_handle q (chunk_last q th) (fun x =>
        Moves (set_handle (chunk_last q th) (x <| next := free q |>) q) (goes AtLinkCas th) None)
  | AtLinkCas =>
      with_handle q (chunk_last q th) (fun x =>
        if free q =? next x
        then Moves (q <| free := newitem th + sizeof_BCHandle |>) (goes AtFill th) None
        else Moves q (goes AtLink th) None)
  | _ => Blocked
  end.

(** The next step of the root, which broadcasts [msg]; [nomem] makes an allocation fail. *)
Definition root_run (nomem : bool) (msg : list A) (q : tmpi_BCQueue A) (th : thread A) : effect A :=
  match pc th with
  | Outside => bco_call true q th
  | AtPop | AtNext | AtCas | AtChunk | AtLink | AtLinkCas => bch_alloc_run nomem q th
  | AtFill =>
      let fill q :=
        with_handle q (curitem th) (fun x =>
          let x := x <| next := newitem th |> in
          if nomem
          then Moves (set_handle (curitem th) (x <| data := Null |> <| len := 0%nat |>) q) (goes AtPublish th <| ret := -2 |>) None
          else Moves (set_handle (curitem th) (x <| data := Live msg |> <| len := length msg |>) q) (goes AtPublish th <| ret := 0 |>) None) in
      if newitem th =? NO_HANDLE then fill q
      else with_handle q (newitem th) (fun y => fill (set_handle (newitem th) (y <| avail := 0 |> <| next := 0 |>) q))
  | AtPublish =>
      with_handle q (curitem th) (fun x =>
        Moves (set_handle (curitem th) (x <| avail := 1 |>) q) (returns (th <| key := newitem th |>)) (Some (curitem th)))
  | _ => Blocked
  end.

(** The next step in [tmpi_bch_free] on [curitem]. *)
Definition bch_free_run (q : tmpi_BCQueue A) (th : thread A) : effect A :=
  let c := curitem th in
  match pc th with
  | AtPush => with_handle q c (fun x => Moves (set_handle c (x <| next := free q |>) q) (goes AtPushCas th) None)
  | AtPushCas =>
      with_handle q c (fun x =>
        if free q =? next x then Moves (q <| free := c |>) (returns th) None else Moves q (goes AtPush th) None)
  | _ => Blocked
  end.

(** The next step of a receiver with room for [room] bytes. *)
Definition recv_run (room : nat) (q : tmpi_BCQueue A) (th : thread A) : effect A :=
  let c := curitem th in
  match pc th with
  | Outside => bco_call false q th
  | AtWait | Woken => with_handle q c (fun x => Moves q (goes (if avail x =? 0 then Asleep else AtCopy) th) None)
  | AtCopy =>
      with_handle q c (fun x =>
        match data x with
        | Live l => Moves q (goes AtKey th <| got := Some (take (Nat.min room (len x)) l) |> <| ret := 0 |>) None
        | Null => Moves q (goes AtKey th <| ret := -2 |>) None
        | Freed => Undefined
        end)
  | AtKey => with_handle q c (fun x => Moves q (goes AtLeave th <| key := next x |>) None)
  | AtLeave =>
      with_handle q c (fun x =>
        let x := x <| avail := avail x + 1 |> in
        let q := set_handle c x q in
        if avail x =? group_size q then Moves q (goes AtFree th) None else Moves q (returns th) None)
  | AtFree =>
      with_handle q c (fun x =>
        let q := q <| first := next x |> in
        if ret th =? 0 then
          match data x with
          | Live _ => Moves (set_handle c (x <| data := Freed |>) q) (goes AtPush th) None
          | _ => Undefined
          end
        else Moves q (goes AtPush th) None)
  | AtPush | AtPushCas => bch_free_run q th
  | _ => Blocked
  end.

Definition wake (h : option Z) (th : thread A) : thread A :=
  match pc th, h with
  | Asleep, Some c => if c =? curitem th then goes Woken th else th
  | _, _ => th
  end.

(** The root sends [sends k] in its call [k]; receiver [t] has room for [rooms t k]. *)
Context (sends : nat -> list A) (rooms : nat -> nat -> nat).

(** The queue, the root, the receivers. *)
Definition system : Type := tmpi_BCQueue A * thread A * list (thread A).

Inductive bco_step : system -> system -> Prop :=
  | step_root nomem q rt rs q' rt' w :
      root_run nomem (sends (length (log rt))) q rt = Moves q' rt' w ->
      bco_step (q, rt, rs) (q', rt', wake w <$> rs)
  | step_recv q rt rs t th q' th' w :
      rs !! t = Some th ->
      recv_run (rooms t (length (log th))) q th = Moves q' th' w ->
      bco_step (q, rt, rs) (q', rt, <[t := th']> rs)
  | step_spurious q rt rs t th :
      rs !! t = Some th ->
      bco_step (q, rt, rs) (q, rt, <[t := wake (Some (curitem th)) th]> rs).

(** A queue at address [p] and [k] receivers, all outside, no key set. *)
Definition bco_start (k : nat) (p : Z) (s : system) : Prop :=
  exists q, tmpi_bcq_create (Z.of_nat (S k)) (Some p) = Some q /\
    let th := Thread Outside 0 0 0 0 0 None [] in s = (q, th, replicate k th).
Definition bco_reachable (k : nat) (p : Z) (s : system) : Prop :=
  exists s0, bco_start k p s0 /\ rtc bco_step s0 s.
End Step.
