(* ===== verification/BcastInv.v ===== *)
(** The invariant of the broadcast queue: which handle serves which round, and who
    owns the others. The properties of broadcast. *)
From stdpp Require Import relations.
From S2P Require Import Prelude Allreduce HandleLists Bcast.

Open Scope Z_scope.

(** ** The invariant *)

Section Inv.
Context {A : Type} (sends : nat -> list A) (rooms : nat -> nat -> nat).
Notation memory := (gmap Z (tmpi_BCHandle A)).

(** What is not in the state: the number of rounds published, the handle of each round,
    the blocks of the published rounds, whether a handle could not be allocated, the
    first round some receiver has not left, the free handles. *)
Record ghost := Ghost {
  rounds : nat;
  hist : list Z;
  blocks : list (block A);
  broken : bool;
  oldest : nat;
  frees : list Z
}.

(** The number of rounds the receiver has left, of [P]. *)
Definition calls (th : thread A) : nat := length (log th).
Definition left (P : nat) (th : thread A) : nat :=
  Nat.min P (match pc th with AtFree | AtPush | AtPushCas => S (calls th) | _ => calls th end).
Definition lefts (P : nat) (rs : list (thread A)) : list nat := left P <$> rs.

(** The handles a receiver is giving back, and the ones the root is about to add. *)
Definition pushing (th : thread A) : list Z :=
  match pc th with AtFree | AtPush | AtPushCas => [curitem th] | _ => [] end.
Definition in_hand (n : nat) (th : thread A) : list Z :=
  match pc th with
  | AtLink | AtLinkCas => block_handles (tmpi_BCHandle A) n (newitem th)
  | AtFill | AtPublish => if newitem th =? NO_HANDLE then [] else [newitem th]
  | _ => []
  end.

(** Every handle has one owner. *)
Definition owned (g : ghost) (rt : thread A) (rs : list (thread A)) : list Z :=
  drop (oldest g) (hist g) ++ frees g ++ in_hand (S (length rs)) rt ++ (rs ≫= pushing).

(** The handle of round [k], or what stands for it. *)
Definition ptr_ok (g : ghost) (k : nat) (v : Z) : Prop :=
  hist g !! k = Some v \/ broken g = true /\ (rounds g <= k)%nat /\ v = NO_HANDLE.
Definition key_ok (g : ghost) (k : nat) (v : Z) : Prop := v = 0 /\ k = 0%nat \/ ptr_ok g k v.

Definition recv_out (t j : nat) (b : block A) : Z * option (list A) :=
  match b with
  | Live d => (0, Some (take (Nat.min (rooms t j) (length d)) d))
  | _ => (-2, None)
  end.
Definition root_out (b : block A) : Z * option (list A) :=
  match b with Live _ => (0, None) | _ => (-2, None) end.

(** Results so far: those of the rounds published, and errors once the queue is broken. *)
Definition log_ok (g : ghost) (out : nat -> block A -> Z * option (list A)) (l : list (Z * option (list A))) : Prop :=
  forall j e, l !! j = Some e ->
    match blocks g !! j with
    | Some b => e = out j b
    | None => broken g = true /\ e = (-1, None)
    end.

Definition agrees (g : ghost) (t : nat) (th : thread A) : Prop :=
  exists b, blocks g !! calls th = Some b /\ (ret th, got th) = recv_out t (calls th) b.

Definition rcv_ok (g : ghost) (m : memory) (t : nat) (th : thread A) : Prop :=
  let k := calls th in
  log_ok g (recv_out t) (log th) /\
  match pc th with
  | Outside => key_ok g k (key th)
  | AtWait | Woken => hist g !! k = Some (curitem th) /\ got th = None
  | Asleep => hist g !! k = Some (curitem th) /\ got th = None /\ k = rounds g
  | AtCopy => hist g !! k = Some (curitem th) /\ got th = None /\ (k < rounds g)%nat
  | AtKey => hist g !! k = Some (curitem th) /\ (k < rounds g)%nat /\ agrees g t th
  | AtLeave => hist g !! k = Some (curitem th) /\ (k < rounds g)%nat /\ agrees g t th /\ ptr_ok g (S k) (key th)
  | AtFree => (k < oldest g)%nat /\ (k < rounds g)%nat /\ agrees g t th /\ ptr_ok g (S k) (key th) /\
      exists x, m !! curitem th = Some x /\ blocks g !! k = Some (data x)
  | AtPush | AtPushCas => (k < rounds g)%nat /\ agrees g t th /\ ptr_ok g (S k) (key th)
  | _ => False
  end.

(** The last handle of a chunk of [n] at [p]. *)
Definition last_of (n : nat) (p : Z) : Z := p + (Z.of_nat n - 1) * sizeof_BCHandle.

Definition root_ok (g : ghost) (n : nat) (m : memory) (th : thread A) : Prop :=
  let k := calls th in
  log_ok g (fun _ => root_out) (log th) /\
  match pc th with
  | Outside =>
      if broken g then (rounds g <= k)%nat /\ key th = NO_HANDLE
      else k = rounds g /\ (key th = 0 /\ k = 0%nat \/ hist g !! k = Some (key th))
  | p =>
      broken g = false /\ k = rounds g /\ hist g !! k = Some (curitem th) /\ got th = None /\
      match p with
      | AtPop | AtChunk | AtFill => True
      | AtNext => newitem th ∈ frees g
      | AtCas => newitem th ∈ frees g /\ exists x, m !! newitem th = Some x /\ next x = localfree th
      | AtLink | AtLinkCas =>
          linked m (newitem th + sizeof_BCHandle) (last_of n (newitem th)) (pred n)
      | AtPublish =>
          (exists x, m !! curitem th = Some x /\ next x = newitem th /\
            (data x = Null /\ ret th = -2 \/ data x = Live (sends k) /\ ret th = 0 /\ len x = length (sends k))) /\
          (newitem th = NO_HANDLE \/ exists y, m !! newitem th = Some y /\ avail y = 0)
      | _ => False
      end
  end.

(** The handle [x] of round [j]. *)
Definition handle_ok (g : ghost) (rs : list (thread A)) (j : nat) (x : tmpi_BCHandle A) : Prop :=
  if (j <? rounds g)%nat
  then avail x = 1 + Z.of_nat (count_if (Nat.ltb j) (lefts (rounds g) rs)) /\ ptr_ok g (S j) (next x) /\
    blocks g !! j = Some (data x) /\ match data x with Live d => len x = length d | _ => True end
  else avail x = 0.

Record bco_inv (g : ghost) (s : system) : Prop := BcoInv {
  bi_size : group_size s.1.1 = Z.of_nat (S (length s.2));
  bi_some : (1 <= length s.2)%nat;
  bi_blocks : length (blocks g) = rounds g;
  bi_sent : forall j b, blocks g !! j = Some b -> b = Null \/ b = Live (sends j);
  bi_hist : length (hist g) = (if broken g then rounds g else S (rounds g)) /\ (1 <= length (hist g))%nat;
  bi_oldest : Forall (le (oldest g)) (lefts (rounds g) s.2) /\ oldest g ∈ lefts (rounds g) s.2;
  bi_first : oldest g = 0%nat -> hist g !! 0%nat = Some (first s.1.1);
  bi_chain : chain (handles s.1.1) (free s.1.1) (frees g);
  bi_nodup : NoDup (owned g s.1.2 s.2);
  bi_owned : Forall (fun a => exists x, handles s.1.1 !! a = Some x) (owned g s.1.2 s.2);
  bi_brk : 8 < brk s.1.1 /\ forall a, is_Some (handles s.1.1 !! a) -> 8 < a < brk s.1.1;
  bi_addr : Forall (fun a => 8 < a) (hist g);
  bi_handles : forall j h, (oldest g <= j)%nat -> hist g !! j = Some h ->
    exists x, handles s.1.1 !! h = Some x /\ handle_ok g s.2 j x;
  bi_root : root_ok g (S (length s.2)) (handles s.1.1) s.1.2;
  bi_rcv : forall t th, s.2 !! t = Some th -> rcv_ok g (handles s.1.1) t th
}.


(** ** Frames *)

Lemma rcv_frame g m m' t th :
  (forall a, a ∈ pushing th -> m' !! a = m !! a) -> rcv_ok g m t th -> rcv_ok g m' t th.
Proof.
  intros Hm [Hl H]. split; [done|]. unfold pushing in Hm. destruct (pc th); try done.
  destruct H as (? & ? & ? & ? & x & Hx & ?). repeat (split; [done|]). exists x. rewrite Hm by (by left). done.
Qed.

Lemma root_frame (g : ghost) n m m' th :
  (1 <= n)%nat ->
  (forall a, a ∈ frees g \/ a ∈ in_hand n th \/ hist g !! rounds g = Some a -> m' !! a = m !! a) ->
  root_ok g n m th -> root_ok g n m' th.
Proof.
  intros Hn Hm [Hl H]. split; [done|]. unfold in_hand in Hm. destruct (pc th); try done;
    destruct H as (Hb & Hk & Hh & Hg & H); repeat (split; [done|]).
  - destruct H as [Hi (x & Hx & ?)]. split; [done|]. exists x. rewrite Hm by auto. done.
  - eapply handles_linked_frame; [|exact H]. intros a Ha. apply Hm. rewrite block_tail by done. right. left. by right.
  - eapply handles_linked_frame; [|exact H]. intros a Ha. apply Hm. rewrite block_tail by done. right. left. by right.
  - destruct H as [(x & Hx & ?) Hy]. split.
    + exists x. rewrite Hm by (rewrite <- Hk; auto). done.
    + destruct (Z.eqb_spec (newitem th) NO_HANDLE) as [|Hne]; [by left|]. destruct Hy as [|(y & Hy & ?)]; [done|].
      right. exists y. rewrite Hm by (right; left; by left). done.
Qed.

(** The three parts of the owned handles, and that they are apart. *)
Lemma owned_hist (g : ghost) rt rs j h : (oldest g <= j)%nat -> hist g !! j = Some h -> h ∈ owned g rt rs.
Proof.
  intros Hj Hh. apply elem_of_app. left. apply list_elem_of_lookup. exists (j - oldest g)%nat.
  rewrite lookup_drop. by replace (oldest g + (j - oldest g))%nat with j by lia.
Qed.

Lemma owned_pushing (rs : list (thread A)) t th a : rs !! t = Some th -> a ∈ pushing th -> a ∈ rs ≫= pushing.
Proof. intros Ht Ha. apply list_elem_of_bind. exists th. split; [done|]. by apply list_elem_of_lookup_2 with t. Qed.

(** No two receivers push the same handle. *)
Lemma pushing_apart (rs : list (thread A)) t u th x a :
  NoDup (rs ≫= pushing) -> rs !! t = Some th -> rs !! u = Some x -> u <> t -> a ∈ pushing th -> a ∈ pushing x -> False.
Proof.
  revert t u. induction rs as [|y rs IH]; intros t u Hn Ht Hu Hne Ha Hx; [done|]. cbn in Hn.
  apply NoDup_app in Hn as (_ & Hd & Hn). destruct t as [|t], u as [|u]; [done|..].
  - injection Ht as ->. apply (Hd a Ha). by eapply owned_pushing.
  - injection Hu as ->. apply (Hd a Hx). by eapply owned_pushing.
  - eapply (IH t u); eauto.
Qed.

(** ** Steps of a receiver *)

Lemma lefts_insert P (rs : list (thread A)) t th' : lefts P (<[t := th']> rs) = <[t := left P th']> (lefts P rs).
Proof. apply list_fmap_insert. Qed.

Lemma lefts_same P (rs : list (thread A)) t th th' :
  rs !! t = Some th -> left P th' = left P th -> lefts P (<[t := th']> rs) = lefts P rs.
Proof. intros Ht E. rewrite lefts_insert, E. apply list_insert_id. unfold lefts. by rewrite list_lookup_fmap, Ht. Qed.

(** A step that at most changes the handle the receiver is giving back. *)
Lemma recv_own g q q' rt rs t th th' :
  bco_inv g (q, rt, rs) -> rs !! t = Some th ->
  left (rounds g) th' = left (rounds g) th -> pushing th' = pushing th ->
  group_size q' = group_size q -> free q' = free q -> brk q' = brk q ->
  (oldest g = 0%nat -> first q' = first q) ->
  (forall a, a ∉ pushing th -> handles q' !! a = handles q !! a) ->
  (forall a, is_Some (handles q' !! a) <-> is_Some (handles q !! a)) ->
  rcv_ok g (handles q') t th' ->
  bco_inv g (q', rt, <[t := th']> rs).
Proof.
  intros [Hsz H1 Hbl Hst Hh Ho Hf Hc Hnd How Hbr Had Hhs Hr Hrc] Ht Hl Hp Hs' Hf' Hb' Hfi Hm Hd Hme. cbn [fst snd] in *.
  pose proof (bind_insert_same pushing rs t th th' Ht Hp) as Hpush.
  pose proof (lefts_same _ _ _ _ _ Ht Hl) as Hlefts.
  assert (owned g rt (<[t := th']> rs) = owned g rt rs) as Hown by (unfold owned; by rewrite Hpush, length_insert).
  assert (forall a, a ∈ drop (oldest g) (hist g) ++ frees g ++ in_hand (S (length rs)) rt -> a ∉ pushing th) as Hapart.
  { intros a Ha Hx. unfold owned in Hnd. rewrite (app_assoc (frees g)), app_assoc in Hnd.
    by eapply (NoDup_app_ne _ _ a a Hnd); [exact Ha|by eapply owned_pushing|]. }
  split; cbn [fst snd]; rewrite ?length_insert, ?Hlefts, ?Hown; try done; try congruence.
  - intros Hz. rewrite Hfi by done. by apply Hf.
  - rewrite Hf'. eapply chain_frame; [|exact Hc]. intros a Ha. apply Hm, Hapart. rewrite !elem_of_app. auto.
  - eapply Forall_impl; [exact How|]. intros a Ha. apply Hd. exact Ha.
  - rewrite Hb'. split; [exact (proj1 Hbr)|]. intros a Ha. by apply (proj2 Hbr), Hd.
  - intros j h Hj Hjh. destruct (Hhs _ _ Hj Hjh) as (x & Hx & Hok). exists x. split.
    + rewrite Hm; [done|]. apply Hapart. apply elem_of_app. left. apply list_elem_of_lookup. exists (j - oldest g)%nat.
      rewrite lookup_drop. by replace (oldest g + (j - oldest g))%nat with j by lia.
    + unfold handle_ok in *. by rewrite Hlefts.
  - eapply root_frame; [lia| |exact Hr]. intros a [Ha|[Ha|Ha]]; apply Hm, Hapart; rewrite !elem_of_app; auto.
    left. apply list_elem_of_lookup. exists (rounds g - oldest g)%nat. rewrite lookup_drop.
    assert (oldest g <= rounds g)%nat; [|by replace (oldest g + (rounds g - oldest g))%nat with (rounds g) by lia].
    destruct Ho as [Ho _]. rewrite Forall_forall in Ho. etransitivity; [apply (Ho (left (rounds g) th))|unfold left; lia].
    apply list_elem_of_fmap. exists th. split; [done|]. by apply list_elem_of_lookup_2 with t.
  - intros u x Hu. destruct (decide (u = t)) as [->|Hne].
    + rewrite list_lookup_insert_eq in Hu by (by eapply lookup_lt_Some). by injection Hu as <-.
    + rewrite list_lookup_insert_ne in Hu by done. eapply rcv_frame; [|by apply Hrc]. intros a Ha. apply Hm. intros Hx.
      unfold owned in Hnd. rewrite (app_assoc (frees g)), app_assoc in Hnd. apply NoDup_app in Hnd as (_ & _ & Hnd).
      by eapply (pushing_apart rs t u).
Qed.

(** Nothing in the queue changes. *)
Lemma recv_stay g q rt rs t th th' :
  bco_inv g (q, rt, rs) -> rs !! t = Some th ->
  left (rounds g) th' = left (rounds g) th -> pushing th' = pushing th ->
  rcv_ok g (handles q) t th' -> bco_inv g (q, rt, <[t := th']> rs).
Proof. intros HI Ht Hl Hp Hr. by apply recv_own with q th. Qed.

Lemma left_at P (th : thread A) : (calls th < P)%nat -> pc th = AtLeave -> left P th = calls th.
Proof. intros Hk Hpc. unfold left. rewrite Hpc. lia. Qed.

Lemma oldest_le g q rt rs t th :
  bco_inv g (q, rt, rs) -> rs !! t = Some th -> (oldest g <= left (rounds g) th)%nat.
Proof.
  intros HI Ht. destruct (bi_oldest _ _ HI) as [Ho _]. rewrite Forall_forall in Ho. apply Ho.
  apply list_elem_of_fmap. exists th. split; [done|]. by apply list_elem_of_lookup_2 with t.
Qed.

(** Counting when one number grows by one. *)
Lemma count_ltb_insert (l : list nat) t k j :
  l !! t = Some k ->
  count_if (Nat.ltb j) (<[t := S k]> l) = (count_if (Nat.ltb j) l + (if Nat.eqb j k then 1 else 0))%nat.
Proof.
  intros Ht. pose proof (count_if_insert (Nat.ltb j) l t k (S k) Ht) as H.
  destruct (Nat.eqb_spec j k) as [->|Hne].
  - rewrite (proj2 (Nat.ltb_ge k k)), (proj2 (Nat.ltb_lt k (S k))) in H by lia. lia.
  - destruct (Nat.ltb_spec j k), (Nat.ltb_spec j (S k)); lia.
Qed.

Definition set_oldest (m : nat) (g : ghost) : ghost :=
  Ghost (rounds g) (hist g) (blocks g) (broken g) m (frees g).

Lemma rcv_set_oldest m g mem t th : (oldest g <= m)%nat -> rcv_ok g mem t th -> rcv_ok (set_oldest m g) mem t th.
Proof.
  intros Hm [Hl H]. split; [done|]. destruct (pc th); try done. destruct H as (? & ? & ?). cbn. split; [lia|done].
Qed.

(** Who is last. *)
Lemma leave_last g q rt rs t th :
  bco_inv g (q, rt, rs) -> rs !! t = Some th -> left (rounds g) th = calls th ->
  let l' := <[t := S (calls th)]> (lefts (rounds g) rs) in
  if (count_if (Nat.ltb (calls th)) l' =? length rs)%nat
  then oldest g = calls th /\ Forall (le (S (calls th))) l' /\ S (calls th) ∈ l'
  else Forall (le (oldest g)) l' /\ oldest g ∈ l'.
Proof.
  intros HI Ht Hl l'. destruct (bi_oldest _ _ HI) as [Ho Hi]. cbn [snd] in Ho, Hi.
  assert (lefts (rounds g) rs !! t = Some (calls th)) as Hlt by (unfold lefts; by rewrite list_lookup_fmap, Ht, <- Hl).
  pose proof (lookup_lt_Some _ _ _ Hlt) as Hlen.
  assert (length l' = length rs) as Hl' by (unfold l', lefts; by rewrite length_insert, length_fmap).
  assert (S (calls th) ∈ l') as Hin by (apply list_elem_of_lookup; exists t; by apply list_lookup_insert_eq).
  pose proof (oldest_le _ _ _ _ _ _ HI Ht) as Hge. rewrite Hl in Hge.
  assert (forall u v, u <> t -> lefts (rounds g) rs !! u = Some v -> v ∈ l') as Hother.
  { intros u v Hne Hu. apply list_elem_of_lookup. exists u. unfold l'. by rewrite list_lookup_insert_ne. }
  apply list_elem_of_lookup in Hi as [u Hu].
  destruct (Nat.eqb_spec (count_if (Nat.ltb (calls th)) l') (length rs)) as [E|E].
  - rewrite <- Hl' in E. apply count_if_all in E.
    assert (Forall (le (S (calls th))) l') as Hall by (eapply Forall_impl; [exact E|]; intros v Hv; by apply Nat.ltb_lt in Hv).
    split; [|done]. destruct (decide (u = t)) as [->|Hne]; [congruence|].
    rewrite Forall_forall in Hall. specialize (Hall _ (Hother _ _ Hne Hu)). lia.
  - split; [apply Forall_insert; [done|lia]|]. destruct (decide (u = t)) as [->|Hne]; [|by apply (Hother u)].
    rewrite <- Hl', count_if_all in E. apply not_Forall_Exists in E; [|intros v; apply bool_eq_dec].
    apply Exists_exists in E as (v & Hv & Hlt'). apply not_true_is_false, Nat.ltb_ge in Hlt'.
    apply list_elem_of_lookup in Hv as [j Hj]. unfold l' in Hj. destruct (decide (j = t)) as [->|Hjt].
    + rewrite list_lookup_insert_eq in Hj by done. injection Hj as <-. lia.
    + rewrite list_lookup_insert_ne in Hj by done. pose proof (Hother _ _ Hjt Hj) as Hv.
      rewrite Forall_lookup in Ho. specialize (Ho _ _ Hj). rewrite Hu in Hlt. injection Hlt as Hm.
      by replace (oldest g) with v by lia.
Qed.

Lemma handles_set h x (q : tmpi_BCQueue A) : handles (set_handle h x q) = <[h := x]> (handles q).
Proof. done. Qed.

(** The handle of round [k], while the receiver is in it. *)
Lemma handle_of g q rt rs t th h :
  bco_inv g (q, rt, rs) -> rs !! t = Some th -> (left (rounds g) th <= calls th)%nat ->
  hist g !! calls th = Some h -> exists x, handles q !! h = Some x /\ handle_ok g rs (calls th) x.
Proof.
  intros HI Ht Hl Hh. apply (bi_handles _ _ HI (calls th) h); [|done].
  pose proof (oldest_le _ _ _ _ _ _ HI Ht). lia.
Qed.

Definition leaves (q : tmpi_BCQueue A) (x : tmpi_BCHandle A) (th : thread A) : thread A :=
  if avail x + 1 =? group_size q then goes AtFree th else returns th.
Definition after_leave (q : tmpi_BCQueue A) (x : tmpi_BCHandle A) (th : thread A) (g : ghost) : ghost :=
  if avail x + 1 =? group_size q then set_oldest (S (calls th)) g else g.

Lemma left_leaves q x th P : (calls th < P)%nat -> pc th = AtLeave -> left P (leaves q x th) = S (calls th).
Proof.
  intros Hk Hpc. unfold leaves. destruct (_ =? _); unfold left, calls in *; cbn; [lia|]. rewrite length_app. cbn. lia.
Qed.

(** The owners after a receiver has left. *)
Lemma owned_leave g q rt rs t th x :
  rs !! t = Some th -> pc th = AtLeave -> hist g !! calls th = Some (curitem th) ->
  ((avail x + 1 =? group_size q) = true -> oldest g = calls th) ->
  owned (after_leave q x th g) rt (<[t := leaves q x th]> rs) ≡ₚ owned g rt rs.
Proof.
  intros Ht Hpc Hh Hlast. unfold owned, after_leave, leaves. rewrite length_insert.
  pose proof (bind_insert pushing rs t th (leaves q x th) Ht) as Hp. unfold leaves in Hp.
  assert (pushing th = []) as Hp0 by (unfold pushing; by rewrite Hpc). rewrite Hp0, app_nil_r in Hp.
  destruct (avail x + 1 =? group_size q).
  - cbn [oldest hist frees set_oldest]. rewrite (Hlast eq_refl), (drop_S _ _ _ Hh), Hp. cbn.
    rewrite <- (Permutation_cons_append (rs ≫= pushing)), !app_assoc. by rewrite <- Permutation_middle.
  - change (pushing (returns th)) with (@nil Z) in Hp. rewrite app_nil_r in Hp. by rewrite Hp.
Qed.

Lemma bcast_log_snoc g t th : log_ok g (recv_out t) (log th) -> agrees g t th -> log_ok g (recv_out t) (log th ++ [(ret th, got th)]).
Proof.
  intros Hl (b & Hb & E) j e Hj. apply lookup_app_Some in Hj as [Hj|[Hge Hj]]; [by apply Hl|].
  apply list_lookup_singleton_Some in Hj as [Hz <-]. replace j with (calls th) by (unfold calls; lia). by rewrite Hb.
Qed.

(** The handle of a round is nobody else's. *)
Lemma hist_others g q rt rs j h :
  bco_inv g (q, rt, rs) -> (oldest g <= j)%nat -> hist g !! j = Some h ->
  h ∉ frees g /\ h ∉ in_hand (S (length rs)) rt /\ h ∉ rs ≫= pushing.
Proof.
  intros HI Hj Hh. pose proof (bi_nodup _ _ HI) as Hn. unfold owned in Hn. cbn [fst snd] in Hn.
  apply NoDup_app in Hn as (_ & Hd & _). specialize (Hd h). rewrite !elem_of_app in Hd.
  assert (h ∈ drop (oldest g) (hist g)) as Hin; [|naive_solver].
  apply list_elem_of_lookup. exists (j - oldest g)%nat. rewrite lookup_drop. by replace (oldest g + (j - oldest g))%nat with j by lia.
Qed.

Lemma recv_leave_rcv g q rt rs t th x :
  bco_inv g (q, rt, rs) -> rs !! t = Some th -> pc th = AtLeave -> handles q !! curitem th = Some x ->
  (oldest g <= oldest (after_leave q x th g))%nat ->
  forall u y, <[t := leaves q x th]> rs !! u = Some y ->
    rcv_ok (after_leave q x th g) (<[curitem th := x <| avail := avail x + 1 |>]> (handles q)) u y.
Proof.
  intros HI Ht Hpc Hx Hge u y Hu. pose proof (bi_rcv _ _ HI _ _ Ht) as [Hlog Hq]. rewrite Hpc in Hq.
  destruct Hq as (Hh & Hk & Hag & Hptr). pose proof (left_at _ _ Hk Hpc) as Hleft.
  pose proof (oldest_le _ _ _ _ _ _ HI Ht) as Hle. rewrite Hleft in Hle.
  destruct (hist_others _ _ _ _ _ _ HI Hle Hh) as (_ & _ & Hnp).
  destruct (decide (u = t)) as [->|Hne].
  - rewrite list_lookup_insert_eq in Hu by (by eapply lookup_lt_Some). injection Hu as <-.
    destruct (handle_of _ _ _ _ _ _ _ HI Ht ltac:(lia) Hh) as (x' & Hx' & Hok). cbn [fst snd] in *.
    rewrite Hx in Hx'. injection Hx' as <-. unfold handle_ok in Hok. rewrite (proj2 (Nat.ltb_lt _ _) Hk) in Hok.
    destruct Hok as (_ & _ & Hbl & _).
    unfold leaves, after_leave. destruct (_ =? _).
    + split; [done|]. cbn. split; [exact (Nat.lt_succ_diag_r (calls th))|]. split; [done|]. split; [exact Hag|]. split; [exact Hptr|].
      rewrite lookup_insert_eq. eexists. split; [done|]. exact Hbl.
    + split; [by apply bcast_log_snoc|]. cbn. right. unfold calls. cbn. rewrite length_app, Nat.add_comm. exact Hptr.
  - rewrite list_lookup_insert_ne in Hu by done. apply rcv_frame with (handles q).
    + intros a Ha. apply lookup_insert_ne. intros <-. apply Hnp. by eapply owned_pushing.
    + pose proof (bi_rcv _ _ HI _ _ Hu) as Hy. cbn [fst snd] in Hy. unfold after_leave in *.
      destruct (_ =? _); [|done]. by apply rcv_set_oldest.
Qed.

Lemma is_Some_update (m : memory) c x y a : m !! c = Some x -> is_Some (<[c := y]> m !! a) <-> is_Some (m !! a).
Proof. intros Hc. destruct (decide (a = c)) as [->|]; [rewrite lookup_insert_eq, Hc|by rewrite lookup_insert_ne]. split; by eexists. Qed.

Lemma root_set_oldest (g' g : ghost) n m th :
  rounds g' = rounds g -> hist g' = hist g -> blocks g' = blocks g -> broken g' = broken g -> frees g' = frees g ->
  root_ok g n m th -> root_ok g' n m th.
Proof. unfold root_ok, log_ok. by intros -> -> -> -> ->. Qed.

Lemma recv_leave g q rt rs t th x :
  bco_inv g (q, rt, rs) -> rs !! t = Some th -> pc th = AtLeave -> handles q !! curitem th = Some x ->
  bco_inv (after_leave q x th g)
    (set_handle (curitem th) (x <| avail := avail x + 1 |>) q, rt, <[t := leaves q x th]> rs).
Proof.
  intros HI Ht Hpc Hx. pose proof (bi_rcv _ _ HI _ _ Ht) as [Hlog Hq]. rewrite Hpc in Hq.
  destruct Hq as (Hh & Hk & Hag & Hptr). pose proof (left_at _ _ Hk Hpc) as Hleft.
  destruct (handle_of _ _ _ _ _ _ _ HI Ht ltac:(lia) Hh) as (x' & Hx' & Hok). cbn [fst snd] in *.
  rewrite Hx in Hx'. injection Hx' as <-. unfold handle_ok in Hok. rewrite (proj2 (Nat.ltb_lt _ _) Hk) in Hok.
  destruct Hok as (Hav & Hnx & Hbl & Hlen).
  pose proof (leave_last _ _ _ _ _ _ HI Ht Hleft) as Hlast.
  pose proof (oldest_le _ _ _ _ _ _ HI Ht) as Hge. rewrite Hleft in Hge.
  pose proof (left_leaves q x th _ Hk Hpc) as Hleft'.
  destruct (hist_others _ _ _ _ _ _ HI Hge Hh) as (Hnf & Hni & _).
  assert (lefts (rounds g) rs !! t = Some (calls th)) as Hlt by (unfold lefts; by rewrite list_lookup_fmap, Ht, <- Hleft).
  pose proof (bi_size _ _ HI) as Hsz. cbn [fst snd] in Hsz.
  assert ((avail x + 1 =? group_size q) =
    (count_if (Nat.ltb (calls th)) (<[t := S (calls th)]> (lefts (rounds g) rs)) =? length rs)%nat) as E.
  { rewrite (count_ltb_insert _ _ _ _ Hlt), Nat.eqb_refl, Hsz, Hav.
    destruct (Z.eqb_spec (1 + Z.of_nat (count_if (Nat.ltb (calls th)) (lefts (rounds g) rs)) + 1) (Z.of_nat (S (length rs)))),
      (Nat.eqb_spec (count_if (Nat.ltb (calls th)) (lefts (rounds g) rs) + 1) (length rs)); try done; lia. }
  cbn zeta in Hlast. rewrite <- E in Hlast.
  assert ((avail x + 1 =? group_size q) = true -> oldest g = calls th) as Hlt'.
  { intros E'. rewrite E' in Hlast. tauto. }
  pose proof (owned_leave g q rt rs t th x Ht Hpc Hh Hlt') as Hown.
  assert (oldest g <= oldest (after_leave q x th g))%nat as Hmono.
  { unfold after_leave. destruct (_ =? _); [cbn; lia|done]. }
  pose proof (recv_leave_rcv _ _ _ _ _ _ _ HI Ht Hpc Hx Hmono) as Hrcv.
  set (g' := after_leave q x th g) in *.
  assert (rounds g' = rounds g /\ hist g' = hist g /\ blocks g' = blocks g /\ broken g' = broken g /\ frees g' = frees g)
    as (Er & Eh & Eb & Ebr & Ef) by (unfold g', after_leave; by destruct (_ =? _)).
  split; cbn [fst snd]; rewrite ?length_insert, ?Er, ?Eh, ?Eb, ?Ebr, ?Ef; try apply HI.
  - rewrite lefts_insert, Hleft'. unfold g', after_leave. destruct (_ =? _); [apply Hlast|exact Hlast].
  - intros Hz. apply (bi_first _ _ HI). lia.
  - apply chain_insert; [done|apply HI].
  - rewrite Hown. apply HI.
  - rewrite Hown. eapply Forall_impl; [apply (bi_owned _ _ HI)|]. intros a Ha. by apply (is_Some_update _ _ _ _ _ Hx).
  - split; [exact (proj1 (bi_brk _ _ HI))|]. intros a Ha. apply (proj2 (bi_brk _ _ HI)).
    by apply (is_Some_update _ _ _ _ _ Hx) in Ha.
  - intros j h Hj Hjh. unfold handle_ok. rewrite lefts_insert, Er, Hleft', (count_ltb_insert _ _ _ _ Hlt). unfold ptr_ok. rewrite Er, Eh, Eb, Ebr.
    destruct (decide (j = calls th)) as [->|Hne].
    + replace h with (curitem th) by congruence. rewrite handles_set, lookup_insert_eq. eexists. split; [done|].
      rewrite (proj2 (Nat.ltb_lt _ _) Hk), Nat.eqb_refl. cbn [avail next data len upd]. split; [lia|done].
    + rewrite handles_set, lookup_insert_ne.
      * rewrite (proj2 (Nat.eqb_neq _ _) Hne), Nat.add_0_r. apply (bi_handles _ _ HI); [lia|done].
      * apply not_eq_sym. apply (dropped_apart (hist g) (oldest g) j (calls th)); try done; [|lia].
        pose proof (bi_nodup _ _ HI) as Hn. unfold owned in Hn. by apply NoDup_app in Hn as (Hn & _).
  - eapply (root_set_oldest g' g); try done. eapply root_frame; [lia| |apply (bi_root _ _ HI)].
    intros a Ha. apply lookup_insert_ne. intros <-. destruct Ha as [Ha|[Ha|Ha]]; [done..|].
    assert (rounds g <> calls th) as Hne by lia. revert Ha Hh. pose proof (bi_nodup _ _ HI) as Hn. unfold owned in Hn.
    apply NoDup_app in Hn as (Hn & _). intros Ha Hh. eapply (dropped_apart _ _ _ _ _ _ Hn); [..|exact Hne|exact Ha|exact Hh|done]; lia.
  - exact Hrcv.
Qed.

Definition set_frees (l : list Z) (g : ghost) : ghost :=
  Ghost (rounds g) (hist g) (blocks g) (broken g) (oldest g) l.

Lemma recv_pushed g q rt rs t th x :
  bco_inv g (q, rt, rs) -> rs !! t = Some th -> pc th = AtPushCas -> handles q !! curitem th = Some x ->
  free q = next x ->
  bco_inv (set_frees (curitem th :: frees g) g) (q <| free := curitem th |>, rt, <[t := returns th]> rs).
Proof.
  intros HI Ht Hpc Hx Hf. pose proof (bi_rcv _ _ HI _ _ Ht) as [Hlog Hq]. rewrite Hpc in Hq.
  destruct Hq as (Hk & Hag & Hptr). pose proof HI as [Hsz H1 Hbl Hst Hh Ho Hfi Hc Hnd How Hbr Had Hhs Hr Hrc]. cbn [fst snd] in *.
  assert (left (rounds g) (returns th) = left (rounds g) th) as Hl.
  { unfold left, calls. rewrite Hpc. cbn. rewrite length_app. cbn. lia. }
  pose proof (lefts_same _ _ _ _ _ Ht Hl) as Hlefts.
  assert (owned (set_frees (curitem th :: frees g) g) rt (<[t := returns th]> rs) ≡ₚ owned g rt rs) as Hown.
  { unfold owned. rewrite length_insert. pose proof (bind_insert pushing rs t th (returns th) Ht) as Hp.
    unfold pushing at 2 4 in Hp. rewrite Hpc in Hp. cbn in Hp. rewrite app_nil_r in Hp. rewrite <- Hp. cbn.
    rewrite <- (Permutation_cons_append (<[t := returns th]> rs ≫= pushing)). f_equiv.
    rewrite Permutation_middle. f_equiv. apply Permutation_middle. }
  split; cbn [fst snd]; rewrite ?length_insert; try done.
  - cbn [set_frees rounds oldest]. rewrite Hlefts. exact Ho.
  - split; [done|]. exists x. split; [done|]. cbn. rewrite <- Hf. exact Hc.
  - by rewrite Hown.
  - by rewrite Hown.
  - intros j h Hj Hjh. unfold handle_ok. cbn [set_frees rounds]. rewrite Hlefts. exact (Hhs j h Hj Hjh).
  - destruct Hr as [Hrl Hr]. split; [exact Hrl|]. cbn. destruct (pc rt); try exact Hr.
    + destruct Hr as (? & ? & ? & ? & ?). repeat (split; [done|]). by right.
    + destruct Hr as (? & ? & ? & ? & ? & ?). repeat (split; [done|]). split; [by right|done].
  - intros u y Hu. destruct (decide (u = t)) as [->|Hne].
    + rewrite list_lookup_insert_eq in Hu by (by eapply lookup_lt_Some). injection Hu as <-.
      split; [by apply (bcast_log_snoc g)|]. cbn. right. unfold calls. cbn. rewrite length_app, Nat.add_comm. exact Hptr.
    + rewrite list_lookup_insert_ne in Hu by done. exact (Hrc _ _ Hu).
Qed.

(** The handle a receiver is giving back is there. *)
Lemma pushing_there g q rt rs t th :
  bco_inv g (q, rt, rs) -> rs !! t = Some th -> curitem th ∈ pushing th -> exists x, handles q !! curitem th = Some x.
Proof.
  intros HI Ht Hp. pose proof (bi_owned _ _ HI) as Ho. rewrite Forall_forall in Ho. apply Ho.
  unfold owned. rewrite !elem_of_app. right. right. right. by eapply owned_pushing.
Qed.

Lemma recv_call_ok g q rt rs t th :
  bco_inv g (q, rt, rs) -> rs !! t = Some th -> pc th = Outside ->
  exists th', bco_call false q th = Moves q th' None /\ bco_inv g (q, rt, <[t := th']> rs).
Proof.
  intros HI Ht Hpc. pose proof (bi_rcv _ _ HI _ _ Ht) as [Hlog Hq]. rewrite Hpc in Hq. cbn [fst snd] in *.
  assert (ptr_ok g (calls th) (if key th =? 0 then first q else key th)) as Hptr.
  { destruct Hq as [[-> Hk]|Hq].
    - left. rewrite Hk. apply (bi_first _ _ HI). pose proof (oldest_le _ _ _ _ _ _ HI Ht) as Hle.
      unfold left in Hle. rewrite Hpc in Hle. lia.
    - destruct (Z.eqb_spec (key th) 0) as [E|E]; [|done]. exfalso. destruct Hq as [Hq|(_ & _ & Hq)]; [|rewrite E in Hq; done].
      pose proof (bi_addr _ _ HI) as Ha. rewrite Forall_lookup in Ha. specialize (Ha _ _ Hq). lia. }
  unfold bco_call. set (c := if key th =? 0 then first q else key th) in *. destruct (Z.eqb_spec c NO_HANDLE) as [Ec|Ec].
  - destruct Hptr as [Hc|(Hb & Hk & _)].
    { exfalso. pose proof (bi_addr _ _ HI) as Ha. rewrite Forall_lookup in Ha. specialize (Ha _ _ Hc). unfold NO_HANDLE in Ec. lia. }
    eexists. split; [done|]. apply recv_stay with th; try done.
    + unfold left, calls in *. cbn. rewrite Hpc, length_app. lia.
    + split.
      * cbn. intros j e Hj. apply lookup_app_Some in Hj as [Hj|[Hge Hj]]; [by apply Hlog|].
        apply list_lookup_singleton_Some in Hj as [Hz <-].
        rewrite (lookup_ge_None_2 (blocks g) j); [done|]. rewrite (bi_blocks _ _ HI). unfold calls in Hk. lia.
      * cbn. rewrite Hpc. right. destruct Hq as [[Hz Hk0]|[Hq|(_ & _ & Hq)]].
        -- exfalso. assert (1 <= rounds g)%nat; [|lia]. pose proof (bi_hist _ _ HI) as [Hh1 Hh2]. rewrite Hb in Hh1. lia.
        -- exfalso. apply lookup_lt_Some in Hq. pose proof (bi_hist _ _ HI) as [Hh1 _]. rewrite Hb in Hh1. lia.
        -- right. unfold calls. cbn. rewrite length_app. unfold calls in Hk. split; [done|]. split; [lia|done].
  - destruct Hptr as [Hc|(_ & _ & ?)]; [|done]. eexists. split; [done|]. apply recv_stay with th; try done.
    + unfold left, calls. cbn. by rewrite Hpc.
    + unfold pushing. cbn. by rewrite Hpc.
Qed.

(** What a step may come to. *)
Definition recv_fine (rt : thread A) (rs : list (thread A)) (t : nat) (th : thread A) (e : effect A) : Prop :=
  match e with
  | Moves q' th' w => w = None /\ exists g', bco_inv g' (q', rt, <[t := th']> rs)
  | Blocked => pc th = Asleep
  | Undefined => False
  end.

Lemma recv_wait_ok g q rt rs t th :
  bco_inv g (q, rt, rs) -> rs !! t = Some th ->
  hist g !! calls th = Some (curitem th) -> got th = None -> pc th = AtWait \/ pc th = Woken ->
  recv_fine rt rs t th (recv_run (rooms t (calls th)) q th).
Proof.
  intros HI Ht Hh Hg Hpc. pose proof (bi_rcv _ _ HI _ _ Ht) as [Hlog _].
  assert (left (rounds g) th = Nat.min (rounds g) (calls th)) as Hl by (unfold left; by destruct Hpc as [-> | ->]).
  assert (pushing th = []) as Hp by (unfold pushing; by destruct Hpc as [-> | ->]).
  destruct (handle_of _ _ _ _ _ _ _ HI Ht ltac:(rewrite Hl; lia) Hh) as (x & Hx & Hok).
  assert (recv_run (rooms t (calls th)) q th = Moves q (goes (if avail x =? 0 then Asleep else AtCopy) th) None) as ->.
  { unfold recv_run, bch_free_run. destruct Hpc as [-> | ->]; unfold with_handle; by rewrite Hx. }
  split; [done|]. exists g. apply recv_stay with th; try done.
  - rewrite Hl. unfold left. cbn. by destruct (_ =? 0).
  - rewrite Hp. unfold pushing. cbn. by destruct (_ =? 0).
  - split; [done|]. cbn. unfold handle_ok in Hok. destruct (Nat.ltb_spec (calls th) (rounds g)) as [Hk|Hk].
    + destruct Hok as (Hav & _). rewrite (proj2 (Z.eqb_neq _ _)) by lia. done.
    + rewrite Hok. cbn. split; [done|]. split; [done|]. apply lookup_lt_Some in Hh.
      destruct (bi_hist _ _ HI) as [Hhl _]. change (calls th = rounds g). destruct (broken g); lia.
Qed.

Lemma recv_copy_ok g q rt rs t th :
  bco_inv g (q, rt, rs) -> rs !! t = Some th -> pc th = AtCopy ->
  recv_fine rt rs t th (recv_run (rooms t (calls th)) q th).
Proof.
  intros HI Ht Hpc. pose proof (bi_rcv _ _ HI _ _ Ht) as [Hlog Hq]. rewrite Hpc in Hq. destruct Hq as (Hh & Hg & Hk).
  destruct (handle_of _ _ _ _ _ _ _ HI Ht ltac:(unfold left; rewrite Hpc; lia) Hh) as (x & Hx & Hok).
  unfold handle_ok in Hok. rewrite (proj2 (Nat.ltb_lt _ _) Hk) in Hok. destruct Hok as (_ & _ & Hbl & Hlen).
  unfold recv_run, bch_free_run. rewrite Hpc. unfold with_handle. cbn [fst snd] in *. rewrite Hx.
  destruct (bi_sent _ _ HI _ _ Hbl) as [Hd|Hd]; rewrite Hd in *; (split; [done|]); exists g;
    (apply recv_stay with th; [done|done|unfold left; by rewrite Hpc|unfold pushing; by rewrite Hpc|]);
    (split; [done|]); cbn; (split; [done|]); (split; [done|]); eexists; (split; [exact Hbl|]); cbn.
  - by rewrite Hg.
  - by rewrite Hlen.
Qed.

Lemma recv_free_ok g q rt rs t th :
  bco_inv g (q, rt, rs) -> rs !! t = Some th -> pc th = AtFree ->
  recv_fine rt rs t th (recv_run (rooms t (calls th)) q th).
Proof.
  intros HI Ht Hpc. pose proof (bi_rcv _ _ HI _ _ Ht) as [Hlog Hq]. rewrite Hpc in Hq.
  destruct Hq as (Hm & Hk & (b & Hb & Hag) & Hptr & x & Hx & Hbl). cbn [fst snd] in Hx.
  unfold recv_run, bch_free_run. rewrite Hpc. unfold with_handle. rewrite Hx.
  assert (forall q', group_size q' = group_size q -> free q' = free q -> brk q' = brk q ->
    (handles q' = handles q \/ exists y, handles q' = <[curitem th := y]> (handles q)) ->
    bco_inv g (q', rt, <[t := goes AtPush th]> rs)) as Hgo.
  { intros q' Hs Hf Hbk Hh. apply recv_own with q th; try done.
    - unfold left. by rewrite Hpc.
    - unfold pushing. by rewrite Hpc.
    - lia.
    - intros a Ha. unfold pushing in Ha. rewrite Hpc in Ha. destruct Hh as [->|[y ->]]; [done|].
      apply lookup_insert_ne. intros <-. apply Ha. by left.
    - intros a. destruct Hh as [->|[y ->]]; [done|]. by eapply is_Some_update.
    - split; [done|]. cbn. split; [done|]. split; [by exists b|done]. }
  rewrite Hbl in Hb. injection Hb as <-. apply (f_equal fst) in Hag as Hret. cbn [fst] in Hret.
  destruct (bi_sent _ _ HI _ _ Hbl) as [Hd|Hd]; rewrite Hd in *; rewrite Hret; cbn; (split; [done|]); exists g; apply Hgo; eauto.
Qed.

Lemma recv_push_ok g q rt rs t th :
  bco_inv g (q, rt, rs) -> rs !! t = Some th -> pc th = AtPush \/ pc th = AtPushCas ->
  recv_fine rt rs t th (recv_run (rooms t (calls th)) q th).
Proof.
  intros HI Ht Hpc. pose proof (bi_rcv _ _ HI _ _ Ht) as [Hlog Hq].
  destruct (pushing_there _ _ _ _ _ _ HI Ht) as [x Hx].
  { unfold pushing. destruct Hpc as [-> | ->]; by left. }
  unfold recv_run, bch_free_run. destruct Hpc as [E|E]; rewrite E in *; unfold with_handle; rewrite Hx.
  - split; [done|]. exists g. apply recv_own with q th; try done.
    + unfold left. by rewrite E.
    + unfold pushing. by rewrite E.
    + intros a Ha. unfold pushing in Ha. rewrite E in Ha. apply lookup_insert_ne. intros <-. apply Ha. by left.
    + intros a. by eapply is_Some_update.
  - destruct (Z.eqb_spec (free q) (next x)) as [Ef|Ef]; (split; [done|]).
    + eexists. by eapply recv_pushed.
    + exists g. apply recv_stay with th; try done.
      * unfold left. by rewrite E.
      * unfold pushing. by rewrite E.
Qed.

(** No step of a receiver is undefined, and all keep the invariant. *)
Lemma recv_run_ok g q rt rs t th :
  bco_inv g (q, rt, rs) -> rs !! t = Some th -> recv_fine rt rs t th (recv_run (rooms t (calls th)) q th).
Proof.
  intros HI Ht. pose proof (bi_rcv _ _ HI _ _ Ht) as [Hlog Hq].
  destruct (pc th) eqn:Hpc; try done.
  - unfold recv_run, bch_free_run. rewrite Hpc. destruct (recv_call_ok _ _ _ _ _ _ HI Ht Hpc) as (th' & -> & HI'). split; [done|]. by exists g.
  - destruct Hq as [Hh Hg]. by eapply recv_wait_ok; eauto.
  - unfold recv_run, bch_free_run. by rewrite Hpc.
  - destruct Hq as [Hh Hg]. by eapply recv_wait_ok; eauto.
  - by eapply recv_copy_ok.
  - destruct Hq as (Hh & Hk & Hag).
    destruct (handle_of _ _ _ _ _ _ _ HI Ht ltac:(unfold left; rewrite Hpc; lia) Hh) as (x & Hx & Hok).
    unfold handle_ok in Hok. rewrite (proj2 (Nat.ltb_lt _ _) Hk) in Hok. destruct Hok as (_ & Hn & _).
    unfold recv_run, bch_free_run. rewrite Hpc. unfold with_handle. rewrite Hx. split; [done|]. exists g.
    apply recv_stay with th; [done|done|unfold left; by rewrite Hpc|unfold pushing; by rewrite Hpc|]. split; [done|]. done.
  - destruct Hq as (Hh & Hk & _).
    destruct (handle_of _ _ _ _ _ _ _ HI Ht ltac:(unfold left; rewrite Hpc; lia) Hh) as (x & Hx & _).
    pose proof (recv_leave _ _ _ _ _ _ _ HI Ht Hpc Hx) as HI'. unfold leaves in HI'.
    unfold recv_run, bch_free_run. rewrite Hpc. unfold with_handle. rewrite Hx. cbn [avail upd group_size set_handle].
    cbn in HI' |- *. destruct (_ =? _); (split; [done|]); by eexists.
  - by eapply recv_free_ok.
  - eapply recv_push_ok; eauto.
  - eapply recv_push_ok; eauto.
Qed.

Lemma recv_spurious_ok g q rt rs t th w :
  bco_inv g (q, rt, rs) -> rs !! t = Some th -> bco_inv g (q, rt, <[t := wake w th]> rs).
Proof.
  intros HI Ht. pose proof (bi_rcv _ _ HI _ _ Ht) as Hq. unfold wake.
  destruct (pc th) eqn:Hpc, w as [h|]; try (by rewrite list_insert_id); destruct (_ =? _); try (by rewrite list_insert_id).
  apply recv_stay with th; [done|done|unfold left; by rewrite Hpc|unfold pushing; by rewrite Hpc|].
  destruct Hq as [Hlog Hq]. split; [done|]. rewrite Hpc in Hq. cbn. tauto.
Qed.

(** ** Steps of the root *)

Lemma wake_none (rs : list (thread A)) : wake None <$> rs = rs.
Proof.
  rewrite <- (list_fmap_id rs) at 2. apply list_fmap_ext. intros i th _. unfold wake. by destruct (pc th).
Qed.

Lemma oldest_rounds g s : bco_inv g s -> (oldest g <= rounds g)%nat.
Proof.
  intros HI. destruct (bi_oldest _ _ HI) as [_ Ho]. apply list_elem_of_fmap in Ho as (th & -> & _). unfold left. lia.
Qed.

(** A step before the publication; the free handles become [l]. *)
Lemma root_move g q rt rs q' rt' l :
  bco_inv g (q, rt, rs) ->
  group_size q' = group_size q -> first q' = first q ->
  chain (handles q') (free q') l ->
  NoDup (owned (set_frees l g) rt' rs) ->
  Forall (fun a => exists x, handles q' !! a = Some x) (owned (set_frees l g) rt' rs) ->
  (8 < brk q' /\ forall a, is_Some (handles q' !! a) -> 8 < a < brk q') ->
  (forall j h x, (oldest g <= j)%nat -> hist g !! j = Some h -> handles q !! h = Some x -> handle_ok g rs j x ->
     exists y, handles q' !! h = Some y /\ handle_ok g rs j y) ->
  (forall a, a ∈ rs ≫= pushing -> handles q' !! a = handles q !! a) ->
  root_ok (set_frees l g) (S (length rs)) (handles q') rt' ->
  bco_inv (set_frees l g) (q', rt', rs).
Proof.
  intros [Hsz H1 Hbl Hst Hh Ho Hfi Hc Hnd How Hbr Had Hhs Hr Hrc] Hs Hf Hch Hn Hown Hb Hal Hp Hroot. cbn [fst snd] in *.
  split; cbn [fst snd]; try done; try congruence.
  - cbn. rewrite Hf. exact Hfi.
  - intros j h Hj Hjh. destruct (Hhs _ _ Hj Hjh) as (x & Hx & Hok). by eapply Hal.
  - intros t th Ht. apply rcv_frame with (handles q); [|exact (Hrc _ _ Ht)].
    intros a Ha. apply Hp. by eapply owned_pushing.
Qed.

(** The handles do not change. *)
Lemma root_same g q rt rs q' rt' l :
  bco_inv g (q, rt, rs) ->
  group_size q' = group_size q -> first q' = first q -> handles q' = handles q -> brk q' = brk q ->
  chain (handles q) (free q') l ->
  l ++ in_hand (S (length rs)) rt' ≡ₚ frees g ++ in_hand (S (length rs)) rt ->
  root_ok (set_frees l g) (S (length rs)) (handles q) rt' ->
  bco_inv (set_frees l g) (q', rt', rs).
Proof.
  intros HI Hs Hf Hh Hb Hc Hp Hr.
  assert (owned (set_frees l g) rt' rs ≡ₚ owned g rt rs) as Hown.
  { unfold owned. cbn. f_equiv. by rewrite !app_assoc, Hp. }
  apply root_move with q rt; rewrite ?Hh, ?Hb, ?Hown; try done; try apply HI. eauto.
Qed.

Lemma bcast_frees_id g : set_frees (frees g) g = g.
Proof. by destruct g. Qed.

Definition root_fine (rs : list (thread A)) (e : effect A) : Prop :=
  match e with
  | Moves q' rt' w => exists g', bco_inv g' (q', rt', wake w <$> rs)
  | _ => False
  end.

Lemma root_call_ok g q rt rs :
  bco_inv g (q, rt, rs) -> pc rt = Outside -> root_fine rs (bco_call true q rt).
Proof.
  intros HI Hpc. pose proof (bi_root _ _ HI) as [Hlog Hq]. cbn [fst snd] in *. rewrite Hpc in Hq.
  assert (in_hand (S (length rs)) rt = []) as Hih by (unfold in_hand; by rewrite Hpc).
  assert (forall rt', in_hand (S (length rs)) rt' = [] ->
    root_ok g (S (length rs)) (handles q) rt' -> root_fine rs (Moves q rt' None)) as Hgo.
  { intros rt' Hi Hr. cbn. rewrite wake_none. exists (set_frees (frees g) g).
    apply (root_same g q rt); try done; [apply HI|by rewrite Hi, Hih]. }
  assert (forall k h, hist g !! k = Some h -> h <> 0 /\ h <> NO_HANDLE) as Haddr.
  { intros k h Hk. pose proof (bi_addr _ _ HI) as Ha. rewrite Forall_lookup in Ha. specialize (Ha _ _ Hk). unfold NO_HANDLE. lia. }
  unfold bco_call. destruct (broken g) eqn:Hb.
  - destruct Hq as [Hk Hkey]. rewrite Hkey. cbn. apply Hgo; [unfold in_hand; cbn; by rewrite Hpc|]. split; cbn.
    + intros j e Hj. apply lookup_app_Some in Hj as [Hj|[Hge Hj]]; [by apply Hlog|].
      apply list_lookup_singleton_Some in Hj as [Hz <-].
      rewrite (lookup_ge_None_2 (blocks g) j); [done|]. rewrite (bi_blocks _ _ HI). unfold calls in Hk. lia.
    + rewrite Hpc, Hb. unfold calls in *. cbn. rewrite length_app. split; [lia|exact Hkey].
  - destruct Hq as [Hk Hq].
    assert (hist g !! calls rt = Some (if key rt =? 0 then first q else key rt)) as Hc.
    { destruct Hq as [[-> Hz]|Hq]; [|by rewrite (proj2 (Z.eqb_neq _ 0)) by (by eapply Haddr)].
      cbn. rewrite Hz. apply (bi_first _ _ HI). pose proof (oldest_rounds _ _ HI). lia. }
    rewrite (proj2 (Z.eqb_neq _ NO_HANDLE)) by (by eapply Haddr).
    apply Hgo; [done|]. split; [done|]. cbn. done.
Qed.

(** Taking a handle off the list of free ones. *)
Lemma root_alloc_ok g q rt rs nomem msg :
  bco_inv g (q, rt, rs) -> pc rt = AtPop \/ pc rt = AtNext \/ pc rt = AtCas ->
  root_fine rs (root_run nomem msg q rt).
Proof.
  intros HI Hpc. pose proof (bi_root _ _ HI) as [Hlog Hq]. pose proof (bi_chain _ _ HI) as Hc. cbn [fst snd] in *.
  assert (in_hand (S (length rs)) rt = []) as Hih by (unfold in_hand; by destruct Hpc as [-> |[-> | ->]]).
  assert (forall rt', in_hand (S (length rs)) rt' = [] ->
    root_ok g (S (length rs)) (handles q) rt' -> root_fine rs (Moves q rt' None)) as Hgo.
  { intros rt' Hi Hr. cbn. rewrite wake_none. exists (set_frees (frees g) g).
    apply (root_same g q rt); try done; by rewrite Hi, Hih. }
  unfold root_run, bch_alloc_run. destruct Hpc as [E|[E|E]]; rewrite E in *; destruct Hq as (Hb & Hk & Hh & Hg & Hq).
  - destruct (Z.eqb_spec (free q) 0) as [Ef|Ef]; cbn [negb]; apply Hgo; try done.
    split; [done|]. cbn. repeat (split; [done|]). destruct (frees g) as [|a l]; [done|]. destruct Hc as [-> _]. by left.
  - destruct (chain_lookup _ _ _ _ Hc Hq) as [x Hx]. unfold with_handle. rewrite Hx. apply Hgo; [done|].
    split; [done|]. cbn. repeat (split; [done|]). by exists x.
  - destruct Hq as [Hin (x & Hx & Hn)]. destruct (Z.eqb_spec (free q) (newitem rt)) as [Ef|Ef]; [|by apply Hgo].
    cbn. rewrite wake_none. destruct (frees g) as [|a l] eqn:Hfr; [by apply not_elem_of_nil in Hin|].
    destruct Hc as (Ha & y & Hy & Hl). rewrite <- Ha, Ef, Hx in Hy. injection Hy as <-.
    assert (newitem rt <> NO_HANDLE) as Hne.
    { destruct (bi_brk _ _ HI) as [_ Hbr]. cbn in Hbr. specialize (Hbr (newitem rt) (mk_is_Some _ _ Hx)). unfold NO_HANDLE. lia. }
    exists (set_frees l g). apply (root_same g q rt); try done.
    + cbn. by rewrite <- Hn.
    + rewrite Hih, Hfr, app_nil_r. unfold in_hand. cbn. rewrite (proj2 (Z.eqb_neq _ _) Hne), <- Ha, Ef.
      symmetry. apply Permutation_cons_append.
Qed.

Lemma last_of_block (n : nat) (p : Z) : (1 <= n)%nat -> last_of n p ∈ block_handles (tmpi_BCHandle A) n p.
Proof.
  revert p. induction n as [|[|n] IH]; intros p Hn; [lia|..].
  - apply list_elem_of_singleton. unfold last_of. lia.
  - right. replace (last_of (S (S n)) p) with (last_of (S n) (p + sizeof_BCHandle)); [apply IH; lia|]. unfold last_of. lia.
Qed.

Lemma handles_below g q rt rs a : bco_inv g (q, rt, rs) -> a ∈ owned g rt rs -> 8 < a < brk q.
Proof.
  intros HI Ha. pose proof (bi_owned _ _ HI) as Ho. rewrite Forall_forall in Ho. apply (proj2 (bi_brk _ _ HI)).
  destruct (Ho _ Ha) as [x Hx]. by exists x.
Qed.

(** The memory after the allocation of a chunk. *)
Definition with_chunk (n : nat) (q : tmpi_BCQueue A) : memory :=
  <[brk q := new_handle]> (link_handles (pred n) (brk q + sizeof_BCHandle) 0 ∪ handles q).

Lemma with_chunk_old n q a : a < brk q -> with_chunk n q !! a = handles q !! a.
Proof.
  intros Ha. unfold with_chunk. rewrite lookup_insert_ne by lia. apply lookup_union_r.
  destruct (link_handles _ _ _ !! a) as [x|] eqn:E; [|done].
  assert (a ∈ block_handles (tmpi_BCHandle A) (pred n) (brk q + sizeof_BCHandle)) as Hb by (apply (link_handles_lookup (T:=tmpi_BCHandle A) _ _ 0); by exists x).
  apply elem_of_block in Hb. cbn in Hb; unfold sizeof_BCHandle in Hb. lia.
Qed.

Lemma with_chunk_new n q a : (1 <= n)%nat -> a ∈ block_handles (tmpi_BCHandle A) n (brk q) -> exists x, with_chunk n q !! a = Some x.
Proof.
  intros Hn Ha. unfold with_chunk. rewrite block_tail in Ha by done. destruct (decide (a = brk q)) as [->|Hne].
  - rewrite lookup_insert_eq. by eexists.
  - rewrite lookup_insert_ne by done. apply elem_of_cons in Ha as [?|Ha]; [done|].
    apply (link_handles_lookup (T:=tmpi_BCHandle A) _ _ 0) in Ha as [x Hx]. exists x. by apply lookup_union_Some_l.
Qed.

Lemma with_chunk_dom n q a :
  (1 <= n)%nat -> is_Some (with_chunk n q !! a) -> is_Some (handles q !! a) \/ a ∈ block_handles (tmpi_BCHandle A) n (brk q).
Proof.
  intros Hn [x Hx]. unfold with_chunk in Hx. rewrite block_tail by done. destruct (decide (a = brk q)) as [->|Hne].
  - right. by left.
  - rewrite lookup_insert_ne in Hx by done. apply lookup_union_Some_raw in Hx as [Hx|[_ Hx]].
    + right. right. apply (link_handles_lookup (T:=tmpi_BCHandle A) _ _ 0). by exists x.
    + left. by exists x.
Qed.

Lemma with_chunk_linked n q :
  (2 <= n)%nat -> linked (with_chunk n q) (brk q + sizeof_BCHandle) (last_of n (brk q)) (pred n).
Proof.
  intros Hn. replace (last_of n (brk q)) with
    (brk q + sizeof_BCHandle + (Z.of_nat (pred n) - 1) * sizeof_BCHandle) by (unfold last_of, sizeof_BCHandle; lia).
  eapply handles_linked_frame; [|exact (link_handles_linked (T:=tmpi_BCHandle A) (pred n) (brk q + sizeof_BCHandle) 0 (handles q) ltac:(lia))].
  intros a Ha. unfold with_chunk. apply lookup_insert_ne. apply elem_of_block in Ha. cbn in Ha; unfold sizeof_BCHandle in Ha. lia.
Qed.

Lemma root_chunk_ok g q rt rs msg :
  bco_inv g (q, rt, rs) -> pc rt = AtChunk -> root_fine rs (root_run false msg q rt).
Proof.
  intros HI Hpc. pose proof (bi_root _ _ HI) as [Hlog Hq]. pose proof (bi_size _ _ HI) as Hsz.
  pose proof (bi_some _ _ HI) as H1. cbn [fst snd] in *. rewrite Hpc in Hq. destruct Hq as (Hb & Hk & Hh & Hg & _).
  set (n := S (length rs)) in *. assert (1 <= n)%nat as Hn by lia. assert (2 <= n)%nat as Hn2 by lia.
  assert (in_hand n rt = []) as Hih by (unfold in_hand; by rewrite Hpc).
  assert (Z.to_nat (group_size q - 1) = pred n) as Hpn by lia.
  unfold root_run, bch_alloc_run. rewrite Hpc, Hpn, Hsz. cbn zeta. cbn [root_fine]. rewrite wake_none. exists (set_frees (frees g) g).
  set (rt' := goes AtLink rt <| newitem := brk q |>).
  assert (owned (set_frees (frees g) g) rt' rs ≡ₚ block_handles (tmpi_BCHandle A) n (brk q) ++ owned g rt rs) as Hown.
  { unfold owned. fold n. rewrite Hih. cbn [set_frees oldest hist frees app]. change (in_hand n rt') with (block_handles (tmpi_BCHandle A) n (brk q)).
    by rewrite (Permutation_app_swap_app (frees g)), (Permutation_app_swap_app (drop _ _)). }
  assert (forall a, a ∈ owned g rt rs -> with_chunk n q !! a = handles q !! a) as Hold.
  { intros a Ha. apply with_chunk_old. by apply (handles_below _ _ _ _ _ HI). }
  apply root_move with q rt; try done; cbn [handles brk free first upd].
  - eapply chain_frame; [|apply (bi_chain _ _ HI)]. intros a Ha. apply Hold. unfold owned. rewrite !elem_of_app. auto.
  - rewrite Hown. apply NoDup_app. split; [apply NoDup_block|]. split; [|apply (bi_nodup _ _ HI)].
    intros a Ha Ho. apply elem_of_block in Ha. apply (handles_below _ _ _ _ _ HI) in Ho. lia.
  - rewrite Hown. apply Forall_app. split; apply Forall_forall; intros a Ha; [by apply (with_chunk_new n q)|].
    pose proof (bi_owned _ _ HI) as Ho. rewrite Forall_forall in Ho.
    destruct (Ho _ Ha) as [x Hx]. exists x. rewrite <- Hx. by apply Hold.
  - pose proof (bi_brk _ _ HI) as [Hb8 Hbr]. cbn [fst] in *. split; [unfold sizeof_BCHandle; lia|]. intros a Ha.
    apply (with_chunk_dom n q) in Ha as [Ha|Ha]; [|apply elem_of_block in Ha; cbn in Ha; unfold sizeof_BCHandle in *; lia|done].
    apply Hbr in Ha. unfold sizeof_BCHandle. lia.
  - intros j h x Hj Hjh Hx Hok. exists x. split; [|done]. rewrite <- Hx. apply Hold. by eapply owned_hist.
  - intros a Ha. apply Hold. unfold owned. rewrite !elem_of_app. auto.
  - split; [done|]. cbn. repeat (split; [done|]). exact (with_chunk_linked n q Hn2).
Qed.

Lemma in_hand_apart g q rt rs a :
  bco_inv g (q, rt, rs) -> a ∈ in_hand (S (length rs)) rt ->
  a ∉ drop (oldest g) (hist g) /\ a ∉ frees g /\ a ∉ rs ≫= pushing.
Proof.
  intros HI Ha. pose proof (bi_nodup _ _ HI) as Hn. unfold owned in Hn. cbn [fst snd] in Hn.
  apply NoDup_app in Hn as (_ & Hd & Hn). apply NoDup_app in Hn as (_ & Hf & Hn). apply NoDup_app in Hn as (_ & Hp & _).
  split; [|split].
  - intros H. apply (Hd a H). rewrite !elem_of_app. auto.
  - intros H. apply (Hf a H). rewrite !elem_of_app. auto.
  - by apply Hp.
Qed.

Lemma chunk_last_bcast (q : tmpi_BCQueue A) (th : thread A) n :
  group_size q = Z.of_nat n -> chunk_last q th = last_of n (newitem th).
Proof. unfold chunk_last, last_of. by intros ->. Qed.

Lemma root_link_ok g q rt rs nomem msg :
  bco_inv g (q, rt, rs) -> pc rt = AtLink -> root_fine rs (root_run nomem msg q rt).
Proof.
  intros HI Hpc. pose proof (bi_root _ _ HI) as [Hlog Hq]. pose proof (bi_size _ _ HI) as Hsz.
  pose proof (bi_some _ _ HI) as H1. cbn [fst snd] in *. rewrite Hpc in Hq. destruct Hq as (Hb & Hk & Hh & Hg & Hq).
  set (n := S (length rs)) in *. destruct (linked_last _ _ _ _ Hq) as [x Hx].
  unfold root_run, bch_alloc_run. rewrite Hpc, (chunk_last_bcast _ _ _ Hsz). unfold with_handle. rewrite Hx. cbn [root_fine].
  rewrite wake_none. exists (set_frees (frees g) g).
  set (c := last_of n (newitem rt)) in *.
  assert (c ∈ in_hand n rt) as Hc by (unfold in_hand; rewrite Hpc; apply last_of_block; lia).
  destruct (in_hand_apart _ _ _ _ _ HI Hc) as (Hnd & Hnf & Hnp).
  assert (owned (set_frees (frees g) g) (goes AtLinkCas rt) rs = owned g rt rs) as Hown.
  { unfold owned, in_hand. cbn. by rewrite Hpc. }
  apply root_move with q rt; try done; rewrite ?Hown; try apply HI.
  - apply chain_insert; [done|apply HI].
  - eapply Forall_impl; [apply (bi_owned _ _ HI)|]. intros a Ha. by apply (is_Some_update _ _ _ _ _ Hx).
  - split; [exact (proj1 (bi_brk _ _ HI))|]. intros a Ha. apply (proj2 (bi_brk _ _ HI)).
    by apply (is_Some_update _ _ _ _ _ Hx) in Ha.
  - intros j h y Hj Hjh Hy Hok. exists y. split; [|done]. rewrite handles_set, lookup_insert_ne; [done|].
    intros ->. apply Hnd. by apply elem_of_dropped with j.
  - intros a Ha. rewrite handles_set. apply lookup_insert_ne. by intros ->.
  - split; [done|]. cbn. repeat (split; [done|]). apply (linked_insert_last _ _ _ (pred n)); [done|].
    intros a Ha. apply elem_of_block in Ha. change (sizeof_handle _) with sizeof_BCHandle in Ha. unfold c, last_of, sizeof_BCHandle in *. lia.
Qed.

Lemma root_linked_ok g q rt rs nomem msg :
  bco_inv g (q, rt, rs) -> pc rt = AtLinkCas -> root_fine rs (root_run nomem msg q rt).
Proof.
  intros HI Hpc. pose proof (bi_root _ _ HI) as [Hlog Hq]. pose proof (bi_size _ _ HI) as Hsz.
  pose proof (bi_some _ _ HI) as H1. cbn [fst snd] in *. rewrite Hpc in Hq. destruct Hq as (Hb & Hk & Hh & Hg & Hq).
  set (n := S (length rs)) in *. destruct (linked_last _ _ _ _ Hq) as [x Hx].
  unfold root_run, bch_alloc_run. rewrite Hpc, (chunk_last_bcast _ _ _ Hsz). unfold with_handle. rewrite Hx.
  destruct (Z.eqb_spec (free q) (next x)) as [Ef|Ef]; cbn [root_fine]; rewrite wake_none.
  - assert (newitem rt <> NO_HANDLE) as Hne.
    { assert (newitem rt ∈ owned g rt rs) as Ho.
      { unfold owned. rewrite !elem_of_app. right. right. left. unfold in_hand. rewrite Hpc. by left. }
      apply (handles_below _ _ _ _ _ HI) in Ho. unfold NO_HANDLE. lia. }
    exists (set_frees (block_handles (tmpi_BCHandle A) (pred n) (newitem rt + sizeof_BCHandle) ++ frees g) g).
    apply (root_same g q rt); try done.
    + cbn. eapply (linked_chain _ _ _ (pred n)); [exact Hq|exact Hx|]. change (next_of x) with (next x). rewrite <- Ef. apply (bi_chain _ _ HI).
    + unfold in_hand. rewrite Hpc. cbn [pc goes upd newitem]. cbn. rewrite (proj2 (Z.eqb_neq _ _) Hne).
      by rewrite <- Permutation_cons_append, <- Permutation_middle, (Permutation_app_comm (frees g)).
  - exists (set_frees (frees g) g). apply (root_same g q rt); try done; [apply HI|]. unfold in_hand. cbn. by rewrite Hpc.
Qed.

(** The memory after the new handle and the current one were filled. *)
Definition filled (q : tmpi_BCQueue A) (rt : thread A) (m : memory) : Prop :=
  newitem rt = NO_HANDLE /\ m = handles q \/
  exists z, m = <[newitem rt := z]> (handles q) /\ avail z = 0 /\ newitem rt <> NO_HANDLE.

Lemma root_filled g q rt rs m y p :
  bco_inv g (q, rt, rs) -> pc rt = AtFill -> filled q rt m ->
  avail y = 0 -> next y = newitem rt ->
  (data y = Null /\ p = -2 \/ data y = Live (sends (calls rt)) /\ p = 0 /\ len y = length (sends (calls rt))) ->
  bco_inv g (q <| handles := <[curitem rt := y]> m |>, goes AtPublish rt <| ret := p |>, rs).
Proof.
  intros HI Hpc Hm Hav Hn Hd. pose proof (bi_root _ _ HI) as [Hlog Hq]. cbn [fst snd] in *. rewrite Hpc in Hq.
  destruct Hq as (Hb & Hk & Hh & Hg & _). pose proof (oldest_rounds _ _ HI) as Hold.
  assert (hist g !! rounds g = Some (curitem rt)) as Hh' by (by rewrite <- Hk).
  destruct (bi_handles _ _ HI _ _ Hold Hh') as (x & Hx & _). cbn [fst snd] in Hx.
  destruct (hist_others _ _ _ _ _ _ HI Hold Hh') as (Hnf & Hni & Hnp).
  set (rt' := goes AtPublish rt <| ret := p |>).
  assert (owned g rt' rs = owned g rt rs) as Hown by (unfold owned, in_hand; by rewrite Hpc).
  assert (newitem rt <> NO_HANDLE -> newitem rt ∈ in_hand (S (length rs)) rt) as Hin.
  { intros Hne. unfold in_hand. rewrite Hpc, (proj2 (Z.eqb_neq _ _) Hne). by left. }
  assert (forall a, a <> curitem rt -> (a ∉ in_hand (S (length rs)) rt) -> <[curitem rt := y]> m !! a = handles q !! a) as Hsame.
  { intros a Hne Ha. rewrite lookup_insert_ne by done. destruct Hm as [[_ ->]|(z & -> & _ & Hnn)]; [done|].
    apply lookup_insert_ne. intros <-. by apply Ha, Hin. }
  assert (forall a, is_Some (<[curitem rt := y]> m !! a) <-> is_Some (handles q !! a)) as Hdom.
  { intros a. destruct Hm as [[_ ->]|(z & -> & _ & Hnn)]; [by eapply is_Some_update|].
    pose proof (bi_owned _ _ HI) as Ho. rewrite Forall_forall in Ho. cbn [fst snd] in Ho.
    destruct (Ho (newitem rt)) as [w Hw]; [unfold owned; rewrite !elem_of_app; auto|].
    rewrite (is_Some_update _ _ x); [by eapply is_Some_update|]. rewrite lookup_insert_ne; [done|]. intros E. apply Hni. rewrite <- E. auto. }
  rewrite <- (bcast_frees_id g). apply root_move with q rt; rewrite ?bcast_frees_id, ?Hown; try done; try apply HI.
  - eapply chain_frame; [|apply (bi_chain _ _ HI)]. intros a Ha. apply Hsame; [by intros ->|].
    intros Hi. by apply (in_hand_apart _ _ _ _ _ HI) in Hi as (_ & Hi & _).
  - eapply Forall_impl; [apply (bi_owned _ _ HI)|]. intros a Ha. by apply Hdom.
  - split; [exact (proj1 (bi_brk _ _ HI))|]. intros a Ha. apply (proj2 (bi_brk _ _ HI)). by apply Hdom in Ha.
  - intros j h w Hj Hjh Hw Hok. destruct (decide (j = rounds g)) as [->|Hne].
    + replace h with (curitem rt) by congruence. cbn. rewrite lookup_insert_eq. exists y. split; [done|].
      unfold handle_ok. by rewrite (proj2 (Nat.ltb_ge _ _)) by lia.
    + exists w. split; [|done]. rewrite <- Hw. apply Hsame.
      * pose proof (bi_nodup _ _ HI) as Hnd. unfold owned in Hnd. apply NoDup_app in Hnd as (Hnd & _).
        apply (dropped_apart _ _ j (rounds g) _ _ Hnd); done.
      * intros Hi. apply (in_hand_apart _ _ _ _ _ HI) in Hi as (Hi & _). by apply Hi, elem_of_dropped with j.
  - intros a Ha. apply Hsame; [by intros ->|]. intros Hi. by apply (in_hand_apart _ _ _ _ _ HI) in Hi as (_ & _ & Hi).
  - split; [done|]. cbn. repeat (split; [done|]). split.
    + rewrite lookup_insert_eq. by exists y.
    + destruct Hm as [[-> _]|(z & -> & Hz & Hnn)]; [by left|right]. exists z. split; [|done].
      rewrite lookup_insert_ne, lookup_insert_eq; [done|]. intros E. apply Hni. rewrite E. auto.
Qed.

Lemma root_fill_ok g q rt rs nomem :
  bco_inv g (q, rt, rs) -> pc rt = AtFill -> root_fine rs (root_run nomem (sends (calls rt)) q rt).
Proof.
  intros HI Hpc. pose proof (bi_root _ _ HI) as [_ Hq]. cbn [fst snd] in *. rewrite Hpc in Hq.
  destruct Hq as (Hb & Hk & Hh & _ & _). pose proof (oldest_rounds _ _ HI) as Hold.
  rewrite Hk in Hh. destruct (bi_handles _ _ HI _ _ Hold Hh) as (x & Hx & Hok). cbn [fst snd] in Hx.
  unfold handle_ok in Hok. rewrite (proj2 (Nat.ltb_ge _ _)) in Hok by lia.
  destruct (hist_others _ _ _ _ _ _ HI Hold Hh) as (_ & Hni & _).
  assert (forall m, filled q rt m ->
    root_fine rs (Moves (q <| handles := <[curitem rt := x <| next := newitem rt |> <| data := Null |> <| len := 0%nat |>]> m |>) (goes AtPublish rt <| ret := -2 |>) None) /\
    root_fine rs (Moves (q <| handles := <[curitem rt := x <| next := newitem rt |> <| data := Live (sends (calls rt)) |>
      <| len := length (sends (calls rt)) |>]> m |>) (goes AtPublish rt <| ret := 0 |>) None)) as Hgo.
  { intros m Hm. split; cbn [root_fine]; rewrite wake_none; exists g; eapply root_filled; auto. }
  unfold root_run, bch_alloc_run. rewrite Hpc. cbv zeta. destruct (Z.eqb_spec (newitem rt) NO_HANDLE) as [E|E].
  - unfold with_handle. rewrite Hx. destruct (Hgo (handles q) ltac:(by left)) as [H1 H2]. by destruct nomem.
  - assert (newitem rt ∈ in_hand (S (length rs)) rt) as Hin.
    { unfold in_hand. rewrite Hpc, (proj2 (Z.eqb_neq _ _) E). by left. }
    pose proof (bi_owned _ _ HI) as Ho. rewrite Forall_forall in Ho. cbn [fst snd] in Ho.
    destruct (Ho (newitem rt)) as [w Hw]; [unfold owned; rewrite !elem_of_app; auto|].
    unfold with_handle at 1. rewrite Hw. unfold with_handle. rewrite handles_set, lookup_insert_ne, Hx by (intros Ec; by rewrite Ec in Hin).
    destruct (Hgo (<[newitem rt := w <| avail := 0 |> <| next := 0 |>]> (handles q))) as [H1 H2].
    + right. eexists. split; [done|]. done.
    + by destruct nomem.
Qed.

(** *** Publication *)

Definition publish (g : ghost) (x : tmpi_BCHandle A) : ghost :=
  Ghost (S (rounds g)) (if next x =? NO_HANDLE then hist g else hist g ++ [next x])
    (blocks g ++ [data x]) (next x =? NO_HANDLE) (oldest g) (frees g).

Lemma hist_publish g x k v : hist g !! k = Some v -> hist (publish g x) !! k = Some v.
Proof. intros H. cbn. destruct (_ =? _); [done|]. by apply lookup_app_l_Some. Qed.

Lemma blocks_publish g x k v : blocks g !! k = Some v -> blocks (publish g x) !! k = Some v.
Proof. intros H. by apply lookup_app_l_Some. Qed.

Lemma ptr_publish g x k v : broken g = false -> ptr_ok g k v -> ptr_ok (publish g x) k v.
Proof. intros Hb [H|(H & _)]; [left; by apply hist_publish|congruence]. Qed.

Lemma log_publish g x out l : broken g = false -> log_ok g out l -> log_ok (publish g x) out l.
Proof.
  intros Hb Hl j e Hj. specialize (Hl j e Hj). destruct (blocks g !! j) as [b|] eqn:E.
  - by rewrite (blocks_publish _ _ _ _ E).
  - destruct Hl. congruence.
Qed.

Lemma left_publish g m t th :
  broken g = false -> length (hist g) = S (rounds g) -> rcv_ok g m t th ->
  left (S (rounds g)) th = left (rounds g) th.
Proof.
  intros Hb Hlen [_ H]. unfold left. unfold key_ok, ptr_ok in H.
  destruct (pc th); try done.
  - destruct H as [[_ ->]|[H|[H _]]]; [lia|apply lookup_lt_Some in H; lia|congruence].
  - destruct H as [H _]. apply lookup_lt_Some in H. lia.
  - destruct H as [H _]. apply lookup_lt_Some in H. lia.
  - destruct H as [H _]. apply lookup_lt_Some in H. lia.
  - destruct H as (_ & _ & H). lia.
  - destruct H as (_ & H & _). lia.
  - destruct H as (_ & H & _). lia.
  - destruct H as (_ & H & _). lia.
  - destruct H as (H & _). lia.
  - destruct H as (H & _). lia.
Qed.

Lemma wake_same P w (th : thread A) : left P (wake w th) = left P th /\ pushing (wake w th) = pushing th /\ log (wake w th) = log th.
Proof. unfold wake. destruct th as [[] ? ? ? ? ? ? ?], w as [h|]; try done. cbn. by destruct (_ =? _). Qed.

Lemma rcv_publish g x m m' t th c :
  broken g = false -> hist g !! rounds g = Some c ->
  (forall a, a ∈ pushing th -> m' !! a = m !! a) ->
  rcv_ok g m t th -> rcv_ok (publish g x) m' t (wake (Some c) th).
Proof.
  intros Hb Hc Hm [Hl H]. split; [rewrite (proj2 (proj2 (wake_same 0 _ _))); by apply log_publish|].
  assert (forall th', calls th' = calls th -> ret th' = ret th -> got th' = got th -> agrees g t th -> agrees (publish g x) t th') as Hag.
  { intros th' E1 E2 E3 (b & Hbk & E). exists b. rewrite E1, E2, E3. split; [by apply blocks_publish|done]. }
  unfold wake. unfold pushing in Hm. destruct (pc th) eqn:E; try done.
  - rewrite E. destruct H as [H|H]; [by left|right]. by apply ptr_publish.
  - rewrite E. destruct H as [H ?]. split; [by apply hist_publish|done].
  - destruct H as (H & Hg & Hk). rewrite Hk, Hc in H. injection H as ->. rewrite Z.eqb_refl. cbn.
    split; [|done]. refine (hist_publish g x (calls th) _ _). by rewrite Hk.
  - rewrite E. destruct H as [H ?]. split; [by apply hist_publish|done].
  - rewrite E. destruct H as (H & ? & ?). split; [by apply hist_publish|]. cbn. split; [done|lia].
  - rewrite E. destruct H as (H & ? & ?). split; [by apply hist_publish|]. split; [cbn; lia|by apply Hag].
  - rewrite E. destruct H as (H & ? & ? & ?). split; [by apply hist_publish|]. split; [cbn; lia|]. split; [by apply Hag|by apply ptr_publish].
  - rewrite E. destruct H as (H & ? & ? & ? & y & Hy & Hd). split; [done|]. split; [cbn; lia|]. split; [by apply Hag|].
    split; [by apply ptr_publish|]. exists y. rewrite Hm by (by left). split; [done|by apply blocks_publish].
  - rewrite E. destruct H as (H & ? & ?). split; [cbn; lia|]. split; [by apply Hag|by apply ptr_publish].
  - rewrite E. destruct H as (H & ? & ?). split; [cbn; lia|]. split; [by apply Hag|by apply ptr_publish].
Qed.

Lemma lefts_publish g q rt rs c :
  bco_inv g (q, rt, rs) -> broken g = false ->
  lefts (S (rounds g)) (wake (Some c) <$> rs) = lefts (rounds g) rs /\ (wake (Some c) <$> rs) ≫= pushing = rs ≫= pushing.
Proof.
  intros HI Hb. destruct (bi_hist _ _ HI) as [Hlen _]. rewrite Hb in Hlen. split.
  - unfold lefts. rewrite <- list_fmap_compose. apply list_fmap_ext. intros t th Ht. unfold compose.
    rewrite (proj1 (wake_same _ _ _)). by apply left_publish with (handles q) t, (bi_rcv _ _ HI).
  - clear HI. induction rs as [|th rs IH]; [done|]. cbn. rewrite (proj1 (proj2 (wake_same 0 _ _))). by f_equal.
Qed.

(** No receiver has left the round to be published. *)
Lemma none_gone g q rt rs :
  bco_inv g (q, rt, rs) -> count_if (Nat.ltb (rounds g)) (lefts (rounds g) rs) = O.
Proof.
  intros HI. apply count_if_none, Forall_forall. intros v Hv. apply list_elem_of_fmap in Hv as (th & -> & _).
  apply Nat.ltb_ge. unfold left. lia.
Qed.

Lemma owned_publish g q rt rs x c :
  bco_inv g (q, rt, rs) -> broken g = false -> pc rt = AtPublish -> next x = newitem rt ->
  owned (publish g x) (returns (rt <| key := newitem rt |>)) (wake (Some c) <$> rs) ≡ₚ owned g rt rs.
Proof.
  intros HI Hb Hpc Hn. unfold owned. rewrite (proj2 (lefts_publish _ _ _ _ c HI Hb)).
  pose proof (oldest_rounds _ _ HI) as Hold. destruct (bi_hist _ _ HI) as [Hlen _]. rewrite Hb in Hlen.
  unfold in_hand. rewrite Hpc. cbn [returns pc upd]. cbn. rewrite Hn. destruct (newitem rt =? NO_HANDLE); [done|].
  rewrite drop_app_le by lia. rewrite <- app_assoc. f_equiv. cbn. by rewrite <- Permutation_middle.
Qed.

Lemma handles_publish g q rt rs x :
  bco_inv g (q, rt, rs) -> broken g = false -> hist g !! rounds g = Some (curitem rt) ->
  handles q !! curitem rt = Some x -> match data x with Live d => len x = length d | _ => True end ->
  (next x = NO_HANDLE \/ (next x <> curitem rt /\ exists y, handles q !! next x = Some y /\ avail y = 0)) ->
  forall j h, (oldest g <= j)%nat -> hist (publish g x) !! j = Some h ->
    exists y, <[curitem rt := x <| avail := 1 |>]> (handles q) !! h = Some y /\
      handle_ok (publish g x) (wake (Some (curitem rt)) <$> rs) j y.
Proof.
  intros HI Hb Hcur Hx Hlen Hnew j h Hj Hjh. destruct (bi_hist _ _ HI) as [Hhl _]. rewrite Hb in Hhl.
  unfold handle_ok. cbn [publish rounds]. rewrite (proj1 (lefts_publish _ _ _ _ (curitem rt) HI Hb)).
  destruct (Nat.lt_trichotomy j (rounds g)) as [Hlt|[->|Hgt]].
  - assert (hist g !! j = Some h) as Hh.
    { cbn in Hjh. destruct (_ =? _); [done|]. by rewrite lookup_app_l in Hjh by lia. }
    destruct (bi_handles _ _ HI _ _ Hj Hh) as (y & Hy & Hok). unfold handle_ok in Hok. cbn [fst snd] in *.
    rewrite (proj2 (Nat.ltb_lt _ _) Hlt) in Hok. rewrite (proj2 (Nat.ltb_lt _ _)) by lia.
    exists y. rewrite lookup_insert_ne.
    + destruct Hok as (? & ? & ? & ?). split; [done|]. split; [done|]. split; [by apply ptr_publish|]. split; [by apply blocks_publish|done].
    + apply not_eq_sym. pose proof (bi_nodup _ _ HI) as Hnd. unfold owned in Hnd. apply NoDup_app in Hnd as (Hnd & _).
      apply (dropped_apart _ _ j (rounds g) _ _ Hnd); try done; lia.
  - rewrite (hist_publish _ _ _ _ Hcur) in Hjh. injection Hjh as <-. rewrite lookup_insert_eq. eexists. split; [done|].
    rewrite (proj2 (Nat.ltb_lt _ _)) by lia. cbn [avail next data len upd]. rewrite (none_gone _ _ _ _ HI).
    split; [done|]. split; [|split; [|done]].
    + unfold ptr_ok. cbn. destruct (Z.eqb_spec (next x) NO_HANDLE) as [->|E]; [by right|left].
      by rewrite lookup_app_r, Hhl, Nat.sub_diag by lia.
    + cbn. rewrite <- (bi_blocks _ _ HI), lookup_app_r, Nat.sub_diag by lia. done.
  - rewrite (proj2 (Nat.ltb_ge _ _)) by lia. cbn in Hjh. destruct (Z.eqb_spec (next x) NO_HANDLE) as [E|E].
    + apply lookup_lt_Some in Hjh. lia.
    + rewrite lookup_app_r in Hjh by lia. apply list_lookup_singleton_Some in Hjh as [_ <-].
      destruct Hnew as [?|(Hne & y & Hy & Hav)]; [done|]. exists y. by rewrite lookup_insert_ne.
Qed.

Lemma root_publish_ok g q rt rs nomem msg :
  bco_inv g (q, rt, rs) -> pc rt = AtPublish -> root_fine rs (root_run nomem msg q rt).
Proof.
  intros HI Hpc. pose proof (bi_root _ _ HI) as [Hlog Hq]. cbn [fst snd] in *. rewrite Hpc in Hq.
  destruct Hq as (Hb & Hk & Hh & Hg & (x & Hx & Hn & Hd) & Hnew). rewrite Hk in Hh.
  pose proof (oldest_rounds _ _ HI) as Hold. destruct (bi_hist _ _ HI) as [Hlen H1]. rewrite Hb in Hlen. cbn [fst snd] in Hold, Hlen.
  destruct (hist_others _ _ _ _ _ _ HI Hold Hh) as (Hnf & Hni & Hnp).
  unfold root_run, bch_alloc_run. rewrite Hpc. unfold with_handle. rewrite Hx. cbn [root_fine]. exists (publish g x).
  pose proof (owned_publish _ _ _ _ x (curitem rt) HI Hb Hpc Hn) as Hown.
  destruct (lefts_publish _ _ _ _ (curitem rt) HI Hb) as [Hlefts _].
  split; cbn [fst snd]; rewrite ?length_fmap; try apply HI.
  - cbn. rewrite length_app, (bi_blocks _ _ HI). cbn. lia.
  - intros j b Hj. cbn in Hj. apply lookup_app_Some in Hj as [Hj|[Hge Hj]]; [by apply (bi_sent _ _ HI)|].
    apply list_lookup_singleton_Some in Hj as [Hz <-]. rewrite (bi_blocks _ _ HI) in Hz, Hge. replace j with (calls rt) by lia. tauto.
  - cbn. destruct (_ =? _); [done|]. rewrite length_app. cbn. lia.
  - cbn [publish rounds oldest]. rewrite Hlefts. apply HI.
  - intros Hz. apply hist_publish. by apply (bi_first _ _ HI).
  - apply chain_insert; [done|apply HI].
  - rewrite Hown. apply HI.
  - rewrite Hown. eapply Forall_impl; [apply (bi_owned _ _ HI)|]. intros a Ha. by apply (is_Some_update _ _ _ _ _ Hx).
  - split; [exact (proj1 (bi_brk _ _ HI))|]. intros a Ha. apply (proj2 (bi_brk _ _ HI)). by apply (is_Some_update _ _ _ _ _ Hx) in Ha.
  - cbn. destruct (Z.eqb_spec (next x) NO_HANDLE) as [E|E]; [apply HI|]. apply Forall_app. split; [apply HI|]. constructor; [|done].
    apply (handles_below _ _ _ _ _ HI). unfold owned. rewrite !elem_of_app. right. right. left. unfold in_hand. rewrite Hpc, <- Hn.
    rewrite (proj2 (Z.eqb_neq _ _) E). by left.
  - apply (handles_publish _ _ _ _ _ HI Hb Hh Hx).
    + destruct Hd as [[-> _]|(-> & _ & ?)]; done.
    + rewrite Hn. destruct (Z.eqb_spec (newitem rt) NO_HANDLE) as [E|E]; [by left|]. destruct Hnew as [?|Hnew]; [done|]. right. split; [|done].
      intros Ec. apply Hni. unfold in_hand. rewrite Hpc, (proj2 (Z.eqb_neq _ _) E). rewrite <- Ec. by left.
  - split.
    + cbn. intros j e Hj. apply lookup_app_Some in Hj as [Hj|[Hge Hj]]; [by apply (log_publish _ x _ _ Hb Hlog)|].
      apply list_lookup_singleton_Some in Hj as [Hz <-]. unfold calls in Hk. cbn. replace j with (rounds g) by lia.
      rewrite <- (bi_blocks _ _ HI), lookup_app_r, Nat.sub_diag by lia. cbn. rewrite Hg.
      by destruct Hd as [[-> ->]|(-> & -> & _)].
    + cbn. unfold calls in *. cbn. rewrite length_app, Hn. cbn. destruct (Z.eqb_spec (newitem rt) NO_HANDLE) as [E|E].
      * split; [lia|done].
      * split; [lia|]. right. by rewrite lookup_app_r, Hk, Hlen, Nat.add_1_r, Nat.sub_diag by lia.
  - intros t th Ht. rewrite list_lookup_fmap in Ht. destruct (rs !! t) as [y|] eqn:Hy; [|done]. injection Ht as <-.
    apply rcv_publish with (handles q); [done|done| |by apply (bi_rcv _ _ HI)].
    intros a Ha. apply lookup_insert_ne. intros <-. apply Hnp. by eapply owned_pushing.
Qed.

Lemma root_run_ok g q rt rs nomem :
  bco_inv g (q, rt, rs) -> root_fine rs (root_run nomem (sends (calls rt)) q rt).
Proof.
  intros HI. pose proof (bi_root _ _ HI) as [_ Hq]. cbn [fst snd] in Hq.
  destruct (pc rt) eqn:Hpc; try (by destruct Hq as (_ & _ & _ & _ & [])).
  - unfold root_run, bch_alloc_run. rewrite Hpc. by apply root_call_ok with g.
  - apply root_alloc_ok with g; auto.
  - apply root_alloc_ok with g; auto.
  - apply root_alloc_ok with g; auto.
  - destruct nomem; [|by apply root_chunk_ok with g].
    destruct Hq as (Hb & Hk & Hh & Hg & _). unfold root_run, bch_alloc_run. rewrite Hpc. cbn [root_fine]. rewrite wake_none.
    exists (set_frees (frees g) g). apply (root_same g q rt); try done; [apply HI| |].
    + unfold in_hand. cbn. by rewrite Hpc.
    + pose proof (bi_root _ _ HI) as [Hlog _]. split; [done|]. cbn. done.
  - by apply root_link_ok with g.
  - by apply root_linked_ok with g.
  - by apply root_fill_ok with g.
  - by apply root_publish_ok with g.
Qed.

Lemma bcast_step_inv g s s' : bco_inv g s -> bco_step sends rooms s s' -> exists g', bco_inv g' s'.
Proof.
  intros HI Hs. destruct Hs as [nomem q rt rs q' rt' w Hrun|q rt rs t th q' th' w Ht Hrun|q rt rs t th Ht].
  - pose proof (root_run_ok _ _ _ _ nomem HI) as H. unfold calls in H. by rewrite Hrun in H.
  - pose proof (recv_run_ok _ _ _ _ _ _ HI Ht) as H. unfold calls in H. rewrite Hrun in H. by destruct H as [_ H].
  - exists g. by apply recv_spurious_ok.
Qed.

(** ** The start *)

Lemma bcast_start_inv k p s : 8 < p -> bco_start k p s -> exists g, bco_inv g s.
Proof.
  intros Hp (q & Hq & ->). unfold tmpi_bcq_create in Hq. destruct (Z.ltb_spec (Z.of_nat (S k)) 2) as [|Hk]; [done|].
  injection Hq as <-. rewrite Nat2Z.id. set (n := S k) in *. set (f := p + sizeof_BCHandle) in *.
  assert (forall a, is_Some ((link_handles n f 0 : memory) !! a) <-> a ∈ block_handles (tmpi_BCHandle A) n f) as Hdom.
  { intros a. rewrite <- (link_handles_lookup (T:=tmpi_BCHandle A) n f 0 a). done. }
  assert (p ∉ block_handles (tmpi_BCHandle A) n f) as Hpf.
  { intros H. apply elem_of_block in H. cbn in H; unfold f, sizeof_BCHandle in H. lia. }
  set (th := Thread (A:=A) Outside 0 0 0 0 0 None []).
  assert ((replicate k th ≫= pushing) = []) as Hpush by (clear; induction k; [done|exact IHk]).
  exists (Ghost 0 [p] [] false 0 (block_handles (tmpi_BCHandle A) n f)).
  assert (owned (Ghost 0 [p] [] false 0 (block_handles (tmpi_BCHandle A) n f)) th (replicate k th) = p :: block_handles (tmpi_BCHandle A) n f) as Hown.
  { unfold owned. rewrite Hpush. cbn [oldest hist frees]. change (in_hand _ th) with (@nil Z). by rewrite !app_nil_r. }
  assert (lefts 0 (replicate k th) = replicate k 0%nat) as Hl by (unfold lefts; by rewrite fmap_replicate).
  split; cbn [fst snd]; rewrite ?length_replicate, ?Hown; try done; try lia.
  - cbn [rounds oldest]. rewrite Hl. split; [by apply Forall_replicate|]. destruct k; [lia|by left].
  - cbn [handles free frees]. apply chain_insert; [done|]. rewrite <- (right_id_L ∅ (∪) (link_handles n f 0)). apply link_handles_chain.
  - constructor; [done|apply NoDup_block].
  - constructor; [cbn; rewrite lookup_insert_eq; by eexists|]. apply Forall_forall. intros a Ha. cbn.
    rewrite lookup_insert_ne by (by intros ->). by apply Hdom.
  - cbn [brk handles]. split; [unfold f, sizeof_BCHandle; lia|]. intros a Ha. destruct (decide (a = p)) as [->|Hne].
    + unfold f, sizeof_BCHandle. lia.
    + rewrite lookup_insert_ne in Ha by done. apply Hdom, elem_of_block in Ha. change (sizeof_handle _) with sizeof_BCHandle in Ha. unfold f, n, sizeof_BCHandle in *. lia.
  - by repeat constructor.
  - intros j h _ Hj. apply list_lookup_singleton_Some in Hj as [-> <-]. cbn. rewrite lookup_insert_eq. by eexists.
  - split; [done|]. split; [done|]. left. done.
  - intros t x Hx. apply lookup_replicate in Hx as [-> _]. split; [done|]. left. done.
Qed.

Lemma bcast_reachable_inv k p s : 8 < p -> bco_reachable sends rooms k p s -> exists g, bco_inv g s.
Proof.
  intros Hp (s0 & H0 & Hs). apply bcast_start_inv in H0; [|done]. induction Hs as [s|s1 s2 s3 H12 _ IH]; [done|].
  destruct H0 as [g Hg]. apply IH. by eapply bcast_step_inv.
Qed.

Lemma rounds_delivered k p s
  (Hp : 8 < p) (Hs : bco_reachable sends rooms k p s) :
  exists (R : list (block A)) (broken : bool),
    (forall j b, R !! j = Some b -> b = Null \/ b = Live (sends j)) /\
    (forall t th j e, s.2 !! t = Some th -> log th !! j = Some e ->
       match R !! j with
       | Some (Live d) => e = (0, Some (take (Nat.min (rooms t j) (length d)) d))
       | Some _ => e = (-2, None)
       | None => broken = true /\ e = (-1, None)
       end) /\
    forall j e, log s.1.2 !! j = Some e ->
      match R !! j with
      | Some (Live d) => e = (0, None)
      | Some _ => e = (-2, None)
      | None => broken = true /\ e = (-1, None)
      end.
Proof.
  destruct (bcast_reachable_inv _ _ _ Hp Hs) as [g HI]. exists (blocks g), (broken g). split; [apply (bi_sent _ _ HI)|]. split.
  - intros t th j e Ht He. pose proof (proj1 (bi_rcv _ _ HI _ _ Ht) j e He) as H. by destruct (blocks g !! j) as [[]|].
  - intros j e He. pose proof (proj1 (bi_root _ _ HI) j e He) as H. by destruct (blocks g !! j) as [[]|].
Qed.


(** (C23) The memory of a broadcast queue is safe: no step of the root or of a receiver,
    in no reachable state, touches a handle that does not exist, a message that was
    freed, or frees a message twice. In particular the lock-free list of handles is
    safe although several receivers add to it while the root takes from it. *)
Theorem bcast_memory_safe k p s t th nomem
  (Hp : 8 < p) (Hs : bco_reachable sends rooms k p s) (Ht : s.2 !! t = Some th) :
  root_run nomem (sends (length (log s.1.2))) s.1.1 s.1.2 <> Undefined /\
  recv_run (rooms t (length (log th))) s.1.1 th <> Undefined.
Proof.
  destruct (bcast_reachable_inv _ _ _ Hp Hs) as [g HI]. destruct s as [[q rt] rs]. cbn in *. split.
  - pose proof (root_run_ok _ _ _ _ nomem HI) as H. unfold calls in H. by intros E; rewrite E in H.
  - pose proof (recv_run_ok _ _ _ _ _ _ HI Ht) as H. unfold calls in H. by intros E; rewrite E in H.
Qed.
End Inv.

(** ** A run with two receivers *)

(** Process 0 is the root, process [S t] receiver [t]; each in turn makes its next step. *)
Fixpoint run_schedule (sched : list nat) (sends : nat -> list Z) (rooms : nat -> nat -> nat) (s : system (A:=Z)) : option system :=
  match sched with
  | [] => Some s
  | O :: sched' =>
      match root_run false (sends (length (log s.1.2))) s.1.1 s.1.2 with
      | Moves q' rt' w => run_schedule sched' sends rooms (q', rt', wake w <$> s.2)
      | _ => None
      end
  | S t :: sched' =>
      match s.2 !! t with
      | Some th =>
          match recv_run (rooms t (length (log th))) s.1.1 th with
          | Moves q' th' _ => run_schedule sched' sends rooms (q', s.1.2, <[t := th']> s.2)
          | _ => None
          end
      | None => None
      end
  end.

Lemma bcast_run_reach sched sends rooms s s' :
  run_schedule sched sends rooms s = Some s' -> rtc (bco_step sends rooms) s s'.
Proof.
  revert s. induction sched as [|[|t] sched IH]; intros [[q rt] rs] H; cbn in H; [injection H as ->; apply rtc_refl|..].
  - destruct (root_run _ _ _ _) as [q' rt' w| |] eqn:Hrun; try done. eapply rtc_l; [by eapply step_root|by apply IH].
  - destruct (rs !! t) as [th|] eqn:Hth; [|done]. destruct (recv_run _ _ _) as [q' th' w| |] eqn:Hrun; try done.
    eapply rtc_l; [by eapply step_recv|by apply IH].
Qed.

(** Broadcast of [[j; 7]] in call [j]; receiver 1 has room for one element only. *)
Definition demo_sends (j : nat) : list Z := [Z.of_nat j; 7].
Definition demo_rooms (t j : nat) : nat := if (t =? 0)%nat then 2 else 1.
Definition demo_start : option (system (A:=Z)) :=
  q ← tmpi_bcq_create 3 (Some 1000);
  let th := Thread Outside 0 0 0 0 0 None [] in Some (q, th, [th; th]).
(** Receiver 0 sleeps, the root publishes two rounds, the receivers take the first. *)
Definition demo_sched : list nat :=
  [1%nat; 1%nat] ++ replicate 12 0%nat ++ replicate 4 1%nat ++ replicate 8 2%nat.

Lemma bcast_demo_reachable s :
  (s0 ← demo_start; run_schedule demo_sched demo_sends demo_rooms s0) = Some s ->
  bco_reachable demo_sends demo_rooms 2 1000 s.
Proof.
  intros H. unfold demo_start in H. destruct (tmpi_bcq_create 3 (Some 1000)) as [q|] eqn:Hq; [|done].
  exists (q, Thread Outside 0 0 0 0 0 None [], replicate 2 (Thread Outside 0 0 0 0 0 None [])). split; [by exists q|].
  exact (bcast_run_reach demo_sched _ _ _ _ H).
Qed.


(** The last receiver of the first round has left and given its handle back. *)
Lemma bcast_memory_safe_witness :
  exists s th, (s0 ← demo_start; run_schedule demo_sched demo_sends demo_rooms s0) = Some s /\ s.2 !! 1%nat = Some th /\
    root_run false (demo_sends (length (log s.1.2))) s.1.1 s.1.2 <> Undefined /\
    recv_run (demo_rooms 1 (length (log th))) s.1.1 th <> Undefined.
Proof.
  eexists _, _. split; [vm_compute; reflexivity|]. split; [reflexivity|].
  apply (bcast_memory_safe demo_sends demo_rooms 2 1000); [lia| |reflexivity]. apply bcast_demo_reachable. vm_compute. reflexivity.
Defined.

(** ** The object *)

Section Object.
Context {A : Type}.

Lemma bcq_created n p : 2 <= n -> p <> 0 ->
  exists q : tmpi_BCQueue A, tmpi_bcq_create n (Some p) = Some q /\ tmpi_bcq_destroy q tt = Ret tt tt.
Proof.
  intros Hn Hp. unfold tmpi_bcq_create. rewrite (proj2 (Z.ltb_ge n 2) Hn). eexists. split; [done|]. unfold tmpi_bcq_destroy.
  set (m := link_handles _ _ _ : gmap Z (tmpi_BCHandle A)).
  apply destroy_chain with [p]; cbn [handles first].
  - split; [done|]. eexists. by rewrite lookup_insert_eq.
  - by repeat constructor.
  - cbn [length]. pose proof (map_size_ne_0_lookup_2 _ p (mk_is_Some _ _ (lookup_insert_eq m p new_handle))). lia.
Qed.

(** The object has all its queues or does not exist, and its destruction ends. *)
Lemma bco_all_or_nothing n mem :
  2 <= n -> (forall i p, mem i = Some p -> p <> 0) ->
  exists r, tmpi_bco_create (A:=A) n true mem tt = Ret r tt /\ tmpi_bco_destroy r tt = Ret 0 tt /\
    match r with
    | Some o => length (bco_array o) = Z.to_nat n /\ forall i, (i < Z.to_nat n)%nat -> mem i <> None
    | None => exists i, (i < Z.to_nat n)%nat /\ mem i = None
    end.
Proof.
  intros Hn Hmem. unfold tmpi_bco_create. cbn [negb]. rewrite (proj2 (Z.ltb_ge n 2) Hn).
  destruct (create_queues_ret (tmpi_bcq_create n) tmpi_bcq_destroy ltac:(unfold tmpi_bcq_create; by destruct (n <? 2)) mem
    (fun i p H => bcq_created n p Hn (Hmem i p H)) (Z.to_nat n) 0 [] ltac:(by constructor)) as (r & Hr & Hs).
  rewrite (bind_Ret _ _ _ _ _ Hr). destruct r as [l|]; eexists; (split; [done|]); cbn [tmpi_bco_destroy].
  - destruct Hs as (Hd & Hl & Hall). cbn [bco_size bco_array length] in *. rewrite take_ge by lia.
    rewrite (bind_Ret _ _ _ _ _ (destroy_all_ret _ _ Hd)). split; [done|]. split; [lia|].
    intros i Hi. apply (proj1 (Forall_forall _ _) Hall i), elem_of_seq. lia.
  - split; [done|]. apply Exists_exists in Hs as (i & Hi%elem_of_seq & Hm). exists i. split; [lia|done].
Qed.
End Object.
