(* ===== verification/Reduce.v ===== *)
(** The reduce object of intra/reduce.c: one queue of handles per root. The first of the
    processes to reach a reduction claims the handle at the end of the queue, links a new
    one behind it and puts its data in; each of the others reduces its own data into the
    handle's; the root waits for all of them, takes the result, and gives the handle back
    to the queue's lock-free list of free handles, from which every process takes. A call
    of [tmpi_rdco_reduce] is cut at its accesses to shared memory and at its critical
    sections; this file has the queue of one root. In [simple_reduce] several threads
    work on the handle's array at once, each of them by the steps of its loop over the
    elements (file RdcOp). The last section is the specification the queue is compared
    with, in which the whole of [simple_reduce] is one step. *)
From stdpp Require Import relations.
From S2P Require Import Prelude Types RdcOp ElementWise HandleLists Allreduce.

Open Scope Z_scope.

(** ** Handles and their queue *)

(** [next] is an address; 8 stands for a handle that could not be allocated. *)
Record tmpi_RDCHandle (A : Type) := mkRdch { next : Z; avail : Z; data : block A; count : nat }.
Arguments mkRdch {A}.
Arguments next {A}.
Arguments avail {A}.
Arguments data {A}.
Arguments count {A}.
#[export] Instance eta_rdch A : Eta (tmpi_RDCHandle A) := MkEta _ (fun r => mkRdch (next r) (avail r) (data r) (count r)).

Definition NO_HANDLE : Z := 8.
Definition sizeof_RDCHandle : Z := 64.

(** A handle of calloc, linked to [e]. *)
Definition new_handle {A} (e : Z) : tmpi_RDCHandle A := mkRdch e 0 Null 0.
#[export] Instance rdch_handle A : Handle (tmpi_RDCHandle A) :=
  {| next_of := next; linked_to := new_handle; sizeof_handle := sizeof_RDCHandle |}.
#[export] Instance rdch_laws A : HandleLaws (tmpi_RDCHandle A).
Proof. by split. Qed.

(** The queue of one root, with the handles by address and the end of the memory the
    queue has taken; [group_size] is that of the object. *)
Record tmpi_RDCQueue (A : Type) := mkRdcq { group_size : Z; first : Z; free : Z; handles : gmap Z (tmpi_RDCHandle A); brk : Z }.
Arguments mkRdcq {A}.
Arguments group_size {A}.
Arguments first {A}.
Arguments free {A}.
Arguments handles {A}.
Arguments brk {A}.
#[export] Instance eta_rdcq A : Eta (tmpi_RDCQueue A) :=
  MkEta _ (fun r => mkRdcq (group_size r) (first r) (free r) (handles r) (brk r)).

(** The object: the size of the group and the queues by root. *)
Record tmpi_ReduceObj (A : Type) := mkRdco { rdco_size : Z; rdco_array : list (option (tmpi_RDCQueue A)) }.
Arguments mkRdco {A}.
Arguments rdco_size {A}.
Arguments rdco_array {A}.

Section Queue.
Context {A : Type}.

(** The queue at address [p], if there is memory and a key for it: [groupsize]+1 cached
    handles, the first of them at the front of the queue and the others free. *)
Definition tmpi_rdcq_create (groupsize : Z) (mem : option Z) : option (tmpi_RDCQueue A) :=
  if groupsize <? 2 then None
  else
    match mem with
    | None => None
    | Some p =>
        let f := p + sizeof_RDCHandle in
        Some (mkRdcq groupsize p f
                (<[p := new_handle 0 <| avail := -1 |>]> (link_handles (Z.to_nat groupsize) f 0))
                (f + groupsize * sizeof_RDCHandle))
    end.

#[local] Notation M := (Prelude.M unit).

Definition tmpi_rdcq_destroy (q : tmpi_RDCQueue A) : M unit := destroy_from (S (size (handles q))) (handles q) (first q).

(** [obj]: whether there is memory for the object; [mem]: where the queues are. *)
Definition tmpi_rdco_create (groupsize : Z) (obj : bool) (mem : nat -> option Z) : M (option (tmpi_ReduceObj A)) :=
  if negb obj then mret None
  else if groupsize <? 2 then mret (Some (mkRdco groupsize [None]))
  else
    r ← create_queues (tmpi_rdcq_create groupsize) tmpi_rdcq_destroy mem 0 (Z.to_nat groupsize) [];
    mret (match r with Some qs => Some (mkRdco groupsize qs) | None => None end).
Definition tmpi_rdco_destroy (rdco : option (tmpi_ReduceObj A)) : M Z :=
  match rdco with
  | Some r => destroy_all tmpi_rdcq_destroy (take (Z.to_nat (rdco_size r)) (rdco_array r));; mret 0
  | None => mret 0
  end.
End Queue.

(** ** A call *)

(** Where a thread is in the call: what it does next. *)
Inductive place :=
  | Outside
  | AtFirst      (** the test [curitem->avail==-1] *)
  | AtPop        (** [ret=*pfree] *)
  | AtNext       (** [localfree=ret->next] *)
  | AtCas        (** the [casp] that takes [ret] off the list *)
  | AtChunk      (** the [calloc] of more handles *)
  | AtLink       (** [localfree[i].next=*pfree] *)
  | AtLinkCas    (** the [casp] that adds them to the list *)
  | AtInit       (** [newitem->avail=-1], [newitem->next=NULL] *)
  | AtClaim      (** the [cas32] that makes the caller the first *)
  | AtReturn     (** somebody else was: [handle->next=*pfree] for [newitem] *)
  | AtReturnCas  (** the [casp] that gives [newitem] back *)
  | AtFill       (** the first: the link to [newitem], the data *)
  | AtPublish    (** the lock, [avail=1], the broadcast *)
  | AtWait       (** the others: the lock and the loop [while (curitem->avail==0)] *)
  | Asleep
  | Woken
  | AtReduce     (** [simple_reduce] *)
  | AtKey        (** [ukey_setval(q->key_curhandle, curitem->next)] *)
  | AtCount      (** the lock, [curitem->avail++], the signal *)
  | AtTest       (** the root: the test [curitem->avail!=rdco->group_size] *)
  | AtResult     (** the lock and the loop *)
  | Asleep2
  | Woken2
  | AtTake       (** the copy to [recvbuf], the free of the data, [q->first] *)
  | AtPush       (** [handle->next=*pfree] for [curitem] *)
  | AtPushCas.   (** the [casp] that gives it back *)
#[export] Instance place_eq_dec : EqDecision place.
Proof. solve_decision. Defined.

(** The registers of a thread in a call ([mine]: it was the first), its key, and the
    results of its calls so far: the code and, in the root, what is in [recvbuf]. *)
Record thread (A : Type) := Thread {
  pc : place; key : Z; curitem : Z; newitem : Z; localfree : Z; mine : bool; cnt : nat; ret : Z; got : option (list A);
  log : list (Z * option (list A))
}.
Arguments Thread {A}.
Arguments pc {A}.
Arguments key {A}.
Arguments curitem {A}.
Arguments newitem {A}.
Arguments localfree {A}.
Arguments mine {A}.
Arguments cnt {A}.
Arguments ret {A}.
Arguments got {A}.
Arguments log {A}.
#[export] Instance eta_thread A : Eta (thread A) := MkEta _ (fun r =>
  Thread (pc r) (key r) (curitem r) (newitem r) (localfree r) (mine r) (cnt r) (ret r) (got r) (log r)).

(** Whom a step wakes: nobody, all threads asleep on a handle, one of them. *)
Inductive wakeup := NoWake | WakeAll (h : Z) | WakeOne (h : Z).

(** A thread and, while it is in the loop of [simple_reduce], its place there: the part
    of its [sendbuf] that it reduces, the index, the value it has read. *)
Record caller (A : Type) := Caller { regs : thread A; inloop : option (worker (A:=A)) }.
Arguments Caller {A}.
Arguments regs {A}.
Arguments inloop {A}.

Inductive effect (A T : Type) :=
  | Moves (q : tmpi_RDCQueue A) (th : T) (w : wakeup)
  | Blocked
  | Undefined.
Arguments Moves {A T}.
Arguments Blocked {A T}.
Arguments Undefined {A T}.

Section Body.
Context {A : Type}.

Definition goes (p : place) (th : thread A) : thread A := th <| pc := p |>.
Definition returns (th : thread A) : thread A :=
  th <| pc := Outside |> <| log := log th ++ [(ret th, got th)] |>.

(** An access to a handle. *)
Definition with_handle {T} (q : tmpi_RDCQueue A) (h : Z) (k : tmpi_RDCHandle A -> effect A T) : effect A T :=
  match handles q !! h with Some x => k x | None => Undefined end.
Definition set_handle (h : Z) (x : tmpi_RDCHandle A) (q : tmpi_RDCQueue A) : tmpi_RDCQueue A :=
  q <| handles := <[h := x]> (handles q) |>.

(** The beginning of a call with the data [send], up to the first test of [avail]. *)
Definition rdco_call (send : list A) (q : tmpi_RDCQueue A) (th : thread A) : effect A (thread A) :=
  if group_size q <? 2
  then Moves q (th <| log := log th ++ [(0, Some send)] |>) NoWake
  else
    let c := if key th =? 0 then first q else key th in
    if c =? NO_HANDLE
    then Moves q (th <| log := log th ++ [(-1, None)] |>) NoWake
    else Moves q (Thread AtFirst (key th) c 0 0 false (length send) 0 None (log th)) NoWake.

(** The last handle of a chunk of [group_size] handles. *)
Definition chunk_last (q : tmpi_RDCQueue A) (th : thread A) : Z :=
  newitem th + (group_size q - 1) * sizeof_RDCHandle.

(** The next step in [tmpi_rdch_alloc]; [nomem] makes the allocation of a chunk fail. *)
Definition rdch_alloc_run (nomem : bool) (q : tmpi_RDCQueue A) (th : thread A) : effect A (thread A) :=
  match pc th with
  | AtPop => Moves q (goes (if negb (free q =? 0) then AtNext else AtChunk) th <| newitem := free q |>) NoWake
  | AtNext => with_handle q (newitem th) (fun x => Moves q (goes AtCas th <| localfree := next x |>) NoWake)
  | AtCas =>
      if free q =? newitem th
      then Moves (q <| free := localfree th |>) (goes AtInit th) NoWake
      else Moves q (goes AtPop th) NoWake
  | AtChunk =>
      if nomem then Moves q (goes AtInit th <| newitem := NO_HANDLE |>) NoWake
      else
        let p := brk q in
        Moves (q <| handles := <[p := new_handle 0]>
                 (link_handles (Z.to_nat (group_size q - 1)) (p + sizeof_RDCHandle) 0 ∪ handles q) |>
               <| brk := p + group_size q * sizeof_RDCHandle |>)
          (goes AtLink th <| newitem := p |>) NoWake
  | AtLink =>
      with_handle q (chunk_last q th) (fun x =>
        Moves (set_handle (chunk_last q th) (x <| next := free q |>) q) (goes AtLinkCas th) NoWake)
  | AtLinkCas =>
      with_handle q (chunk_last q th) (fun x =>
        if free q =? next x
        then Moves (q <| free := newitem th + sizeof_RDCHandle |>) (goes AtInit th) NoWake
        else Moves q (goes AtLink th) NoWake)
  | _ => Blocked
  end.

(** The next step in [tmpi_rdch_free] on [h]: the store, with where to go on; the
    [casp], with where to go on when it fails and what follows. *)
Definition rdch_free_store (h : Z) (p : place) (q : tmpi_RDCQueue A) (th : thread A) : effect A (thread A) :=
  with_handle q h (fun x => Moves (set_handle h (x <| next := free q |>) q) (goes p th) NoWake).
Definition rdch_free_cas (h : Z) (again : place) (then_ : thread A -> thread A) (q : tmpi_RDCQueue A) (th : thread A) : effect A (thread A) :=
  with_handle q h (fun x =>
    if free q =? next x then Moves (q <| free := h |>) (then_ th) NoWake else Moves q (goes again th) NoWake).

(** The next step of a thread that calls with [send]; [at_root] is [myid==root], [nomem]
    makes an allocation fail; [reduce] is what it does where it reduces. *)
Definition rdco_body (reduce : effect A (thread A)) (at_root nomem : bool) (send : list A) (q : tmpi_RDCQueue A) (th : thread A) : effect A (thread A) :=
  let c := curitem th in
  match pc th with
  | Outside => rdco_call send q th
  | AtFirst => with_handle q c (fun x => Moves q (goes (if avail x =? -1 then AtPop else AtWait) th) NoWake)
  | AtPop | AtNext | AtCas | AtChunk | AtLink | AtLinkCas => rdch_alloc_run nomem q th
  | AtInit =>
      if newitem th =? NO_HANDLE then Moves q (goes AtClaim th) NoWake
      else with_handle q (newitem th) (fun y =>
        Moves (set_handle (newitem th) (y <| avail := -1 |> <| next := 0 |>) q) (goes AtClaim th) NoWake)
  | AtClaim =>
      with_handle q c (fun x =>
        if avail x =? -1
        then Moves (set_handle c (x <| avail := 0 |>) q) (goes AtFill th <| mine := true |>) NoWake
        else Moves q (goes (if negb (newitem th =? NO_HANDLE) then AtReturn else AtWait) th) NoWake)
  | AtReturn => rdch_free_store (newitem th) AtReturnCas q th
  | AtReturnCas => rdch_free_cas (newitem th) AtReturn (goes AtWait) q th
  | AtFill =>
      with_handle q c (fun x =>
        let x := x <| next := newitem th |> in
        if nomem && negb at_root
        then Moves (set_handle c (x <| data := Null |> <| count := 0%nat |>) q) (goes AtPublish th <| ret := -2 |>) NoWake
        else Moves (set_handle c (x <| data := Live send |> <| count := cnt th |>) q) (goes AtPublish th) NoWake)
  | AtPublish =>
      with_handle q c (fun x =>
        let q := set_handle c (x <| avail := 1 |>) q in
        if at_root && (ret th =? 0)
        then Moves q (goes AtResult th) (WakeAll c)
        else Moves q (returns (th <| key := newitem th |>)) (WakeAll c))
  | AtWait | Woken => with_handle q c (fun x => Moves q (goes (if avail x =? 0 then Asleep else AtReduce) th) NoWake)
  | AtReduce => reduce
  | AtKey => with_handle q c (fun x => Moves q (goes AtCount th <| key := next x |>) NoWake)
  | AtCount =>
      with_handle q c (fun x =>
        let x := x <| avail := avail x + 1 |> in
        let q := set_handle c x q in
        let w := if (avail x =? group_size q) && negb at_root then WakeOne c else NoWake in
        if at_root then Moves q (goes AtTest th) w else Moves q (returns th) w)
  | AtTest => with_handle q c (fun x => Moves q (goes (if negb (avail x =? group_size q) then AtResult else AtTake) th) NoWake)
  | AtResult | Woken2 =>
      with_handle q c (fun x => Moves q (goes (if negb (avail x =? group_size q) then Asleep2 else AtTake) th) NoWake)
  | AtTake =>
      with_handle q c (fun x =>
        let q := q <| first := next x |> in
        if mine th then
          match data x with
          | Live l => Moves q (goes AtPush th <| got := Some l |>) NoWake
          | _ => Undefined
          end
        else if ret th =? 0 then
          match data x with
          | Live l => Moves (set_handle c (x <| data := Freed |>) q) (goes AtPush th <| got := Some (take (cnt th) l) |>) NoWake
          | _ => Undefined
          end
        else Moves q (goes AtPush th) NoWake)
  | AtPush => rdch_free_store c AtPushCas q th
  | AtPushCas => rdch_free_cas c AtPush (fun th => returns (if mine th then th <| key := newitem th |> else th)) q th
  | Asleep | Asleep2 => Blocked
  end.

(** ** Threads *)

Definition asleep_on (h : Z) (th : thread A) : bool :=
  match pc th with Asleep | Asleep2 => curitem th =? h | _ => false end.
Definition wake (th : thread A) : thread A :=
  match pc th with Asleep => goes Woken th | Asleep2 => goes Woken2 th | _ => th end.
Definition wake_on (h : Z) (th : thread A) : thread A := if asleep_on h th then wake th else th.
End Body.

Section Step.
Context {A : Type} `{!EqDecision A} (o : option (rdc_op A)).

(** The thread leaves [simple_reduce], or does not call it, with this [count]. *)
Definition reduced (c : nat) (th : thread A) : caller A := Caller (goes AtKey th <| cnt := c |>) None.

(** [count=MIN(count, curitem->count)], the test of [curitem->data], the call of
    [simple_reduce]: a type or an operator it does not know is only reported. *)
Definition rdco_enter (send : list A) (q : tmpi_RDCQueue A) (th : thread A) : effect A (caller A) :=
  with_handle q (curitem th) (fun x =>
    let n := Nat.min (cnt th) (count x) in
    match data x with
    | Live _ =>
        match o with
        | Some _ => Moves q (Caller th (Some (Worker (take n send) 0 None))) NoWake
        | None => Moves q (reduced n th) NoWake
        end
    | Null => Moves q (reduced n (th <| ret := -2 |>)) NoWake
    | Freed => Undefined
    end).

(** A step in the loop of [simple_reduce], at element [pos w]. *)
Definition rdco_loop (w : worker) (q : tmpi_RDCQueue A) (th : thread A) : effect A (caller A) :=
  match worker_at w with
  | None => Moves q (reduced (length (source w)) th) NoWake
  | Some _ =>
      with_handle q (curitem th) (fun x =>
        match o, data x with
        | Some op, Live l =>
            match rdc_run op l w with
            | Some (l', w') => Moves (set_handle (curitem th) (x <| data := Live l' |>) q) (Caller th (Some w')) NoWake
            | None => Undefined
            end
        | _, _ => Undefined
        end)
  end.

Definition outside_loop (e : effect A (thread A)) : effect A (caller A) :=
  match e with Moves q th w => Moves q (Caller th None) w | Blocked => Blocked | Undefined => Undefined end.

(** The next step of a thread. *)
Definition rdco_run (at_root nomem : bool) (send : list A) (q : tmpi_RDCQueue A) (c : caller A) : effect A (caller A) :=
  let th := regs c in
  match inloop c, pc th with
  | Some w, _ => rdco_loop w q th
  | None, AtReduce => rdco_enter send q th
  | None, _ => outside_loop (rdco_body Blocked at_root nomem send q th)
  end.

Definition wake_caller (c : caller A) : caller A := Caller (wake (regs c)) (inloop c).
Definition wake_caller_on (h : Z) (c : caller A) : caller A := Caller (wake_on h (regs c)) (inloop c).

Inductive wakes : wakeup -> list (caller A) -> list (caller A) -> Prop :=
  | wakes_none cs : wakes NoWake cs cs
  | wakes_all h cs : wakes (WakeAll h) cs (wake_caller_on h <$> cs)
  | wakes_one h cs u x : cs !! u = Some x -> asleep_on h (regs x) = true -> wakes (WakeOne h) cs (<[u := wake_caller x]> cs)
  | wakes_nobody h cs : Forall (fun x => asleep_on h (regs x) = false) cs -> wakes (WakeOne h) cs cs.

(** Thread [t] calls with [sends t k] in its call [k]; thread [root] is the root. *)
Context (root : nat) (sends : nat -> nat -> list A).

Definition system : Type := tmpi_RDCQueue A * list (caller A).

(** A step of thread [t]. *)
Inductive rdco_step (t : nat) : system -> system -> Prop :=
  | step_run nomem q cs c q' c' w cs' :
      cs !! t = Some c ->
      rdco_run (t =? root)%nat nomem (sends t (length (log (regs c)))) q c = Moves q' c' w ->
      wakes w (<[t := c']> cs) cs' ->
      rdco_step t (q, cs) (q', cs')
  | step_spurious q cs c :
      cs !! t = Some c ->
      rdco_step t (q, cs) (q, <[t := wake_caller c]> cs).

(** The [casp] of thread [t] is about to succeed on a list that is not the one it looked
    at: the first handle was taken off and put back in between. *)
Definition stale (s : system) (t : nat) : Prop :=
  exists c x, s.2 !! t = Some c /\ pc (regs c) = AtCas /\ free s.1 = newitem (regs c) /\
    handles s.1 !! newitem (regs c) = Some x /\ next x <> localfree (regs c).
Definition calm_step (s s' : system) : Prop := exists t, ~ stale s t /\ rdco_step t s s'.

(** A queue at address [p] and [n] threads, all outside, no key set. *)
Definition rdco_start (n : nat) (p : Z) (s : system) : Prop :=
  exists q, tmpi_rdcq_create (Z.of_nat n) (Some p) = Some q /\
    s = (q, replicate n (Caller (Thread Outside 0 0 0 0 false 0 0 None []) None)).
Definition rdco_reachable (n : nat) (p : Z) (s : system) : Prop :=
  exists s0, rdco_start n p s0 /\ rtc (fun s s' => exists t, rdco_step t s s') s0 s.
(** Without a stale [casp] on the way. *)
Definition rdco_calm (n : nat) (p : Z) (s : system) : Prop :=
  exists s0, rdco_start n p s0 /\ rtc calm_step s0 s.
End Step.

(** ** The specification: [simple_reduce] in one step *)

Section Atomic.
Context {A : Type} (o : option (rdc_op A)).

Definition rdco_atomic (at_root nomem : bool) (send : list A) (q : tmpi_RDCQueue A) (th : thread A) : effect A (thread A) :=
  let c := curitem th in
  rdco_body
    (with_handle q c (fun x =>
      let n := Nat.min (cnt th) (count x) in
      match data x with
      | Live l => Moves (set_handle c (x <| data := Live (reduce_into o n l send) |>) q) (goes AtKey th <| cnt := n |>) NoWake
      | Null => Moves q (goes AtKey th <| cnt := n |> <| ret := -2 |>) NoWake
      | Freed => Undefined
      end)) at_root nomem send q th.

Inductive atomic_wakes : wakeup -> list (thread A) -> list (thread A) -> Prop :=
  | atomic_wakes_none ths : atomic_wakes NoWake ths ths
  | atomic_wakes_all h ths : atomic_wakes (WakeAll h) ths (wake_on h <$> ths)
  | atomic_wakes_one h ths u x : ths !! u = Some x -> asleep_on h x = true -> atomic_wakes (WakeOne h) ths (<[u := wake x]> ths)
  | atomic_wakes_nobody h ths : Forall (fun x => asleep_on h x = false) ths -> atomic_wakes (WakeOne h) ths ths.

Context (root : nat) (sends : nat -> nat -> list A).

Definition atomic_system : Type := tmpi_RDCQueue A * list (thread A).

Inductive atomic_step (t : nat) : atomic_system -> atomic_system -> Prop :=
  | atomic_run nomem q ths th q' th' w ths' :
      ths !! t = Some th ->
      rdco_atomic (t =? root)%nat nomem (sends t (length (log th))) q th = Moves q' th' w ->
      atomic_wakes w (<[t := th']> ths) ths' ->
      atomic_step t (q, ths) (q', ths')
  | atomic_spurious q ths th :
      ths !! t = Some th ->
      atomic_step t (q, ths) (q, <[t := wake th]> ths).

Definition atomic_stale (s : atomic_system) (t : nat) : Prop :=
  exists th x, s.2 !! t = Some th /\ pc th = AtCas /\ free s.1 = newitem th /\
    handles s.1 !! newitem th = Some x /\ next x <> localfree th.
Definition atomic_calm_step (s s' : atomic_system) : Prop := exists t, ~ atomic_stale s t /\ atomic_step t s s'.

Definition atomic_start (n : nat) (p : Z) (s : atomic_system) : Prop :=
  exists q, tmpi_rdcq_create (Z.of_nat n) (Some p) = Some q /\
    s = (q, replicate n (Thread Outside 0 0 0 0 false 0 0 None [])).
Definition atomic_calm (n : nat) (p : Z) (s : atomic_system) : Prop :=
  exists s0, atomic_start n p s0 /\ rtc atomic_calm_step s0 s.
End Atomic.
