(* ===== verification/ReduceInv.v ===== *)
(** The invariant of a queue of the reduce object: which handle serves which round, how
    far each thread is in it, and who owns the other handles. *)
From stdpp Require Import relations.
From S2P Require Import Prelude Types RdcOp ElementWise HandleLists Allreduce AllreduceData Reduce.

Open Scope Z_scope.

Section Inv.
Context {A : Type} (o : option (rdc_op A)) (n root : nat) (sends : nat -> nat -> list A).
Notation memory := (gmap Z (tmpi_RDCHandle A)).
Notation thread := (Reduce.thread A).

(** The number of elements is the same in all threads' calls of a round. *)
Hypothesis same_count : forall t u k, length (sends t k) = length (sends u k).
Hypothesis two : (2 <= n)%nat.
Hypothesis root_in : (root < n)%nat.

(** ** What is not in the state *)

(** The number of rounds claimed by a first process, filled by it, published; the handle
    of each round; whether a handle could not be allocated; for each round filled, the
    threads that have contributed, in order, or nothing when there was no memory; the
    number of rounds the root has taken the result of; the free handles. *)
Record ghost := Ghost {
  claimed : nat;
  filled : nat;
  published : nat;
  hist : list Z;
  broken : bool;
  orders : list (option (list nat));
  oldest : nat;
  frees : list Z
}.

Definition calls (th : thread) : nat := length (log th).

(** The thread has been counted in round [j]; its data is in it. *)
Definition counted (j : nat) (th : thread) : bool :=
  (j <? calls th)%nat || (j =? calls th)%nat &&
  match pc th with AtTest | AtResult | Asleep2 | Woken2 | AtTake | AtPush | AtPushCas => true | _ => false end.
Definition contributed (j : nat) (th : thread) : bool :=
  (j <? calls th)%nat || (j =? calls th)%nat &&
  match pc th with
  | AtPublish | AtKey | AtCount | AtTest | AtResult | Asleep2 | Woken2 | AtTake | AtPush | AtPushCas => true
  | _ => false
  end.
Definition filling (th : thread) : bool := match pc th with AtFill => true | _ => false end.
Definition publishing (th : thread) : bool := match pc th with AtPublish => true | _ => false end.
(** The number of rounds whose result the root has taken. *)
Definition gone (th : thread) : nat :=
  match pc th with AtPush | AtPushCas => S (calls th) | _ => calls th end.

(** The handles only this thread knows of. *)
Definition in_hand (th : thread) : list Z :=
  match pc th with
  | AtLink | AtLinkCas => block_handles (tmpi_RDCHandle A) n (newitem th)
  | AtInit | AtClaim | AtReturn | AtReturnCas | AtFill => if newitem th =? NO_HANDLE then [] else [newitem th]
  | AtPush | AtPushCas => [curitem th]
  | _ => []
  end.

(** Every handle has one owner. *)
Definition owned (g : ghost) (ths : list thread) : list Z :=
  drop (oldest g) (hist g) ++ frees g ++ (ths ≫= in_hand).

(** The handle of round [k], or what stands for it. *)
Definition ptr_ok (g : ghost) (k : nat) (v : Z) : Prop :=
  hist g !! k = Some v \/ broken g = true /\ (length (hist g) <= k)%nat /\ v = NO_HANDLE.

(** What the block of round [j] holds. *)
Definition content (j : nat) (order : option (list nat)) : block A :=
  match order with Some (f :: rest) => Live (reduce_all o sends j f rest) | _ => Null end.
Definition block_count (b : block A) : nat := match b with Live l => length l | _ => O end.

Definition handle_ok (g : ghost) (ths : list thread) (j : nat) (x : tmpi_RDCHandle A) : Prop :=
  avail x = (if (j <? published g)%nat then Z.of_nat (count_if (counted j) ths)
             else if (j <? claimed g)%nat then 0 else -1) /\
  forall order, orders g !! j = Some order ->
    ptr_ok g (S j) (next x) /\ data x = content j order /\ count x = block_count (data x).

(** What a call of round [j] has given. *)
Definition out (t j : nat) (order : option (list nat)) : Z * option (list A) :=
  match content j order with
  | Live l => (0, if (t =? root)%nat then Some l else None)
  | _ => (-2, None)
  end.
Definition log_ok (g : ghost) (t : nat) (l : list (Z * option (list A))) : Prop :=
  forall j e, l !! j = Some e ->
    match orders g !! j with
    | Some order => e = out t j order
    | None => broken g = true /\ e = (-1, None)
    end.

(** The registers of a thread before its data is in the block, and after. *)
Definition fresh (t : nat) (th : thread) : Prop :=
  cnt th = length (sends t (calls th)) /\ ret th = 0 /\ got th = None.
Definition agrees (g : ghost) (th : thread) : Prop :=
  got th = None /\
  match orders g !! calls th with
  | Some (Some (_ :: _)) => ret th = 0 /\ cnt th = length (sends O (calls th))
  | Some None => ret th = -2
  | _ => False
  end.
Definition key_next (g : ghost) (th : thread) : Prop :=
  ptr_ok g (S (calls th)) (if mine th then newitem th else key th).

(** A new handle that is not in use yet. *)
Definition new_ok (m : memory) (h : Z) : Prop := h = NO_HANDLE \/ exists y, m !! h = Some y /\ avail y = -1.
(** The last handle of a chunk at [p]. *)
Definition last_of (p : Z) : Z := p + (Z.of_nat n - 1) * sizeof_RDCHandle.

Definition thread_ok (g : ghost) (m : memory) (t : nat) (th : thread) : Prop :=
  let k := calls th in
  log_ok g t (log th) /\
  match pc th with
  | Outside => key th = 0 /\ k = 0%nat \/ ptr_ok g k (key th)
  | p =>
      hist g !! k = Some (curitem th) /\
      match p with
      | AtFirst | AtPop | AtChunk | AtInit => fresh t th /\ mine th = false
      | AtNext | AtCas => fresh t th /\ mine th = false /\ is_Some (m !! newitem th)
      | AtLink | AtLinkCas => fresh t th /\ mine th = false /\
          linked m (newitem th + sizeof_RDCHandle) (last_of (newitem th)) (pred n)
      | AtClaim => fresh t th /\ mine th = false /\ new_ok m (newitem th)
      | AtReturn | AtReturnCas =>
          fresh t th /\ mine th = false /\ (k < claimed g)%nat /\ newitem th <> NO_HANDLE
      | AtWait | Woken => fresh t th /\ mine th = false /\ (k < claimed g)%nat
      | Asleep => fresh t th /\ mine th = false /\ (k < claimed g)%nat /\ (published g <= k)%nat
      | AtFill => fresh t th /\ mine th = true /\ k = filled g /\ claimed g = S (filled g) /\ new_ok m (newitem th)
      | AtPublish => mine th = true /\ k = published g /\ filled g = S (published g) /\ agrees g th /\ key_next g th /\
          (t = root -> ret th = 0)
      | AtReduce => fresh t th /\ mine th = false /\ (k < published g)%nat
      | AtKey => mine th = false /\ (k < published g)%nat /\ agrees g th
      | AtCount => mine th = false /\ (k < published g)%nat /\ agrees g th /\ key_next g th
      | AtTest | AtResult | Asleep2 | Woken2 | AtTake =>
          t = root /\ (k < published g)%nat /\ agrees g th /\ key_next g th /\ (mine th = true -> ret th = 0)
      | AtPush | AtPushCas =>
          t = root /\ (k < oldest g)%nat /\ key_next g th /\
          exists order, orders g !! k = Some order /\ (ret th, got th) = out t k order
      | _ => False
      end
  end.

(** The root sleeps while a thread has not been counted, and takes the result when all
    have been. *)
Definition all_counted (ths : list thread) (j : nat) : Prop := Forall (fun x => counted j x = true) ths.
Definition take_ok (g : ghost) (ths : list thread) (th : thread) : Prop :=
  match pc th with
  | Asleep2 => (calls th < length (hist g))%nat /\ ~ all_counted ths (calls th)
  | AtTake => (calls th < length (hist g))%nat /\ all_counted ths (calls th)
  | _ => True
  end.

(** The memory. *)
Record mem_inv (g : ghost) (q : tmpi_RDCQueue A) (ths : list thread) : Prop := MemInv {
  mi_chain : chain (handles q) (free q) (frees g);
  mi_nodup : NoDup (owned g ths);
  mi_owned : Forall (fun a => is_Some (handles q !! a)) (owned g ths);
  mi_brk : 8 < brk q /\ forall a, is_Some (handles q !! a) -> 8 < a < brk q;
  mi_hist : Forall (fun a => 8 < a) (hist g)
}.

(** The rounds. *)
Record round_inv (g : ghost) (ths : list thread) : Prop := RoundInv {
  ri_stages : (published g <= filled g <= claimed g)%nat /\ (claimed g <= S (published g))%nat;
  ri_filling : (count_if filling ths = claimed g - filled g)%nat;
  ri_publishing : (count_if publishing ths = filled g - published g)%nat;
  ri_length : length (orders g) = filled g /\ length (hist g) = (if broken g then filled g else S (filled g));
  ri_orders : forall j l, orders g !! j = Some (Some l) -> l <> [] /\ NoDup l /\
    forall t, t ∈ l <-> exists th, ths !! t = Some th /\ contributed j th = true;
  ri_gone : exists rt, ths !! root = Some rt /\ oldest g = Nat.min (gone rt) (length (hist g));
  ri_left : forall j, (j < oldest g)%nat -> all_counted ths j;
  ri_some : forall j, (j < published g)%nat -> (0 < count_if (counted j) ths)%nat;
  ri_counted : forall t th j, ths !! t = Some th -> (j < length (hist g))%nat -> counted j th = true -> (j < published g)%nat;
  ri_take : forall t th, ths !! t = Some th -> take_ok g ths th
}.

Record rdco_inv (g : ghost) (s : atomic_system (A:=A)) : Prop := RdcoInv {
  bi_size : group_size s.1 = Z.of_nat n /\ length s.2 = n;
  bi_mem : mem_inv g s.1 s.2;
  bi_round : round_inv g s.2;
  bi_first : oldest g = 0%nat -> hist g !! 0%nat = Some (first s.1);
  bi_handles : forall j h, (oldest g <= j)%nat -> hist g !! j = Some h ->
    exists x, handles s.1 !! h = Some x /\ handle_ok g s.2 j x;
  bi_threads : forall t th, s.2 !! t = Some th -> thread_ok g (handles s.1) t th
}.

(** ** Frames *)

(** What a thread knows stays true when the memory changes elsewhere. *)
Lemma thread_frame g m m' t th :
  (forall a, a ∈ in_hand th -> m' !! a = m !! a) -> (forall a, is_Some (m !! a) -> is_Some (m' !! a)) ->
  thread_ok g m t th -> thread_ok g m' t th.
Proof.
  intros Hm Hd [Hl H]. split; [done|]. unfold in_hand in Hm.
  assert (forall p, pc th = p -> match p with AtClaim | AtFill => new_ok m (newitem th) -> new_ok m' (newitem th) | _ => True end) as Hnew.
  { intros p Hp. destruct p; try done; rewrite Hp in Hm; intros [->|(y & Hy & Ha)]; [by left| |by left|];
      (destruct (Z.eqb_spec (newitem th) NO_HANDLE) as [|Hne]; [by left|]; right; exists y; rewrite Hm by (by left); done). }
  specialize (Hnew _ eq_refl). destruct (pc th); try done; destruct H as [Hh H]; (split; [done|]); try done.
  - destruct H as (? & ? & ?). auto.
  - destruct H as (? & ? & ?). auto.
  - destruct H as (? & ? & H). split_and!; try done. eapply handles_linked_frame; [|exact H]. intros a Ha. apply Hm.
    destruct n as [|k]; [done|]. cbn. by right.
  - destruct H as (? & ? & H). split_and!; try done. eapply handles_linked_frame; [|exact H]. intros a Ha. apply Hm.
    destruct n as [|k]; [done|]. cbn. by right.
  - destruct H as (? & ? & ?). auto.
  - destruct H as (? & ? & ? & ? & ?). split_and!; auto.
Qed.

(** More rounds, more contributions. *)
Record extends (g g' : ghost) : Prop := Extends {
  ex_claimed : (claimed g <= claimed g')%nat;
  ex_filled : (filled g <= filled g')%nat;
  ex_published : (published g <= published g')%nat;
  ex_oldest : (oldest g <= oldest g')%nat;
  ex_hist : hist g `prefix_of` hist g';
  ex_broken : broken g = true -> broken g' = true /\ hist g' = hist g /\ length (orders g') = length (orders g);
  ex_orders : forall j order, orders g !! j = Some order -> exists order', orders g' !! j = Some order' /\
    match order, order' with
    | None, None => True
    | Some (_ :: _), Some (_ :: _) => True
    | _, _ => False
    end;
  ex_taken : forall j, (j < oldest g)%nat -> orders g' !! j = orders g !! j
}.

Lemma ptr_extends g g' k v : extends g g' -> ptr_ok g k v -> ptr_ok g' k v.
Proof.
  intros HX [H|(Hb & Hk & ->)]; [left; by eapply prefix_lookup_Some, ex_hist|].
  destruct (ex_broken _ _ HX Hb) as (Hb' & Hh & _). right. by rewrite Hh.
Qed.

Lemma out_other t j order order' : (t <> root \/ order' = order) ->
  match order, order' with None, None => True | Some (_ :: _), Some (_ :: _) => True | _, _ => False end ->
  out t j order' = out t j order.
Proof.
  intros [Ht| ->] H; [|done]. unfold out, content. destruct order as [[|a l]|], order' as [[|a' l']|]; try done.
  by rewrite (proj2 (Nat.eqb_neq t root) Ht).
Qed.

Lemma log_extends g g' t l : extends g g' -> (t = root -> (Nat.min (length l) (length (orders g)) <= oldest g)%nat) -> log_ok g t l -> log_ok g' t l.
Proof.
  intros HX Ht H j e He. specialize (H j e He). pose proof (lookup_lt_Some _ _ _ He) as Hj.
  destruct (orders g !! j) as [order|] eqn:Ho.
  - destruct (ex_orders _ _ HX j order Ho) as (order' & Ho' & Hm). rewrite Ho'. rewrite H. symmetry.
    apply out_other; [|by destruct order as [[|]|], order' as [[|]|]].
    destruct (decide (t = root)) as [->|]; [right|by left]. assert (orders g' !! j = orders g !! j) as E.
    { apply (ex_taken _ _ HX). specialize (Ht eq_refl). apply lookup_lt_Some in Ho. lia. } congruence.
  - destruct H as [Hb ->]. destruct (ex_broken _ _ HX Hb) as (Hb' & _ & Hlen).
    assert (orders g' !! j = None) as ->; [|done]. apply lookup_ge_None in Ho. apply lookup_ge_None. lia.
Qed.

Lemma agrees_extends g g' th : extends g g' -> agrees g th -> agrees g' th.
Proof.
  intros HX [Hg H]. split; [done|]. destruct (orders g !! calls th) as [order|] eqn:Ho; [|done].
  destruct (ex_orders _ _ HX _ _ Ho) as (order' & -> & Hm). by destruct order as [[|]|], order' as [[|]|].
Qed.

Lemma key_extends g g' th : extends g g' -> key_next g th -> key_next g' th.
Proof. intros HX. by apply ptr_extends. Qed.

(** What a thread knows stays true as rounds go on, unless it waits for a round that is
    published or is the one that changes its state. *)
Lemma thread_extends g g' m t th : extends g g' -> (t = root -> (Nat.min (gone th) (length (orders g)) <= oldest g)%nat) ->
  (filling th = true -> claimed g' = claimed g /\ filled g' = filled g) ->
  (publishing th = true -> filled g' = filled g /\ published g' = published g) ->
  (pc th = Asleep -> (calls th < published g')%nat -> False) ->
  thread_ok g m t th -> thread_ok g' m t th.
Proof.
  intros HX Ht Hf Hp Ha [Hl H].
  assert ((calls th <= gone th)%nat /\ (pc th = AtPush \/ pc th = AtPushCas -> (calls th < gone th)%nat)) as [Hg Hg2].
  { unfold gone. destruct (pc th); split; try lia; by intros [|]. }
  split; [eapply log_extends; [exact HX| |exact Hl]; intros E; specialize (Ht E); unfold calls in *; lia|].
  pose proof (ex_claimed _ _ HX). pose proof (ex_published _ _ HX). pose proof (ex_oldest _ _ HX).
  pose proof (fun k v => ptr_extends g g' k v HX) as Hptr.
  pose proof (agrees_extends _ _ th HX) as Hag. pose proof (key_extends _ _ th HX) as Hkey.
  unfold filling in Hf. unfold publishing in Hp. destruct (pc th) eqn:Hpc;
    try (destruct H as [Hh H]; (split; [by eapply prefix_lookup_Some, ex_hist|])); try done.
  - destruct H as [|]; [by left|right; auto].
  - destruct H as (? & ? & ? & ?). split_and!; try done; lia.
  - destruct H as (? & ? & ? & ?). split_and!; try done; lia.
  - destruct H as (? & ? & -> & ? & ?). destruct (Hf eq_refl) as [-> ->]. done.
  - destruct H as (? & -> & ? & ? & ? & ?). destruct (Hp eq_refl) as [-> ->]. split_and!; auto.
  - destruct H as (? & ? & ?). split_and!; try done; lia.
  - destruct H as (? & ? & ? & ?). split_and!; try done; [lia|]. specialize (Ha eq_refl). lia.
  - destruct H as (? & ? & ?). split_and!; try done; lia.
  - destruct H as (? & ? & ?). split_and!; try done; lia.
  - destruct H as (? & ? & ?). split_and!; try done; [lia|auto].
  - destruct H as (? & ? & ? & ?). split_and!; auto. lia.
  - destruct H as (? & ? & ? & ? & ?). split_and!; auto. lia.
  - destruct H as (? & ? & ? & ? & ?). split_and!; auto. lia.
  - destruct H as (? & ? & ? & ? & ?). split_and!; auto. lia.
  - destruct H as (? & ? & ? & ? & ?). split_and!; auto. lia.
  - destruct H as (? & ? & ? & ? & ?). split_and!; auto. lia.
  - destruct H as (? & ? & ? & order & Ho & ?). split_and!; auto; [lia|]. exists order. split; [|done].
    rewrite (ex_taken _ _ HX); [done|]. assert (Nat.min (gone th) (length (orders g)) <= oldest g)%nat by auto.
    assert (calls th < gone th)%nat by auto. apply lookup_lt_Some in Ho. lia.
  - destruct H as (? & ? & ? & order & Ho & ?). split_and!; auto; [lia|]. exists order. split; [|done].
    rewrite (ex_taken _ _ HX); [done|]. assert (Nat.min (gone th) (length (orders g)) <= oldest g)%nat by auto.
    assert (calls th < gone th)%nat by auto. apply lookup_lt_Some in Ho. lia.
Qed.

(** ** Steps within a round *)

Definition set_frees (l : list Z) (g : ghost) : ghost :=
  Ghost (claimed g) (filled g) (published g) (hist g) (broken g) (orders g) (oldest g) l.
Lemma set_frees_id g : set_frees (frees g) g = g.
Proof. by destruct g. Qed.

(** The thread is as far in the rounds as before. *)
Definition same_stage (g : ghost) (th th' : thread) : Prop :=
  (forall j, (j < length (hist g))%nat -> counted j th' = counted j th /\ contributed j th' = contributed j th) /\
  filling th' = filling th /\ publishing th' = publishing th /\
  Nat.min (gone th') (length (hist g)) = Nat.min (gone th) (length (hist g)).
Lemma same_stage_refl g th : same_stage g th th.
Proof. by split_and!. Qed.

Lemma count_if_same {B} (p : B -> bool) (l l' : list B) : Forall2 (fun a b => p b = p a) l l' -> count_if p l' = count_if p l.
Proof. induction 1 as [|a b l l' H _ IH]; [done|]. by rewrite !count_if_cons, H, IH. Qed.
Lemma count_stage g (p : thread -> bool) ths ths' :
  (forall a b, same_stage g a b -> p b = p a) -> Forall2 (same_stage g) ths ths' -> count_if p ths' = count_if p ths.
Proof. intros Hp H. apply count_if_same. by eapply Forall2_impl. Qed.
Lemma count_counted g j ths ths' : Forall2 (same_stage g) ths ths' -> (j < length (hist g))%nat ->
  count_if (counted j) ths' = count_if (counted j) ths.
Proof. intros H Hj. eapply count_stage; [|exact H]. intros a b Hs. by apply Hs. Qed.

Lemma all_counted_same g j ths ths' : Forall2 (same_stage g) ths ths' -> (j < length (hist g))%nat ->
  all_counted ths' j <-> all_counted ths j.
Proof.
  intros H Hj. unfold all_counted. rewrite <- !count_if_all, (Forall2_length _ _ _ H), (count_counted g j _ _ H Hj). done.
Qed.

Lemma take_same g ths ths' th : Forall2 (same_stage g) ths ths' -> take_ok g ths th -> take_ok g ths' th.
Proof.
  intros H. unfold take_ok. destruct (pc th); try done; intros [Hk Ht]; (split; [done|]); by rewrite (all_counted_same g _ _ _ H Hk).
Qed.

Lemma round_same g l ths ths' : Forall2 (same_stage g) ths ths' -> round_inv g ths ->
  (forall t th', ths' !! t = Some th' -> take_ok g ths th') -> round_inv (set_frees l g) ths'.
Proof.
  intros H2 [H1 H3 H4 H5 H6 H7 H8 Hsome Hcnt H9] Ht. split; cbn [claimed filled published hist broken orders oldest set_frees].
  - done.
  - rewrite <- H3. eapply count_stage; [|exact H2]. by intros a b (_ & ? & _).
  - rewrite <- H4. eapply count_stage; [|exact H2]. by intros a b (_ & _ & ? & _).
  - done.
  - intros j k Hj. destruct (H6 j k Hj) as (? & ? & Hin). assert (j < length (hist g))%nat as Hjl.
    { apply lookup_lt_Some in Hj. destruct H5 as [H5 ->]. destruct (broken g); lia. }
    split_and!; [done|done|]. intros t. rewrite Hin. split; intros (x & Hx & Hc).
    + destruct (Forall2_lookup_l _ _ _ _ _ H2 Hx) as (y & Hy & Hs & _). exists y. split; [done|]. by rewrite (proj2 (Hs j Hjl)).
    + destruct (Forall2_lookup_r _ _ _ _ _ H2 Hx) as (y & Hy & Hs & _). exists y. split; [done|]. by rewrite <- (proj2 (Hs j Hjl)).
  - destruct H7 as (rt & Hrt & ->). destruct (Forall2_lookup_l _ _ _ _ _ H2 Hrt) as (y & Hy & _ & _ & _ & Hs). by exists y.
  - intros j Hj. rewrite (all_counted_same g); [auto|done|]. destruct H7 as (rt & _ & E). lia.
  - intros j Hj. rewrite (count_counted g j ths ths' H2); [auto|]. destruct H5 as [_ ->]. destruct (broken g); lia.
  - intros t th j Hth Hj Hc. destruct (Forall2_lookup_r _ _ _ _ _ H2 Hth) as (y & Hy & Hs & _).
    rewrite (proj1 (Hs j Hj)) in Hc. by eapply Hcnt.
  - intros t th Hth. apply (take_same g ths); [done|]. by eapply Ht.
Qed.

Lemma handle_same g l ths ths' j x : Forall2 (same_stage g) ths ths' -> (j < length (hist g))%nat ->
  handle_ok g ths j x -> handle_ok (set_frees l g) ths' j x.
Proof.
  intros H Hj [Ha Ho]. split; [|exact Ho]. rewrite Ha. cbn [published claimed set_frees]. by rewrite (count_counted g j _ _ H Hj).
Qed.

Lemma same_stage_insert g ths t th th' : ths !! t = Some th -> same_stage g th th' -> Forall2 (same_stage g) ths (<[t := th']> ths).
Proof.
  intros Ht Hs. apply Forall2_same_length_lookup. rewrite length_insert. split; [done|]. intros u x y Hx Hy.
  destruct (decide (u = t)) as [->|].
  - rewrite list_lookup_insert_eq in Hy by (by eapply lookup_lt_Some). congruence.
  - rewrite list_lookup_insert_ne in Hy by done. assert (x = y) as -> by congruence. apply same_stage_refl.
Qed.

(** The handles of the rounds, and those of other threads, are not in a thread's hand. *)
Lemma hand_apart g q ths t th u x a : mem_inv g q ths -> ths !! t = Some th -> ths !! u = Some x -> u <> t ->
  a ∈ in_hand x -> a ∉ in_hand th.
Proof.
  intros HM Ht Hu Hne Hx Ha. pose proof (mi_nodup _ _ _ HM) as Hn. unfold owned in Hn. rewrite app_assoc in Hn.
  apply NoDup_app in Hn as (_ & _ & Hn). by eapply (bind_apart in_hand ths t u th x a).
Qed.
Lemma hist_apart g q ths t th a : mem_inv g q ths -> ths !! t = Some th -> a ∈ drop (oldest g) (hist g) -> a ∉ in_hand th.
Proof.
  intros HM Ht Ha Hx. pose proof (mi_nodup _ _ _ HM) as Hn. unfold owned in Hn. apply NoDup_app in Hn as (_ & Hn & _).
  apply (Hn a Ha). apply elem_of_app. right. by eapply in_bind.
Qed.
Lemma frees_apart g q ths t th a : mem_inv g q ths -> ths !! t = Some th -> a ∈ frees g -> a ∉ in_hand th.
Proof.
  intros HM Ht Ha Hx. pose proof (mi_nodup _ _ _ HM) as Hn. unfold owned in Hn. apply NoDup_app in Hn as (_ & _ & Hn).
  apply NoDup_app in Hn as (_ & Hn & _). apply (Hn a Ha). by eapply in_bind.
Qed.
Lemma hist_free_apart g q ths a : mem_inv g q ths -> a ∈ drop (oldest g) (hist g) -> a ∉ frees g.
Proof.
  intros HM Ha Hx. pose proof (mi_nodup _ _ _ HM) as Hn. unfold owned in Hn. apply NoDup_app in Hn as (_ & Hn & _).
  apply (Hn a Ha). apply elem_of_app. by left.
Qed.
(** A thread moves, and changes no memory but its own and the list of free handles. *)
Lemma reduce_inv_move g l q q' ths t th th' :
  rdco_inv g (q, ths) -> ths !! t = Some th -> same_stage g th th' ->
  group_size q' = group_size q -> first q' = first q ->
  mem_inv (set_frees l g) q' (<[t := th']> ths) ->
  (forall a, a ∈ owned g ths -> a ∉ frees g -> a ∉ in_hand th -> handles q' !! a = handles q !! a) ->
  (forall a, is_Some (handles q !! a) -> is_Some (handles q' !! a)) ->
  thread_ok g (handles q') t th' -> take_ok g ths th' ->
  rdco_inv (set_frees l g) (q', <[t := th']> ths).
Proof.
  intros [[Hsz Hn] HM HR Hf Hh Ht] Hth Hs Hsize Hfirst HM' Hm Hd Hok Htake. cbn [fst snd] in *.
  pose proof (same_stage_insert g ths t th th' Hth Hs) as H2.
  split; cbn [fst snd]; [by rewrite length_insert, Hsize|done| | | |].
  - apply (round_same g l ths); [done|done|]. intros u x Hu. destruct (decide (u = t)) as [->|Hne].
    + rewrite list_lookup_insert_eq in Hu by (by eapply lookup_lt_Some). by injection Hu as <-.
    + rewrite list_lookup_insert_ne in Hu by done. exact (ri_take _ _ HR u x Hu).
  - rewrite Hfirst. exact Hf.
  - intros j h Hj Hjh. destruct (Hh j h Hj Hjh) as (x & Hx & Hx2). exists x. split; [|by apply (handle_same g l ths); [done|by eapply lookup_lt_Some|]].
    pose proof (elem_of_dropped _ _ _ _ Hj Hjh) as Hin. rewrite Hm; [done|..].
    + apply elem_of_app. by left.
    + exact (hist_free_apart g q ths h HM Hin).
    + exact (hist_apart g q ths t th h HM Hth Hin).
  - intros u x Hu. change (thread_ok g (handles q') u x). destruct (decide (u = t)) as [->|Hne].
    + rewrite list_lookup_insert_eq in Hu by (by eapply lookup_lt_Some). by injection Hu as <-.
    + rewrite list_lookup_insert_ne in Hu by done. eapply thread_frame; [|exact Hd|by apply Ht]. intros a Ha. apply Hm.
      * unfold owned. rewrite !elem_of_app. right. right. by eapply in_bind.
      * intros Hx. exact (frees_apart g q ths u x a HM Hu Hx Ha).
      * exact (hand_apart g q ths t th u x a HM Hth Hu Hne Ha).
Qed.

(** The owners of the handles change, the handles stay. *)
Lemma mem_perm_hist g g' q q' ths ths' : mem_inv g q ths ->
  owned g' ths' ≡ₚ owned g ths -> Forall (fun a => 8 < a) (hist g') -> brk q' = brk q ->
  (forall a, is_Some (handles q' !! a) <-> is_Some (handles q !! a)) -> chain (handles q') (free q') (frees g') ->
  mem_inv g' q' ths'.
Proof.
  intros [Hc Hn Ho [Hb1 Hb2] Hh] Hp Hhist Hbrk Hd Hchain. split.
  - done.
  - by rewrite Hp.
  - rewrite Hp. eapply Forall_impl; [exact Ho|]. intros a. apply Hd.
  - rewrite Hbrk. split; [done|]. intros a Ha. by apply Hb2, Hd.
  - done.
Qed.
Lemma mem_perm g g' q q' ths ths' : mem_inv g q ths ->
  owned g' ths' ≡ₚ owned g ths -> hist g' = hist g -> brk q' = brk q ->
  (forall a, is_Some (handles q' !! a) <-> is_Some (handles q !! a)) -> chain (handles q') (free q') (frees g') ->
  mem_inv g' q' ths'.
Proof. intros HM Hp Hhist. apply (mem_perm_hist g g' q q' ths ths'); [done|done|]. rewrite Hhist. exact (mi_hist _ _ _ HM). Qed.

Lemma owned_insert g l ths t th th' : ths !! t = Some th ->
  l ++ in_hand th' ≡ₚ frees g ++ in_hand th ->
  owned (set_frees l g) (<[t := th']> ths) ≡ₚ owned g ths.
Proof.
  intros Ht Hl. unfold owned. cbn [oldest hist frees set_frees]. apply Permutation_app_head.
  apply (Permutation_app_inv_r (in_hand th)). rewrite <- app_assoc, (bind_insert in_hand ths t th th' Ht).
  rewrite (Permutation_app_comm (ths ≫= in_hand)), app_assoc, Hl, <- !app_assoc. apply Permutation_app_head.
  apply Permutation_app_comm.
Qed.

(** Only the registers of a thread change. *)
Lemma inv_local g q ths t th th' :
  rdco_inv g (q, ths) -> ths !! t = Some th -> same_stage g th th' -> in_hand th' = in_hand th ->
  thread_ok g (handles q) t th' -> take_ok g ths th' -> rdco_inv g (q, <[t := th']> ths).
Proof.
  intros HI Ht Hs Hi Hok Htake. rewrite <- (set_frees_id g). apply (reduce_inv_move g _ q q ths t th th'); try done.
  apply (mem_perm g _ q q ths); try done.
  - exact (bi_mem _ _ HI).
  - apply owned_insert with th; [done|]. by rewrite Hi.
  - exact (mi_chain _ _ _ (bi_mem _ _ HI)).
Qed.

(** A thread changes a handle of its own. *)
Lemma inv_own g q ths t th th' a x y :
  rdco_inv g (q, ths) -> ths !! t = Some th -> same_stage g th th' -> in_hand th' = in_hand th ->
  a ∈ in_hand th -> handles q !! a = Some x ->
  thread_ok g (<[a := y]> (handles q)) t th' -> take_ok g ths th' -> rdco_inv g (set_handle a y q, <[t := th']> ths).
Proof.
  intros HI Ht Hs Hi Ha Hx Hok Htake. pose proof (bi_mem _ _ HI) as HM. cbn [fst snd] in HM.
  assert (forall b, is_Some (handles (set_handle a y q) !! b) <-> is_Some (handles q !! b)) as Hd.
  { intros b. change (handles (set_handle a y q)) with (<[a := y]> (handles q)). destruct (decide (b = a)) as [->|].
    - rewrite lookup_insert_eq, Hx. split; by eexists.
    - by rewrite lookup_insert_ne. }
  rewrite <- (set_frees_id g). apply (reduce_inv_move g _ q _ ths t th th'); try done.
  - apply (mem_perm g _ q _ ths); try done.
    + apply owned_insert with th; [done|]. by rewrite Hi.
    + apply chain_insert; [|exact (mi_chain _ _ _ HM)]. intros Hf. by eapply (frees_apart g q ths t th a).
  - intros b _ _ Hb. apply lookup_insert_ne. by intros ->.
  - intros b. apply Hd.
Qed.

(** ** One step after the other *)

(** The step is defined, and what follows is in order. *)
Definition fine (ths : list thread) (t : nat) (e : effect A thread) : Prop :=
  match e with
  | Moves q' th' w => forall ths', atomic_wakes w (<[t := th']> ths) ths' -> exists g', rdco_inv g' (q', ths')
  | Blocked => True
  | Undefined => False
  end.
Lemma fine_quiet g ths t q' th' : rdco_inv g (q', <[t := th']> ths) -> fine ths t (Moves q' th' NoWake).
Proof. intros H ths' Hw. inversion Hw; subst. by exists g. Qed.

Lemma with_handle_eq (q : tmpi_RDCQueue A) h x (k : tmpi_RDCHandle A -> effect A thread) : handles q !! h = Some x -> with_handle q h k = k x.
Proof. intros H. unfold with_handle. by rewrite H. Qed.

Ltac same_place := by split; [intros j _; split; reflexivity|split_and!; reflexivity].

(** The handle of a round that is not over. *)
Lemma cur_handle g q ths t th : rdco_inv g (q, ths) -> ths !! t = Some th -> hist g !! calls th = Some (curitem th) ->
  counted (calls th) th = false \/ t = root /\ gone th = calls th ->
  (oldest g <= calls th)%nat /\ exists x, handles q !! curitem th = Some x /\ handle_ok g ths (calls th) x.
Proof.
  intros [_ _ HR _ Hh _] Ht Hc Hn. cbn [fst snd] in *. assert (oldest g <= calls th)%nat as Ho; [|split; [done|by apply Hh]].
  destruct (le_lt_dec (oldest g) (calls th)) as [|Hlt]; [done|]. destruct Hn as [Hn|[-> Hg]].
  - pose proof (proj1 (Forall_lookup _ _) (ri_left _ _ HR _ Hlt) t th Ht) as H. cbn beta in H. congruence.
  - destruct (ri_gone _ _ HR) as (rt & Hrt & E). assert (rt = th) as -> by congruence. lia.
Qed.

Lemma thread_at g q ths t th : rdco_inv g (q, ths) -> ths !! t = Some th -> thread_ok g (handles q) t th.
Proof. intros HI. apply (bi_threads _ _ HI). Qed.

Lemma hist_addr g q ths k c : mem_inv g q ths -> hist g !! k = Some c -> 8 < c.
Proof. intros HM Hc. exact (proj1 (Forall_lookup _ _) (mi_hist _ _ _ HM) k c Hc). Qed.

Lemma filled_hist g ths : round_inv g ths -> (length (orders g) <= length (hist g))%nat /\ (broken g = true -> length (orders g) = length (hist g)).
Proof.
  clear two root_in same_count. intros HR. destruct (ri_length _ _ HR) as [-> ->]. destruct (broken g); split; intros; try lia; done.
Qed.

Lemma counted_outside j th : pc th = Outside -> counted j th = (j <? calls th)%nat /\ contributed j th = (j <? calls th)%nat.
Proof. intros H. unfold counted, contributed. by rewrite H, !andb_false_r, !orb_false_r. Qed.

Lemma log_broken g t l : log_ok g t l -> broken g = true -> (length (orders g) <= length l)%nat -> log_ok g t (l ++ [(-1, None)]).
Proof.
  intros Hl Hb Hlen j e He. destruct (decide (j = length l)) as [->|Hne].
  - rewrite lookup_app_r, Nat.sub_diag in He by lia. injection He as <-.
    by assert (orders g !! length l = None) as -> by (apply lookup_ge_None; lia).
  - pose proof (lookup_lt_Some _ _ _ He) as Hj. rewrite length_app in Hj. cbn in Hj. rewrite lookup_app_l in He by lia. by apply Hl.
Qed.

Lemma call_ok g q ths t th send : rdco_inv g (q, ths) -> ths !! t = Some th -> pc th = Outside ->
  send = sends t (calls th) -> fine ths t (rdco_call send q th).
Proof.
  intros HI Ht Hpc ->. pose proof (thread_at _ _ _ _ _ HI Ht) as [Hl Hk]. rewrite Hpc in Hk.
  pose proof HI as [[Hsz Hn] HM HR Hf _ _]. cbn [fst snd] in *.
  unfold rdco_call. rewrite (proj2 (Z.ltb_ge _ _)) by lia. cbv zeta.
  set (c := if key th =? 0 then first q else key th).
  assert (hist g !! calls th = Some c /\ c <> NO_HANDLE \/
    broken g = true /\ (length (hist g) <= calls th)%nat /\ c = NO_HANDLE /\ key th = NO_HANDLE) as [[Hc Hne]|(Hb & Hlen & -> & Hkey)].
  { unfold c. destruct Hk as [[-> Hk]|[Hk|(Hb & Hlen & ->)]].
    - left. cbn. assert (oldest g = 0%nat) as Ho.
      { destruct (oldest g) eqn:E; [done|]. exfalso.
        pose proof (proj1 (Forall_lookup _ _) (ri_left _ _ HR 0%nat ltac:(lia)) t th Ht) as H. cbn beta in H.
        by rewrite (proj1 (counted_outside _ _ Hpc)), Hk in H. }
      specialize (Hf Ho). rewrite Hk. split; [done|]. pose proof (hist_addr _ _ _ _ _ HM Hf). unfold NO_HANDLE. lia.
    - left. pose proof (hist_addr _ _ _ _ _ HM Hk). rewrite (proj2 (Z.eqb_neq _ _)) by lia. split; [done|]. unfold NO_HANDLE. lia.
    - right. by rewrite (proj2 (Z.eqb_neq NO_HANDLE 0)). }
  - rewrite (proj2 (Z.eqb_neq _ _)) by done. eapply fine_quiet, inv_local; try done.
    + split; [intros j _; split; unfold counted, contributed; rewrite Hpc; reflexivity|]. unfold filling, publishing, gone. by rewrite Hpc.
    + unfold in_hand. by rewrite ?Hpc.
  - rewrite Z.eqb_refl. set (th' := upd log _ th). assert (pc th' = Outside) as Hpc' by done.
    assert (calls th' = S (calls th)) as Hcalls by (unfold th', calls; cbn; rewrite length_app; cbn; lia).
    eapply fine_quiet, inv_local; try done.
    + split; [|unfold filling, publishing, gone; rewrite Hpc, Hpc'; split_and!; (done || lia)].
      intros j Hj. destruct (counted_outside j _ Hpc) as [-> ->], (counted_outside j _ Hpc') as [-> ->].
      by rewrite !(proj2 (Nat.ltb_lt _ _)) by lia.
    + split.
      * apply log_broken; [done..|]. pose proof (filled_hist _ _ HR) as [H _]. unfold calls in Hlen. lia.
      * rewrite Hpc'. right. right. rewrite Hcalls. split_and!; [done|lia|exact Hkey].
    + unfold take_ok. by rewrite Hpc'.
Qed.

(** A thread goes to another place, the queue stays. *)
Lemma stay g q ths t th th' : rdco_inv g (q, ths) -> ths !! t = Some th ->
  same_stage g th th' -> in_hand th' = in_hand th -> thread_ok g (handles q) t th' -> take_ok g ths th' ->
  fine ths t (Moves q th' NoWake).
Proof. intros. by eapply fine_quiet, inv_local. Qed.

Ltac stays := eapply stay; [done|done|same_place|done| |done].
Ltac place_of th Hpc := destruct th as [p ky c nw lf mi cn re go lg]; cbn in Hpc; subst p.

Lemma avail_claimed g ths j x : round_inv g ths -> handle_ok g ths j x ->
  (avail x = -1 -> (claimed g <= j)%nat) /\ (avail x <> -1 -> (j < claimed g)%nat) /\
  (avail x = 0 -> (published g <= j)%nat \/ count_if (counted j) ths = O).
Proof.
  intros HR [Ha _]. pose proof (ri_stages _ _ HR). destruct (Nat.ltb_spec j (published g)); [lia|].
  destruct (Nat.ltb_spec j (claimed g)); lia.
Qed.

Lemma first_ok g q ths t th nomem send : rdco_inv g (q, ths) -> ths !! t = Some th -> pc th = AtFirst ->
  fine ths t (rdco_atomic o (t =? root)%nat nomem send q th).
Proof.
  intros HI Ht Hpc. pose proof (thread_at _ _ _ _ _ HI Ht) as Hok. place_of th Hpc. destruct Hok as [Hl [Hh (Hf & Hm)]].
  destruct (cur_handle _ _ _ _ _ HI Ht Hh) as (Ho & x & Hx & Hxok); [left; unfold counted; cbn [pc]; by rewrite Nat.ltb_irrefl, andb_false_r|].
  cbn [rdco_atomic rdco_body pc curitem] in *. rewrite (with_handle_eq _ _ _ _ Hx). pose proof (avail_claimed _ _ _ _ (bi_round _ _ HI) Hxok) as (_ & Ha & _).
  destruct (Z.eqb_spec (avail x) (-1)); stays; (split; [exact Hl|]); (split; [exact Hh|]); split_and!; auto.
Qed.

Lemma pop_ok g q ths t th nomem : rdco_inv g (q, ths) -> ths !! t = Some th -> pc th = AtPop ->
  fine ths t (rdch_alloc_run nomem q th).
Proof.
  intros HI Ht Hpc. pose proof (thread_at _ _ _ _ _ HI Ht) as Hok. place_of th Hpc. destruct Hok as [Hl [Hh (Hf & Hm)]].
  cbn [rdch_alloc_run pc]. pose proof (mi_chain _ _ _ (bi_mem _ _ HI)) as Hc. cbn [fst snd] in Hc.
  destruct (Z.eqb_spec (free q) 0) as [E|E]; cbn [negb]; stays; (split; [exact Hl|]); (split; [exact Hh|]); split_and!; auto.
  destruct (frees g) as [|a l]; [done|]. destruct Hc as (-> & x & Hx & _). by exists x.
Qed.

Lemma next_ok g q ths t th nomem : rdco_inv g (q, ths) -> ths !! t = Some th -> pc th = AtNext ->
  fine ths t (rdch_alloc_run nomem q th).
Proof.
  intros HI Ht Hpc. pose proof (thread_at _ _ _ _ _ HI Ht) as Hok. place_of th Hpc. destruct Hok as [Hl [Hh (Hf & Hm & [x Hx])]].
  cbn [rdch_alloc_run pc newitem] in *. rewrite (with_handle_eq _ _ _ _ Hx). stays.
  split; [exact Hl|]. split; [exact Hh|]. split_and!; [done|done|by exists x].
Qed.

Lemma in_frees g q ths a : mem_inv g q ths -> a ∈ owned g ths -> exists x, handles q !! a = Some x /\ 8 < a < brk q.
Proof.
  intros HM Ha. pose proof (proj1 (Forall_forall _ _) (mi_owned _ _ _ HM) a Ha) as [x Hx]. exists x. split; [done|].
  apply (mi_brk _ _ _ HM). by exists x.
Qed.

Lemma cas_ok g q ths t th nomem : rdco_inv g (q, ths) -> ths !! t = Some th -> pc th = AtCas -> ~ atomic_stale (q, ths) t ->
  fine ths t (rdch_alloc_run nomem q th).
Proof.
  intros HI Ht Hpc Hstale. pose proof (thread_at _ _ _ _ _ HI Ht) as Hok. pose proof Hpc as Hpc0. pose proof Ht as Ht0.
  place_of th Hpc. destruct Hok as [Hl [Hh (Hf & Hm & [x Hx])]]. pose proof (bi_mem _ _ HI) as HM. cbn [fst snd] in HM.
  cbn [rdch_alloc_run pc newitem localfree] in *.
  destruct (Z.eqb_spec (free q) nw) as [E|E]; [|stays; by split].
  assert (next x = lf) as Hnext.
  { destruct (decide (next x = lf)); [done|]. exfalso. apply Hstale. eexists _, x. by split_and!. }
  pose proof (mi_chain _ _ _ HM) as Hc. destruct (frees g) as [|a l] eqn:Hfr.
  { exfalso. cbn in Hc. pose proof (proj2 (mi_brk _ _ _ HM) nw ltac:(by exists x)). lia. }
  destruct Hc as (Ha & x' & Hx' & Hc). assert (x' = x) as -> by congruence. cbn in Hc.
  assert (8 < nw) as H8 by (pose proof (proj2 (mi_brk _ _ _ HM) nw ltac:(by exists x)); lia).
  eapply fine_quiet. apply (reduce_inv_move g l q _ ths t _ _ HI Ht); try done.
  apply (mem_perm g _ q _ ths); try done; [|cbn; by rewrite Hnext in Hc].
  eapply owned_insert; [exact Ht|]. rewrite Hfr. cbn. rewrite (proj2 (Z.eqb_neq _ _)) by (unfold NO_HANDLE; lia).
  rewrite app_nil_r, <- E, Ha. by rewrite Permutation_app_comm.
Qed.

(** ** More handles *)

Lemma chunk_last_of q (th : thread) : group_size q = Z.of_nat n -> chunk_last q th = last_of (newitem th).
Proof. intros H. unfold chunk_last, last_of. by rewrite H. Qed.

(** The memory with a new chunk. *)
Definition with_chunk (q : tmpi_RDCQueue A) : memory :=
  <[brk q := new_handle 0]> (link_handles (Z.to_nat (group_size q - 1)) (brk q + sizeof_RDCHandle) 0 ∪ handles q).

Lemma chunk_handles q a : group_size q = Z.of_nat n ->
  (a ∈ block_handles (tmpi_RDCHandle A) n (brk q) -> is_Some (with_chunk q !! a)) /\
  (a ∉ block_handles (tmpi_RDCHandle A) n (brk q) -> with_chunk q !! a = handles q !! a).
Proof.
  intros Hs. unfold with_chunk. rewrite (block_tail n _ ltac:(lia)), elem_of_cons. replace (Z.to_nat (group_size q - 1)) with (pred n) by lia.
  destruct (decide (a = brk q)) as [->|Hne]; [rewrite lookup_insert_eq; split; [by eexists|intros []; by left]|].
  rewrite lookup_insert_ne by done. split.
  - intros [|Ha]; [done|]. apply (link_handles_lookup _ _ 0) in Ha as [x Hx]. exists x. by apply lookup_union_Some_l.
  - intros Ha. destruct ((link_handles (pred n) (brk q + sizeof_RDCHandle) 0 : memory) !! a) as [x|] eqn:Hx; [|by rewrite lookup_union_r].
    exfalso. apply Ha. right. apply (link_handles_lookup (T:=tmpi_RDCHandle A) _ _ 0). by exists x.
Qed.

Lemma chunk_ok g q ths t th nomem : rdco_inv g (q, ths) -> ths !! t = Some th -> pc th = AtChunk ->
  fine ths t (rdch_alloc_run nomem q th).
Proof.
  intros HI Ht Hpc. pose proof (thread_at _ _ _ _ _ HI Ht) as Hok. place_of th Hpc. destruct Hok as [Hl [Hh (Hf & Hm)]].
  pose proof (bi_mem _ _ HI) as HM. pose proof (proj1 (bi_size _ _ HI)) as Hs. cbn [fst snd] in HM, Hs.
  cbn [rdch_alloc_run pc]. destruct nomem; [stays; by split|].
  change (<[brk q := new_handle 0]> _) with (with_chunk q).
  assert (forall a, a ∈ block_handles (tmpi_RDCHandle A) n (brk q) -> brk q <= a < brk q + Z.of_nat n * sizeof_RDCHandle) as Hblock
    by (intros a Ha; exact (elem_of_block _ _ _ Ha)).
  assert (forall a x, handles q !! a = Some x -> with_chunk q !! a = Some x) as Hold.
  { intros a x Hx. rewrite (proj2 (chunk_handles q a Hs)); [done|]. intros Ha. apply Hblock in Ha.
    pose proof (proj2 (mi_brk _ _ _ HM) a ltac:(by eexists)). lia. }
  assert (forall a, is_Some (handles q !! a) -> is_Some (with_chunk q !! a)) as Hdom by (intros a [x Hx]; exists x; auto).
  set (q' := upd brk _ _). set (th' := upd newitem _ _).
  assert (owned g (<[t := th']> ths) ≡ₚ owned g ths ++ block_handles (tmpi_RDCHandle A) n (brk q)) as Hown.
  { unfold owned. rewrite <- !app_assoc. do 2 apply Permutation_app_head.
    pose proof (bind_insert in_hand ths t _ th' Ht) as H. cbn [in_hand pc] in H. rewrite app_nil_r in H. exact H. }
  assert (forall a, a ∈ owned g ths -> exists x, handles q !! a = Some x) as Hin.
  { intros a Ha. destruct (in_frees _ _ _ _ HM Ha) as (x & Hx & _). by exists x. }
  eapply fine_quiet. apply (reduce_inv_move g (frees g) q q' ths t _ th' HI Ht); try done.
  - destruct HM as [Hc Hn Ho [Hb1 Hb2] Hhist]. split; cbn [set_frees frees hist].
    + eapply chain_frame; [|exact Hc]. intros a Ha. destruct (Hin a) as [x Hx]; [unfold owned; rewrite !elem_of_app; auto|].
      rewrite Hx. by apply Hold.
    + rewrite set_frees_id, Hown. apply NoDup_app. split_and!; [done| |apply NoDup_block].
      intros a Ha Hb. destruct (Hin a Ha) as [x Hx]. apply Hblock in Hb. pose proof (Hb2 a ltac:(by exists x)). lia.
    + rewrite set_frees_id, Hown. apply Forall_app. split.
      * eapply Forall_impl; [exact Ho|]. apply Hdom.
      * apply Forall_forall. intros a Ha. by apply (chunk_handles q a Hs).
    + change (brk q') with (brk q + group_size q * sizeof_RDCHandle). rewrite Hs. split; [unfold sizeof_RDCHandle; lia|].
      intros a Ha. destruct (decide (a ∈ block_handles (tmpi_RDCHandle A) n (brk q))) as [Hb|Hb].
      * apply Hblock in Hb. lia.
      * change (handles q' !! a) with (with_chunk q !! a) in Ha. rewrite (proj2 (chunk_handles q a Hs) Hb) in Ha.
        pose proof (Hb2 a Ha). unfold sizeof_RDCHandle. lia.
    + done.
  - intros a Ha _ _. destruct (Hin a Ha) as [x Hx]. rewrite Hx. by apply Hold.
  - split; [exact Hl|]. split; [exact Hh|]. split_and!; [done|done|]. cbn [newitem upd th'].
    change (handles q') with (with_chunk q). unfold with_chunk. replace (Z.to_nat (group_size q - 1)) with (pred n) by lia.
    change (newitem th') with (brk q).
    pose proof (link_handles_linked (T:=tmpi_RDCHandle A) (pred n) (brk q + sizeof_RDCHandle) 0 (handles q) ltac:(lia)) as H.
    eapply handles_linked_frame; [|unfold last_of; replace (brk q + (Z.of_nat n - 1) * sizeof_RDCHandle) with
      (brk q + sizeof_RDCHandle + (Z.of_nat (pred n) - 1) * sizeof_RDCHandle) by (unfold sizeof_RDCHandle; lia); exact H].
    intros a Ha. apply lookup_insert_ne. pose proof (elem_of_block _ _ _ Ha) as Ha'. cbn in Ha'. unfold sizeof_RDCHandle in Ha'. lia.
Qed.

Lemma link_ok g q ths t th nomem : rdco_inv g (q, ths) -> ths !! t = Some th -> pc th = AtLink ->
  fine ths t (rdch_alloc_run nomem q th).
Proof.
  intros HI Ht Hpc. pose proof (thread_at _ _ _ _ _ HI Ht) as Hok. place_of th Hpc. destruct Hok as [Hl [Hh (Hf & Hm & Hlink)]].
  pose proof (proj1 (bi_size _ _ HI)) as Hs. cbn [fst] in Hs.
  cbn [rdch_alloc_run pc]. rewrite (chunk_last_of _ _ Hs). cbn [newitem] in *. destruct (linked_last _ _ _ _ Hlink) as [x Hx].
  rewrite (with_handle_eq _ _ _ _ Hx). eapply fine_quiet.
  eapply (inv_own g q ths t _ _ _ x _ HI Ht); [same_place|done|exact (last_in_block (T:=tmpi_RDCHandle A) n nw ltac:(lia))|done| |done].
  split; [exact Hl|]. split; [exact Hh|]. split_and!; [done|done|]. apply linked_insert_last; [done|].
  intros a Ha. apply elem_of_block in Ha. change (sizeof_handle _) with sizeof_RDCHandle in Ha.
  unfold last_of, sizeof_RDCHandle in *. change (newitem _) with nw in Ha |- *. lia.
Qed.

Lemma linkcas_ok g q ths t th nomem : rdco_inv g (q, ths) -> ths !! t = Some th -> pc th = AtLinkCas ->
  fine ths t (rdch_alloc_run nomem q th).
Proof.
  intros HI Ht Hpc. pose proof (thread_at _ _ _ _ _ HI Ht) as Hok. place_of th Hpc. destruct Hok as [Hl [Hh (Hf & Hm & Hlink)]].
  pose proof (proj1 (bi_size _ _ HI)) as Hs. pose proof (bi_mem _ _ HI) as HM. cbn [fst snd] in Hs, HM.
  cbn [rdch_alloc_run pc]. rewrite (chunk_last_of _ _ Hs). cbn [newitem] in *. destruct (linked_last _ _ _ _ Hlink) as [x Hx].
  rewrite (with_handle_eq _ _ _ _ Hx). destruct (Z.eqb_spec (free q) (next x)) as [E|E].
  - eapply fine_quiet. apply (reduce_inv_move g (block_handles (tmpi_RDCHandle A) (pred n) (nw + sizeof_RDCHandle) ++ frees g) q _ ths t _ _ HI Ht); try done.
    assert (8 < nw) as H8.
    { destruct (in_frees g q ths nw HM) as (? & _ & ?); [|lia]. unfold owned. rewrite !elem_of_app. right. right. eapply in_bind; [exact Ht|].
      cbn [in_hand pc newitem]. rewrite (block_tail n _ ltac:(lia)). by left. }
    apply (mem_perm g _ q _ ths); try done.
    + eapply owned_insert; [exact Ht|]. cbn [in_hand pc newitem goes]. cbn [upd in_hand pc newitem].
      change (in_hand _) with (if nw =? NO_HANDLE then [] else [nw]) at 1.
      rewrite (proj2 (Z.eqb_neq _ _)) by (unfold NO_HANDLE; lia). rewrite (block_tail n nw ltac:(lia)).
      rewrite Permutation_app_comm. cbn. rewrite (Permutation_app_comm (frees g)). done.
    + cbn [free upd set_frees frees]. eapply (linked_chain (T:=tmpi_RDCHandle A)); [exact Hlink|exact Hx|].
      cbn. rewrite <- E. exact (mi_chain _ _ _ HM).
  - stays. split; [exact Hl|]. split; [exact Hh|]. by split_and!.
Qed.

(** ** The new handle *)

Lemma hand_handle g q ths t th a : mem_inv g q ths -> ths !! t = Some th -> a ∈ in_hand th ->
  exists x, handles q !! a = Some x /\ 8 < a < brk q.
Proof. intros HM Ht Ha. apply (in_frees g q ths a HM). unfold owned. rewrite !elem_of_app. right. right. by eapply in_bind. Qed.

Lemma init_ok g q ths t th nomem send : rdco_inv g (q, ths) -> ths !! t = Some th -> pc th = AtInit ->
  fine ths t (rdco_atomic o (t =? root)%nat nomem send q th).
Proof.
  intros HI Ht Hpc. pose proof (thread_at _ _ _ _ _ HI Ht) as Hok. place_of th Hpc. destruct Hok as [Hl [Hh (Hf & Hm)]].
  pose proof (bi_mem _ _ HI) as HM. cbn [fst snd] in HM. cbn [rdco_atomic rdco_body pc newitem].
  destruct (Z.eqb_spec nw NO_HANDLE) as [->|Hne].
  - stays. split; [exact Hl|]. split; [exact Hh|]. split_and!; [done|done|by left].
  - assert (nw ∈ in_hand (Thread AtInit ky c nw lf mi cn re go lg)) as Hin
      by (cbn [in_hand pc newitem]; rewrite (proj2 (Z.eqb_neq _ _)) by done; by left).
    destruct (hand_handle _ _ _ _ _ _ HM Ht Hin) as (x & Hx & _). rewrite (with_handle_eq _ _ _ _ Hx).
    eapply fine_quiet. eapply (inv_own g q ths t _ _ nw x _ HI Ht); [same_place|done|done|done| |done].
    split; [exact Hl|]. split; [exact Hh|]. split_and!; [done|done|]. right. eexists. change (newitem _) with nw.
    by rewrite lookup_insert_eq.
Qed.

(** Giving a handle of one's own back to the list of free handles. *)
Lemma store_ok g q ths t th h p : rdco_inv g (q, ths) -> ths !! t = Some th -> h ∈ in_hand th ->
  same_stage g th (goes p th) -> in_hand (goes p th) = in_hand th ->
  (forall m, thread_ok g m t (goes p th)) -> take_ok g ths (goes p th) -> fine ths t (rdch_free_store h p q th).
Proof.
  intros HI Ht Hh Hs Hi Hok Htake. pose proof (bi_mem _ _ HI) as HM. cbn [fst snd] in HM.
  destruct (hand_handle _ _ _ _ _ _ HM Ht Hh) as (x & Hx & _). unfold rdch_free_store. rewrite (with_handle_eq _ _ _ _ Hx).
  eapply fine_quiet. by eapply (inv_own g q ths t th _ h x _ HI Ht).
Qed.

Lemma free_cas_ok g q ths t th h again then_ : rdco_inv g (q, ths) -> ths !! t = Some th -> in_hand th = [h] ->
  same_stage g th (goes again th) -> in_hand (goes again th) = in_hand th ->
  (forall m, thread_ok g m t (goes again th)) -> take_ok g ths (goes again th) ->
  same_stage g th (then_ th) -> in_hand (then_ th) = [] ->
  (forall m, thread_ok g m t (then_ th)) -> take_ok g ths (then_ th) ->
  fine ths t (rdch_free_cas h again then_ q th).
Proof.
  intros HI Ht Hh Hs Hi Hok Htake Hs' Hi' Hok' Htake'. pose proof (bi_mem _ _ HI) as HM. cbn [fst snd] in HM.
  destruct (hand_handle g q ths t th h HM Ht) as (x & Hx & _); [rewrite Hh; by left|].
  unfold rdch_free_cas. rewrite (with_handle_eq _ _ _ _ Hx). destruct (Z.eqb_spec (free q) (next x)) as [E|E].
  - eapply fine_quiet. apply (reduce_inv_move g (h :: frees g) q _ ths t th _ HI Ht); try done.
    apply (mem_perm g _ q _ ths); try done.
    + eapply owned_insert; [exact Ht|]. rewrite Hh, Hi'. rewrite app_nil_r. by rewrite Permutation_app_comm.
    + cbn [free upd set_frees frees]. split; [done|]. exists x. split; [done|]. cbn. rewrite <- E. exact (mi_chain _ _ _ HM).
  - by eapply stay.
Qed.

Lemma return_ok g q ths t th nomem send : rdco_inv g (q, ths) -> ths !! t = Some th -> pc th = AtReturn \/ pc th = AtReturnCas ->
  fine ths t (rdco_atomic o (t =? root)%nat nomem send q th).
Proof.
  intros HI Ht Hpc. pose proof (thread_at _ _ _ _ _ HI Ht) as Hok.
  destruct Hpc as [Hpc|Hpc]; place_of th Hpc; destruct Hok as [Hl [Hh (Hf & Hm & Hc & Hne)]]; cbn [newitem] in Hne;
    cbn [rdco_atomic rdco_body pc newitem].
  - apply (store_ok g); try done; try same_place.
    cbn [in_hand pc newitem]. rewrite (proj2 (Z.eqb_neq _ _)) by done. by left.
  - apply (free_cas_ok g); try done; try same_place.
    cbn [in_hand pc newitem]. by rewrite (proj2 (Z.eqb_neq _ _)) by done.
Qed.

(** ** The wait for the first *)

Lemma wait_ok g q ths t th nomem send : rdco_inv g (q, ths) -> ths !! t = Some th -> pc th = AtWait \/ pc th = Woken ->
  fine ths t (rdco_atomic o (t =? root)%nat nomem send q th).
Proof.
  intros HI Ht Hpc. pose proof (thread_at _ _ _ _ _ HI Ht) as Hok.
  assert (fine ths t (with_handle q (curitem th) (fun x => Moves q (goes (if avail x =? 0 then Asleep else AtReduce) th) NoWake))) as Hfine;
    [|by destruct Hpc as [Hpc|Hpc]; unfold rdco_atomic, rdco_body; rewrite Hpc].
  assert (hist g !! calls th = Some (curitem th) /\ fresh t th /\ mine th = false /\ (calls th < claimed g)%nat) as (Hh & Hf & Hm & Hc).
  { destruct Hok as [_ Hok]. destruct Hpc as [Hpc|Hpc]; rewrite Hpc in Hok; apply Hok. }
  assert (counted (calls th) th = false) as Hcount.
  { unfold counted. rewrite Nat.ltb_irrefl. by destruct Hpc as [-> | ->]; rewrite andb_false_r. }
  destruct (cur_handle _ _ _ _ _ HI Ht Hh (or_introl Hcount)) as (Ho & x & Hx & Hxok). rewrite (with_handle_eq _ _ _ _ Hx).
  destruct Hxok as [Ha _]. pose proof (ri_stages _ _ (bi_round _ _ HI)).
  eapply stay; [done|done| | | |by destruct (_ =? _)].
  - destruct Hpc as [Hpc|Hpc]; place_of th Hpc; destruct (avail x =? 0); same_place.
  - destruct Hpc as [Hpc|Hpc]; place_of th Hpc; by destruct (avail x =? 0).
  - destruct Hok as [Hl _]. split; [exact Hl|]. destruct (Z.eqb_spec (avail x) 0) as [E|E]; (split; [exact Hh|]); split_and!; try done.
    + rewrite E in Ha. destruct (Nat.ltb_spec (calls th) (published g)) as [Hlt|]; [|done]. exfalso.
      pose proof (ri_some _ _ (bi_round _ _ HI) _ Hlt). cbn [snd] in *. lia.
    + destruct (Nat.ltb_spec (calls th) (published g)) as [Hlt|]; [exact Hlt|]. exfalso. by rewrite (proj2 (Nat.ltb_lt _ _) Hc) in Ha.
Qed.

(** ** After the reduction *)

Lemma order_at g ths k : round_inv g ths -> (k < published g)%nat -> exists order, orders g !! k = Some order.
Proof.
  intros HR Hk. pose proof (ri_stages _ _ HR). destruct (ri_length _ _ HR) as [Hlen _].
  destruct (lookup_lt_is_Some_2 (orders g) k) as [order Ho]; [lia|]. by exists order.
Qed.

Lemma key_ok g q ths t th nomem send : rdco_inv g (q, ths) -> ths !! t = Some th -> pc th = AtKey ->
  fine ths t (rdco_atomic o (t =? root)%nat nomem send q th).
Proof.
  intros HI Ht Hpc. pose proof (thread_at _ _ _ _ _ HI Ht) as Hok. place_of th Hpc. destruct Hok as [Hl [Hh (Hm & Hk & Hag)]].
  destruct (cur_handle _ _ _ _ _ HI Ht Hh) as (Ho & x & Hx & Hxok); [left; unfold counted; cbn [pc]; by rewrite Nat.ltb_irrefl, andb_false_r|].
  destruct (order_at _ _ _ (bi_round _ _ HI) Hk) as [order Hord]. destruct Hxok as [_ Hxok]. destruct (Hxok _ Hord) as (Hn & _ & _).
  cbn [rdco_atomic rdco_body pc curitem] in *. rewrite (with_handle_eq _ _ _ _ Hx). stays.
  split; [exact Hl|]. split; [exact Hh|]. split_and!; [done|done|done|]. unfold key_next. cbn in Hm. by rewrite Hm.
Qed.

(** The root looks at the number of threads counted. *)
Lemma published_hist g ths k : round_inv g ths -> (k < published g)%nat -> (k < length (hist g))%nat.
Proof. intros HR Hk. pose proof (ri_stages _ _ HR). destruct (ri_length _ _ HR) as [_ ->]. destruct (broken g); lia. Qed.

Lemma all_counted_avail g ths k x : round_inv g ths -> length ths = n -> (k < published g)%nat -> handle_ok g ths k x ->
  avail x = Z.of_nat n <-> all_counted ths k.
Proof.
  intros HR Hn Hk [Ha _]. rewrite (proj2 (Nat.ltb_lt _ _) Hk) in Ha. unfold all_counted. rewrite <- count_if_all, Ha, Hn. lia.
Qed.

Lemma root_waits g q ths t th p : rdco_inv g (q, ths) -> ths !! t = Some th ->
  pc th = AtTest \/ pc th = AtResult \/ pc th = Woken2 -> p = AtResult \/ p = Asleep2 ->
  fine ths t (with_handle q (curitem th) (fun x => Moves q (goes (if negb (avail x =? group_size q) then p else AtTake) th) NoWake)).
Proof.
  intros HI Ht Hpc Hp. pose proof (thread_at _ _ _ _ _ HI Ht) as [Hl Hok].
  assert (hist g !! calls th = Some (curitem th) /\ t = root /\ (calls th < published g)%nat /\ agrees g th /\ key_next g th /\
    (mine th = true -> ret th = 0)) as (Hh & -> & Hk & Hag & Hkey & Hm).
  { destruct Hpc as [Hpc|[Hpc|Hpc]]; rewrite Hpc in Hok; apply Hok. }
  destruct (cur_handle _ _ _ _ _ HI Ht Hh) as (Ho & x & Hx & Hxok).
  { right. split; [done|]. unfold gone. by destruct Hpc as [-> | [-> | ->]]. }
  rewrite (with_handle_eq _ _ _ _ Hx). pose proof (bi_round _ _ HI) as HR. destruct (bi_size _ _ HI) as [Hs Hn]. cbn [fst snd] in *.
  pose proof (all_counted_avail _ _ _ _ HR Hn Hk Hxok) as Hall. pose proof (published_hist _ _ _ HR Hk) as Hkh. rewrite Hs.
  eapply (stay g q ths root th); [done|done| | | |].
  - destruct Hpc as [Hpc|[Hpc|Hpc]], Hp as [-> | ->]; place_of th Hpc; destruct (avail x =? Z.of_nat n); same_place.
  - destruct Hpc as [Hpc|[Hpc|Hpc]], Hp as [-> | ->]; place_of th Hpc; by destruct (avail x =? Z.of_nat n).
  - split; [exact Hl|]. destruct (Z.eqb_spec (avail x) (Z.of_nat n)), Hp as [-> | ->]; cbn [negb]; by split_and!.
  - destruct (Z.eqb_spec (avail x) (Z.of_nat n)) as [E|E]; [split; [exact Hkh|by apply Hall]|].
    destruct Hp as [-> | ->]; [done|]. split; [exact Hkh|]. change (~ all_counted ths (calls th)). by rewrite <- Hall.
Qed.

(** The root gives the handle back. *)
Lemma log_snoc g t l order : log_ok g t l -> orders g !! length l = Some order -> log_ok g t (l ++ [out t (length l) order]).
Proof.
  intros Hl Ho j e He. destruct (decide (j = length l)) as [->|Hne].
  - rewrite lookup_app_r, Nat.sub_diag in He by lia. injection He as <-. by rewrite Ho.
  - pose proof (lookup_lt_Some _ _ _ He) as Hj. rewrite length_app in Hj. cbn in Hj. rewrite lookup_app_l in He by lia. by apply Hl.
Qed.

(** A return, of a thread that has been counted. *)
Lemma returns_ok g m t th order : log_ok g t (log th) -> orders g !! calls th = Some order -> (ret th, got th) = out t (calls th) order ->
  ptr_ok g (S (calls th)) (key th) -> thread_ok g m t (returns th).
Proof.
  intros Hl Ho E Hk. assert (calls (returns th) = S (calls th)) as Hc by (unfold calls; cbn; rewrite length_app; cbn; lia).
  split; [|right; rewrite Hc; exact Hk]. change (log (returns th)) with (log th ++ [(ret th, got th)]). rewrite E. by apply log_snoc.
Qed.

Lemma returns_stage g th : (forall j, (j < length (hist g))%nat -> counted j (returns th) = counted j th -> contributed j th = counted j th) ->
  counted (calls th) th = true -> filling th = false -> publishing th = false -> gone th = S (calls th) ->
  same_stage g th (returns th).
Proof.
  intros Hcon Hc Hf Hp Hg. assert (calls (returns th) = S (calls th)) as Hs by (unfold calls; cbn; rewrite length_app; cbn; lia).
  assert (forall j, counted j (returns th) = counted j th) as Hcount.
  { intros j. destruct (counted_outside j (returns th) eq_refl) as [-> _]. rewrite Hs. destruct (decide (j = calls th)) as [->|].
    - rewrite Hc. apply Nat.ltb_lt. lia.
    - unfold counted. rewrite (proj2 (Nat.eqb_neq j _)), andb_false_l, orb_false_r by done.
      destruct (Nat.ltb_spec j (S (calls th))), (Nat.ltb_spec j (calls th)); (done || lia). }
  split; [|split_and!; [by rewrite Hf|by rewrite Hp|]].
  2: { change (gone (returns th)) with (calls (returns th)). by rewrite Hs, Hg. }
  intros j Hj. split; [apply Hcount|]. rewrite (Hcon j Hj (Hcount j)), <- Hcount. by destruct (counted_outside j (returns th) eq_refl) as [-> ->].
Qed.

Lemma push_ok g q ths t th nomem send : rdco_inv g (q, ths) -> ths !! t = Some th -> pc th = AtPush \/ pc th = AtPushCas ->
  fine ths t (rdco_atomic o (t =? root)%nat nomem send q th).
Proof.
  intros HI Ht Hpc. pose proof (thread_at _ _ _ _ _ HI Ht) as Hok.
  destruct Hpc as [Hpc|Hpc]; place_of th Hpc; pose proof Hok as [Hl [Hh (-> & Hk & Hkey & order & Hord & Hout)]]; cbn [rdco_atomic rdco_body pc curitem].
  - apply (store_ok g); try done; try same_place. by left.
  - apply (free_cas_ok g); try done; try same_place.
    + destruct mi; [apply (returns_stage g (Thread AtPushCas nw c nw lf true cn re go lg))
        |apply (returns_stage g (Thread AtPushCas ky c nw lf false cn re go lg))]; try done;
        try (intros j Hj; unfold counted, contributed; cbn [pc]; done);
        (unfold counted; cbn [pc]; by rewrite Nat.eqb_refl, orb_true_r).
    + intros m. destruct mi; by apply returns_ok with order.
Qed.

(** ** Wake-ups *)

Lemma spurious_ok g q ths t th : rdco_inv g (q, ths) -> ths !! t = Some th -> rdco_inv g (q, <[t := wake th]> ths).
Proof.
  intros HI Ht. pose proof (thread_at _ _ _ _ _ HI Ht) as Hok.
  assert (pc th = Asleep \/ pc th = Asleep2 \/ wake th = th) as [Hpc|[Hpc| ->]] by (unfold wake; destruct (pc th); auto).
  - place_of th Hpc. destruct Hok as [Hl [Hh (Hf & Hm & Hc & _)]]. eapply inv_local; try done; same_place.
  - place_of th Hpc. eapply inv_local; try done; same_place.
  - by rewrite list_insert_id.
Qed.

Lemma wake_all_ok g q ths h : rdco_inv g (q, ths) -> rdco_inv g (q, wake_on h <$> ths).
Proof.
  assert (forall k, (k <= length ths)%nat -> rdco_inv g (q, ths) -> rdco_inv g (q, (wake_on h <$> take k ths) ++ drop k ths)) as H.
  { intros k. induction k as [|k IH]; intros Hk HI; [by rewrite take_0, drop_0|].
    specialize (IH ltac:(lia) HI). destruct (lookup_lt_is_Some_2 ths k ltac:(lia)) as [th Hth].
    rewrite (drop_S _ _ _ Hth) in IH. rewrite (take_S_r _ _ _ Hth), fmap_app, <- app_assoc. cbn.
    assert (length (wake_on h <$> take k ths) = k) as Hlen by (rewrite length_fmap, length_take; lia).
    unfold wake_on at 2. destruct (asleep_on h th) eqn:E; [|exact IH].
    pose proof (spurious_ok g q _ k th IH) as Hs. rewrite lookup_app_r in Hs by lia. rewrite Hlen, Nat.sub_diag in Hs.
    specialize (Hs eq_refl). by rewrite insert_app_r_alt, Hlen, Nat.sub_diag in Hs by lia. }
  intros HI. specialize (H (length ths) ltac:(lia) HI). by rewrite firstn_all, drop_all, app_nil_r in H.
Qed.

Lemma wakes_ok g q ths w ths' : rdco_inv g (q, ths) -> atomic_wakes w ths ths' -> rdco_inv g (q, ths').
Proof. intros HI Hw. destruct Hw; [done|by apply wake_all_ok|by apply spurious_ok|done]. Qed.
Lemma fine_moves g ths t q' th' w : rdco_inv g (q', <[t := th']> ths) -> fine ths t (Moves q' th' w).
Proof. intros H ths' Hw. exists g. by eapply wakes_ok. Qed.

(** ** Steps that take a round further *)

Lemma some_counted j ths t (th th' : thread) : ths !! t = Some th -> counted j th' = true -> (0 < count_if (counted j) (<[t := th']> ths))%nat.
Proof. intros Ht Hc. apply count_if_pos. exists t, th'. by rewrite list_lookup_insert_eq by (by eapply lookup_lt_Some). Qed.
Lemma count_same (p : thread -> bool) ths t (th th' : thread) : ths !! t = Some th -> p th' = p th ->
  count_if p (<[t := th']> ths) = count_if p ths.
Proof. intros Ht Hc. pose proof (count_if_insert p ths t th th' Ht) as H. rewrite Hc in H. lia. Qed.

Section Advance.
Context (g g' : ghost) (q q' : tmpi_RDCQueue A) (ths : list thread) (t : nat) (th th' : thread) (y : tmpi_RDCHandle A).
Notation k := (calls th).
Notation c := (curitem th).
Notation ths' := (<[t := th']> ths).
Hypothesis HI : rdco_inv g (q, ths).
Hypothesis Ht : ths !! t = Some th.
Hypothesis Hcur : hist g !! k = Some c.
Hypothesis Hold : (oldest g <= k)%nat.
Hypothesis HX : extends g g'.
Hypothesis Hsize : group_size q' = group_size q.
Hypothesis Hmem : handles q' = <[c := y]> (handles q).
(** Nothing changes but in round [k], which has not been left. *)
Hypothesis Hsame : forall j, j <> k -> (j < length (hist g))%nat ->
  orders g' !! j = orders g !! j /\ (j <? published g')%nat = (j <? published g)%nat /\
  (j <? claimed g')%nat = (j <? claimed g)%nat /\ counted j th' = counted j th /\ contributed j th' = contributed j th.

Lemma count_advance j : (j < length (hist g))%nat -> j <> k -> count_if (counted j) ths' = count_if (counted j) ths.
Proof.
  intros Hj Hne. pose proof (count_if_insert (counted j) ths t th th' Ht) as H.
  destruct (Hsame j Hne Hj) as (_ & _ & _ & E & _). rewrite E in H. lia.
Qed.

Lemma round_handle j h : (oldest g <= j)%nat -> j <> k -> hist g !! j = Some h -> h <> c.
Proof.
  intros Hj Hne Hh ->. pose proof (mi_nodup _ _ _ (bi_mem _ _ HI)) as Hn. unfold owned in Hn. apply NoDup_app in Hn as (Hn & _ & _).
  cbn [snd] in Hn. apply Hne. assert (j - oldest g = k - oldest g)%nat; [|lia]. eapply (NoDup_lookup _ _ _ c Hn); rewrite lookup_drop.
  - by replace (oldest g + (j - oldest g))%nat with j by lia.
  - by replace (oldest g + (k - oldest g))%nat with k by lia.
Qed.

Lemma cur_hist : c ∈ drop (oldest g) (hist g).
Proof. by eapply elem_of_dropped. Qed.

Lemma dom_advance a : is_Some (handles q !! a) -> is_Some (handles q' !! a).
Proof. intros H. rewrite Hmem. destruct (decide (a = c)) as [->|]; [rewrite lookup_insert_eq; by eexists|by rewrite lookup_insert_ne]. Qed.

(** The part of the invariant on handles and threads. *)
Lemma advance : mem_inv g' q' ths' -> round_inv g' ths' ->
  (oldest g' = 0%nat -> hist g' !! 0%nat = Some (first q')) ->
  ((oldest g' <= k)%nat -> handle_ok g' ths' k y) ->
  (forall j h, (length (hist g) <= j)%nat -> hist g' !! j = Some h -> exists x, handles q' !! h = Some x /\ handle_ok g' ths' j x) ->
  (forall u x, u <> t -> ths !! u = Some x ->
    (filling x = true -> claimed g' = claimed g /\ filled g' = filled g) /\
    (publishing x = true -> filled g' = filled g /\ published g' = published g) /\
    (pc x = Asleep -> (calls x < published g')%nat -> False)) ->
  thread_ok g' (handles q') t th' -> rdco_inv g' (q', ths').
Proof.
  intros HM HR Hf Hk Hnew Hoth Hok. pose proof HI as [[Hs Hn] HM0 HR0 Hf0 Hh0 Ht0]. cbn [fst snd] in *.
  split; cbn [fst snd]; [by rewrite length_insert, Hsize|done|done|done| |].
  - intros j h Hj Hh. destruct (le_lt_dec (length (hist g)) j) as [Hlen|Hlen]; [by apply Hnew|].
    assert (hist g !! j = Some h) as Hjh.
    { destruct (lookup_lt_is_Some_2 (hist g) j Hlen) as [h' Hh']. pose proof (prefix_lookup_Some _ _ _ _ Hh' (ex_hist _ _ HX)). congruence. }
    destruct (decide (j = k)) as [->|Hne].
    { assert (h = c) as -> by congruence. exists y. rewrite Hmem, lookup_insert_eq. split; [done|]. by apply Hk. }
    pose proof (ex_oldest _ _ HX). destruct (Hh0 j h ltac:(lia) Hjh) as (x & Hx & Hxok). exists x.
    split; [rewrite Hmem, lookup_insert_ne; [done|]; apply not_eq_sym; eapply round_handle; [|done|done]; lia|].
    destruct Hxok as [Ha Ho]. destruct (Hsame j Hne Hlen) as (E1 & E2 & E3 & _). split.
    + rewrite E2, E3, (count_advance j Hlen Hne). exact Ha.
    + intros order. rewrite E1. intros Hord. destruct (Ho order Hord) as (? & ? & ?). split_and!; [by eapply ptr_extends|done|done].
  - intros u x Hu. destruct (decide (u = t)) as [->|Hne].
    { rewrite list_lookup_insert_eq in Hu by (by eapply lookup_lt_Some). by injection Hu as <-. }
    rewrite list_lookup_insert_ne in Hu by done. destruct (Hoth u x Hne Hu) as (H1 & H2 & H3).
    apply (thread_extends g); [done| |done|done|done|].
    + intros ->. destruct (ri_gone _ _ HR0) as (rt & Hrt & E). assert (rt = x) as -> by congruence.
      pose proof (proj1 (filled_hist _ _ HR0)). lia.
    + eapply thread_frame; [|apply dom_advance|by apply Ht0]. intros a Ha. rewrite Hmem. apply lookup_insert_ne. intros <-.
      exact (hist_apart g q ths u x c HM0 Hu cur_hist Ha).
Qed.

(** The free handles and their owners as before. *)
Lemma mem_advance : hist g' = hist g -> oldest g' = oldest g -> frees g' = frees g -> free q' = free q -> brk q' = brk q ->
  in_hand th' = in_hand th -> mem_inv g' q' ths'.
Proof.
  intros E1 E2 E3 E4 E5 E6. pose proof (bi_mem _ _ HI) as HM. cbn [fst snd] in HM. apply (mem_perm g _ q _ ths); try done.
  - unfold owned. by rewrite E1, E2, E3, (bind_insert_same in_hand ths t th th' Ht E6).
  - intros a. split; [|apply dom_advance]. rewrite Hmem. destruct (decide (a = c)) as [->|]; [|by rewrite lookup_insert_ne].
    intros _. apply (proj1 (Forall_forall _ _) (mi_owned _ _ _ HM)). apply elem_of_app. left. apply cur_hist.
  - rewrite E3, E4, Hmem. apply chain_insert; [|exact (mi_chain _ _ _ HM)]. eapply hist_free_apart; [done|apply cur_hist].
Qed.

(** The rounds. *)
Lemma all_counted_advance j : (j < length (hist g))%nat -> j <> k -> all_counted ths' j <-> all_counted ths j.
Proof. intros Hj Hne. unfold all_counted. rewrite <- !count_if_all, length_insert, (count_advance j Hj Hne). done. Qed.

Lemma all_counted_more j : (counted j th = true -> counted j th' = true) -> all_counted ths j -> all_counted ths' j.
Proof.
  intros Hc H. apply Forall_insert; [done|]. apply Hc. exact (proj1 (Forall_lookup _ _) H t th Ht).
Qed.

Lemma gone_same : (t = root -> gone th' = gone th) -> exists rt, ths' !! root = Some rt /\ oldest g = Nat.min (gone rt) (length (hist g)).
Proof.
  intros Hg. destruct (ri_gone _ _ (bi_round _ _ HI)) as (rt & Hrt & E). cbn [snd] in Hrt. destruct (decide (t = root)) as [<-|Hne].
  - exists th'. rewrite list_lookup_insert_eq by (by eapply lookup_lt_Some). split; [done|]. rewrite Hg by done.
    assert (rt = th) as -> by congruence. exact E.
  - exists rt. by rewrite list_lookup_insert_ne.
Qed.
Lemma contributed_same j u : contributed j th' = contributed j th ->
  (exists x, ths !! u = Some x /\ contributed j x = true) <-> exists x, ths' !! u = Some x /\ contributed j x = true.
Proof.
  intros Hc. destruct (decide (u = t)) as [->|Hu].
  - rewrite list_lookup_insert_eq by (by eapply lookup_lt_Some). split; intros (x & Hx & Hxc); [exists th'|exists th]; (split; [done|]); congruence.
  - by rewrite list_lookup_insert_ne.
Qed.

(** Another thread, in or before its last wait. *)
Lemma take_advance x : (counted k th = true -> counted k th' = true) ->
  (pc x = Asleep2 -> calls x = k -> ~ all_counted ths' k) -> take_ok g ths x -> take_ok g' ths' x.
Proof.
  intros Hc Hk H. pose proof (prefix_length _ _ (ex_hist _ _ HX)) as Hlen. unfold take_ok in *. destruct (pc x); try done.
  - destruct H as [Hx H]. split; [lia|]. destruct (decide (calls x = k)) as [E|Hne]; [rewrite E; auto|].
    by rewrite all_counted_advance.
  - destruct H as [Hx H]. split; [lia|]. apply all_counted_more; [|done]. destruct (decide (calls x = k)) as [E|Hne]; [by rewrite E|].
    destruct (Hsame _ Hne Hx) as (_ & _ & _ & -> & _). done.
Qed.
Lemma not_all_counted : counted k th' = false -> ~ all_counted ths' k.
Proof.
  intros Hc H. pose proof (proj1 (Forall_lookup _ _) H t th') as H'. cbn beta in H'.
  rewrite list_lookup_insert_eq in H' by (by eapply lookup_lt_Some). specialize (H' eq_refl). congruence.
Qed.

Lemma round_advance :
  (published g' <= filled g' <= claimed g' /\ claimed g' <= S (published g'))%nat ->
  (count_if filling ths' = claimed g' - filled g')%nat -> (count_if publishing ths' = filled g' - published g')%nat ->
  (length (orders g') = filled g' /\ length (hist g') = (if broken g' then filled g' else S (filled g'))) ->
  (forall l, orders g' !! k = Some (Some l) -> l <> [] /\ NoDup l /\
    forall u, u ∈ l <-> exists x, ths' !! u = Some x /\ contributed k x = true) ->
  (length (orders g') <= length (hist g))%nat ->
  (exists rt, ths' !! root = Some rt /\ oldest g' = Nat.min (gone rt) (length (hist g'))) ->
  (oldest g' = oldest g \/ oldest g = k /\ oldest g' = S k /\ all_counted ths' k) ->
  (counted k th = true -> counted k th' = true) -> (counted k th' = true -> (k < published g')%nat) ->
  ((k < published g')%nat -> (0 < count_if (counted k) ths')%nat) -> (published g' <= length (hist g))%nat ->
  (hist g' = hist g \/ forall j x, (length (hist g) <= j)%nat -> counted j x = true -> (exists u, ths' !! u = Some x) -> False) ->
  (forall u x, u <> t -> ths !! u = Some x -> take_ok g' ths' x) -> take_ok g' ths' th' ->
  round_inv g' ths'.
Proof.
  intros H1 H2 H3 H4 H5 H5' H6 H7 H8 H9 H10 H11 H12 H13 H14. pose proof (bi_round _ _ HI) as HR. cbn [snd] in HR.
  assert (k < length (hist g))%nat as Hk by (by eapply lookup_lt_Some).
  assert (Hlook : forall u x, ths' !! u = Some x -> u = t /\ x = th' \/ u <> t /\ ths !! u = Some x).
  { intros u x Hu. destruct (decide (u = t)) as [->|Hne].
    - rewrite list_lookup_insert_eq in Hu by (by eapply lookup_lt_Some). left. split; congruence.
    - rewrite list_lookup_insert_ne in Hu by done. by right. }
  split; try done.
  - intros j l Hj. destruct (decide (j = k)) as [->|Hne]; [by apply H5|].
    assert (j < length (hist g))%nat as Hjh by (apply lookup_lt_Some in Hj; lia).
    destruct (Hsame j Hne Hjh) as (E & _ & _ & _ & Hc). rewrite E in Hj. destruct (ri_orders _ _ HR _ _ Hj) as (? & ? & Hin).
    split_and!; [done|done|]. intros u. rewrite Hin. split; intros (x & Hx & Hxc).
    + destruct (decide (u = t)) as [->|Hu].
      * exists th'. rewrite list_lookup_insert_eq by (by eapply lookup_lt_Some). split; [done|]. rewrite Hc. congruence.
      * exists x. by rewrite list_lookup_insert_ne.
    + destruct (Hlook _ _ Hx) as [[-> ->]|[Hu Hx']]; [exists th; split; [done|congruence]|by exists x].
  - intros j Hj. assert ((j < oldest g)%nat \/ j = k /\ all_counted ths' k) as [Hj'|[-> ?]]; [|apply all_counted_more|done].
    + destruct H7 as [E|(E1 & E2 & ?)]; [left; lia|]. destruct (decide (j = k)); [by right|left; lia].
    + intros Hc. destruct (decide (j = k)) as [->|Hne]; [auto|]. destruct (Hsame j Hne) as (_ & _ & _ & -> & _); [lia|done].
    + by apply (ri_left _ _ HR).
  - intros j Hj. destruct (decide (j = k)) as [->|Hne].
    + auto.
    + assert (j < length (hist g))%nat as Hjh by lia. rewrite (count_advance j Hjh Hne). apply (ri_some _ _ HR).
      destruct (Hsame j Hne Hjh) as (_ & E & _). apply Nat.ltb_lt. rewrite <- E. by apply Nat.ltb_lt.
  - intros u x j Hu Hj Hc. destruct (le_lt_dec (length (hist g)) j) as [Hjh|Hjh].
    { destruct H12 as [E|H12]; [rewrite E in Hj; lia|]. exfalso. apply (H12 j x Hjh Hc). by exists u. }
    destruct (decide (j = k)) as [->|Hne].
    + destruct (Hlook _ _ Hu) as [[-> ->]|[_ Hu']]; [auto|]. pose proof (ri_counted _ _ HR _ _ _ Hu' Hk Hc).
      pose proof (ex_published _ _ HX). lia.
    + destruct (Hsame j Hne Hjh) as (_ & E & _ & Ec & _). apply Nat.ltb_lt. rewrite E. apply Nat.ltb_lt.
      destruct (Hlook _ _ Hu) as [[-> ->]|[_ Hu']]; [apply (ri_counted _ _ HR _ _ _ Ht Hjh); congruence|by apply (ri_counted _ _ HR _ _ _ Hu' Hjh)].
  - intros u x Hu. destruct (Hlook _ _ Hu) as [[-> ->]|[Hne Hu']]; [done|by eapply H13].
Qed.
End Advance.

Definition set_claimed (m : nat) (g : ghost) : ghost :=
  Ghost m (filled g) (published g) (hist g) (broken g) (orders g) (oldest g) (frees g).

Lemma orders_refl (g : ghost) ths j order : round_inv g ths -> orders g !! j = Some order -> exists order', orders g !! j = Some order' /\
  match order, order' with None, None => True | Some (_ :: _), Some (_ :: _) => True | _, _ => False end.
Proof.
  intros HR Ho. exists order. split; [done|]. destruct order as [[|]|]; [|done|done]. by destruct (ri_orders _ _ HR _ _ Ho).
Qed.

Tactic Notation "count_flag" constr(p) constr(Ht) constr(th') constr(b) constr(b') :=
  match type of Ht with
  | ?ths !! ?t = Some ?th =>
      pose proof (count_if_insert p ths t th th' Ht) as Hcf; change (p th) with b in Hcf; change (p th') with b' in Hcf; cbn iota in Hcf
  end.

(** A thread in round [k] is not ahead of the rounds published. *)
Lemma round_published g q ths t th : rdco_inv g (q, ths) -> ths !! t = Some th -> hist g !! calls th = Some (curitem th) ->
  (calls th <= published g)%nat.
Proof.
  clear two root_in same_count. intros HI Ht Hh. pose proof (bi_round _ _ HI) as HR. cbn [snd] in HR. apply lookup_lt_Some in Hh.
  destruct (calls th) as [|j] eqn:E; [lia|]. apply (ri_counted _ _ HR t th j Ht); [lia|].
  unfold counted. rewrite E. by rewrite (proj2 (Nat.ltb_lt j (S j))) by lia.
Qed.

Lemma claim_ok g q ths t th nomem send : rdco_inv g (q, ths) -> ths !! t = Some th -> pc th = AtClaim ->
  fine ths t (rdco_atomic o (t =? root)%nat nomem send q th).
Proof.
  intros HI Ht Hpc. pose proof (thread_at _ _ _ _ _ HI Ht) as Hok. place_of th Hpc. destruct Hok as [Hl [Hh (Hf & Hm & Hnew)]].
  cbn [rdco_atomic rdco_body pc curitem newitem] in *. set (th := Thread AtClaim ky c nw lf mi cn re go lg) in *.
  assert (counted (calls th) th = false) as Hnc by (unfold counted; cbn [pc th]; by rewrite Nat.ltb_irrefl, andb_false_r).
  destruct (cur_handle _ _ _ _ _ HI Ht Hh (or_introl Hnc)) as (Ho & x & Hx & Hxok).
  pose proof (bi_round _ _ HI) as HR. cbn [snd] in HR.
  pose proof (avail_claimed _ _ _ _ HR Hxok) as (Ha & Hb & _). pose proof (round_published _ _ _ _ _ HI Ht Hh) as Hp.
  pose proof (ri_stages _ _ HR) as Hst. pose proof (ri_length _ _ HR) as [Hlo Hlh].
  change (curitem th) with c in *. rewrite (with_handle_eq _ _ _ _ Hx). destruct (Z.eqb_spec (avail x) (-1)) as [E|E].
  - specialize (Ha E). apply fine_moves with (set_claimed (S (claimed g)) g).
    assert (calls th = claimed g /\ claimed g = filled g /\ filled g = published g) as (Ek & Ef & Ep) by lia.
    set (th' := upd mine _ _).
    assert (extends g (set_claimed (S (claimed g)) g)) as HX.
    { split; cbn; try done; try lia. intros j order Hj. exact (orders_refl g ths j order HR Hj). }
    assert (Hsame : forall j, j <> calls th -> (j < length (hist g))%nat ->
      orders (set_claimed (S (claimed g)) g) !! j = orders g !! j /\
      (j <? published (set_claimed (S (claimed g)) g))%nat = (j <? published g)%nat /\
      (j <? claimed (set_claimed (S (claimed g)) g))%nat = (j <? claimed g)%nat /\ counted j th' = counted j th /\ contributed j th' = contributed j th).
    { intros j Hne Hj. split_and!; try done. change (claimed (set_claimed _ _)) with (S (claimed g)).
      destruct (Nat.ltb_spec j (S (claimed g))), (Nat.ltb_spec j (claimed g)); (done || lia). }
    assert (broken g = false) as Hbr.
    { apply lookup_lt_Some in Hh. destruct (broken g); [|done]. lia. }
    eapply (advance g _ q _ ths t th th' (x <| avail := 0 |>)); try done.
    + eapply (mem_advance g _ q _ ths t th th'); try done.
    + eapply (round_advance g _ q ths t th th'); try done; cbn [set_claimed claimed filled published hist broken orders oldest].
      * lia.
      * count_flag filling Ht th' false true. rewrite (ri_filling _ _ HR) in Hcf. lia.
      * count_flag publishing Ht th' false false. rewrite (ri_publishing _ _ HR) in Hcf. lia.
      * intros l Hl'. apply lookup_lt_Some in Hl'. lia.
      * rewrite Hlh, Hbr. lia.
      * by eapply gone_same.
      * by left.
      * change (counted (calls th) th') with (counted (calls th) th). congruence.
      * intros. exfalso. lia.
      * rewrite Hlh, Hbr. lia.
      * by left.
      * intros u y Hne Hu. eapply (take_advance g _ ths t th th'); try done; [|by apply (ri_take _ _ HR u)]. intros _ _.
        eapply not_all_counted; [exact Ht|]. change (counted (calls th) th = false). exact Hnc.
    + exact (bi_first _ _ HI).
    + intros _. split; cbn [avail upd set_claimed published claimed orders].
      * rewrite (proj2 (Nat.ltb_ge _ _)), (proj2 (Nat.ltb_lt _ _)) by lia. done.
      * intros order Hord. apply lookup_lt_Some in Hord. lia.
    + intros j h Hj Hjh. apply lookup_lt_Some in Hjh. cbn in Hjh. lia.
    + intros u y Hne Hu. split_and!; try done.
      * intros Hy. exfalso. pose proof (ri_filling _ _ HR) as Hz. assert (0 < count_if filling ths)%nat; [|lia].
        apply count_if_pos. by exists u, y.
      * intros Hy Hlt. pose proof (thread_at _ _ _ _ _ HI Hu) as [_ Hyok]. rewrite Hy in Hyok. cbn in Hlt. destruct Hyok as (_ & _ & _ & ? & ?). lia.
    + split; [exact Hl|]. split; [exact Hh|]. split_and!; try done; [change (calls th = filled g); lia|cbn; lia|].
      destruct Hnew as [|(y & Hy & Hya)]; [by left|]. change (newitem th') with nw. right. exists y. split; [|done].
      cbn. rewrite lookup_insert_ne; [done|]. intros <-.
      eapply (hist_apart g q ths t th c (bi_mem _ _ HI) Ht (elem_of_dropped _ _ _ _ Ho Hh)).
      cbn [in_hand th pc newitem]. rewrite (proj2 (Z.eqb_neq _ _)); [by left|].
      pose proof (hist_addr _ _ _ _ _ (bi_mem _ _ HI) Hh). unfold NO_HANDLE. lia.
  - assert (calls th < claimed g)%nat as Hcl by auto.
    destruct (Z.eqb_spec nw NO_HANDLE) as [Hnw|Hnw]; cbn [negb].
    + eapply stay; [done|done|same_place| | |done].
      * cbn [in_hand th pc newitem]. by rewrite Hnw.
      * split; [exact Hl|]. split; [exact Hh|]. by split_and!.
    + stays. split; [exact Hl|]. split; [exact Hh|]. by split_and!.
Qed.

Lemma contributed_published g q ths u x j : rdco_inv g (q, ths) -> ths !! u = Some x -> contributed j x = true -> (j < length (hist g))%nat ->
  (j < published g)%nat \/ publishing x = true.
Proof.
  intros HI Hu Hc Hj. pose proof (bi_round _ _ HI) as HR. cbn [snd] in HR. pose proof (thread_at _ _ _ _ _ HI Hu) as [_ Hok].
  destruct (counted j x) eqn:E; [left; by eapply (ri_counted _ _ HR)|]. unfold contributed in Hc. unfold counted in E.
  destruct (j <? calls x)%nat; [done|]. cbn [orb] in *. destruct (Nat.eqb_spec j (calls x)) as [->|]; [|done]. cbn [andb] in *. unfold publishing.
  destruct (pc x); try done; [by right| |]; left; destruct Hok as (_ & _ & ? & _); lia.
Qed.

(** The ghost state after a round is filled: with the handle [h] and the order [r]. *)
Definition fill_ghost (h : Z) (r : option (list nat)) (g : ghost) : ghost :=
  if h =? NO_HANDLE
  then Ghost (claimed g) (S (filled g)) (published g) (hist g) true (orders g ++ [r]) (oldest g) (frees g)
  else Ghost (claimed g) (S (filled g)) (published g) (hist g ++ [h]) (broken g) (orders g ++ [r]) (oldest g) (frees g).

Lemma fill_fields h r g : let g' := fill_ghost h r g in
  claimed g' = claimed g /\ filled g' = S (filled g) /\ published g' = published g /\ orders g' = orders g ++ [r] /\
  oldest g' = oldest g /\ frees g' = frees g /\ hist g' = hist g ++ (if h =? NO_HANDLE then [] else [h]) /\
  broken g' = (if h =? NO_HANDLE then true else broken g).
Proof. unfold fill_ghost. destruct (h =? NO_HANDLE); cbn; by rewrite ?app_nil_r. Qed.

Lemma fill_ok g q ths t th nomem : rdco_inv g (q, ths) -> ths !! t = Some th -> pc th = AtFill ->
  fine ths t (rdco_atomic o (t =? root)%nat nomem (sends t (calls th)) q th).
Proof.
  intros HI Ht Hpc. pose proof (thread_at _ _ _ _ _ HI Ht) as Hok. place_of th Hpc. destruct Hok as [Hl [Hh (Hf & Hm & Hk & Hcl & Hnew)]].
  cbn [rdco_atomic rdco_body pc curitem newitem cnt] in *. set (th := Thread AtFill ky c nw lf mi cn re go lg) in *.
  assert (counted (calls th) th = false) as Hnc by (unfold counted; cbn [pc th]; by rewrite Nat.ltb_irrefl, andb_false_r).
  destruct (cur_handle _ _ _ _ _ HI Ht Hh (or_introl Hnc)) as (Ho & x & Hx & Hxok).
  pose proof (bi_round _ _ HI) as HR. pose proof (bi_mem _ _ HI) as HM. cbn [fst snd] in HR, HM.
  pose proof (ri_stages _ _ HR) as Hst. pose proof (ri_length _ _ HR) as [Hlo Hlh]. pose proof (lookup_lt_Some _ _ _ Hh) as Hkl.
  change (curitem th) with c in *. rewrite (with_handle_eq _ _ _ _ Hx). cbv zeta.
  assert (broken g = false) as Hbr by (destruct (broken g); [lia|done]).
  assert (filled g = published g) as Hfp by lia. assert (length (hist g) = S (filled g)) as Hlh2 by (by rewrite Hlh, Hbr).
  set (fails := nomem && negb (t =? root)%nat).
  set (r := if fails then None else Some [t]).
  set (y := if fails then mkRdch nw (avail x) Null 0 else mkRdch nw (avail x) (Live (sends t (calls th))) cn).
  set (th' := if fails then goes AtPublish th <| ret := -2 |> else goes AtPublish th).
  assert (fine ths t (Moves (set_handle c y q) th' NoWake)) as H; [|by unfold y, th' in H; destruct fails].
  apply fine_moves with (fill_ghost nw r g). destruct (fill_fields nw r g) as (E1 & E2 & E3 & E4 & E5 & E6 & E7 & E8).
  set (g' := fill_ghost nw r g) in *.
  assert (Hcalls : calls th' = calls th) by (unfold th'; by destruct fails).
  assert (Hcnt : forall j, counted j th' = counted j th) by (intros j; unfold th'; by destruct fails).
  assert (Hcon : forall j, contributed j th' = contributed j th || (j =? calls th)%nat).
  { intros j. unfold contributed. rewrite Hcalls. assert (pc th' = AtPublish) as -> by (unfold th'; by destruct fails). cbn [pc th].
    by destruct (j <? calls th)%nat, (j =? calls th)%nat. }
  assert (Hlen : length (hist g') = if broken g' then filled g' else S (filled g')).
  { rewrite E7, E8, E2, length_app, Hlh, Hbr. destruct (nw =? NO_HANDLE); cbn; lia. }
  assert (extends g g') as HX.
  { split; try lia.
    - rewrite E7. by apply prefix_app_r.
    - congruence.
    - intros j order Hj. rewrite E4, lookup_app_l by (by eapply lookup_lt_Some). by eapply orders_refl.
    - intros j Hj. rewrite E4, lookup_app_l; [done|]. lia. }
  assert (Hsame : forall j, j <> calls th -> (j < length (hist g))%nat ->
      orders g' !! j = orders g !! j /\ (j <? published g')%nat = (j <? published g)%nat /\
      (j <? claimed g')%nat = (j <? claimed g)%nat /\ counted j th' = counted j th /\ contributed j th' = contributed j th).
  { intros j Hne Hj. rewrite E1, E3, Hcnt, Hcon, (proj2 (Nat.eqb_neq _ _) Hne), orb_false_r. split_and!; try done.
    rewrite E4. rewrite Hlh, Hbr in Hj. apply lookup_app_l. lia. }
  assert (Horder : orders g' !! calls th = Some r) by (by rewrite E4, Hk, <- Hlo, lookup_app_r, Nat.sub_diag by lia).
  assert (HnewH : nw <> NO_HANDLE -> nw ∈ in_hand th /\ nw <> c).
  { intros Hne. assert (nw ∈ in_hand th) as Hin by (cbn [in_hand th pc newitem]; rewrite (proj2 (Z.eqb_neq _ _)) by done; by left).
    split; [done|]. intros <-. exact (hist_apart g q ths t th nw HM Ht (elem_of_dropped _ _ _ _ Ho Hh) Hin). }
  eapply (advance g g' q _ ths t th th' y); try done.
  - apply (mem_perm_hist g g' q _ ths); try done.
    + unfold owned. rewrite E5, E6, E7, drop_app_le by (apply lookup_lt_Some in Hh; lia). rewrite <- app_assoc. apply Permutation_app_head.
      rewrite Permutation_app_comm, <- app_assoc. apply Permutation_app_head.
      pose proof (bind_insert in_hand ths t th th' Ht) as Hb. assert (in_hand th' = []) as Hi by (unfold th'; by destruct fails).
      rewrite Hi, app_nil_r in Hb. cbn [in_hand th pc newitem] in Hb.
      exact Hb.
    + rewrite E7. apply Forall_app. split; [exact (mi_hist _ _ _ HM)|]. destruct (Z.eqb_spec nw NO_HANDLE) as [|Hne]; [done|].
      constructor; [|done]. destruct (hand_handle g q ths t th nw HM Ht) as (? & _ & ?); [by apply HnewH|lia].
    + intros a. change (handles (set_handle c y q)) with (<[c := y]> (handles q)). destruct (decide (a = c)) as [->|].
      * rewrite lookup_insert_eq, Hx. split; by eexists.
      * by rewrite lookup_insert_ne.
    + rewrite E6. apply chain_insert; [|exact (mi_chain _ _ _ HM)]. eapply hist_free_apart; [done|by eapply elem_of_dropped].
  - eapply (round_advance g g' q ths t th th'); try done.
    + lia.
    + assert (filling th' = false) as Hfl by (unfold th'; by destruct fails). pose proof (count_if_insert filling ths t th th' Ht) as Hcf.
      rewrite Hfl in Hcf. change (filling th) with true in Hcf. rewrite (ri_filling _ _ HR) in Hcf. lia.
    + assert (publishing th' = true) as Hfl by (unfold th'; by destruct fails). pose proof (count_if_insert publishing ths t th th' Ht) as Hcf.
      rewrite Hfl in Hcf. change (publishing th) with false in Hcf. rewrite (ri_publishing _ _ HR) in Hcf. lia.
    + split; [rewrite E4, E2, length_app; cbn; lia|exact Hlen].
    + rewrite Horder. intros l [= El]. unfold r in El. destruct fails; [done|]. injection El as <-. split_and!; [done|apply NoDup_singleton|].
      intros u. rewrite list_elem_of_singleton. split.
      * intros ->. exists th'. rewrite list_lookup_insert_eq by (by eapply lookup_lt_Some). split; [done|]. by rewrite Hcon, Nat.eqb_refl, orb_true_r.
      * intros (z & Hz & Hc). destruct (decide (u = t)) as [|Hne]; [done|]. exfalso. rewrite list_lookup_insert_ne in Hz by done.
        destruct (contributed_published _ _ _ _ _ _ HI Hz Hc Hkl) as [?|Hp]; [lia|].
        assert (0 < count_if publishing ths)%nat; [|rewrite (ri_publishing _ _ HR) in *; lia]. apply count_if_pos. by exists u, z.
    + rewrite E4, length_app, Hlh, Hbr. cbn. lia.
    + destruct (ri_gone _ _ HR) as (rt & Hrt & Eg). destruct (decide (root = t)) as [->|Hne].
      * exists th'. rewrite list_lookup_insert_eq by (by eapply lookup_lt_Some). split; [done|]. assert (rt = th) as -> by congruence.
        assert (gone th' = gone th) as -> by (unfold th'; by destruct fails). change (gone th) with (calls th) in *. rewrite E5, Eg, E7, length_app. lia.
      * exists rt. rewrite list_lookup_insert_ne by done. split; [done|]. rewrite E5, Eg, E7, length_app.
        enough (gone rt <= length (hist g))%nat by lia. destruct (le_lt_dec (gone rt) (length (hist g))) as [|Hgt]; [done|]. exfalso.
        assert (calls th < calls rt)%nat as Hlt by (unfold gone in Hgt; destruct (pc rt); lia).
        pose proof (ri_counted _ _ HR root rt (calls th) Hrt Hkl) as Hc. unfold counted in Hc.
        rewrite (proj2 (Nat.ltb_lt _ _) Hlt) in Hc. specialize (Hc eq_refl). lia.
    + by left.
    + by rewrite Hcnt.
    + rewrite Hcnt. congruence.
    + lia.
    + lia.
    + right. intros j z Hj Hc [u Hu]. assert (Hz : counted (calls th) z = true).
      { unfold counted in Hc. unfold counted. destruct (Nat.ltb_spec (calls th) (calls z)) as [|Hle]; [done|].
        rewrite (proj2 (Nat.ltb_ge _ _)), (proj2 (Nat.eqb_neq _ _)) in Hc by lia. done. }
      destruct (decide (u = t)) as [->|Hne].
      * rewrite list_lookup_insert_eq in Hu by (by eapply lookup_lt_Some). injection Hu as <-. rewrite Hcnt in Hz. congruence.
      * rewrite list_lookup_insert_ne in Hu by done. pose proof (ri_counted _ _ HR _ _ _ Hu Hkl Hz). lia.
    + intros u z Hne Hu. eapply (take_advance g g' ths t th th'); try done; [by rewrite Hcnt| |by apply (ri_take _ _ HR u)].
      intros _ _. eapply not_all_counted; [exact Ht|]. by rewrite Hcnt.
    + unfold th'. by destruct fails.
  - intros Hz. rewrite E7, lookup_app_l by lia. apply (bi_first _ _ HI). cbn. lia.
  - intros _. split.
    + assert (avail y = avail x) as -> by (unfold y; by destruct fails). destruct Hxok as [-> _].
      rewrite E1, E3. rewrite (proj2 (Nat.ltb_ge (calls th) (published g))), (proj2 (Nat.ltb_lt (calls th) (claimed g))) by lia. done.
    + intros order. rewrite Horder. intros [= <-]. split_and!.
      * assert (next y = nw) as -> by (unfold y; by destruct fails). unfold ptr_ok. rewrite E7, E8.
        destruct (Z.eqb_spec nw NO_HANDLE) as [->|Hne]; [right|left].
        -- rewrite app_nil_r. split_and!; [done|lia|done].
        -- rewrite lookup_app_r by lia. rewrite Hlh, Hbr, Hk, Nat.sub_diag. done.
      * unfold y, r. by destruct fails.
      * unfold y. destruct fails; [done|]. cbn. apply Hf.
  - intros j h Hj Hjh. rewrite E7 in Hjh. destruct (Z.eqb_spec nw NO_HANDLE) as [|Hne].
    + rewrite app_nil_r in Hjh. apply lookup_lt_Some in Hjh. lia.
    + rewrite lookup_app_r in Hjh by done. destruct (j - length (hist g))%nat eqn:Ej; [|done]. injection Hjh as <-.
      destruct (HnewH Hne) as [_ Hnc2]. destruct Hnew as [|(z & Hz & Hza)]; [done|]. exists z. split.
      * change (handles _) with (<[c := y]> (handles q)). by rewrite lookup_insert_ne.
      * split.
        -- rewrite E1, E3, !(proj2 (Nat.ltb_ge _ _)) by lia. done.
        -- intros order Hord. rewrite E4 in Hord. apply lookup_lt_Some in Hord. rewrite length_app in Hord. cbn in Hord. lia.
  - intros u z Hne Hu. split_and!.
    + intros Hz. exfalso. pose proof (count_if_insert filling ths t th th' Ht) as Hcf.
      assert (0 < count_if filling (<[t := th']> ths))%nat as Hpos.
      { apply count_if_pos. exists u, z. by rewrite list_lookup_insert_ne. }
      assert (filling th' = false) as Hfl by (unfold th'; by destruct fails). rewrite Hfl in Hcf.
      change (filling th) with true in Hcf. rewrite (ri_filling _ _ HR) in Hcf. lia.
    + intros Hz. exfalso. assert (0 < count_if publishing ths)%nat; [|rewrite (ri_publishing _ _ HR) in *; lia].
      apply count_if_pos. by exists u, z.
    + intros Hz Hlt. pose proof (thread_at _ _ _ _ _ HI Hu) as [_ Hyok]. rewrite Hz in Hyok. destruct Hyok as (_ & _ & _ & ? & ?). lia.
  - assert (Hkey : key_next g' th').
    { unfold key_next, ptr_ok. rewrite Hcalls, E7, E8. assert (mine th' = true) as -> by (unfold th'; by destruct fails).
      assert (newitem th' = nw) as -> by (unfold th'; by destruct fails).
      destruct (Z.eqb_spec nw NO_HANDLE) as [->|Hne]; [right|left].
      - rewrite app_nil_r. split_and!; [done|lia|done].
      - rewrite lookup_app_r by lia. rewrite Hlh, Hbr, Hk, Nat.sub_diag. done. }
    assert (Hagr : agrees g' th').
    { split; [unfold th'; destruct fails; apply Hf|]. rewrite Hcalls, Horder. unfold r, th'. destruct fails; [done|].
      split; [apply Hf|]. destruct Hf as (Hf & _). rewrite same_count with (u := t). exact Hf. }
    split; [eapply log_extends; [exact HX| |]|].
    + intros ->. destruct (ri_gone _ _ HR) as (rt & Hrt & ->). assert (rt = th) as -> by congruence.
      change (gone th) with (calls th). change (length (log th')) with (calls th'). lia.
    + unfold th'. destruct fails; exact Hl.
    + assert (hist g' !! calls th' = Some c) as Hh' by (rewrite Hcalls, E7, lookup_app_l by lia; exact Hh).
      assert (t = root -> ret th' = 0) as Hr.
      { intros ->. unfold th', fails. rewrite Nat.eqb_refl, andb_false_r. apply Hf. }
      rewrite E3, E2, Hcalls. rewrite Hcalls in Hh'.
      unfold th' in *. destruct fails; (split; [exact Hh'|]); split_and!; try done; lia.
Qed.

Definition set_published (m : nat) (g : ghost) : ghost :=
  Ghost (claimed g) (filled g) m (hist g) (broken g) (orders g) (oldest g) (frees g).

(** What a call gives whose thread has contributed. *)
Lemma out_agrees g t th order : agrees g th -> orders g !! calls th = Some order -> t <> root ->
  (ret th, got th) = out t (calls th) order.
Proof.
  intros [Hg Ha] Ho Ht. rewrite Ho in Ha. unfold out. rewrite Hg, (proj2 (Nat.eqb_neq _ _) Ht).
  destruct order as [[|f l]|]; [done| |]; cbn; [by destruct Ha as [-> _]|by rewrite Ha].
Qed.

(** What a step leaves of a thread that returns, or goes on to wait for the result. *)
Definition counted_th (b : bool) (th : thread) : thread :=
  if b then goes AtResult th else returns (th <| key := newitem th |>).

Lemma publish_step g q ths t th x : rdco_inv g (q, ths) -> ths !! t = Some th -> pc th = AtPublish ->
  handles q !! curitem th = Some x ->
  (forall u z, ths !! u = Some z -> pc z = Asleep -> calls z <> calls th) ->
  exists g', rdco_inv g' (set_handle (curitem th) (x <| avail := 1 |>) q,
    <[t := counted_th ((t =? root)%nat && (ret th =? 0)) th]> ths).
Proof.
  intros HI Ht Hpc Hx Hawake. pose proof (thread_at _ _ _ _ _ HI Ht) as Hok.
  place_of th Hpc. destruct Hok as [Hl [Hh (Hm & Hk & Hfl & Hag & Hkey & Hroot)]]. cbn [curitem ret mine] in *.
  set (th := Thread AtPublish ky c nw lf mi cn re go lg) in *.
  pose proof (bi_round _ _ HI) as HR. pose proof (bi_mem _ _ HI) as HM. destruct (bi_size _ _ HI) as [_ Hn]. cbn [fst snd] in HR, HM, Hn.
  assert (counted (calls th) th = false) as Hnc by (unfold counted; cbn [pc th]; by rewrite Nat.ltb_irrefl, andb_false_r).
  destruct (cur_handle _ _ _ _ _ HI Ht Hh (or_introl Hnc)) as (Ho & x' & Hx' & Hxok).
  assert (x' = x) as -> by (change (curitem th) with c in Hx'; congruence).
  pose proof (ri_stages _ _ HR) as Hst. pose proof (ri_length _ _ HR) as [Hlo Hlh]. pose proof (lookup_lt_Some _ _ _ Hh) as Hkl.
  set (g' := set_published (S (published g)) g). exists g'.
  destruct (lookup_lt_is_Some_2 (orders g) (calls th)) as [order Hord]; [lia|].
  set (b := (t =? root)%nat && (re =? 0)). set (th' := counted_th b th).
  assert (t = root -> b = true) as Hb by (intros E; unfold b; rewrite E, Nat.eqb_refl, Hroot by done; done).
  assert (t <> root -> b = false) as Hb2 by (intros E; unfold b; by rewrite (proj2 (Nat.eqb_neq _ _) E)).
  assert (Hcnt : forall j, counted j th' = counted j th || (j =? calls th)%nat).
  { intros j. unfold th'. destruct b; cbn [counted_th].
    - unfold counted. cbn [pc th goes upd]. change (calls (goes AtResult th)) with (calls th). rewrite andb_false_r, orb_false_r, andb_true_r. done.
    - unfold counted_th. destruct (counted_outside j (returns (th <| key := newitem th |>)) eq_refl) as [-> _].
      assert (calls (returns (th <| key := newitem th |>)) = S (calls th)) as -> by (unfold calls; cbn; rewrite length_app; cbn; lia).
      unfold counted. cbn [pc th]. rewrite andb_false_r, orb_false_r.
      destruct (Nat.ltb_spec j (S (calls th))), (Nat.ltb_spec j (calls th)), (Nat.eqb_spec j (calls th)); (done || lia). }
  assert (Hcon : forall j, contributed j th' = contributed j th).
  { intros j. unfold th'. destruct b; [done|]. cbn [counted_th]. destruct (counted_outside j (returns (th <| key := newitem th |>)) eq_refl) as [_ ->].
    assert (calls (returns (th <| key := newitem th |>)) = S (calls th)) as -> by (unfold calls; cbn; rewrite length_app; cbn; lia).
    unfold contributed. cbn [pc th]. rewrite andb_true_r.
    destruct (Nat.ltb_spec j (S (calls th))), (Nat.ltb_spec j (calls th)), (Nat.eqb_spec j (calls th)); (done || lia). }
  assert (Hflag : filling th' = false /\ publishing th' = false) by (unfold th'; by destruct b).
  assert (extends g g') as HX.
  { split; cbn; try done; try lia. intros j o' Hj. exact (orders_refl g ths j o' HR Hj). }
  assert (Hsame : forall j, j <> calls th -> (j < length (hist g))%nat ->
      orders g' !! j = orders g !! j /\ (j <? published g')%nat = (j <? published g)%nat /\
      (j <? claimed g')%nat = (j <? claimed g)%nat /\ counted j th' = counted j th /\ contributed j th' = contributed j th).
  { intros j Hne Hj. rewrite Hcnt, Hcon, (proj2 (Nat.eqb_neq _ _) Hne), orb_false_r. split_and!; try done.
    change (published g') with (S (published g)). destruct (Nat.ltb_spec j (S (published g))), (Nat.ltb_spec j (published g)); (done || lia). }
  assert (Hnone : forall u z, ths !! u = Some z -> counted (calls th) z = false).
  { intros u z Hu. destruct (counted (calls th) z) eqn:E; [|done]. pose proof (ri_counted _ _ HR _ _ _ Hu Hkl E). lia. }
  eapply (advance g g' q _ ths t th th' (x <| avail := 1 |>)); try done.
  - eapply (mem_advance g g' q _ ths t th th'); try done. unfold th'. by destruct b.
  - eapply (round_advance g g' q ths t th th'); try done; cbn [g' set_published claimed filled published hist broken orders oldest].
    + lia.
    + pose proof (count_if_insert filling ths t th th' Ht) as Hcf. rewrite (proj1 Hflag) in Hcf. change (filling th) with false in Hcf.
      rewrite (ri_filling _ _ HR) in Hcf. lia.
    + pose proof (count_if_insert publishing ths t th th' Ht) as Hcf. rewrite (proj2 Hflag) in Hcf. change (publishing th) with true in Hcf.
      rewrite (ri_publishing _ _ HR) in Hcf. lia.
    + intros l Hl'. destruct (ri_orders _ _ HR _ _ Hl') as (? & ? & Hin). split_and!; [done|done|]. intros u. rewrite Hin.
      eapply contributed_same; [exact Ht|apply Hcon].
    + destruct (broken g); lia.
    + eapply gone_same; [exact HI|exact Ht|]. intros E. unfold th'. by rewrite (Hb E).
    + by left.
    + rewrite Hcnt. by intros ->.
    + lia.
    + intros _. eapply some_counted; [exact Ht|]. rewrite Hcnt, Nat.eqb_refl. apply orb_true_r.
    + destruct (broken g); lia.
    + by left.
    + intros u z Hne Hu. eapply (take_advance g g' ths t th th'); try done; [rewrite Hcnt; by intros ->| |by apply (ri_take _ _ HR u)].
      intros Hz Ez. pose proof (thread_at _ _ _ _ _ HI Hu) as [_ Hzok]. rewrite Hz in Hzok. destruct Hzok as (_ & _ & ? & _). lia.
    + unfold th'. by destruct b.
  - exact (bi_first _ _ HI).
  - intros _. split.
    + change (published g') with (S (published g)). rewrite (proj2 (Nat.ltb_lt _ _)) by lia.
      pose proof (count_if_insert (counted (calls th)) ths t th th' Ht) as Hcf. rewrite Hcnt, Nat.eqb_refl, orb_true_r, Hnc in Hcf.
      rewrite (count_if_none (counted (calls th)) ths) in Hcf; [cbn [avail upd]; lia|].
      apply Forall_lookup. intros u z Hu. by eapply Hnone.
    + intros o' Hord'. destruct Hxok as [_ Hxok]. exact (Hxok o' Hord').
  - intros j h Hj Hjh. apply lookup_lt_Some in Hjh. cbn in Hjh. lia.
  - intros u z Hne Hu. split_and!; try done.
    + intros Hz. exfalso. pose proof (count_if_insert publishing ths t th th' Ht) as Hcf. rewrite (proj2 Hflag) in Hcf.
      assert (0 < count_if publishing (<[t := th']> ths))%nat as Hpos by (apply count_if_pos; exists u, z; by rewrite list_lookup_insert_ne).
      change (publishing th) with true in Hcf. rewrite (ri_publishing _ _ HR) in Hcf. lia.
    + intros Hz Hlt. pose proof (thread_at _ _ _ _ _ HI Hu) as [_ Hyok]. rewrite Hz in Hyok. destruct Hyok as (_ & _ & _ & ? & ?).
      apply (Hawake u z Hu Hz). cbn in Hlt. lia.
  - unfold th'. destruct (decide (t = root)) as [E|E].
    + rewrite (Hb E). split; [exact Hl|]. split; [exact Hh|]. split_and!; try done; [change (calls th < S (published g))%nat; lia|]. intros _. by apply Hroot.
    + rewrite (Hb2 E). cbn [counted_th].
      apply (returns_ok g' _ t (th <| key := newitem th |>) order); [exact Hl|exact Hord|by apply (out_agrees g t th order)|].
      unfold key_next in Hkey. cbn [mine th] in Hkey. change (mine th) with mi in Hkey. rewrite Hm in Hkey. exact Hkey.
Qed.

Definition set_orders (r : list (option (list nat))) (g : ghost) : ghost :=
  Ghost (claimed g) (filled g) (published g) (hist g) (broken g) r (oldest g) (frees g).

Lemma set_handle_id (q : tmpi_RDCQueue A) h x : handles q !! h = Some x -> set_handle h x q = q.
Proof. intros H. unfold set_handle, upd. destruct q as [gs f fr m b]. cbn in *. by rewrite insert_id. Qed.

Lemma reduce_step g q ths t th : rdco_inv g (q, ths) -> ths !! t = Some th -> pc th = AtReduce ->
  forall (at_root nomem : bool), fine ths t (rdco_atomic o at_root nomem (sends t (calls th)) q th).
Proof.
  intros HI Ht Hpc at_root nomem. pose proof (thread_at _ _ _ _ _ HI Ht) as Hok.
  place_of th Hpc. destruct Hok as [Hl [Hh (Hf & Hm & Hk)]]. cbn [rdco_atomic rdco_body pc curitem mine cnt] in *.
  set (th := Thread AtReduce ky c nw lf mi cn re go lg) in *.
  pose proof (bi_round _ _ HI) as HR. pose proof (bi_mem _ _ HI) as HM. cbn [fst snd] in HR, HM.
  assert (counted (calls th) th = false) as Hnc by (unfold counted; cbn [pc th]; by rewrite Nat.ltb_irrefl, andb_false_r).
  assert (contributed (calls th) th = false) as Hncon by (unfold contributed; cbn [pc th]; by rewrite Nat.ltb_irrefl, andb_false_r).
  destruct (cur_handle _ _ _ _ _ HI Ht Hh (or_introl Hnc)) as (Ho & x & Hx & Hxok).
  change (curitem th) with c in *. rewrite (with_handle_eq _ _ _ _ Hx). cbv zeta.
  pose proof (ri_stages _ _ HR) as Hst. pose proof (ri_length _ _ HR) as [Hlo Hlh]. pose proof (lookup_lt_Some _ _ _ Hh) as Hkl.
  destruct (order_at _ _ _ HR Hk) as [order Hord]. destruct Hxok as [Ha Hxok]. destruct (Hxok _ Hord) as (Hn & Hd & Hc).
  set (r' := match order with Some l => Some (l ++ [t]) | None => None end).
  set (g' := set_orders (<[calls th := r']> (orders g)) g).
  set (y := match order with Some (f :: rest) => x <| data := content (calls th) r' |> | _ => x end).
  set (th' := match order with
    | Some _ => goes AtKey th <| cnt := length (sends 0%nat (calls th)) |>
    | None => goes AtKey th <| cnt := Nat.min cn 0 |> <| ret := -2 |> end).
  assert (fine ths t (Moves (set_handle c y q) th' NoWake)) as H.
  2: { rewrite Hc, Hd. unfold content. destruct order as [[|f rest]|].
    - exfalso. by destruct (ri_orders _ _ HR _ _ Hord).
    - cbn [block_count]. rewrite (length_reduce_all o sends same_count). destruct Hf as (Hf & _). change (cnt th) with cn in Hf. rewrite Hf.
      rewrite (same_count t 0%nat), Nat.min_id. unfold th', y, content, r' in H. cbn [app] in H.
      unfold reduce_all in H |- *. rewrite fold_left_app in H. cbn [fold_left] in H. fold (reduce_all o sends (calls th) f rest) in H |- *.
      rewrite (length_reduce_all o sends same_count) in H. exact H.
    - cbn [block_count]. unfold y in H. rewrite (set_handle_id _ _ _ Hx) in H. exact H. }
  apply fine_moves with g'.
  assert (Hcalls : calls th' = calls th) by (unfold th'; by destruct order).
  assert (Hcnt : forall j, counted j th' = counted j th) by (intros j; unfold th'; by destruct order).
  assert (Hcon : forall j, contributed j th' = contributed j th || (j =? calls th)%nat).
  { intros j. unfold contributed. rewrite Hcalls. assert (pc th' = AtKey) as -> by (unfold th'; by destruct order). cbn [pc th].
    by destruct (j <? calls th)%nat, (j =? calls th)%nat. }
  assert (Horder : orders g' !! calls th = Some r') by (apply list_lookup_insert_eq; by eapply lookup_lt_Some).
  assert (extends g g') as HX.
  { split; cbn [g' set_orders claimed filled published hist broken orders oldest]; try done; rewrite ?length_insert; try done.
    - intros j o' Hj. destruct (decide (j = calls th)) as [->|Hne].
      + exists r'. rewrite list_lookup_insert_eq by (by eapply lookup_lt_Some). split; [done|]. assert (o' = order) as -> by congruence.
        unfold r'. destruct order as [[|]|]; [|done|done]. by destruct (ri_orders _ _ HR _ _ Hord).
      + rewrite list_lookup_insert_ne by done. exact (orders_refl g ths j o' HR Hj).
    - intros j Hj. apply list_lookup_insert_ne. lia. }
  assert (Hsame : forall j, j <> calls th -> (j < length (hist g))%nat ->
      orders g' !! j = orders g !! j /\ (j <? published g')%nat = (j <? published g)%nat /\
      (j <? claimed g')%nat = (j <? claimed g)%nat /\ counted j th' = counted j th /\ contributed j th' = contributed j th).
  { intros j Hne Hj. rewrite Hcnt, Hcon, (proj2 (Nat.eqb_neq _ _) Hne), orb_false_r. split_and!; try done.
    by apply list_lookup_insert_ne. }
  eapply (advance g g' q _ ths t th th' y); try done.
  - eapply (mem_advance g g' q _ ths t th th'); try done. unfold th'. by destruct order.
  - eapply (round_advance g g' q ths t th th'); try done; cbn [g' set_orders claimed filled published hist broken orders oldest].
    + pose proof (count_if_insert filling ths t th th' Ht) as Hcf. assert (filling th' = false) as Hfl by (unfold th'; by destruct order).
      rewrite Hfl in Hcf. change (filling th) with false in Hcf. rewrite (ri_filling _ _ HR) in Hcf. lia.
    + pose proof (count_if_insert publishing ths t th th' Ht) as Hcf. assert (publishing th' = false) as Hfl by (unfold th'; by destruct order).
      rewrite Hfl in Hcf. change (publishing th) with false in Hcf. rewrite (ri_publishing _ _ HR) in Hcf. lia.
    + by rewrite length_insert.
    + rewrite list_lookup_insert_eq by (by eapply lookup_lt_Some). intros l [= El]. unfold r' in El. destruct order as [l0|]; [|done].
      injection El as <-. destruct (ri_orders _ _ HR _ _ Hord) as (H1 & H2 & Hin). split_and!.
      * by destruct l0.
      * apply NoDup_app. split_and!; [done| |apply NoDup_singleton]. intros u Hu ->%list_elem_of_singleton.
        apply Hin in Hu as (z & Hz & Hzc). congruence.
      * intros u. rewrite elem_of_app, list_elem_of_singleton, Hin. destruct (decide (u = t)) as [->|Hu].
        -- split; [intros _|by right]. exists th'. rewrite list_lookup_insert_eq by (by eapply lookup_lt_Some).
           split; [done|]. by rewrite Hcon, Nat.eqb_refl, orb_true_r.
        -- rewrite list_lookup_insert_ne by done. split; [intros [|]; done|by left].
    + rewrite length_insert. destruct (broken g); lia.
    + eapply gone_same; [exact HI|exact Ht|]. intros _. unfold th'. by destruct order.
    + by left.
    + by rewrite Hcnt.
    + intros _. rewrite (count_same _ ths t th th' Ht (Hcnt _)). by apply (ri_some _ _ HR).
    + destruct (broken g); lia.
    + by left.
    + intros u z Hne Hu. eapply (take_advance g g' ths t th th'); try done; [by rewrite Hcnt| |by apply (ri_take _ _ HR u)].
      intros _ _. eapply not_all_counted; [exact Ht|]. by rewrite Hcnt.
    + unfold th'. by destruct order.
  - exact (bi_first _ _ HI).
  - intros _. split.
    + assert (avail y = avail x) as -> by (unfold y; by destruct order as [[|]|]). rewrite Ha.
      cbn [g' set_orders claimed published]. by rewrite (count_same _ ths t th th' Ht (Hcnt _)).
    + intros o' Ho'. assert (o' = r') as -> by congruence.
      assert (next y = next x) as -> by (unfold y; by destruct order as [[|]|]). split; [exact Hn|].
      unfold y, r'. destruct order as [[|f rest]|]; [by destruct (ri_orders _ _ HR _ _ Hord)| |done].
      split; [done|]. cbn [data count upd]. rewrite Hc, Hd. unfold r', content. cbn [app block_count]. by rewrite !(length_reduce_all o sends same_count).
  - intros j h Hj Hjh. apply lookup_lt_Some in Hjh. cbn in Hjh. lia.
  - intros u z Hne Hu. split_and!; try done.
    intros Hz Hlt. pose proof (thread_at _ _ _ _ _ HI Hu) as [_ Hyok]. rewrite Hz in Hyok. destruct Hyok as (_ & _ & _ & ? & ?). cbn in Hlt. lia.
  - split; [eapply log_extends; [exact HX| |]|].
    + intros ->. destruct (ri_gone _ _ HR) as (rt & Hrt & ->). assert (rt = th) as -> by congruence.
      change (gone th) with (calls th). change (length (log th')) with (calls th'). lia.
    + unfold th'. by destruct order.
    + assert (Hag : agrees g' th').
      { split; [unfold th'; destruct order; apply Hf|]. rewrite Hcalls, Horder. unfold r', th'. destruct order as [[|f rest]|]; [|split; [apply Hf|done]|done].
        by destruct (ri_orders _ _ HR _ _ Hord). }
      assert (hist g' !! calls th' = Some c) as Hh' by (rewrite Hcalls; exact Hh).
      unfold th' in *. destruct order; (split; [exact Hh'|]); by split_and!.
Qed.

Lemma extends_refl g ths : round_inv g ths -> extends g g.
Proof. intros HR. split; try done. intros j order Hj. exact (orders_refl g ths j order HR Hj). Qed.

Definition count_th (at_root : bool) (th : thread) : thread := if at_root then goes AtTest th else returns th.

Lemma count_step g q ths t th x : rdco_inv g (q, ths) -> ths !! t = Some th -> pc th = AtCount ->
  handles q !! curitem th = Some x ->
  (avail x + 1 = Z.of_nat n -> forall u z, u <> t -> ths !! u = Some z -> pc z = Asleep2 -> calls z <> calls th) ->
  rdco_inv g (set_handle (curitem th) (x <| avail := avail x + 1 |>) q, <[t := count_th (t =? root)%nat th]> ths).
Proof.
  intros HI Ht Hpc Hx Hawake. pose proof (thread_at _ _ _ _ _ HI Ht) as Hok.
  place_of th Hpc. destruct Hok as [Hl [Hh (Hm & Hk & Hag & Hkey)]]. cbn [curitem mine] in *.
  set (th := Thread AtCount ky c nw lf mi cn re go lg) in *.
  pose proof (bi_round _ _ HI) as HR. pose proof (bi_mem _ _ HI) as HM. destruct (bi_size _ _ HI) as [_ Hn]. cbn [fst snd] in HR, HM, Hn.
  assert (counted (calls th) th = false) as Hnc by (unfold counted; cbn [pc th]; by rewrite Nat.ltb_irrefl, andb_false_r).
  destruct (cur_handle _ _ _ _ _ HI Ht Hh (or_introl Hnc)) as (Ho & x' & Hx' & Hxok).
  assert (x' = x) as -> by (change (curitem th) with c in Hx'; congruence).
  pose proof (ri_stages _ _ HR) as Hst. pose proof (ri_length _ _ HR) as [Hlo Hlh]. pose proof (lookup_lt_Some _ _ _ Hh) as Hkl.
  destruct (order_at _ _ _ HR Hk) as [order Hord].
  set (b := (t =? root)%nat). set (th' := count_th b th).
  assert (calls (returns th) = S (calls th)) as Hret by (unfold calls; cbn; rewrite length_app; cbn; lia).
  assert (Hcnt : forall j, counted j th' = counted j th || (j =? calls th)%nat).
  { intros j. unfold th'. destruct b; cbn [count_th].
    - unfold counted. cbn [pc th goes upd]. change (calls (goes AtTest th)) with (calls th). rewrite andb_false_r, orb_false_r, andb_true_r. done.
    - destruct (counted_outside j (returns th) eq_refl) as [-> _]. rewrite Hret.
      unfold counted. cbn [pc th]. rewrite andb_false_r, orb_false_r.
      destruct (Nat.ltb_spec j (S (calls th))), (Nat.ltb_spec j (calls th)), (Nat.eqb_spec j (calls th)); (done || lia). }
  assert (Hcon : forall j, contributed j th' = contributed j th).
  { intros j. unfold th'. destruct b; [done|]. cbn [count_th]. destruct (counted_outside j (returns th) eq_refl) as [_ ->]. rewrite Hret.
    unfold contributed. cbn [pc th]. rewrite andb_true_r.
    destruct (Nat.ltb_spec j (S (calls th))), (Nat.ltb_spec j (calls th)), (Nat.eqb_spec j (calls th)); (done || lia). }
  assert (Hflag : filling th' = false /\ publishing th' = false) by (unfold th'; by destruct b).
  pose proof (extends_refl _ _ HR) as HX.
  assert (Hsame : forall j, j <> calls th -> (j < length (hist g))%nat ->
      orders g !! j = orders g !! j /\ (j <? published g)%nat = (j <? published g)%nat /\
      (j <? claimed g)%nat = (j <? claimed g)%nat /\ counted j th' = counted j th /\ contributed j th' = contributed j th).
  { intros j Hne Hj. by rewrite Hcnt, Hcon, (proj2 (Nat.eqb_neq _ _) Hne), orb_false_r. }
  assert (Havail : avail x + 1 = Z.of_nat (count_if (counted (calls th)) (<[t := th']> ths))).
  { pose proof (count_if_insert (counted (calls th)) ths t th th' Ht) as Hcf. rewrite Hcnt, Nat.eqb_refl, orb_true_r, Hnc in Hcf.
    destruct Hxok as [-> _]. rewrite (proj2 (Nat.ltb_lt _ _) Hk). lia. }
  eapply (advance g g q _ ths t th th' (x <| avail := avail x + 1 |>)); try done.
  - eapply (mem_advance g g q _ ths t th th'); try done. unfold th'. by destruct b.
  - eapply (round_advance g g q ths t th th'); try done.
    + rewrite <- (ri_filling _ _ HR). apply count_same with th; [done|]. by rewrite (proj1 Hflag).
    + rewrite <- (ri_publishing _ _ HR). apply count_same with th; [done|]. by rewrite (proj2 Hflag).
    + intros l Hl'. destruct (ri_orders _ _ HR _ _ Hl') as (? & ? & Hin). split_and!; [done|done|]. intros u. rewrite Hin.
      eapply contributed_same; [exact Ht|apply Hcon].
    + destruct (broken g); lia.
    + eapply gone_same; [exact HI|exact Ht|]. intros E. unfold th', b. by rewrite E, Nat.eqb_refl.
    + by left.
    + rewrite Hcnt. by intros ->.
    + intros _. eapply some_counted; [exact Ht|]. rewrite Hcnt, Nat.eqb_refl. apply orb_true_r.
    + destruct (broken g); lia.
    + by left.
    + intros u z Hne Hu. eapply (take_advance g g ths t th th'); try done; [rewrite Hcnt; by intros ->| |by apply (ri_take _ _ HR u)].
      intros Hz Ez Hall. apply (Hawake) with u z; try done. rewrite Havail. f_equal. rewrite <- Hn, <- (length_insert ths t th').
      by apply count_if_all.
    + unfold th'. by destruct b.
  - exact (bi_first _ _ HI).
  - intros _. split.
    + rewrite (proj2 (Nat.ltb_lt _ _) Hk). exact Havail.
    + intros o' Hord'. destruct Hxok as [_ Hxok]. exact (Hxok o' Hord').
  - intros j h Hj Hjh. apply lookup_lt_Some in Hjh. lia.
  - intros u z Hne Hu. split_and!; try done.
    intros Hz Hlt. pose proof (thread_at _ _ _ _ _ HI Hu) as [_ Hyok]. rewrite Hz in Hyok. destruct Hyok as (_ & _ & _ & ? & ?). lia.
  - unfold th'. destruct (decide (t = root)) as [E|E].
    + assert (b = true) as -> by (unfold b; by rewrite E, Nat.eqb_refl). split; [exact Hl|]. split; [exact Hh|].
      split_and!; try done. change (mine th) with mi in Hm. intros Em. change (mi = true) in Em. congruence.
    + assert (b = false) as -> by (by apply Nat.eqb_neq). cbn [count_th].
      apply (returns_ok g _ t th order); [exact Hl|exact Hord|by apply (out_agrees g t th order)|].
      unfold key_next in Hkey. change (mine th) with mi in Hkey, Hm. rewrite Hm in Hkey. exact Hkey.
Qed.

Definition set_oldest (m : nat) (g : ghost) : ghost :=
  Ghost (claimed g) (filled g) (published g) (hist g) (broken g) (orders g) m (frees g).

Lemma take_step g q ths t th x y got' : rdco_inv g (q, ths) -> ths !! t = Some th -> pc th = AtTake ->
  handles q !! curitem th = Some x ->
  (forall order, orders g !! calls th = Some order -> (ret th, got') = out t (calls th) order) ->
  exists g', rdco_inv g' (set_handle (curitem th) y (q <| first := next x |>), <[t := goes AtPush th <| got := got' |>]> ths).
Proof.
  intros HI Ht Hpc Hx Hout. pose proof (thread_at _ _ _ _ _ HI Ht) as Hok.
  place_of th Hpc. destruct Hok as [Hl [Hh (-> & Hk & Hag & Hkey & Hm)]]. cbn [curitem mine] in *.
  set (th := Thread AtTake ky c nw lf mi cn re go lg) in *.
  pose proof (bi_round _ _ HI) as HR. pose proof (bi_mem _ _ HI) as HM. destruct (bi_size _ _ HI) as [_ Hn]. cbn [fst snd] in HR, HM, Hn.
  pose proof (ri_stages _ _ HR) as Hst. pose proof (ri_length _ _ HR) as [Hlo Hlh]. pose proof (lookup_lt_Some _ _ _ Hh) as Hkl.
  destruct (order_at _ _ _ HR Hk) as [order Hord].
  pose proof (ri_take _ _ HR _ _ Ht) as [_ Hall]. change (calls th) with (calls th) in Hall.
  assert (oldest g = calls th) as Hold.
  { destruct (ri_gone _ _ HR) as (rt & Hrt & ->). assert (rt = th) as -> by congruence. change (gone th) with (calls th). lia. }
  set (g' := set_oldest (S (calls th)) g). set (th' := goes AtPush th <| got := got' |>). exists g'.
  assert (extends g g') as HX.
  { split; cbn [g' set_oldest claimed filled published hist broken orders oldest]; try done; try lia.
    intros j o' Hj. exact (orders_refl g ths j o' HR Hj). }
  assert (Hsame : forall j, j <> calls th -> (j < length (hist g))%nat ->
      orders g' !! j = orders g !! j /\ (j <? published g')%nat = (j <? published g)%nat /\
      (j <? claimed g')%nat = (j <? claimed g)%nat /\ counted j th' = counted j th /\ contributed j th' = contributed j th) by done.
  eapply (advance g g' q _ ths root th th' y); try done; [by rewrite Hold| | | | | |].
  - apply (mem_perm g _ q _ ths); try done.
    + unfold owned. cbn [g' set_oldest oldest hist frees]. rewrite Hold, (drop_S _ _ _ Hh).
      pose proof (bind_insert in_hand ths root th th' Ht) as Hb. change (in_hand th') with [c] in Hb. change (in_hand th) with (@nil Z) in Hb.
      rewrite app_nil_r in Hb. rewrite Hb. cbn [app]. rewrite (Permutation_app_comm (ths ≫= in_hand)). cbn [app].
      rewrite <- Permutation_middle. cbn. by rewrite <- Permutation_middle.
    + intros a. change (handles (set_handle c y (q <| first := next x |>))) with (<[c := y]> (handles q)). destruct (decide (a = c)) as [->|].
      * change (curitem th) with c in Hx. rewrite lookup_insert_eq, Hx. split; by eexists.
      * by rewrite lookup_insert_ne.
    + apply chain_insert; [|exact (mi_chain _ _ _ HM)]. eapply (hist_free_apart g q ths); [exact HM|]. eapply elem_of_dropped; [|exact Hh]. lia.
  - eapply (round_advance g g' q ths root th th'); try done; cbn [g' set_oldest claimed filled published hist broken orders oldest].
    + by rewrite Hold.
    + rewrite <- (ri_filling _ _ HR). by apply count_same with th.
    + rewrite <- (ri_publishing _ _ HR). by apply count_same with th.
    + intros l Hl'. destruct (ri_orders _ _ HR _ _ Hl') as (? & ? & Hin). split_and!; [done|done|]. intros u. rewrite Hin.
      by eapply contributed_same.
    + destruct (broken g); lia.
    + exists th'. rewrite list_lookup_insert_eq by (by eapply lookup_lt_Some). split; [done|]. change (gone th') with (S (calls th)). lia.
    + right. split_and!; [done|done|]. by eapply all_counted_more.
    + intros _. rewrite (count_same (counted (calls th)) ths root th th' Ht) by done. by apply (ri_some _ _ HR).
    + destruct (broken g); lia.
    + by left.
    + intros u z Hne Hu. eapply (take_advance g g' ths root th th'); try done; [lia| |by apply (ri_take _ _ HR u)].
      intros Hz Ez. pose proof (thread_at _ _ _ _ _ HI Hu) as [_ Hzok]. rewrite Hz in Hzok. by destruct Hzok as (_ & ? & _).
  - cbn. lia.
  - intros j h Hj Hjh. apply lookup_lt_Some in Hjh. cbn in Hjh. lia.
  - intros u z Hne Hu. split_and!; try done.
    intros Hz Hlt. pose proof (thread_at _ _ _ _ _ HI Hu) as [_ Hyok]. rewrite Hz in Hyok. destruct Hyok as (_ & _ & _ & ? & ?).
    change (published g') with (published g) in Hlt. lia.
  - split; [eapply log_extends; [exact HX| |exact Hl]|].
    + intros _. change (length (log th')) with (calls th). lia.
    + split; [exact Hh|]. split_and!; [done|cbn [g' set_oldest oldest]; change (calls th') with (calls th); lia|exact Hkey|].
      exists order. split; [exact Hord|]. by apply Hout.
Qed.

Lemma content_length j f rest l : content j (Some (f :: rest)) = Live l -> length l = length (sends 0%nat j).
Proof. intros [= <-]. by apply length_reduce_all. Qed.

Lemma take_run_ok g q ths t th nomem send : rdco_inv g (q, ths) -> ths !! t = Some th -> pc th = AtTake ->
  fine ths t (rdco_atomic o (t =? root)%nat nomem send q th).
Proof.
  intros HI Ht Hpc. pose proof (thread_at _ _ _ _ _ HI Ht) as [_ Hok]. rewrite Hpc in Hok. destruct Hok as (Hh & -> & Hk & [Hg Hag] & _ & Hm).
  pose proof (bi_round _ _ HI) as HR. cbn [snd] in HR. destruct (order_at _ _ _ HR Hk) as [order Hord]. rewrite Hord in Hag.
  destruct (cur_handle _ _ _ _ _ HI Ht Hh) as (Ho & x & Hx & [_ Hxok]); [right; split; [done|]; unfold gone; by rewrite Hpc|].
  destruct (Hxok _ Hord) as (_ & Hd & _). unfold rdco_atomic, rdco_body. rewrite Hpc, (with_handle_eq _ _ _ _ Hx). cbv zeta.
  assert (forall y got', (ret th, got') = out root (calls th) order ->
    fine ths root (Moves (set_handle (curitem th) y (q <| first := next x |>)) (goes AtPush th <| got := got' |>) NoWake)) as Hstep.
  { intros y got' Hout. destruct (take_step g q ths root th x y got' HI Ht Hpc Hx) as [g' Hg']; [|by apply fine_moves with g'].
    intros o' Ho'. assert (o' = order) as -> by congruence. done. }
  assert (goes AtPush th = goes AtPush th <| got := got th |>) as Hgot by (by destruct th).
  rewrite Hd. unfold out in Hstep. rewrite Nat.eqb_refl in Hstep.
  assert (set_handle (curitem th) x (q <| first := next x |>) = q <| first := next x |>) as Hid by (by apply set_handle_id).
  destruct order as [[|f rest]|]; [done| |].
  - destruct Hag as [Hr Hc]. cbn [content] in *. rewrite Hr in *. destruct (mine th).
    + specialize (Hstep x). rewrite Hid in Hstep. by apply Hstep.
    + rewrite Z.eqb_refl. apply Hstep. rewrite take_ge; [done|]. by rewrite (length_reduce_all o sends same_count), Hc.
  - cbn [content] in *. destruct (mine th); [rewrite Hm in Hag by done; done|]. rewrite Hag. change (-2 =? 0) with false. cbn iota.
    rewrite Hgot. specialize (Hstep x). rewrite Hid in Hstep. apply Hstep. by rewrite Hag, Hg.
Qed.

(** Waking first and moving then comes to the same. *)
Lemma wake_on_insert h (ths : list thread) t th' : asleep_on h th' = false -> wake_on h <$> <[t := th']> ths = <[t := th']> (wake_on h <$> ths).
Proof. intros H. rewrite list_fmap_insert. unfold wake_on at 1. by rewrite H. Qed.

Lemma publish_ok g q ths t th nomem send : rdco_inv g (q, ths) -> ths !! t = Some th -> pc th = AtPublish ->
  fine ths t (rdco_atomic o (t =? root)%nat nomem send q th).
Proof.
  intros HI Ht Hpc. pose proof (thread_at _ _ _ _ _ HI Ht) as [_ Hok]. rewrite Hpc in Hok. destruct Hok as (Hh & _).
  destruct (cur_handle _ _ _ _ _ HI Ht Hh) as (Ho & x & Hx & _).
  { left. unfold counted. by rewrite Hpc, Nat.ltb_irrefl, andb_false_r. }
  unfold rdco_atomic, rdco_body. rewrite Hpc, (with_handle_eq _ _ _ _ Hx). cbv zeta. set (b := (t =? root)%nat && (ret th =? 0)).
  assert (fine ths t (Moves (set_handle (curitem th) (x <| avail := 1 |>) q) (counted_th b th) (WakeAll (curitem th)))) as H;
    [|by unfold counted_th in H; destruct b].
  intros ths' Hw. inversion Hw; subst. rewrite wake_on_insert by (unfold counted_th; by destruct b).
  pose proof (wake_all_ok g q ths (curitem th) HI) as HI'.
  assert ((wake_on (curitem th) <$> ths) !! t = Some th) as Ht'.
  { rewrite list_lookup_fmap, Ht. cbn. unfold wake_on, asleep_on. by rewrite Hpc. }
  apply (publish_step g); try done. intros u z Hu Hz Ez. pose proof (thread_at _ _ _ _ _ HI' Hu) as [_ Hzok]. rewrite Hz in Hzok.
  destruct Hzok as (Hzh & _). rewrite Ez in Hzh. assert (curitem z = curitem th) as Ec by congruence.
  rewrite list_lookup_fmap in Hu. destruct (ths !! u) as [z0|]; [|done]. injection Hu as <-. unfold wake_on in Hz, Ec.
  destruct (asleep_on (curitem th) z0) eqn:E; [unfold wake in Hz; destruct (pc z0) eqn:E0; cbn in Hz; congruence|].
  unfold asleep_on in E. rewrite Hz, Ec, Z.eqb_refl in E. done.
Qed.

Lemma count_ok g q ths t th nomem send : rdco_inv g (q, ths) -> ths !! t = Some th -> pc th = AtCount ->
  fine ths t (rdco_atomic o (t =? root)%nat nomem send q th).
Proof.
  intros HI Ht Hpc. pose proof (thread_at _ _ _ _ _ HI Ht) as [_ Hok]. rewrite Hpc in Hok. destruct Hok as (Hh & _ & Hk & _).
  destruct (cur_handle _ _ _ _ _ HI Ht Hh) as (Ho & x & Hx & _).
  { left. unfold counted. by rewrite Hpc, Nat.ltb_irrefl, andb_false_r. }
  unfold rdco_atomic, rdco_body. rewrite Hpc, (with_handle_eq _ _ _ _ Hx). cbv zeta. cbn [avail upd].
  destruct (bi_size _ _ HI) as [Hs _]. cbn [fst] in Hs.
  set (w := if _ && _ then WakeOne (curitem th) else NoWake).
  assert (fine ths t (Moves (set_handle (curitem th) (x <| avail := avail x + 1 |>) q) (count_th (t =? root)%nat th) w)) as H;
    [|by unfold count_th in H; destruct (t =? root)%nat].
  assert (forall h, asleep_on h (count_th (t =? root)%nat th) = false) as Hawake by (intros h; unfold count_th; by destruct (t =? root)%nat).
  (* who sleeps at the end of round [k] sleeps on its handle *)
  assert (forall ths0 u z, rdco_inv g (q, ths0) -> ths0 !! u = Some z -> pc z = Asleep2 -> calls z = calls th ->
    u = root /\ asleep_on (curitem th) z = true) as Hroot.
  { intros ths0 u z HI0 Hu Hz Ez. pose proof (thread_at _ _ _ _ _ HI0 Hu) as [_ Hzok]. rewrite Hz in Hzok.
    destruct Hzok as (Hzh & -> & _). rewrite Ez in Hzh. split; [done|]. unfold asleep_on. rewrite Hz. apply Z.eqb_eq. congruence. }
  assert (w = NoWake /\ (avail x + 1 = Z.of_nat n -> t = root) \/ w = WakeOne (curitem th)) as [[-> Hw]| ->].
  { unfold w. change (group_size _) with (group_size q). rewrite Hs. destruct (Z.eqb_spec (avail x + 1) (Z.of_nat n)) as [E|E]; [|by left]. cbn [andb].
    destruct (Nat.eqb_spec t root); [by left|by right]. }
  - apply fine_moves with g. apply count_step; try done. intros E u z Hne Hu Hz Ez. specialize (Hw E).
    destruct (Hroot ths u z HI Hu Hz Ez) as [-> _]. congruence.
  - intros ths' Hw. exists g. inversion Hw as [| |? ? u z Hu Hz|? ? Hall]; subst.
    + destruct (decide (u = t)) as [->|Hne].
      { rewrite list_lookup_insert_eq in Hu by (by eapply lookup_lt_Some). injection Hu as <-. by rewrite Hawake in Hz. }
      rewrite list_lookup_insert_ne in Hu by done. rewrite list_insert_insert_ne by done.
      pose proof (spurious_ok g q ths u z HI Hu) as HI'. apply count_step; try done; [by rewrite list_lookup_insert_ne|].
      intros E v z' Hv Hz' Hpc' Ez'. destruct (Hroot _ v z' HI' Hz' Hpc' Ez') as [-> Has].
      destruct (decide (u = root)) as [->|Hur].
      * rewrite list_lookup_insert_eq in Hz' by (by eapply lookup_lt_Some). injection Hz' as <-.
        unfold wake in Hpc'. destruct (pc z) eqn:E0; cbn in Hpc'; congruence.
      * (* another thread asleep on the handle would not be counted *)
        pose proof (thread_at _ _ _ _ _ HI Hu) as [_ Hzok]. unfold asleep_on in Hz. destruct (pc z) eqn:E0; try done.
        -- apply Z.eqb_eq in Hz. destruct Hzok as (Hzh & _ & _ & _ & Hzk). rewrite Hz in Hzh.
           assert (counted (calls z) z = false) as Hnc by (unfold counted; by rewrite E0, Nat.ltb_irrefl, andb_false_r).
           assert (hist g !! calls z = Some (curitem z)) as Hzh' by congruence.
           destruct (cur_handle _ _ _ _ _ HI Hu Hzh' (or_introl Hnc)) as [Hoz _].
           pose proof (round_handle g q ths th HI Hh Ho (calls z) (curitem th) Hoz) as Hrh. apply Hrh; [lia|done|done].
        -- by destruct Hzok as (_ & -> & _).
    + apply count_step; try done. intros E u z Hne Hu Hz Ez. destruct (Hroot _ u z HI Hu Hz Ez) as [_ Has].
      pose proof (proj1 (Forall_lookup _ _) Hall u z) as Hf. rewrite list_lookup_insert_ne in Hf by done. specialize (Hf Hu).
      cbn beta in Hf. congruence.
Qed.

Lemma run_ok g q ths t th nomem : rdco_inv g (q, ths) -> ths !! t = Some th -> ~ atomic_stale (q, ths) t ->
  fine ths t (rdco_atomic o (t =? root)%nat nomem (sends t (calls th)) q th).
Proof.
  intros HI Ht Hs. destruct (pc th) eqn:Hpc.
  - unfold rdco_atomic, rdco_body. rewrite Hpc. by eapply call_ok.
  - by eapply first_ok.
  - unfold rdco_atomic, rdco_body. rewrite Hpc. by eapply pop_ok.
  - unfold rdco_atomic, rdco_body. rewrite Hpc. by eapply next_ok.
  - unfold rdco_atomic, rdco_body. rewrite Hpc. by eapply cas_ok.
  - unfold rdco_atomic, rdco_body. rewrite Hpc. by eapply chunk_ok.
  - unfold rdco_atomic, rdco_body. rewrite Hpc. by eapply link_ok.
  - unfold rdco_atomic, rdco_body. rewrite Hpc. by eapply linkcas_ok.
  - by eapply init_ok.
  - by eapply claim_ok.
  - eapply return_ok; eauto.
  - eapply return_ok; eauto.
  - by eapply fill_ok.
  - by eapply publish_ok.
  - eapply wait_ok; eauto.
  - unfold rdco_atomic, rdco_body. by rewrite Hpc.
  - eapply wait_ok; eauto.
  - by eapply reduce_step.
  - by eapply key_ok.
  - by eapply count_ok.
  - unfold rdco_atomic, rdco_body. rewrite Hpc. eapply root_waits; eauto.
  - unfold rdco_atomic, rdco_body. rewrite Hpc. eapply root_waits; eauto.
  - unfold rdco_atomic, rdco_body. by rewrite Hpc.
  - unfold rdco_atomic, rdco_body. rewrite Hpc. eapply root_waits; eauto.
  - by eapply take_run_ok.
  - eapply push_ok; eauto.
  - eapply push_ok; eauto.
Qed.

Lemma calm_inv g s s' : rdco_inv g s -> atomic_calm_step o root sends s s' -> exists g', rdco_inv g' s'.
Proof.
  intros HI (t & Hcalm & Hs). destruct Hs as [nomem q ths th q' th' w ths' Ht Hrun Hw|q ths th Ht].
  - pose proof (run_ok g q ths t th nomem HI Ht Hcalm) as H. unfold calls in H. rewrite Hrun in H. by apply H.
  - exists g. by apply spurious_ok.
Qed.

(** ** The start *)

Lemma start_inv p s : 8 < p -> atomic_start n p s -> exists g, rdco_inv g s.
Proof.
  intros Hp (q & Hq & ->). unfold tmpi_rdcq_create in Hq. destruct (Z.ltb_spec (Z.of_nat n) 2) as [|Hk]; [done|].
  injection Hq as <-. rewrite Nat2Z.id. set (f := p + sizeof_RDCHandle) in *.
  set (hs := block_handles (tmpi_RDCHandle A) n f).
  assert (forall a, is_Some ((link_handles n f 0 : memory) !! a) <-> a ∈ hs) as Hdom.
  { intros a. unfold hs. rewrite <- (link_handles_lookup (T:=tmpi_RDCHandle A) n f 0 a). done. }
  assert (forall a, a ∈ hs -> f <= a < f + Z.of_nat n * sizeof_RDCHandle) as Hrange by (intros a Ha; exact (elem_of_block _ _ _ Ha)).
  assert (p ∉ hs) as Hpf by (intros H; apply Hrange in H; unfold f, sizeof_RDCHandle in H; lia).
  set (th := Thread (A:=A) Outside 0 0 0 0 false 0 0 None []).
  assert ((replicate n th ≫= in_hand) = []) as Hnone by (clear; induction n as [|k IH]; [done|exact IH]).
  set (g := Ghost 0 0 0 [p] false [] 0 hs). exists g.
  assert (owned g (replicate n th) = p :: hs) as Hown by (unfold owned; rewrite Hnone; cbn [g oldest hist frees drop]; by rewrite app_nil_r).
  assert (Hcnt : forall p : Reduce.thread A -> bool, p th = false -> count_if p (replicate n th) = O).
  { intros pr Hpr. apply count_if_none. by apply Forall_replicate. }
  assert (Hlook : forall t x, replicate n th !! t = Some x -> x = th) by (intros t x Hx; by apply lookup_replicate in Hx as [-> _]).
  split; cbn [fst snd].
  - split; [done|]. apply length_replicate.
  - split; rewrite ?Hown.
    + cbn [handles free frees g]. apply chain_insert; [done|]. rewrite <- (right_id_L ∅ (∪) (link_handles n f 0)).
      unfold hs. destruct n as [|k]; [lia|]. apply link_handles_chain.
    + constructor; [done|apply NoDup_block].
    + constructor; [cbn; rewrite lookup_insert_eq; by eexists|]. apply Forall_forall. intros a Ha. cbn.
      rewrite lookup_insert_ne by (by intros ->). by apply Hdom.
    + cbn [brk handles]. split; [unfold f, sizeof_RDCHandle; lia|]. intros a Ha. destruct (decide (a = p)) as [->|Hne].
      * unfold f, sizeof_RDCHandle. lia.
      * rewrite lookup_insert_ne in Ha by done. apply Hdom, Hrange in Ha. unfold f, sizeof_RDCHandle in *. lia.
    + by repeat constructor.
  - split; cbn [g claimed filled published hist broken orders oldest frees].
    + lia.
    + by apply Hcnt.
    + by apply Hcnt.
    + done.
    + intros j l Hj. by rewrite lookup_nil in Hj.
    + exists th. split; [by apply lookup_replicate_2|done].
    + intros j Hj. lia.
    + intros j Hj. lia.
    + intros t x j Hx Hj Hc. apply Hlook in Hx as ->. cbn in Hj. unfold counted in Hc. by rewrite andb_false_r in Hc.
    + intros t x Hx. by apply Hlook in Hx as ->.
  - done.
  - intros j h _ Hj. apply list_lookup_singleton_Some in Hj as [-> <-]. cbn. rewrite lookup_insert_eq. by eexists.
  - intros t x Hx. apply Hlook in Hx as ->. split; [done|]. by left.
Qed.

Lemma calm_reachable_inv p s : 8 < p -> atomic_calm o root sends n p s -> exists g, rdco_inv g s.
Proof.
  intros Hp (s0 & H0 & Hs). apply start_inv in H0; [|done]. induction Hs as [s|s1 s2 s3 H12 _ IH]; [done|].
  destruct H0 as [g Hg]. apply IH. by eapply calm_inv.
Qed.
End Inv.
