(* ===== verification/ReduceRefine.v ===== *)
(** The reduce queue refines its specification, one element at a time, as the allreduce
    object does: seen at one element, the threads that work on a handle's array side by
    side take effect one after the other, each in one step. *)
From stdpp Require Import relations.
From S2P Require Import Prelude Types RdcOp ElementWise HandleLists Allreduce AllreduceData AllreduceProps Reduce ReduceInv.

Open Scope Z_scope.

(** ** The queue at one element *)

Section Project.
Context {A : Type} `{!EqDecision A} (o : option (rdc_op A)) (i : nat).

Definition at_handle (x : tmpi_RDCHandle A) : tmpi_RDCHandle A := mkRdch (next x) (avail x) (at_block i (data x)) (one i (count x)).
Definition at_queue (q : tmpi_RDCQueue A) : tmpi_RDCQueue A :=
  mkRdcq (group_size q) (first q) (free q) (at_handle <$> handles q) (brk q).
Definition at_thread (th : thread A) : thread A :=
  Thread (pc th) (key th) (curitem th) (newitem th) (localfree th) (mine th) (one i (cnt th)) (ret th) (elem i <$> got th)
    (at_result i <$> log th).

(** A thread in the loop is about to reduce, or has done so when there is nothing more
    for it to do to the element. *)
Definition at_caller (c : caller A) : thread A :=
  match inloop c, o with
  | Some w, Some op =>
      if done_with op w i then goes AtKey (at_thread (regs c)) <| cnt := one i (length (source w)) |> else at_thread (regs c)
  | _, _ => at_thread (regs c)
  end.
Definition at_system (s : system) : atomic_system := (at_queue s.1, at_caller <$> s.2).

Definition at_effect (e : effect A (thread A)) : effect A (thread A) :=
  match e with Moves q th w => Moves (at_queue q) (at_thread th) w | Blocked => Blocked | Undefined => Undefined end.

Lemma rd_at_set h x q : at_queue (set_handle h x q) = set_handle h (at_handle x) (at_queue q).
Proof. unfold at_queue, set_handle, upd. cbn. by rewrite fmap_insert. Qed.
Lemma handle_at h q : handles (at_queue q) !! h = at_handle <$> handles q !! h.
Proof. apply lookup_fmap. Qed.
Lemma with_handle_at q h k k' : (forall x, k' (at_handle x) = at_effect (k x)) ->
  with_handle (at_queue q) h k' = at_effect (with_handle q h k).
Proof. intros H. unfold with_handle. rewrite handle_at. destruct (handles q !! h); [apply H|done]. Qed.
Lemma link_handles_at k f e : at_handle <$> (link_handles k f e : gmap Z (tmpi_RDCHandle A)) = link_handles k f e.
Proof.
  revert f. induction k as [|[|k] IH]; intros f; [apply fmap_empty|exact (map_fmap_singleton at_handle f (new_handle e))|].
  specialize (IH (f + sizeof_RDCHandle)).
  change (link_handles (S (S k)) f e) with (<[f := new_handle (f + sizeof_RDCHandle)]> (link_handles (S k) (f + sizeof_RDCHandle) e) : gmap Z (tmpi_RDCHandle A)).
  by rewrite fmap_insert, IH.
Qed.

Lemma alloc_at nomem q th : pc th <> Outside ->
  rdch_alloc_run nomem (at_queue q) (at_thread th) = at_effect (rdch_alloc_run nomem q th).
Proof.
  intros _. unfold rdch_alloc_run. cbn [pc at_thread newitem localfree free at_queue brk group_size].
  destruct (pc th); try done.
  - by apply with_handle_at.
  - by destruct (free q =? newitem th).
  - destruct nomem; [done|]. cbn [at_effect]. f_equal. unfold at_queue, upd. cbn. f_equal.
    rewrite fmap_insert. unfold at_handle at 2. cbn. f_equal. rewrite map_fmap_union. f_equal. symmetry. apply link_handles_at.
  - apply with_handle_at. intros x. cbn [at_effect]. by rewrite rd_at_set.
  - apply with_handle_at. intros x. cbn. by destruct (free q =? next x).
Qed.

(** The steps outside [simple_reduce] do the same at each element. *)
Lemma rd_body_at reduce reduce' at_root nomem send q th : pc th <> AtReduce ->
  rdco_body reduce' at_root nomem (elem i send) (at_queue q) (at_thread th) = at_effect (rdco_body reduce at_root nomem send q th).
Proof.
  intros Hpc. destruct (pc th) eqn:E; try done; unfold rdco_body; cbn [pc at_thread]; rewrite E; cbv zeta.
  - unfold rdco_call. cbn [group_size at_queue]. destruct (_ <? _); cbn.
    { unfold at_thread at 1. cbn. unfold at_thread. cbn. by rewrite fmap_app. }
    destruct (_ =? NO_HANDLE); cbn; unfold at_thread; cbn; by rewrite ?fmap_app, ?length_elem.
  - by apply with_handle_at.
  - apply (alloc_at nomem q th). congruence.
  - apply (alloc_at nomem q th). congruence.
  - apply (alloc_at nomem q th). congruence.
  - apply (alloc_at nomem q th). congruence.
  - apply (alloc_at nomem q th). congruence.
  - apply (alloc_at nomem q th). congruence.
  - destruct (newitem th =? NO_HANDLE) eqn:E2; cbn [newitem at_thread]; rewrite E2; [done|]. apply with_handle_at. intros x. cbn [at_effect]. by rewrite rd_at_set.
  - apply with_handle_at. intros x. cbn [at_handle avail]. destruct (avail x =? -1); cbn [at_effect]; by rewrite ?rd_at_set.
  - apply with_handle_at. intros x. cbn [at_effect]. by rewrite rd_at_set.
  - apply with_handle_at. intros x. cbn. by destruct (free q =? next x).
  - apply with_handle_at. intros x. destruct (nomem && _); cbn [at_effect]; by rewrite rd_at_set.
  - apply with_handle_at. intros x. cbn [ret at_thread]. destruct (at_root && _); cbn [at_effect]; rewrite rd_at_set; [done|]. unfold at_thread. cbn. by rewrite fmap_app.
  - by apply with_handle_at.
  - done.
  - by apply with_handle_at.
  - by apply with_handle_at.
  - apply with_handle_at. intros x. destruct at_root; cbn [at_effect]; rewrite rd_at_set; [done|]. unfold at_thread. cbn. by rewrite fmap_app.
  - by apply with_handle_at.
  - by apply with_handle_at.
  - done.
  - by apply with_handle_at.
  - apply with_handle_at. intros x. cbn [mine at_thread ret at_handle data]. destruct (mine th); [by destruct (data x)|]. destruct (ret th =? 0); [|done].
    destruct (data x); cbn [at_block at_effect]; [done|done|]. rewrite rd_at_set. unfold at_thread. cbn. by rewrite elem_take.
  - apply with_handle_at. intros x. cbn [at_effect]. by rewrite rd_at_set.
  - apply with_handle_at. intros x. cbn [free at_queue at_handle next]. destruct (free q =? next x); cbn [at_effect]; [|done]. cbn [mine at_thread]. destruct (mine th); unfold at_thread; cbn; by rewrite fmap_app.
Qed.
End Project.

(** ** What the specification gives *)

Section Spec.
Context {A : Type} (o : option (rdc_op A)) (n root : nat) (sends : nat -> nat -> list A).
Hypothesis same_count : forall t u k, length (sends t k) = length (sends u k).
Hypothesis two : (2 <= n)%nat.
Hypothesis root_in : (root < n)%nat.

(** The order of a round the root has left has all threads. *)
Lemma order_complete g s j l : rdco_inv o n root sends g s -> (j < oldest g)%nat -> orders g !! j = Some (Some l) -> l ≡ₚ seq 0 n.
Proof.
  intros HI Hj Ho. destruct s as [q ths]. destruct (bi_size _ _ _ _ _ _ HI) as [_ Hn]. pose proof (bi_round _ _ _ _ _ _ HI) as HR. cbn [snd] in *.
  destruct (ri_orders _ _ _ HR _ _ Ho) as (_ & Hnd & Hin). apply NoDup_Permutation; [done|apply NoDup_seq|]. intros t. rewrite Hin, elem_of_seq.
  split.
  - intros (th & Hth & _). apply lookup_lt_Some in Hth. lia.
  - intros Ht. destruct (lookup_lt_is_Some_2 ths t) as [th Hth]; [lia|]. exists th. split; [done|].
    pose proof (proj1 (Forall_lookup _ _) (ri_left _ _ _ HR j Hj) t th Hth) as Hc. cbn beta in Hc.
    unfold counted in Hc. unfold contributed. destruct (j <? calls th)%nat; [done|]. destruct (j =? calls th)%nat; [|done].
    by destruct (pc th).
Qed.

Theorem atomic_reduce_results p s (Hp : 8 < p) (Hs : atomic_calm o root sends n p s) :
  exists (R : list (option (list nat))) (broken : bool), forall t th j e, s.2 !! t = Some th -> log th !! j = Some e ->
    match R !! j with
    | Some (Some (f :: rest)) =>
        if (t =? root)%nat then e = (0, Some (reduce_all o sends j f rest)) /\ f :: rest ≡ₚ seq 0 n else e = (0, None)
    | Some _ => e = (-2, None)
    | None => broken = true /\ e = (-1, None)
    end.
Proof.
  destruct (calm_reachable_inv o n root sends same_count two root_in p s Hp Hs) as [g HI].
  exists (orders g), (broken g). intros t th j e Ht He. destruct s as [q ths]. cbn [snd] in Ht.
  pose proof (thread_at _ _ _ _ _ _ _ _ _ HI Ht) as [Hl _]. specialize (Hl j e He).
  destruct (orders g !! j) as [order|] eqn:Ho; [|exact Hl]. unfold out, content in Hl.
  destruct order as [[|f rest]|]; [done| |done]. destruct (Nat.eqb_spec t root) as [->|]; [|done]. split; [done|].
  apply (order_complete g (q, ths) j); [done| |done]. pose proof (bi_round _ _ _ _ _ _ HI) as HR. cbn [snd] in HR.
  destruct (ri_gone _ _ _ HR) as (rt & Hrt & ->). assert (rt = th) as -> by congruence.
  apply lookup_lt_Some in Ho, He. pose proof (proj1 (filled_hist _ _ _ HR)).
  assert (calls th <= gone th)%nat by (unfold gone; destruct (pc th); lia). unfold calls in *. lia.
Qed.

Lemma atomic_reduce_safe p s t th nomem (Hp : 8 < p) (Hs : atomic_calm o root sends n p s) (Ht : s.2 !! t = Some th)
    (Hstale : ~ atomic_stale s t) : rdco_atomic o (t =? root)%nat nomem (sends t (length (log th))) s.1 th <> Undefined.
Proof.
  destruct (calm_reachable_inv o n root sends same_count two root_in p s Hp Hs) as [g HI]. destruct s as [q ths].
  pose proof (run_ok o n root sends same_count two root_in g q ths t th nomem HI Ht Hstale) as H. unfold calls in H.
  intros E. cbn [fst] in E. by rewrite E in H.
Qed.

Definition sleeps (th : thread A) : bool := match pc th with Asleep | Asleep2 => true | _ => false end.

Theorem atomic_reduce_progress p s t th (Hp : 8 < p) (Hs : atomic_calm o root sends n p s) (Ht : s.2 !! t = Some th) (Hth : sleeps th = true) :
  exists u x, s.2 !! u = Some x /\ sleeps x = false /\ (calls x <= calls th)%nat /\ counted (calls th) x = false.
Proof.
  destruct (calm_reachable_inv o n root sends same_count two root_in p s Hp Hs) as [g HI]. destruct s as [q ths]. cbn [snd] in *.
  pose proof (thread_at _ _ _ _ _ _ _ _ _ HI Ht) as [_ Hok]. pose proof (bi_round _ _ _ _ _ _ HI) as HR. cbn [snd] in HR.
  pose proof (ri_stages _ _ _ HR) as Hst. unfold sleeps in Hth. destruct (pc th) eqn:Hpc; try done.
  - destruct Hok as (Hh & _ & _ & Hc & Hp'). pose proof (round_published _ _ _ _ _ _ _ _ _ HI Ht Hh) as Hle.
    assert (0 < count_if filling ths \/ 0 < count_if publishing ths)%nat as [Hz|Hz]
      by (rewrite (ri_filling _ _ _ HR), (ri_publishing _ _ _ HR); lia);
      apply count_if_pos in Hz as (u & x & Hu & Hx); exists u, x; pose proof (thread_at _ _ _ _ _ _ _ _ _ HI Hu) as [_ Hxok];
      unfold filling, publishing in Hx; destruct (pc x) eqn:Ex; try done; unfold sleeps, counted; rewrite Ex, andb_false_r, orb_false_r.
    + destruct Hxok as (_ & _ & _ & ? & ? & _). split_and!; [done|done|lia|]. apply Nat.ltb_ge. lia.
    + destruct Hxok as (_ & _ & ? & ? & _). split_and!; [done|done|lia|]. apply Nat.ltb_ge. lia.
  - pose proof (ri_take _ _ _ HR _ _ Ht) as Htake. unfold take_ok in Htake. rewrite Hpc in Htake. destruct Htake as [_ Hall].
    unfold all_counted in Hall.
    apply not_Forall_Exists in Hall; [|intros x; apply _]. apply Exists_exists in Hall as (x & Hx & Hxc).
    apply list_elem_of_lookup in Hx as [u Hu]. apply not_true_is_false in Hxc. exists u, x.
    assert (calls x <= calls th)%nat as Hle.
    { unfold counted in Hxc. destruct (Nat.ltb_spec (calls th) (calls x)); [done|lia]. }
    split_and!; try done. destruct Hok as (_ & -> & Hk & _). pose proof (thread_at _ _ _ _ _ _ _ _ _ HI Hu) as [_ Hxok].
    unfold sleeps. destruct (pc x) eqn:Ex; try done.
    + destruct Hxok as (_ & _ & _ & _ & ?). lia.
    + destruct Hxok as (_ & -> & _). assert (x = th) as -> by congruence. unfold counted in Hxc. rewrite Hpc, Nat.eqb_refl in Hxc.
      by rewrite orb_true_r in Hxc.
Qed.

(** A thread about to reduce, and the handle it reduces into. *)
Lemma atomic_at_reduce p s t th : 8 < p -> atomic_calm o root sends n p s -> s.2 !! t = Some th -> pc th = AtReduce ->
  ret th = 0 /\ cnt th = length (sends t (calls th)) /\ exists x, handles s.1 !! curitem th = Some x /\
  match data x with
  | Live l => length l = length (sends t (calls th)) /\ count x = length l
  | Null => True
  | Freed => False
  end.
Proof.
  intros Hp Hs Ht Hpc. destruct (calm_reachable_inv o n root sends same_count two root_in p s Hp Hs) as [g HI]. destruct s as [q ths]. cbn [fst snd] in *.
  pose proof (thread_at _ _ _ _ _ _ _ _ _ HI Ht) as [_ Hok]. rewrite Hpc in Hok. destruct Hok as (Hh & (Hcnt & Hret & _) & _ & Hk).
  destruct (cur_handle _ _ _ _ two root_in _ _ _ _ _ HI Ht Hh) as (_ & x & Hx & _ & Hxok); [left; unfold counted; by rewrite Hpc, Nat.ltb_irrefl, andb_false_r|].
  split; [done|]. split; [done|]. exists x. split; [done|].
  destruct (order_at _ _ two root_in _ _ _ (bi_round _ _ _ _ _ _ HI) Hk) as [order Hord]. destruct (Hxok _ Hord) as (_ & Hd & Hc). rewrite Hd in *.
  destruct order as [[|f rest]|]; cbn [content block_count] in *; [done| |done].
  split; [|exact Hc]. rewrite (length_reduce_all o sends same_count). apply same_count.
Qed.

(** A thread that has reduced: there was an array unless it says otherwise. *)
Lemma atomic_at_key p s t th : 8 < p -> atomic_calm o root sends n p s -> s.2 !! t = Some th -> pc th = AtKey -> ret th = 0 ->
  exists x l, handles s.1 !! curitem th = Some x /\ data x = Live l /\ cnt th = length l.
Proof.
  intros Hp Hs Ht Hpc H0. destruct (calm_reachable_inv o n root sends same_count two root_in p s Hp Hs) as [g HI]. destruct s as [q ths]. cbn [fst snd] in *.
  pose proof (thread_at _ _ _ _ _ _ _ _ _ HI Ht) as [_ Hok]. rewrite Hpc in Hok. destruct Hok as (Hh & _ & Hk & _ & Hag).
  destruct (cur_handle _ _ _ _ two root_in _ _ _ _ _ HI Ht Hh) as (_ & x & Hx & _ & Hxok); [left; unfold counted; by rewrite Hpc, Nat.ltb_irrefl, andb_false_r|].
  destruct (order_at _ _ two root_in _ _ _ (bi_round _ _ _ _ _ _ HI) Hk) as [order Hord]. destruct (Hxok _ Hord) as (_ & Hd & _). rewrite Hord in Hag.
  destruct order as [[|f rest]|]; [done| |congruence]. destruct Hag as [_ Hc].
  exists x, (reduce_all o sends (calls th) f rest). rewrite (length_reduce_all o sends same_count). done.
Qed.

(** Nobody fills a handle or takes its result while a thread reduces into it. *)
Lemma atomic_reduce_exclusive p s t u th x : 8 < p -> atomic_calm o root sends n p s -> s.2 !! t = Some th -> s.2 !! u = Some x ->
  (pc th = AtReduce \/ pc th = AtKey) -> curitem x = curitem th -> pc x <> AtFill /\ pc x <> AtTake.
Proof.
  intros Hp Hs Ht Hu Hpc Hcur. destruct (calm_reachable_inv o n root sends same_count two root_in p s Hp Hs) as [g HI]. destruct s as [q ths]. cbn [fst snd] in *.
  pose proof (thread_at _ _ _ _ _ _ _ _ _ HI Ht) as [_ Hok]. pose proof (thread_at _ _ _ _ _ _ _ _ _ HI Hu) as [_ Hx].
  assert (hist g !! calls th = Some (curitem th) /\ (calls th < published g)%nat) as [Hh Hk] by (destruct Hpc as [E|E]; rewrite E in Hok; tauto).
  assert (counted (calls th) th = false) as Hcount by (unfold counted; rewrite Nat.ltb_irrefl; by destruct Hpc as [-> | ->]; rewrite andb_false_r).
  destruct (cur_handle _ _ _ _ two root_in _ _ _ _ _ HI Ht Hh (or_introl Hcount)) as (Ho & _). pose proof (bi_round _ _ _ _ _ _ HI) as HR. cbn [snd] in HR.
  assert (forall j, (oldest g <= j)%nat -> hist g !! j = Some (curitem th) -> j = calls th) as Hinj.
  { intros j Hj E. pose proof (mi_nodup _ _ _ _ (bi_mem _ _ _ _ _ _ HI)) as Hnd. unfold owned in Hnd. apply NoDup_app in Hnd as (Hnd & _).
    assert (j - oldest g = calls th - oldest g)%nat; [|lia].
    eapply NoDup_lookup; [exact Hnd| |]; rewrite lookup_drop; [replace (oldest g + (j - oldest g))%nat with j by lia|replace (oldest g + (calls th - oldest g))%nat with (calls th) by lia]; done. }
  pose proof (ri_stages _ _ _ HR) as Hst. split; intros E; rewrite E in Hx.
  - destruct Hx as (Hxh & _ & _ & Hxk & _). rewrite Hcur in Hxh. destruct (cur_handle _ _ _ _ two root_in _ _ _ _ _ HI Hu) as (Hxo & _); [by rewrite Hcur| |].
    { left. unfold counted. by rewrite E, Nat.ltb_irrefl, andb_false_r. }
    specialize (Hinj _ Hxo Hxh). lia.
  - destruct Hx as (Hxh & -> & _). rewrite Hcur in Hxh. pose proof (ri_take _ _ _ HR _ _ Hu) as Htk. unfold take_ok in Htk. rewrite E in Htk.
    destruct Htk as [_ Hall]. destruct (cur_handle _ _ _ _ two root_in _ _ _ _ _ HI Hu) as (Hxo & _); [by rewrite Hcur| |].
    { right. split; [done|]. unfold gone. by rewrite E. }
    rewrite (Hinj _ Hxo Hxh) in Hall. pose proof (proj1 (Forall_lookup _ _) Hall _ _ Ht) as Hc. cbn beta in Hc. congruence.
Qed.
End Spec.

(** ** The simulation *)

Section Refine.
Context {A : Type} `{!EqDecision A} (o : option (rdc_op A)) (n root : nat) (sends : nat -> nat -> list A).

Definition caller_ok (t : nat) (c : caller A) : Prop :=
  match inloop c with
  | None => True
  | Some w => pc (regs c) = AtReduce /\ ret (regs c) = 0 /\
      exists op, o = Some op /\ in_loop op (sends t (length (log (regs c)))) w
  end.
Definition callers_ok (cs : list (caller A)) : Prop := forall t c, cs !! t = Some c -> caller_ok t c.

Lemma rd_wake_at i t c : caller_ok t c -> at_caller o i (wake_caller c) = wake (at_caller o i c).
Proof.
  unfold caller_ok, at_caller, wake_caller. cbn [inloop regs]. destruct (inloop c) as [w|].
  - intros (Hpc & _ & op & -> & _). unfold wake at 1 2. rewrite Hpc. by destruct (done_with _ _ _); unfold wake; cbn; rewrite ?Hpc.
  - intros _. unfold wake. cbn. by destruct (pc (regs c)).
Qed.
Lemma asleep_at i t h c : caller_ok t c -> asleep_on h (at_caller o i c) = asleep_on h (regs c).
Proof.
  unfold caller_ok, at_caller. destruct (inloop c) as [w|]; [|done]. intros (Hpc & _ & op & -> & _). unfold asleep_on. rewrite Hpc.
  destruct (done_with _ _ _); cbn; by rewrite ?Hpc.
Qed.
Lemma rd_wake_caller_ok t c : caller_ok t c -> caller_ok t (wake_caller c).
Proof.
  unfold caller_ok, wake_caller. cbn [inloop regs]. destruct (inloop c) as [w|]; [|done]. intros (Hpc & H). unfold wake. by rewrite Hpc.
Qed.
Lemma wake_on_at i t h c : caller_ok t c -> at_caller o i (wake_caller_on h c) = wake_on h (at_caller o i c).
Proof.
  intros Hok. unfold wake_on. rewrite (asleep_at i t h c Hok). unfold wake_caller_on, wake_on. destruct (asleep_on h (regs c)).
  - by apply (rd_wake_at i t).
  - by destruct c.
Qed.
Lemma wake_caller_on_ok t h c : caller_ok t c -> caller_ok t (wake_caller_on h c).
Proof.
  intros Hok. unfold wake_caller_on, wake_on. destruct (asleep_on h (regs c)); [by apply rd_wake_caller_ok|by destruct c].
Qed.

Lemma callers_insert cs t c' : callers_ok cs -> caller_ok t c' -> callers_ok (<[t := c']> cs).
Proof.
  intros Hcs Hc' u c Hu. destruct (decide (u = t)) as [->|Hne]; [|rewrite list_lookup_insert_ne in Hu by done; by apply Hcs].
  rewrite list_lookup_insert_eq in Hu; [by injection Hu as <-|]. apply lookup_lt_Some in Hu. by rewrite length_insert in Hu.
Qed.

(** Waking is the same at each element. *)
Lemma wakes_at i w cs cs' : callers_ok cs -> wakes w cs cs' ->
  callers_ok cs' /\ atomic_wakes w (at_caller o i <$> cs) (at_caller o i <$> cs').
Proof.
  intros Hok Hw. destruct Hw as [cs|h cs|h cs u x Hu Hx|h cs Hall].
  - split; [done|constructor].
  - split.
    + intros u c Hu. rewrite list_lookup_fmap in Hu. destruct (cs !! u) as [x|] eqn:E; [|done]. injection Hu as <-.
      apply wake_caller_on_ok. by apply Hok.
    + replace (at_caller o i <$> (wake_caller_on h <$> cs)) with (wake_on h <$> (at_caller o i <$> cs)); [constructor|].
      rewrite <- !list_fmap_compose. apply list_fmap_ext. intros u c Hu. symmetry. by apply (wake_on_at i u), Hok.
  - pose proof (Hok _ _ Hu) as Hxok. split; [apply callers_insert; [done|by apply rd_wake_caller_ok]|]. rewrite list_fmap_insert, (rd_wake_at i u x Hxok).
    constructor; [by rewrite list_lookup_fmap, Hu|by rewrite (asleep_at i u h x Hxok)].
  - split; [done|]. constructor. apply Forall_lookup. intros u x Hu. rewrite list_lookup_fmap in Hu.
    destruct (cs !! u) as [c|] eqn:E; [|done]. injection Hu as <-. rewrite (asleep_at i u h c (Hok _ _ E)).
    exact (proj1 (Forall_lookup _ _) Hall _ _ E).
Qed.

Lemma rd_log_at i c : log (at_caller o i c) = at_result i <$> log (regs c).
Proof. unfold at_caller. destruct (inloop c), o as [op|]; try done. by destruct (done_with op _ i). Qed.
Lemma curitem_at i c : curitem (at_caller o i c) = curitem (regs c).
Proof. unfold at_caller. destruct (inloop c), o as [op|]; try done. by destruct (done_with op _ i). Qed.

Lemma rd_at_lookup i (s : system (A:=A)) t c : s.2 !! t = Some c -> (at_system o i s).2 !! t = Some (at_caller o i c).
Proof. intros H. cbn. by rewrite list_lookup_fmap, H. Qed.

(** A [casp] is stale at an element when it is. *)
Lemma stale_at i s t : callers_ok s.2 -> atomic_stale (at_system o i s) t <-> stale s t.
Proof.
  intros Hok. unfold atomic_stale, stale. split.
  - intros (th & x & Ht & Hpc & Hf & Hx & Hn). cbn [at_system fst snd] in *. rewrite list_lookup_fmap in Ht.
    destruct (s.2 !! t) as [c|] eqn:E; [|done]. injection Ht as <-. pose proof (Hok _ _ E) as Hcok. unfold caller_ok in Hcok.
    unfold at_caller in *. destruct (inloop c) as [w|].
    + destruct Hcok as (Hr & _ & op & -> & _). exfalso. destruct (done_with _ _ _); cbn in Hpc; congruence.
    + cbn [at_thread pc newitem localfree] in *. rewrite handle_at in Hx. destruct (handles s.1 !! newitem (regs c)) as [y|] eqn:Ey; [|done].
      injection Hx as <-. by exists c, y.
  - intros (c & x & Ht & Hpc & Hf & Hx & Hn). exists (at_caller o i c), (at_handle i x). pose proof (Hok _ _ Ht) as Hcok. unfold caller_ok in Hcok.
    split; [by apply rd_at_lookup|]. unfold at_caller. destruct (inloop c) as [w|]; [destruct Hcok; congruence|]. cbn [at_thread pc newitem localfree at_system fst].
    rewrite handle_at, Hx. done.
Qed.

(** A step that is none at the element. *)
Lemma rd_at_stutter i q q' cs t c c' : cs !! t = Some c -> at_queue i q' = at_queue i q -> at_caller o i c' = at_caller o i c ->
  at_system o i (q', <[t := c']> cs) = at_system o i (q, cs).
Proof.
  intros Ht Hb Hc. unfold at_system. cbn [fst snd]. rewrite Hb, list_fmap_insert, Hc. f_equal.
  apply list_insert_id. by rewrite list_lookup_fmap, Ht.
Qed.

(** A step that is one. *)
Lemma rd_at_step i nomem q q' cs t c c' qi th' : callers_ok cs -> cs !! t = Some c -> pc (regs c) <> AtCas ->
  rdco_atomic o (t =? root)%nat nomem (sends_at sends i t (length (log (regs c)))) (at_queue i q) (at_caller o i c) = Moves qi th' NoWake ->
  qi = at_queue i q' -> th' = at_caller o i c' ->
  atomic_calm_step o root (sends_at sends i) (at_system o i (q, cs)) (at_system o i (q', <[t := c']> cs)).
Proof.
  intros Hok Ht Hpc Hrun -> ->. exists t. split.
  - rewrite stale_at by done. intros (c0 & x & Hc0 & Hp & _). cbn [snd] in Hc0. congruence.
  - unfold at_system. cbn [fst snd]. rewrite list_fmap_insert.
    eapply (atomic_run o root (sends_at sends i) t nomem); [by rewrite list_lookup_fmap, Ht| |constructor].
    by rewrite rd_log_at, length_fmap.
Qed.

Lemma rd_reducing_at i at_root nomem send q th x : pc th = AtReduce -> handles q !! curitem th = Some x ->
  let c := one i (Nat.min (cnt th) (count x)) in
  rdco_atomic o at_root nomem (elem i send) (at_queue i q) (at_thread i th) =
  match data x with
  | Live l => Moves (set_handle (curitem th) (at_handle i x <| data := Live (reduce_into o c (elem i l) (elem i send)) |>) (at_queue i q))
      (goes AtKey (at_thread i th) <| cnt := c |>) NoWake
  | Null => Moves (at_queue i q) (goes AtKey (at_thread i th) <| cnt := c |> <| ret := -2 |>) NoWake
  | Freed => Undefined
  end.
Proof.
  intros Hpc Hx. unfold rdco_atomic, rdco_body. cbv zeta. cbn [at_thread pc curitem cnt]. rewrite Hpc. unfold with_handle. rewrite handle_at, Hx.
  cbn [fmap option_fmap option_map at_handle data count]. rewrite one_min. by destruct (data x).
Qed.

Hypothesis same_count : forall t u k, length (sends t k) = length (sends u k).
Hypothesis two : (2 <= n)%nat.
Hypothesis root_in : (root < n)%nat.
Context (p : Z).
Hypothesis above : 8 < p.

(** The states whose threads are in order and which are reachable at each element in the
    specification. *)
Record refines (s : system) : Prop := Refines {
  rf_callers : callers_ok s.2;
  rf_atomic : forall i, atomic_calm o root (sends_at sends i) n p (at_system o i s)
}.

Notation same_at i := (same_count_at sends same_count i).

(** What the specification knows of a thread about to reduce. *)
Lemma rd_enter_facts s t th : refines s -> s.2 !! t = Some (Caller th None) -> pc th = AtReduce ->
  ret th = 0 /\ cnt th = length (sends t (length (log th))) /\ exists x, handles s.1 !! curitem th = Some x /\ data x <> Freed.
Proof.
  intros HR Ht Hpc.
  assert (forall i, _) as H by (intros i; exact (atomic_at_reduce o n root (sends_at sends i) (same_at i) two root_in p _ t _ above (rf_atomic _ HR i) (rd_at_lookup i _ _ _ Ht) Hpc)).
  unfold calls in H. cbn [at_caller inloop regs at_system fst at_thread ret cnt curitem log] in H.
  assert (forall x y, (forall i, one i x = one i y) -> x = y) as Hone.
  { intros x y Hxy. pose proof (one_inv _ _ _ (Hxy x)). pose proof (one_inv _ _ _ (Hxy y)). lia. }
  split; [by destruct (H 0%nat)|]. split.
  - apply Hone. intros i. destruct (H i) as (_ & Hc & _). by rewrite length_fmap in Hc; unfold sends_at in Hc; rewrite length_elem in Hc.
  - destruct (H 0%nat) as (_ & _ & y & Hy & Hd). rewrite handle_at in Hy. destruct (handles s.1 !! curitem th) as [x|]; [|done]. injection Hy as <-.
    exists x. split; [done|]. intros E. cbn in Hd. by rewrite E in Hd.
Qed.

(** What it knows of a thread in the loop. *)
Lemma rd_loop_facts s t th w op : refines s -> s.2 !! t = Some (Caller th (Some w)) -> o = Some op ->
  exists x l, handles s.1 !! curitem th = Some x /\ data x = Live l /\ (length (source w) <= length l)%nat /\
    forall i, done_with op w i = false -> one i (cnt th) = 1%nat /\ one i (count x) = 1%nat.
Proof.
  intros HR Ht Ho. pose proof (rf_callers _ HR _ _ Ht) as (Hpc & Hret & op' & Ho' & Hin). cbn [regs] in Hin, Hpc, Hret.
  assert (op' = op) as -> by congruence.
  assert (forall i, done_with op w i = false -> (i < length (sends t (length (log th))))%nat) as Hlt.
  { intros i Hd. unfold done_with in Hd. apply orb_false_elim in Hd as [Hd _]. apply Nat.leb_gt in Hd.
    destruct Hin as [(m & Hs) _ _]. rewrite Hs, length_take in Hd. lia. }
  assert (forall i, done_with op w i = true -> exists x l, handles s.1 !! curitem th = Some x /\ data x = Live l /\
    one i (length (source w)) = one i (length l)) as Hdone.
  { intros i Hd.
    destruct (atomic_at_key o n root (sends_at sends i) (same_at i) two root_in p _ t (at_caller o i (Caller th (Some w))) above (rf_atomic _ HR i) (rd_at_lookup i _ _ _ Ht)) as (y & l' & Hy & Hl & Hc);
      [unfold at_caller; cbn [inloop]; by rewrite Ho, Hd..|].
    rewrite curitem_at in Hy. cbn [at_system fst regs] in Hy. rewrite handle_at in Hy.
    destruct (handles s.1 !! curitem th) as [x|]; [|done]. injection Hy as <-. cbn [at_handle data] in Hl.
    destruct (data x) as [| |l] eqn:E; [done|done|]. exists x, l. split; [done|]. split; [done|]. injection Hl as <-.
    unfold at_caller in Hc. cbn [inloop] in Hc. rewrite Ho, Hd, length_elem in Hc. done. }
  destruct (Hdone (length (source w))) as (x & l & Hx & Hl & _); [unfold done_with; by rewrite Nat.leb_refl|]. exists x, l. split; [done|]. split; [done|].
  assert (forall i, done_with op w i = false -> (i < length l)%nat /\ one i (cnt th) = 1%nat /\ one i (count x) = 1%nat) as Hi.
  { intros i Hn.
    destruct (atomic_at_reduce o n root (sends_at sends i) (same_at i) two root_in p _ t (at_caller o i (Caller th (Some w))) above (rf_atomic _ HR i) (rd_at_lookup i _ _ _ Ht)) as (_ & Hc & y & Hy & Hb).
    { unfold at_caller. cbn [inloop]. by rewrite Ho, Hn. }
    rewrite curitem_at in Hy. unfold calls in *. rewrite rd_log_at, length_fmap in *. unfold at_caller in Hc. cbn [inloop] in Hc. rewrite Ho, Hn in Hc.
    cbn [at_system fst regs at_thread cnt] in *. rewrite handle_at, Hx in Hy. injection Hy as <-. cbn [at_handle data count] in Hb. rewrite Hl in Hb.
    cbn [at_block] in Hb. unfold sends_at in *. rewrite !length_elem in *. rewrite (one_lt i (length (sends _ _))) in * by (by apply Hlt).
    destruct Hb as [Hb1 Hb2]. split_and!; [|done|congruence].
    apply (one_inv i (length l) (S i)); [rewrite Hb1; by rewrite one_lt by lia|lia]. }
  split; [|intros i Hn; by destruct (Hi i Hn)].
  destruct (Nat.le_gt_cases (length (source w)) (length l)) as [|Hgt]; [done|].
  destruct (done_with op w (length l)) eqn:Hd; [|destruct (Hi _ Hd); lia].
  destruct (Hdone _ Hd) as (x' & l' & Hx' & Hl' & H1). assert (x' = x) as -> by congruence. assert (l' = l) as -> by congruence.
  rewrite (one_lt (length l)), one_ge in H1 by lia. done.
Qed.

Lemma at_queue_same i h x y (q : tmpi_RDCQueue A) : handles q !! h = Some x -> at_handle i y = at_handle i x -> at_queue i (set_handle h y q) = at_queue i q.
Proof. intros Hx H. rewrite rd_at_set, H. apply set_handle_id. by rewrite handle_at, Hx. Qed.

Notation simulated s s' := (forall i, rtc (atomic_calm_step o root (sends_at sends i)) (at_system o i s) (at_system o i s')).

(** The end of the loop is no step of the specification, which has reduced by then. *)
Lemma rd_leave_sim q cs t th w : refines (q, cs) -> cs !! t = Some (Caller th (Some w)) -> worker_at w = None ->
  simulated (q, cs) (q, <[t := reduced (length (source w)) th]> cs).
Proof.
  intros HR Ht Hw i. destruct (rf_callers _ HR _ _ Ht) as (Hpc & _ & op & Ho & Hin).
  erewrite rd_at_stutter; [apply rtc_refl|exact Ht|done|]. unfold at_caller, reduced. cbn [inloop regs].
  by rewrite Ho, (done_end op _ w i Hin Hw).
Qed.

(** A step in the loop. *)
Lemma rd_loop_sim q cs t th w op x l l' w' : refines (q, cs) -> cs !! t = Some (Caller th (Some w)) -> o = Some op ->
  handles q !! curitem th = Some x -> data x = Live l -> rdc_run op l w = Some (l', w') ->
  simulated (q, cs) (set_handle (curitem th) (x <| data := Live l' |>) q, <[t := Caller th (Some w')]> cs).
Proof.
  intros HR Ht Ho Hx0 Hl Hrun i. pose proof (rd_loop_facts _ _ _ _ _ HR Ht Ho) as (x0 & l0 & Hx1 & Hl0 & _ & Hd). cbn [fst] in Hx1.
  assert (x0 = x) as -> by congruence. assert (l0 = l) as -> by congruence. specialize (Hd i).
  pose proof (rf_callers _ HR) as Hcs. destruct (Hcs _ _ Ht) as (Hpc & _ & op' & Ho' & Hin). assert (op' = op) as -> by congruence. cbn [regs] in Hin, Hpc.
  destruct (rdc_run_elem op _ _ _ _ _ i Hin Hrun) as (_ & _ & Hsrc & [[Hsame Hli]|(Hn & Hy & r & e & Hr & Hx & Hr')]).
  - erewrite rd_at_stutter; [apply rtc_refl|exact Ht| |].
    + eapply at_queue_same; [done|]. unfold at_handle. cbn. rewrite Hl. cbn. by rewrite (elem_lookup _ _ _ Hli).
    + unfold at_caller. cbn [inloop regs]. by rewrite Ho, Hsame, Hsrc.
  - destruct (Hd Hn) as [Hc1 Hc2]. apply rtc_once. eapply rd_at_step; [exact Hcs|exact Ht|cbn [regs]; congruence|..].
    + unfold at_caller. cbn [inloop regs]. rewrite Ho, Hn.
      pose proof (rd_reducing_at i (t =? root)%nat false (sends t (length (log th))) q th x Hpc Hx0) as HE. cbv zeta in HE. rewrite Hl, Ho in HE. exact HE.
    + rewrite rd_at_set. f_equal. unfold at_handle. cbn. rewrite one_min, Hc1, Hc2. cbn [Nat.min].
      rewrite ?Ho, (reduce_into_elem op i l _ r e Hr (source_send _ _ _ _ _ Hin Hx)). unfold elem. by rewrite Hr'.
    + unfold at_caller. cbn [inloop regs]. rewrite Ho, Hy, Hsrc, one_min, Hc1, Hc2. cbn [Nat.min].
      by rewrite one_lt by (by eapply lookup_lt_Some).
Qed.

(** The entry to the loop: a step of the specification where the loop does not reach. *)
Lemma rd_enter_sim at_root nomem q cs t th q' c' w : refines (q, cs) -> cs !! t = Some (Caller th None) -> pc th = AtReduce ->
  rdco_run o at_root nomem (sends t (length (log th))) q (Caller th None) = Moves q' c' w ->
  w = NoWake /\ q' = q /\ caller_ok t c' /\ simulated (q, cs) (q', <[t := c']> cs).
Proof.
  intros HR Ht Hpc Hrun. destruct (rd_enter_facts _ _ _ HR Ht Hpc) as (Hret & Hcnt & x & Hx & Hd). cbn [fst] in Hx.
  pose proof (rf_callers _ HR) as Hcs. assert (pc (regs (Caller th None)) <> AtCas) as Hncas by (cbn [regs]; congruence).
  unfold rdco_run, rdco_enter in Hrun. cbn [inloop regs] in Hrun. rewrite Hpc in Hrun. unfold with_handle in Hrun. rewrite Hx in Hrun. cbv zeta in Hrun.
  pose proof (fun i => rd_reducing_at i (t =? root)%nat false (sends t (length (log th))) q th x Hpc Hx) as Hat. cbv zeta in Hat.
  set (c := Nat.min (cnt th) (count x)) in *.
  assert (forall i r, reduce_into o (one i c) (elem i r) (elem i (sends t (length (log th)))) = elem i r -> data x = Live r ->
    set_handle (curitem th) (at_handle i x <| data := Live (reduce_into o (one i c) (elem i r) (elem i (sends t (length (log th))))) |>) (at_queue i q) = at_queue i q) as Hid.
  { intros i r -> E. apply set_handle_id. rewrite handle_at, Hx. unfold at_handle. cbn. by rewrite E. }
  destruct (data x) as [| |l] eqn:E; [|done|].
  - injection Hrun as <- <- <-. split_and!; [done|done|done|]. intros i. apply rtc_once.
    eapply rd_at_step; [exact Hcs|exact Ht|exact Hncas|apply Hat|done|done].
  - destruct o as [op|] eqn:Ho in Hrun; injection Hrun as <- <- <-; (split_and!; [done|done| |]).
    + split; [done|]. split; [done|]. exists op. split; [done|]. apply in_loop_start.
    + intros i. destruct (Nat.le_gt_cases (length (take c (sends t (length (log th))))) i) as [Hi|Hi].
      * apply rtc_once. assert (one i c = 0%nat) as H0.
        { rewrite length_take in Hi. apply one_ge. lia. }
        eapply rd_at_step; [exact Hcs|exact Ht|exact Hncas|apply Hat| |].
        { apply Hid; [|done]. rewrite H0. apply reduce_into_0. }
        unfold at_caller. cbn [inloop regs]. rewrite Ho, done_start, (proj2 (Nat.leb_le _ _) Hi). cbn [source].
        by rewrite H0, one_ge.
      * erewrite rd_at_stutter; [apply rtc_refl|exact Ht|done|]. unfold at_caller. cbn [inloop regs].
        by rewrite Ho, done_start, (proj2 (Nat.leb_gt _ _) Hi).
    + done.
    + intros i. apply rtc_once. eapply rd_at_step; [exact Hcs|exact Ht|exact Hncas|apply Hat| |done]. apply Hid; [by rewrite Ho|done].
Qed.

Lemma rd_run_body at_root nomem send q th : pc th <> AtReduce ->
  rdco_run o at_root nomem send q (Caller th None) = outside_loop (rdco_body Blocked at_root nomem send q th).
Proof. intros Hpc. unfold rdco_run. cbn [inloop regs]. by destruct (pc th). Qed.
(** Outside the loop the step is the specification's at any element. *)
Lemma rd_run_at i at_root nomem send q th : pc th <> AtReduce ->
  rdco_atomic o at_root nomem (elem i send) (at_queue i q) (at_thread i th) = at_effect i (rdco_body Blocked at_root nomem send q th).
Proof. intros Hpc. unfold rdco_atomic. by apply rd_body_at. Qed.

(** The other steps. *)
Lemma rd_body_sim nomem q cs t th q' th' w cs' : refines (q, cs) -> cs !! t = Some (Caller th None) -> pc th <> AtReduce -> ~ stale (q, cs) t ->
  rdco_body Blocked (t =? root)%nat nomem (sends t (length (log th))) q th = Moves q' th' w ->
  wakes w (<[t := Caller th' None]> cs) cs' ->
  simulated (q, cs) (q', cs').
Proof.
  intros HR Ht Hpc Hcalm Hrun Hw i. pose proof (rf_callers _ HR) as Hcs. apply rtc_once. exists t. split; [by rewrite stale_at|].
  destruct (wakes_at i w _ cs' (callers_insert cs t (Caller th' None) Hcs I) Hw) as [_ Hw']. rewrite list_fmap_insert in Hw'.
  eapply (atomic_run o root (sends_at sends i) t nomem); [by apply (rd_at_lookup i (q, cs) t _ Ht)| |exact Hw'].
  rewrite rd_log_at, length_fmap. unfold at_caller at 1. cbn [inloop regs fst]. unfold sends_at. rewrite rd_run_at by done. by rewrite Hrun.
Qed.

Lemma rd_run_sim nomem q cs t c q' c' w cs' : refines (q, cs) -> cs !! t = Some c -> ~ stale (q, cs) t ->
  rdco_run o (t =? root)%nat nomem (sends t (length (log (regs c)))) q c = Moves q' c' w -> wakes w (<[t := c']> cs) cs' ->
  callers_ok cs' /\ simulated (q, cs) (q', cs').
Proof.
  intros HR Ht Hcalm Hrun Hw. pose proof (rf_callers _ HR) as Hcs. cbn [snd] in Hcs.
  assert (caller_ok t c' -> callers_ok cs') as Hcs' by (intros Hok; exact (proj1 (wakes_at 0 w _ cs' (callers_insert cs t c' Hcs Hok) Hw))).
  destruct c as [th [lp|]]; cbn [regs] in *.
  - destruct (Hcs _ _ Ht) as (Hpc & Hret & op & Ho & Hin). cbn [regs] in *.
    unfold rdco_run, rdco_loop in Hrun. cbn [inloop regs] in Hrun. destruct (worker_at lp) eqn:Hlp.
    + unfold with_handle in Hrun. destruct (handles q !! curitem th) as [x|] eqn:Hx; [|done].
      destruct o as [op'|] eqn:Ho' in Hrun; [|done]. assert (op' = op) as -> by congruence.
      destruct (data x) as [| |l] eqn:Hl; [done|done|].
      destruct (rdc_run op l lp) as [[l' w']|] eqn:Hstep; [|done]. injection Hrun as <- <- <-. inversion Hw; subst. split.
      * apply Hcs'. destruct (rdc_run_elem op _ _ _ _ _ 0 Hin Hstep) as (Hin' & _). split; [done|]. split; [done|]. by exists op.
      * by eapply rd_loop_sim.
    + injection Hrun as <- <- <-. inversion Hw; subst. split; [by apply Hcs'|]. by apply rd_leave_sim.
  - destruct (decide (pc th = AtReduce)) as [Hpc|Hpc].
    + destruct (rd_enter_sim _ _ _ _ _ _ _ _ _ HR Ht Hpc Hrun) as (-> & -> & Hok & Hsim). inversion Hw; subst. by split; [apply Hcs'|].
    + rewrite rd_run_body in Hrun by done. destruct (rdco_body _ _ _ _ _ _) as [q1 th1 w1| |] eqn:E; [|done|done]. injection Hrun as <- <- <-.
      split; [by apply Hcs'|]. by eapply rd_body_sim.
Qed.

Lemma calm_refines s s' : refines s -> calm_step o root sends s s' -> refines s'.
Proof.
  intros HR (t & Hcalm & Hs). destruct Hs as [nomem q cs c q' c' w cs' Ht Hrun Hw|q cs c Ht].
  - destruct (rd_run_sim _ _ _ _ _ _ _ _ _ HR Ht Hcalm Hrun Hw) as [Hok Hsim]. split; [done|].
    intros i. destruct (rf_atomic _ HR i) as (s0 & H0 & Hs). exists s0. split; [done|]. by transitivity (at_system o i (q, cs)).
  - pose proof (rf_callers _ HR) as Hcs. pose proof (Hcs t c Ht) as Hok. split; [by apply callers_insert; [|apply rd_wake_caller_ok]|].
    intros i. destruct (rf_atomic _ HR i) as (s0 & H0 & Hs). exists s0. split; [done|]. eapply rtc_r; [exact Hs|]. exists t. split; [by rewrite stale_at|].
    unfold at_system. cbn [fst snd]. rewrite list_fmap_insert, (rd_wake_at i t c Hok). apply atomic_spurious. by rewrite list_lookup_fmap, Ht.
Qed.

Lemma rd_start_refines s : rdco_start n p s -> refines s.
Proof.
  intros (q & Hq & ->). split.
  - intros t c [-> _]%lookup_replicate. done.
  - intros i. exists (q, replicate n (Thread Outside 0 0 0 0 false 0 0 None [])). split; [by exists q|].
    assert (at_system o i (q, replicate n (Caller (Thread Outside 0 0 0 0 false 0 0 None []) None)) =
      (q, replicate n (Thread Outside 0 0 0 0 false 0 0 None []))) as ->; [|apply rtc_refl].
    unfold at_system. cbn [fst snd]. rewrite fmap_replicate. f_equal. unfold tmpi_rdcq_create in Hq.
    destruct (Z.ltb_spec (Z.of_nat n) 2) as [|Hk]; [done|]. injection Hq as <-. unfold at_queue. cbn. f_equal.
    by rewrite fmap_insert, link_handles_at.
Qed.

(** Every state reached without a stale [casp] is, at each element, such a state of the
    specification. *)
Lemma calm_reachable_refines s : rdco_calm o root sends n p s -> refines s.
Proof.
  intros (s0 & H0 & Hs). apply rd_start_refines in H0. induction Hs as [s|s1 s2 s3 H12 _ IH]; [done|]. apply IH. by eapply calm_refines.
Qed.
End Refine.
