(* ===== verification/ReduceProps.v ===== *)
(** The properties of the reduce object: what its callers get, that its memory is safe,
    that a sleeping caller waits for one that is awake; and the run in which the lock-free
    list of handles fails. *)
From stdpp Require Import relations.
From S2P Require Import Prelude Types RdcOp ElementWise HandleLists Allreduce AllreduceData AllreduceProps Reduce ReduceInv ReduceRefine.

Open Scope Z_scope.

Section Props.
Context {A : Type} `{!EqDecision A} (o : option (rdc_op A)) (n root : nat) (sends : nat -> nat -> list A).
Hypothesis same_count : forall t u k, length (sends t k) = length (sends u k).
Hypothesis two : (2 <= n)%nat.
Hypothesis root_in : (root < n)%nat.

Notation reduced_right j d := (length d = length (sends 0%nat j) /\
  forall i x, d !! i = Some x -> exists order, order ≡ₚ seq 0 n /\ combine_all o (sent_at sends j i order) = Some x).

(** What the root got is right when it is at each element. *)
Lemma root_result p s t c j d : refines o n root sends p s -> 8 < p -> s.2 !! t = Some c -> t = root ->
  log (regs c) !! j = Some (0, Some d) -> reduced_right j d.
Proof.
  intros HR Hp Ht -> He.
  assert (forall i, at_result i (0, Some d) = (-2, None) \/ exists first rest, first :: rest ≡ₚ seq 0 n /\
    at_result i (0, Some d) = (0, Some (reduce_all o (sends_at sends i) j first rest))) as Hat.
  { intros i. destruct (atomic_reduce_results o n root (sends_at sends i) (same_count_at sends same_count i) two root_in p _ Hp (rf_atomic _ _ _ _ _ _ HR i)) as (R & broken & H).
    specialize (H root _ j (at_result i (0, Some d)) (rd_at_lookup o i s root c Ht)). rewrite rd_log_at, list_lookup_fmap, He in H. specialize (H eq_refl).
    destruct (R !! j) as [[[|f rest]|]|]; [done| |done|by destruct H]. rewrite Nat.eqb_refl in H. destruct H as [H Hperm]. right. by exists f, rest. }
  apply (results_at o sends same_count n) in Hat as [|(d' & [= <-] & Hd)]; done.
Qed.


(** (C30) The memory of a reduce queue is safe: no step of a process, in the loop of
    [simple_reduce] or elsewhere, in no state reached without such a [casp] and unless the
    step is one, touches a handle that does not exist, a result that was freed or an
    element outside an array, as long as all pass the same number of elements in the same
    call. While a process is in the loop no other one fills the handle it works on or
    takes the result from it. *)
Theorem reduce_memory_safe p s t c nomem (Hp : 8 < p) (Hs : rdco_calm o root sends n p s) (Ht : s.2 !! t = Some c)
    (Hstale : ~ stale s t) :
  rdco_run o (t =? root)%nat nomem (sends t (length (log (regs c)))) s.1 c <> Undefined /\
  (inloop c <> None -> forall u x, s.2 !! u = Some x -> curitem (regs x) = curitem (regs c) ->
    pc (regs x) <> AtFill /\ pc (regs x) <> AtTake).
Proof.
  pose proof (calm_reachable_refines o n root sends same_count two root_in p Hp s Hs) as HR.
  pose proof (rf_callers _ _ _ _ _ _ HR) as Hcs. destruct s as [q cs]. cbn [fst snd] in *. split.
  - destruct c as [th [w|]]; cbn [regs] in *.
    + destruct (Hcs _ _ Ht) as (_ & _ & op & Ho & _).
      destruct (rd_loop_facts o n root sends same_count two root_in p Hp _ _ _ _ _ HR Ht Ho) as (x & l & Hx & Hl & Hlen & _). cbn [fst] in Hx.
      unfold rdco_run, rdco_loop. cbn [inloop regs]. destruct (worker_at w) as [e|] eqn:He; [|done]. unfold with_handle. rewrite Hx, Ho, Hl.
      by destruct (rdc_run_goes op l w e He Hlen) as [[l' w'] ->].
    + destruct (decide (pc th = AtReduce)) as [Hpc|Hpc].
      * destruct (rd_enter_facts o n root sends same_count two root_in p Hp _ _ _ HR Ht Hpc) as (_ & _ & x & Hx & Hd). cbn [fst] in Hx.
        unfold rdco_run, rdco_enter. cbn [inloop regs]. rewrite Hpc. unfold with_handle. rewrite Hx. destruct (data x); [done|done|]. by destruct o.
      * pose proof (atomic_reduce_safe o n root (sends_at sends 0) (same_count_at sends same_count 0) two root_in p _ t _ nomem Hp (rf_atomic _ _ _ _ _ _ HR 0)
          (rd_at_lookup o 0 (q, cs) t _ Ht) ltac:(by rewrite stale_at)) as Hn.
        rewrite rd_log_at, length_fmap in Hn. unfold at_caller in Hn. cbn [inloop regs at_system fst] in Hn. unfold sends_at in Hn.
        rewrite rd_run_at in Hn by done. rewrite rd_run_body by done. by destruct (rdco_body _ _ _ _ _ _).
  - intros Hl u x Hu Hcur. pose proof (Hcs _ _ Ht) as Hok. unfold caller_ok in Hok. destruct (inloop c) as [w|] eqn:Hw; [|done].
    destruct Hok as (Hpc & _ & op & Ho & _).
    destruct (atomic_reduce_exclusive o n root (sends_at sends 0) (same_count_at sends same_count 0) two root_in p _ t u _ _ Hp (rf_atomic _ _ _ _ _ _ HR 0)
      (rd_at_lookup o 0 (q, cs) _ _ Ht) (rd_at_lookup o 0 (q, cs) _ _ Hu)) as [H1 H2].
    { unfold at_caller. rewrite Hw, Ho. destruct (done_with _ _ _); [by right|by left]. }
    { by rewrite !curitem_at. }
    pose proof (Hcs _ _ Hu) as Hxok. unfold caller_ok in Hxok. unfold at_caller in H1, H2.
    destruct (inloop x); [by destruct Hxok as (-> & _)|done].
Qed.

(** (C31) Nobody sleeps for nothing: whenever a process sleeps in a reduction there is one
    that does not sleep, is not ahead of it, and has yet to do its part in the round the
    sleeper waits for, as long as all pass the same number of elements in the same call
    and no [casp] is stale. *)
Theorem reduce_progress p s t c (Hp : 8 < p) (Hs : rdco_calm o root sends n p s) (Ht : s.2 !! t = Some c) (Hth : sleeps (regs c) = true) :
  exists u x, s.2 !! u = Some x /\ sleeps (regs x) = false /\ (calls (regs x) <= calls (regs c))%nat /\ counted (calls (regs c)) (regs x) = false.
Proof.
  pose proof (calm_reachable_refines o n root sends same_count two root_in p Hp s Hs) as HR.
  pose proof (rf_callers _ _ _ _ _ _ HR) as Hcs.
  assert (forall u x, s.2 !! u = Some x -> sleeps (at_caller o 0 x) = sleeps (regs x) /\ calls (at_caller o 0 x) = calls (regs x) /\
    forall k, counted k (at_caller o 0 x) = counted k (regs x)) as Hat.
  { intros u x Hu. pose proof (Hcs _ _ Hu) as Hok. unfold calls, counted, calls. rewrite rd_log_at, length_fmap. unfold caller_ok in Hok.
    unfold at_caller, sleeps. destruct (inloop x) as [w|]; [|done]. destruct Hok as (Hpc & _ & op & -> & _). by destruct (done_with _ _ _); cbn; rewrite Hpc. }
  destruct (Hat _ _ Ht) as (H1 & H2 & _).
  destruct (atomic_reduce_progress o n root (sends_at sends 0) (same_count_at sends same_count 0) two root_in p _ t _ Hp (rf_atomic _ _ _ _ _ _ HR 0)
    (rd_at_lookup o 0 s t c Ht)) as (u & y & Hu & Hy1 & Hy2 & Hy3); [congruence|].
  cbn [at_system snd] in Hu. rewrite list_lookup_fmap in Hu. destruct (s.2 !! u) as [x|] eqn:Ex; [|done]. injection Hu as <-.
  destruct (Hat _ _ Ex) as (H3 & H4 & H5). exists u, x. split; [done|]. rewrite <- H3, <- H2, <- H4, <- H5. done.
Qed.
End Props.

(** ** Runs *)

Section Run.
Context {A : Type} `{!EqDecision A} (o : option (rdc_op A)) (root : nat) (sends : nat -> nat -> list A).

Fixpoint wake_one (h : Z) (cs : list (caller A)) : list (caller A) :=
  match cs with
  | [] => []
  | c :: cs' => if asleep_on h (regs c) then wake_caller c :: cs' else c :: wake_one h cs'
  end.
Definition wake_up (w : wakeup) (cs : list (caller A)) : list (caller A) :=
  match w with NoWake => cs | WakeAll h => wake_caller_on h <$> cs | WakeOne h => wake_one h cs end.
Lemma wake_up_wakes w ths : wakes w ths (wake_up w ths).
Proof.
  destruct w as [|h|h]; [constructor|constructor|]. cbn. destruct (decide (Exists (fun x => asleep_on h (regs x) = true) ths)) as [H|H].
  - enough (exists u x, ths !! u = Some x /\ asleep_on h (regs x) = true /\ wake_one h ths = <[u := wake_caller x]> ths) as (u & x & ? & ? & ->)
      by (by constructor).
    induction ths as [|th ths IH]; [by apply Exists_nil in H|]. cbn. destruct (asleep_on h (regs th)) eqn:E; [by exists 0%nat, th|].
    apply Exists_cons in H as [H|H]; [congruence|]. destruct (IH H) as (u & x & Hu & Hx & ->). exists (S u), x. done.
  - apply Forall_Exists_neg in H.
    assert (Forall (fun x => asleep_on h (regs x) = false) ths) as Hf by (eapply Forall_impl; [exact H|]; intros x Hx; by apply not_true_is_false).
    assert (wake_one h ths = ths) as ->; [|by constructor]. clear H. induction Hf as [|x l Hx _ IH]; [done|]. cbn. by rewrite Hx, IH.
Qed.

Definition is_stale (q : tmpi_RDCQueue A) (c : caller A) : bool :=
  let th := regs c in
  match pc th, handles q !! newitem th with
  | AtCas, Some x => (free q =? newitem th) && negb (next x =? localfree th)
  | _, _ => false
  end.
Lemma is_stale_stale q ths t th : ths !! t = Some th -> is_stale q th = false -> ~ stale (q, ths) t.
Proof.
  intros Ht H (th' & x & Ht' & Hpc & Hf & Hx & Hn). cbn [fst snd] in *. assert (th' = th) as -> by congruence. unfold is_stale in H. cbv zeta in H.
  rewrite Hpc, Hx, Hf, Z.eqb_refl in H. by rewrite (proj2 (Z.eqb_neq _ _) Hn) in H.
Qed.

(** The threads of the schedule step in turn; [calm] stops the run at a stale [casp]. *)
Fixpoint run_schedule (calm : bool) (sched : list nat) (s : system) : option system :=
  match sched with
  | [] => Some s
  | t :: sched' =>
      match s.2 !! t with
      | Some th =>
          if calm && is_stale s.1 th then None
          else
            match rdco_run o (t =? root)%nat false (sends t (length (log (regs th)))) s.1 th with
            | Moves q' th' w => run_schedule calm sched' (q', wake_up w (<[t := th']> s.2))
            | _ => None
            end
      | None => None
      end
  end.

Lemma schedule_step calm sched s s' : run_schedule calm sched s = Some s' ->
  rtc (fun s s' => exists t, (calm = true -> ~ stale s t) /\ rdco_step o root sends t s s') s s'.
Proof.
  revert s. induction sched as [|t sched IH]; intros [q ths] H; cbn in H; [injection H as ->; apply rtc_refl|].
  destruct (ths !! t) as [th|] eqn:Ht; [|done]. destruct (calm && is_stale q th) eqn:Hst; [done|].
  destruct (rdco_run _ _ _ _ _ _) as [q' th' w| |] eqn:Hrun; try done. eapply rtc_l; [|by apply IH]. exists t. split.
  - intros ->. by eapply is_stale_stale.
  - eapply step_run; [done|exact Hrun|apply wake_up_wakes].
Qed.
End Run.

Definition demo_sends (t k : nat) : list Z := [10 ^ Z.of_nat t * (Z.of_nat k + 1)].
Definition demo_op : option (rdc_op Z) := Some (rdc_int_sum).
Definition demo_start : option (system (A:=Z)) :=
  q ← tmpi_rdcq_create 3 (Some 1000); Some (q, replicate 3 (Caller (Thread Outside 0 0 0 0 false 0 0 None []) None)).

Definition demo_state (calm : bool) (sched : list nat) : option system :=
  s ← demo_start; run_schedule demo_op 0 demo_sends calm sched s.

Lemma demo_starts s : demo_start = Some s -> rdco_start 3 1000 s.
Proof. unfold demo_start. destruct (tmpi_rdcq_create 3 (Some 1000)) as [q|] eqn:E; [|done]. intros [= <-]. by exists q. Qed.
Lemma demo_calm sched s : demo_state true sched = Some s -> rdco_calm demo_op 0 demo_sends 3 1000 s.
Proof.
  unfold demo_state. destruct demo_start as [s0|] eqn:E; [|done]. intros H. exists s0. split; [by apply demo_starts|].
  eapply rtc_subrel; [|exact (schedule_step _ _ _ _ _ _ _ H)]. intros s1 s2 (t & Hc & Hs). exists t. auto.
Qed.
Lemma demo_reachable sched s : demo_state false sched = Some s -> rdco_reachable demo_op 0 demo_sends 3 1000 s.
Proof.
  unfold demo_state. destruct demo_start as [s0|] eqn:E; [|done]. intros H. exists s0. split; [by apply demo_starts|].
  eapply rtc_subrel; [|exact (schedule_step _ _ _ _ _ _ _ H)]. intros s1 s2 (t & _ & Hs). by exists t.
Qed.

Notation demo_right j d := (length d = 1%nat /\ forall i x, d !! i = Some x ->
  exists order, order ≡ₚ seq 0 3 /\ combine_all demo_op (sent_at demo_sends j i order) = Some x).

(** Process 1 is the first; 2 and the root join it and are in the loop at the same time;
    the root takes the result. *)
Definition demo_loop : list nat := steps_of 1 9 ++ steps_of 2 4 ++ steps_of 0 5.
Definition demo_sched : list nat := demo_loop ++ steps_of 2 4 ++ steps_of 0 7.

(** Process 2 and the root are in the loop. *)
Lemma reduce_memory_safe_witness :
  exists s c w, demo_state true demo_loop = Some s /\ s.2 !! 2%nat = Some c /\ inloop c = Some w /\
    rdco_run demo_op (2 =? 0)%nat false (demo_sends 2 (length (log (regs c)))) s.1 c <> Undefined.
Proof.
  destruct (demo_state true demo_loop) as [s|] eqn:E; [|vm_compute in E; discriminate E].
  destruct (s.2 !! 2%nat) as [c|] eqn:Hc; [|vm_compute in E; injection E as <-; discriminate Hc].
  destruct (inloop c) as [w|] eqn:Hw; [|vm_compute in E; injection E as <-; injection Hc as <-; discriminate Hw].
  assert (pc (regs c) = AtReduce) as Hpc by (vm_compute in E; injection E as <-; by injection Hc as <-).
  exists s, c, w. split; [done|]. split; [done|]. split; [done|].
  apply (reduce_memory_safe demo_op 3 0 demo_sends (fun _ _ _ => eq_refl) ltac:(lia) ltac:(lia) 1000 s 2 c false);
    [lia|by apply demo_calm with demo_loop|done|].
  intros (c' & x & Hc' & Hpc' & _). congruence.
Defined.

(** Process 2 sleeps while 1 fills the handle. *)
Lemma reduce_progress_witness :
  exists s c, demo_state true (steps_of 1 7 ++ steps_of 2 3) = Some s /\ s.2 !! 2%nat = Some c /\ pc (regs c) = Asleep /\
    exists u x, s.2 !! u = Some x /\ sleeps (regs x) = false /\ (calls (regs x) <= calls (regs c))%nat /\ counted (calls (regs c)) (regs x) = false.
Proof.
  destruct (demo_state true (steps_of 1 7 ++ steps_of 2 3)) as [s|] eqn:E; [|vm_compute in E; discriminate E].
  destruct (s.2 !! 2%nat) as [c|] eqn:Hc; [|vm_compute in E; injection E as <-; discriminate Hc].
  assert (pc (regs c) = Asleep) as Hpc by (vm_compute in E; injection E as <-; by injection Hc as <-).
  exists s, c. split; [done|]. split; [done|]. split; [done|].
  apply (reduce_progress demo_op 3 0 demo_sends (fun _ _ _ => eq_refl) ltac:(lia) ltac:(lia) 1000 s 2 c);
    [lia|by apply demo_calm with (steps_of 1 7 ++ steps_of 2 3)|done|]. unfold sleeps. by rewrite Hpc.
Defined.

(** ** The run in which the list of handles fails *)

(** Process 1 has looked at the first two free handles when 2 takes the first, the root
    the second, and 2 gives the first back: the [casp] of 1 puts the root's new handle,
    which serves the next round, on the list. *)
Definition aba_first : list nat :=
  steps_of 1 4 ++ steps_of 2 6 ++ steps_of 0 10 ++ steps_of 2 3 ++ steps_of 1 11 ++ steps_of 2 6 ++ steps_of 0 4.
(** In the next round the root gets the round's own handle as a new one, and starts the
    round again after process 2 has put its data in. *)
Definition aba_second : list nat :=
  steps_of 2 6 ++ steps_of 1 5 ++ steps_of 0 5 ++ steps_of 2 3 ++ steps_of 0 5 ++ steps_of 1 18 ++ steps_of 0 4.

Lemma three_orders (l : list nat) : l ≡ₚ seq 0 3 ->
  exists a b c, l = [a; b; c] /\ (a < 3 /\ b < 3 /\ c < 3)%nat /\ a <> b /\ a <> c /\ b <> c.
Proof.
  intros H. pose proof (Permutation_length H) as Hl. destruct l as [|a [|b [|c [|]]]]; try discriminate Hl.
  exists a, b, c. split; [done|].
  assert (Forall (fun x => (x < 3)%nat) [a; b; c]) as Hin by (rewrite H; repeat constructor).
  assert (NoDup [a; b; c]) as Hnd by (rewrite H; apply NoDup_seq).
  inversion Hin as [|? ? ? Hin2]; subst. inversion Hin2 as [|? ? ? Hin3]; subst. inversion Hin3; subst. split; [done|].
  rewrite !NoDup_cons, !not_elem_of_cons in Hnd. naive_solver.
Qed.
Lemma demo_second_sum order : order ≡ₚ seq 0 3 -> combine_all demo_op (sent_at demo_sends 1 0 order) = Some 222.
Proof.
  intros (a & b & c & -> & H)%three_orders.
  destruct a as [|[|[|]]]; [| | |lia]; (destruct b as [|[|[|]]]; [| | |lia]); (destruct c as [|[|[|]]]; [| | |lia]);
    first [vm_compute; reflexivity | exfalso; lia].
Qed.

(** (C32) Reduction among three processes can go wrong without a sign of it: there is a run
    in which every call returns 0, and the root's second result is [[52]] although the
    reduction of what the three sent in their second call is [222] in every order. The
    [casp] of the lock-free list succeeds on a list that has changed in between and come
    back to the same first handle. *)
Theorem reduce_aba :
  exists s, rdco_reachable demo_op 0 demo_sends 3 1000 s /\
    (fun c => log (regs c)) <$> s.2 = [[(0, Some [111]); (0, Some [52])]; [(0, None); (0, None); (0, None)]; [(0, None); (0, None)]] /\
    forall order, order ≡ₚ seq 0 3 -> combine_all demo_op (sent_at demo_sends 1 0 order) = Some 222.
Proof.
  destruct (demo_state false (aba_first ++ aba_second)) as [s|] eqn:E; [|vm_compute in E; discriminate E].
  exists s. split; [by apply demo_reachable with (aba_first ++ aba_second)|]. split; [vm_compute in E; injection E as <-; reflexivity|].
  exact demo_second_sum.
Qed.

(** ** The object *)

Section Object.
Context {A : Type}.

Lemma rdcq_created n p : 2 <= n -> p <> 0 ->
  exists q : tmpi_RDCQueue A, tmpi_rdcq_create n (Some p) = Some q /\ tmpi_rdcq_destroy q tt = Ret tt tt.
Proof.
  intros Hn Hp. unfold tmpi_rdcq_create. rewrite (proj2 (Z.ltb_ge n 2) Hn). eexists. split; [done|]. unfold tmpi_rdcq_destroy.
  set (m := link_handles _ _ _ : gmap Z (tmpi_RDCHandle A)).
  apply destroy_chain with [p]; cbn [handles first].
  - split; [done|]. eexists. by rewrite lookup_insert_eq.
  - by repeat constructor.
  - cbn [length]. pose proof (map_size_ne_0_lookup_2 _ p (mk_is_Some _ _ (lookup_insert_eq m p (new_handle 0 <| avail := -1 |>)))). lia.
Qed.

(** A reduce object has all its queues or does not exist: when one allocation fails
    the queues before it are destroyed and the caller gets NULL; the destruction of what
    creation returned ends and touches only handles that exist. *)
Theorem rdco_all_or_nothing n mem :
  2 <= n -> (forall i p, mem i = Some p -> p <> 0) ->
  exists r, tmpi_rdco_create (A:=A) n true mem tt = Ret r tt /\ tmpi_rdco_destroy r tt = Ret 0 tt /\
    match r with
    | Some o => length (rdco_array o) = Z.to_nat n /\ forall i, (i < Z.to_nat n)%nat -> mem i <> None
    | None => exists i, (i < Z.to_nat n)%nat /\ mem i = None
    end.
Proof.
  intros Hn Hmem. unfold tmpi_rdco_create. cbn [negb]. rewrite (proj2 (Z.ltb_ge n 2) Hn).
  destruct (create_queues_ret (tmpi_rdcq_create n) tmpi_rdcq_destroy ltac:(unfold tmpi_rdcq_create; by destruct (n <? 2)) mem
    (fun i p H => rdcq_created n p Hn (Hmem i p H)) (Z.to_nat n) 0 [] ltac:(by constructor)) as (r & Hr & Hs).
  rewrite (bind_Ret _ _ _ _ _ Hr). destruct r as [l|]; eexists; (split; [done|]); cbn [tmpi_rdco_destroy].
  - destruct Hs as (Hd & Hl & Hall). cbn [rdco_size rdco_array length] in *. rewrite take_ge by lia.
    rewrite (bind_Ret _ _ _ _ _ (destroy_all_ret _ _ Hd)). split; [done|]. split; [lia|].
    intros i Hi. apply (proj1 (Forall_forall _ _) Hall i), elem_of_seq. lia.
  - split; [done|]. apply Exists_exists in Hs as (i & Hi%elem_of_seq & Hm). exists i. split; [lia|done].
Qed.
End Object.

Lemma rdco_all_or_nothing_witness :
  let mem := fun i => if (i =? 2)%nat then None else Some (1000 * (1 + Z.of_nat i)) in
  exists r, tmpi_rdco_create (A:=Z) 3 true mem tt = Ret r tt /\ tmpi_rdco_destroy r tt = Ret 0 tt /\
    match r with
    | Some o => length (rdco_array o) = Z.to_nat 3 /\ forall i, (i < Z.to_nat 3)%nat -> mem i <> None
    | None => exists i, (i < Z.to_nat 3)%nat /\ mem i = None
    end.
Proof.
  intros mem. apply (rdco_all_or_nothing 3 mem); [lia|]. intros i p. unfold mem. destruct (i =? 2)%nat; [done|]. intros [= <-]. lia.
Defined.
