(* ===== verification/NetRun.v ===== *)
(** Machines that run the collectives of net/netd/netd_sock_c at the same time: a
    machine writes to and reads from its sockets, every pair of machines has a stream
    of bytes in each direction. The moves of the machines come in any order. *)
From stdpp Require Import relations.
From Stdlib Require Import FunctionalExtensionality.
From S2P Require Import Prelude.

(** ** What a machine does *)

(** The rest of a call: it returns; it touches memory that is not its own; it calls
    [sock_write] on the socket of machine [to], and goes on with the result code; it
    calls [sock_read] for [n] bytes on the socket of machine [from], and goes on with
    the code and the bytes. *)
Inductive io (A : Type) :=
  | Done (a : A)
  | Crash
  | Write (to : Z) (bs : list Z) (k : Z -> io A)
  | Read (from : Z) (n : nat) (k : Z -> list Z -> io A).
Arguments Done {A} a.
Arguments Crash {A}.
Arguments Write {A} to bs k.
Arguments Read {A} from n k.

Fixpoint io_bind {A B} (x : io A) (f : A -> io B) : io B :=
  match x with
  | Done a => f a
  | Crash => Crash
  | Write to bs k => Write to bs (fun r => io_bind (k r) f)
  | Read from n k => Read from n (fun r bs => io_bind (k r bs) f)
  end.
#[export] Instance io_mret : MRet io := @Done.
#[export] Instance io_mbind : MBind io := fun A B f x => io_bind x f.

Definition sock_write (to : Z) (bs : list Z) : io Z := Write to bs Done.
Definition sock_read (from : Z) (n : nat) : io (Z * list Z) := Read from n (fun r bs => Done (r, bs)).

Lemma io_bind_Done {A} (x : io A) : x ≫= Done = x.
Proof.
  unfold mbind, io_mbind. induction x as [a| |to bs k IH|from n k IH]; cbn; [done|done| |]; f_equal.
  - apply functional_extensionality. apply IH.
  - apply functional_extensionality. intros r. apply functional_extensionality. apply IH.
Qed.

Lemma io_bind_assoc {A B C} (x : io A) (f : A -> io B) (g : B -> io C) :
  (x ≫= f) ≫= g = x ≫= (fun a => f a ≫= g).
Proof.
  unfold mbind, io_mbind. induction x as [a| |to bs k IH|from n k IH]; cbn; [done|done| |]; f_equal.
  - apply functional_extensionality. apply IH.
  - apply functional_extensionality. intros r. apply functional_extensionality. apply IH.
Qed.

(** ** The moves *)

(** The bytes on the way, by sender and receiver. *)
Notation chans := (gmap (Z * Z) (list Z)).
Definition chan (c : chans) (from to : Z) : list Z := default [] (c !! (from, to)).
Definition put (c : chans) (from to : Z) (bs : list Z) : chans := <[(from, to) := bs]> c.

Notation config A := (gmap Z (io A) * chans)%type.

(** The move of machine [i], if it can make one. The descriptor of a machine for
    itself is -1: a call on it fails. A read waits until all the bytes are there. *)
Definition fire {A} (i : Z) (s : config A) : option (config A) :=
  match s.1 !! i with
  | Some (Write to bs k) =>
      if decide (to = i) then Some (<[i := k (-1)]> s.1, s.2)
      else Some (<[i := k 0]> s.1, put s.2 i to (chan s.2 i to ++ bs))
  | Some (Read from n k) =>
      if decide (from = i) then Some (<[i := k (-1) []]> s.1, s.2)
      else if (n <=? length (chan s.2 from i))%nat
      then Some (<[i := k 0 (take n (chan s.2 from i))]> s.1, put s.2 from i (drop n (chan s.2 from i)))
      else None
  | _ => None
  end.
Definition netstep {A} (s t : config A) : Prop := exists i, fire i s = Some t.

(** All machines at the start of a call, nothing on the way. *)
Definition start {A} (size : Z) (x : Z -> io A) : config A :=
  (list_to_map ((fun i => (i, x i)) <$> seqZ 0 size), ∅).

(** Whatever the order of the moves, after at most [n] of them all machines have
    returned, machine [i] with [r i]; before, one of them can move. *)
Definition all_return {A} (size : Z) (x : Z -> io A) (r : Z -> A) : Prop :=
  exists n, forall m s, nsteps netstep m (start size x) s ->
    (m <= n)%nat /\ exists t, nsteps netstep (n - m) s t /\
      forall i, 0 <= i < size -> t.1 !! i = Some (Done (r i)).

(** ** Streams *)

Lemma chan_put_eq c i j bs : chan (put c i j bs) i j = bs.
Proof. unfold chan, put. by rewrite lookup_insert_eq. Qed.
Lemma chan_put_ne c i j i' j' bs : (i, j) <> (i', j') -> chan (put c i j bs) i' j' = chan c i' j'.
Proof. intros H. unfold chan, put. by rewrite lookup_insert_ne. Qed.
Lemma chan_put c i j i' j' bs :
  chan (put c i j bs) i' j' = if decide ((i, j) = (i', j')) then bs else chan c i' j'.
Proof. case_decide; [simplify_eq; apply chan_put_eq|by apply chan_put_ne]. Qed.
Lemma put_put_ne c i j i' j' bs bs' : (i, j) <> (i', j') -> put (put c i j bs) i' j' bs' = put (put c i' j' bs') i j bs.
Proof. intros H. unfold put. by rewrite insert_insert_ne. Qed.
Lemma put_put_eq c i j bs bs' : put (put c i j bs) i j bs' = put c i j bs'.
Proof. unfold put. by rewrite insert_insert_eq. Qed.

Lemma start_lookup {A} size (x : Z -> io A) i : 0 <= i < size -> (start size x).1 !! i = Some (x i).
Proof.
  intros Hi. cbn. apply elem_of_list_to_map_1.
  - rewrite <- list_fmap_compose. change (fst ∘ (fun i => (i, x i))) with (fun i : Z => i).
    rewrite list_fmap_id. apply NoDup_seqZ.
  - apply list_elem_of_fmap. exists i. split; [done|]. apply elem_of_seqZ. lia.
Qed.
Lemma start_other {A} size (x : Z -> io A) i : ~ 0 <= i < size -> (start size x).1 !! i = None.
Proof.
  intros Hi. cbn. apply not_elem_of_list_to_map_1. rewrite <- list_fmap_compose. intros (j & -> & Hj)%list_elem_of_fmap.
  apply elem_of_seqZ in Hj. cbn in Hi. lia.
Qed.

(** ** The order of the moves does not matter *)

Section Diamond.
Context {A : Type}.
Implicit Types (s t u : config A).

Ltac cmp_nat := match goal with |- context [(?a <=? ?b)%nat] => destruct (Nat.leb_spec a b) end.

(** Two machines that can both move can do so in either order. *)
Lemma fire_commute i j s t u : i <> j -> fire i s = Some t -> fire j s = Some u ->
  exists v, fire j t = Some v /\ fire i u = Some v.
Proof.
  intros Hne. destruct s as [p c]. unfold fire. cbn [fst snd].
  destruct (p !! i) as [[| |a bs k|a n k]|] eqn:Ei; try done; destruct (p !! j) as [[| |b bs' k'|b n' k']|] eqn:Ej; try done;
    repeat case_decide; subst; try done; repeat cmp_nat; intros Ht Hu; try done; simplify_eq; cbn [fst snd];
    rewrite ?(lookup_insert_ne p i j), ?(lookup_insert_ne p j i), ?Ei, ?Ej by done;
    rewrite ?decide_True, ?decide_False by done;
    rewrite ?chan_put; repeat case_decide; simplify_eq; try done;
    rewrite ?(insert_insert_ne p i j) by done;
    rewrite ?length_app; repeat cmp_nat; try lia;
    (eexists; split; [reflexivity|]); do 2 f_equal;
    rewrite ?chan_put_ne, ?put_put_eq, ?take_app_le, ?drop_app_le by (congruence || lia);
    try done; first [by rewrite put_put_ne by congruence|by rewrite insert_insert_ne by congruence].
Qed.

Lemma netstep_diamond s t u : netstep s t -> netstep s u -> t = u \/ exists v, netstep t v /\ netstep u v.
Proof.
  intros [i Hi] [j Hj]. destruct (decide (i = j)) as [->|Hne]; [left; congruence|].
  right. destruct (fire_commute i j s t u Hne Hi Hj) as (v & H1 & H2). exists v. split; by eexists.
Qed.

(** One run to an end gives the length and the end of all of them. *)
Lemma all_runs_end n s t : nsteps netstep n s t -> (forall u, ~ netstep t u) ->
  forall m u, nsteps netstep m s u -> (m <= n)%nat /\ nsteps netstep (n - m) u t.
Proof.
  intros Hn Ht. assert (forall n s, nsteps netstep n s t -> forall u, netstep s u -> exists n', n = S n' /\ nsteps netstep n' u t) as Hone.
  { clear n s Hn. induction n as [|n IH]; intros s Hn u Hu; inversion Hn as [|? ? x ? Hx Hn']; subst; [by apply Ht in Hu|].
    exists n. split; [done|]. destruct (netstep_diamond s x u Hx Hu) as [->|(v & Hv1 & Hv2)]; [done|].
    destruct (IH x Hn' v Hv1) as (n' & -> & Hv). by eapply nsteps_l. }
  intros m. revert n s Hn. induction m as [|m IH]; intros n s Hn u Hu; inversion Hu as [|? ? x ? Hx Hu']; subst.
  - rewrite Nat.sub_0_r. split; [lia|done].
  - destruct (Hone n s Hn x Hx) as (n' & -> & Hn'). destruct (IH n' x Hn' u Hu') as [Hle Hr]. split; [lia|done].
Qed.
End Diamond.

(** ** One machine at a time *)

(** Machine [i] alone gets from [x] to [y]. *)
Inductive reach {A} (i : Z) : io A -> chans -> io A -> chans -> Prop :=
  | reach_here x c : reach i x c x c
  | reach_write to bs k c y c' : to <> i -> reach i (k 0) (put c i to (chan c i to ++ bs)) y c' ->
      reach i (Write to bs k) c y c'
  | reach_read from n k c y c' : from <> i -> (n <= length (chan c from i))%nat ->
      reach i (k 0 (take n (chan c from i))) (put c from i (drop n (chan c from i))) y c' ->
      reach i (Read from n k) c y c'.

Lemma reach_trans {A} i (x y z : io A) c c' c'' : reach i x c y c' -> reach i y c' z c'' -> reach i x c z c''.
Proof. induction 1; [done| |]; intros; [apply reach_write|apply reach_read]; auto. Qed.

Lemma reach_bind {A B} i (x y : io A) (f : A -> io B) c c' : reach i x c y c' -> reach i (x ≫= f) c (y ≫= f) c'.
Proof. unfold mbind, io_mbind. induction 1; [constructor| |]; cbn; by constructor. Qed.

Lemma reach_bind_Done {A B} i (x : io A) (f : A -> io B) c a c' y c'' :
  reach i x c (Done a) c' -> reach i (f a) c' y c'' -> reach i (x ≫= f) c y c''.
Proof. intros H1 H2. eapply reach_trans; [by apply reach_bind|done]. Qed.

Lemma reach_netstep {A} i (x y : io A) c c' p : reach i x c y c' -> p !! i = Some x ->
  rtc netstep (p, c) (<[i := y]> p, c').
Proof.
  intros H. revert p. induction H as [x c|to bs k c y c' Hne _ IH|from n k c y c' Hne Hn _ IH]; intros p Hp.
  - rewrite insert_id by done. apply rtc_refl.
  - eapply rtc_l.
    + exists i. unfold fire. cbn [fst snd]. rewrite Hp, decide_False by done. reflexivity.
    + rewrite <- (insert_insert_eq p i y (k 0)). apply IH. apply lookup_insert_eq.
  - eapply rtc_l.
    + exists i. unfold fire. cbn [fst snd]. rewrite Hp, decide_False by done.
      rewrite (proj2 (Nat.leb_le _ _) Hn). reflexivity.
    + rewrite <- (insert_insert_eq p i y (k 0 (take n (chan c from i)))). apply IH. apply lookup_insert_eq.
Qed.

Lemma reach_sock_write i to bs c : to <> i ->
  reach i (sock_write to bs) c (Done 0) (put c i to (chan c i to ++ bs)).
Proof. intros H. apply reach_write; [done|]. constructor. Qed.

Lemma reach_sock_read i from n c : from <> i -> length (chan c from i) = n ->
  reach i (sock_read from n) c (Done (0, chan c from i)) (put c from i []).
Proof.
  intros H Hn. apply reach_read; [done|lia|]. rewrite take_ge, drop_ge by lia. constructor.
Qed.

(** ** Collectives: all machines, from quiet to quiet *)

Definition quiet (c : chans) : Prop := forall i j, chan c i j = [].

Definition collective {A} (size : Z) (x : Z -> io A) (r : Z -> A) : Prop :=
  forall B (f : Z -> A -> io B) p c, quiet c -> (forall i, 0 <= i < size -> p !! i = Some (x i ≫= f i)) ->
    exists p' c', quiet c' /\ rtc netstep (p, c) (p', c') /\
      (forall i, 0 <= i < size -> p' !! i = Some (f i (r i))) /\
      (forall i, ~ 0 <= i < size -> p' !! i = p !! i).

Lemma collective_then {A B} size (x : Z -> io A) (y : Z -> A -> io B) r r' :
  collective size x r -> collective size (fun i => y i (r i)) r' ->
  collective size (fun i => x i ≫= y i) r'.
Proof.
  intros Hx Hy C f p c Hc Hp.
  destruct (Hx C (fun i a => y i a ≫= f i) p c Hc) as (p1 & c1 & Hc1 & Hr1 & Hp1 & Ho1).
  { intros i Hi. by rewrite Hp, io_bind_assoc. }
  destruct (Hy C f p1 c1 Hc1 Hp1) as (p2 & c2 & Hc2 & Hr2 & Hp2 & Ho2).
  exists p2, c2. split_and!; [done|by etrans|done|]. intros i Hi. by rewrite Ho2, Ho1.
Qed.

Lemma collective_ext {A} size (x x' : Z -> io A) r r' : (forall i, 0 <= i < size -> x i = x' i) ->
  (forall i, 0 <= i < size -> r i = r' i) -> collective size x r -> collective size x' r'.
Proof.
  intros Hx Hr H B f p c Hc Hp. destruct (H B f p c Hc) as (p' & c' & Hc' & Hs & Hp' & Ho).
  - intros i Hi. rewrite Hx by done. auto.
  - exists p', c'. split_and!; [done|done| |done]. intros i Hi. rewrite <- Hr by done. auto.
Qed.

(** No machine needs the others. *)
Lemma collective_Done {A} size (r : Z -> A) : collective size (fun i => Done (r i)) r.
Proof. intros B f p c Hc Hp. exists p, c. split_and!; [done|apply rtc_refl|exact Hp|done]. Qed.

Lemma quiet_empty : quiet ∅.
Proof. intros i j. unfold chan. by rewrite lookup_empty. Qed.

Lemma collective_returns {A} size (x : Z -> io A) r : collective size x r -> all_return size x r.
Proof.
  intros H. destruct (H A (fun _ => Done) (start size x).1 ∅ quiet_empty) as (p' & c' & _ & Hr & Hp & Ho).
  { intros i Hi. by rewrite start_lookup, io_bind_Done. }
  change ((start size x).1, ∅) with (start size x) in Hr.
  apply rtc_nsteps_1 in Hr as [n Hn]. exists n. intros m s Hm.
  destruct (all_runs_end n _ _ Hn) with (m := m) (u := s) as [Hle Hs]; [|done|].
  - intros u [i Hi]. unfold fire in Hi. cbn [fst snd] in Hi. destruct (decide (0 <= i < size)) as [Hin|Hin].
    + by rewrite Hp in Hi.
    + by rewrite Ho, start_other in Hi.
  - split; [done|]. exists (p', c'). by split.
Qed.

(** Machine [i] makes its part, the others stay where they are. *)
Lemma turn {A B} i (x : io A) (f : A -> io B) a p c c' : p !! i = Some (x ≫= f) ->
  reach i x c (Done a) c' -> rtc netstep (p, c) (<[i := f a]> p, c').
Proof. intros Hp H. eapply reach_netstep; [|exact Hp]. change (f a) with (Done a ≫= f). by apply reach_bind. Qed.
