(* ===== verification/NetRounds.v ===== *)
(** Collectives among machines one after the other: every machine makes any number of
    calls, and a machine that starts its next call does so while the others may still be
    in an earlier one. *)
From stdpp Require Import relations.
From S2P Require Import Prelude NetRun.

(** ** Machines that have returned *)

(** A machine that has returned stays as it is. *)
Lemma Done_stays {A} (s t : config A) m i a : nsteps netstep m s t -> s.1 !! i = Some (Done a) -> t.1 !! i = Some (Done a).
Proof.
  induction 1 as [|m s u t [j Hj] _ IH]; intros Hi; [done|]. apply IH. destruct (decide (i = j)) as [->|Hne].
  - unfold fire in Hj. by rewrite Hi in Hj.
  - unfold fire in Hj. repeat case_match; simplify_eq; cbn [fst]; by rewrite lookup_insert_ne.
Qed.

(** A machine that has returned in some run has returned what it always returns. *)
Lemma returned_value {A} n (x : Z -> io A) r u i a : all_return n x r -> rtc netstep (start n x) u ->
  0 <= i < n -> u.1 !! i = Some (Done a) -> a = r i.
Proof.
  intros [N HN] [m Hm]%rtc_nsteps_1 Hi Ha. destruct (HN m u Hm) as (_ & t & Ht & Hr).
  pose proof (Done_stays u t _ i a Ht Ha). rewrite (Hr i Hi) in *. congruence.
Qed.

(** There are no other machines. *)
Lemma stays_absent {A} n (x : Z -> io A) u m : rtc netstep (start n x) u -> ~ 0 <= m < n -> u.1 !! m = None.
Proof.
  intros Hrun Hout. revert Hrun. generalize (start_other n x m Hout). generalize (start n x). intros s Hs Hrun.
  induction Hrun as [|s u t [i Hi] _ IH]; [done|]. apply IH.
  unfold fire in Hi. destruct (decide (m = i)) as [->|Hne]; [by rewrite Hs in Hi|].
  repeat case_match; simplify_eq; cbn [fst]; by rewrite lookup_insert_ne.
Qed.

(** ** Programs that go on *)

(** What the machines do after they return. *)
Definition go_on {A B} (F : Z -> A -> io B) (p : gmap Z (io A)) : gmap Z (io B) :=
  map_imap (fun i x => Some (x ≫= F i)) p.

Lemma lookup_go_on {A B} (F : Z -> A -> io B) p i : go_on F p !! i = (fun x => x ≫= F i) <$> p !! i.
Proof. unfold go_on. rewrite map_lookup_imap. by destruct (p !! i). Qed.

Lemma go_on_insert {A B} (F : Z -> A -> io B) p i x : go_on F (<[i := x]> p) = <[i := x ≫= F i]> (go_on F p).
Proof.
  apply map_eq. intros j. rewrite lookup_go_on. destruct (decide (j = i)) as [->|Hne].
  - by rewrite !lookup_insert_eq.
  - rewrite !lookup_insert_ne by done. by rewrite lookup_go_on.
Qed.

Lemma fire_go_on {A B} (F : Z -> A -> io B) i s t : fire i s = Some t -> fire i (go_on F s.1, s.2) = Some (go_on F t.1, t.2).
Proof.
  unfold fire. cbn [fst snd]. rewrite lookup_go_on. destruct (s.1 !! i) as [[| |to bs k|from n k]|]; try done; cbn.
  - case_decide; intros [= <-]; cbn [fst snd]; by rewrite go_on_insert.
  - case_decide; [intros [= <-]; cbn [fst snd]; by rewrite go_on_insert|].
    destruct (n <=? _)%nat; [|done]. intros [= <-]; cbn [fst snd]; by rewrite go_on_insert.
Qed.

Lemma run_go_on {A B} (F : Z -> A -> io B) s t : rtc netstep s t -> rtc netstep (go_on F s.1, s.2) (go_on F t.1, t.2).
Proof.
  induction 1 as [|s u t [i Hi] _ IH]; [apply rtc_refl|]. eapply rtc_l; [|exact IH]. exists i. by apply fire_go_on.
Qed.

(** A machine that has not returned moves as before. *)
Lemma fire_go_on_inv {A B} (F : Z -> A -> io B) i s t : fire i (go_on F s.1, s.2) = Some t ->
  (exists a, s.1 !! i = Some (Done a)) \/ exists u, fire i s = Some u.
Proof.
  unfold fire. cbn [fst snd]. rewrite lookup_go_on. destruct (s.1 !! i) as [[a| |to bs k|from n k]|]; try done; cbn.
  - intros _. left. by exists a.
  - intros H. right. case_decide; by eexists.
  - intros H. right. case_decide; [by eexists|]. destruct (n <=? _)%nat; [by eexists|done].
Qed.

Lemma go_on_start {A B} n (x : Z -> io A) (F : Z -> A -> io B) : go_on F (start n x).1 = (start n (fun i => x i ≫= F i)).1.
Proof.
  apply map_eq. intros i. rewrite lookup_go_on. destruct (decide (0 <= i < n)) as [Hi|Hi].
  - by rewrite !start_lookup.
  - by rewrite !start_other.
Qed.

Lemma start_go_on {A B} n (x : Z -> io A) (F : Z -> A -> io B) s : rtc netstep (start n x) s ->
  rtc netstep (start n (fun i => x i ≫= F i)) (go_on F s.1, s.2).
Proof. intros H. apply (run_go_on F) in H. by rewrite go_on_start in H. Qed.

Lemma start_ext {A} n (x y : Z -> io A) : (forall i, 0 <= i < n -> x i = y i) -> start n x = start n y.
Proof.
  intros H. unfold start. f_equal. f_equal. apply list_fmap_ext. intros k i Hi%list_elem_of_lookup_2%elem_of_seqZ. by rewrite H by lia.
Qed.

(** What a program can return. *)
Fixpoint yields {A} (P : A -> Prop) (x : io A) : Prop :=
  match x with
  | Done a => P a
  | Crash => True
  | Write _ _ k => forall r, yields P (k r)
  | Read _ _ k => forall r bs, yields P (k r bs)
  end.

Lemma yields_const {A B} (x : io A) (b : B) : yields (eq b) (x ≫= fun _ => Done b).
Proof. unfold mbind, io_mbind. induction x as [a| |to bs k IH|from m k IH]; cbn; auto. Qed.

Lemma yields_run {A} (P : A -> Prop) (s t : config A) (i : Z) x : rtc netstep s t -> s.1 !! i = Some x -> yields P x ->
  exists y, t.1 !! i = Some y /\ yields P y.
Proof.
  intros H. revert x. induction H as [s|s u t [j Hj] _ IH]; intros x Hx Hy; [eauto|].
  destruct (decide (i = j)) as [->|Hne].
  - unfold fire in Hj. rewrite Hx in Hj. destruct x as [| |to bs k|from m k]; try done; cbn in Hy.
    + case_decide; injection Hj as <-; (eapply IH; [cbn; apply lookup_insert_eq|apply Hy]).
    + case_decide; [injection Hj as <-; (eapply IH; [cbn; apply lookup_insert_eq|apply Hy])|].
      destruct (m <=? _)%nat; [|done]. injection Hj as <-. (eapply IH; [cbn; apply lookup_insert_eq|apply Hy]).
  - apply (IH x); [|done]. unfold fire in Hj. repeat case_match; simplify_eq; cbn [fst]; by rewrite lookup_insert_ne.
Qed.

(** ** Rounds *)

Section Rounds.
Context {R : Type} (n : Z) (r0 : Z -> R) (round : Z -> nat -> R -> io R).

(** The first [k] calls of machine [i]; [d] calls from the [k]-th on, after [r]. *)
Fixpoint rounds (i : Z) (k : nat) : io R :=
  match k with O => Done (r0 i) | S k' => rounds i k' ≫= round i k' end.
Fixpoint more_rounds (i : Z) (k d : nat) (r : R) : io R :=
  match d with O => Done r | S d' => round i k r ≫= more_rounds i (S k) d' end.

Lemma rounds_more i k d : rounds i (k + d) = rounds i k ≫= more_rounds i k d.
Proof.
  revert k. induction d as [|d IH]; intros k.
  - rewrite Nat.add_0_r. symmetry. apply io_bind_Done.
  - rewrite Nat.add_succ_r. change (S (k + d)) with (S k + d)%nat. rewrite IH. cbn [rounds]. by rewrite io_bind_assoc.
Qed.

(** A machine that has returned begins its next call. *)
Lemma begin_round (c : Z -> nat) u i r : 0 <= i < n -> rtc netstep (start n (fun m => rounds m (c m))) u -> u.1 !! i = Some (Done r) ->
  rtc netstep (start n (fun m => rounds m (if decide (m = i) then S (c m) else c m))) (<[i := round i (c i) r]> u.1, u.2).
Proof.
  intros Hi Hrun Hr. set (F := fun m => if decide (m = i) then round i (c i) else @Done R).
  pose proof (start_go_on n _ F _ Hrun) as H.
  assert (go_on F u.1 = <[i := round i (c i) r]> u.1) as E.
  { apply map_eq. intros m. rewrite lookup_go_on. unfold F. destruct (decide (m = i)) as [->|Hne].
    - by rewrite lookup_insert_eq, Hr.
    - rewrite lookup_insert_ne by done. destruct (u.1 !! m) as [x|]; [|done]. cbn. by rewrite io_bind_Done. }
  rewrite E in H. erewrite start_ext; [exact H|]. intros m Hm. cbn beta. unfold F.
  destruct (decide (m = i)) as [->|Hne]; [done|]. by rewrite io_bind_Done.
Qed.

Lemma calls_bounded (c : Z -> nat) : exists K, forall m, 0 <= m < n -> (c m <= K)%nat.
Proof.
  exists (max_list (c <$> seqZ 0 n)). intros m Hm. apply max_list_elem_of_le, list_elem_of_fmap. exists m.
  split; [done|]. apply elem_of_seqZ. lia.
Qed.

(** [val k i]: what the first [k] calls come to on machine [i]. *)
Context (val : nat -> Z -> R) (val_0 : forall i, val 0%nat i = r0 i)
  (round_collective : forall k, collective n (fun i => round i k (val k i)) (val (S k))).

Lemma rounds_collective k : collective n (fun i => rounds i k) (val k).
Proof.
  induction k as [|k IH].
  - eapply collective_ext; [| |exact (collective_Done n (val 0%nat))]; [|done]. intros i _. cbn. by rewrite val_0.
  - exact (collective_then n (fun i => rounds i k) (fun i => round i k) _ _ IH (round_collective k)).
Qed.

Lemma more_collective k d : collective n (fun i => more_rounds i k d (val k i)) (val (k + d)).
Proof.
  revert k. induction d as [|d IH]; intros k.
  - rewrite Nat.add_0_r. apply collective_Done.
  - rewrite Nat.add_succ_r. exact (collective_then n _ (fun i => more_rounds i (S k) d) _ _ (round_collective k) (IH (S k))).
Qed.

(** Whatever the others are doing, a machine that has returned from its call [k] has what
    the first [k] calls come to. *)
Lemma completed_value (c : Z -> nat) u i a : rtc netstep (start n (fun m => rounds m (c m))) u -> 0 <= i < n ->
  u.1 !! i = Some (Done a) -> a = val (c i) i.
Proof.
  intros Hrun Hi Ha. destruct (calls_bounded c) as [K HK]. set (k := c i). set (d := (K - k)%nat).
  set (keep := fun m (f : R -> io R) => if decide (m = i) then fun r => f r ≫= fun _ => Done r else f).
  set (F := fun m => keep m (more_rounds m (c m) (K - c m))).
  assert (all_return n (fun m => rounds m (c m) ≫= F m) (fun m => if decide (m = i) then val k m else val K m)) as Hall.
  { apply collective_returns. apply (collective_ext n (fun m => rounds m k ≫= keep m (more_rounds m k d)) _
      (fun m => if decide (m = i) then val k m else val K m)); [|done|].
    - intros m Hm. unfold F, keep. pose proof (HK m Hm). pose proof (HK i Hi). destruct (decide (m = i)) as [->|Hne]; [done|].
      rewrite <- !rounds_more. f_equal. unfold d, k. lia.
    - apply (collective_then n (fun m => rounds m k) (fun m => keep m (more_rounds m k d)) _ _ (rounds_collective k)).
      apply (collective_ext n (fun m => more_rounds m k d (val k m) ≫= fun r => Done (if decide (m = i) then val k m else r)) _
        (fun m => if decide (m = i) then val k m else val (k + d)%nat m)).
      + intros m Hm. unfold keep. destruct (decide (m = i)) as [->|Hne]; [done|apply io_bind_Done].
      + intros m Hm. replace (k + d)%nat with K by (unfold d, k; pose proof (HK i Hi); lia). done.
      + exact (collective_then n _ (fun m r => Done (if decide (m = i) then val k m else r)) _ _ (more_collective k d) (collective_Done n _)). }
  pose proof (start_go_on n _ F _ Hrun) as Hrun'. destruct Hall as [N HN]. apply rtc_nsteps_1 in Hrun' as [m Hm].
  destruct (HN m _ Hm) as (_ & t & Ht & Hr). specialize (Hr i Hi). rewrite decide_True in Hr by done.
  destruct (yields_run (eq a) _ t i (F i a) (rtc_nsteps_2 _ _ _ Ht)) as (y & Hy & Hyi).
  - cbn [fst]. by rewrite lookup_go_on, Ha.
  - unfold F, keep. rewrite decide_True by done. apply yields_const.
  - rewrite Hr in Hy. injection Hy as <-. exact Hyi.
Qed.

(** Unless some machine has returned, one of them can move. *)
Lemma rounds_go_on (c : Z -> nat) u : 0 < n -> rtc netstep (start n (fun m => rounds m (c m))) u ->
  (exists m t, 0 <= m < n /\ fire m u = Some t) \/ (exists m a, 0 <= m < n /\ u.1 !! m = Some (Done a)).
Proof.
  intros Hn Hrun. destruct (calls_bounded c) as [K Hc]. set (F := fun m => more_rounds m (c m) (K - c m)).
  pose proof (start_go_on n _ F _ Hrun) as Hrun'. apply rtc_nsteps_1 in Hrun' as [N HN].
  assert (all_return n (fun m => rounds m (c m) ≫= F m) (val K)) as [M HM].
  { apply collective_returns. eapply collective_ext; [| |exact (rounds_collective K)]; [|done].
    intros m Hm. unfold F. rewrite <- rounds_more. pose proof (Hc m Hm). by replace (c m + (K - c m))%nat with K by lia. }
  destruct (HM N _ HN) as (_ & t & Ht & Hd). remember (M - N)%nat as d eqn:Ed. clear Ed. destruct d as [|d].
  - inversion Ht; subst. right. exists 0. pose proof (Hd 0 ltac:(lia)) as H0. cbn [fst] in H0. rewrite lookup_go_on in H0.
    destruct (u.1 !! 0) as [[a| | |]|]; try discriminate H0. exists a. split; [lia|done].
  - inversion Ht as [|? ? t1 ? [m Hm] _]; subst.
    assert (0 <= m < n) as Hmn.
    { destruct (decide (0 <= m < n)) as [|Hout]; [done|]. exfalso. unfold fire in Hm. cbn [fst] in Hm. rewrite lookup_go_on in Hm.
      by rewrite (stays_absent n _ u m Hrun Hout) in Hm. }
    destruct (fire_go_on_inv F m u t1 Hm) as [[a Ha]|[t2 H2]]; [right; by exists m, a|left; by exists m, t2].
Qed.
End Rounds.
