(* ===== verification/NetdOp.v ===== *)
(** The operators of net/netd/netd_op.c. They work on arrays of bytes that come from
    and go to sockets, so an array is a list of bytes here and its elements are loaded
    and stored (little-endian, the i386 target). *)
From S2P Require Import Prelude.

(** A number type of the machine: its size, how it lies in memory, its arithmetic.
    A value is an integer for [int] and the bit pattern for the floating-point types,
    whose arithmetic is the hardware's. *)
Record num := Num {
  esize : nat;
  load : list Z -> Z;
  store : Z -> list Z;
  num_zero : Z;
  num_gt : Z -> Z -> bool;
  num_add : Z -> Z -> Z;
  num_mul : Z -> Z -> Z;
  num_neg : Z -> Z
}.

Fixpoint le_value (bs : list Z) : Z :=
  match bs with [] => 0 | b :: bs' => b + 256 * le_value bs' end.
Fixpoint le_bytes (n : nat) (z : Z) : list Z :=
  match n with O => [] | S n' => z mod 256 :: le_bytes n' (z / 256) end.

Definition int_num : num :=
  Num 4 (fun bs => int32 (le_value bs)) (le_bytes 4) 0 Z.gtb
    (fun a b => int32 (a + b)) (fun a b => int32 (a * b)) (fun a => int32 (- a)).

(** ** The macros *)

Definition ABSVAL (N : num) (x : Z) : Z := if num_gt N x (num_zero N) then x else num_neg N x.
Definition MAXVAL (N : num) (a b : Z) : Z := if num_gt N a b then a else b.
Definition MINVAL (N : num) (a b : Z) : Z := if num_gt N a b then b else a.

(** ** The loops *)

(** The loop over [nelem] elements: each of the first array becomes [f] of it and of
    the second's. [None] when an array is too short. *)
Fixpoint vec_op (N : num) (f : Z -> Z -> Z) (a b : list Z) (nelem : nat) : option (list Z) :=
  match nelem with
  | O => Some a
  | S nelem' =>
      if (length a <? esize N)%nat || (length b <? esize N)%nat then None
      else
        rest ← vec_op N f (drop (esize N) a) (drop (esize N) b) nelem';
        Some (store N (f (load N (take (esize N) a)) (load N (take (esize N) b))) ++ rest)
  end.
Fixpoint vec_abs (N : num) (a : list Z) (nelem : nat) : option (list Z) :=
  match nelem with
  | O => Some a
  | S nelem' =>
      if (length a <? esize N)%nat then None
      else
        rest ← vec_abs N (drop (esize N) a) nelem';
        Some (store N (ABSVAL N (load N (take (esize N) a))) ++ rest)
  end.
(** A negative count runs the loop off the arrays. *)
Definition vector_op (N : num) (f : Z -> Z -> Z) (x y : list Z) (nelem : Z) : option (list Z) :=
  if nelem <? 0 then None else vec_op N f x y (Z.to_nat nelem).
Definition vector_abs (N : num) (x : list Z) (nelem : Z) : option (list Z) :=
  if nelem <? 0 then None else vec_abs N x (Z.to_nat nelem).

(** ** The operators *)

Section Floats.
Context (DBL FLT : num).

Definition netd_dbl_sum_op := vector_op DBL (num_add DBL).
Definition netd_dbl_mult_op := vector_op DBL (num_mul DBL).
Definition netd_dbl_max_op := vector_op DBL (MAXVAL DBL).
Definition netd_dbl_min_op := vector_op DBL (MINVAL DBL).
Definition netd_dbl_absmax_op := vector_op DBL (fun a b => MAXVAL DBL (ABSVAL DBL a) (ABSVAL DBL b)).
Definition netd_dbl_absmin_op := vector_op DBL (fun a b => MINVAL DBL (ABSVAL DBL a) (ABSVAL DBL b)).

Definition netd_flt_sum_op := vector_op FLT (num_add FLT).
Definition netd_flt_mult_op := vector_op FLT (num_mul FLT).
Definition netd_flt_max_op := vector_op FLT (MAXVAL FLT).
Definition netd_flt_min_op := vector_op FLT (MINVAL FLT).
Definition netd_flt_absmax_op := vector_op FLT (fun a b => MAXVAL FLT (ABSVAL FLT a) (ABSVAL FLT b)).
Definition netd_flt_absmin_op := vector_op FLT (fun a b => MINVAL FLT (ABSVAL FLT a) (ABSVAL FLT b)).

Definition netd_int_sum_op := vector_op int_num (num_add int_num).
Definition netd_int_mult_op := vector_op int_num (num_mul int_num).
Definition netd_int_max_op := vector_op int_num (MAXVAL int_num).
Definition netd_int_min_op := vector_op int_num (MINVAL int_num).
Definition netd_int_absmax_op := vector_op int_num (fun a b => MAXVAL int_num (ABSVAL int_num a) (ABSVAL int_num b)).
Definition netd_int_absmin_op := vector_op int_num (fun a b => MINVAL int_num (ABSVAL int_num a) (ABSVAL int_num b)).

Definition netd_int_abs_op := vector_abs int_num.
Definition netd_flt_abs_op := vector_abs FLT.
Definition netd_dbl_abs_op := vector_abs DBL.
End Floats.

(** ** Arrays of ints as bytes *)

Definition int_bytes (xs : list Z) : list Z := concat (le_bytes 4 <$> xs).

Lemma length_le_bytes n z : length (le_bytes n z) = n.
Proof. revert z. induction n as [|n IH]; intros z; cbn; [done|]. by rewrite IH. Qed.

Lemma length_int_bytes xs : length (int_bytes xs) = (4 * length xs)%nat.
Proof.
  unfold int_bytes. induction xs as [|x xs IH]; [done|].
  rewrite fmap_cons. cbn [concat]. rewrite length_app, length_le_bytes, IH. cbn [length]. lia.
Qed.

Lemma le_value_bytes n z : le_value (le_bytes n z) = z mod 256 ^ Z.of_nat n.
Proof.
  revert z. induction n as [|n IH]; intros z; cbn [le_bytes le_value]; [by rewrite Z.mod_1_r|].
  rewrite IH, Nat2Z.inj_succ, Z.pow_succ_r by lia. rewrite Z.rem_mul_r by lia. lia.
Qed.

Lemma int32_mod z : int32 (z mod 2 ^ 32) = int32 z.
Proof. unfold int32. by rewrite Zplus_mod_idemp_l. Qed.

(** What is stored is loaded, wrapped to 32 bits. *)
Lemma load_store_int z : load int_num (store int_num z) = int32 z.
Proof. unfold int_num. cbn [load store]. rewrite le_value_bytes. change (256 ^ Z.of_nat 4) with (2 ^ 32). apply int32_mod. Qed.

Lemma le_bytes_mod n z : le_bytes n (z mod 256 ^ Z.of_nat n) = le_bytes n z.
Proof.
  revert z. induction n as [|n IH]; intros z; [done|]. cbn [le_bytes].
  rewrite Nat2Z.inj_succ, Z.pow_succ_r by lia. rewrite Z.rem_mul_r by lia.
  rewrite (Z.mul_comm 256 (_ mod _)), Z.mod_add, Z.mod_mod, Z.div_add by lia. rewrite (Z.div_small (z mod 256)) by (apply Z.mod_pos_bound; lia).
  by rewrite Z.add_0_l, IH.
Qed.

Lemma le_bytes_int32 z : le_bytes 4 (int32 z) = le_bytes 4 z.
Proof.
  rewrite <- (le_bytes_mod 4 (int32 z)), <- (le_bytes_mod 4 z). f_equal. change (256 ^ Z.of_nat 4) with (2 ^ 32).
  unfold int32. rewrite Zminus_mod_idemp_l. f_equal. lia.
Qed.

(** An operator on arrays of ints is the operation on the elements. *)
Lemma vec_op_ints f xs ys a b : Forall (fun x => is_int32 x = true) xs -> Forall (fun x => is_int32 x = true) ys ->
  length ys = length xs ->
  vec_op int_num f (int_bytes xs ++ a) (int_bytes ys ++ b) (length xs) = Some (int_bytes (zip_with f xs ys) ++ a).
Proof.
  intros Hx. revert ys. induction Hx as [|x xs Hx _ IH]; intros ys Hy Hl; destruct ys as [|y ys]; try done.
  apply Forall_cons in Hy as [Hy Hys]. injection Hl as Hl. cbn [length zip_with].
  unfold int_bytes. rewrite !fmap_cons. cbn [concat]. rewrite <- !app_assoc. fold (int_bytes xs) (int_bytes ys) (int_bytes (zip_with f xs ys)).
  cbn [vec_op esize int_num]. rewrite !length_app, !length_le_bytes.
  rewrite (proj2 (Nat.ltb_ge _ 4)), (proj2 (Nat.ltb_ge _ 4)) by lia. cbn [orb].
  rewrite !drop_app_length', !take_app_length' by (by rewrite length_le_bytes). rewrite IH by done. cbn [mbind option_bind].
  fold (store int_num). change (le_bytes 4 x) with (store int_num x). change (le_bytes 4 y) with (store int_num y).
  by rewrite !load_store_int, !int32_id by done.
Qed.

Lemma vec_abs_ints xs a : Forall (fun x => is_int32 x = true) xs ->
  vec_abs int_num (int_bytes xs ++ a) (length xs) = Some (int_bytes (ABSVAL int_num <$> xs) ++ a).
Proof.
  induction 1 as [|x xs Hx _ IH]; [done|]. cbn [length]. unfold int_bytes. rewrite !fmap_cons. cbn [concat].
  rewrite <- !app_assoc. fold (int_bytes xs) (int_bytes (ABSVAL int_num <$> xs)).
  cbn [vec_abs esize int_num]. rewrite !length_app, !length_le_bytes. rewrite (proj2 (Nat.ltb_ge _ 4)) by lia.
  rewrite drop_app_length', take_app_length' by (by rewrite length_le_bytes). rewrite IH. cbn [mbind option_bind].
  change (le_bytes 4 x) with (store int_num x). by rewrite load_store_int, int32_id.
Qed.
