(* ===== verification/NetdMsg.v ===== *)
(** Messages between machines (net/netd/netd_sock_c): sending a message on the socket of a
    machine, and the receiver, which waits for any of the machines and remembers which of
    them the last poll(2) found ready. The sockets are those of file SockSR; the system
    calls are parameters, and so is the function that a message is handed to. *)
From S2P Require Import Prelude SockSR NetdOp.

Open Scope Z_scope.

(** ** State *)

Record pollfd := mkPollfd { fd : Z; revents : Z }.
#[export] Instance eta_pollfd : Eta pollfd := MkEta _ (fun r => mkPollfd (fd r) (revents r)).

(** [netd_info] as far as it concerns messages, with the static variables [nset] and [idx]
    of [netd_recvmsg]. [msgbuf]: the buffer is there. [groupfd]: the descriptors for the
    collectives. [grptree]: the trees that were made. [socks]: the open descriptors;
    [polls] the calls of poll(2) that waited. *)
Record netd := mkNetd {
  size : Z; myid : Z;
  pt2ptfd : option (list Z); groupfd : option (list Z); fdtorank : option (list Z);
  grptree : option (list bool);
  pt2ptset : option (list pollfd);
  maxmsg : Z; msgbuf : bool;
  nset : Z; idx : Z;
  socks : gmap Z sock; polls : nat
}.
#[export] Instance eta_netd : Eta netd := MkEta _ (fun r =>
  mkNetd (size r) (myid r) (pt2ptfd r) (groupfd r) (fdtorank r) (grptree r) (pt2ptset r) (maxmsg r) (msgbuf r) (nset r) (idx r)
    (socks r) (polls r)).
#[local] Notation M := (Prelude.M netd).

Definition MAX_MSG_DEFAULT : Z := 1024.

(** A call on an open descriptor; [bad] is what it comes to on another number. *)
Definition on_sock {A} (f : Z) (bad : A) (m : Prelude.M sock A) : M A := fun w =>
  match socks w !! f with
  | Some s =>
      match m s with
      | Ret a s' => Ret a (w <| socks := <[f := s']> (socks w) |>)
      | Fault => Fault
      | Stuck => Stuck
      end
  | None => Ret bad w
  end.

(** Element [i] of an array. *)
Definition at_index {A} (l : list A) (i : Z) : M A := if i <? 0 then fault else or_fault (l !! Z.to_nat i).

Section Calls.
(** [os f k n]: what call [k] on descriptor [f] returns when it asks for [n] bytes. *)
Context (os : Z -> nat -> Z -> sysret).

(** ** Sizes *)

Definition netd_setMsgSize (msgsize : Z) : M Z :=
  let msgsize := if msgsize <? MAX_MSG_DEFAULT then MAX_MSG_DEFAULT else msgsize in
  w ← get;
  when (maxmsg w <? msgsize) (modify (fun w => w <| maxmsg := msgsize |> <| msgbuf := false |>));;
  mret 0.
Definition netd_getMsgSize : M Z := gets maxmsg.

(** ** Sending *)

(** The guards of the calls that name a machine: its descriptor. *)
Definition fd_of (i : Z) : M (option Z) :=
  w ← get;
  match pt2ptfd w with
  | None => mret None
  | Some fds =>
      if (i <? 0) || (i >=? size w) then mret None
      else f ← at_index fds i; mret (if f =? -1 then None else Some f)
  end.

(** [len] bytes at [msg]. *)
Definition bytes_of (msg : list Z) (len : Z) : list Z := take (Z.to_nat len) msg.

Definition netd_sendmsg (to : Z) (msg : list Z) (len : Z) : M Z :=
  o ← fd_of to;
  match o with
  | None => mret (-1)
  | Some f => on_sock f (-1) (sock_writev (os f) [le_bytes 4 len; bytes_of msg len])
  end.

Definition netd_senddat (to : Z) (data : list Z) (len : Z) : M Z :=
  o ← fd_of to;
  match o with
  | None => mret (-1)
  | Some f => on_sock f (-1) (sock_write (os f) data len)
  end.

Definition netd_sendmsgdat (to : Z) (msg : list Z) (msglen : Z) (data : list Z) (datlen : Z) : M Z :=
  o ← fd_of to;
  match o with
  | None => mret (-1)
  | Some f => on_sock f (-1) (sock_writev (os f) [le_bytes 4 msglen; bytes_of msg msglen; bytes_of data datlen])
  end.

(** The result code and the bytes stored. *)
Definition netd_recvdat (from len : Z) : M (Z * list Z) :=
  o ← fd_of from;
  match o with
  | None => mret (-1, [])
  | Some f => on_sock f (-1, []) (sock_read (os f) len)
  end.

(** ** Waiting for a machine *)

(** [hup k f]: the events besides input that poll [k] reports for [f]; [interrupted k]: how
    often a signal interrupts it; [poll_fails k]: it fails for another reason. [memory]:
    there is memory for the message buffer. *)
Context (hup : nat -> Z -> Z) (interrupted : nat -> nat) (poll_fails : nat -> bool) (memory : bool).
(** The caller's function, which is handed the rank and the bytes of a message. *)
Context (msg_handle : Z -> list Z -> M Z).

Definition events_of (w : netd) (f : Z) : Z :=
  if f <? 0 then 0
  else Z.lor (match socks w !! f with Some s => if (0 <? length (incoming s))%nat then POLLIN else 0 | None => 0 end) (hup (polls w) f).
Definition has_input (e : Z) : bool := negb (Z.land e (Z.lor POLLIN POLLRDNORM) =? 0).

(** [sock_canread(fd)]: poll(2) on one descriptor that does not wait. *)
Definition canread (f : Z) : M Z :=
  w ← get; mret (sock_canread (if events_of w f =? 0 then 0 else 1) (events_of w f)).

(** The loop over the poll structures from [idx], [k] of them left. The descriptor found,
    or -1. *)
Fixpoint scan (k : nat) : M Z :=
  match k with
  | O => mret (-1)
  | S k' =>
      w ← get;
      set ← or_fault (pt2ptset w);
      p ← at_index set (idx w);
      if revents p =? 0 then modify (fun w => w <| idx := idx w + 1 |>);; scan k'
      else
        modify (fun w => w <| nset := nset w - 1 |>);;
        if has_input (revents p) then mret (fd p)
        else modify (fun w => w <| idx := idx w + 1 |>);; scan k'
  end.
(** From [idx] to the end of the structures, of which there are [size-1]. *)
Definition scan_rest : M Z := w ← get; scan (Z.to_nat (size w - 1 - idx w)).

(** [poll(pt2ptset,size-1,-1)], with the loop around it. *)
Fixpoint poll_wait (eintr : nat) : M Z :=
  match eintr with
  | S e => modify (fun w => w <| nset := -1 |>);; poll_wait e
  | O =>
      w ← get;
      if poll_fails (polls w) then modify (fun w => w <| nset := -1 |> <| polls := S (polls w) |>);; mret (-1)
      else
        set ← or_fault (pt2ptset w);
        let polled := (fun p => p <| revents := events_of w (fd p) |>) <$> set in
        let n := Z.of_nat (length (filter (fun p => revents p <> 0) polled)) in
        if n =? 0 then stuck
        else modify (fun w => w <| pt2ptset := Some polled |> <| nset := n |> <| polls := S (polls w) |>);; mret n
  end.

(** What the last poll has found, if it still can be read. *)
Definition cached : M Z :=
  w ← get;
  if nset w >? 0 then
    modify (fun w => w <| idx := idx w + 1 |>);;
    f ← scan_rest;
    c ← canread f;
    mret (if negb (c =? 1) then -1 else f)
  else mret (-1).

(** The descriptor to read from, or -1. *)
Definition choose : M Z :=
  f ← cached;
  if f =? -1 then
    w ← get;
    n ← poll_wait (interrupted (polls w));
    if n <=? 0 then mret (-1)
    else modify (fun w => w <| idx := 0 |>);; scan_rest
  else mret f.

(** ** Receiving *)

(** [while (n)]: the rest of a message that is too long, in pieces of at most 128 bytes; the
    results of the reads are not looked at. *)
Fixpoint dump_rest (fuel : nat) (f n : Z) : M unit :=
  match fuel with
  | O => stuck
  | S fuel' =>
      if n =? 0 then mret tt
      else let i := if n >? 128 then 128 else n in
        on_sock f (-1, []) (sock_read (os f) i);; dump_rest fuel' f (n - i)
  end.

(** From the descriptor on: the code, and the message if one was handed over. *)
Definition read_msg (sz f : Z) : M (Z * option Z) :=
  w ← get;
  if sz >? maxmsg w then mret (-1, None)
  else
    when (negb (msgbuf w)) (modify (fun w => w <| msgbuf := memory |>));;
    h ← on_sock f (-1, []) (sock_read (os f) 4);
    if fst h <? 0 then mret (-1, None)
    else
      let n := int32 (le_value (snd h)) in
      if n <? 0 then mret (-1, None)
      else
        let m := if n >? sz then sz else n in
        w ← get;
        b ← (if m >? 0 then (if msgbuf w then on_sock f (-1, []) (sock_read (os f) m) else mret (-1, [])) else mret (0, []));
        if fst b <? 0 then mret (-1, None)
        else
          when (n >? m) (dump_rest (S (Z.to_nat (n - m))) f (n - m));;
          w ← get;
          ranks ← or_fault (fdtorank w);
          rank ← at_index ranks f;
          r ← msg_handle rank (snd b);
          mret (0, Some r).

(** The result, and what is stored at [status] if the caller gives one. *)
Definition netd_recvmsg (sz : Z) (status : bool) : M (Z * option Z) :=
  w ← get;
  match pt2ptset w, fdtorank w with
  | Some _, Some _ =>
      if size w <? 2 then mret (-1, None)
      else
        f ← choose;
        if f =? -1 then mret (-1, None)
        else
          w ← get;
          set ← or_fault (pt2ptset w);
          p ← at_index set (idx w);
          modify (fun w => w <| pt2ptset := Some (<[Z.to_nat (idx w) := p <| revents := 0 |>]> set) |>);;
          r ← read_msg sz f;
          mret (match r with
                | (0, Some n) => if status then (0, Some n) else (n, None)
                | (ret, _) => (ret, None)
                end)
  | _, _ => mret (-1, None)
  end.
End Calls.

(** ** The end *)

Definition close (f : Z) : M unit := modify (fun w => w <| socks := delete f (socks w) |>).

(** [for (i=0; i<size; i++)] over both tables, [k] turns left. *)
Fixpoint close_from (k : nat) (i : Z) (fds gfds : list Z) : M unit :=
  match k with
  | O => mret tt
  | S k' =>
      w ← get;
      when (negb (i =? myid w)) (f ← at_index fds i; close f;; g ← at_index gfds i; close g);;
      close_from k' (i + 1) fds gfds
  end.
(** The trees from [i] on that are freed, [k] turns left. *)
Fixpoint free_trees (k : nat) (i : Z) (trees : list bool) : M (list bool) :=
  match k with
  | O => mret trees
  | S k' => _ ← at_index trees i; free_trees k' (i + 1) (<[Z.to_nat i := false]> trees)
  end.

(** After the barrier: what is left of the trees (their table is freed as well). *)
Definition netd_waitAll : M (option (list bool)) :=
  w ← get;
  if myid w <? 0 then mret None
  else
    modify (fun w => w <| size := 0 |> <| myid := -1 |>);;
    w ← get;
    match pt2ptfd w, groupfd w with
    | Some fds, Some gfds => close_from (Z.to_nat (size w)) 0 fds gfds
    | _, _ => mret tt
    end;;
    modify (fun w => w <| pt2ptfd := None |> <| groupfd := None |> <| fdtorank := None |>);;
    lost ← match grptree w with
           | Some trees => l ← free_trees (Z.to_nat (size w)) 0 trees; mret (Some l)
           | None => mret None
           end;
    modify (fun w => w <| grptree := None |> <| msgbuf := false |> <| pt2ptset := None |>);;
    mret lost.
