(* ===== verification/NetdMsgProps.v ===== *)
(** Theorems on messages between machines (net/netd/netd_sock_c): what [netd_recvmsg] hands
    to its caller, that it overlooks nobody, and what the calls that send put on the
    wire. *)
From S2P Require Import Prelude SockSR SockProps NetdOp NetdMsg.

Open Scope Z_scope.

#[local] Notation M := (Prelude.M netd).

(** ** What is on the wire *)

(** The bytes of a message with data behind it. *)
Definition wire1 (m : list Z * list Z) : list Z := le_bytes 4 (Z.of_nat (length m.1)) ++ m.1 ++ m.2.
Definition wire (q : list (list Z * list Z)) : list Z := q ≫= wire1.

Lemma wire_cons m q : wire (m :: q) = wire1 m ++ wire q.
Proof. done. Qed.

Lemma wire_app q m : wire (q ++ [m]) = wire q ++ wire1 m.
Proof. unfold wire. rewrite bind_app. change ([m] ≫= wire1) with (wire1 m ++ []). by rewrite app_nil_r. Qed.

Lemma wire1_length m : (4 <= length (wire1 m))%nat.
Proof. unfold wire1. rewrite length_app, length_le_bytes. lia. Qed.

Lemma wire_nil q : wire q = [] <-> q = [].
Proof.
  split; [|by intros ->]. destruct q as [|m q]; [done|]. rewrite wire_cons. intros H. apply (f_equal length) in H.
  rewrite length_app in H. pose proof (wire1_length m). change (length (@nil Z)) with 0%nat in H. lia.
Qed.

(** How many of the calls [k], [k+1], ..., [k+n-1] a signal interrupts. *)
Definition interrupts (sig : nat -> bool) (k n : nat) : nat := length (filter (fun i => sig i = true) (seq k n)).

(** Reads of a connection that is up: one that is not interrupted by a signal transfers
    something, though maybe less than was asked for; and a read of at most [max] bytes, which
    is not more than [max+MAX_RETRY] calls, is interrupted fewer than [MAX_RETRY] times. *)
Definition connected (o : nat -> Z -> sysret) (max : Z) : Prop :=
  exists sig, (forall k n, 1 <= n -> if sig k : bool then o k n = Eintr else exists m, o k n = Got m /\ 1 <= m <= n) /\
    (forall k, Z.of_nat (interrupts sig k (Z.to_nat (max + MAX_RETRY))) < MAX_RETRY).

Lemma interrupts_S sig k n : interrupts sig k (S n) = ((if sig k then 1 else 0) + interrupts sig (S k) n)%nat.
Proof. unfold interrupts. cbn [seq]. rewrite filter_cons. by destruct (sig k). Qed.

Section Reads.
Context (o : nat -> Z -> sysret) (sig : nat -> bool)
  (reads : forall k n, 1 <= n -> if sig k then o k n = Eintr else exists m, o k n = Got m /\ 1 <= m <= n).

(** Such a read gets what is waiting, in however many pieces. *)
Lemma read_loop_gets fuel window data n len retry s :
  0 <= n <= len -> len - n <= Z.of_nat (length (incoming s)) -> 0 <= retry -> len - n + (MAX_RETRY - retry) <= Z.of_nat window ->
  Z.of_nat (interrupts sig (calls s) window) + retry < MAX_RETRY -> len - n + (MAX_RETRY - retry) < Z.of_nat fuel ->
  exists s', read_loop o fuel data n len retry s = Ret (0, data ++ take (Z.to_nat (len - n)) (incoming s)) s' /\
    incoming s' = drop (Z.to_nat (len - n)) (incoming s) /\ outgoing s' = outgoing s.
Proof.
  revert window data n retry s. induction fuel as [|fuel IH]; intros window data n retry s Hn Hlen Hr Hw Hi Hf; [lia|]. cbn [read_loop].
  destruct (Z.ltb_spec n len) as [Hlt|Hge].
  - destruct window as [|window]; [lia|]. rewrite interrupts_S in Hi. pose proof (reads (calls s) (len - n) ltac:(lia)) as Ho.
    unfold sys_read, sys_call. mrun. destruct (sig (calls s)).
    + rewrite Ho. rewrite Z.geb_leb, (proj2 (Z.leb_gt _ _)) by lia.
      destruct (IH window data n (retry + 1) (s <| calls := S (calls s) |>)) as (s' & E & Hi' & Hout); cbn [incoming calls upd]; [lia..|]. by exists s'.
    + destruct Ho as (m & Ho & Hm). rewrite Ho. cbn [incoming calls upd].
      rewrite Z.min_l by lia. rewrite (proj2 (Z.eqb_neq m 0)) by lia.
      destruct (IH window (data ++ take (Z.to_nat m) (incoming s)) (n + m) retry (s <| calls := S (calls s) |> <| incoming := drop (Z.to_nat m) (incoming s) |>)) as (s' & E & Hi' & Hout);
        cbn [incoming calls upd]; [lia|rewrite length_drop; lia|lia..|].
      exists s'. cbn [incoming outgoing upd] in Hi', Hout. split; [|split; [|done]].
      * etrans; [exact E|]. cbn [incoming upd]. f_equal. f_equal. rewrite <- app_assoc. f_equal.
        replace (Z.to_nat (len - n)) with (Z.to_nat m + Z.to_nat (len - (n + m)))%nat by lia. apply take_take_drop.
      * rewrite Hi', drop_drop. f_equal. lia.
  - exists s. replace (len - n) with 0 by lia. by rewrite app_nil_r.
Qed.
End Reads.

Lemma read_gets o max len s : connected o max -> len <= max -> 0 <= len <= Z.of_nat (length (incoming s)) ->
  exists s', sock_read o len s = Ret (0, take (Z.to_nat len) (incoming s)) s' /\
    incoming s' = drop (Z.to_nat len) (incoming s) /\ outgoing s' = outgoing s.
Proof.
  intros (sig & Hreads & Hfew) Hmax H. specialize (Hfew (calls s)).
  destruct (read_loop_gets o sig Hreads (loop_fuel len) (Z.to_nat (max + MAX_RETRY)) [] 0 len 0 s) as (s' & E & Hi & Ho);
    unfold loop_fuel, MAX_RETRY in *; [lia..|].
  rewrite Z.sub_0_r in *. by exists s'.
Qed.

(** ** The receiver *)

Definition flagged (p : pollfd) : Prop := revents p <> 0.
#[export] Instance flagged_dec p : Decision (flagged p).
Proof. unfold flagged. apply _. Defined.
Definition count_flagged (set : list pollfd) : nat := length (filter flagged set).

Lemma count_none set : (forall i p, set !! i = Some p -> revents p = 0) -> count_flagged set = 0%nat.
Proof.
  unfold count_flagged. induction set as [|p set IH]; intros H; [done|]. rewrite filter_cons, decide_False.
  - apply IH. intros i. apply (H (S i)).
  - intros Hp. by apply Hp, (H 0%nat).
Qed.

Lemma count_at set i p : set !! i = Some p -> flagged p -> (0 < count_flagged set)%nat.
Proof.
  intros Hi Hp. unfold count_flagged. apply list_elem_of_lookup_2 in Hi.
  assert (p ∈ filter flagged set) as H by (by apply list_elem_of_filter). destruct (filter flagged set); [by apply not_elem_of_nil in H|cbn; lia].
Qed.

(** The first flagged one from [j] on. *)
Lemma count_first set j i p : (j <= i)%nat -> set !! i = Some p -> flagged p ->
  (forall i' p', (j <= i' < i)%nat -> set !! i' = Some p' -> revents p' = 0) ->
  count_flagged (drop j set) = S (count_flagged (drop (S i) set)).
Proof.
  intros Hj Hi Hp Hb. replace (drop j set) with (take (i - j) (drop j set) ++ drop i set).
  2:{ rewrite <- (take_drop (i - j) (drop j set)) at 2. rewrite drop_drop. do 2 f_equal. lia. }
  unfold count_flagged. rewrite filter_app, length_app. rewrite (drop_S _ p i Hi), filter_cons, decide_True by done.
  assert (length (filter flagged (take (i - j) (drop j set))) = 0)%nat as ->; [|done]. apply count_none.
  intros k q Hk. apply lookup_take_Some in Hk as [Hk Hl]. rewrite lookup_drop in Hk. eapply (Hb (j + k)%nat); [lia|exact Hk].
Qed.

(** What a loop over the structures finds: the first that is flagged. *)
Lemma scan_spec set k w j :
  pt2ptset w = Some set -> idx w = Z.of_nat j -> (j + k = length set)%nat ->
  (forall i p, (j <= i)%nat -> set !! i = Some p -> revents p = 0 \/ revents p = POLLIN) ->
  (forall i p, (j <= i)%nat -> set !! i = Some p -> revents p = 0) /\
    scan k w = Ret (-1) (w <| idx := Z.of_nat (length set) |>) \/
  exists i p, (j <= i)%nat /\ set !! i = Some p /\ revents p = POLLIN /\
    (forall i' p', (j <= i' < i)%nat -> set !! i' = Some p' -> revents p' = 0) /\
    scan k w = Ret (fd p) (w <| nset := nset w - 1 |> <| idx := Z.of_nat i |>).
Proof.
  revert w j. induction k as [|k IH]; intros w j Hset Hidx Hk Hf; cbn [scan].
  - left. split; [intros i p Hi Hp; apply lookup_lt_Some in Hp; lia|]. mrun. f_equal. destruct w; cbn in *. subst. f_equal. lia.
  - destruct (lookup_lt_is_Some_2 set j) as [p Hp]; [lia|]. unfold at_index. mrun. rewrite Hset, Hidx, (proj2 (Z.ltb_ge _ 0)), Nat2Z.id, Hp by lia.
    destruct (Hf j p) as [Hr|Hr]; [lia|done|rewrite Hr..].
    + change (0 =? 0) with true. cbv iota. destruct (IH (w <| idx := Z.of_nat j + 1 |>) (S j)) as [[Hn E]|(i & q & Hi & Hq & Hr' & Hb & E)].
      * done.
      * cbn [idx upd]. lia.
      * lia.
      * intros i q Hi. apply Hf. lia.
      * left. split; [|rewrite <- Hidx in E; exact E]. intros i q Hi Hq. destruct (decide (i = j)) as [->|]; [congruence|]. apply (Hn i q); [lia|done].
      * right. exists i, q. split; [lia|]. split; [done|]. split; [done|]. split; [|rewrite <- Hidx in E; exact E].
        intros i' q' Hi' Hq'. destruct (decide (i' = j)) as [->|]; [congruence|]. apply (Hb i' q'); [lia|done].
    + change (POLLIN =? 0) with false. cbv iota. change (has_input POLLIN) with true. cbv iota. right. exists j, p. split; [lia|]. split; [done|]. split; [done|].
      split; [intros; lia|]. rewrite <- Hidx. by destruct w.
Qed.

Section Receiver.
Context (os : Z -> nat -> Z -> sysret) (hup : nat -> Z -> Z) (interrupted : nat -> nat) (poll_fails : nat -> bool)
  (msg_handle : Z -> list Z -> M Z).
(** The connections are up, for reads of at most [max] bytes; poll(2) reports nothing but
    input, and fails only when it is interrupted. *)
Context (max : Z) (reliable : forall f, connected (os f) max)
  (no_hup : forall k f, hup k f = 0) (no_fail : forall k, poll_fails k = false).
(** The tables: [fds] by rank, [ranks] by descriptor, and the others in the order of
    [pt2ptset], each with its descriptor and its rank. *)
Context (fds ranks : list Z) (peers : list (Z * Z)).
Context (some_peer : peers <> []) (peers_nodup : NoDup peers.*1)
  (peers_ok : forall i f r, peers !! i = Some (f, r) ->
    0 <= f /\ ranks !! Z.to_nat f = Some r /\ 0 <= r <= Z.of_nat (length peers) /\ fds !! Z.to_nat r = Some f).
(** The size the receiver asks for; the caller's function returns [h], and reads
    the data that belong to the message, [plen] bytes. *)
Context (sz : Z) (sz_pos : 0 <= sz) (sz_max : sz <= max) (piece_max : 128 <= max) (h : Z -> list Z -> Z) (plen : list Z -> nat).
Notation message := (list Z * list Z)%type.

Definition handed (m : message) : list Z := take (Z.to_nat sz) m.1.
Definition message_ok (m : message) : Prop := Z.of_nat (length m.1) < 2 ^ 31 /\ length m.2 = plen (handed m).

Context (handle_ok : forall w i f r s m rest, peers !! i = Some (f, r) ->
  size w = Z.of_nat (length peers) + 1 -> pt2ptfd w = Some fds -> socks w !! f = Some s -> message_ok m -> incoming s = m.2 ++ rest ->
  exists s', msg_handle r (handed m) w = Ret (h r (handed m)) (w <| socks := <[f := s']> (socks w) |>) /\ incoming s' = rest).

(** The streams of the peers hold the messages [q]. *)
Definition holds (w : netd) (q : list (list message)) : Prop :=
  forall i f r l, peers !! i = Some (f, r) -> q !! i = Some l -> exists s, socks w !! f = Some s /\ incoming s = wire l.

(** What the receiver remembers of the last poll is right. *)
Definition cache_ok (w : netd) (q : list (list message)) (set : list pollfd) : Prop :=
  nset w <= 0 \/
  0 <= idx w < Z.of_nat (length set) /\ nset w = Z.of_nat (count_flagged (drop (S (Z.to_nat (idx w))) set)) /\
  forall i p, idx w < Z.of_nat i -> set !! i = Some p -> revents p = 0 \/ revents p = POLLIN /\ exists m l, q !! i = Some (m :: l).

Record receiver_ok (w : netd) (q : list (list message)) (set : list pollfd) : Prop := ReceiverOk {
  ro_size : size w = Z.of_nat (length peers) + 1;
  ro_fds : pt2ptfd w = Some fds;
  ro_ranks : fdtorank w = Some ranks;
  ro_max : sz <= maxmsg w;
  ro_set : pt2ptset w = Some set;
  ro_peers : fd <$> set = peers.*1;
  ro_len : length q = length peers;
  ro_holds : holds w q;
  ro_msgs : forall i l, q !! i = Some l -> Forall message_ok l;
  ro_cache : cache_ok w q set
}.

(** How many calls may go before peer [j], which has sent something, is served. *)
Definition distance (w : netd) (set : list pollfd) (j : nat) : nat :=
  if nset w <=? 0 then S j
  else if (idx w <? Z.of_nat j) && (if set !! j is Some p then negb (revents p =? 0) else false) then j - Z.to_nat (idx w)
  else (length set - Z.to_nat (idx w)) + S j.

Section Facts.
Context {w : netd} {q : list (list message)} {set : list pollfd} (HR : receiver_ok w q set).

Lemma set_length : length set = length peers.
Proof. pose proof (f_equal length (ro_peers _ _ _ HR)) as H. by rewrite !length_fmap in H. Qed.

Lemma peer_at i p : set !! i = Some p -> exists r, peers !! i = Some (fd p, r).
Proof.
  intros H. destruct (lookup_lt_is_Some_2 peers i) as [[f r] Hf]; [rewrite <- set_length; by eapply lookup_lt_Some|].
  assert ((fd <$> set) !! i = Some (fd p)) as H1 by (by rewrite list_lookup_fmap, H). rewrite (ro_peers _ _ _ HR), list_lookup_fmap, Hf in H1.
  injection H1 as <-. by exists r.
Qed.

Lemma queue_at i p : set !! i = Some p -> exists l, q !! i = Some l.
Proof. intros H. apply lookup_lt_is_Some_2. rewrite (ro_len _ _ _ HR), <- set_length. by eapply lookup_lt_Some. Qed.

(** What poll(2) reports for a peer. *)
Lemma events_peer i p l : set !! i = Some p -> q !! i = Some l -> events_of hup w (fd p) = if l is [] then 0 else POLLIN.
Proof.
  intros Hp Hl. destruct (peer_at i p Hp) as [r Hr]. destruct (peers_ok _ _ _ Hr) as [Hf _]. destruct (ro_holds _ _ _ HR i _ r l Hr Hl) as (s & Hs & Hi).
  unfold events_of. rewrite (proj2 (Z.ltb_ge _ 0) Hf), Hs, Hi, no_hup, Z.lor_0_r. destruct l as [|m l]; [done|].
  rewrite (proj2 (Nat.ltb_lt _ _)); [done|]. rewrite wire_cons, length_app. pose proof (wire1_length m). lia.
Qed.
End Facts.

(** The cached descriptor, or none. *)
Lemma cached_spec w q set : receiver_ok w q set ->
  nset w <= 0 /\ cached hup w = Ret (-1) w \/
  0 < nset w /\ exists i p, idx w < Z.of_nat i /\ set !! i = Some p /\ revents p = POLLIN /\
    (forall i' p', idx w < Z.of_nat i' < Z.of_nat i -> set !! i' = Some p' -> revents p' = 0) /\
    nset w - 1 = Z.of_nat (count_flagged (drop (S i) set)) /\
    cached hup w = Ret (fd p) (w <| nset := nset w - 1 |> <| idx := Z.of_nat i |>).
Proof.
  intros HR. unfold cached. mrun. destruct (Z.gtb_spec (nset w) 0) as [Hn|Hn]; [right|left; split; [lia|done]]. split; [done|].
  destruct (ro_cache _ _ _ HR) as [|(Hidx & Hcount & Hf)]; [lia|].
  pose proof (set_length HR) as Hlen. destruct (scan_spec set (Z.to_nat (size w - 1 - (idx w + 1))) (w <| idx := idx w + 1 |>) (S (Z.to_nat (idx w))))
    as [[Hnone _]|(i & p & Hi & Hp & Hr & Hb & E)].
  - apply (ro_set _ _ _ HR).
  - cbn [idx upd]. lia.
  - rewrite (ro_size _ _ _ HR). lia.
  - intros i p Hi Hp. destruct (Hf i p) as [|[? _]]; [lia|done|by left|by right].
  - exfalso. rewrite count_none in Hcount; [lia|]. intros i p. rewrite lookup_drop. apply Hnone. lia.
  - exists i, p. split; [lia|]. split; [done|]. split; [done|]. split; [intros i' p' Hi'; apply Hb; lia|]. split.
    + rewrite Hcount, (count_first set _ i p Hi Hp); [lia| |done]. unfold flagged. by rewrite Hr.
    + unfold scan_rest. mrun. change (scan _ _) with (scan (Z.to_nat (size w - 1 - (idx w + 1))) (w <| idx := idx w + 1 |>)). rewrite E. unfold canread. mrun.
      destruct (Hf i p) as [?|[_ (m & l & Hq)]]; [lia|done|by rewrite Hr in *|].
      change (events_of hup (w <| idx := idx w + 1 |> <| nset := nset (w <| idx := idx w + 1 |>) - 1 |> <| idx := Z.of_nat i |>) (fd p)) with (events_of hup w (fd p)).
      rewrite (events_peer HR i p (m :: l) Hp Hq). done.
Qed.

Lemma poll_wait_spec w q set e : receiver_ok w q set -> (exists i m l, q !! i = Some (m :: l)) ->
  exists set' n n0, poll_wait hup poll_fails e w = Ret n (w <| nset := n0 |> <| pt2ptset := Some set' |> <| nset := n |> <| polls := S (polls w) |>) /\
    0 < n /\ n = Z.of_nat (count_flagged set') /\ fd <$> set' = fd <$> set /\
    forall i p, set' !! i = Some p -> revents p = if q !! i is Some (_ :: _) then POLLIN else 0.
Proof.
  intros HR (i0 & m0 & l0 & Hq0). set (set' := (fun p => p <| revents := events_of hup w (fd p) |>) <$> set).
  assert (forall i p, set' !! i = Some p -> revents p = if q !! i is Some (_ :: _) then POLLIN else 0) as Hrev.
  { intros i p' Hp'. unfold set' in Hp'. rewrite list_lookup_fmap in Hp'. destruct (set !! i) as [p|] eqn:Hp; [|done]. injection Hp' as <-.
    destruct (queue_at HR i p Hp) as [l Hl]. cbn [revents upd]. rewrite (events_peer HR i p l Hp Hl), Hl. by destruct l. }
  assert (exists p, set' !! i0 = Some p) as [p0 Hp0].
  { apply lookup_lt_is_Some_2. unfold set'. rewrite length_fmap, (set_length HR), <- (ro_len _ _ _ HR). by eapply lookup_lt_Some. }
  assert (0 < count_flagged set')%nat as Hpos.
  { eapply count_at; [exact Hp0|]. unfold flagged. by rewrite (Hrev _ _ Hp0), Hq0. }
  assert (forall e v, events_of hup v = events_of hup w -> poll_fails (polls v) = false -> pt2ptset v = Some set -> exists n0,
    poll_wait hup poll_fails e v = Ret (Z.of_nat (count_flagged set'))
      (v <| nset := n0 |> <| pt2ptset := Some set' |> <| nset := Z.of_nat (count_flagged set') |> <| polls := S (polls v) |>)) as H.
  { clear e. induction e as [|e IH]; intros v Hev Hfl Hset; cbn [poll_wait]; mrun.
    - rewrite Hfl, Hset, Hev. change ((fun p => p <| revents := events_of hup w (fd p) |>) <$> set) with set'.
      change (length (filter (fun p => revents p <> 0) set')) with (count_flagged set'). rewrite (proj2 (Z.eqb_neq _ 0)) by lia. by exists 0.
    - destruct (IH (v <| nset := -1 |>)) as [n0 E]; [exact Hev|done|done|]. exists n0. exact E. }
  destruct (H e w eq_refl (no_fail _) (ro_set _ _ _ HR)) as [n0 E]. exists set', (Z.of_nat (count_flagged set')), n0. split; [exact E|].
  split; [lia|]. split; [done|]. split; [|exact Hrev]. unfold set'. rewrite <- list_fmap_compose. by apply list_fmap_ext.
Qed.

(** After the choice of peer [i]: [set'] is what is remembered; whoever waits is nearer. *)
Record chosen (w : netd) (q : list (list message)) (set : list pollfd) (i : nat) (p : pollfd) (set' : list pollfd) (w' : netd) : Prop := Chosen {
  ch_at : set' !! i = Some p;
  ch_waits : exists m l, q !! i = Some (m :: l);
  ch_peers : fd <$> set' = fd <$> set;
  ch_state : exists k, w' = w <| pt2ptset := Some set' |> <| nset := nset w' |> <| idx := Z.of_nat i |> <| polls := k |>;
  ch_count : nset w' = Z.of_nat (count_flagged (drop (S i) set'));
  ch_flags : forall i' p', (i < i')%nat -> set' !! i' = Some p' -> revents p' = 0 \/ revents p' = POLLIN /\ exists m l, q !! i' = Some (m :: l);
  ch_near : forall j m l, q !! j = Some (m :: l) -> j <> i -> (distance w' set' j < distance w set j)%nat
}.

Lemma choose_spec w q set : receiver_ok w q set -> (exists i m l, q !! i = Some (m :: l)) ->
  exists i p set' w', choose hup interrupted poll_fails w = Ret (fd p) w' /\ chosen w q set i p set' w'.
Proof.
  intros HR Hsome. pose proof (set_length HR) as Hlen. unfold choose.
  destruct (cached_spec w q set HR) as [[Hn E]|(Hn & i & p & Hi & Hp & Hr & Hb & Hcount & E)]; rewrite (bind_Ret _ _ _ _ _ E).
  - change (-1 =? -1) with true. cbv iota. rewrite bind_get.
    destruct (poll_wait_spec w q set (interrupted (polls w)) HR Hsome) as (set' & n & n0 & Ep & Hpos & Hcount & Hfds & Hrev).
    rewrite (bind_Ret _ _ _ _ _ Ep), (proj2 (Z.leb_gt n 0) Hpos). set (w1 := w <| nset := n0 |> <| pt2ptset := Some set' |> <| nset := n |> <| polls := S (polls w) |> <| idx := 0 |>).
    assert (length set' = length set) as Hlen' by (pose proof (f_equal length Hfds) as H; by rewrite !length_fmap in H).
    destruct (scan_spec set' (Z.to_nat (size w1 - 1 - idx w1)) w1 0) as [[Hnone _]|(i & p & _ & Hp & Hr & Hb & Es)].
    + done.
    + done.
    + change (size w1) with (size w). change (idx w1) with 0. rewrite (ro_size _ _ _ HR). lia.
    + intros i p _ Hp. rewrite (Hrev i p Hp). destruct (q !! i) as [[|]|]; auto.
    + exfalso. rewrite count_none in Hcount; [lia|]. intros i p. apply Hnone. lia.
    + assert (nset w1 - 1 = Z.of_nat (count_flagged (drop (S i) set'))) as Hc.
      { change (nset w1) with n. rewrite Hcount. change set' with (drop 0 set') at 1. rewrite (count_first set' 0 i p); [lia|lia|done|unfold flagged; by rewrite Hr|done]. }
      exists i, p, set', (w1 <| nset := nset w1 - 1 |> <| idx := Z.of_nat i |>). split; [exact Es|]. split; try done.
      * rewrite (Hrev i p Hp) in Hr. destruct (q !! i) as [[|m l]|]; [done|by eexists _, _|done].
      * by exists (S (polls w)).
      * intros i' p' _ Hp'. rewrite (Hrev i' p' Hp'). destruct (q !! i') as [[|m l]|]; [by left|right; split; [done|by eexists _, _]|by left].
      * intros j m l Hj Hne. unfold distance at 2. rewrite (proj2 (Z.leb_le _ 0) Hn).
        assert (exists p', set' !! j = Some p') as [p' Hp'] by (apply lookup_lt_is_Some_2; rewrite Hlen', Hlen, <- (ro_len _ _ _ HR); by eapply lookup_lt_Some).
        assert (revents p' = POLLIN) as Hr' by (by rewrite (Hrev j p' Hp'), Hj).
        assert (i < j)%nat as Hij.
        { destruct (decide (i < j)%nat); [done|]. exfalso. rewrite (Hb j p') in Hr'; [done|lia|done]. }
        assert (0 < count_flagged (drop (S i) set'))%nat as Hjc.
        { eapply (count_at _ (j - S i) p'); [rewrite lookup_drop; by replace (S i + (j - S i))%nat with j by lia|unfold flagged; by rewrite Hr']. }
        unfold distance. cbn [nset idx upd]. rewrite (proj2 (Z.leb_gt _ 0)) by lia. rewrite (proj2 (Z.ltb_lt _ _)), Hp', Hr' by lia.
        change (negb (POLLIN =? 0)) with true. cbn [andb]. lia.
  - assert (fd p =? -1 = false) as -> by (destruct (peer_at HR i p Hp) as [r Hpr]; destruct (peers_ok _ _ _ Hpr); apply Z.eqb_neq; lia).
    destruct (ro_cache _ _ _ HR) as [|(Hidx & Hcw & Hf)]; [lia|].
    exists i, p, set, (w <| nset := nset w - 1 |> <| idx := Z.of_nat i |>). split; [done|]. split; try done.
    + destruct (Hf i p Hi Hp) as [?|[_ H]]; [by rewrite Hr in *|done].
    + exists (polls w). pose proof (ro_set _ _ _ HR) as Hset. destruct w; cbn in *. by subst.
    + intros i' p' Hi' Hp'. apply Hf; [lia|done].
    + intros j m l Hj Hne. unfold distance. cbn [nset idx upd]. rewrite (proj2 (Z.leb_gt (nset w) 0)) by lia.
      assert (i < length set)%nat by (by eapply lookup_lt_Some).
      assert (exists p', set !! j = Some p') as [p' Hp'] by (apply lookup_lt_is_Some_2; rewrite Hlen, <- (ro_len _ _ _ HR); by eapply lookup_lt_Some).
      rewrite Hp'. destruct (Z.ltb_spec (idx w) (Z.of_nat j)) as [Hj1|Hj1]; cbn [andb].
      * destruct (Z.eqb_spec (revents p') 0) as [Hz|Hz]; cbn [negb]; rewrite ?andb_false_r; [destruct (nset w - 1 <=? 0); lia|].
        assert (i < j)%nat as Hij by (destruct (decide (i < j)%nat); [done|]; exfalso; apply Hz; apply (Hb j p'); [lia|done]).
        assert (0 < count_flagged (drop (S i) set))%nat.
        { eapply (count_at _ (j - S i) p'); [rewrite lookup_drop; by replace (S i + (j - S i))%nat with j by lia|done]. }
        rewrite (proj2 (Z.leb_gt _ 0)) by lia. rewrite (proj2 (Z.ltb_lt _ _)) by lia. cbn [andb]. lia.
      * rewrite (proj2 (Z.ltb_ge (Z.of_nat i) _)) by lia. cbn [andb]. destruct (nset w - 1 <=? 0); lia.
Qed.

(** ** Reading a message *)

Lemma on_sock_read f w s len : len <= max -> socks w !! f = Some s -> 0 <= len <= Z.of_nat (length (incoming s)) ->
  exists s', on_sock f (-1, []) (sock_read (os f) len) w = Ret (0, take (Z.to_nat len) (incoming s)) (w <| socks := <[f := s']> (socks w) |>) /\
    incoming s' = drop (Z.to_nat len) (incoming s).
Proof.
  intros Hmax Hs Hlen. destruct (read_gets (os f) max len s (reliable f) Hmax Hlen) as (s' & E & Hi & _). exists s'. split; [|done].
  unfold on_sock. by rewrite Hs, E.
Qed.

Lemma dump_spec f : forall fuel w s n, socks w !! f = Some s -> 0 <= n <= Z.of_nat (length (incoming s)) -> (Z.to_nat n < fuel)%nat ->
  exists s', dump_rest os fuel f n w = Ret tt (w <| socks := <[f := s']> (socks w) |>) /\ incoming s' = drop (Z.to_nat n) (incoming s).
Proof.
  induction fuel as [|fuel IH]; intros w s n Hs Hn Hf; [lia|]. cbn [dump_rest]. destruct (Z.eqb_spec n 0) as [->|Hne].
  - exists s. split; [|done]. mrun. rewrite insert_id by done. by destruct w.
  - set (i := if n >? 128 then 128 else n). assert (0 < i <= n /\ i <= 128) as [Hi Hi128] by (unfold i; destruct (Z.gtb_spec n 128); lia).
    destruct (on_sock_read f w s i ltac:(lia) Hs) as (s1 & E1 & Hi1); [lia|]. rewrite (bind_Ret _ _ _ _ _ E1).
    destruct (IH (w <| socks := <[f := s1]> (socks w) |>) s1 (n - i)) as (s2 & E2 & Hi2).
    + apply lookup_insert_eq.
    + rewrite Hi1, length_drop. lia.
    + lia.
    + exists s2. rewrite E2. cbn [socks upd]. rewrite insert_insert_eq. split; [done|]. rewrite Hi2, Hi1, drop_drop. f_equal. lia.
Qed.

Lemma read_msg_spec w q set i p m l r : receiver_ok w q set -> set !! i = Some p -> q !! i = Some (m :: l) -> peers !! i = Some (fd p, r) ->
  forall v, size v = size w -> pt2ptfd v = pt2ptfd w -> fdtorank v = fdtorank w -> maxmsg v = maxmsg w -> socks v = socks w ->
  exists s', read_msg os true msg_handle sz (fd p) v =
      Ret (0, Some (h r (handed m))) (v <| msgbuf := true |> <| socks := <[fd p := s']> (socks w) |>) /\ incoming s' = wire l.
Proof.
  intros HR Hp Hq Hr v Hsize Hpt Hft Hmax Hsocks. destruct (ro_holds _ _ _ HR i _ r _ Hr Hq) as (s & Hs & Hin).
  pose proof (ro_msgs _ _ _ HR i _ Hq) as Hok. apply Forall_cons in Hok as [[Hlen Hdat] _]. destruct (peers_ok _ _ _ Hr) as (Hf & Hrank & Hr0 & _).
  rewrite wire_cons in Hin. unfold wire1 in Hin. rewrite <- !app_assoc in Hin.
  set (v1 := v <| msgbuf := true |>). assert (forall k, (when (negb (msgbuf v)) (modify (fun w => w <| msgbuf := true |>)) ≫= k) v = (k () : M (Z * option Z)) v1) as Hbuf.
  { intros k. unfold v1. destruct v as [? ? ? ? ? ? ? ? mb]. by destruct mb. }
  unfold read_msg. rewrite bind_get, Hmax. pose proof (ro_max _ _ _ HR). destruct (Z.gtb_spec sz (maxmsg w)); [lia|]. rewrite Hbuf.
  assert (socks v1 !! fd p = Some s) as Hs1 by (unfold v1; cbn [socks upd]; by rewrite Hsocks).
  destruct (on_sock_read (fd p) v1 s 4 ltac:(lia) Hs1) as (s1 & E1 & Hi1); [rewrite Hin, length_app, length_le_bytes; lia|].
  rewrite (bind_Ret _ _ _ _ _ E1). cbn [fst snd]. change (0 <? 0) with false. cbv iota.
  rewrite Hin in Hi1 |- *. change (Z.to_nat 4) with 4%nat in Hi1 |- *. rewrite take_app_length' by (by rewrite length_le_bytes). rewrite drop_app_length' in Hi1 by (by rewrite length_le_bytes).
  rewrite le_value_bytes, Z.mod_small by (cbn; lia). set (n := Z.of_nat (length m.1)). assert (int32 n = n) as -> by (unfold int32; rewrite Z.mod_small; lia).
  rewrite (proj2 (Z.ltb_ge n 0)) by lia. set (k := if n >? sz then sz else n). assert (0 <= k <= n /\ k <= sz) as [Hk Hksz] by (unfold k; destruct (Z.gtb_spec n sz); lia).
  assert (handed m = take (Z.to_nat k) m.1) as Hhand.
  { unfold handed, k. destruct (Z.gtb_spec n sz); [done|]. rewrite !take_ge by lia. done. }
  set (v2 := v1 <| socks := <[fd p := s1]> (socks v1) |>). rewrite bind_get. change (msgbuf v2) with true. cbv iota.
  assert (socks v2 !! fd p = Some s1) as Hs2 by (unfold v2; apply lookup_insert_eq).
  assert (exists s2, (if k >? 0 then on_sock (fd p) (-1, []) (sock_read (os (fd p)) k) else mret (0, [])) v2 =
      Ret (0, handed m) (v2 <| socks := <[fd p := s2]> (socks v2) |>) /\ incoming s2 = drop (Z.to_nat k) (incoming s1)) as (s2 & E2 & Hi2).
  { destruct (Z.gtb_spec k 0) as [Hk0|Hk0].
    - destruct (on_sock_read (fd p) v2 s1 k ltac:(lia) Hs2) as (s2 & E2 & Hi2); [rewrite Hi1, length_app; lia|]. exists s2. split; [|done].
      rewrite E2, Hi1. by rewrite take_app_le, Hhand by lia.
    - exists s1. assert (k = 0) as Hk1 by lia. rewrite Hhand, Hk1. split; [|done]. mrun. rewrite insert_id by done. by destruct v. }
  rewrite (bind_Ret _ _ _ _ _ E2). cbn [fst snd]. change (0 <? 0) with false. cbv iota.
  set (v3 := v2 <| socks := <[fd p := s2]> (socks v2) |>). assert (socks v3 !! fd p = Some s2) as Hs3 by (unfold v3; apply lookup_insert_eq).
  assert (exists s3, when (n >? k) (dump_rest os (S (Z.to_nat (n - k))) (fd p) (n - k)) v3 = Ret tt (v3 <| socks := <[fd p := s3]> (socks v3) |>) /\
    incoming s3 = m.2 ++ wire l) as (s3 & E3 & Hi3).
  { assert (drop (Z.to_nat (n - k)) (incoming s2) = m.2 ++ wire l) as Hd.
    { rewrite Hi2, Hi1, drop_drop. replace (Z.to_nat k + Z.to_nat (n - k))%nat with (length m.1) by lia. by apply drop_app_length'. }
    assert (n - k <= Z.of_nat (length (incoming s2))) as Hln by (rewrite Hi2, Hi1, length_drop, length_app; lia).
    unfold when. destruct (Z.gtb_spec n k) as [Hg|Hg].
    - destruct (dump_spec (fd p) (S (Z.to_nat (n - k))) v3 s2 (n - k) Hs3) as (s3 & E3 & Hi3); [lia|lia|]. exists s3. split; [done|]. by rewrite Hi3.
    - exists s2. split; [|by rewrite <- Hd; replace (n - k) with 0 by lia]. mrun. rewrite insert_id by done. by destruct v. }
  rewrite (bind_Ret _ _ _ _ _ E3), bind_get. set (v4 := v3 <| socks := <[fd p := s3]> (socks v3) |>).
  assert (fdtorank v4 = Some ranks) as -> by (change (fdtorank v4) with (fdtorank v); rewrite Hft; apply (ro_ranks _ _ _ HR)).
  change ((or_fault (Some ranks) ≫= ?f) v4) with (f ranks v4). cbv beta. unfold at_index. rewrite (proj2 (Z.ltb_ge _ 0) Hf), Hrank.
  change ((or_fault (Some r) ≫= ?f) v4) with (f r v4). cbv beta.
  destruct (handle_ok v4 i (fd p) r s3 m (wire l) Hr) as (s4 & E4 & Hi4).
  - change (size v4) with (size v). rewrite Hsize. apply (ro_size _ _ _ HR).
  - change (pt2ptfd v4) with (pt2ptfd v). rewrite Hpt. apply (ro_fds _ _ _ HR).
  - unfold v4. apply lookup_insert_eq.
  - done.
  - done.
  - rewrite (bind_Ret _ _ _ _ _ E4). exists s4. split; [|done]. unfold v4, v3, v2, v1. cbn [socks upd]. rewrite !insert_insert_eq, Hsocks. done.
Qed.

(** ** Serving a peer *)

Lemma peers_distinct i j f r f' r' : peers !! i = Some (f, r) -> peers !! j = Some (f', r') -> i <> j -> f <> f'.
Proof.
  intros Hi Hj Hne ->. apply Hne. eapply (NoDup_lookup peers.*1); [done|..]; rewrite list_lookup_fmap; [by rewrite Hi|by rewrite Hj].
Qed.

Lemma serve w q set i m l r p set' w1 s' : receiver_ok w q set -> q !! i = Some (m :: l) -> chosen w q set i p set' w1 -> peers !! i = Some (fd p, r) ->
  incoming s' = wire l -> receiver_ok
    (w1 <| pt2ptset := Some (<[i := p <| revents := 0 |>]> set') |> <| msgbuf := true |> <| socks := <[fd p := s']> (socks w) |>) (<[i := l]> q)
    (<[i := p <| revents := 0 |>]> set').
Proof.
  intros HR Hq HC Hr Hs'. destruct (ch_state _ _ _ _ _ _ _ HC) as [k Hw1]. pose proof (ch_at _ _ _ _ _ _ _ HC) as Hp.
  assert (i < length set')%nat as Hi by (by eapply lookup_lt_Some).
  assert (forall A (g : netd -> A), g w1 = g (w <| pt2ptset := Some set' |> <| nset := nset w1 |> <| idx := Z.of_nat i |> <| polls := k |>)) as Hg by (intros A g; by rewrite <- Hw1).
  split; cbn [size pt2ptfd fdtorank maxmsg pt2ptset nset idx socks upd]; rewrite ?length_insert; try done.
  - rewrite (Hg _ size). apply (ro_size _ _ _ HR).
  - rewrite (Hg _ pt2ptfd). apply (ro_fds _ _ _ HR).
  - rewrite (Hg _ fdtorank). apply (ro_ranks _ _ _ HR).
  - rewrite (Hg _ maxmsg). apply (ro_max _ _ _ HR).
  - rewrite list_fmap_insert. cbn [fd upd]. rewrite list_insert_id; [by rewrite (ch_peers _ _ _ _ _ _ _ HC), (ro_peers _ _ _ HR)|]. by rewrite list_lookup_fmap, Hp.
  - apply (ro_len _ _ _ HR).
  - intros j f r' lj Hj Hlj. cbn [socks upd]. destruct (decide (j = i)) as [->|Hne].
    + rewrite list_lookup_insert_eq in Hlj by (by eapply lookup_lt_Some). injection Hlj as <-. assert (f = fd p) as -> by congruence.
      exists s'. by rewrite lookup_insert_eq.
    + rewrite list_lookup_insert_ne in Hlj by done. destruct (ro_holds _ _ _ HR j f r' lj Hj Hlj) as (s & Hs & Hin). exists s. split; [|done].
      rewrite lookup_insert_ne; [done|]. by eapply peers_distinct.
  - intros j lj Hlj. destruct (decide (j = i)) as [->|Hne].
    + rewrite list_lookup_insert_eq in Hlj by (by eapply lookup_lt_Some). injection Hlj as <-. pose proof (ro_msgs _ _ _ HR i _ Hq) as H. by apply Forall_cons in H as [_ H].
    + rewrite list_lookup_insert_ne in Hlj by done. by apply (ro_msgs _ _ _ HR j).
  - right. cbn [nset idx upd]. assert (idx w1 = Z.of_nat i) as -> by (by rewrite (Hg _ idx)). rewrite length_insert, Nat2Z.id. split; [lia|]. split.
    + rewrite drop_insert_lt by lia. apply (ch_count _ _ _ _ _ _ _ HC).
    + intros j pj Hj Hpj. rewrite list_lookup_insert_ne in Hpj by lia. destruct (ch_flags _ _ _ _ _ _ _ HC j pj) as [|[H1 H2]]; [lia|done|by left|right].
      split; [done|]. by rewrite list_lookup_insert_ne by lia.
Qed.

Lemma distance_cleared w1 w2 set i p j : i <> j -> nset w2 = nset w1 -> idx w2 = idx w1 ->
  distance w2 (<[i := p]> set) j = distance w1 set j.
Proof. intros Hne Hn Hi. unfold distance. by rewrite Hn, Hi, list_lookup_insert_ne, length_insert. Qed.

Lemma recvmsg_serves w q set status : receiver_ok w q set -> (exists i m l, q !! i = Some (m :: l)) ->
  exists i f r m l set' w', peers !! i = Some (f, r) /\ q !! i = Some (m :: l) /\
    netd_recvmsg os hup interrupted poll_fails true msg_handle sz status w =
      Ret (if status then (0, Some (h r (handed m))) else (h r (handed m), None)) w' /\
    receiver_ok w' (<[i := l]> q) set' /\
    forall j mj lj, q !! j = Some (mj :: lj) -> j <> i -> (distance w' set' j < distance w set j)%nat.
Proof.
  intros HR Hsome. destruct (choose_spec w q set HR Hsome) as (i & p & set' & w1 & Ec & HC).
  destruct (ch_waits _ _ _ _ _ _ _ HC) as (m & l & Hq). pose proof (ch_at _ _ _ _ _ _ _ HC) as Hp. destruct (ch_state _ _ _ _ _ _ _ HC) as [k Hw1].
  assert (exists p0, set !! i = Some p0 /\ fd p0 = fd p) as (p0 & Hp0 & Hfd).
  { assert ((fd <$> set) !! i = Some (fd p)) as H by (by rewrite <- (ch_peers _ _ _ _ _ _ _ HC), list_lookup_fmap, Hp).
    rewrite list_lookup_fmap in H. destruct (set !! i) as [p0|]; [|done]. injection H as H. by exists p0. }
  destruct (peer_at HR i p0 Hp0) as [r Hr]. pose proof Hr as Hr'. rewrite Hfd in Hr. destruct (peers_ok _ _ _ Hr) as [Hf _].
  set (v := w1 <| pt2ptset := Some (<[i := p <| revents := 0 |>]> set') |>).
  assert (forall A (g : netd -> A), g w1 = g (w <| pt2ptset := Some set' |> <| nset := nset w1 |> <| idx := Z.of_nat i |> <| polls := k |>)) as Hg by (intros A g; by rewrite <- Hw1).
  destruct (read_msg_spec w q set i p0 m l r HR Hp0 Hq Hr' v) as (s' & Er & Hs'); [exact (Hg _ size)|exact (Hg _ pt2ptfd)|exact (Hg _ fdtorank)|exact (Hg _ maxmsg)|exact (Hg _ socks)|].
  rewrite Hfd in Er. eexists i, (fd p), r, m, l, _, _. split; [done|]. split; [done|]. split; [|split].
  - unfold netd_recvmsg. rewrite bind_get, (ro_set _ _ _ HR), (ro_ranks _ _ _ HR), (ro_size _ _ _ HR).
    assert (0 < length peers)%nat by (destruct peers; [done|cbn; lia]). rewrite (proj2 (Z.ltb_ge _ 2)) by lia.
    rewrite (bind_Ret _ _ _ _ _ Ec), (proj2 (Z.eqb_neq _ (-1))) by lia. rewrite bind_get, (Hg _ pt2ptset), (Hg _ idx). cbn [pt2ptset idx upd].
    change ((or_fault (Some set') ≫= ?f) w1) with (f set' w1). cbv beta. unfold at_index. rewrite (proj2 (Z.ltb_ge _ 0)), Nat2Z.id, Hp by lia.
    change ((or_fault (Some p) ≫= ?f) w1) with (f p w1). cbv beta. change ((modify ?f ≫= ?g) w1) with (g tt (f w1)). cbv beta.
    assert (Z.to_nat (idx w1) = i) as -> by (rewrite (Hg _ idx); apply Nat2Z.id).
    rewrite (bind_Ret _ _ _ _ _ Er). by destruct status.
  - by apply (serve w q set i m l r p set' w1 s').
  - intros j mj lj Hj Hne. rewrite (distance_cleared w1); [by eapply (ch_near _ _ _ _ _ _ _ HC)|by apply not_eq_sym|done|done].
Qed.

(** When nobody has sent anything the call waits. *)
Lemma recvmsg_waits w q set status : receiver_ok w q set -> Forall (fun l => l = []) q ->
  netd_recvmsg os hup interrupted poll_fails true msg_handle sz status w = Stuck.
Proof.
  intros HR Hq. rewrite Forall_forall in Hq. assert (0 < length peers)%nat by (destruct peers; [done|cbn; lia]).
  assert (forall i m l, q !! i <> Some (m :: l)) as Hno by (intros i m l Hi; by specialize (Hq _ (list_elem_of_lookup_2 _ _ _ Hi))).
  unfold netd_recvmsg. rewrite bind_get, (ro_set _ _ _ HR), (ro_ranks _ _ _ HR), (ro_size _ _ _ HR), (proj2 (Z.ltb_ge _ 2)) by lia.
  apply bind_Stuck. unfold choose.
  destruct (cached_spec w q set HR) as [[Hn E]|(Hn & i & p & Hi & Hp & Hr & _)]; [rewrite (bind_Ret _ _ _ _ _ E)|].
  - change (-1 =? -1) with true. cbv iota. rewrite bind_get. apply bind_Stuck.
    assert (forall e v, events_of hup v = events_of hup w -> pt2ptset v = Some set -> poll_wait hup poll_fails e v = Stuck) as H'; [|by apply H', (ro_set _ _ _ HR)].
    induction e as [|e IH]; intros v Hev Hset; cbn [poll_wait]; [|by apply IH]. rewrite bind_get, no_fail, Hset, Hev.
    change ((or_fault (Some set) ≫= ?f) v) with (f set v). cbv beta. rewrite (proj2 (Z.eqb_eq _ 0)); [done|].
    change (Z.of_nat (count_flagged ((fun p => p <| revents := events_of hup w (fd p) |>) <$> set)) = 0). rewrite count_none; [done|].
    intros i p Hp. rewrite list_lookup_fmap in Hp. destruct (set !! i) as [p0|] eqn:Hp0; [|done]. injection Hp as <-. cbn [revents upd].
    destruct (queue_at HR i p0 Hp0) as [l Hl]. rewrite (events_peer HR i p0 l Hp0 Hl). destruct l as [|m l]; [done|by apply Hno in Hl].
  - exfalso. destruct (ro_cache _ _ _ HR) as [|(_ & _ & Hf)]; [lia|]. destruct (Hf i p Hi Hp) as [?|[_ (m & l & H')]]; [by rewrite Hr in *|by apply Hno in H'].
Qed.

(** ** Calls and arrivals *)

(** Peers send messages and the receiver calls, in any order; the list has the
    peers whose messages the calls were for. *)
Inductive received : netd * list (list message) -> list nat -> netd * list (list message) -> Prop :=
  | rc_nil s : received s [] s
  | rc_arrives w q i f r l m s served s' : peers !! i = Some (f, r) -> q !! i = Some l -> message_ok m -> socks w !! f = Some s ->
      received (w <| socks := <[f := s <| incoming := incoming s ++ wire1 m |>]> (socks w) |>, <[i := l ++ [m]]> q) served s' ->
      received (w, q) served s'
  | rc_call w q w' res i m l served s' : netd_recvmsg os hup interrupted poll_fails true msg_handle sz true w = Ret res w' ->
      q !! i = Some (m :: l) -> holds w' (<[i := l]> q) ->
      received (w', <[i := l]> q) served s' -> received (w, q) (i :: served) s'.

Lemma arrives w q set i f r l m s : receiver_ok w q set -> peers !! i = Some (f, r) -> q !! i = Some l -> message_ok m -> socks w !! f = Some s ->
  receiver_ok (w <| socks := <[f := s <| incoming := incoming s ++ wire1 m |>]> (socks w) |>) (<[i := l ++ [m]]> q) set.
Proof.
  intros HR Hr Hl Hm Hs. assert (i < length q)%nat as Hi by (by eapply lookup_lt_Some). pose proof HR as [].
  split; cbn [size pt2ptfd fdtorank maxmsg pt2ptset nset idx socks upd]; rewrite ?length_insert; try done.
  - intros j f' r' lj Hj Hlj. cbn [socks upd]. destruct (decide (j = i)) as [->|Hne].
    + rewrite list_lookup_insert_eq in Hlj by done. injection Hlj as <-. assert (f' = f) as -> by congruence.
      rewrite lookup_insert_eq. eexists. split; [done|]. cbn [incoming upd]. destruct (ro_holds0 i f r l Hr Hl) as (s0 & Hs0 & E).
      assert (s0 = s) as -> by congruence. by rewrite wire_app, E.
    + rewrite list_lookup_insert_ne in Hlj by done. rewrite lookup_insert_ne by (by eapply peers_distinct). by apply (ro_holds0 j f' r').
  - intros j lj Hlj. destruct (decide (j = i)) as [->|Hne].
    + rewrite list_lookup_insert_eq in Hlj by done. injection Hlj as <-. apply Forall_app. split; [by apply (ro_msgs0 i)|by apply Forall_singleton].
    + rewrite list_lookup_insert_ne in Hlj by done. by apply (ro_msgs0 j).
  - destruct ro_cache0 as [|(H1 & H2 & H3)]; [by left|]. right. split; [done|]. split; [done|]. intros j p Hj Hp. cbn [idx upd] in Hj.
    destruct (H3 j p Hj Hp) as [|[Hp1 (m' & l' & Hq')]]; [by left|right]. split; [done|]. destruct (decide (j = i)) as [->|Hne].
    + rewrite list_lookup_insert_eq by done. assert (l = m' :: l') as -> by congruence. by eexists _, _.
    + rewrite list_lookup_insert_ne by done. by eexists _, _.
Qed.

(** The streams tell whose message was taken. *)
Lemma served_once q i j m l m' l' w : length q = length peers -> q !! i = Some (m :: l) -> q !! j = Some (m' :: l') ->
  holds w (<[i := l]> q) -> holds w (<[j := l']> q) -> i = j.
Proof.
  intros Hlen Hi Hj H1 H2. destruct (decide (i = j)) as [|Hne]; [done|]. exfalso.
  destruct (lookup_lt_is_Some_2 peers i) as [[f r] Hr]; [rewrite <- Hlen; by eapply lookup_lt_Some|].
  destruct (H1 i f r l Hr) as (s & Hs & E1); [apply list_lookup_insert_eq; by eapply lookup_lt_Some|].
  destruct (H2 i f r (m :: l) Hr) as (s' & Hs' & E2); [by rewrite list_lookup_insert_ne by done|].
  assert (s' = s) as -> by congruence. rewrite E1, wire_cons in E2. apply (f_equal length) in E2. rewrite length_app in E2. pose proof (wire1_length m). lia.
Qed.

Lemma distance_pos w q set j : receiver_ok w q set -> (0 < distance w set j)%nat.
Proof.
  intros HR. unfold distance. destruct (Z.leb_spec (nset w) 0); [lia|]. destruct (ro_cache _ _ _ HR) as [|[Hidx _]]; [lia|]. destruct (Z.ltb_spec (idx w) (Z.of_nat j)); cbn [andb]; [|lia].
  destruct (match set !! j with Some p => _ | None => _ end); lia.
Qed.

Lemma distance_bound w q set j : receiver_ok w q set -> (j < length peers)%nat -> (distance w set j <= 2 * length peers)%nat.
Proof.
  intros HR Hj. pose proof (set_length HR) as Hlen. unfold distance. destruct (Z.leb_spec (nset w) 0); [lia|].
  destruct ((idx w <? Z.of_nat j) && _); lia.
Qed.

Lemma served_soon s served s' : received s served s' -> forall set j m l, receiver_ok s.1 s.2 set -> s.2 !! j = Some (m :: l) ->
  (distance s.1 set j <= length served)%nat -> j ∈ served.
Proof.
  induction 1 as [s|w q i f r l m s served s' Hr Hl Hm Hs _ IH|w q w' res i m l served s' Hc Hi Hh _ IH]; intros set j mj lj HR Hj Hd; cbn [fst snd] in *.
  - pose proof (distance_pos _ _ _ j HR). cbn in Hd. lia.
  - pose proof (arrives _ _ _ _ _ _ _ _ _ HR Hr Hl Hm Hs) as HR'. destruct (decide (j = i)) as [->|Hne].
    + eapply (IH set i mj (lj ++ [m])); [exact HR'| |exact Hd]. rewrite list_lookup_insert_eq by (by eapply lookup_lt_Some).
      assert (l = mj :: lj) as -> by congruence. done.
    + eapply (IH set j mj lj); [exact HR'| |exact Hd]. by rewrite list_lookup_insert_ne by done.
  - destruct (decide (j = i)) as [->|Hne]; [by left|]. right.
    destruct (recvmsg_serves w q set true HR) as (i' & f & r & m' & l' & set' & w'' & _ & Hi' & E & HR' & Hn); [by exists j, mj, lj|].
    assert (w'' = w') as -> by congruence.
    assert (i = i') as <- by (eapply served_once; [apply (ro_len _ _ _ HR)|exact Hi|exact Hi'|exact Hh|apply (ro_holds _ _ _ HR')]).
    assert (l' = l) as -> by congruence. apply (IH set' j mj lj); [exact HR'|by rewrite list_lookup_insert_ne by done|].
    specialize (Hn j mj lj Hj Hne). cbn [length] in Hd. lia.
Qed.

(** (C39) [netd_recvmsg] delivers: it waits exactly as long as no machine has sent a message;
    otherwise it hands the oldest message of one of them to the caller's function,
    with the rank of the sender, cut to the size asked for, and the data behind it
    still to be read; the rest of the stream, all other streams and what is
    remembered of poll(2) are as they have to be for the next call. The connections are
    up: reads may be short and may be interrupted by signals, though not [MAX_RETRY]
    times within the calls one read may take, and do not fail otherwise; poll(2) may be
    interrupted, but fails for no other reason and reports no event but input. There is
    memory for the message buffer, the size asked for is not larger than what was
    agreed on as the largest message, and the caller's function reads the data that
    belong to its message and nothing else. *)
Theorem recvmsg_delivers w q set status : receiver_ok w q set ->
  (netd_recvmsg os hup interrupted poll_fails true msg_handle sz status w = Stuck <-> Forall (fun l => l = []) q) /\
  ((exists i m l, q !! i = Some (m :: l)) ->
   exists i f r m l set' w', peers !! i = Some (f, r) /\ q !! i = Some (m :: l) /\
     netd_recvmsg os hup interrupted poll_fails true msg_handle sz status w =
       Ret (if status then (0, Some (h r (handed m))) else (h r (handed m), None)) w' /\
     receiver_ok w' (<[i := l]> q) set').
Proof.
  intros HR. assert ((exists i m l, q !! i = Some (m :: l)) -> exists i f r m l set' w', peers !! i = Some (f, r) /\ q !! i = Some (m :: l) /\
     netd_recvmsg os hup interrupted poll_fails true msg_handle sz status w =
       Ret (if status then (0, Some (h r (handed m))) else (h r (handed m), None)) w' /\ receiver_ok w' (<[i := l]> q) set') as Hs.
  { intros H. destruct (recvmsg_serves w q set status HR H) as (i & f & r & m & l & set' & w' & H1 & H2 & H3 & H4 & _). by exists i, f, r, m, l, set', w'. }
  split; [|done]. split; [|by apply recvmsg_waits with set]. intros Hst. apply Forall_lookup_2. intros i [|m l] Hi; [done|].
  destruct Hs as (? & ? & ? & ? & ? & ? & ? & _ & _ & E & _); [by exists i, m, l|]. congruence.
Qed.

(** (C40) No machine is overlooked: one that has sent a message is served within twice as many
    calls of [netd_recvmsg] as there are other machines, however much the others
    send before and between the calls. The connections are up and the calls are made as
    for C39: reads may be short or interrupted fewer than [MAX_RETRY] times, poll(2) fails
    only when it is interrupted and reports only input, there is memory for the message
    buffer, and the caller's function reads what belongs to its message. *)
Theorem recvmsg_fair w q set served s' j m l : receiver_ok w q set -> q !! j = Some (m :: l) ->
  received (w, q) served s' -> (2 * length peers <= length served)%nat -> j ∈ served.
Proof.
  intros HR Hj Hrun Hlen. eapply served_soon; [exact Hrun|exact HR|exact Hj|]. cbn [fst snd].
  etrans; [eapply distance_bound; [exact HR|]|exact Hlen]. rewrite <- (ro_len _ _ _ HR). by eapply lookup_lt_Some.
Qed.
End Receiver.

Lemma fd_of_ok w fds i f : pt2ptfd w = Some fds -> 0 <= i < size w -> fds !! Z.to_nat i = Some f -> f <> -1 -> fd_of i w = Ret (Some f) w.
Proof.
  intros Hfds Hi Hf Hne. unfold fd_of. rewrite bind_get, Hfds, (proj2 (Z.ltb_ge i 0)), Z.geb_leb, (proj2 (Z.leb_gt _ i)) by lia. cbn [orb].
  unfold at_index. rewrite (proj2 (Z.ltb_ge i 0)), Hf by lia. mrun. by rewrite (proj2 (Z.eqb_neq f (-1))).
Qed.

(** A caller's function that reads the data of a message is one of those meant above. *)
Lemma handler_reads os fds (peers : list (Z * Z)) max sz (g : Z -> list Z -> Z) plen
  (reliable : forall f, connected (os f) max) (plen_max : forall bs, Z.of_nat (plen bs) <= max)
  (peers_at : forall i f r, peers !! i = Some (f, r) -> 0 <= f /\ 0 <= r <= Z.of_nat (length peers) /\ fds !! Z.to_nat r = Some f) :
  let handler := fun r bs => netd_recvdat os r (Z.of_nat (plen bs)) ≫= fun _ => (mret (g r bs) : M Z) in
  forall w i f r s m rest, peers !! i = Some (f, r) ->
    size w = Z.of_nat (length peers) + 1 -> pt2ptfd w = Some fds -> socks w !! f = Some s -> message_ok sz plen m -> incoming s = m.2 ++ rest ->
    exists s', handler r (handed sz m) w = Ret (g r (handed sz m)) (w <| socks := <[f := s']> (socks w) |>) /\ incoming s' = rest.
Proof.
  intros handler w i f r s m rest Hi Hsize Hfds Hs [_ Hlen] Hin. destruct (peers_at i f r Hi) as (Hf & Hr & Hfd).
  destruct (read_gets (os f) max (Z.of_nat (plen (handed sz m))) s (reliable f) (plen_max _)) as (s' & E & Hi' & _); [rewrite Hin, length_app; lia|].
  exists s'. unfold handler, netd_recvdat. split.
  - assert (on_sock f (-1, []) (sock_read (os f) (Z.of_nat (plen (handed sz m)))) w =
      Ret (0, take (Z.to_nat (Z.of_nat (plen (handed sz m)))) (incoming s)) (w <| socks := <[f := s']> (socks w) |>)) as Es by (unfold on_sock; by rewrite Hs, E).
    rewrite bind_assoc, (bind_Ret _ _ _ _ _ (fd_of_ok w fds r f Hfds ltac:(lia) Hfd ltac:(lia))). by rewrite (bind_Ret _ _ _ _ _ Es).
  - rewrite Hi', Hin, Nat2Z.id, <- Hlen. apply drop_app_length.
Qed.

(** ** What is sent *)

Lemma writev_sends o iov s : os_spec o ->
  exists r s' n, sock_writev o iov s = Ret r s' /\ outgoing s' = outgoing s ++ take n (concat iov) /\
    (r = 0 /\ n = length (concat iov) \/ r = -1 /\ (n < length (concat iov))%nat).
Proof.
  intros HO. rewrite (sock_writev_is_write o iov s HO). unfold iov_len.
  destruct (sock_write_spec o HO (concat iov) (Z.of_nat (length (concat iov))) s) as (r & s' & n & E & Ho & _ & Hr); [lia|].
  exists r, s', (Z.to_nat n). split; [done|]. split; [done|]. lia.
Qed.

(** A message that was sent is on the wire as [netd_recvmsg] expects it; one that was not
    has left a proper prefix. *)
Theorem sendmsgdat_wire os w to f fds s msg msglen data datlen : (forall f, os_spec (os f)) ->
  pt2ptfd w = Some fds -> 0 <= to < size w -> fds !! Z.to_nat to = Some f -> f <> -1 -> socks w !! f = Some s ->
  0 <= msglen <= Z.of_nat (length msg) ->
  exists r s', netd_sendmsgdat os to msg msglen data datlen w = Ret r (w <| socks := <[f := s']> (socks w) |>) /\
    (r = 0 /\ outgoing s' = outgoing s ++ wire1 (bytes_of msg msglen, bytes_of data datlen) \/
     r = -1 /\ exists n, outgoing s' = outgoing s ++ take n (wire1 (bytes_of msg msglen, bytes_of data datlen))).
Proof.
  intros HO Hfds Hto Hf Hne Hs Hlen. unfold netd_sendmsgdat. rewrite (bind_Ret _ _ _ _ _ (fd_of_ok w fds to f Hfds Hto Hf Hne)).
  destruct (writev_sends (os f) [le_bytes 4 msglen; bytes_of msg msglen; bytes_of data datlen] s (HO f)) as (r & s' & n & E & Ho & Hr).
  exists r, s'. split; [unfold on_sock; by rewrite Hs, E|].
  assert (concat [le_bytes 4 msglen; bytes_of msg msglen; bytes_of data datlen] = wire1 (bytes_of msg msglen, bytes_of data datlen)) as Hc.
  { unfold wire1. cbn [fst snd concat]. rewrite app_nil_r. unfold bytes_of at 3. rewrite length_take. by replace (Z.of_nat (Z.to_nat msglen `min` length msg)) with msglen by lia. }
  rewrite Hc in Ho, Hr. destruct Hr as [[-> ->]|[-> _]]; [left|right; split; [done|by exists n]]. split; [done|]. by rewrite Ho, firstn_all.
Qed.

(** ** The end *)

(** [netd_waitAll] sets the size to 0 before the loops that go over all machines: no socket
    is closed, and no tree is freed. *)
Theorem waitAll_closes_nothing w : 0 <= myid w ->
  exists w', netd_waitAll w = Ret (grptree w) w' /\ socks w' = socks w /\ pt2ptfd w' = None /\ groupfd w' = None /\ grptree w' = None.
Proof.
  intros H. unfold netd_waitAll. rewrite bind_get, (proj2 (Z.ltb_ge _ 0) H). destruct w as [? ? p g ? t ? ? ? ? ? ? ?]. destruct p, g, t; by eexists.
Qed.

(** ** Three machines *)

(** The first three calls on each descriptor are interrupted; the others transfer three
    bytes at most. *)
Definition demo_os : Z -> nat -> Z -> sysret := fun _ k n => if (k <? 3)%nat then Eintr else Got (Z.min n 3).
Definition demo_plen (bs : list Z) : nat := Z.to_nat (Z.min 100 (default 0 (head bs))).
Definition demo_handler (r : Z) (bs : list Z) : M Z :=
  netd_recvdat demo_os r (Z.of_nat (demo_plen bs)) ≫= fun _ => mret (1000 * r + Z.of_nat (length bs)).
Definition demo_queues : list (list (list Z * list Z)) := [[([2; 7], [8; 9]); ([], [])]; [([0], []); ([1; 1; 1], [5])]].
Definition demo_sets : list pollfd := [mkPollfd 4 0; mkPollfd 5 0].
(** The first of the machines, before its first call. *)
Definition demo_netd : netd :=
  mkNetd 3 0 (Some [-1; 4; 5]) None (Some [-1; -1; -1; -1; 1; 2]) None (Some demo_sets) 1024 false 0 (-1)
    (<[4 := mkSock 0 [] (wire [([2; 7], [8; 9]); ([], [])])]> (<[5 := mkSock 0 [] (wire [([0], []); ([1; 1; 1], [5])])]> ∅)) 0.

Lemma demo_peers i f r : [(4, 1); (5, 2)] !! i = Some (f, r) ->
  0 <= f /\ [-1; -1; -1; -1; 1; 2] !! Z.to_nat f = Some r /\ 0 <= r <= 2 /\ [-1; 4; 5] !! Z.to_nat r = Some f.
Proof. destruct i as [|[|i]]; [intros [= <- <-]|intros [= <- <-]|done]; (split; [lia|]; split; [done|]; split; [lia|done]). Qed.

Lemma demo_reliable (f : Z) : connected (demo_os f) 128.
Proof.
  exists (fun k => (k <? 3)%nat). split.
  - intros k n H. unfold demo_os. destruct (k <? 3)%nat; [done|]. exists (Z.min n 3). split; [done|lia].
  - intros k. unfold MAX_RETRY. assert (interrupts (fun k => (k <? 3)%nat) k (Z.to_nat (128 + 100)) <= 3)%nat; [|lia].
    unfold interrupts. apply (Nat.le_trans _ (length (seq 0 3))); [|done]. apply submseteq_length, NoDup_submseteq.
    + apply NoDup_filter, NoDup_seq.
    + intros i [Hi _]%list_elem_of_filter. apply Nat.ltb_lt in Hi. apply elem_of_seq. lia.
Qed.

Lemma demo_receiver_ok : receiver_ok [-1; 4; 5] [-1; -1; -1; -1; 1; 2] [(4, 1); (5, 2)] 16 demo_plen demo_netd demo_queues demo_sets.
Proof.
  split; try done.
  - intros i f r l Hi Hl. destruct i as [|[|i]]; [injection Hi as <- <-; injection Hl as <-; by eexists|injection Hi as <- <-; injection Hl as <-; by eexists|done].
  - intros i l Hl. destruct i as [|[|i]]; [injection Hl as <-|injection Hl as <-|done]; repeat constructor; done.
  - left. done.
Qed.

Lemma demo_handler_ok : forall w i f r s m rest, [(4, 1); (5, 2)] !! i = Some (f, r) ->
  size w = Z.of_nat (length [(4, 1); (5, 2)]) + 1 -> pt2ptfd w = Some [-1; 4; 5] -> socks w !! f = Some s -> message_ok 16 demo_plen m -> incoming s = m.2 ++ rest ->
  exists s', demo_handler r (handed 16 m) w = Ret (1000 * r + Z.of_nat (length (handed 16 m))) (w <| socks := <[f := s']> (socks w) |>) /\ incoming s' = rest.
Proof.
  apply (handler_reads demo_os [-1; 4; 5] [(4, 1); (5, 2)] 128 16 (fun r bs => 1000 * r + Z.of_nat (length bs)) demo_plen demo_reliable);
    [intros bs; unfold demo_plen; lia|].
  intros i f r Hi. destruct (demo_peers i f r Hi) as (? & _ & ? & ?). done.
Qed.

Lemma recvmsg_delivers_witness : exists i r w', i ∈ [0%nat; 1%nat] /\
  netd_recvmsg demo_os (fun _ _ => 0) (fun k => k) (fun _ => false) true demo_handler 16 true demo_netd = Ret (0, Some r) w'.
Proof.
  destruct (recvmsg_delivers demo_os (fun _ _ => 0) (fun k => k) (fun _ => false) demo_handler 128 demo_reliable (fun _ _ => eq_refl) (fun _ => eq_refl)
    [-1; 4; 5] [-1; -1; -1; -1; 1; 2] [(4, 1); (5, 2)] ltac:(done) ltac:(apply (bool_decide_unpack _); vm_compute; done) demo_peers
    16 ltac:(lia) ltac:(lia) ltac:(lia) (fun r bs => 1000 * r + Z.of_nat (length bs)) demo_plen demo_handler_ok demo_netd demo_queues demo_sets true demo_receiver_ok) as [_ H].
  destruct H as (i & f & r & m & l & set' & w' & Hi & _ & E & _).
  - exists 0%nat, ([2; 7], [8; 9]), [([], [])]. reflexivity.
  - eexists i, _, w'. split; [|exact E]. destruct i as [|[|i]]; [by left|by right; left|done].
Defined.

Definition demo_call (w : netd) : netd :=
  match netd_recvmsg demo_os (fun _ _ => 0) (fun k => k) (fun _ => false) true demo_handler 16 true w with Ret _ w' => w' | _ => w end.

Lemma demo_received : received demo_os (fun _ _ => 0) (fun k => k) (fun _ => false) demo_handler [(4, 1); (5, 2)] 16 demo_plen
  (demo_netd, demo_queues) [0; 1; 0; 1]%nat (demo_call (demo_call (demo_call (demo_call demo_netd))), [[]; []]).
Proof.
  eapply (rc_call _ _ _ _ _ _ _ _ demo_netd _ (demo_call demo_netd)); [vm_compute; reflexivity|reflexivity| |].
  { intros i f r l Hi Hl. destruct i as [|[|i]]; [injection Hi as <- <-; injection Hl as <-..|done]; eexists; (split; [vm_compute; reflexivity|reflexivity]). }
  eapply (rc_call _ _ _ _ _ _ _ _ _ _ (demo_call (demo_call demo_netd))); [vm_compute; reflexivity|reflexivity| |].
  { intros i f r l Hi Hl. destruct i as [|[|i]]; [injection Hi as <- <-; injection Hl as <-..|done]; eexists; (split; [vm_compute; reflexivity|reflexivity]). }
  eapply (rc_call _ _ _ _ _ _ _ _ _ _ (demo_call (demo_call (demo_call demo_netd)))); [vm_compute; reflexivity|reflexivity| |].
  { intros i f r l Hi Hl. destruct i as [|[|i]]; [injection Hi as <- <-; injection Hl as <-..|done]; eexists; (split; [vm_compute; reflexivity|reflexivity]). }
  eapply (rc_call _ _ _ _ _ _ _ _ _ _ (demo_call (demo_call (demo_call (demo_call demo_netd))))); [vm_compute; reflexivity|reflexivity| |].
  { intros i f r l Hi Hl. destruct i as [|[|i]]; [injection Hi as <- <-; injection Hl as <-..|done]; eexists; (split; [vm_compute; reflexivity|reflexivity]). }
  apply rc_nil.
Qed.

Lemma recvmsg_fair_witness : 1%nat ∈ [0; 1; 0; 1]%nat.
Proof.
  apply (recvmsg_fair demo_os (fun _ _ => 0) (fun k => k) (fun _ => false) demo_handler 128 demo_reliable (fun _ _ => eq_refl) (fun _ => eq_refl)
    [-1; 4; 5] [-1; -1; -1; -1; 1; 2] [(4, 1); (5, 2)] ltac:(done) ltac:(apply (bool_decide_unpack _); vm_compute; done) demo_peers
    16 ltac:(lia) ltac:(lia) ltac:(lia) (fun r bs => 1000 * r + Z.of_nat (length bs)) demo_plen demo_handler_ok demo_netd demo_queues demo_sets [0; 1; 0; 1]%nat
    _ 1%nat ([0], []) [([1; 1; 1], [5])] demo_receiver_ok eq_refl demo_received). cbn. lia.
Defined.

Lemma sendmsgdat_wire_witness :
  exists r s', netd_sendmsgdat demo_os 1 [1; 2; 3] 2 [9] 1 demo_netd = Ret r (demo_netd <| socks := <[4 := s']> (socks demo_netd) |>) /\
    (r = 0 /\ outgoing s' = [] ++ wire1 ([1; 2], [9]) \/ r = -1 /\ exists n, outgoing s' = [] ++ take n (wire1 ([1; 2], [9]))).
Proof.
  apply (sendmsgdat_wire demo_os demo_netd 1 4 [-1; 4; 5] (mkSock 0 [] (wire [([2; 7], [8; 9]); ([], [])])) [1; 2; 3] 2 [9] 1); try reflexivity; try (cbn; lia).
  intros f k n m Hn. unfold demo_os. destruct (k <? 3)%nat; [done|]. intros [= <-]. lia.
Defined.

Lemma waitAll_closes_nothing_witness :
  exists w', netd_waitAll demo_netd = Ret None w' /\ socks w' = socks demo_netd /\ pt2ptfd w' = None /\ groupfd w' = None /\ grptree w' = None.
Proof. apply (waitAll_closes_nothing demo_netd). cbn. lia. Defined.
