(* ===== verification/NetdGroup.v ===== *)
(** The collectives of the net device, net/netd/netd_sock_c: the trees of machines
    ([netd_make_tree], [netd_make_hcube]), broadcast, reduction, their choice by the
    number of machines, allreduce and the barrier. A machine's part of a collective is
    an [io]; its [netd_info] goes in and comes out. *)
From S2P Require Import Prelude NetRun NetdOp.

(** ** State *)

(** binary tree; a record in the table has its flag [initialized] set *)
Record NETD_TREE_INFO := mkTree { t_up : Z; t_left : Z; t_right : Z }.
(** hyper cube *)
Record NETD_HCUBE_INFO := mkHcube { h_up : Z; h_children : list Z; h_nChildren : Z }.

(** [groupfd]: the table of descriptors is there. The two tables of trees hold what
    has been made so far, by root. [last_root] of [netd_bcast] and of [netd_reduce],
    and [order] of [netd_barrier], are their static variables. *)
Record netd_info := mkNetd {
  size : Z;
  myid : Z;
  groupfd : bool;
  grptree : gmap Z NETD_TREE_INFO;
  grphcube : gmap Z NETD_HCUBE_INFO;
  bcast_last_root : Z;
  reduce_last_root : Z;
  order : Z
}.
#[export] Instance eta_netd_info : Eta netd_info := MkEta _ (fun r =>
  mkNetd (size r) (myid r) (groupfd r) (grptree r) (grphcube r) (bcast_last_root r) (reduce_last_root r) (order r)).

Definition in_table (s : netd_info) (i : Z) : bool := (0 <=? i) && (i <? size s).

(** ** The trees *)

Definition netd_make_tree_info (size myid root : Z) : NETD_TREE_INFO :=
  let idx := cmod (size + myid - root) size in
  mkTree
    (if negb (myid =? root) then cmod (root + cdiv (idx - 1) 2) size else -1)
    (if 2 * idx + 1 <? size then cmod (root + 2 * idx + 1) size else -1)
    (if 2 * idx + 2 <? size then cmod (root + 2 * idx + 2) size else -1).

(** [while (mask<size)] with an unsigned [mask]: the mask at the end and the number of
    children. No fuel left: the mask has been shifted out and the loop goes on for ever. *)
Fixpoint hcube_scan (fuel : nat) (size idx mask k : Z) : option (Z * Z) :=
  match fuel with
  | O => None
  | S fuel' =>
      if mask <? size then
        if negb (Z.land mask idx =? 0) then Some (mask, k)
        else hcube_scan fuel' size idx (uint32 (Z.shiftl mask 1)) (if Z.lor mask idx <? size then k + 1 else k)
      else Some (mask, k)
  end.

(** [children[k-i-1]=...] for [i] from 0: what is stored goes in front of [acc]. *)
Fixpoint hcube_fill (n : nat) (size idx root mask : Z) (acc : list Z) : list Z * Z :=
  match n with
  | O => (acc, mask)
  | S n' => hcube_fill n' size idx root (uint32 (Z.shiftl mask 1)) (uint32 (Z.lor mask idx + root) mod size :: acc)
  end.

(** [while (last_stree_size<mask) { children[k]=children[k+1]; k++; mask>>=1; }] and the
    store of [node] after it, on the children from index [k] on; the first of them is
    overwritten. [None]: the array ends. *)
Fixpoint hcube_sift (node last_stree_size mask : Z) (rest : list Z) : option (list Z) :=
  if last_stree_size <? mask then
    match rest with
    | [] => None
    | c :: rest' => cs ← hcube_sift node last_stree_size (Z.shiftr mask 1) rest'; Some (c :: cs)
    end
  else Some (node :: rest).

Definition netd_make_hcube_info (size myid root : Z) : option NETD_HCUBE_INFO :=
  let idx := cmod (size + myid - root) size in
  '(mask, k) ← hcube_scan 33 size idx 1 0;
  let up := if idx =? 0 then -1 else uint32 (Z.land idx (Z.lnot mask) + root) mod size in
  if 0 <? k then
    let '(children, mask) := hcube_fill (Z.to_nat k) size idx root 1 [] in
    match children with
    | [] => None
    | last_stree_node :: rest =>
        let mask := Z.shiftr mask 1 in
        let last_stree_size := Z.min mask (size - cmod (last_stree_node + size - root) size) in
        cs ← hcube_sift last_stree_node last_stree_size (Z.shiftr mask 1) rest;
        Some (mkHcube up cs k)
    end
  else Some (mkHcube up [] k).

(** The tables: what is there is taken, otherwise it is made. [malloc] is taken to
    succeed. *)
Definition netd_make_tree (root : Z) (s : netd_info) : io netd_info :=
  if negb (in_table s root) then Crash
  else match grptree s !! root with
       | Some _ => mret s
       | None => mret (s <| grptree := <[root := netd_make_tree_info (size s) (myid s) root]> (grptree s) |>)
       end.
Definition netd_make_hcube (root : Z) (s : netd_info) : io netd_info :=
  if negb (in_table s root) then Crash
  else match grphcube s !! root with
       | Some _ => mret s
       | None =>
           match netd_make_hcube_info (size s) (myid s) root with
           | Some tr => mret (s <| grphcube := <[root := tr]> (grphcube s) |>)
           | None => Crash
           end
       end.

(** ** Sockets and buffers *)

(** [sock_write(netd_info.groupfd[to], data, len)], [sock_read] likewise: the code, and
    the buffer with the bytes that were read at its start. *)
Definition group_write (s : netd_info) (to : Z) (data : list Z) (len : nat) : io Z :=
  if in_table s to then
    if (len <=? length data)%nat then sock_write to (take len data) else Crash
  else Crash.
Definition group_read (s : netd_info) (from : Z) (data : list Z) (len : nat) : io (Z * list Z) :=
  if in_table s from then
    if (len <=? length data)%nat then
      '(r, bs) ← sock_read from len; mret (r, bs ++ drop (length bs) data)
    else Crash
  else Crash.

(** Loops over machines. *)
Fixpoint write_all (s : netd_info) (tos : list Z) (data : list Z) (len : nat) (stat : Z) : io Z :=
  match tos with
  | [] => mret stat
  | to :: tos' => r ← group_write s to data len; write_all s tos' data len (stat + r)
  end.
Definition others (s : netd_info) : list Z := List.filter (fun i => negb (i =? myid s)) (seqZ 0 (size s)).
Definition write_unless_absent (s : netd_info) (to : Z) (data : list Z) (len : nat) (stat : Z) (skip : bool) : io Z :=
  if negb (to =? -1) && negb skip then r ← group_write s to data len; mret (stat + r) else mret stat.

(** ** Broadcast *)

Definition netd_bcast_simple (data : list Z) (len : nat) (root : Z) (s : netd_info) : io (Z * list Z) :=
  if myid s <? 0 then mret (-1, data)
  else if negb (groupfd s) then mret (-1, data)
  else if size s <? 2 then mret (0, data)
  else if myid s =? root then
    stat ← write_all s (others s) data len 0;
    mret (if negb (stat =? 0) then -1 else 0, data)
  else
    '(stat, data) ← group_read s root data len;
    mret (if negb (stat =? 0) then -1 else 0, data).

Definition netd_bcast_tree (data : list Z) (len : nat) (root : Z) (s : netd_info) : io (Z * list Z * netd_info) :=
  if myid s <? 0 then mret (-1, data, s)
  else if negb (groupfd s) then mret (-1, data, s)
  else if size s <? 2 then mret (0, data, s)
  else
    s ← netd_make_tree 0 s;
    match grptree s !! 0 with
    | None => mret (-1, data, s)
    | Some tr =>
        '(stat, data) ←
          (if myid s =? root then
             if negb (myid s =? 0) then r ← group_write s 0 data len; mret (r, data) else mret (0, data)
           else group_read s (if myid s =? 0 then root else t_up tr) data len);
        stat ← write_unless_absent s (t_left tr) data len stat (t_left tr =? root);
        stat ← write_unless_absent s (t_right tr) data len stat (t_right tr =? root);
        mret (if negb (stat =? 0) then -1 else 0, data, s)
    end.

Definition netd_bcast_hcube (data : list Z) (len : nat) (root : Z) (s : netd_info) : io (Z * list Z * netd_info) :=
  if myid s <? 0 then mret (-1, data, s)
  else if negb (groupfd s) then mret (-1, data, s)
  else if size s <? 2 then mret (0, data, s)
  else
    s ← netd_make_hcube root s;
    match grphcube s !! root with
    | None => mret (-1, data, s)
    | Some tr =>
        '(stat, data) ← (if negb (h_up tr =? -1) then group_read s (h_up tr) data len else mret (0, data));
        stat ← write_all s (take (Z.to_nat (h_nChildren tr)) (h_children tr)) data len stat;
        mret (if negb (stat =? 0) then -1 else 0, data, s)
    end.

Definition BCAST_SIMPLE_NODES : Z := 4.
Definition BCAST_TREE_NODES : Z := 4.

Definition netd_bcast (data : list Z) (len : nat) (root : Z) (s : netd_info) : io (Z * list Z * netd_info) :=
  let last_root := bcast_last_root s in
  let s := s <| bcast_last_root := root |> in
  if (size s <=? BCAST_SIMPLE_NODES) && negb (last_root =? root) && negb (last_root =? -1)
  then '(ret, data) ← netd_bcast_simple data len root s; mret (ret, data, s)
  else if size s <=? BCAST_TREE_NODES then netd_bcast_tree data len root s
  else netd_bcast_hcube data len root s.

(** ** Reduction *)

Definition NETD_OP_ABSMAX : Z := 1.
Definition NETD_OP_ABSMIN : Z := 2.
Definition NETD_OP_MAX : Z := 3.
Definition NETD_OP_MIN : Z := 4.
Definition NETD_OP_MULT : Z := 5.
Definition NETD_OP_SUM : Z := 6.
Definition NETD_TYPE_INT : Z := 1.
Definition NETD_TYPE_FLT : Z := 2.
Definition NETD_TYPE_DBL : Z := 3.
Definition NETD_TYPE_LNG : Z := 4.
Definition NETD_TYPE_CHR : Z := 5.

(** An element of an array of the program, by index: outside it is another's memory. *)
Definition table {A} (t : list A) (i : Z) : io A :=
  match (if i <? 0 then None else t !! Z.to_nat i) with Some a => Done a | None => Crash end.

Section Reduce.
Context (DBL FLT : num).

(** The result array, the source array, the number of elements. *)
Notation opfunc := (list Z -> list Z -> Z -> option (list Z)).

Definition optable : list (list (option opfunc)) :=
  let int_row : list (option opfunc) :=
    [None; Some netd_int_absmax_op; Some netd_int_absmin_op; Some netd_int_max_op; Some netd_int_min_op;
     Some netd_int_mult_op; Some netd_int_sum_op; None] in
  let no_row : list (option opfunc) := replicate 8 None in
  [ no_row;
    int_row;
    [None; Some (netd_dbl_absmax_op DBL); Some (netd_dbl_absmin_op DBL); Some (netd_dbl_max_op DBL);
     Some (netd_dbl_min_op DBL); Some (netd_dbl_mult_op DBL); Some (netd_dbl_sum_op DBL); None];
    [None; Some (netd_flt_absmax_op FLT); Some (netd_flt_absmin_op FLT); Some (netd_flt_max_op FLT);
     Some (netd_flt_min_op FLT); Some (netd_flt_mult_op FLT); Some (netd_flt_sum_op FLT); None];
    int_row;
    no_row ].
Definition dtypetable : list Z := [0; 4; 8; 4; 4; 0].
Definition absoptable : list (option (list Z -> Z -> option (list Z))) :=
  [None; Some netd_int_abs_op; Some (netd_dbl_abs_op DBL); Some (netd_flt_abs_op FLT); Some netd_int_abs_op; None].

(** [opfunc], [dsize] and [len] of a call. *)
Definition reduce_setup (nelem op data_type : Z) : io (option opfunc * Z * Z) :=
  row ← table optable data_type;
  opfunc ← table row op;
  dsize ← table dtypetable data_type;
  mret (opfunc, dsize, int32 (nelem * dsize)).

Definition memcpy_buf (dst src : list Z) (len : Z) : io (list Z) :=
  if (0 <=? len) && (len <=? Z.of_nat (length dst)) && (len <=? Z.of_nat (length src))
  then mret (take (Z.to_nat len) src ++ drop (Z.to_nat len) dst) else Crash.

Definition call_op (f : opfunc) (result src : list Z) (nelem : Z) : io (list Z) :=
  match f result src nelem with Some r => mret r | None => Crash end.

(** The reduction of a single machine. *)
Definition reduce_alone (result : list Z) (nelem op data_type : Z) : io (list Z) :=
  if (op =? NETD_OP_ABSMAX) || (op =? NETD_OP_ABSMIN) then
    absop ← table absoptable data_type;
    match absop with
    | Some f => match f result nelem with Some r => mret r | None => Crash end
    | None => Crash
    end
  else mret result.

(** [stat+=sock_read(fd, src, len); opfunc(result, src, nelem)] for machines in turn:
    [src], [result] and the sum of the codes. *)
Fixpoint read_all (s : netd_info) (f : opfunc) (froms : list Z) (src result : list Z) (nelem : Z) (len : nat) (stat : Z) :
    io (list Z * list Z * Z) :=
  match froms with
  | [] => mret (src, result, stat)
  | from :: froms' =>
      '(r, src) ← group_read s from src len;
      result ← call_op f result src nelem;
      read_all s f froms' src result nelem len (stat + r)
  end.

(** A call returns its code, [src], [result]. *)
Notation reduced := (Z * list Z * list Z)%type.
Notation answer stat src result := (if negb (stat =? 0) then -1 else 0, src, result).

(** The rest of [netd_reduce_tree] and of [netd_reduce_hcube] once the machines to
    hear from and the one to report to are known. *)
Definition reduce_from (s : netd_info) (f : opfunc) (froms : list Z) (up : Z) (src result : list Z) (nelem : Z) (len : nat) :
    io reduced :=
  '(src, result, stat) ← read_all s f froms src result nelem len 0;
  stat ← write_unless_absent s up result len stat false;
  mret (answer stat src result).

Definition netd_reduce_tree (src result : list Z) (nelem op data_type root : Z) (s : netd_info) : io (reduced * netd_info) :=
  '(opfunc, dsize, len) ← reduce_setup nelem op data_type;
  if myid s <? 0 then mret ((-1, src, result), s)
  else match opfunc with
  | None => mret ((-1, src, result), s)
  | Some f =>
      if (dsize =? 0) || negb (groupfd s) then mret ((-1, src, result), s)
      else
        result ← memcpy_buf result src len;
        if size s <? 2 then result ← reduce_alone result nelem op data_type; mret ((0, src, result), s)
        else
          s ← netd_make_tree root s;
          match grptree s !! root with
          | None => mret ((-1, src, result), s)
          | Some tr =>
              let froms := List.filter (fun c => negb (c =? -1)) [t_left tr; t_right tr] in
              r ← reduce_from s f froms (t_up tr) src result nelem (Z.to_nat len);
              mret (r, s)
          end
  end.

Definition netd_reduce_hcube (src result : list Z) (nelem op data_type root : Z) (s : netd_info) : io (reduced * netd_info) :=
  '(opfunc, dsize, len) ← reduce_setup nelem op data_type;
  if myid s <? 0 then mret ((-1, src, result), s)
  else match opfunc with
  | None => mret ((-1, src, result), s)
  | Some f =>
      if (dsize =? 0) || negb (groupfd s) then mret ((-1, src, result), s)
      else
        result ← memcpy_buf result src len;
        if size s <? 2 then result ← reduce_alone result nelem op data_type; mret ((0, src, result), s)
        else
          s ← netd_make_hcube root s;
          match grphcube s !! root with
          | None => mret ((-1, src, result), s)
          | Some tr =>
              r ← reduce_from s f (reverse (take (Z.to_nat (h_nChildren tr)) (h_children tr))) (h_up tr)
                    src result nelem (Z.to_nat len);
              mret (r, s)
          end
  end.

Definition netd_reduce_simple (src result : list Z) (nelem op data_type root : Z) (s : netd_info) : io reduced :=
  '(opfunc, dsize, len) ← reduce_setup nelem op data_type;
  if myid s <? 0 then mret (-1, src, result)
  else match opfunc with
  | None => mret (-1, src, result)
  | Some f =>
      if (dsize =? 0) || negb (groupfd s) then mret (-1, src, result)
      else if size s <? 2 then
        result ← memcpy_buf result src len;
        result ← reduce_alone result nelem op data_type;
        mret (0, src, result)
      else if myid s =? root then
        result ← memcpy_buf result src len;
        '(src, result, stat) ← read_all s f (others s) src result nelem (Z.to_nat len) 0;
        mret (answer stat src result)
      else
        stat ← group_write s root src (Z.to_nat len);
        mret (answer stat src result)
  end.

Definition REDUCE_SIMPLE_NODES : Z := 4.
Definition REDUCE_TREE_NODES : Z := 4.

Definition netd_reduce (src result : list Z) (nelem op data_type root : Z) (s : netd_info) : io (reduced * netd_info) :=
  let last_root := reduce_last_root s in
  let s := s <| reduce_last_root := root |> in
  if (size s <=? REDUCE_SIMPLE_NODES) && negb (last_root =? root) && negb (last_root =? -1)
  then r ← netd_reduce_simple src result nelem op data_type root s; mret (r, s)
  else if size s <=? REDUCE_TREE_NODES then netd_reduce_tree src result nelem op data_type root s
  else netd_reduce_hcube src result nelem op data_type root s.

Definition netd_allreduce (src result : list Z) (nelem op data_type : Z) (s : netd_info) : io (reduced * netd_info) :=
  dsize ← table dtypetable data_type;
  let len := int32 (nelem * dsize) in
  '(r, src, result, s) ← netd_reduce src result nelem op data_type 0 s;
  '(r', result, s) ← netd_bcast result (Z.to_nat len) 0 s;
  mret ((if negb (r + r' =? 0) then -1 else 0, src, result), s).

(** [netd_barrier0]: whether it reports the error; [result] is four bytes of the stack.
    [nelem] is 1. *)
Definition netd_barrier0 (n : Z) (junk : list Z) (s : netd_info) : io (bool * netd_info) :=
  if size s <=? 1 then mret (false, s)
  else
    '(_, src, result, s) ← netd_allreduce (int_bytes [n]) junk 1 NETD_OP_SUM NETD_TYPE_INT s;
    mret (negb (load int_num (take 4 result) =? int32 (n * size s)), s).
Definition netd_barrier (junk : list Z) (s : netd_info) : io (Z * bool * netd_info) :=
  '(err, s') ← netd_barrier0 (order s) junk (s <| order := int32 (order s + 1) |>);
  mret (0, err, s').
End Reduce.
