(* ===== verification/NetdTree.v ===== *)
(** The trees of net/netd/netd_sock_c span the machines: what a collective needs of
    them as a class, and its instances for the four ways the code has to route. *)
From S2P Require Import Prelude NetRun NetdOp NetdGroup.

(** ** The interface *)

(** A tree on the machines [0..n-1]: for each machine the one above it, the ones
    below it, and an order of the machines that goes down the tree. *)
Class SpanningTree (n root : Z) (up : Z -> Z) (children : Z -> list Z) (down : list Z) : Prop := {
  st_machines : down ≡ₚ seqZ 0 n;
  st_up : forall l1 j l2, down = l1 ++ j :: l2 -> j = root /\ l1 = [] \/ j <> root /\ up j ∈ l1;
  st_children : forall i j, 0 <= i < n -> j ∈ children i <-> 0 <= j < n /\ j <> root /\ up j = i;
  st_once : forall i, 0 <= i < n -> NoDup (children i)
}.

Section Interface.
Context {n root up children down} {T : SpanningTree n root up children down}.

Lemma st_in i : i ∈ down <-> 0 <= i < n.
Proof. rewrite (st_machines (SpanningTree := T)), elem_of_seqZ. lia. Qed.

Lemma st_nodup : NoDup down.
Proof. rewrite (st_machines (SpanningTree := T)). apply NoDup_seqZ. Qed.

Lemma st_up_in j : 0 <= j < n -> j <> root -> 0 <= up j < n /\ up j <> j /\ j ∈ children (up j).
Proof.
  intros Hj Hr. pose proof Hj as Hd. apply st_in, list_elem_of_split in Hd as (l1 & l2 & Hd).
  destruct (st_up l1 j l2 Hd) as [[? _]|[_ Hu]]; [done|].
  assert (0 <= up j < n) as Hup by (apply st_in; rewrite Hd; apply elem_of_app; by left).
  split; [done|]. split; [|by apply st_children]. intros He. rewrite He in Hu. pose proof st_nodup as Hnd. rewrite Hd in Hnd.
  apply NoDup_app in Hnd as (_ & Hnd & _). apply (Hnd j Hu). left.
Qed.
End Interface.

(** ** Trees on positions *)

(** A tree whose root is position 0 and in which one goes up to a smaller position. *)
Record index_tree (n : Z) (upk : Z -> Z) (chk : Z -> list Z) : Prop := IndexTree {
  it_up : forall k, 0 < k < n -> 0 <= upk k < k;
  it_children : forall k j, 0 <= k < n -> j ∈ chk k <-> 0 < j < n /\ upk j = k;
  it_once : forall k, 0 <= k < n -> NoDup (chk k)
}.

(** Machine [root] is put at position 0, the others follow in a circle. *)
Definition place (n root k : Z) : Z := (root + k) mod n.
Definition position (n root i : Z) : Z := cmod (n + i - root) n.

Section Circle.
Context (n root : Z) (Hroot : 0 <= root < n).

Lemma position_mod i : 0 <= i < n -> position n root i = (i - root) mod n.
Proof.
  intros Hi. unfold position, cmod. rewrite Z.rem_mod_nonneg by lia.
  replace (n + i - root) with (i - root + 1 * n) by lia. apply Z.mod_add. lia.
Qed.
Lemma position_range i : 0 <= i < n -> 0 <= position n root i < n.
Proof. intros Hi. rewrite position_mod by done. apply Z.mod_pos_bound. lia. Qed.
Lemma place_range k : 0 <= place n root k < n.
Proof. apply Z.mod_pos_bound. lia. Qed.
Lemma place_position i : 0 <= i < n -> place n root (position n root i) = i.
Proof.
  intros Hi. rewrite position_mod by done. unfold place. rewrite Zplus_mod_idemp_r.
  replace (root + (i - root)) with i by lia. apply Z.mod_small. lia.
Qed.
Lemma position_place k : 0 <= k < n -> position n root (place n root k) = k.
Proof.
  intros Hk. rewrite position_mod by apply place_range. unfold place. rewrite Zminus_mod_idemp_l.
  replace (root + k - root) with k by lia. apply Z.mod_small. lia.
Qed.
Lemma position_root : position n root root = 0.
Proof. rewrite position_mod by done. rewrite Z.sub_diag. apply Z.mod_0_l. lia. Qed.
Lemma position_0 i : 0 <= i < n -> position n root i = 0 <-> i = root.
Proof.
  intros Hi. split; [|intros ->; apply position_root]. intros H. rewrite <- (place_position i Hi), H.
  unfold place. rewrite Z.add_0_r. apply Z.mod_small. lia.
Qed.
Lemma place_inj k k' : 0 <= k < n -> 0 <= k' < n -> place n root k = place n root k' -> k = k'.
Proof. intros Hk Hk' H. by rewrite <- (position_place k Hk), H, position_place. Qed.
Lemma place_neq_root k : 0 < k < n -> place n root k <> root.
Proof. intros Hk H. pose proof (position_place k). rewrite H, position_root in *. lia. Qed.

Context (upk : Z -> Z) (chk : Z -> list Z) (HT : index_tree n upk chk).

Definition tree_up (i : Z) : Z := place n root (upk (position n root i)).
Definition tree_children (i : Z) : list Z := place n root <$> chk (position n root i).
Definition tree_down : list Z := place n root <$> seqZ 0 n.

Lemma circle_tree : SpanningTree n root tree_up tree_children tree_down.
Proof.
  split.
  - apply NoDup_Permutation; [|apply NoDup_seqZ|].
    + apply NoDup_fmap_2_strong; [|apply NoDup_seqZ]. intros x y Hx%elem_of_seqZ Hy%elem_of_seqZ.
      apply place_inj; lia.
    + intros i. rewrite elem_of_seqZ. unfold tree_down. rewrite list_elem_of_fmap. split.
      * intros (k & -> & _). pose proof (place_range k). lia.
      * intros Hi. exists (position n root i). rewrite place_position by lia. split; [done|].
        apply elem_of_seqZ. pose proof (position_range i). lia.
  - intros l1 j l2 Hd. unfold tree_down in Hd.
    apply fmap_app_inv in Hd as (k1 & k2 & -> & Hk & Hd). symmetry in Hk.
    apply fmap_cons_inv in Hk as (k & k2' & -> & -> & ->).
    assert (seqZ 0 n !! length k1 = Some k) as Hl by (rewrite Hd; by apply list_lookup_middle).
    apply lookup_seqZ in Hl as [Hkl Hln]. destruct (decide (k = 0)) as [->|Hk0].
    + left. split; [unfold place; rewrite Z.add_0_r; apply Z.mod_small; lia|]. destruct k1; [done|cbn in *; lia].
    + right. split; [apply place_neq_root; lia|]. unfold tree_up. rewrite position_place by lia.
      apply list_elem_of_fmap_2. pose proof (it_up _ _ _ HT k). apply list_elem_of_lookup. exists (Z.to_nat (upk k)).
      assert (seqZ 0 n !! Z.to_nat (upk k) = Some (upk k)) as Hs by (apply lookup_seqZ; lia).
      rewrite Hd, lookup_app_l in Hs by lia. done.
  - intros i j Hi. unfold tree_children. rewrite list_elem_of_fmap. split.
    + intros (k & -> & Hk). apply (it_children _ _ _ HT) in Hk as [Hk Hu]; [|by apply position_range].
      split_and!; [apply place_range|apply place_range|by apply place_neq_root|].
      unfold tree_up. rewrite position_place, Hu by lia. by apply place_position.
    + intros (Hj & Hr & Hu). exists (position n root j). split; [by rewrite place_position|].
      pose proof (position_range j Hj). assert (position n root j <> 0) as H0 by (by rewrite position_0).
      apply (it_children _ _ _ HT); [by apply position_range|]. split; [lia|]. unfold tree_up in Hu.
      pose proof (it_up _ _ _ HT (position n root j)). rewrite <- Hu, position_place by lia. done.
  - intros i Hi. unfold tree_children. apply NoDup_fmap_2_strong; [|by apply (it_once _ _ _ HT), position_range].
    intros x y Hx Hy. apply (it_children _ _ _ HT) in Hx as [Hx _]; [|by apply position_range].
    apply (it_children _ _ _ HT) in Hy as [Hy _]; [|by apply position_range]. apply place_inj; lia.
Qed.
End Circle.

(** ** The binary tree *)

Definition heap_up (k : Z) : Z := (k - 1) / 2.
Definition heap_children (n k : Z) : list Z := List.filter (fun j => j <? n) [2 * k + 1; 2 * k + 2].

Lemma heap_index_tree n : index_tree n heap_up (heap_children n).
Proof.
  split.
  - intros k Hk. unfold heap_up. split; [apply Z.div_pos; lia|apply Z.div_lt_upper_bound; lia].
  - intros k j Hk. unfold heap_children, heap_up. rewrite list_elem_of_In, filter_In. cbn [In]. rewrite Z.ltb_lt. split.
    + intros [[<-|[<-|[]]] Hj]; (split; [lia|]); [replace (2 * k + 1 - 1) with (k * 2) by lia; apply Z.div_mul; lia|].
      replace (2 * k + 2 - 1) with (1 + k * 2) by lia. rewrite Z.div_add by lia. done.
    + intros [Hj Hu]. split; [|lia]. pose proof (Z.div_mod (j - 1) 2). pose proof (Z.mod_pos_bound (j - 1) 2). lia.
  - intros k Hk. unfold heap_children. cbn [List.filter].
    destruct (2 * k + 1 <? n), (2 * k + 2 <? n); repeat constructor; set_solver by lia.
Qed.

(** What [netd_make_tree] makes: the places of the neighbours in the heap. *)
Lemma make_tree_info n i root : 0 <= root < n -> 0 <= i < n ->
  t_up (netd_make_tree_info n i root) = (if i =? root then -1 else tree_up n root heap_up i) /\
  List.filter (fun c => negb (c =? -1)) [t_left (netd_make_tree_info n i root); t_right (netd_make_tree_info n i root)] =
    tree_children n root (heap_children n) i.
Proof.
  intros Hroot Hi. unfold netd_make_tree_info, tree_up, tree_children, heap_children, heap_up. fold (position n root i).
  pose proof (position_range n root Hroot i Hi) as Hp. pose proof (position_0 n root Hroot i Hi) as H0.
  set (k := position n root i) in *. clearbody k. cbn [t_up t_left t_right]. split.
  - destruct (Z.eqb_spec i root) as [->|Hne]; cbn [negb]; [done|]. assert (0 < k) by lia.
    unfold place, cmod, cdiv. rewrite Z.quot_div_nonneg by lia. rewrite Z.rem_mod_nonneg; [done| |lia].
    pose proof (Z.div_pos (k - 1) 2). lia.
  - assert (forall j, 0 <= j -> cmod (root + j) n = place n root j) as Hc.
    { intros j Hj. unfold cmod, place. apply Z.rem_mod_nonneg; lia. }
    assert (forall j, negb (place n root j =? -1) = true) as Hn.
    { intros j. pose proof (place_range n root Hroot j). apply negb_true_iff, Z.eqb_neq. lia. }
    rewrite <- !Z.add_assoc, !Hc by lia. cbn [List.filter].
    destruct (2 * k + 1 <? n), (2 * k + 2 <? n); cbn [Z.eqb negb]; by rewrite ?Hn.
Qed.

(** ** The star *)

Definition star_up (root i : Z) : Z := root.
Definition all_but (n i : Z) : list Z := List.filter (fun j => negb (j =? i)) (seqZ 0 n).
Definition star_children (n root i : Z) : list Z := if i =? root then all_but n root else [].

Lemma elem_of_all_but n i j : j ∈ all_but n i <-> 0 <= j < n /\ j <> i.
Proof. unfold all_but. rewrite list_elem_of_In, filter_In, <- list_elem_of_In, elem_of_seqZ, negb_true_iff, Z.eqb_neq. lia. Qed.
Lemma NoDup_filter_bool {A} (p : A -> bool) (l : list A) : NoDup l -> NoDup (List.filter p l).
Proof. rewrite !NoDup_ListNoDup. apply List.NoDup_filter. Qed.
Lemma NoDup_all_but n i : NoDup (all_but n i).
Proof. apply NoDup_filter_bool, NoDup_seqZ. Qed.

Lemma star_tree n root : 0 <= root < n ->
  SpanningTree n root (star_up root) (star_children n root) (root :: all_but n root).
Proof.
  intros Hr. split.
  - apply NoDup_Permutation; [|apply NoDup_seqZ|].
    + constructor; [|apply NoDup_all_but]. rewrite elem_of_all_but. lia.
    + intros j. rewrite elem_of_cons, elem_of_all_but, elem_of_seqZ. lia.
  - intros [|a l1] j l2; intros [= -> Hd]; [by left|]. right.
    assert (j ∈ all_but n a) as [_ Hj]%elem_of_all_but by (rewrite Hd; apply elem_of_app; right; left).
    split; [done|]. left.
  - intros i j Hi. unfold star_children, star_up. destruct (Z.eqb_spec i root) as [->|Hne].
    + rewrite elem_of_all_but. lia.
    + split; [intros H; by apply not_elem_of_nil in H|]. intros (_ & _ & ->). done.
  - intros i Hi. unfold star_children. destruct (i =? root); [apply NoDup_all_but|constructor].
Qed.

(** ** The binary tree of machine 0, for any root: the root reports to machine 0 *)

Definition relay_up (root i : Z) : Z := if i =? 0 then root else heap_up i.
Definition relay_children (n root i : Z) : list Z :=
  (if (i =? root) && negb (i =? 0) then [0] else []) ++ List.filter (fun j => negb (j =? root)) (heap_children n i).
Definition relay_down (n root : Z) : list Z :=
  if root =? 0 then seqZ 0 n else root :: 0 :: List.filter (fun j => negb (j =? 0)) (all_but n root).

Lemma elem_of_filter_bool {A} (p : A -> bool) (l : list A) x : x ∈ List.filter p l <-> x ∈ l /\ p x = true.
Proof. by rewrite !list_elem_of_In, filter_In. Qed.

Lemma relay_children_spec n root i j : 0 <= root < n -> 0 <= i < n ->
  j ∈ relay_children n root i <-> 0 <= j < n /\ j <> root /\ relay_up root j = i.
Proof.
  intros Hr Hi. unfold relay_children, relay_up. rewrite elem_of_app, elem_of_filter_bool, (it_children _ _ _ (heap_index_tree n)) by done.
  rewrite negb_true_iff, Z.eqb_neq. destruct (Z.eqb_spec i root) as [->|Hir], (Z.eqb_spec j 0) as [->|Hj]; cbn [andb negb].
  - destruct (Z.eqb_spec root 0) as [->|]; cbn; set_solver by lia.
  - destruct (Z.eqb_spec root 0) as [->|]; cbn; set_solver by lia.
  - set_solver by lia.
  - set_solver by lia.
Qed.

Lemma NoDup_relay_children n root i : 0 <= i < n -> NoDup (relay_children n root i).
Proof.
  intros Hi. unfold relay_children. apply NoDup_app. split_and!.
  - destruct (_ && _); repeat constructor; set_solver.
  - intros j Hj (Hc & _)%elem_of_filter_bool. apply (it_children _ _ _ (heap_index_tree n)) in Hc as [Hc _]; [|done].
    destruct (_ && _); set_solver by lia.
  - by apply NoDup_filter_bool, (it_once _ _ _ (heap_index_tree n)).
Qed.

Lemma filter_true {A} (l : list A) : List.filter (fun _ => true) l = l.
Proof. induction l as [|x l IH]; cbn; [done|by rewrite IH]. Qed.
Lemma filter_filter_bool {A} (p q : A -> bool) l : List.filter p (List.filter q l) = List.filter (fun x => q x && p x) l.
Proof. induction l as [|x l IH]; cbn; [done|]. destruct (q x) eqn:E; cbn; [destruct (p x); by rewrite IH|done]. Qed.

(** What comes before an element of a filtered range: what is smaller and passes. *)
Lemma range_before (p : Z -> bool) n l1 j l2 : List.filter p (seqZ 0 n) = l1 ++ j :: l2 ->
  p j = true /\ 0 <= j < n /\ forall i, 0 <= i < j -> p i = true -> i ∈ l1.
Proof.
  intros Hd. assert (j ∈ List.filter p (seqZ 0 n)) as [Hj Hp]%elem_of_filter_bool by (rewrite Hd; apply elem_of_app; right; left).
  apply elem_of_seqZ in Hj. split; [done|]. split; [lia|]. intros i Hi Hpi.
  replace n with (j + (n - j)) in Hd by lia. rewrite seqZ_app, List.filter_app in Hd by lia.
  rewrite (seqZ_cons (0 + j)) in Hd by lia. cbn [List.filter] in Hd. rewrite Z.add_0_l, Hp in Hd.
  assert (forall l, j ∉ List.filter p (seqZ (Z.succ j) l)) as Ha by (intros l [H _]%elem_of_filter_bool; apply elem_of_seqZ in H; lia).
  assert (j ∉ List.filter p (seqZ 0 j)) as Hb by (intros [H _]%elem_of_filter_bool; apply elem_of_seqZ in H; lia).
  assert (List.filter p (seqZ 0 j) = l1) as <-.
  { apply app_eq_inv in Hd as [(k & H1 & H2)|(k & H1 & H2)].
    - destruct k as [|x k]; [by rewrite app_nil_r in H1|]. injection H2 as <- H2. rewrite H1 in Hb.
      exfalso. apply Hb, elem_of_app. right. left.
    - destruct k as [|x k]; [by rewrite app_nil_r in H1|]. injection H2 as <- H2.
      exfalso. apply (Ha (Z.pred (n - j))). rewrite H2. apply elem_of_app. right. left. }
  apply elem_of_filter_bool. split; [|done]. apply elem_of_seqZ. lia.
Qed.

Lemma relay_tree n root : 0 <= root < n -> SpanningTree n root (relay_up root) (relay_children n root) (relay_down n root).
Proof.
  intros Hr. split; [| |intros i j Hi; by apply relay_children_spec|intros i Hi; by apply NoDup_relay_children].
  - unfold relay_down. destruct (Z.eqb_spec root 0) as [->|H0]; [done|].
    apply NoDup_Permutation; [|apply NoDup_seqZ|].
    + constructor; [|constructor; [|apply NoDup_filter_bool, NoDup_all_but]].
      * rewrite elem_of_cons, elem_of_filter_bool, elem_of_all_but. lia.
      * rewrite elem_of_filter_bool. by intros [_ ?].
    + intros j. rewrite !elem_of_cons, elem_of_filter_bool, elem_of_all_but, elem_of_seqZ, negb_true_iff, Z.eqb_neq. lia.
  - intros l1 j l2 Hd. unfold relay_down in Hd. unfold relay_up.
    assert (forall k, 0 < k -> 0 <= heap_up k < k) as Hup.
    { intros k Hk. apply (it_up _ _ _ (heap_index_tree (k + 1))). lia. }
    destruct (Z.eqb_spec root 0) as [->|H0].
    + assert (List.filter (fun _ => true) (seqZ 0 n) = seqZ 0 n) as Hf by apply filter_true.
      rewrite <- Hf in Hd. destruct (range_before _ _ _ _ _ Hd) as (_ & Hj & Hb). destruct (Z.eqb_spec j 0) as [->|Hj0].
      * left. split; [done|]. destruct l1 as [|x l1]; [done|]. exfalso.
        rewrite Hf in Hd. assert (seqZ 0 n !! 0%nat = Some x) as Hx by (by rewrite Hd). apply lookup_seqZ in Hx as [-> _].
        pose proof (NoDup_seqZ 0 n) as Hnd. rewrite Hd in Hnd. apply NoDup_cons_1_1 in Hnd. apply Hnd, elem_of_app. right. left.
      * right. split; [done|]. apply Hb; [apply Hup; lia|done].
    + destruct l1 as [|x l1]; injection Hd as <- Hd; [by left|]. right.
      destruct l1 as [|y l1]; injection Hd as <- Hd.
      { split; [done|]. cbn. left. }
      unfold all_but in Hd. rewrite filter_filter_bool in Hd. apply range_before in Hd as (Hp & Hj & Hb).
      apply andb_prop in Hp as [Hp1%negb_true_iff%Z.eqb_neq Hp2%negb_true_iff%Z.eqb_neq].
      split; [done|]. rewrite (proj2 (Z.eqb_neq j 0)) by done. specialize (Hup j).
      destruct (decide (heap_up j = root)) as [->|Hnr]; [left|]. right.
      destruct (decide (heap_up j = 0)) as [->|Hn0]; [left|]. right. apply Hb; [lia|].
      by rewrite (proj2 (Z.eqb_neq _ _) Hnr), (proj2 (Z.eqb_neq _ _) Hn0).
Qed.

(** ** The hypercube *)

(** The number of the lowest bit that is set. *)
Fixpoint ctz (p : positive) : nat := match p with xO p' => S (ctz p') | _ => O end.
Definition low (k : Z) : Z := match k with Zpos p => Z.of_nat (ctz p) | _ => 0 end.

Definition cube_up (k : Z) : Z := k - 2 ^ low k.
(** The bits that may be set in a child of [k], for positions below 2^31. *)
Definition cube_bits (n k : Z) : list Z :=
  List.filter (fun b => ((k =? 0) || (b <? low k)) && (k + 2 ^ b <? n)) (seqZ 0 31).
Definition cube_children (n k : Z) : list Z := (fun b => k + 2 ^ b) <$> cube_bits n k.

Lemma low_bit k : 0 < k -> 0 <= low k /\ Z.testbit k (low k) = true /\ forall b, 0 <= b < low k -> Z.testbit k b = false.
Proof.
  destruct k as [|p|p]; [lia| |lia]. intros _. cbn [low]. induction p as [p _|p IH|]; cbn [ctz].
  - split; [lia|]. split; [done|lia].
  - destruct IH as (_ & H1 & H2). split; [lia|]. rewrite Nat2Z.inj_succ. change (Zpos p~0) with (2 * Zpos p).
    rewrite Z.testbit_even_succ by lia. split; [done|]. intros b Hb.
    destruct (decide (b = 0)) as [->|Hb0]; [done|]. replace b with (Z.succ (b - 1)) by lia.
    rewrite Z.testbit_even_succ by lia. apply H2. lia.
  - split; [lia|]. split; [done|lia].
Qed.

Lemma low_unique k v : 0 < k -> 0 <= v -> Z.testbit k v = true -> (forall b, 0 <= b < v -> Z.testbit k b = false) -> low k = v.
Proof.
  intros Hk Hv H1 H2. destruct (low_bit k Hk) as (Hl & H3 & H4).
  destruct (Z.lt_trichotomy (low k) v) as [Hlt|[?|Hlt]]; [|done|].
  - rewrite H2 in H3 by lia. done.
  - rewrite H4 in H1 by lia. done.
Qed.

Lemma testbit_pow2 b c : 0 <= b -> Z.testbit (2 ^ b) c = (b =? c).
Proof. intros Hb. apply Z.pow2_bits_eqb. lia. Qed.

(** A bit that is not set can be added. *)
Lemma lor_bit k b : 0 <= b -> Z.testbit k b = false -> Z.lor (2 ^ b) k = k + 2 ^ b.
Proof.
  intros Hb H. assert (Z.land (2 ^ b) k = 0) as Hl.
  { apply Z.bits_inj'. intros c Hc. rewrite Z.land_spec, testbit_pow2, Z.bits_0 by lia. by destruct (Z.eqb_spec b c) as [->|]. }
  pose proof (Z.add_lor_land (2 ^ b) k). lia.
Qed.

Lemma low_lt k : 0 < k -> 2 ^ low k <= k.
Proof.
  intros Hk. destruct (low_bit k Hk) as (Hl & H1 & _). destruct (Z.le_gt_cases (2 ^ low k) k); [done|].
  rewrite Z.bits_above_log2 in H1; [done|lia|]. apply Z.log2_lt_pow2; lia.
Qed.

Lemma low_child k b : 0 <= k -> 0 <= b -> k = 0 \/ b < low k -> Z.testbit k b = false /\ low (k + 2 ^ b) = b.
Proof.
  intros Hk Hb H. assert (forall c, 0 <= c <= b -> Z.testbit k c = false) as Hz.
  { intros c Hc. destruct H as [->|H]; [apply Z.bits_0|]. destruct (decide (k = 0)) as [->|]; [apply Z.bits_0|].
    apply low_bit; lia. }
  split; [apply Hz; lia|]. assert (0 < 2 ^ b) by lia. apply low_unique; [lia|done| |].
  - rewrite <- lor_bit by (auto with lia). rewrite Z.lor_spec, testbit_pow2, Z.eqb_refl by done. done.
  - intros c Hc. rewrite <- lor_bit by (auto with lia). rewrite Z.lor_spec, testbit_pow2, Hz by lia.
    rewrite orb_false_r. apply Z.eqb_neq. lia.
Qed.

Lemma cube_up_bit k : 0 < k -> cube_up k = Z.land k (Z.lnot (2 ^ low k)).
Proof.
  intros Hk. destruct (low_bit k Hk) as (Hl & H1 & _). unfold cube_up. rewrite Z.sub_nocarry_ldiff; [apply Z.ldiff_land|].
  apply Z.bits_inj'. intros c Hc. rewrite Z.ldiff_spec, testbit_pow2, Z.bits_0 by done.
  destruct (Z.eqb_spec (low k) c) as [<-|]; [by rewrite H1|done].
Qed.

Lemma cube_up_low k : 0 < k -> cube_up k = 0 \/ low k < low (cube_up k).
Proof.
  intros Hk. destruct (decide (cube_up k = 0)) as [|Hne]; [by left|right]. pose proof (low_lt k Hk).
  assert (0 < cube_up k) as Hp by (unfold cube_up in *; lia). destruct (low_bit k Hk) as (Hl & H1 & H2).
  destruct (low_bit _ Hp) as (Hl' & H3 & _). destruct (Z.le_gt_cases (low (cube_up k)) (low k)) as [Hle|]; [|lia]. exfalso.
  rewrite cube_up_bit in H3 at 1 by done. rewrite Z.land_spec, Z.lnot_spec, testbit_pow2 in H3 by done.
  destruct (decide (low (cube_up k) = low k)) as [He|Hne'].
  - rewrite He, Z.eqb_refl, andb_false_r in H3. done.
  - rewrite H2 in H3 by lia. done.
Qed.

Lemma elem_of_cube_bits n k b : n <= 2 ^ 31 -> 0 <= k ->
  b ∈ cube_bits n k <-> 0 <= b /\ (k = 0 \/ b < low k) /\ k + 2 ^ b < n.
Proof.
  intros Hn Hk. unfold cube_bits. rewrite elem_of_filter_bool, elem_of_seqZ, andb_true_iff, orb_true_iff, Z.eqb_eq, !Z.ltb_lt.
  split; [lia|]. intros (Hb & H1 & H2). split_and!; try done; try lia.
  destruct (Z.lt_ge_cases b (0 + 31)); [done|]. pose proof (Z.pow_le_mono_r 2 31 b). lia.
Qed.

Lemma cube_index_tree n : n <= 2 ^ 31 -> index_tree n cube_up (cube_children n).
Proof.
  intros Hn. split.
  - intros k Hk. pose proof (low_lt k). pose proof (low_bit k). unfold cube_up. assert (0 < 2 ^ low k) by (apply Z.pow_pos_nonneg; lia). lia.
  - intros k j Hk. unfold cube_children. rewrite list_elem_of_fmap. split.
    + intros (b & -> & Hb). apply elem_of_cube_bits in Hb as (Hb & H1 & H2); [|done|lia].
      destruct (low_child k b) as [_ Hl]; [lia|done|done|]. assert (0 < 2 ^ b) by lia. split; [lia|].
      unfold cube_up. rewrite Hl. lia.
    + intros [Hj <-]. pose proof (low_lt j). pose proof (low_bit j). exists (low j). split; [unfold cube_up; lia|].
      apply elem_of_cube_bits; [done|unfold cube_up; lia|]. split; [lia|]. split; [apply cube_up_low; lia|unfold cube_up; lia].
  - intros k Hk. apply NoDup_fmap_2_strong; [|apply NoDup_filter_bool, NoDup_seqZ].
    intros x y Hx Hy He. apply elem_of_cube_bits in Hx as [Hx _]; [|done|lia]. apply elem_of_cube_bits in Hy as [Hy _]; [|done|lia].
    apply (Z.pow_inj_r 2); lia.
Qed.

(** ** What [netd_make_hcube] makes *)

Section Cube.
Context (n idx : Z) (Hn : n <= 2 ^ 30) (Hidx : 0 <= idx < n).

(** [k] of the bits below [b] lead to machines that exist: the [k] lowest. *)
Definition counted (b k : Z) : Prop :=
  0 <= k <= b /\ (idx = 0 \/ b <= low idx) /\ forall c, 0 <= c < b -> idx + 2 ^ c < n <-> c < k.

Lemma shl_pow b : 0 <= b < 31 -> uint32 (Z.shiftl (2 ^ b) 1) = 2 ^ (b + 1).
Proof.
  intros Hb. rewrite Z.shiftl_mul_pow2, <- Z.pow_add_r by lia. apply uint32_id.
  unfold is_uint32. assert (2 ^ (b + 1) <= 2 ^ 31) by (apply Z.pow_le_mono_r; lia).
  apply andb_true_intro. split; [apply Z.leb_le|apply Z.ltb_lt]; lia.
Qed.

Lemma bit_set b : 0 <= b -> idx = 0 \/ b <= low idx -> negb (Z.land (2 ^ b) idx =? 0) = true -> 0 < idx /\ b = low idx.
Proof.
  intros Hb H Hl%negb_true_iff%Z.eqb_neq. destruct (decide (idx = 0)) as [->|]; [by rewrite Z.land_0_r in Hl|].
  split; [lia|]. destruct (decide (b = low idx)); [done|]. exfalso. apply Hl. apply Z.bits_inj'. intros c Hc.
  rewrite Z.land_spec, testbit_pow2, Z.bits_0 by done. destruct (Z.eqb_spec b c) as [<-|]; [|done].
  apply low_bit; lia.
Qed.
Lemma bit_unset b : 0 <= b -> idx = 0 \/ b <= low idx -> negb (Z.land (2 ^ b) idx =? 0) = false -> idx = 0 \/ b < low idx.
Proof.
  intros Hb H Hl%negb_false_iff%Z.eqb_eq. destruct (decide (idx = 0)) as [->|]; [by left|]. right.
  destruct H as [|H]; [done|]. destruct (decide (b = low idx)) as [->|]; [|lia]. exfalso.
  destruct (low_bit idx) as (_ & Hs & _); [lia|]. apply (f_equal (fun z => Z.testbit z (low idx))) in Hl.
  rewrite Z.land_spec, testbit_pow2, Z.eqb_refl, Hs, Z.bits_0 in Hl by done. done.
Qed.

Lemma counted_next b k : 0 <= b -> idx = 0 \/ b < low idx -> counted b k ->
  counted (b + 1) (if Z.lor (2 ^ b) idx <? n then k + 1 else k).
Proof.
  intros Hb Hl (Hk & _ & Hc). destruct (low_child idx b) as [Ht _]; [lia|done|done|].
  rewrite lor_bit by done. destruct (Z.ltb_spec (idx + 2 ^ b) n) as [Hlt|Hge].
  - assert (k = b) as ->.
    { destruct (decide (k = b)); [done|]. assert (2 ^ k < 2 ^ b) by (apply Z.pow_lt_mono_r; lia).
      assert (~ k < k) as Hf by lia. exfalso. apply Hf, Hc; lia. }
    split; [lia|]. split; [lia|]. intros c Hcb. split; [lia|]. intros _.
    assert (2 ^ c <= 2 ^ b) by (apply Z.pow_le_mono_r; lia). lia.
  - split; [lia|]. split; [lia|]. intros c Hcb. destruct (decide (c = b)) as [->|]; [lia|]. apply Hc. lia.
Qed.

(** The bits of the children are those below [k]. *)
Definition child_bits (k : Z) : Prop := 0 <= k <= 30 /\ forall b, 0 <= b -> (idx = 0 \/ b < low idx) /\ idx + 2 ^ b < n <-> b < k.

Lemma hcube_scan_spec fuel b k : 0 <= b <= 31 -> (Z.to_nat (31 - b) < fuel)%nat -> counted b k ->
  exists m k', hcube_scan fuel n idx (2 ^ b) k = Some (m, k') /\ child_bits k' /\ (0 < idx -> m = 2 ^ low idx).
Proof.
  revert b k. induction fuel as [|fuel IH]; intros b k Hb Hf Hcnt; [lia|]. cbn [hcube_scan].
  pose proof Hcnt as (Hk & Hl & Hc). destruct (Z.ltb_spec (2 ^ b) n) as [Hlt|Hge].
  - destruct (decide (b = 31)) as [->|]; [lia|].
    destruct (negb (Z.land (2 ^ b) idx =? 0)) eqn:E.
    + apply bit_set in E as [Hpos ->]; [|lia|done]. eexists _, _. split; [done|]. split; [|done].
      assert (low idx < 30) as Hl30. { apply (Z.pow_lt_mono_r_iff 2); lia. }
      split; [lia|]. intros c Hc0. split.
      * intros [Hcl Hcn]. apply Hc; lia.
      * intros Hck. split; [lia|]. apply Hc; lia.
    + apply bit_unset in E; [|lia|done]. rewrite shl_pow by lia. apply IH; [lia|lia|]. apply counted_next; [lia|done|done].
  - assert (idx = 0) as H0.
    { destruct (decide (idx = 0)); [done|]. pose proof (low_lt idx). destruct Hl as [|Hl]; [done|].
      assert (2 ^ b <= 2 ^ low idx) by (apply Z.pow_le_mono_r; lia). lia. }
    eexists _, _. split; [done|]. split; [|lia]. 
    assert (k <= 30) as Hk30. { destruct (Z.le_gt_cases k 30); [done|]. assert (idx + 2 ^ 30 < n) by (apply Hc; lia). lia. }
    split; [lia|]. intros c Hc0. split.
    + intros [_ Hcn]. destruct (Z.lt_ge_cases c b) as [Hcb|Hcb]; [by apply Hc|].
      assert (2 ^ b <= 2 ^ c) by (apply Z.pow_le_mono_r; lia). lia.
    + intros Hck. split; [by left|]. apply Hc; lia.
Qed.

Lemma hcube_scan_total : exists m k, hcube_scan 33 n idx 1 0 = Some (m, k) /\ child_bits k /\ (0 < idx -> m = 2 ^ low idx).
Proof.
  apply (hcube_scan_spec 33 0 0); [lia|lia|]. split; [lia|]. split; [|lia].
  destruct (decide (idx = 0)); [by left|]. right. apply low_bit. lia.
Qed.

Context (root : Z) (Hroot : 0 <= root < n) (k : Z) (Hk : child_bits k).

Lemma child_place b : 0 <= b < k -> uint32 (Z.lor (2 ^ b) idx + root) mod n = place n root (idx + 2 ^ b).
Proof.
  intros Hb. destruct Hk as [_ Hc]. assert (b < k) as Hbk by lia. apply Hc in Hbk as [Hl Hlt]; [|lia].
  destruct (low_child idx b) as [Ht _]; [lia|lia|done|]. assert (0 < 2 ^ b) by lia.
  rewrite lor_bit, uint32_id by (done || lia || (unfold is_uint32; apply andb_true_intro; split; [apply Z.leb_le|apply Z.ltb_lt]; lia)).
  unfold place. f_equal. lia.
Qed.

Definition bit_children (b m : Z) : list Z := (fun c => place n root (idx + 2 ^ c)) <$> seqZ b m.

Lemma hcube_fill_spec m b acc : 0 <= b -> b + Z.of_nat m <= k ->
  hcube_fill m n idx root (2 ^ b) acc = (reverse (bit_children b (Z.of_nat m)) ++ acc, 2 ^ (b + Z.of_nat m)).
Proof.
  revert b acc. induction m as [|m IH]; intros b acc Hb Hm; cbn [hcube_fill].
  - rewrite Z.add_0_r. done.
  - pose proof (proj1 Hk). rewrite shl_pow, child_place, IH by lia. f_equal; [|f_equal; lia].
    unfold bit_children. rewrite (seqZ_cons b) by lia. rewrite fmap_cons, reverse_cons, <- app_assoc. cbn [app].
    by replace (Z.pred (Z.of_nat (S m))) with (Z.of_nat m) by lia.
Qed.

Lemma bit_children_all : bit_children 0 k ≡ₚ tree_children n root (cube_children n) (place n root idx).
Proof.
  unfold tree_children, cube_children, bit_children. rewrite position_place, <- list_fmap_compose by done.
  change (place n root ∘ (fun b => idx + 2 ^ b)) with (fun b => place n root (idx + 2 ^ b)). apply fmap_Permutation.
  apply NoDup_Permutation; [apply NoDup_seqZ|apply NoDup_filter_bool, NoDup_seqZ|]. intros b.
  rewrite elem_of_cube_bits, elem_of_seqZ by lia. split.
  - intros Hb. split; [lia|]. apply Hk; lia.
  - intros (Hb & H). apply Hk in H; lia.
Qed.
End Cube.

(** The first child finds its place: enough children follow. *)
Lemma hcube_sift_perm node sz mask rest : 1 <= sz -> 0 <= mask < 2 ^ Z.of_nat (length rest) ->
  exists cs, hcube_sift node sz mask rest = Some cs /\ cs ≡ₚ node :: rest.
Proof.
  intros Hsz. revert mask. induction rest as [|c rest IH]; intros mask Hm; cbn [hcube_sift].
  - cbn [length] in Hm. rewrite (proj2 (Z.ltb_ge sz mask)) by lia. by eexists.
  - destruct (sz <? mask); [|by eexists]. cbn [length] in Hm. rewrite Nat2Z.inj_succ, Z.pow_succ_r in Hm by lia.
    destruct (IH (Z.shiftr mask 1)) as (cs & -> & Hp).
    { rewrite Z.shiftr_div_pow2 by lia. split; [apply Z.div_pos; lia|apply Z.div_lt_upper_bound; lia]. }
    eexists. split; [done|]. rewrite Hp. apply Permutation_swap.
Qed.

Lemma make_hcube_info n i root : n <= 2 ^ 30 -> 0 <= root < n -> 0 <= i < n ->
  exists tr, netd_make_hcube_info n i root = Some tr /\
    h_up tr = (if i =? root then -1 else tree_up n root cube_up i) /\
    h_children tr ≡ₚ tree_children n root (cube_children n) i /\
    h_nChildren tr = Z.of_nat (length (h_children tr)).
Proof.
  intros Hn Hroot Hi. unfold netd_make_hcube_info. fold (position n root i).
  pose proof (position_range n root Hroot i Hi) as Hp. pose proof (position_0 n root Hroot i Hi) as H0.
  pose proof (place_position n root Hroot i Hi) as Hpl. unfold tree_up. set (idx := position n root i) in *. clearbody idx.
  destruct (hcube_scan_total n idx Hn Hp) as (m & k & -> & Hk & Hm). cbn [mbind option_bind].
  assert ((if idx =? 0 then -1 else uint32 (Z.land idx (Z.lnot m) + root) mod n) =
    (if i =? root then -1 else place n root (cube_up idx))) as ->.
  { destruct (Z.eqb_spec idx 0) as [He|Hne]; [by rewrite (proj2 (Z.eqb_eq i root)) by tauto|].
    rewrite (proj2 (Z.eqb_neq i root)) by tauto. rewrite Hm, <- cube_up_bit by lia.
    pose proof (it_up _ _ _ (cube_index_tree n ltac:(lia)) idx). rewrite uint32_id; [unfold place; f_equal; lia|].
    unfold is_uint32. apply andb_true_intro. split; [apply Z.leb_le|apply Z.ltb_lt]; lia. }
  pose proof (bit_children_all n idx Hn Hp root Hroot k Hk) as Hall. rewrite Hpl in Hall. pose proof (proj1 Hk) as Hk0.
  destruct (Z.ltb_spec 0 k) as [Hkp|Hkz].
  - change 1 with (2 ^ 0) at 1. rewrite (hcube_fill_spec n idx Hn Hp root Hroot k Hk) by lia.
    rewrite Z2Nat.id, app_nil_r by lia. unfold bit_children at 1. rewrite <- fmap_reverse.
    assert (seqZ 0 k = seqZ 0 (k - 1) ++ [k - 1]) as Hs.
    { replace k with (k - 1 + 1) at 1 by lia. by rewrite seqZ_app by lia. }
    rewrite Hs, reverse_snoc, fmap_cons.
    set (node := place n root (idx + 2 ^ (k - 1))). set (rest := _ <$> reverse (seqZ 0 (k - 1))).
    assert (bit_children n idx root 0 k ≡ₚ node :: rest) as Hb.
    { unfold bit_children. rewrite Hs, fmap_app, Permutation_app_comm. cbn [fmap list_fmap app].
      apply Permutation_skip. unfold rest. by rewrite reverse_Permutation. }
    assert (length rest = Z.to_nat (k - 1)) as Hlr by (unfold rest; by rewrite length_fmap, length_reverse, length_seqZ).
    destruct (hcube_sift_perm node (Z.min (Z.shiftr (2 ^ (0 + k)) 1) (n - cmod (node + n - root) n))
      (Z.shiftr (Z.shiftr (2 ^ (0 + k)) 1) 1) rest) as (cs & -> & Hcs).
    + rewrite Z.shiftr_div_pow2, Z.add_0_l by lia. rewrite <- Z.pow_sub_r by lia. assert (0 < 2 ^ (k - 1)) by lia.
      replace (node + n - root) with (n + node - root) by lia. fold (position n root node).
      pose proof (position_range n root Hroot node (place_range n root Hroot _)). lia.
    + rewrite Z.shiftr_shiftr, Z.shiftr_div_pow2, Z.add_0_l, Hlr, Z2Nat.id by lia.
      split; [apply Z.div_pos; lia|]. apply Z.div_lt_upper_bound; [lia|]. rewrite <- Z.pow_add_r by lia.
      apply Z.pow_lt_mono_r; lia.
    + cbn [mbind option_bind]. eexists. split; [done|]. cbn [h_up h_children h_nChildren]. split; [done|].
      split; [by rewrite Hcs, <- Hb|]. rewrite Hcs. cbn [length]. lia.
  - eexists. split; [done|]. cbn [h_up h_children h_nChildren]. split; [done|].
    assert (k = 0) as -> by lia. split; [by rewrite <- Hall|done].
Qed.

Lemma spanning_tree_perm {n root up ch down} ch' : SpanningTree n root up ch down ->
  (forall i, 0 <= i < n -> ch' i ≡ₚ ch i) -> SpanningTree n root up ch' down.
Proof.
  intros HT Hp. split; [apply HT|apply HT| |]; intros i; [intros j Hi|intros Hi]; rewrite (Hp i Hi); by apply HT.
Qed.
