(* ===== verification/NetdBcast.v ===== *)
(** The broadcast of the net device on all machines at once: over any spanning tree
    first, then [netd_bcast] of net/netd/netd_sock_c. *)
From stdpp Require Import relations.
From S2P Require Import Prelude NetRun NetdOp NetdGroup NetdTree.

(** ** Messages of one machine *)

(** Machine [i] has written [bs] to each of [tos]. *)
Definition sent (c : chans) (i : Z) (tos : list Z) (bs : list Z) : chans :=
  foldl (fun c to => put c i to (chan c i to ++ bs)) c tos.

Lemma chan_sent c i tos bs a b : NoDup tos ->
  chan (sent c i tos bs) a b = if decide (a = i /\ b ∈ tos) then chan c a b ++ bs else chan c a b.
Proof.
  intros Hnd. revert c. induction Hnd as [|to tos Hto _ IH]; intros c; cbn [sent foldl].
  - rewrite decide_False; [done|]. intros [_ H]. by apply not_elem_of_nil in H.
  - fold (sent (put c i to (chan c i to ++ bs)) i tos bs). rewrite IH, chan_put.
    destruct (decide (a = i /\ b ∈ tos)) as [[-> Hb]|Hn].
    + rewrite decide_False by congruence. rewrite decide_True; [done|]. split; [done|by right].
    + destruct (decide ((i, to) = (a, b))) as [[= -> ->]|Hne].
      * rewrite decide_True; [done|]. split; [done|left].
      * rewrite decide_False; [done|]. rewrite elem_of_cons. intros [-> [->|?]]; [done|]. by apply Hn.
Qed.

Lemma reach_group_write s i to data len c : in_table s to = true -> to <> i -> (len <= length data)%nat ->
  reach i (group_write s to data len) c (Done 0) (sent c i [to] (take len data)).
Proof.
  intros Ht Hne Hl. unfold group_write. rewrite Ht, (proj2 (Nat.leb_le _ _) Hl). by apply reach_sock_write.
Qed.

Lemma reach_group_read s i from data len c bs : in_table s from = true -> from <> i -> (len <= length data)%nat ->
  chan c from i = bs -> length bs = len ->
  reach i (group_read s from data len) c (Done (0, bs ++ drop len data)) (put c from i []).
Proof.
  intros Ht Hne Hl Hc Hb. unfold group_read. rewrite Ht, (proj2 (Nat.leb_le _ _) Hl).
  eapply reach_bind_Done; [by apply reach_sock_read; [|rewrite Hc]|]. rewrite Hc, Hb. constructor.
Qed.

Lemma reach_write_all s i tos data len stat c : Forall (fun to => in_table s to = true /\ to <> i) tos ->
  (len <= length data)%nat ->
  reach i (write_all s tos data len stat) c (Done stat) (sent c i tos (take len data)).
Proof.
  intros H Hl. revert stat c. induction H as [|to tos [Ht Hne] _ IH]; intros stat c; cbn [write_all]; [constructor|].
  eapply reach_bind_Done; [by apply reach_group_write|]. rewrite Z.add_0_r. apply IH.
Qed.

Lemma reach_write_unless s i to data len stat skip c :
  (to <> -1 -> skip = false -> in_table s to = true /\ to <> i) -> (len <= length data)%nat ->
  reach i (write_unless_absent s to data len stat skip) c (Done stat)
    (sent c i (List.filter (fun j => negb (j =? -1) && negb skip) [to]) (take len data)).
Proof.
  intros H Hl. unfold write_unless_absent. cbn [List.filter].
  destruct (Z.eqb_spec to (-1)) as [->|Hne]; cbn [negb andb]; [constructor|]. destruct skip; cbn [negb]; [constructor|].
  destruct (H Hne eq_refl) as [Ht Hi]. eapply reach_bind_Done; [by apply reach_group_write|].
  rewrite Z.add_0_r. constructor.
Qed.

(** ** Down a tree *)

Section Down.
Context {n root : Z} {up : Z -> Z} {children : Z -> list Z} {down : list Z}.
Context {T : SpanningTree n root up children down}.
Context (data : list Z).

(** The messages on the way when the machines in [l] have done their part. *)
Definition going_down (l : list Z) (c : chans) : Prop := forall a b,
  chan c a b = if decide (a ∈ l /\ b ∉ l /\ b ∈ children a) then data else [].

Lemma going_down_next l j l2 c : down = l ++ j :: l2 -> going_down l c ->
  going_down (l ++ [j]) (sent (if j =? root then c else put c (up j) j []) j (children j) data).
Proof.
  intros Hd Hc a b. pose proof (st_nodup (T := T)) as Hnd. rewrite Hd in Hnd.
  assert (j ∉ l) as Hjl by (apply NoDup_app in Hnd as (_ & Hn & _); intros Hj; apply (Hn j Hj); left).
  assert (0 <= j < n) as Hj by (apply (st_in (T := T)); rewrite Hd; apply elem_of_app; right; left).
  rewrite chan_sent by (by apply (st_once (SpanningTree := T))).
  assert (chan (if j =? root then c else put c (up j) j []) a b =
    if decide (a = up j /\ b = j) then [] else chan c a b) as ->.
  { destruct (Z.eqb_spec j root) as [->|Hr].
    - case_decide as H; [|done]. destruct H as [-> ->]. rewrite Hc, decide_False; [done|].
      intros (Ha & _ & Hin). assert (0 <= up root < n) as Hu by (apply (st_in (T := T)); rewrite Hd; apply elem_of_app; by left).
      apply (st_children (SpanningTree := T)) in Hin as (_ & ? & _); done.
    - rewrite chan_put. do 2 case_decide; naive_solver. }
  rewrite Hc. destruct (decide (a = j /\ b ∈ children j)) as [[-> Hb]|Hab].
  - pose proof Hb as (Hbn & Hbr & Hbu)%(st_children (SpanningTree := T)); [|done].
    destruct (st_up_in (T := T) b Hbn Hbr) as (_ & Hne & _). rewrite Hbu in Hne.
    rewrite (decide_False (P := _ /\ b = j)) by naive_solver. rewrite (decide_False (P := j ∈ l /\ _)) by tauto.
    rewrite decide_True; [done|]. split; [apply elem_of_app; right; left|]. split; [|done].
    rewrite elem_of_app, list_elem_of_singleton. intros [Hbl|Hbj]; [|congruence].
    apply list_elem_of_split in Hbl as (k1 & k2 & ->). rewrite <- app_assoc in Hd.
    destruct (st_up (SpanningTree := T) k1 b (k2 ++ j :: l2) Hd) as [[? _]|[_ Hu]]; [done|]. rewrite Hbu in Hu.
    apply Hjl, elem_of_app. by left.
  - destruct (decide (a = up j /\ b = j)) as [[Ha Hb]|Hno].
    + rewrite decide_False; [done|]. intros (_ & Hn & _). apply Hn. subst b. apply elem_of_app. right. left.
    + apply decide_ext. rewrite !elem_of_app, !list_elem_of_singleton. split.
      * intros (Ha & Hb & Hin). split; [by left|]. split; [|done]. intros [|Hbj]; [done|]. subst b.
        assert (0 <= a < n) as Han by (apply (st_in (T := T)); rewrite Hd; apply elem_of_app; by left).
        apply (st_children (SpanningTree := T)) in Hin as (_ & _ & Hu); [|done]. naive_solver.
      * intros ([Ha|Ha] & Hb & Hin); [|subst a; exfalso; by apply Hab]. split; [done|]. split; [|done]. naive_solver.
Qed.

Context {A : Type} (x : Z -> io A) (r : Z -> A).

(** A machine takes the message of the one above it, if it is not the root, and
    writes it to those below it. *)
Definition hands_down : Prop := forall i c, 0 <= i < n -> (i <> root -> chan c (up i) i = data) ->
  reach i (x i) c (Done (r i)) (sent (if i =? root then c else put c (up i) i []) i (children i) data).

(** Going down the tree, one machine after the other. *)
Lemma down_collective : hands_down -> collective n x r.
Proof.
  intros Hx B f p c Hq Hp.
  assert (forall l l2, down = l ++ l2 -> exists p' c', rtc netstep (p, c) (p', c') /\
    (forall i, i ∈ l -> p' !! i = Some (f i (r i))) /\ (forall i, i ∉ l -> p' !! i = p !! i) /\ going_down l c') as H.
  { induction l as [|j l IH] using rev_ind; intros l2 Hd.
    - exists p, c. split; [apply rtc_refl|]. split; [intros i Hi; by apply not_elem_of_nil in Hi|]. split; [done|].
      intros a b. rewrite Hq, decide_False; [done|]. intros (H & _). by apply not_elem_of_nil in H.
    - rewrite <- app_assoc in Hd. destruct (IH _ Hd) as (p' & c' & Hr & Hdone & Helse & Hc). cbn [app] in Hd.
      pose proof (st_nodup (T := T)) as Hnd. rewrite Hd in Hnd.
      assert (j ∉ l) as Hjl by (apply NoDup_app in Hnd as (_ & Hn & _); intros Hj; apply (Hn j Hj); left).
      assert (0 <= j < n) as Hj by (apply (st_in (T := T)); rewrite Hd; apply elem_of_app; right; left).
      exists (<[j := f j (r j)]> p'), (sent (if j =? root then c' else put c' (up j) j []) j (children j) data).
      split; [|split; [|split]].
      + etrans; [exact Hr|]. apply (turn j (x j)); [by rewrite Helse, Hp|]. apply Hx; [done|]. intros Hjr.
        rewrite Hc. destruct (st_up (SpanningTree := T) l j l2 Hd) as [[? _]|[_ Hu]]; [done|].
        destruct (st_up_in (T := T) j Hj Hjr) as (_ & _ & Hin). rewrite decide_True; [done|]. by split_and!.
      + intros i Hi. destruct (decide (i = j)) as [->|Hne]; [apply lookup_insert_eq|].
        rewrite lookup_insert_ne by done. apply Hdone. apply elem_of_app in Hi as [|Hi]; [done|]. set_solver.
      + intros i Hi. rewrite elem_of_app, list_elem_of_singleton in Hi. rewrite lookup_insert_ne by naive_solver.
        apply Helse. naive_solver.
      + by eapply going_down_next. }
  destruct (H down [] (eq_sym (app_nil_r down))) as (p' & c' & Hr & Hdone & Helse & Hc).
  exists p', c'. split_and!; [|done| |].
  - intros a b. rewrite Hc, decide_False; [done|]. intros (Ha & Hb & Hin). apply Hb. apply (st_in (T := T)).
    apply (st_in (T := T)) in Ha. apply (st_children (SpanningTree := T)) in Hin; tauto.
  - intros i Hi. apply Hdone. by apply (st_in (T := T)).
  - intros i Hi. apply Helse. intros Hin. apply Hi. by apply (st_in (T := T)) in Hin.
Qed.
End Down.

(** ** The machines of a collective *)

(** Machine [i] of [n] is up: its sockets are there, and the trees it has made are
    the ones it would make again. *)
Record machine (n i : Z) (s : netd_info) : Prop := Machine {
  m_size : size s = n;
  m_id : myid s = i;
  m_fd : groupfd s = true;
  m_tree : forall root tr, grptree s !! root = Some tr -> tr = netd_make_tree_info n i root;
  m_cube : forall root tr, grphcube s !! root = Some tr -> netd_make_hcube_info n i root = Some tr
}.

(** The state once the tree is there. *)
Definition tree_made (root : Z) (s : netd_info) : netd_info :=
  match grptree s !! root with
  | Some _ => s
  | None => s <| grptree := <[root := netd_make_tree_info (size s) (myid s) root]> (grptree s) |>
  end.
Definition cube_made (root : Z) (s : netd_info) : netd_info :=
  match grphcube s !! root, netd_make_hcube_info (size s) (myid s) root with
  | None, Some tr => s <| grphcube := <[root := tr]> (grphcube s) |>
  | _, _ => s
  end.

Lemma in_table_true n i s j : machine n i s -> in_table s j = true <-> 0 <= j < n.
Proof. intros [<- _ _ _ _]. unfold in_table. rewrite andb_true_iff, Z.leb_le, Z.ltb_lt. done. Qed.

Lemma make_tree_made n i s root : machine n i s -> 0 <= root < n ->
  netd_make_tree root s = Done (tree_made root s) /\
  grptree (tree_made root s) !! root = Some (netd_make_tree_info n i root) /\
  machine n i (tree_made root s).
Proof.
  intros Hm Hr. unfold netd_make_tree, tree_made. rewrite (proj2 (in_table_true n i s root Hm) Hr). cbn [negb].
  destruct Hm as [Hs Hi Hf Ht Hc]. destruct (grptree s !! root) as [tr|] eqn:E.
  - split; [done|]. split; [|by split]. by rewrite E, (Ht root tr E).
  - split; [done|]. rewrite Hs, Hi. cbn [grptree upd]. split; [apply lookup_insert_eq|].
    split; cbn [size myid groupfd grptree grphcube upd]; try done. intros root' tr.
    destruct (decide (root = root')) as [->|Hne]; [rewrite lookup_insert_eq; congruence|].
    rewrite lookup_insert_ne by done. apply Ht.
Qed.

Lemma make_cube_made n i s root : machine n i s -> n <= 2 ^ 30 -> 0 <= root < n -> 0 <= i < n ->
  netd_make_hcube root s = Done (cube_made root s) /\
  (exists tr, netd_make_hcube_info n i root = Some tr /\ grphcube (cube_made root s) !! root = Some tr) /\
  machine n i (cube_made root s).
Proof.
  intros Hm Hn Hr Hi. unfold netd_make_hcube, cube_made. rewrite (proj2 (in_table_true n i s root Hm) Hr). cbn [negb].
  destruct (make_hcube_info n i root Hn Hr Hi) as (tr0 & Htr & _).
  destruct Hm as [Hs Hid Hf Ht Hc]. destruct (grphcube s !! root) as [tr|] eqn:E.
  - split; [done|]. split; [|by split]. exists tr. split; [by apply Hc|done].
  - rewrite Hs, Hid, Htr. split; [done|]. cbn [grphcube upd]. split; [exists tr0; split; [done|apply lookup_insert_eq]|].
    split; cbn [size myid groupfd grptree grphcube upd]; try done. intros root' tr.
    destruct (decide (root = root')) as [->|Hne]; [rewrite lookup_insert_eq; congruence|].
    rewrite lookup_insert_ne by done. apply Hc.
Qed.

(** The shape of a tree, as machine [i] sees it. *)
Definition cube_tr (n i root : Z) : NETD_HCUBE_INFO := default (mkHcube (-1) [] 0) (netd_make_hcube_info n i root).

Lemma cube_tr_spec n i root : n <= 2 ^ 30 -> 0 <= root < n -> 0 <= i < n ->
  netd_make_hcube_info n i root = Some (cube_tr n i root) /\
  h_up (cube_tr n i root) = (if i =? root then -1 else tree_up n root cube_up i) /\
  h_children (cube_tr n i root) ≡ₚ tree_children n root (cube_children n) i /\
  take (Z.to_nat (h_nChildren (cube_tr n i root))) (h_children (cube_tr n i root)) = h_children (cube_tr n i root).
Proof.
  intros Hn Hr Hi. destruct (make_hcube_info n i root Hn Hr Hi) as (tr & H1 & H2 & H3 & H4).
  unfold cube_tr. rewrite H1. cbn. split_and!; [done|done|done|]. rewrite H4, Nat2Z.id. apply take_ge. done.
Qed.

Lemma cube_spanning n root : n <= 2 ^ 30 -> 0 <= root < n ->
  SpanningTree n root (tree_up n root cube_up) (fun i => h_children (cube_tr n i root)) (tree_down n root).
Proof.
  intros Hn Hr. eapply spanning_tree_perm; [apply circle_tree; [done|apply cube_index_tree; lia]|].
  intros i Hi. by apply cube_tr_spec.
Qed.

(** ** [netd_bcast] *)

Lemma children_targets {n root up ch down} {T : SpanningTree n root up ch down} i s' : 0 <= i < n -> machine n i s' ->
  Forall (fun to => in_table s' to = true /\ to <> i) (ch i).
Proof.
  intros Hi Hs. apply Forall_forall. intros to Hto. apply (st_children (SpanningTree := T)) in Hto as (Hn' & Hr & Hu); [|done].
  split; [by apply (in_table_true n i)|]. destruct (st_up_in (T := T) to Hn' Hr) as (_ & Hne & _). congruence.
Qed.

Section Bcast.
Context (n root : Z) (Hn : 1 <= n <= 2 ^ 30) (Hroot : 0 <= root < n).
Context (len : nat) (buf : Z -> list Z) (s : Z -> netd_info).
Context (Hm : forall i, 0 <= i < n -> machine n i (s i)) (Hlen : forall i, 0 <= i < n -> (len <= length (buf i))%nat).

Definition message : list Z := take len (buf root).
Definition delivered (i : Z) : list Z := message ++ drop len (buf i).

Lemma delivered_root : delivered root = buf root.
Proof. apply take_drop. Qed.
Lemma length_message : length message = len.
Proof. unfold message. rewrite length_take. specialize (Hlen root Hroot). lia. Qed.
Lemma length_delivered i : 0 <= i < n -> (len <= length (delivered i))%nat.
Proof. intros Hi. unfold delivered. rewrite length_app, length_message. lia. Qed.
Lemma take_delivered i : take len (delivered i) = message.
Proof. unfold delivered. apply take_app_length'. symmetry. apply length_message. Qed.

Lemma others_all_but i : 0 <= i < n -> others (s i) = all_but n i.
Proof. intros Hi. destruct (Hm i Hi) as [H1 H2 _ _ _]. unfold others, all_but. by rewrite H1, H2. Qed.

Lemma simple_hands_down : 2 <= n ->
  hands_down (n := n) (root := root) (up := star_up root) (children := star_children n root) message
    (fun i => netd_bcast_simple (buf i) len root (s i)) (fun i => (0, delivered i)).
Proof.
  intros Hn2 i c Hi Hc. destruct (Hm i Hi) as [Hs Hid Hf _ _]. unfold netd_bcast_simple. rewrite Hs, Hid, Hf.
  rewrite (proj2 (Z.ltb_ge i 0)), (proj2 (Z.ltb_ge n 2)) by lia. cbn [negb]. unfold star_children.
  destruct (Z.eqb_spec i root) as [->|Hne].
  - eapply reach_bind_Done.
    + apply reach_write_all; [|by apply Hlen]. rewrite others_all_but by done. apply Forall_forall. intros to Hto%elem_of_all_but.
      split; [by apply (in_table_true n root), Hto; apply Hm|apply Hto].
    + rewrite others_all_but, delivered_root by done. constructor.
  - eapply reach_bind_Done.
    + eapply reach_group_read; [apply (in_table_true n i); [by apply Hm|exact Hroot]|done|by apply Hlen|by apply Hc|apply length_message].
    + constructor.
Qed.

Lemma relay_hands_down : 2 <= n ->
  hands_down (n := n) (root := root) (up := relay_up root) (children := relay_children n root) message
    (fun i => netd_bcast_tree (buf i) len root (s i)) (fun i => (0, delivered i, tree_made 0 (s i))).
Proof.
  intros Hn2 i c Hi Hc. destruct (make_tree_made n i (s i) 0) as (Hmk & Hg & Hm'); [by apply Hm|lia|].
  pose proof (Hm i Hi) as Hmi. unfold netd_bcast_tree. rewrite (m_size _ _ _ Hmi), (m_id _ _ _ Hmi), (m_fd _ _ _ Hmi).
  rewrite (proj2 (Z.ltb_ge i 0)), (proj2 (Z.ltb_ge n 2)) by lia. cbn [negb]. rewrite Hmk. cbn [mbind io_mbind io_bind].
  rewrite Hg. set (s' := tree_made 0 (s i)) in *. rewrite (m_id _ _ _ Hm').
  destruct (make_tree_info n i 0) as [Hup Hch]; [lia|done|]. set (tr := netd_make_tree_info n i 0) in *.
  pose proof (relay_tree n root Hroot) as T.
  assert (Htree : tree_up n 0 heap_up i = if i =? 0 then place n 0 (heap_up 0) else heap_up i).
  { unfold tree_up. rewrite position_mod, Z.sub_0_r, Z.mod_small by lia. destruct (Z.eqb_spec i 0) as [->|]; [done|].
    unfold place. pose proof (it_up _ _ _ (heap_index_tree n) i). apply Z.mod_small. lia. }
  assert (Hhc : tree_children n 0 (heap_children n) i = heap_children n i).
  { unfold tree_children. rewrite position_mod, Z.sub_0_r, Z.mod_small by lia.
    rewrite <- (list_fmap_id (heap_children n i)) at 2. apply list_fmap_ext. intros k y Hy. cbn.
    apply list_elem_of_lookup_2, (it_children _ _ _ (heap_index_tree n)) in Hy as [Hy _]; [|done].
    unfold place. apply Z.mod_small. lia. }
  rewrite Hhc in Hch. rewrite Htree in Hup.
  set (c0 := if i =? root then c else put c (relay_up root i) i []).
  set (first := if (i =? root) && negb (i =? 0) then [0] else []).
  eapply reach_bind_Done with (a := (0, delivered i)) (c' := sent c0 i first message).
  { destruct (Z.eqb_spec i root) as [->|Hne].
    - unfold first, c0. destruct (Z.eqb_spec root 0) as [Hr0|Hr0]; cbn [negb andb]; [rewrite delivered_root; constructor|].
      eapply reach_bind_Done; [apply reach_group_write; [apply (in_table_true n root); [done|lia]|done|by apply Hlen]|].
      rewrite delivered_root. constructor.
    - unfold first, c0. cbn [andb sent foldl]. unfold relay_up in *.
      assert ((if i =? 0 then root else t_up tr) = if i =? 0 then root else heap_up i) as ->.
      { destruct (Z.eqb_spec i 0); [done|]. exact Hup. }
      pose proof (st_up_in (T := T) i Hi Hne) as (Hun & Hui & _). unfold relay_up in *.
      apply reach_group_read; [by apply (in_table_true n i)|done|by apply Hlen|by apply Hc|apply length_message]. }
  cbn beta iota. unfold relay_children.
  assert (Hkids : List.filter (fun j => negb (j =? root)) (heap_children n i) =
    List.filter (fun j => negb (j =? -1) && negb (t_left tr =? root)) [t_left tr] ++
    List.filter (fun j => negb (j =? -1) && negb (t_right tr =? root)) [t_right tr]).
  { rewrite <- Hch. cbn [List.filter]. destruct (t_left tr =? -1), (t_right tr =? -1); cbn [negb andb List.filter app];
      repeat (destruct (_ =? root)); done. }
  assert (Hok : forall to, to = t_left tr \/ to = t_right tr -> to <> -1 -> (to =? root) = false -> in_table s' to = true /\ to <> i).
  { intros to Hto H1 H2. assert (to ∈ relay_children n root i) as Hin.
    { unfold relay_children. apply elem_of_app. right. apply elem_of_filter_bool. split; [|by rewrite H2].
      rewrite <- Hch. apply elem_of_filter_bool. split; [destruct Hto as [-> | ->]; set_solver|]. by apply negb_true_iff, Z.eqb_neq. }
    apply (proj1 (Forall_forall _ _) (children_targets (T := T) i s' Hi Hm') to Hin). }
  eapply reach_bind_Done.
  { apply reach_write_unless; [intros; apply Hok; auto|by apply length_delivered]. }
  eapply reach_bind_Done.
  { apply reach_write_unless; [intros; apply Hok; auto|by apply length_delivered]. }
  rewrite take_delivered, Hkids. unfold sent. rewrite !foldl_app. cbn [Z.eqb negb]. constructor.
Qed.

Lemma cube_hands_down : 2 <= n ->
  hands_down (n := n) (root := root) (up := tree_up n root cube_up) (children := fun i => h_children (cube_tr n i root)) message
    (fun i => netd_bcast_hcube (buf i) len root (s i)) (fun i => (0, delivered i, cube_made root (s i))).
Proof.
  intros Hn2 i c Hi Hc. destruct (make_cube_made n i (s i) root) as (Hmk & (tr & Htr & Hg) & Hm'); [by apply Hm|lia|done|done|].
  pose proof (Hm i Hi) as Hmi. unfold netd_bcast_hcube. rewrite (m_size _ _ _ Hmi), (m_id _ _ _ Hmi), (m_fd _ _ _ Hmi).
  rewrite (proj2 (Z.ltb_ge i 0)), (proj2 (Z.ltb_ge n 2)) by lia. cbn [negb]. rewrite Hmk. cbn [mbind io_mbind io_bind].
  rewrite Hg. set (s' := cube_made root (s i)) in *.
  pose proof (cube_spanning n root (proj2 Hn) Hroot) as T.
  destruct (cube_tr_spec n i root) as (Htr' & Hup & _ & Htk); [lia|done|done|].
  assert (cube_tr n i root = tr) as Heq by congruence. rewrite Heq in *.
  set (c0 := if i =? root then c else put c (tree_up n root cube_up i) i []).
  eapply reach_bind_Done with (a := (0, delivered i)) (c' := c0).
  { rewrite Hup. unfold c0. destruct (Z.eqb_spec i root) as [->|Hne].
    - cbn [Z.eqb negb]. rewrite delivered_root. constructor.
    - pose proof (st_up_in (T := T) i Hi Hne) as (Hun & Hui & _).
      rewrite (proj2 (Z.eqb_neq _ (-1))) by lia. cbn [negb].
      apply reach_group_read; [by apply (in_table_true n i)|done|by apply Hlen|by apply Hc|apply length_message]. }
  cbn beta iota. rewrite Htk. eapply reach_bind_Done.
  { apply reach_write_all; [|by apply length_delivered]. rewrite <- Heq.
    apply (children_targets (T := T) i s' Hi Hm'). }
  rewrite take_delivered. constructor.
Qed.
End Bcast.

(** What a broadcast leaves of the state of a machine. *)
Definition bcast_state (n root lr : Z) (s : netd_info) : netd_info :=
  let s := s <| bcast_last_root := root |> in
  if n <? 2 then s
  else if (n <=? BCAST_SIMPLE_NODES) && negb (lr =? root) && negb (lr =? -1) then s
  else if n <=? BCAST_TREE_NODES then tree_made 0 s else cube_made root s.

Lemma machine_bcast_root n i s root : machine n i s -> machine n i (s <| bcast_last_root := root |>).
Proof. intros [H1 H2 H3 H4 H5]. by split. Qed.

Lemma bcast_state_ok n root lr i s : n <= 2 ^ 30 -> 0 <= root < n -> 0 <= i < n -> machine n i s ->
  machine n i (bcast_state n root lr s) /\ bcast_last_root (bcast_state n root lr s) = root /\
  reduce_last_root (bcast_state n root lr s) = reduce_last_root s /\ order (bcast_state n root lr s) = order s.
Proof.
  intros Hn Hr Hi Hm. apply (machine_bcast_root _ _ _ root) in Hm. unfold bcast_state.
  destruct (n <? 2); [by split_and!|]. destruct (_ && _); [by split_and!|]. destruct (n <=? BCAST_TREE_NODES).
  - destruct (make_tree_made n i (s <| bcast_last_root := root |>) 0) as (_ & _ & H); [done|lia|].
    split; [exact H|]. unfold tree_made. destruct (_ !! _); done.
  - destruct (make_cube_made n i (s <| bcast_last_root := root |>) root) as (_ & _ & H); [done|done|done|done|].
    split; [exact H|]. unfold cube_made. repeat case_match; done.
Qed.

Lemma netd_bcast_collective n root lr len buf s : 1 <= n <= 2 ^ 30 -> 0 <= root < n ->
  (forall i, 0 <= i < n -> machine n i (s i) /\ bcast_last_root (s i) = lr) ->
  (forall i, 0 <= i < n -> (len <= length (buf i))%nat) ->
  collective n (fun i => netd_bcast (buf i) len root (s i))
    (fun i => (0, delivered root len buf i, bcast_state n root lr (s i))).
Proof.
  intros Hn Hr Hs Hlen. set (s1 := fun i => s i <| bcast_last_root := root |>).
  assert (Hm : forall i, 0 <= i < n -> machine n i (s1 i)) by (intros i Hi; by apply machine_bcast_root, Hs).
  assert (Hsz : forall i, 0 <= i < n -> size (s i) = n) by (intros i Hi; by apply (m_size n i), Hs).
  destruct (decide (n < 2)) as [H1|H2].
  { assert (n = 1) as -> by lia. assert (root = 0) as -> by lia.
    eapply collective_ext; [| |apply collective_Done]; [|reflexivity]. intros i Hi. assert (i = 0) as -> by lia.
    rewrite delivered_root. unfold netd_bcast, bcast_state. destruct (Hs 0 Hi) as [[Hsize Hid Hf _ _] ->]. cbn [size upd]. rewrite Hsize.
    change (1 <=? BCAST_SIMPLE_NODES) with true. change (1 <=? BCAST_TREE_NODES) with true. cbn [andb].
    unfold netd_bcast_simple, netd_bcast_tree. cbn [size myid groupfd upd]. rewrite Hid, Hf.
    by destruct (negb (lr =? 0) && negb (lr =? -1)). }
  eapply (collective_ext n (fun i =>
    if (n <=? BCAST_SIMPLE_NODES) && negb (lr =? root) && negb (lr =? -1)
    then netd_bcast_simple (buf i) len root (s1 i) ≫= fun '(ret, data) => mret (ret, data, s1 i)
    else if n <=? BCAST_TREE_NODES then netd_bcast_tree (buf i) len root (s1 i)
    else netd_bcast_hcube (buf i) len root (s1 i))).
  { intros i Hi. unfold netd_bcast. change (size (s i <| bcast_last_root := root |>)) with (size (s i)). rewrite (Hsz i Hi), (proj2 (Hs i Hi)). done. }
  { reflexivity. }
  unfold bcast_state. rewrite (proj2 (Z.ltb_ge n 2)) by lia.
  destruct ((n <=? BCAST_SIMPLE_NODES) && negb (lr =? root) && negb (lr =? -1)).
  - apply (collective_then n _ _ (fun i => (0, delivered root len buf i)));
      [|exact (collective_Done n (fun i => (0, delivered root len buf i, s1 i)))].
    apply (down_collective (T := star_tree n root Hr) (message root len buf)). apply simple_hands_down; auto with lia.
  - destruct (n <=? BCAST_TREE_NODES).
    + apply (down_collective (T := relay_tree n root Hr) (message root len buf)). apply relay_hands_down; auto with lia.
    + apply (down_collective (T := cube_spanning n root (proj2 Hn) Hr) (message root len buf)). apply cube_hands_down; auto with lia.
Qed.

(** ** Properties *)

(** (C27) The broadcast among machines delivers: when all [n] machines call [netd_bcast]
    with the same root and the same previous root, then whatever the order of their
    moves nothing deadlocks, the calls all return 0 after a bounded number of moves, and
    each buffer starts with the [len] bytes of the root's, its rest unchanged. Star, binary
    tree and hypercube, which the number of machines and the previous root choose from,
    all have this meaning, and the trees a machine has kept from earlier calls do no harm. *)
Theorem netd_bcast_delivers n root lr len buf s : 1 <= n <= 2 ^ 30 -> 0 <= root < n ->
  (forall i, 0 <= i < n -> machine n i (s i) /\ bcast_last_root (s i) = lr /\ (len <= length (buf i))%nat) ->
  exists s', all_return n (fun i => netd_bcast (buf i) len root (s i))
      (fun i => (0, take len (buf root) ++ drop len (buf i), s' i)) /\
    forall i, 0 <= i < n -> machine n i (s' i) /\ bcast_last_root (s' i) = root.
Proof.
  intros Hn Hr H. exists (fun i => bcast_state n root lr (s i)). split.
  - apply collective_returns, netd_bcast_collective; [done|done| |]; intros i Hi; by destruct (H i Hi) as (? & ? & ?).
  - intros i Hi. destruct (H i Hi) as (Hm & _). destruct (bcast_state_ok n root lr i (s i)) as (? & ? & _); auto. lia.
Qed.

(** The machines as [netd_start] leaves them. *)
Definition fresh_netd (n i : Z) : netd_info := mkNetd n i true ∅ ∅ (-1) (-1) 2.
Lemma fresh_machine n i : machine n i (fresh_netd n i).
Proof. by split. Qed.

Lemma netd_bcast_delivers_witness :
  exists s', all_return 6 (fun i => netd_bcast [i; i; 7] 2 4 (fresh_netd 6 i)) (fun i => (0, [4; 4; 7], s' i)) /\
    forall i, 0 <= i < 6 -> machine 6 i (s' i) /\ bcast_last_root (s' i) = 4.
Proof.
  apply (netd_bcast_delivers 6 4 (-1) 2 (fun i => [i; i; 7]) (fresh_netd 6)); [lia|lia|].
  intros i Hi. split; [apply fresh_machine|]. split; [reflexivity|cbn; lia].
Defined.
