(* ===== verification/NetdReduce.v ===== *)
(** The reduction of the net device on all machines at once: up any spanning tree
    first, then [netd_reduce] on arrays of ints and what is built on it. *)
From stdpp Require Import relations.
From S2P Require Import Prelude NetRun NetdOp NetdGroup NetdTree NetdBcast.

(** ** Folds that do not depend on the order *)

Section Semigroup.
Context {A : Type} (P : A -> Prop) (g : A -> A -> A) (d : A).
Context (g_closed : forall a b, P a -> P b -> P (g a b)).
Context (g_comm : forall a b, P a -> P b -> g a b = g b a).
Context (g_assoc : forall a b c, P a -> P b -> P c -> g (g a b) c = g a (g b c)).

Definition total (l : list A) : A := match l with [] => d | v :: vs => foldl g v vs end.

Lemma foldl_closed r l : P r -> Forall P l -> P (foldl g r l).
Proof. intros Hr Hl. revert r Hr. induction Hl; intros r Hr; cbn; auto. Qed.

Lemma foldl_order l l' r : l ≡ₚ l' -> P r -> Forall P l -> foldl g r l = foldl g r l'.
Proof.
  intros H. revert r. induction H as [|x l l' _ IH|x y l|l l1 l2 H1 IH1 _ IH2]; intros r Hr Hl; cbn; [done| | |].
  - apply Forall_cons in Hl as [Hx Hl]. apply IH; auto.
  - apply Forall_cons in Hl as [Hx Hl]. apply Forall_cons in Hl as [Hy Hl]. f_equal.
    rewrite !g_assoc by done. f_equal. auto.
  - rewrite IH1 by done. apply IH2; [done|]. by rewrite <- H1.
Qed.

Lemma total_order l l' : l ≡ₚ l' -> Forall P l -> total l = total l'.
Proof.
  induction 1 as [|x l l' H _|x y l|l l1 l2 H1 IH1 _ IH2]; intros Hl; cbn; [done| | |].
  - apply Forall_cons in Hl as [Hx Hl]. by apply foldl_order.
  - apply Forall_cons in Hl as [Hx Hl]. apply Forall_cons in Hl as [Hy Hl]. f_equal. auto.
  - rewrite IH1 by done. apply IH2. by rewrite <- H1.
Qed.

(** ** Values in a tree *)

Context {n root : Z} {up : Z -> Z} {children : Z -> list Z} {down : list Z}.
Context {T : SpanningTree n root up children down} (a : Z -> A).

(** Each machine combines its own value with those of its children. *)
Definition tree_value (V : Z -> A) : Prop := forall i, 0 <= i < n -> V i = foldl g (a i) (V <$> children i).

Lemma children_after l j l2 k : down = l ++ j :: l2 -> k ∈ children j -> k ∈ l2.
Proof.
  intros Hd Hk. assert (0 <= j < n) as Hj by (apply (st_in (T := T)); rewrite Hd; apply elem_of_app; right; left).
  apply (st_children (SpanningTree := T)) in Hk as (Hkn & Hkr & Hku); [|done].
  destruct (st_up_in (T := T) k Hkn Hkr) as (_ & Hne & _). rewrite Hku in Hne.
  pose proof (st_nodup (T := T)) as Hnd. rewrite Hd in Hnd. apply NoDup_app in Hnd as (_ & Hnd & _).
  apply (st_in (T := T)) in Hkn. rewrite Hd in Hkn. apply elem_of_app in Hkn as [Hkl|Hkl].
  - apply list_elem_of_split in Hkl as (k1 & k2 & ->). rewrite <- app_assoc in Hd.
    destruct (st_up (SpanningTree := T) k1 k (k2 ++ j :: l2) Hd) as [[? _]|[_ Hu]]; [done|]. rewrite Hku in Hu.
    exfalso. apply (Hnd j); [|left]. apply elem_of_app. by left.
  - apply elem_of_cons in Hkl as [->|]; done.
Qed.

Lemma tree_value_exists : exists V, tree_value V.
Proof.
  assert (forall l2 l, down = l ++ l2 -> exists V, forall i, i ∈ l2 -> V i = foldl g (a i) (V <$> children i)) as H.
  { induction l2 as [|j l2 IH]; intros l Hd; [exists a; intros i Hi; by apply not_elem_of_nil in Hi|].
    destruct (IH (l ++ [j])) as [V HV]; [by rewrite <- app_assoc|].
    pose proof (st_nodup (T := T)) as Hnd. rewrite Hd in Hnd. apply NoDup_app in Hnd as (_ & _ & Hnd).
    apply NoDup_cons in Hnd as [Hj _].
    set (v := foldl g (a j) (V <$> children j)). exists (fun i => if decide (i = j) then v else V i).
    assert (forall i, i = j \/ i ∈ l2 -> (fun i => if decide (i = j) then v else V i) <$> children i = V <$> children i) as Hsame.
    { intros i Hi. apply list_fmap_ext. intros k y Hy%list_elem_of_lookup_2. rewrite decide_False; [done|]. intros ->.
      apply Hj. destruct Hi as [->|Hi]; [by eapply children_after|].
      apply list_elem_of_split in Hi as (k1 & k2 & ->).
      assert (j ∈ k2) as Hin by (eapply (children_after (l ++ j :: k1)); [rewrite Hd; by rewrite <- app_assoc|done]).
      apply elem_of_app. right. by right. }
    intros i Hi. apply elem_of_cons in Hi as [->|Hi].
    - rewrite decide_True by done. unfold v. by rewrite Hsame by (by left).
    - rewrite decide_False by (by intros ->). rewrite Hsame by (by right). by apply HV. }
  destruct (H down []) as [V HV]; [done|]. exists V. intros i Hi. apply HV. by apply (st_in (T := T)).
Qed.

Context (V : Z -> A) (HV : tree_value V) (Ha : forall i, 0 <= i < n -> P (a i)).

Lemma tree_value_closed i : 0 <= i < n -> P (V i).
Proof.
  assert (forall l2 l, down = l ++ l2 -> forall i, i ∈ l2 -> P (V i)) as H.
  { induction l2 as [|j l2 IH]; intros l Hd k Hk; [by apply not_elem_of_nil in Hk|].
    specialize (IH (l ++ [j])). rewrite <- app_assoc in IH. specialize (IH Hd).
    apply elem_of_cons in Hk as [->|Hk]; [|by apply IH].
    assert (0 <= j < n) as Hj by (apply (st_in (T := T)); rewrite Hd; apply elem_of_app; right; left).
    rewrite HV by done. apply foldl_closed; [by apply Ha|]. apply Forall_fmap, Forall_forall. intros k Hk. apply IH.
    by eapply children_after. }
  intros Hi. apply (H down []); [done|]. by apply (st_in (T := T)).
Qed.

(** The machines whose value is wanted by those in [l]. *)
Definition wanted (l : list Z) : list Z := filter (fun k => k ∉ l /\ k <> root /\ up k ∈ l) down.

Lemma wanted_next l j l2 : down = l ++ j :: l2 -> l <> [] ->
  wanted (l ++ [j]) ≡ₚ children j ++ filter (fun k => k ∉ l ++ [j] /\ k <> root /\ up k ∈ l) down /\
  wanted l ≡ₚ j :: filter (fun k => k ∉ l ++ [j] /\ k <> root /\ up k ∈ l) down.
Proof.
  intros Hd Hl. assert (0 <= j < n) as Hj by (apply (st_in (T := T)); rewrite Hd; apply elem_of_app; right; left).
  pose proof (st_nodup (T := T)) as Hnd. pose proof Hnd as Hnd'. rewrite Hd in Hnd'.
  assert (j ∉ l) as Hjl by (apply NoDup_app in Hnd' as (_ & Hn & _); intros Hin; apply (Hn j Hin); left).
  destruct (st_up (SpanningTree := T) l j l2 Hd) as [[_ ?]|[Hjr Hju]]; [done|].
  assert (forall k, k ∈ children j <-> k ∉ l ++ [j] /\ k <> root /\ k ∈ down /\ up k = j) as Hch.
  { intros k. rewrite (st_children (SpanningTree := T)), (st_in (T := T)) by done. split; [|naive_solver].
    intros (H1 & H2 & H3). split_and!; try done; try lia. intros Hin.
    assert (k ∈ children j) as Hk by (by apply (st_children (SpanningTree := T))).
    apply (children_after l j l2 k Hd) in Hk. rewrite (app_assoc l [j] l2 : l ++ j :: l2 = _) in Hnd'.
    apply NoDup_app in Hnd' as (_ & Hn & _). by apply (Hn k). }
  split; unfold wanted; (apply NoDup_Permutation; [by apply NoDup_filter| |]).
  - apply NoDup_app. split_and!; [by apply (st_once (SpanningTree := T))| |by apply NoDup_filter].
    intros k Hk Hf. apply Hch in Hk as (_ & _ & _ & Hu). apply list_elem_of_filter in Hf as [(_ & _ & Hf) _]. congruence.
  - intros k. rewrite elem_of_app, !list_elem_of_filter, Hch, !elem_of_app, !list_elem_of_singleton. naive_solver.
  - constructor; [|by apply NoDup_filter]. rewrite list_elem_of_filter, elem_of_app. intros [[H _] _]. apply H. right. left.
  - intros k. rewrite elem_of_cons, !list_elem_of_filter, !elem_of_app, !list_elem_of_singleton. split; [|intros [->|?]].
    + intros [(H1 & H2 & H3) H4]. destruct (decide (k = j)); naive_solver.
    + split; [done|]. rewrite Hd. apply elem_of_app. right. left.
    + naive_solver.
Qed.

(** What the root ends up with is the values of all machines combined. *)
Lemma tree_total : 0 <= root < n -> total (a <$> down) = V root.
Proof.
  intros Hroot. assert (forall l l2, down = l ++ l2 -> l <> [] -> total ((a <$> l) ++ (V <$> wanted l)) = V root) as H.
  { induction l as [|j l IH] using rev_ind; intros l2 Hd Hl; [done|]. rewrite <- app_assoc in Hd. cbn [app] in Hd.
    assert (Forall P (a <$> down)) as HaP by (apply Forall_fmap, Forall_forall; intros k Hk; by apply Ha, (st_in (T := T))).
    assert (0 <= j < n) as Hj by (apply (st_in (T := T)); rewrite Hd; apply elem_of_app; right; left).
    assert (Hsub : forall (Q : Z -> Prop) `{!forall k, Decision (Q k)}, Forall P (V <$> filter Q down)).
    { intros Q HQ. apply Forall_fmap, Forall_forall. intros k [_ Hk]%list_elem_of_filter.
      by apply tree_value_closed, (st_in (T := T)). }
    destruct (decide (l = [])) as [->|Hne].
    - destruct (st_up (SpanningTree := T) [] j l2 Hd) as [[-> _]|[_ Hu]]; [|by apply not_elem_of_nil in Hu].
      cbn [app]. rewrite HV by done. change (foldl g (a root) (V <$> wanted [root]) = foldl g (a root) (V <$> children root)).
      apply foldl_order; [|by apply Ha|by apply Hsub]. apply fmap_Permutation. unfold wanted.
      apply NoDup_Permutation; [apply NoDup_filter, (st_nodup (T := T))|by apply (st_once (SpanningTree := T))|].
      intros k. rewrite list_elem_of_filter, (st_children (SpanningTree := T)), (st_in (T := T)), !list_elem_of_singleton by done. naive_solver.
    - destruct (wanted_next l j l2 Hd Hne) as [Hw1 Hw2]. rewrite <- (IH (j :: l2) Hd Hne).
      set (R := filter _ down) in *.
      assert (Forall P (a <$> l)) as Hal by (rewrite Hd, fmap_app in HaP; by apply Forall_app in HaP as [? _]).
      assert (Forall P (V <$> R)) as HR by apply Hsub.
      assert (Forall P (V <$> children j)) as Hcj.
      { apply Forall_fmap, Forall_forall. intros k Hk. apply tree_value_closed. apply (st_children (SpanningTree := T)) in Hk; tauto. }
      transitivity (total (a j :: (V <$> children j) ++ (a <$> l) ++ (V <$> R))).
      + symmetry. apply total_order.
        * rewrite Hw1, !fmap_app. cbn [fmap list_fmap]. change (a j :: (V <$> children j) ++ (a <$> l) ++ (V <$> R))
            with ([a j] ++ (V <$> children j) ++ (a <$> l) ++ (V <$> R)). solve_Permutation.
        * constructor; [by apply Ha|]. by rewrite !Forall_app.
      + cbn [total]. rewrite foldl_app, <- HV by done. change (total (V j :: (a <$> l) ++ (V <$> R)) = total ((a <$> l) ++ (V <$> wanted l))).
        apply total_order; [rewrite Hw2, fmap_cons; solve_Permutation|].
        constructor; [by apply tree_value_closed|by rewrite Forall_app]. }
  specialize (H down []). rewrite app_nil_r in H. rewrite <- H; [|done|].
  - assert (wanted down = []) as ->; [|by rewrite app_nil_r].
    unfold wanted. apply Permutation_nil_r, NoDup_Permutation; [apply NoDup_filter, (st_nodup (T := T))|constructor|].
    intros k. rewrite list_elem_of_filter. split; [tauto|intros Hk; by apply not_elem_of_nil in Hk].
  - intros Hd. assert (root ∈ down) as Hin by (by apply (st_in (T := T))). rewrite Hd in Hin. by apply not_elem_of_nil in Hin.
Qed.
End Semigroup.

(** ** Up a tree *)

(** Machine [i] has read all that [froms] had sent it. *)
Definition emptied (c : chans) (i : Z) (froms : list Z) : chans := foldl (fun c j => put c j i []) c froms.

Lemma chan_emptied c i froms a b :
  chan (emptied c i froms) a b = if decide (b = i /\ a ∈ froms) then [] else chan c a b.
Proof.
  revert c. induction froms as [|j froms IH]; intros c; cbn [emptied foldl].
  - rewrite decide_False; [done|]. intros [_ H]. by apply not_elem_of_nil in H.
  - fold (emptied (put c j i []) i froms). rewrite IH, chan_put.
    destruct (decide (b = i /\ a ∈ froms)) as [[-> Ha]|Hn].
    + rewrite decide_True; [done|]. split; [done|by right].
    + destruct (decide ((j, i) = (a, b))) as [[= -> ->]|Hne].
      * rewrite decide_True; [done|]. split; [done|left].
      * rewrite decide_False; [done|]. rewrite elem_of_cons. intros [-> [->|?]]; [done|]. by apply Hn.
Qed.

Section Up.
Context {n root : Z} {up : Z -> Z} {children : Z -> list Z} {down : list Z}.
Context {T : SpanningTree n root up children down}.
Context (V : Z -> list Z).

(** Nothing is on the way but what the machines not in [l] have reported to those in [l]. *)
Definition going_up (l : list Z) (c : chans) : Prop := forall a b,
  chan c a b = if decide (a ∉ l /\ 0 <= a < n /\ a <> root /\ b = up a /\ b ∈ l) then V a else [].

(** What machine [i] does to the messages: it takes those of its children and reports. *)
Definition reported (c : chans) (i : Z) : chans :=
  let c1 := emptied c i (children i) in if i =? root then c1 else sent c1 i [up i] (V i).

Lemma going_up_next l j l2 c : down = l ++ j :: l2 -> going_up (l ++ [j]) c -> going_up l (reported c j).
Proof.
  intros Hd Hc a b. assert (0 <= j < n) as Hj by (apply (st_in (T := T)); rewrite Hd; apply elem_of_app; right; left).
  pose proof (st_nodup (T := T)) as Hnd. rewrite Hd in Hnd.
  assert (j ∉ l) as Hjl by (apply NoDup_app in Hnd as (_ & Hn & _); intros Hin; apply (Hn j Hin); left).
  assert (chan (reported c j) a b = if decide (a = j /\ j <> root /\ b = up j) then chan (emptied c j (children j)) a b ++ V j
    else chan (emptied c j (children j)) a b) as ->.
  { unfold reported. destruct (Z.eqb_spec j root) as [->|Hr]; [by rewrite decide_False by naive_solver|].
    rewrite chan_sent by (constructor; [set_solver|constructor]). apply decide_ext. rewrite list_elem_of_singleton. naive_solver. }
  rewrite chan_emptied, Hc. destruct (decide (a = j /\ j <> root /\ b = up j)) as [(-> & Hjr & ->)|Hno].
  - destruct (st_up_in (T := T) j Hj Hjr) as (Hun & Hne & _).
    destruct (st_up (SpanningTree := T) l j l2 Hd) as [[? _]|[_ Hju]]; [done|].
    rewrite (decide_False (P := up j = j /\ _)) by tauto.
    rewrite (decide_False (P := j ∉ l ++ [j] /\ _)) by (rewrite elem_of_app, list_elem_of_singleton; tauto).
    rewrite decide_True by (split_and!; done || lia). done.
  - destruct (decide (b = j /\ a ∈ children j)) as [[-> Ha]|Hab].
    + rewrite decide_False; [done|]. tauto.
    + apply decide_ext. rewrite !elem_of_app, !list_elem_of_singleton. split.
      * intros (H1 & H2 & H3 & -> & H5). split_and!; try done; try lia; [tauto|]. destruct H5 as [|Hu]; [done|].
        exfalso. apply Hab. split; [done|]. by apply (st_children (SpanningTree := T)).
      * intros (H1 & H2 & H3 & -> & H5). split_and!; try done; try lia; [|by left]. intros [|Haj]; [done|]. subst a.
        by apply Hno.
Qed.

Context {A : Type} (x : Z -> io A) (r : Z -> A).

(** A machine takes the reports of its children, and reports to the one above it. *)
Definition hands_up : Prop := forall i c, 0 <= i < n -> (forall j, j ∈ children i -> chan c j i = V j) ->
  reach i (x i) c (Done (r i)) (reported c i).

Lemma up_collective : hands_up -> collective n x r.
Proof.
  intros Hx B f p c Hq Hp.
  assert (forall l2 l, down = l ++ l2 -> exists p' c', rtc netstep (p, c) (p', c') /\
    (forall i, i ∈ l2 -> p' !! i = Some (f i (r i))) /\ (forall i, i ∉ l2 -> p' !! i = p !! i) /\ going_up l c') as H.
  { induction l2 as [|j l2 IH]; intros l Hd.
    - exists p, c. split; [apply rtc_refl|]. split; [intros i Hi; by apply not_elem_of_nil in Hi|]. split; [done|].
      intros a b. rewrite Hq, decide_False; [done|]. rewrite app_nil_r in Hd. subst l.
      intros (H1 & H2 & _). apply H1. by apply (st_in (T := T)).
    - destruct (IH (l ++ [j])) as (p' & c' & Hr & Hdone & Helse & Hc); [by rewrite <- app_assoc|].
      pose proof (st_nodup (T := T)) as Hnd. rewrite Hd in Hnd. apply NoDup_app in Hnd as (_ & Hnl & Hnd).
      apply NoDup_cons in Hnd as [Hj2 _].
      assert (0 <= j < n) as Hj by (apply (st_in (T := T)); rewrite Hd; apply elem_of_app; right; left).
      exists (<[j := f j (r j)]> p'), (reported c' j). split; [|split; [|split]].
      + etrans; [exact Hr|]. apply (turn j (x j)); [by rewrite Helse, Hp|]. apply Hx; [done|]. intros k Hk.
        pose proof Hk as (Hkn & Hkr & Hku)%(st_children (SpanningTree := T)); [|done].
        rewrite Hc, decide_True; [done|]. split_and!; try done; try lia.
        * intros Hin. apply (children_after l j l2 k Hd) in Hk. apply elem_of_app in Hin as [Hin|Hin].
          { apply (Hnl k Hin). by right. }
          { apply list_elem_of_singleton in Hin as ->. done. }
        * apply elem_of_app. right. by left.
      + intros i Hi. destruct (decide (i = j)) as [->|Hne]; [apply lookup_insert_eq|].
        rewrite lookup_insert_ne by done. apply Hdone. by apply elem_of_cons in Hi as [|].
      + intros i Hi. rewrite elem_of_cons in Hi. rewrite lookup_insert_ne by naive_solver. apply Helse. naive_solver.
      + by eapply going_up_next. }
  destruct (H down [] eq_refl) as (p' & c' & Hr & Hdone & Helse & Hc).
  exists p', c'. split_and!; [|done| |].
  - intros a b. rewrite Hc, decide_False; [done|]. intros (_ & _ & _ & _ & Hb). by apply not_elem_of_nil in Hb.
  - intros i Hi. apply Hdone. by apply (st_in (T := T)).
  - intros i Hi. apply Helse. intros Hin. apply Hi. by apply (st_in (T := T)) in Hin.
Qed.
End Up.

(** ** The operations on ints *)

(** The column [op] of the row of ints. *)
Definition int_op (op : Z) : Z -> Z -> Z :=
  if op =? NETD_OP_ABSMAX then fun a b => MAXVAL int_num (ABSVAL int_num a) (ABSVAL int_num b)
  else if op =? NETD_OP_ABSMIN then fun a b => MINVAL int_num (ABSVAL int_num a) (ABSVAL int_num b)
  else if op =? NETD_OP_MAX then MAXVAL int_num
  else if op =? NETD_OP_MIN then MINVAL int_num
  else if op =? NETD_OP_MULT then num_mul int_num
  else num_add int_num.

(** What an operation means: what is done to each value first, and how two values
    are combined. *)
Definition is_abs (op : Z) : bool := (op =? NETD_OP_ABSMAX) || (op =? NETD_OP_ABSMIN).
Definition prepare (op x : Z) : Z := if is_abs op then int32 (Z.abs x) else x.
Definition combine (op a b : Z) : Z :=
  if (op =? NETD_OP_ABSMAX) || (op =? NETD_OP_MAX) then Z.max a b
  else if (op =? NETD_OP_ABSMIN) || (op =? NETD_OP_MIN) then Z.min a b
  else if op =? NETD_OP_MULT then int32 (a * b)
  else int32 (a + b).
(** The arrays of all machines, element by element. *)
Definition combined (op : Z) (xs : list (list Z)) : list Z :=
  total (zip_with (combine op)) [] ((fun x : list Z => (prepare op <$> x : list Z)) <$> xs).

Definition ints (l : list Z) : Prop := Forall (fun x => is_int32 x = true) l.

Lemma ABSVAL_int x : is_int32 x = true -> ABSVAL int_num x = int32 (Z.abs x).
Proof.
  intros Hx. unfold ABSVAL. cbn [num_gt num_zero num_neg int_num]. destruct (Z.gtb_spec x 0).
  - rewrite Z.abs_eq by lia. by rewrite int32_id.
  - by rewrite Z.abs_neq by lia.
Qed.
Lemma MAXVAL_int a b : MAXVAL int_num a b = Z.max a b.
Proof. unfold MAXVAL. cbn [num_gt int_num]. destruct (Z.gtb_spec a b); lia. Qed.
Lemma MINVAL_int a b : MINVAL int_num a b = Z.min a b.
Proof. unfold MINVAL. cbn [num_gt int_num]. destruct (Z.gtb_spec a b); lia. Qed.

Lemma is_int32_int32 z : is_int32 (int32 z) = true.
Proof. unfold is_int32. pose proof (int32_range z). apply andb_true_intro. split; [apply Z.leb_le|apply Z.ltb_lt]; lia. Qed.

Lemma prepare_int op x : is_int32 x = true -> is_int32 (prepare op x) = true.
Proof. intros Hx. unfold prepare. destruct (is_abs op); [apply is_int32_int32|done]. Qed.

(** The smallest int is its own absolute value. *)
Lemma prepare_idem op x : is_int32 x = true -> prepare op (prepare op x) = prepare op x.
Proof.
  intros Hx. unfold prepare. destruct (is_abs op); [|done].
  assert (x = - 2 ^ 31 \/ is_int32 (Z.abs x) = true) as [->|Ha]; [|done|by rewrite (int32_id _ Ha), Z.abs_involutive, int32_id].
  unfold is_int32 in *. apply andb_prop in Hx as [H1%Z.leb_le H2%Z.ltb_lt].
  destruct (decide (x = - 2 ^ 31)); [by left|right]. apply andb_true_intro. split; [apply Z.leb_le|apply Z.ltb_lt]; lia.
Qed.

Lemma int_row_meaning op a b : 1 <= op <= 6 -> is_int32 a = true -> is_int32 b = true ->
  int_op op a b = combine op (prepare op a) (prepare op b).
Proof.
  intros Ho Ha Hb. unfold int_op, combine, prepare, is_abs, NETD_OP_ABSMAX, NETD_OP_ABSMIN, NETD_OP_MAX, NETD_OP_MIN, NETD_OP_MULT.
  destruct (Z.eqb_spec op 1); cbn [orb]; [by rewrite !ABSVAL_int, MAXVAL_int by done|].
  destruct (Z.eqb_spec op 2) as [->|]; cbn [orb Z.eqb Pos.eqb]; [by rewrite !ABSVAL_int, MINVAL_int by done|].
  destruct (Z.eqb_spec op 3); cbn [orb]; [by rewrite MAXVAL_int|].
  destruct (Z.eqb_spec op 4); cbn [orb]; [by rewrite MINVAL_int|]. by destruct (op =? 5).
Qed.

Lemma combine_int op a b : is_int32 a = true -> is_int32 b = true -> is_int32 (combine op a b) = true.
Proof.
  intros Ha Hb. unfold combine. destruct (_ || _).
  { destruct (Z.max_spec a b) as [[_ ->]|[_ ->]]; done. }
  destruct (_ || _).
  { destruct (Z.min_spec a b) as [[_ ->]|[_ ->]]; done. }
  destruct (_ =? _); apply is_int32_int32.
Qed.
Lemma combine_comm op a b : combine op a b = combine op b a.
Proof.
  unfold combine. destruct (_ || _); [lia|]. destruct (_ || _); [lia|]. destruct (_ =? _); f_equal; lia.
Qed.
Lemma int32_mul_l a b : int32 (int32 a * b) = int32 (a * b).
Proof.
  rewrite <- (int32_mod (int32 a * b)), <- (int32_mod (a * b)). f_equal.
  rewrite <- (Zmult_mod_idemp_l (int32 a)), <- (Zmult_mod_idemp_l a). do 2 f_equal.
  unfold int32. rewrite Zminus_mod_idemp_l. f_equal. lia.
Qed.
Lemma combine_assoc op a b c : combine op (combine op a b) c = combine op a (combine op b c).
Proof.
  unfold combine. destruct (_ || _); [lia|]. destruct (_ || _); [lia|].
  destruct (_ =? _).
  - rewrite int32_mul_l, (Z.mul_comm a (int32 _)), int32_mul_l. f_equal. lia.
  - rewrite int32_add_l, (Z.add_comm a (int32 _)), int32_add_l. f_equal. lia.
Qed.
(** The absolute values stay absolute values. *)
Lemma prepare_combine op a b : is_int32 a = true -> is_int32 b = true ->
  prepare op (combine op (prepare op a) (prepare op b)) = combine op (prepare op a) (prepare op b).
Proof.
  intros Ha Hb. destruct (is_abs op) eqn:E; [|unfold prepare at 1; by rewrite E].
  assert (combine op (prepare op a) (prepare op b) = prepare op a \/ combine op (prepare op a) (prepare op b) = prepare op b) as [-> | ->].
  { unfold is_abs in E. unfold combine. destruct (op =? NETD_OP_ABSMAX); cbn [orb].
    - destruct (Z.max_spec (prepare op a) (prepare op b)) as [[_ ->]|[_ ->]]; auto.
    - cbn [orb] in E. apply Z.eqb_eq in E as ->.
      change (NETD_OP_ABSMIN =? NETD_OP_MAX) with false. change (NETD_OP_ABSMIN =? NETD_OP_ABSMIN) with true. cbn [orb].
      destruct (Z.min_spec (prepare NETD_OP_ABSMIN a) (prepare NETD_OP_ABSMIN b)) as [[_ ->]|[_ ->]]; auto. }
  - by apply prepare_idem.
  - by apply prepare_idem.
Qed.

Lemma int_op_int op a b : 1 <= op <= 6 -> is_int32 a = true -> is_int32 b = true -> is_int32 (int_op op a b) = true.
Proof. intros Ho Ha Hb. rewrite int_row_meaning by done. apply combine_int; by apply prepare_int. Qed.

(** On arrays. *)
Section Arrays.
Context (op : Z) (Hop : 1 <= op <= 6).
Notation g := (zip_with (int_op op)).

Lemma arrays_closed a b : ints a -> ints b -> ints (g a b).
Proof.
  intros Ha. revert b. induction Ha as [|x a Hx _ IH]; intros b Hb; [constructor|].
  destruct Hb as [|y b Hy Hb]; [constructor|]. cbn. constructor; [by apply int_op_int|by apply IH].
Qed.
Lemma arrays_comm a b : ints a -> ints b -> g a b = g b a.
Proof.
  intros Ha. revert b. induction Ha as [|x a Hx _ IH]; intros b Hb; [by destruct b|].
  destruct Hb as [|y b Hy Hb]; [done|]. cbn. f_equal; [|by apply IH].
  rewrite !int_row_meaning by done. apply combine_comm.
Qed.
Lemma arrays_assoc a b c : ints a -> ints b -> ints c -> g (g a b) c = g a (g b c).
Proof.
  intros Ha. revert b c. induction Ha as [|x a Hx _ IH]; intros b c Hb Hc; [done|].
  destruct Hb as [|y b Hy Hb]; [done|]. destruct Hc as [|z c Hz Hc]; [done|]. cbn. f_equal; [|by apply IH].
  pose proof (int_op_int op x y Hop Hx Hy). pose proof (int_op_int op y z Hop Hy Hz).
  rewrite (int_row_meaning op (int_op op x y) z), (int_row_meaning op x (int_op op y z)), !int_row_meaning, !prepare_combine by done.
  apply combine_assoc.
Qed.

Lemma arrays_step a b : ints a -> ints b ->
  g a b = zip_with (combine op) (prepare op <$> a) (prepare op <$> b) /\ prepare op <$> g a b = g a b.
Proof.
  intros Ha. revert b. induction Ha as [|x a Hx _ IH]; intros b Hb; [done|].
  destruct Hb as [|y b Hy Hb]; [done|]. destruct (IH b Hb) as [H1 H2]. cbn. rewrite int_row_meaning by done. split.
  - f_equal. exact H1.
  - f_equal; [by apply prepare_combine|exact H2].
Qed.

Lemma fold_meaning a rest : ints a -> Forall ints rest -> prepare op <$> a = a ->
  foldl g a rest = foldl (zip_with (combine op)) a ((fun x : list Z => (prepare op <$> x : list Z)) <$> rest).
Proof.
  intros Ha Hr. revert a Ha. induction Hr as [|b rest Hb _ IH]; intros a Ha Hp; [done|]. cbn [foldl fmap list_fmap].
  destruct (arrays_step a b Ha Hb) as [H1 H2]. rewrite IH by (done || by apply arrays_closed).
  rewrite H1, Hp. done.
Qed.

(** Combining with the operator is combining what the values mean, from two arrays on. *)
Lemma total_meaning xs : Forall ints xs -> (2 <= length xs)%nat -> total g [] xs = combined op xs.
Proof.
  intros H Hl. destruct H as [|a xs Ha H]; [cbn in Hl; lia|]. destruct H as [|b xs Hb H]; [cbn in Hl; lia|].
  unfold combined. cbn [total fmap list_fmap foldl]. destruct (arrays_step a b Ha Hb) as [H1 H2].
  rewrite fold_meaning by (done || by apply arrays_closed). rewrite H1. done.
Qed.
End Arrays.

(** ** [netd_reduce] on ints *)

Lemma cube_up_spanning n root : n <= 2 ^ 30 -> 0 <= root < n ->
  SpanningTree n root (tree_up n root cube_up) (fun i => reverse (h_children (cube_tr n i root))) (tree_down n root).
Proof.
  intros Hn Hr. eapply spanning_tree_perm; [by apply cube_spanning|]. intros i Hi. apply reverse_Permutation.
Qed.

Section Reduce.
Context (DBL FLT : num) (n root op : Z) (m : nat).
Context (Hn : 1 <= n <= 2 ^ 30) (Hroot : 0 <= root < n) (Hop : 1 <= op <= 6) (Hsize : 4 * Z.of_nat m < 2 ^ 31).
Context (xs src res : Z -> list Z) (junk : Z -> list Z) (s : Z -> netd_info).
Context (Hm : forall i, 0 <= i < n -> machine n i (s i)).
Context (Hxs : forall i, 0 <= i < n -> ints (xs i) /\ length (xs i) = m).
Context (Hsrc : forall i, 0 <= i < n -> src i = int_bytes (xs i) ++ junk i).
Context (Hres : forall i, 0 <= i < n -> (4 * m <= length (res i))%nat).
Notation g := (zip_with (int_op op)).
Notation nelem := (Z.of_nat m).
Notation len := (4 * m)%nat.
Notation f := (vector_op int_num (int_op op)).

Lemma setup_int : reduce_setup DBL FLT nelem op NETD_TYPE_INT = Done (Some f, 4, 4 * nelem).
Proof.
  assert (op = 1 \/ op = 2 \/ op = 3 \/ op = 4 \/ op = 5 \/ op = 6) as Ho by lia.
  assert (int32 (nelem * 4) = 4 * nelem) as Hl.
  { rewrite int32_id; [lia|]. unfold is_int32. apply andb_true_intro. split; [apply Z.leb_le|apply Z.ltb_lt]; lia. }
  rewrite <- Hl. destruct Ho as [->|[->|[->|[->|[->| ->]]]]]; reflexivity.
Qed.

(** A valid array. *)
Definition array (l : list Z) : Prop := ints l /\ length l = m.

Lemma array_op a b : array a -> array b -> array (g a b).
Proof. intros [Ha La] [Hb Lb]. split; [by apply arrays_closed|]. rewrite length_zip_with. lia. Qed.

Lemma length_array l : array l -> length (int_bytes l) = len.
Proof. intros [_ Hl]. rewrite length_int_bytes. lia. Qed.

Lemma call_op_int a b ra rb : array a -> array b ->
  call_op f (int_bytes a ++ ra) (int_bytes b ++ rb) nelem = Done (int_bytes (g a b) ++ ra).
Proof.
  intros [Ha La] [Hb Lb]. unfold call_op, vector_op. rewrite (proj2 (Z.ltb_ge nelem 0)), Nat2Z.id, <- La by lia.
  rewrite vec_op_ints by (done || congruence). done.
Qed.

(** The source array after the reads: the last report. *)
Definition src_after (v : Z -> list Z) (sr : list Z) (froms : list Z) : list Z :=
  foldl (fun sr j => int_bytes (v j) ++ drop len sr) sr froms.

Lemma reach_read_all i s' froms c v sr acc rest stat :
  Forall (fun j => in_table s' j = true /\ j <> i) froms -> NoDup froms ->
  (forall j, j ∈ froms -> array (v j) /\ chan c j i = int_bytes (v j)) -> array acc -> (len <= length sr)%nat ->
  reach i (read_all s' f froms sr (int_bytes acc ++ rest) nelem len stat) c
    (Done (src_after v sr froms, int_bytes (foldl g acc (v <$> froms)) ++ rest, stat)) (emptied c i froms).
Proof.
  intros Hf Hnd. revert c sr acc stat. induction Hf as [|j froms [Ht Hne] Hf IH]; intros c sr acc stat Hv Ha Hl; cbn [read_all]; [constructor|].
  apply NoDup_cons in Hnd as [Hj Hnd]. destruct (Hv j) as [Hvj Hc]; [left|].
  eapply reach_bind_Done; [apply (reach_group_read s' i j sr len c (int_bytes (v j))); try done; by apply length_array|].
  cbn beta iota. rewrite call_op_int by done. cbn [mbind io_mbind io_bind]. rewrite Z.add_0_r.
  cbn [fmap list_fmap foldl src_after emptied]. apply IH; [done| |by apply array_op|].
  - intros k Hk. destruct (Hv k) as [Hvk Hck]; [by right|]. split; [done|]. rewrite chan_put_ne; [done|]. intros [= ->]. done.
  - rewrite length_app, length_array, length_drop by done. lia.
Qed.

(** The contents of the buffers: [int_bytes] of an array, then what was there. *)
Lemma length_src i : 0 <= i < n -> (len <= length (src i))%nat.
Proof. intros Hi. rewrite Hsrc, length_app, length_array by (done || by apply Hxs). lia. Qed.
Lemma memcpy_src i : 0 <= i < n -> memcpy_buf (res i) (src i) (4 * nelem) = Done (int_bytes (xs i) ++ drop len (res i)).
Proof.
  intros Hi. unfold memcpy_buf. pose proof (length_src i Hi). pose proof (Hres i Hi).
  rewrite (proj2 (Z.leb_le 0 _)), (proj2 (Z.leb_le _ (Z.of_nat (length (res i))))), (proj2 (Z.leb_le _ (Z.of_nat (length (src i))))) by lia.
  cbn [andb]. replace (Z.to_nat (4 * nelem)) with len by lia. rewrite (Hsrc i Hi), take_app_length'; [done|].
  symmetry. by apply length_array, Hxs.
Qed.

(** Over any tree. *)
Section Tree.
Context {up : Z -> Z} {children : Z -> list Z} {down : list Z} {T : SpanningTree n root up children down}.
Context (v : Z -> list Z) (Hv : tree_value (n := n) (children := children) g xs v).

Lemma value_array i : 0 <= i < n -> array (v i).
Proof.
  intros Hi. apply (tree_value_closed array g (array_op) (T := T) xs v Hv); [|done]. intros j Hj. by apply Hxs.
Qed.

(** What a machine has in the end. *)
Definition reduced (i : Z) : Z * list Z * list Z :=
  (0, src_after v (src i) (children i), int_bytes (v i) ++ drop len (res i)).

Lemma reduce_from_up i s' c up' : 0 <= i < n -> machine n i s' -> up' = (if i =? root then -1 else up i) ->
  (forall j, j ∈ children i -> chan c j i = int_bytes (v j)) ->
  reach i (reduce_from s' f (children i) up' (src i) (int_bytes (xs i) ++ drop len (res i)) nelem len) c
    (Done (reduced i)) (reported (root := root) (up := up) (children := children) (fun i => int_bytes (v i)) c i).
Proof.
  intros Hi Hs -> Hc. unfold reduce_from. pose proof (children_targets (T := T) i s' Hi Hs) as Hch.
  eapply reach_bind_Done.
  { apply (reach_read_all i s' (children i) c v (src i) (xs i) _ 0).
    - exact Hch.
    - by apply (st_once (SpanningTree := T)).
    - intros j Hj. split; [|by apply Hc]. apply value_array. apply (st_children (SpanningTree := T)) in Hj; tauto.
    - by apply Hxs.
    - by apply length_src. }
  cbn beta iota. rewrite <- (Hv i Hi). unfold write_unless_absent, reported.
  destruct (Z.eqb_spec i root) as [->|Hne]; [cbn [Z.eqb negb andb]; constructor|].
  destruct (st_up_in (T := T) i Hi Hne) as (Hun & Hui & _). rewrite (proj2 (Z.eqb_neq (up i) (-1))) by lia. cbn [negb andb].
  eapply reach_bind_Done.
  { eapply reach_bind_Done; [|constructor]. apply reach_group_write; [by apply (in_table_true n i)|done|].
    rewrite length_app, length_array by by apply value_array. lia. }
  rewrite take_app_length'; [|symmetry; by apply length_array, value_array]. constructor.
Qed.

Lemma root_value : 2 <= n -> v root = combined op (xs <$> seqZ 0 n).
Proof.
  intros Hn2.
  assert (forall i, 0 <= i < n -> ints (xs i)) as Hi by (intros i Hi; by apply Hxs).
  rewrite <- (tree_total ints g [] (arrays_closed op Hop) (arrays_comm op Hop) (arrays_assoc op Hop) (T := T) xs v Hv Hi Hroot).
  assert (Forall ints (xs <$> seqZ 0 n)) as HF.
  { apply Forall_fmap, Forall_forall. intros i Hin%elem_of_seqZ. apply Hi. lia. }
  rewrite (total_order ints g [] (arrays_closed op Hop) (arrays_comm op Hop) (arrays_assoc op Hop) _ (xs <$> seqZ 0 n)).
  - apply total_meaning; [done|done|]. rewrite length_fmap, length_seqZ. lia.
  - apply fmap_Permutation, (st_machines (SpanningTree := T)).
  - by rewrite (st_machines (SpanningTree := T)).
Qed.
End Tree.
(** The three ways. *)
Lemma prologue i {A} (k : list Z -> io A) : 0 <= i < n ->
  (memcpy_buf (res i) (src i) (4 * nelem) ≫= k) = k (int_bytes (xs i) ++ drop len (res i)).
Proof. intros Hi. by rewrite memcpy_src. Qed.

Lemma heap_hands_up v : 2 <= n -> tree_value (n := n) (children := tree_children n root (heap_children n)) g xs v ->
  hands_up (n := n) (root := root) (up := tree_up n root heap_up) (children := tree_children n root (heap_children n))
    (fun i => int_bytes (v i))
    (fun i => netd_reduce_tree DBL FLT (src i) (res i) nelem op NETD_TYPE_INT root (s i))
    (fun i => (reduced (children := tree_children n root (heap_children n)) v i, tree_made root (s i))).
Proof.
  intros Hn2 Hv i c Hi Hc. destruct (make_tree_made n i (s i) root) as (Hmk & Hg & Hm'); [by apply Hm|done|].
  pose proof (Hm i Hi) as Hmi. unfold netd_reduce_tree. rewrite setup_int. cbn [mbind io_mbind io_bind].
  rewrite (m_id _ _ _ Hmi), (m_fd _ _ _ Hmi), (m_size _ _ _ Hmi).
  rewrite (proj2 (Z.ltb_ge i 0)), (proj2 (Z.ltb_ge n 2)) by lia. cbn [Z.eqb negb orb].
  rewrite memcpy_src by done. cbn [mbind io_mbind io_bind]. rewrite Hmk. cbn [mbind io_mbind io_bind]. rewrite Hg.
  destruct (make_tree_info n i root Hroot Hi) as [Hup Hch]. rewrite Hch.
  replace (Z.to_nat (4 * nelem)) with len by lia.
  eapply (reach_bind_Done (A := Z * list Z * list Z) _ _ (fun r => Done (r, tree_made root (s i)))); [|constructor].
  apply (reduce_from_up (T := circle_tree n root Hroot heap_up (heap_children n) (heap_index_tree n)) v Hv); done.
Qed.

Lemma cube_hands_up v : 2 <= n -> tree_value (n := n) (children := fun i => reverse (h_children (cube_tr n i root))) g xs v ->
  hands_up (n := n) (root := root) (up := tree_up n root cube_up) (children := fun i => reverse (h_children (cube_tr n i root)))
    (fun i => int_bytes (v i))
    (fun i => netd_reduce_hcube DBL FLT (src i) (res i) nelem op NETD_TYPE_INT root (s i))
    (fun i => (reduced (children := fun i => reverse (h_children (cube_tr n i root))) v i, cube_made root (s i))).
Proof.
  intros Hn2 Hv i c Hi Hc. destruct (make_cube_made n i (s i) root) as (Hmk & (tr & Htr & Hg) & Hm'); [by apply Hm|lia|done|done|].
  pose proof (Hm i Hi) as Hmi. unfold netd_reduce_hcube. rewrite setup_int. cbn [mbind io_mbind io_bind].
  rewrite (m_id _ _ _ Hmi), (m_fd _ _ _ Hmi), (m_size _ _ _ Hmi).
  rewrite (proj2 (Z.ltb_ge i 0)), (proj2 (Z.ltb_ge n 2)) by lia. cbn [Z.eqb negb orb].
  rewrite memcpy_src by done. cbn [mbind io_mbind io_bind]. rewrite Hmk. cbn [mbind io_mbind io_bind]. rewrite Hg.
  destruct (cube_tr_spec n i root) as (Htr' & Hup & _ & Htk); [lia|done|done|].
  assert (cube_tr n i root = tr) as Heq by congruence. rewrite <- Heq, Htk.
  replace (Z.to_nat (4 * nelem)) with len by lia.
  eapply (reach_bind_Done (A := Z * list Z * list Z) _ _ (fun r => Done (r, cube_made root (s i)))); [|constructor].
  apply (reduce_from_up (T := cube_up_spanning n root (proj2 Hn) Hroot) v Hv); done.
Qed.

Definition reduced_simple (v : Z -> list Z) (i : Z) : Z * list Z * list Z :=
  if i =? root then reduced (children := star_children n root) v i else (0, src i, res i).

Lemma star_hands_up v : 2 <= n -> tree_value (n := n) (children := star_children n root) g xs v ->
  hands_up (n := n) (root := root) (up := star_up root) (children := star_children n root)
    (fun i => int_bytes (v i))
    (fun i => netd_reduce_simple DBL FLT (src i) (res i) nelem op NETD_TYPE_INT root (s i)) (reduced_simple v).
Proof.
  intros Hn2 Hv i c Hi Hc. pose proof (Hm i Hi) as Hmi. unfold netd_reduce_simple. rewrite setup_int. cbn [mbind io_mbind io_bind].
  rewrite (m_id _ _ _ Hmi), (m_fd _ _ _ Hmi), (m_size _ _ _ Hmi).
  rewrite (proj2 (Z.ltb_ge i 0)), (proj2 (Z.ltb_ge n 2)) by lia. cbn [Z.eqb negb orb].
  pose proof (star_tree n root Hroot) as T. pose proof (Hv i Hi) as Hvi. pose proof (children_targets (T := T) i (s i) Hi Hmi) as Hch.
  unfold reduced_simple, reported, star_children in *. replace (Z.to_nat (4 * nelem)) with len by lia.
  destruct (Z.eqb_spec i root) as [->|Hne].
  - rewrite memcpy_src by done. cbn [mbind io_mbind io_bind]. rewrite (others_all_but n s Hm) by done.
    eapply reach_bind_Done.
    { apply (reach_read_all root (s root) (all_but n root) c v (src root) (xs root) _ 0); [done|apply NoDup_all_but| |by apply Hxs|by apply length_src].
      intros j Hj. split; [|by apply Hc]. apply (value_array (T := T) v Hv). rewrite elem_of_all_but in Hj. tauto. }
    cbn beta iota. rewrite <- Hvi. unfold reduced, star_children. rewrite (Z.eqb_refl root). constructor.
  - cbn [emptied foldl]. eapply reach_bind_Done.
    { apply reach_group_write; [by apply (in_table_true n i)|done|by apply length_src]. }
    rewrite Hvi, (Hsrc i Hi), take_app_length'; [constructor|]. symmetry. by apply length_array, Hxs.
Qed.
End Reduce.

(** ** [netd_reduce] as a whole *)

Definition reduce_state (n root lr : Z) (s : netd_info) : netd_info :=
  let s := s <| reduce_last_root := root |> in
  if n <? 2 then s
  else if (n <=? REDUCE_SIMPLE_NODES) && negb (lr =? root) && negb (lr =? -1) then s
  else if n <=? REDUCE_TREE_NODES then tree_made root s else cube_made root s.

Lemma machine_reduce_root n i s root : machine n i s -> machine n i (s <| reduce_last_root := root |>).
Proof. intros [H1 H2 H3 H4 H5]. by split. Qed.

Lemma reduce_state_ok n root lr i s : n <= 2 ^ 30 -> 0 <= root < n -> 0 <= i < n -> machine n i s ->
  machine n i (reduce_state n root lr s) /\ reduce_last_root (reduce_state n root lr s) = root /\
  bcast_last_root (reduce_state n root lr s) = bcast_last_root s /\ order (reduce_state n root lr s) = order s.
Proof.
  intros Hn Hr Hi Hm. apply (machine_reduce_root _ _ _ root) in Hm. unfold reduce_state.
  destruct (n <? 2); [by split_and!|]. destruct (_ && _); [by split_and!|]. destruct (n <=? REDUCE_TREE_NODES).
  - destruct (make_tree_made n i (s <| reduce_last_root := root |>) root) as (_ & _ & H); [done|done|].
    split; [exact H|]. unfold tree_made. destruct (_ !! _); done.
  - destruct (make_cube_made n i (s <| reduce_last_root := root |>) root) as (_ & _ & H); [done|done|done|done|].
    split; [exact H|]. unfold cube_made. repeat case_match; done.
Qed.

(** What the machines bring to a reduction of [m] ints. *)
Definition brings (m : nat) (x sr re : list Z) : Prop :=
  ints x /\ length x = m /\ (exists junk, sr = int_bytes x ++ junk) /\ (4 * m <= length re)%nat.

Lemma reduce_single DBL FLT op m x sr re s : 1 <= op <= 6 -> 4 * Z.of_nat m < 2 ^ 31 -> machine 1 0 s -> brings m x sr re ->
  netd_reduce DBL FLT sr re (Z.of_nat m) op NETD_TYPE_INT 0 s =
    Done ((0, sr, int_bytes (combined op [x]) ++ drop (4 * m) re), s <| reduce_last_root := 0 |>).
Proof.
  intros Hop Hsz Hs (Hx & Hxl & [junk Hsr] & Hre). 
  pose proof (memcpy_src 1 m (fun _ => x) (fun _ => sr) (fun _ => re) (fun _ => junk)
    (fun _ _ => conj Hx Hxl) (fun _ _ => Hsr) (fun _ _ => Hre) 0 ltac:(lia)) as Hcpy. cbn beta in Hcpy.
  assert (reduce_alone DBL FLT (int_bytes x ++ drop (4 * m) re) (Z.of_nat m) op NETD_TYPE_INT =
    Done (int_bytes (combined op [x]) ++ drop (4 * m) re)) as Ha.
  { unfold reduce_alone, combined, prepare. fold (is_abs op). cbn [total fmap list_fmap].
    destruct (is_abs op) eqn:E.
    - change (table (absoptable DBL FLT) NETD_TYPE_INT) with (Done (Some netd_int_abs_op)). cbn [mbind io_mbind io_bind].
      unfold netd_int_abs_op, vector_abs. rewrite (proj2 (Z.ltb_ge _ 0)), Nat2Z.id, <- Hxl, vec_abs_ints by (done || lia).
      do 3 f_equal. apply list_fmap_ext. intros k y Hy. apply ABSVAL_int. exact (proj1 (Forall_lookup _ _) Hx k y Hy).
    - by rewrite list_fmap_id. }
  apply (machine_reduce_root _ _ _ 0) in Hs. unfold netd_reduce. change (size (s <| reduce_last_root := 0 |>)) with (size s).
  pose proof (m_size _ _ _ Hs) as Hsize. change (size (s <| reduce_last_root := 0 |>)) with (size s) in Hsize.
  rewrite Hsize. change (1 <=? REDUCE_SIMPLE_NODES) with true. change (1 <=? REDUCE_TREE_NODES) with true. cbn [andb].
  set (s1 := s <| reduce_last_root := 0 |>) in *.
  unfold netd_reduce_simple, netd_reduce_tree. rewrite !(setup_int DBL FLT op m) by done. cbn [mbind io_mbind io_bind].
  rewrite (m_id _ _ _ Hs), (m_fd _ _ _ Hs), (m_size _ _ _ Hs). cbn [Z.ltb Z.compare Z.eqb negb orb].
  change (1 <? 2) with true. cbn iota. rewrite Hcpy. cbn [mbind io_mbind io_bind]. rewrite Ha. cbn [mbind io_mbind io_bind].
  by destruct (negb _ && negb _).
Qed.

Lemma netd_reduce_collective DBL FLT n root lr op m xs src res s : 1 <= n <= 2 ^ 30 -> 0 <= root < n -> 1 <= op <= 6 ->
  4 * Z.of_nat m < 2 ^ 31 ->
  (forall i, 0 <= i < n -> machine n i (s i) /\ reduce_last_root (s i) = lr /\ brings m (xs i) (src i) (res i)) ->
  exists r, collective n (fun i => netd_reduce DBL FLT (src i) (res i) (Z.of_nat m) op NETD_TYPE_INT root (s i))
      (fun i => (r i, reduce_state n root lr (s i))) /\
    (forall i, 0 <= i < n -> exists sr re, r i = (0, sr, re) /\ (4 * m <= length re)%nat) /\
    exists sr, r root = (0, sr, int_bytes (combined op (xs <$> seqZ 0 n)) ++ drop (4 * m) (res root)).
Proof.
  intros Hn Hr Hop Hsz H. set (s1 := fun i => s i <| reduce_last_root := root |>).
  assert (Hm : forall i, 0 <= i < n -> machine n i (s1 i)) by (intros i Hi; by apply machine_reduce_root, H).
  destruct (decide (n < 2)) as [H1|H2].
  { assert (n = 1) as -> by lia. assert (root = 0) as -> by lia. destruct (H 0 Hr) as (Hm0 & Hlr & Hb).
    exists (fun _ => (0, src 0, int_bytes (combined op [xs 0]) ++ drop (4 * m) (res 0))). split; [|split].
    - eapply collective_ext; [| |apply collective_Done]; [|reflexivity]. intros i Hi. assert (i = 0) as -> by lia.
      by rewrite (reduce_single DBL FLT op m (xs 0)).
    - intros i Hi. eexists _, _. split; [done|]. rewrite length_app, length_drop. destruct Hb as (Hx & Hxl & _ & Hre).
      rewrite length_int_bytes. cbn. unfold combined. cbn [total fmap list_fmap]. rewrite length_fmap. lia.
    - by eexists. }
  assert (Hxs : forall i, 0 <= i < n -> ints (xs i) /\ length (xs i) = m) by (intros i Hi; by destruct (H i Hi) as (_ & _ & ? & ? & _)).
  assert (Hre : forall i, 0 <= i < n -> (4 * m <= length (res i))%nat) by (intros i Hi; by destruct (H i Hi) as (_ & _ & _ & _ & _ & ?)).
  assert (Hsr : forall i, 0 <= i < n -> src i = int_bytes (xs i) ++ drop (4 * m) (src i)).
  { intros i Hi. destruct (H i Hi) as (_ & _ & Hx & Hxl & [junk Hj] & _). rewrite Hj. rewrite drop_app_length'; [done|].
    by rewrite length_int_bytes, Hxl. }
  assert (Hgoal : forall (ch : Z -> list Z) up down v, SpanningTree n root up ch down ->
    tree_value (n := n) (children := ch) (zip_with (int_op op)) xs v ->
    (forall i, 0 <= i < n -> exists sr re, reduced m src res (children := ch) v i = (0, sr, re) /\ (4 * m <= length re)%nat) /\
    exists sr, reduced m src res (children := ch) v root = (0, sr, int_bytes (combined op (xs <$> seqZ 0 n)) ++ drop (4 * m) (res root))).
  { intros ch up down v T Hv. split.
    - intros i Hi. eexists _, _. split; [reflexivity|]. rewrite length_app, (length_array m); [lia|].
      by apply (value_array n root op m Hop xs Hxs (T := T) v Hv).
    - eexists. unfold reduced. rewrite (root_value n root op m Hn Hr Hop xs Hxs (T := T) v Hv); [done|lia]. }
  assert (Hx : forall i, 0 <= i < n -> netd_reduce DBL FLT (src i) (res i) (Z.of_nat m) op NETD_TYPE_INT root (s i) =
    if (n <=? REDUCE_SIMPLE_NODES) && negb (lr =? root) && negb (lr =? -1)
    then netd_reduce_simple DBL FLT (src i) (res i) (Z.of_nat m) op NETD_TYPE_INT root (s1 i) ≫= fun r => mret (r, s1 i)
    else if n <=? REDUCE_TREE_NODES then netd_reduce_tree DBL FLT (src i) (res i) (Z.of_nat m) op NETD_TYPE_INT root (s1 i)
    else netd_reduce_hcube DBL FLT (src i) (res i) (Z.of_nat m) op NETD_TYPE_INT root (s1 i)).
  { intros i Hi. unfold netd_reduce. change (size (s i <| reduce_last_root := root |>)) with (size (s i)).
    destruct (H i Hi) as (Hmi & -> & _). rewrite (m_size _ _ _ Hmi). done. }
  unfold reduce_state. rewrite (proj2 (Z.ltb_ge n 2)) by lia.
  destruct ((n <=? REDUCE_SIMPLE_NODES) && negb (lr =? root) && negb (lr =? -1)).
  - destruct (tree_value_exists (zip_with (int_op op)) (T := star_tree n root Hr) xs) as [v Hv].
    destruct (Hgoal _ _ _ v (star_tree n root Hr) Hv) as (Hg1 & sr & Hg2).
    exists (reduced_simple n root m src res v). split; [|split].
    + eapply collective_ext; [intros i Hi; symmetry; by apply Hx|reflexivity|].
      apply (collective_then n _ _ (reduced_simple n root m src res v));
        [|exact (collective_Done n (fun i => (reduced_simple n root m src res v i, s1 i)))].
      apply (up_collective (T := star_tree n root Hr) (fun i => int_bytes (v i))).
      apply (star_hands_up DBL FLT n root op m Hn Hr Hop Hsz xs src res _ s1 Hm Hxs Hsr Hre v); [lia|exact Hv].
    + intros i Hi. unfold reduced_simple. destruct (i =? root); [by apply Hg1|]. eexists _, _. split; [done|]. by apply Hre.
    + exists sr. unfold reduced_simple. by rewrite Z.eqb_refl.
  - destruct (n <=? REDUCE_TREE_NODES).
    + set (T := circle_tree n root Hr heap_up (heap_children n) (heap_index_tree n)).
      destruct (tree_value_exists (zip_with (int_op op)) (T := T) xs) as [v Hv].
      destruct (Hgoal _ _ _ v T Hv) as (Hg1 & Hg2). exists (reduced m src res (children := tree_children n root (heap_children n)) v).
      split; [|by split]. eapply collective_ext; [intros i Hi; symmetry; by apply Hx|reflexivity|].
      apply (up_collective (T := T) (fun i => int_bytes (v i))). apply (heap_hands_up DBL FLT n root op m Hn Hr Hop Hsz xs src res _ s1 Hm Hxs Hsr Hre v); [lia|exact Hv].
    + set (T := cube_up_spanning n root (proj2 Hn) Hr).
      destruct (tree_value_exists (zip_with (int_op op)) (T := T) xs) as [v Hv].
      destruct (Hgoal _ _ _ v T Hv) as (Hg1 & Hg2). exists (reduced m src res (children := fun i => reverse (h_children (cube_tr n i root))) v).
      split; [|by split]. eapply collective_ext; [intros i Hi; symmetry; by apply Hx|reflexivity|].
      apply (up_collective (T := T) (fun i => int_bytes (v i))). apply (cube_hands_up DBL FLT n root op m Hn Hr Hop Hsz xs src res _ s1 Hm Hxs Hsr Hre v); [lia|exact Hv].
Qed.
