(* ===== verification/NetdBarrier.v ===== *)
(** Allreduce and the barrier of net/netd/netd_sock_c, the properties of the
    collectives of ints, and what the tables of operators do with the other types. *)
From stdpp Require Import relations.
From S2P Require Import Prelude NetRun NetRounds NetdOp NetdGroup NetdTree NetdBcast NetdReduce.

(** ** Allreduce *)

(** The state of a machine whose collectives have both had root 0 last. *)
Definition allreduce_state (n lr lb : Z) (s : netd_info) : netd_info := bcast_state n 0 lb (reduce_state n 0 lr s).

Lemma allreduce_state_ok n lr lb i s : 1 <= n <= 2 ^ 30 -> 0 <= i < n -> machine n i s ->
  machine n i (allreduce_state n lr lb s) /\ reduce_last_root (allreduce_state n lr lb s) = 0 /\
  bcast_last_root (allreduce_state n lr lb s) = 0 /\ order (allreduce_state n lr lb s) = order s.
Proof.
  intros Hn Hi Hm. destruct (reduce_state_ok n 0 lr i s) as (Hm1 & H1 & H2 & H3); [lia|lia|done|done|].
  destruct (bcast_state_ok n 0 lb i (reduce_state n 0 lr s)) as (Hm2 & H4 & H5 & H6); [lia|lia|done|done|].
  unfold allreduce_state. split; [done|]. split; [congruence|]. split; congruence.
Qed.

Lemma netd_allreduce_collective DBL FLT n lr lb op m xs src res s : 1 <= n <= 2 ^ 30 -> 1 <= op <= 6 ->
  4 * Z.of_nat m < 2 ^ 31 ->
  (forall i, 0 <= i < n -> machine n i (s i) /\ reduce_last_root (s i) = lr /\ bcast_last_root (s i) = lb /\
    brings m (xs i) (src i) (res i)) ->
  exists sr re, collective n (fun i => netd_allreduce DBL FLT (src i) (res i) (Z.of_nat m) op NETD_TYPE_INT (s i))
    (fun i => ((0, sr i, int_bytes (combined op (xs <$> seqZ 0 n)) ++ re i), allreduce_state n lr lb (s i))).
Proof.
  intros Hn Hop Hsz H.
  destruct (netd_reduce_collective DBL FLT n 0 lr op m xs src res s) as (r & Hcol & Hr & sr0 & Hr0); [done|lia|done|done| |].
  { intros i Hi. by destruct (H i Hi) as (? & ? & ? & ?). }
  set (res1 := fun i => (r i).2). assert (Hlen : forall i, 0 <= i < n -> (4 * m <= length (res1 i))%nat).
  { intros i Hi. destruct (Hr i Hi) as (sr & re & He & Hl). unfold res1. by rewrite He. }
  assert (Hcode : forall i, 0 <= i < n -> r i = (0, (r i).1.2, res1 i)).
  { intros i Hi. destruct (Hr i Hi) as (sr & re & He & Hl). unfold res1. by rewrite He. }
  assert (Hmsg : message 0 (4 * m) res1 = int_bytes (combined op (xs <$> seqZ 0 n))).
  { unfold message, res1. rewrite Hr0. cbn [snd]. apply take_app_length'. rewrite length_int_bytes. f_equal.
    assert (forall i, 0 <= i < n -> ints (xs i) /\ length (xs i) = m) as Hxs by (intros i Hi; by destruct (H i Hi) as (_ & _ & _ & ? & ? & _)).
    assert (forall l (x : list Z), length x = m -> Forall (fun y => length y = m) l ->
      length (foldl (zip_with (combine op)) x l) = m) as Hf.
    { clear. intros l. induction l as [|y l IH]; intros x Hx Hl; [done|]. apply Forall_cons in Hl as [Hy Hl]. cbn [foldl].
      apply IH; [rewrite length_zip_with; lia|done]. }
    unfold combined. rewrite seqZ_cons by lia. cbn [fmap list_fmap total]. rewrite Hf; [done| |].
    - rewrite length_fmap. apply Hxs. lia.
    - apply Forall_fmap, Forall_fmap, Forall_forall. intros i Hi%elem_of_seqZ. cbn. rewrite length_fmap. apply Hxs. lia. }
  exists (fun i => (r i).1.2), (fun i => drop (4 * m) (res1 i)).
  assert (int32 (Z.of_nat m * 4) = 4 * Z.of_nat m) as Hl.
  { rewrite int32_id; [lia|]. unfold is_int32. apply andb_true_intro. split; [apply Z.leb_le|apply Z.ltb_lt]; lia. }
  apply (collective_ext n (fun i => netd_reduce DBL FLT (src i) (res i) (Z.of_nat m) op NETD_TYPE_INT 0 (s i) ≫=
      fun '(r, src, result, s) => netd_bcast result (4 * m) 0 s ≫=
      fun '(r', result, s) => mret ((if negb (r + r' =? 0) then -1 else 0, src, result), s)) _
    (fun i => ((0, (r i).1.2, delivered 0 (4 * m) res1 i), allreduce_state n lr lb (s i)))).
  { intros i Hi. unfold netd_allreduce. change (table dtypetable NETD_TYPE_INT) with (@Done Z 4). cbn [mbind io_mbind io_bind].
    rewrite Hl. by replace (Z.to_nat (4 * Z.of_nat m)) with (4 * m)%nat by lia. }
  { intros i Hi. unfold delivered. by rewrite Hmsg. }
  apply (collective_then n _ _ _ _ Hcol).
  apply (collective_ext n (fun i => netd_bcast (res1 i) (4 * m) 0 (reduce_state n 0 lr (s i)) ≫=
    fun '(r', result, s) => mret ((if negb (r' =? 0) then -1 else 0, (r i).1.2, result), s)) _
    (fun i => ((0, (r i).1.2, delivered 0 (4 * m) res1 i), allreduce_state n lr lb (s i)))).
  { intros i Hi. rewrite (Hcode i Hi). done. }
  { done. }
  apply (collective_then n _ _ (fun i => (0, delivered 0 (4 * m) res1 i, allreduce_state n lr lb (s i))));
    [|exact (collective_Done n (fun i => ((0, (r i).1.2, delivered 0 (4 * m) res1 i), allreduce_state n lr lb (s i))))].
  apply netd_bcast_collective; [done|lia| |done]. intros i Hi. destruct (H i Hi) as (Hm & _ & Hb & _).
  destruct (reduce_state_ok n 0 lr i (s i)) as (? & _ & ? & _); [lia|lia|done|done|]. split; [done|congruence].
Qed.

(** ** The barrier *)

Fixpoint sum (l : list Z) : Z := match l with [] => 0 | x :: l' => x + sum l' end.

Lemma combined_ones v l : is_int32 v = true -> combined NETD_OP_SUM ((fun x => [x]) <$> v :: l) = [int32 (sum (v :: l))].
Proof.
  intros Hv. unfold combined. cbn [fmap list_fmap total]. change (prepare NETD_OP_SUM v) with v. cbn [sum].
  revert v Hv. induction l as [|x l IH]; intros v Hv; cbn [fmap list_fmap foldl sum].
  - by rewrite Z.add_0_r, int32_id.
  - change (prepare NETD_OP_SUM x) with x. change (combine NETD_OP_SUM v x) with (int32 (v + x)).
    cbn [zip_with]. change (combine NETD_OP_SUM v x) with (int32 (v + x)). rewrite IH by apply is_int32_int32. rewrite int32_add_l. do 2 f_equal. lia.
Qed.

Lemma combined_numbers (o : Z -> Z) n : 1 <= n -> (forall i, 0 <= i < n -> is_int32 (o i) = true) ->
  combined NETD_OP_SUM ((fun i => [o i]) <$> seqZ 0 n) = [int32 (sum (o <$> seqZ 0 n))].
Proof.
  intros Hn Ho. rewrite (seqZ_cons 0) by lia. rewrite !fmap_cons, <- (combined_ones (o 0)) by (apply Ho; lia).
  f_equal. rewrite fmap_cons. by rewrite <- list_fmap_compose.
Qed.

Lemma netd_barrier_collective DBL FLT n (o : Z -> Z) lr lb s junk : 2 <= n <= 2 ^ 30 ->
  (forall i, 0 <= i < n -> machine n i (s i) /\ reduce_last_root (s i) = lr /\ bcast_last_root (s i) = lb /\
    order (s i) = o i /\ is_int32 (o i) = true /\ length (junk i) = 4%nat) ->
  collective n (fun i => netd_barrier DBL FLT (junk i) (s i))
    (fun i => (0, negb (int32 (sum (o <$> seqZ 0 n)) =? int32 (o i * n)),
      allreduce_state n lr lb (s i <| order := int32 (o i + 1) |>))).
Proof.
  intros Hn H. set (s1 := fun i => s i <| order := int32 (o i + 1) |>).
  assert (Hs1 : forall i, 0 <= i < n -> machine n i (s1 i)).
  { intros i Hi. destruct (H i Hi) as ([H1 H2 H3 H4 H5] & _). by split. }
  destruct (netd_allreduce_collective DBL FLT n lr lb NETD_OP_SUM 1 (fun i => [o i]) (fun i => int_bytes [o i]) junk s1)
    as (sr & re & Hcol); [lia|unfold NETD_OP_SUM; lia|lia| |].
  { intros i Hi. destruct (H i Hi) as (_ & Hlr & Hlb & _ & Ho & Hj). split; [by apply Hs1|]. split; [done|]. split; [done|].
    split; [by repeat constructor|]. split; [done|]. split; [exists []; by rewrite app_nil_r|]. rewrite Hj. lia. }
  rewrite combined_numbers in Hcol by (lia || (intros i Hi; apply H; done)). change (Z.of_nat 1) with 1 in Hcol.
  apply (collective_ext n (fun i => netd_allreduce DBL FLT (int_bytes [o i]) (junk i) 1 NETD_OP_SUM NETD_TYPE_INT (s1 i) ≫=
      fun '(_, src, result, s) => mret (0, negb (load int_num (take 4 result) =? int32 (o i * size s)), s)) _
    (fun i => (0, negb (int32 (sum (o <$> seqZ 0 n)) =? int32 (o i * n)), allreduce_state n lr lb (s1 i)))).
  { intros i Hi. destruct (H i Hi) as (Hm & _ & _ & Ho & _). unfold netd_barrier, netd_barrier0. fold (s1 i). rewrite Ho. fold (s1 i).
    pose proof (m_size _ _ _ (Hs1 i Hi)) as Hsz. rewrite Hsz, (proj2 (Z.leb_gt n 1)) by lia. rewrite io_bind_assoc. f_equal.
    apply FunctionalExtensionality.functional_extensionality. by intros [[[? ?] ?] ?]. }
  { done. }
  refine (collective_then n _ _ _ _ Hcol _).
  eapply collective_ext; [| |exact (collective_Done n (fun i => (0, negb (int32 (sum (o <$> seqZ 0 n)) =? int32 (o i * n)),
    allreduce_state n lr lb (s1 i))))]; [|done].
  intros i Hi. cbn beta iota. destruct (allreduce_state_ok n lr lb i (s1 i)) as (Hm & _); [lia|done|by apply Hs1|].
  rewrite (m_size _ _ _ Hm). rewrite take_app_length' by (by rewrite length_int_bytes). unfold int_bytes. cbn [fmap list_fmap concat]. rewrite app_nil_r.
  change (le_bytes 4) with (store int_num). rewrite load_store_int, int32_int32. done.
Qed.

Lemma sum_const (v : Z) l : sum ((fun _ : Z => v) <$> l) = v * Z.of_nat (length l).
Proof. induction l as [|x l IH]; cbn [fmap list_fmap sum length]; [lia|]. rewrite IH. lia. Qed.

Lemma sum_one_off (v w j : Z) l : NoDup l -> j ∈ l ->
  sum ((fun i => if decide (i = j) then w else v) <$> l) = v * Z.of_nat (length l) + (w - v).
Proof.
  induction l as [|x l IH]; intros Hnd Hj; [by apply not_elem_of_nil in Hj|]. apply NoDup_cons in Hnd as [Hx Hnd].
  cbn [fmap list_fmap sum length]. destruct (decide (x = j)) as [->|Hne].
  - assert ((fun i => if decide (i = j) then w else v) <$> l = (fun _ => v) <$> l) as ->.
    { apply list_fmap_ext. intros k y Hy%list_elem_of_lookup_2. rewrite decide_False; [done|]. by intros ->. }
    rewrite sum_const. lia.
  - rewrite IH by (done || by apply elem_of_cons in Hj as [|]). lia.
Qed.

(** ** Properties *)

(** (C28) A reduction of ints among machines is exact: when all [n] machines call
    [netd_reduce] on [m] ints with the same root, operator and previous root, then whatever
    the order of their moves nothing deadlocks, every call returns 0 after a bounded number
    of moves, and the result at the root holds, element by element, the values of all
    machines combined in the order of the machines, each counted once - maximum, minimum,
    product and sum modulo 2^32, and the maximum and minimum of absolute values, also for a
    single machine. Star, binary tree and hypercube give the same result. *)
Theorem netd_reduce_ints DBL FLT n root lr op m xs src res s : 1 <= n <= 2 ^ 30 -> 0 <= root < n -> 1 <= op <= 6 ->
  4 * Z.of_nat m < 2 ^ 31 ->
  (forall i, 0 <= i < n -> machine n i (s i) /\ reduce_last_root (s i) = lr /\ brings m (xs i) (src i) (res i)) ->
  exists r s', all_return n (fun i => netd_reduce DBL FLT (src i) (res i) (Z.of_nat m) op NETD_TYPE_INT root (s i))
      (fun i => (r i, s' i)) /\
    (forall i, 0 <= i < n -> (r i).1.1 = 0 /\ machine n i (s' i) /\ reduce_last_root (s' i) = root) /\
    (r root).2 = int_bytes (combined op (xs <$> seqZ 0 n)) ++ drop (4 * m) (res root).
Proof.
  intros Hn Hr Hop Hsz H. destruct (netd_reduce_collective DBL FLT n root lr op m xs src res s) as (r & Hc & Hall & sr & Hroot); try done.
  exists r, (fun i => reduce_state n root lr (s i)). split; [by apply collective_returns|]. split; [|by rewrite Hroot].
  intros i Hi. destruct (Hall i Hi) as (a & b & -> & _). destruct (H i Hi) as (Hm & _).
  destruct (reduce_state_ok n root lr i (s i)) as (? & ? & _); try done; lia.
Qed.

Lemma netd_reduce_ints_witness : exists r s',
  all_return 5 (fun i => netd_reduce int_num int_num (int_bytes [i; - i]) (int_bytes [0; 0]) 2 NETD_OP_ABSMAX NETD_TYPE_INT 3 (fresh_netd 5 i))
    (fun i => (r i, s' i)) /\
  (forall i, 0 <= i < 5 -> (r i).1.1 = 0 /\ machine 5 i (s' i) /\ reduce_last_root (s' i) = 3) /\
  (r 3).2 = int_bytes [4; 4].
Proof.
  apply (netd_reduce_ints int_num int_num 5 3 (-1) NETD_OP_ABSMAX 2 (fun i => [i; - i]) (fun i => int_bytes [i; - i])
    (fun _ => int_bytes [0; 0]) (fresh_netd 5)); [lia|lia|unfold NETD_OP_ABSMAX; lia|lia|].
  intros i Hi. split; [apply fresh_machine|]. split; [reflexivity|]. split; [|split; [reflexivity|split; [by exists []; rewrite app_nil_r|cbn; lia]]].
  assert (i = 0 \/ i = 1 \/ i = 2 \/ i = 3 \/ i = 4) as Hc by lia.
  destruct Hc as [->|[->|[->|[->| ->]]]]; repeat constructor.
Defined.

(** Allreduce gives every machine the reduction of all: the root's result is broadcast,
    and the two collectives, with no barrier between them, do not get in each other's way. *)
Theorem netd_allreduce_ints DBL FLT n lr lb op m xs src res s : 1 <= n <= 2 ^ 30 -> 1 <= op <= 6 ->
  4 * Z.of_nat m < 2 ^ 31 ->
  (forall i, 0 <= i < n -> machine n i (s i) /\ reduce_last_root (s i) = lr /\ bcast_last_root (s i) = lb /\
    brings m (xs i) (src i) (res i)) ->
  exists sr re s', all_return n (fun i => netd_allreduce DBL FLT (src i) (res i) (Z.of_nat m) op NETD_TYPE_INT (s i))
      (fun i => ((0, sr i, int_bytes (combined op (xs <$> seqZ 0 n)) ++ re i), s' i)) /\
    forall i, 0 <= i < n -> machine n i (s' i) /\ reduce_last_root (s' i) = 0 /\ bcast_last_root (s' i) = 0.
Proof.
  intros Hn Hop Hsz H. destruct (netd_allreduce_collective DBL FLT n lr lb op m xs src res s) as (sr & re & Hc); try done.
  exists sr, re, (fun i => allreduce_state n lr lb (s i)). split; [by apply collective_returns|].
  intros i Hi. destruct (H i Hi) as (Hm & _). destruct (allreduce_state_ok n lr lb i (s i)) as (? & ? & ? & _); done.
Qed.

Lemma netd_allreduce_ints_witness : exists sr re s',
  all_return 3 (fun i => netd_allreduce int_num int_num (int_bytes [2 ^ 30; i]) (int_bytes [7; 7; 7]) 2 NETD_OP_SUM NETD_TYPE_INT (fresh_netd 3 i))
    (fun i => ((0, sr i, int_bytes [- 2 ^ 30; 3] ++ re i), s' i)) /\
  forall i, 0 <= i < 3 -> machine 3 i (s' i) /\ reduce_last_root (s' i) = 0 /\ bcast_last_root (s' i) = 0.
Proof.
  apply (netd_allreduce_ints int_num int_num 3 (-1) (-1) NETD_OP_SUM 2 (fun i => [2 ^ 30; i]) (fun i => int_bytes [2 ^ 30; i])
    (fun _ => int_bytes [7; 7; 7]) (fresh_netd 3)); [lia|unfold NETD_OP_SUM; lia|lia|].
  intros i Hi. split; [apply fresh_machine|]. split; [reflexivity|]. split; [reflexivity|].
  split; [|split; [reflexivity|split; [by exists []; rewrite app_nil_r|cbn; lia]]].
  assert (i = 0 \/ i = 1 \/ i = 2) as Hc by lia. destruct Hc as [->|[->| ->]]; repeat constructor.
Defined.

(** The tables of operators and of sizes have the rows of floats and of doubles in another
    order than the constants that index them: arrays of floats ([NETD_TYPE_FLT]) are reduced
    as arrays of as many doubles, twice as long, and arrays of doubles ([NETD_TYPE_DBL]) as
    arrays of as many floats, half as long; longs are reduced as the ints they are here. *)
Theorem netd_types_swapped DBL FLT nelem op : 1 <= op <= 6 -> exists f,
  reduce_setup DBL FLT nelem op NETD_TYPE_FLT = Done (Some (vector_op DBL (f DBL)), 8, int32 (nelem * 8)) /\
  reduce_setup DBL FLT nelem op NETD_TYPE_DBL = Done (Some (vector_op FLT (f FLT)), 4, int32 (nelem * 4)) /\
  reduce_setup DBL FLT nelem op NETD_TYPE_INT = Done (Some (vector_op int_num (f int_num)), 4, int32 (nelem * 4)) /\
  reduce_setup DBL FLT nelem op NETD_TYPE_LNG = Done (Some (vector_op int_num (f int_num)), 4, int32 (nelem * 4)).
Proof.
  intros Hop. assert (op = 1 \/ op = 2 \/ op = 3 \/ op = 4 \/ op = 5 \/ op = 6) as Ho by lia.
  destruct Ho as [->|[->|[->|[->|[->| ->]]]]].
  - exists (fun N a b => MAXVAL N (ABSVAL N a) (ABSVAL N b)). by repeat split.
  - exists (fun N a b => MINVAL N (ABSVAL N a) (ABSVAL N b)). by repeat split.
  - exists MAXVAL. by repeat split.
  - exists MINVAL. by repeat split.
  - exists num_mul. by repeat split.
  - exists num_add. by repeat split.
Qed.

Lemma netd_types_swapped_witness : exists f,
  reduce_setup int_num int_num 3 NETD_OP_SUM NETD_TYPE_FLT = Done (Some (vector_op int_num (f int_num)), 8, int32 (3 * 8)) /\
  reduce_setup int_num int_num 3 NETD_OP_SUM NETD_TYPE_DBL = Done (Some (vector_op int_num (f int_num)), 4, int32 (3 * 4)) /\
  reduce_setup int_num int_num 3 NETD_OP_SUM NETD_TYPE_INT = Done (Some (vector_op int_num (f int_num)), 4, int32 (3 * 4)) /\
  reduce_setup int_num int_num 3 NETD_OP_SUM NETD_TYPE_LNG = Done (Some (vector_op int_num (f int_num)), 4, int32 (3 * 4)).
Proof. apply (netd_types_swapped int_num int_num 3 NETD_OP_SUM). unfold NETD_OP_SUM. lia. Defined.
