(* ===== verification/NetdRounds.v ===== *)
(** Barriers among machines one after the other: every machine makes any number of
    calls of [netd_barrier], and a machine that starts its next call does so while the
    others may still be in an earlier one. *)
From stdpp Require Import relations.
From S2P Require Import Prelude NetRun NetRounds NetdOp NetdGroup NetdTree NetdBcast NetdReduce NetdBarrier.

(** ** Rounds of barriers *)

Notation outcome := (Z * bool * netd_info)%type.

Section Rounds.
Context (DBL FLT : num) (n : Z) (s0 : Z -> netd_info) (junk : Z -> nat -> list Z) (o : Z).

(** Call [k] of machine [i], after what the last one came to; [junk] is on its stack. *)
Definition next_barrier (i : Z) (k : nat) (r : outcome) : io outcome := netd_barrier DBL FLT (junk i k) r.2.

Notation barriers := (rounds (fun i => (0, false, s0 i)) next_barrier).

(** The machines at the start: alike, but for their numbers. *)
Context (Hn : 2 <= n <= 2 ^ 30) (Ho : is_int32 o = true) (lr lb : Z)
  (Hs0 : forall i, 0 <= i < n -> machine n i (s0 i) /\ reduce_last_root (s0 i) = lr /\ bcast_last_root (s0 i) = lb /\ order (s0 i) = o)
  (Hjunk : forall i k, length (junk i k) = 4%nat).

Fixpoint state_after (i : Z) (k : nat) : netd_info :=
  match k with
  | O => s0 i
  | S k' => allreduce_state n (if k' is O then lr else 0) (if k' is O then lb else 0)
      (state_after i k' <| order := int32 (order (state_after i k') + 1) |>)
  end.
Definition order_after (k : nat) : Z := match k with O => o | _ => int32 (o + Z.of_nat k) end.

Lemma order_after_S k : int32 (order_after k + 1) = order_after (S k).
Proof. unfold order_after. destruct k as [|k]; [done|]. rewrite int32_add_l. f_equal. lia. Qed.

Lemma order_after_int k : is_int32 (order_after k) = true.
Proof. destruct k as [|k]; [done|apply is_int32_int32]. Qed.

Lemma state_after_ok i k : 0 <= i < n ->
  machine n i (state_after i k) /\ reduce_last_root (state_after i k) = (if k is O then lr else 0) /\
  bcast_last_root (state_after i k) = (if k is O then lb else 0) /\ order (state_after i k) = order_after k.
Proof.
  intros Hi. induction k as [|k (Hm & _ & _ & Hord)]; [by apply Hs0|]. cbn [state_after].
  set (s1 := state_after i k <| order := _ |>). assert (machine n i s1) as Hm1 by (destruct Hm as [H1 H2 H3 H4 H5]; by split).
  destruct (allreduce_state_ok n (if k is O then lr else 0) (if k is O then lb else 0) i s1) as (? & ? & ? & E); [lia|done|done|].
  split_and!; [done|done|done|]. rewrite E. change (order s1) with (int32 (order (state_after i k) + 1)). by rewrite Hord, order_after_S.
Qed.

(** A round in which machine [j] comes with another count, if there is one. *)
Definition off_by (j : option Z) (i : Z) (r : outcome) : outcome :=
  if decide (Some i = j) then (r.1, r.2 <| order := int32 (order r.2 + 1) |>) else r.
Definition odd_barrier (j : option Z) (i : Z) (k : nat) (r : outcome) : io outcome := next_barrier i k (off_by j i r).

(** The counts the machines come with, and whether machine [i] reports an error. *)
Definition count_of (j : option Z) (k : nat) (i : Z) : Z :=
  if decide (Some i = j) then int32 (order_after k + 1) else order_after k.
Definition differs (j : option Z) (k : nat) (i : Z) : bool :=
  negb (int32 (sum (count_of j k <$> seqZ 0 n)) =? int32 (count_of j k i * n)).

Lemma all_agree k i : differs None k i = false.
Proof.
  unfold differs. assert (forall i, count_of None k i = order_after k) as E by (intros m; unfold count_of; by rewrite decide_False).
  rewrite E. rewrite (list_fmap_ext (count_of None k) (fun _ => order_after k)) by (intros; apply E).
  by rewrite sum_const, length_seqZ, Z2Nat.id, Z.eqb_refl by lia.
Qed.

Lemma one_differs j k i : 0 <= j < n -> i <> j -> differs (Some j) k i = true.
Proof.
  intros Hj Hij. unfold differs. apply negb_true_iff, Z.eqb_neq. set (v := order_after k).
  assert (count_of (Some j) k i = v) as -> by (unfold count_of; rewrite decide_False; [done|congruence]).
  rewrite (list_fmap_ext (count_of (Some j) k) (fun i => if decide (i = j) then int32 (v + 1) else v)).
  2: { intros m x _. unfold count_of. fold v. destruct (decide (x = j)) as [->|]; [by rewrite decide_True|rewrite decide_False; [done|congruence]]. }
  rewrite sum_one_off, length_seqZ, Z2Nat.id by (lia || apply NoDup_seqZ || (apply elem_of_seqZ; lia)).
  replace (v * n + (int32 (v + 1) - v)) with (int32 (v + 1) + (v * n - v)) by lia. rewrite int32_add_l.
  replace (v + 1 + (v * n - v)) with (v * n + 1) by lia. unfold int32.
  pose proof (Z.div_mod (v * n + 1 + 2 ^ 31) (2 ^ 32)). pose proof (Z.div_mod (v * n + 2 ^ 31) (2 ^ 32)). lia.
Qed.

Lemma round_collective j k : exists s', collective n (fun i => odd_barrier j i k (0, false, state_after i k))
    (fun i => (0, differs j k i, s' i)) /\ (j = None -> forall i, 0 <= i < n -> s' i = state_after i (S k)).
Proof.
  set (st := fun i => (off_by j i (0, false, state_after i k)).2).
  exists (fun i => allreduce_state n (if k is O then lr else 0) (if k is O then lb else 0) (st i <| order := int32 (count_of j k i + 1) |>)). split.
  - apply (netd_barrier_collective DBL FLT n (count_of j k) (if k is O then lr else 0) (if k is O then lb else 0) st (fun i => junk i k) Hn).
    intros i Hi. destruct (state_after_ok i k Hi) as (Hm & Hlr & Hlb & Hord). unfold st, off_by, count_of.
    destruct (decide (Some i = j)) as [Hj|Hj]; cbn [fst snd].
    + split; [destruct Hm as [H1 H2 H3 H4 H5]; by split|]. split; [exact Hlr|]. split; [exact Hlb|].
      split; [cbn; by rewrite Hord|]. split; [apply is_int32_int32|apply Hjunk].
    + split_and!; try done. apply order_after_int.
  - intros -> i Hi. destruct (state_after_ok i k Hi) as (_ & _ & _ & Hord). unfold st, off_by, count_of.
    rewrite !(decide_False (P := Some i = None)) by done. cbn [state_after fst snd]. by rewrite Hord.
Qed.

Lemma odd_barrier_same w i k : Some i <> w -> odd_barrier w i k = next_barrier i k.
Proof.
  intros Hw. apply FunctionalExtensionality.functional_extensionality. intros r. unfold odd_barrier, off_by. by rewrite decide_False.
Qed.

Lemma barrier_collective k : collective n (fun i => next_barrier i k (0, false, state_after i k)) (fun i => (0, false, state_after i (S k))).
Proof.
  destruct (round_collective None k) as (s' & Hc & Hs). eapply collective_ext; [| |exact Hc].
  - intros i Hi. cbn beta. by rewrite odd_barrier_same.
  - intros i Hi. cbn beta. by rewrite (Hs eq_refl i Hi), all_agree.
Qed.

Lemma barriers_collective k : collective n (fun i => barriers i k) (fun i => (0, false, state_after i k)).
Proof. exact (rounds_collective n _ next_barrier (fun k i => (0, false, state_after i k)) (fun _ => eq_refl) barrier_collective k). Qed.

(** ** What holds a machine back *)

(** The calls begun: machine [i] has begun [c i]. A machine that has completed its call
    [S k], when no other has begun one after that, finds that all have begun it. *)
Lemma barrier_round_full k (c : Z -> nat) u i a j : (forall m, 0 <= m < n -> (c m <= S k)%nat) -> c i = S k ->
  rtc netstep (start n (fun m => barriers m (c m))) u -> 0 <= i < n -> u.1 !! i = Some (Done a) -> 0 <= j < n -> c j = S k.
Proof.
  intros Hc Hci Hrun Hi Ha Hj. destruct (decide (c j = S k)) as [|Hne]; [done|exfalso].
  assert (j <> i) as Hji by (intros ->; done). pose proof (Hc j Hj) as Hcj.
  (* what is left of the round; machine [w] comes with another count *)
  set (F := fun (w : option Z) m => if decide (m = j) then (fun r => more_rounds next_barrier m (c m) (k - c m) r ≫= odd_barrier w m k)
                                    else more_rounds next_barrier m (c m) (S k - c m)).
  assert (forall w, w = None \/ w = Some j -> forall m, 0 <= m < n -> barriers m (c m) ≫= F w m = barriers m k ≫= odd_barrier w m k) as HF.
  { intros w Hw m Hm. unfold F. destruct (decide (m = j)) as [->|Hmj].
    - rewrite <- io_bind_assoc, <- rounds_more. by replace (c j + (k - c j))%nat with k by lia.
    - rewrite <- rounds_more. pose proof (Hc m Hm). replace (c m + (S k - c m))%nat with (S k) by lia.
      rewrite odd_barrier_same; [done|]. destruct Hw as [-> | ->]; congruence. }
  assert (forall w, w = None \/ w = Some j -> exists s', a = (0, differs w k i, s')) as Hval.
  { intros w Hw. destruct (round_collective w k) as (s' & Hcol & _). exists (s' i).
    apply (returned_value n (fun m => barriers m (c m) ≫= F w m) (fun i => (0, differs w k i, s' i)) (go_on (F w) u.1, u.2) i a); [|by apply start_go_on|done|].
    - apply collective_returns. eapply collective_ext; [| |exact (collective_then n (fun i => barriers i k) (fun i => odd_barrier w i k) _ _ (barriers_collective k) Hcol)]; [|done].
      intros m Hm. symmetry. by apply HF.
    - cbn [fst]. rewrite lookup_go_on, Ha. cbn. unfold F. rewrite decide_False by done. by rewrite Hci, Nat.sub_diag. }
  destruct (Hval None (or_introl eq_refl)) as [s1 H1]. destruct (Hval (Some j) (or_intror eq_refl)) as [s2 H2].
  rewrite H1, all_agree, (one_differs j k i Hj (not_eq_sym Hji)) in H2. discriminate H2.
Qed.

Lemma barriers_go_on (c : Z -> nat) u : rtc netstep (start n (fun m => barriers m (c m))) u ->
  (exists m t, 0 <= m < n /\ fire m u = Some t) \/ (exists m a, 0 <= m < n /\ u.1 !! m = Some (Done a)).
Proof.
  exact (rounds_go_on n _ next_barrier (fun k i => (0, false, state_after i k)) (fun _ => eq_refl) barrier_collective c u ltac:(lia)).
Qed.
End Rounds.
