(* ===== verification/Netq.v ===== *)
(** The network queue of net/netd/netq.c: rank translation, message headers, sending
    and receiving data, with the calls of net/netd/netd_sock_c it makes. The sockets
    below are a log of the messages written and, per machine, the bytes that wait
    to be read. *)
From S2P Require Import Prelude Types.

Record ID_ENTRY := mkID { macID : Z; localID : Z }.

Record NETQ_HEADER := mkHeader { nh_from : Z; nh_to : Z; nh_hdrlen : Z; nh_pldlen : Z }.
#[export] Instance eta_NETQ_HEADER : Eta NETQ_HEADER :=
  MkEta _ (fun r => mkHeader (nh_from r) (nh_to r) (nh_hdrlen r) (nh_pldlen r)).

(** Bytes whose value may be indeterminate. *)
Notation obytes := (list (option Z)).

(** A request to send, as the queue of outgoing messages holds it. *)
Record SENDREQ := mkSENDREQ {
  rq_from : Z; rq_to : Z; rq_hdr : msg_body; rq_hdrlen : Z; rq_payload : obytes; rq_pldlen : Z
}.

(** A message written to the socket of a machine. *)
Record packet := mkPacket { pk_mac : Z; pk_hdr : NETQ_HEADER; pk_body : msg_body; pk_data : obytes }.

(** The pool of fixed-size items of net/netd/stackallocator_c: items on its free
    list, chunks taken and allowed, whether [malloc] refuses another chunk. *)
Record StackAllocator := mkSA { sa_free_items : Z; sa_bufIdx : Z; sa_maxBuffers : Z; sa_nomem : bool }.
#[export] Instance eta_SA : Eta StackAllocator :=
  MkEta _ (fun r => mkSA (sa_free_items r) (sa_bufIdx r) (sa_maxBuffers r) (sa_nomem r)).
Definition CHUNK_SIZE : Z := 128.

Definition sa_alloc (sa : StackAllocator) : option StackAllocator :=
  if sa_free_items sa =? 0 then
    if (sa_bufIdx sa =? sa_maxBuffers sa) || sa_nomem sa then None
    else Some (sa <| sa_free_items := CHUNK_SIZE - 1 |> <| sa_bufIdx := sa_bufIdx sa + 1 |>)
  else Some (sa <| sa_free_items := sa_free_items sa - 1 |>).
Definition sa_free (sa : StackAllocator) : StackAllocator :=
  sa <| sa_free_items := sa_free_items sa + 1 |>.

(** [netq_info], as far as it concerns ranks and sending, and [netd_info]: the number
    of machines, the number of this one, the sockets to the others ([pt2ptfd]); the
    messages written (oldest first), the bytes to be read. *)
Record netq := mkNetq {
  gTable : option (list ID_ENTRY);
  gTableSize : Z;
  lTable : option (list Z);
  lTableSize : Z;
  isSingleMode : bool;
  movout_down : bool;
  outq : list SENDREQ;
  qalloc : StackAllocator;
  netd_size : Z;
  netd_myid : Z;
  pt2ptfd : option (list Z);
  sent : list packet;
  inbox : gmap Z obytes
}.
#[export] Instance eta_netq : Eta netq := MkEta _ (fun r =>
  mkNetq (gTable r) (gTableSize r) (lTable r) (lTableSize r) (isSingleMode r) (movout_down r)
    (outq r) (qalloc r) (netd_size r) (netd_myid r) (pt2ptfd r) (sent r) (inbox r)).

#[local] Notation M := (Prelude.M netq).

Definition NETQ_BLK : Z := 1.
Definition NETQ_NBLK : Z := 2.

(** ** Rank translation *)

Definition table_get {A} (t : list A) (i : Z) : M A :=
  if i <? 0 then fault else or_fault (t !! Z.to_nat i).

(** The result code and what is stored through the pointer argument. *)
Definition netq_getMacID (grank : Z) : M (Z * option Z) :=
  q ← get;
  if gTableSize q =? -1 then mret (-1, None)
  else if (grank <? 0) || (grank >=? gTableSize q) then mret (-1, None)
  else match gTable q with
       | Some t => e ← table_get t grank; mret (0, Some (macID e))
       | None => mret (-1, None)
       end.

Definition netq_transGlobalRank (grank : Z) : M (Z * option ID_ENTRY) :=
  q ← get;
  if gTableSize q =? -1 then mret (-1, None)
  else if (grank <? 0) || (grank >=? gTableSize q) then mret (-1, None)
  else match gTable q with
       | Some t => e ← table_get t grank; mret (0, Some (mkID (macID e) (localID e)))
       | None => mret (-1, None)
       end.

(** The loop over the table from index [i], [n] entries left. *)
Fixpoint find_rank (t : list ID_ENTRY) (id_entry : ID_ENTRY) (i : Z) (n : nat) : M (Z * option Z) :=
  match n with
  | O => mret (-1, None)
  | S n' =>
      e ← table_get t i;
      if (macID e =? macID id_entry) && (localID e =? localID id_entry)
      then mret (0, Some i)
      else find_rank t id_entry (i + 1) n'
  end.
Definition netq_findGlobalRank (id_entry : ID_ENTRY) : M (Z * option Z) :=
  q ← get;
  match gTable q with
  | Some t => find_rank t id_entry 0 (Z.to_nat (gTableSize q))
  | None => mret (-1, None)
  end.

Definition netq_transLocalRank (lrank : Z) : M (Z * option Z) :=
  q ← get;
  if lTableSize q =? -1 then mret (-1, None)
  else if (lrank <? 0) || (lrank >=? lTableSize q) then mret (-1, None)
  else match lTable q with
       | Some t => g ← table_get t lrank; mret (0, Some g)
       | None => mret (-1, None)
       end.

Definition netq_getLocalMacID : M Z := gets netd_myid.

Definition netq_isLocalNode (grank : Z) : M bool :=
  r ← netq_transGlobalRank grank;
  match r with
  | (ret, Some id_entry) =>
      if ret <? 0 then mret false
      else me ← netq_getLocalMacID; mret (macID id_entry =? me)
  | (_, None) => mret false
  end.

Definition netq_getLocalSize : M Z := gets lTableSize.
Definition netq_getGlobalSize : M Z := gets gTableSize.

(** ** Headers *)

Definition netq_fillFromAddr (from : Z) (hdr : NETQ_HEADER) (len : Z) : NETQ_HEADER :=
  if len <? sizeof_NETQ_HEADER then hdr else hdr <| nh_from := from |>.
Definition netq_fillToAddr (to : Z) (hdr : NETQ_HEADER) (len : Z) : NETQ_HEADER :=
  if len <? sizeof_NETQ_HEADER then hdr else hdr <| nh_to := to |>.
Definition netq_fillHeaderSize (hdrsize : Z) (hdr : NETQ_HEADER) (len : Z) : NETQ_HEADER :=
  if len <? sizeof_NETQ_HEADER then hdr else hdr <| nh_hdrlen := hdrsize |>.
Definition netq_fillPayloadSize (ploadsize : Z) (hdr : NETQ_HEADER) (len : Z) : NETQ_HEADER :=
  if len <? sizeof_NETQ_HEADER then hdr else hdr <| nh_pldlen := ploadsize |>.
Definition netq_getFromAddr (hdr : NETQ_HEADER) (len : Z) : Z :=
  if len <? sizeof_NETQ_HEADER then -1 else nh_from hdr.
Definition netq_getToAddr (hdr : NETQ_HEADER) (len : Z) : Z :=
  if len <? sizeof_NETQ_HEADER then -1 else nh_to hdr.
Definition netq_getHeaderSize (hdr : NETQ_HEADER) (len : Z) : Z :=
  if len <? sizeof_NETQ_HEADER then -1 else nh_hdrlen hdr.
Definition netq_getPayloadSize (hdr : NETQ_HEADER) (len : Z) : Z :=
  if len <? sizeof_NETQ_HEADER then -1 else nh_pldlen hdr.

(** ** Sending and receiving *)

(** The header of a message before it is filled: whatever its memory held. *)
Definition raw_header : NETQ_HEADER := mkHeader (-1) (-1) (-1) (-1).

(** The default handlers fill the header of the request. *)
Definition fill_header (from to hdrlen pldlen : Z) : NETQ_HEADER :=
  netq_fillPayloadSize pldlen
    (netq_fillHeaderSize hdrlen
      (netq_fillToAddr to (netq_fillFromAddr from raw_header hdrlen) hdrlen) hdrlen) hdrlen.

(** The socket to a machine, or -1 when there is none. *)
Definition pt2pt_fd (mac : Z) : M Z :=
  q ← get;
  match pt2ptfd q with
  | None => mret (-1)
  | Some fds => if (mac <? 0) || (mac >=? netd_size q) then mret (-1) else table_get fds mac
  end.

(** A write to a connected socket takes the whole message. *)
Definition netd_sendmsgdat (p : packet) : M Z :=
  fd ← pt2pt_fd (pk_mac p);
  if fd =? -1 then mret (-1)
  else modify (fun q => q <| sent := sent q ++ [p] |>);; mret 0.
Definition netd_sendmsg (mac : Z) (hdr : NETQ_HEADER) (body : msg_body) : M Z :=
  netd_sendmsgdat (mkPacket mac hdr body []).

(** The mutex of the machine is held around the device's call only. *)
Definition netq_real_send (req : SENDREQ) : M Z :=
  if rq_hdrlen req <=? 0 then mret 0
  else
    r ← netq_transGlobalRank (rq_to req);
    match r with
    | (_, None) => fault
    | (_, Some id_entry) =>
        let real_to := macID id_entry in
        let h := fill_header (rq_from req) (rq_to req) (rq_hdrlen req) (rq_pldlen req) in
        if rq_pldlen req <=? 0
        then netd_sendmsg real_to h (rq_hdr req)
        else netd_sendmsgdat (mkPacket real_to h (rq_hdr req) (rq_payload req))
    end.

(** [payload] are the [pldlen] bytes the payload pointer designates. The bounded
    buffer [outq] is a list here: the call that would block on a full one is taken to
    go on when there is room. *)
Definition netq_send (from to : Z) (hdr : msg_body) (hdrlen : Z) (payload : obytes) (pldlen mode : Z) : M Z :=
  q ← get;
  match sa_alloc (qalloc q) with
  | None => mret (-1)
  | Some sa =>
      modify (fun q => q <| qalloc := sa |>);;
      let req := mkSENDREQ from to hdr hdrlen payload pldlen in
      if negb (isSingleMode q) && (mode =? NETQ_NBLK) then
        if movout_down q then mret (-1)
        else modify (fun q => q <| outq := outq q ++ [req] |>);; mret 0
      else
        ret ← netq_real_send req;
        modify (fun q => q <| qalloc := sa_free (qalloc q) |>);;
        mret ret
  end.

(** The device hands over exactly [len] bytes, and hangs when there are fewer; the
    result code and the bytes stored. *)
Definition netd_recvdat (mac len : Z) : M (Z * obytes) :=
  fd ← pt2pt_fd mac;
  if fd =? -1 then mret (-1, [])
  else
    q ← get;
    let bs := default [] (inbox q !! mac) in
    let n := Z.to_nat len in
    if (n <=? length bs)%nat
    then modify (fun q => q <| inbox := <[mac := drop n bs]> (inbox q) |>);; mret (0, take n bs)
    else stuck.

(** The result code and the bytes stored at the data pointer. *)
Definition netq_recvdata (from len : Z) : M (Z * obytes) :=
  r ← netq_getMacID from;
  match r with
  | (ret, Some realfrom) =>
      if negb (ret =? 0) then mret (-1, [])
      else netd_recvdat realfrom len
  | (_, None) => mret (-1, [])
  end.
