(* ===== verification/StackAlloc.v ===== *)
(** The pool of items of equal size of net/netd/stackallocator_c, from which the requests
    of the network queue come: a list of free items, and the blocks that were cut into
    items. The mutex is given up while a new block is cut, so a call of [sa_alloc] is up
    to three steps, between which other threads call. What [malloc] returns is an
    argument. *)
From stdpp Require Import relations.
From S2P Require Import Prelude HandleLists Types Netq.

Open Scope Z_scope.

(** ** The code *)

(** [buffers] is the table from [calloc], of [maxBuffers] places. *)
Record StackAllocator := mkSAlloc { first : Z; bufIdx : Z; buffers : list Z; maxBuffers : Z; sa_size : Z }.
#[export] Instance eta_StackAllocator : Eta StackAllocator :=
  MkEta _ (fun r => mkSAlloc (first r) (bufIdx r) (buffers r) (maxBuffers r) (sa_size r)).

(** The [next] of the items by address, and the blocks [malloc] has given with their
    sizes. *)
Record pool := mkPool { sa : StackAllocator; next : gmap Z Z; heap : gmap Z Z }.
#[export] Instance eta_pool : Eta pool := MkEta _ (fun r => mkPool (sa r) (next r) (heap r)).
#[local] Notation M := (Prelude.M pool).

(** [mutex] and [table]: whether there are a mutex and memory for the table. *)
Definition sa_init (mutex table : bool) (sz max_items : Z) : Z * option StackAllocator :=
  if negb mutex then (-1, None)
  else
    let max_items := if max_items <=? 0 then 1 else max_items in
    let n := cdiv (int32 (max_items + CHUNK_SIZE - 1)) CHUNK_SIZE in
    if negb table then (-1, None)
    else (0, Some (mkSAlloc NULL 0 (replicate (Z.to_nat n) 0) n (if sz <? 8 then 8 else cdiv (int32 (sz + 7)) 8 * 8))).

(** [free(block)] *)
Definition free_block (b : Z) : M unit :=
  w ← get; _ ← or_fault (heap w !! b); modify (fun w => w <| heap := delete b (heap w) |>).

Fixpoint free_from (bs : list Z) : M unit :=
  match bs with
  | [] => mret tt
  | b :: bs' => (if negb (b =? NULL) then free_block b else mret tt);; free_from bs'
  end.
Definition sa_destroy : M Z :=
  w ← get;
  if Z.of_nat (length (buffers (sa w))) <? bufIdx (sa w) then fault
  else free_from (take (Z.to_nat (bufIdx (sa w))) (buffers (sa w)));; mret 0.

(** The first critical section of [sa_alloc]: returned, or to go on with a new block. [locked]:
    whether the mutex was locked; [p]: what [malloc] returns. *)
Inductive begun := Returned (item : Z) | Fresh (block : Z).
Definition alloc_begin (locked : bool) (p : Z) : M begun :=
  if negb locked then mret (Returned NULL)
  else
    w ← get;
    if first (sa w) =? NULL then
      if bufIdx (sa w) =? maxBuffers (sa w) then mret (Returned NULL)
      else if p =? NULL then mret (Returned NULL)
      else modify (fun w => w <| heap := <[p := int32 (sa_size (sa w) * CHUNK_SIZE)]> (heap w) |>);; mret (Fresh p)
    else
      let item := first (sa w) in
      n ← or_fault (next w !! item);
      modify (fun w => w <| sa := sa w <| first := n |> |>);;
      mret (Returned item).

(** The loop that links the items of a block, [k] turns left: the last item. *)
Fixpoint carve (sz : Z) (k : nat) (p : Z) (m : gmap Z Z) : gmap Z Z * Z :=
  match k with O => (m, p) | S k' => carve sz k' (p + sz) (<[p := p + sz]> m) end.
Definition carve_block (block : Z) : M Z :=
  w ← get;
  let r := carve (sa_size (sa w)) (Z.to_nat (CHUNK_SIZE - 1)) block (next w) in
  modify (fun w => w <| next := fst r |>);; mret (snd r).

(** The second critical section; [end_item] is the last item of the block. *)
Definition alloc_link (locked : bool) (block end_item : Z) : M Z :=
  if negb locked then free_block block;; mret NULL
  else
    w ← get;
    let i := bufIdx (sa w) in
    if (i <? 0) || (Z.of_nat (length (buffers (sa w))) <=? i) then fault
    else
      modify (fun w => w <| sa := sa w <| buffers := <[Z.to_nat i := block]> (buffers (sa w)) |> <| bufIdx := i + 1 |> |>
                         <| next := <[end_item := first (sa w)]> (next w) |>);;
      w ← get;
      n ← or_fault (next w !! block);
      modify (fun w => w <| sa := sa w <| first := n |> |>);;
      mret block.

(** A call that no other thread's call comes between. *)
Definition sa_alloc (lock1 lock2 : bool) (p : Z) : M Z :=
  r ← alloc_begin lock1 p;
  match r with
  | Returned item => mret item
  | Fresh block => end_item ← carve_block block; alloc_link lock2 block end_item
  end.

Definition sa_free (locked : bool) (item : Z) : M Z :=
  if negb locked then mret (-1)
  else
    w ← get;
    _ ← or_fault (next w !! item);
    modify (fun w => w <| next := <[item := first (sa w)]> (next w) |> <| sa := sa w <| first := item |> |>);;
    mret 0.

(** The blocks [0..idx) of the table. *)
Definition sa_checkone (addr : Z) (bufs : list Z) (bufsize sz : Z) : Z :=
  if existsb (fun b => (b <=? addr) && (addr <=? b + bufsize - sz) && (cmod (addr - b) sz =? 0)) bufs then 0 else -1.

Fixpoint check_from (fuel : nat) (w : pool) (bufs : list Z) (item count : Z) : M Z :=
  match fuel with
  | O => stuck
  | S fuel' =>
      if item =? NULL
      then mret (if negb (count =? CHUNK_SIZE * bufIdx (sa w)) then 1 else 0)
      else if negb (sa_checkone item bufs (CHUNK_SIZE * sa_size (sa w)) (sa_size (sa w)) =? 0) then mret item
      else n ← or_fault (next w !! item); check_from fuel' w bufs n (count + 1)
  end.
Definition sa_check : M Z :=
  w ← get;
  check_from (S (size (next w))) w (take (Z.to_nat (bufIdx (sa w))) (buffers (sa w))) (first (sa w)) 0.

(** ** Threads *)

(** Outside of [sa_alloc], or in it with a new block, which is cut or not. *)
Inductive thread := Idle | Carves (block : Z) | Links (block end_item : Z).

(** The pool, the threads, and the items that were handed out and not given back. *)
Definition system : Type := pool * list thread * list Z.

(** What malloc(3) documents: NULL, or a block that overlaps no other. *)
Definition malloc_ok (p n : Z) (h : gmap Z Z) : Prop :=
  p = NULL \/ 0 < p /\ forall q k, h !! q = Some k -> p + n <= q \/ q + k <= p.

Definition holds_item (a : Z) (used : list Z) : list Z := if a =? NULL then used else a :: used.

Inductive sa_step : system -> system -> Prop :=
  | step_return t w w' ts used locked p item : ts !! t = Some Idle ->
      malloc_ok p (int32 (sa_size (sa w) * CHUNK_SIZE)) (heap w) -> alloc_begin locked p w = Ret (Returned item) w' ->
      sa_step (w, ts, used) (w', ts, holds_item item used)
  | step_fresh t w w' ts used locked p block : ts !! t = Some Idle ->
      malloc_ok p (int32 (sa_size (sa w) * CHUNK_SIZE)) (heap w) -> alloc_begin locked p w = Ret (Fresh block) w' ->
      sa_step (w, ts, used) (w', <[t := Carves block]> ts, used)
  | step_carve t w w' ts used block end_item : ts !! t = Some (Carves block) -> carve_block block w = Ret end_item w' ->
      sa_step (w, ts, used) (w', <[t := Links block end_item]> ts, used)
  | step_link t w w' ts used locked block end_item item : ts !! t = Some (Links block end_item) ->
      alloc_link locked block end_item w = Ret item w' ->
      sa_step (w, ts, used) (w', <[t := Idle]> ts, holds_item item used)
  | step_free t w w' ts used locked item r : ts !! t = Some Idle -> item ∈ used -> sa_free locked item w = Ret r w' ->
      sa_step (w, ts, used) (w', ts, if r =? 0 then filter (.≠ item) used else used)
  | step_write w ts used item v : item ∈ used -> sa_step (w, ts, used) (w <| next := <[item := v]> (next w) |>, ts, used)
.

(** [n] threads, and the pool as [sa_init] makes it. *)
Definition sa_start (sz max_items : Z) (n : nat) (s : system) : Prop :=
  exists a, sa_init true true sz max_items = (0, Some a) /\ s = (mkPool a ∅ ∅, replicate n Idle, []).
Definition sa_reachable (sz max_items : Z) (n : nat) (s : system) : Prop :=
  exists s0, sa_start sz max_items n s0 /\ rtc sa_step s0 s.

(** ** The invariant *)

Section Invariant.
Context (sz : Z) (Hsz : 0 < sz <= 2 ^ 24 - 8).

(** The link of an item is its first word. *)
#[local] Instance item_link : Handle Z := { next_of x := x; linked_to e := e; sizeof_handle := sz }.
#[local] Instance item_link_laws : HandleLaws Z.
Proof. split; [done|exact (proj1 Hsz)]. Qed.

Definition items_of (b : Z) : list Z := block_handles Z 128 b.
Definition block_bytes : Z := sz * CHUNK_SIZE.

Lemma block_int32 : int32 (sz * CHUNK_SIZE) = block_bytes.
Proof. unfold int32, block_bytes, CHUNK_SIZE. rewrite Z.mod_small by lia. lia. Qed.

Definition block_of (th : thread) : list Z := match th with Idle => [] | Carves b | Links b _ => [b] end.

(** The free items are [l], the blocks of the table [bl]. *)
Record inv (w : pool) (ts : list thread) (used l bl : list Z) : Prop := Inv {
  i_size : sa_size (sa w) = sz;
  i_free : chain (next w) (first (sa w)) l;
  i_items : l ++ used ≡ₚ bl ≫= items_of;
  i_linked : Forall (fun a => is_Some (next w !! a)) used;
  i_idx : bufIdx (sa w) = Z.of_nat (length bl);
  i_table : take (length bl) (buffers (sa w)) = bl;
  i_max : Z.of_nat (length (buffers (sa w))) = maxBuffers (sa w);
  i_blocks : forall b, is_Some (heap w !! b) <-> b ∈ bl ++ (ts ≫= block_of);
  i_heap : forall b k, heap w !! b = Some k -> 0 < b /\ k = block_bytes;
  i_nodup : NoDup (bl ++ (ts ≫= block_of));
  i_apart : forall b c k n, heap w !! b = Some k -> heap w !! c = Some n -> b <> c -> b + k <= c \/ c + n <= b;
  i_carved : forall t b z, ts !! t = Some (Links b z) ->
    z = b + 127 * sz /\ forall x, linked (<[z := x]> (next w)) b z 128
}.

Lemma in_items a b : a ∈ items_of b -> exists k, 0 <= k < 128 /\ a = b + k * sz.
Proof.
  unfold items_of. change 128 with (Z.of_nat 128). generalize 128%nat. intros n. revert b. induction n as [|n IH]; intros b H; [by apply not_elem_of_nil in H|].
  cbn in H. apply elem_of_cons in H as [->|H]; [exists 0; lia|]. apply IH in H as (k & Hk & ->). exists (k + 1). split; [lia|]. cbn. lia.
Qed.

Lemma item_in_block a b : a ∈ items_of b -> b <= a /\ a + sz <= b + block_bytes.
Proof. intros H. apply in_items in H as (k & Hk & ->). unfold block_bytes, CHUNK_SIZE. nia. Qed.

Lemma items_cons b bl : (b :: bl) ≫= items_of = items_of b ++ (bl ≫= items_of).
Proof. done. Qed.

Lemma bind_items_nodup bl : NoDup bl -> (forall b c, b ∈ bl -> c ∈ bl -> b <> c -> b + block_bytes <= c \/ c + block_bytes <= b) ->
  NoDup (bl ≫= items_of).
Proof.
  induction bl as [|b bl IH]; intros Hn Ha; [constructor|]. rewrite items_cons. apply NoDup_cons in Hn as [Hb Hn]. apply NoDup_app. split_and!.
  - apply NoDup_block.
  - intros a H1 H2. apply list_elem_of_bind in H2 as (c & H2 & Hc). apply item_in_block in H1, H2.
    destruct (Ha b c) as [|]; [by left|by right|by intros ->|..]; lia.
  - apply IH; [done|]. intros x y Hx Hy. apply Ha; by right.
Qed.

Section Facts.
Context {w : pool} {ts : list thread} {used l bl : list Z} (HI : inv w ts used l bl).

Lemma block_in b : b ∈ bl ++ (ts ≫= block_of) -> heap w !! b = Some block_bytes /\ 0 < b.
Proof. intros H. apply (i_blocks _ _ _ _ _ HI) in H as [k Hk]. destruct (i_heap _ _ _ _ _ HI b k Hk) as [Hb ->]. done. Qed.

Lemma blocks_apart b c : b ∈ bl ++ (ts ≫= block_of) -> c ∈ bl ++ (ts ≫= block_of) -> b <> c ->
  b + block_bytes <= c \/ c + block_bytes <= b.
Proof. intros Hb Hc. apply block_in in Hb as [Hb _], Hc as [Hc _]. by apply (i_apart _ _ _ _ _ HI). Qed.

Lemma items_nodup : NoDup (l ++ used).
Proof.
  rewrite (i_items _ _ _ _ _ HI). pose proof (i_nodup _ _ _ _ _ HI) as Hn. apply bind_items_nodup.
  - by apply NoDup_app in Hn as (? & _).
  - intros b c Hb Hc. apply blocks_apart; apply elem_of_app; by left.
Qed.

Lemma item_block a : a ∈ l ++ used -> exists b, b ∈ bl /\ a ∈ items_of b.
Proof. rewrite (i_items _ _ _ _ _ HI). intros H. apply list_elem_of_bind in H as (b & H & Hb). by exists b. Qed.

Lemma item_pos a : a ∈ l ++ used -> 0 < a.
Proof.
  intros H. apply item_block in H as (b & Hb & Ha). apply item_in_block in Ha. destruct (block_in b) as [_ ?]; [apply elem_of_app; by left|]. lia.
Qed.

(** An item of a block that is not in the table yet is no item of the pool. *)
Lemma fresh_not_item b a c : b ∈ ts ≫= block_of -> a ∈ items_of b -> c ∈ l ++ used -> a <> c.
Proof.
  intros Hb Ha Hc ->. apply item_block in Hc as (b' & Hb' & Hc). apply item_in_block in Ha, Hc.
  pose proof (i_nodup _ _ _ _ _ HI) as Hn. destruct (blocks_apart b b') as [|]; [apply elem_of_app; by right|apply elem_of_app; by left| |lia..].
  by eapply not_eq_sym, NoDup_app_ne.
Qed.

Lemma used_no_free a : a ∈ used -> a ∉ l.
Proof. intros Ha Hl. pose proof items_nodup as H. apply NoDup_app in H as (_ & H & _). by apply (H a). Qed.

Lemma first_null : first (sa w) = NULL <-> l = [].
Proof.
  pose proof (i_free _ _ _ _ _ HI) as H. pose proof item_pos as Hp. revert H Hp. generalize l. intros [|a l'] H Hp; cbn in H; [by split|].
  destruct H as (-> & _). split; [|done]. intros Hz. specialize (Hp a ltac:(apply elem_of_app; left; by left)). unfold NULL in Hz. lia.
Qed.
End Facts.

(** ** Every step keeps the invariant *)

Lemma carve_links k b m : exists m', carve sz k b m = (m', b + Z.of_nat k * sz) /\
  (forall a, a ∉ block_handles Z k b -> m' !! a = m !! a) /\
  forall x, linked (<[b + Z.of_nat k * sz := x]> m') b (b + Z.of_nat k * sz) (S k).
Proof.
  revert b m. induction k as [|k IH]; intros b m.
  - exists m. split; [cbn; f_equal; lia|]. split; [done|]. intros x. split; [lia|]. exists x.
    rewrite Z.mul_0_l, Z.add_0_r. apply lookup_insert_eq.
  - destruct (IH (b + sz) (<[b := b + sz]> m)) as (m' & He & Hf & Hl). exists m'.
    replace (b + Z.of_nat (S k) * sz) with (b + sz + Z.of_nat k * sz) by lia. split; [exact He|].
    assert (b ∉ block_handles Z k (b + sz)) as Hb by (intros H; apply elem_of_block in H; lia). split.
    + intros a Ha. cbn [block_handles] in Ha. apply not_elem_of_cons in Ha as [Hab Ha]. rewrite (Hf a Ha). by apply lookup_insert_ne.
    + intros x. split; [|exact (Hl x)]. exists (b + sz). split; [|done]. rewrite lookup_insert_ne by nia. rewrite (Hf b Hb). apply lookup_insert_eq.
Qed.

Lemma linked_frame_items m m' b z : (forall a, a ∈ items_of b -> m' !! a = m !! a) ->
  (forall x, linked (<[z := x]> m) b z 128) -> forall x, linked (<[z := x]> m') b z 128.
Proof.
  intros Hm Hl x. apply (handles_linked_frame (<[z := x]> m)); [|apply Hl]. intros a Ha.
  destruct (decide (a = z)) as [->|Hne]; [by rewrite !lookup_insert_eq|]. rewrite !lookup_insert_ne by done. by apply Hm.
Qed.

(** The items in use and the free ones are as they were: what a thread is doing changes. *)
Lemma inv_thread w ts used l bl t th th' : inv w ts used l bl -> ts !! t = Some th -> block_of th' = block_of th ->
  (forall b z, th' = Links b z -> z = b + 127 * sz /\ forall x, linked (<[z := x]> (next w)) b z 128) ->
  inv w (<[t := th']> ts) used l bl.
Proof.
  intros [] Ht Hb Hl. pose proof (bind_insert_same block_of ts t th th' Ht Hb) as He. split; try rewrite He; try done.
  intros u b z Hu. apply list_lookup_insert_Some in Hu as [(<- & Hth & _)|[_ Hu]]; [by apply Hl|by apply (i_carved0 u)].
Qed.

(** Words outside of the free items and of the blocks of threads may change. *)
Lemma inv_write w ts used l bl m : inv w ts used l bl ->
  (forall a, a ∈ l -> m !! a = next w !! a) -> Forall (fun a => is_Some (m !! a)) used ->
  (forall t b z a, ts !! t = Some (Links b z) -> a ∈ items_of b -> m !! a = next w !! a) ->
  inv (w <| next := m |>) ts used l bl.
Proof.
  intros [] Hl Hu Hb. split; try done.
  - by eapply chain_frame.
  - intros t b z Ht. destruct (i_carved0 t b z Ht) as [Hz Hk]. split; [done|]. apply (linked_frame_items (next w)); [|done].
    intros a Ha. by apply (Hb t b z).
Qed.

Lemma begin_spec w ts used l bl locked p : inv w ts used l bl -> malloc_ok p block_bytes (heap w) ->
  exists r w', alloc_begin locked p w = Ret r w' /\ next w' = next w /\
    match r with
    | Returned item =>
        item = NULL /\ w' = w /\ (locked = false \/ l = [] /\ (Z.of_nat (length bl) = maxBuffers (sa w) \/ p = NULL)) \/
        exists l', l = item :: l' /\ item <> NULL /\ inv w' ts (item :: used) l' bl /\ maxBuffers (sa w') = maxBuffers (sa w)
    | Fresh b => b = p /\ l = [] /\ b <> NULL /\ Z.of_nat (length bl) <> maxBuffers (sa w) /\ sa w' = sa w /\
        forall t, ts !! t = Some Idle -> inv w' (<[t := Carves b]> ts) used l bl
    end.
Proof.
  intros HI Hp. unfold alloc_begin. destruct locked; cbn [negb]; [|exists (Returned NULL), w; split; [done|]; split; [done|]; left; auto].
  mrun. pose proof (first_null HI) as Hnull.
  destruct (Z.eqb_spec (first (sa w)) NULL) as [Hf|Hf].
  - apply Hnull in Hf. rewrite (i_idx _ _ _ _ _ HI). destruct (Z.eqb_spec (Z.of_nat (length bl)) (maxBuffers (sa w))) as [Hm|Hm];
      [exists (Returned NULL), w; split; [done|]; split; [done|]; left; by auto 10|].
    destruct (Z.eqb_spec p NULL) as [->|Hpn]; [exists (Returned NULL), w; split; [done|]; split; [done|]; left; by auto 10|].
    eexists (Fresh p), _. split; [reflexivity|]. split; [done|]. split; [done|]. split; [done|]. split; [done|]. split; [done|]. split; [done|].
    intros t Ht. destruct Hp as [|[Hp0 Hp]]; [done|]. pose proof (bind_insert block_of ts t Idle (Carves p) Ht) as Hperm. cbn [block_of] in Hperm.
    rewrite app_nil_r in Hperm. assert (heap w !! p = None) as Hfresh.
    { destruct (heap w !! p) as [k|] eqn:E; [|done]. destruct (i_heap _ _ _ _ _ HI p k E) as [_ ->]. destruct (Hp p _ E); unfold block_bytes, CHUNK_SIZE in *; lia. }
    assert (p ∉ bl ++ (ts ≫= block_of)) as Hnew by (intros H; apply (i_blocks _ _ _ _ _ HI) in H as [k H]; congruence).
    destruct HI. split; cbn [sa next heap upd]; try done.
    + intros b. rewrite Hperm, app_assoc. rewrite elem_of_app, list_elem_of_singleton. rewrite <- (i_blocks0 b), lookup_insert_is_Some.
      split; [intros [->|[_ H]]; [by right|by left]|intros [H| ->]; [|by left]; right; split; [|done]]. intros ->. destruct H as [? H]. congruence.
    + intros b k. rewrite i_size0, block_int32. intros H. apply lookup_insert_Some in H as [[<- <-]|[_ H]]; [split; [done|reflexivity]|by apply i_heap0].
    + rewrite Hperm, app_assoc, (Permutation_app_comm _ [p]). cbn. by constructor.
    + intros b c k n. rewrite i_size0, block_int32. intros Hb Hc Hne.
      apply lookup_insert_Some in Hb as [[<- <-]|[_ Hb]], Hc as [[<- <-]|[_ Hc]]; [done|..|by apply (i_apart0 b c)].
      * apply (Hp c n Hc).
      * destruct (Hp b k Hb); [right|left]; done.
    + intros u b z Hu. apply list_lookup_insert_Some in Hu as [(_ & ? & _)|[_ Hu]]; [done|by apply (i_carved0 u)].
  - destruct l as [|a l']; [by destruct Hf; apply Hnull|]. pose proof (i_free _ _ _ _ _ HI) as (Hfa & x & Hx & Hl).
    assert (a <> NULL) as Ha by congruence. rewrite Hfa, Hx. eexists (Returned a), _. split; [reflexivity|]. split; [done|]. right. exists l'.
    split; [done|]. split; [done|]. split; [|done]. destruct HI. split; cbn [sa next heap first upd]; try done.
    + rewrite <- i_items0. by rewrite <- Permutation_middle.
    + constructor; [by eexists|done].
Qed.

Lemma last_not_cut b : b + 127 * sz ∉ block_handles Z 127 b.
Proof. intros H. apply elem_of_block in H. change (sizeof_handle Z) with sz in H. lia. Qed.

Lemma items_of_last b a : a ∈ items_of b <-> a ∈ block_handles Z 127 b \/ a = b + 127 * sz.
Proof.
  unfold items_of. change 127 with (Z.of_nat 127). change 128%nat with (S 127). generalize 127%nat. intros n. revert b. induction n as [|n IH]; intros b.
  - cbn. rewrite Z.add_0_r, list_elem_of_singleton. split; [by right|intros [H|H]; [by apply not_elem_of_nil in H|done]].
  - change (block_handles Z (S (S n)) b) with (b :: block_handles Z (S n) (b + sz)). change (block_handles Z (S n) b) with (b :: block_handles Z n (b + sz)).
    rewrite !elem_of_cons, IH. replace (b + sz + Z.of_nat n * sz) with (b + Z.of_nat (S n) * sz) by lia. tauto.
Qed.

Lemma carve_block_spec w ts used l bl t b : inv w ts used l bl -> ts !! t = Some (Carves b) ->
  exists z w', carve_block b w = Ret z w' /\ inv w' (<[t := Links b z]> ts) used l bl /\
    sa w' = sa w /\ heap w' = heap w /\ forall a, a ∈ l ++ used -> next w' !! a = next w !! a.
Proof.
  intros HI Ht. assert (b ∈ ts ≫= block_of) as Hb by (eapply in_bind; [exact Ht|by left]).
  destruct (carve_links 127 b (next w)) as (m' & He & Hf & Hl). unfold carve_block. mrun.
  rewrite (i_size _ _ _ _ _ HI). change (Z.to_nat (CHUNK_SIZE - 1)) with 127%nat. rewrite He. eexists _, _. split; [reflexivity|]. cbn [fst snd].
  assert (forall a, a ∈ l ++ used -> m' !! a = next w !! a) as Hm.
  { intros a Ha. apply Hf. intros Hin. apply (fresh_not_item HI b a a Hb); [|done|done]. apply items_of_last. by left. }
  split; [|done]. apply (inv_thread _ ts used l bl t (Carves b)); [|done|done|].
  - apply inv_write; [done|..].
    + intros a Ha. apply Hm, elem_of_app. by left.
    + apply Forall_forall. intros a Ha. rewrite Hm by (apply elem_of_app; by right). pose proof (i_linked _ _ _ _ _ HI) as H. rewrite Forall_forall in H. by apply H.
    + intros u c z a Hu Ha. apply Hf. intros Hin. destruct (decide (u = t)) as [->|Hne]; [congruence|].
      assert (c ∈ ts ≫= block_of) as Hc by (eapply in_bind; [exact Hu|by left]).
      assert (c <> b) as Hcb.
      { intros ->. eapply (bind_apart block_of ts t u); [|exact Ht|exact Hu|exact Hne|by left|by left].
        pose proof (i_nodup _ _ _ _ _ HI) as Hn. by apply NoDup_app in Hn as (_ & _ & Hn). }
      assert (a ∈ items_of b) as Hin' by (apply items_of_last; by left). apply item_in_block in Ha, Hin'.
      destruct (blocks_apart HI c b) as [|]; [apply elem_of_app; by right..|done|lia|lia].
  - intros c z [= <- <-]. split; [cbn; lia|]. exact Hl.
Qed.

Lemma not_in_links w ts used l bl t b z a c : inv w ts used l bl -> ts !! t = Some (Links b z) -> a ∈ items_of b -> c ∈ l ++ used -> a <> c.
Proof. intros HI Ht Ha Hc. eapply (fresh_not_item HI b); [eapply in_bind; [exact Ht|by left]|done|done]. Qed.

Lemma write_spec w ts used l bl item v : inv w ts used l bl -> item ∈ used -> inv (w <| next := <[item := v]> (next w) |>) ts used l bl.
Proof.
  intros HI Hu. apply inv_write; [done|..].
  - intros a Ha. apply lookup_insert_ne. intros ->. by eapply (used_no_free HI).
  - apply Forall_forall. intros a Ha. apply lookup_insert_is_Some'. right. pose proof (i_linked _ _ _ _ _ HI) as H. rewrite Forall_forall in H. by apply H.
  - intros t b z a Ht Ha. apply lookup_insert_ne. apply not_eq_sym. eapply not_in_links; [exact HI|exact Ht|exact Ha|]. apply elem_of_app. by right.
Qed.

Lemma without_absent (k : list Z) a : a ∉ k -> filter (.≠ a) k = k.
Proof.
  induction k as [|b k IH]; intros Hk; [done|]. apply not_elem_of_cons in Hk as [Hb Hk]. rewrite filter_cons, decide_True by (by apply not_eq_sym).
  by rewrite IH.
Qed.

Lemma perm_without (k : list Z) a : NoDup k -> a ∈ k -> a :: filter (.≠ a) k ≡ₚ k.
Proof.
  induction k as [|b k IH]; intros Hn Ha; [by apply not_elem_of_nil in Ha|]. apply NoDup_cons in Hn as [Hb Hn]. rewrite filter_cons.
  destruct (decide (b = a)) as [->|Hne].
  - rewrite decide_False by (intros H; by apply H). by rewrite without_absent.
  - rewrite decide_True by done. apply elem_of_cons in Ha as [->|Ha]; [done|]. rewrite perm_swap. f_equiv. by apply IH.
Qed.

Lemma item_free_spec w ts used l bl locked item : inv w ts used l bl -> item ∈ used ->
  exists r w', sa_free locked item w = Ret r w' /\ r = (if locked then 0 else -1) /\
    (forall a, a <> item -> next w' !! a = next w !! a) /\ sa w' = (if locked then sa w <| first := item |> else sa w) /\
    if locked then inv w' ts (filter (.≠ item) used) (item :: l) bl else w' = w.
Proof.
  intros HI Hu. unfold sa_free. destruct locked; cbn [negb]; [|by exists (-1), w]. mrun.
  pose proof (i_linked _ _ _ _ _ HI) as Hk. rewrite Forall_forall in Hk. destruct (Hk item Hu) as [x Hx]. rewrite Hx.
  eexists _, _. split; [reflexivity|]. split; [done|]. split; [intros a Ha; by apply lookup_insert_ne|]. split; [done|].
  pose proof (items_nodup HI) as Hn. apply NoDup_app in Hn as (_ & _ & Hn).
  destruct (write_spec _ _ _ _ _ item (first (sa w)) HI Hu). split; cbn [sa next heap first upd] in *; try done.
  - split; [done|]. exists (first (sa w)). split; [apply lookup_insert_eq|exact i_free0].
  - etrans; [|exact i_items0]. etrans; [apply Permutation_middle|]. apply Permutation_app_head. by apply perm_without.
  - apply Forall_forall. intros a Ha. apply list_elem_of_filter in Ha as [_ Ha]. rewrite Forall_forall in i_linked0. by apply i_linked0.
Qed.

Lemma link_fail w ts used l bl t b z : inv w ts used l bl -> ts !! t = Some (Links b z) ->
  exists w', alloc_link false b z w = Ret NULL w' /\ inv w' (<[t := Idle]> ts) used l bl /\ next w' = next w /\ sa w' = sa w.
Proof.
  intros HI Ht. pose proof (bind_insert block_of ts t (Links b z) Idle Ht) as Hperm. cbn [block_of] in Hperm. rewrite app_nil_r in Hperm.
  pose proof (i_nodup _ _ _ _ _ HI) as Hn. rewrite <- Hperm, app_assoc in Hn. apply NoDup_app in Hn as (Hn & Hb & _).
  assert (b ∉ bl ++ (<[t := Idle]> ts ≫= block_of)) as Hout by (intros H; apply (Hb b H); by left).
  destruct (block_in HI b) as [Hh _]; [apply elem_of_app; right; eapply in_bind; [exact Ht|by left]|].
  unfold alloc_link, free_block. mrun. cbn [negb]. rewrite Hh. eexists. split; [reflexivity|]. split; [|done].
  destruct HI. split; cbn [sa next heap upd]; try done.
  - intros c. rewrite lookup_delete_is_Some. rewrite (i_blocks0 c), <- Hperm, app_assoc. rewrite (elem_of_app _ [b]), list_elem_of_singleton.
    split; [by intros [Hne [H|H]]|]. intros H. split; [|by left]. intros ->. done.
  - intros c k H. apply lookup_delete_Some in H as [_ H]. by apply i_heap0.
  - intros c d k n Hc Hd. apply lookup_delete_Some in Hc as [_ Hc], Hd as [_ Hd]. by apply i_apart0.
  - intros u c y Hu. apply list_lookup_insert_Some in Hu as [(_ & ? & _)|[_ Hu]]; [done|by apply (i_carved0 u)].
Qed.

Lemma items_tail b : items_of b = b :: block_handles Z 127 (b + sz).
Proof. done. Qed.

Lemma link_spec w ts used l bl t b z : inv w ts used l bl -> ts !! t = Some (Links b z) ->
  Z.of_nat (length bl) <> maxBuffers (sa w) ->
  exists w', alloc_link true b z w = Ret b w' /\
    inv w' (<[t := Idle]> ts) (b :: used) (block_handles Z 127 (b + sz) ++ l) (bl ++ [b]) /\
    maxBuffers (sa w') = maxBuffers (sa w) /\ forall a, a ∈ used -> next w' !! a = next w !! a.
Proof.
  intros HI Ht Hmax. destruct (i_carved _ _ _ _ _ HI t b z Ht) as [-> Hl]. set (z := b + 127 * sz) in *.
  assert (z ∈ items_of b) as Hz by (apply items_of_last; by right).
  pose proof (fun c => not_in_links _ _ _ _ _ t b z z c HI Ht Hz) as Hne.
  assert (length bl < length (buffers (sa w)))%nat as Hlt.
  { pose proof (i_max _ _ _ _ _ HI) as Hm. pose proof (i_table _ _ _ _ _ HI) as Ht'. apply (f_equal length) in Ht'. rewrite length_take in Ht'. lia. }
  assert (forall u c y, ts !! u = Some (Links c y) -> u <> t -> z ∉ items_of c) as Hother.
  { intros u c y Hu Hut Hin. assert (c <> b) as Hcb.
    { intros ->. eapply (bind_apart block_of ts t u); [|exact Ht|exact Hu|exact Hut|by left|by left].
      pose proof (i_nodup _ _ _ _ _ HI) as Hn. by apply NoDup_app in Hn as (_ & _ & Hn). }
    apply item_in_block in Hin, Hz. 
    destruct (blocks_apart HI c b) as [|]; [apply elem_of_app; right; eapply in_bind; [exact Hu|by left]|
      apply elem_of_app; right; eapply in_bind; [exact Ht|by left]|done|lia|lia]. }
  specialize (Hl (first (sa w))). pose proof Hl as [(y & Hy & Hyb) Hl']. change (next_of y) with y in Hyb. subst y.
  unfold alloc_link. cbn [negb]. mrun. rewrite (i_idx _ _ _ _ _ HI).
  rewrite (proj2 (Z.ltb_ge _ 0)), (proj2 (Z.leb_gt _ _)) by lia. cbn [orb sa next first upd]. rewrite Hy. eexists. split; [reflexivity|].
  split; [|split; [done|intros a Ha; apply lookup_insert_ne, Hne, elem_of_app; by right]].
  pose proof (bind_insert block_of ts t (Links b z) Idle Ht) as Hperm. cbn [block_of] in Hperm. rewrite app_nil_r in Hperm.
  assert ((bl ++ [b]) ++ (<[t := Idle]> ts ≫= block_of) ≡ₚ bl ++ (ts ≫= block_of)) as Hblocks.
  { rewrite <- app_assoc. apply Permutation_app_head. rewrite <- Hperm. by rewrite Permutation_app_comm. }
  destruct HI. split; cbn [sa next heap first bufIdx buffers maxBuffers sa_size upd]; try done.
  - eapply linked_chain; [exact Hl'|apply lookup_insert_eq|]. change (next_of (first (sa w))) with (first (sa w)).
    apply chain_insert; [|done]. intros H. apply (Hne z); [apply elem_of_app; by left|done].
  - rewrite bind_app, items_cons. change ([] ≫= items_of) with (@nil Z). rewrite app_nil_r, <- i_items0, items_tail, <- app_assoc.
    rewrite <- !Permutation_middle. apply Permutation_skip. by rewrite Permutation_app_comm, <- app_assoc.
  - constructor; [by exists (b + sz)|]. eapply Forall_impl; [exact i_linked0|]. cbv beta. intros a Ha. apply lookup_insert_is_Some'. by right.
  - rewrite length_app. cbn. lia.
  - rewrite length_app, Nat2Z.id. cbn [length]. rewrite Nat.add_1_r, (take_S_r _ _ b) by (by apply list_lookup_insert_eq).
    by rewrite take_insert_ge, i_table0.
  - by rewrite length_insert.
  - intros c. by rewrite Hblocks.
  - by rewrite Hblocks.
  - intros u c y Hu. apply list_lookup_insert_Some in Hu as [(_ & ? & _)|[Hut Hu]]; [done|].
    destruct (i_carved0 u c y Hu) as [Hy' Hk]. split; [done|]. apply (linked_frame_items (next w)); [|done].
    intros a Ha. apply lookup_insert_ne. intros <-. by apply (Hother u c y Hu).
Qed.

(** A full table is written behind its end. *)
Lemma link_full w ts used l bl b z : inv w ts used l bl -> Z.of_nat (length bl) = maxBuffers (sa w) -> alloc_link true b z w = Fault.
Proof.
  intros HI Hm. unfold alloc_link. cbn [negb]. mrun. rewrite (i_idx _ _ _ _ _ HI), (i_max _ _ _ _ _ HI), Hm, Z.leb_refl, orb_true_r. done.
Qed.

Lemma inv_step w ts used l bl s' : inv w ts used l bl -> sa_step (w, ts, used) s' ->
  exists l' bl', inv s'.1.1 s'.1.2 s'.2 l' bl' /\ maxBuffers (sa s'.1.1) = maxBuffers (sa w).
Proof.
  intros HI Hs. pose proof (i_size _ _ _ _ _ HI) as Hsize. inversion Hs; subst; cbn [fst snd].
  - destruct (begin_spec w ts used l bl locked p HI) as (r & w1 & He & _ & Hr); [by rewrite Hsize, block_int32 in *|].
    assert (Ret r w1 = Ret (Returned item) w') as [= -> ->] by congruence. destruct Hr as [(-> & -> & _)|(l' & -> & Hne & HI' & Hm)].
    + by exists l, bl.
    + exists l', bl. unfold holds_item. by rewrite (proj2 (Z.eqb_neq _ _) Hne).
  - destruct (begin_spec w ts used l bl locked p HI) as (r & w1 & He & _ & Hr); [by rewrite Hsize, block_int32 in *|].
    assert (Ret r w1 = Ret (Fresh block) w') as [= -> ->] by congruence. destruct Hr as (_ & _ & _ & _ & Hsa & Hr). exists l, bl. split; [by apply Hr|congruence].
  - destruct (carve_block_spec w ts used l bl t block HI ltac:(eassumption)) as (z & w1 & He & HI' & Hsa & _).
    assert (Ret z w1 = Ret end_item w') as [= -> ->] by congruence. exists l, bl. split; [done|congruence].
  - destruct locked.
    + destruct (decide (Z.of_nat (length bl) = maxBuffers (sa w))) as [Hm|Hm].
      * pose proof (link_full _ _ _ _ _ block end_item HI Hm). congruence.
      * destruct (link_spec w ts used l bl t block end_item HI ltac:(eassumption) Hm) as (w1 & He & HI' & Hmx & _).
        assert (Ret block w1 = Ret item w') as [= -> ->] by congruence. unfold holds_item. rewrite (proj2 (Z.eqb_neq _ NULL)); [by eexists _, _|].
        pose proof (item_pos HI' item ltac:(apply elem_of_app; right; by left)). unfold NULL. lia.
    + destruct (link_fail w ts used l bl t block end_item HI ltac:(eassumption)) as (w1 & He & HI' & _ & Hsa).
      assert (Ret NULL w1 = Ret item w') as [= <- ->] by congruence. exists l, bl. split; [done|congruence].
  - destruct (item_free_spec w ts used l bl locked item HI ltac:(eassumption)) as (r1 & w1 & He & -> & _ & Hsa & HI').
    assert (Ret (if locked then 0 else -1) w1 = Ret r w') as [= <- ->] by congruence. destruct locked; [by eexists _, _; rewrite Hsa|subst w'; by exists l, bl].
  - exists l, bl. split; [by apply write_spec|done].
Qed.

Lemma inv_steps s s' l bl : inv s.1.1 s.1.2 s.2 l bl -> rtc sa_step s s' ->
  exists l' bl', inv s'.1.1 s'.1.2 s'.2 l' bl' /\ maxBuffers (sa s'.1.1) = maxBuffers (sa s.1.1).
Proof.
  intros HI Hs. revert l bl HI. induction Hs as [s|s s1 s' Hs _ IH]; intros l bl HI; [by exists l, bl|].
  destruct s as [[w ts] used]. destruct (inv_step _ _ _ _ _ _ HI Hs) as (l1 & bl1 & HI1 & Hm). destruct (IH _ _ HI1) as (l' & bl' & HI' & Hm').
  exists l', bl'. split; [done|]. cbn [fst snd] in *. congruence.
Qed.

(** ** Inspection and destruction *)

Section Idle.
Context {w : pool} {ts : list thread} {used l bl : list Z} (HI : inv w ts used l bl).

Lemma items_apart a c : a ∈ l ++ used -> c ∈ l ++ used -> a <> c -> a + sz <= c \/ c + sz <= a.
Proof.
  intros Ha Hc Hne. destruct (item_block HI a Ha) as (b & Hb & Hab), (item_block HI c Hc) as (d & Hd & Hcd). destruct (decide (b = d)) as [->|Hbd].
  - apply in_items in Hab as (i & Hi & ->), Hcd as (j & Hj & ->). assert (i <> j) by congruence. nia.
  - apply item_in_block in Hab, Hcd. destruct (blocks_apart HI b d) as [|]; [apply elem_of_app; by left..|done|lia|lia].
Qed.

Lemma checkone_item a : a ∈ l ++ used -> sa_checkone a bl (CHUNK_SIZE * sz) sz = 0.
Proof.
  intros Ha. destruct (item_block HI a Ha) as (b & Hb & Hab). unfold sa_checkone. erewrite (proj2 (existsb_exists _ _)); [done|].
  exists b. split; [by apply list_elem_of_In|]. destruct (in_items a b Hab) as (k & Hk & ->). unfold CHUNK_SIZE, cmod.
  rewrite (proj2 (Z.leb_le _ _)), (proj2 (Z.leb_le _ _)) by nia. replace (b + k * sz - b) with (k * sz) by lia. rewrite Z.rem_mul by lia. done.
Qed.

Lemma check_chain fuel p l' count : chain (next w) p l' -> (forall a, a ∈ l' -> a ∈ l) -> (length l' < fuel)%nat ->
  check_from fuel w bl p count w = Ret (if negb (count + Z.of_nat (length l') =? CHUNK_SIZE * bufIdx (sa w)) then 1 else 0) w.
Proof.
  revert p l' count. induction fuel as [|fuel IH]; intros p [|a l'] count Hc Hl Hf; cbn [length] in Hf; [lia..| |].
  - cbn in Hc. subst p. cbn [check_from length]. by rewrite Z.add_0_r.
  - destruct Hc as (-> & x & Hx & Hc). assert (a ∈ l ++ used) as Ha by (apply elem_of_app; left; apply Hl; by left).
    cbn [check_from]. pose proof (item_pos HI a Ha) as Hpos. rewrite (proj2 (Z.eqb_neq a NULL)) by (unfold NULL; lia).
    rewrite (i_size _ _ _ _ _ HI), (checkone_item a Ha). change (negb (0 =? 0)) with false. cbv iota. rewrite Hx.
    change (check_from fuel w bl x (count + 1) w = Ret (if negb (count + Z.of_nat (length (a :: l')) =? CHUNK_SIZE * bufIdx (sa w)) then 1 else 0) w).
    rewrite (IH x l' (count + 1) Hc); [|intros b Hb; apply Hl; by right|lia]. cbn [length]. by replace (count + 1 + Z.of_nat (length l')) with (count + Z.of_nat (S (length l'))) by lia.
Qed.

Lemma free_in_memory : (length l <= size (next w))%nat.
Proof.
  pose proof (items_nodup HI) as Hn. apply NoDup_app in Hn as (Hn & _ & _).
  rewrite <- (size_list_to_set (C := gset Z) l Hn), <- size_dom. apply subseteq_size. intros a Ha. apply elem_of_list_to_set in Ha.
  destruct (chain_lookup _ _ _ _ (i_free _ _ _ _ _ HI) Ha) as [x Hx]. by apply elem_of_dom.
Qed.

Lemma length_items k : length (k ≫= items_of) = (128 * length k)%nat.
Proof. induction k as [|b k IH]; [done|]. rewrite items_cons, length_app, IH. change (length (items_of b)) with 128%nat. cbn [length]. lia. Qed.

Lemma check_spec : sa_check w = Ret (if used is [] then 0 else 1) w.
Proof.
  unfold sa_check. mrun. rewrite (i_idx _ _ _ _ _ HI), Nat2Z.id, (i_table _ _ _ _ _ HI).
  rewrite (check_chain _ _ l 0 (i_free _ _ _ _ _ HI)); [|done|pose proof free_in_memory; lia].
  pose proof (Permutation_length (i_items _ _ _ _ _ HI)) as Hlen. rewrite length_app, length_items in Hlen.
  rewrite (i_idx _ _ _ _ _ HI). unfold CHUNK_SIZE. revert Hlen. generalize used. intros [|a u] Hlen; cbn [length] in Hlen.
  - rewrite (proj2 (Z.eqb_eq _ _)) by lia. done.
  - rewrite (proj2 (Z.eqb_neq _ _)) by lia. done.
Qed.

Lemma free_all bs v : NoDup bs -> (forall b, is_Some (heap v !! b) <-> b ∈ bs) -> NULL ∉ bs ->
  exists v', free_from bs v = Ret tt v' /\ heap v' = ∅.
Proof.
  revert v. induction bs as [|b bs IH]; intros v Hn Hh Hnull.
  - exists v. split; [done|]. apply map_empty. intros b. apply eq_None_not_Some. rewrite Hh. apply not_elem_of_nil.
  - apply NoDup_cons in Hn as [Hb Hn]. apply not_elem_of_cons in Hnull as [Hb0 Hnull]. cbn [free_from].
    rewrite (proj2 (Z.eqb_neq _ _)) by (by apply not_eq_sym). cbn [negb].
    destruct (proj2 (Hh b) ltac:(by left)) as [k Hk]. unfold free_block. mrun. rewrite Hk.
    apply (IH (v <| heap := delete b (heap v) |>)); [done| |done]. intros c. cbn [heap upd]. rewrite lookup_delete_is_Some, Hh, elem_of_cons. split.
    + by intros [Hne [->|H]].
    + intros H. split; [by intros ->|by right].
Qed.

Lemma destroy_spec : ts ≫= block_of = [] -> exists w', sa_destroy w = Ret 0 w' /\ heap w' = ∅.
Proof.
  intros Hts. pose proof (i_blocks _ _ _ _ _ HI) as Hb. pose proof (i_nodup _ _ _ _ _ HI) as Hn. rewrite Hts, app_nil_r in *.
  destruct (free_all bl w Hn Hb) as (w' & He & Hh).
  { intros H. apply Hb in H as [k Hk]. destruct (i_heap _ _ _ _ _ HI _ _ Hk). unfold NULL in *. lia. }
  exists w'. split; [|done]. unfold sa_destroy. mrun. rewrite (proj2 (Z.ltb_ge _ _)).
  - rewrite (i_idx _ _ _ _ _ HI), Nat2Z.id, (i_table _ _ _ _ _ HI). by rewrite He.
  - rewrite (i_idx _ _ _ _ _ HI). apply inj_le. rewrite <- (i_table _ _ _ _ _ HI) at 1. rewrite length_take. lia.
Qed.
End Idle.
End Invariant.

Lemma idle_blocks ts : Forall (fun th => th = Idle) ts -> ts ≫= block_of = [].
Proof. induction 1 as [|th ts -> _ IH]; [done|exact IH]. Qed.

(** ** What callers get *)

(** The size of an item for the size that was asked for. *)
Definition item_size (sz : Z) : Z := if sz <? 8 then 8 else cdiv (int32 (sz + 7)) 8 * 8.

Lemma item_size_ok sz : sz <= 2 ^ 24 - 8 -> 0 < item_size sz <= 2 ^ 24 - 8 /\ sz <= item_size sz.
Proof.
  intros H. unfold item_size, cdiv. destruct (Z.ltb_spec sz 8); [lia|]. unfold int32. rewrite Z.mod_small by lia.
  replace (sz + 7 + 2 ^ 31 - 2 ^ 31) with (sz + 7) by lia. rewrite Z.quot_div_nonneg by lia.
  pose proof (Z.div_mod (sz + 7) 8). pose proof (Z.mod_pos_bound (sz + 7) 8). lia.
Qed.

Section Callers.
Context (sz max_items : Z) (n : nat) (Hsz : sz <= 2 ^ 24 - 8) (Hmax : max_items <= 2 ^ 31 - 128).

Lemma inv_start s : sa_start sz max_items n s -> inv (item_size sz) s.1.1 s.1.2 s.2 [] [] /\ sa_size (sa s.1.1) = item_size sz.
Proof.
  intros (a & Ha & ->). unfold sa_init in Ha. cbn [negb] in Ha. injection Ha as <-. cbn [fst snd]. split; [|done].
  assert (replicate n Idle ≫= block_of = []) as Hb by (apply idle_blocks, Forall_replicate; done).
  set (m := if max_items <=? 0 then 1 else max_items).
  assert (0 <= cdiv (int32 (m + CHUNK_SIZE - 1)) CHUNK_SIZE) as Hm.
  { unfold cdiv. apply Z.quot_pos; [|done]. unfold int32, CHUNK_SIZE, m. destruct (Z.leb_spec max_items 0); [done|]. rewrite Z.mod_small; lia. }
  split; cbn [sa next heap first bufIdx buffers maxBuffers sa_size length]; rewrite ?Hb; try done.
  - rewrite length_replicate. lia.
  - intros b. rewrite lookup_empty. split; [by intros [? ?]|by intros ?%not_elem_of_nil].
  - constructor.
  - intros t b z Ht. apply lookup_replicate in Ht as [? _]. done.
Qed.

Lemma inv_reachable s : sa_reachable sz max_items n s ->
  exists l bl, inv (item_size sz) s.1.1 s.1.2 s.2 l bl.
Proof.
  intros (s0 & H0 & Hs). destruct (inv_start _ H0) as [HI _].
  destruct (inv_steps (item_size sz) (proj1 (item_size_ok _ Hsz)) _ _ _ _ HI Hs) as (l & bl & HI' & _). by exists l, bl.
Qed.

(** (C37) The pool hands out memory that is the caller's alone: however many threads
    allocate and free at the same time, the items in use lie in blocks that [malloc] gave,
    are as large as asked for and do not overlap; no call writes to an item in use but
    [sa_free] to the one it is given; what [sa_alloc] returns was not in use. No call
    faults, but for one case: a thread that comes back with a new block when others have
    filled the table. An item is at most 2^24-8 bytes and the pool is for at most 2^31-128
    items, as the source computes with ints. *)
Theorem pool_safe w ts used : sa_reachable sz max_items n (w, ts, used) ->
  NoDup used /\
  (forall a, a ∈ used -> exists b k, heap w !! b = Some k /\ b <= a /\ a + sa_size (sa w) <= b + k /\ sz <= sa_size (sa w)) /\
  (forall a c, a ∈ used -> c ∈ used -> a <> c -> a + sa_size (sa w) <= c \/ c + sa_size (sa w) <= a) /\
  (forall locked p, malloc_ok p (int32 (sa_size (sa w) * CHUNK_SIZE)) (heap w) ->
    exists r w', alloc_begin locked p w = Ret r w' /\ next w' = next w /\ forall a, r = Returned a -> a ∉ used) /\
  (forall locked a, a ∈ used -> exists r w', sa_free locked a w = Ret r w' /\ forall c, c <> a -> next w' !! c = next w !! c) /\
  (forall t b, ts !! t = Some (Carves b) -> exists z w', carve_block b w = Ret z w' /\ forall c, c ∈ used -> next w' !! c = next w !! c) /\
  forall t b z locked, ts !! t = Some (Links b z) ->
    (exists r w', alloc_link locked b z w = Ret r w' /\ r ∉ used /\ forall c, c ∈ used -> next w' !! c = next w !! c) \/
    alloc_link locked b z w = Fault /\ locked = true /\ bufIdx (sa w) = maxBuffers (sa w).
Proof.
  intros Hr. destruct (inv_reachable _ Hr) as (l & bl & HI). cbn [fst snd] in HI.
  pose proof (item_size_ok sz Hsz) as [Hi Hge]. pose proof (i_size _ _ _ _ _ _ HI) as Hsize. rewrite Hsize.
  pose proof (items_nodup _ Hi HI) as Hn. apply NoDup_app in Hn as (_ & Hfree & Hn).
  assert (forall a, a ∈ used -> 0 < a) as Hpos by (intros a Ha; apply (item_pos _ Hi HI), elem_of_app; by right).
  assert (NULL ∉ used) as Hnull by (intros H; specialize (Hpos _ H); unfold NULL in Hpos; lia).
  split_and!; [done|..].
  - intros a Ha. destruct (item_block _ HI a) as (b & Hb & Hin); [apply elem_of_app; by right|]. apply (item_in_block _ Hi) in Hin.
    destruct (block_in _ HI b) as [Hh _]; [apply elem_of_app; by left|]. exists b, (block_bytes (item_size sz)). split; [done|lia].
  - intros a c Ha Hc Hne. by apply (items_apart _ Hi HI); [apply elem_of_app; right..|].
  - intros locked p Hp. rewrite (block_int32 _ Hi) in Hp. destruct (begin_spec _ Hi _ _ _ _ _ locked p HI Hp) as (r & w' & He & Hx & Hcase).
    exists r, w'. split; [done|]. split; [done|]. intros a ->. destruct Hcase as [(-> & _)|(l' & -> & _)]; [done|]. apply Hfree. by left.
  - intros locked a Ha. destruct (item_free_spec _ Hi _ _ _ _ _ locked a HI Ha) as (r & w' & He & _ & Hx & _). eauto.
  - intros t b Ht. destruct (carve_block_spec _ Hi _ _ _ _ _ t b HI Ht) as (z & w' & He & _ & _ & _ & Hx). exists z, w'. split; [done|].
    intros c Hc. apply Hx, elem_of_app. by right.
  - intros t b z locked Ht. destruct locked.
    + destruct (decide (Z.of_nat (length bl) = maxBuffers (sa w))) as [Hm|Hm].
      * right. split; [by eapply link_full|]. split; [done|]. by rewrite (i_idx _ _ _ _ _ _ HI).
      * left. destruct (link_spec _ Hi _ _ _ _ _ t b z HI Ht Hm) as (w' & He & HI' & _ & Hx). exists b, w'. split; [done|]. split; [|done].
        pose proof (items_nodup _ Hi HI') as Hn'. apply NoDup_app in Hn' as (_ & _ & Hn'). by apply NoDup_cons in Hn' as [? _].
    + left. destruct (link_fail _ _ _ _ _ _ t b z HI Ht) as (w' & He & _ & Hx & _). exists NULL, w'. split; [done|]. split; [done|]. by rewrite Hx.
Qed.

(** When no thread is in a call, [sa_check] finds the pool sound: it returns 0 if all
    items have come back and 1 if some are in use, never an item; and [sa_destroy] frees
    every block. *)
Theorem pool_checks_and_goes w ts used : sa_reachable sz max_items n (w, ts, used) -> Forall (fun th => th = Idle) ts ->
  sa_check w = Ret (if used is [] then 0 else 1) w /\ exists w', sa_destroy w = Ret 0 w' /\ heap w' = ∅.
Proof.
  intros Hr Hidle. destruct (inv_reachable _ Hr) as (l & bl & HI). cbn [fst snd] in HI. pose proof (item_size_ok sz Hsz) as [Hi _].
  split; [by eapply check_spec|]. by eapply destroy_spec, idle_blocks.
Qed.
End Callers.

(** ** The counters of the network queue *)

(** The pool as the network queue counts it (file Netq). *)
Definition counts (w : pool) (c : Netq.StackAllocator) : Prop :=
  exists l, @chain Z (item_link (sa_size (sa w))) (next w) (first (sa w)) l /\ NULL ∉ l /\
    Z.of_nat (length l) = sa_free_items c /\ bufIdx (sa w) = sa_bufIdx c /\ maxBuffers (sa w) = sa_maxBuffers c.

Lemma chain_unique sz m p l1 l2 : @chain Z (item_link sz) m p l1 -> @chain Z (item_link sz) m p l2 -> NULL ∉ l1 -> NULL ∉ l2 -> l1 = l2.
Proof.
  revert p l2. induction l1 as [|a l1 IH]; intros p [|b l2] H1 H2 N1 N2; [done|..].
  - destruct H2 as [-> _]. cbn in H1. destruct N2. subst b. by left.
  - destruct H1 as [-> _]. cbn in H2. destruct N1. subst a. by left.
  - destruct H1 as (-> & x & Hx & H1), H2 as (-> & y & Hy & H2). assert (x = y) as <- by congruence. f_equal.
    apply not_elem_of_cons in N1 as [_ N1], N2 as [_ N2]. by apply (IH x).
Qed.

Section Counters.
Context (sz : Z) (Hi : 0 < sz <= 2 ^ 24 - 8).

Lemma inv_counts w ts used l bl c : inv sz w ts used l bl -> Z.of_nat (length l) = sa_free_items c ->
  Z.of_nat (length bl) = sa_bufIdx c -> maxBuffers (sa w) = sa_maxBuffers c -> counts w c.
Proof.
  intros HI Hl Hb Hm. exists l. rewrite (i_size _ _ _ _ _ _ HI). split; [apply (i_free _ _ _ _ _ _ HI)|].
  split; [|by rewrite (i_idx _ _ _ _ _ _ HI)]. intros H. pose proof (item_pos _ Hi HI NULL ltac:(apply elem_of_app; by left)). unfold NULL in *. lia.
Qed.

Lemma counts_inv w ts used l bl c : inv sz w ts used l bl -> counts w c ->
  Z.of_nat (length l) = sa_free_items c /\ Z.of_nat (length bl) = sa_bufIdx c /\ maxBuffers (sa w) = sa_maxBuffers c.
Proof.
  intros HI (k & Hk & Hn & Hl & Hb & Hm). rewrite (i_size _ _ _ _ _ _ HI) in Hk. rewrite <- (i_idx _ _ _ _ _ _ HI). split; [|done].
  assert (l = k) as ->; [|done]. eapply chain_unique; [apply (i_free _ _ _ _ _ _ HI)|exact Hk| |done].
  intros H. pose proof (item_pos _ Hi HI NULL ltac:(apply elem_of_app; by left)). unfold NULL in *. lia.
Qed.

Lemma alloc_counts w ts used l bl c p : inv sz w ts used l bl -> counts w c -> ts !! 0%nat = Some Idle ->
  malloc_ok p (block_bytes sz) (heap w) -> sa_nomem c = bool_decide (p = NULL) ->
  exists a w', sa_alloc true true p w = Ret a w' /\
    match Netq.sa_alloc c with Some c' => a <> NULL /\ a ∉ used /\ counts w' c' | None => a = NULL /\ w' = w end.
Proof.
  intros HI Hc Ht Hp Hmem. destruct (counts_inv _ _ _ _ _ _ HI Hc) as (Hl & Hb & Hm).
  destruct (begin_spec sz Hi w ts used l bl true p HI Hp) as (r & w1 & He & _ & Hr). unfold sa_alloc, Netq.sa_alloc. rewrite (bind_Ret _ _ _ _ _ He), <- Hl, <- Hb, <- Hm, Hmem.
  pose proof (items_nodup _ Hi HI) as Hn. apply NoDup_app in Hn as (_ & Hfree & _). destruct r as [item|b].
  - destruct Hr as [(-> & -> & [?|[-> Hwhy]])|(l' & -> & Hne & HI' & Hm')]; [done|..].
    + exists NULL, w. split; [done|]. cbn [length]. change (Z.of_nat 0 =? 0) with true. cbv iota.
      destruct Hwhy as [Hw| ->]; [by rewrite (proj2 (Z.eqb_eq _ _) Hw)|]. by rewrite orb_true_r.
    + exists item, w1. split; [done|]. rewrite (proj2 (Z.eqb_neq _ _)) by (cbn [length]; lia). split; [done|]. split; [apply Hfree; by left|].
      apply (inv_counts _ _ _ _ _ _ HI'); cbn [sa_free_items sa_bufIdx sa_maxBuffers upd]; [cbn [length] in *; lia|done|congruence].
  - destruct Hr as (-> & -> & Hp0 & Hfull & Hsa & HI1). specialize (HI1 0%nat Ht). assert (0 < length ts)%nat as H0 by (by eapply lookup_lt_Some).
    destruct (carve_block_spec sz Hi _ _ _ _ _ 0 p HI1) as (z & w2 & He2 & HI2 & Hsa2 & _); [by apply list_lookup_insert_eq|].
    destruct (link_spec sz Hi _ _ _ _ _ 0 p z HI2) as (w3 & He3 & HI3 & Hm3 & _); [apply list_lookup_insert_eq; by rewrite length_insert|congruence|].
    exists p, w3. cbn [fst]. rewrite (bind_Ret _ _ _ _ _ He2), He3. split; [done|]. cbn [length]. change (Z.of_nat 0 =? 0) with true. cbv iota.
    rewrite (proj2 (Z.eqb_neq _ _)), bool_decide_eq_false_2 by done. cbn [orb]. split; [done|]. split.
    + pose proof (items_nodup _ Hi HI3) as Hn3. apply NoDup_app in Hn3 as (_ & _ & Hn3). by apply NoDup_cons in Hn3 as [? _].
    + apply (inv_counts _ _ _ _ _ _ HI3); cbn [sa_free_items sa_bufIdx sa_maxBuffers upd].
      * rewrite length_app. done.
      * rewrite length_app. cbn [length]. lia.
      * congruence.
Qed.
End Counters.

(** (C38) The network queue's counters are right about the pool: a call of [sa_alloc] that no
    other thread's call comes between returns an item, one that is not in use, exactly
    when the counters say so, and [sa_free] takes one back; and the counters go on to
    agree; in every state the threads can reach, for items of at most 2^24-8 bytes and a
    pool for at most 2^31-128 items. *)
Theorem pool_refines_counters sz max_items n w ts used c (Hsz : sz <= 2 ^ 24 - 8) (Hmax : max_items <= 2 ^ 31 - 128)
  (Hr : sa_reachable sz max_items n (w, ts, used)) (Hidle : ts !! 0%nat = Some Idle) (Hc : counts w c) :
  (forall p, malloc_ok p (int32 (sa_size (sa w) * CHUNK_SIZE)) (heap w) -> sa_nomem c = bool_decide (p = NULL) ->
    exists a w', sa_alloc true true p w = Ret a w' /\
      match Netq.sa_alloc c with Some c' => a <> NULL /\ a ∉ used /\ counts w' c' | None => a = NULL /\ w' = w end) /\
  forall a, a ∈ used -> exists w', sa_free true a w = Ret 0 w' /\ counts w' (Netq.sa_free c).
Proof.
  destruct (inv_reachable _ _ _ Hsz Hmax _ Hr) as (l & bl & HI). cbn [fst snd] in HI. pose proof (proj1 (item_size_ok sz Hsz)) as Hi. split.
  - intros p Hp. rewrite (i_size _ _ _ _ _ _ HI), (block_int32 _ Hi) in Hp. by eapply alloc_counts.
  - intros a Ha. destruct (item_free_spec _ Hi _ _ _ _ _ true a HI Ha) as (r & w' & He & -> & _ & Hsa & HI'). exists w'. split; [done|].
    destruct (counts_inv _ Hi _ _ _ _ _ _ HI Hc) as (Hl & Hb & Hm). apply (inv_counts _ Hi _ _ _ _ _ _ HI');
      cbn [sa_free_items sa_bufIdx sa_maxBuffers upd Netq.sa_free length]; [lia|done|by rewrite Hsa].
Qed.

(** ** A pool of one block, and two threads *)

Definition after {A} (o : outcome pool A) (w : pool) : pool := match o with Ret _ w' => w' | _ => w end.
Definition demo0 : pool := mkPool (mkSAlloc 0 0 [0] 1 32) ∅ ∅.
Definition demo1 : pool := after (alloc_begin true 4096 demo0) demo0.
Definition demo2 : pool := after (carve_block 4096 demo1) demo1.
(** The first thread has its item. *)
Definition demo3 : pool := after (alloc_link true 4096 (4096 + 127 * 32) demo2) demo2.
(** The second one has begun after the first. *)
Definition demo4 : pool := after (alloc_begin true 8192 demo1) demo1.
Definition demo5 : pool := after (carve_block 8192 (after (carve_block 4096 demo4) demo4)) demo4.
Definition demo6 : pool := after (alloc_link true 4096 (4096 + 127 * 32) demo5) demo5.

Lemma demo_malloc p h : 0 < p -> forallb (fun '(q, k) => (p + 4096 <=? q) || (q + k <=? p)) (map_to_list h) = true -> malloc_ok p 4096 h.
Proof.
  intros Hp H. right. split; [done|]. intros q k Hq. apply elem_of_map_to_list in Hq. rewrite forallb_forall in H.
  apply list_elem_of_In in Hq. specialize (H _ Hq). cbn in H. apply orb_prop in H as [H|H]; apply Z.leb_le in H; auto.
Qed.

Lemma demo_start : sa_reachable 28 100 2 (demo0, [Idle; Idle], []).
Proof. eexists. split; [|apply rtc_refl]. eexists. split; [reflexivity|]. reflexivity. Qed.

Lemma demo_one_idle : sa_reachable 28 100 2 (demo3, [Idle; Idle], [4096]).
Proof.
  destruct demo_start as (s0 & H0 & Hs). exists s0. split; [done|]. etrans; [exact Hs|].
  apply (rtc_l _ _ (demo1, [Carves 4096; Idle], [])).
  { apply (step_fresh 0 demo0 demo1 [Idle; Idle] [] true 4096 4096); [done|apply demo_malloc; [done|reflexivity]|vm_compute; reflexivity]. }
  apply (rtc_l _ _ (demo2, [Links 4096 (4096 + 127 * 32); Idle], [])).
  { apply (step_carve 0 demo1 demo2 [Carves 4096; Idle]); [done|vm_compute; reflexivity]. }
  apply rtc_once. apply (step_link 0 demo2 demo3 [Links 4096 (4096 + 127 * 32); Idle] [] true 4096 (4096 + 127 * 32) 4096); [done|vm_compute; reflexivity].
Qed.

Lemma demo_two_fresh : sa_reachable 28 100 2 (demo6, [Idle; Links 8192 (8192 + 127 * 32)], [4096]).
Proof.
  destruct demo_start as (s0 & H0 & Hs). exists s0. split; [done|]. etrans; [exact Hs|].
  apply (rtc_l _ _ (demo1, [Carves 4096; Idle], [])).
  { apply (step_fresh 0 demo0 demo1 [Idle; Idle] [] true 4096 4096); [done|apply demo_malloc; [done|reflexivity]|vm_compute; reflexivity]. }
  apply (rtc_l _ _ (demo4, [Carves 4096; Carves 8192], [])).
  { apply (step_fresh 1 demo1 demo4 [Carves 4096; Idle] [] true 8192 8192); [done|apply demo_malloc; [done|reflexivity]|vm_compute; reflexivity]. }
  apply (rtc_l _ _ (after (carve_block 4096 demo4) demo4, [Links 4096 (4096 + 127 * 32); Carves 8192], [])).
  { apply (step_carve 0 demo4 (after (carve_block 4096 demo4) demo4) [Carves 4096; Carves 8192]); [done|vm_compute; reflexivity]. }
  apply (rtc_l _ _ (demo5, [Links 4096 (4096 + 127 * 32); Links 8192 (8192 + 127 * 32)], [])).
  { apply (step_carve 1 (after (carve_block 4096 demo4) demo4) demo5 [Links 4096 (4096 + 127 * 32); Carves 8192]); [done|vm_compute; reflexivity]. }
  apply rtc_once.
  apply (step_link 0 demo5 demo6 [Links 4096 (4096 + 127 * 32); Links 8192 (8192 + 127 * 32)] [] true 4096 (4096 + 127 * 32) 4096); [done|vm_compute; reflexivity].
Qed.

(** The table of the pool can be overrun: two threads that find the list of a pool of
    one block empty both fetch a block, and the second one is stored behind the end of the
    table. *)
Theorem pool_overruns_table :
  exists w, sa_reachable 28 100 2 (w, [Idle; Links 8192 (8192 + 127 * 32)], [4096]) /\ maxBuffers (sa w) = 1 /\
    alloc_link true 8192 (8192 + 127 * 32) w = Fault.
Proof. exists demo6. split; [apply demo_two_fresh|]. split; vm_compute; reflexivity. Qed.

Lemma pool_safe_witness : NoDup [4096] /\ exists r w', sa_free true 4096 demo6 = Ret r w'.
Proof.
  destruct (pool_safe 28 100 2 ltac:(lia) ltac:(lia) demo6 _ _ demo_two_fresh) as (H1 & _ & _ & _ & H5 & _).
  split; [exact H1|]. destruct (H5 true 4096) as (r & w' & H & _); [by left|]. exists r, w'. exact H.
Defined.

Lemma pool_checks_and_goes_witness : sa_check demo3 = Ret 1 demo3 /\ exists w', sa_destroy demo3 = Ret 0 w' /\ heap w' = ∅.
Proof.
  apply (pool_checks_and_goes 28 100 2 ltac:(lia) ltac:(lia) demo3 [Idle; Idle] [4096] demo_one_idle). repeat constructor.
Defined.

Lemma pool_refines_counters_witness :
  exists a w', sa_alloc true true 4096 demo0 = Ret a w' /\ a <> NULL /\ counts w' (mkSA 127 1 1 false).
Proof.
  destruct (pool_refines_counters 28 100 2 demo0 [Idle; Idle] [] (mkSA 0 0 1 false) ltac:(lia) ltac:(lia) demo_start eq_refl) as [H _].
  - exists []. split; [reflexivity|]. split; [apply not_elem_of_nil|]. done.
  - destruct (H 4096) as (a & w' & He & Ha & _ & Hc); [apply demo_malloc; [done|reflexivity]|reflexivity|]. exists a, w'. split; [exact He|]. split; [exact Ha|exact Hc].
Defined.
