(* ===== verification/NetqConf.v ===== *)
(** The configuration side of net/netd/netq.c: the arguments [netq_initEnv] takes off
    the command line, and the parser of the group file, which names the machines, the
    number of MPI nodes each runs and, if the user cares, their global ids.

    A string is the list of its bytes, without the null at its end. The state of the
    parser is what is left of the file and the number of allocations made so far;
    [avail k] says whether the [k]th one succeeds. *)
From S2P Require Import Prelude.

Definition NETQ_MAX_HOST_NAME : Z := 255.
Definition NETQ_MAX_NODES_PER_HOST : Z := 256.
Definition NETQ_MAX_NODES : Z := 256.

(** The name of the machine, the number of its nodes, and the array of their ids. *)
Record MAC_ENTRY := mkMac { szHost : list Z; nNodes : Z; nodeIDs : list Z }.
#[export] Instance eta_mac : Eta MAC_ENTRY := MkEta _ (fun r => mkMac (szHost r) (nNodes r) (nodeIDs r)).

Record conf := mkConf { input : list Z; allocs : nat }.
#[export] Instance eta_conf : Eta conf := MkEta _ (fun r => mkConf (input r) (allocs r)).

(** ** The C library: characters, strings, numbers *)

Definition isspace (c : Z) : bool := (c =? 32) || (9 <=? c) && (c <=? 13).
Definition isdigit (c : Z) : bool := (48 <=? c) && (c <=? 57).
Definition DASH : Z := 45.
Definition NEWLINE : Z := 10.
Definition is_dash (c : Z) : bool := c =? DASH.
(** The delimiters the parser gives to [strtok]. *)
Definition is_delim (c : Z) : bool := (c =? 9) || (c =? 32).

Fixpoint take_while (p : Z -> bool) (s : list Z) : list Z :=
  match s with c :: s' => if p c then c :: take_while p s' else [] | [] => [] end.
Fixpoint drop_while (p : Z -> bool) (s : list Z) : list Z :=
  match s with c :: s' => if p c then drop_while p s' else s | [] => [] end.

(** [fgets]: at most [n] bytes, up to the end of the line with its newline. *)
Fixpoint fgets (n : nat) (s : list Z) : list Z * list Z :=
  match n, s with
  | S n', c :: s' => if c =? NEWLINE then ([c], s') else let '(l, rest) := fgets n' s' in (c :: l, rest)
  | _, _ => ([], s)
  end.

(** [strtok]: the next token, and what the next call goes on with. *)
Definition strtok (s : list Z) : option (list Z) * list Z :=
  match drop_while is_delim s with
  | [] => (None, [])
  | s' => (Some (take_while (fun c => negb (is_delim c)) s'), tail (drop_while (fun c => negb (is_delim c)) s'))
  end.

(** [atoi] on digits: what does not fit becomes [INT_MAX]. *)
Definition digits_value (s : list Z) : Z := fold_left (fun v c => 10 * v + (c - 48)) s 0.
Definition INT_MAX : Z := 2 ^ 31 - 1.
Definition atoi (s : list Z) : Z := Z.min INT_MAX (digits_value (take_while isdigit s)).
(** [sscanf(token, "%d-%d", ...)] on a token that [is_range] accepts. *)
Definition scan_range (s : list Z) : Z * Z := (atoi s, atoi (tail (drop_while isdigit s))).

(** ** The routines on lines and tokens *)

Definition strip_off_comment (line : list Z) : list Z := take_while (fun c => negb (c =? 35)) line.
Definition is_blank_line (line : list Z) : bool := forallb isspace line.
Definition is_integer (token : list Z) : bool :=
  match token with [] => false | _ => forallb isdigit token end.

Fixpoint range_loop (token : list Z) (nDigit nDash : Z) : bool :=
  match token with
  | [] => negb (negb (nDash =? 1) || (nDigit =? 0))
  | c :: token' =>
      if negb (isdigit c) && negb (is_dash c) then false
      else if is_dash c then
        if nDigit =? 0 then false else range_loop token' 0 (nDash + 1)
      else range_loop token' (nDigit + 1) nDash
  end.
Definition is_range (token : list Z) : bool :=
  match token with [] => false | _ => range_loop token 0 0 end.

Section Parser.
Context (avail : nat -> bool).
Notation M := (M conf).

Definition alloc : M bool :=
  s ← get; modify (fun s => s <| allocs := S (allocs s) |>);; mret (avail (allocs s)).

(** [fgets] into an array of 1024 bytes; a null byte in the file ends the string. *)
Definition read_one_line : M (option (list Z)) :=
  s ← get;
  match input s with
  | [] => mret None
  | _ =>
      let '(l, rest) := fgets 1023 (input s) in
      modify (fun s => s <| input := rest |>);;
      let line := take_while (fun c => negb (c =? 0)) l in
      mret (Some (match last line with
                  | Some c => if c =? NEWLINE then removelast line else line
                  | None => line
                  end))
  end.

(** [mac->nodeIDs[i]=id]: the array is the end of the entry, beyond it is memory of
    others. *)
Definition set_node (i id : Z) (mac : MAC_ENTRY) : M MAC_ENTRY :=
  if (0 <=? i) && (i <? NETQ_MAX_NODES_PER_HOST) then
    mret (mac <| nodeIDs := <[Z.to_nat i := id]> (nodeIDs mac) |>)
  else fault.
Definition get_node (mac : MAC_ENTRY) (i : Z) : M Z :=
  if i <? 0 then fault else or_fault (nodeIDs mac !! Z.to_nat i).

(** [for (j=from; j<=to; j++) mac->nodeIDs[i++]=j]. The index is beyond the array
    after as many steps as the fuel. *)
Fixpoint store_range (fuel : nat) (mac : MAC_ENTRY) (i j to : Z) : M (MAC_ENTRY * Z) :=
  match fuel with
  | O => stuck
  | S fuel' =>
      if j <=? to then mac ← set_node i j mac; store_range fuel' mac (i + 1) (int32 (j + 1)) to
      else mret (mac, i)
  end.

Definition parse_token (token : list Z) (mac : MAC_ENTRY) (i : Z) : M (option (MAC_ENTRY * Z)) :=
  if existsb is_dash token then
    if negb (is_range token) then mret None
    else
      let '(a, b) := scan_range token in
      let '(from, to) := if b <? a then (b, a) else (a, b) in
      if nNodes mac <=? int32 (int32 (to - from) + i) then mret None
      else r ← store_range (S (S (Z.to_nat NETQ_MAX_NODES_PER_HOST))) mac i from to; mret (Some r)
  else if negb (is_integer token) then mret None
  else if nNodes mac <=? i then mret None
  else mac ← set_node i (atoi token) mac; mret (Some (mac, i + 1)).

(** [while ((token=strtok(NULL, "\t ")))]: every token is a byte at least. *)
Fixpoint token_loop (fuel : nat) (rest : list Z) (mac : MAC_ENTRY) (i : Z) : M (option MAC_ENTRY) :=
  match fuel with
  | O => stuck
  | S fuel' =>
      match strtok rest with
      | (None, _) => mret (Some mac)
      | (Some token, rest') =>
          r ← parse_token token mac i;
          match r with
          | None => mret None
          | Some (mac', i') => token_loop fuel' rest' mac' i'
          end
      end
  end.

Definition parse_one_line (line : list Z) : M (option MAC_ENTRY) :=
  ok ← alloc;
  if negb ok then mret None
  else
    let '(hostname, r1) := strtok line in
    let '(sNodes, r2) := strtok r1 in
    match hostname, sNodes with
    | Some hostname, Some sNodes =>
        if negb (is_integer sNodes) then mret None
        else
          let n := atoi sNodes in
          if n <? 0 then mret None
          else
            token_loop (S (length r2)) r2
              (mkMac (take (Z.to_nat NETQ_MAX_HOST_NAME) hostname) n
                 (replicate (Z.to_nat NETQ_MAX_NODES_PER_HOST) (-1))) 0
    | _, _ => mret None
    end.

(** ** The whole file *)

(** [while ((line=read_one_line(input)))]: the entries, and the sum of their nodes;
    every line is a byte at least. *)
Fixpoint read_loop (fuel : nat) (macs : list MAC_ENTRY) (total : Z) : M (option (list MAC_ENTRY * Z)) :=
  match fuel with
  | O => stuck
  | S fuel' =>
      l ← read_one_line;
      match l with
      | None => mret (Some (macs, total))
      | Some line =>
          let line := strip_off_comment line in
          if is_blank_line line then read_loop fuel' macs total
          else
            r ← parse_one_line line;
            if Z.of_nat (length macs) <? NETQ_MAX_NODES then
              match r with
              | None => mret None
              | Some mac => read_loop fuel' (macs ++ [mac]) (int32 (total + nNodes mac))
              end
            else fault
      end
  end.

(** The array [used]; [None] when it could not be allocated. *)
Notation marks := (option (list bool)).
Definition is_used (used : marks) (id : Z) : M bool :=
  match used with
  | Some u => if id <? 0 then fault else or_fault (u !! Z.to_nat id)
  | None => fault
  end.
Definition set_used (used : marks) (id : Z) : M marks :=
  match used with
  | Some u => if (0 <=? id) && (id <? Z.of_nat (length u)) then mret (Some (<[Z.to_nat id := true]> u)) else fault
  | None => fault
  end.

(** [for (j=0; j<macs[i]->nNodes; j++)]: [None] is a conflict. *)
Fixpoint check_nodes (n : nat) (mac : MAC_ENTRY) (j total : Z) (used : marks) : M (option marks) :=
  match n with
  | O => mret (Some used)
  | S n' =>
      id ← get_node mac j;
      if total <=? id then mret None
      else
        b ← (if id =? -1 then mret false else is_used used id);
        if b : bool then mret None
        else if id =? -1 then mret (Some used)
        else used ← set_used used id; check_nodes n' mac (j + 1) total used
  end.
(** [mac_list[i]=macs[i]] before each machine's nodes. *)
Fixpoint check_macs (list_ok : bool) (macs : list MAC_ENTRY) (total : Z) (used : marks) : M (option marks) :=
  match macs with
  | [] => mret (Some used)
  | mac :: macs' =>
      if list_ok then
        r ← check_nodes (Z.to_nat (nNodes mac)) mac 0 total used;
        match r with
        | None => mret None
        | Some used => check_macs list_ok macs' total used
        end
      else fault
  end.

(** [while (used[k]) k++]: outside of the array at the latest after its length. *)
Fixpoint next_unused (fuel : nat) (used : marks) (k : Z) : M Z :=
  match fuel with
  | O => stuck
  | S fuel' => b ← is_used used k; if b : bool then next_unused fuel' used (k + 1) else mret k
  end.
Definition scan_fuel (used : marks) : nat := match used with Some u => S (length u) | None => 1 end.

Fixpoint fill_nodes (n : nat) (mac : MAC_ENTRY) (j : Z) (used : marks) (k : Z) : M (MAC_ENTRY * marks * Z) :=
  match n with
  | O => mret (mac, used, k)
  | S n' =>
      id ← get_node mac j;
      if id =? -1 then
        k ← next_unused (scan_fuel used) used k;
        mac ← set_node j k mac;
        used ← set_used used k;
        fill_nodes n' mac (j + 1) used k
      else fill_nodes n' mac (j + 1) used k
  end.
Fixpoint fill_macs (macs : list MAC_ENTRY) (used : marks) (k : Z) : M (list MAC_ENTRY) :=
  match macs with
  | [] => mret []
  | mac :: macs' =>
      r ← fill_nodes (Z.to_nat (nNodes mac)) mac 0 used k;
      let '(mac', used', k') := r in
      rest ← fill_macs macs' used' k'; mret (mac' :: rest)
  end.

(** The part of [netq_parseGrpFile] after the file is read: the ids the user gave are
    checked and marked, the other nodes get the ids that are left. [calloc(total)] has
    room for nothing when the total has become negative. *)
Definition assign_nodes (macs : list MAC_ENTRY) (total : Z) : M (option (list MAC_ENTRY)) :=
  used_ok ← alloc;
  list_ok ← alloc;
  let used := if used_ok && (0 <=? total) then Some (replicate (Z.to_nat total) false) else None in
  r ← check_macs list_ok macs total used;
  match r with
  | None => mret None
  | Some used =>
      macs ← fill_macs macs used 0;
      mret (if list_ok : bool then Some macs else None)
  end.

(** [file] is [None] when it cannot be opened. *)
Definition netq_parseGrpFile (file : option (list Z)) : M (option (list MAC_ENTRY)) :=
  match file with
  | None => mret None
  | Some text =>
      modify (fun s => s <| input := text |>);;
      r ← read_loop (S (length text)) [] 0;
      match r with
      | None => mret None
      | Some (macs, total) => assign_nodes macs total
      end
  end.
End Parser.

(** ** Command line and defaults *)

(** The argument vector: the pointers up to the null that ends it. *)
Notation argv := (list (option (list Z))).

(** [netq_strip_out_args]: from place [a] on everything moves down by [num]; the
    caller's counter [i0] bounds the loop, and a null is put after it. *)
Fixpoint strip_loop (n : nat) (v : argv) (a num : Z) : option (argv * Z) :=
  match n with
  | O => Some (v, a)
  | S n' =>
      match v !! Z.to_nat (a + num) with
      | Some x => strip_loop n' (<[Z.to_nat a := x]> v) (a + 1) num
      | None => None
      end
  end.
Definition netq_strip_out_args (v : argv) (a argc i0 num : Z) : option (argv * Z) :=
  match strip_loop (Z.to_nat (argc - num - i0 + 1)) v a num with
  | Some (v, a) => if Z.of_nat (length v) <=? a then None else Some (<[Z.to_nat a := None]> v, argc - num)
  | None => None
  end.

(** The loop of [netq_initEnv] over the arguments, from the last to the first, after
    [netd_initEnv] has taken off its own: the group file and the resource file. *)
Definition MAX_FILENAME_LENGTH : nat := 1023.
Definition opt_netqgrp : list Z := [45; 110; 101; 116; 113; 103; 114; 112].
Definition opt_netqres : list Z := [45; 110; 101; 116; 113; 114; 101; 115].
Record flags := mkFlags { args : argv; argc : Z; grpFileName : list Z; resFileName : list Z }.
Fixpoint netq_flags (i : nat) (fl : flags) : option flags :=
  match i with
  | O => Some fl
  | S i' =>
      match args fl !! i' with
      | Some (Some arg) =>
          if decide (arg = opt_netqgrp \/ arg = opt_netqres) then
            match args fl !! i, netq_strip_out_args (args fl) (Z.of_nat i') (argc fl) (Z.of_nat i) 2 with
            | Some (Some name), Some (v, n) =>
                let name := take MAX_FILENAME_LENGTH name in
                netq_flags i' (if decide (arg = opt_netqgrp) then mkFlags v n name (resFileName fl)
                               else mkFlags v n (grpFileName fl) name)
            | _, _ => None
            end
          else netq_flags i' fl
      | _ => None
      end
  end.

Record PROG_RES := mkRes {
  res_nNodes : Z; nExecTime : Z; nCPU : Z; nMemory : Z; nDisk : Z; nNetComm : Z;
  nMachines : Z; cache : option (list MAC_ENTRY); ignore_cache : Z
}.
#[export] Instance eta_res : Eta PROG_RES :=
  MkEta _ (fun r => mkRes (res_nNodes r) (nExecTime r) (nCPU r) (nMemory r) (nDisk r) (nNetComm r)
                     (nMachines r) (cache r) (ignore_cache r)).
Definition netq_getDefaultResource (res : PROG_RES) : PROG_RES * Z :=
  let n := 4 in
  (res <| res_nNodes := n |> <| nExecTime := n * 4 |> <| nCPU := n * 2 |> <| nMemory := n * 4 |>
       <| nDisk := n * 1 |> <| nNetComm := n * n * 1 |> <| cache := None |> <| ignore_cache := 0 |>, 0).
