(* ===== verification/NetqConfProps.v ===== *)
(** The meaning of a group file (net/netd/netq.c), and theorems on its parser: what a
    file with given lines assigns to the machines, and the range that overruns. *)
From S2P Require Import Prelude NetqConf.
Open Scope Z_scope.

(** ** The text of a group file *)

(** Decimal notation; [k] bounds the number of digits. *)
Fixpoint dec (k : nat) (n : Z) : list Z :=
  match k with
  | O => []
  | S k' => if n <? 10 then [48 + n] else dec k' (n / 10) ++ [48 + n mod 10]
  end.
Definition number (n : Z) : list Z := dec 10 n.
Arguments number : simpl never.

(** An item of a line: one id, or two with a dash between them, in either order. *)
Inductive item := One (k : Z) | Span (a b : Z).
Definition item_text (x : item) : list Z :=
  match x with One k => number k | Span a b => number a ++ DASH :: number b end.
Definition item_ids (x : item) : list Z :=
  match x with One k => [k] | Span a b => seqZ (Z.min a b) (Z.max a b - Z.min a b + 1) end.

Record entry := mkEntry { host : list Z; count : Z; items : list item }.
Definition named (e : entry) : list Z := concat (item_ids <$> items e).

(** Words with one space between them. *)
Fixpoint join (ws : list (list Z)) : list Z :=
  match ws with
  | [] => []
  | [w] => w
  | w :: ws' => w ++ 32 :: join ws'
  end.
Definition entry_text (e : entry) : list Z := join (host e :: number (count e) :: (item_text <$> items e)).

(** A line: a machine or nothing, and a remark or none. *)
Notation gline := (option entry * option (list Z))%type.
Definition line_text (l : gline) : list Z :=
  from_option entry_text [] (fst l) ++ from_option (cons 35) [] (snd l).
Definition file_text (ls : list gline) : list Z := concat ((fun l => line_text l ++ [NEWLINE]) <$> ls).

(** A word has no blanks, nor the characters that end a line, a remark, a string. *)
Definition word_char (c : Z) : bool := negb (isspace c) && negb (c =? 35) && negb (c =? 0).
Definition remark_char (c : Z) : bool := negb (c =? NEWLINE) && negb (c =? 0).
Definition id_ok (k : Z) : bool := (0 <=? k) && (k <=? INT_MAX).
Definition item_ok (x : item) : bool :=
  match x with One k => id_ok k | Span a b => id_ok a && id_ok b && (Z.max a b <? INT_MAX) end.
Definition word (w : list Z) : bool := negb (bool_decide (w = [])) && forallb word_char w.
(** What a user may write for a machine: the items name as many ids as the machine has
    nodes at most, and no more than 256. *)
Definition entry_ok (e : entry) : bool :=
  word (host e) && (Z.of_nat (length (host e)) <=? NETQ_MAX_HOST_NAME) &&
  (0 <=? count e) && (count e <=? NETQ_MAX_NODES_PER_HOST) && forallb item_ok (items e) &&
  (Z.of_nat (length (named e)) <=? count e).
Definition line_ok (l : gline) : bool :=
  from_option entry_ok true (fst l) && from_option (forallb remark_char) true (snd l) &&
  (length (line_text l) <? 1023)%nat.

(** ** What it means *)

Definition total_nodes (es : list entry) : Z := foldr (fun e t => count e + t) 0 es.
Definition given (es : list entry) : list Z := concat (named <$> es).
(** The ids nobody asked for, in increasing order. *)
Definition unnamed (seen : list Z) (k total : Z) : list Z :=
  filter (fun i => i ∉ seen) (seqZ k (total - k)).
(** Each machine has the ids its line names, then ids from those that are left. *)
Fixpoint hand_out (es : list entry) (free : list Z) : list MAC_ENTRY :=
  match es with
  | [] => []
  | e :: es' =>
      let m := (Z.to_nat (count e) - length (named e))%nat in
      mkMac (host e) (count e) (named e ++ take m free ++ replicate (256 - Z.to_nat (count e)) (-1)) ::
      hand_out es' (drop m free)
  end.
Definition consistent (es : list entry) : Prop :=
  NoDup (given es) /\ Forall (fun k => k < total_nodes es) (given es).
#[export] Instance consistent_dec es : Decision (consistent es).
Proof. unfold consistent. apply _. Defined.
Definition group_of (es : list entry) : option (list MAC_ENTRY) :=
  if decide (consistent es) then Some (hand_out es (unnamed (given es) 0 (total_nodes es))) else None.

(** All ids of the nodes of the machines. *)
Definition all_ids (macs : list MAC_ENTRY) : list Z :=
  concat ((fun m => take (Z.to_nat (nNodes m)) (nodeIDs m)) <$> macs).

(** ** Characters and words *)

Lemma take_while_app p a b : forallb p a = true -> take_while p (a ++ b) = a ++ take_while p b.
Proof. induction a as [|c a IH]; cbn; [done|]. intros [-> H]%andb_prop. by rewrite IH. Qed.
Lemma take_while_all p a : forallb p a = true -> take_while p a = a.
Proof. intros H. pose proof (take_while_app p a [] H) as E. cbn in E. by rewrite !app_nil_r in E. Qed.
Lemma drop_while_app p a b : forallb p a = true -> drop_while p (a ++ b) = drop_while p b.
Proof. induction a as [|c a IH]; cbn; [done|]. intros [-> H]%andb_prop. by apply IH. Qed.
Lemma drop_while_all p a : forallb p a = true -> drop_while p a = [].
Proof. intros H. pose proof (drop_while_app p a [] H) as E. cbn in E. by rewrite app_nil_r in E. Qed.
Lemma forallb_impl (p q : Z -> bool) l : (forall c, p c = true -> q c = true) -> forallb p l = true -> forallb q l = true.
Proof. intros H. induction l as [|c l IH]; cbn; [done|]. intros [H1 H2]%andb_prop. by rewrite H, IH. Qed.

Lemma word_char_delim c : word_char c = true -> negb (is_delim c) = true.
Proof. unfold word_char, is_delim, isspace. intros. lia. Qed.

Lemma word_inv w : word w = true -> exists c w', w = c :: w' /\ forallb word_char w = true.
Proof.
  unfold word. intros [H1 H2]%andb_prop. destruct w as [|c w']; [done|]. by exists c, w'.
Qed.

(** [strtok] on words takes the first one. *)
Lemma strtok_join w ws : word w = true -> strtok (join (w :: ws)) = (Some w, join ws).
Proof.
  intros (c & w' & -> & Hw)%word_inv. unfold strtok.
  assert (Hd : negb (is_delim c) = true) by (cbn [forallb] in Hw; apply word_char_delim; by apply andb_prop in Hw as [? _]).
  assert (Hn : forallb (fun c => negb (is_delim c)) (c :: w') = true)
    by (eapply forallb_impl; [|exact Hw]; apply word_char_delim).
  assert (E : forall r, drop_while is_delim ((c :: w') ++ r) = (c :: w') ++ r)
    by (intros r; cbn; destruct (is_delim c); done).
  assert (T : forall r, (r = [] \/ exists r', r = 32 :: r') -> 
    match drop_while is_delim ((c :: w') ++ r) with
    | [] => (None, [])
    | s' => (Some (take_while (fun c => negb (is_delim c)) s'), tail (drop_while (fun c => negb (is_delim c)) s'))
    end = (Some (c :: w'), tail r)).
  { intros r Hr. rewrite E. 
    transitivity (Some (take_while (fun c => negb (is_delim c)) ((c :: w') ++ r)),
                  tail (drop_while (fun c => negb (is_delim c)) ((c :: w') ++ r))); [done|].
    rewrite (take_while_app _ _ _ Hn), (drop_while_app _ _ _ Hn).
    destruct Hr as [->|[r' ->]]; cbn; by rewrite app_nil_r. }
  destruct ws as [|v ws].
  - specialize (T []). rewrite app_nil_r in T. apply T. by left.
  - apply (T (32 :: join (v :: ws))). right. by eexists.
Qed.

(** ** Numbers *)

Lemma digits_value_snoc l c : digits_value (l ++ [c]) = 10 * digits_value l + (c - 48).
Proof. unfold digits_value. by rewrite fold_left_app. Qed.

Lemma dec_spec k n : 0 <= n < 10 ^ Z.of_nat k -> (0 < k)%nat ->
  forallb isdigit (dec k n) = true /\ dec k n <> [] /\ digits_value (dec k n) = n.
Proof.
  revert n. induction k as [|k IH]; intros n Hn Hk; [lia|]. cbn [dec].
  destruct (Z.ltb_spec n 10) as [H|H].
  - unfold isdigit. cbn. repeat split; [lia|done|]. unfold digits_value. cbn. lia.
  - assert (Hk' : (0 < k)%nat). { destruct k; [|lia]. cbn in Hn. lia. }
    assert (Hd : 0 <= n / 10 < 10 ^ Z.of_nat k).
    { rewrite Nat2Z.inj_succ, Z.pow_succ_r in Hn by lia. split; [apply Z.div_pos; lia|]. apply Z.div_lt_upper_bound; lia. }
    destruct (IH _ Hd Hk') as (H1 & H2 & H3). pose proof (Z.mod_pos_bound n 10 ltac:(lia)).
    repeat split.
    + rewrite forallb_app, H1. unfold isdigit. cbn. lia.
    + by destruct (dec k (n / 10)).
    + rewrite digits_value_snoc, H3. pose proof (Z.div_mod n 10 ltac:(lia)). lia.
Qed.

Lemma number_spec n : id_ok n = true ->
  forallb isdigit (number n) = true /\ number n <> [] /\ digits_value (number n) = n.
Proof. unfold id_ok, INT_MAX. intros H. apply dec_spec; lia. Qed.

Lemma digit_word s : forallb isdigit s = true -> s <> [] -> word s = true.
Proof.
  intros H Hn. unfold word. rewrite bool_decide_eq_false_2 by done. cbn.
  eapply forallb_impl; [|exact H]. unfold isdigit, word_char, isspace. lia.
Qed.

Lemma atoi_number n r : id_ok n = true -> (forall c r', r = c :: r' -> isdigit c = false) -> atoi (number n ++ r) = n.
Proof.
  intros Hn Hr. destruct (number_spec n Hn) as (H1 & _ & H3). unfold atoi.
  rewrite take_while_app by done.
  assert (E : take_while isdigit r = []) by (destruct r as [|c r]; cbn; [done|by rewrite (Hr c r)]).
  rewrite E, app_nil_r, H3. unfold id_ok in Hn. lia.
Qed.

Lemma is_integer_number n : id_ok n = true -> is_integer (number n) = true.
Proof. intros Hn. destruct (number_spec n Hn) as (H1 & H2 & _). unfold is_integer. by destruct (number n). Qed.

Lemma no_dash_digits s : forallb isdigit s = true -> existsb is_dash s = false.
Proof.
  induction s as [|c s IH]; cbn; [done|]. intros [H1 H2]%andb_prop. rewrite IH by done.
  unfold isdigit in H1. unfold is_dash, DASH. lia.
Qed.

Lemma range_loop_digits s r d k : forallb isdigit s = true -> 0 <= d ->
  range_loop (s ++ r) d k = range_loop r (d + Z.of_nat (length s)) k.
Proof.
  revert d. induction s as [|c s IH]; intros d H Hd; cbn -[Z.of_nat]; [f_equal; lia|]. cbn in H. apply andb_prop in H as [H1 H2].
  rewrite H1. cbn -[Z.of_nat]. assert (E : is_dash c = false) by (unfold isdigit in H1; unfold is_dash, DASH; lia).
  rewrite E, IH by (done || lia). f_equal. lia.
Qed.

Lemma is_range_span a b : id_ok a = true -> id_ok b = true -> is_range (number a ++ DASH :: number b) = true.
Proof.
  intros Ha Hb. destruct (number_spec a Ha) as (A1 & A2 & _). destruct (number_spec b Hb) as (B1 & B2 & _).
  assert (H : range_loop (number a ++ DASH :: number b) 0 0 = true).
  { rewrite range_loop_digits by (done || lia).
    assert (La : (0 < length (number a))%nat) by (destruct (number a); [done|cbn; lia]).
    assert (Lb : (0 < length (number b))%nat) by (destruct (number b); [done|cbn; lia]).
    transitivity (if 0 + Z.of_nat (length (number a)) =? 0 then false else range_loop (number b) 0 1); [done|].
    destruct (Z.eqb_spec (0 + Z.of_nat (length (number a))) 0) as [?|_]; [lia|]. rewrite <- (app_nil_r (number b)).
    rewrite range_loop_digits by (done || lia). cbn -[Z.of_nat number]. lia. }
  unfold is_range. by destruct (number a).
Qed.

Lemma scan_range_span a b : id_ok a = true -> id_ok b = true -> scan_range (number a ++ DASH :: number b) = (a, b).
Proof.
  intros Ha Hb. unfold scan_range. rewrite atoi_number by (done || by intros c r [= <- _]).
  destruct (number_spec a Ha) as (A1 & _). rewrite drop_while_app by done.
  change (tail (drop_while isdigit (DASH :: number b))) with (number b).
  pose proof (atoi_number b [] Hb ltac:(done)) as E. rewrite app_nil_r in E. by rewrite E.
Qed.

Lemma span_word a b : id_ok a = true -> id_ok b = true -> word (number a ++ DASH :: number b) = true.
Proof.
  intros Ha Hb. destruct (number_spec a Ha) as (A1 & A2 & _). destruct (number_spec b Hb) as (B1 & B2 & _).
  pose proof (digit_word _ A1 A2) as (c & w & Ea & WA)%word_inv. pose proof (digit_word _ B1 B2) as (c' & w' & Eb & WB)%word_inv.
  unfold word. rewrite bool_decide_eq_false_2 by (by rewrite Ea). rewrite forallb_app. cbn. by rewrite WA, WB.
Qed.

Lemma item_word x : item_ok x = true -> word (item_text x) = true.
Proof.
  destruct x as [k|a b]; cbn; intros H.
  - destruct (number_spec k H) as (H1 & H2 & _). by apply digit_word.
  - apply andb_prop in H as [[Ha Hb]%andb_prop _]. by apply span_word.
Qed.

(** ** Reading a line *)

Lemma fgets_line n l rest : forallb (fun c => negb (c =? NEWLINE)) l = true -> (length l < n)%nat ->
  fgets n (l ++ NEWLINE :: rest) = (l ++ [NEWLINE], rest).
Proof.
  revert n. induction l as [|c l IH]; intros n Hl Hn; (destruct n as [|n]; [cbn in Hn; lia|]); cbn in *; [done|].
  apply andb_prop in Hl as [Hc Hl]. destruct (c =? NEWLINE); [done|]. by rewrite IH by (done || lia).
Qed.

Lemma remark_char_split c : remark_char c = true -> negb (c =? NEWLINE) = true /\ negb (c =? 0) = true.
Proof. unfold remark_char. intros H. by apply andb_prop in H. Qed.

Section Machines.
Context (avail : nat -> bool) (room : forall k, avail k = true).

Lemma read_line l rest s : input s = l ++ NEWLINE :: rest -> forallb remark_char l = true -> (length l < 1023)%nat ->
  read_one_line s = Ret (Some l) (s <| input := rest |>).
Proof.
  intros Hs Hl Hn. unfold read_one_line. mrun. rewrite Hs.
  assert (H1 : forallb (fun c => negb (c =? NEWLINE)) l = true) by (eapply forallb_impl; [|exact Hl]; apply remark_char_split).
  assert (H2 : forallb (fun c => negb (c =? 0)) (l ++ [NEWLINE]) = true).
  { rewrite forallb_app. cbn. rewrite andb_true_r. eapply forallb_impl; [|exact Hl]; apply remark_char_split. }
  destruct (l ++ NEWLINE :: rest) eqn:E; [by destruct l|]. rewrite <- E.
  rewrite fgets_line, take_while_all, last_snoc by done. rewrite removelast_last. done.
Qed.

Lemma read_end s : input s = [] -> read_one_line s = Ret None s.
Proof. unfold read_one_line. mrun. by intros ->. Qed.

(** ** The ids of a line *)

Definition node_list (l : list Z) : list Z := l ++ replicate (256 - length l) (-1).

Lemma set_node_next h n l id (s : conf) : (length l < 256)%nat ->
  set_node (Z.of_nat (length l)) id (mkMac h n (node_list l)) s = Ret (mkMac h n (node_list (l ++ [id]))) s.
Proof.
  intros Hl. unfold set_node, NETQ_MAX_NODES_PER_HOST. 
  replace ((0 <=? Z.of_nat (length l)) && (Z.of_nat (length l) <? 256)) with true by lia.
  cbn. do 2 f_equal. unfold node_list. rewrite length_app, Nat2Z.id, <- app_assoc. cbn.
  rewrite insert_app_r_alt, Nat.sub_diag by lia. 
  by replace (256 - length l)%nat with (S (256 - (length l + 1)))%nat by lia.
Qed.

Lemma store_range_spec fuel h n l j to (s : conf) :
  0 <= j <= to + 1 -> to < INT_MAX -> (Z.to_nat (to + 1 - j) < fuel)%nat -> Z.of_nat (length l) + (to + 1 - j) <= 256 ->
  store_range fuel (mkMac h n (node_list l)) (Z.of_nat (length l)) j to s =
  Ret (mkMac h n (node_list (l ++ seqZ j (to + 1 - j))), Z.of_nat (length l) + (to + 1 - j)) s.
Proof.
  revert l j. induction fuel as [|fuel IH]; intros l j Hj Ht Hf Hl; [lia|]. cbn [store_range].
  destruct (Z.leb_spec j to) as [H|H].
  - rewrite (bind_Ret _ _ _ _ _ (set_node_next h n l j s ltac:(lia))).
    replace (int32 (j + 1)) with (j + 1) by (symmetry; apply int32_id; unfold is_int32, INT_MAX in *; lia).
    replace (Z.of_nat (length l) + 1) with (Z.of_nat (length (l ++ [j]))) by (rewrite length_app; cbn; lia).
    rewrite IH by (rewrite ?length_app; cbn; lia). rewrite length_app. cbn [length]. do 2 f_equal; [|lia].
    rewrite <- app_assoc. do 3 f_equal. rewrite (seqZ_cons j) by lia. cbn. do 2 f_equal; lia.
  - assert (j = to + 1) as -> by lia. replace (to + 1 - (to + 1)) with 0 by lia. cbn. by rewrite app_nil_r, Z.add_0_r.
Qed.

Lemma parse_token_item h n l x (s : conf) : item_ok x = true -> n <= 256 ->
  Z.of_nat (length l) + Z.of_nat (length (item_ids x)) <= n ->
  parse_token (item_text x) (mkMac h n (node_list l)) (Z.of_nat (length l)) s =
  Ret (Some (mkMac h n (node_list (l ++ item_ids x)), Z.of_nat (length (l ++ item_ids x)))) s.
Proof.
  intros Hx Hn Hl. rewrite length_app, Nat2Z.inj_add. unfold parse_token. destruct x as [k|a b]; cbn [item_text item_ids item_ok] in *.
  - destruct (number_spec k Hx) as (H1 & _). rewrite no_dash_digits, is_integer_number by done. cbn [negb nNodes].
    cbn in Hl. destruct (Z.leb_spec n (Z.of_nat (length l))); [lia|].
    pose proof (atoi_number k [] Hx ltac:(done)) as E. rewrite app_nil_r in E. rewrite E.
    rewrite (bind_Ret _ _ _ _ _ (set_node_next h n l k s ltac:(lia))). done.
  - apply andb_prop in Hx as [[Ha Hb]%andb_prop HM0]. 
    assert (existsb is_dash (number a ++ DASH :: number b) = true) as -> by (rewrite existsb_app; apply orb_true_r).
    rewrite is_range_span, scan_range_span by done. cbn [negb].
    assert (E : (if b <? a then (b, a) else (a, b)) = (Z.min a b, Z.max a b)) by (destruct (Z.ltb_spec b a); f_equal; lia).
    rewrite E. rewrite length_seqZ in *. unfold id_ok in *.
    set (m := Z.min a b) in *. set (M := Z.max a b) in *. assert (0 <= m <= M /\ M < INT_MAX) as [Hm HM] by lia. clearbody m M.
    assert (E1 : int32 (M - m) = M - m) by (apply int32_id; unfold is_int32, INT_MAX in *; lia).
    assert (E2 : int32 (M - m + Z.of_nat (length l)) = M - m + Z.of_nat (length l)) by (apply int32_id; unfold is_int32; lia).
    cbn [nNodes]. rewrite E1, E2. destruct (Z.leb_spec n (M - m + Z.of_nat (length l))); [lia|].
    replace (M - m + 1) with (M + 1 - m) in * by lia.
    erewrite bind_Ret by (apply store_range_spec; unfold NETQ_MAX_NODES_PER_HOST; lia).
    mrun. do 4 f_equal. lia.
Qed.

Lemma join_shorter w ws : word w = true -> (length (join ws) < length (join (w :: ws)))%nat.
Proof.
  intros (c & w' & -> & _)%word_inv. destruct ws as [|v ws]; [cbn; lia|].
  change (join ((c :: w') :: v :: ws)) with ((c :: w') ++ 32 :: join (v :: ws)). rewrite length_app. cbn -[join]. lia.
Qed.

Lemma token_loop_items fuel h n l xs (s : conf) : forallb item_ok xs = true -> n <= 256 ->
  Z.of_nat (length l) + Z.of_nat (length (concat (item_ids <$> xs))) <= n -> (length (join (item_text <$> xs)) < fuel)%nat ->
  token_loop fuel (join (item_text <$> xs)) (mkMac h n (node_list l)) (Z.of_nat (length l)) s =
  Ret (Some (mkMac h n (node_list (l ++ concat (item_ids <$> xs))))) s.
Proof.
  revert fuel l. induction xs as [|x xs IH]; intros fuel l Hx Hn Hl Hf; (destruct fuel as [|fuel]; [lia|]); cbn [token_loop].
  - cbn. by rewrite app_nil_r.
  - cbn [forallb] in Hx. apply andb_prop in Hx as [H1 H2]. rewrite !fmap_cons in *. cbn [concat] in *. rewrite length_app in Hl.
    rewrite strtok_join by (by apply item_word). pose proof (join_shorter (item_text x) (item_text <$> xs) (item_word x H1)).
    rewrite (bind_Ret _ _ _ _ _ (parse_token_item h n l x s H1 Hn ltac:(lia))).
    rewrite IH by (rewrite ?length_app; (done || lia)). by rewrite app_assoc.
Qed.

Lemma count_id n : 0 <= n -> n <= 256 -> id_ok n = true.
Proof. unfold id_ok, INT_MAX. lia. Qed.

Lemma entry_inv e : entry_ok e = true ->
  word (host e) = true /\ Z.of_nat (length (host e)) <= 255 /\ 0 <= count e <= 256 /\ forallb item_ok (items e) = true /\
  Z.of_nat (length (named e)) <= count e.
Proof.
  unfold entry_ok, NETQ_MAX_HOST_NAME, NETQ_MAX_NODES_PER_HOST. intros H.
  repeat match goal with K : _ && _ = true |- _ => apply andb_prop in K as [? ?] end. repeat split; (done || lia).
Qed.

Lemma parse_entry e s : entry_ok e = true ->
  parse_one_line avail (entry_text e) s =
  Ret (Some (mkMac (host e) (count e) (node_list (named e)))) (s <| allocs := S (allocs s) |>).
Proof.
  intros (Hh & Hhl & Hc & Hx & Hn)%entry_inv. unfold parse_one_line, alloc. mrun. rewrite room. cbn [negb].
  assert (Hid : id_ok (count e) = true) by (apply count_id; lia).
  destruct (number_spec _ Hid) as (D1 & D2 & _). unfold entry_text.
  rewrite strtok_join, strtok_join by (done || by apply digit_word). rewrite is_integer_number by done. cbn [negb].
  pose proof (atoi_number _ [] Hid ltac:(done)) as E. rewrite app_nil_r in E. rewrite E.
  destruct (Z.ltb_spec (count e) 0); [lia|]. rewrite take_ge by (unfold NETQ_MAX_HOST_NAME; lia).
  by rewrite (token_loop_items _ _ _ [] (items e)) by (cbn; (done || lia)).
Qed.

(** ** Reading the file *)

Definition mac_of (e : entry) : MAC_ENTRY := mkMac (host e) (count e) (node_list (named e)).
Definition entries (ls : list gline) : list entry := omap fst ls.
Definition plain (c : Z) : bool := remark_char c && negb (c =? 35).

Lemma plain_word w : word w = true -> forallb plain w = true.
Proof.
  intros (c & w' & -> & H)%word_inv. eapply forallb_impl; [|exact H].
  intros d. unfold word_char, plain, remark_char, isspace, NEWLINE. intros. lia.
Qed.

Lemma plain_join ws : Forall (fun w => word w = true) ws -> forallb plain (join ws) = true.
Proof.
  induction 1 as [|w ws Hw Hws IH]; [done|]. destruct ws as [|v ws]; [by apply plain_word|].
  change (join (w :: v :: ws)) with (w ++ 32 :: join (v :: ws)). rewrite forallb_app, plain_word by done. exact IH.
Qed.

Lemma plain_entry e : entry_ok e = true -> forallb plain (entry_text e) = true.
Proof.
  intros (Hh & _ & Hc & Hx & _)%entry_inv. apply plain_join. constructor; [done|]. constructor.
  - destruct (number_spec (count e)) as (D1 & D2 & _); [apply count_id; lia|]. by apply digit_word.
  - apply Forall_fmap, Forall_forall. intros x Hin. apply item_word.
    rewrite forallb_forall in Hx. apply Hx. by apply list_elem_of_In.
Qed.

Lemma entry_not_blank e : entry_ok e = true -> is_blank_line (entry_text e) = false.
Proof.
  intros ((c & w & E & Hw)%word_inv & _)%entry_inv. unfold entry_text. rewrite E. cbn [forallb] in Hw. rewrite E in Hw. cbn in Hw.
  apply andb_prop in Hw as [Hw _]. unfold is_blank_line. cbn. unfold word_char in Hw. by destruct (isspace c).
Qed.

Lemma line_inv l : line_ok l = true ->
  forallb remark_char (line_text l) = true /\ (length (line_text l) < 1023)%nat /\
  strip_off_comment (line_text l) = from_option entry_text [] (fst l) /\ from_option entry_ok true (fst l) = true.
Proof.
  unfold line_ok. intros [[He Hr]%andb_prop Hl]%andb_prop. apply Nat.ltb_lt in Hl.
  assert (Hp : forallb plain (from_option entry_text [] (fst l)) = true).
  { destruct (fst l) as [e|]; [|done]. by apply plain_entry. }
  split; [|split; [done|split; [|done]]].
  - unfold line_text. rewrite forallb_app. apply andb_true_intro. split.
    + eapply forallb_impl; [|exact Hp]. unfold plain. by intros c [? _]%andb_prop.
    + by destruct (snd l).
  - unfold strip_off_comment, line_text. rewrite take_while_app.
    + destruct (snd l); cbn; by rewrite app_nil_r.
    + eapply forallb_impl; [|exact Hp]. unfold plain. by intros c [_ ?]%andb_prop.
Qed.

Lemma total_nodes_nonneg es : forallb entry_ok es = true -> 0 <= total_nodes es <= 256 * Z.of_nat (length es).
Proof.
  induction es as [|e es IH]; [cbn; lia|]. change (total_nodes (e :: es)) with (count e + total_nodes es).
  cbn [forallb length]. intros [(_ & _ & H & _)%entry_inv H2]%andb_prop.
  specialize (IH H2). lia.
Qed.

Lemma file_text_cons l ls : file_text (l :: ls) = line_text l ++ NEWLINE :: file_text ls.
Proof. unfold file_text. cbn. by rewrite <- app_assoc. Qed.

Lemma entries_ok ls : forallb line_ok ls = true -> forallb entry_ok (entries ls) = true.
Proof.
  induction ls as [|l ls IH]; [done|]. cbn [forallb]. intros [(_ & _ & _ & H)%line_inv H2]%andb_prop.
  unfold entries. cbn. destruct (fst l); cbn in *; [|by apply IH]. apply andb_true_intro. split; [done|by apply IH].
Qed.

Lemma grp_read_loop_spec fuel ls macs total s :
  forallb line_ok ls = true -> input s = file_text ls -> (length (file_text ls) < fuel)%nat ->
  (length macs + length (entries ls) <= 256)%nat -> 0 <= total <= 256 * Z.of_nat (length macs) ->
  read_loop avail fuel macs total s =
  Ret (Some (macs ++ (mac_of <$> entries ls), total + total_nodes (entries ls)))
      (mkConf [] (allocs s + length (entries ls))).
Proof.
  revert fuel macs total s. induction ls as [|l ls IH]; intros fuel macs total s Hok Hs Hf Hn Ht;
    (destruct fuel as [|fuel]; [lia|]); cbn [read_loop].
  - rewrite (bind_Ret _ _ _ _ _ (read_end s Hs)). destruct s as [i a]. cbn in *. subst i.
    by rewrite app_nil_r, Z.add_0_r, Nat.add_0_r.
  - cbn [forallb] in Hok. apply andb_prop in Hok as [H1 H2]. destruct (line_inv l H1) as (L1 & L2 & L3 & L4).
    rewrite file_text_cons in *. rewrite length_app in Hf. cbn [length] in Hf.
    rewrite (bind_Ret _ _ _ _ _ (read_line _ _ s Hs L1 L2)). cbv beta iota zeta. rewrite L3. destruct (fst l) as [e|] eqn:El; cbn [from_option] in *.
    + assert (Ee : entries (l :: ls) = e :: entries ls) by (unfold entries; cbn; by rewrite El). rewrite Ee in *. cbn [length] in Hn.
      rewrite entry_not_blank by done. rewrite (bind_Ret _ _ _ _ _ (parse_entry e _ L4)).
      destruct (Z.ltb_spec (Z.of_nat (length macs)) NETQ_MAX_NODES) as [_|]; [|unfold NETQ_MAX_NODES in *; lia].
      destruct (entry_inv e L4) as (_ & _ & Hc & _).
      assert (E : int32 (total + count e) = total + count e). { apply int32_id; unfold is_int32. lia. } cbn [nNodes]. rewrite E.
      rewrite IH by (rewrite ?length_app; cbn; (done || lia)). rewrite <- app_assoc, fmap_cons.
      change (total_nodes (e :: entries ls)) with (count e + total_nodes (entries ls)). cbn [allocs input length upd app].
      rewrite Z.add_assoc. by replace (allocs s + S (length (entries ls)))%nat with (S (allocs s) + length (entries ls))%nat by lia.
    + assert (Ee : entries (l :: ls) = entries ls) by (unfold entries; cbn; by rewrite El). rewrite Ee in *.
      cbn [is_blank_line forallb]. rewrite IH by (cbn; (done || lia)). done.
Qed.

(** ** Checking the ids the user gave *)

Definition marks_ok (u : list bool) (total : Z) (seen : list Z) : Prop :=
  length u = Z.to_nat total /\ forall i, 0 <= i < total -> u !! Z.to_nat i = Some (bool_decide (i ∈ seen)).
(** The ids may be added to those seen before. *)
Definition fresh (r seen : list Z) (total : Z) : Prop :=
  NoDup r /\ (forall x, x ∈ r -> x ∉ seen) /\ Forall (fun k => k < total) r.
#[export] Instance fresh_dec r seen total : Decision (fresh r seen total).
Proof.
  refine (cast_if (decide (NoDup r /\ Forall (fun x => x ∉ seen) r /\ Forall (fun k => k < total) r)));
    unfold fresh; by rewrite <- Forall_forall.
Defined.

Lemma marks_none total : marks_ok (replicate (Z.to_nat total) false) total [].
Proof.
  split; [apply length_replicate|]. intros i Hi. rewrite lookup_replicate_2 by lia.
  by rewrite bool_decide_eq_false_2 by apply not_elem_of_nil.
Qed.

Lemma is_used_spec u total seen i (s : conf) : marks_ok u total seen -> 0 <= i < total ->
  is_used (Some u) i s = Ret (bool_decide (i ∈ seen)) s.
Proof. intros [_ H] Hi. unfold is_used. destruct (Z.ltb_spec i 0); [lia|]. by rewrite H. Qed.

Lemma set_used_spec u total seen i (s : conf) : marks_ok u total seen -> 0 <= i < total ->
  exists u', set_used (Some u) i s = Ret (Some u') s /\ marks_ok u' total (seen ++ [i]).
Proof.
  intros [Hl H] Hi. unfold set_used. replace ((0 <=? i) && (i <? Z.of_nat (length u))) with true by lia.
  eexists. split; [done|]. split; [by rewrite length_insert|]. intros j Hj.
  destruct (decide (j = i)) as [->|Hn].
  - rewrite list_lookup_insert_eq by lia. rewrite bool_decide_eq_true_2 by set_solver. done.
  - rewrite list_lookup_insert_ne, H by lia. f_equal. apply bool_decide_ext. set_solver.
Qed.

Lemma get_node_at h c (l r : list Z) j (s : conf) x : Z.of_nat (length l) = j ->
  get_node (mkMac h c (l ++ x :: r)) j s = Ret x s.
Proof.
  intros <-. unfold get_node. destruct (Z.ltb_spec (Z.of_nat (length l)) 0); [lia|]. cbn.
  rewrite Nat2Z.id, lookup_app_r, Nat.sub_diag by lia. done.
Qed.

Lemma fresh_cons x r seen total : fresh (x :: r) seen total <-> x < total /\ x ∉ seen /\ fresh r (seen ++ [x]) total.
Proof.
  unfold fresh. rewrite NoDup_cons, Forall_cons. split.
  - intros ([H1 H2] & H3 & H4 & H5). split; [done|]. split; [apply H3; left|]. split; [done|]. split; [|done].
    intros y Hy [Hs|E]%elem_of_app; [by apply (H3 y); [right|]|]. apply list_elem_of_singleton in E as ->. done.
  - intros (H1 & H2 & H3 & H4 & H5). split; [split; [|done]|].
    { intros Hx. apply (H4 x Hx). apply elem_of_app. right. by apply list_elem_of_singleton. }
    split; [|done]. intros y [->|Hy]%elem_of_cons; [done|]. intros Hs. apply (H4 y Hy). apply elem_of_app. by left.
Qed.

Lemma replicate_one_more (l : list Z) : (length l < 256)%nat ->
  replicate (256 - length l) (-1) = -1 :: replicate (256 - S (length l)) (-1).
Proof. intros H. by replace (256 - length l)%nat with (S (256 - S (length l))) by lia. Qed.

Lemma check_nodes_spec n h c (p r : list Z) total u seen (s : conf) :
  Z.of_nat n + Z.of_nat (length p) = c -> Z.of_nat (length (p ++ r)) <= c <= 256 -> Forall (fun k => 0 <= k) r -> 0 <= total ->
  marks_ok u total seen ->
  (fresh r seen total -> exists u', marks_ok u' total (seen ++ r) /\
    check_nodes n (mkMac h c (node_list (p ++ r))) (Z.of_nat (length p)) total (Some u) s = Ret (Some (Some u')) s) /\
  (~ fresh r seen total ->
    check_nodes n (mkMac h c (node_list (p ++ r))) (Z.of_nat (length p)) total (Some u) s = Ret None s).
Proof.
  intros Hn Hl Hr Ht. revert n p u seen Hn Hl. induction r as [|x r IH]; intros n p u seen Hn Hl Hu.
  - split; [|intros []; by repeat constructor; intros ? ?%not_elem_of_nil]. intros _. exists u. rewrite !app_nil_r. rewrite app_nil_r in Hl. split; [done|].
    destruct n as [|n]; [done|]. cbn [check_nodes]. unfold node_list. rewrite replicate_one_more by lia.
    rewrite (bind_Ret _ _ _ _ _ (get_node_at h c p _ _ s (-1) eq_refl)). destruct (Z.leb_spec total (-1)); [lia|]. done.
  - rewrite length_app in Hl. cbn [length] in Hl. destruct n as [|n]; [lia|]. cbn [check_nodes].
    apply Forall_cons in Hr as [Hx Hr].
    assert (E : node_list (p ++ x :: r) = p ++ x :: r ++ replicate (256 - length (p ++ x :: r)) (-1))
      by (unfold node_list; by rewrite <- app_assoc).
    assert (E' : node_list (p ++ x :: r) = node_list ((p ++ [x]) ++ r)) by (by rewrite <- app_assoc).
    assert (G : get_node (mkMac h c (node_list (p ++ x :: r))) (Z.of_nat (length p)) s = Ret x s) by (rewrite E; by apply get_node_at).
    rewrite !(bind_Ret _ _ _ _ _ G), fresh_cons.
    destruct (Z.leb_spec total x) as [H|H]; [split; [lia|done]|]. destruct (Z.eqb_spec x (-1)) as [H1|_]; [lia|].
    rewrite (bind_Ret _ _ _ _ _ (is_used_spec u total seen x s Hu ltac:(lia))).
    destruct (decide (x ∈ seen)) as [Hs|Hs].
    { rewrite bool_decide_eq_true_2 by done. split; [by intros (? & ? & ?)|done]. }
    rewrite bool_decide_eq_false_2 by done. destruct (set_used_spec u total seen x s Hu ltac:(lia)) as (u' & Eu & Hu').
    rewrite (bind_Ret _ _ _ _ _ Eu).
    destruct (IH Hr n (p ++ [x]) u' (seen ++ [x])) as [I1 I2]; [rewrite length_app; cbn; lia|rewrite !length_app; cbn; lia|done|].
    rewrite <- E' in I1, I2. replace (Z.of_nat (length (p ++ [x]))) with (Z.of_nat (length p) + 1) in I1, I2 by (rewrite length_app; cbn; lia).
    rewrite <- !app_assoc in I1. split.
    + intros (_ & _ & Hf). destruct (I1 Hf) as (w & Hw & ->). by exists w.
    + intros Hf. apply I2. tauto.
Qed.

Definition entry_good (e : entry) : Prop :=
  Z.of_nat (length (named e)) <= count e <= 256 /\ Forall (fun k => 0 <= k) (named e).

Lemma fresh_app r r' seen total : fresh (r ++ r') seen total <-> fresh r seen total /\ fresh r' (seen ++ r) total.
Proof.
  revert seen. induction r as [|x r IH]; intros seen.
  - rewrite app_nil_r. cbn. split; [|by intros [_ ?]]. intros H. split; [|done].
    repeat constructor. by intros ? ?%not_elem_of_nil.
  - cbn. rewrite !fresh_cons, IH, <- app_assoc. tauto.
Qed.

Lemma check_macs_spec es total u seen (s : conf) : Forall entry_good es -> 0 <= total -> marks_ok u total seen ->
  (fresh (given es) seen total -> exists u', marks_ok u' total (seen ++ given es) /\
    check_macs true (mac_of <$> es) total (Some u) s = Ret (Some (Some u')) s) /\
  (~ fresh (given es) seen total -> check_macs true (mac_of <$> es) total (Some u) s = Ret None s).
Proof.
  intros Hes Ht. revert u seen. induction Hes as [|e es [Hc Hid] Hes IH]; intros u seen Hu.
  - unfold given. cbn. rewrite app_nil_r. split; [intros _; by exists u|].
    intros []. repeat constructor. by intros ? ?%not_elem_of_nil.
  - change (given (e :: es)) with (named e ++ given es). rewrite fresh_app, fmap_cons. cbn [check_macs nNodes mac_of].
    destruct (check_nodes_spec (Z.to_nat (count e)) (host e) (count e) [] (named e) total u seen s) as [C1 C2];
      [cbn; lia|done|done|done|done|]. cbn [length app Z.of_nat] in C1, C2.
    destruct (decide (fresh (named e) seen total)) as [Hf|Hf].
    + destruct (C1 Hf) as (u' & Hu' & E). rewrite (bind_Ret _ _ _ _ _ E). destruct (IH u' _ Hu') as [I1 I2].
      rewrite <- app_assoc in I1. split; [intros [_ H]; by apply I1|intros H; apply I2; tauto].
    + rewrite (bind_Ret _ _ _ _ _ (C2 Hf)). split; [tauto|done].
Qed.

(** ** Filling in the rest *)

Lemma unnamed_cons seen k total : k < total ->
  unnamed seen k total = if decide (k ∈ seen) then unnamed seen (k + 1) total else k :: unnamed seen (k + 1) total.
Proof.
  intros H. unfold unnamed. rewrite seqZ_cons by lia. rewrite filter_cons.
  replace (Z.pred (total - k)) with (total - (k + 1)) by lia. replace (Z.succ k) with (k + 1) by lia.
  destruct (decide (k ∈ seen)); case_decide; done.
Qed.

Lemma unnamed_end seen k total : total <= k -> unnamed seen k total = [].
Proof. intros H. unfold unnamed. by rewrite seqZ_nil by lia. Qed.

(** What is used up behind the place of the search makes no difference. *)
Lemma unnamed_behind seen x k total : x < k -> unnamed (seen ++ [x]) k total = unnamed seen k total.
Proof.
  intros Hx. remember (Z.to_nat (total - k)) as n eqn:En. revert k Hx En. induction n as [|n IH]; intros k Hx En.
  - by rewrite !unnamed_end by lia.
  - rewrite (unnamed_cons (seen ++ [x])), (unnamed_cons seen), IH by lia.
    assert (k ∈ seen ++ [x] <-> k ∈ seen) by (rewrite elem_of_app, list_elem_of_singleton; intuition lia).
    destruct (decide (k ∈ seen)), (decide (k ∈ seen ++ [x])); try done; exfalso; tauto.
Qed.

Lemma next_unused_spec fuel u total seen k x fr (s : conf) : marks_ok u total seen -> 0 <= k ->
  unnamed seen k total = x :: fr -> (Z.to_nat (total - k) < fuel)%nat ->
  next_unused fuel (Some u) k s = Ret x s /\ k <= x < total /\ x ∉ seen /\ unnamed seen (x + 1) total = fr.
Proof.
  intros Hu. revert k. induction fuel as [|fuel IH]; intros k Hk Hfr Hf; [lia|].
  destruct (Z.ltb_spec k total) as [H|H]; [|by rewrite unnamed_end in Hfr by lia]. rewrite unnamed_cons in Hfr by done.
  cbn [next_unused]. rewrite (bind_Ret _ _ _ _ _ (is_used_spec u total seen k s Hu ltac:(lia))).
  destruct (decide (k ∈ seen)) as [Hs|Hs].
  - rewrite bool_decide_eq_true_2 by done. destruct (IH (k + 1) ltac:(lia) Hfr ltac:(lia)) as (-> & ? & ? & ?).
    repeat split; (done || lia).
  - rewrite bool_decide_eq_false_2 by done. injection Hfr as -> Hfr. repeat split; (done || lia).
Qed.

Lemma fill_rest n h c l u total seen k (s : conf) :
  (n + length l)%nat = Z.to_nat c -> c <= 256 -> 0 <= k -> marks_ok u total seen ->
  (n <= length (unnamed seen k total))%nat ->
  exists u' k' seen', fill_nodes n (mkMac h c (node_list l)) (Z.of_nat (length l)) (Some u) k s =
    Ret (mkMac h c (node_list (l ++ take n (unnamed seen k total))), Some u', k') s /\
    marks_ok u' total seen' /\ 0 <= k' /\ unnamed seen' k' total = drop n (unnamed seen k total).
Proof.
  revert l u seen k. induction n as [|n IH]; intros l u seen k Hn Hc Hk Hu Hfr.
  - exists u, k, seen. cbn. by rewrite app_nil_r.
  - destruct (unnamed seen k total) as [|x fr] eqn:Efr; [cbn in Hfr; lia|]. cbn [fill_nodes].
    assert (G : get_node (mkMac h c (node_list l)) (Z.of_nat (length l)) s = Ret (-1) s).
    { unfold node_list. rewrite replicate_one_more by lia. by apply get_node_at. }
    rewrite (bind_Ret _ _ _ _ _ G). rewrite Z.eqb_refl.
    destruct (next_unused_spec (scan_fuel (Some u)) u total seen k x fr s Hu Hk Efr) as (N & Hx & Hs & Hr).
    { cbn. destruct Hu as [-> _]. lia. }
    rewrite (bind_Ret _ _ _ _ _ N), (bind_Ret _ _ _ _ _ (set_node_next h c l x s ltac:(lia))).
    destruct (set_used_spec u total seen x s Hu ltac:(lia)) as (u' & Eu & Hu'). rewrite (bind_Ret _ _ _ _ _ Eu).
    replace (Z.of_nat (length l) + 1) with (Z.of_nat (length (l ++ [x]))) by (rewrite length_app; cbn; lia).
    assert (Ex : unnamed (seen ++ [x]) x total = fr).
    { rewrite unnamed_cons by lia. rewrite decide_True by set_solver. rewrite unnamed_behind by lia. done. }
    destruct (IH (l ++ [x]) u' (seen ++ [x]) x) as (w & k' & seen' & E & ? & ? & ?);
      [rewrite length_app; cbn; lia|done|lia|done|rewrite Ex; cbn in Hfr; lia|].
    rewrite Ex in *. exists w, k', seen'. rewrite E, <- app_assoc. done.
Qed.

(** The ids the user gave stay where they are. *)
Lemma fill_named m h c p r u k (s : conf) : Forall (fun k => 0 <= k) r ->
  fill_nodes (length r + m) (mkMac h c (node_list (p ++ r))) (Z.of_nat (length p)) (Some u) k s =
  fill_nodes m (mkMac h c (node_list (p ++ r))) (Z.of_nat (length (p ++ r))) (Some u) k s.
Proof.
  revert p. induction r as [|x r IH]; intros p Hr; [by rewrite app_nil_r|].
  apply Forall_cons in Hr as [Hx Hr]. cbn [length Nat.add fill_nodes].
  assert (G : get_node (mkMac h c (node_list (p ++ x :: r))) (Z.of_nat (length p)) s = Ret x s).
  { unfold node_list. rewrite <- app_assoc. by apply get_node_at. }
  rewrite (bind_Ret _ _ _ _ _ G). destruct (Z.eqb_spec x (-1)); [lia|].
  replace (Z.of_nat (length p) + 1) with (Z.of_nat (length (p ++ [x]))) by (rewrite length_app; cbn; lia).
  replace (p ++ x :: r) with ((p ++ [x]) ++ r) by (by rewrite <- app_assoc). by apply IH.
Qed.

Definition needs (e : entry) : nat := (Z.to_nat (count e) - length (named e))%nat.

Lemma fill_macs_spec es u total seen k (s : conf) : Forall entry_good es -> 0 <= k -> marks_ok u total seen ->
  (sum_list (needs <$> es) <= length (unnamed seen k total))%nat ->
  fill_macs (mac_of <$> es) (Some u) k s = Ret (hand_out es (unnamed seen k total)) s.
Proof.
  intros Hes. revert u seen k. induction Hes as [|e es [Hc Hid] Hes IH]; intros u seen k Hk Hu Hfr; [done|].
  cbn in Hfr. rewrite fmap_cons. cbn [fill_macs nNodes mac_of hand_out]. fold (needs e).
  assert (En : Z.to_nat (count e) = (length (named e) + needs e)%nat) by (unfold needs; lia).
  pose proof (fill_named (needs e) (host e) (count e) [] (named e) u k s Hid) as F. cbn [app length Z.of_nat] in F.
  destruct (fill_rest (needs e) (host e) (count e) (named e) u total seen k s) as (u' & k' & seen' & E & Hu' & Hk' & Er);
    [unfold needs; lia|lia|done|done|lia|].
  rewrite En. rewrite (bind_Ret _ _ _ _ _ (eq_trans F E)).
  erewrite bind_Ret by (apply (IH _ seen'); [done|done|]; rewrite Er, length_drop; lia). rewrite Er.
  mrun. do 2 f_equal. unfold node_list. rewrite <- app_assoc. do 3 f_equal.
  rewrite length_app, length_take. do 2 f_equal. lia.
Qed.

(** ** Counting *)

Lemma elem_of_unnamed seen total x : x ∈ unnamed seen 0 total <-> 0 <= x < total /\ x ∉ seen.
Proof. unfold unnamed. rewrite list_elem_of_filter, elem_of_seqZ. split; intros; split; (tauto || lia). Qed.

Lemma given_unnamed es : consistent es -> Forall entry_good es ->
  seqZ 0 (total_nodes es) ≡ₚ given es ++ unnamed (given es) 0 (total_nodes es).
Proof.
  intros [Hn Ht] Hes. rewrite Forall_forall in Ht. apply NoDup_Permutation.
  - apply NoDup_seqZ.
  - apply NoDup_app. split; [done|]. split; [|apply NoDup_filter, NoDup_seqZ]. intros x Hx [_ H]%elem_of_unnamed. done.
  - intros x. rewrite elem_of_app, elem_of_unnamed, elem_of_seqZ.
    assert (x ∈ given es -> 0 <= x < total_nodes es).
    { intros Hx. split; [|by apply Ht]. unfold given in Hx. apply list_elem_of_In, in_concat in Hx as (l & Hl & Hx).
      apply list_elem_of_In, list_elem_of_fmap in Hl as (e & -> & He). rewrite Forall_forall in Hes.
      destruct (Hes e He) as [_ Hp]. rewrite Forall_forall in Hp. apply Hp. by apply list_elem_of_In. }
    destruct (decide (x ∈ given es)); rewrite Z.add_0_l; tauto.
Qed.

Lemma needs_enough es : Forall entry_good es ->
  total_nodes es = Z.of_nat (length (given es) + sum_list (needs <$> es)).
Proof.
  induction 1 as [|e es [Hc _] _ IH]; [done|]. change (total_nodes (e :: es)) with (count e + total_nodes es).
  change (given (e :: es)) with (named e ++ given es). rewrite length_app, fmap_cons. cbn [sum_list_with id]. unfold needs at 1. cbn in IH |- *. lia.
Qed.

Lemma unnamed_length es : consistent es -> Forall entry_good es ->
  length (unnamed (given es) 0 (total_nodes es)) = sum_list (needs <$> es).
Proof.
  intros Hc Hes. pose proof (Permutation_length (given_unnamed es Hc Hes)) as H.
  rewrite length_app, length_seqZ, (needs_enough es Hes) in H at 1. rewrite needs_enough in H |- * by done. lia.
Qed.

Lemma all_ids_hand_out es fr : Forall entry_good es -> length fr = sum_list (needs <$> es) ->
  all_ids (hand_out es fr) ≡ₚ given es ++ fr.
Proof.
  intros Hes. revert fr. induction Hes as [|e es [Hc _] _ IH]; intros fr Hfr; cbn in Hfr.
  - by apply length_zero_iff_nil in Hfr as ->.
  - cbn [hand_out]. fold (needs e). unfold all_ids. rewrite fmap_cons. cbn [concat nNodes nodeIDs].
    fold (all_ids (hand_out es (drop (needs e) fr))). rewrite IH by (rewrite length_drop; lia).
    change (given (e :: es)) with (named e ++ given es). rewrite (app_assoc (named e) (take (needs e) fr)), take_app_length' by (rewrite length_app, length_take; unfold needs in *; lia).
    rewrite <- (take_drop (needs e) fr) at 3. rewrite <- !app_assoc. apply Permutation_app_head.
    rewrite !app_assoc. apply Permutation_app_tail. apply Permutation_app_comm.
Qed.

Lemma assign_nodes_spec es s : Forall entry_good es ->
  assign_nodes avail (mac_of <$> es) (total_nodes es) s = Ret (group_of es) (s <| allocs := S (S (allocs s)) |>).
Proof.
  intros Hes. assert (Ht : 0 <= total_nodes es) by (rewrite needs_enough by done; lia).
  unfold assign_nodes, alloc. mrun. rewrite !room. replace (0 <=? total_nodes es) with true by lia. cbn [andb].
  set (s2 := upd allocs _ _). assert (s2 = s <| allocs := S (S (allocs s)) |>) as -> by (by destruct s).
  set (s2 := upd allocs _ _). clearbody s2.
  destruct (check_macs_spec es (total_nodes es) _ [] s2 Hes Ht (marks_none _)) as [C1 C2].
  assert (Hf : fresh (given es) [] (total_nodes es) <-> consistent es).
  { unfold fresh, consistent. split; [tauto|]. intros [? ?]. repeat split; try done. intros ? _ ?%elem_of_nil. done. }
  unfold group_of. destruct (decide (consistent es)) as [Hc|Hc].
  - destruct (C1 (proj2 Hf Hc)) as (u' & Hu' & ->). cbn [app] in Hu'.
    rewrite (fill_macs_spec es u' _ (given es) 0 s2 Hes ltac:(lia) Hu') by (by rewrite unnamed_length). done.
  - rewrite C2 by tauto. done.
Qed.
End Machines.

Lemma entry_is_good e : entry_ok e = true -> entry_good e.
Proof.
  intros (_ & _ & Hc & Hx & Hn)%entry_inv. split; [lia|]. unfold named. apply Forall_concat, Forall_fmap, Forall_forall.
  intros x Hin. rewrite forallb_forall in Hx. specialize (Hx x (proj1 (list_elem_of_In _ _) Hin)).
  destruct x as [k|a b]; cbn in *; unfold id_ok in Hx.
  - constructor; [lia|constructor].
  - apply Forall_forall. intros y Hy%elem_of_seqZ. lia.
Qed.

Lemma entries_good es : forallb entry_ok es = true -> Forall entry_good es.
Proof.
  intros H. apply Forall_forall. intros e He. apply entry_is_good. rewrite forallb_forall in H.
  apply H. by apply list_elem_of_In.
Qed.

(** The parser on a file a user may write. *)
Lemma parse_grp_group avail ls s : (forall k, avail k = true) -> forallb line_ok ls = true -> (length (entries ls) <= 256)%nat ->
  exists s', netq_parseGrpFile avail (Some (file_text ls)) s = Ret (group_of (entries ls)) s'.
Proof.
  intros Ha Hls Hn. pose proof (entries_good _ (entries_ok ls Hls)) as Hes.
  eexists. unfold netq_parseGrpFile, modify. mrun.
  rewrite (grp_read_loop_spec avail Ha _ ls) by (cbn; (done || lia)). cbn [app Z.add].
  apply (assign_nodes_spec avail Ha); done.
Qed.

(** The ids of its machines are all there are. *)
Lemma group_ids ls macs : forallb line_ok ls = true -> group_of (entries ls) = Some macs ->
  all_ids macs ≡ₚ seqZ 0 (total_nodes (entries ls)).
Proof.
  intros Hls Hm. pose proof (entries_good _ (entries_ok ls Hls)) as Hes. unfold group_of in Hm.
  destruct (decide (consistent (entries ls))) as [Hc|]; [|done]. injection Hm as <-.
  rewrite all_ids_hand_out by (done || by apply unnamed_length). symmetry. by apply given_unnamed.
Qed.

(** ** Theorems *)

(** (C24) For a group file of at most 256 machines (NETQ_MAX_NODES, the size of the array they are
    collected in) made of lines a user may write (machines with the number of
    their nodes and any mix of ids and ranges, remarks, blank lines), and if no
    allocation fails, [netq_parseGrpFile] terminates without touching memory it does not
    own; it returns nothing if two nodes
    ask for one id or a node asks for an id that is not below the total number of nodes,
    and otherwise the machines in order, each with the ids its line names followed by the
    smallest ids nobody named; then the nodes of all machines have the ids 0 to the
    total less one, each id once. *)
Theorem grp_file_meaning avail ls s :
  (forall k, avail k = true) -> forallb line_ok ls = true -> (length (entries ls) <= 256)%nat ->
  (exists s', netq_parseGrpFile avail (Some (file_text ls)) s = Ret (group_of (entries ls)) s') /\
  (forall macs, group_of (entries ls) = Some macs -> all_ids macs ≡ₚ seqZ 0 (total_nodes (entries ls))).
Proof.
  intros Ha Hls Hn. split; [by apply parse_grp_group|]. intros macs. by apply group_ids.
Qed.

(** Three machines, eight nodes; a remark; the first machine names two ids, the last a
    range backwards. *)
Definition demo_file : list gline :=
  [(None, Some [32; 103; 114; 112]);
   (Some (mkEntry [97] 3 [One 7; One 0]), None);
   (None, None);
   (Some (mkEntry [98; 49] 2 []), Some [120]);
   (Some (mkEntry [99] 3 [Span 5 3]), None)].

Lemma grp_file_meaning_witness :
  (exists s, netq_parseGrpFile (fun _ => true) (Some (file_text demo_file)) (mkConf [] 0) =
    Ret (Some [mkMac [97] 3 (node_list [7; 0; 1]); mkMac [98; 49] 2 (node_list [2; 6]);
               mkMac [99] 3 (node_list [3; 4; 5])]) s) /\
  all_ids (default [] (group_of (entries demo_file))) ≡ₚ seqZ 0 8.
Proof.
  destruct (grp_file_meaning (fun _ => true) demo_file (mkConf [] 0)) as [H1 H2];
    [done|vm_compute; reflexivity|vm_compute; lia|]. split.
  - destruct H1 as [s H1]. exists s. rewrite H1. vm_compute. reflexivity.
  - apply H2. vm_compute. reflexivity.
Defined.

(** ** A range that ends at the greatest integer *)

Lemma store_range_overruns fuel h n l j (s : conf) : (length l <= 256)%nat -> j <= INT_MAX -> (256 - length l < fuel)%nat ->
  store_range fuel (mkMac h n (node_list l)) (Z.of_nat (length l)) j INT_MAX s = Fault.
Proof.
  revert l j. induction fuel as [|fuel IH]; intros l j Hl Hj Hf; [lia|]. cbn [store_range].
  destruct (Z.leb_spec j INT_MAX) as [_|]; [|lia]. destruct (decide (length l = 256)%nat) as [E|E].
  - unfold set_node, NETQ_MAX_NODES_PER_HOST. rewrite E. reflexivity.
  - rewrite (bind_Ret _ _ _ _ _ (set_node_next h n l j s ltac:(lia))).
    replace (Z.of_nat (length l) + 1) with (Z.of_nat (length (l ++ [j]))) by (rewrite length_app; cbn; lia).
    apply IH; rewrite ?length_app; cbn [length]; try lia. pose proof (int32_range (j + 1)). unfold is_int32, INT_MAX in *. lia.
Qed.

Lemma token_loop_fault fuel h n l xs w (s : conf) : forallb item_ok xs = true -> n <= 256 -> word w = true ->
  Z.of_nat (length l) + Z.of_nat (length (concat (item_ids <$> xs))) <= n ->
  (length (join ((item_text <$> xs) ++ [w])) < fuel)%nat ->
  parse_token w (mkMac h n (node_list (l ++ concat (item_ids <$> xs)))) (Z.of_nat (length (l ++ concat (item_ids <$> xs)))) s = Fault ->
  token_loop fuel (join ((item_text <$> xs) ++ [w])) (mkMac h n (node_list l)) (Z.of_nat (length l)) s = Fault.
Proof.
  intros Hx Hn Hw Hl Hf Hr. revert fuel l Hl Hf Hr. induction xs as [|x xs IH]; intros fuel l Hl Hf Hr;
    (destruct fuel as [|fuel]; [lia|]); cbn [token_loop].
  - cbn [fmap list_fmap app] in *. rewrite (strtok_join w []) by done. cbn in Hr. rewrite app_nil_r in Hr. unfold mbind, M_bind. by rewrite Hr.
  - cbn [forallb] in Hx. apply andb_prop in Hx as [H1 H2]. rewrite !fmap_cons in *. cbn [concat app] in *. rewrite length_app in Hl.
    rewrite strtok_join by (by apply item_word). pose proof (join_shorter (item_text x) ((item_text <$> xs) ++ [w]) (item_word x H1)).
    rewrite (bind_Ret _ _ _ _ _ (parse_token_item h n l x s H1 Hn ltac:(lia))).
    apply IH; [done|rewrite length_app; lia|lia|by rewrite <- app_assoc].
Qed.

(** What the check in front of the loop computes for a range from [a] to [INT_MAX] after
    the ids of [e]. *)
Definition passes_check (e : entry) (a : Z) : bool :=
  int32 (int32 (INT_MAX - a) + Z.of_nat (length (named e))) <? count e.

(** A range that ends at 2147483647 and passes the check on the number of nodes
    makes [parse_one_line] write beyond the array of ids: the loop over the range cannot
    end, as no integer is greater than its bound. The check lets such a range pass not
    only when it is short, but also when it is so long that the check overflows. *)
Theorem parse_one_line_overruns avail e a s :
  (forall k, avail k = true) -> entry_ok e = true -> id_ok a = true -> passes_check e a = true ->
  parse_one_line avail (join (host e :: number (count e) :: (item_text <$> items e) ++ [item_text (Span a INT_MAX)])) s = Fault.
Proof.
  intros Ha (Hh & Hhl & Hc & Hx & Hn)%entry_inv Hid Hp. unfold parse_one_line, alloc. mrun. rewrite Ha. cbn [negb].
  assert (Hi : id_ok (count e) = true) by (apply count_id; lia). destruct (number_spec _ Hi) as (D1 & D2 & _).
  assert (HM : id_ok INT_MAX = true) by done. assert (Hw : word (item_text (Span a INT_MAX)) = true) by (by apply span_word).
  rewrite strtok_join, strtok_join by (done || by apply digit_word). rewrite is_integer_number by done. cbn [negb].
  pose proof (atoi_number _ [] Hi ltac:(done)) as E. rewrite app_nil_r in E. rewrite E.
  destruct (Z.ltb_spec (count e) 0); [lia|]. apply (token_loop_fault _ _ _ [] (items e)); [done|lia|done|cbn; fold (named e); lia|lia|].
  cbn [app]. fold (named e). unfold parse_token. cbn [item_text].
  assert (existsb is_dash (number a ++ DASH :: number INT_MAX) = true) as -> by (rewrite existsb_app; apply orb_true_r).
  rewrite is_range_span, scan_range_span by done. cbn [negb].
  unfold id_ok in Hid. destruct (Z.ltb_spec INT_MAX a); [lia|]. cbn [nNodes]. unfold passes_check in Hp.
  destruct (Z.leb_spec (count e) (int32 (int32 (INT_MAX - a) + Z.of_nat (length (named e))))); [lia|].
  unfold mbind, M_bind. by rewrite store_range_overruns by (unfold NETQ_MAX_NODES_PER_HOST; lia).
Qed.

(** One node, and the range from the greatest integer to itself; five nodes, one id, and
    the range of all integers. *)
Lemma parse_one_line_overruns_witness :
  parse_one_line (fun _ => true) (join [[97]; number 1; item_text (Span INT_MAX INT_MAX)]) (mkConf [] 0) = Fault /\
  parse_one_line (fun _ => true) (join [[97]; number 5; number 3; item_text (Span 0 INT_MAX)]) (mkConf [] 0) = Fault.
Proof.
  split.
  - apply (parse_one_line_overruns (fun _ => true) (mkEntry [97] 1 []) INT_MAX); vm_compute; reflexivity.
  - apply (parse_one_line_overruns (fun _ => true) (mkEntry [97] 5 [One 3]) 0); vm_compute; reflexivity.
Defined.
