(* ===== verification/NetqStart.v ===== *)
(** Starting and ending the network queue, net/netd/netq.c: the choice of the list of
    machines, the exchange of the list, the tables of ranks, the threads, and the
    collectives among machines. The calls of one machine are functions on its state; what
    the machines broadcast is a log on machine 0, from which the others read. *)
From S2P Require Import Prelude Types Netq NetqConf.

Definition NETQ_OFF : Z := 1.
Definition NETQ_INIT : Z := 2.
Definition NETQ_ON : Z := 3.
Definition NETQ_END : Z := 4.
Definition NETQ_DOWN : Z := 5.
Definition NETQ_ERROR_START : Z := 6.
Definition NETQ_ERROR_RUN : Z := 7.
Definition NETQ_PEER_DOWN : Z := 1.

Record NETQ_CONTROL := mkCtl { ctl_type : Z; ctl_payload : Z }.

(** What [netq_start] broadcasts. *)
Inductive bmsg := BInt (z : Z) | BMac (m : MAC_ENTRY).

(** [netq_info] and the state around it: the part of it in the model of the queue
    ([info]), the parser's ([parser], which counts the allocations), what
    [netd_amIStartupMaster] says; of the allocated fields whether they are there, or
    their sizes; the thread that receives; the messages broadcast by this machine and to
    this machine, and the control messages sent. *)
Record netq_rt := mkRt {
  stat : Z;
  grpFile : list Z;
  resFile : list Z;
  info : netq;
  parser : conf;
  master : bool;
  shutdown : bool;
  movin_up : bool;
  movin_down : bool;
  outq_there : bool;
  qalloc_there : bool;
  peer_stat : option (list Z);
  lsend_modes : option Z;
  send_mtx : option Z;
  bcast_out : list bmsg;
  bcast_in : list bmsg;
  ctl_sent : list (Z * NETQ_CONTROL)
}.
#[export] Instance eta_netq_rt : Eta netq_rt := MkEta _ (fun r =>
  mkRt (stat r) (grpFile r) (resFile r) (info r) (parser r) (master r) (shutdown r) (movin_up r) (movin_down r)
    (outq_there r) (qalloc_there r) (peer_stat r) (lsend_modes r) (send_mtx r) (bcast_out r) (bcast_in r) (ctl_sent r)).

#[local] Notation M := (Prelude.M netq_rt).

Definition on_info {A} (m : Prelude.M netq A) : M A := zoom info (fun q w => w <| info := q |>) m.
Definition on_parser {A} (m : Prelude.M conf A) : M A := zoom parser (fun c w => w <| parser := c |>) m.

Definition netq_status : M Z := gets stat.
Definition set_stat (z : Z) : M unit := modify (fun w => w <| stat := z |>).

(** [avail]: the allocations; [fopen]: the files; [progpath]: [netd_getProgPathName];
    [netd_start]: whether the device starts on these machines; [mh]: the handler of
    messages of the layer above. *)
Section Start.
Context (avail : nat -> bool) (fopen : list Z -> option (list Z)) (progpath : list Z).
Context (netd_start : list (list Z) -> bool).

(** ** The list of machines *)

(** Not implemented: they report it. *)
Definition netq_queryNodes : M (option (list MAC_ENTRY)) := mret None.
Definition netq_parseResFile (filename : list Z) : M Z := mret (-1).

Definition grp_suffix : list Z := [46; 103; 114; 112].
Definition res_suffix : list Z := [46; 114; 101; 115].
(** The file name, or the default one if it fits, when there is none. *)
Definition file_or_default (name suffix : list Z) : list Z :=
  match name with
  | [] => if (length progpath + 4 <? MAX_FILENAME_LENGTH)%nat then progpath ++ suffix else []
  | _ => name
  end.

Definition start_error {A} : M (option A) := set_stat NETQ_ERROR_START;; mret None.

(** The body of [while (1)], which is left in each of its ways: the list and
    [freeMacList], or nothing when the program cannot be started. *)
Definition choose_machines (mac_list : option (list MAC_ENTRY)) (res_and_topo : bool) : M (option (list MAC_ENTRY * bool)) :=
  match mac_list with
  | Some l => mret (Some (l, false))
  | None =>
      if res_and_topo then
        r ← netq_queryNodes;
        match r with Some l => mret (Some (l, true)) | None => start_error end
      else
        w ← get;
        found ← (if bool_decide (grpFile w <> []) || bool_decide (resFile w = []) then
            let contTry := bool_decide (grpFile w = []) in
            modify (fun w => w <| grpFile := file_or_default (grpFile w) grp_suffix |>);;
            w ← get;
            if bool_decide (grpFile w <> []) then
              r ← on_parser (netq_parseGrpFile avail (fopen (grpFile w)));
              match r with
              | Some l => mret (Some (Some l))
              | None => mret (if contTry : bool then None else Some None)
              end
            else mret None
          else mret None);
        match found with
        | Some (Some l) => mret (Some (l, true))
        | Some None => start_error
        | None =>
            modify (fun w => w <| resFile := file_or_default (resFile w) res_suffix |>);;
            w ← get;
            if bool_decide (resFile w <> []) then
              ret ← netq_parseResFile (resFile w);
              if negb (ret =? 0) then start_error
              else
                r ← netq_queryNodes;
                match r with Some l => mret (Some (l, true)) | None => start_error end
            else start_error
        end
  end.

(** [free] of a pointer [k] places behind the start of its block. *)
Definition free_at (k : nat) : M unit := match k with O => mret tt | S _ => fault end.
(** The loop frees the entries and moves the pointer that is freed after it. *)
Fixpoint free_entries (mac_list : list MAC_ENTRY) (k : nat) : M nat :=
  match mac_list with
  | [] => mret k
  | _ :: mac_list' => free_entries mac_list' (S k)
  end.
Definition free_mac_list (mac_list : list MAC_ENTRY) : M unit := k ← free_entries mac_list 0; free_at k.

(** ** The exchange *)

(** [netd_bcast(..., 0)] of machine 0, and of the others. *)
Definition bcast_from_0 (b : bmsg) : M unit := modify (fun w => w <| bcast_out := bcast_out w ++ [b] |>).
Definition bcast_to_me : M bmsg :=
  w ← get;
  match bcast_in w with
  | [] => stuck
  | b :: bs => modify (fun w => w <| bcast_in := bs |>);; mret b
  end.

Fixpoint send_entries (macs : list MAC_ENTRY) (total : Z) : M Z :=
  match macs with
  | [] => mret total
  | m :: macs' => bcast_from_0 (BMac m);; send_entries macs' (int32 (total + nNodes m))
  end.
Fixpoint recv_entries (n : nat) (macs : list MAC_ENTRY) (total : Z) : M (list MAC_ENTRY * Z) :=
  match n with
  | O => mret (macs, total)
  | S n' =>
      b ← bcast_to_me;
      match b with
      | BMac m => recv_entries n' (macs ++ [m]) (int32 (total + nNodes m))
      | BInt _ => fault
      end
  end.
(** Allocations whose result is used without a look: the receiver's list, the mutexes. *)
Fixpoint alloc_entries (n : nat) : M unit :=
  match n with
  | O => mret tt
  | S n' => ok ← on_parser (alloc avail); if ok : bool then alloc_entries n' else fault
  end.

(** The list, the sum of the nodes, [my_mac_id], [freeMacList]; nothing on an error. *)
Definition exchange_machines (mac_list : option (list MAC_ENTRY)) (res_and_topo : bool) :
    M (option (list MAC_ENTRY * Z * Z * bool)) :=
  w ← get;
  if master w then
    r ← choose_machines mac_list res_and_topo;
    match r with
    | None => mret None
    | Some (macs, freeMacList) =>
        ok ← on_parser (alloc avail);
        if negb ok then when freeMacList (free_mac_list macs);; start_error
        else if bool_decide (macs = []) || negb (netd_start (szHost <$> macs)) then
          when freeMacList (free_mac_list macs);; start_error
        else
          modify (fun w => w <| info := info w <| netd_size := Z.of_nat (length macs) |> |>);;
          bcast_from_0 (BInt (Z.of_nat (length macs)));;
          total ← send_entries macs 0;
          mret (Some (macs, total, 0, freeMacList))
    end
  else if netd_myid (info w) <? 0 then start_error
  else
    b ← bcast_to_me;
    match b with
    | BMac _ => fault
    | BInt nMachine =>
        ok ← on_parser (alloc avail);
        if negb ok then fault
        else
          alloc_entries (Z.to_nat nMachine);;
          r ← recv_entries (Z.to_nat nMachine) [] 0;
          mret (Some (r.1, r.2, netd_myid (info w), true))
    end.

(** ** The tables *)

(** [calloc] of [n] elements. *)
Definition calloc (n : Z) : M bool := ok ← on_parser (alloc avail); mret (ok && (0 <=? n)).

Definition table_set {A} (t : list A) (i : Z) (x : A) : M (list A) :=
  if (0 <=? i) && (i <? Z.of_nat (length t)) then mret (<[Z.to_nat i := x]> t) else fault.

Definition array_get {A} (t : list A) (i : Z) : M A := if i <? 0 then fault else or_fault (t !! Z.to_nat i).

(** [for (j=0; j<mac_list[i]->nNodes; j++)], from [j], [n] nodes left. *)
Fixpoint enter_nodes (n : nat) (mac : MAC_ENTRY) (i j : Z) (t : list ID_ENTRY) : M (list ID_ENTRY) :=
  match n with
  | O => mret t
  | S n' =>
      id ← array_get (nodeIDs mac) j;
      t ← table_set t id (mkID i j);
      enter_nodes n' mac i (j + 1) t
  end.
(** [for (i=0; i<nMachine; i++)]: the ids of this machine, all nodes. *)
Fixpoint fill_tables (macs : list MAC_ENTRY) (my_mac_id i : Z) (g : list ID_ENTRY) (l : list Z) : M (list ID_ENTRY * list Z) :=
  match macs with
  | [] => mret (g, l)
  | mac :: macs' =>
      l ← (if my_mac_id =? i then
             if (length (nodeIDs mac) <? Z.to_nat (nNodes mac))%nat then fault
             else mret (take (Z.to_nat (nNodes mac)) (nodeIDs mac))
           else mret l);
      g ← enter_nodes (Z.to_nat (nNodes mac)) mac i 0 g;
      fill_tables macs' my_mac_id (i + 1) g l
  end.

Definition sa_init (size max_items : Z) : StackAllocator :=
  let max_items := if max_items <=? 0 then 1 else max_items in
  mkSA 0 0 (cdiv (max_items + CHUNK_SIZE - 1) CHUNK_SIZE) false.
Definition sizeof_SENDREQ : Z := 24.

(** The memory of the tables and queues; all of it, or none. *)
Definition start_memory (total nNodes : Z) : M bool :=
  w ← get;
  g ← calloc total;
  l ← calloc nNodes;
  q ← on_parser (alloc avail);
  p ← calloc (netd_size (info w));
  a ← on_parser (alloc avail);
  s ← calloc (int32 (nNodes * total));
  if g && l && q && p && a && s then
    modify (fun w => w
      <| info := info w <| gTable := Some (replicate (Z.to_nat total) (mkID 0 0)) |> <| lTable := Some (replicate (Z.to_nat nNodes) 0) |> <| outq := [] |> |>
      <| outq_there := true |> <| qalloc_there := true |>
      <| peer_stat := Some (replicate (Z.to_nat (netd_size (info w))) 0) |>
      <| lsend_modes := Some (int32 (nNodes * total)) |>);;
    mret true
  else
    modify (fun w => w <| info := info w <| gTable := None |> <| lTable := None |> |>
      <| outq_there := false |> <| qalloc_there := false |> <| peer_stat := None |> <| lsend_modes := None |>);;
    mret false.

(** [netq_start] from the tables on, once the list of machines is known. *)
Definition start_up (macs : list MAC_ENTRY) (total my_mac_id : Z) : M Z :=
  me ← array_get macs my_mac_id;
  ok ← start_memory total (nNodes me);
  if negb ok then mret (-1)
  else
    modify (fun w => w <| info := info w <| qalloc := sa_init sizeof_SENDREQ 65536 |> |>
      <| send_mtx := Some (netd_size (info w)) |>);;
    w ← get;
    alloc_entries (S (Z.to_nat (netd_size (info w))));;
    modify (fun w => w <| info := info w <| gTableSize := total |> <| lTableSize := nNodes me |> <| isSingleMode := true |> |>);;
    w ← get;
    t ← fill_tables macs my_mac_id 0 (default [] (gTable (info w))) (default [] (lTable (info w)));
    modify (fun w => w <| info := info w <| gTable := Some t.1 |> <| lTable := Some t.2 |> |>);;
    modify (fun w => w <| movin_up := true |>);;
    set_stat NETQ_ON;;
    mret 0.

(** The handlers [nh] are those of the default, as everywhere in the program; the
    handler of messages is an argument of [movin] below. *)
Definition netq_start (mac_list : option (list MAC_ENTRY)) (res_and_topo : bool) : M Z :=
  w ← get;
  if netd_myid (info w) <? 0 then mret (-1)
  else if negb (stat w =? NETQ_OFF) then mret (-1)
  else
    set_stat NETQ_INIT;;
    r ← exchange_machines mac_list res_and_topo;
    match r with
    | None => mret (-1)
    | Some (macs, total, my_mac_id, freeMacList) => start_up macs total my_mac_id
    end.
End Start.

(** ** The threads *)

(** A message of a peer: its length, and what it is when it is shorter than 12 bytes,
    a header otherwise. *)
Record peer_msg := mkPeer { pm_len : Z; pm_ctl : NETQ_CONTROL; pm_hdr : NETQ_HEADER }.

(** The loop over the machines from [i], [n] left. *)
Fixpoint check_peers (peers : list Z) (myid i : Z) (n : nat) : M Z :=
  match n with
  | O => mret 1
  | S n' =>
      if myid =? i then check_peers peers myid (i + 1) n'
      else
        p ← array_get peers i;
        if p =? 0 then mret 0 else check_peers peers myid (i + 1) n'
  end.
Definition check_for_termination : M Z :=
  w ← get;
  match peer_stat w with
  | Some peers => check_peers peers (netd_myid (info w)) 0 (Z.to_nat (netd_size (info w)))
  | None => fault
  end.

Section Movin.
(** The handler of the layer above: from, to, header, its length, the payload's. *)
Context (mh : Z -> Z -> NETQ_HEADER -> Z -> Z -> M Z).

(** The code returned and what is stored through [result], which is not null. *)
Definition movin_msg_handle (real_from : Z) (msg : peer_msg) : M (Z * option Z) :=
  if pm_len msg <? 12 then
    if ctl_type (pm_ctl msg) =? NETQ_PEER_DOWN then
      w ← get;
      match peer_stat w with
      | Some peers =>
          p ← table_set peers real_from 1;
          modify (fun w => w <| peer_stat := Some p |>);;
          r ← check_for_termination; mret (r, None)
      | None => fault
      end
    else mret (0, None)
  else
    let h := pm_hdr msg in
    let len := pm_len msg in
    ret ← mh (netq_getFromAddr h len) (netq_getToAddr h len) h (netq_getHeaderSize h len) (netq_getPayloadSize h len);
    mret (0, Some ret).

(** What [netd_recvmsg] meets in each round: an error, or a message of a machine. When
    no more comes the thread waits. *)
Fixpoint movin_loop (rounds : list (option (Z * peer_msg))) (retry : Z) : M unit :=
  w ← get;
  if shutdown w then modify (fun w => w <| movin_down := true |>)
  else
    match rounds with
    | [] => stuck
    | None :: rounds' => if retry - 1 <? 0 then mret tt else movin_loop rounds' (retry - 1)
    | Some (from, msg) :: rounds' =>
        r ← movin_msg_handle from msg;
        if r.1 =? 1 then modify (fun w => w <| movin_down := true |>) else movin_loop rounds' retry
    end.
Definition movin (rounds : list (option (Z * peer_msg))) : M unit :=
  modify (fun w => w <| movin_up := true |>);; movin_loop rounds 1000.
End Movin.

(** [for (i=0; i<size; i++)]: tell the others, under the mutex of each. *)
Fixpoint tell_peers (n : nat) (i myid : Z) (ctl : NETQ_CONTROL) : M unit :=
  match n with
  | O => mret tt
  | S n' =>
      (if i =? myid then mret tt
       else
         w ← get;
         match send_mtx w with
         | Some k =>
             if i <? k then
               fd ← on_info (pt2pt_fd i);
               when (negb (fd =? -1)) (modify (fun w => w <| ctl_sent := ctl_sent w ++ [(i, ctl)] |>))
             else fault
         | None => fault
         end);;
      tell_peers n' (i + 1) myid ctl
  end.

(** The loop of the thread that sends, over what is queued; it waits on an empty queue. *)
Fixpoint movout_loop (fuel : nat) : M unit :=
  match fuel with
  | O => stuck
  | S fuel' =>
      w ← get;
      match outq (info w) with
      | [] => stuck
      | req :: rest =>
          modify (fun w => w <| info := info w <| outq := rest |> |>);;
          if rq_from req =? -1 then
            modify (fun w => w <| info := info w <| qalloc := sa_free (qalloc (info w)) |> <| movout_down := true |> |>);;
            tell_peers (Z.to_nat (netd_size (info w))) 0 (netd_myid (info w)) (mkCtl NETQ_PEER_DOWN 0)
          else
            on_info (netq_real_send req);;
            modify (fun w => w <| info := info w <| qalloc := sa_free (qalloc (info w)) |> |>);;
            movout_loop fuel'
      end
  end.
Definition movout : M unit := w ← get; movout_loop (S (length (outq (info w)))).

(** ** The end *)

(** [pending] is the message the receiving thread is in the middle of when it is told to
    end, if there is one; [netd_waitAll] waits for the processes of the other machines. *)
Definition netq_end (mh : Z -> Z -> NETQ_HEADER -> Z -> Z -> M Z) (pending : option (Z * peer_msg)) : M Z :=
  w ← get;
  if negb (stat w =? NETQ_ON) then mret (-1)
  else
    set_stat NETQ_END;;
    modify (fun w => w <| shutdown := true |>);;
    (if isSingleMode (info w) then
       tell_peers (Z.to_nat (netd_size (info w))) 0 (netd_myid (info w)) (mkCtl NETQ_PEER_DOWN 0)
     else
       match sa_alloc (qalloc (info w)) with
       | Some sa => modify (fun w => w <| info := info w <| qalloc := sa |>
                      <| outq := outq (info w) ++ [mkSENDREQ (-1) (-1) (BRDR (mkRDRHandle 0 0 0 0)) 0 [] 0] |> |>)
       | None => fault
       end);;
    (match pending with
     | Some (from, msg) => r ← movin_msg_handle mh from msg; mret tt
     | None => mret tt
     end);;
    movin_loop mh [] 0;;
    (if isSingleMode (info w) then mret tt else movout);;
    modify (fun w => w <| info := info w <| lTableSize := gTableSize (info w) - 1 |>
        <| gTable := None |> <| lTable := None |> <| outq := [] |> |>
      <| outq_there := false |> <| qalloc_there := false |> <| peer_stat := None |>
      <| lsend_modes := None |> <| send_mtx := None |>);;
    set_stat NETQ_DOWN;;
    mret 0.
