(* ===== verification/NetqStartProps.v ===== *)
(** Theorems on starting the network queue (net/netd/netq.c): the tables of ranks of all
    machines agree with the list of machines and with each other; the end of the queue. *)
From S2P Require Import Prelude Types Netq NetqConf NetqConfProps NetqStart.

(** ** The tables *)

(** Node [j] of machine [i], by the list. *)
Definition node (macs : list MAC_ENTRY) (i j : nat) : option Z :=
  m ← macs !! i; take (Z.to_nat (nNodes m)) (nodeIDs m) !! j.
Definition good_mac (m : MAC_ENTRY) : Prop := 0 <= nNodes m <= 256 /\ length (nodeIDs m) = 256%nat.

Lemma elem_of_all_ids macs id :
  id ∈ all_ids macs <-> exists m, m ∈ macs /\ id ∈ take (Z.to_nat (nNodes m)) (nodeIDs m).
Proof.
  unfold all_ids. rewrite list_elem_of_In, in_concat. split.
  - intros (l & Hl & Hid). apply list_elem_of_In, list_elem_of_fmap in Hl as (m & -> & Hm). exists m.
    split; [done|]. by apply list_elem_of_In.
  - intros (m & Hm & Hid). eexists. split; [|by apply list_elem_of_In]. apply list_elem_of_In.
    by apply (list_elem_of_fmap_2 (fun m => take (Z.to_nat (nNodes m)) (nodeIDs m))).
Qed.

Lemma node_in macs i j id : node macs i j = Some id -> id ∈ all_ids macs.
Proof.
  unfold node. destruct (macs !! i) as [m|] eqn:Hm; [|done]. cbn [mbind option_bind]. intros Hj.
  apply elem_of_all_ids. exists m. split; by eapply list_elem_of_lookup_2.
Qed.

Lemma in_node macs id : id ∈ all_ids macs -> exists i j, node macs i j = Some id.
Proof.
  intros (m & Hm & Hid)%elem_of_all_ids. apply list_elem_of_lookup in Hm as [i Hi]. apply list_elem_of_lookup in Hid as [j Hj].
  exists i, j. unfold node. by rewrite Hi.
Qed.

(** What [g] says of the nodes of machines [i0], [i0 + 1], ... *)
Definition entered (macs : list MAC_ENTRY) (i0 : Z) (g : list ID_ENTRY) : Prop :=
  forall i j id, node macs i j = Some id -> 0 <= id /\ g !! Z.to_nat id = Some (mkID (i0 + Z.of_nat i) (Z.of_nat j)).

Lemma enter_nodes_spec n mac i j g (w : netq_rt) ids : take n (drop (Z.to_nat j) (nodeIDs mac)) = ids -> length ids = n ->
  0 <= j -> NoDup ids -> Forall (fun id => 0 <= id < Z.of_nat (length g)) ids ->
  exists g', enter_nodes n mac i j g w = Ret g' w /\ length g' = length g /\
    (forall id, 0 <= id -> id ∉ ids -> g' !! Z.to_nat id = g !! Z.to_nat id) /\
    (forall k id, ids !! k = Some id -> g' !! Z.to_nat id = Some (mkID i (j + Z.of_nat k))).
Proof.
  revert j g ids. induction n as [|n IH]; intros j g ids Hids Hlen Hj Hnd Hin.
  - exists g. split; [done|]. split; [done|]. split; [done|]. intros k id Hk. destruct ids; [|done]. by destruct k.
  - destruct ids as [|id ids]; [done|]. injection Hlen as Hlen.
    assert (nodeIDs mac !! Z.to_nat j = Some id /\ take n (drop (Z.to_nat (j + 1)) (nodeIDs mac)) = ids) as [Hget Hrest].
    { destruct (drop (Z.to_nat j) (nodeIDs mac)) as [|y r] eqn:Hd; [done|]. cbn [take] in Hids. injection Hids as -> Hids.
      split.
      - rewrite <- (Nat.add_0_r (Z.to_nat j)), <- lookup_drop, Hd. done.
      - replace (Z.to_nat (j + 1)) with (Z.to_nat j + 1)%nat by lia. rewrite <- drop_drop, Hd. done. }
    apply NoDup_cons in Hnd as [Hid Hnd]. apply Forall_cons in Hin as [Hr Hin].
    destruct (IH (j + 1) (<[Z.to_nat id := mkID i j]> g) ids) as (g' & Hrun & Hl & Hout & Hval);
      [done|done|lia|done|by rewrite length_insert|].
    rewrite length_insert in Hl. exists g'. split; [|split; [done|split]].
    + cbn [enter_nodes]. unfold array_get, table_set. mrun. rewrite (proj2 (Z.ltb_ge j 0)), Hget by lia.
      rewrite (proj2 (Z.leb_le 0 id)), (proj2 (Z.ltb_lt id _)) by lia. cbn [andb]. exact Hrun.
    + intros k Hk Hn. rewrite elem_of_cons in Hn. rewrite Hout by tauto. apply list_lookup_insert_ne. lia.
    + intros [|k] x Hx.
      * injection Hx as <-. rewrite Hout by (done || lia). rewrite list_lookup_insert_eq by lia. do 2 f_equal. lia.
      * rewrite (Hval k x Hx). do 2 f_equal. lia.
Qed.

Lemma fill_tables_spec macs me i g l (w : netq_rt) : Forall good_mac macs -> NoDup (all_ids macs) ->
  Forall (fun id => 0 <= id < Z.of_nat (length g)) (all_ids macs) ->
  exists g', fill_tables macs me i g l w =
      Ret (g', match (if i <=? me then macs !! Z.to_nat (me - i) else None) with
               | Some m => take (Z.to_nat (nNodes m)) (nodeIDs m)
               | None => l
               end) w /\ length g' = length g /\
    (forall id, 0 <= id -> id ∉ all_ids macs -> g' !! Z.to_nat id = g !! Z.to_nat id) /\ entered macs i g'.
Proof.
  intros Hgood. revert i g l. induction Hgood as [|mac macs [Hn Hl] Hgood IH]; intros i g l Hnd Hin.
  - exists g. split; [|split; [done|split; [done|]]].
    + cbn [fill_tables]. mrun. do 2 f_equal. by destruct (i <=? me).
    + intros k j id Hk. unfold node in Hk. by destruct k.
  - unfold all_ids in Hnd, Hin. rewrite fmap_cons in Hnd, Hin. cbn [concat] in Hnd, Hin.
    set (ids := take (Z.to_nat (nNodes mac)) (nodeIDs mac)) in *. fold (all_ids macs) in Hnd, Hin.
    apply NoDup_app in Hnd as (Hnd1 & Hdis & Hnd2). apply Forall_app in Hin as [Hin1 Hin2].
    assert (length ids = Z.to_nat (nNodes mac)) as Hids by (unfold ids; rewrite length_take; lia).
    destruct (enter_nodes_spec (Z.to_nat (nNodes mac)) mac i 0 g w ids) as (g1 & Hr1 & Hl1 & Ho1 & Hv1);
      [by rewrite drop_0|done|lia|done|done|].
    set (l1 := if me =? i then ids else l).
    destruct (IH (i + 1) g1 l1) as (g2 & Hr2 & Hl2 & Ho2 & Hv2); [done|by rewrite Hl1|].
    exists g2. split; [|split; [congruence|split]].
    + cbn [fill_tables]. rewrite (proj2 (Nat.ltb_ge _ _)) by lia. fold ids. unfold l1 in Hr2.
      destruct (Z.eqb_spec me i) as [->|Hne].
      * rewrite bind_mret, (bind_Ret _ _ _ _ _ Hr1), Hr2. rewrite Z.leb_refl, Z.sub_diag, (proj2 (Z.leb_gt (i + 1) i)) by lia. done.
      * rewrite bind_mret, (bind_Ret _ _ _ _ _ Hr1), Hr2. do 2 f_equal.
        destruct (Z.leb_spec i me), (Z.leb_spec (i + 1) me); try lia; [|done].
        replace (Z.to_nat (me - i)) with (S (Z.to_nat (me - (i + 1)))) by lia. done.
    + intros id Hid Hno. unfold all_ids in Hno. rewrite fmap_cons in Hno. cbn [concat] in Hno. fold (all_ids macs) ids in Hno.
      rewrite elem_of_app in Hno. rewrite Ho2, Ho1 by tauto. done.
    + intros [|k] j id Hk.
      * assert (ids !! j = Some id) as Hj by exact Hk. split.
        { apply (proj1 (Forall_lookup _ _) Hin1) in Hj. lia. }
        rewrite Ho2; [rewrite (Hv1 j id Hj); do 2 f_equal; lia| |].
        { apply (proj1 (Forall_lookup _ _) Hin1) in Hj. lia. }
        { intros Hx. apply (Hdis id); [by eapply list_elem_of_lookup_2|done]. }
      * destruct (Hv2 k j id Hk) as [H1 H2]. split; [done|]. rewrite H2. do 2 f_equal. lia.
Qed.

(** ** The translations *)

(** What the tables of machine [me] hold. *)
Record tables (macs : list MAC_ENTRY) (me total : Z) (q : netq) : Prop := Tables {
  tb_global : exists g, gTable q = Some g /\ length g = Z.to_nat total /\ entered macs 0 g;
  tb_size : gTableSize q = total;
  tb_local : exists m, macs !! Z.to_nat me = Some m /\ lTable q = Some (take (Z.to_nat (nNodes m)) (nodeIDs m)) /\
    lTableSize q = nNodes m;
  tb_me : netd_myid q = me /\ 0 <= me
}.

(** The translations of machine [me] agree with the list of machines. *)
Definition ranks_agree (macs : list MAC_ENTRY) (me total : Z) (q : netq) : Prop :=
  (forall g, 0 <= g < total -> exists i j, node macs i j = Some g /\
    let e := mkID (Z.of_nat i) (Z.of_nat j) in
    netq_transGlobalRank g q = Ret (0, Some e) q /\
    netq_getMacID g q = Ret (0, Some (Z.of_nat i)) q /\
    netq_findGlobalRank e q = Ret (0, Some g) q /\
    netq_isLocalNode g q = Ret (Z.of_nat i =? me) q /\
    (Z.of_nat i = me -> netq_transLocalRank (Z.of_nat j) q = Ret (0, Some g) q)) /\
  (forall i j g, node macs i j = Some g -> 0 <= g < total).

Lemma find_rank_first t e (q : netq) g : 0 <= g -> t !! Z.to_nat g = Some e ->
  (forall k, 0 <= k < g -> t !! Z.to_nat k <> Some e) ->
  forall n i, 0 <= i <= g -> (Z.to_nat g < Z.to_nat i + n)%nat -> find_rank t e i n q = Ret (0, Some g) q.
Proof.
  intros Hg Ht Hno n. assert (Hlen : (Z.to_nat g < length t)%nat) by (by eapply lookup_lt_Some).
  induction n as [|n IH]; intros i Hi Hn; [lia|]. cbn [find_rank]. unfold table_get.
  rewrite (proj2 (Z.ltb_ge i 0)) by lia. destruct (lookup_lt_is_Some_2 t (Z.to_nat i)) as [x Hx]; [lia|]. rewrite Hx.
  unfold or_fault. rewrite bind_mret. destruct (decide (i = g)) as [->|Hne].
  - assert (x = e) as -> by congruence. by rewrite !Z.eqb_refl.
  - destruct ((macID x =? macID e) && (localID x =? localID e)) eqn:E.
    + apply andb_prop in E as [E1%Z.eqb_eq E2%Z.eqb_eq]. exfalso. apply (Hno i); [lia|]. rewrite Hx. f_equal.
      destruct x, e. cbn in *. congruence.
    + apply IH; lia.
Qed.

Lemma tables_agree macs me total q : all_ids macs ≡ₚ seqZ 0 total -> tables macs me total q -> ranks_agree macs me total q.
Proof.
  intros Hall [(t & Hg & Hlen & Hent) Hsize (mm & Hmm & Hl & Hls) [Hme Hme0]].
  assert (Hin : forall id, id ∈ all_ids macs <-> 0 <= id < total) by (intros id; rewrite Hall, elem_of_seqZ; lia).
  assert (Hrange : forall i j g, node macs i j = Some g -> 0 <= g < total) by (intros i j g H; by apply Hin, (node_in macs i j)).
  split; [|exact Hrange]. intros g Hgr. destruct (in_node macs g) as (i & j & Hn); [by apply Hin|].
  exists i, j. split; [done|]. destruct (Hent i j g Hn) as [_ Ht]. rewrite Z.add_0_l in Ht. cbn zeta.
  assert (Htr : netq_transGlobalRank g q = Ret (0, Some (mkID (Z.of_nat i) (Z.of_nat j))) q).
  { unfold netq_transGlobalRank, table_get. mrun. rewrite Hsize, (proj2 (Z.eqb_neq total (-1))), (proj2 (Z.ltb_ge g 0)) by lia.
    assert ((g >=? total) = false) as -> by (rewrite Z.geb_leb; apply Z.leb_gt; lia). cbn [orb]. by rewrite Hg, Ht. }
  split; [exact Htr|]. split; [|split; [|split]].
  - unfold netq_getMacID, table_get. mrun. rewrite Hsize, (proj2 (Z.eqb_neq total (-1))), (proj2 (Z.ltb_ge g 0)) by lia.
    assert ((g >=? total) = false) as -> by (rewrite Z.geb_leb; apply Z.leb_gt; lia). cbn [orb]. by rewrite Hg, Ht.
  - unfold netq_findGlobalRank. rewrite (bind_Ret get _ q q q eq_refl), Hg. apply find_rank_first; [lia|done| |lia|lia].
    intros k Hk He. destruct (in_node macs k) as (a & b & Hab); [apply Hin; lia|]. destruct (Hent a b k Hab) as [_ Htk].
    rewrite Z.add_0_l in Htk. rewrite Htk in He. injection He as Ha Hb. assert (a = i) as -> by lia. assert (b = j) as -> by lia.
    assert (k = g) by congruence. lia.
  - unfold netq_isLocalNode. rewrite (bind_Ret _ _ _ _ _ Htr). change (0 <? 0) with false. cbn iota.
    unfold netq_getLocalMacID. mrun. by rewrite Hme.
  - intros Hi. unfold netq_transLocalRank, table_get. mrun. unfold node in Hn. assert (Z.to_nat me = i) as Hi' by lia.
    rewrite Hi' in Hmm. rewrite Hmm in Hn. cbn [mbind option_bind] in Hn.
    pose proof (lookup_lt_Some _ _ _ Hn) as Hlt. rewrite length_take in Hlt.
    rewrite Hls, (proj2 (Z.eqb_neq (nNodes mm) (-1))), (proj2 (Z.ltb_ge (Z.of_nat j) 0)) by lia.
    assert ((Z.of_nat j >=? nNodes mm) = false) as -> by (rewrite Z.geb_leb; apply Z.leb_gt; lia). cbn [orb].
    by rewrite Hl, Nat2Z.id, Hn.
Qed.

(** ** Starting *)

Section Start.
Context (avail : nat -> bool) (Havail : forall k, avail k = true).
Context (fopen : list Z -> option (list Z)) (progpath : list Z) (netd_start : list (list Z) -> bool).

Lemma alloc_rt w : on_parser (alloc avail) w = Ret true (w <| parser := parser w <| allocs := S (allocs (parser w)) |> |>).
Proof. unfold on_parser, zoom, alloc. mrun. by rewrite Havail. Qed.

Lemma calloc_rt n w : 0 <= n -> calloc avail n w = Ret true (w <| parser := parser w <| allocs := S (allocs (parser w)) |> |>).
Proof. intros Hn. unfold calloc. rewrite (bind_Ret _ _ _ _ _ (alloc_rt w)). mrun. by rewrite (proj2 (Z.leb_le 0 n) Hn). Qed.

Lemma modify_bind {A} (f : netq_rt -> netq_rt) (k : unit -> M netq_rt A) w : (modify f ≫= k) w = k tt (f w).
Proof. done. Qed.

(** What the steps of [start_up] leave as it is. *)
Definition kept (w w' : netq_rt) : Prop :=
  bcast_out w' = bcast_out w /\ bcast_in w' = bcast_in w /\ netd_myid (info w') = netd_myid (info w) /\
  netd_size (info w') = netd_size (info w).
Lemma kept_trans w1 w2 w3 : kept w1 w2 -> kept w2 w3 -> kept w1 w3.
Proof. unfold kept. intuition congruence. Qed.

Lemma start_memory_spec total nn w : 0 <= total -> 0 <= nn -> nn * total < 2 ^ 31 -> 0 <= netd_size (info w) ->
  exists w', start_memory avail total nn w = Ret true w' /\ kept w w' /\
    gTable (info w') = Some (replicate (Z.to_nat total) (mkID 0 0)) /\ lTable (info w') = Some (replicate (Z.to_nat nn) 0).
Proof.
  intros Ht Hn Hp Hs. unfold start_memory. rewrite (bind_Ret get _ w w w eq_refl).
  rewrite (bind_Ret _ _ _ _ _ (calloc_rt total w Ht)).
  erewrite bind_Ret; [|apply calloc_rt; done]. erewrite bind_Ret; [|apply alloc_rt].
  erewrite bind_Ret; [|apply calloc_rt; done]. erewrite bind_Ret; [|apply alloc_rt].
  erewrite bind_Ret; [|apply calloc_rt]. 2: { rewrite int32_id; [nia|]. unfold is_int32. apply andb_true_intro. split; [apply Z.leb_le|apply Z.ltb_lt]; nia. }
  cbn [andb]. rewrite modify_bind. eexists. split; [reflexivity|]. split; [|split]; [|reflexivity|reflexivity]. by split_and!.
Qed.

Lemma alloc_entries_spec n w : exists c, alloc_entries avail n w = Ret tt (w <| parser := c |>).
Proof.
  revert w. induction n as [|n IH]; intros w; cbn [alloc_entries]; [exists (parser w); by destruct w|].
  rewrite (bind_Ret _ _ _ _ _ (alloc_rt w)). destruct (IH (w <| parser := parser w <| allocs := S (allocs (parser w)) |> |>)) as [c ->].
  by exists c.
Qed.

Lemma start_up_spec macs me total mm w : Forall good_mac macs -> all_ids macs ≡ₚ seqZ 0 total -> 0 <= total <= 65536 ->
  0 <= me -> macs !! Z.to_nat me = Some mm -> netd_myid (info w) = me -> 0 <= netd_size (info w) ->
  exists w', start_up avail macs total me w = Ret 0 w' /\ stat w' = NETQ_ON /\ kept w w' /\
    movin_up w' = true /\ tables macs me total (info w').
Proof.
  intros Hgood Hall Ht Hme Hmm Hid Hsize. pose proof (proj1 (Forall_lookup _ _) Hgood _ _ Hmm) as [Hnn _].
  unfold start_up, array_get. rewrite (proj2 (Z.ltb_ge me 0)), Hmm by lia. unfold or_fault. rewrite bind_mret.
  destruct (start_memory_spec total (nNodes mm) w) as (w1 & Hrun & Hk1 & Hg1 & Hl1); [lia|lia|nia|done|].
  rewrite (bind_Ret _ _ _ _ _ Hrun). cbn [negb]. rewrite modify_bind.
  set (wa := upd send_mtx _ _). rewrite (bind_Ret get _ wa wa wa eq_refl).
  destruct (alloc_entries_spec (S (Z.to_nat (netd_size (info wa)))) wa) as [c Hc]. rewrite (bind_Ret _ _ _ _ _ Hc), modify_bind.
  set (w2 := upd info _ (upd parser _ _)). rewrite (bind_Ret get _ w2 w2 w2 eq_refl).
  change (gTable (info w2)) with (gTable (info w1)). change (lTable (info w2)) with (lTable (info w1)). rewrite Hg1, Hl1. cbn [default].
  destruct (fill_tables_spec macs me 0 (replicate (Z.to_nat total) (mkID 0 0)) (replicate (Z.to_nat (nNodes mm)) 0) w2 Hgood)
    as (g & Hf & Hl & _ & Hent).
  { rewrite Hall. apply NoDup_seqZ. }
  { rewrite length_replicate. apply Forall_forall. intros id. rewrite Hall, elem_of_seqZ. lia. }
  rewrite (proj2 (Z.leb_le 0 me)), Z.sub_0_r, Hmm in Hf by done. rewrite (bind_Ret _ _ _ _ _ Hf). cbn [fst snd].
  rewrite !modify_bind. unfold set_stat. rewrite modify_bind. eexists. split; [reflexivity|]. split; [reflexivity|].
  split; [exact Hk1|]. split; [reflexivity|].
  destruct Hk1 as (_ & _ & Hk1 & _). split; [|reflexivity| |].
  - exists g. split; [reflexivity|]. rewrite Hl, length_replicate. by split.
  - exists mm. split; [done|]. by split.
  - split; [|done]. change (netd_myid (info w1) = me). congruence.
Qed.

Definition macs_total (macs : list MAC_ENTRY) : Z := foldr (fun m t => nNodes m + t) 0 macs.

Lemma macs_total_bound macs : Forall good_mac macs -> 0 <= macs_total macs <= 256 * Z.of_nat (length macs).
Proof. induction 1 as [|m macs [H _] _ IH]; cbn [macs_total foldr length]; [lia|]. fold (macs_total macs). lia. Qed.

Lemma length_all_ids macs : Forall good_mac macs -> Z.of_nat (length (all_ids macs)) = macs_total macs.
Proof.
  induction 1 as [|m macs [H1 H2] _ IH]; [done|]. unfold all_ids. rewrite fmap_cons. cbn [concat]. fold (all_ids macs).
  rewrite length_app, length_take, Nat2Z.inj_add, IH. cbn [macs_total foldr]. fold (macs_total macs). lia.
Qed.

Lemma small_int z : 0 <= z <= 65536 -> int32 z = z.
Proof. intros H. apply int32_id. unfold is_int32. apply andb_true_intro. split; [apply Z.leb_le|apply Z.ltb_lt]; lia. Qed.

Lemma send_entries_spec macs t w : Forall good_mac macs -> 0 <= t -> t + macs_total macs <= 65536 ->
  exists w', send_entries macs t w = Ret (t + macs_total macs) w' /\ bcast_out w' = bcast_out w ++ (BMac <$> macs) /\ info w' = info w.
Proof.
  intros H. revert t w. induction H as [|m macs [Hm Hm2] H IH]; intros t w Ht Hb.
  - exists w. cbn [send_entries macs_total foldr]. rewrite Z.add_0_r. by rewrite app_nil_r.
  - cbn [macs_total foldr] in *. fold (macs_total macs) in *. cbn [send_entries]. unfold bcast_from_0. rewrite modify_bind.
    pose proof (macs_total_bound macs H). rewrite small_int by lia.
    destruct (IH (t + nNodes m) (w <| bcast_out := bcast_out w ++ [BMac m] |>)) as (w' & -> & Ho & Hi); [lia|lia|].
    exists w'. split; [f_equal; lia|]. split; [|done]. rewrite Ho. cbn [bcast_out upd]. rewrite fmap_cons, <- app_assoc. done.
Qed.

Lemma recv_entries_spec macs acc t w rest : Forall good_mac macs -> 0 <= t -> t + macs_total macs <= 65536 ->
  bcast_in w = (BMac <$> macs) ++ rest ->
  exists w', recv_entries (length macs) acc t w = Ret (acc ++ macs, t + macs_total macs) w' /\ info w' = info w.
Proof.
  intros H. revert acc t w. induction H as [|m macs [Hm Hm2] H IH]; intros acc t w Ht Hb Hin.
  - exists w. cbn [length recv_entries macs_total foldr]. rewrite Z.add_0_r. by rewrite app_nil_r.
  - cbn [macs_total foldr] in *. fold (macs_total macs) in *. cbn [length recv_entries]. rewrite fmap_cons in Hin.
    unfold bcast_to_me. rewrite bind_assoc, (bind_Ret get _ w w w eq_refl), Hin. cbn [app]. rewrite bind_assoc, modify_bind, bind_mret.
    pose proof (macs_total_bound macs H). rewrite small_int by lia.
    destruct (IH (acc ++ [m]) (t + nNodes m) (w <| bcast_in := (BMac <$> macs) ++ rest |>)) as (w' & -> & Hi); [lia|lia|done|].
    exists w'. split; [|done]. rewrite <- app_assoc. f_equal. f_equal. lia.
Qed.

(** The machines of a group file. *)
Section Group.
Context (macs : list MAC_ENTRY) (Hgood : Forall good_mac macs) (Hlen : (length macs <= 256)%nat) (Hne : macs <> []).

Lemma macs_total_small : 0 <= macs_total macs <= 65536.
Proof. pose proof (macs_total_bound macs Hgood). lia. Qed.

Lemma choose_group name w c : grpFile w = name -> name <> [] ->
  netq_parseGrpFile avail (fopen name) (parser w) = Ret (Some macs) c ->
  choose_machines avail fopen progpath None false w = Ret (Some (macs, true)) (w <| parser := c |>).
Proof.
  intros Hgrp Hname Hparse.
  set (w1 := w <| grpFile := name |>). assert (w1 = w) as Hw1 by (unfold w1; rewrite <- Hgrp; by destruct w).
  unfold choose_machines. rewrite (bind_Ret get _ w w w eq_refl), bool_decide_eq_true_2 by congruence. cbn [orb].
  rewrite bind_assoc, modify_bind. assert (file_or_default progpath (grpFile w) grp_suffix = name) as -> by (rewrite Hgrp; by destruct name).
  fold w1. rewrite Hw1, bind_assoc, (bind_Ret get _ w w w eq_refl), bool_decide_eq_true_2 by congruence.
  assert (on_parser (netq_parseGrpFile avail (fopen (grpFile w))) w = Ret (Some macs) (w <| parser := c |>)) as Hp.
  { unfold on_parser, zoom. by rewrite Hgrp, Hparse. }
  rewrite bind_assoc, (bind_Ret _ _ _ _ _ Hp), bind_mret. done.
Qed.

Lemma exchange_master name w c : master w = true -> grpFile w = name -> name <> [] -> 
  netq_parseGrpFile avail (fopen name) (parser w) = Ret (Some macs) c -> netd_start (szHost <$> macs) = true ->
  exists w', exchange_machines avail fopen progpath netd_start None false w = Ret (Some (macs, macs_total macs, 0, true)) w' /\
    bcast_out w' = bcast_out w ++ BInt (Z.of_nat (length macs)) :: (BMac <$> macs) /\
    info w' = info w <| netd_size := Z.of_nat (length macs) |>.
Proof.
  intros Hm Hgrp Hname Hparse Hstart. unfold exchange_machines. rewrite (bind_Ret get _ w w w eq_refl), Hm.
  rewrite (bind_Ret _ _ _ _ _ (choose_group name w c Hgrp Hname Hparse)). erewrite bind_Ret; [|apply alloc_rt]. cbn [negb].
  rewrite bool_decide_eq_false_2, Hstart by done. cbn [orb negb]. rewrite modify_bind. unfold bcast_from_0. rewrite modify_bind.
  pose proof macs_total_small.
  match goal with |- exists w', (send_entries macs 0 ≫= _) ?v = _ /\ _ => destruct (send_entries_spec macs 0 v Hgood) as (w' & Hs & Ho & Hi); [lia|lia|] end.
  rewrite (bind_Ret _ _ _ _ _ Hs). exists w'. split; [done|]. split; [rewrite Ho; cbn [bcast_out upd]; by rewrite <- app_assoc|]. by rewrite Hi.
Qed.

Lemma exchange_slave me w : master w = false -> netd_myid (info w) = me -> 0 <= me ->
  bcast_in w = BInt (Z.of_nat (length macs)) :: (BMac <$> macs) ->
  exists w', exchange_machines avail fopen progpath netd_start None false w = Ret (Some (macs, macs_total macs, me, true)) w' /\
    info w' = info w.
Proof.
  intros Hm Hme Hme0 Hin. unfold exchange_machines. rewrite (bind_Ret get _ w w w eq_refl), Hm, Hme, (proj2 (Z.ltb_ge me 0)) by lia.
  unfold bcast_to_me. rewrite bind_assoc, (bind_Ret get _ w w w eq_refl), Hin, bind_assoc, modify_bind, bind_mret.
  erewrite bind_Ret; [|apply alloc_rt]. cbn [negb]. rewrite Nat2Z.id.
  match goal with |- exists w', (alloc_entries avail _ ≫= _) ?v = _ /\ _ => destruct (alloc_entries_spec (length macs) v) as [c Hc] end.
  rewrite (bind_Ret _ _ _ _ _ Hc). pose proof macs_total_small.
  match goal with |- exists w', (recv_entries _ [] 0 ≫= _) ?v = _ /\ _ =>
    destruct (recv_entries_spec macs [] 0 v [] Hgood) as (w' & Hr & Hi); [lia|lia|by rewrite app_nil_r|] end.
  rewrite (bind_Ret _ _ _ _ _ Hr). exists w'. by rewrite Hi.
Qed.
End Group.
End Start.

(** ** Theorems *)

Lemma hand_out_good es fr : Forall entry_good es -> length fr = sum_list (needs <$> es) -> Forall good_mac (hand_out es fr).
Proof.
  intros H. revert fr. induction H as [|e es [Hc _] _ IH]; intros fr Hfr; cbn in Hfr; [constructor|].
  cbn [hand_out]. fold (needs e). constructor; [|apply IH; rewrite length_drop; lia].
  split; [cbn [nNodes]; lia|]. cbn [nodeIDs]. rewrite !length_app, length_take, length_replicate. unfold needs in *. lia.
Qed.

Lemma hand_out_length es fr : length (hand_out es fr) = length es.
Proof. revert fr. induction es as [|e es IH]; intros fr; cbn [hand_out length]; [done|]. by rewrite IH. Qed.

Lemma group_good ls macs : forallb line_ok ls = true -> group_of (entries ls) = Some macs ->
  Forall good_mac macs /\ length macs = length (entries ls).
Proof.
  intros Hls Hm. pose proof (entries_good _ (entries_ok ls Hls)) as Hes. unfold group_of in Hm.
  destruct (decide (consistent (entries ls))) as [Hc|]; [|done]. injection Hm as <-.
  split; [apply hand_out_good; [done|by apply unnamed_length]|apply hand_out_length].
Qed.

(** (C29) The program starts with one view of the ranks. When the startup master runs
    [netq_start] with a group file a user may write that names at least one machine and at
    most 256 (NETQ_MAX_NODES) and whose ids do not clash, no allocation fails, and the device
    starts, the call succeeds, the queue is on, and the global and local ranks of the
    master's tables agree with the list of machines: every global rank below the total
    is node [j] of some machine [i] of the list, [netq_transGlobalRank] and
    [netq_getMacID] give that machine and place, [netq_findGlobalRank] leads back,
    [netq_isLocalNode] tells the own nodes, for which [netq_transLocalRank] leads back
    too (the invariant netq.h states for [ID_ENTRY]). And every other machine, given what
    the master has broadcast, starts with tables of its own for which the same holds. *)
Theorem netq_start_ranks avail fopen progpath netd_start ls macs w : (forall k, avail k = true) ->
  forallb line_ok ls = true -> (length (entries ls) <= 256)%nat -> group_of (entries ls) = Some macs -> macs <> [] ->
  netd_start (szHost <$> macs) = true ->
  master w = true -> stat w = NETQ_OFF -> netd_myid (info w) = 0 -> bcast_out w = [] ->
  grpFile w <> [] -> fopen (grpFile w) = Some (file_text ls) ->
  exists w0, netq_start avail fopen progpath netd_start None false w = Ret 0 w0 /\ stat w0 = NETQ_ON /\
    ranks_agree macs 0 (total_nodes (entries ls)) (info w0) /\
    forall me v, 0 < me < Z.of_nat (length macs) -> master v = false -> stat v = NETQ_OFF -> netd_myid (info v) = me ->
      0 <= netd_size (info v) -> bcast_in v = bcast_out w0 ->
      exists v', netq_start avail fopen progpath netd_start None false v = Ret 0 v' /\ stat v' = NETQ_ON /\
        ranks_agree macs me (total_nodes (entries ls)) (info v').
Proof.
  intros Ha Hls Hn Hgrp Hne Hstart Hm Hst Hid Hout Hname Hopen.
  destruct (group_good ls macs Hls Hgrp) as [Hgood Hlen]. pose proof (group_ids ls macs Hls Hgrp) as Hall.
  assert (total_nodes (entries ls) = macs_total macs) as Htot.
  { rewrite <- (length_all_ids macs Hgood), Hall, length_seqZ.
    pose proof (needs_enough _ (entries_good _ (entries_ok ls Hls))). lia. }
  rewrite Htot in *. pose proof (macs_total_small macs Hgood ltac:(lia)) as Hsmall.
  destruct (parse_grp_group avail ls (parser w) Ha Hls Hn) as [c Hparse]. rewrite <- Hopen, Hgrp in Hparse.
  destruct (exchange_master avail Ha fopen progpath netd_start macs Hgood ltac:(lia) Hne (grpFile w) (w <| stat := NETQ_INIT |>) c)
    as (w1 & Hx & Ho & Hi); try done.
  destruct macs as [|m0 macs']; [done|]. set (macs := m0 :: macs') in *.
  destruct (start_up_spec avail Ha macs 0 (macs_total macs) m0 w1) as (w0 & Hup & Hon & (Hk & _) & _ & Htab); try done.
  { rewrite Hi. exact Hid. } { rewrite Hi. cbn [netd_size upd]. lia. }
  exists w0. split; [|split; [done|split; [by apply tables_agree|]]].
  { unfold netq_start. rewrite (bind_Ret get _ w w w eq_refl), Hid, Hst. change (negb (NETQ_OFF =? NETQ_OFF)) with false.
    change (0 <? 0) with false. cbn iota. unfold set_stat. rewrite modify_bind, (bind_Ret _ _ _ _ _ Hx). exact Hup. }
  intros me v Hme Hvm Hvs Hvid Hvsz Hvin.
  rewrite Hk, Ho in Hvin. change (bcast_out (w <| stat := NETQ_INIT |>)) with (bcast_out w) in Hvin. rewrite Hout in Hvin.
  destruct (exchange_slave avail Ha fopen progpath netd_start macs Hgood ltac:(lia) me (v <| stat := NETQ_INIT |>)) as (v1 & Hvx & Hvi);
    [done|done|lia|done|].
  destruct (lookup_lt_is_Some_2 macs (Z.to_nat me)) as [mm Hmm]; [lia|].
  destruct (start_up_spec avail Ha macs me (macs_total macs) mm v1) as (v0 & Hvup & Hvon & _ & _ & Hvtab); try done; try lia.
  { rewrite Hvi. exact Hvid. } { rewrite Hvi. exact Hvsz. }
  exists v0. split; [|split; [done|by apply tables_agree]].
  unfold netq_start. rewrite (bind_Ret get _ v v v eq_refl), Hvid, Hvs. change (negb (NETQ_OFF =? NETQ_OFF)) with false.
  rewrite (proj2 (Z.ltb_ge me 0)) by lia. cbn iota. unfold set_stat. rewrite modify_bind, (bind_Ret _ _ _ _ _ Hvx). exact Hvup.
Qed.

(** A process before [netq_start]: machine [me], the group file [demo_file]. *)
Definition demo_rt (me : Z) (first : bool) (received : list bmsg) : netq_rt :=
  mkRt NETQ_OFF [103] [] (mkNetq None (-1) None (-1) false false [] (mkSA 0 0 0 false) 3 me None [] ∅) (mkConf [] 0) first
    false false false false false None None None [] received [].
Definition demo_macs : list MAC_ENTRY :=
  [mkMac [97] 3 (node_list [7; 0; 1]); mkMac [98; 49] 2 (node_list [2; 6]); mkMac [99] 3 (node_list [3; 4; 5])].

Lemma netq_start_ranks_witness :
  exists w0, netq_start (fun _ => true) (fun _ => Some (file_text demo_file)) [] (fun _ => true) None false (demo_rt 0 true []) = Ret 0 w0 /\
    stat w0 = NETQ_ON /\ ranks_agree demo_macs 0 8 (info w0) /\
    forall me v, 0 < me < 3 -> master v = false -> stat v = NETQ_OFF -> netd_myid (info v) = me ->
      0 <= netd_size (info v) -> bcast_in v = bcast_out w0 ->
      exists v', netq_start (fun _ => true) (fun _ => Some (file_text demo_file)) [] (fun _ => true) None false v = Ret 0 v' /\
        stat v' = NETQ_ON /\ ranks_agree demo_macs me 8 (info v').
Proof.
  apply (netq_start_ranks (fun _ => true) (fun _ => Some (file_text demo_file)) [] (fun _ => true) demo_file demo_macs (demo_rt 0 true []));
    try reflexivity; try (vm_compute; reflexivity); try done. vm_compute. lia.
Defined.

(** ** The way out of an error *)

(** A start that fails after a group file was read does not return: the list of machines
    is freed at the pointer the loop has moved. *)
Lemma netq_start_failure_faults avail fopen progpath netd_start ls macs w : (forall k, avail k = true) ->
  forallb line_ok ls = true -> (length (entries ls) <= 256)%nat -> group_of (entries ls) = Some macs -> macs <> [] ->
  netd_start (szHost <$> macs) = false ->
  master w = true -> stat w = NETQ_OFF -> netd_myid (info w) = 0 ->
  grpFile w <> [] -> fopen (grpFile w) = Some (file_text ls) ->
  netq_start avail fopen progpath netd_start None false w = Fault.
Proof.
  intros Ha Hls Hn Hgrp Hne Hstart Hm Hst Hid Hname Hopen.
  destruct (parse_grp_group avail ls (parser w) Ha Hls Hn) as [c Hparse]. rewrite <- Hopen, Hgrp in Hparse.
  unfold netq_start. rewrite (bind_Ret get _ w w w eq_refl), Hid, Hst. change (negb (NETQ_OFF =? NETQ_OFF)) with false.
  change (0 <? 0) with false. cbn iota. unfold set_stat. rewrite modify_bind. set (w1 := w <| stat := NETQ_INIT |>).
  assert (exchange_machines avail fopen progpath netd_start None false w1 = Fault) as He; [|unfold mbind, M_bind; by rewrite He].
  unfold exchange_machines. rewrite (bind_Ret get _ w1 w1 w1 eq_refl). change (master w1) with (master w). rewrite Hm.
  rewrite (bind_Ret _ _ _ _ _ (choose_group avail fopen progpath macs (grpFile w) w1 c eq_refl Hname Hparse)).
  erewrite bind_Ret; [|by apply alloc_rt]. cbn [negb]. rewrite bool_decide_eq_false_2, Hstart by done. cbn [orb negb].
  destruct macs as [|m macs]; [done|]. unfold free_mac_list, when.
  assert (forall l k v, free_entries l k v = Ret (k + length l)%nat v) as Hf.
  { induction l as [|x l IH]; intros k v; cbn [free_entries length]; [by rewrite Nat.add_0_r|]. rewrite IH. f_equal. lia. }
  unfold mbind, M_bind. by rewrite Hf.
Qed.

(** ** The end of the receiving thread *)

Definition peer_down_msg : peer_msg := mkPeer 8 (mkCtl NETQ_PEER_DOWN 0) (mkHeader 0 0 0 0).
Definition down_from (i : Z) : option (Z * peer_msg) := Some (i, peer_down_msg).

(** The machines that have not said that they are down are those of [l]. *)
Definition still_up (l : list Z) (w : netq_rt) : Prop :=
  shutdown w = false /\ exists p, peer_stat w = Some p /\ Z.of_nat (length p) = netd_size (info w) /\
    NoDup l /\ (forall i, i ∈ l -> i <> netd_myid (info w) /\ 0 <= i < netd_size (info w)) /\
    forall i, 0 <= i < netd_size (info w) -> i <> netd_myid (info w) -> p !! Z.to_nat i = Some 0 <-> i ∈ l.

Lemma check_peers_spec p myid (w : netq_rt) n i : 0 <= i -> Z.of_nat (length p) = i + Z.of_nat n ->
  (forall k, i <= k < i + Z.of_nat n -> k <> myid -> p !! Z.to_nat k <> Some 0) /\ check_peers p myid i n w = Ret 1 w \/
  (exists k, i <= k < i + Z.of_nat n /\ k <> myid /\ p !! Z.to_nat k = Some 0) /\ check_peers p myid i n w = Ret 0 w.
Proof.
  revert i. induction n as [|n IH]; intros i Hi Hl; cbn [check_peers].
  - left. split; [lia|done].
  - destruct (IH (i + 1)) as [[Hall Hrun]|[(k & Hk & Hkm & Hkp) Hrun]]; [lia|lia| |].
    + destruct (Z.eqb_spec myid i) as [->|Hne].
      * left. split; [|exact Hrun]. intros k Hk Hkm. apply Hall; lia.
      * unfold array_get. rewrite (proj2 (Z.ltb_ge i 0)) by lia. destruct (lookup_lt_is_Some_2 p (Z.to_nat i)) as [x Hx]; [lia|].
        rewrite Hx. unfold or_fault. rewrite bind_mret. destruct (Z.eqb_spec x 0) as [->|Hx0].
        { right. split; [|done]. exists i. split; [lia|]. by split. }
        { left. split; [|exact Hrun]. intros k Hk Hkm. destruct (decide (k = i)) as [->|]; [congruence|]. apply Hall; lia. }
    + right. split; [exists k; split; [lia|done]|]. destruct (Z.eqb_spec myid i) as [->|Hne]; [exact Hrun|].
      unfold array_get. rewrite (proj2 (Z.ltb_ge i 0)) by lia. destruct (lookup_lt_is_Some_2 p (Z.to_nat i)) as [x Hx]; [lia|].
      rewrite Hx. unfold or_fault. rewrite bind_mret. destruct (x =? 0); [done|exact Hrun].
Qed.

Lemma peer_goes_down mh i l w : still_up (i :: l) w ->
  exists w', movin_msg_handle mh i peer_down_msg w = Ret (if bool_decide (l = []) then 1 else 0, None) w' /\ still_up l w'.
Proof.
  intros (Hs & p & Hp & Hlen & Hnd & Hin & Hup). apply NoDup_cons in Hnd as [Hil Hnd].
  destruct (Hin i) as [Him Hir]; [left|]. unfold movin_msg_handle. change (pm_len peer_down_msg <? 12) with true.
  change (ctl_type (pm_ctl peer_down_msg) =? NETQ_PEER_DOWN) with true. cbn iota.
  rewrite (bind_Ret get _ w w w eq_refl), Hp. unfold table_set.
  rewrite (proj2 (Z.leb_le 0 i)), (proj2 (Z.ltb_lt i _)) by lia. cbn [andb]. rewrite bind_mret, modify_bind.
  set (p' := <[Z.to_nat i := 1]> p). set (w1 := w <| peer_stat := Some p' |>).
  assert (Hstill : still_up l w1).
  { split; [exact Hs|]. exists p'. split; [done|]. split; [unfold p'; by rewrite length_insert|]. split; [done|].
    split; [intros k Hk; apply Hin; by right|]. intros k Hk Hkm. change (0 <= k < netd_size (info w)) in Hk.
    change (k <> netd_myid (info w)) in Hkm. unfold p'. destruct (decide (k = i)) as [->|Hne].
    - rewrite list_lookup_insert_eq by lia. split; [done|]. intros ?. done.
    - rewrite list_lookup_insert_ne by lia. rewrite (Hup k Hk Hkm), elem_of_cons. naive_solver. }
  exists w1. split; [|exact Hstill]. unfold check_for_termination. rewrite bind_assoc, (bind_Ret get _ w1 w1 w1 eq_refl).
  change (peer_stat w1) with (Some p'). cbn beta iota.
  destruct Hstill as (_ & q & [= <-] & Hql & _ & Hqin & Hqup).
  destruct (check_peers_spec p' (netd_myid (info w1)) w1 (Z.to_nat (netd_size (info w1))) 0) as [[Hall Hrun]|[(k & Hk & Hkm & Hkp) Hrun]];
    [lia|lia| |].
  - rewrite (bind_Ret _ _ _ _ _ Hrun). assert (l = []) as ->; [|done].
    destruct l as [|k l]; [done|]. destruct (Hqin k) as [Hkm Hkr]; [left|]. exfalso. apply (Hall k); [lia|done|].
    apply Hqup; [done|done|left].
  - rewrite (bind_Ret _ _ _ _ _ Hrun). rewrite bool_decide_eq_false_2; [done|]. intros ->.
    apply Hqup in Hkp; [by apply not_elem_of_nil in Hkp|lia|done].
Qed.

(** The receiving thread ends with the last of the other machines: as long as one of
    them has not said that it is down it goes on waiting, whatever the order in which the
    others do; the message of the last one ends it, and it never looks at what follows. *)
Theorem movin_ends_with_last_peer mh froms w retry : still_up froms w -> froms <> [] ->
  (forall l1 l2, froms = l1 ++ l2 -> l2 <> [] -> movin_loop mh (down_from <$> l1) retry w = Stuck) /\
  forall rest, exists w', movin_loop mh ((down_from <$> froms) ++ rest) retry w = Ret tt w' /\ movin_down w' = true.
Proof.
  intros Hup Hne. revert w Hup. induction froms as [|i l IH]; [done|]. intros w Hup.
  pose proof Hup as (Hs & _). destruct (peer_goes_down mh i l w Hup) as (w1 & Hrun & Hup1). split.
  - intros [|j l1] l2 Hl Hl2; [cbn [fmap list_fmap movin_loop]; by rewrite (bind_Ret get _ w w w eq_refl), Hs|].
    injection Hl as <- Hl. cbn [fmap list_fmap movin_loop]. rewrite (bind_Ret get _ w w w eq_refl), Hs. unfold down_from at 1.
    rewrite (bind_Ret _ _ _ _ _ Hrun). cbn [fst]. rewrite bool_decide_eq_false_2; [|by destruct l1, l, l2].
    change (0 =? 1) with false. cbn iota. apply (proj1 (IH ltac:(by destruct l1, l, l2) w1 Hup1) l1 l2); done.
  - intros rest. cbn [fmap list_fmap app movin_loop]. rewrite (bind_Ret get _ w w w eq_refl), Hs. unfold down_from at 1.
    rewrite (bind_Ret _ _ _ _ _ Hrun). cbn [fst]. destruct l as [|k l].
    + rewrite bool_decide_eq_true_2 by done. eexists. split; [reflexivity|done].
    + rewrite bool_decide_eq_false_2 by done. change (0 =? 1) with false. cbn iota. apply (IH ltac:(done) w1 Hup1).
Qed.

Definition demo_up : netq_rt :=
  demo_rt 1 false [] <| peer_stat := Some [0; 0; 0] |>.
Lemma movin_ends_with_last_peer_witness :
  movin_loop (fun _ _ _ _ _ => mret 0) [down_from 2] 1000 demo_up = Stuck /\
  exists w', movin_loop (fun _ _ _ _ _ => mret 0) [down_from 2; down_from 0; None] 1000 demo_up = Ret tt w' /\ movin_down w' = true.
Proof.
  destruct (movin_ends_with_last_peer (fun _ _ _ _ _ => mret 0) [2; 0] demo_up 1000) as [H1 H2].
  - split; [reflexivity|]. exists [0; 0; 0]. split; [reflexivity|]. split; [reflexivity|]. split; [repeat constructor; set_solver|]. split.
    + intros i Hi. change (i <> 1 /\ 0 <= i < 3). set_solver by lia.
    + intros i Hi Hn. change (0 <= i < 3) in Hi. change (i <> 1) in Hn.
      assert (i = 0 \/ i = 2) as [-> | ->] by lia; (split; [intros _; set_solver|reflexivity]).
  - done.
  - split; [apply (H1 [2] [0]); done|apply (H2 [None])].
Defined.
