(* ===== verification/Group.v ===== *)
(** Groups of processes (mpi/context/group.c): the group objects and their
    rank tables in memory, comparison, translation and the constructors. *)
From S2P Require Import Prelude Types.

Record tmpi_Group := mkGroup {
  g_cookie : Z;
  g_np : Z;
  g_local_rank : Z;
  g_ref_count : Z;
  g_isPermanent : Z;
  g_lrank2grank : Z
}.
#[export] Instance eta_tmpi_Group : Eta tmpi_Group := MkEta _ (fun r =>
  mkGroup (g_cookie r) (g_np r) (g_local_rank r) (g_ref_count r) (g_isPermanent r) (g_lrank2grank r)).

(** A block of [ia_bytes] bytes used as an array of int. *)
Record int_array := mkInts { ia_bytes : Z; ia_val : gmap Z Z }.

(** Group objects and int arrays by address; the heap they come from. *)
Record gmem := mkGmem {
  groups : gmap Z tmpi_Group;
  arrays : gmap Z int_array;
  gm_brk : Z;
  gm_lim : Z
}.
#[export] Instance eta_gmem : Eta gmem := MkEta _ (fun r =>
  mkGmem (groups r) (arrays r) (gm_brk r) (gm_lim r)).

#[local] Notation M := (Prelude.M gmem).

Definition MPI_GROUP_EMPTY : Z := 1.
Definition MPI_GROUP_NULL : Z := 0.
Definition sizeof_Group : Z := 24.

(** ** Memory *)

Definition gm_malloc (n : Z) : M Z :=
  s ← get;
  if gm_brk s + n <=? gm_lim s
  then modify (fun s => s <| gm_brk := gm_brk s + n |>);; mret (gm_brk s)
  else mret NULL.

(** The contents of a new object are indeterminate; -1 stands for them. *)
Definition garbage_group : tmpi_Group := mkGroup (-1) (-1) (-1) (-1) (-1) (-1).

Definition malloc_group : M Z :=
  p ← gm_malloc sizeof_Group;
  if p =? NULL then mret NULL
  else modify (fun s => s <| groups := <[p := garbage_group]> (groups s) |>);; mret p.
Definition malloc_ints (bytes : Z) : M Z :=
  p ← gm_malloc bytes;
  if p =? NULL then mret NULL
  else modify (fun s => s <| arrays := <[p := mkInts bytes ∅]> (arrays s) |>);; mret p.

Definition load_group (g : Z) : M tmpi_Group := s ← get; or_fault (groups s !! g).
Definition upd_group (g : Z) (f : tmpi_Group -> tmpi_Group) : M unit :=
  r ← load_group g; modify (fun s => s <| groups := <[g := f r]> (groups s) |>).

(** [a[i]] and [a[i]=v]: inside the block, and initialised when read. *)
Definition load_int (a i : Z) : M Z :=
  s ← get;
  match arrays s !! a with
  | Some r => if (0 <=? i) && (sizeof_int * (i + 1) <=? ia_bytes r) then or_fault (ia_val r !! i) else fault
  | None => fault
  end.
Definition store_int (a i v : Z) : M unit :=
  s ← get;
  match arrays s !! a with
  | Some r =>
      if (0 <=? i) && (sizeof_int * (i + 1) <=? ia_bytes r)
      then modify (fun s => s <| arrays := <[a := mkInts (ia_bytes r) (<[i := v]> (ia_val r))]> (arrays s) |>)
      else fault
  | None => fault
  end.
Definition free_ints (a : Z) : M unit := modify (fun s => s <| arrays := delete a (arrays s) |>).
Definition free_group (g : Z) : M unit := modify (fun s => s <| groups := delete g (groups s) |>).

(** ** Loops *)

(** [for (i=i0; i<n; i++) body], [k] iterations left. *)
Fixpoint for_loop (k : nat) (i : Z) (body : Z -> M unit) : M unit :=
  match k with
  | O => mret tt
  | S k' => body i;; for_loop k' (i + 1) body
  end.
Definition for_upto (i n : Z) (body : Z -> M unit) : M unit := for_loop (Z.to_nat (n - i)) i body.

(** [for (j=j0; j<n; j++) if (a[j]==g) { r=j; break; }], the index or UNDEFINED. *)
Fixpoint find_loop (k : nat) (a j g : Z) : M Z :=
  match k with
  | O => mret MPI_UNDEFINED
  | S k' => v ← load_int a j; if g =? v then mret j else find_loop k' a (j + 1) g
  end.
Definition find_rank_in (a j n g : Z) : M Z := find_loop (Z.to_nat (n - j)) a j g.

(** ** Queries *)

Definition group_verify (group : Z) : M Z :=
  if group =? MPI_GROUP_EMPTY then mret NULL
  else g ← load_group group; mret (if g_cookie g =? MPI_GROUP_COOKIE then group else NULL).

(** The result code and what is stored through the last argument. *)
Definition MPI_Group_size (group : Z) : M (Z * option Z) :=
  grp ← group_verify group;
  if grp =? NULL then mret (MPI_ERR_GROUP, None)
  else g ← load_group grp; mret (MPI_SUCCESS, Some (g_np g)).

Definition MPI_Group_rank (group : Z) : M (Z * option Z) :=
  grp ← group_verify group;
  if grp =? NULL then mret (MPI_ERR_GROUP, None)
  else g ← load_group grp; mret (MPI_SUCCESS, Some (g_local_rank g)).

(** The translated ranks, in the order of [ranks1]. *)
Fixpoint translate_loop (grp1 grp2 : tmpi_Group) (ranks1 : list Z) : M (list Z) :=
  match ranks1 with
  | [] => mret []
  | r :: rs =>
      grank ← load_int (g_lrank2grank grp1) r;
      j ← find_rank_in (g_lrank2grank grp2) 0 (g_np grp2) grank;
      js ← translate_loop grp1 grp2 rs;
      mret (j :: js)
  end.

(** [ranks1] is the caller's array of [n] ranks. *)
Definition MPI_Group_translate_ranks (group1 : Z) (ranks1 : list Z) (group2 : Z) : M (Z * option (list Z)) :=
  grp1 ← group_verify group1;
  if grp1 =? NULL then mret (MPI_ERR_GROUP, None)
  else
    grp2 ← group_verify group2;
    if grp2 =? NULL then mret (MPI_ERR_GROUP, None)
    else
      g1 ← load_group grp1;
      g2 ← load_group grp2;
      ranks2 ← translate_loop g1 g2 ranks1;
      mret (MPI_SUCCESS, Some ranks2).

(** The first loop of the comparison: are the tables the same, entry by entry? *)
Fixpoint same_loop (k : nat) (a1 a2 i : Z) : M bool :=
  match k with
  | O => mret true
  | S k' =>
      x ← load_int a1 i; y ← load_int a2 i;
      if negb (x =? y) then mret false else same_loop k' a1 a2 (i + 1)
  end.
(** The second: is every entry of the first table somewhere in the second? *)
Fixpoint subset_loop (k : nat) (a1 a2 np2 i : Z) : M bool :=
  match k with
  | O => mret true
  | S k' =>
      grank ← load_int a1 i;
      lrank ← find_rank_in a2 0 np2 grank;
      if lrank =? MPI_UNDEFINED then mret false else subset_loop k' a1 a2 np2 (i + 1)
  end.

Definition MPI_Group_compare (group1 group2 : Z) : M (Z * option Z) :=
  grp1 ← group_verify group1;
  if grp1 =? NULL then mret (MPI_ERR_GROUP, None)
  else
    grp2 ← group_verify group2;
    if grp2 =? NULL then mret (MPI_ERR_GROUP, None)
    else
      g1 ← load_group grp1;
      g2 ← load_group grp2;
      if negb (g_np g1 =? g_np g2) then mret (MPI_SUCCESS, Some MPI_UNEQUAL)
      else
        same ← same_loop (Z.to_nat (g_np g1)) (g_lrank2grank g1) (g_lrank2grank g2) 0;
        if (same : bool) then mret (MPI_SUCCESS, Some MPI_IDENT)
        else
          sub ← subset_loop (Z.to_nat (g_np g1)) (g_lrank2grank g1) (g_lrank2grank g2) (g_np g2) 0;
          mret (MPI_SUCCESS, Some (if (sub : bool) then MPI_SIMILAR else MPI_UNEQUAL)).

(** ** Constructors *)

(** The allocation and the fields every constructor sets first. *)
Definition new_group (bytes : Z) : M Z :=
  newgrp ← malloc_group;
  upd_group newgrp (fun g => g <| g_cookie := MPI_GROUP_COOKIE |> <| g_ref_count := 1 |> <| g_isPermanent := 0 |>);;
  a ← malloc_ints bytes;
  upd_group newgrp (fun g => g <| g_lrank2grank := a |>);;
  mret newgrp.

(** [newgrp->lrank2grank[newgrp->np++]=grank] *)
Definition append_rank (newgrp grank : Z) : M unit :=
  g ← load_group newgrp;
  store_int (g_lrank2grank g) (g_np g) grank;;
  upd_group newgrp (fun g => g <| g_np := g_np g + 1 |>).

(** [for (i=i0; i<newgrp->np; i++) if (newgrp->lrank2grank[i]==grank) { newgrp->local_rank=i; break; }] *)
Definition set_local_rank (newgrp i0 grank : Z) : M unit :=
  g ← load_group newgrp;
  i ← find_rank_in (g_lrank2grank g) i0 (g_np g) grank;
  when (negb (i =? MPI_UNDEFINED)) (upd_group newgrp (fun g => g <| g_local_rank := i |>)).

Definition MPI_Group_union (group1 group2 : Z) : M (Z * option Z) :=
  grp1 ← group_verify group1;
  if grp1 =? NULL then mret (MPI_ERR_GROUP, None)
  else
    grp2 ← group_verify group2;
    if grp2 =? NULL then mret (MPI_ERR_GROUP, None)
    else
      g1 ← load_group grp1;
      g2 ← load_group grp2;
      newgrp ← new_group (g_np g1 + g_np g2);
      g ← load_group newgrp;
      for_upto 0 (g_np g1) (fun i =>
        v ← load_int (g_lrank2grank g1) i; store_int (g_lrank2grank g) i v);;
      upd_group newgrp (fun g => g <| g_np := g_np g1 |>);;
      for_upto 0 (g_np g2) (fun i =>
        grank ← load_int (g_lrank2grank g2) i;
        lrank ← find_rank_in (g_lrank2grank g1) 0 (g_np g1) grank;
        when (lrank =? MPI_UNDEFINED) (append_rank newgrp grank));;
      (if negb (g_local_rank g1 =? MPI_UNDEFINED)
       then upd_group newgrp (fun g => g <| g_local_rank := g_local_rank g1 |>)
       else if negb (g_local_rank g2 =? MPI_UNDEFINED)
       then grank ← load_int (g_lrank2grank g2) (g_local_rank g2);
            set_local_rank newgrp (g_np g1) grank
       else upd_group newgrp (fun g => g <| g_local_rank := MPI_UNDEFINED |>));;
      mret (MPI_SUCCESS, Some newgrp).

(** The part intersection and difference share: keep the ranks of the first group
    whose presence in the second is [keep]. *)
Definition select_ranks (newgrp : Z) (g1 g2 : tmpi_Group) (keep : bool) : M unit :=
  for_upto 0 (g_np g1) (fun i =>
    grank ← load_int (g_lrank2grank g1) i;
    lrank ← find_rank_in (g_lrank2grank g2) 0 (g_np g2) grank;
    when (eqb (negb (lrank =? MPI_UNDEFINED)) keep) (append_rank newgrp grank)).

(** An empty result is given back as [MPI_GROUP_EMPTY]. *)
Definition empty_or (newgrp : Z) : M Z :=
  g ← load_group newgrp;
  if g_np g =? 0
  then free_ints (g_lrank2grank g);; free_group newgrp;; mret MPI_GROUP_EMPTY
  else mret newgrp.

Definition MPI_Group_intersection (group1 group2 : Z) : M (Z * option Z) :=
  grp1 ← group_verify group1;
  if grp1 =? NULL then mret (MPI_ERR_GROUP, None)
  else
    grp2 ← group_verify group2;
    if grp2 =? NULL then mret (MPI_ERR_GROUP, None)
    else
      g1 ← load_group grp1;
      g2 ← load_group grp2;
      newgrp ← new_group (g_np g1);
      upd_group newgrp (fun g => g <| g_np := 0 |>);;
      select_ranks newgrp g1 g2 true;;
      (if (g_local_rank g1 =? MPI_UNDEFINED) || (g_local_rank g2 =? MPI_UNDEFINED)
       then upd_group newgrp (fun g => g <| g_local_rank := MPI_UNDEFINED |>)
       else grank ← load_int (g_lrank2grank g1) (g_local_rank g1);
            set_local_rank newgrp 0 grank);;
      r ← empty_or newgrp;
      mret (MPI_SUCCESS, Some r).

Definition MPI_Group_difference (group1 group2 : Z) : M (Z * option Z) :=
  grp1 ← group_verify group1;
  if grp1 =? NULL then mret (MPI_ERR_GROUP, None)
  else
    grp2 ← group_verify group2;
    if grp2 =? NULL then mret (MPI_ERR_GROUP, None)
    else
      g1 ← load_group grp1;
      g2 ← load_group grp2;
      newgrp ← new_group (g_np g1);
      upd_group newgrp (fun g => g <| g_np := 0 |>);;
      select_ranks newgrp g1 g2 false;;
      (if (g_local_rank g1 =? MPI_UNDEFINED) || negb (g_local_rank g2 =? MPI_UNDEFINED)
       then upd_group newgrp (fun g => g <| g_local_rank := MPI_UNDEFINED |>)
       else grank ← load_int (g_lrank2grank g1) (g_local_rank g1);
            set_local_rank newgrp 0 grank);;
      r ← empty_or newgrp;
      mret (MPI_SUCCESS, Some r).

(** The [i]th entry of the caller's array. *)
Definition user_int (l : list Z) (i : Z) : M Z :=
  if i <? 0 then fault else or_fault (l !! Z.to_nat i).

Definition MPI_Group_incl (group n : Z) (ranks : list Z) : M (Z * option Z) :=
  grp ← group_verify group;
  if grp =? NULL then mret (MPI_ERR_GROUP, None)
  else if n =? 0 then mret (MPI_SUCCESS, Some MPI_GROUP_EMPTY)
  else
    g0 ← load_group grp;
    newgrp ← malloc_group;
    upd_group newgrp (fun g => g <| g_cookie := MPI_GROUP_COOKIE |> <| g_ref_count := 1 |>
      <| g_isPermanent := 0 |> <| g_np := n |> <| g_local_rank := MPI_UNDEFINED |>);;
    a ← malloc_ints n;
    upd_group newgrp (fun g => g <| g_lrank2grank := a |>);;
    for_upto 0 n (fun i =>
      r ← user_int ranks i;
      v ← load_int (g_lrank2grank g0) r;
      store_int a i v;;
      when (g_local_rank g0 =? r) (upd_group newgrp (fun g => g <| g_local_rank := i |>)));;
    mret (MPI_SUCCESS, Some newgrp).

(** [for (j=0; j<n; j++) if (ranks[j]==i) { rank=j; break; }] *)
Fixpoint user_find (k : nat) (ranks : list Z) (j i : Z) : M Z :=
  match k with
  | O => mret MPI_UNDEFINED
  | S k' => v ← user_int ranks j; if v =? i then mret j else user_find k' ranks (j + 1) i
  end.

Definition MPI_Group_excl (group n : Z) (ranks : list Z) : M (Z * option Z) :=
  grp ← group_verify group;
  if grp =? NULL then mret (MPI_ERR_GROUP, None)
  else
    g0 ← load_group grp;
    if n >=? g_np g0 then mret (MPI_SUCCESS, Some MPI_GROUP_EMPTY)
    else
      newgrp ← malloc_group;
      upd_group newgrp (fun g => g <| g_cookie := MPI_GROUP_COOKIE |> <| g_ref_count := 1 |>
        <| g_isPermanent := 0 |> <| g_np := 0 |>);;
      a ← malloc_ints (g_np g0 - n);
      upd_group newgrp (fun g => g <| g_lrank2grank := a |>);;
      for_upto 0 (g_np g0) (fun i =>
        rank ← user_find (Z.to_nat n) ranks 0 i;
        when (rank =? MPI_UNDEFINED)
          (v ← load_int (g_lrank2grank g0) i; append_rank newgrp v));;
      upd_group newgrp (fun g => g <| g_local_rank := MPI_UNDEFINED |>);;
      when (negb (g_local_rank g0 =? MPI_UNDEFINED))
        (grank ← load_int (g_lrank2grank g0) (g_local_rank g0);
         set_local_rank newgrp 0 grank);;
      mret (MPI_SUCCESS, Some newgrp).

(** The result code and the new value of [*group_ptr]. *)
Definition MPI_Group_free (group : Z) : M (Z * Z) :=
  grp ← group_verify group;
  if grp =? NULL then mret (MPI_ERR_GROUP, group)
  else
    g ← load_group grp;
    if g_isPermanent g =? 1 then mret (MPI_ERR_PERM_GROUP, group)
    else
      (if g_ref_count g <=? 1
       then upd_group grp (fun g => g <| g_cookie := 0 |>);;
            free_ints (g_lrank2grank g);; free_group grp
       else upd_group grp (fun g => g <| g_ref_count := g_ref_count g - 1 |>));;
      mret (MPI_SUCCESS, MPI_GROUP_NULL).

(** ** Ranges *)

(** [for (j=lo; j<=hi; j+=st) ranks[index++]=j], with the list of what was stored;
    [fuel] iterations. *)
Fixpoint range_loop (fuel : nat) (a j hi st index : Z) : M (list Z) :=
  if j <=? hi then
    match fuel with
    | O => stuck
    | S fuel' =>
        store_int a index j;;
        l ← range_loop fuel' a (j + st) hi st (index + 1);
        mret (j :: l)
    end
  else mret [].

Fixpoint ranges_loop (fuel : nat) (a index : Z) (ranges : list (Z * Z * Z)) : M (list Z) :=
  match ranges with
  | [] => mret []
  | (lo, hi, st) :: rest =>
      l ← range_loop fuel a lo hi st index;
      l' ← ranges_loop fuel a (index + Z.of_nat (length l)) rest;
      mret (l ++ l')
  end.

(** [size+=(ranges[i][1]-ranges[i][0])/ranges[i][2]+1] *)
Fixpoint ranges_size (ranges : list (Z * Z * Z)) : M Z :=
  match ranges with
  | [] => mret 0
  | (lo, hi, st) :: rest =>
      if st =? 0 then fault
      else size ← ranges_size rest; mret (cdiv (hi - lo) st + 1 + size)
  end.

(** The ranks of the ranges; the array is not freed. A negative size is too large for
    malloc. A store beyond the block ends
    the run, so no loop makes more iterations than the block has bytes, or than the
    distance of its bounds. *)
Definition expand_ranges (ranges : list (Z * Z * Z)) : M (list Z) :=
  size ← ranges_size ranges;
  ranks ← (if size <? 0 then mret NULL else malloc_ints size);
  ranges_loop (S (Z.to_nat (foldr (fun r m => Z.max (snd (fst r) - fst (fst r)) m) (Z.max size 0) ranges) + 1))
    ranks 0 ranges.

(** [n] is the number of ranges, also where [MPI_Group_incl] expects that of ranks. *)
Definition MPI_Group_range_incl (group n : Z) (ranges : list (Z * Z * Z)) : M (Z * option Z) :=
  ranks ← expand_ranges (take (Z.to_nat n) ranges); MPI_Group_incl group n ranks.
Definition MPI_Group_range_excl (group n : Z) (ranges : list (Z * Z * Z)) : M (Z * option Z) :=
  ranks ← expand_ranges (take (Z.to_nat n) ranges); MPI_Group_excl group n ranks.
