(* ===== verification/GroupProps.v ===== *)
(** Properties of groups: comparison and rank translation agree with the lists of ranks
    the groups stand for; the constructors write past the table they allocate. *)
From S2P Require Import Prelude Types Group.

(** ** Groups in memory *)

(** The table at [a] holds the ranks [l]. *)
Definition table_ok (s : gmem) (a : Z) (l : list Z) : Prop :=
  exists r, arrays s !! a = Some r /\ sizeof_int * Z.of_nat (length l) <= ia_bytes r /\
    forall i x, l !! i = Some x -> ia_val r !! Z.of_nat i = Some x.

(** The pointer [g] is a group of the processes [l]. *)
Record group_ok (s : gmem) (g : Z) (l : list Z) (r : tmpi_Group) : Prop := GroupOk {
  go_obj : groups s !! g = Some r;
  go_cookie : g_cookie r = MPI_GROUP_COOKIE;
  go_np : g_np r = Z.of_nat (length l);
  go_table : table_ok s (g_lrank2grank r) l;
  go_nonnull : g <> NULL;
  go_nonempty : g <> MPI_GROUP_EMPTY
}.

Lemma load_int_ok s a l i x :
  table_ok s a l -> l !! i = Some x -> load_int a (Z.of_nat i) s = Ret x s.
Proof.
  intros (r & Ha & Hb & Hv) Hx. unfold load_int. mrun. rewrite Ha.
  pose proof (lookup_lt_Some _ _ _ Hx). unfold sizeof_int in *.
  rewrite (proj2 (Z.leb_le 0 _)), (proj2 (Z.leb_le _ (ia_bytes r))) by lia. cbn. by rewrite (Hv _ _ Hx).
Qed.

Lemma verify_ok s g l r : group_ok s g l r -> group_verify g s = Ret g s.
Proof.
  intros [Ho Hc _ _ _ He]. unfold group_verify. rewrite (proj2 (Z.eqb_neq _ _) He).
  unfold load_group. mrun. by rewrite Ho, Hc, Z.eqb_refl.
Qed.

Lemma load_group_ok s g l r : group_ok s g l r -> load_group g s = Ret r s.
Proof. intros [Ho _ _ _ _ _]. unfold load_group. mrun. by rewrite Ho. Qed.

(** ** Searching *)

(** The index of the first [x] in the list, from [j]. *)
Fixpoint index_from (l : list Z) (x : Z) (j : Z) : Z :=
  match l with
  | [] => MPI_UNDEFINED
  | y :: l' => if x =? y then j else index_from l' x (j + 1)
  end.

Lemma find_loop_ok s a l l1 x :
  table_ok s a (l1 ++ l) ->
  find_loop (length l) a (Z.of_nat (length l1)) x s = Ret (index_from l x (Z.of_nat (length l1))) s.
Proof.
  revert l1. induction l as [|y l IH]; intros l1 Ht; [done|]. cbn [length find_loop index_from].
  rewrite (bind_Ret _ _ _ _ _ (load_int_ok s a _ (length l1) y Ht (list_lookup_middle _ _ _ _ eq_refl))).
  destruct (x =? y); [done|].
  specialize (IH (l1 ++ [y])). rewrite <- app_assoc in IH. specialize (IH Ht).
  rewrite length_app in IH. cbn in IH. by replace (Z.of_nat (length l1 + 1)) with (Z.of_nat (length l1) + 1) in IH by lia.
Qed.

Lemma find_rank_in_ok s a l x :
  table_ok s a l -> find_rank_in a 0 (Z.of_nat (length l)) x s = Ret (index_from l x 0) s.
Proof.
  intros Ht. unfold find_rank_in. rewrite Z.sub_0_r, Nat2Z.id. exact (find_loop_ok s a l [] x Ht).
Qed.

Lemma index_from_undefined l x j : 0 <= j -> (index_from l x j = MPI_UNDEFINED <-> x ∉ l).
Proof.
  revert j. induction l as [|y l IH]; intros j Hj; cbn.
  - split; [intros _; apply not_elem_of_nil|done].
  - destruct (Z.eqb_spec x y) as [->|Hne].
    + unfold MPI_UNDEFINED. split; [lia|]. intros H. exfalso. apply H. by left.
    + rewrite IH by lia. rewrite not_elem_of_cons. tauto.
Qed.

Lemma index_from_found l x j :
  0 <= j -> x ∈ l -> exists i, index_from l x j = j + Z.of_nat i /\ l !! i = Some x.
Proof.
  revert j. induction l as [|y l IH]; intros j Hj Hx; [by apply not_elem_of_nil in Hx|]. cbn.
  destruct (Z.eqb_spec x y) as [->|Hne]; [exists O; split; [lia|done]|].
  apply elem_of_cons in Hx as [?|Hx]; [done|]. destruct (IH (j + 1)) as (i & -> & Hi); [lia|done|].
  exists (S i). split; [lia|done].
Qed.

(** ** Comparison *)

Lemma same_loop_ok s a1 a2 l1 l2 p1 p2 :
  length l1 = length l2 -> length p1 = length p2 ->
  table_ok s a1 (p1 ++ l1) -> table_ok s a2 (p2 ++ l2) ->
  same_loop (length l1) a1 a2 (Z.of_nat (length p1)) s = Ret (bool_decide (l1 = l2)) s.
Proof.
  revert l2 p1 p2. induction l1 as [|x l1 IH]; intros [|y l2] p1 p2 Hl Hp Ht1 Ht2; try discriminate; [done|].
  cbn [length same_loop].
  rewrite (bind_Ret _ _ _ _ _ (load_int_ok s a1 _ (length p1) x Ht1 (list_lookup_middle _ _ _ _ eq_refl))).
  assert ((p2 ++ y :: l2) !! length p1 = Some y) as Hy by (rewrite Hp; by apply list_lookup_middle).
  rewrite (bind_Ret _ _ _ _ _ (load_int_ok s a2 _ (length p1) y Ht2 Hy)).
  destruct (Z.eqb_spec x y) as [->|Hne]; cbn [negb].
  - injection Hl as Hl. replace (Z.of_nat (length p1) + 1) with (Z.of_nat (length (p1 ++ [y]))) by (rewrite length_app; cbn; lia).
    rewrite (IH l2 (p1 ++ [y]) (p2 ++ [y])); [|done|by rewrite !length_app, Hp|by rewrite <- app_assoc..].
    f_equal. apply bool_decide_ext. naive_solver.
  - rewrite bool_decide_false; [done|congruence].
Qed.

Lemma subset_loop_ok s a1 a2 l1 p1 l2 :
  table_ok s a1 (p1 ++ l1) -> table_ok s a2 l2 ->
  subset_loop (length l1) a1 a2 (Z.of_nat (length l2)) (Z.of_nat (length p1)) s =
    Ret (bool_decide (Forall (fun x => x ∈ l2) l1)) s.
Proof.
  revert p1. induction l1 as [|x l1 IH]; intros p1 Ht1 Ht2; [done|]. cbn [length subset_loop].
  rewrite (bind_Ret _ _ _ _ _ (load_int_ok s a1 _ (length p1) x Ht1 (list_lookup_middle _ _ _ _ eq_refl))).
  rewrite (bind_Ret _ _ _ _ _ (find_rank_in_ok s a2 l2 x Ht2)).
  destruct (decide (x ∈ l2)) as [Hx|Hx].
  - rewrite (proj2 (Z.eqb_neq (index_from l2 x 0) MPI_UNDEFINED)) by (rewrite index_from_undefined by lia; tauto).
    replace (Z.of_nat (length p1) + 1) with (Z.of_nat (length (p1 ++ [x]))) by (rewrite length_app; cbn; lia).
    rewrite (IH (p1 ++ [x])); [|by rewrite <- app_assoc|done].
    f_equal. apply bool_decide_ext. rewrite Forall_cons. tauto.
  - rewrite (proj2 (Z.eqb_eq (index_from l2 x 0) MPI_UNDEFINED)) by (by rewrite index_from_undefined by lia).
    rewrite bool_decide_false; [done|]. rewrite Forall_cons. tauto.
Qed.

(** What MPI asks of the comparison. *)
Definition compare_ranks (l1 l2 : list Z) : Z :=
  if decide (l1 = l2) then MPI_IDENT else if decide (l1 ≡ₚ l2) then MPI_SIMILAR else MPI_UNEQUAL.

Lemma perm_iff_subset {A} (l1 l2 : list A) :
  NoDup l1 -> NoDup l2 -> length l1 = length l2 -> l1 ≡ₚ l2 <-> Forall (fun x => x ∈ l2) l1.
Proof.
  intros H1 H2 Hl. rewrite Forall_forall. split; [intros P x Hx; by rewrite <- P|]. intros Hsub.
  apply submseteq_length_Permutation; [|lia]. by apply NoDup_submseteq.
Qed.

(** (C21) MPI_Group_compare on two well-formed groups of distinct processes changes
    nothing and stores MPI_IDENT when the groups are the same list of processes,
    MPI_SIMILAR when they are the same processes in another order and MPI_UNEQUAL
    otherwise, although its second loop only looks for the ranks of the first
    group in the second. *)
Theorem group_compare_spec s group1 group2 l1 l2 r1 r2
  (H1 : group_ok s group1 l1 r1) (H2 : group_ok s group2 l2 r2) (N1 : NoDup l1) (N2 : NoDup l2) :
  MPI_Group_compare group1 group2 s = Ret (MPI_SUCCESS, Some (compare_ranks l1 l2)) s.
Proof.
  unfold MPI_Group_compare. rewrite (bind_Ret _ _ _ _ _ (verify_ok _ _ _ _ H1)).
  rewrite (proj2 (Z.eqb_neq _ _) (go_nonnull _ _ _ _ H1)).
  rewrite (bind_Ret _ _ _ _ _ (verify_ok _ _ _ _ H2)), (proj2 (Z.eqb_neq _ _) (go_nonnull _ _ _ _ H2)).
  rewrite (bind_Ret _ _ _ _ _ (load_group_ok _ _ _ _ H1)), (bind_Ret _ _ _ _ _ (load_group_ok _ _ _ _ H2)).
  rewrite (go_np _ _ _ _ H1), (go_np _ _ _ _ H2), Nat2Z.id. unfold compare_ranks.
  destruct (Z.eqb_spec (Z.of_nat (length l1)) (Z.of_nat (length l2))) as [Hl|Hl]; cbn [negb].
  2: { rewrite !decide_False; [done|intros Hp%Permutation_length; lia|intros ->; lia]. }
  apply Nat2Z.inj in Hl.
  rewrite (bind_Ret _ _ _ _ _ (same_loop_ok _ _ _ _ _ [] [] Hl eq_refl (go_table _ _ _ _ H1) (go_table _ _ _ _ H2))).
  destruct (decide (l1 = l2)) as [E|E]; [by rewrite bool_decide_true|rewrite bool_decide_false by done].
  rewrite (bind_Ret _ _ _ _ _ (subset_loop_ok _ _ _ _ [] _ (go_table _ _ _ _ H1) (go_table _ _ _ _ H2))).
  destruct (decide (l1 ≡ₚ l2)) as [P|P].
  - rewrite bool_decide_true; [done|by apply perm_iff_subset].
  - rewrite bool_decide_false; [done|]. by rewrite <- perm_iff_subset.
Qed.

Definition two_groups : gmem := mkGmem
  {[ 100 := mkGroup MPI_GROUP_COOKIE 2 0 1 0 200; 124 := mkGroup MPI_GROUP_COOKIE 2 1 1 0 208 ]}
  {[ 200 := mkInts 8 {[ 0 := 5; 1 := 7 ]}; 208 := mkInts 8 {[ 0 := 7; 1 := 5 ]} ]} 216 1000.

Lemma two_groups_first : group_ok two_groups 100 [5; 7] (mkGroup MPI_GROUP_COOKIE 2 0 1 0 200).
Proof.
  split; try reflexivity; try discriminate. eexists. split; [reflexivity|]. split; [cbv; discriminate|].
  intros [|[|i]] x H; [injection H as <-; reflexivity..|discriminate].
Qed.
Lemma two_groups_second : group_ok two_groups 124 [7; 5] (mkGroup MPI_GROUP_COOKIE 2 1 1 0 208).
Proof.
  split; try reflexivity; try discriminate. eexists. split; [reflexivity|]. split; [cbv; discriminate|].
  intros [|[|i]] x H; [injection H as <-; reflexivity..|discriminate].
Qed.

Lemma group_compare_spec_witness :
  MPI_Group_compare 100 124 two_groups = Ret (MPI_SUCCESS, Some MPI_SIMILAR) two_groups.
Proof.
  refine (group_compare_spec two_groups 100 124 [5; 7] [7; 5] _ _ two_groups_first two_groups_second _ _);
    apply (bool_decide_unpack _); reflexivity.
Defined.

(** ** Translation *)

Lemma translate_loop_ok s g1 g2 l1 l2 ranks :
  table_ok s (g_lrank2grank g1) l1 -> table_ok s (g_lrank2grank g2) l2 -> g_np g2 = Z.of_nat (length l2) ->
  Forall (fun r => (r < length l1)%nat) ranks ->
  translate_loop g1 g2 (Z.of_nat <$> ranks) s = Ret ((fun r => index_from l2 (l1 !!! r) 0) <$> ranks) s.
Proof.
  intros Ht1 Ht2 Hn. induction 1 as [|r ranks Hr _ IH]; [done|]. cbn [fmap list_fmap translate_loop] in *.
  rewrite (bind_Ret _ _ _ _ _ (load_int_ok s _ l1 r (l1 !!! r) Ht1 (list_lookup_lookup_total_lt _ _ Hr))).
  rewrite Hn, (bind_Ret _ _ _ _ _ (find_rank_in_ok s _ l2 _ Ht2)). by rewrite (bind_Ret _ _ _ _ _ IH).
Qed.

Lemma index_from_NoDup l i x j : NoDup l -> l !! i = Some x -> index_from l x j = j + Z.of_nat i.
Proof.
  revert i j. induction l as [|y l IH]; intros i j Hn Hi; [done|]. apply NoDup_cons in Hn as [Hy Hn].
  cbn [index_from]. destruct i as [|i]; [injection Hi as ->; rewrite Z.eqb_refl; lia|].
  cbn in Hi. rewrite (proj2 (Z.eqb_neq x y)) by (intros ->; by apply Hy, list_elem_of_lookup_2 with i).
  rewrite (IH i) by done. lia.
Qed.

Lemma translate_unfold s group1 group2 l1 l2 r1 r2 ranks :
  group_ok s group1 l1 r1 -> group_ok s group2 l2 r2 ->
  MPI_Group_translate_ranks group1 ranks group2 s =
    (ranks2 ← translate_loop r1 r2 ranks; mret (MPI_SUCCESS, Some ranks2)) s.
Proof.
  intros H1 H2. unfold MPI_Group_translate_ranks.
  rewrite (bind_Ret _ _ _ _ _ (verify_ok _ _ _ _ H1)), (proj2 (Z.eqb_neq _ _) (go_nonnull _ _ _ _ H1)).
  rewrite (bind_Ret _ _ _ _ _ (verify_ok _ _ _ _ H2)), (proj2 (Z.eqb_neq _ _) (go_nonnull _ _ _ _ H2)).
  by rewrite (bind_Ret _ _ _ _ _ (load_group_ok _ _ _ _ H1)), (bind_Ret _ _ _ _ _ (load_group_ok _ _ _ _ H2)).
Qed.

(** MPI_Group_translate_ranks from one well-formed group of distinct processes to
    another and back: the first call stores, for each rank, a rank of the second
    group that is the same process, or MPI_UNDEFINED when there is none; when every
    process of the first group is in the second, the second call gives the
    ranks back. *)
Theorem translate_ranks_roundtrip s group1 group2 l1 l2 r1 r2 ranks
  (H1 : group_ok s group1 l1 r1) (H2 : group_ok s group2 l2 r2) (N1 : NoDup l1)
  (Hr : Forall (fun r => (r < length l1)%nat) ranks) :
  exists out,
    MPI_Group_translate_ranks group1 (Z.of_nat <$> ranks) group2 s = Ret (MPI_SUCCESS, Some out) s /\
    Forall2 (fun r o => (o = MPI_UNDEFINED /\ l1 !!! r ∉ l2) \/
                        exists i, o = Z.of_nat i /\ l2 !! i = Some (l1 !!! r)) ranks out /\
    (l1 ⊆ l2 -> MPI_Group_translate_ranks group2 out group1 s =
                Ret (MPI_SUCCESS, Some (Z.of_nat <$> ranks)) s).
Proof.
  pose proof (go_table _ _ _ _ H1) as T1. pose proof (go_table _ _ _ _ H2) as T2.
  set (tr := fun r => index_from l2 (l1 !!! r) 0). exists (tr <$> ranks).
  assert (Forall (fun r => l1 !!! r ∈ l1) ranks) as Hin
    by (eapply Forall_impl; [exact Hr|]; intros r Hlt; by apply list_elem_of_lookup_total_2).
  split; [|split].
  - rewrite (translate_unfold _ _ _ _ _ _ _ _ H1 H2).
    by rewrite (bind_Ret _ _ _ _ _ (translate_loop_ok s r1 r2 l1 l2 ranks T1 T2 (go_np _ _ _ _ H2) Hr)).
  - apply Forall2_fmap_r, Forall_Forall2_diag. eapply Forall_impl; [exact Hr|]. intros r _. cbn.
    destruct (decide (l1 !!! r ∈ l2)) as [Hx|Hx].
    + right. destruct (index_from_found l2 (l1 !!! r) 0) as (i & E & Hi); [lia|done|]. exists i. split; [exact E|done].
    + left. split; [|done]. by apply index_from_undefined.
  - intros Hsub. rewrite (translate_unfold _ _ _ _ _ _ _ _ H2 H1).
    assert (exists back, tr <$> ranks = Z.of_nat <$> back /\ Forall (fun r => (r < length l2)%nat) back /\
              ((fun r => l2 !!! r) <$> back = (fun r => l1 !!! r) <$> ranks)) as (back & -> & Hb & E).
    { clear Hr. induction Hin as [|r ranks Hx _ IH]; [by exists []|]. destruct IH as (back & E1 & E2 & E3).
      destruct (index_from_found l2 (l1 !!! r) 0) as (i & E & Hi); [lia|by apply Hsub|].
      exists (i :: back). rewrite !fmap_cons, <- E1, E3. repeat split.
      - unfold tr at 1. rewrite E. by f_equal.
      - constructor; [by eapply lookup_lt_Some|done].
      - cbn. f_equal. by apply list_lookup_total_correct. }
    rewrite (bind_Ret _ _ _ _ _ (translate_loop_ok s r2 r1 l2 l1 back T2 T1 (go_np _ _ _ _ H1) Hb)).
    cbv [mret M_ret]. do 3 f_equal.
    change (((fun x => index_from l1 x 0) ∘ (fun r => l2 !!! r)) <$> back = Z.of_nat <$> ranks).
    rewrite list_fmap_compose, E, <- list_fmap_compose. apply list_fmap_ext. intros i r Hi.
    rewrite Forall_lookup in Hr. specialize (Hr _ _ Hi). cbn.
    rewrite (index_from_NoDup l1 r); [lia|done|by apply list_lookup_lookup_total_lt].
Qed.

Lemma translate_ranks_roundtrip_witness :
  exists out, MPI_Group_translate_ranks 100 [0; 1] 124 two_groups = Ret (MPI_SUCCESS, Some out) two_groups.
Proof.
  destruct (translate_ranks_roundtrip two_groups 100 124 [5; 7] [7; 5] _ _ [0%nat; 1%nat] two_groups_first two_groups_second)
    as (out & H & _).
  - apply (bool_decide_unpack _). reflexivity.
  - repeat constructor.
  - exists out. exact H.
Defined.

(** ** The size of the table *)

(** The block at [a] is [bytes] long. *)
Definition block_at (a bytes : Z) (s : gmem) : Prop := exists v, arrays s !! a = Some (mkInts bytes v).

(** [m] faults, or returns with the block still there. *)
Definition faults_or_keeps {A} (a bytes : Z) (m : M gmem A) : Prop :=
  forall s, block_at a bytes s -> m s = Fault \/ exists x s', m s = Ret x s' /\ block_at a bytes s'.

Lemma keeps_bind {A B} a bytes (m : M gmem A) (f : A -> M gmem B) :
  faults_or_keeps a bytes m -> (forall x, faults_or_keeps a bytes (f x)) -> faults_or_keeps a bytes (m ≫= f).
Proof.
  intros Hm Hf s Hs. unfold mbind, M_bind. destruct (Hm s Hs) as [->|(x & s' & -> & Hs')]; [by left|by apply Hf].
Qed.

Lemma keeps_user_int a bytes l i : faults_or_keeps a bytes (user_int l i).
Proof.
  intros s Hs. unfold user_int. destruct (i <? 0); [by left|]. destruct (l !! Z.to_nat i); [right; eauto|by left].
Qed.

Lemma keeps_load_int a bytes b i : faults_or_keeps a bytes (load_int b i).
Proof.
  intros s Hs. unfold load_int. mrun. destruct (arrays s !! b) as [r|]; [|by left].
  destruct (_ && _); [|by left]. destruct (ia_val r !! i); [right; eauto|by left].
Qed.

Lemma keeps_store_int a bytes b i v : faults_or_keeps a bytes (store_int b i v).
Proof.
  intros s Hs. unfold store_int. mrun. destruct (arrays s !! b) as [r|] eqn:E; [|by left].
  destruct (_ && _); [|by left]. right. eexists _, _. split; [done|]. destruct Hs as (w & Hw). unfold block_at.
  cbn. destruct (decide (a = b)) as [->|Hne].
  - rewrite Hw in E. injection E as <-. rewrite lookup_insert_eq. by eexists.
  - rewrite lookup_insert_ne by done. by exists w.
Qed.

Lemma keeps_upd_group a bytes g f : faults_or_keeps a bytes (upd_group g f).
Proof.
  intros s Hs. unfold upd_group, load_group. mrun. destruct (groups s !! g); [right; eauto|by left].
Qed.

Lemma store_past_end s a bytes i v : block_at a bytes s -> bytes < sizeof_int * (i + 1) -> store_int a i v s = Fault.
Proof.
  intros (w & Hw) H. unfold store_int. mrun. rewrite Hw. cbn [ia_bytes].
  by rewrite (proj2 (Z.leb_gt _ _) H), andb_false_r.
Qed.

Lemma for_loop_faults a bytes body k i s :
  (forall j, faults_or_keeps a bytes (body j)) ->
  (forall j t, block_at a bytes t -> bytes < sizeof_int * (j + 1) -> body j t = Fault) ->
  (0 < k)%nat -> bytes < sizeof_int * (i + Z.of_nat k) -> block_at a bytes s ->
  for_loop k i body s = Fault.
Proof.
  intros Hk Hf. revert i s. induction k as [|k IH]; intros i s Hpos Hb Hs; [lia|]. cbn [for_loop].
  unfold mbind at 1, M_bind at 1. destruct k as [|k].
  - rewrite Hf; [done|done|]. unfold sizeof_int in *. lia.
  - destruct (Hk i s Hs) as [->|(x & s' & -> & Hs')]; [done|]. apply IH; [lia| |done]. unfold sizeof_int in *. lia.
Qed.

(** MPI_Group_incl with one rank or more writes past the table of the new group,
    whatever the ranks are: the table is allocated with malloc(n), n bytes instead
    of n ints. *)
Theorem group_incl_overruns s group n ranks l r
  (Hg : group_ok s group l r) (Hn : 1 <= n) (Hb : 0 < gm_brk s) (Hl : gm_brk s + sizeof_Group + n <= gm_lim s) :
  MPI_Group_incl group n ranks s = Fault.
Proof.
  unfold MPI_Group_incl. rewrite (bind_Ret _ _ _ _ _ (verify_ok _ _ _ _ Hg)).
  rewrite (proj2 (Z.eqb_neq _ _) (go_nonnull _ _ _ _ Hg)), (proj2 (Z.eqb_neq n 0)) by lia.
  rewrite (bind_Ret _ _ _ _ _ (load_group_ok _ _ _ _ Hg)). unfold malloc_group, gm_malloc, sizeof_Group in *. mrun.
  rewrite (proj2 (Z.leb_le (gm_brk s + 24) _)) by lia.
  rewrite (proj2 (Z.eqb_neq (gm_brk s) NULL)) by (unfold NULL; lia).
  unfold upd_group at 1, load_group at 1. mrun. cbn. rewrite lookup_insert_eq. cbn.
  unfold malloc_ints, gm_malloc. mrun. cbn. rewrite (proj2 (Z.leb_le _ (gm_lim s))) by lia. cbn.
  rewrite (proj2 (Z.eqb_neq _ NULL)) by (unfold NULL; lia). cbn.
  unfold upd_group at 1, load_group at 1. mrun. cbn. rewrite lookup_insert_eq. cbn.
  unfold for_upto. rewrite Z.sub_0_r.
  rewrite (for_loop_faults (gm_brk s + 24) n); [done| | |lia| |].
  - intros j. apply keeps_bind; [apply keeps_user_int|]. intros x.
    apply keeps_bind; [apply keeps_load_int|]. intros v. apply keeps_bind; [apply keeps_store_int|]. intros _.
    destruct (_ =? _); [apply keeps_upd_group|]. intros t Ht. right. by eexists _, _.
  - intros j t Ht Hj.
    destruct (keeps_user_int _ _ ranks j t Ht) as [E|(x & t1 & E & Ht1)]; [by rewrite E|].
    rewrite E.
    destruct (keeps_load_int _ _ (g_lrank2grank r) x t1 Ht1) as [E1|(v & t2 & E1 & Ht2)]; [by rewrite E1|].
    rewrite E1. by rewrite (store_past_end _ _ _ _ _ Ht2 Hj).
  - unfold sizeof_int. lia.
  - unfold block_at. cbn. rewrite lookup_insert_eq. by eexists.
Qed.

Lemma group_incl_overruns_witness : MPI_Group_incl 100 1 [0] two_groups = Fault.
Proof.
  apply (group_incl_overruns two_groups 100 1 [0] _ _ two_groups_first); cbv; [discriminate|reflexivity|discriminate].
Defined.
