(* ===== verification/Comm.v ===== *)
(** Communicators (mpi/context/comm.c): verification of a communicator handle, the
    per-process MPI_COMM_WORLD objects, queries and contexts. *)
From S2P Require Import Prelude Types Netq Group.

Definition INTER : Z := 0.
Definition INTRA : Z := 1.
Definition MPI_COMM_WORLD_PT2PT_CONTEXT : Z := 0x02020202.
Definition MPI_COMM_WORLD_COLL_CONTEXT : Z := 0x04040404.
Definition sizeof_Comm : Z := 64.

Record tmpi_Comm := mkComm {
  cm_cookie : Z;
  cm_np : Z;
  cm_local_rank : Z;
  cm_lrank2grank : Z;
  cm_pt2pt_context : Z;
  cm_coll_context : Z;
  cm_comm_type : Z;
  cm_group : Z;
  cm_ref_count : Z;
  cm_bc_ptr : Z;
  cm_rdc_ptr : Z;
  cm_ardc_ptr : Z;
  cm_comm_cache : Z;
  cm_attr_cache : Z;
  cm_isPermanent : Z;
  cm_br : Z
}.
#[export] Instance eta_tmpi_Comm : Eta tmpi_Comm := MkEta _ (fun r =>
  mkComm (cm_cookie r) (cm_np r) (cm_local_rank r) (cm_lrank2grank r) (cm_pt2pt_context r)
    (cm_coll_context r) (cm_comm_type r) (cm_group r) (cm_ref_count r) (cm_bc_ptr r) (cm_rdc_ptr r)
    (cm_ardc_ptr r) (cm_comm_cache r) (cm_attr_cache r) (cm_isPermanent r) (cm_br r)).
(** [calloc]ed memory. *)
Definition zero_comm : tmpi_Comm := mkComm 0 0 0 0 0 0 0 0 0 0 0 0 0 0 0 0.

(** The communicators by address, the array [tmpi_COMM_WORLD] (NULL, or a pointer
    per local process), the shared collective objects, the groups. *)
Record cstate := mkCstate {
  comms : gmap Z tmpi_Comm;
  tmpi_COMM_WORLD : option (gmap Z Z);
  COMM_WORLD_Bar : Z;
  COMM_WORLD_Bcast : Z;
  COMM_WORLD_Reduce : Z;
  COMM_WORLD_Allreduce : Z;
  gm : gmem
}.
#[export] Instance eta_cstate : Eta cstate := MkEta _ (fun r =>
  mkCstate (comms r) (tmpi_COMM_WORLD r) (COMM_WORLD_Bar r) (COMM_WORLD_Bcast r)
    (COMM_WORLD_Reduce r) (COMM_WORLD_Allreduce r) (gm r)).

#[local] Notation M := (Prelude.M cstate).

Definition on_groups {A} (m : Prelude.M gmem A) : M A :=
  zoom gm (fun g s => s <| gm := g |>) m.

Definition load_comm (c : Z) : M tmpi_Comm := s ← get; or_fault (comms s !! c).
Definition upd_comm (c : Z) (f : tmpi_Comm -> tmpi_Comm) : M unit :=
  r ← load_comm c; modify (fun s => s <| comms := <[c := f r]> (comms s) |>).
(** [tmpi_COMM_WORLD[myid]] *)
Definition world_of (myid : Z) : M Z :=
  s ← get; w ← or_fault (tmpi_COMM_WORLD s); or_fault (w !! myid).
Definition set_world (myid v : Z) : M unit :=
  s ← get; w ← or_fault (tmpi_COMM_WORLD s);
  _ ← or_fault (w !! myid);
  modify (fun s => s <| tmpi_COMM_WORLD := Some (<[myid := v]> w) |>).

Definition tmpi_comm_verify (comm myid : Z) : M Z :=
  if comm =? MPI_COMM_WORLD then world_of myid
  else c ← load_comm comm; mret (if cm_cookie c =? MPI_COMM_COOKIE then comm else NULL).

(** ** MPI_COMM_WORLD *)

Definition tmpi_comm_end (myid : Z) : M Z :=
  p ← world_of myid;
  if p =? NULL then mret 0
  else
    c ← load_comm p;
    when (negb (cm_group c =? NULL))
      (on_groups (free_group (cm_group c));; upd_comm p (fun c => c <| cm_group := NULL |>));;
    when (negb (cm_lrank2grank c =? NULL))
      (on_groups (free_ints (cm_lrank2grank c));; upd_comm p (fun c => c <| cm_lrank2grank := NULL |>));;
    modify (fun s => s <| comms := delete p (comms s) |>);;
    set_world myid NULL;;
    mret 0.

(** [nq] is the network queue, which the call only reads; a failed translation
    leaves [grank] indeterminate. *)
Definition tmpi_comm_init (nq : netq) (myid : Z) : M Z :=
  let nproc := gTableSize nq in
  s ← get;
  match tmpi_COMM_WORLD s with
  | None => tmpi_comm_end myid;; mret MPI_ERR_INTERN
  | Some _ =>
      p ← on_groups (gm_malloc sizeof_Comm);
      set_world myid p;;
      if p =? NULL then tmpi_comm_end myid;; mret MPI_ERR_INTERN
      else
        modify (fun s => s <| comms := <[p := zero_comm]> (comms s) |>);;
        upd_comm p (fun c => c <| cm_cookie := MPI_COMM_COOKIE |> <| cm_np := nproc |>);;
        grank ← or_fault (match netq_transLocalRank myid nq with
                          | Ret (_, Some g) _ => Some g
                          | _ => None
                          end);
        upd_comm p (fun c => c <| cm_local_rank := grank |>);;
        a ← on_groups (malloc_ints (nproc * sizeof_int));
        upd_comm p (fun c => c <| cm_lrank2grank := a |>);;
        if a =? NULL then tmpi_comm_end myid;; mret MPI_ERR_INTERN
        else
          on_groups (for_upto 0 nproc (fun i => store_int a i i));;
          upd_comm p (fun c => c <| cm_pt2pt_context := MPI_COMM_WORLD_PT2PT_CONTEXT |>
            <| cm_coll_context := MPI_COMM_WORLD_COLL_CONTEXT |> <| cm_comm_type := INTRA |>);;
          g ← on_groups malloc_group;
          upd_comm p (fun c => c <| cm_group := g |>);;
          if g =? NULL then tmpi_comm_end myid;; mret MPI_ERR_INTERN
          else
            on_groups (upd_group g (fun _ => mkGroup MPI_GROUP_COOKIE nproc grank 1 1 a));;
            s ← get;
            upd_comm p (fun c => c <| cm_ref_count := 1 |> <| cm_bc_ptr := COMM_WORLD_Bcast s |>
              <| cm_rdc_ptr := COMM_WORLD_Reduce s |> <| cm_ardc_ptr := COMM_WORLD_Allreduce s |>
              <| cm_comm_cache := NULL |> <| cm_attr_cache := NULL |> <| cm_isPermanent := 1 |>
              <| cm_br := COMM_WORLD_Bar s |>);;
            mret MPI_SUCCESS
  end.

(** ** Queries *)

(** The result code and what is stored through the last argument. *)
Definition MPI_Comm_size (myid communicator : Z) : M (Z * option Z) :=
  comm ← tmpi_comm_verify communicator myid;
  if comm =? NULL then mret (MPI_ERR_COMM, None)
  else c ← load_comm comm; mret (MPI_SUCCESS, Some (cm_np c)).

Definition MPI_Comm_rank (myid communicator : Z) : M (Z * option Z) :=
  comm ← tmpi_comm_verify communicator myid;
  if comm =? NULL then mret (MPI_ERR_COMM, None)
  else c ← load_comm comm; mret (MPI_SUCCESS, Some (cm_local_rank c)).

Definition MPI_Comm_compare (myid communicator1 communicator2 : Z) : M (Z * option Z) :=
  comm1 ← tmpi_comm_verify communicator1 myid;
  if comm1 =? NULL then mret (MPI_ERR_COMM, None)
  else
    comm2 ← tmpi_comm_verify communicator2 myid;
    if comm2 =? NULL then mret (MPI_ERR_COMM, None)
    else
      c1 ← load_comm comm1;
      c2 ← load_comm comm2;
      r ← on_groups (MPI_Group_compare (cm_group c1) (cm_group c2));
      match snd r with
      | None => fault
      | Some group_result =>
          if group_result =? MPI_IDENT then
            mret (MPI_SUCCESS, Some
              (if (cm_pt2pt_context c1 =? cm_pt2pt_context c2) &&
                  (cm_coll_context c1 =? cm_coll_context c2)
               then MPI_IDENT else MPI_CONGRUENT))
          else mret (MPI_SUCCESS, Some group_result)
      end.

(** [MPI_Comm_group] of group.c. *)
Definition MPI_Comm_group (myid communicator : Z) : M (Z * option Z) :=
  comm ← tmpi_comm_verify communicator myid;
  if comm =? NULL then mret (MPI_ERR_COMM, None)
  else
    c ← load_comm comm;
    on_groups (upd_group (cm_group c) (fun g => g <| g_ref_count := g_ref_count g + 1 |>));;
    mret (MPI_SUCCESS, Some (cm_group c)).

Definition tmpi_pt2pt_context_by_comm (comm : Z) : M Z :=
  c ← load_comm comm; mret (cm_pt2pt_context c).
Definition tmpi_coll_context_by_comm (comm : Z) : M Z :=
  c ← load_comm comm; mret (cm_pt2pt_context c).

Definition tmpi_comm_by_context (context : Z) : Z :=
  if (context =? MPI_COMM_WORLD_PT2PT_CONTEXT) || (context =? MPI_COMM_WORLD_COLL_CONTEXT)
  then MPI_COMM_WORLD else MPI_COMM_NULL.

Definition tmpi_comm_global_id (comm comm_lrank : Z) : M Z :=
  if negb (comm =? NULL)
  then c ← load_comm comm; on_groups (load_int (cm_lrank2grank c) comm_lrank)
  else mret (-1).
