(* ===== verification/Ukey.v ===== *)
(** The number under which a thread knows itself (ukey/pthread/ukey_pthread.c): threads
    race to create the key under which the numbers are kept. Which keys
    [pthread_key_create] returns is a parameter. *)
From stdpp Require Import relations.
From S2P Require Import Prelude.

Open Scope Z_scope.

(** A [short], and an [unsigned short]. *)
Definition int16 (z : Z) : Z := (z + 2 ^ 15) mod 2 ^ 16 - 2 ^ 15.
Definition uint16 (z : Z) : Z := z mod 2 ^ 16.

(** Where a thread is in [ukey_setid]. *)
Inductive place := AtTest | AtCreate | AtCas (newkey : Z) | AtDelete (newkey : Z) | AtSet | HasId.

(** The static key, the number of keys created, those deleted, and the value of each
    thread under each key. *)
Record keys := mkKeys { pthread_idkey : Z; created : nat; deleted : gset Z; values : gmap (Z * nat) Z }.
#[export] Instance eta_keys : Eta keys := MkEta _ (fun r => mkKeys (pthread_idkey r) (created r) (deleted r) (values r)).

Section Threads.
(** The key that creation [k] returns; the id with which thread [t] calls. *)
Context (key : nat -> Z) (id : nat -> Z).

(** The next access of thread [t]; nothing once it has its id. *)
Definition ukey_setid (t : nat) (p : place) (s : keys) : option (keys * place) :=
  match p with
  | AtTest => Some (s, if pthread_idkey s =? 0 then AtCreate else AtSet)
  | AtCreate => Some (s <| created := S (created s) |>, AtCas (key (created s)))
  | AtCas newkey =>
      if pthread_idkey s =? 0 then Some (s <| pthread_idkey := newkey |>, AtSet) else Some (s, AtDelete newkey)
  | AtDelete newkey => Some (s <| deleted := deleted s ∪ {[newkey]} |>, AtSet)
  | AtSet => Some (s <| values := <[(pthread_idkey s, t) := uint16 (id t)]> (values s) |>, HasId)
  | HasId => None
  end.

(** [pthread_getspecific] gives NULL where nothing was set. *)
Definition ukey_getid (t : nat) (s : keys) : Z := int16 (default 0 (values s !! (pthread_idkey s, t))).

Inductive ukey_step : keys * list place -> keys * list place -> Prop :=
  | step_thread t s ps p s' p' : ps !! t = Some p -> ukey_setid t p s = Some (s', p') ->
      ukey_step (s, ps) (s', <[t := p']> ps).

Definition ukey_start (n : nat) : keys * list place := (mkKeys 0 0 ∅ ∅, replicate n AtTest).

(** ** Invariant *)

Definition place_ok (s : keys) (t : nat) (p : place) : Prop :=
  match p with
  | AtTest | AtCreate => True
  | AtCas newkey => exists k, (k < created s)%nat /\ newkey = key k /\ pthread_idkey s <> newkey /\ newkey ∉ deleted s
  | AtDelete newkey => exists k, (k < created s)%nat /\ newkey = key k /\ pthread_idkey s <> 0 /\ pthread_idkey s <> newkey
  | AtSet => pthread_idkey s <> 0
  | HasId => pthread_idkey s <> 0 /\ values s !! (pthread_idkey s, t) = Some (uint16 (id t))
  end.

(** No two threads hold the same new key. *)
Definition holds (p : place) : option Z :=
  match p with AtCas newkey | AtDelete newkey => Some newkey | _ => None end.

Record ukey_inv (s : keys) (ps : list place) : Prop := {
  ui_places : forall t p, ps !! t = Some p -> place_ok s t p;
  ui_apart : forall t u p q k, ps !! t = Some p -> ps !! u = Some q -> holds p = Some k -> holds q = Some k -> t = u;
  ui_idkey : pthread_idkey s = 0 \/ (exists k, (k < created s)%nat /\ pthread_idkey s = key k) /\ pthread_idkey s ∉ deleted s;
  ui_deleted : forall k, k ∈ deleted s -> exists i, (i < created s)%nat /\ k = key i
}.

Context (Hkey : forall k, key k <> 0) (Hinj : forall j k, key j = key k -> j = k).

(** A step of thread [t] that leaves the others as they should be. *)
Lemma ukey_inv_insert s s' ps t p p' : ukey_inv s ps -> ps !! t = Some p -> place_ok s' t p' ->
  (forall u q, u <> t -> ps !! u = Some q -> place_ok s u q -> place_ok s' u q) ->
  (holds p' = None \/ holds p' = holds p \/ exists k, holds p' = Some k /\ forall u q, ps !! u = Some q -> holds q <> Some k) ->
  (pthread_idkey s' = 0 \/ (exists k, (k < created s')%nat /\ pthread_idkey s' = key k) /\ pthread_idkey s' ∉ deleted s') ->
  (forall k, k ∈ deleted s' -> exists i, (i < created s')%nat /\ k = key i) -> ukey_inv s' (<[t := p']> ps).
Proof.
  intros HI Ht Hp' Hothers Hholds Hid Hdel. split; [| |done|done].
  - intros u q Hq. apply list_lookup_insert_Some in Hq as [(<- & <- & _)|[Hne Hq]]; [done|]. apply Hothers; [done|done|by apply (ui_places _ _ HI)].
  - assert (Hone : forall u q k, ps !! u = Some q -> u <> t -> holds p' = Some k -> holds q = Some k -> False).
    { intros u q k Hq Hne E Eq. destruct Hholds as [E'|[E'|(k' & E' & Hk)]]; [congruence| |].
      - rewrite E' in E. apply Hne. by apply (ui_apart _ _ HI u t q p k).
      - apply (Hk u q Hq). congruence. }
    intros u v q r k Hq Hr Eq Er.
    apply list_lookup_insert_Some in Hq as [(<- & <- & _)|[Hne Hq]]; apply list_lookup_insert_Some in Hr as [(<- & <- & _)|[Hne' Hr]]; try done.
    + exfalso. by apply (Hone v r k).
    + exfalso. by apply (Hone u q k).
    + by apply (ui_apart _ _ HI u v q r k).
Qed.

Lemma held_key s ps u q k : ukey_inv s ps -> ps !! u = Some q -> holds q = Some k -> exists i, (i < created s)%nat /\ k = key i.
Proof.
  intros HI Hq Hh. pose proof (ui_places _ _ HI u q Hq) as H. destruct q; try done; injection Hh as ->; destruct H as (i & ? & ? & _); by exists i.
Qed.

Lemma ukey_step_inv s ps s' ps' : ukey_inv s ps -> ukey_step (s, ps) (s', ps') -> ukey_inv s' ps'.
Proof.
  intros HI Hstep. inversion Hstep as [t s0 ps0 p s1 p' Ht Hrun]; subst. pose proof (ui_places _ _ HI t p Ht) as Hp.
  destruct p as [| |newkey|newkey| |]; cbn in Hrun; try done.
  - injection Hrun as <- <-. eapply ukey_inv_insert; try done; [|by left; destruct (_ =? 0)|apply (ui_idkey _ _ HI)|apply (ui_deleted _ _ HI)].
    cbn; destruct (Z.eqb_spec (pthread_idkey s) 0); done.
  - injection Hrun as <- <-. assert (Hnew : forall i, (i < created s)%nat -> key (created s) <> key i) by (intros i Hi E; apply Hinj in E; lia).
    eapply ukey_inv_insert; try done; cbn.
    + exists (created s). split; [lia|]. split; [done|]. split.
      * destruct (ui_idkey _ _ HI) as [->|[(k & Hk & ->) _]]; [by apply not_eq_sym|]. by apply not_eq_sym, Hnew.
      * intros (i & Hi & E)%(ui_deleted _ _ HI). by apply (Hnew i).
    + intros u q _ _ Hq. destruct q; try done; cbn in *; destruct Hq as (k & Hk & H); exists k; (split; [lia|done]).
    + right. right. exists (key (created s)). split; [done|]. intros u q Hq Hh. destruct (held_key _ _ _ _ _ HI Hq Hh) as (i & Hi & E). by apply (Hnew i).
    + destruct (ui_idkey _ _ HI) as [?|[(k & Hk & E) H]]; [by left|]. right. split; [|done]. exists k. split; [lia|done].
    + intros k (i & Hi & E)%(ui_deleted _ _ HI). exists i. split; [lia|done].
  - destruct Hp as (k & Hk & -> & Hne & Hdel). destruct (Z.eqb_spec (pthread_idkey s) 0) as [E|E]; injection Hrun as <- <-.
    + eapply ukey_inv_insert; try done; cbn.
      * apply Hkey.
      * intros u q Hu Hq Hok. destruct q as [| |k'|k'| |]; cbn in *; try done.
        -- destruct Hok as (i & Hi & -> & _ & Hd). exists i. split; [done|]. split; [done|]. split; [|done]. intros Ek.
           apply Hu. apply (ui_apart _ _ HI u t _ _ (key i) Hq Ht); cbn; congruence.
        -- by destruct Hok as (_ & _ & _ & ? & _).
        -- by destruct Hok as [? _].
      * by left.
      * right. split; [by exists k|done].
      * apply (ui_deleted _ _ HI).
    + eapply ukey_inv_insert; try done; cbn; [by exists k|right; by left|apply (ui_idkey _ _ HI)|apply (ui_deleted _ _ HI)].
  - destruct Hp as (k & Hk & -> & H0 & Hne). injection Hrun as <- <-. eapply ukey_inv_insert; try done; cbn.
    + intros u q Hu Hq Hok. destruct q as [| |k'|k'| |]; cbn in *; try done. destruct Hok as (i & Hi & -> & ? & Hd). exists i. split; [done|]. split; [done|]. split; [done|].
      apply not_elem_of_union. split; [done|]. intros Ek%elem_of_singleton. apply Hu. apply (ui_apart _ _ HI u t _ _ (key i) Hq Ht); cbn; congruence.
    + by left.
    + destruct (ui_idkey _ _ HI) as [?|[? H]]; [by left|]. right. split; [done|]. apply not_elem_of_union. split; [done|]. by apply not_elem_of_singleton.
    + intros j [Hj| ->%elem_of_singleton]%elem_of_union; [by apply (ui_deleted _ _ HI)|]. by exists k.
  - injection Hrun as <- <-. eapply ukey_inv_insert; try done; cbn.
    + split; [done|]. by rewrite lookup_insert_eq.
    + intros u q Hu Hq Hok. destruct q; try done. cbn in *. destruct Hok as [H1 H2]. split; [done|]. rewrite lookup_insert_ne; [done|]. by intros [= ?].
    + by left.
    + apply (ui_idkey _ _ HI).
    + apply (ui_deleted _ _ HI).
Qed.

Lemma ukey_reachable_inv n s : rtc ukey_step (ukey_start n) s -> ukey_inv s.1 s.2.
Proof.
  intros H. assert (ukey_inv (ukey_start n).1 (ukey_start n).2) as H0.
  { split; cbn; [| |by left|set_solver].
    - intros t p [-> _]%lookup_replicate. done.
    - intros t u p q k [-> _]%lookup_replicate. done. }
  induction H as [s|s1 s2 s3 H12 _ IH]; [done|]. apply IH. destruct s1, s2. by eapply ukey_step_inv.
Qed.
End Threads.

(** ** Properties *)

Lemma int16_uint16 z : - 2 ^ 15 <= z < 2 ^ 15 -> int16 (uint16 z) = z.
Proof. intros H. unfold int16, uint16. rewrite Zplus_mod_idemp_l. rewrite Z.mod_small by lia. lia. Qed.

(** However the first calls of [ukey_setid] race for the key, every thread that has
    called it finds its own id from then on, and the key is one that was not deleted;
    provided that [pthread_key_create] never returns the key 0. *)
Theorem ukey_ids key id n s t
  (Hkey : forall k, key k <> 0) (Hinj : forall j k, key j = key k -> j = k) (Hid : - 2 ^ 15 <= id t < 2 ^ 15)
  (Hs : rtc (ukey_step key id) (ukey_start n) s) (Ht : s.2 !! t = Some HasId) :
  ukey_getid t s.1 = id t /\ pthread_idkey s.1 ∉ deleted s.1.
Proof.
  apply (ukey_reachable_inv key id Hkey Hinj) in Hs. destruct (ui_places _ _ _ _ Hs t _ Ht) as [H0 Hv]. split.
  - unfold ukey_getid. rewrite Hv. by apply int16_uint16.
  - by destruct (ui_idkey _ _ _ _ Hs) as [?|[_ H]].
Qed.

(** The key 0 stands for none, but is the first that a process gets: then the first
    thread keeps its id under key 0, the second creates another key and makes it the
    key of all, and the first thread finds 0 for its id. *)
Theorem ukey_zero_key_loses_ids :
  exists s, rtc (ukey_step (fun k => Z.of_nat k) (fun t => Z.of_nat t + 5)) (ukey_start 2) s /\ s.2 = [HasId; HasId] /\ ukey_getid 0 s.1 = 0 /\ ukey_getid 1 s.1 = 6.
Proof.
  eexists. split.
  - do 4 (eapply rtc_l; [eapply (step_thread _ _ 0%nat); [reflexivity|cbn; reflexivity]|]).
    do 4 (eapply rtc_l; [eapply (step_thread _ _ 1%nat); [reflexivity|cbn; reflexivity]|]). apply rtc_refl.
  - split; [reflexivity|]. split; reflexivity.
Qed.

(** Two threads race for the key; the second loses and deletes its own. *)
Lemma ukey_ids_witness : exists s, rtc (ukey_step (fun k => Z.of_nat k + 1) (fun t => Z.of_nat t + 5)) (ukey_start 2) s /\ s.2 !! 1%nat = Some HasId /\ ukey_getid 1 s.1 = 6 /\ pthread_idkey s.1 ∉ deleted s.1.
Proof.
  pose (run := fun s => rtc (ukey_step (fun k => Z.of_nat k + 1) (fun t => Z.of_nat t + 5)) (ukey_start 2) s).
  assert (exists s, run s /\ s.2 !! 1%nat = Some HasId) as (s & Hs & Ht).
  { eexists. split; [unfold run|].
    - do 2 (eapply rtc_l; [eapply (step_thread _ _ 0%nat); [reflexivity|cbn; reflexivity]|]).
      do 2 (eapply rtc_l; [eapply (step_thread _ _ 1%nat); [reflexivity|cbn; reflexivity]|]).
      eapply rtc_l; [eapply (step_thread _ _ 0%nat); [reflexivity|cbn; reflexivity]|].
      do 3 (eapply rtc_l; [eapply (step_thread _ _ 1%nat); [reflexivity|cbn; reflexivity]|]). apply rtc_refl.
    - reflexivity. }
  exists s. split; [exact Hs|]. split; [done|]. apply (ukey_ids (fun k => Z.of_nat k + 1) (fun t => Z.of_nat t + 5) 2 s 1); try done; intros; lia.
Defined.
