(* ===== verification/Util.v ===== *)
(** Small services: debug output (utils/tmpi_debug.c), timers (utils/usc/usc_time.c), the
    deadline of a timed wait (thread/pthread/thread.c), the number of processors
    (machine/x86_cpu.c), and inquiries (mpi/util/tmpi_misc.c, tmpi_util.c). *)
From Stdlib Require Import String Ascii DecimalString.
From S2P Require Import Prelude Types Netq.

Open Scope Z_scope.

(** The characters of a string constant, and of a number that is printed with [%d]. *)
Definition bytes_of (s : string) : list Z := (fun a => Z.of_nat (nat_of_ascii a)) <$> list_ascii_of_string s.
Definition print_int (z : Z) : list Z := bytes_of (NilZero.string_of_int (Z.to_int z)).

(** ** Debug output *)

Definition DBG_ALL : Z := 0.
Definition DBG_NONE : Z := 10000.

(** The level, the place in the source to be printed next, and what was printed. *)
Record dbg := mkDbg { debug_level : Z; debug_line : Z; debug_file : list Z; output : list (list Z) }.
#[export] Instance eta_dbg : Eta dbg := MkEta _ (fun r => mkDbg (debug_level r) (debug_line r) (debug_file r) (output r)).

Section Debug.
Notation M := (M dbg).

Definition tmpi_setparam (line : Z) (file : list Z) : M Z :=
  modify (fun s => s <| debug_line := line |> <| debug_file := file |>);; mret 0.
Definition tmpi_get_dbg_level : M Z := s ← get; mret (debug_level s).
Definition tmpi_set_dbg_level (level : Z) : M unit :=
  let level := if DBG_NONE <? level then DBG_NONE else level in
  let level := if level <=? DBG_ALL then DBG_ALL + 1 else level in
  modify (fun s => s <| debug_level := level |>).

(** The line that is printed; [text] is the formatted message. *)
Definition error_line (level line : Z) (file text : list Z) : list Z :=
  bytes_of "[" ++ print_int level ++ bytes_of "]:(" ++ file ++ bytes_of ":" ++ print_int line ++ bytes_of ") " ++ text.

Definition tmpi_error0 (level : Z) (text : list Z) : M Z :=
  s ← get;
  if level <=? debug_level s then mret 0
  else
    modify (fun s => s <| output := output s ++ [error_line level (debug_line s) (debug_file s) text] |>);;
    tmpi_setparam (-1) (bytes_of "<unknown>").
Definition tmpi_error1 (level line : Z) (file text : list Z) : M Z :=
  tmpi_setparam line file;; tmpi_error0 level text.
End Debug.

(** The level is kept within its bounds, so messages below it are not printed and fatal
    ones are unless all output is switched off. *)
Lemma tmpi_set_dbg_level_bounds level s :
  exists s', tmpi_set_dbg_level level s = Ret tt s' /\ DBG_ALL < debug_level s' <= DBG_NONE.
Proof. eexists. split; [reflexivity|]. cbn. unfold DBG_ALL, DBG_NONE. repeat case_match; lia. Qed.

(** ** Timers, in ticks of the processor's clock *)

Record usc_tmr_t := mkTimer { elaps : Z; lstart : Z; started : bool }.
#[export] Instance eta_timer : Eta usc_tmr_t := MkEta _ (fun r => mkTimer (elaps r) (lstart r) (started r)).

Definition usc_tmr_reset (timer : usc_tmr_t) : usc_tmr_t := timer <| elaps := 0 |> <| started := false |>.
Definition usc_tmr_start (now : Z) (timer : usc_tmr_t) : usc_tmr_t :=
  if started timer then timer else timer <| started := true |> <| lstart := now |>.
Definition usc_tmr_stop (now : Z) (timer : usc_tmr_t) : usc_tmr_t :=
  if started timer then timer <| started := false |> <| elaps := elaps timer + (now - lstart timer) |> else timer.
(** The ticks that [usc_wtime] turns into microseconds. *)
Definition usc_tmr_read (now : Z) (timer : usc_tmr_t) : Z :=
  if started timer then elaps timer + (now - lstart timer) else elaps timer.

(** Reading does not depend on whether a running timer was stopped and started again. *)
Lemma usc_tmr_pause now later timer :
  usc_tmr_read later (usc_tmr_start now (usc_tmr_stop now timer)) =
    (if started timer then usc_tmr_read later timer else usc_tmr_read now timer + (later - now)).
Proof. destruct timer as [e l []]; unfold usc_tmr_read, usc_tmr_start, usc_tmr_stop; cbn; lia. Qed.

(** The rate is set from /proc/cpuinfo when it is -1, but starts as 400: [found] is what
    the file says. *)
Definition mhz_rate_init (rate : Z) (found : option Z) : Z := if rate =? -1 then default 400 found else rate.

(** ** The deadline of a timed wait *)

(** The sum is one of [long]s of 32 bits, and only then a [long long]. *)
Definition total_in_us (sec usec time_in_us : Z) : Z := int32 (int32 (int32 (sec * 1000000) + usec) + time_in_us).
(** Seconds and nanoseconds. *)
Definition thr_cnd_deadline (sec usec time_in_us : Z) : Z * Z :=
  let total := total_in_us sec usec time_in_us in (cdiv total 1000000, cmod total 1000000 * 1000).

(** A timed wait does not wait: where [long] has 32 bits the microseconds since 1970
    overflow, so the deadline is within 2147 seconds of the start of 1970, in the past at
    any later time, however long the caller wants to wait. *)
Theorem timed_wait_deadline_past sec usec time_in_us :
  let '(s, _) := thr_cnd_deadline sec usec time_in_us in - 2147 <= s <= 2147.
Proof.
  unfold thr_cnd_deadline, total_in_us. pose proof (int32_range (int32 (int32 (sec * 1000000) + usec) + time_in_us)) as H.
  set (x := int32 _) in *. unfold cdiv. pose proof (Z.quot_abs x 1000000 ltac:(lia)) as E.
  rewrite (Z.quot_div_nonneg (Z.abs x)) in E by lia. change (Z.abs 1000000) with 1000000 in E.
  pose proof (Z.div_lt_upper_bound (Z.abs x) 1000000 2148). lia.
Qed.

(** ** Processors *)

Definition cpu_current : Z := -1.

Definition isspace (c : Z) : bool := (c =? 32) || ((9 <=? c) && (c <=? 13)).
(** [lines] are what [fgets] reads from /proc/cpuinfo, if it can be opened. *)
Definition cpu_total (lines : option (list (list Z))) : Z :=
  match lines with
  | None => -1
  | Some lines =>
      let name := bytes_of "processor" in
      let count := Z.of_nat (count_if (fun line => bool_decide (take (List.length name) line = name) &&
        isspace (default 0 (line !! List.length name))) lines) in
      if count =? 0 then -1 else count
  end.

(** ** Inquiries *)

Definition MPI_VERSION : Z := 1.
Definition MPI_SUBVERSION : Z := 1.
Definition MPI_TAG_UB : Z := 80.
Definition MPI_ERR_PARAM : Z := 23.
Definition MPI_PROC_NULL : Z := -1.

(** A pointer that may be NULL is an option; what is stored through it is returned. The
    second test looks at what [subversion] points to. *)
Definition tmpi_Get_version (version : bool) (subversion : option Z) : option (Z * option Z * option Z) :=
  match subversion with
  | None => None
  | Some v => Some (MPI_SUCCESS, if version then Some MPI_VERSION else None, Some (if v =? 0 then v else MPI_SUBVERSION))
  end.
Definition tmpi_Tag_ub (ub : bool) : Z * option Z := (MPI_SUCCESS, if ub then Some MPI_TAG_UB else None).
Definition tmpi_Host (host : bool) : Z * option Z := (MPI_SUCCESS, if host then Some MPI_PROC_NULL else None).

Definition tmpi_Io (io : bool) : Prelude.M netq (Z * option Z) :=
  r ← netq_findGlobalRank (mkID 0 0);
  grank ← (if r.1 <? 0 then mret MPI_PROC_NULL else or_fault r.2);
  mret (MPI_SUCCESS, if io then Some grank else None).

Definition tmpi_Wtime_isglobal (mac_size : Z) (flag : bool) : Z * option Z :=
  (MPI_SUCCESS, if flag then Some (if mac_size =? 1 then 1 else 0) else None).

(** The name and the length that are stored; [mycpu] and [ncpu] are as above. *)
Definition tmpi_Get_processor_name (hostname : list Z) (mycpu ncpu : Z) : Z * list Z * Z :=
  let strncpu := bytes_of "(arch <unknown>)" in
  let strmycpu := bytes_of "<unknown>" in
  let strncpu := if negb (mycpu =? -1) then print_int mycpu else strncpu in
  let strncpu :=
    if negb (ncpu =? -1) then
      if 1 <? ncpu then bytes_of "(smp-" ++ print_int ncpu ++ bytes_of ") on PROCID " ++ strmycpu else bytes_of "(uni-proc)"
    else strncpu in
  let name := hostname ++ strncpu in
  (MPI_SUCCESS, name, Z.of_nat (List.length name) + 1).

Definition tmpi_Init : Z := MPI_SUCCESS.
Definition tmpi_Finalize : Z := MPI_SUCCESS.
(** The exit code of the thread, or the value that is returned. *)
Definition tmpi_Abort (comm code : Z) : Z + Z := if comm =? MPI_COMM_WORLD then inl code else inr code.

Example processor_name_smp : tmpi_Get_processor_name (bytes_of "node1") cpu_current
  (cpu_total (Some [bytes_of "processor	: 0"; bytes_of "vendor_id	: GenuineIntel"; bytes_of "processor	: 1"])) =
  (0, bytes_of "node1(smp-2) on PROCID <unknown>", 33).
Proof. vm_compute. reflexivity. Qed.
