(* ===== verification/Startup.v ===== *)
(** The life of a process: the objects that all communicators share (mpi/context/comm.c),
    threads created in a batch (thread/pthread/thread.c), the initialization of the parts
    (mpi/init/mpi_init.c) and the main program (mpi/init/mpi_main.c). What an allocator
    returns, and the codes of parts that other files model, are arguments. *)
From S2P Require Import Prelude Types Group Comm.

Open Scope Z_scope.

(** ** The objects of MPI_COMM_WORLD *)

(** The communicators, and the objects that were created and not destroyed yet. *)
Record cworld := mkCworld { cw : cstate; objs : gset Z }.
#[export] Instance eta_cworld : Eta cworld := MkEta _ (fun r => mkCworld (cw r) (objs r)).

Section World.
Notation M := (M cworld).

(** An object is destroyed: it must be there. *)
Definition destroy (p : Z) : M unit :=
  s ← get; if decide (p ∈ objs s) then modify (fun s => s <| objs := objs s ∖ {[p]} |>) else fault.
(** A creation gives [p], NULL when it fails. *)
Definition create (p : Z) : M Z :=
  when (negb (p =? NULL)) (modify (fun s => s <| objs := objs s ∪ {[p]} |>));; mret p.

Definition tmpi_comm_gend : M Z :=
  modify (fun s => s <| cw := cw s <| tmpi_COMM_WORLD := None |> |>);;
  s ← get;
  when (negb (COMM_WORLD_Bar (cw s) =? NULL))
    (destroy (COMM_WORLD_Bar (cw s));; modify (fun s => s <| cw := cw s <| COMM_WORLD_Bar := NULL |> |>));;
  s ← get;
  when (negb (COMM_WORLD_Bcast (cw s) =? NULL))
    (destroy (COMM_WORLD_Bcast (cw s));; modify (fun s => s <| cw := cw s <| COMM_WORLD_Bcast := NULL |> |>));;
  s ← get;
  when (negb (COMM_WORLD_Bcast (cw s) =? NULL))
    (destroy (COMM_WORLD_Reduce (cw s));; modify (fun s => s <| cw := cw s <| COMM_WORLD_Reduce := NULL |> |>));;
  s ← get;
  when (negb (COMM_WORLD_Allreduce (cw s) =? NULL))
    (destroy (COMM_WORLD_Allreduce (cw s));; modify (fun s => s <| cw := cw s <| COMM_WORLD_Allreduce := NULL |> |>));;
  mret MPI_SUCCESS.

(** What the allocations and creations give, in their order. *)
Record supplies := mkSupplies { sup_world : Z; sup_bar : Z; sup_bar_init : Z; sup_bcast : Z; sup_reduce : Z; sup_allreduce : Z }.

Definition tmpi_comm_ginit (sup : supplies) (size : Z) : M Z :=
  let error_out := tmpi_comm_gend;; mret MPI_ERR_INTERN in
  modify (fun s => s <| cw := cw s <| tmpi_COMM_WORLD :=
    (if sup_world sup =? NULL then None else Some (list_to_map ((fun i => (i, NULL)) <$> seqZ 0 size))) |> |>);;
  if sup_world sup =? NULL then error_out
  else
    b ← create (sup_bar sup);
    modify (fun s => s <| cw := cw s <| COMM_WORLD_Bar := b |> |>);;
    if b =? NULL then error_out
    else if sup_bar_init sup <? 0 then error_out
    else
      p ← create (sup_bcast sup); modify (fun s => s <| cw := cw s <| COMM_WORLD_Bcast := p |> |>);;
      p ← create (sup_reduce sup); modify (fun s => s <| cw := cw s <| COMM_WORLD_Reduce := p |> |>);;
      p ← create (sup_allreduce sup); modify (fun s => s <| cw := cw s <| COMM_WORLD_Allreduce := p |> |>);;
      s ← get;
      if (COMM_WORLD_Bar (cw s) =? NULL) || (COMM_WORLD_Reduce (cw s) =? NULL) || (COMM_WORLD_Allreduce (cw s) =? NULL)
      then error_out else mret MPI_SUCCESS.
End World.

(** ** Threads in a batch *)

Definition THR_MAX_THREADS : Z := 1024.
Definition sizeof_thr_parm : Z := 20.
Definition offset_ret : Z := 16.

Record thr_parm := mkParm { tp_id : Z; tp_arg : Z; tp_f : Z; tp_ret : Z }.
#[export] Instance eta_thr_parm : Eta thr_parm := MkEta _ (fun r => mkParm (tp_id r) (tp_arg r) (tp_f r) (tp_ret r)).

(** A block of the heap to be got or given back; the table of threads; the ids under
    which thread functions ran, with their functions and arguments, in their order. *)
Record process := mkProc {
  live : gset Z;
  allocs : nat;
  max_threads : Z;
  threads : option (Z * list thr_parm);
  thr_idx : Z;
  ran : list (Z * Z * Z)
}.
#[export] Instance eta_process : Eta process := MkEta _ (fun r =>
  mkProc (live r) (allocs r) (max_threads r) (threads r) (thr_idx r) (ran r)).

Section Process.
(** The address that allocation [k] of the process gives while the blocks [X] are in
    use, or NULL. *)
Context (supply : gset Z -> nat -> Z).
Notation M := (M process).

Definition alloc : M Z :=
  s ← get;
  let p := supply (live s) (allocs s) in
  modify (fun s => s <| allocs := S (allocs s) |>);;
  when (negb (p =? NULL)) (modify (fun s => s <| live := live s ∪ {[p]} |>));;
  mret p.
Definition free (p : Z) : M unit :=
  if p =? NULL then mret tt
  else s ← get; if decide (p ∈ live s) then modify (fun s => s <| live := live s ∖ {[p]} |>) else fault.

Definition thr_init (max : Z) : M Z :=
  s ← get;
  match threads s with
  | Some _ => mret (-1)
  | None =>
      let max := if max <? THR_MAX_THREADS then THR_MAX_THREADS else max in
      modify (fun s => s <| max_threads := max |>);;
      p ← alloc;
      modify (fun s => s <| threads := if p =? NULL then None else Some (p, replicate (Z.to_nat max) (mkParm 0 0 0 0)) |>);;
      mret 0
  end.

Definition thr_getMaxThreads : M Z := s ← get; mret (max_threads s).

(** Returns the address of the entry; the counter moves before the entry is written. *)
Definition thr_createbatch (f id arg : Z) : M Z :=
  s ← get;
  match threads s with
  | None => mret NULL
  | Some (p, tab) =>
      let i := thr_idx s in
      modify (fun s => s <| thr_idx := i + 1 |>);;
      e ← or_fault (tab !! Z.to_nat i);
      modify (fun s => s <| threads := Some (p, <[Z.to_nat i := e <| tp_f := f |> <| tp_id := id |> <| tp_arg := arg |>]> tab) |>);;
      mret (p + i * sizeof_thr_parm)
  end.

(** [body f arg id] is what the function [f] returns to a thread. *)
Context (body : Z -> Z -> Z -> Z).

(** A thread runs; its exit value is the address of its [ret]. *)
Definition thr_stub (i : nat) : M Z :=
  s ← get;
  t ← or_fault (threads s);
  e ← or_fault (t.2 !! i);
  modify (fun s => s <| ran := ran s ++ [(tp_id e, tp_f e, tp_arg e)] |>
                    <| threads := Some (t.1, <[i := e <| tp_ret := body (tp_f e) (tp_arg e) (tp_id e) |>]> (t.2)) |>);;
  mret (t.1 + Z.of_nat i * sizeof_thr_parm + offset_ret).

(** Joining stores the exit value in [ret]. *)
Definition thr_join (i : nat) (exit : Z) : M unit :=
  s ← get;
  t ← or_fault (threads s);
  e ← or_fault (t.2 !! i);
  modify (fun s => s <| threads := Some (t.1, <[i := e <| tp_ret := exit |>]> (t.2)) |>).

(** The threads that were created run; [order] is the one in which they end. They only
    write their own entries, so it does not matter how they interleave before that. The
    exit values, by thread. *)
Fixpoint run_threads (order : list nat) : M (list (nat * Z)) :=
  match order with
  | [] => mret []
  | i :: order' => exit ← thr_stub i; l ← run_threads order'; mret ((i, exit) :: l)
  end.
(** The [k] threads from [i] on are joined; a thread that never ends is waited for. The
    sum of what is joined. *)
Fixpoint join_from (exits : gmap nat Z) (k i : nat) (ret : Z) : M Z :=
  match k with
  | O => mret ret
  | S k' =>
      exit ← (match exits !! i with Some x => mret x | None => stuck end);
      thr_join i exit;;
      join_from exits k' (S i) (int32 (ret + exit))
  end.
(** The result of [pthread_create] is not looked at; it is taken to succeed. *)
Definition thr_start (order : list nat) : M Z :=
  s ← get;
  exits ← run_threads order;
  join_from (list_to_map exits) (Z.to_nat (thr_idx s)) 0 0.

Definition thr_end : M Z := mret 0.

(** ** The main program *)

(** Arguments of a thread: its number, the copied vector (NULL, or a block) and strings. *)
Record tmpi_para := mkPara { pa_myid : Z; pa_argc : Z; pa_argv : Z; pa_args : list Z }.

(** The strings of one vector: NULL from the first that cannot be allocated on. *)
Fixpoint copy_args (argc : nat) : M (list Z * bool) :=
  match argc with
  | O => mret ([], true)
  | S argc' =>
      p ← alloc;
      if p =? NULL then mret (replicate argc NULL, false)
      else r ← copy_args argc'; let '(l, ok) := r in mret (p :: l, ok)
  end.

Definition no_para : tmpi_para := mkPara 0 0 NULL [].

(** The parameters of [k] threads from number [i] on, zero from the first failure on. *)
Fixpoint fill_paras (argc k : nat) (i : Z) : M (list tmpi_para * bool) :=
  match k with
  | O => mret ([], true)
  | S k' =>
      v ← alloc;
      if v =? NULL then mret (mkPara i (Z.of_nat argc) NULL [] :: replicate k' no_para, false)
      else
        r ← copy_args argc; let '(l, ok) := r in
        let p := mkPara i (Z.of_nat argc) v l in
        if negb ok then mret (p :: replicate k' no_para, false)
        else r ← fill_paras argc k' (i + 1); let '(ps, ok) := r in mret (p :: ps, ok)
  end.

Definition free_list (l : list Z) : M unit := foldr (fun p m => free p;; m) (mret tt) l.
Definition free_para (paras : Z) (l : list tmpi_para) : M unit :=
  when (negb (paras =? NULL))
    (foldr (fun p m => when (negb (pa_argv p =? NULL)) (free_list (pa_args p);; free (pa_argv p));; m) (mret tt) l;;
     free paras).

Definition tmpi_thr_stub : Z := 1.
Definition sizeof_para : Z := 12.

(** The handles of the threads are stored in the array [arr]. *)
Fixpoint create_threads (arr paras : Z) (k : nat) (i : Z) : M unit :=
  match k with
  | O => mret tt
  | S k' =>
      thr_createbatch tmpi_thr_stub i (paras + i * sizeof_para);;
      if arr =? NULL then fault else create_threads arr paras k' (i + 1)
  end.

(** [init] and [local_size] are what [tmpi_main_init] and [netq_getLocalSize] return. The
    second component tells whether [tmpi_main_end] was called; [order] is the order in
    which the threads end. *)
Definition main (init local_size : Z) (argc : nat) (order : list nat) : M (Z * bool) :=
  if init <? 0 then mret (-1, false)
  else if local_size <? 0 then mret (-1, true)
  else
    paras ← alloc;
    arr ← alloc;
    if paras =? NULL then mret (-1, true)
    else
      r ← fill_paras argc (Z.to_nat local_size) 0; let '(l, success) := r in
      if negb success then free_para paras l;; mret (-1, true)
      else
        create_threads arr paras (Z.to_nat local_size) 0;;
        thr_start order;;
        free arr;;
        free_para paras l;;
        mret (0, true).
End Process.

(** ** Initialization of the parts *)

Definition MAX_THREAD_PER_NODE : Z := 256.

(** The codes of the calls, in their order; the local size is read in between. *)
Definition tmpi_main_init (initEnv start local_size intra comm mb thr ukey : Z) : Z :=
  let ret := initEnv + start in
  if local_size <=? 0 then -1 else ret + intra + comm + mb + thr + ukey.

Definition tmpi_main_end (thr mb comm netq : Z) : Z := thr + mb + comm + netq.
Definition tmpi_thr_init (mb comm : Z) : Z := mb + comm.
Definition tmpi_thr_end (comm mb : Z) : Z := comm + mb.

(** What a thread of the program returns; [tmain] is the result of the user's program. *)
Definition thread_body (mb comm tmain : Z) : Z := if tmpi_thr_init mb comm <? 0 then -1 else tmain.

(** ** Memory of the main program *)

(** The blocks of the parameters. *)
Definition para_blocks (p : tmpi_para) : list Z :=
  if pa_argv p =? NULL then [] else List.filter (fun a => negb (a =? NULL)) (pa_args p) ++ [pa_argv p].
Definition blocks (l : list tmpi_para) : list Z := concat (para_blocks <$> l).

Section Memory.
Context (supply : gset Z -> nat -> Z).
(** malloc(3): a block in use is not given again. *)
Context (Hfresh : forall X k, supply X k = NULL \/ supply X k ∉ X).

(** What a part of the program does to the memory: it takes the blocks [l]. *)
Definition takes (s : process) (l : list Z) (s' : process) : Prop :=
  live s' = live s ∪ list_to_set l /\ NoDup l /\ (forall p, p ∈ l -> p ∉ live s) /\
  max_threads s' = max_threads s /\ threads s' = threads s /\ thr_idx s' = thr_idx s /\ ran s' = ran s.

Lemma takes_nil s s' : live s' = live s -> max_threads s' = max_threads s -> threads s' = threads s -> thr_idx s' = thr_idx s ->
  ran s' = ran s -> takes s [] s'.
Proof. intros ? ? ? ? ?. split_and!; try done; [set_solver|apply NoDup_nil_2|by intros p ?%not_elem_of_nil]. Qed.

Lemma takes_app s l s1 k s2 : takes s l s1 -> takes s1 k s2 -> takes s (l ++ k) s2.
Proof.
  intros (L1 & N1 & D1 & ? & ? & ? & ?) (L2 & N2 & D2 & ? & ? & ? & ?). split; [|split; [|split]]; [| | |split_and!; congruence].
  - rewrite L2, L1, list_to_set_app_L. set_solver.
  - apply NoDup_app. split; [done|]. split; [|done]. intros p Hp Hk. apply D2 in Hk. rewrite L1 in Hk. set_solver.
  - intros p [Hp|Hp]%elem_of_app; [by apply D1|]. apply D2 in Hp. rewrite L1 in Hp. set_solver.
Qed.

Lemma alloc_spec s : exists p s', alloc supply s = Ret p s' /\ takes s (if p =? NULL then [] else [p]) s'.
Proof.
  exists (supply (live s) (allocs s)). unfold alloc. mrun. destruct (Z.eqb_spec (supply (live s) (allocs s)) NULL) as [E|E]; cbn [negb].
  - eexists. split; [reflexivity|]. by apply takes_nil.
  - eexists. split; [reflexivity|]. split_and!; cbn; try done; [set_solver|apply NoDup_singleton|].
    intros p ->%list_elem_of_singleton. destruct (Hfresh (live s) (allocs s)); done.
Qed.

Lemma copy_args_spec argc : forall s, exists l ok s', copy_args supply argc s = Ret (l, ok) s' /\
  takes s (List.filter (fun a => negb (a =? NULL)) l) s'.
Proof.
  induction argc as [|argc IH]; intros s; [exists [], true, s; split; [done|by apply takes_nil]|]. cbn [copy_args].
  destruct (alloc_spec s) as (p & s1 & E & H). rewrite (bind_Ret _ _ _ _ _ E). destruct (Z.eqb_spec p NULL) as [->|Hp].
  - exists (replicate (S argc) NULL), false, s1. split; [done|].
    assert (forall n, List.filter (fun a => negb (a =? NULL)) (replicate n NULL) = []) as ->; [|done]. intros n. by induction n.
  - destruct (IH s1) as (l & ok & s2 & E2 & H2). rewrite (bind_Ret _ _ _ _ _ E2). exists (p :: l), ok, s2. split; [done|].
    cbn [List.filter]. rewrite (proj2 (Z.eqb_neq p NULL) Hp). apply (takes_app _ [p] _ _ _ H H2).
Qed.

Lemma blocks_no_para n : blocks (replicate n no_para) = [].
Proof. induction n as [|n IH]; [done|]. cbn in *. exact IH. Qed.

Lemma fill_paras_spec argc k : forall i s, exists l ok s', fill_paras supply argc k i s = Ret (l, ok) s' /\ takes s (blocks l) s'.
Proof.
  induction k as [|k IH]; intros i s; [exists [], true, s; split; [done|by apply takes_nil]|]. cbn [fill_paras].
  destruct (alloc_spec s) as (v & s1 & E & H). rewrite (bind_Ret _ _ _ _ _ E). destruct (Z.eqb_spec v NULL) as [->|Hv].
  - eexists _, _, s1. split; [reflexivity|]. unfold blocks. cbn [fmap list_fmap concat]. fold (blocks (replicate k no_para)). by rewrite blocks_no_para.
  - destruct (copy_args_spec argc s1) as (l & ok & s2 & E2 & H2). rewrite (bind_Ret _ _ _ _ _ E2).
    set (p := mkPara i (Z.of_nat argc) v l). assert (para_blocks p = List.filter (fun a => negb (a =? NULL)) l ++ [v]) as Hp
      by (unfold para_blocks; cbn; by rewrite (proj2 (Z.eqb_neq v NULL) Hv)).
    assert (takes s (para_blocks p) s2) as Hs2.
    { rewrite Hp. destruct (takes_app _ _ _ _ _ H H2) as (L & N & D & Hrest). split; [|split; [|split; [|done]]].
      - rewrite L, !list_to_set_app_L. cbn. set_solver.
      - apply NoDup_app. apply NoDup_app in N as (N1 & N2 & N3). split; [done|]. split; [|done]. intros q Hq Hq'. by apply (N2 q).
      - intros q Hq. apply D. apply elem_of_app. apply elem_of_app in Hq. tauto. }
    destruct ok; cbn [negb].
    + destruct (IH (i + 1) s2) as (ps & ok & s3 & E3 & H3). rewrite (bind_Ret _ _ _ _ _ E3). eexists (p :: ps), ok, s3. split; [done|].
      apply (takes_app _ _ _ _ _ Hs2 H3).
    + eexists (p :: _), _, s2. split; [reflexivity|]. unfold blocks. cbn [fmap list_fmap concat]. fold (blocks (replicate k no_para)).
      by rewrite blocks_no_para, app_nil_r.
Qed.

(** ... and gives them back. *)
Definition gives (s : process) (l : list Z) (s' : process) : Prop :=
  live s' = live s ∖ list_to_set l /\
  max_threads s' = max_threads s /\ threads s' = threads s /\ thr_idx s' = thr_idx s /\ ran s' = ran s.

Lemma gives_app s l s1 k s2 : gives s l s1 -> gives s1 k s2 -> gives s (l ++ k) s2.
Proof.
  intros (L1 & ? & ? & ? & ?) (L2 & ? & ? & ? & ?). split; [|split_and!; congruence]. rewrite L2, L1, list_to_set_app_L. set_solver.
Qed.

Lemma free_spec p s : p <> NULL -> p ∈ live s -> exists s', free p s = Ret tt s' /\ gives s [p] s'.
Proof.
  intros Hp Hl. unfold free. rewrite (proj2 (Z.eqb_neq p NULL) Hp). mrun. rewrite decide_True by done.
  eexists. split; [reflexivity|]. split_and!; try done. cbn. set_solver.
Qed.

Lemma free_list_spec l : forall s, NoDup (List.filter (fun a => negb (a =? NULL)) l) ->
  (forall p, p ∈ List.filter (fun a => negb (a =? NULL)) l -> p ∈ live s) ->
  exists s', free_list l s = Ret tt s' /\ gives s (List.filter (fun a => negb (a =? NULL)) l) s'.
Proof.
  induction l as [|p l IH]; intros s Hnd Hl; [exists s; split; [done|]; split_and!; try done; set_solver|]. cbn [List.filter] in *.
  unfold free_list. cbn [foldr]. fold (free_list l). destruct (Z.eqb_spec p NULL) as [->|Hp]; cbn [negb] in *.
  - exact (IH s Hnd Hl).
  - apply NoDup_cons in Hnd as [Hpl Hnd]. destruct (free_spec p s Hp) as (s1 & E & H); [apply Hl; by left|].
    rewrite (bind_Ret _ _ _ _ _ E). destruct (IH s1 Hnd) as (s2 & E2 & H2).
    { intros q Hq. destruct H as (-> & _). apply elem_of_difference. split; [apply Hl; by right|]. cbn. set_solver. }
    exists s2. split; [exact E2|]. apply (gives_app _ [p] _ _ _ H H2).
Qed.

(** The vector and the strings of one thread. *)
Lemma free_one_spec p s : NoDup (para_blocks p) -> (forall q, q ∈ para_blocks p -> q ∈ live s) ->
  exists s', when (negb (pa_argv p =? NULL)) (free_list (pa_args p);; free (pa_argv p)) s = Ret tt s' /\ gives s (para_blocks p) s'.
Proof.
  unfold para_blocks. intros Hnd Hl. destruct (Z.eqb_spec (pa_argv p) NULL) as [|Hv]; cbn [negb when].
  - exists s. split; [done|]. split_and!; try done. set_solver.
  - apply NoDup_app in Hnd as (Hn1 & Hn2 & _). destruct (free_list_spec (pa_args p) s Hn1) as (s1 & E & H).
    { intros q Hq. apply Hl, elem_of_app. by left. }
    rewrite (bind_Ret _ _ _ _ _ E). destruct (free_spec (pa_argv p) s1 Hv) as (s2 & E2 & H2).
    { destruct H as (-> & _). apply elem_of_difference. split; [apply Hl, elem_of_app; right; by left|].
      intros Hin%elem_of_list_to_set. apply (Hn2 _ Hin). by left. }
    exists s2. split; [done|]. by eapply gives_app.
Qed.

Lemma free_each_spec l : forall s, NoDup (blocks l) -> (forall p, p ∈ blocks l -> p ∈ live s) ->
  exists s', foldr (fun p m => when (negb (pa_argv p =? NULL)) (free_list (pa_args p);; free (pa_argv p));; m) (mret tt) l s = Ret tt s' /\
    gives s (blocks l) s'.
Proof.
  induction l as [|p l IH]; intros s Hnd Hl; [exists s; split; [done|]; split_and!; try done; set_solver|].
  cbn [foldr]. unfold blocks in *. cbn [fmap list_fmap concat] in *. apply NoDup_app in Hnd as (Hnd1 & Hdisj & Hnd2).
  destruct (free_one_spec p s Hnd1) as (s1 & E & H); [intros q Hq; apply Hl, elem_of_app; by left|].
  rewrite (bind_Ret _ _ _ _ _ E). destruct (IH s1 Hnd2) as (s2 & E2 & H2).
  - intros q Hq. destruct H as (-> & _). apply elem_of_difference. split; [apply Hl, elem_of_app; by right|].
    intros Hin%elem_of_list_to_set. by apply (Hdisj q).
  - exists s2. split; [exact E2|]. by eapply gives_app.
Qed.

Lemma free_para_spec paras l s : paras <> NULL -> paras ∈ live s -> NoDup (blocks l ++ [paras]) -> (forall p, p ∈ blocks l -> p ∈ live s) ->
  exists s', free_para paras l s = Ret tt s' /\ gives s (blocks l ++ [paras]) s'.
Proof.
  intros Hp Hlive Hnd Hl. unfold free_para. rewrite (proj2 (Z.eqb_neq paras NULL) Hp). cbn [negb when].
  apply NoDup_app in Hnd as (Hnd & Hd & _). destruct (free_each_spec l s Hnd Hl) as (s1 & E & H).
  rewrite (bind_Ret _ _ _ _ _ E). destruct (free_spec paras s1 Hp) as (s2 & E2 & H2).
  - destruct H as (-> & _). apply elem_of_difference. split; [done|]. intros Hin%elem_of_list_to_set. apply (Hd _ Hin). by left.
  - exists s2. split; [exact E2|]. by eapply gives_app.
Qed.

(** ** Threads of the main program *)

Lemma create_threads_spec arr paras p max k : arr <> NULL -> forall i tab s,
  threads s = Some (p, tab) -> length tab = Z.to_nat max -> thr_idx s = i -> 0 <= i -> i + Z.of_nat k <= max ->
  exists tab' s', create_threads arr paras k i s = Ret tt s' /\ threads s' = Some (p, tab') /\ length tab' = Z.to_nat max /\
    thr_idx s' = i + Z.of_nat k /\ live s' = live s /\ ran s' = ran s /\
    (forall j, (j < Z.to_nat i)%nat -> tab' !! j = tab !! j) /\
    (forall j, i <= j < i + Z.of_nat k -> exists r, tab' !! Z.to_nat j = Some (mkParm j (paras + j * sizeof_para) tmpi_thr_stub r)).
Proof.
  intros Harr. induction k as [|k IH]; intros i tab s Ht Hlen Hi Hpos Hmax.
  - exists tab, s. split; [done|]. split_and!; try done; intros; lia.
  - cbn [create_threads]. destruct (lookup_lt_is_Some_2 tab (Z.to_nat i)) as [e He]; [lia|].
    set (e' := mkParm i (paras + i * sizeof_para) tmpi_thr_stub (tp_ret e)).
    set (s1 := s <| thr_idx := i + 1 |> <| threads := Some (p, <[Z.to_nat i := e']> tab) |>).
    assert (thr_createbatch tmpi_thr_stub i (paras + i * sizeof_para) s = Ret (p + i * sizeof_thr_parm) s1) as E.
    { unfold thr_createbatch. mrun. rewrite Ht, Hi, He. done. }
    rewrite (bind_Ret _ _ _ _ _ E), (proj2 (Z.eqb_neq arr NULL) Harr).
    destruct (IH (i + 1) (<[Z.to_nat i := e']> tab) s1) as (tab' & s' & E' & Ht' & Hlen' & Hi' & Hl' & Hr' & Hlo & Hhi); try done.
    { by rewrite length_insert. }
    { lia. }
    { lia. }
    exists tab', s'. split; [exact E'|]. split; [done|]. split; [done|]. split; [lia|]. split; [done|]. split; [done|]. split.
    + intros j Hj. rewrite Hlo by lia. by rewrite list_lookup_insert_ne by lia.
    + intros j Hj. destruct (decide (j = i)) as [->|]; [|apply Hhi; lia].
      rewrite Hlo by lia. rewrite list_lookup_insert_eq by lia. by eexists.
Qed.

(** Running changes no entry but for the field with the result. *)
Lemma run_threads_spec body p g order : forall tab s, threads s = Some (p, tab) ->
  (forall i, i ∈ order -> exists e, tab !! i = Some e /\ (tp_id e, tp_f e, tp_arg e) = g i) ->
  exists l tab' s', run_threads body order s = Ret l s' /\ live s' = live s /\ threads s' = Some (p, tab') /\
    length tab' = length tab /\ l.*1 = order /\ ran s' = ran s ++ (g <$> order).
Proof.
  induction order as [|i order IH]; intros tab s Ht Hg.
  - exists [], tab, s. cbn. by rewrite app_nil_r.
  - cbn [run_threads]. destruct (Hg i ltac:(left)) as (e & He & Eg).
    set (tab1 := <[i := e <| tp_ret := body (tp_f e) (tp_arg e) (tp_id e) |>]> tab).
    set (s1 := s <| ran := ran s ++ [(tp_id e, tp_f e, tp_arg e)] |> <| threads := Some (p, tab1) |>).
    assert (thr_stub body i s = Ret (p + Z.of_nat i * sizeof_thr_parm + offset_ret) s1) as E by (unfold thr_stub; mrun; rewrite Ht; cbn; by rewrite He).
    rewrite (bind_Ret _ _ _ _ _ E). destruct (IH tab1 s1) as (l & tab' & s' & E' & Hl & Ht' & Hlen & Hdom & Hr); [done| |].
    { intros j Hj. destruct (Hg j ltac:(by right)) as (e' & He' & Eg'). unfold tab1.
      destruct (decide (j = i)) as [->|Hne]; [|exists e'; by rewrite list_lookup_insert_ne].
      rewrite He in He'. injection He' as <-. rewrite list_lookup_insert_eq by (by eapply lookup_lt_Some). by eexists. }
    rewrite (bind_Ret _ _ _ _ _ E'). eexists _, tab', s'. split; [done|]. split; [done|]. split; [done|].
    split; [rewrite Hlen; apply length_insert|]. split; [by rewrite fmap_cons, Hdom|]. rewrite Hr. cbn. by rewrite Eg, <- app_assoc.
Qed.

Lemma join_from_spec p exits k : forall i ret tab s, threads s = Some (p, tab) -> (i + k <= length tab)%nat ->
  (forall j, (i <= j < i + k)%nat -> is_Some (exits !! j)) ->
  exists r s', join_from exits k i ret s = Ret r s' /\ live s' = live s /\ ran s' = ran s.
Proof.
  induction k as [|k IH]; intros i ret tab s Ht Hlen Hex; [by exists ret, s|]. cbn [join_from].
  destruct (Hex i ltac:(lia)) as [x Hx]. rewrite Hx, (bind_mret x). destruct (lookup_lt_is_Some_2 tab i) as [e He]; [lia|].
  set (s1 := s <| threads := Some (p, <[i := e <| tp_ret := x |>]> tab) |>).
  assert (thr_join i x s = Ret tt s1) as E by (unfold thr_join; mrun; rewrite Ht; cbn; by rewrite He). rewrite (bind_Ret _ _ _ _ _ E).
  destruct (IH (S i) (int32 (ret + x)) (<[i := e <| tp_ret := x |>]> tab) s1) as (r & s' & E' & Hl & Hr); [done|rewrite length_insert; lia| |].
  - intros j Hj. apply Hex. lia.
  - exists r, s'. done.
Qed.

Lemma thr_start_spec body p tab g order s : threads s = Some (p, tab) -> 0 <= thr_idx s <= Z.of_nat (length tab) ->
  order ≡ₚ seq 0 (Z.to_nat (thr_idx s)) ->
  (forall i, i ∈ order -> exists e, tab !! i = Some e /\ (tp_id e, tp_f e, tp_arg e) = g i) ->
  exists r s', thr_start body order s = Ret r s' /\ live s' = live s /\ ran s' = ran s ++ (g <$> order).
Proof.
  intros Ht Hlen Ho Hg. unfold thr_start. rewrite bind_get.
  destruct (run_threads_spec body p g order tab s Ht Hg) as (l & tab' & s1 & E1 & L1 & T1 & Len1 & D1 & R1). rewrite (bind_Ret _ _ _ _ _ E1).
  destruct (join_from_spec p (list_to_map l) (Z.to_nat (thr_idx s)) 0 0 tab' s1 T1) as (r & s2 & E2 & L2 & R2); [lia| |].
  - intros j Hj. destruct (list_to_map (M := gmap nat Z) l !! j) eqn:E; [by eexists|]. apply not_elem_of_list_to_map in E.
    destruct E. rewrite D1, Ho. apply elem_of_seq. lia.
  - exists r, s2. split; [done|]. split; congruence.
Qed.

(** ** Properties *)

(** (C36) The main program keeps its promises whatever allocation fails: with the table of
    threads there, a local size that fits it, and the array of handles, it either runs
    each local thread exactly once, under its number and with its own parameters,
    whatever the order the threads end in, frees
    all it has allocated, ends the parts and returns 0; or runs no thread, ends the parts
    and returns -1, when it has given back all but the array of handles. (pthread_create
    is taken to succeed: its result is not looked at.) *)
Theorem main_lifecycle body s p tab n argc order
  (Ht : threads s = Some (p, tab)) (Hlen : length tab = Z.to_nat (max_threads s)) (Hidx : thr_idx s = 0)
  (Hn : 0 <= n <= max_threads s) (Horder : order ≡ₚ seq 0 (Z.to_nat n))
  (Harr : forall X, supply X (S (allocs s)) <> NULL) :
  exists r s', main supply body 0 n argc order s = Ret (r, true) s' /\
    (r = 0 /\ live s' = live s /\
       (exists paras, paras ∉ live s /\
          ran s' = ran s ++ ((fun i => (Z.of_nat i, tmpi_thr_stub, paras + Z.of_nat i * sizeof_para)) <$> order)) \/
     r = -1 /\ ran s' = ran s /\ exists arr, arr ∉ live s /\ live s' = live s ∪ {[arr]}).
Proof.
  unfold main. cbn [Z.ltb Z.compare]. rewrite (proj2 (Z.ltb_ge n 0)) by lia.
  destruct (alloc_spec s) as (paras & s1 & E1 & H1). pose proof E1 as Ealloc. rewrite (bind_Ret _ _ _ _ _ E1).
  destruct (alloc_spec s1) as (arr & s2 & E2 & H2). rewrite (bind_Ret _ _ _ _ _ E2).
  assert (arr <> NULL) as Hne.
  { unfold alloc in E1, E2. mrun_in E1. mrun_in E2. destruct (negb _) in E1; injection E1 as _ <-; cbn in E2; destruct (negb _) in E2; injection E2 as <- _; apply Harr. }
  rewrite (proj2 (Z.eqb_neq arr NULL) Hne) in H2. destruct (Z.eqb_spec paras NULL) as [->|Hp].
  { eexists (-1), s2. split; [reflexivity|]. right. destruct (takes_app _ [] _ _ _ H1 H2) as (L & _ & D & _ & _ & _ & R).
    split; [done|]. split; [done|]. exists arr. split; [apply D; by left|]. rewrite L. set_solver. }
  destruct (fill_paras_spec argc (Z.to_nat n) 0 s2) as (l & ok & s3 & E3 & H3). rewrite (bind_Ret _ _ _ _ _ E3).
  pose proof (takes_app _ _ _ _ _ (takes_app _ [paras] _ _ _ H1 H2) H3) as (L & N & D & M1 & T1 & I1 & R1). cbn [app] in *.
  apply NoDup_cons in N as [Hpn N]. apply NoDup_cons in N as [Han N].
  assert (NoDup (blocks l ++ [paras])) as Hnd.
  { apply NoDup_app. split; [done|]. split; [|apply NoDup_singleton]. intros q Hq ->%list_elem_of_singleton. apply Hpn. by right. }
  destruct ok; cbn [negb].
  - destruct (create_threads_spec arr paras p (max_threads s) (Z.to_nat n) Hne 0 tab s3) as (tab' & s4 & E4 & T4 & Len4 & I4 & L4 & R4 & _ & Hent); [congruence|done|congruence|lia|lia|].
    rewrite (bind_Ret _ _ _ _ _ E4). rewrite Z.add_0_l, Z2Nat.id in I4 by lia.
    destruct (thr_start_spec body p tab' (fun i => (Z.of_nat i, tmpi_thr_stub, paras + Z.of_nat i * sizeof_para)) order s4 T4)
      as (r & s5 & E5 & L5 & R5); [lia|by rewrite I4| |].
    { intros i Hi. rewrite Horder in Hi. apply elem_of_seq in Hi. destruct (Hent (Z.of_nat i)) as [r' Hr']; [lia|].
      rewrite Nat2Z.id in Hr'. by eexists. }
    rewrite (bind_Ret _ _ _ _ _ E5).
    destruct (free_spec arr s5 Hne) as (s6 & E6 & H6); [rewrite L5, L4, L; set_solver|]. rewrite (bind_Ret _ _ _ _ _ E6).
    assert (live s6 = live s3 ∖ {[arr]}) as L6 by (destruct H6 as (-> & _); rewrite L5, L4; set_solver).
    destruct (free_para_spec paras l s6 Hp) as (s7 & E7 & H7); [rewrite L6, L; set_solver|done| |].
    { intros q Hq. rewrite L6, L. set_solver. }
    rewrite (bind_Ret _ _ _ _ _ E7). exists 0, s7. split; [reflexivity|]. left. split; [done|]. split.
    + destruct H7 as (-> & _). rewrite L6, L. rewrite list_to_set_app_L. cbn. apply set_eq. intros q. pose proof (D q) as Dq. set_solver.
    + exists paras. split; [apply D; by left|]. destruct H7 as (_ & _ & _ & _ & ->). destruct H6 as (_ & _ & _ & _ & ->). by rewrite R5, R4, R1.
  - destruct (free_para_spec paras l s3 Hp) as (s4 & E4 & H4); [rewrite L; set_solver|done|intros q Hq; rewrite L; set_solver|].
    rewrite (bind_Ret _ _ _ _ _ E4). exists (-1), s4. split; [reflexivity|]. right. split; [done|]. split; [destruct H4 as (_ & _ & _ & _ & ->); congruence|].
    exists arr. split; [apply D; right; by left|]. destruct H4 as (-> & _). rewrite L, list_to_set_app_L. cbn. apply set_eq. intros q. pose proof (D q) as Dq. set_solver.
Qed.
End Memory.

(** Nothing of MPI_COMM_WORLD is there. *)
Definition no_world (s : cworld) : Prop :=
  COMM_WORLD_Bar (cw s) = NULL /\ COMM_WORLD_Bcast (cw s) = NULL /\ COMM_WORLD_Reduce (cw s) = NULL /\ COMM_WORLD_Allreduce (cw s) = NULL.

(** The object behind a pointer, if any. *)
Definition the_object (p : Z) : gset Z := if p =? NULL then ∅ else {[p]}.

(** Each object that is created is new. *)
Definition new_objects (sup : supplies) (X : gset Z) : Prop :=
  the_object (sup_bar sup) ## X /\
  the_object (sup_bcast sup) ## X ∪ the_object (sup_bar sup) /\
  the_object (sup_reduce sup) ## X ∪ the_object (sup_bar sup) ∪ the_object (sup_bcast sup) /\
  the_object (sup_allreduce sup) ## X ∪ the_object (sup_bar sup) ∪ the_object (sup_bcast sup) ∪ the_object (sup_reduce sup).

Lemma in_the_object p : p <> NULL -> p ∈ the_object p.
Proof. intros H. unfold the_object. rewrite (proj2 (Z.eqb_neq p NULL) H). set_solver. Qed.

(** One object of [tmpi_comm_gend]: destroyed, and its pointer cleared, unless it is NULL. *)
Lemma drop_object p (g : cstate -> cstate) c X : (p <> NULL -> p ∈ X) -> (p = NULL -> g c = c) ->
  when (negb (p =? NULL)) (destroy p;; modify (fun s => s <| cw := g (cw s) |>)) (mkCworld c X) =
    Ret tt (mkCworld (g c) (X ∖ the_object p)).
Proof.
  intros HX Hg. unfold the_object. destruct (Z.eqb_spec p NULL) as [E|E]; cbn [negb].
  - rewrite (Hg E). mrun. do 2 f_equal. set_solver.
  - unfold destroy. mrun. cbn [objs]. by rewrite decide_True by auto.
Qed.

(** What [tmpi_comm_gend] leaves behind: the reduce object is kept, since the test before
    it looks at the broadcast object, which is NULL by then. *)
Lemma gend_spec c X :
  (COMM_WORLD_Bar c <> NULL -> COMM_WORLD_Bar c ∈ X) ->
  (COMM_WORLD_Bcast c <> NULL -> COMM_WORLD_Bcast c ∈ X ∖ the_object (COMM_WORLD_Bar c)) ->
  (COMM_WORLD_Allreduce c <> NULL -> COMM_WORLD_Allreduce c ∈ X ∖ the_object (COMM_WORLD_Bar c) ∖ the_object (COMM_WORLD_Bcast c)) ->
  tmpi_comm_gend (mkCworld c X) =
    Ret MPI_SUCCESS (mkCworld (mkCstate (comms c) None NULL NULL (COMM_WORLD_Reduce c) NULL (gm c))
      (X ∖ the_object (COMM_WORLD_Bar c) ∖ the_object (COMM_WORLD_Bcast c) ∖ the_object (COMM_WORLD_Allreduce c))).
Proof.
  destruct c as [cm w b p r a g]. cbn [COMM_WORLD_Bar COMM_WORLD_Bcast COMM_WORLD_Allreduce COMM_WORLD_Reduce comms gm]. intros Hb Hp Ha.
  unfold tmpi_comm_gend. rewrite (bind_Ret (modify _) _ _ tt (mkCworld (mkCstate cm None b p r a g) X)); [|reflexivity].
  rewrite (bind_Ret get _ _ _ _ eq_refl). cbn [cw COMM_WORLD_Bar].
  rewrite (bind_Ret _ _ _ tt (mkCworld (mkCstate cm None NULL p r a g) (X ∖ the_object b)));
    [|exact (drop_object b (fun c => c <| COMM_WORLD_Bar := NULL |>) (mkCstate cm None b p r a g) X Hb ltac:(by intros ->))].
  rewrite (bind_Ret get _ _ _ _ eq_refl). cbn [cw COMM_WORLD_Bcast].
  rewrite (bind_Ret _ _ _ tt (mkCworld (mkCstate cm None NULL NULL r a g) (X ∖ the_object b ∖ the_object p)));
    [|exact (drop_object p (fun c => c <| COMM_WORLD_Bcast := NULL |>) (mkCstate cm None NULL p r a g) (X ∖ the_object b) Hp ltac:(by intros ->))].
  rewrite (bind_Ret get _ _ _ _ eq_refl). cbn [cw COMM_WORLD_Bcast]. rewrite Z.eqb_refl. cbn [negb when]. rewrite bind_mret.
  rewrite (bind_Ret get _ _ _ _ eq_refl). cbn [cw COMM_WORLD_Allreduce].
  rewrite (bind_Ret _ _ _ tt (mkCworld (mkCstate cm None NULL NULL r NULL g) (X ∖ the_object b ∖ the_object p ∖ the_object a)));
    [done|exact (drop_object a (fun c => c <| COMM_WORLD_Allreduce := NULL |>) (mkCstate cm None NULL NULL r a g) (X ∖ the_object b ∖ the_object p) Ha ltac:(by intros ->))].
Qed.

Lemma create_object {B} p (k : Z -> Prelude.M cworld B) c X :
  (create p ≫= k) (mkCworld c X) = k p (mkCworld c (X ∪ the_object p)).
Proof.
  rewrite (bind_Ret _ _ _ p (mkCworld c (X ∪ the_object p))); [done|]. unfold create, the_object. mrun.
  destruct (p =? NULL); cbn; [|done]. do 2 f_equal. set_solver.
Qed.

(** After a complete or a partial start, [tmpi_comm_gend] leaves the reduce object only. *)
Lemma gend_of_created cm w b p r a g X : the_object b ## X -> the_object p ## X ∪ the_object b ->
  the_object r ## X ∪ the_object b ∪ the_object p -> the_object a ## X ∪ the_object b ∪ the_object p ∪ the_object r ->
  tmpi_comm_gend (mkCworld (mkCstate cm w b p r a g) (X ∪ the_object b ∪ the_object p ∪ the_object r ∪ the_object a)) =
    Ret MPI_SUCCESS (mkCworld (mkCstate cm None NULL NULL r NULL g) (X ∪ the_object r)).
Proof.
  intros Hb Hp Hr Ha.
  rewrite gend_spec; cbn [COMM_WORLD_Bar COMM_WORLD_Bcast COMM_WORLD_Allreduce COMM_WORLD_Reduce comms gm].
  - do 2 f_equal. set_solver.
  - intros H%in_the_object. set_solver.
  - intros H%in_the_object. set_solver.
  - intros H%in_the_object. set_solver.
Qed.

(** Starting and ending MPI_COMM_WORLD: [tmpi_comm_ginit] succeeds with all objects, or
    with all but the broadcast object, which it does not test; otherwise it ends what it
    has begun. A success followed by [tmpi_comm_gend], or a failure that did not come before
    the reduce object was made, leaves exactly the reduce object behind, which nobody can
    destroy any more; everything else is destroyed once. *)
Theorem comm_world_lifecycle sup size s (Hclean : no_world s) (Hnew : new_objects sup (objs s)) :
  exists r s1 s2, tmpi_comm_ginit sup size s = Ret r s1 /\ tmpi_comm_gend s1 = Ret MPI_SUCCESS s2 /\
    (r = MPI_SUCCESS /\ sup_reduce sup <> NULL /\ sup_bar sup <> NULL /\ sup_allreduce sup <> NULL /\
       objs s1 = objs s ∪ {[sup_bar sup]} ∪ the_object (sup_bcast sup) ∪ {[sup_reduce sup]} ∪ {[sup_allreduce sup]} /\
       objs s2 = objs s ∪ {[sup_reduce sup]} \/
     r = MPI_ERR_INTERN /\ objs s2 = objs s1 /\
       objs s1 = objs s ∪ (if (sup_world sup =? NULL) || (sup_bar sup =? NULL) || (sup_bar_init sup <? 0) then ∅ else the_object (sup_reduce sup))).
Proof.
  destruct s as [[cm w b0 p0 r0 a0 g] X]. unfold no_world in Hclean. cbn in Hclean. destruct Hclean as (-> & -> & -> & ->).
  destruct sup as [ws b bi p r a]. unfold new_objects in Hnew. cbn [objs sup_world sup_bar sup_bar_init sup_bcast sup_reduce sup_allreduce] in *.
  destruct Hnew as (Hb & Hp & Hr & Ha). unfold tmpi_comm_ginit. cbn [sup_world sup_bar sup_bar_init sup_bcast sup_reduce sup_allreduce].
  set (w1 := if ws =? NULL then None else _ : option (gmap Z Z)).
  rewrite (bind_Ret (modify _) _ _ tt (mkCworld (mkCstate cm w1 NULL NULL NULL NULL g) X)); [|reflexivity].
  assert (He : the_object NULL = ∅) by done.
  pose proof (gend_of_created cm w1 NULL NULL NULL NULL g X ltac:(set_solver) ltac:(set_solver) ltac:(set_solver) ltac:(set_solver)) as Hend0.
  rewrite He, !(union_empty_r_L X) in Hend0.
  pose proof (gend_of_created cm None NULL NULL NULL NULL g X ltac:(set_solver) ltac:(set_solver) ltac:(set_solver) ltac:(set_solver)) as Hend1.
  rewrite He, !(union_empty_r_L X) in Hend1.
  destruct (ws =? NULL); cbn [orb].
  { rewrite (bind_Ret _ _ _ _ _ Hend0). eexists _, _, _. split; [reflexivity|]. split; [exact Hend1|]. right. split; [done|]. cbn. split; [done|set_solver]. }
  rewrite create_object, (bind_Ret (modify _) _ _ tt (mkCworld (mkCstate cm w1 b NULL NULL NULL g) (X ∪ the_object b))); [|reflexivity].
  pose proof (gend_of_created cm w1 b NULL NULL NULL g X Hb ltac:(set_solver) ltac:(set_solver) ltac:(set_solver)) as Hendb.
  rewrite He, !union_empty_r_L in Hendb.
  destruct ((b =? NULL) || (bi <? 0)) eqn:Eb.
  { match goal with |- context [if b =? NULL then ?x else if bi <? 0 then ?x else ?y] =>
      assert ((if b =? NULL then x else if bi <? 0 then x else y) = x) as -> by (apply orb_prop in Eb as [-> | ->]; [done|by destruct (b =? NULL)]) end.
    rewrite (bind_Ret _ _ _ _ _ Hendb). eexists _, _, _. split; [reflexivity|]. split; [exact Hend1|]. right. split; [done|]. cbn. split; [done|set_solver]. }
  apply orb_false_elim in Eb as [Eb1 Eb2]. rewrite Eb1, Eb2.
  rewrite create_object, (bind_Ret (modify _) _ _ tt (mkCworld (mkCstate cm w1 b p NULL NULL g) (X ∪ the_object b ∪ the_object p))); [|reflexivity].
  rewrite create_object, (bind_Ret (modify _) _ _ tt (mkCworld (mkCstate cm w1 b p r NULL g) (X ∪ the_object b ∪ the_object p ∪ the_object r))); [|reflexivity].
  rewrite create_object, (bind_Ret (modify _) _ _ tt (mkCworld (mkCstate cm w1 b p r a g) (X ∪ the_object b ∪ the_object p ∪ the_object r ∪ the_object a))); [|reflexivity].
  rewrite (bind_Ret get _ _ _ _ eq_refl). cbn [cw COMM_WORLD_Bar COMM_WORLD_Reduce COMM_WORLD_Allreduce]. rewrite Eb1. cbn [orb].
  pose proof (gend_of_created cm w1 b p r a g X Hb Hp Hr Ha) as Hend.
  destruct ((r =? NULL) || (a =? NULL)) eqn:Era.
  - pose proof (gend_of_created cm None NULL NULL r NULL g X ltac:(set_solver) ltac:(set_solver) ltac:(set_solver) ltac:(set_solver)) as Hend2.
    rewrite He, !(union_empty_r_L X), !union_empty_r_L in Hend2. rewrite (bind_Ret _ _ _ _ _ Hend).
    eexists _, _, _. split; [reflexivity|]. split; [exact Hend2|]. right. done.
  - apply orb_false_elim in Era as [Er Ea]. unfold the_object in *. rewrite Er, Ea, Eb1 in *.
    eexists _, _, _. split; [reflexivity|]. split; [exact Hend|]. left. apply Z.eqb_neq in Er, Ea, Eb1. done.
Qed.

(** ** Initialization of the parts *)

(** The codes are added up and only a negative sum is an error: a failure of
    [tmpi_comm_ginit] or of [tmpi_comm_init], whose code is positive, goes unnoticed, and
    makes up for failures of up to sixteen other parts. *)
Lemma main_init_masks n : 0 < n ->
  (tmpi_main_init 0 0 n 0 MPI_ERR_INTERN 0 0 0 <? 0) = false /\ (tmpi_main_init (-1) (-1) n (-1) MPI_ERR_INTERN (-1) 0 0 <? 0) = false.
Proof. intros H. unfold tmpi_main_init. by rewrite (proj2 (Z.leb_gt n 0) H). Qed.

Lemma thr_init_masks tmain : thread_body 0 MPI_ERR_INTERN tmain = tmain /\ thread_body (-1) MPI_ERR_INTERN tmain = tmain.
Proof. done. Qed.

(** ** Examples *)

(** Any new address. *)
Definition demo_supply (X : gset Z) (k : nat) : Z := fresh ({[NULL]} ∪ X).
Definition demo_proc : process := mkProc {[4096]} 1 1024 (Some (4096, replicate 1024 (mkParm 0 0 0 0))) 0 [].

Lemma main_lifecycle_witness :
  exists r s', main demo_supply (fun _ _ _ => 7) 0 3 2 [1; 0; 2]%nat demo_proc = Ret (r, true) s' /\
    (r = 0 /\ live s' = live demo_proc /\
       (exists paras, paras ∉ live demo_proc /\ ran s' = [] ++ ((fun i => (Z.of_nat i, tmpi_thr_stub, paras + Z.of_nat i * sizeof_para)) <$> [1; 0; 2]%nat)) \/
     r = -1 /\ ran s' = [] /\ exists arr, arr ∉ live demo_proc /\ live s' = live demo_proc ∪ {[arr]}).
Proof.
  apply (main_lifecycle demo_supply) with (p := 4096) (tab := replicate 1024 (mkParm 0 0 0 0)).
  - intros X k. right. unfold demo_supply. pose proof (is_fresh ({[NULL]} ∪ X)). set_solver.
  - done.
  - apply length_replicate.
  - done.
  - cbn. lia.
  - apply (Permutation_swap 0%nat 1%nat [2%nat]).
  - intros X. unfold demo_supply. pose proof (is_fresh ({[NULL]} ∪ X)). set_solver.
Defined.

(** There was no memory for the broadcast object. *)
Lemma comm_world_lifecycle_witness :
  let s := mkCworld (mkCstate ∅ None 0 0 0 0 (mkGmem ∅ ∅ 0 0)) {[100]} in
  exists r s1 s2, tmpi_comm_ginit (mkSupplies 8 16 0 0 32 40) 2 s = Ret r s1 /\ tmpi_comm_gend s1 = Ret MPI_SUCCESS s2 /\
    (r = MPI_SUCCESS /\ 32 <> NULL /\ 16 <> NULL /\ 40 <> NULL /\
       objs s1 = objs s ∪ {[16]} ∪ ∅ ∪ {[32]} ∪ {[40]} /\ objs s2 = objs s ∪ {[32]} \/
     r = MPI_ERR_INTERN /\ objs s2 = objs s1 /\ objs s1 = objs s ∪ the_object 32).
Proof.
  intros s. apply (comm_world_lifecycle (mkSupplies 8 16 0 0 32 40) 2 s); [by split_and!|].
  unfold new_objects, the_object. cbn. set_solver.
Defined.
