(* ===== verification/MpiColl.v ===== *)
(** The collectives of mpi/group/: MPI_Barrier, tmpi_Bcast, tmpi_Reduce and
    tmpi_Allreduce put the objects shared by the threads of a machine and the collectives
    among machines together. A call is the tree of the calls it makes, by their results;
    files MpiBarrier and MpiBcast run such calls on all threads of all machines. *)
From S2P Require Import Prelude Types MBuffer RdcOp NetRun NetdOp NetdGroup Netq.

Open Scope Z_scope.

(** ** The calls a collective makes *)

(** A pointer to a buffer is the list of its bytes from there on. The calls hand back
    their result code and the buffers they write. *)
Inductive coll (A : Type) :=
  | Returns (a : A)
  | Faults
  | Bar_wait (k : coll A)
  | Netq_barrier (k : Z -> coll A)
  | Netq_bcast (data : list Z) (len root : Z) (k : Z -> list Z -> coll A)
  | Netq_reduce (src result : list Z) (nelem op data_type root : Z) (k : Z -> list Z -> list Z -> coll A)
  | Netq_allreduce (src result : list Z) (nelem op data_type : Z) (k : Z -> list Z -> list Z -> coll A)
  | Bco_bcast (root : Z) (data : list Z) (len : Z) (k : Z -> list Z -> coll A)
  | Rdco_reduce (root : Z) (sendbuf recvbuf : list Z) (count type op : Z) (k : Z -> list Z -> coll A).
Arguments Returns {A} a.
Arguments Faults {A}.
Arguments Bar_wait {A} k.
Arguments Netq_barrier {A} k.
Arguments Netq_bcast {A} data len root k.
Arguments Netq_reduce {A} src result nelem op data_type root k.
Arguments Netq_allreduce {A} src result nelem op data_type k.
Arguments Bco_bcast {A} root data len k.
Arguments Rdco_reduce {A} root sendbuf recvbuf count type op k.

(** ** Operators and types of the network *)

Definition op_mpi2netq (op : Z) : Z :=
  if op =? MPI_MAX then NETD_OP_MAX
  else if op =? MPI_MIN then NETD_OP_MIN
  else if op =? MPI_SUM then NETD_OP_SUM
  else if (MPI_PROD <=? op) && (op <=? MPI_MAXLOC) then 0
  else -1.

Definition type_mpi2netq (type : Z) : Z :=
  if one_of type [MPI_INT; MPI_INTEGER] then NETD_TYPE_INT
  else if one_of type [MPI_LONG] then NETD_TYPE_LNG
  else if one_of type [MPI_FLOAT; MPI_REAL] then NETD_TYPE_FLT
  else if one_of type [MPI_DOUBLE; MPI_DOUBLE_PRECISION] then NETD_TYPE_DBL
  else if one_of type [MPI_CHAR; MPI_BYTE] then NETD_TYPE_CHR
  else if (1 <=? type) && (type <=? MPI_2DOUBLE_PRECISION) then 0
  else -1.

(** ** The collectives among machines *)

(** [nq]: the tables of ranks; the state is the [netd_info] of the machine. *)
Section Netq.
Context (DBL FLT : num).

Definition netq_bcast (nq : netq) (data : list Z) (len root : Z) (s : netd_info) : io (Z * list Z * netd_info) :=
  match netq_getMacID root nq with
  | Ret (0, Some realroot) _ => netd_bcast data (Z.to_nat len) realroot s
  | Ret _ _ => mret (-1, data, s)
  | _ => Crash
  end.

Definition netq_reduce (nq : netq) (src result : list Z) (nelem op data_type root : Z) (s : netd_info) :
    io (Z * list Z * list Z * netd_info) :=
  match netq_getMacID root nq with
  | Ret (0, Some realroot) _ => netd_reduce DBL FLT src result nelem op data_type realroot s
  | Ret _ _ => mret (-1, src, result, s)
  | _ => Crash
  end.

Definition netq_allreduce (src result : list Z) (nelem op data_type : Z) (s : netd_info) :
    io (Z * list Z * list Z * netd_info) :=
  netd_allreduce DBL FLT src result nelem op data_type s.

Definition netq_barrier (junk : list Z) (s : netd_info) : io (Z * bool * netd_info) := netd_barrier DBL FLT junk s.
End Netq.

(** ** The collectives of MPI *)

(** [myid] is the local rank of the caller, [tcomm] what [tmpi_comm_verify] returns. *)
Section Mpi.
Context (nq : netq) (myid communicator tcomm : Z).

Definition MPI_Barrier : coll Z :=
  if negb (communicator =? MPI_COMM_WORLD) then Returns MPI_ERR_INTERN
  else if tcomm =? NULL then Returns MPI_ERR_COMM
  else
    Bar_wait (
      if netd_size nq >? 1
      then (if myid =? 0 then Netq_barrier (fun _ => Bar_wait (Returns MPI_SUCCESS)) else Bar_wait (Returns MPI_SUCCESS))
      else Returns MPI_SUCCESS).

(** [local_root]: the local rank of the root, or 0 on another machine. *)
Definition with_local_root {A} (root : Z) (k : Z -> coll A) : coll A :=
  match netq_isLocalNode root nq with
  | Ret true _ =>
      match netq_transGlobalRank root nq with
      | Ret (ret, Some id_entry) _ =>
          k (if ret <? 0 then -1 else if negb (macID id_entry =? netd_myid nq) then -1 else localID id_entry)
      | Ret (_, None) _ => k (-1)
      | _ => Faults
      end
  | Ret false _ => k 0
  | _ => Faults
  end.

(** The code of [tmpi_Bcast] for the results among machines and within the machine. *)
Definition bcast_code (ret1 ret2 : Z) : Z :=
  if ret2 =? 0 then (if ret1 =? 0 then MPI_SUCCESS else MPI_ERR_INTERN)
  else if ret2 =? -1 then MPI_ERR_INTERN
  else if ret2 =? -2 then MPI_ERR_BUFFER
  else MPI_ERR_INTERN.

(** The result and the buffer. *)
Definition tmpi_Bcast (buffer : list Z) (count datatype root : Z) : coll (Z * list Z) :=
  let buflen := int32 (count * tmpi_Usize datatype) in
  if negb (communicator =? MPI_COMM_WORLD) then Returns (MPI_ERR_INTERN, buffer)
  else if tcomm =? NULL then Returns (MPI_ERR_COMM, buffer)
  else
    with_local_root root (fun local_root =>
      let intra ret1 buffer :=
        Bco_bcast local_root buffer buflen (fun ret2 buffer => Returns (bcast_code ret1 ret2, buffer)) in
      if myid =? local_root then Netq_bcast buffer buflen root intra else intra 0 buffer).

(** The code of [tmpi_Reduce] for the results within the machine and among machines. *)
Definition reduce_code (ret1 ret2 : Z) : Z :=
  if ret1 =? 0 then (if ret2 =? 0 then MPI_SUCCESS else MPI_ERR_INTERN)
  else if ret1 =? -1 then MPI_ERR_INTERN
  else if ret1 =? -2 then MPI_ERR_BUFFER
  else MPI_ERR_INTERN.

(** [tmp_buf]: what [malloc(buflen)] returns, if it does. *)
Definition tmpi_Reduce (tmp_buf : option (list Z)) (sendbuf recvbuf : list Z) (count datatype op root : Z) : coll (Z * list Z) :=
  if negb (communicator =? MPI_COMM_WORLD) then Returns (MPI_ERR_INTERN, recvbuf)
  else if tcomm =? NULL then Returns (MPI_ERR_COMM, recvbuf)
  else
    match tmp_buf with
    | None => Returns (MPI_ERR_INTERN, recvbuf)
    | Some tmp_buf =>
        with_local_root root (fun local_root =>
          if netd_size nq >? 1 then
            Rdco_reduce local_root sendbuf tmp_buf count datatype op (fun ret1 tmp_buf =>
              if myid =? local_root then
                Netq_reduce tmp_buf recvbuf count (op_mpi2netq op) (type_mpi2netq datatype) root (fun ret2 _ recvbuf =>
                  Returns (reduce_code ret1 ret2, recvbuf))
              else Returns (reduce_code ret1 0, recvbuf))
          else
            Rdco_reduce root sendbuf recvbuf count datatype op (fun ret1 recvbuf =>
              Returns (reduce_code ret1 MPI_SUCCESS, recvbuf)))
    end.

Definition allreduce_code (ret1 ret2 ret3 : Z) : Z :=
  if (ret1 =? 0) && (ret2 =? 0) && (ret3 =? 0) then MPI_SUCCESS
  else if negb (ret2 =? 0) then MPI_ERR_INTERN
  else if (ret1 =? -1) || (ret2 =? -1) then MPI_ERR_INTERN
  else if (ret1 =? -2) || (ret2 =? -2) then MPI_ERR_BUFFER
  else MPI_ERR_INTERN.

Definition tmpi_Allreduce (tmp_buf : option (list Z)) (sendbuf recvbuf : list Z) (count datatype op : Z) : coll (Z * list Z) :=
  let buflen := int32 (count * tmpi_Usize datatype) in
  if negb (communicator =? MPI_COMM_WORLD) then Returns (MPI_ERR_INTERN, recvbuf)
  else if tcomm =? NULL then Returns (MPI_ERR_COMM, recvbuf)
  else
    let share ret1 ret2 recvbuf :=
      Bco_bcast 0 recvbuf buflen (fun ret3 recvbuf => Returns (allreduce_code ret1 ret2 ret3, recvbuf)) in
    if netd_size nq >? 1 then
      match tmp_buf with
      | None => Returns (MPI_ERR_INTERN, recvbuf)
      | Some tmp_buf =>
          Rdco_reduce 0 sendbuf tmp_buf count datatype op (fun ret1 tmp_buf =>
            if myid =? 0 then
              Netq_allreduce tmp_buf recvbuf count (op_mpi2netq op) (type_mpi2netq datatype) (fun ret2 _ recvbuf =>
                share ret1 ret2 recvbuf)
            else share ret1 0 recvbuf)
      end
    else Rdco_reduce 0 sendbuf recvbuf count datatype op (fun ret1 recvbuf => share ret1 0 recvbuf).
End Mpi.
