(* ===== verification/MpiBarrier.v ===== *)
(** MPI_Barrier on a cluster: threads on several machines call it again and again. The
    threads of a machine share the barrier of file Barrier; the first of them makes the
    calls of the machine to the barrier among machines of file NetdGroup. *)
From stdpp Require Import relations.
From S2P Require Import Prelude Types MBuffer NetRun NetRounds NetdOp NetdGroup NetdTree NetdBcast NetdReduce NetdBarrier NetdRounds Netq Barrier MpiColl.

Open Scope Z_scope.

(** ** Threads and machines *)

(** What a thread has still to do in its call, if it is in one; whether it is in the call
    to the network; the results of its calls so far. *)
Record caller := Caller { prog : option (coll Z); in_net : bool; results : list Z }.
#[export] Instance eta_caller : Eta caller := MkEta _ (fun r => Caller (prog r) (in_net r) (results r)).

(** A machine: its barrier with the threads in it, and the same threads in [MPI_Barrier]. *)
Record mach := Mach { bar : Barrier.system; callers : list caller }.

(** The machines, and the calls of [netd_barrier] on all of them. *)
Definition cluster : Type := list mach * config outcome.

Definition set_caller (t : nat) (c : caller) (m : mach) : mach := Mach (bar m) (<[t := c]> (callers m)).
(** Thread [t] is not in [bar_wait]. *)
Definition is_outside (t : nat) (b : Barrier.system) : bool :=
  match b.2 !! t with Some (Thread Outside _) => true | _ => false end.

Section Cluster.
(** [nq i]: the tables of machine [i]; [tcomm i t]: the communicator of its thread [t];
    [junk]: what is on the stack. *)
Context (DBL FLT : num) (nq : nat -> netq) (tcomm : nat -> nat -> Z) (s0 : Z -> netd_info) (junk : Z -> nat -> list Z).

Definition call_of (i t : nat) : coll Z := MPI_Barrier (nq i) (Z.of_nat t) MPI_COMM_WORLD (tcomm i t).

Inductive cluster_step : cluster -> cluster -> Prop :=
  | step_begin i t ms net m c : ms !! i = Some m -> callers m !! t = Some c -> prog c = None ->
      cluster_step (ms, net) (<[i := set_caller t (c <| prog := Some (call_of i t) |>) m]> ms, net)
  | step_bar i t ms net m c k b' : ms !! i = Some m -> callers m !! t = Some c -> prog c = Some (Bar_wait k) ->
      bar_step t (bar m) b' ->
      cluster_step (ms, net)
        (<[i := Mach b' (if is_outside t b' then <[t := c <| prog := Some k |>]> (callers m) else callers m)]> ms, net)
  | step_net_call i t ms net m c k r : ms !! i = Some m -> callers m !! t = Some c -> prog c = Some (Netq_barrier k) ->
      in_net c = false -> net.1 !! Z.of_nat i = Some (Done r) ->
      cluster_step (ms, net)
        (<[i := set_caller t (c <| in_net := true |>) m]> ms,
         (<[Z.of_nat i := netq_barrier DBL FLT (junk (Z.of_nat i) (length (results c))) r.2]> net.1, net.2))
  | step_net i ms net net' : fire i net = Some net' -> cluster_step (ms, net) (ms, net')
  | step_net_return i t ms net m c k r : ms !! i = Some m -> callers m !! t = Some c -> prog c = Some (Netq_barrier k) ->
      in_net c = true -> net.1 !! Z.of_nat i = Some (Done r) ->
      cluster_step (ms, net) (<[i := set_caller t (c <| prog := Some (k r.1.1) |> <| in_net := false |>) m]> ms, net)
  | step_return i t ms net m c a : ms !! i = Some m -> callers m !! t = Some c -> prog c = Some (Returns a) ->
      cluster_step (ms, net) (<[i := set_caller t (c <| prog := None |> <| results := results c ++ [a] |>) m]> ms, net).

(** [n] machines, machine [i] with [T i] threads, nobody in a call. *)
Definition cluster_start (n : nat) (T : nat -> nat) (s : cluster) : Prop :=
  length s.1 = n /\
  (forall i m, s.1 !! i = Some m -> started (T i) (bar m) /\ callers m = replicate (T i) (Caller None false [])) /\
  s.2 = start (Z.of_nat n) (fun i => Done (0, false, s0 i)).
Definition cluster_reachable (n : nat) (T : nat -> nat) (s : cluster) : Prop :=
  exists s1, cluster_start n T s1 /\ rtc cluster_step s1 s.

(** ** The invariant *)

Context (n : nat) (T : nat -> nat).

Inductive stage := Idle | First | Net | InNet | Second | Leaving.

(** One [bar_wait] a call, or two. *)
Definition waits : nat := if (1 <? n)%nat then 2 else 1.

Definition second : coll Z := Bar_wait (Returns MPI_SUCCESS).
Definition rest (i t : nat) (st : stage) : option (coll Z) :=
  match st with
  | Idle => None
  | First => Some (call_of i t)
  | Net | InNet => Some (Netq_barrier (fun _ => second))
  | Second => Some second
  | Leaving => Some (Returns MPI_SUCCESS)
  end.
Definition stage_allowed (t : nat) (st : stage) : Prop :=
  match st with Net | InNet => t = 0%nat /\ (1 < n)%nat | Second => (1 < n)%nat | _ => True end.
(** The calls of [bar_wait] that have returned in this call of [MPI_Barrier]. *)
Definition waited (st : stage) : nat := match st with Idle | First => 0 | Net | InNet | Second => 1 | Leaving => waits end.
Definition at_bar (st : stage) : bool := match st with First | Second => true | _ => false end.

(** Thread [t] of machine [i] is at [st] after [k] calls; [th] is the thread in the barrier. *)
Record caller_ok (i t : nat) (c : caller) (th : thread) (st : stage) (k : nat) : Prop := CallerOk {
  co_prog : prog c = rest i t st;
  co_net : in_net c = match st with InNet => true | _ => false end;
  co_results : results c = replicate k MPI_SUCCESS;
  co_allowed : stage_allowed t st;
  co_passed : passed th = (waits * k + waited st)%nat;
  co_out : at_bar st = false -> pc th = Outside
}.

(** The calls to the network begun by the first thread of a machine. *)
Definition begun (st : stage) (k : nat) : nat := match st with InNet | Second | Leaving => S k | _ => k end.

(** [sts]: where the threads are, and the number of their calls so far. *)
Record mach_ok (c : Z -> nat) (net : config outcome) (i : nat) (m : mach) (sts : list (stage * nat)) : Prop := MachOk {
  mo_bar : bar_reachable (T i) (bar m);
  mo_len : length (callers m) = T i;
  mo_bar_len : length (bar m).2 = T i;
  mo_sts_len : length sts = T i;
  mo_callers : forall t x th st k, callers m !! t = Some x -> (bar m).2 !! t = Some th -> sts !! t = Some (st, k) -> caller_ok i t x th st k;
  mo_first : forall st k, (1 < n)%nat -> sts !! 0%nat = Some (st, k) ->
    c (Z.of_nat i) = begun st k /\ (st <> InNet -> exists r, net.1 !! Z.of_nat i = Some (Done r))
}.

Record cluster_inv (c : Z -> nat) (s : cluster) : Prop := ClusterInv {
  ci_len : length s.1 = n;
  ci_mach : forall i m, s.1 !! i = Some m -> exists sts, mach_ok c s.2 i m sts;
  ci_run : rtc netstep (start (Z.of_nat n) (fun i => rounds (fun i => (0, false, s0 i)) (next_barrier DBL FLT junk) i (c i))) s.2;
  ci_close : forall i j, 0 <= i < Z.of_nat n -> 0 <= j < Z.of_nat n -> (c i <= S (c j))%nat
}.

(** ** Steps of the barrier of a machine *)

(** What a step of thread [t] may do to thread [u], here [th]. *)
Definition moves_on (mine : bool) (th th' : Barrier.thread) : Prop :=
  if mine then (if pc th' is Outside then passed th' = S (passed th) /\ pc th <> Outside else passed th' = passed th)
  else passed th' = passed th /\ (pc th = Outside -> pc th' = Outside).

Lemma moved_thread (ths : list Barrier.thread) t x y (f : Barrier.thread -> Barrier.thread) u th : ths !! t = Some x -> ths !! u = Some th ->
  moves_on true x (f y) -> (forall z, moves_on false z (f z)) ->
  exists th', (f <$> <[t := y]> ths) !! u = Some th' /\ moves_on (bool_decide (u = t)) th th'.
Proof.
  intros Ht Hu Hy Hf. rewrite list_lookup_fmap. destruct (decide (u = t)) as [->|Hne].
  - rewrite list_lookup_insert_eq by (by eapply lookup_lt_Some). exists (f y). split; [done|]. rewrite bool_decide_true by done. congruence.
  - rewrite list_lookup_insert_ne, Hu by done. exists (f th). split; [done|]. by rewrite bool_decide_false.
Qed.

Lemma bcast_moves_on i x : moves_on false x (bcast i x).
Proof. destruct x as [[] p]; cbn; try done. unfold bcast. cbn. by destruct (eqb _ _). Qed.

Lemma bar_step_thread t b b' u th : bar_step t b b' -> b.2 !! u = Some th ->
  exists th', b'.2 !! u = Some th' /\ moves_on (bool_decide (u = t)) th th'.
Proof.
  intros Hs Hu. destruct Hs as [b ths k Ht|b ths i k b' w Ht Ha|b ths i k b' Ht Ha|b ths i k Ht Hw|b ths i k Ht Hw|b ths i k Ht]; cbn [snd] in *.
  2: { destruct w; [by apply (moved_thread ths t _ _ _ u th Ht Hu); [|apply bcast_moves_on]|].
       change (id ?x) with x. rewrite <- (list_fmap_id (<[t := _]> ths)). by apply (moved_thread ths t _ _ _ u th Ht Hu). }
  all: rewrite <- (list_fmap_id (<[t := _]> ths)); by apply (moved_thread ths t _ _ _ u th Ht Hu).
Qed.

Lemma bar_step_length t b b' : bar_step t b b' -> length b'.2 = length b.2.
Proof. intros []; cbn; rewrite ?length_fmap, ?length_insert; try done. destruct w; cbn; unfold id; by rewrite ?length_fmap, ?length_insert. Qed.

Lemma bar_reachable_step k t b b' : bar_reachable k b -> bar_step t b b' -> bar_reachable k b'.
Proof. intros (b0 & H0 & H) Hs. exists b0. split; [done|]. eapply rtc_r; [exact H|]. by exists t. Qed.

(** ** Changes of a machine *)

(** What stays of the other threads when thread [t] moves. *)
Lemma caller_ok_moves i u x th th' st k : moves_on false th th' -> caller_ok i u x th st k -> caller_ok i u x th' st k.
Proof. intros [Hp Ho] [H1 H2 H3 H4 H5 H6]. split; try done; [congruence|]. intros Hb. by apply Ho, H6. Qed.

Lemma update_mach c c' net net' i m sts t x' b' st' k' :
  mach_ok c net i m sts -> (t < T i)%nat -> bar_reachable (T i) b' -> length b'.2 = T i ->
  (forall u th', u <> t -> b'.2 !! u = Some th' -> exists th, (bar m).2 !! u = Some th /\ moves_on false th th') ->
  (forall th', b'.2 !! t = Some th' -> caller_ok i t x' th' st' k') ->
  (forall st k, (1 < n)%nat -> <[t := (st', k')]> sts !! 0%nat = Some (st, k) -> 
    c' (Z.of_nat i) = begun st k /\ (st <> InNet -> exists r, net'.1 !! Z.of_nat i = Some (Done r))) ->
  mach_ok c' net' i (Mach b' (<[t := x']> (callers m))) (<[t := (st', k')]> sts).
Proof.
  intros [H1 H2 H3 H4 H5 H6] Ht Hb Hl Ho Hok Hf. split; cbn [bar callers]; rewrite ?length_insert; try done.
  intros u x th st k Hx Hth Hst. destruct (decide (u = t)) as [->|Hne].
  - rewrite list_lookup_insert_eq in Hx by lia. rewrite list_lookup_insert_eq in Hst by lia. injection Hx as <-. injection Hst as <- <-. by apply Hok.
  - rewrite list_lookup_insert_ne in Hx by done. rewrite list_lookup_insert_ne in Hst by done. destruct (Ho u th Hne Hth) as (th0 & Hth0 & Hm).
    eapply caller_ok_moves; [exact Hm|]. by apply (H5 u).
Qed.

Lemma same_bar (m : mach) u th' : (bar m).2 !! u = Some th' -> exists th, (bar m).2 !! u = Some th /\ moves_on false th th'.
Proof. intros H. exists th'. split; [done|]. by split. Qed.

(** The other machines. *)
Lemma other_mach c c' net net' i m sts : mach_ok c net i m sts -> c' (Z.of_nat i) = c (Z.of_nat i) ->
  (forall r, net.1 !! Z.of_nat i = Some (Done r) -> exists r', net'.1 !! Z.of_nat i = Some (Done r')) -> mach_ok c' net' i m sts.
Proof.
  intros [H1 H2 H3 H4 H5 H6] Hc Hn. split; try done. intros st k H1n Hst. destruct (H6 st k H1n Hst) as [E Hd]. split; [congruence|].
  intros Hst'. destruct (Hd Hst') as [r Hr]. eauto.
Qed.

Lemma update_cluster c s i m' sts' : cluster_inv c s -> mach_ok c s.2 i m' sts' -> cluster_inv c (<[i := m']> s.1, s.2).
Proof.
  intros [H1 H2 H3 H4] Hm. split; cbn [fst snd]; rewrite ?length_insert; try done.
  intros j mj Hj. destruct (decide (j = i)) as [->|Hne].
  - rewrite list_lookup_insert_eq in Hj by (apply lookup_lt_Some in Hj; by rewrite length_insert in Hj). injection Hj as <-. by exists sts'.
  - rewrite list_lookup_insert_ne in Hj by done. by apply H2.
Qed.

(** A step of thread [t] that neither concerns the barrier nor begins a call to the network. *)
Lemma quiet_step c s i m sts t x th st k x' st' k' : cluster_inv c s -> s.1 !! i = Some m -> mach_ok c s.2 i m sts ->
  callers m !! t = Some x -> (bar m).2 !! t = Some th -> sts !! t = Some (st, k) ->
  caller_ok i t x' th st' k' ->
  (t = 0%nat -> (1 < n)%nat -> begun st' k' = begun st k /\ (st' <> InNet -> exists r, s.2.1 !! Z.of_nat i = Some (Done r))) ->
  cluster_inv c (<[i := set_caller t x' m]> s.1, s.2).
Proof.
  intros HI Hm HM Hx Hth Hst Hok Hf. eapply update_cluster; [done|]. destruct HM as [H1 H2 H3 H4 H5 H6] eqn:E. 
  eapply update_mach; [exact HM| |done|done| |intros th' Hth'; replace th' with th by congruence; exact Hok|].
  - rewrite <- H2. by eapply lookup_lt_Some.
  - intros u th' _. apply same_bar.
  - intros st2 k2 H1n Hst2. destruct (decide (t = 0%nat)) as [->|Hne].
    + rewrite list_lookup_insert_eq in Hst2 by (by eapply lookup_lt_Some). injection Hst2 as <- <-.
      destruct (Hf eq_refl H1n) as [Hb Hd]. rewrite Hb. split; [by apply (H6 st k)|exact Hd].
    + rewrite list_lookup_insert_ne in Hst2 by done. by apply H6.
Qed.

(** ** Every step keeps the invariant *)

Context (two : (1 <= n)%nat) (size_bound : Z.of_nat n <= 2 ^ 30)
  (sizes : forall i, (i < n)%nat -> netd_size (nq i) = Z.of_nat n) (comms : forall i t, tcomm i t <> NULL) (o lr lb : Z)
  (o_int : is_int32 o = true)
  (alike : forall i, 0 <= i < Z.of_nat n -> machine (Z.of_nat n) i (s0 i) /\ reduce_last_root (s0 i) = lr /\
    bcast_last_root (s0 i) = lb /\ order (s0 i) = o)
  (four : forall i k, length (junk i k) = 4%nat) (someone : forall i, (i < n)%nat -> (1 <= T i)%nat).

Definition after_first (t : nat) : stage := if (1 <? n)%nat then (if (t =? 0)%nat then Net else Second) else Leaving.

Lemma call_of_eq i t : (i < n)%nat -> call_of i t = Bar_wait (default Faults (rest i t (after_first t))).
Proof.
  intros Hi. unfold call_of, MPI_Barrier. cbn [negb]. change (MPI_COMM_WORLD =? MPI_COMM_WORLD) with true. cbn [negb].
  rewrite (proj2 (Z.eqb_neq _ _) (comms i t)), (sizes i Hi). unfold after_first.
  destruct (Z.gtb_spec (Z.of_nat n) 1) as [H|H].
  - rewrite (proj2 (Nat.ltb_lt 1 n)) by lia. destruct (Nat.eqb_spec t 0) as [->|Hne]; [done|].
    by rewrite (proj2 (Z.eqb_neq _ 0)) by lia.
  - by rewrite (proj2 (Nat.ltb_ge 1 n)) by lia.
Qed.

(** Where the thread is, and what it runs. *)
Lemma caller_at c s i m t x : cluster_inv c s -> s.1 !! i = Some m -> callers m !! t = Some x ->
  (i < n)%nat /\ (t < T i)%nat /\ exists sts th st k, mach_ok c s.2 i m sts /\ (bar m).2 !! t = Some th /\ sts !! t = Some (st, k) /\ caller_ok i t x th st k.
Proof.
  intros HI Hm Hx. destruct (ci_mach _ _ HI i m Hm) as [sts HM]. split; [rewrite <- (ci_len _ _ HI); by eapply lookup_lt_Some|].
  assert (t < T i)%nat as Ht by (rewrite <- (mo_len _ _ _ _ _ HM); by eapply lookup_lt_Some). split; [done|].
  destruct (lookup_lt_is_Some_2 (bar m).2 t) as [th Hth]; [by rewrite (mo_bar_len _ _ _ _ _ HM)|].
  destruct (lookup_lt_is_Some_2 sts t) as [[st k] Hst]; [by rewrite (mo_sts_len _ _ _ _ _ HM)|].
  exists sts, th, st, k. split_and!; try done. by apply (mo_callers _ _ _ _ _ HM t).
Qed.

Lemma rest_Bar i t st k : (i < n)%nat -> rest i t st = Some (Bar_wait k) -> stage_allowed t st ->
  exists st', (st = First /\ st' = after_first t \/ st = Second /\ st' = Leaving) /\ k = default Faults (rest i t st').
Proof.
  intros Hi H Hal. destruct st; try discriminate H.
  - cbn [rest] in H. rewrite (call_of_eq i t Hi) in H. injection H as <-. exists (after_first t). auto.
  - injection H as <-. exists Leaving. auto.
Qed.

Lemma begin_step c s i t m x : cluster_inv c s -> s.1 !! i = Some m -> callers m !! t = Some x -> prog x = None ->
  cluster_inv c (<[i := set_caller t (x <| prog := Some (call_of i t) |>) m]> s.1, s.2).
Proof.
  intros HI Hm Hx Hp. destruct (caller_at _ _ _ _ _ _ HI Hm Hx) as (Hi & Ht & sts & th & st & k & HM & Hth & Hst & [H1 H2 H3 H4 H5 H6]).
  rewrite Hp in H1. destruct st; try discriminate H1.
  apply (quiet_step c s i m sts t x th Idle k _ First k HI Hm HM Hx Hth Hst); [by split|].
  intros -> H1n. split; [done|]. intros _. by apply (mo_first _ _ _ _ _ HM Idle k).
Qed.

Lemma return_step c s i t m x a : cluster_inv c s -> s.1 !! i = Some m -> callers m !! t = Some x -> prog x = Some (Returns a) ->
  cluster_inv c (<[i := set_caller t (x <| prog := None |> <| results := results x ++ [a] |>) m]> s.1, s.2).
Proof.
  intros HI Hm Hx Hp. destruct (caller_at _ _ _ _ _ _ HI Hm Hx) as (Hi & Ht & sts & th & st & k & HM & Hth & Hst & [H1 H2 H3 H4 H5 H6]).
  rewrite Hp in H1. destruct st; try discriminate H1; [cbn [rest] in H1; by rewrite (call_of_eq i t Hi) in H1|]. injection H1 as ->.
  apply (quiet_step c s i m sts t x th Leaving k _ Idle (S k) HI Hm HM Hx Hth Hst).
  - split; [done|exact H2| |done|cbn [waited] in *; lia|intros _; by apply H6]. cbn. by rewrite H3, <- replicate_S_end.
  - intros -> H1n. split; [done|]. intros _. by apply (mo_first _ _ _ _ _ HM Leaving k).
Qed.

Lemma net_return_step c s i t m x k r : cluster_inv c s -> s.1 !! i = Some m -> callers m !! t = Some x ->
  prog x = Some (Netq_barrier k) -> in_net x = true -> s.2.1 !! Z.of_nat i = Some (Done r) ->
  cluster_inv c (<[i := set_caller t (x <| prog := Some (k r.1.1) |> <| in_net := false |>) m]> s.1, s.2).
Proof.
  intros HI Hm Hx Hp Hin Hr. destruct (caller_at _ _ _ _ _ _ HI Hm Hx) as (Hi & Ht & sts & th & st & j & HM & Hth & Hst & [H1 H2 H3 H4 H5 H6]).
  rewrite Hin in H2. destruct st; try discriminate H2. rewrite Hp in H1. injection H1 as ->. destruct H4 as [-> H1n].
  apply (quiet_step c s i m sts 0 x th InNet j _ Second j HI Hm HM Hx Hth Hst); [by split|].
  intros _ _. split; [done|]. intros _. eauto.
Qed.

Lemma bar_thread_step c s i t m x k b' : cluster_inv c s -> s.1 !! i = Some m -> callers m !! t = Some x ->
  prog x = Some (Bar_wait k) -> bar_step t (bar m) b' ->
  cluster_inv c (<[i := Mach b' (if is_outside t b' then <[t := x <| prog := Some k |>]> (callers m) else callers m)]> s.1, s.2).
Proof.
  intros HI Hm Hx Hp Hs. destruct (caller_at _ _ _ _ _ _ HI Hm Hx) as (Hi & Ht & sts & th & st & j & HM & Hth & Hst & Hok).
  pose proof Hok as [H1 H2 H3 H4 H5 H6]. rewrite Hp in H1. destruct (rest_Bar i t st k Hi (eq_sym H1) H4) as (st' & Hst' & ->).
  destruct (bar_step_thread _ _ _ _ _ Hs Hth) as (th' & Hth' & Hmv). rewrite bool_decide_true in Hmv by done.
  set (y := if is_outside t b' then x <| prog := Some (default Faults (rest i t st')) |> else x).
  assert ((if is_outside t b' then <[t := x <| prog := Some (default Faults (rest i t st')) |>]> (callers m) else callers m) = <[t := y]> (callers m)) as ->.
  { unfold y. destruct (is_outside t b'); [done|]. by rewrite list_insert_id. }
  eapply update_cluster; [done|].
  apply (update_mach c c s.2 s.2 i m sts t y b' (if is_outside t b' then st' else st) j HM Ht).
  - eapply bar_reachable_step; [apply HM|exact Hs].
  - rewrite (bar_step_length _ _ _ Hs). apply HM.
  - intros u th2 Hne Hu. destruct (lookup_lt_is_Some_2 (bar m).2 u) as [th1 Hu1].
    { rewrite <- (bar_step_length _ _ _ Hs). by eapply lookup_lt_Some. }
    destruct (bar_step_thread _ _ _ _ _ Hs Hu1) as (th3 & Hu3 & Hmu). rewrite bool_decide_false in Hmu by done.
    exists th1. split; [done|]. congruence.
  - intros th2 Hu. replace th2 with th' by congruence. clear Hu th2. unfold y, is_outside. rewrite Hth'. cbn [moves_on] in Hmv.
    destruct th' as [[] p']; cbn [pc passed] in *.
    2,3,4: split; [congruence|done|done|done|cbn; congruence|]; intros E; destruct Hst' as [[-> _]|[-> _]]; discriminate E.
    destruct Hmv as [Hp' _]. split; try done.
    + cbn. destruct Hst' as [[_ ->]|[_ ->]]; [|done]. unfold after_first. destruct (1 <? n)%nat, (t =? 0)%nat; done.
    + cbn. rewrite H2. destruct Hst' as [[-> ->]|[-> ->]]; [|done]. unfold after_first. destruct (1 <? n)%nat, (t =? 0)%nat; done.
    + destruct Hst' as [[-> ->]|[-> ->]]; [|done]. unfold after_first. destruct (Nat.ltb_spec 1 n), (Nat.eqb_spec t 0); done.
    + change (p' = waits * j + waited st')%nat. rewrite Hp', H5. destruct Hst' as [[-> ->]|[-> ->]]; unfold after_first; cbn [waited].
      * assert (waits = if (1 <? n)%nat then 2 else 1)%nat as Hw by done. destruct (1 <? n)%nat; [destruct (t =? 0)%nat|]; cbn [waited]; lia.
      * cbn in H4. assert (waits = 2)%nat as ->; [|lia]. unfold waits. by rewrite (proj2 (Nat.ltb_lt 1 n)) by lia.
  - intros st2 k2 H1n Hst2. destruct (decide (t = 0%nat)) as [->|Hne].
    + rewrite list_lookup_insert_eq in Hst2 by (by eapply lookup_lt_Some). injection Hst2 as <- <-.
      destruct (mo_first _ _ _ _ _ HM st j H1n Hst) as [Hb Hd].
      assert (st <> InNet) as Hno by (destruct Hst' as [[-> _]|[-> _]]; done). split; [|intros _; by apply Hd]. rewrite Hb.
      destruct (is_outside 0 b'); [|done]. destruct Hst' as [[-> ->]|[-> ->]]; [|done]. unfold after_first.
      rewrite (proj2 (Nat.ltb_lt 1 n)) by lia. done.
    + rewrite list_lookup_insert_ne in Hst2 by done. by apply (mo_first _ _ _ _ _ HM).
Qed.

(** A machine that has returned from all its calls to the network has begun no more of
    them than any other. *)
Lemma returned_all_begun c s i j r : cluster_inv c s -> 0 <= i < Z.of_nat n -> 0 <= j < Z.of_nat n ->
  s.2.1 !! i = Some (Done r) -> (c i <= c j)%nat.
Proof.
  intros HI Hi Hj Hr. destruct (decide (i = j)) as [->|Hne]; [done|].
  destruct (decide (Exists (fun m => (c i < c m)%nat) (seqZ 0 (Z.of_nat n)))) as [Hex|Hno].
  - apply Exists_exists in Hex as (m & Hm%elem_of_seqZ & Hlt). pose proof (ci_close _ _ HI m j ltac:(lia) Hj). lia.
  - destruct (c i) as [|k] eqn:Hk; [lia|].
    assert (forall m, 0 <= m < Z.of_nat n -> (c m <= S k)%nat) as Hle.
    { intros m Hm. destruct (decide (S k < c m)%nat); [|lia]. exfalso. apply Hno, Exists_exists. exists m. split; [apply elem_of_seqZ; lia|done]. }
    rewrite (barrier_round_full DBL FLT (Z.of_nat n) s0 junk o ltac:(lia) o_int lr lb alike four k c s.2 i r j Hle Hk (ci_run _ _ HI) Hi Hr Hj). lia.
Qed.

Lemma net_call_step c s i t m x k r : cluster_inv c s -> s.1 !! i = Some m -> callers m !! t = Some x ->
  prog x = Some (Netq_barrier k) -> in_net x = false -> s.2.1 !! Z.of_nat i = Some (Done r) ->
  exists c', cluster_inv c' (<[i := set_caller t (x <| in_net := true |>) m]> s.1,
    (<[Z.of_nat i := netq_barrier DBL FLT (junk (Z.of_nat i) (length (results x))) r.2]> s.2.1, s.2.2)).
Proof.
  intros HI Hm Hx Hp Hin Hr. destruct (caller_at _ _ _ _ _ _ HI Hm Hx) as (Hi & Ht & sts & th & st & j & HM & Hth & Hst & Hok).
  pose proof Hok as [H1 H2 H3 H4 H5 H6]. rewrite Hin in H2.
  destruct st; try discriminate H2; rewrite Hp in H1; try discriminate H1; [cbn [rest] in H1; by rewrite (call_of_eq i t Hi) in H1|].
  destruct H4 as [-> H1n]. destruct (mo_first _ _ _ _ _ HM Net j H1n Hst) as [Hci _]. cbn [begun] in Hci.
  set (c' := fun z => if decide (z = Z.of_nat i) then S (c z) else c z). exists c'.
  assert (length (results x) = c (Z.of_nat i)) as Hlen by (by rewrite H3, length_replicate, Hci).
  split; cbn [fst snd].
  - rewrite length_insert. apply HI.
  - intros u mu Hu. destruct (decide (u = i)) as [->|Hne].
    + rewrite list_lookup_insert_eq in Hu by (rewrite (ci_len _ _ HI); lia). injection Hu as <-. eexists.
      apply (update_mach c c' s.2 _ i m sts 0 _ (bar m) InNet j HM); [lia|apply HM|apply HM|intros; by apply same_bar| |].
      * intros th' Hth'. replace th' with th by congruence. split; [exact (eq_trans Hp H1)|done|exact H3|done|exact H5|intros _; by apply H6].
      * intros st2 k2 _ Hst2. rewrite list_lookup_insert_eq in Hst2 by (by eapply lookup_lt_Some). injection Hst2 as <- <-.
        split; [unfold c'; rewrite decide_True by done; cbn [begun]; lia|done].
    + rewrite list_lookup_insert_ne in Hu by done. destruct (ci_mach _ _ HI u mu Hu) as [stu HMu]. exists stu.
      eapply other_mach; [exact HMu| |].
      * unfold c'. rewrite decide_False by lia. done.
      * intros r' Hr'. exists r'. cbn [fst]. by rewrite lookup_insert_ne by lia.
  - rewrite Hlen. apply (begin_round (Z.of_nat n) _ (next_barrier DBL FLT junk) c s.2 (Z.of_nat i) r); [lia|apply HI|done].
  - intros a b Ha Hb. unfold c'. pose proof (ci_close _ _ HI a b Ha Hb) as Hcl.
    destruct (decide (a = Z.of_nat i)) as [->|Hna], (decide (b = Z.of_nat i)) as [->|Hnb]; try lia.
    pose proof (returned_all_begun c s (Z.of_nat i) b r HI ltac:(lia) Hb Hr). lia.
Qed.

Lemma net_step c s i net' : cluster_inv c s -> fire i s.2 = Some net' -> cluster_inv c (s.1, net').
Proof.
  intros HI Hf. split; cbn [fst snd]; [apply HI| |eapply rtc_r; [apply HI|by exists i]|apply HI].
  intros u mu Hu. destruct (ci_mach _ _ HI u mu Hu) as [stu HMu]. exists stu. eapply other_mach; [exact HMu|done|].
  intros r Hr. exists r. eapply (Done_stays _ _ 1); [|exact Hr]. eapply nsteps_l; [by exists i|apply nsteps_O].
Qed.

Lemma cluster_step_inv c s s' : cluster_inv c s -> cluster_step s s' -> exists c', cluster_inv c' s'.
Proof.
  intros HI Hs0. destruct Hs0 as [i t ms net m x Hm Hx Hp|i t ms net m x k b' Hm Hx Hp Hs|i t ms net m x k r Hm Hx Hp Hin Hr|i ms net net' Hf
    |i t ms net m x k r Hm Hx Hp Hin Hr|i t ms net m x a Hm Hx Hp].
  - exists c. exact (begin_step c (ms, net) i t m x HI Hm Hx Hp).
  - exists c. exact (bar_thread_step c (ms, net) i t m x k b' HI Hm Hx Hp Hs).
  - exact (net_call_step c (ms, net) i t m x k r HI Hm Hx Hp Hin Hr).
  - exists c. exact (net_step c (ms, net) i net' HI Hf).
  - exists c. exact (net_return_step c (ms, net) i t m x k r HI Hm Hx Hp Hin Hr).
  - exists c. exact (return_step c (ms, net) i t m x a HI Hm Hx Hp).
Qed.

Lemma cluster_start_inv s : cluster_start n T s -> cluster_inv (fun _ => 0%nat) s.
Proof.
  intros (Hl & Hm & Hn). split; [done| | |lia].
  - intros i m Hi. destruct (Hm i m Hi) as [Hb Hc]. exists (replicate (T i) (Idle, 0%nat)).
    assert ((bar m).2 = replicate (T i) (Thread Outside 0)) as Hth by (by destruct Hb as (? & ? & b & _ & ->)).
    split; rewrite ?Hc, ?Hth, ?length_replicate; try done.
    + exists (bar m). split; [done|apply rtc_refl].
    + intros t x th st k [-> _]%lookup_replicate [-> _]%lookup_replicate [[= -> ->] _]%lookup_replicate. split; cbn; try done. lia.
    + intros st k H1n [[= -> ->] H0]%lookup_replicate. split; [done|]. intros _. rewrite Hn, start_lookup; [eauto|].
      apply lookup_lt_Some in Hi. lia.
  - rewrite Hn. apply rtc_refl.
Qed.

Lemma cluster_reachable_inv s : cluster_reachable n T s -> exists c, cluster_inv c s.
Proof.
  intros (s1 & H1 & Hs). apply cluster_start_inv in H1. revert H1. generalize (fun _ : Z => 0%nat).
  induction Hs as [s|s1 s2 s3 H12 _ IH]; intros c Hc; [eauto|]. destruct (cluster_step_inv _ _ _ Hc H12) as [c' Hc']. by eapply IH.
Qed.

(** ** Properties *)

(** The calls a thread has made, the one it is in included. *)
Definition called (x : caller) : nat := length (results x) + (if prog x is None then 0 else 1).

Lemma caller_counts i t x th st k : caller_ok i t x th st k ->
  length (results x) = k /\ called x = (k + if st is Idle then 0 else 1)%nat /\
  passed th = (waits * k + waited st)%nat /\ (arrived th <= passed th + if at_bar st then 1 else 0)%nat.
Proof.
  intros [H1 H2 H3 H4 H5 H6]. unfold called. rewrite H1, H3, length_replicate. split; [done|]. split; [by destruct st|]. split; [done|].
  unfold arrived. destruct (at_bar st); [destruct (pc th); lia|]. rewrite H6 by done. lia.
Qed.

(** The calls to the network a first thread has completed, and those it has begun. *)
Lemma first_counts c s i m : cluster_inv c s -> s.1 !! i = Some m -> (1 < n)%nat ->
  exists th, (bar m).2 !! 0%nat = Some th /\ (passed th + 1 >= 2 * c (Z.of_nat i))%nat /\
    forall j, (j < n)%nat -> (arrived th <= 2 * c (Z.of_nat j) + 1)%nat.
Proof.
  intros HI Hm H1n. assert (i < n)%nat as Hi by (rewrite <- (ci_len _ _ HI); by eapply lookup_lt_Some).
  destruct (ci_mach _ _ HI i m Hm) as [sts0 HM0]. destruct (lookup_lt_is_Some_2 (callers m) 0) as [x Hx].
  { rewrite (mo_len _ _ _ _ _ HM0). pose proof (someone i Hi). lia. }
  destruct (caller_at _ _ _ _ _ _ HI Hm Hx) as (_ & _ & sts & th & st & k & HM & Hth & Hst & Hok).
  destruct (caller_counts _ _ _ _ _ _ Hok) as (_ & _ & Hp & Ha). destruct (mo_first _ _ _ _ _ HM st k H1n Hst) as [Hc Hd].
  assert (waits = 2)%nat as Hw by (unfold waits; by rewrite (proj2 (Nat.ltb_lt 1 n) H1n)). rewrite Hw in Hp.
  exists th. split; [done|]. split.
  - rewrite Hc, Hp. destruct st; cbn [begun waited]; rewrite ?Hw; lia.
  - intros j Hj. pose proof (ci_close _ _ HI (Z.of_nat i) (Z.of_nat j) ltac:(lia) ltac:(lia)) as Hcl.
    assert (st <> InNet -> (c (Z.of_nat i) <= c (Z.of_nat j))%nat) as Hle.
    { intros H. destruct (Hd H) as [r Hr]. apply (returned_all_begun c s (Z.of_nat i) (Z.of_nat j) r HI); [lia|lia|done]. }
    rewrite Hc in *. destruct st; cbn [begun waited at_bar] in *; rewrite ?Hw in Hp; try (specialize (Hle ltac:(done))); lia.
Qed.

(** (C9) MPI_Barrier is a barrier for all threads of all machines: in every reachable
    state of the cluster - however the threads of each machine interleave, whatever
    spurious wake-ups they have, in whatever order the machines' messages travel - no
    thread has returned from more calls than any other has made, and every call that
    returned gave MPI_SUCCESS. *)
Theorem mpi_barrier_safe s i t m x j u m' y : cluster_reachable n T s ->
  s.1 !! i = Some m -> callers m !! t = Some x -> s.1 !! j = Some m' -> callers m' !! u = Some y ->
  (length (results x) <= called y)%nat /\ Forall (fun r => r = MPI_SUCCESS) (results x).
Proof.
  intros Hs Hm Hx Hm' Hy. apply cluster_reachable_inv in Hs as [c HI].
  destruct (caller_at _ _ _ _ _ _ HI Hm Hx) as (Hi & Ht & sts & th & st & k & HM & Hth & Hst & Hok).
  destruct (caller_at _ _ _ _ _ _ HI Hm' Hy) as (Hj & Hu & sts' & th' & st' & k' & HM' & Hth' & Hst' & Hok').
  split; [|rewrite (co_results _ _ _ _ _ _ Hok); by apply Forall_replicate].
  destruct (caller_counts _ _ _ _ _ _ Hok) as (Hr & _ & Hp & _). destruct (caller_counts _ _ _ _ _ _ Hok') as (_ & Hc & Hp' & Ha').
  rewrite Hr, Hc. destruct (decide (1 < n)%nat) as [H1n|H1n].
  - assert (waits = 2)%nat as Hw by (unfold waits; by rewrite (proj2 (Nat.ltb_lt 1 n) H1n)). rewrite Hw in *.
    destruct (first_counts c s i m HI Hm H1n) as (f & Hf & _ & Hfa). destruct (first_counts c s j m' HI Hm' H1n) as (f' & Hf' & Hfb & _).
    pose proof (passed_le_arrived (T i) (bar m) t 0 th f (mo_bar _ _ _ _ _ HM) Hth Hf).
    pose proof (passed_le_arrived (T j) (bar m') 0 u f' th' (mo_bar _ _ _ _ _ HM') Hf' Hth'). specialize (Hfa j Hj).
    destruct st'; cbn [waited at_bar] in *; rewrite ?Hw in *; lia.
  - assert (waits = 1)%nat as Hw by (unfold waits; by rewrite (proj2 (Nat.ltb_ge 1 n)) by lia). rewrite Hw in *.
    assert (j = i) as -> by lia. replace m' with m in * by congruence.
    pose proof (passed_le_arrived (T i) (bar m) t u th th' (mo_bar _ _ _ _ _ HM) Hth Hth').
    destruct Hok' as [_ _ _ Hal _ _]. destruct st'; cbn [waited at_bar stage_allowed] in *; rewrite ?Hw in *; lia.
Qed.

(** The thread can make a step of its own, no spurious wake-up. *)
Definition can_go_on (net : config outcome) (i t : nat) (m : mach) (x : caller) : Prop :=
  match prog x with
  | Some (Bar_wait _) => exists th, (bar m).2 !! t = Some th /\
      match pc th with Outside | AtLock _ => True | Woken b => bar_woken (bar m).1 b = true | Asleep _ => False end
  | Some (Netq_barrier _) => in_net x = false /\ (exists r, net.1 !! Z.of_nat i = Some (Done r)) \/
      in_net x = true /\ ((exists r, net.1 !! Z.of_nat i = Some (Done r)) \/ exists net', fire (Z.of_nat i) net = Some net')
  | Some (Returns _) => True
  | _ => False
  end.

(** Somebody on a machine can go on, or its first thread is in the call to the network. *)
Lemma machine_goes_on c s i m : cluster_inv c s -> s.1 !! i = Some m ->
  (forall t x, callers m !! t = Some x -> prog x <> None) ->
  (exists t x, callers m !! t = Some x /\ can_go_on s.2 i t m x) \/
  (1 < n)%nat /\ exists x k, callers m !! 0%nat = Some x /\ prog x = Some (Netq_barrier k) /\ in_net x = true.
Proof.
  intros HI Hm Hin. destruct (ci_mach _ _ HI i m Hm) as [sts0 HM0].
  assert (forall t th, (bar m).2 !! t = Some th -> exists x, callers m !! t = Some x) as Hcaller.
  { intros t th Hth. apply lookup_lt_is_Some_2. rewrite (mo_len _ _ _ _ _ HM0), <- (mo_bar_len _ _ _ _ _ HM0). by eapply lookup_lt_Some. }
  destruct (existsb (fun th => match pc th with Outside => true | _ => false end) (bar m).2) eqn:Hex.
  - apply existsb_exists in Hex as (th & Hth%list_elem_of_In & Hpc). apply list_elem_of_lookup in Hth as [t Hth].
    assert (pc th = Outside) as Hout by (by destruct (pc th)). destruct (Hcaller t th Hth) as [x Hx].
    destruct (caller_at _ _ _ _ _ _ HI Hm Hx) as (Hi & _ & sts & th' & st & k & HM & Hth' & Hst & [H1 H2 H3 H4 H5 H6]).
    assert (th' = th) as -> by congruence. pose proof (Hin t x Hx) as Hsome. unfold can_go_on.
    destruct st; cbn [rest] in *; [done|..].
    + left. exists t, x. split; [done|]. rewrite H1, (call_of_eq i t Hi). exists th. by rewrite Hout.
    + left. exists t, x. split; [done|]. rewrite H1. destruct H4 as [-> H1n]. left. split; [done|]. by apply (mo_first _ _ _ _ _ HM Net k H1n).
    + destruct H4 as [-> H1n]. right. split; [done|]. by exists x, (fun _ => second).
    + left. exists t, x. split; [done|]. rewrite H1. exists th. by rewrite Hout.
    + left. exists t, x. split; [done|]. by rewrite H1.
  - left. assert (Forall (fun th => pc th <> Outside) (bar m).2) as Hall.
    { apply Forall_forall. intros th Hth E. apply not_true_iff_false in Hex. apply Hex, existsb_exists. exists th.
      split; [by apply list_elem_of_In|]. by rewrite E. }
    destruct (someone_moves (T i) (bar m) (mo_bar _ _ _ _ _ HM0) Hall) as (t & th & b & Hth & Hgo).
    destruct (Hcaller t th Hth) as [x Hx].
    destruct (caller_at _ _ _ _ _ _ HI Hm Hx) as (Hi & _ & sts & th' & st & k & HM & Hth' & Hst & [H1 H2 H3 H4 H5 H6]).
    assert (th' = th) as -> by congruence. exists t, x. split; [done|]. unfold can_go_on.
    assert (at_bar st = true) as Hat.
    { destruct (at_bar st) eqn:E; [done|]. specialize (H6 eq_refl). destruct Hgo as [Hg|[Hg _]]; congruence. }
    assert (exists k, prog x = Some (Bar_wait k)) as [k' ->].
    { rewrite H1. destruct st; try discriminate Hat; [|by eexists]. cbn [rest]. rewrite (call_of_eq i t Hi). by eexists. }
    exists th. split; [done|]. by destruct Hgo as [-> |[-> ?]].
Qed.

Lemma one_or_all {B} (P Q : nat -> B -> Prop) (l : list B) : (forall i x, l !! i = Some x -> P i x \/ Q i x) ->
  (exists i x, l !! i = Some x /\ P i x) \/ forall i x, l !! i = Some x -> Q i x.
Proof.
  revert P Q. induction l as [|y l IH]; intros P Q H; [right; intros i x Hi; by rewrite lookup_nil in Hi|].
  destruct (H 0%nat y eq_refl) as [Hp|Hq]; [left; by exists 0%nat, y|].
  destruct (IH (fun i => P (S i)) (fun i => Q (S i)) (fun i x Hi => H (S i) x Hi)) as [(i & x & Hi & Hp)|Hall].
  - left. by exists (S i), x.
  - right. intros [|i] x Hi; [by injection Hi as <-|by apply Hall].
Qed.

(** (C10) MPI_Barrier does not get stuck: when all threads of all machines are in a call,
    one of them can go on - in the barrier of its machine without a spurious wake-up, by
    a move of the network barrier, or by returning. *)
Theorem mpi_barrier_progress s : cluster_reachable n T s ->
  (forall i m t x, s.1 !! i = Some m -> callers m !! t = Some x -> prog x <> None) ->
  exists i m t x, s.1 !! i = Some m /\ callers m !! t = Some x /\ can_go_on s.2 i t m x.
Proof.
  intros Hs Hin. apply cluster_reachable_inv in Hs as [c HI].
  destruct (one_or_all _ _ s.1 (fun i m Hm => machine_goes_on c s i m HI Hm (fun t x => Hin i m t x Hm))) as [(i & m & Hm & t & x & Hgo)|Hnet];
    [by exists i, m, t, x|].
  assert (forall i, 0 <= i < Z.of_nat n -> exists m, s.1 !! Z.to_nat i = Some m) as Hmach.
  { intros i Hi. apply lookup_lt_is_Some_2. rewrite (ci_len _ _ HI). lia. }
  destruct (Hmach 0 ltac:(lia)) as [m0 Hm0]. destruct (Hnet _ _ Hm0) as (H1n & _).
  destruct (barriers_go_on DBL FLT (Z.of_nat n) s0 junk o ltac:(lia) o_int lr lb alike four c s.2 (ci_run _ _ HI))
    as [(i & net' & Hi & Hf)|(i & r & Hi & Hr)]; destruct (Hmach i Hi) as [m Hm]; destruct (Hnet _ _ Hm) as (_ & x & k & Hx & Hp & Hinn);
    exists (Z.to_nat i), m, 0%nat, x; (split; [done|split; [done|]]); unfold can_go_on; rewrite Hp, Z2Nat.id by lia; right; (split; [done|]); eauto.
Qed.
End Cluster.

(** ** Two small clusters *)

Definition demo_netq (n : nat) : netq := mkNetq None (-1) None (-1) false false [] (mkSA 0 0 0 false) (Z.of_nat n) 0 None [] ∅.
Definition demo_junk (i : Z) (k : nat) : list Z := [9; 9; 9; 9].
Notation demo_step n := (cluster_step int_num int_num (fun _ => demo_netq n) (fun _ _ => 40000) demo_junk).
Notation demo_reachable n T := (cluster_reachable int_num int_num (fun _ => demo_netq n) (fun _ _ => 40000) (fresh_netd (Z.of_nat n)) demo_junk n (fun _ => T)).

Ltac take_step c := eapply rtc_l; [eapply c; try reflexivity|].
Ltac bar_does n i t c := take_step (step_bar int_num int_num (fun _ => demo_netq n) (fun _ _ => 40000) demo_junk i t); [eapply c; reflexivity|].
Ltac begins n i t := take_step (step_begin int_num int_num (fun _ => demo_netq n) (fun _ _ => 40000) demo_junk i t).

Lemma demo_alike n i : 0 <= i < n ->
  machine n i (fresh_netd n i) /\ reduce_last_root (fresh_netd n i) = -1 /\ bcast_last_root (fresh_netd n i) = -1 /\ order (fresh_netd n i) = 2.
Proof. intros Hi. split; [apply fresh_machine|done]. Qed.

(** One machine, two threads: the first has returned from its call, the other not yet. *)
Definition demo_one : cluster :=
  ([Mach (mkBar 2 2 2 true, [Thread Outside 1; Thread Outside 1])
      [Caller None false [0]; Caller (Some (Returns 0)) false []]], start 1 (fun i => Done (0, false, fresh_netd 1 i))).
Lemma demo_one_reachable : demo_reachable 1%nat 2%nat demo_one.
Proof.
  exists ([Mach (mkBar 2 2 2 false, replicate 2 (Thread Outside 0)) (replicate 2 (Caller None false []))], start 1 (fun i => Done (0, false, fresh_netd 1 i))).
  split.
  - split; [done|]. split; [|done]. intros [|i] m Hm; [|by destruct i]. injection Hm as <-. split; [|done].
    exists (fun _ => 0), (fun _ => 0), (mkBar 2 2 2 false). by split.
  - begins 1%nat 0%nat 0%nat. begins 1%nat 0%nat 1%nat.
    bar_does 1%nat 0%nat 0%nat step_call. bar_does 1%nat 0%nat 1%nat step_call. bar_does 1%nat 0%nat 0%nat step_sleep. bar_does 1%nat 0%nat 1%nat step_pass.
    bar_does 1%nat 0%nat 0%nat step_leave.
    take_step (step_return int_num int_num (fun _ => demo_netq 1) (fun _ _ => 40000) demo_junk 0 0).
    apply rtc_refl.
Qed.

Lemma mpi_barrier_safe_witness :
  (length (results (Caller None false [0%Z])) <= called (Caller (Some (Returns 0%Z)) false []))%nat /\
  Forall (fun r => r = MPI_SUCCESS) (results (Caller None false [0%Z])).
Proof.
  apply (mpi_barrier_safe int_num int_num (fun _ => demo_netq 1) (fun _ _ => 40000) (fresh_netd 1) demo_junk 1 (fun _ => 2%nat)
    ltac:(lia) ltac:(lia) ltac:(intros i Hi; reflexivity) ltac:(intros; discriminate) 2 (-1) (-1) eq_refl (demo_alike 1) ltac:(done) ltac:(intros i Hi; cbn; lia)
    demo_one 0 0 (Mach (mkBar 2 2 2 true, [Thread Outside 1; Thread Outside 1]) [Caller None false [0]; Caller (Some (Returns 0)) false []]) _
    0 1 (Mach (mkBar 2 2 2 true, [Thread Outside 1; Thread Outside 1]) [Caller None false [0]; Caller (Some (Returns 0)) false []]) _
    demo_one_reachable); reflexivity.
Defined.

(** Two machines with a thread each, both in the call to the network. *)
Definition demo_waiting (i : nat) : mach :=
  Mach (mkBar 1 1 1 false, [Thread Outside 1]) [Caller (rest (fun _ => demo_netq 2) (fun _ _ => 40000) i 0 InNet) true []].
Definition demo_two : cluster :=
  ([demo_waiting 0; demo_waiting 1],
   (<[1 := netq_barrier int_num int_num [9; 9; 9; 9] (fresh_netd 2 1)]> (<[0 := netq_barrier int_num int_num [9; 9; 9; 9] (fresh_netd 2 0)]>
     (start 2 (fun i => Done (0, false, fresh_netd 2 i))).1), ∅)).
Lemma demo_two_reachable : demo_reachable 2%nat 1%nat demo_two.
Proof.
  exists (replicate 2 (Mach (mkBar 1 1 1 false, [Thread Outside 0]) [Caller None false []]), start 2 (fun i => Done (0, false, fresh_netd 2 i))).
  split.
  - split; [done|]. split; [|done]. intros i m [-> _]%lookup_replicate. split; [|done]. exists (fun _ => 0), (fun _ => 0), (mkBar 1 1 1 false). by split.
  - begins 2%nat 0%nat 0%nat. begins 2%nat 1%nat 0%nat.
    bar_does 2%nat 0%nat 0%nat step_call. bar_does 2%nat 1%nat 0%nat step_call. bar_does 2%nat 0%nat 0%nat step_pass. bar_does 2%nat 1%nat 0%nat step_pass.
    take_step (step_net_call int_num int_num (fun _ => demo_netq 2) (fun _ _ => 40000) demo_junk 0 0).
    take_step (step_net_call int_num int_num (fun _ => demo_netq 2) (fun _ _ => 40000) demo_junk 1 0).
    apply rtc_refl.
Qed.

Lemma mpi_barrier_progress_witness :
  exists i m t x, demo_two.1 !! i = Some m /\ callers m !! t = Some x /\ can_go_on demo_two.2 i t m x.
Proof.
  apply (mpi_barrier_progress int_num int_num (fun _ => demo_netq 2) (fun _ _ => 40000) (fresh_netd 2) demo_junk 2 (fun _ => 1%nat)
    ltac:(lia) ltac:(lia) ltac:(intros i Hi; reflexivity) ltac:(intros; discriminate) 2 (-1) (-1) eq_refl (demo_alike 2) ltac:(done)
    demo_two demo_two_reachable).
  intros [|[|i]] m [|t] x Hm Hx; try (by destruct i); injection Hm as <-; try (by destruct t); injection Hx as <-; discriminate.
Defined.
