(* ===== verification/MpiBcast.v ===== *)
(** tmpi_Bcast on a cluster: the threads of several machines call it again and again with
    the same root. On each machine one thread, the root or the first one, takes part in
    the broadcast among machines of file NetdGroup, and is then the root of the broadcast
    object of its machine, file Bcast. *)
From stdpp Require Import relations.
From S2P Require Import Prelude Types MBuffer NetRun NetdGroup NetdTree NetdBcast Netq Allreduce Bcast BcastInv NetRounds MpiColl.

Open Scope Z_scope.

(** ** Threads and machines *)

(** What a thread has still to do in its call, if it is in one; whether it is in the call
    to the network; the codes and buffers of its calls so far. *)
Record caller := Caller { prog : option (coll (Z * list Z)); in_net : bool; results : list (Z * list Z) }.
#[export] Instance eta_caller : Eta caller := MkEta _ (fun r => Caller (prog r) (in_net r) (results r)).

(** A machine: the queue of its local root with the threads in it; the same threads in
    [tmpi_Bcast], the local root and the others. *)
Record mach := Mach { bco : Bcast.system (A:=Z); root_caller : caller; receivers : list caller }.
#[export] Instance eta_mach : Eta mach := MkEta _ (fun r => Mach (bco r) (root_caller r) (receivers r)).

(** What a call of [netq_bcast] comes to. *)
Notation outcome := (Z * list Z * netd_info)%type.
Definition cluster : Type := list mach * config outcome.

(** The buffer at [data] after [tmpi_bco_bcast] has copied [got] into it. *)
Definition copied (got : option (list Z)) (data : list Z) : list Z :=
  match got with Some bs => bs ++ drop (length bs) data | None => data end.
(** A caller whose [tmpi_bco_bcast] has come to [e], if it has returned. *)
Definition advance (c : caller) (k : Z -> list Z -> coll (Z * list Z)) (data : list Z) (e : option (Z * option (list Z))) : caller :=
  match e with Some (ret2, got) => c <| prog := Some (k ret2 (copied got data)) |> | None => c end.

Section Cluster.
(** [nq i]: the tables of machine [i]; [tcomm i t]: the communicator of its thread [t];
    [buf i t k]: the buffer thread [t] of machine [i] passes in its call [k]. *)
Context (nq : nat -> netq) (tcomm : nat -> nat -> Z) (s0 : Z -> netd_info) (root : Z)
  (buf : nat -> nat -> nat -> list Z) (count datatype : nat -> Z).
(** The root is thread [lr] of machine [ir]. *)
Context (ir lr : nat).

Definition local_root (i : nat) : nat := if (i =? ir)%nat then lr else 0.
(** The local rank of receiver [u]. *)
Definition rank_of (i u : nat) : nat := if (u <? local_root i)%nat then u else S u.

Definition call_of (i t k : nat) : coll (Z * list Z) :=
  tmpi_Bcast (nq i) (Z.of_nat t) MPI_COMM_WORLD (tcomm i t) (buf i t k) (count k) (datatype k) root.

Inductive cluster_step : cluster -> cluster -> Prop :=
  | step_begin_root i ms net m : ms !! i = Some m -> prog (root_caller m) = None ->
      let c := root_caller m in
      cluster_step (ms, net) (<[i := m <| root_caller := c <| prog := Some (call_of i (local_root i) (length (results c))) |> |>]> ms, net)
  | step_begin i u ms net m c : ms !! i = Some m -> receivers m !! u = Some c -> prog c = None ->
      cluster_step (ms, net)
        (<[i := m <| receivers := <[u := c <| prog := Some (call_of i (rank_of i u) (length (results c))) |>]> (receivers m) |>]> ms, net)
  | step_root i ms net m data len k nomem q rt rs q' rt' w : ms !! i = Some m -> bco m = (q, rt, rs) ->
      prog (root_caller m) = Some (Bco_bcast (Z.of_nat (local_root i)) data len k) ->
      root_run nomem (take (Z.to_nat len) data) q rt = Moves q' rt' w ->
      cluster_step (ms, net)
        (<[i := Mach (q', rt', wake w <$> rs) (advance (root_caller m) k data (log rt' !! length (log rt))) (receivers m)]> ms, net)
  | step_receiver i u ms net m c data len k q rt rs th q' th' w : ms !! i = Some m -> bco m = (q, rt, rs) ->
      receivers m !! u = Some c -> prog c = Some (Bco_bcast (Z.of_nat (local_root i)) data len k) -> rs !! u = Some th ->
      recv_run (Z.to_nat len) q th = Moves q' th' w ->
      cluster_step (ms, net)
        (<[i := Mach (q', rt, <[u := th']> rs) (root_caller m) (<[u := advance c k data (log th' !! length (log th))]> (receivers m))]> ms, net)
  | step_spurious i u ms net m q rt rs th : ms !! i = Some m -> bco m = (q, rt, rs) -> rs !! u = Some th ->
      cluster_step (ms, net) (<[i := m <| bco := (q, rt, <[u := wake (Some (curitem th)) th]> rs) |>]> ms, net)
  | step_net_call i ms net m data len root' k r : ms !! i = Some m -> prog (root_caller m) = Some (Netq_bcast data len root' k) ->
      in_net (root_caller m) = false -> net.1 !! Z.of_nat i = Some (Done r) ->
      cluster_step (ms, net)
        (<[i := m <| root_caller := root_caller m <| in_net := true |> |>]> ms,
         (<[Z.of_nat i := netq_bcast (nq i) data len root' r.2]> net.1, net.2))
  | step_net i ms net net' : fire i net = Some net' -> cluster_step (ms, net) (ms, net')
  | step_net_return i ms net m data len root' k r : ms !! i = Some m -> prog (root_caller m) = Some (Netq_bcast data len root' k) ->
      in_net (root_caller m) = true -> net.1 !! Z.of_nat i = Some (Done r) ->
      cluster_step (ms, net)
        (<[i := m <| root_caller := root_caller m <| prog := Some (k r.1.1 r.1.2) |> <| in_net := false |> |>]> ms, net)
  | step_return_root i ms net m a : ms !! i = Some m -> prog (root_caller m) = Some (Returns a) ->
      let c := root_caller m in
      cluster_step (ms, net) (<[i := m <| root_caller := c <| prog := None |> <| results := results c ++ [a] |> |>]> ms, net)
  | step_return i u ms net m c a : ms !! i = Some m -> receivers m !! u = Some c -> prog c = Some (Returns a) ->
      cluster_step (ms, net)
        (<[i := m <| receivers := <[u := c <| prog := None |> <| results := results c ++ [a] |>]> (receivers m) |>]> ms, net).

(** [n] machines, machine [i] with a queue at [p i] for [S (T i)] threads, nobody in a call. *)
Definition cluster_start (n : nat) (T : nat -> nat) (p : nat -> Z) (s : cluster) : Prop :=
  length s.1 = n /\
  (forall i m, s.1 !! i = Some m -> bco_start (T i) (p i) (bco m) /\
    root_caller m = Caller None false [] /\ receivers m = replicate (T i) (Caller None false [])) /\
  s.2 = start (Z.of_nat n) (fun i => Done (0, [], s0 i)).
Definition cluster_reachable (n : nat) (T : nat -> nat) (p : nat -> Z) (s : cluster) : Prop :=
  exists s1, cluster_start n T p s1 /\ rtc cluster_step s1 s.

(** ** The invariant *)

(** The machines at the start: alike, but for their numbers; the same table of ranks. *)
Context (n : nat) (T : nat -> nat) (p : nat -> Z) (table : list ID_ENTRY) (lb : Z)
  (some : (1 <= n)%nat) (size_bound : Z.of_nat n <= 2 ^ 30) (root_in : (ir < n)%nat)
  (tables : forall i, (i < n)%nat -> gTable (nq i) = Some table /\ gTableSize (nq i) = Z.of_nat (length table) /\ netd_myid (nq i) = Z.of_nat i)
  (root_at : 0 <= root /\ table !! Z.to_nat root = Some (mkID (Z.of_nat ir) (Z.of_nat lr)))
  (comms : forall i t, tcomm i t <> NULL)
  (alike : forall i, 0 <= i < Z.of_nat n -> machine (Z.of_nat n) i (s0 i) /\ bcast_last_root (s0 i) = lb)
  (addresses : forall i, 8 < p i).

(** The length of call [k] in bytes; all buffers are long enough. *)
Definition buflen (k : nat) : Z := int32 (count k * tmpi_Usize (datatype k)).
Definition size_of (k : nat) : nat := Z.to_nat (buflen k).
Context (room : forall i t k, (i < n)%nat -> (size_of k <= length (buf i t k))%nat).

(** What the root sends in call [k]; what a thread hands to the object of its machine. *)
Definition message (k : nat) : list Z := take (size_of k) (buf ir lr k).
Definition received (i t k : nat) : list Z := message k ++ drop (size_of k) (buf i t k).
Definition given (i t k : nat) : list Z := if (t =? local_root i)%nat then received i t k else buf i t k.
(** What the call comes to, for what [tmpi_bco_bcast] comes to. *)
Definition result_of (i t k : nat) (e : Z * option (list Z)) : Z * list Z := (bcast_code 0 e.1, copied e.2 (given i t k)).

Inductive stage := Idle | Net | InNet | Intra | Left (e : Z * option (list Z)).

Definition intra (i k : nat) (ret1 : Z) (data : list Z) : coll (Z * list Z) :=
  Bco_bcast (Z.of_nat (local_root i)) data (buflen k) (fun ret2 data => Returns (bcast_code ret1 ret2, data)).
Definition rest (i t : nat) (st : stage) (k : nat) : option (coll (Z * list Z)) :=
  match st with
  | Idle => None
  | Net | InNet => Some (Netq_bcast (buf i t k) (buflen k) root (intra i k))
  | Intra => Some (intra i k 0 (given i t k))
  | Left e => Some (Returns (result_of i t k e))
  end.

(** Thread [t] of machine [i] is at [st] after [k] calls; [lg]: the calls of
    [tmpi_bco_bcast] it has returned from. *)
Record caller_ok (i t : nat) (c : caller) (lg : list (Z * option (list Z))) (st : stage) (k : nat) : Prop := CallerOk {
  co_prog : prog c = rest i t st k;
  co_net : in_net c = match st with InNet => true | _ => false end;
  co_results : length (results c) = k;
  co_log : match st with Left e => length lg = S k /\ lg !! k = Some e | _ => length lg = k end;
  co_each : forall j e r, lg !! j = Some e -> results c !! j = Some r -> r = result_of i t j e;
  co_allowed : match st with Net | InNet => t = local_root i | _ => True end
}.

Definition begun (st : stage) (k : nat) : nat := match st with Idle | Net => k | _ => S k end.

Record mach_ok (c : Z -> nat) (net : config outcome) (i : nat) (m : mach) : Prop := MachOk {
  mo_bco : bco_reachable message (fun _ => size_of) (T i) (p i) (bco m);
  mo_len : length (receivers m) = length (bco m).2;
  mo_root : exists st k, caller_ok i (local_root i) (root_caller m) (log (bco m).1.2) st k /\
    c (Z.of_nat i) = begun st k /\ (st <> InNet -> exists r, net.1 !! Z.of_nat i = Some (Done r));
  mo_recv : forall u x th, receivers m !! u = Some x -> (bco m).2 !! u = Some th -> exists st k, caller_ok i (rank_of i u) x (log th) st k
}.

(** The calls of [netq_bcast] on machine [i]. *)
Definition next_bcast (i : Z) (k : nat) (r : outcome) : io outcome :=
  netq_bcast (nq (Z.to_nat i)) (buf (Z.to_nat i) (local_root (Z.to_nat i)) k) (buflen k) root r.2.
Fixpoint state_after (i : Z) (k : nat) : netd_info :=
  match k with O => s0 i | S k' => bcast_state (Z.of_nat n) (Z.of_nat ir) (if k' is O then lb else Z.of_nat ir) (state_after i k') end.
Definition bcast_val (k : nat) (i : Z) : outcome :=
  match k with
  | O => (0, [], s0 i)
  | S k' => (0, received (Z.to_nat i) (local_root (Z.to_nat i)) k', state_after i k)
  end.

Record cluster_inv (c : Z -> nat) (s : cluster) : Prop := ClusterInv {
  ci_len : length s.1 = n;
  ci_mach : forall i m, s.1 !! i = Some m -> mach_ok c s.2 i m;
  ci_run : rtc netstep (start (Z.of_nat n) (fun i => rounds (fun i => (0, [], s0 i)) next_bcast i (c i))) s.2
}.

(** ** The calls *)

Lemma rank_of_not_root i u : rank_of i u <> local_root i.
Proof. unfold rank_of. destruct (Nat.ltb_spec u (local_root i)); lia. Qed.

Lemma given_root i k : given i (local_root i) k = received i (local_root i) k.
Proof. unfold given. by rewrite Nat.eqb_refl. Qed.

Lemma table_root : table !! Z.to_nat root = Some (mkID (Z.of_nat ir) (Z.of_nat lr)) /\ 0 <= root < Z.of_nat (length table).
Proof. destruct root_at as [H0 H]. split; [done|]. apply lookup_lt_Some in H. lia. Qed.

Lemma trans_root i : (i < n)%nat -> netq_transGlobalRank root (nq i) = Ret (0, Some (mkID (Z.of_nat ir) (Z.of_nat lr))) (nq i).
Proof.
  intros Hi. destruct (tables i Hi) as (Ht & Hs & _). destruct table_root as [Hr Hb]. unfold netq_transGlobalRank, table_get. mrun.
  rewrite Hs, Ht, (proj2 (Z.eqb_neq _ (-1))), (proj2 (Z.ltb_ge root 0)) by lia.
  rewrite Z.geb_leb, (proj2 (Z.leb_gt _ root)) by lia. cbn [orb]. by rewrite Hr.
Qed.

Lemma macID_root i : (i < n)%nat -> netq_getMacID root (nq i) = Ret (0, Some (Z.of_nat ir)) (nq i).
Proof.
  intros Hi. destruct (tables i Hi) as (Ht & Hs & _). destruct table_root as [Hr Hb]. unfold netq_getMacID, table_get. mrun.
  rewrite Hs, Ht, (proj2 (Z.eqb_neq _ (-1))), (proj2 (Z.ltb_ge root 0)) by lia.
  rewrite Z.geb_leb, (proj2 (Z.leb_gt _ root)) by lia. cbn [orb]. by rewrite Hr.
Qed.

Lemma local_node i : (i < n)%nat -> netq_isLocalNode root (nq i) = Ret (i =? ir)%nat (nq i).
Proof.
  intros Hi. unfold netq_isLocalNode. rewrite (bind_Ret _ _ _ _ _ (trans_root i Hi)). cbn [macID localID].
  change (0 <? 0) with false. cbv iota. unfold netq_getLocalMacID, gets. mrun. destruct (tables i Hi) as (_ & _ & ->).
  f_equal. destruct (Nat.eqb_spec i ir) as [->|]; [apply Z.eqb_refl|]. apply Z.eqb_neq. lia.
Qed.

Lemma with_local_root_eq {A} i (f : Z -> coll A) : (i < n)%nat -> with_local_root (nq i) root f = f (Z.of_nat (local_root i)).
Proof.
  intros Hi. unfold with_local_root, local_root. rewrite (local_node i Hi). destruct (Nat.eqb_spec i ir) as [->|]; [|done].
  rewrite (trans_root ir Hi). cbn [macID localID]. destruct (tables ir Hi) as (_ & _ & ->). by rewrite Z.eqb_refl.
Qed.

Lemma bcast_call_of i t k : (i < n)%nat ->
  call_of i t k = if (t =? local_root i)%nat then Netq_bcast (buf i t k) (buflen k) root (intra i k) else intra i k 0 (buf i t k).
Proof.
  intros Hi. unfold call_of, tmpi_Bcast. change (MPI_COMM_WORLD =? MPI_COMM_WORLD) with true. cbn [negb].
  rewrite (proj2 (Z.eqb_neq _ _) (comms i t)), (with_local_root_eq i _ Hi).
  destruct (Nat.eqb_spec t (local_root i)) as [->|Hne]; [by rewrite Z.eqb_refl|]. by rewrite (proj2 (Z.eqb_neq _ _)) by lia.
Qed.

(** The broadcasts among machines, one after the other. *)
Lemma state_after_machine i k : 0 <= i < Z.of_nat n ->
  machine (Z.of_nat n) i (state_after i k) /\ bcast_last_root (state_after i k) = (if k is O then lb else Z.of_nat ir).
Proof.
  intros Hi. induction k as [|k [Hm Hl]]; [by apply alike|]. cbn [state_after].
  destruct (bcast_state_ok (Z.of_nat n) (Z.of_nat ir) (if k is O then lb else Z.of_nat ir) i (state_after i k)) as (H1 & H2 & _); try done; lia.
Qed.

Lemma bcast_round k : collective (Z.of_nat n) (fun i => next_bcast i k (bcast_val k i)) (bcast_val (S k)).
Proof.
  assert (forall i, (bcast_val k i).2 = state_after i k) as Hst by (intros i; by destruct k).
  eapply collective_ext; [| |apply (netd_bcast_collective (Z.of_nat n) (Z.of_nat ir) (if k is O then lb else Z.of_nat ir) (size_of k)
    (fun i => buf (Z.to_nat i) (local_root (Z.to_nat i)) k) (fun i => state_after i k)); [lia|lia|intros i Hi; by apply state_after_machine|]].
  - intros i Hi. unfold next_bcast, netq_bcast. rewrite macID_root by lia. by rewrite Hst.
  - intros i Hi. unfold bcast_val, received, NetdBcast.delivered, NetdBcast.message, message. rewrite Nat2Z.id.
    unfold local_root. by rewrite Nat.eqb_refl.
  - intros i Hi. apply room. lia.
Qed.

(** ** Steps of the object of a machine *)

Lemma root_run_log nomem msg q (rt : Bcast.thread Z) q' rt' w : root_run nomem msg q rt = Moves q' rt' w ->
  log rt' = log rt \/ exists e, log rt' = log rt ++ [e].
Proof.
  unfold root_run, bco_call, bch_alloc_run, with_handle. intros H.
  destruct (pc rt); repeat case_match; simplify_eq; cbn [log goes returns upd]; eauto.
Qed.
Lemma recv_run_log len q (th : Bcast.thread Z) q' th' w : recv_run len q th = Moves q' th' w ->
  log th' = log th \/ exists e, log th' = log th ++ [e].
Proof.
  unfold recv_run, bch_free_run, bco_call, with_handle. intros H.
  destruct (pc th); repeat case_match; simplify_eq; cbn [log goes returns upd]; eauto.
Qed.
Lemma wake_log w (th : Bcast.thread Z) : log (wake w th) = log th.
Proof. unfold wake. destruct (pc th), w; try done. by destruct (_ =? _). Qed.

(** ** Every step keeps the invariant *)

Lemma length_sent k : length (message k) = size_of k.
Proof. unfold message. rewrite length_take. pose proof (room ir lr k root_in). lia. Qed.
Lemma take_received i t k : take (size_of k) (received i t k) = message k.
Proof. unfold received. rewrite take_app_length'; [done|]. symmetry. apply length_sent. Qed.

(** A thread in the object of its machine. *)
Lemma in_intra i t c lg st k r data len f : caller_ok i t c lg st k -> prog c = Some (Bco_bcast r data len f) ->
  st = Intra /\ data = given i t k /\ len = buflen k /\ f = (fun ret2 data => Returns (bcast_code 0 ret2, data)).
Proof. intros [H _ _ _ _ _] Hp. rewrite Hp in H. destruct st; try discriminate H. by injection H as -> -> -> ->. Qed.

Lemma caller_advance i t c lg lg' k r data len f : caller_ok i t c lg Intra k -> prog c = Some (Bco_bcast r data len f) ->
  lg' = lg \/ (exists e, lg' = lg ++ [e]) ->
  exists st', caller_ok i t (advance c f data (lg' !! length lg)) lg' st' k /\ (st' = Intra \/ exists e, st' = Left e).
Proof.
  intros Hok Hp Hlg. destruct (in_intra _ _ _ _ _ _ _ _ _ _ Hok Hp) as (_ & -> & -> & ->). destruct Hok as [H1 H2 H3 H4 H5 _].
  destruct Hlg as [->|[e ->]].
  - rewrite lookup_ge_None_2 by lia. exists Intra. split; [|by left]. by split.
  - rewrite lookup_app_r, Nat.sub_diag by lia. destruct e as [ret2 got]. exists (Left (ret2, got)). split; [|right; by eexists].
    split; cbn [advance prog in_net results upd]; try done.
    + rewrite length_app, lookup_app_r by lia. cbn in H4. rewrite H4, Nat.sub_diag. split; [cbn; lia|done].
    + intros j e r' He Hr. apply (H5 j); [|done]. pose proof (lookup_lt_Some (results c) j _ Hr) as Hj. cbn in H4. by rewrite lookup_app_l in He by lia.
Qed.

Lemma caller_begins i t c lg k : (i < n)%nat -> caller_ok i t c lg Idle k -> exists st,
  caller_ok i t (c <| prog := Some (call_of i t (length (results c))) |>) lg st k /\ begun st k = (if st is Net then k else S k) /\
  st = if (t =? local_root i)%nat then Net else Intra.
Proof.
  intros Hi [H1 H2 H3 H4 H5 H6]. exists (if (t =? local_root i)%nat then Net else Intra). split; [|split; [by destruct (t =? _)%nat|done]].
  rewrite H3, (bcast_call_of i t k Hi). destruct (Nat.eqb_spec t (local_root i)) as [->|Hne]; split; try done.
  unfold rest, given. cbn. by rewrite (proj2 (Nat.eqb_neq _ _) Hne).
Qed.

Lemma caller_returns i t c lg st k a : (i < n)%nat -> caller_ok i t c lg st k -> prog c = Some (Returns a) ->
  caller_ok i t (c <| prog := None |> <| results := results c ++ [a] |>) lg Idle (S k) /\ exists e, st = Left e.
Proof.
  intros Hi [H1 H2 H3 H4 H5 H6] Hp. rewrite Hp in H1. destruct st as [| | | |e]; try discriminate H1. injection H1 as ->. split; [|by eexists].
  destruct H4 as [Hl He]. split; cbn [prog in_net results upd]; try done; [rewrite length_app; cbn; lia|].
  intros j e' r Hj Hr. destruct (decide (j = k)) as [->|Hne].
  - rewrite lookup_app_r, H3, Nat.sub_diag in Hr by lia. injection Hr as <-. congruence.
  - assert (j < k)%nat by (apply lookup_lt_Some in Hj; lia). rewrite lookup_app_l in Hr by lia. by apply (H5 j).
Qed.

Lemma set_mach c s i m' : cluster_inv c s -> mach_ok c s.2 i m' -> cluster_inv c (<[i := m']> s.1, s.2).
Proof.
  intros [H1 H2 H3] Hm. split; cbn [fst snd]; rewrite ?length_insert; try done.
  intros j mj Hj. destruct (decide (j = i)) as [->|Hne].
  - rewrite list_lookup_insert_eq in Hj by (apply lookup_lt_Some in Hj; by rewrite length_insert in Hj). by injection Hj as <-.
  - rewrite list_lookup_insert_ne in Hj by done. by apply H2.
Qed.

Lemma mach_number c s i m : cluster_inv c s -> s.1 !! i = Some m -> (i < n)%nat.
Proof. intros HI Hm. rewrite <- (ci_len _ _ HI). by eapply lookup_lt_Some. Qed.

(** The first thread changes, the object does not. *)
Lemma set_root c net i m x : mach_ok c net i m -> (exists st k, caller_ok i (local_root i) x (log (bco m).1.2) st k /\
    c (Z.of_nat i) = begun st k /\ (st <> InNet -> exists r, net.1 !! Z.of_nat i = Some (Done r))) ->
  mach_ok c net i (m <| root_caller := x |>).
Proof. intros [H1 H2 H3 H4] Hx. by split. Qed.

(** A receiver changes. *)
Lemma set_receiver c net i m u x th st k : mach_ok c net i m -> (bco m).2 !! u = Some th ->
  caller_ok i (rank_of i u) x (log th) st k -> mach_ok c net i (m <| receivers := <[u := x]> (receivers m) |>).
Proof.
  intros [H1 H2 H3 H4] Hth Hx. split; cbn [bco root_caller receivers upd]; rewrite ?length_insert; try done.
  intros v y th' Hy Hth'. destruct (decide (v = u)) as [->|Hne].
  - rewrite list_lookup_insert_eq in Hy by (rewrite H2; by eapply lookup_lt_Some). injection Hy as <-. exists st, k. congruence.
  - rewrite list_lookup_insert_ne in Hy by done. by apply (H4 v).
Qed.

Lemma receiver_at c net i m u x : mach_ok c net i m -> receivers m !! u = Some x ->
  exists th st k, (bco m).2 !! u = Some th /\ caller_ok i (rank_of i u) x (log th) st k.
Proof.
  intros HM Hx. destruct (lookup_lt_is_Some_2 (bco m).2 u) as [th Hth]; [rewrite <- (mo_len _ _ _ _ HM); by eapply lookup_lt_Some|].
  destruct (mo_recv _ _ _ _ HM u x th Hx Hth) as (st & k & Hok). by exists th, st, k.
Qed.

Lemma bco_reachable_step k a (b b' : Bcast.system (A:=Z)) : bco_reachable message (fun _ => size_of) k a b ->
  bco_step message (fun _ => size_of) b b' -> bco_reachable message (fun _ => size_of) k a b'.
Proof. intros (b0 & H0 & H) Hs. exists b0. split; [done|]. by eapply rtc_r. Qed.

(** The object's root moves. *)
Lemma root_moves c net i m data len f nomem q rt rs q' rt' w : (i < n)%nat -> mach_ok c net i m -> bco m = (q, rt, rs) ->
  prog (root_caller m) = Some (Bco_bcast (Z.of_nat (local_root i)) data len f) ->
  root_run nomem (take (Z.to_nat len) data) q rt = Moves q' rt' w ->
  mach_ok c net i (Mach (q', rt', wake w <$> rs) (advance (root_caller m) f data (log rt' !! length (log rt))) (receivers m)).
Proof.
  intros Hi [H1 H2 (st & k & Hok & Hc & Hn) H4] Hb Hp Hrun. rewrite Hb in *. cbn [fst snd] in *.
  destruct (in_intra _ _ _ _ _ _ _ _ _ _ Hok Hp) as (-> & -> & -> & ->). pose proof (co_log _ _ _ _ _ _ Hok) as Hlog.
  split; cbn [bco root_caller receivers fst snd].
  - eapply bco_reachable_step; [exact H1|]. cbn in Hlog. eapply (Bcast.step_root _ _ nomem). rewrite Hlog. rewrite given_root in Hrun.
    change (Z.to_nat (buflen k)) with (size_of k) in Hrun. rewrite take_received in Hrun. exact Hrun.
  - by rewrite length_fmap.
  - destruct (caller_advance _ _ _ _ _ _ _ _ _ _ Hok Hp (root_run_log _ _ _ _ _ _ _ Hrun)) as (st' & Hok' & Hst'). exists st', k. split; [exact Hok'|].
    split; [by destruct Hst' as [->|[e ->]]|]. intros _. by apply Hn.
  - intros u x th Hx Hth. rewrite list_lookup_fmap in Hth. destruct (rs !! u) as [th0|] eqn:Hth0; [|done]. injection Hth as <-.
    rewrite wake_log. by apply (H4 u).
Qed.

(** A receiver moves. *)
Lemma receiver_moves c net i m u x data len f q rt rs th q' th' w : mach_ok c net i m -> bco m = (q, rt, rs) ->
  receivers m !! u = Some x -> prog x = Some (Bco_bcast (Z.of_nat (local_root i)) data len f) -> rs !! u = Some th ->
  recv_run (Z.to_nat len) q th = Moves q' th' w ->
  mach_ok c net i (Mach (q', rt, <[u := th']> rs) (root_caller m) (<[u := advance x f data (log th' !! length (log th))]> (receivers m))).
Proof.
  intros [H1 H2 H3 H4] Hb Hx Hp Hth Hrun. rewrite Hb in *. cbn [fst snd] in *. destruct (H4 u x th Hx Hth) as (st & k & Hok).
  destruct (in_intra _ _ _ _ _ _ _ _ _ _ Hok Hp) as (-> & -> & -> & ->). pose proof (co_log _ _ _ _ _ _ Hok) as Hlog.
  split; cbn [bco root_caller receivers fst snd]; rewrite ?length_insert; try done.
  - eapply bco_reachable_step; [exact H1|]. cbn in Hlog. eapply Bcast.step_recv; [exact Hth|]. rewrite Hlog. exact Hrun.
  - intros v y th0 Hy Hth0. destruct (decide (v = u)) as [->|Hne].
    + rewrite list_lookup_insert_eq in Hy by (by eapply lookup_lt_Some). rewrite list_lookup_insert_eq in Hth0 by (by eapply lookup_lt_Some).
      injection Hy as <-. injection Hth0 as <-.
      destruct (caller_advance _ _ _ _ _ _ _ _ _ _ Hok Hp (recv_run_log _ _ _ _ _ _ Hrun)) as (st' & Hok' & _). by exists st', k.
    + rewrite list_lookup_insert_ne in Hy by done. rewrite list_lookup_insert_ne in Hth0 by done. by apply (H4 v).
Qed.

Lemma spurious_moves c net i m u q rt rs th : mach_ok c net i m -> bco m = (q, rt, rs) -> rs !! u = Some th ->
  mach_ok c net i (m <| bco := (q, rt, <[u := wake (Some (curitem th)) th]> rs) |>).
Proof.
  intros [H1 H2 H3 H4] Hb Hth. rewrite Hb in *. cbn [fst snd] in *. split; cbn [bco root_caller receivers upd fst snd]; rewrite ?length_insert; try done.
  - eapply bco_reachable_step; [exact H1|]. by apply Bcast.step_spurious.
  - intros v y th0 Hy Hth0. destruct (decide (v = u)) as [->|Hne].
    + rewrite list_lookup_insert_eq in Hth0 by (by eapply lookup_lt_Some). injection Hth0 as <-. rewrite wake_log. by apply (H4 u).
    + rewrite list_lookup_insert_ne in Hth0 by done. by apply (H4 v).
Qed.

(** The call among machines. *)
Lemma other_mach_ok c c' net net' i m : mach_ok c net i m -> c' (Z.of_nat i) = c (Z.of_nat i) ->
  (forall r, net.1 !! Z.of_nat i = Some (Done r) -> exists r', net'.1 !! Z.of_nat i = Some (Done r')) -> mach_ok c' net' i m.
Proof.
  intros [H1 H2 (st & k & Hok & Hc & Hd) H4] E Hn. split; try done. exists st, k. split; [done|]. split; [congruence|].
  intros H. destruct (Hd H) as [r Hr]. eauto.
Qed.

Lemma net_begins c s i m data len root' f r : cluster_inv c s -> s.1 !! i = Some m -> prog (root_caller m) = Some (Netq_bcast data len root' f) ->
  in_net (root_caller m) = false -> s.2.1 !! Z.of_nat i = Some (Done r) ->
  exists c', cluster_inv c' (<[i := m <| root_caller := root_caller m <| in_net := true |> |>]> s.1,
    (<[Z.of_nat i := netq_bcast (nq i) data len root' r.2]> s.2.1, s.2.2)).
Proof.
  intros HI Hm Hp Hin Hr. pose proof (mach_number _ _ _ _ HI Hm) as Hi. pose proof (ci_mach _ _ HI i m Hm) as HM.
  destruct (mo_root _ _ _ _ HM) as (st & k & Hok & Hc & _). destruct Hok as [H1 H2 H3 H4 H5 H6]. rewrite Hin in H2. rewrite Hp in H1.
  destruct st; try discriminate H1; try discriminate H2. injection H1 as -> -> -> ->. cbn [begun] in Hc.
  set (c' := fun z => if decide (z = Z.of_nat i) then S (c z) else c z). exists c'. split; cbn [fst snd].
  - rewrite length_insert. apply HI.
  - intros u mu Hu. destruct (decide (u = i)) as [->|Hne].
    + rewrite list_lookup_insert_eq in Hu by (rewrite (ci_len _ _ HI); lia). injection Hu as <-.
      destruct HM as [G1 G2 _ G4]. split; try done. exists InNet, k. split; [by split|]. split; [|done]. unfold c'. rewrite decide_True by done. cbn. lia.
    + rewrite list_lookup_insert_ne in Hu by done. eapply other_mach_ok; [exact (ci_mach _ _ HI u mu Hu)| |].
      * unfold c'. by rewrite decide_False by lia.
      * intros r' Hr'. exists r'. cbn [fst]. by rewrite lookup_insert_ne by lia.
  - pose proof (begin_round (Z.of_nat n) _ next_bcast c s.2 (Z.of_nat i) r ltac:(lia) (ci_run _ _ HI) Hr) as H.
    unfold next_bcast in H at 2. rewrite Hc, Nat2Z.id in H. exact H.
Qed.

Lemma net_returns c s i m data len root' f r : cluster_inv c s -> s.1 !! i = Some m -> prog (root_caller m) = Some (Netq_bcast data len root' f) ->
  in_net (root_caller m) = true -> s.2.1 !! Z.of_nat i = Some (Done r) ->
  cluster_inv c (<[i := m <| root_caller := root_caller m <| prog := Some (f r.1.1 r.1.2) |> <| in_net := false |> |>]> s.1, s.2).
Proof.
  intros HI Hm Hp Hin Hr. pose proof (mach_number _ _ _ _ HI Hm) as Hi. pose proof (ci_mach _ _ HI i m Hm) as HM.
  apply set_mach; [done|]. apply set_root; [done|]. destruct (mo_root _ _ _ _ HM) as (st & k & Hok & Hc & _).
  destruct Hok as [H1 H2 H3 H4 H5 H6]. rewrite Hin in H2. destruct st; try discriminate H2. rewrite Hp in H1. injection H1 as -> -> -> ->.
  exists Intra, k. split; [|by eauto].
  assert (r = bcast_val (S k) (Z.of_nat i)) as ->.
  { change (begun InNet k) with (S k) in Hc. rewrite <- Hc. exact (completed_value (Z.of_nat n) _ next_bcast bcast_val (fun _ => eq_refl) bcast_round c s.2 (Z.of_nat i) r (ci_run _ _ HI) ltac:(lia) Hr). }
  split; try done. cbn [bcast_val fst snd prog upd rest]. by rewrite given_root, Nat2Z.id.
Qed.

Lemma net_moves c s i net' : cluster_inv c s -> fire i s.2 = Some net' -> cluster_inv c (s.1, net').
Proof.
  intros HI Hf. split; cbn [fst snd]; [apply HI| |eapply rtc_r; [apply HI|by exists i]].
  intros u mu Hu. eapply other_mach_ok; [exact (ci_mach _ _ HI u mu Hu)|done|].
  intros r Hr. exists r. eapply (Done_stays _ _ 1); [|exact Hr]. eapply nsteps_l; [by exists i|apply nsteps_O].
Qed.

Lemma cluster_step_ok c s s' : cluster_inv c s -> cluster_step s s' -> exists c', cluster_inv c' s'.
Proof.
  intros HI Hs. destruct Hs as [i ms net m Hm Hp x|i u ms net m x Hm Hx Hp|i ms net m data len f nomem q rt rs q' rt' w Hm Hb Hp Hrun
    |i u ms net m x data len f q rt rs th q' th' w Hm Hb Hx Hp Hth Hrun|i u ms net m q rt rs th Hm Hb Hth
    |i ms net m data len root' f r Hm Hp Hin Hr|i ms net net' Hf|i ms net m data len root' f r Hm Hp Hin Hr|i ms net m a Hm Hp x|i u ms net m x a Hm Hx Hp];
    try (pose proof (mach_number _ _ _ _ HI Hm) as Hi; pose proof (ci_mach _ _ HI i m Hm) as HM; cbn [fst snd] in HM).
  - exists c. apply (set_mach c (ms, net)); [done|]. apply set_root; [done|]. destruct (mo_root _ _ _ _ HM) as (st & k & Hok & Hc & Hd).
    pose proof (co_prog _ _ _ _ _ _ Hok) as H1. rewrite Hp in H1. destruct st; try discriminate H1.
    destruct (caller_begins _ _ _ _ _ Hi Hok) as (st' & Hok' & Hb & Hst'). exists st', k. split; [exact Hok'|].
    rewrite Nat.eqb_refl in Hst'. subst st'. split; [exact Hc|]. intros _. by apply Hd.
  - exists c. apply (set_mach c (ms, net)); [done|]. destruct (receiver_at _ _ _ _ _ _ HM Hx) as (th & st & k & Hth & Hok).
    pose proof (co_prog _ _ _ _ _ _ Hok) as H1. rewrite Hp in H1. destruct st; try discriminate H1.
    destruct (caller_begins _ _ _ _ _ Hi Hok) as (st' & Hok' & _). by eapply set_receiver.
  - exists c. apply (set_mach c (ms, net)); [done|]. by eapply root_moves.
  - exists c. apply (set_mach c (ms, net)); [done|]. by eapply receiver_moves.
  - exists c. apply (set_mach c (ms, net)); [done|]. by apply spurious_moves.
  - exact (net_begins c (ms, net) i m data len root' f r HI Hm Hp Hin Hr).
  - exists c. exact (net_moves c (ms, net) i net' HI Hf).
  - exists c. exact (net_returns c (ms, net) i m data len root' f r HI Hm Hp Hin Hr).
  - exists c. apply (set_mach c (ms, net)); [done|]. apply set_root; [done|]. destruct (mo_root _ _ _ _ HM) as (st & k & Hok & Hc & Hd).
    destruct (caller_returns _ _ _ _ _ _ _ Hi Hok Hp) as (Hok' & e & ->). exists Idle, (S k). split; [exact Hok'|].
    split; [exact Hc|]. intros _. by apply Hd.
  - exists c. apply (set_mach c (ms, net)); [done|]. destruct (receiver_at _ _ _ _ _ _ HM Hx) as (th & st & k & Hth & Hok).
    destruct (caller_returns _ _ _ _ _ _ _ Hi Hok Hp) as (Hok' & _). by eapply set_receiver.
Qed.

Lemma cluster_start_ok s : cluster_start n T p s -> cluster_inv (fun _ => 0%nat) s.
Proof.
  intros (Hl & Hm & Hn). split; [done| |rewrite Hn; apply rtc_refl].
  intros i m Hi. destruct (Hm i m Hi) as (Hb & Hr & Hc). pose proof Hb as (q & _ & Hs).
  assert (forall t, caller_ok i t (Caller None false []) [] Idle 0) as Hidle by (intros t; split; try done; cbn; intros j e r He; by rewrite lookup_nil in He).
  split.
  - exists (bco m). split; [done|apply rtc_refl].
  - rewrite Hc, Hs. cbn [snd]. by rewrite !length_replicate.
  - exists Idle, 0%nat. rewrite Hr, Hs. split; [apply Hidle|]. split; [done|]. intros _. rewrite Hn, start_lookup; [eauto|].
    apply lookup_lt_Some in Hi. lia.
  - intros u x th Hx Hth. rewrite Hc in Hx. apply lookup_replicate in Hx as [-> _]. rewrite Hs in Hth. apply lookup_replicate in Hth as [-> _].
    exists Idle, 0%nat. apply Hidle.
Qed.

Lemma cluster_reachable_ok s : cluster_reachable n T p s -> exists c, cluster_inv c s.
Proof.
  intros (s1 & H1 & Hs). apply cluster_start_ok in H1. revert H1. generalize (fun _ : Z => 0%nat).
  induction Hs as [s|s1 s2 s3 H12 _ IH]; intros c Hc; [eauto|]. destruct (cluster_step_ok _ _ _ Hc H12) as [c' Hc']. by eapply IH.
Qed.

(** ** Properties *)

(** The results of thread [t] of a machine. *)
Definition results_at (i t : nat) (m : mach) : option (list (Z * list Z)) :=
  if (t =? local_root i)%nat then Some (results (root_caller m))
  else results <$> receivers m !! (if (t <? local_root i)%nat then t else pred t).

(** What [tmpi_bco_bcast] has come to in the calls of a thread. *)
Lemma results_from c net i m t l : mach_ok c net i m -> results_at i t m = Some l ->
  exists lg, (lg = log (bco m).1.2 /\ t = local_root i \/ (exists u th, (bco m).2 !! u = Some th /\ lg = log th /\ t <> local_root i)) /\
    forall j r, l !! j = Some r -> exists e, lg !! j = Some e /\ r = result_of i t j e.
Proof.
  intros HM Hl. assert (forall x lg st k, caller_ok i t x lg st k -> results x = l -> forall j r, l !! j = Some r ->
    exists e, lg !! j = Some e /\ r = result_of i t j e) as Hall.
  { intros x lg st k [H1 H2 H3 H4 H5 H6] <- j r Hr. destruct (lookup_lt_is_Some_2 lg j) as [e He].
    { apply lookup_lt_Some in Hr. destruct st; lia. }
    exists e. split; [done|]. by apply (H5 j). }
  unfold results_at in Hl. destruct (Nat.eqb_spec t (local_root i)) as [->|Hne].
  - injection Hl as Hl. destruct (mo_root _ _ _ _ HM) as (st & k & Hok & _). exists (log (bco m).1.2). split; [by left|]. by eapply Hall.
  - set (u := if (t <? local_root i)%nat then t else pred t) in *. destruct (receivers m !! u) as [x|] eqn:Hx; [|done]. injection Hl as Hl.
    assert (rank_of i u = t) as Hrk.
    { unfold rank_of, u. destruct (Nat.ltb_spec t (local_root i)) as [H|H].
      - by rewrite (proj2 (Nat.ltb_lt _ _) H).
      - destruct (Nat.ltb_spec (pred t) (local_root i)); lia. }
    destruct (receiver_at _ _ _ _ _ _ HM Hx) as (th & st & k & Hth & Hok). rewrite Hrk in Hok.
    exists (log th). split; [right; by exists u, th|]. by eapply Hall.
Qed.

(** (C8) tmpi_Bcast delivers on the whole cluster: in every reachable state - whatever
    the order in which the threads of each machine move and messages travel, and however
    far some threads are ahead of others - when all calls name the same root, and all threads
    pass the same number of bytes in their call [j] and have room for them, call [j] of every thread of every machine
    either gave MPI_SUCCESS, and the buffer starts with what the root passed in its call
    [j], its rest as it was; or the code of an error, which is then the code of call [j]
    on all threads of that machine. *)
Theorem mpi_bcast_delivers s i m t l j code b : cluster_reachable n T p s -> s.1 !! i = Some m ->
  results_at i t m = Some l -> l !! j = Some (code, b) ->
  (code = MPI_SUCCESS /\ b = message j ++ drop (size_of j) (buf i t j) \/ code = MPI_ERR_BUFFER \/ code = MPI_ERR_INTERN) /\
  forall t' l' r, results_at i t' m = Some l' -> l' !! j = Some r -> r.1 = code.
Proof.
  intros Hs Hm Hl Hj. apply cluster_reachable_ok in Hs as [c HI]. pose proof (ci_mach _ _ HI i m Hm) as HM.
  destruct (rounds_delivered message (fun _ => size_of) (T i) (p i) (bco m) (addresses i) (mo_bco _ _ _ _ HM)) as (R & broken & HR & Hrecv & Hroot).
  assert (forall t l r, results_at i t m = Some l -> l !! j = Some r ->
    match R !! j with
    | Some (Live d) => r = (MPI_SUCCESS, received i t j)
    | Some _ => r.1 = MPI_ERR_BUFFER
    | None => r.1 = MPI_ERR_INTERN
    end) as Hres.
  { clear t l Hl Hj. intros t l r Hl Hj. destruct (results_from _ _ _ _ _ _ HM Hl) as (lg & Hlg & Hall). destruct (Hall j r Hj) as (e & He & ->).
    unfold result_of. destruct Hlg as [[-> ->]|(u & th & Hth & -> & Hne)].
    - specialize (Hroot j e He). destruct (R !! j) as [[| |d]|]; [| | |destruct Hroot as [_ Hroot]]; rewrite Hroot; try done. cbn. by rewrite given_root.
    - specialize (Hrecv u th j e Hth He). destruct (R !! j) as [[| |d]|] eqn:Ej; [| | |destruct Hrecv as [_ Hrecv]]; rewrite Hrecv; try done.
      destruct (HR j _ Ej) as [|[= ->]]; [done|]. cbn. rewrite length_sent, Nat.min_id, take_ge, length_sent by (rewrite length_sent; lia).
      unfold given, received. by rewrite (proj2 (Nat.eqb_neq _ _) Hne). }
  pose proof (Hres t l _ Hl Hj) as H1. split.
  - destruct (R !! j) as [[| |d]|]; cbn in H1; [by auto|by auto| |by auto]. left. by injection H1.
  - intros t' l' r Hl' Hr. pose proof (Hres t' l' r Hl' Hr) as H2. destruct (R !! j) as [[| |d]|]; cbn in *; try congruence. by simplify_eq.
Qed.
End Cluster.

(** ** A small cluster *)

(** One machine, two threads; thread 1 is the root and sends two bytes. *)
Definition demo_netq : netq :=
  mkNetq (Some [mkID 0 0; mkID 0 1]) 2 (Some [0; 1]) 2 false false [] (mkSA 0 0 0 false) 1 0 None [] ∅.
Definition demo_buf (i t k : nat) : list Z := if (t =? 1)%nat then [7; 8; 9] else [1; 2; 3].

Notation demo_step := (cluster_step (fun _ => demo_netq) (fun _ _ => 40000) 1 demo_buf (fun _ => 2) (fun _ => MPI_CHAR) 0 1).
Notation demo_reachable := (cluster_reachable (fun _ => demo_netq) (fun _ _ => 40000) (fresh_netd 1) 1 demo_buf (fun _ => 2) (fun _ => MPI_CHAR) 0 1
  1 (fun _ => 1%nat) (fun _ => 1000)).

Definition demo_queue : tmpi_BCQueue Z := default (mkBcq 0 0 0 ∅ 0) (tmpi_bcq_create 2 (Some 1000)).
Definition demo_start : cluster :=
  ([Mach (demo_queue, Thread Outside 0 0 0 0 0 None [], [Thread Outside 0 0 0 0 0 None []]) (Caller None false []) [Caller None false []]],
   start 1 (fun i => Done (0, [], fresh_netd 1 i))).
Lemma bcast_demo_starts : cluster_start (fresh_netd 1) 1 (fun _ => 1%nat) (fun _ => 1000) demo_start.
Proof.
  split; [done|]. split; [|done]. intros [|i] m Hm; [|by destruct i]. injection Hm as <-. split; [|done].
  exists demo_queue. by split.
Qed.

Ltac compute_state := match goal with |- rtc ?R ?s ?t => let s' := eval vm_compute in s in change (rtc R s' t) end.
Ltac bcast_does c := eapply rtc_l; [eapply c; try reflexivity|compute_state].
Ltac root_goes := eapply rtc_l; [eapply (step_root (fun _ => demo_netq) (fun _ _ => 40000) 1 demo_buf (fun _ => 2) (fun _ => MPI_CHAR) 0 1 0) with (nomem := false); reflexivity|compute_state].
Ltac receiver_goes := eapply rtc_l; [eapply (step_receiver (fun _ => demo_netq) (fun _ _ => 40000) 1 demo_buf (fun _ => 2) (fun _ => MPI_CHAR) 0 1 0 0); reflexivity|compute_state].

Lemma demo_bcast : exists s m, demo_reachable s /\ s.1 !! 0%nat = Some m /\
  results_at 0 1 0 0 m = Some [(0, [7; 8; 3])] /\ results_at 0 1 0 1 m = Some [(0, [7; 8; 9])].
Proof.
  eexists _, _. split; [exists demo_start; split; [exact bcast_demo_starts|]|split; [|split]].
  - bcast_does (step_begin_root (fun _ => demo_netq) (fun _ _ => 40000) 1 demo_buf (fun _ => 2) (fun _ => MPI_CHAR) 0 1 0).
    bcast_does (step_begin (fun _ => demo_netq) (fun _ _ => 40000) 1 demo_buf (fun _ => 2) (fun _ => MPI_CHAR) 0 1 0 0).
    bcast_does (step_net_call (fun _ => demo_netq) (fun _ _ => 40000) 1 demo_buf (fun _ => 2) (fun _ => MPI_CHAR) 0 1 0).
    bcast_does (step_net_return (fun _ => demo_netq) (fun _ _ => 40000) 1 demo_buf (fun _ => 2) (fun _ => MPI_CHAR) 0 1 0).
    do 6 root_goes. do 8 receiver_goes.
    bcast_does (step_return_root (fun _ => demo_netq) (fun _ _ => 40000) 1 demo_buf (fun _ => 2) (fun _ => MPI_CHAR) 0 1 0).
    bcast_does (step_return (fun _ => demo_netq) (fun _ _ => 40000) 1 demo_buf (fun _ => 2) (fun _ => MPI_CHAR) 0 1 0 0).
    apply rtc_refl.
  - reflexivity.
  - vm_compute. reflexivity.
  - vm_compute. reflexivity.
Qed.

Lemma mpi_bcast_delivers_witness : exists s m, demo_reachable s /\ s.1 !! 0%nat = Some m /\
  results_at 0 1 0 0 m = Some [(0, [7; 8; 3])] /\
  (0 = MPI_SUCCESS /\ [7; 8; 3] = message demo_buf (fun _ => 2) (fun _ => MPI_CHAR) 0 1 0 ++ drop (size_of (fun _ => 2) (fun _ => MPI_CHAR) 0) (demo_buf 0 0 0) \/
     0 = MPI_ERR_BUFFER \/ 0 = MPI_ERR_INTERN) /\
  forall t' l' r, results_at 0 1 0 t' m = Some l' -> l' !! 0%nat = Some r -> r.1 = 0.
Proof.
  destruct demo_bcast as (s & m & Hs & Hm & Hl & _). exists s, m. split; [done|]. split; [done|]. split; [done|].
  apply (mpi_bcast_delivers (fun _ => demo_netq) (fun _ _ => 40000) (fresh_netd 1) 1 demo_buf (fun _ => 2) (fun _ => MPI_CHAR) 0 1 1
    (fun _ => 1%nat) (fun _ => 1000) [mkID 0 0; mkID 0 1] (-1)) with (s := s) (l := [(0, [7; 8; 3])]); try done.
  all: match goal with
    | |- forall i : nat, (i < 1)%nat -> _ => intros [|i] Hi; [done|lia]
    | |- forall i : Z, _ => intros i Hi; split; [apply fresh_machine|done]
    | |- forall i t k : nat, _ => intros i t k _; unfold demo_buf; destruct (t =? 1)%nat; vm_compute; lia
    | _ => lia
    end.
Defined.
