(* ===== verification/Node.v ===== *)
(** The state of one node: the parts the point-to-point code works on, loads and
    stores of handles, locks and condition variables. *)
From S2P Require Import Prelude Types TQueue Netq Group Comm.

(** The comparison functions of the queues. *)
Inductive cmp_fn := SQ_CMP | RQ_CMP.

Record tmpi_Channel := mkChannel { ch_lock : bool; ch_rq : Z; ch_sq : Z }.
#[export] Instance eta_tmpi_Channel : Eta tmpi_Channel :=
  MkEta _ (fun r => mkChannel (ch_lock r) (ch_rq r) (ch_sq r)).

(** A node is one machine of the cluster: its threads share this state. A channel
    is known by its index in [tmpi_channel]; [ch_mem] holds the channels by
    address. [signals] logs [thr_cnd_signal] on the condition variable of a
    handle, newest first. *)
Record node := mkNode {
  nq : netq;
  cs : cstate;
  mb : mbuf;
  qm : qmem cmp_fn;
  handles : gmap Z handle;
  data : mem;
  tmpi_channel : option (gmap Z Z);
  tmpi_channel_size : Z;
  ch_mem : gmap Z tmpi_Channel;
  tmpi_inter_msg : StackAllocator;
  signals : list Z
}.
#[export] Instance eta_node : Eta node := MkEta _ (fun r =>
  mkNode (nq r) (cs r) (mb r) (qm r) (handles r) (data r) (tmpi_channel r) (tmpi_channel_size r)
    (ch_mem r) (tmpi_inter_msg r) (signals r)).

Notation NM := (M node).

(** The operations of the components on their part of the node. *)
Definition on_netq {A} (m : M netq A) : NM A := zoom nq (fun x s => s <| nq := x |>) m.
Definition on_comm {A} (m : M cstate A) : NM A := zoom cs (fun x s => s <| cs := x |>) m.
Definition on_mbuf {A} (m : M mbuf A) : NM A := zoom mb (fun x s => s <| mb := x |>) m.
Definition on_queue {A} (m : M (qmem cmp_fn) A) : NM A := zoom qm (fun x s => s <| qm := x |>) m.

(** ** Handles *)

Definition load_handle (p : Z) : NM handle := s ← get; or_fault (handles s !! p).
Definition store_handle (p : Z) (h : handle) : NM unit :=
  modify (fun s => s <| handles := <[p := h]> (handles s) |>).

Definition load_sh (p : Z) : NM SHandle :=
  h ← load_handle p; match h with HS x => mret x | _ => fault end.
Definition load_rh (p : Z) : NM RHandle :=
  h ← load_handle p; match h with HR x => mret x | _ => fault end.
Definition load_rmsh (p : Z) : NM RMSHandle :=
  h ← load_handle p; match h with HM x => mret x | _ => fault end.
Definition upd_sh (p : Z) (f : SHandle -> SHandle) : NM unit :=
  x ← load_sh p; store_handle p (HS (f x)).
Definition upd_rh (p : Z) (f : RHandle -> RHandle) : NM unit :=
  x ← load_rh p; store_handle p (HR (f x)).
Definition upd_rmsh (p : Z) (f : RMSHandle -> RMSHandle) : NM unit :=
  x ← load_rmsh p; store_handle p (HM (f x)).

(** ** Locks and condition variables *)

(** Locking a mutex that is held does not return: a call runs to its end, or to
    the wait that releases the mutex, before another starts. *)
Definition lock_sh (p : Z) : NM unit :=
  x ← load_sh p; if sh_lock x then stuck else upd_sh p (fun x => x <| sh_lock := true |>).
Definition unlock_sh (p : Z) : NM unit := upd_sh p (fun x => x <| sh_lock := false |>).
Definition lock_rh (p : Z) : NM unit :=
  x ← load_rh p; if rh_lock x then stuck else upd_rh p (fun x => x <| rh_lock := true |>).
Definition unlock_rh (p : Z) : NM unit := upd_rh p (fun x => x <| rh_lock := false |>).
Definition signal (p : Z) : NM unit := modify (fun s => s <| signals := p :: signals s |>).

Definition load_channel (c : Z) : NM tmpi_Channel := s ← get; or_fault (ch_mem s !! c).
Definition upd_channel (c : Z) (f : tmpi_Channel -> tmpi_Channel) : NM unit :=
  x ← load_channel c; modify (fun s => s <| ch_mem := <[c := f x]> (ch_mem s) |>).
Definition lock_ch (c : Z) : NM unit :=
  x ← load_channel c; if ch_lock x then stuck else upd_channel c (fun x => x <| ch_lock := true |>).
Definition unlock_ch (c : Z) : NM unit := upd_channel c (fun x => x <| ch_lock := false |>).

(** ** Data *)

Fixpoint store_obytes (m : mem) (a : Z) (bs : obytes) : mem :=
  match bs with
  | [] => m
  | Some b :: bs' => store_obytes (<[a := b]> m) (a + 1) bs'
  | None :: bs' => store_obytes (delete a m) (a + 1) bs'
  end.

Definition copy (dst src n : Z) : NM unit := modify (fun s => s <| data := memcpy (data s) dst src n |>).
Definition recvdata (from addr len : Z) : NM Z :=
  r ← on_netq (netq_recvdata from len);
  modify (fun s => s <| data := store_obytes (data s) addr (snd r) |>);;
  mret (fst r).
