(* ===== verification/IntraSR.v ===== *)
(** Point-to-point communication (intra/intra_sr.c): channels, send and receive
    handles, and starting, waiting for, cancelling and testing a request. *)
From S2P Require Import Prelude Types TQueue Netq Group Comm.
From S2P Require Export Node.

Definition TMPI_GARBAGE_DATA_SIZE : Z := 20.
(** The address of the string the data of a cancelled send is taken from. *)
Definition tmpi_garbage_data : Z := 256.
Definition TMPI_MAX_SHORT_MSG : Z := 3000 * 0x400.
Definition send_types : Z := Z.lor MPI_SEND (Z.lor MPI_PERSISTENT_SEND MPI_IMMEDIATE_SEND).

(** ** Channels *)

Definition tmpi_grank_to_lrank (grank : Z) : NM Z :=
  r ← on_netq (netq_transGlobalRank grank);
  match r with
  | (ret, Some id_entry) =>
      if ret <? 0 then mret (-1)
      else me ← on_netq netq_getLocalMacID;
           mret (if negb (macID id_entry =? me) then -1 else localID id_entry)
  | (_, None) => mret (-1)
  end.

Definition tmpi_intra_get_channel (local_id : Z) : NM Z :=
  s ← get;
  if (local_id <? 0) || (local_id >=? tmpi_channel_size s) then mret NULL
  else match tmpi_channel s with
       | None => mret NULL
       | Some t => or_fault (t !! local_id)
       end.

(** Receiver matching: tag and source may be wildcards. *)
Definition sq_cmp (handle : Common) (context tag src : Z) : Z :=
  if (negb (c_src handle =? src) && negb (src =? MPI_ANY_SOURCE))
     || (negb (c_tag handle =? tag) && negb (tag =? MPI_ANY_TAG))
     || negb (c_context handle =? uint32 context)
  then 1
  else if negb (has (c_stat handle) TMPI_PEND) then 1
  else 0.

Definition rq_cmp (handle : Common) (context tag src : Z) : Z :=
  if (negb (c_src handle =? src) && negb (c_src handle =? MPI_ANY_SOURCE))
     || (negb (c_tag handle =? tag) && negb (c_tag handle =? MPI_ANY_TAG))
     || negb (c_context handle =? uint32 context)
  then 1
  else if negb (has (c_stat handle) TMPI_PEND) then 1
  else 0.

(** A call through the comparison pointer of a queue. Every element of a queue
    holds a handle; memory that holds none compares as different. *)
Definition call_cmp (hs : gmap Z handle) (f : cmp_fn) (item context tag src : Z) : Z :=
  match hs !! item with
  | Some h => match f with
              | SQ_CMP => sq_cmp (common h) context tag src
              | RQ_CMP => rq_cmp (common h) context tag src
              end
  | None => 1
  end.

Definition sizeof_Channel : Z := 32.

Definition tmpi_intra_new_channel : NM Z :=
  np ← on_netq netq_getGlobalSize;
  ch ← on_queue (malloc sizeof_Channel);
  if ch =? NULL then mret NULL
  else
    sq ← on_queue (Q_create (Some SQ_CMP) (Z.max sizeof_SHandle sizeof_RMSHandle) (np + 1));
    rq ← on_queue (Q_create (Some RQ_CMP) sizeof_RHandle (np + 1));
    modify (fun s => s <| ch_mem := <[ch := mkChannel false rq sq]> (ch_mem s) |>);;
    if (sq =? NULL) || (rq =? NULL) then
      when (negb (sq =? NULL)) (on_queue (Q_free sq));;
      when (negb (rq =? NULL)) (on_queue (Q_free rq));;
      modify (fun s => s <| ch_mem := delete ch (ch_mem s) |>);;
      mret NULL
    else mret ch.

Definition tmpi_intra_del_channel (ch : Z) : NM Z :=
  if ch =? NULL then mret 0
  else
    c ← load_channel ch;
    when (negb (ch_sq c =? NULL)) (on_queue (Q_free (ch_sq c)));;
    when (negb (ch_rq c =? NULL)) (on_queue (Q_free (ch_rq c)));;
    modify (fun s => s <| ch_mem := delete ch (ch_mem s) |>);;
    mret 0.

Definition set_channel (i v : Z) : NM unit :=
  s ← get;
  t ← or_fault (tmpi_channel s);
  _ ← or_fault (t !! i);
  modify (fun s => s <| tmpi_channel := Some (<[i := v]> t) |>).
Definition channel_at (i : Z) : NM Z :=
  s ← get; t ← or_fault (tmpi_channel s); or_fault (t !! i).

(** [for (j=j0; j<i; j++) tmpi_intra_del_channel(tmpi_channel[j])], [n] left. *)
Fixpoint del_channels (n : nat) (j : Z) : NM unit :=
  match n with
  | O => mret tt
  | S n' => c ← channel_at j; tmpi_intra_del_channel c;; del_channels n' (j + 1)
  end.

(** The creation loop; the result is whether every channel was created. *)
Fixpoint init_channels (n : nat) (i : Z) : NM bool :=
  match n with
  | O => mret true
  | S n' =>
      c ← tmpi_intra_new_channel;
      set_channel i c;;
      if c =? NULL then del_channels (Z.to_nat i) 0;; mret false
      else init_channels n' (i + 1)
  end.

(** After a failure the array is freed but [tmpi_channel] still points to it:
    an access through it is one to memory that is not the program's. *)
Definition tmpi_intra_init (np : Z) : NM Z :=
  if np <=? 0 then mret (-1)
  else
    modify (fun s => s <| tmpi_channel_size := np |>);;
    a ← on_queue (malloc (np * sizeof_ptr));
    if a =? NULL then modify (fun s => s <| tmpi_channel := None |>);; mret (-1)
    else
      modify (fun s => s <| tmpi_channel := Some (calloc_array np NULL) |>);;
      ok ← init_channels (Z.to_nat np) 0;
      if negb (ok : bool) then modify (fun s => s <| tmpi_channel := Some ∅ |>);; mret (-1)
      else
        modify (fun s => s <| tmpi_inter_msg :=
          mkSA 0 0 ((65535 + CHUNK_SIZE - 1) / CHUNK_SIZE) (sa_nomem (tmpi_inter_msg s)) |>);;
        mret 0.

Fixpoint end_channels (n : nat) (i : Z) : NM unit :=
  match n with
  | O => mret tt
  | S n' =>
      c ← channel_at i;
      when (negb (c =? NULL)) (tmpi_intra_del_channel c;; mret tt);;
      end_channels n' (i + 1)
  end.

Definition tmpi_intra_end : NM unit :=
  modify (fun s => s <| tmpi_inter_msg := mkSA 0 0 0 (sa_nomem (tmpi_inter_msg s)) |>);;
  s ← get;
  end_channels (Z.to_nat (tmpi_channel_size s)) 0;;
  modify (fun s => s <| tmpi_channel := None |> <| tmpi_channel_size := 0 |>).

(** ** Allocation of messages and handles *)

(** Whether a message could be allocated; its contents are built by the caller. *)
Definition tmpi_inter_new_msg : NM bool :=
  s ← get;
  match sa_alloc (tmpi_inter_msg s) with
  | Some sa => modify (fun s => s <| tmpi_inter_msg := sa |>);; mret true
  | None => mret false
  end.
Definition tmpi_inter_free_msg : NM unit :=
  modify (fun s => s <| tmpi_inter_msg := sa_free (tmpi_inter_msg s) |>).

(** The fields of a new handle are indeterminate (-1), its mutex is initialised. *)
Definition fresh_sh : SHandle :=
  mkSHandle (-1) (-1) (-1) (-1) (-1) (-1) (-1) (-1) (-1) (-1) (-1) (-1) (-1) (-1) (-1) false false (-1).
Definition fresh_rh : RHandle :=
  mkRHandle (-1) (-1) (-1) (-1) (-1) (-1) (-1) (-1) (-1) (-1) (-1) (-1) false (-1) (-1) (-1) (-1).
Definition fresh_rmsh : RMSHandle :=
  mkRMSHandle (-1) (-1) (-1) (-1) (-1) (-1) (-1) (-1) (-1) (-1) (-1) (-1) (-1) (-1).

Definition tmpi_intra_new_sh (ch : Z) : NM Z :=
  c ← load_channel ch;
  sh ← on_queue (Q_newElem (ch_sq c));
  when (negb (sh =? NULL)) (store_handle sh (HS fresh_sh));;
  mret sh.

Definition tmpi_intra_new_rh (ch : Z) : NM Z :=
  c ← load_channel ch;
  rh ← on_queue (Q_newElem (ch_rq c));
  when (negb (rh =? NULL)) (store_handle rh (HR fresh_rh));;
  mret rh.

(** Freeing puts the element back on its allocator's list; the handle's memory
    keeps its contents. *)
Definition tmpi_intra_free_sh (ch sh : Z) : NM unit :=
  x ← load_sh sh;
  when (negb (sh_sys_buf x =? NULL))
    (local_id ← tmpi_grank_to_lrank (sh_src x);
     when (local_id >=? 0) (on_mbuf (mb_free local_id (sh_sys_buf x))));;
  c ← load_channel ch;
  on_queue (Q_freeElem (ch_sq c) sh).

Definition tmpi_intra_free_rh (ch rh : Z) : NM unit :=
  _ ← load_rh rh;
  c ← load_channel ch;
  on_queue (Q_freeElem (ch_rq c) rh).

Definition tmpi_intra_new_rmsh (ch : Z) : NM Z :=
  c ← load_channel ch;
  rmsh ← on_queue (Q_newElem (ch_sq c));
  when (negb (rmsh =? NULL)) (store_handle rmsh (HM fresh_rmsh));;
  mret rmsh.

Definition tmpi_intra_free_rmsh (ch rmsh : Z) : NM unit :=
  x ← load_rmsh rmsh;
  when (negb (rms_curdata x =? NULL))
    (local_id ← tmpi_grank_to_lrank (rms_dest x);
     when (local_id >=? 0) (on_mbuf (mb_free local_id (rms_curdata x))));;
  c ← load_channel ch;
  on_queue (Q_freeElem (ch_sq c) rmsh).

Definition tmpi_rq_find (ch context tag src : Z) : NM Z :=
  c ← load_channel ch;
  s ← get;
  on_queue (Q_find (call_cmp (handles s)) (ch_rq c) (int32 context) tag src).
Definition tmpi_sq_find (ch context tag src : Z) : NM Z :=
  c ← load_channel ch;
  s ← get;
  on_queue (Q_find (call_cmp (handles s)) (ch_sq c) (int32 context) tag src).
Definition tmpi_sq_enq (ch sh : Z) : NM unit := c ← load_channel ch; on_queue (enQ (ch_sq c) sh).
Definition tmpi_rq_enq (ch rh : Z) : NM unit := c ← load_channel ch; on_queue (enQ (ch_rq c) rh).

(** ** Creating a request *)

(** The result code and what is stored through [psh], when it is a pointer. *)
Definition tmpi_intra_init_sh (comm buf from to tag datatype count mode : Z)
    (isPersistent isImmediate psh : bool) : NM (Z * Z) :=
  local_id ← tmpi_grank_to_lrank from;
  ch ← tmpi_intra_get_channel local_id;
  tcomm ← on_comm (tmpi_comm_verify comm local_id);
  let len := int32 (tmpi_Usize datatype * count) in
  if negb psh then mret (MPI_ERR_INTERN, MPI_REQUEST_NULL)
  else if ch =? NULL then mret (MPI_ERR_INTERN, MPI_REQUEST_NULL)
  else if len <? 0 then mret (MPI_ERR_INTERN, MPI_REQUEST_NULL)
  else if tcomm =? NULL then mret (MPI_ERR_COMM, MPI_REQUEST_NULL)
  else
    sh ← tmpi_intra_new_sh ch;
    if sh =? NULL then mret (MPI_ERR_INTERN, MPI_REQUEST_NULL)
    else
      c ← on_comm (load_comm tcomm);
      isLocal ← on_netq (netq_isLocalNode to);
      upd_sh sh (fun x => x
        <| sh_type := if isPersistent then MPI_PERSISTENT_SEND
                      else if isImmediate then MPI_IMMEDIATE_SEND else MPI_SEND |>
        <| sh_cookie := MPI_REQUEST_COOKIE |>
        <| sh_stat := TMPI_CREATE |>
        <| sh_context := cm_pt2pt_context c |>
        <| sh_tag := tag |> <| sh_src := from |> <| sh_dest := to |> <| sh_comm := comm |>
        <| sh_curdata := buf |> <| sh_user_buf := buf |> <| sh_sys_buf := NULL |>
        <| sh_buflen := len |> <| sh_count := count |> <| sh_datatype := datatype |>
        <| sh_send_mode := mode |> <| sh_isRemote := negb isLocal |>);;
      when (has mode (Z.lor STANDARD BUFFERED) && (len >? 0))
        (b ← on_mbuf (mb_alloc local_id len); upd_sh sh (fun x => x <| sh_sys_buf := b |>));;
      x ← load_sh sh;
      if (mode =? BUFFERED) && (sh_sys_buf x =? NULL) && (len >? 0)
      then upd_sh sh (fun x => x <| sh_errval := MPI_ERR_BUFFER |>);; mret (MPI_ERR_BUFFER, sh)
      else upd_sh sh (fun x => x <| sh_errval := MPI_SUCCESS |>);; mret (MPI_SUCCESS, sh).

Definition tmpi_intra_init_rh (comm buf from to tag datatype count : Z)
    (isPersistent isImmediate prh : bool) : NM (Z * Z) :=
  local_id ← tmpi_grank_to_lrank to;
  ch ← tmpi_intra_get_channel local_id;
  tcomm ← on_comm (tmpi_comm_verify comm local_id);
  let len := int32 (tmpi_Usize datatype * count) in
  if negb prh then mret (MPI_ERR_INTERN, MPI_REQUEST_NULL)
  else if ch =? NULL then mret (MPI_ERR_INTERN, MPI_REQUEST_NULL)
  else if len <? 0 then mret (MPI_ERR_INTERN, MPI_REQUEST_NULL)
  else if tcomm =? NULL then mret (MPI_ERR_COMM, MPI_REQUEST_NULL)
  else
    rh ← tmpi_intra_new_rh ch;
    if rh =? NULL then mret (MPI_ERR_INTERN, MPI_REQUEST_NULL)
    else
      c ← on_comm (load_comm tcomm);
      when isPersistent
        (upd_rh rh (fun x => x <| rh_perm_source := from |> <| rh_perm_tag := tag |> <| rh_perm_len := len |>));;
      upd_rh rh (fun x => x
        <| rh_type := if isPersistent then MPI_PERSISTENT_RECV
                      else if isImmediate then MPI_IMMEDIATE_RECV else MPI_RECV |>
        <| rh_cookie := MPI_REQUEST_COOKIE |>
        <| rh_stat := TMPI_CREATE |>
        <| rh_context := cm_pt2pt_context c |>
        <| rh_tag := tag |> <| rh_src := from |> <| rh_dest := to |> <| rh_comm := comm |>
        <| rh_data := buf |> <| rh_buflen := len |> <| rh_count := count |>
        <| rh_datatype := datatype |> <| rh_errval := MPI_SUCCESS |>);;
      mret (MPI_SUCCESS, rh).

(** ** Starting a request *)

Definition sh_startable (x : SHandle) : bool :=
  (sh_stat x =? TMPI_CREATE) || ((sh_stat x =? TMPI_FREE) && (sh_type x =? MPI_PERSISTENT_SEND)).
(** The receiver's test names the type of persistent sends. *)
Definition rh_startable (x : RHandle) : bool :=
  (rh_stat x =? TMPI_CREATE) || ((rh_stat x =? TMPI_FREE) && (rh_type x =? MPI_PERSISTENT_SEND)).

(** [memcpy] of a send handle's first [sizeof(tmpi_RMSHandle)] bytes: the word of
    [user_buf] becomes [remote_send_handle]. *)
Definition rms_of_sh (x : SHandle) : RMSHandle :=
  mkRMSHandle (sh_type x) (sh_cookie x) (sh_stat x) (sh_context x) (sh_tag x) (sh_src x) (sh_dest x)
    (sh_comm x) (sh_count x) (sh_curdata x) (sh_buflen x) (sh_send_mode x) (sh_user_buf x) (sh_errval x).

Definition tmpi_inter_start_sh (sh : Z) : NM Z :=
  x ← load_sh sh;
  if negb (sh_startable x) then mret MPI_ERR_INTERN
  else
    request ← tmpi_inter_new_msg;
    if negb (request : bool) then mret MPI_ERR_INTERN
    else
      upd_sh sh (fun x => x <| sh_stat := TMPI_PEND_STRT |>);;
      x ← load_sh sh;
      let body := rms_of_sh x <| rms_remote_send_handle := sh |> <| rms_curdata := NULL |> in
      (if sh_buflen x <? TMPI_MAX_SHORT_MSG then
         s ← get;
         on_netq (netq_send (sh_src x) (sh_dest x) (BRMS (body <| rms_type := MPI_REMOTE_MSGDAT_SEND |>))
           sizeof_MSG (bytes_at (data s) (sh_curdata x) (sh_buflen x)) (sh_buflen x) NETQ_BLK)
       else
         on_netq (netq_send (sh_src x) (sh_dest x) (BRMS (body <| rms_type := MPI_REMOTE_MSG_SEND |>))
           sizeof_MSG [] 0 NETQ_BLK));;
      tmpi_inter_free_msg;;
      mret MPI_SUCCESS.

(** The send handle [sh] meets the posted receive [rh]: the data is copied and both
    become MATCHed; a receiver that waits is woken. *)
Definition send_to_rh (sh rh : Z) : NM unit :=
  upd_sh sh (fun x => x <| sh_stat := TMPI_MATCH |>);;
  lock_rh rh;;
  x ← load_sh sh;
  upd_rh rh (fun y => y <| rh_src := sh_src x |> <| rh_tag := sh_tag x |>
                        <| rh_buflen := Z.min (sh_buflen x) (rh_buflen y) |>);;
  y ← load_rh rh;
  when (negb (rh_buflen y =? 0)) (copy (rh_data y) (sh_curdata x) (rh_buflen y));;
  upd_sh sh (fun x => x <| sh_buflen := rh_buflen y |> <| sh_errval := MPI_SUCCESS |>);;
  (if rh_stat y =? TMPI_PEND_WAIT then
     upd_rh rh (fun y => y <| rh_stat := TMPI_MATCH |>);; signal rh
   else when (rh_stat y =? TMPI_PEND_STRT) (upd_rh rh (fun y => y <| rh_stat := TMPI_MATCH |>)));;
  unlock_rh rh.

Definition tmpi_intra_start_sh (sh : Z) : NM Z :=
  if sh =? NULL then mret MPI_ERR_REQUEST
  else
    x ← load_sh sh;
    if negb (sh_errval x =? MPI_SUCCESS) then mret MPI_ERR_INTERN
    else if sh_isRemote x then tmpi_inter_start_sh sh
    else if negb (sh_startable x) then mret MPI_ERR_INTERN
    else
      local_recv_id ← tmpi_grank_to_lrank (sh_dest x);
      ch ← tmpi_intra_get_channel local_recv_id;
      if ch =? NULL then mret MPI_ERR_INTERN
      else
        lock_ch ch;;
        rh ← tmpi_rq_find ch (sh_context x) (sh_tag x) (sh_src x);
        (if rh =? NULL then
           upd_sh sh (fun x => x <| sh_stat := TMPI_PEND_STRT |>);;
           tmpi_sq_enq ch sh
         else send_to_rh sh rh);;
        unlock_ch ch;;
        mret MPI_SUCCESS.

(** What a finished send keeps for its next start when it is persistent. *)
Definition reset_sh (x : SHandle) : SHandle :=
  x <| sh_curdata := sh_user_buf x |>
    <| sh_buflen := int32 (tmpi_Usize (sh_datatype x) * sh_count x) |>.

(** The receive [rh] meets the queued send [sh] of this node. *)
Definition recv_from_sh (rh sh : Z) : NM unit :=
  lock_sh sh;;
  x ← load_sh sh;
  upd_rh rh (fun y => y <| rh_src := sh_src x |> <| rh_tag := sh_tag x |>
                        <| rh_buflen := Z.min (sh_buflen x) (rh_buflen y) |>);;
  y ← load_rh rh;
  upd_sh sh (fun x => x <| sh_buflen := rh_buflen y |>);;
  upd_rh rh (fun y => y <| rh_stat := TMPI_MATCH |>);;
  when (negb (rh_buflen y =? 0)) (copy (rh_data y) (sh_curdata x) (rh_buflen y));;
  if sh_stat x =? TMPI_PEND_WAIT then
    upd_sh sh (fun x => x <| sh_stat := TMPI_MATCH |>);; signal sh;; unlock_sh sh
  else if sh_stat x =? TMPI_PEND_STRT then
    upd_sh sh (fun x => x <| sh_stat := TMPI_MATCH |>);; unlock_sh sh
  else if sh_stat x =? TMPI_PEND_RELS then
    upd_sh sh (fun x => x <| sh_stat := TMPI_FREE |> <| sh_errval := MPI_SUCCESS |>);;
    if sh_type x =? MPI_PERSISTENT_SEND then upd_sh sh reset_sh;; unlock_sh sh
    else
      lid ← tmpi_grank_to_lrank (sh_src x);
      peer_ch ← tmpi_intra_get_channel lid;
      unlock_sh sh;;
      when (negb (peer_ch =? NULL)) (tmpi_intra_free_sh peer_ch sh)
  else unlock_sh sh.

(** The receive [rh] meets the queued remote send [rmsh]; [ch] is the receiver's
    channel, whose send queue the handle came from. *)
Definition recv_from_rmsh (ch rh rmsh : Z) : NM unit :=
  x ← load_rmsh rmsh;
  when (has (rms_type x) (Z.lor MPI_REMOTE_MSGDAT_SEND MPI_REMOTE_MSG_SEND))
    (response ← tmpi_inter_new_msg;
     upd_rh rh (fun y => y <| rh_src := rms_src x |> <| rh_tag := rms_tag x |>
                           <| rh_buflen := Z.min (rms_buflen x) (rh_buflen y) |>);;
     y ← load_rh rh;
     if rms_type x =? MPI_REMOTE_MSGDAT_SEND then
       when (negb (rh_buflen y =? 0)) (copy (rh_data y) (rms_curdata x) (rh_buflen y));;
       upd_rh rh (fun y => y <| rh_stat := TMPI_MATCH |>);;
       when response
         (on_netq (netq_send (rh_dest y) (rh_src y)
            (BRDR (mkRDRHandle MPI_REMOTE_MSGDAT_RECV (rms_remote_send_handle x) (rh_buflen y) MPI_SUCCESS))
            sizeof_MSG [] 0 NETQ_BLK);;
          tmpi_inter_free_msg)
     else
       upd_rh rh (fun y => y <| rh_stat := TMPI_PEND_DATA |>);;
       when response
         (on_netq (netq_send (rh_dest y) (rh_src y)
            (BRMR (mkRMRHandle MPI_REMOTE_MSG_RECV (rms_remote_send_handle x) rh (rh_buflen y) MPI_SUCCESS))
            sizeof_MSG [] 0 NETQ_BLK);;
          tmpi_inter_free_msg));;
  upd_rmsh rmsh (fun x => x <| rms_stat := TMPI_FREE |>);;
  tmpi_intra_free_rmsh ch rmsh.

Definition tmpi_intra_start_rh (rh : Z) : NM Z :=
  if rh =? NULL then mret MPI_ERR_REQUEST
  else
    y ← load_rh rh;
    if negb (rh_errval y =? MPI_SUCCESS) then mret MPI_ERR_INTERN
    else if negb (rh_startable y) then mret MPI_ERR_INTERN
    else
      local_id ← tmpi_grank_to_lrank (rh_dest y);
      ch ← tmpi_intra_get_channel local_id;
      if ch =? NULL then mret MPI_ERR_INTERN
      else
        lock_ch ch;;
        sh ← tmpi_sq_find ch (rh_context y) (rh_tag y) (rh_src y);
        (if sh =? NULL then
           upd_rh rh (fun y => y <| rh_stat := TMPI_PEND_STRT |>);;
           tmpi_rq_enq ch rh
         else
           h ← load_handle sh;
           if has (c_type (common h)) send_types then recv_from_sh rh sh
           else recv_from_rmsh ch rh sh);;
        unlock_ch ch;;
        mret MPI_SUCCESS.

(** ** Completing a request *)

(** What a completion call returns: its code, the new value of the request, and
    what is stored through the status pointer, if anything. *)
Record completion := Completion { w_ret : Z; w_req : Z; w_status : option MPI_Status }.

(** Where a waiting call sleeps: it gives the handle's mutex up and goes on from
    there when it is woken. *)
Inductive wait_point := AT_INTRA_SYNC | AT_INTER_READY | AT_INTER_SYNC | AT_RECV.
Inductive wait_out := Ready (r : completion) | Sleeping (w : wait_point).

Definition status_sh (status : bool) (x : SHandle) (err : Z) : option MPI_Status :=
  if status then Some (mkStatus (sh_buflen x) (sh_src x) (sh_tag x) err) else None.
Definition status_rh (status : bool) (y : RHandle) : option MPI_Status :=
  if status then Some (mkStatus (rh_buflen y) (rh_src y) (rh_tag y) (rh_errval y)) else None.

(** The end of a send: the handle is freed, or kept for the next start when it is
    persistent; the mutex is released. The result is the new request. *)
Definition finish_sh (sh : Z) : NM Z :=
  upd_sh sh (fun x => x <| sh_stat := TMPI_FREE |> <| sh_errval := MPI_SUCCESS |>);;
  x ← load_sh sh;
  if negb (sh_type x =? MPI_PERSISTENT_SEND) then
    lid ← tmpi_grank_to_lrank (sh_src x);
    peer_ch ← tmpi_intra_get_channel lid;
    unlock_sh sh;;
    when (negb (peer_ch =? NULL)) (tmpi_intra_free_sh peer_ch sh);;
    mret MPI_REQUEST_NULL
  else
    upd_sh sh reset_sh;; unlock_sh sh;; mret sh.

(** What a persistent receive restores. *)
Definition reset_rh (y : RHandle) : RHandle :=
  y <| rh_tag := rh_perm_tag y |> <| rh_src := rh_perm_source y |> <| rh_buflen := rh_perm_len y |>.

Definition finish_rh (rh : Z) : NM Z :=
  upd_rh rh (fun y => y <| rh_stat := TMPI_FREE |> <| rh_errval := MPI_SUCCESS |>);;
  y ← load_rh rh;
  if negb (rh_type y =? MPI_PERSISTENT_RECV) then
    lid ← tmpi_grank_to_lrank (rh_dest y);
    ch ← tmpi_intra_get_channel lid;
    unlock_rh rh;;
    when (negb (ch =? NULL)) (tmpi_intra_free_rh ch rh);;
    mret MPI_REQUEST_NULL
  else
    upd_rh rh reset_rh;; unlock_rh rh;; mret rh.

(** The sender of a buffered message leaves: the data moves to the system buffer
    and the handle is left to whoever receives it. [need_len] is the extra test
    of the testing call. *)
Definition release_sh (sh : Z) (status need_len : bool) : NM completion :=
  x ← load_sh sh;
  r ← (if sh_curdata x =? sh_user_buf x then
         if negb (sh_sys_buf x =? NULL) && (negb need_len || negb (sh_buflen x =? 0)) then
           copy (sh_sys_buf x) (sh_user_buf x) (sh_buflen x);;
           upd_sh sh (fun x => x <| sh_curdata := sh_sys_buf x |>);;
           mret (MPI_SUCCESS, sh_errval x)
         else mret (MPI_ERR_REQUEST, MPI_ERR_BUFFER)
       else mret (MPI_SUCCESS, sh_errval x));
  upd_sh sh (fun x => x <| sh_stat := TMPI_PEND_RELS |>);;
  unlock_sh sh;;
  mret (Completion (fst r) (if negb (sh_type x =? MPI_PERSISTENT_SEND) then MPI_REQUEST_NULL else sh)
                   (status_sh status x (snd r))).

(** The completion of a send that was matched, with the given error value. *)
Definition complete_sh (sh : Z) (status : bool) (ret : Z) (err : SHandle -> Z) : NM completion :=
  x ← load_sh sh;
  req ← finish_sh sh;
  mret (Completion ret req (status_sh status x (err x))).
Definition complete_rh (rh : Z) (status : bool) : NM completion :=
  y ← load_rh rh;
  req ← finish_rh rh;
  mret (Completion MPI_SUCCESS req (status_rh status y)).

Definition is_sync (x : SHandle) : bool :=
  (sh_send_mode x =? SYNC) || ((sh_send_mode x =? STANDARD) && (sh_sys_buf x =? NULL)).
Definition is_buffered (x : SHandle) : bool :=
  (sh_send_mode x =? BUFFERED) || ((sh_send_mode x =? STANDARD) && negb (sh_sys_buf x =? NULL)).

(** *** Waiting for a send to another node *)

Definition inter_waitable : Z := Z.lor TMPI_PEND_STRT (Z.lor TMPI_MATCH (Z.lor TMPI_PEND_NRDY TMPI_PEND_DATA)).

(** After the wait for the receiver's readiness, the mutex held. *)
Definition inter_wait_go (sh : Z) (status : bool) : NM wait_out :=
  x ← load_sh sh;
  if sh_stat x =? TMPI_MATCH then
    r ← complete_sh sh status MPI_SUCCESS sh_errval; mret (Ready r)
  else if sh_stat x =? TMPI_PEND_NRDY then
    r ← complete_sh sh status MPI_ERR_NRDY (fun _ => MPI_ERR_NRDY); mret (Ready r)
  else if is_sync x || (sh_send_mode x =? READY) then
    upd_sh sh (fun x => x <| sh_stat := if sh_stat x =? TMPI_PEND_STRT then TMPI_PEND_WAIT
                                       else TMPI_PEND_DWAT |>);;
    unlock_sh sh;; mret (Sleeping AT_INTER_SYNC)
  else if is_buffered x then
    r ← release_sh sh status false; mret (Ready r)
  else unlock_sh sh;; mret (Ready (Completion MPI_SUCCESS sh None)).

Definition tmpi_inter_wait_sh (sh : Z) (status : bool) : NM wait_out :=
  x ← load_sh sh;
  if negb (has (sh_stat x) inter_waitable) then mret (Ready (Completion MPI_ERR_INTERN sh None))
  else
    lock_sh sh;;
    if (sh_stat x =? TMPI_PEND_STRT) && (sh_send_mode x =? READY)
    then unlock_sh sh;; mret (Sleeping AT_INTER_READY)
    else inter_wait_go sh status.

(** *** Waiting for a send within the node *)

Definition tmpi_intra_wait_sh (sh : Z) (status : bool) : NM wait_out :=
  if sh =? NULL then mret (Ready (Completion MPI_ERR_REQUEST sh None))
  else
    x ← load_sh sh;
    if sh_isRemote x then tmpi_inter_wait_sh sh status
    else if negb (has (sh_stat x) (Z.lor TMPI_PEND_STRT TMPI_MATCH))
    then mret (Ready (Completion MPI_ERR_INTERN sh None))
    else
      lock_sh sh;;
      if sh_stat x =? TMPI_MATCH then
        r ← complete_sh sh status MPI_SUCCESS sh_errval; mret (Ready r)
      else if is_sync x then
        upd_sh sh (fun x => x <| sh_stat := TMPI_PEND_WAIT |>);;
        unlock_sh sh;; mret (Sleeping AT_INTRA_SYNC)
      else if is_buffered x then
        r ← release_sh sh status false; mret (Ready r)
      else if sh_send_mode x =? READY then
        r ← complete_sh sh status MPI_ERR_NRDY (fun _ => MPI_ERR_NRDY); mret (Ready r)
      else unlock_sh sh;; mret (Ready (Completion MPI_SUCCESS sh None)).

(** *** Waiting for a receive *)

Definition recv_waitable : Z := Z.lor TMPI_PEND_STRT (Z.lor TMPI_MATCH TMPI_PEND_DATA).

Definition tmpi_intra_wait_rh (rh : Z) (status : bool) : NM wait_out :=
  if rh =? NULL then mret (Ready (Completion MPI_ERR_REQUEST rh None))
  else
    y ← load_rh rh;
    if negb (has (rh_stat y) recv_waitable) then mret (Ready (Completion MPI_ERR_INTERN rh None))
    else
      lock_rh rh;;
      if rh_stat y =? TMPI_MATCH then r ← complete_rh rh status; mret (Ready r)
      else
        upd_rh rh (fun y => y <| rh_stat := if rh_stat y =? TMPI_PEND_STRT then TMPI_PEND_WAIT
                                           else TMPI_PEND_DWAT |>);;
        unlock_rh rh;; mret (Sleeping AT_RECV).

(** *** Going on after a wake-up: the mutex is taken again and the condition of the
    loop around [thr_cnd_wait] decides. *)
Definition resume_wait (w : wait_point) (p : Z) (status : bool) : NM wait_out :=
  match w with
  | AT_INTRA_SYNC =>
      lock_sh p;;
      x ← load_sh p;
      if sh_stat x =? TMPI_PEND_WAIT then unlock_sh p;; mret (Sleeping w)
      else r ← complete_sh p status MPI_SUCCESS sh_errval; mret (Ready r)
  | AT_INTER_READY =>
      lock_sh p;;
      x ← load_sh p;
      if sh_stat x =? TMPI_PEND_STRT then unlock_sh p;; mret (Sleeping w)
      else inter_wait_go p status
  | AT_INTER_SYNC =>
      lock_sh p;;
      x ← load_sh p;
      if negb (sh_stat x =? TMPI_MATCH) then unlock_sh p;; mret (Sleeping w)
      else r ← complete_sh p status MPI_SUCCESS sh_errval; mret (Ready r)
  | AT_RECV =>
      lock_rh p;;
      y ← load_rh p;
      if negb (rh_stat y =? TMPI_MATCH) then unlock_rh p;; mret (Sleeping w)
      else r ← complete_rh p status; mret (Ready r)
  end.

(** ** Cancelling a request: the result code and the new request *)

Definition tmpi_inter_cancel_sh (sh : Z) : NM (Z * Z) :=
  x ← load_sh sh;
  if negb (has (sh_stat x) inter_waitable) then mret (MPI_ERR_INTERN, sh)
  else
    lock_sh sh;;
    if (sh_stat x =? TMPI_MATCH) || (sh_stat x =? TMPI_PEND_NRDY) then
      req ← finish_sh sh; mret (MPI_SUCCESS, req)
    else
      upd_sh sh (fun x => x <| sh_stat := TMPI_CANCEL |> <| sh_errval := MPI_ERR_CANCEL |>
        <| sh_curdata := tmpi_garbage_data |>
        <| sh_buflen := Z.min (sh_buflen x) TMPI_GARBAGE_DATA_SIZE |>);;
      unlock_sh sh;;
      mret (MPI_SUCCESS, sh).

Definition tmpi_intra_cancel_sh (sh : Z) : NM (Z * Z) :=
  if sh =? NULL then mret (MPI_ERR_REQUEST, sh)
  else
    x ← load_sh sh;
    if sh_isRemote x then tmpi_inter_cancel_sh sh
    else if negb (has (sh_stat x) (Z.lor TMPI_PEND_STRT TMPI_MATCH)) then mret (MPI_ERR_INTERN, sh)
    else
      lock_sh sh;;
      req ← finish_sh sh;
      mret (MPI_SUCCESS, req).

Definition tmpi_intra_cancel_rh (rh : Z) : NM (Z * Z) :=
  if rh =? NULL then mret (MPI_ERR_REQUEST, rh)
  else
    y ← load_rh rh;
    if negb (has (rh_stat y) recv_waitable) then mret (MPI_ERR_INTERN, rh)
    else
      lock_rh rh;;
      if has (rh_stat y) (Z.lor TMPI_MATCH TMPI_PEND_STRT) then
        req ← finish_rh rh; mret (MPI_SUCCESS, req)
      else
        upd_rh rh (fun y => y <| rh_stat := TMPI_CANCEL |>);;
        unlock_rh rh;;
        mret (MPI_SUCCESS, rh).

(** ** Testing a request: the completion and what is stored in [*flag], if anything *)

Definition tmpi_intra_test_sh (sh : Z) (status : bool) : NM (completion * option Z) :=
  if sh =? NULL then mret (Completion MPI_SUCCESS sh None, Some 0)
  else
    x ← load_sh sh;
    if negb (has (sh_stat x) inter_waitable) then mret (Completion MPI_ERR_INTERN sh None, None)
    else
      lock_sh sh;;
      if (sh_stat x =? TMPI_MATCH) || (sh_stat x =? TMPI_PEND_NRDY) then
        r ← complete_sh sh status MPI_SUCCESS sh_errval; mret (r, Some 1)
      else if is_sync x || (sh_send_mode x =? READY) then
        (* the mutex stays locked *)
        mret (Completion MPI_SUCCESS sh None, Some 0)
      else if is_buffered x then
        r ← release_sh sh status true; mret (r, Some 1)
      else unlock_sh sh;; mret (Completion MPI_SUCCESS sh None, Some 0).

Definition tmpi_intra_test_rh (rh : Z) (status : bool) : NM (completion * option Z) :=
  if rh =? NULL then mret (Completion MPI_ERR_REQUEST rh None, Some 0)
  else
    y ← load_rh rh;
    if negb (has (rh_stat y) recv_waitable) then mret (Completion MPI_ERR_INTERN rh None, None)
    else
      lock_rh rh;;
      if rh_stat y =? TMPI_MATCH then
        r ← complete_rh rh status; mret (r, Some 1)
      else unlock_rh rh;; mret (Completion MPI_SUCCESS rh None, Some 0).
