(* ===== verification/InterSR.v ===== *)
(** The receiving side of inter-node communication (intra/inter_sr.c): one handler
    per kind of message, and the dispatcher the network thread calls. *)
From S2P Require Import Prelude Types TQueue Netq Group Comm IntraSR.

(** Reads and drops [len] bytes, at most 1024 at a time. *)
Fixpoint dump_loop (fuel : nat) (from len : Z) : NM unit :=
  match fuel with
  | O => stuck
  | S fuel' =>
      if len >? 0 then
        let m := Z.min len 1024 in
        r ← on_netq (netq_recvdata from m);
        if fst r =? 0 then dump_loop fuel' from (len - m) else mret tt
      else mret tt
  end.
Definition tmpi_dump_data (from len : Z) : NM unit :=
  dump_loop (S (Z.to_nat (len / 1024 + 1))) from len.

(** [netq_send] of a message without payload. *)
Definition send_msg (from to : Z) (body : msg_body) : NM Z :=
  on_netq (netq_send from to body sizeof_MSG [] 0 NETQ_BLK).

(** The common start of the two message handlers: a matching receive takes source,
    tag and length of the message. *)
Definition take_envelope (rh : Z) (handle : RMSHandle) : NM unit :=
  upd_rh rh (fun y => y <| rh_tag := rms_tag handle |> <| rh_src := rms_src handle |>
                        <| rh_buflen := Z.min (rh_buflen y) (rms_buflen handle) |>).

(** The answer to a ready send nobody is ready for. *)
Definition send_nrdy (handle : RMSHandle) : NM Z :=
  send_msg (rms_dest handle) (rms_src handle)
    (BRDR (mkRDRHandle MPI_REMOTE_NRDY (rms_remote_send_handle handle) (rms_buflen handle) MPI_SUCCESS)).

Definition tmpi_rms_handle (handle : RMSHandle) : NM Z :=
  lid ← tmpi_grank_to_lrank (rms_dest handle);
  ch ← tmpi_intra_get_channel lid;
  if ch =? NULL then mret (-1)
  else
    response ← tmpi_inter_new_msg;
    if negb (response : bool) then mret (-1)
    else
      lock_ch ch;;
      rh ← tmpi_rq_find ch (rms_context handle) (rms_tag handle) (rms_src handle);
      (if negb (rh =? NULL) then
         lock_rh rh;;
         take_envelope rh handle;;
         y ← load_rh rh;
         (if rh_stat y =? TMPI_PEND_STRT then upd_rh rh (fun y => y <| rh_stat := TMPI_PEND_DATA |>)
          else when (rh_stat y =? TMPI_PEND_WAIT) (upd_rh rh (fun y => y <| rh_stat := TMPI_PEND_DWAT |>)));;
         unlock_rh rh;;
         unlock_ch ch;;
         y ← load_rh rh;
         send_msg (rms_dest handle) (rms_src handle)
           (BRMR (mkRMRHandle MPI_REMOTE_MSG_RECV (rms_remote_send_handle handle) rh (rh_buflen y) MPI_SUCCESS))
       else
         when (negb (rms_send_mode handle =? READY))
           (rmsh ← tmpi_intra_new_rmsh ch;
            upd_rmsh rmsh (fun _ => handle <| rms_stat := TMPI_PEND |> <| rms_curdata := NULL |>
              <| rms_comm := tmpi_comm_by_context (rms_context handle) |>);;
            tmpi_sq_enq ch rmsh);;
         unlock_ch ch;;
         if rms_send_mode handle =? READY then send_nrdy handle else mret 0);;
      tmpi_inter_free_msg;;
      mret 0.

Definition tmpi_rmds_handle (handle : RMSHandle) : NM Z :=
  local_id ← tmpi_grank_to_lrank (rms_dest handle);
  ch ← tmpi_intra_get_channel local_id;
  if ch =? NULL then mret (-1)
  else
    response ← tmpi_inter_new_msg;
    if negb (response : bool) then mret (-1)
    else
      lock_ch ch;;
      rh ← tmpi_rq_find ch (rms_context handle) (rms_tag handle) (rms_src handle);
      (if negb (rh =? NULL) then
         lock_rh rh;;
         take_envelope rh handle;;
         y ← load_rh rh;
         recvdata (rh_src y) (rh_data y) (rh_buflen y);;
         when (rh_buflen y <? rms_buflen handle)
           (tmpi_dump_data (rh_src y) (rms_buflen handle - rh_buflen y));;
         (if rh_stat y =? TMPI_PEND_STRT then upd_rh rh (fun y => y <| rh_stat := TMPI_MATCH |>)
          else when (rh_stat y =? TMPI_PEND_WAIT)
            (upd_rh rh (fun y => y <| rh_stat := TMPI_MATCH |>);; signal rh));;
         unlock_rh rh;;
         unlock_ch ch;;
         y ← load_rh rh;
         send_msg (rms_dest handle) (rms_src handle)
           (BRDR (mkRDRHandle MPI_REMOTE_MSGDAT_RECV (rms_remote_send_handle handle) (rh_buflen y) MPI_SUCCESS))
       else
         when (negb (rms_send_mode handle =? READY))
           (rmsh ← tmpi_intra_new_rmsh ch;
            upd_rmsh rmsh (fun _ => handle <| rms_stat := TMPI_PEND |>
              <| rms_comm := tmpi_comm_by_context (rms_context handle) |>);;
            b ← on_mbuf (mb_alloc local_id (rms_buflen handle));
            upd_rmsh rmsh (fun x => x <| rms_curdata := b |>);;
            (if b =? NULL then
               upd_rmsh rmsh (fun x => x <| rms_type := MPI_REMOTE_MSG_SEND |>);;
               tmpi_dump_data (rms_src handle) (rms_buflen handle)
             else recvdata (rms_src handle) b (rms_buflen handle);; mret tt);;
            tmpi_sq_enq ch rmsh);;
         unlock_ch ch;;
         if rms_send_mode handle =? READY then
           tmpi_dump_data (rms_src handle) (rms_buflen handle);;
           send_nrdy handle
         else mret 0);;
      tmpi_inter_free_msg;;
      mret 0.

(** The message taken for the response is not given back. *)
Definition tmpi_rds_handle (handle : RDSHandle) : NM Z :=
  response ← tmpi_inter_new_msg;
  if negb (response : bool) then mret (-1)
  else
    let rh := rds_local_recv_handle handle in
    if rh =? NULL then mret (-1)
    else
      y0 ← load_rh rh;
      let src := rh_src y0 in
      let dest := rh_dest y0 in
      lock_rh rh;;
      upd_rh rh (fun y => y <| rh_buflen := Z.min (rh_buflen y) (rds_buflen handle) |>);;
      y ← load_rh rh;
      iscancelled ←
        (if (rh_stat y =? TMPI_PEND_DATA) || (rh_stat y =? TMPI_PEND_DWAT) then
           recvdata src (rh_data y) (rh_buflen y);;
           when (rh_buflen y <? rds_buflen handle) (tmpi_dump_data src (rds_buflen handle - rh_buflen y));;
           upd_rh rh (fun y => y <| rh_stat := TMPI_MATCH |>);;
           when (rh_stat y =? TMPI_PEND_DWAT) (signal rh);;
           unlock_rh rh;;
           mret false
         else if rh_stat y =? TMPI_CANCEL then
           tmpi_dump_data src (rds_buflen handle);;
           upd_rh rh (fun y => y <| rh_stat := TMPI_FREE |> <| rh_errval := MPI_SUCCESS |>);;
           (if rh_type y =? MPI_PERSISTENT_RECV then upd_rh rh reset_rh;; unlock_rh rh
            else
              lid ← tmpi_grank_to_lrank dest;
              ch ← tmpi_intra_get_channel lid;
              unlock_rh rh;;
              when (negb (ch =? NULL)) (tmpi_intra_free_rh ch rh));;
           mret true
         else unlock_rh rh;; mret false);
      y ← load_rh rh;
      send_msg dest src
        (BRDR (mkRDRHandle MPI_REMOTE_DAT_RECV (rds_remote_send_handle handle) (rh_buflen y)
                 (if iscancelled : bool then MPI_ERR_CANCEL else MPI_SUCCESS)));;
      mret 0.

(** Nor is this one. *)
Definition tmpi_rmr_handle (handle : RMRHandle) : NM Z :=
  response ← tmpi_inter_new_msg;
  if negb (response : bool) then mret (-1)
  else
    let sh := rmr_local_send_handle handle in
    if sh =? NULL then mret (-1)
    else
      lock_sh sh;;
      x ← load_sh sh;
      let n := Z.min (sh_buflen x) (rmr_buflen handle) in
      s ← get;
      on_netq (netq_send (sh_src x) (sh_dest x)
        (BRDS (mkRDSHandle MPI_REMOTE_DAT_SEND sh (rmr_remote_recv_handle handle) n MPI_SUCCESS))
        sizeof_MSG (bytes_at (data s) (sh_curdata x) n) n NETQ_BLK);;
      (if sh_stat x =? TMPI_PEND_STRT then
         upd_sh sh (fun x => x <| sh_stat := TMPI_PEND_DATA |>);;
         when (sh_send_mode x =? READY) (signal sh)
       else when (sh_stat x =? TMPI_PEND_WAIT) (upd_sh sh (fun x => x <| sh_stat := TMPI_PEND_DWAT |>)));;
      unlock_sh sh;;
      mret 0.

(** The end of a send whose sender has left or cancelled it; the mutex is released. *)
Definition drop_sh (sh : Z) : NM unit :=
  upd_sh sh (fun x => x <| sh_stat := TMPI_FREE |> <| sh_errval := MPI_SUCCESS |>);;
  x ← load_sh sh;
  if sh_type x =? MPI_PERSISTENT_SEND then upd_sh sh reset_sh;; unlock_sh sh
  else
    lid ← tmpi_grank_to_lrank (sh_src x);
    ch ← tmpi_intra_get_channel lid;
    unlock_sh sh;;
    when (negb (ch =? NULL)) (tmpi_intra_free_sh ch sh).

Definition tmpi_rdr_handle (handle : RDRHandle) : NM Z :=
  let sh := rdr_local_send_handle handle in
  if sh =? NULL then mret (-1)
  else
    lock_sh sh;;
    upd_sh sh (fun x => x <| sh_buflen := rdr_buflen handle |> <| sh_errval := rdr_errval handle |>);;
    x ← load_sh sh;
    (if sh_stat x =? TMPI_PEND_DATA then
       upd_sh sh (fun x => x <| sh_stat := TMPI_MATCH |>);; unlock_sh sh
     else if sh_stat x =? TMPI_PEND_DWAT then
       upd_sh sh (fun x => x <| sh_stat := TMPI_MATCH |>);; signal sh;; unlock_sh sh
     else if negb (sh_stat x =? TMPI_CANCEL) && negb (sh_stat x =? TMPI_PEND_RELS) then unlock_sh sh
     else drop_sh sh);;
    mret 0.

Definition tmpi_rmdr_handle (handle : RDRHandle) : NM Z :=
  let sh := rdr_local_send_handle handle in
  if sh =? NULL then mret (-1)
  else
    lock_sh sh;;
    upd_sh sh (fun x => x <| sh_buflen := rdr_buflen handle |> <| sh_errval := rdr_errval handle |>);;
    x ← load_sh sh;
    (if sh_stat x =? TMPI_PEND_STRT then
       upd_sh sh (fun x => x <| sh_stat := TMPI_MATCH |>);;
       when (sh_send_mode x =? READY) (signal sh);; unlock_sh sh
     else if sh_stat x =? TMPI_PEND_WAIT then
       upd_sh sh (fun x => x <| sh_stat := TMPI_MATCH |>);; signal sh;; unlock_sh sh
     else if negb (sh_stat x =? TMPI_CANCEL) && negb (sh_stat x =? TMPI_PEND_RELS) then unlock_sh sh
     else drop_sh sh);;
    mret 0.

Definition tmpi_rndy_handle (handle : RDRHandle) : NM Z :=
  let sh := rdr_local_send_handle handle in
  if sh =? NULL then mret (-1)
  else
    lock_sh sh;;
    upd_sh sh (fun x => x <| sh_errval := rdr_errval handle |>);;
    x ← load_sh sh;
    when (sh_stat x =? TMPI_PEND_STRT)
      (upd_sh sh (fun x => x <| sh_stat := TMPI_PEND_NRDY |>);; signal sh);;
    unlock_sh sh;;
    mret 0.

(** ** The dispatcher *)

Definition DBG_INFO : Z := 50.
Definition tmpi_debug (debug_level level : Z) : bool := negb (level <=? debug_level).

(** The consistency checks made when messages at [DBG_INFO] are printed, as is the
    default: whether the message passes. *)
Definition body_src (b : msg_body) : option Z := match b with BRMS h => Some (rms_src h) | _ => None end.
Definition body_dest (b : msg_body) : option Z := match b with BRMS h => Some (rms_dest h) | _ => None end.
Definition msg_checks (from to : Z) (body : msg_body) (msglen payloadsize : Z) : bool :=
  negb (has (body_type body) MPI_REMOTE_MSG_SEND &&
        negb (bool_decide (body_src body = Some from) && bool_decide (body_dest body = Some to)))
  && (msglen =? sizeof_MSG)
  && match body with
     | BRMS h => if body_type body =? MPI_REMOTE_MSGDAT_SEND then rms_buflen h =? payloadsize
                 else payloadsize =? 0
     | BRDS h => if body_type body =? MPI_REMOTE_DAT_SEND then rds_buflen h =? payloadsize
                 else payloadsize =? 0
     | _ => payloadsize =? 0
     end.

(** A body whose first word does not fit its layout cannot be sent. *)
Definition tmpi_inter_msg_handle (debug_level from to : Z) (body : msg_body) (msglen payloadsize : Z) : NM Z :=
  if tmpi_debug debug_level DBG_INFO && negb (msg_checks from to body msglen payloadsize)
  then mret (-1)
  else
    let ty := body_type body in
    match body with
    | BRMS h =>
        if ty =? MPI_REMOTE_MSG_SEND then tmpi_rms_handle h
        else if ty =? MPI_REMOTE_MSGDAT_SEND then tmpi_rmds_handle h
        else fault
    | BRDS h => if ty =? MPI_REMOTE_DAT_SEND then tmpi_rds_handle h else fault
    | BRMR h => if ty =? MPI_REMOTE_MSG_RECV then tmpi_rmr_handle h else fault
    | BRDR h =>
        if ty =? MPI_REMOTE_DAT_RECV then tmpi_rdr_handle h
        else if ty =? MPI_REMOTE_MSGDAT_RECV then tmpi_rmdr_handle h
        else if ty =? MPI_REMOTE_NRDY then tmpi_rndy_handle h
        else fault
    end.
