(* ===== verification/MpiSR.v ===== *)
(** The MPI point-to-point calls (mpi/pt2pt/mpi_sr.c). The calling process is
    [myid], its local number ([ukey_getid]). A call that blocks gives back where it
    sleeps and the request it waits for; [resume] goes on with it. *)
From S2P Require Import Prelude Types Netq IntraSR.

Definition SEND_MASK : Z := Z.lor MPI_SEND (Z.lor MPI_PERSISTENT_SEND MPI_IMMEDIATE_SEND).

(** Returned with a code and a status, or asleep on a request. *)
Inductive call_out :=
  | Done (ret : Z) (status : option MPI_Status)
  | Blocked (w : wait_point) (req : Z) (status : bool).

Definition call_of (req : Z) (status : bool) (o : wait_out) : call_out :=
  match o with
  | Ready r => Done (w_ret r) (w_status r)
  | Sleeping w => Blocked w req status
  end.

(** A sleeping call that is woken. *)
Definition resume (o : call_out) : NM call_out :=
  match o with
  | Done _ _ => mret o
  | Blocked w req status => r ← resume_wait w req status; mret (call_of req status r)
  end.

Definition isSendRequest (req : Z) : NM bool :=
  h ← load_handle req; mret (has (c_type (common h)) SEND_MASK).

(** ** Requests *)

(** The result code and the new request. A test that fails leaves its flag
    indeterminate. *)
Definition tmpi_Request_free_sh (sh : Z) : NM (Z * Z) :=
  if sh =? NULL then mret (MPI_SUCCESS, sh)
  else
    lock_sh sh;;
    x ← load_sh sh;
    if has (sh_stat x) (Z.lor TMPI_FREE TMPI_CREATE) then
      unlock_sh sh;;
      lid ← tmpi_grank_to_lrank (sh_src x);
      ch ← tmpi_intra_get_channel lid;
      when (negb (ch =? NULL)) (tmpi_intra_free_sh ch sh);;
      mret (MPI_SUCCESS, MPI_REQUEST_NULL)
    else
      unlock_sh sh;;
      t ← tmpi_intra_test_sh sh false;
      match snd t with
      | None => fault
      | Some flag =>
          let sh := w_req (fst t) in
          if negb (flag =? 0) then
            if sh =? NULL then mret (MPI_SUCCESS, sh)
            else
              x ← load_sh sh;
              lid ← tmpi_grank_to_lrank (sh_src x);
              ch ← tmpi_intra_get_channel lid;
              when (negb (ch =? NULL)) (tmpi_intra_free_sh ch sh);;
              mret (MPI_SUCCESS, MPI_REQUEST_NULL)
          else mret (MPI_ERR_REQUEST, sh)
      end.

Definition tmpi_Request_free_rh (rh : Z) : NM (Z * Z) :=
  if rh =? NULL then mret (MPI_SUCCESS, rh)
  else
    lock_rh rh;;
    y ← load_rh rh;
    if has (rh_stat y) (Z.lor TMPI_FREE TMPI_CREATE) then
      unlock_rh rh;;
      lid ← tmpi_grank_to_lrank (rh_dest y);
      ch ← tmpi_intra_get_channel lid;
      when (negb (ch =? NULL)) (tmpi_intra_free_rh ch rh);;
      mret (MPI_SUCCESS, MPI_REQUEST_NULL)
    else
      unlock_rh rh;;
      t ← tmpi_intra_test_rh rh false;
      match snd t with
      | None => fault
      | Some flag =>
          let rh := w_req (fst t) in
          if negb (flag =? 0) then
            if rh =? NULL then mret (MPI_SUCCESS, rh)
            else
              y ← load_rh rh;
              lid ← tmpi_grank_to_lrank (rh_dest y);
              ch ← tmpi_intra_get_channel lid;
              when (negb (ch =? NULL)) (tmpi_intra_free_rh ch rh);;
              mret (MPI_SUCCESS, MPI_REQUEST_NULL)
          else mret (MPI_ERR_REQUEST, rh)
      end.

Definition tmpi_Request_free (req : Z) : NM (Z * Z) :=
  if req =? MPI_REQUEST_NULL then mret (MPI_SUCCESS, req)
  else
    b ← isSendRequest req;
    if (b : bool) then tmpi_Request_free_sh req else tmpi_Request_free_rh req.

Definition tmpi_Start (req : Z) : NM Z :=
  if req =? MPI_REQUEST_NULL then mret MPI_SUCCESS
  else
    b ← isSendRequest req;
    if (b : bool) then tmpi_intra_start_sh req else tmpi_intra_start_rh req.

Definition tmpi_Wait (req : Z) (status : bool) : NM wait_out :=
  if req =? MPI_REQUEST_NULL then mret (Ready (Completion MPI_SUCCESS req None))
  else
    b ← isSendRequest req;
    if (b : bool) then tmpi_intra_wait_sh req status else tmpi_intra_wait_rh req status.

Definition tmpi_Cancel (req : Z) : NM (Z * Z) :=
  if req =? MPI_REQUEST_NULL then mret (MPI_SUCCESS, req)
  else
    b ← isSendRequest req;
    if (b : bool) then tmpi_intra_cancel_sh req else tmpi_intra_cancel_rh req.

(** A null request leaves [*flag] alone. *)
Definition tmpi_Test (req : Z) (status : bool) : NM (completion * option Z) :=
  if req =? MPI_REQUEST_NULL then mret (Completion MPI_SUCCESS req None, None)
  else
    b ← isSendRequest req;
    if (b : bool) then tmpi_intra_test_sh req status else tmpi_intra_test_rh req status.

(** ** Sending *)

Section Sends.
Context (myid message count datatype peer tag comm : Z).

Definition my_global_id (k : Z -> NM (Z * Z)) : NM (Z * Z) :=
  r ← on_netq (netq_transLocalRank myid);
  match r with
  | (ret, Some g) => if ret <? 0 then mret (MPI_ERR_INTERN, MPI_REQUEST_NULL) else k g
  | (_, None) => mret (MPI_ERR_INTERN, MPI_REQUEST_NULL)
  end.

(** Creates and starts a request; on an error it is freed and the request null. *)
Definition send_start (mode : Z) (isImmediate : bool) : NM (Z * Z) :=
  my_global_id (fun my_global_id =>
    i ← tmpi_intra_init_sh comm message my_global_id peer tag datatype count mode false isImmediate true;
    if negb (fst i =? MPI_SUCCESS) then
      _ ← tmpi_Request_free_sh (snd i); mret (fst i, MPI_REQUEST_NULL)
    else
      ret ← tmpi_intra_start_sh (snd i);
      if negb (ret =? MPI_SUCCESS) then
        _ ← tmpi_Request_free_sh (snd i); mret (ret, MPI_REQUEST_NULL)
      else mret (MPI_SUCCESS, snd i)).

Definition recv_start (isImmediate : bool) : NM (Z * Z) :=
  my_global_id (fun my_global_id =>
    i ← tmpi_intra_init_rh comm message peer my_global_id tag datatype count false isImmediate true;
    if negb (fst i =? MPI_SUCCESS) then
      _ ← tmpi_Request_free_rh (snd i); mret (fst i, MPI_REQUEST_NULL)
    else
      ret ← tmpi_intra_start_rh (snd i);
      if negb (ret =? MPI_SUCCESS) then
        _ ← tmpi_Request_free_rh (snd i); mret (ret, MPI_REQUEST_NULL)
      else mret (MPI_SUCCESS, snd i)).

(** A blocking call: start, then wait. *)
Definition send_wait (mode : Z) : NM call_out :=
  r ← send_start mode false;
  if negb (fst r =? MPI_SUCCESS) then mret (Done (fst r) None)
  else o ← tmpi_intra_wait_sh (snd r) false; mret (call_of (snd r) false o).

(** A persistent request: only created. *)
Definition send_init (mode : Z) : NM (Z * Z) :=
  my_global_id (fun my_global_id =>
    i ← tmpi_intra_init_sh comm message my_global_id peer tag datatype count mode true false true;
    if negb (fst i =? MPI_SUCCESS) then
      _ ← tmpi_Request_free_sh (snd i); mret (fst i, MPI_REQUEST_NULL)
    else mret i).

Definition tmpi_Send : NM call_out := send_wait STANDARD.
Definition tmpi_Isend : NM (Z * Z) := send_start STANDARD true.
Definition tmpi_Send_init : NM (Z * Z) := send_init STANDARD.
Definition tmpi_Bsend : NM call_out := send_wait BUFFERED.
Definition tmpi_Ibsend : NM (Z * Z) := send_start BUFFERED true.
Definition tmpi_Bsend_init : NM (Z * Z) := send_init BUFFERED.
Definition tmpi_Rsend : NM call_out := send_wait READY.
Definition tmpi_Irsend : NM (Z * Z) := send_start READY true.
Definition tmpi_Rsend_init : NM (Z * Z) := send_init READY.
Definition tmpi_Ssend : NM call_out := send_wait SYNC.
Definition tmpi_Issend : NM (Z * Z) := send_start SYNC true.
Definition tmpi_Ssend_init : NM (Z * Z) := send_init SYNC.

Definition tmpi_Recv (status : bool) : NM call_out :=
  r ← recv_start false;
  if negb (fst r =? MPI_SUCCESS) then mret (Done (fst r) None)
  else o ← tmpi_intra_wait_rh (snd r) status; mret (call_of (snd r) status o).
Definition tmpi_Irecv : NM (Z * Z) := recv_start true.

(** Creates an immediate request, not a persistent one. *)
Definition tmpi_Recv_init : NM (Z * Z) :=
  my_global_id (fun my_global_id =>
    i ← tmpi_intra_init_rh comm message peer my_global_id tag datatype count false true true;
    if negb (fst i =? MPI_SUCCESS) then
      _ ← tmpi_Request_free_rh (snd i); mret (fst i, MPI_REQUEST_NULL)
    else mret i).
End Sends.

(** ** Several requests: the code, the array of requests after the call, and what
    else the call stores. *)

Fixpoint tmpi_Startall (reqs : list Z) : NM Z :=
  match reqs with
  | [] => mret MPI_SUCCESS
  | r :: rs =>
      ret0 ← tmpi_Start r;
      ret ← tmpi_Startall rs;
      (* the last error wins *)
      mret (if negb (ret =? MPI_SUCCESS) then ret else ret0)
  end.

(** The loop all testing calls share: every request is tested once, with [flag0] as
    the flag's value before each test; the results in order. *)
Fixpoint test_each (reqs : list Z) (status : bool) (flag0 : Z) : NM (list (completion * Z)) :=
  match reqs with
  | [] => mret []
  | r :: rs =>
      t ← tmpi_Test r status;
      ts ← test_each rs status flag0;
      mret ((fst t, default flag0 (snd t)) :: ts)
  end.
(** The last error of a list of codes. *)
Definition last_error (l : list Z) : Z :=
  foldl (fun ret ret0 => if negb (ret0 =? MPI_SUCCESS) then ret0 else ret) MPI_SUCCESS l.
(** The indices, from [i], whose flag is set. *)
Fixpoint flagged (l : list (completion * Z)) (i : Z) : list Z :=
  match l with
  | [] => []
  | (_, f) :: l' => if negb (f =? 0) then i :: flagged l' (i + 1) else flagged l' (i + 1)
  end.

Definition tmpi_Testall (reqs : list Z) (status : bool) : NM (Z * Z * list completion) :=
  ts ← test_each reqs status 1;
  mret (last_error (w_ret ∘ fst <$> ts),
        if forallb (fun t => negb (snd t =? 0)) ts then 1 else 0, fst <$> ts).

Definition tmpi_Testsome (reqs : list Z) (status : bool) : NM (Z * list Z * list completion) :=
  ts ← test_each reqs status 0;
  mret (last_error (w_ret ∘ fst <$> ts), flagged ts 0, fst <$> ts).

(** The loop of [Testany] and [Waitany]: the code so far, and the first request whose
    test sets the flag: its index, its own code and its completion. *)
Fixpoint test_first (reqs : list Z) (status : bool) (i ret : Z) : NM (Z * option (Z * completion)) :=
  match reqs with
  | [] => mret (ret, None)
  | r :: rs =>
      t ← tmpi_Test r status;
      let ret := if negb (w_ret (fst t) =? MPI_SUCCESS) then w_ret (fst t) else ret in
      if negb (default 0 (snd t) =? 0) then mret (ret, Some (i, fst t))
      else test_first rs status (i + 1) ret
  end.

Definition tmpi_Testany (reqs : list Z) (status : bool) : NM (Z * option (Z * completion)) :=
  r ← test_first reqs status 0 MPI_SUCCESS;
  mret (match snd r with Some (i, c) => w_ret c | None => fst r end, snd r).

(** Waiting for any: the first completed, or else the first of the array. *)
Definition tmpi_Waitany (reqs : list Z) (status : bool) : NM (Z * Z * wait_out) :=
  r ← test_first reqs status 0 MPI_SUCCESS;
  match snd r with
  | Some (i, c) => mret (fst r, i, Ready c)
  | None =>
      match reqs with
      | req :: _ =>
          o ← tmpi_Wait req status;
          mret (match o with Ready c => w_ret c | Sleeping _ => MPI_SUCCESS end, 0, o)
      | [] => fault
      end
  end.

(** Waiting for all, from request [i] on: the requests before it are done; a
    sleeping call goes on with the rest when its request completes. *)
Fixpoint tmpi_Waitall (reqs : list Z) (status : bool) (ret : Z) : NM (Z * list Z * option wait_point) :=
  match reqs with
  | [] => mret (ret, [], None)
  | r :: rs =>
      o ← tmpi_Wait r status;
      match o with
      | Sleeping w => mret (ret, r :: rs, Some w)
      | Ready c =>
          tmpi_Waitall rs status (if negb (w_ret c =? MPI_SUCCESS) then w_ret c else ret)
      end
  end.

(** Testing every request; if none is complete, waiting for the first, then testing the
    others: the code, the indices of the completed and their completions, or asleep
    on the first with the code so far and the requests. *)
Inductive some_out :=
  | SomeDone (ret : Z) (indice : list Z) (stats : list completion)
  | SomeAsleep (ret : Z) (reqs : list Z) (w : wait_point).

Definition worse (ret : Z) (l : list Z) : Z :=
  let e := last_error l in if negb (e =? MPI_SUCCESS) then e else ret.

(** From the return of [tmpi_Wait] on the first request. *)
Definition waitsome_rest (ret : Z) (reqs : list Z) (status : bool) (c : completion) : NM some_out :=
  ts ← test_each (tail reqs) status 0;
  mret (SomeDone (worse (worse ret [w_ret c]) (w_ret ∘ fst <$> ts)) (0 :: flagged ts 1) (c :: (fst <$> ts))).

Definition tmpi_Waitsome (reqs : list Z) (status : bool) : NM some_out :=
  ts ← test_each reqs status 0;
  let ret := last_error (w_ret ∘ fst <$> ts) in
  match flagged ts 0 with
  | _ :: _ => mret (SomeDone ret (flagged ts 0) (fst <$> ts))
  | [] =>
      let reqs := w_req ∘ fst <$> ts in
      match reqs with
      | [] => fault
      | req :: _ =>
          o ← tmpi_Wait req status;
          match o with
          | Ready c => waitsome_rest ret reqs status c
          | Sleeping w => mret (SomeAsleep ret reqs w)
          end
      end
  end.

(** A sleeping call whose first request is signalled. *)
Definition waitsome_resume (status : bool) (o : some_out) : NM some_out :=
  match o with
  | SomeDone _ _ _ => mret o
  | SomeAsleep ret reqs w =>
      match reqs with
      | [] => fault
      | req :: _ =>
          o ← resume_wait w req status;
          match o with
          | Ready c => waitsome_rest ret reqs status c
          | Sleeping w => mret (SomeAsleep ret reqs w)
          end
      end
  end.

(** ** Sending and receiving in one call *)

(** Returned, or asleep on the request of the send (the other one is the receive's), or
    on the request of the receive with the code of the send. *)
Inductive sendrecv_out :=
  | SrDone (ret : Z) (status : option MPI_Status)
  | SrSend (w : wait_point) (req1 req2 : Z)
  | SrRecv (ret1 : Z) (w : wait_point) (req2 : Z).

Definition sendrecv_ret (ret1 ret2 : Z) : Z :=
  if negb (ret1 =? MPI_SUCCESS) then ret1 else if negb (ret2 =? MPI_SUCCESS) then ret2 else MPI_SUCCESS.
Definition sendrecv_last (ret1 req2 : Z) (o : wait_out) : sendrecv_out :=
  match o with
  | Ready c => SrDone (sendrecv_ret ret1 (w_ret c)) (w_status c)
  | Sleeping w => SrRecv ret1 w req2
  end.
Definition sendrecv_wait2 (ret1 req2 : Z) (status : bool) : NM sendrecv_out :=
  o ← tmpi_Wait req2 status; mret (sendrecv_last ret1 req2 o).
Definition sendrecv_first (req1 req2 : Z) (status : bool) (o : wait_out) : NM sendrecv_out :=
  match o with
  | Ready c => sendrecv_wait2 (w_ret c) req2 status
  | Sleeping w => mret (SrSend w req1 req2)
  end.

Section SendRecv.
Context (myid comm : Z) (status : bool).

Definition tmpi_Sendrecv (send_buf send_count send_type dest send_tag
    recv_buf recv_count recv_type source recv_tag : Z) : NM sendrecv_out :=
  r1 ← tmpi_Isend myid send_buf send_count send_type dest send_tag comm;
  r2 ← tmpi_Irecv myid recv_buf recv_count recv_type source recv_tag comm;
  o ← tmpi_Wait (snd r1) false;
  sendrecv_first (snd r1) (snd r2) status o.

Definition sendrecv_resume (o : sendrecv_out) : NM sendrecv_out :=
  match o with
  | SrDone _ _ => mret o
  | SrSend w req1 req2 => r ← resume_wait w req1 false; sendrecv_first req1 req2 status r
  | SrRecv ret1 w req2 => r ← resume_wait w req2 status; mret (sendrecv_last ret1 req2 r)
  end.

(** With one buffer: a ready send to a local process, a buffered send if that fails or
    the process is remote, and then the receive. *)
Inductive replace_out :=
  | RpSend (ready : bool) (w : wait_point) (req : Z)
  | RpRecv (o : sendrecv_out).

Context (buffer count datatype dest send_tag src recv_tag : Z).

Definition replace_recv (ret1 : Z) : NM replace_out :=
  r2 ← tmpi_Irecv myid buffer count datatype src recv_tag comm;
  o ← sendrecv_wait2 ret1 (snd r2) status; mret (RpRecv o).
(** After the buffered send. *)
Definition replace_sent (o : call_out) : NM replace_out :=
  match o with
  | Done ret1 _ => replace_recv ret1
  | Blocked w req _ => mret (RpSend false w req)
  end.
(** After the ready send, or without one. *)
Definition replace_ready (o : call_out) : NM replace_out :=
  match o with
  | Done ret1 _ =>
      if negb (ret1 =? MPI_SUCCESS)
      then b ← tmpi_Bsend myid buffer count datatype dest send_tag comm; replace_sent b
      else replace_recv ret1
  | Blocked w req _ => mret (RpSend true w req)
  end.

Definition tmpi_Sendrecv_replace : NM replace_out :=
  l ← on_netq (netq_isLocalNode dest);
  if (l : bool)
  then o ← tmpi_Rsend myid buffer count datatype dest send_tag comm; replace_ready o
  else replace_ready (Done MPI_ERR_NRDY None).

Definition replace_resume (o : replace_out) : NM replace_out :=
  match o with
  | RpSend ready w req =>
      r ← resume_wait w req false;
      if ready then replace_ready (call_of req false r) else replace_sent (call_of req false r)
  | RpRecv o => r ← sendrecv_resume o; mret (RpRecv r)
  end.
End SendRecv.
