(* ===== verification/IntraRep.v ===== *)
(** What the point-to-point code keeps invariant and how its steps act: the
    channels and the handles in their queues, matching of envelopes, and the
    effect of starting a request, proved against the contract of the queues. *)
From S2P Require Import Prelude Types TQueue TQueueRep Netq Group Comm IntraSR.

(** ** Ranks *)

(** The translation table covers the global ranks, of which there are at most those of 256
    machines with 256 nodes each (NETQ_MAX_NODES, NETQ_MAX_NODES_PER_HOST). *)
Definition netq_ok (q : netq) : Prop :=
  exists t, gTable q = Some t /\ gTableSize q = Z.of_nat (length t) /\ gTableSize q <= 256 * 256.

(** The number of global rank [g] on this node, or -1. *)
Definition lrank (q : netq) (g : Z) : Z :=
  if (g <? 0) || (g >=? gTableSize q) then -1
  else match gTable q with
       | None => -1
       | Some t => match t !! Z.to_nat g with
                   | Some e => if macID e =? netd_myid q then localID e else -1
                   | None => -1
                   end
       end.

Lemma transGlobalRank_spec q g :
  netq_ok q ->
  netq_transGlobalRank g q =
    Ret (if (g <? 0) || (g >=? gTableSize q) then (-1, None)
         else match gTable q with
              | Some t => match t !! Z.to_nat g with Some e => (0, Some e) | None => (-1, None) end
              | None => (-1, None)
              end) q.
Proof.
  intros (t & Ht & Hn). unfold netq_transGlobalRank. mrun.
  rewrite (proj2 (Z.eqb_neq (gTableSize q) (-1))) by lia. rewrite Ht.
  destruct ((g <? 0) || (g >=? gTableSize q)) eqn:E; [done|].
  apply orb_false_iff in E as [E1 E2]. unfold table_get. rewrite E1. mrun.
  destruct (t !! Z.to_nat g) as [[m l]|] eqn:El; [done|].
  apply lookup_ge_None in El. lia.
Qed.

Lemma grank_to_lrank_spec s g :
  netq_ok (nq s) -> tmpi_grank_to_lrank g s = Ret (lrank (nq s) g) s.
Proof.
  intros Hq. unfold tmpi_grank_to_lrank, on_netq.
  rewrite (bind_Ret _ _ _ _ _ (zoom_Ret _ _ _ _ _ _ (transGlobalRank_spec _ g Hq))).
  unfold lrank. destruct Hq as (t & Ht & Hn). rewrite Ht.
  assert (s <| nq := nq s |> = s) as -> by (by destruct s).
  destruct ((g <? 0) || (g >=? gTableSize (nq s))); [done|].
  destruct (t !! Z.to_nat g) as [e|]; [|done]. cbn [Z.ltb Z.compare].
  unfold netq_getLocalMacID. mrun. assert (s <| nq := nq s |> = s) as -> by (by destruct s).
  by destruct (macID e =? netd_myid (nq s)).
Qed.

(** ** Channels *)

(** The channel of local process [i], by address and contents. *)
Definition chan_at (s : node) (i : Z) : option (Z * tmpi_Channel) :=
  if (i <? 0) || (i >=? tmpi_channel_size s) then None
  else t ← tmpi_channel s; c ← t !! i; ch ← ch_mem s !! c; Some (c, ch).

Lemma get_channel_spec s i c ch :
  chan_at s i = Some (c, ch) -> tmpi_intra_get_channel i s = Ret c s /\ ch_mem s !! c = Some ch.
Proof.
  unfold chan_at, tmpi_intra_get_channel. intros H. mrun.
  destruct ((i <? 0) || (i >=? tmpi_channel_size s)); [done|].
  destruct (tmpi_channel s) as [t|]; cbn in H; [|done].
  destruct (t !! i) as [c'|]; cbn in H; [|done].
  destruct (ch_mem s !! c') as [ch'|] eqn:E; cbn in H; [|done]. by simplify_eq.
Qed.

(** ** Stores to handles *)

Lemma load_sh_spec s p x : handles s !! p = Some (HS x) -> load_sh p s = Ret x s.
Proof. intros H. unfold load_sh, load_handle. mrun. by rewrite H. Qed.
Lemma load_rh_spec s p y : handles s !! p = Some (HR y) -> load_rh p s = Ret y s.
Proof. intros H. unfold load_rh, load_handle. mrun. by rewrite H. Qed.
Lemma upd_sh_spec s p f x :
  handles s !! p = Some (HS x) ->
  upd_sh p f s = Ret tt (s <| handles := <[p := HS (f x)]> (handles s) |>).
Proof. intros H. unfold upd_sh. by rewrite (bind_Ret _ _ _ _ _ (load_sh_spec _ _ _ H)). Qed.
Lemma upd_rh_spec s p f y :
  handles s !! p = Some (HR y) ->
  upd_rh p f s = Ret tt (s <| handles := <[p := HR (f y)]> (handles s) |>).
Proof. intros H. unfold upd_rh. by rewrite (bind_Ret _ _ _ _ _ (load_rh_spec _ _ _ H)). Qed.

(** The state in which the send handle at [p] is [x] and the receive handle at
    [q] is [y]: the code of a match runs on such states. *)
Definition pair_st (s : node) (p : Z) (x : SHandle) (q : Z) (y : RHandle) : node :=
  s <| handles := <[p := HS x]> (<[q := HR y]> (handles s)) |>.

Section Pair.
Context (s : node) (p q : Z) (Hne : p <> q).

Lemma pair_intro x y :
  handles s !! p = Some (HS x) -> handles s !! q = Some (HR y) -> s = pair_st s p x q y.
Proof.
  intros Hp Hq. unfold pair_st. rewrite (insert_id _ q) by done. rewrite insert_id by done.
  by destruct s.
Qed.

Lemma pair_load_sh x y : load_sh p (pair_st s p x q y) = Ret x (pair_st s p x q y).
Proof. apply load_sh_spec. cbn. by rewrite lookup_insert_eq. Qed.
Lemma pair_load_rh x y : load_rh q (pair_st s p x q y) = Ret y (pair_st s p x q y).
Proof. apply load_rh_spec. cbn. rewrite lookup_insert_ne by done. by rewrite lookup_insert_eq. Qed.
Lemma pair_upd_sh x y f : upd_sh p f (pair_st s p x q y) = Ret tt (pair_st s p (f x) q y).
Proof.
  rewrite (upd_sh_spec _ _ _ x) by (cbn; by rewrite lookup_insert_eq).
  unfold pair_st. cbn. by rewrite insert_insert_eq.
Qed.
Lemma pair_upd_rh x y f : upd_rh q f (pair_st s p x q y) = Ret tt (pair_st s p x q (f y)).
Proof.
  rewrite (upd_rh_spec _ _ _ y)
    by (cbn; rewrite lookup_insert_ne by done; by rewrite lookup_insert_eq).
  unfold pair_st. cbn. rewrite insert_insert_ne by done. by rewrite insert_insert_eq.
Qed.
Lemma pair_lock_sh x y : sh_lock x = false ->
  lock_sh p (pair_st s p x q y) = Ret tt (pair_st s p (x <| sh_lock := true |>) q y).
Proof. intros H. unfold lock_sh. rewrite (bind_Ret _ _ _ _ _ (pair_load_sh x y)), H. apply pair_upd_sh. Qed.
Lemma pair_lock_rh x y : rh_lock y = false ->
  lock_rh q (pair_st s p x q y) = Ret tt (pair_st s p x q (y <| rh_lock := true |>)).
Proof. intros H. unfold lock_rh. rewrite (bind_Ret _ _ _ _ _ (pair_load_rh x y)), H. apply pair_upd_rh. Qed.
End Pair.

(** ** Matching *)

(** The envelope of a send satisfies that of a receive: the receiver's source and
    tag may be wildcards. *)
Definition env_matches (send recv : Common) : bool :=
  ((c_src send =? c_src recv) || (c_src recv =? MPI_ANY_SOURCE)) &&
  ((c_tag send =? c_tag recv) || (c_tag recv =? MPI_ANY_TAG)) &&
  (c_context send =? c_context recv).

Lemma uint32_int32 z : is_uint32 z = true -> uint32 (int32 z) = z.
Proof.
  unfold is_uint32, uint32, int32. intros H. apply andb_prop in H as [H1 H2].
  apply Z.leb_le in H1. apply Z.ltb_lt in H2.
  rewrite <- Zminus_mod_idemp_l, Zmod_mod, Zminus_mod_idemp_l.
  replace (z + 2 ^ 31 - 2 ^ 31) with z by lia. by apply Z.mod_small.
Qed.

(** The comparison of the send queue accepts what satisfies the receiver. *)
Lemma sq_cmp_matches send recv :
  is_uint32 (c_context recv) = true ->
  (sq_cmp send (int32 (c_context recv)) (c_tag recv) (c_src recv) =? 0) =
    env_matches send recv && has (c_stat send) TMPI_PEND.
Proof.
  intros Hc. unfold sq_cmp, env_matches. rewrite uint32_int32 by done.
  rewrite <- !negb_orb, <- !negb_andb.
  destruct (((c_src send =? c_src recv) || (c_src recv =? MPI_ANY_SOURCE)) &&
            ((c_tag send =? c_tag recv) || (c_tag recv =? MPI_ANY_TAG)) &&
            (c_context send =? c_context recv)); cbn; [|done].
  by destruct (has (c_stat send) TMPI_PEND).
Qed.

Lemma rq_cmp_matches send recv :
  is_uint32 (c_context send) = true ->
  (rq_cmp recv (int32 (c_context send)) (c_tag send) (c_src send) =? 0) =
    env_matches send recv && has (c_stat recv) TMPI_PEND.
Proof.
  intros Hc. unfold rq_cmp, env_matches. rewrite uint32_int32 by done.
  rewrite (Z.eqb_sym (c_src recv) (c_src send)), (Z.eqb_sym (c_tag recv) (c_tag send)),
    (Z.eqb_sym (c_context recv) (c_context send)).
  rewrite <- !negb_orb, <- !negb_andb.
  destruct (((c_src send =? c_src recv) || (c_src recv =? MPI_ANY_SOURCE)) &&
            ((c_tag send =? c_tag recv) || (c_tag recv =? MPI_ANY_TAG)) &&
            (c_context send =? c_context recv)); cbn; [|done].
  by destruct (has (c_stat recv) TMPI_PEND).
Qed.

(** [take_first] depends on the predicate's values on the list only. *)
Lemma take_first_ext P Q l : (forall e, e ∈ l -> P e = Q e) -> take_first P l = take_first Q l.
Proof.
  induction l as [|e l IH]; intros H; [done|]. cbn. rewrite H by (left).
  destruct (Q e); [done|]. rewrite IH; [done|]. intros e' He'. apply H. by right.
Qed.

(** ** A match within the node *)

Definition copied (m : mem) (dst src n : Z) : mem := if n =? 0 then m else memcpy m dst src n.

(** Sender and receiver after a match of [x] and [y]. *)
Definition matched_rh (x : SHandle) (y : RHandle) : RHandle :=
  y <| rh_src := sh_src x |> <| rh_tag := sh_tag x |>
    <| rh_buflen := Z.min (sh_buflen x) (rh_buflen y) |> <| rh_stat := TMPI_MATCH |>.
Definition matched_sh (x : SHandle) (y : RHandle) : SHandle :=
  x <| sh_stat := TMPI_MATCH |> <| sh_buflen := Z.min (sh_buflen x) (rh_buflen y) |>.

Lemma pair_copy s p x q y d c n :
  when (negb (n =? 0)) (copy d c n) (pair_st s p x q y) =
    Ret tt (pair_st (s <| data := copied (data s) d c n |>) p x q y).
Proof. unfold copied. destruct (n =? 0); cbn [negb when]; [|done]. by destruct s. Qed.

Lemma pair_signal s p x q y z :
  signal z (pair_st s p x q y) = Ret tt (pair_st (s <| signals := z :: signals s |>) p x q y).
Proof. done. Qed.

Lemma same_signals s : s <| signals := signals s |> = s.
Proof. by destruct s. Qed.

(** The handles the code of a match builds on its way, with what it reads of them. *)
Lemma locked_rh_of n x y : rh_lock y = false ->
  exists y1, y <| rh_lock := true |> <| rh_src := sh_src x |> <| rh_tag := sh_tag x |>
      <| rh_buflen := n |> = y1 /\
    rh_buflen y1 = n /\ rh_data y1 = rh_data y /\ rh_stat y1 = rh_stat y /\
    y1 <| rh_stat := TMPI_MATCH |> <| rh_lock := false |> =
      y <| rh_src := sh_src x |> <| rh_tag := sh_tag x |> <| rh_buflen := n |> <| rh_stat := TMPI_MATCH |>.
Proof. intros H. eexists. split; [done|]. destruct y; cbn in *. by subst. Qed.

Lemma send_to_rh_spec s sh rh x y :
  sh <> rh -> handles s !! sh = Some (HS x) -> handles s !! rh = Some (HR y) ->
  rh_lock y = false -> rh_stat y = TMPI_PEND_STRT \/ rh_stat y = TMPI_PEND_WAIT ->
  send_to_rh sh rh s = Ret tt
    (pair_st (s <| data := copied (data s) (rh_data y) (sh_curdata x) (Z.min (sh_buflen x) (rh_buflen y)) |>
                <| signals := if rh_stat y =? TMPI_PEND_WAIT then rh :: signals s else signals s |>)
       sh (matched_sh x y <| sh_errval := MPI_SUCCESS |>) rh (matched_rh x y)).
Proof.
  intros Hne Hx Hy Hl Hst. unfold send_to_rh, matched_sh, matched_rh.
  set (n := Z.min (sh_buflen x) (rh_buflen y)).
  destruct (locked_rh_of n x y Hl) as (y1 & Ey & Hb & Hd & Hs & <-).
  rewrite (pair_intro s sh rh x y Hx Hy) at 1.
  rewrite (bind_Ret _ _ _ _ _ (pair_upd_sh s sh rh x y _)).
  set (x0 := x <| sh_stat := TMPI_MATCH |>).
  rewrite (bind_Ret _ _ _ _ _ (pair_lock_rh s sh rh Hne x0 y Hl)).
  rewrite (bind_Ret _ _ _ _ _ (pair_load_sh s sh rh x0 _)).
  rewrite (bind_Ret _ _ _ _ _ (pair_upd_rh s sh rh Hne x0 _ _)).
  match goal with |- context [pair_st s sh x0 rh ?z] => change z with
    (y <| rh_lock := true |> <| rh_src := sh_src x |> <| rh_tag := sh_tag x |> <| rh_buflen := n |>) end.
  rewrite Ey, (bind_Ret _ _ _ _ _ (pair_load_rh s sh rh Hne x0 y1)). cbv beta. rewrite Hb, Hd, Hs.
  rewrite (bind_Ret _ _ _ _ _ (pair_copy s sh x0 rh y1 _ _ _)).
  change (sh_curdata x0) with (sh_curdata x).
  set (D := copied _ _ _ _). clearbody D. set (s1 := s <| data := D |>).
  rewrite (bind_Ret _ _ _ _ _ (pair_upd_sh s1 sh rh x0 y1 _)). cbv beta.
  subst x0. set (x1 := _ <| sh_errval := _ |>). clearbody x1. clear - Hst Hne.
  destruct Hst as [Hst|Hst]; rewrite Hst.
  - change (TMPI_PEND_STRT =? TMPI_PEND_WAIT) with false. rewrite Z.eqb_refl. cbn [when].
    rewrite (bind_Ret _ _ _ _ _ (pair_upd_rh s1 sh rh Hne x1 y1 _)).
    etransitivity; [apply (pair_upd_rh s1 sh rh Hne)|]. by destruct s.
  - rewrite Z.eqb_refl. rewrite bind_assoc.
    rewrite (bind_Ret _ _ _ _ _ (pair_upd_rh s1 sh rh Hne x1 y1 _)).
    rewrite (bind_Ret _ _ _ _ _ (pair_signal s1 sh x1 rh _ rh)).
    exact (pair_upd_rh _ sh rh Hne _ _ _).
Qed.

(** The receive's side of a match, up to what depends on the sender's state. *)
Lemma recv_from_sh_code s rh sh x y :
  sh <> rh -> handles s !! sh = Some (HS x) -> handles s !! rh = Some (HR y) -> sh_lock x = false ->
  let n := Z.min (sh_buflen x) (rh_buflen y) in
  exists x1,
    (x <| sh_stat := TMPI_MATCH |> <| sh_buflen := n |> = x1 <| sh_stat := TMPI_MATCH |> <| sh_lock := false |>) /\
    (x <| sh_buflen := n |> <| sh_stat := TMPI_FREE |> <| sh_errval := MPI_SUCCESS |> =
       x1 <| sh_stat := TMPI_FREE |> <| sh_errval := MPI_SUCCESS |> <| sh_lock := false |>) /\
    recv_from_sh rh sh s =
      (if sh_stat x =? TMPI_PEND_WAIT then
         upd_sh sh (fun x => x <| sh_stat := TMPI_MATCH |>);; signal sh;; unlock_sh sh
       else if sh_stat x =? TMPI_PEND_STRT then
         upd_sh sh (fun x => x <| sh_stat := TMPI_MATCH |>);; unlock_sh sh
       else if sh_stat x =? TMPI_PEND_RELS then
         upd_sh sh (fun x => x <| sh_stat := TMPI_FREE |> <| sh_errval := MPI_SUCCESS |>);;
         if sh_type x =? MPI_PERSISTENT_SEND then upd_sh sh reset_sh;; unlock_sh sh
         else
           lid ← tmpi_grank_to_lrank (sh_src x);
           peer_ch ← tmpi_intra_get_channel lid;
           unlock_sh sh;;
           when (negb (peer_ch =? NULL)) (tmpi_intra_free_sh peer_ch sh)
       else unlock_sh sh)
      (pair_st (s <| data := copied (data s) (rh_data y) (sh_curdata x) n |>) sh x1 rh (matched_rh x y)).
Proof.
  intros Hne Hx Hy Hl n. exists (x <| sh_lock := true |> <| sh_buflen := n |>).
  split; [destruct x; cbn in *; by subst|]. split; [destruct x; cbn in *; by subst|].
  unfold recv_from_sh, matched_rh. fold n. rewrite (pair_intro s sh rh x y Hx Hy) at 1.
  rewrite (bind_Ret _ _ _ _ _ (pair_lock_sh s sh rh x y Hl)).
  set (x0 := x <| sh_lock := true |>).
  change (sh_stat x) with (sh_stat x0). change (sh_type x) with (sh_type x0). change (sh_curdata x) with (sh_curdata x0).
  change (sh_src x) with (sh_src x0). change (sh_tag x) with (sh_tag x0).
  subst n. change (sh_buflen x) with (sh_buflen x0). set (n := Z.min (sh_buflen x0) (rh_buflen y)).
  clearbody x0. clear - Hne.
  rewrite (bind_Ret _ _ _ _ _ (pair_load_sh s sh rh x0 y)).
  rewrite (bind_Ret _ _ _ _ _ (pair_upd_rh s sh rh Hne x0 y _)). cbv beta. fold n.
  set (y1 := y <| rh_src := _ |> <| rh_tag := _ |> <| rh_buflen := _ |>).
  assert (rh_buflen y1 = n /\ rh_data y = rh_data y1) as [Hn ->] by done. clearbody y1.
  rewrite (bind_Ret _ _ _ _ _ (pair_load_rh s sh rh Hne x0 y1)). rewrite Hn.
  rewrite (bind_Ret _ _ _ _ _ (pair_upd_sh s sh rh x0 y1 _)). cbv beta. set (x1 := x0 <| sh_buflen := n |>).
  rewrite (bind_Ret _ _ _ _ _ (pair_upd_rh s sh rh Hne x1 y1 _)). cbv beta.
  by rewrite (bind_Ret _ _ _ _ _ (pair_copy s sh x1 rh _ _ _ _)).
Qed.

(** The queued send of this node that [rh] finds, still to be received. *)
Lemma recv_from_sh_spec s rh sh x y :
  sh <> rh -> handles s !! sh = Some (HS x) -> handles s !! rh = Some (HR y) ->
  sh_lock x = false -> sh_stat x = TMPI_PEND_STRT \/ sh_stat x = TMPI_PEND_WAIT ->
  recv_from_sh rh sh s = Ret tt
    (pair_st (s <| data := copied (data s) (rh_data y) (sh_curdata x) (Z.min (sh_buflen x) (rh_buflen y)) |>
                <| signals := if sh_stat x =? TMPI_PEND_WAIT then sh :: signals s else signals s |>)
       sh (matched_sh x y) rh (matched_rh x y)).
Proof.
  intros Hne Hx Hy Hl Hst. unfold matched_sh. set (n := Z.min (sh_buflen x) (rh_buflen y)).
  destruct (recv_from_sh_code s rh sh x y Hne Hx Hy Hl) as (x1 & Hm & _ & ->). fold n in Hm |- *.
  set (D := copied _ _ _ _). clearbody D. set (s1 := s <| data := D |>).
  set (y1 := matched_rh x y).
  clearbody y1. clear - Hst Hne Hm. destruct Hst as [Hst|Hst]; rewrite Hst.
  - change (TMPI_PEND_STRT =? TMPI_PEND_WAIT) with false. rewrite Z.eqb_refl. cbv iota.
    rewrite (bind_Ret _ _ _ _ _ (pair_upd_sh s1 sh rh x1 y1 _)).
    etransitivity; [apply (pair_upd_sh s1 sh rh)|]. rewrite Hm. by destruct s.
  - rewrite Z.eqb_refl. cbv iota.
    rewrite (bind_Ret _ _ _ _ _ (pair_upd_sh s1 sh rh x1 y1 _)).
    rewrite (bind_Ret _ _ _ _ _ (pair_signal s1 sh _ rh y1 sh)).
    etransitivity; [apply (pair_upd_sh _ sh rh)|]. by rewrite Hm.
Qed.

(** ** The invariant of a node *)

(** A send that may be in a queue: its sender has not been matched, waits for the
    match, or has left; or it is the trace of a send of another node. *)
Definition pending_send (s : node) (e : Z) : Prop :=
  exists h, handles s !! e = Some h /\ is_uint32 (c_context (common h)) = true /\
    match h with
    | HS x => has (sh_type x) send_types = true /\ sh_lock x = false /\ sh_isRemote x = false /\
        (sh_stat x = TMPI_PEND_STRT \/ sh_stat x = TMPI_PEND_WAIT \/ sh_stat x = TMPI_PEND_RELS)
    | HM m => rms_stat m = TMPI_PEND /\
        (rms_type m = MPI_REMOTE_MSG_SEND \/ rms_type m = MPI_REMOTE_MSGDAT_SEND)
    | HR _ => False
    end.
Definition pending_recv (s : node) (e : Z) : Prop :=
  exists y, handles s !! e = Some (HR y) /\ is_uint32 (rh_context y) = true /\
    rh_lock y = false /\ (rh_stat y = TMPI_PEND_STRT \/ rh_stat y = TMPI_PEND_WAIT).

(** The handle at [e] is a receive the envelope satisfies; a send that satisfies it. *)
Definition accepts (s : node) (send : Common) (e : Z) : bool :=
  match handles s !! e with Some h => env_matches send (common h) | None => false end.
Definition satisfies (s : node) (recv : Common) (e : Z) : bool :=
  match handles s !! e with Some h => env_matches (common h) recv | None => false end.

Definition meets (s : node) (a b : Z) : Prop :=
  exists ha, handles s !! a = Some ha /\ accepts s (common ha) b = true.

(** The queues of one channel: [ls] are its pending sends, [lr] its posted
    receives, and none of the former matches one of the latter. *)
Definition chan_ok (s : node) (v : qview cmp_fn) (ch : tmpi_Channel) : Prop :=
  exists ls lr, v_list v !! ch_sq ch = Some ls /\ v_list v !! ch_rq ch = Some lr /\
    v_cmp v !! ch_sq ch = Some (Some SQ_CMP) /\ v_cmp v !! ch_rq ch = Some (Some RQ_CMP) /\
    Forall (pending_send s) ls /\ Forall (pending_recv s) lr /\
    (forall a b, a ∈ ls -> b ∈ lr -> ~ meets s a b).

(** Whether two channels share a queue. *)
Definition apart (ch ch' : tmpi_Channel) : Prop :=
  ch_sq ch <> ch_sq ch' /\ ch_rq ch <> ch_rq ch' /\ ch_sq ch <> ch_rq ch' /\ ch_rq ch <> ch_sq ch'.

Section Invariant.
Context (R : qmem cmp_fn -> qview cmp_fn -> Prop) {HQ : QueueSpec R}.

Record node_inv (s : node) (v : qview cmp_fn) : Prop := {
  ni_rep : R (qm s) v;
  ni_netq : netq_ok (nq s);
  ni_chan : forall i c ch, chan_at s i = Some (c, ch) ->
    c <> NULL /\ ch_lock ch = false /\ ch_sq ch <> ch_rq ch /\ chan_ok s v ch;
  ni_apart : forall i j c c' ch ch', chan_at s i = Some (c, ch) -> chan_at s j = Some (c', ch') ->
    i <> j -> apart ch ch'
}.

Lemma pending_send_frame s s' e :
  handles s' !! e = handles s !! e -> pending_send s e -> pending_send s' e.
Proof. intros E (h & Hh & H). exists h. by rewrite E. Qed.
Lemma pending_recv_frame s s' e :
  handles s' !! e = handles s !! e -> pending_recv s e -> pending_recv s' e.
Proof. intros E (h & Hh & H). exists h. by rewrite E. Qed.
Lemma meets_frame s s' a b :
  handles s' !! a = handles s !! a -> handles s' !! b = handles s !! b -> meets s' a b -> meets s a b.
Proof. unfold meets, accepts. intros -> ->. done. Qed.

(** A channel whose queues and queued handles are as they were. *)
Lemma chan_ok_frame s s' v v' ch :
  v_list v' !! ch_sq ch = v_list v !! ch_sq ch -> v_list v' !! ch_rq ch = v_list v !! ch_rq ch ->
  v_cmp v' = v_cmp v ->
  (forall e l, v_list v !! ch_sq ch = Some l \/ v_list v !! ch_rq ch = Some l -> e ∈ l ->
     handles s' !! e = handles s !! e) ->
  chan_ok s v ch -> chan_ok s' v' ch.
Proof.
  intros E1 E2 E3 Hh (ls & lr & H1 & H2 & H3 & H4 & H5 & H6 & H7). exists ls, lr.
  rewrite E1, E2, E3. split_and!; try done.
  - rewrite Forall_forall in H5 |- *. intros e He. eapply pending_send_frame; [|by apply H5].
    apply (Hh _ ls); auto.
  - rewrite Forall_forall in H6 |- *. intros e He. eapply pending_recv_frame; [|by apply H6].
    apply (Hh _ lr); auto.
  - intros a b Ha Hb Hm. apply (H7 a b Ha Hb). eapply meets_frame; [| |exact Hm].
    + apply (Hh _ ls); auto.
    + apply (Hh _ lr); auto.
Qed.

(** The predicate a queue search runs is the matching of envelopes. *)
Lemma rq_search s lr x :
  Forall (pending_recv s) lr -> is_uint32 (sh_context x) = true ->
  take_first (fun it => call_cmp (handles s) RQ_CMP it (int32 (sh_context x)) (sh_tag x) (sh_src x) =? 0) lr =
  take_first (accepts s (common (HS x))) lr.
Proof.
  intros Hp Hc. apply take_first_ext. intros e He. rewrite Forall_forall in Hp.
  destruct (Hp e He) as (y & Hy & _ & _ & Hst). unfold call_cmp, accepts. rewrite Hy.
  etransitivity; [exact (rq_cmp_matches (common (HS x)) (common (HR y)) Hc)|].
  assert (has (c_stat (common (HR y))) TMPI_PEND = true) as ->.
  { cbn. by destruct Hst as [-> | ->]. }
  by rewrite andb_true_r.
Qed.

Lemma sq_search s ls y :
  Forall (pending_send s) ls -> is_uint32 (rh_context y) = true ->
  take_first (fun it => call_cmp (handles s) SQ_CMP it (int32 (rh_context y)) (rh_tag y) (rh_src y) =? 0) ls =
  take_first (satisfies s (common (HR y))) ls.
Proof.
  intros Hp Hc. apply take_first_ext. intros e He. rewrite Forall_forall in Hp.
  destruct (Hp e He) as (h & Hh & _ & Hst). unfold call_cmp, satisfies. rewrite Hh.
  etransitivity; [exact (sq_cmp_matches (common h) (common (HR y)) Hc)|].
  assert (has (c_stat (common h)) TMPI_PEND = true) as ->.
  { destruct h as [x|y'|m]; cbn; [|done|].
    - by destruct Hst as (_ & _ & _ & [-> | [-> | ->]]).
    - by destruct Hst as [-> _]. }
  by rewrite andb_true_r.
Qed.

Lemma load_channel_spec s c ch : ch_mem s !! c = Some ch -> load_channel c s = Ret ch s.
Proof. intros H. unfold load_channel. mrun. by rewrite H. Qed.
Lemma upd_channel_spec s c ch f :
  ch_mem s !! c = Some ch -> upd_channel c f s = Ret tt (s <| ch_mem := <[c := f ch]> (ch_mem s) |>).
Proof. intros H. unfold upd_channel. by rewrite (bind_Ret _ _ _ _ _ (load_channel_spec _ _ _ H)). Qed.
Lemma lock_ch_spec s c ch :
  ch_mem s !! c = Some ch -> ch_lock ch = false ->
  lock_ch c s = Ret tt (s <| ch_mem := <[c := ch <| ch_lock := true |>]> (ch_mem s) |>).
Proof.
  intros H Hl. unfold lock_ch. rewrite (bind_Ret _ _ _ _ _ (load_channel_spec _ _ _ H)), Hl.
  by apply upd_channel_spec.
Qed.

Lemma rq_find_spec s v c ch lr x :
  R (qm s) v -> ch_mem s !! c = Some ch -> v_list v !! ch_rq ch = Some lr ->
  v_cmp v !! ch_rq ch = Some (Some RQ_CMP) -> Forall (pending_recv s) lr ->
  is_uint32 (sh_context x) = true ->
  match take_first (accepts s (common (HS x))) lr with
  | None => tmpi_rq_find c (sh_context x) (sh_tag x) (sh_src x) s = Ret NULL s
  | Some (rh, lr') => exists q', tmpi_rq_find c (sh_context x) (sh_tag x) (sh_src x) s = Ret rh (s <| qm := q' |>) /\
      R q' (v <| v_list := <[ch_rq ch := lr']> (v_list v) |>)
  end.
Proof.
  intros HR Hc Hl Hf Hp Hu. unfold tmpi_rq_find.
  rewrite (bind_Ret _ _ _ _ _ (load_channel_spec _ _ _ Hc)).
  rewrite (bind_Ret get _ s s s) by done.
  pose proof (find_law (qm s) v (ch_rq ch) lr RQ_CMP (call_cmp (handles s))
    (int32 (sh_context x)) (sh_tag x) (sh_src x) HR Hl Hf) as Hfind.
  rewrite (rq_search s lr x Hp Hu) in Hfind.
  destruct (take_first _ lr) as [[rh lr']|].
  - destruct Hfind as (q' & E & HR'). exists q'. split; [|done]. exact (zoom_Ret _ _ _ _ _ _ E).
  - unfold on_queue. rewrite (zoom_Ret _ _ _ _ _ _ Hfind). by destruct s.
Qed.

Lemma sq_find_spec s v c ch ls y :
  R (qm s) v -> ch_mem s !! c = Some ch -> v_list v !! ch_sq ch = Some ls ->
  v_cmp v !! ch_sq ch = Some (Some SQ_CMP) -> Forall (pending_send s) ls ->
  is_uint32 (rh_context y) = true ->
  match take_first (satisfies s (common (HR y))) ls with
  | None => tmpi_sq_find c (rh_context y) (rh_tag y) (rh_src y) s = Ret NULL s
  | Some (sh, ls') => exists q', tmpi_sq_find c (rh_context y) (rh_tag y) (rh_src y) s = Ret sh (s <| qm := q' |>) /\
      R q' (v <| v_list := <[ch_sq ch := ls']> (v_list v) |>)
  end.
Proof.
  intros HR Hc Hl Hf Hp Hu. unfold tmpi_sq_find.
  rewrite (bind_Ret _ _ _ _ _ (load_channel_spec _ _ _ Hc)).
  rewrite (bind_Ret get _ s s s) by done.
  pose proof (find_law (qm s) v (ch_sq ch) ls SQ_CMP (call_cmp (handles s))
    (int32 (rh_context y)) (rh_tag y) (rh_src y) HR Hl Hf) as Hfind.
  rewrite (sq_search s ls y Hp Hu) in Hfind.
  destruct (take_first _ ls) as [[sh ls']|].
  - destruct Hfind as (q' & E & HR'). exists q'. split; [|done]. exact (zoom_Ret _ _ _ _ _ _ E).
  - unfold on_queue. rewrite (zoom_Ret _ _ _ _ _ _ Hfind). by destruct s.
Qed.

(** The state after a step that changed the queues, the handles, the data and the
    signals only. *)
Definition post (s : node) (q : qmem cmp_fn) (H : gmap Z handle) (D : mem) (S : list Z) : node :=
  s <| qm := q |> <| handles := H |> <| data := D |> <| signals := S |>.

Lemma chan_at_post s q H D S i : chan_at (post s q H D S) i = chan_at s i.
Proof. done. Qed.

(** A step that changes channel [i]'s queues and handles that are in no other. *)
Lemma inv_post s v v' q H D S i c ch :
  node_inv s v -> chan_at s i = Some (c, ch) -> R q v' -> v_cmp v' = v_cmp v ->
  (forall p, p <> ch_sq ch -> p <> ch_rq ch -> v_list v' !! p = v_list v !! p) ->
  (forall e p l, v_list v !! p = Some l -> e ∈ l -> p <> ch_sq ch -> p <> ch_rq ch -> H !! e = handles s !! e) ->
  chan_ok (post s q H D S) v' ch ->
  node_inv (post s q H D S) v'.
Proof.
  intros HI Hi HR Hcmp Hp He Hok. destruct HI as [I1 I2 I3 I4]. split; try done.
  intros j c' ch' Hj. rewrite chan_at_post in Hj. destruct (I3 j c' ch' Hj) as (? & ? & ? & Hok').
  split_and!; try done. destruct (decide (i = j)) as [<-|Hne].
  - rewrite Hi in Hj. by simplify_eq.
  - destruct (I4 i j c c' ch ch' Hi Hj Hne) as (A1 & A2 & A3 & A4).
    eapply chan_ok_frame; [| |done| |exact Hok']; [apply Hp; congruence|apply Hp; congruence|].
    intros e l [Hl|Hl] Hin; cbn; eapply He; try done; congruence.
Qed.

(** The queues a search of a pending receive leaves. *)
Lemma chan_ok_less_recv s v ch ls lr lr' q H D S :
  chan_ok s v ch -> ch_sq ch <> ch_rq ch ->
  v_list v !! ch_sq ch = Some ls -> v_list v !! ch_rq ch = Some lr ->
  lr' ⊆ lr -> (forall e, e ∈ ls \/ e ∈ lr' -> H !! e = handles s !! e) ->
  chan_ok (post s q H D S) (v <| v_list := <[ch_rq ch := lr']> (v_list v) |>) ch.
Proof.
  intros (ls0 & lr0 & H1 & H2 & H3 & H4 & H5 & H6 & H7) Hd Hls Hlr Hsub He.
  assert (ls0 = ls) as -> by congruence. assert (lr0 = lr) as -> by congruence.
  exists ls, lr'. cbn. rewrite lookup_insert_eq, lookup_insert_ne by done.
  rewrite Forall_forall in H5. rewrite Forall_forall in H6. split_and!; try done.
  - apply Forall_forall. intros e Hin. eapply pending_send_frame; [|by apply H5]. apply He. auto.
  - apply Forall_forall. intros e Hin. eapply pending_recv_frame; [|apply H6; by apply Hsub]. apply He. auto.
  - intros a b Ha Hb Hm. apply (H7 a b Ha); [by apply Hsub|].
    eapply meets_frame; [| |exact Hm]; apply He; auto.
Qed.
Lemma chan_ok_less_send s v ch ls lr ls' q H D S :
  chan_ok s v ch -> ch_sq ch <> ch_rq ch ->
  v_list v !! ch_sq ch = Some ls -> v_list v !! ch_rq ch = Some lr ->
  ls' ⊆ ls -> (forall e, e ∈ ls' \/ e ∈ lr -> H !! e = handles s !! e) ->
  chan_ok (post s q H D S) (v <| v_list := <[ch_sq ch := ls']> (v_list v) |>) ch.
Proof.
  intros (ls0 & lr0 & H1 & H2 & H3 & H4 & H5 & H6 & H7) Hd Hls Hlr Hsub He.
  assert (ls0 = ls) as -> by congruence. assert (lr0 = lr) as -> by congruence.
  exists ls', lr. cbn. rewrite lookup_insert_eq, lookup_insert_ne by done.
  rewrite Forall_forall in H5. rewrite Forall_forall in H6. split_and!; try done.
  - apply Forall_forall. intros e Hin. eapply pending_send_frame; [|apply H5; by apply Hsub]. apply He. auto.
  - apply Forall_forall. intros e Hin. eapply pending_recv_frame; [|by apply H6]. apply He. auto.
  - intros a b Ha Hb Hm. apply (H7 a b); [by apply Hsub|done|].
    eapply meets_frame; [| |exact Hm]; apply He; auto.
Qed.

Lemma accepts_In s send lr rh lr' :
  take_first (accepts s send) lr = Some (rh, lr') ->
  rh ∈ lr /\ lr' ⊆ lr /\ (NoDup lr -> rh ∉ lr') /\ accepts s send rh = true.
Proof.
  revert lr'. induction lr as [|e lr IH]; intros lr' H; cbn in H; [done|].
  destruct (accepts s send e) eqn:E.
  - simplify_eq. split_and!; [by left|by right|by intros [? ?]%NoDup_cons|done].
  - destruct (take_first (accepts s send) lr) as [[z r]|]; [|done]. simplify_eq.
    destruct (IH _ eq_refl) as (? & Hsub & Hnd & ?). split_and!; [by right| | |done].
    + intros z [->|Hz]%elem_of_cons; [left|]. right. by apply Hsub.
    + intros [Hn1 Hn2]%NoDup_cons. rewrite elem_of_cons. intros [->|?]; [done|]. by apply Hnd.
Qed.

Lemma unlock_ch_post s c ch q H D S :
  ch_mem s !! c = Some ch -> ch_lock ch = false ->
  unlock_ch c (post (s <| ch_mem := <[c := ch <| ch_lock := true |>]> (ch_mem s) |>) q H D S) =
    Ret tt (post s q H D S).
Proof.
  intros Hc Hl. unfold unlock_ch. erewrite upd_channel_spec; [|cbn; by rewrite lookup_insert_eq].
  f_equal. cbn. rewrite insert_insert_eq. destruct ch as [l a b]. cbn in *. subst l.
  rewrite insert_id by done. by destruct s.
Qed.

(** The hypotheses of a start: the handle is the caller's, the peer's channel exists. *)
Record can_send (s : node) (v : qview cmp_fn) (sh : Z) (x : SHandle) (c : Z) (ch : tmpi_Channel)
    (ls lr : list Z) : Prop := {
  cs_handle : handles s !! sh = Some (HS x);
  cs_live : sh ∈ v_live v;
  cs_unqueued : unqueued v sh;
  cs_startable : sh_startable x = true;
  cs_type : has (sh_type x) send_types = true;
  cs_err : sh_errval x = MPI_SUCCESS;
  cs_local : sh_isRemote x = false;
  cs_lock : sh_lock x = false;
  cs_context : is_uint32 (sh_context x) = true;
  cs_chan : chan_at s (lrank (nq s) (sh_dest x)) = Some (c, ch);
  cs_sq : v_list v !! ch_sq ch = Some ls;
  cs_rq : v_list v !! ch_rq ch = Some lr
}.

Lemma start_sh_steps s v sh x c ch ls lr :
  node_inv s v -> can_send s v sh x c ch ls lr ->
  match take_first (accepts s (common (HS x))) lr with
  | None => exists q', tmpi_intra_start_sh sh s = Ret MPI_SUCCESS
        (post s q' (<[sh := HS (x <| sh_stat := TMPI_PEND_STRT |>)]> (handles s)) (data s) (signals s)) /\
      R q' (v <| v_list := <[ch_sq ch := ls ++ [sh]]> (v_list v) |>)
  | Some (rh, lr') => exists q' y, handles s !! rh = Some (HR y) /\
      tmpi_intra_start_sh sh s = Ret MPI_SUCCESS
        (post s q' (<[sh := HS (matched_sh x y <| sh_errval := MPI_SUCCESS |>)]>
                     (<[rh := HR (matched_rh x y)]> (handles s)))
              (copied (data s) (rh_data y) (sh_curdata x) (Z.min (sh_buflen x) (rh_buflen y)))
              (if rh_stat y =? TMPI_PEND_WAIT then rh :: signals s else signals s)) /\
      R q' (v <| v_list := <[ch_rq ch := lr']> (v_list v) |>)
  end.
Proof.
  intros HI HC. destruct HC as [Hx Hlive Hun Hst Hty Herr Hloc Hlk Hctx Hch Hls Hlr].
  destruct HI as [I1 I2 I3 _]. destruct (I3 _ _ _ Hch) as (Hcn & Hcl & Hsr & Hok).
  destruct Hok as (ls0 & lr0 & H1 & H2 & H3 & H4 & H5 & H6 & _).
  assert (ls0 = ls) as -> by congruence. assert (lr0 = lr) as -> by congruence.
  destruct (get_channel_spec _ _ _ _ Hch) as [Hget Hcm].
  assert (sh <> NULL) as Hnn by (by eapply nonnull_law).
  (* the code up to the search *)
  assert (forall r, (lock_ch c;; rh ← tmpi_rq_find c (sh_context x) (sh_tag x) (sh_src x);
      (if rh =? NULL then upd_sh sh (fun x => x <| sh_stat := TMPI_PEND_STRT |>);; tmpi_sq_enq c sh
       else send_to_rh sh rh);; unlock_ch c;; mret MPI_SUCCESS) s = r ->
      tmpi_intra_start_sh sh s = r) as Hcode.
  { intros r <-. unfold tmpi_intra_start_sh. rewrite (proj2 (Z.eqb_neq _ _) Hnn).
    rewrite (bind_Ret _ _ _ _ _ (load_sh_spec _ _ _ Hx)), Herr, Hloc, Hst. cbn [negb Z.eqb MPI_SUCCESS].
    rewrite (bind_Ret _ _ _ _ _ (grank_to_lrank_spec s _ I2)), (bind_Ret _ _ _ _ _ Hget).
    by rewrite (proj2 (Z.eqb_neq _ _) Hcn). }
  set (s1 := s <| ch_mem := <[c := ch <| ch_lock := true |>]> (ch_mem s) |>).
  assert (ch_mem s1 !! c = Some (ch <| ch_lock := true |>)) as Hc1 by (cbn; by rewrite lookup_insert_eq).
  pose proof (rq_find_spec s1 v c (ch <| ch_lock := true |>) lr x I1 Hc1 H2 H4 H6 Hctx) as Hfind.
  change (accepts s1) with (accepts s) in Hfind.
  destruct (take_first (accepts s (common (HS x))) lr) as [[rh lr']|] eqn:Et.
  - destruct Hfind as (q' & Ef & HR'). destruct (accepts_In _ _ _ _ _ Et) as (Hin & _ & _ & _).
    rewrite Forall_forall in H6. destruct (H6 rh Hin) as (y & Hy & _ & Hyl & Hyst).
    assert (sh <> rh) as Hne by (intros <-; by apply (Hun _ _ Hlr)).
    assert (rh <> NULL) as Hrn by (eapply nonnull_law; [exact I1|]; by eapply live_law).
    exists q', y. split; [done|]. split; [|exact HR']. apply Hcode.
    rewrite (bind_Ret _ _ _ _ _ (lock_ch_spec s c ch Hcm Hcl)). fold s1.
    rewrite (bind_Ret _ _ _ _ _ Ef). rewrite (proj2 (Z.eqb_neq _ _) Hrn).
    set (s2 := s1 <| qm := q' |>).
    rewrite (bind_Ret _ _ _ _ _ (send_to_rh_spec s2 sh rh x y Hne Hx Hy Hyl Hyst)).
    match goal with |- (unlock_ch c;; _) ?st = _ =>
      replace st with (post s1 q' (<[sh := HS (matched_sh x y <| sh_errval := MPI_SUCCESS |>)]>
          (<[rh := HR (matched_rh x y)]> (handles s)))
        (copied (data s) (rh_data y) (sh_curdata x) (Z.min (sh_buflen x) (rh_buflen y)))
        (if rh_stat y =? TMPI_PEND_WAIT then rh :: signals s else signals s)) by done end.
    rewrite (bind_Ret _ _ _ _ _ (unlock_ch_post s c ch _ _ _ _ Hcm Hcl)). done.
  - set (x' := x <| sh_stat := TMPI_PEND_STRT |>).
    destruct (enQ_law (qm s) v (ch_sq ch) ls sh I1 Hls Hlive Hun) as (q' & Ee & HR').
    exists q'. split; [|exact HR']. apply Hcode.
    rewrite (bind_Ret _ _ _ _ _ (lock_ch_spec s c ch Hcm Hcl)). fold s1.
    rewrite (bind_Ret _ _ _ _ _ Hfind), Z.eqb_refl, bind_assoc.
    rewrite (bind_Ret _ _ _ _ _ (upd_sh_spec s1 sh _ x Hx)). fold x'.
    set (s2 := s1 <| handles := _ |>).
    assert (tmpi_sq_enq c sh s2 = Ret tt (post s1 q' (<[sh := HS x']> (handles s)) (data s) (signals s))) as Eq.
    { unfold tmpi_sq_enq. rewrite (bind_Ret _ _ _ _ _ (load_channel_spec s2 _ _ Hc1)).
      unfold on_queue. rewrite (zoom_Ret _ _ _ s2 tt q' Ee). by destruct s. }
    rewrite (bind_Ret _ _ _ _ _ Eq).
    rewrite (bind_Ret _ _ _ _ _ (unlock_ch_post s c ch _ _ _ _ Hcm Hcl)). done.
Qed.

(** The invariant after a send is started. *)
Lemma start_sh_inv s v sh x c ch ls lr s' r :
  node_inv s v -> can_send s v sh x c ch ls lr -> tmpi_intra_start_sh sh s = Ret r s' ->
  exists v', node_inv s' v' /\ r = MPI_SUCCESS /\
    v' = match take_first (accepts s (common (HS x))) lr with
         | None => v <| v_list := <[ch_sq ch := ls ++ [sh]]> (v_list v) |>
         | Some (_, lr') => v <| v_list := <[ch_rq ch := lr']> (v_list v) |>
         end.
Proof.
  intros HI HC Hrun. pose proof (start_sh_steps _ _ _ _ _ _ _ _ HI HC) as Hs.
  destruct HC as [Hx Hlive Hun Hst Hty Herr Hloc Hlk Hctx Hch Hls Hlr].
  destruct (ni_chan _ _ HI _ _ _ Hch) as (_ & _ & Hsr & Hok).
  assert (forall e p l, v_list v !! p = Some l -> e ∈ l -> e <> sh) as Hne.
  { intros e p l Hl He ->. by apply (Hun p l). }
  destruct (take_first (accepts s (common (HS x))) lr) as [[rh lr']|] eqn:Et.
  - destruct Hs as (q' & y & Hy & E & HR'). rewrite E in Hrun. injection Hrun as <- <-.
    destruct (accepts_In _ _ _ _ _ Et) as (Hin & Hsub & Hnd & _).
    assert (rh ∉ lr') as Hrl by (apply Hnd; eapply nodup_law; [apply HI|exact Hlr]).
    eexists. split; [|done]. eapply inv_post; [exact HI|exact Hch|exact HR'|done| | |].
    + intros p Hp1 Hp2. cbn. by rewrite lookup_insert_ne.
    + intros e p l Hl He Hp1 Hp2. rewrite !lookup_insert_ne; [done| |].
      * intros ->. apply Hp2. eapply disjoint_law; [apply HI|exact Hl|exact Hlr|exact He|exact Hin].
      * intros ->. by apply (Hne _ _ _ Hl He).
    + eapply (chan_ok_less_recv s v ch ls lr); try done. intros e [He|He]; rewrite !lookup_insert_ne; try done.
      * intros ->. apply Hsr. eapply disjoint_law; [apply HI|exact Hls|exact Hlr|exact He|exact Hin].
      * intros ->. by apply (Hne _ _ _ Hls He).
      * by intros ->.
      * intros ->. apply (Hne _ _ _ Hlr (Hsub _ He) eq_refl).
  - destruct Hs as (q' & E & HR'). rewrite E in Hrun. injection Hrun as <- <-.
    eexists. split; [|done]. eapply inv_post; [exact HI|exact Hch|exact HR'|done| | |].
    + intros p Hp1 Hp2. cbn. by rewrite lookup_insert_ne.
    + intros e p l Hl He Hp1 Hp2. rewrite lookup_insert_ne; [done|]. intros ->. by apply (Hne _ _ _ Hl He).
    + destruct Hok as (ls0 & lr0 & H1 & H2 & H3 & H4 & H5 & H6 & H7).
      assert (ls0 = ls) as -> by congruence. assert (lr0 = lr) as -> by congruence.
      assert (forall e, e ∈ ls \/ e ∈ lr -> <[sh := HS (x <| sh_stat := TMPI_PEND_STRT |>)]> (handles s) !! e = handles s !! e) as Hold.
      { intros e [He|He]; apply lookup_insert_ne; intros ->; [by apply (Hun _ _ Hls)|by apply (Hun _ _ Hlr)]. }
      exists (ls ++ [sh]), lr. cbn. rewrite lookup_insert_eq, lookup_insert_ne by done.
      rewrite Forall_forall in H5. rewrite Forall_forall in H6. split_and!; try done.
      * apply Forall_app. split; [|apply Forall_singleton].
        -- apply Forall_forall. intros e He. eapply pending_send_frame; [|by apply H5]. apply Hold. auto.
        -- exists (HS (x <| sh_stat := TMPI_PEND_STRT |>)). cbn. rewrite lookup_insert_eq. split_and!; auto.
      * apply Forall_forall. intros e He. eapply pending_recv_frame; [|by apply H6]. apply Hold. auto.
      * intros a b Ha Hb Hm. apply elem_of_app in Ha as [Ha|Ha].
        -- apply (H7 a b Ha Hb). eapply meets_frame; [| |exact Hm]; apply Hold; auto.
        -- apply list_elem_of_singleton in Ha as ->. destruct Hm as (ha & Hha & Hacc). cbn in Hha.
           rewrite lookup_insert_eq in Hha. injection Hha as <-.
           apply take_first_None in Et. rewrite Forall_forall in Et. specialize (Et b Hb).
           unfold accepts in Et, Hacc. cbn [handles post upd eta_of eta_node] in Hacc.
           rewrite lookup_insert_ne in Hacc by (intros <-; by apply (Hun _ _ Hlr)).
           destruct (handles s !! b) as [hb|]; [|done].
           change (env_matches (common (HS x)) (common hb) = true) in Hacc. congruence.
Qed.

(** *** Starting a receive *)

Lemma satisfies_In s recv ls sh ls' :
  take_first (satisfies s recv) ls = Some (sh, ls') ->
  sh ∈ ls /\ ls' ⊆ ls /\ (NoDup ls -> sh ∉ ls') /\ satisfies s recv sh = true.
Proof.
  revert ls'. induction ls as [|e ls IH]; intros ls' H; cbn in H; [done|].
  destruct (satisfies s recv e) eqn:E.
  - simplify_eq. split_and!; [by left|by right|by intros [? ?]%NoDup_cons|done].
  - destruct (take_first (satisfies s recv) ls) as [[z r]|]; [|done]. simplify_eq.
    destruct (IH _ eq_refl) as (? & Hsub & Hnd & ?). split_and!; [by right| | |done].
    + intros z [->|Hz]%elem_of_cons; [left|]. right. by apply Hsub.
    + intros [Hn1 Hn2]%NoDup_cons. rewrite elem_of_cons. intros [->|?]; [done|]. by apply Hnd.
Qed.

Record can_recv (s : node) (v : qview cmp_fn) (rh : Z) (y : RHandle) (c : Z) (ch : tmpi_Channel)
    (ls lr : list Z) : Prop := {
  cr_handle : handles s !! rh = Some (HR y);
  cr_live : rh ∈ v_live v;
  cr_unqueued : unqueued v rh;
  cr_startable : rh_startable y = true;
  cr_err : rh_errval y = MPI_SUCCESS;
  cr_lock : rh_lock y = false;
  cr_context : is_uint32 (rh_context y) = true;
  cr_chan : chan_at s (lrank (nq s) (rh_dest y)) = Some (c, ch);
  cr_sq : v_list v !! ch_sq ch = Some ls;
  cr_rq : v_list v !! ch_rq ch = Some lr
}.

(** The code of a start up to the search of the send queue. *)
Lemma start_rh_code s v rh y c ch ls lr r :
  node_inv s v -> can_recv s v rh y c ch ls lr ->
  (lock_ch c;; sh ← tmpi_sq_find c (rh_context y) (rh_tag y) (rh_src y);
     (if sh =? NULL then upd_rh rh (fun y => y <| rh_stat := TMPI_PEND_STRT |>);; tmpi_rq_enq c rh
      else h ← load_handle sh;
           if has (c_type (common h)) send_types then recv_from_sh rh sh
           else recv_from_rmsh c rh sh);; unlock_ch c;; mret MPI_SUCCESS) s = r ->
  tmpi_intra_start_rh rh s = r.
Proof.
  intros HI HC <-. destruct HC as [Hy Hlive Hun Hst Herr Hlk Hctx Hch Hls Hlr].
  destruct (ni_chan _ _ HI _ _ _ Hch) as (Hcn & _).
  destruct (get_channel_spec _ _ _ _ Hch) as [Hget Hcm].
  assert (rh <> NULL) as Hnn by (eapply nonnull_law; [apply HI|done]).
  unfold tmpi_intra_start_rh. rewrite (proj2 (Z.eqb_neq _ _) Hnn).
  rewrite (bind_Ret _ _ _ _ _ (load_rh_spec _ _ _ Hy)), Herr, Hst. cbn [negb Z.eqb MPI_SUCCESS].
  rewrite (bind_Ret _ _ _ _ _ (grank_to_lrank_spec s _ (ni_netq _ _ HI))), (bind_Ret _ _ _ _ _ Hget).
  by rewrite (proj2 (Z.eqb_neq _ _) Hcn).
Qed.

(** The channel locked, and the queues changed. *)
Definition locked_st (s : node) (c : Z) (ch : tmpi_Channel) (q : qmem cmp_fn) : node :=
  s <| ch_mem := <[c := ch <| ch_lock := true |>]> (ch_mem s) |> <| qm := q |>.

Lemma start_rh_search s v rh y c ch ls lr :
  node_inv s v -> can_recv s v rh y c ch ls lr ->
  match take_first (satisfies s (common (HR y))) ls with
  | None => exists q', tmpi_intra_start_rh rh s = Ret MPI_SUCCESS
        (post s q' (<[rh := HR (y <| rh_stat := TMPI_PEND_STRT |>)]> (handles s)) (data s) (signals s)) /\
      R q' (v <| v_list := <[ch_rq ch := lr ++ [rh]]> (v_list v) |>)
  | Some (sh, ls') => exists q' h, handles s !! sh = Some h /\ sh <> rh /\
      R q' (v <| v_list := <[ch_sq ch := ls']> (v_list v) |>) /\
      tmpi_intra_start_rh rh s =
        ((if has (c_type (common h)) send_types then recv_from_sh rh sh
          else recv_from_rmsh c rh sh);; unlock_ch c;; mret MPI_SUCCESS) (locked_st s c ch q')
  end.
Proof.
  intros HI HC. pose proof (fun r => start_rh_code s v rh y c ch ls lr r HI HC) as Hcode.
  destruct HC as [Hy Hlive Hun Hst Herr Hlk Hctx Hch Hls Hlr].
  destruct (ni_chan _ _ HI _ _ _ Hch) as (Hcn & Hcl & Hsr & Hok).
  destruct Hok as (ls0 & lr0 & H1 & H2 & H3 & H4 & H5 & H6 & _).
  assert (ls0 = ls) as -> by congruence. assert (lr0 = lr) as -> by congruence.
  destruct (get_channel_spec _ _ _ _ Hch) as [_ Hcm].
  set (s1 := s <| ch_mem := <[c := ch <| ch_lock := true |>]> (ch_mem s) |>).
  assert (ch_mem s1 !! c = Some (ch <| ch_lock := true |>)) as Hc1 by (cbn; by rewrite lookup_insert_eq).
  pose proof (sq_find_spec s1 v c (ch <| ch_lock := true |>) ls y (ni_rep _ _ HI) Hc1 H1 H3 H5 Hctx) as Hfind.
  change (satisfies s1) with (satisfies s) in Hfind.
  destruct (take_first (satisfies s (common (HR y))) ls) as [[sh ls']|] eqn:Et.
  - destruct Hfind as (q' & Ef & HR'). destruct (satisfies_In _ _ _ _ _ Et) as (Hin & _ & _ & _).
    rewrite Forall_forall in H5. destruct (H5 sh Hin) as (h & Hh & _).
    assert (sh <> rh) as Hne by (intros ->; by apply (Hun _ _ Hls)).
    assert (sh <> NULL) as Hrn by (eapply nonnull_law; [apply HI|]; eapply live_law; [apply HI|exact Hls|done]).
    exists q', h. split_and!; try done. apply Hcode.
    rewrite (bind_Ret _ _ _ _ _ (lock_ch_spec s c ch Hcm Hcl)). fold s1.
    rewrite (bind_Ret _ _ _ _ _ Ef). rewrite (proj2 (Z.eqb_neq _ _) Hrn).
    rewrite bind_assoc. set (s2 := s1 <| qm := q' |>).
    rewrite (bind_Ret (load_handle sh) _ s2 h s2); [done|].
    unfold load_handle. mrun. by rewrite (Hh : handles s2 !! sh = Some h).
  - set (y' := y <| rh_stat := TMPI_PEND_STRT |>).
    destruct (enQ_law (qm s) v (ch_rq ch) lr rh (ni_rep _ _ HI) Hlr Hlive Hun) as (q' & Ee & HR').
    exists q'. split; [|exact HR']. apply Hcode.
    rewrite (bind_Ret _ _ _ _ _ (lock_ch_spec s c ch Hcm Hcl)). fold s1.
    rewrite (bind_Ret _ _ _ _ _ Hfind), Z.eqb_refl, bind_assoc.
    rewrite (bind_Ret _ _ _ _ _ (upd_rh_spec s1 rh _ y Hy)). fold y'.
    set (s2 := s1 <| handles := _ |>).
    assert (tmpi_rq_enq c rh s2 = Ret tt (post s1 q' (<[rh := HR y']> (handles s)) (data s) (signals s))) as Eq.
    { unfold tmpi_rq_enq. rewrite (bind_Ret _ _ _ _ _ (load_channel_spec s2 _ _ Hc1)).
      unfold on_queue. rewrite (zoom_Ret _ _ _ s2 tt q' Ee). by destruct s. }
    rewrite (bind_Ret _ _ _ _ _ Eq).
    rewrite (bind_Ret _ _ _ _ _ (unlock_ch_post s c ch _ _ _ _ Hcm Hcl)). done.
Qed.

(** The local send a search finds is pending. *)
Lemma start_rh_pending s v rh y c ch ls lr sh ls' x :
  node_inv s v -> can_recv s v rh y c ch ls lr ->
  take_first (satisfies s (common (HR y))) ls = Some (sh, ls') -> handles s !! sh = Some (HS x) ->
  sh_stat x = TMPI_PEND_STRT \/ sh_stat x = TMPI_PEND_WAIT \/ sh_stat x = TMPI_PEND_RELS.
Proof.
  intros HI HC Et Hx. destruct (ni_chan _ _ HI _ _ _ (cr_chan _ _ _ _ _ _ _ _ HC)) as (_ & _ & _ & Hok).
  destruct Hok as (ls0 & lr0 & H1 & _ & _ & _ & H5 & _).
  pose proof (cr_sq _ _ _ _ _ _ _ _ HC). assert (ls0 = ls) as -> by congruence.
  rewrite Forall_forall in H5. destruct (satisfies_In _ _ _ _ _ Et) as (Hin & _).
  destruct (H5 sh Hin) as (h & Hh & _ & Hp). rewrite Hx in Hh. injection Hh as <-. apply Hp.
Qed.

(** A local send whose sender is still there. *)
Lemma start_rh_match s v rh y c ch ls lr sh ls' x :
  node_inv s v -> can_recv s v rh y c ch ls lr ->
  take_first (satisfies s (common (HR y))) ls = Some (sh, ls') ->
  handles s !! sh = Some (HS x) ->
  sh_stat x = TMPI_PEND_STRT \/ sh_stat x = TMPI_PEND_WAIT ->
  exists q', tmpi_intra_start_rh rh s = Ret MPI_SUCCESS
      (post s q' (<[sh := HS (matched_sh x y)]> (<[rh := HR (matched_rh x y)]> (handles s)))
        (copied (data s) (rh_data y) (sh_curdata x) (Z.min (sh_buflen x) (rh_buflen y)))
        (if sh_stat x =? TMPI_PEND_WAIT then sh :: signals s else signals s)) /\
    R q' (v <| v_list := <[ch_sq ch := ls']> (v_list v) |>).
Proof.
  intros HI HC Et Hx Hst. pose proof (start_rh_search _ _ _ _ _ _ _ _ HI HC) as Hs.
  rewrite Et in Hs. destruct Hs as (q' & h & Hh & Hne & HR' & E). rewrite Hx in Hh. injection Hh as <-.
  exists q'. split; [|done]. rewrite E. cbn [c_type common].
  destruct HC as [Hy Hlive Hun _ _ _ _ Hch Hls Hlr].
  destruct (ni_chan _ _ HI _ _ _ Hch) as (Hcn & Hcl & _ & Hok).
  destruct (get_channel_spec _ _ _ _ Hch) as [_ Hcm].
  destruct Hok as (ls0 & lr0 & H1 & _ & _ & _ & H5 & _). assert (ls0 = ls) as -> by congruence.
  rewrite Forall_forall in H5. destruct (satisfies_In _ _ _ _ _ Et) as (Hin & _).
  destruct (H5 sh Hin) as (h & Hh & _ & Hp). rewrite Hx in Hh. injection Hh as <-. destruct Hp as (Hty & Hlx & _). rewrite Hty.
  rewrite (bind_Ret _ _ _ _ _ (recv_from_sh_spec (locked_st s c ch q') rh sh x y Hne Hx Hy Hlx Hst)).
  match goal with |- (unlock_ch c;; _) ?st = _ =>
    replace st with (post (s <| ch_mem := <[c := ch <| ch_lock := true |>]> (ch_mem s) |>) q'
      (<[sh := HS (matched_sh x y)]> (<[rh := HR (matched_rh x y)]> (handles s)))
      (copied (data s) (rh_data y) (sh_curdata x) (Z.min (sh_buflen x) (rh_buflen y)))
      (if sh_stat x =? TMPI_PEND_WAIT then sh :: signals s else signals s)) by done end.
  rewrite (bind_Ret _ _ _ _ _ (unlock_ch_post s c ch _ _ _ _ Hcm Hcl)). done.
Qed.

(** *** Freeing a send handle, and a receive that takes a message whose sender left *)

(** What the release of the system buffer of [x] does to the message buffers. *)
Definition buffer_freed (s : node) (x : SHandle) (m' : mbuf) : Prop :=
  if sh_sys_buf x =? NULL then m' = mb s
  else lrank (nq s) (sh_src x) >= 0 /\
       mb_free (lrank (nq s) (sh_src x)) (sh_sys_buf x) (mb s) = Ret tt m'.

Lemma free_sh_spec s v c ch l sh x m' :
  handles s !! sh = Some (HS x) -> netq_ok (nq s) -> ch_mem s !! c = Some ch ->
  R (qm s) v -> v_list v !! ch_sq ch = Some l -> sh ∈ v_live v -> unqueued v sh ->
  buffer_freed s x m' ->
  exists q', tmpi_intra_free_sh c sh s = Ret tt (s <| mb := m' |> <| qm := q' |>) /\
    R q' (v <| v_live := v_live v ∖ {[sh]} |>).
Proof.
  intros Hx Hq Hc HR Hl Hlive Hun Hb.
  destruct (freeElem_law _ _ _ _ _ HR Hl Hlive Hun) as (q' & E & HR').
  exists q'. split; [|done]. unfold tmpi_intra_free_sh.
  rewrite (bind_Ret _ _ _ _ _ (load_sh_spec _ _ _ Hx)). unfold buffer_freed in Hb.
  set (s1 := s <| mb := m' |>).
  assert (when (negb (sh_sys_buf x =? NULL))
    (local_id ← tmpi_grank_to_lrank (sh_src x);
     when (local_id >=? 0) (on_mbuf (mb_free local_id (sh_sys_buf x)))) s = Ret tt s1) as E1.
  { destruct (sh_sys_buf x =? NULL); cbn [negb when].
    - subst m' s1. by destruct s.
    - destruct Hb as [Hge Hb]. rewrite (bind_Ret _ _ _ _ _ (grank_to_lrank_spec s _ Hq)).
      assert ((lrank (nq s) (sh_src x) >=? 0) = true) as -> by lia. cbn [when].
      unfold on_mbuf. by rewrite (zoom_Ret _ _ _ _ _ _ Hb). }
  rewrite (bind_Ret _ _ _ _ _ E1).
  rewrite (bind_Ret _ _ _ _ _ (load_channel_spec s1 c ch Hc)).
  unfold on_queue. by rewrite (zoom_Ret _ _ _ s1 tt q' E).
Qed.

(** The sender after its message was taken. *)
Definition released_sh (x : SHandle) (n : Z) : SHandle :=
  x <| sh_buflen := n |> <| sh_stat := TMPI_FREE |> <| sh_errval := MPI_SUCCESS |>.

Lemma recv_released_code s rh sh x y c2 ch2 :
  sh <> rh -> handles s !! sh = Some (HS x) -> handles s !! rh = Some (HR y) ->
  sh_lock x = false -> sh_stat x = TMPI_PEND_RELS -> sh_type x <> MPI_PERSISTENT_SEND ->
  netq_ok (nq s) -> chan_at s (lrank (nq s) (sh_src x)) = Some (c2, ch2) -> c2 <> NULL ->
  recv_from_sh rh sh s = tmpi_intra_free_sh c2 sh
    (pair_st (s <| data := copied (data s) (rh_data y) (sh_curdata x) (Z.min (sh_buflen x) (rh_buflen y)) |>)
       sh (released_sh x (Z.min (sh_buflen x) (rh_buflen y))) rh (matched_rh x y)).
Proof.
  intros Hne Hx Hy Hl Hst Hty Hq Hch Hcn.
  destruct (recv_from_sh_code s rh sh x y Hne Hx Hy Hl) as (x1 & _ & Hm & ->).
  unfold released_sh. set (n := Z.min _ _) in *. set (D := copied _ _ _ _). clearbody D.
  set (s1 := s <| data := D |>). set (y1 := matched_rh x y). clearbody y1.
  rewrite Hst, (proj2 (Z.eqb_neq _ _) Hty). change (TMPI_PEND_RELS =? TMPI_PEND_WAIT) with false.
  change (TMPI_PEND_RELS =? TMPI_PEND_STRT) with false. rewrite Z.eqb_refl. cbv iota.
  rewrite (bind_Ret _ _ _ _ _ (pair_upd_sh s1 sh rh x1 y1 _)). cbv beta.
  rewrite Hm. set (x2 := _ <| sh_errval := MPI_SUCCESS |>). clearbody x2. set (s2 := pair_st s1 _ _ _ _).
  rewrite (bind_Ret _ _ _ _ _ (grank_to_lrank_spec s2 _ Hq)).
  destruct (get_channel_spec s2 _ _ _ Hch) as [Hget _].
  rewrite (bind_Ret _ _ _ _ _ Hget). subst s2.
  unfold unlock_sh. rewrite (bind_Ret _ _ _ _ _ (pair_upd_sh s1 sh rh x2 y1 _)).
  by rewrite (proj2 (Z.eqb_neq _ _) Hcn).
Qed.

Lemma chan_at_locked s c ch q i c2 ch2 :
  ch_mem s !! c = Some ch -> chan_at s i = Some (c2, ch2) ->
  exists ch2', chan_at (locked_st s c ch q) i = Some (c2, ch2') /\
    ch_sq ch2' = ch_sq ch2 /\ ch_rq ch2' = ch_rq ch2.
Proof.
  intros Hc. unfold chan_at, locked_st. cbn.
  destruct (_ || _); [done|]. destruct (tmpi_channel s) as [t|]; cbn; [|done].
  destruct (t !! i) as [a|]; cbn; [|done].
  destruct (ch_mem s !! a) as [b|] eqn:E; cbn; [|done]. intros [= <- <-].
  destruct (decide (a = c)) as [->|Hne].
  - rewrite lookup_insert_eq. cbn. eexists. split; [done|]. by rewrite Hc in E; injection E as <-.
  - rewrite lookup_insert_ne by done. rewrite E. cbn. eauto.
Qed.

(** A buffered send whose sender has left: the receive takes the data, and frees
    the handle and its buffer. *)
Lemma start_rh_released s v rh y c ch ls lr sh ls' x c2 ch2 m' :
  node_inv s v -> can_recv s v rh y c ch ls lr ->
  take_first (satisfies s (common (HR y))) ls = Some (sh, ls') ->
  handles s !! sh = Some (HS x) -> sh_stat x = TMPI_PEND_RELS -> sh_type x <> MPI_PERSISTENT_SEND ->
  chan_at s (lrank (nq s) (sh_src x)) = Some (c2, ch2) -> buffer_freed s x m' ->
  exists q', tmpi_intra_start_rh rh s = Ret MPI_SUCCESS
      (post s q' (<[sh := HS (released_sh x (Z.min (sh_buflen x) (rh_buflen y)))]>
                   (<[rh := HR (matched_rh x y)]> (handles s)))
        (copied (data s) (rh_data y) (sh_curdata x) (Z.min (sh_buflen x) (rh_buflen y)))
        (signals s) <| mb := m' |>) /\
    R q' (v <| v_list := <[ch_sq ch := ls']> (v_list v) |> <| v_live := v_live v ∖ {[sh]} |>).
Proof.
  intros HI HC Et Hx Hst Hpers Hc2 Hb. pose proof (start_rh_search _ _ _ _ _ _ _ _ HI HC) as Hs.
  rewrite Et in Hs. destruct Hs as (q' & h & Hh & Hne & HR' & E). rewrite Hx in Hh. injection Hh as <-.
  cbn [c_type common] in E.
  destruct HC as [Hy Hlive Hun _ _ _ _ Hch Hls Hlr].
  destruct (ni_chan _ _ HI _ _ _ Hch) as (Hcn & Hcl & Hsr & Hok).
  destruct (get_channel_spec _ _ _ _ Hch) as [_ Hcm].
  destruct Hok as (ls0 & lr0 & H1 & _ & _ & _ & H5 & _). assert (ls0 = ls) as -> by congruence.
  rewrite Forall_forall in H5. destruct (satisfies_In _ _ _ _ _ Et) as (Hin & Hsub & Hnd & _).
  destruct (H5 sh Hin) as (h & Hh & _ & Hp). rewrite Hx in Hh. injection Hh as <-.
  destruct Hp as (Hty & Hlx & _). rewrite Hty in E.
  destruct (ni_chan _ _ HI _ _ _ Hc2) as (Hcn2 & _ & _ & ls2 & _ & Hl2 & _).
  set (s0 := locked_st s c ch q') in *.
  destruct (chan_at_locked s c ch q' _ c2 ch2 Hcm Hc2) as (ch2' & Hc2' & Esq & Erq).
  set (v1 := v <| v_list := <[ch_sq ch := ls']> (v_list v) |>) in *.
  set (n := Z.min (sh_buflen x) (rh_buflen y)).
  set (st := pair_st (s0 <| data := copied (data s0) (rh_data y) (sh_curdata x) n |>)
               sh (released_sh x n) rh (matched_rh x y)).
  assert (unqueued v1 sh) as Hun1.
  { intros p l Hl Hin'. cbn in Hl. destruct (decide (p = ch_sq ch)) as [->|Hp].
    - rewrite lookup_insert_eq in Hl. injection Hl as <-. revert Hin'. apply Hnd.
      eapply nodup_law; [apply HI|exact Hls].
    - rewrite lookup_insert_ne in Hl by done. apply Hp. symmetry.
      eapply disjoint_law; [apply HI|exact Hls|exact Hl|exact Hin|exact Hin']. }
  assert (exists l, v_list v1 !! ch_sq ch2' = Some l) as [l1 Hl1].
  { rewrite Esq. cbn. destruct (decide (ch_sq ch2 = ch_sq ch)) as [->|Hp];
      [rewrite lookup_insert_eq|rewrite lookup_insert_ne by done]; eauto. }
  assert (handles st !! sh = Some (HS (released_sh x n))) as Hst1 by (cbn; by rewrite lookup_insert_eq).
  destruct (get_channel_spec _ _ _ _ Hc2') as [_ Hcm2].
  destruct (free_sh_spec st v1 c2 ch2' l1 sh (released_sh x n) m' Hst1 (ni_netq _ _ HI) Hcm2
    HR' Hl1 (live_law _ _ _ _ _ (ni_rep _ _ HI) Hls Hin) Hun1 Hb) as (q'' & Ef & HR'').
  exists q''. split; [|exact HR'']. rewrite E.
  rewrite (bind_Ret _ _ s0 tt (st <| mb := m' |> <| qm := q'' |>))
    by (rewrite (recv_released_code s0 rh sh x y c2 ch2' Hne Hx Hy Hlx Hst Hpers (ni_netq _ _ HI) Hc2' Hcn2);
        exact Ef).
  match goal with |- (unlock_ch c;; _) ?st = _ =>
    replace st with (post (s <| mb := m' |> <| ch_mem := <[c := ch <| ch_lock := true |>]> (ch_mem s) |>) q''
      (<[sh := HS (released_sh x n)]> (<[rh := HR (matched_rh x y)]> (handles s)))
      (copied (data s) (rh_data y) (sh_curdata x) n) (signals s)) by done end.
  set (sm := s <| mb := m' |>).
  rewrite (bind_Ret _ _ _ _ _ (unlock_ch_post sm c ch q'' _ _ _ Hcm Hcl)). done.
Qed.

(** The invariant after a receive is posted. *)
Lemma recv_posted_inv s v rh y c ch ls lr q' :
  node_inv s v -> can_recv s v rh y c ch ls lr ->
  take_first (satisfies s (common (HR y))) ls = None ->
  R q' (v <| v_list := <[ch_rq ch := lr ++ [rh]]> (v_list v) |>) ->
  node_inv (post s q' (<[rh := HR (y <| rh_stat := TMPI_PEND_STRT |>)]> (handles s)) (data s) (signals s))
    (v <| v_list := <[ch_rq ch := lr ++ [rh]]> (v_list v) |>).
Proof.
  intros HI HC Et HR'. destruct HC as [Hy Hlive Hun Hst Herr Hlk Hctx Hch Hls Hlr].
  destruct (ni_chan _ _ HI _ _ _ Hch) as (_ & _ & Hsr & Hok).
  eapply inv_post; [exact HI|exact Hch|exact HR'|done| | |].
  - intros p Hp1 Hp2. cbn. by rewrite lookup_insert_ne.
  - intros e p l Hl He Hp1 Hp2. rewrite lookup_insert_ne; [done|]. intros ->. by apply (Hun _ _ Hl).
  - destruct Hok as (ls0 & lr0 & H1 & H2 & H3 & H4 & H5 & H6 & H7).
    assert (ls0 = ls) as -> by congruence. assert (lr0 = lr) as -> by congruence.
    assert (forall e, e ∈ ls \/ e ∈ lr -> <[rh := HR (y <| rh_stat := TMPI_PEND_STRT |>)]> (handles s) !! e = handles s !! e) as Hold.
    { intros e [He|He]; apply lookup_insert_ne; intros ->; [by apply (Hun _ _ Hls)|by apply (Hun _ _ Hlr)]. }
    exists ls, (lr ++ [rh]). cbn. rewrite lookup_insert_eq, lookup_insert_ne by done.
    rewrite Forall_forall in H5. rewrite Forall_forall in H6. split_and!; try done.
    + apply Forall_forall. intros e He. eapply pending_send_frame; [|by apply H5]. apply Hold. auto.
    + apply Forall_app. split; [|apply Forall_singleton].
      * apply Forall_forall. intros e He. eapply pending_recv_frame; [|by apply H6]. apply Hold. auto.
      * exists (y <| rh_stat := TMPI_PEND_STRT |>). cbn. rewrite lookup_insert_eq. split_and!; auto.
    + intros a b Ha Hb Hm. apply elem_of_app in Hb as [Hb|Hb].
      * apply (H7 a b Ha Hb). eapply meets_frame; [| |exact Hm]; apply Hold; auto.
      * apply list_elem_of_singleton in Hb as ->. destruct Hm as (ha & Hha & Hacc). cbn in Hha.
        rewrite lookup_insert_ne in Hha by (intros <-; by apply (Hun _ _ Hls)).
        apply take_first_None in Et. rewrite Forall_forall in Et. specialize (Et a Ha).
        unfold satisfies in Et. rewrite Hha in Et.
        unfold accepts in Hacc. cbn [handles post upd eta_of eta_node] in Hacc. rewrite lookup_insert_eq in Hacc.
        change (env_matches (common ha) (common (HR y)) = true) in Hacc. congruence.
Qed.

(** The invariant after a receive took the send [sh] out of the queue. *)
Lemma recv_taken_inv s v rh y c ch ls lr sh ls' hs hr q' D S m' (L : gset Z) :
  node_inv s v -> can_recv s v rh y c ch ls lr ->
  take_first (satisfies s (common (HR y))) ls = Some (sh, ls') ->
  R q' (v <| v_list := <[ch_sq ch := ls']> (v_list v) |> <| v_live := L |>) ->
  node_inv (post s q' (<[sh := hs]> (<[rh := hr]> (handles s))) D S <| mb := m' |>)
    (v <| v_list := <[ch_sq ch := ls']> (v_list v) |> <| v_live := L |>).
Proof.
  intros HI HC Et HR'. destruct HC as [Hy Hlive Hun Hst Herr Hlk Hctx Hch Hls Hlr].
  destruct (ni_chan _ _ HI _ _ _ Hch) as (_ & _ & Hsr & Hok).
  destruct (satisfies_In _ _ _ _ _ Et) as (Hin & Hsub & Hnd & _).
  assert (sh ∉ ls') as Hrl by (apply Hnd; eapply nodup_law; [apply HI|exact Hls]).
  set (sm := s <| mb := m' |>).
  assert (node_inv sm v) as HIm by (destruct HI; by split).
  apply (inv_post sm v _ q' (<[sh := hs]> (<[rh := hr]> (handles s))) D S _ c ch HIm Hch HR'); [done| | |].
  - intros p Hp1 Hp2. cbn. by rewrite lookup_insert_ne.
  - intros e p l Hl He Hp1 Hp2. rewrite !lookup_insert_ne; [done| |].
    + intros ->. by apply (Hun _ _ Hl).
    + intros ->. apply Hp1. eapply disjoint_law; [apply HI|exact Hl|exact Hls|exact He|exact Hin].
  - apply (chan_ok_less_send sm v ch ls lr ls' q' (<[sh := hs]> (<[rh := hr]> (handles s))) D S Hok Hsr Hls Hlr Hsub).
    intros e [He|He]; rewrite !lookup_insert_ne; try done.
    + intros ->. by apply (Hun _ _ Hls), Hsub.
    + by intros ->.
    + intros ->. by apply (Hun _ _ Hlr).
    + intros ->. apply Hsr. eapply disjoint_law; [apply HI|exact Hls|exact Hlr|exact Hin|exact He].
Qed.

(** *** Completion *)

Lemma unlock_rh_spec s p y : handles s !! p = Some (HR y) ->
  unlock_rh p s = Ret tt (s <| handles := <[p := HR (y <| rh_lock := false |>)]> (handles s) |>).
Proof. apply upd_rh_spec. Qed.

Lemma free_rh_spec s v c ch l rh y :
  handles s !! rh = Some (HR y) -> ch_mem s !! c = Some ch ->
  R (qm s) v -> v_list v !! ch_rq ch = Some l -> rh ∈ v_live v -> unqueued v rh ->
  exists q', tmpi_intra_free_rh c rh s = Ret tt (s <| qm := q' |>) /\
    R q' (v <| v_live := v_live v ∖ {[rh]} |>).
Proof.
  intros Hy Hc HR Hl Hlive Hun.
  destruct (freeElem_law _ _ _ _ _ HR Hl Hlive Hun) as (q' & E & HR').
  exists q'. split; [|done]. unfold tmpi_intra_free_rh.
  rewrite (bind_Ret _ _ _ _ _ (load_rh_spec _ _ _ Hy)), (bind_Ret _ _ _ _ _ (load_channel_spec s c ch Hc)).
  unfold on_queue. by rewrite (zoom_Ret _ _ _ s tt q' E).
Qed.

(** The receive handle after its completion. *)
Definition done_rh (y : RHandle) : RHandle :=
  y <| rh_stat := TMPI_FREE |> <| rh_errval := MPI_SUCCESS |> <| rh_lock := false |>.

Lemma finish_rh_spec s v c ch rh y :
  node_inv s v -> handles s !! rh = Some (HR y) -> rh ∈ v_live v -> unqueued v rh ->
  rh_type y <> MPI_PERSISTENT_RECV -> chan_at s (lrank (nq s) (rh_dest y)) = Some (c, ch) ->
  exists q', finish_rh rh s = Ret MPI_REQUEST_NULL
      (post s q' (<[rh := HR (done_rh y)]> (handles s)) (data s) (signals s)) /\
    R q' (v <| v_live := v_live v ∖ {[rh]} |>).
Proof.
  intros HI Hy Hlive Hun Hty Hch. destruct (ni_chan _ _ HI _ _ _ Hch) as (Hcn & _ & _ & _ & lr & _ & Hlr & _).
  destruct (get_channel_spec _ _ _ _ Hch) as [Hget Hcm].
  unfold finish_rh. rewrite (bind_Ret _ _ _ _ _ (upd_rh_spec _ _ _ _ Hy)).
  set (y1 := y <| rh_stat := TMPI_FREE |> <| rh_errval := MPI_SUCCESS |>).
  set (s1 := s <| handles := <[rh := HR y1]> (handles s) |>).
  assert (handles s1 !! rh = Some (HR y1)) as Hy1 by (cbn; by rewrite lookup_insert_eq).
  rewrite (bind_Ret _ _ _ _ _ (load_rh_spec s1 _ _ Hy1)). cbn [rh_type y1 upd eta_of eta_RHandle].
  rewrite (proj2 (Z.eqb_neq _ _) Hty). cbn [negb].
  rewrite (bind_Ret _ _ _ _ _ (grank_to_lrank_spec s1 _ (ni_netq _ _ HI))).
  rewrite (bind_Ret (tmpi_intra_get_channel _) _ s1 c s1) by (apply (get_channel_spec s1 _ c ch); exact Hch).
  rewrite (bind_Ret _ _ _ _ _ (unlock_rh_spec s1 _ _ Hy1)).
  rewrite (proj2 (Z.eqb_neq _ _) Hcn). cbn [negb when].
  set (s2 := s1 <| handles := _ |>).
  assert (handles s2 !! rh = Some (HR (done_rh y))) as Hy2 by (cbn; by rewrite lookup_insert_eq).
  destruct (free_rh_spec s2 v c ch lr rh _ Hy2 Hcm (ni_rep _ _ HI) Hlr Hlive Hun) as (q' & E & HR').
  exists q'. split; [|done]. rewrite (bind_Ret _ _ _ _ _ E). unfold mret, M_ret. f_equal.
  subst s2 s1. unfold post. cbn. rewrite insert_insert_eq. by destruct s.
Qed.

Lemma lock_rh_spec s p y : handles s !! p = Some (HR y) -> rh_lock y = false ->
  lock_rh p s = Ret tt (s <| handles := <[p := HR (y <| rh_lock := true |>)]> (handles s) |>).
Proof.
  intros H Hl. unfold lock_rh. rewrite (bind_Ret _ _ _ _ _ (load_rh_spec _ _ _ H)), Hl. by apply upd_rh_spec.
Qed.

(** Changing a handle that is in no queue keeps the invariant. *)
Lemma inv_upd_handle s v p h :
  node_inv s v -> unqueued v p -> node_inv (s <| handles := <[p := h]> (handles s) |>) v.
Proof.
  intros HI Hun. destruct HI as [I1 I2 I3 I4]. split; try done.
  intros i c ch Hi. destruct (I3 i c ch Hi) as (? & ? & ? & Hok). split_and!; try done.
  eapply chan_ok_frame; [done|done|done| |exact Hok].
  intros e l [Hl|Hl] He; cbn; apply lookup_insert_ne; intros ->; by apply (Hun _ _ Hl).
Qed.
End Invariant.
