(* ===== verification/IntraInit.v ===== *)
(** Creating the channels: [tmpi_intra_init] either fails or leaves a node whose
    channels satisfy the invariant, with empty queues. *)
From S2P Require Import Prelude Types TQueue TQueueRep TQueueHeap Netq Group Comm IntraSR IntraRep.

(** A channel nobody has used. *)
Record new_chan (s : node) (v : qview cmp_fn) (c : Z) (ch : tmpi_Channel) : Prop := {
  nc_nonnull : c <> NULL;
  nc_mem : ch_mem s !! c = Some ch;
  nc_lock : ch_lock ch = false;
  nc_queues : ch_sq ch <> ch_rq ch;
  nc_sq : v_list v !! ch_sq ch = Some [];
  nc_rq : v_list v !! ch_rq ch = Some [];
  nc_sq_cmp : v_cmp v !! ch_sq ch = Some (Some SQ_CMP);
  nc_rq_cmp : v_cmp v !! ch_rq ch = Some (Some RQ_CMP)
}.

(** The channels lie below the break of the heap. *)
Definition ch_heap (s : node) : Prop := forall c, is_Some (ch_mem s !! c) -> 0 < c < brk (qm s).

Section Init.
Context (R : qmem cmp_fn -> qview cmp_fn -> Prop) {HQ : QueueSpec R} {HH : QueueHeap R}.

Lemma on_queue_Ret {A} (m : M (qmem cmp_fn) A) s a q :
  m (qm s) = Ret a q -> on_queue m s = Ret a (s <| qm := q |>).
Proof. intros H. unfold on_queue. by rewrite (zoom_Ret _ _ _ _ _ _ H). Qed.

Definition with_chan (s : node) (q : qmem cmp_fn) (c : Z) (ch : tmpi_Channel) : node :=
  s <| qm := q |> <| ch_mem := <[c := ch]> (ch_mem s) |>.
Definition with_queue (v : qview cmp_fn) (p : Z) (f : cmp_fn) : qview cmp_fn :=
  v <| v_list := <[p := []]> (v_list v) |> <| v_cmp := <[p := Some f]> (v_cmp v) |>.

(** What a failed creation leaves: no channel, and the queues there were. *)
Definition same_queues (v v' : qview cmp_fn) : Prop :=
  v_list v' = v_list v /\ forall p, is_Some (v_list v !! p) -> v_cmp v' !! p = v_cmp v !! p.
Definition unchanged (s s' : node) (v : qview cmp_fn) : Prop :=
  exists q' v', s' = s <| qm := q' |> /\ R q' v' /\ brk (qm s) <= brk q' /\ same_queues v v'.

Lemma destroy_new q v p f :
  R q (with_queue v p f) -> v_list v !! p = None ->
  exists q', Q_free p q = Ret tt q' /\ brk q' = brk q /\
    exists v', R q' v' /\ same_queues v v'.
Proof.
  intros HR Hp. destruct (destroy_law q _ p HR) as (q' & E & Hb & HR').
  { cbn. by rewrite lookup_insert_eq. }
  exists q'. split_and!; try done. eexists. split; [exact HR'|]. split; cbn.
  - by apply delete_insert_id.
  - intros p' [l Hl]. rewrite lookup_delete_ne by congruence. rewrite lookup_insert_ne by congruence. done.
Qed.

Lemma new_channel_spec s v :
  R (qm s) v -> ch_heap s -> 0 <= gTableSize (nq s) <= 256 * 256 ->
  exists r s', tmpi_intra_new_channel s = Ret r s' /\
    (r = NULL /\ unchanged s s' v \/
     exists q' sq rq, r <> NULL /\ ch_mem s !! r = None /\ brk (qm s) <= r < brk q' /\
       s' = with_chan s q' r (mkChannel false rq sq) /\ sq <> rq /\
       v_list v !! sq = None /\ v_list v !! rq = None /\
       R q' (with_queue (with_queue v sq SQ_CMP) rq RQ_CMP)).
Proof.
  intros HR Hh Hsize. unfold tmpi_intra_new_channel.
  assert (forall size, adjust_item_size size + sizeof_BUCKET <= 200 -> chunk_fits size (gTableSize (nq s) + 1)) as Hfit.
  { intros size Hs. unfold chunk_fits. nia. }
  rewrite (bind_Ret (on_netq netq_getGlobalSize) _ s (gTableSize (nq s)) s) by (by destruct s).
  set (np := gTableSize (nq s)) in *. clearbody np.
  destruct (malloc_law (qm s) v sizeof_Channel HR) as (c & q0 & E0 & HR0 & Hb0 & Hc); [done|].
  rewrite (bind_Ret _ _ _ _ _ (on_queue_Ret _ _ _ _ E0)).
  destruct (c =? NULL) eqn:Ec.
  { eexists _, _. split; [done|]. left. split; [done|]. eexists _, v. split_and!; try done. }
  apply Z.eqb_neq in Ec. assert (brk (qm s) <= c < brk q0) as Hcb by naive_solver.
  set (s0 := s <| qm := q0 |>).
  destruct (create_law q0 v (Some SQ_CMP) (Z.max sizeof_SHandle sizeof_RMSHandle) (np + 1) HR0 (Hfit (Z.max sizeof_SHandle sizeof_RMSHandle) ltac:(by vm_compute)))
    as (sq & q1 & E1 & Hb1 & Hsq).
  rewrite (bind_Ret _ _ _ _ _ (on_queue_Ret _ s0 _ _ E1)).
  set (s1 := s0 <| qm := q1 |>).
  assert (exists v1, R q1 v1 /\ (sq = NULL /\ v1 = v \/
    sq <> NULL /\ v_list v !! sq = None /\ v1 = with_queue v sq SQ_CMP)) as (v1 & HR1 & Hv1).
  { destruct Hsq as [[-> H]|(? & ? & H)]; [exists v|exists (with_queue v sq SQ_CMP)]; split; auto. }
  clear Hsq.
  destruct (create_law q1 v1 (Some RQ_CMP) sizeof_RHandle (np + 1) HR1 (Hfit sizeof_RHandle ltac:(by vm_compute))) as (rq & q2 & E2 & Hb2 & Hrq).
  rewrite (bind_Ret _ _ _ _ _ (on_queue_Ret _ s1 _ _ E2)).
  rewrite (bind_Ret (modify _) _ _ tt (with_chan s q2 c (mkChannel false rq sq))) by (by destruct s).
  assert (ch_mem s !! c = None) as Hfresh.
  { destruct (ch_mem s !! c) eqn:E; [|done]. destruct (Hh c); [eauto|lia]. }
  set (s2 := with_chan s q2 c (mkChannel false rq sq)).
  assert (forall q', s2 <| qm := q' |> <| ch_mem := delete c (ch_mem s2) |> = s <| qm := q' |>) as Hdel.
  { intros q'. subst s2. unfold with_chan. cbn. rewrite delete_insert_id by done. by destruct s. }
  assert (s2 <| qm := q2 |> = s2) as Hs2 by done.
  destruct Hv1 as [[-> ->]|(Hsn & Hsv & ->)]; destruct Hrq as [[-> HR2]|(Hrn & Hrv & HR2)].
  - (* neither queue *)
    rewrite !Z.eqb_refl. cbn [orb negb when]. rewrite !bind_mret.
    eexists _, _. split; [done|]. left. split; [done|]. exists q2, v. split_and!; [|done|lia|done].
    rewrite <- (Hdel q2). by rewrite Hs2.
  - rewrite Z.eqb_refl, (proj2 (Z.eqb_neq _ _) Hrn). cbn [orb negb when]. rewrite bind_mret.
    destruct (destroy_new _ _ _ _ HR2 Hrv) as (q3 & E3 & Hb3 & v3 & HR3 & Hv3).
    rewrite (bind_Ret _ _ _ _ _ (on_queue_Ret _ s2 _ _ E3)).
    eexists _, _. split; [done|]. left. split; [done|]. exists q3, v3. split_and!; [|done|lia|done].
    by rewrite <- (Hdel q3).
  - rewrite Z.eqb_refl, (proj2 (Z.eqb_neq _ _) Hsn). cbn [orb negb when].
    destruct (destroy_new _ _ _ _ HR2 Hsv) as (q3 & E3 & Hb3 & v3 & HR3 & Hv3).
    rewrite (bind_Ret _ _ _ _ _ (on_queue_Ret _ s2 _ _ E3)). rewrite bind_mret.
    eexists _, _. split; [done|]. left. split; [done|]. exists q3, v3. split_and!; [|done|lia|done].
    by rewrite <- (Hdel q3).
  - rewrite (proj2 (Z.eqb_neq _ _) Hrn), (proj2 (Z.eqb_neq _ _) Hsn). cbn [orb].
    eexists _, _. split; [done|]. right. exists q2, sq, rq. cbn in Hrv.
    apply lookup_insert_None in Hrv as [Hrv Hne]. split_and!; try done; lia.
Qed.

(** The channels from [lo] to [i] exist, the table has room for [np]. *)
Record built (s : node) (v : qview cmp_fn) (np lo i : Z) (t : gmap Z Z) : Prop := {
  bt_rep : R (qm s) v;
  bt_heap : ch_heap s;
  bt_size : tmpi_channel_size s = np;
  bt_table : tmpi_channel s = Some t;
  bt_done : forall j, lo <= j < i -> exists c ch, t !! j = Some c /\ new_chan s v c ch;
  bt_todo : forall j, i <= j < np -> t !! j = Some NULL;
  bt_apart : forall j k c c' ch ch', lo <= j < i -> lo <= k < i -> j <> k ->
    t !! j = Some c -> t !! k = Some c' -> ch_mem s !! c = Some ch -> ch_mem s !! c' = Some ch' ->
    c <> c' /\ apart ch ch'
}.

Lemma channel_at_spec s t i c : tmpi_channel s = Some t -> t !! i = Some c -> channel_at i s = Ret c s.
Proof. intros Ht Hc. unfold channel_at. mrun. rewrite Ht. mrun. by rewrite Hc. Qed.
Lemma set_channel_spec s t i c c0 : tmpi_channel s = Some t -> t !! i = Some c0 ->
  set_channel i c s = Ret tt (s <| tmpi_channel := Some (<[i := c]> t) |>).
Proof. intros Ht Hc. unfold set_channel. mrun. rewrite Ht. mrun. by rewrite Hc. Qed.

(** A channel is kept when its memory and its queues are. *)
Lemma new_chan_frame s s' v v' c ch :
  new_chan s v c ch -> ch_mem s' !! c = ch_mem s !! c ->
  (forall p, p = ch_sq ch \/ p = ch_rq ch -> v_list v' !! p = v_list v !! p /\ v_cmp v' !! p = v_cmp v !! p) ->
  new_chan s' v' c ch.
Proof.
  intros [A1 A2 A3 A4 A5 A6 A7 A8] Hc Hp.
  destruct (Hp (ch_sq ch)) as [P1 P2]; [by left|]. destruct (Hp (ch_rq ch)) as [P3 P4]; [by right|].
  split; congruence.
Qed.

Lemma built_step s v np i t c q' sq rq :
  built s v np 0 i t -> 0 <= i < np ->
  c <> NULL -> ch_mem s !! c = None -> brk (qm s) <= c < brk q' -> sq <> rq ->
  v_list v !! sq = None -> v_list v !! rq = None ->
  R q' (with_queue (with_queue v sq SQ_CMP) rq RQ_CMP) ->
  built (with_chan s q' c (mkChannel false rq sq) <| tmpi_channel := Some (<[i := c]> t) |>)
    (with_queue (with_queue v sq SQ_CMP) rq RQ_CMP) np 0 (i + 1) (<[i := c]> t).
Proof.
  intros [B1 B2 B3 B4 B5 B6 B7] Hi Hcn Hcf Hcb Hsr Hsv Hrv HR'.
  set (s' := _ <| tmpi_channel := _ |>). set (v' := with_queue _ rq RQ_CMP).
  assert (forall k d, 0 <= k < i -> t !! k = Some d -> exists ch, new_chan s v d ch /\ d <> c /\
    (forall p, p = ch_sq ch \/ p = ch_rq ch -> p <> sq /\ p <> rq)) as Hold.
  { intros k d Hk Hd. destruct (B5 k Hk) as (d' & ch & Hd' & Hn). assert (d' = d) as -> by congruence.
    exists ch. destruct Hn as [A1 A2 A3 A4 A5 A6 A7 A8]. split_and!; [done|congruence|].
    intros p [-> | ->]; split; intros Hp; congruence. }
  assert (new_chan s' v' c (mkChannel false rq sq)) as Hnew.
  { split; cbn; try done; rewrite ?lookup_insert_eq; try done;
      [rewrite lookup_insert_ne by done; by rewrite lookup_insert_eq ..]. }
  split; try done.
  - intros d [ch Hd]. cbn in Hd |- *. destruct (decide (d = c)) as [->|Hne]; [pose proof (brk_law _ _ B1); lia|].
    rewrite lookup_insert_ne in Hd by done. destruct (B2 d) as [? ?]; [eauto|lia].
  - intros j Hj. destruct (decide (j = i)) as [->|Hne].
    + rewrite lookup_insert_eq. eauto.
    + destruct (B5 j) as (d & ch & Hd & _); [lia|]. rewrite lookup_insert_ne by done.
      destruct (Hold j d) as (ch' & Hn & Hdc & Hp); [lia|done|]. exists d, ch'. split; [done|].
      eapply new_chan_frame; [exact Hn| |].
      * cbn. by rewrite lookup_insert_ne.
      * intros p Hpp. destruct (Hp p Hpp). cbn. by rewrite !lookup_insert_ne.
  - intros j Hj. rewrite lookup_insert_ne by lia. apply B6. lia.
  - assert (forall k d ch0, 0 <= k < i -> t !! k = Some d -> ch_mem s' !! d = Some ch0 ->
      d <> c /\ apart (mkChannel false rq sq) ch0 /\ apart ch0 (mkChannel false rq sq)) as Hap.
    { intros k d ch0 Hk Hd Hm. destruct (Hold k d Hk Hd) as (ch & [_ Hmem _ _ _ _ _ _] & Hdc & Hp).
      cbn in Hm. rewrite lookup_insert_ne in Hm by done. rewrite Hmem in Hm. injection Hm as <-.
      destruct (Hp (ch_sq ch)) as [? ?]; [by left|]. destruct (Hp (ch_rq ch)) as [? ?]; [by right|].
      unfold apart. cbn. split_and!; congruence. }
    intros j k d d' ch ch' Hj Hk Hjk Hd Hd' Hm Hm'.
    destruct (decide (j = i)) as [->|Hji]; [|destruct (decide (k = i)) as [->|Hki]].
    + rewrite lookup_insert_eq in Hd. injection Hd as <-. rewrite lookup_insert_ne in Hd' by done.
      destruct (Hap k d' ch') as (? & ? & ?); [lia|done|done|].
      cbn in Hm. rewrite lookup_insert_eq in Hm. injection Hm as <-. split; [congruence|done].
    + rewrite lookup_insert_eq in Hd'. injection Hd' as <-. rewrite lookup_insert_ne in Hd by done.
      destruct (Hap j d ch) as (? & ? & ?); [lia|done|done|].
      cbn in Hm'. rewrite lookup_insert_eq in Hm'. injection Hm' as <-. by split.
    + rewrite lookup_insert_ne in Hd by done. rewrite lookup_insert_ne in Hd' by done.
      destruct (Hap j d ch) as (Hdc & _); [lia|done|done|]. destruct (Hap k d' ch') as (Hdc' & _); [lia|done|done|].
      cbn in Hm, Hm'. rewrite lookup_insert_ne in Hm by done. rewrite lookup_insert_ne in Hm' by done.
      eapply (B7 j k); eauto; lia.
Qed.

(** Deleting a channel nobody has used. *)
Lemma del_channel_spec s v c ch :
  R (qm s) v -> new_chan s v c ch ->
  exists q' v', tmpi_intra_del_channel c s = Ret 0 (s <| qm := q' |> <| ch_mem := delete c (ch_mem s) |>) /\
    brk q' = brk (qm s) /\ R q' v' /\
    (forall p, p <> ch_sq ch -> p <> ch_rq ch -> v_list v' !! p = v_list v !! p /\ v_cmp v' !! p = v_cmp v !! p).
Proof.
  intros HR [A1 A2 A3 A4 A5 A6 A7 A8]. unfold tmpi_intra_del_channel.
  rewrite (proj2 (Z.eqb_neq _ _) A1), (bind_Ret _ _ _ _ _ (load_channel_spec s c ch A2)).
  destruct (Z.eqb_spec (ch_sq ch) NULL) as [Hs|Hs], (Z.eqb_spec (ch_rq ch) NULL) as [Hr|Hr]; cbn [negb when].
  - congruence.
  - rewrite bind_mret. destruct (destroy_law _ _ _ HR A6) as (q1 & E1 & Hb1 & HR1).
    rewrite (bind_Ret _ _ _ _ _ (on_queue_Ret _ s _ _ E1)).
    eexists q1, _. split_and!; [done|congruence|exact HR1|].
    intros p Hp1 Hp2. cbn. by rewrite !lookup_delete_ne.
  - destruct (destroy_law _ _ _ HR A5) as (q1 & E1 & Hb1 & HR1).
    rewrite (bind_Ret _ _ _ _ _ (on_queue_Ret _ s _ _ E1)). rewrite bind_mret.
    eexists q1, _. split_and!; [done|congruence|exact HR1|].
    intros p Hp1 Hp2. cbn. by rewrite !lookup_delete_ne.
  - destruct (destroy_law _ _ _ HR A5) as (q1 & E1 & Hb1 & HR1).
    rewrite (bind_Ret _ _ _ _ _ (on_queue_Ret _ s _ _ E1)). set (s1 := s <| qm := q1 |>).
    destruct (destroy_law q1 _ (ch_rq ch) HR1) as (q2 & E2 & Hb2 & HR2).
    { cbn. by rewrite lookup_delete_ne. }
    rewrite (bind_Ret _ _ _ _ _ (on_queue_Ret _ s1 _ _ E2)).
    eexists q2, _. split_and!; [done|congruence|exact HR2|].
    intros p Hp1 Hp2. cbn. by rewrite !lookup_delete_ne.
Qed.

Lemma del_channels_total n s v np lo i t :
  built s v np lo i t -> lo + Z.of_nat n = i ->
  exists s', del_channels n lo s = Ret tt s'.
Proof.
  revert s v lo. induction n as [|n IH]; intros s v lo HB Hn; [by eexists|]. cbn.
  destruct (bt_done _ _ _ _ _ _ HB lo) as (c & ch & Hc & Hnew); [lia|].
  rewrite (bind_Ret _ _ _ _ _ (channel_at_spec s t lo c (bt_table _ _ _ _ _ _ HB) Hc)).
  destruct (del_channel_spec s v c ch (bt_rep _ _ _ _ _ _ HB) Hnew) as (q' & v' & E & Hb & HR' & Hv).
  rewrite (bind_Ret _ _ _ _ _ E). eapply (IH _ v'); [|lia].
  destruct HB as [B1 B2 B3 B4 B5 B6 B7]. destruct Hnew as [_ Hm _ _ _ _ _ _].
  split; try done.
  - intros d Hd. cbn in *. rewrite Hb. apply B2.
    destruct Hd as [x [_ Hd]%lookup_delete_Some]. eauto.
  - intros j Hj. destruct (B5 j) as (d & ch' & Hd & Hn'); [lia|]. exists d, ch'. split; [done|].
    assert (c <> d /\ apart ch ch') as [Hcd (P1 & P2 & P3 & P4)].
    { eapply (B7 lo j); [lia|lia|lia|done|done|done|exact (nc_mem _ _ _ _ Hn')]. }
    eapply new_chan_frame; [exact Hn'| |].
    + cbn. by rewrite lookup_delete_ne.
    + intros p [-> | ->]; apply Hv; congruence.
  - intros j k d d' c1 c2 Hj Hk Hjk Hd Hd' Hm1 Hm2. cbn in Hm1, Hm2.
    apply lookup_delete_Some in Hm1 as [_ Hm1]. apply lookup_delete_Some in Hm2 as [_ Hm2].
    eapply (B7 j k); eauto; lia.
Qed.

Lemma init_channels_spec n s v np i t :
  built s v np 0 i t -> 0 <= gTableSize (nq s) <= 256 * 256 -> 0 <= i -> i + Z.of_nat n = np ->
  exists b s', init_channels n i s = Ret b s' /\
    (b = true -> nq s' = nq s /\ exists v' t', built s' v' np 0 np t').
Proof.
  revert s v i t. induction n as [|n IH]; intros s v i t HB Hsize Hi Hn.
  { eexists _, _. split; [done|]. intros _. split; [done|]. assert (np = i) as -> by lia. by exists v, t. }
  cbn. destruct (new_channel_spec s v (bt_rep _ _ _ _ _ _ HB) (bt_heap _ _ _ _ _ _ HB) Hsize) as (c & s1 & E & Hc).
  rewrite (bind_Ret _ _ _ _ _ E).
  pose proof (bt_todo _ _ _ _ _ _ HB i ltac:(lia)) as Hti.
  destruct Hc as [[-> (q' & v' & -> & HR' & Hbq & Hv1 & Hv2)]|(q' & sq & rq & Hcn & Hcf & Hcb & -> & Hsr & Hs & Hr & HR')].
  - set (s1 := s <| qm := q' |>).
    rewrite (bind_Ret _ _ _ _ _ (set_channel_spec s1 t i NULL NULL (bt_table _ _ _ _ _ _ HB) Hti)).
    rewrite insert_id by done. rewrite Z.eqb_refl.
    assert (s1 <| tmpi_channel := Some t |> = s1) as ->.
    { pose proof (bt_table _ _ _ _ _ _ HB) as Ht. subst s1. destruct s. cbn in *. by subst. }
    (* the queues of the channels made so far are those of [v] *)
    assert (built s1 v' np 0 i t) as HB1.
    { destruct HB as [B1 B2 B3 B4 B5 B6 B7]. split; try done.
      - intros d Hd. specialize (B2 d Hd). cbn. lia.
      - intros j Hj. destruct (B5 j Hj) as (d & ch & Hd & Hn'). exists d, ch. split; [done|].
        eapply new_chan_frame; [exact Hn'|done|]. destruct Hn' as [_ _ _ _ Hs Hr _ _].
        intros p [-> | ->]; rewrite Hv1, Hv2 by eauto; done. }
    destruct (del_channels_total (Z.to_nat i) s1 v' np 0 i t HB1) as [s2 E2]; [lia|].
    rewrite (bind_Ret _ _ _ _ _ E2). by eexists _, _.
  - set (s1 := with_chan s q' c (mkChannel false rq sq)).
    rewrite (bind_Ret _ _ _ _ _ (set_channel_spec s1 t i c NULL (bt_table _ _ _ _ _ _ HB) Hti)).
    rewrite (proj2 (Z.eqb_neq _ _) Hcn).
    pose proof (built_step s v np i t c q' sq rq HB ltac:(lia) Hcn Hcf Hcb Hsr Hs Hr HR') as HB'.
    destruct (IH _ _ (i + 1) _ HB' Hsize) as (b & s' & E' & Hb); [lia|lia|].
    exists b, s'. split; [exact E'|exact Hb].
Qed.

(** Every process of the node has a channel, with empty queues. *)
Definition channels_ready (s : node) (v : qview cmp_fn) (np : Z) : Prop :=
  tmpi_channel_size s = np /\
  forall i, 0 <= i < np -> exists c ch, chan_at s i = Some (c, ch) /\
    v_list v !! ch_sq ch = Some [] /\ v_list v !! ch_rq ch = Some [].

Lemma built_chan_at s v np t i c ch :
  built s v np 0 np t -> chan_at s i = Some (c, ch) ->
  0 <= i < np /\ t !! i = Some c /\ ch_mem s !! c = Some ch.
Proof.
  intros HB. unfold chan_at. rewrite (bt_size _ _ _ _ _ _ HB), (bt_table _ _ _ _ _ _ HB). cbn.
  destruct (_ || _) eqn:Ho; [done|]. apply orb_false_iff in Ho as [H1%Z.ltb_ge H2].
  destruct (t !! i) as [c'|]; cbn; [|done]. destruct (ch_mem s !! c') eqn:E; cbn; [|done].
  intros [= -> ->]. split_and!; try done. rewrite Z.geb_leb in H2. apply Z.leb_gt in H2. lia.
Qed.

Lemma built_inv s v np t :
  built s v np 0 np t -> netq_ok (nq s) -> node_inv R s v /\ channels_ready s v np.
Proof.
  intros HB Hq. split.
  - split; [apply HB|done| |].
    + intros i c ch Hc. destruct (built_chan_at _ _ _ _ _ _ _ HB Hc) as (Hi & Ht & Hm).
      destruct (bt_done _ _ _ _ _ _ HB i Hi) as (c' & ch' & Ht' & Hn).
      assert (c' = c) as -> by congruence. assert (ch' = ch) as -> by (pose proof (nc_mem _ _ _ _ Hn); congruence).
      destruct Hn as [A1 _ A3 A4 A5 A6 A7 A8]. split_and!; try done.
      exists [], []. split_and!; try done. by intros a b Ha%not_elem_of_nil.
    + intros i j c c' ch ch' Hc Hc' Hij.
      destruct (built_chan_at _ _ _ _ _ _ _ HB Hc) as (Hi & Ht & Hm).
      destruct (built_chan_at _ _ _ _ _ _ _ HB Hc') as (Hj & Ht' & Hm').
      by destruct (bt_apart _ _ _ _ _ _ HB i j c c' ch ch').
  - split; [apply HB|]. intros i Hi.
    destruct (bt_done _ _ _ _ _ _ HB i Hi) as (c & ch & Ht & Hn). destruct Hn as [_ Hm _ _ A5 A6 _ _].
    exists c, ch. split_and!; try done. unfold chan_at.
    rewrite (bt_size _ _ _ _ _ _ HB), (bt_table _ _ _ _ _ _ HB).
    assert ((i <? 0) || (i >=? np) = false) as -> by (apply orb_false_iff; lia).
    cbn. rewrite Ht. cbn. by rewrite Hm.
Qed.

Lemma calloc_lookup {A} (n i : Z) (a : A) : 0 <= i < n -> calloc_array n a !! i = Some a.
Proof.
  intros Hi. unfold calloc_array. apply elem_of_list_to_map.
  - rewrite <- list_fmap_compose. change (NoDup ((fun i : Z => i) <$> seqZ 0 n)).
    rewrite list_fmap_id. apply NoDup_seqZ.
  - apply list_elem_of_fmap. exists i. split; [done|]. apply elem_of_seqZ. lia.
Qed.

Lemma init_spec s v np :
  R (qm s) v -> ch_heap s -> netq_ok (nq s) -> 0 < np ->
  exists r s', tmpi_intra_init np s = Ret r s' /\
    (r = -1 \/ r = 0 /\ exists v', node_inv R s' v' /\ channels_ready s' v' np).
Proof.
  intros HR Hh Hq Hnp. unfold tmpi_intra_init.
  rewrite (proj2 (Z.leb_gt _ _) Hnp).
  rewrite (bind_Ret (modify _) _ s tt (s <| tmpi_channel_size := np |>)) by done.
  set (s0 := s <| tmpi_channel_size := np |>).
  destruct (malloc_law (qm s) v (np * sizeof_ptr) HR) as (a & q & E & HR1 & Hb & Ha).
  { unfold sizeof_ptr. lia. }
  rewrite (bind_Ret _ _ _ _ _ (on_queue_Ret _ s0 _ _ E)).
  destruct (a =? NULL) eqn:Ea; [eexists _, _; split; [done|by left]|].
  set (s1 := s0 <| qm := q |> <| tmpi_channel := Some (calloc_array np NULL) |>).
  rewrite (bind_Ret (modify _) _ _ tt s1) by done.
  assert (built s1 v np 0 0 (calloc_array np NULL)) as HB.
  { split; try done.
    - intros c Hc. specialize (Hh c Hc). cbn. lia.
    - intros j Hj. lia.
    - intros j Hj. by apply calloc_lookup.
    - intros. lia. }
  destruct (init_channels_spec (Z.to_nat np) s1 v np 0 _ HB) as (ok & s2 & E2 & Hok);
    [destruct Hq as (? & _ & ? & ?); cbn; lia|lia|lia|].
  rewrite (bind_Ret _ _ _ _ _ E2). destruct ok; cbn [negb]; [|eexists _, _; split; [done|by left]].
  destruct Hok as (Hnq & v' & t' & HB'); [done|].
  eexists _, _. split; [done|]. right. split; [done|]. exists v'.
  destruct (built_inv _ _ _ _ HB') as [HI HC]; [by rewrite Hnq|]. split.
  - by destruct HI.
  - by destruct HC.
Qed.
End Init.

(** ** A node to start from *)

(** Two processes of one machine, on a heap of 64 KB each for queues, groups and
    message buffers. *)
Definition netq2 : netq :=
  mkNetq (Some [mkID 0 0; mkID 0 1]) 2 (Some [0; 1]) 2 true false [] (mkSA 0 0 64 false) 1 0 (Some [-1]) [] ∅.
Definition cstate2 : cstate :=
  mkCstate {[ 16 := zero_comm <| cm_cookie := MPI_COMM_COOKIE |> <| cm_np := 2 |> <| cm_local_rank := 0 |>
                     <| cm_pt2pt_context := MPI_COMM_WORLD_PT2PT_CONTEXT |>;
              80 := zero_comm <| cm_cookie := MPI_COMM_COOKIE |> <| cm_np := 2 |> <| cm_local_rank := 1 |>
                     <| cm_pt2pt_context := MPI_COMM_WORLD_PT2PT_CONTEXT |> ]}
    (Some {[ 0 := 16; 1 := 80 ]}) 0 0 0 0 (mkGmem ∅ ∅ 4096 65536).
Definition mbuf2 : mbuf :=
  mkMbuf {[ 0 := 8192; 1 := 16384 ]} {[ 0 := NULL; 1 := NULL ]} {[ 0 := Some false; 1 := Some false ]}
    {[ 8192 := BH NULL NULL 1 8192; 16384 := BH NULL NULL 1 8192 ]} 32768 32768.
Definition node0 : node :=
  mkNode netq2 cstate2 mbuf2 (mkQmem ∅ ∅ 4096 65536) ∅ ∅ None 0 ∅ (mkSA 0 0 64 false) [].

Lemma node0_ok : Rep (qm node0) (QView ∅ ∅ ∅) /\ ch_heap node0 /\ netq_ok (nq node0).
Proof.
  split_and!.
  - by apply Rep_empty.
  - intros c [x Hx]. done.
  - exists [mkID 0 0; mkID 0 1]. done.
Qed.

Definition node2 : node :=
  match tmpi_intra_init 2 node0 with Ret _ s => s | _ => node0 end.
Lemma node2_run : tmpi_intra_init 2 node0 = Ret 0 node2.
Proof. vm_compute. reflexivity. Qed.
Lemma node2_inv : exists v, node_inv Rep node2 v /\ channels_ready node2 v 2.
Proof.
  destruct node0_ok as (H1 & H2 & H3).
  destruct (init_spec Rep node0 _ 2 H1 H2 H3) as (r & s & E & H); [lia|].
  rewrite node2_run in E. apply Ret_inj in E as [<- <-]. destruct H as [H|[_ H]]; [done|exact H].
Qed.
