(* ===== verification/IntraWait.v ===== *)
(** Completing a request: what waiting does to a handle that was matched, to one
    that is still queued, and to a buffered send, with the invariant of the node. *)
From S2P Require Import Prelude Types TQueue TQueueRep Netq Group Comm IntraSR IntraRep.

(** The envelopes the comparison functions look at. *)
Definition same_env (h h' : handle) : Prop :=
  c_src (common h) = c_src (common h') /\ c_tag (common h) = c_tag (common h') /\
  c_context (common h) = c_context (common h').

Lemma env_matches_same a a' b b' : same_env a a' -> same_env b b' ->
  env_matches (common a) (common b) = env_matches (common a') (common b').
Proof. intros (A1 & A2 & A3) (B1 & B2 & B3). unfold env_matches. by rewrite A1, A2, A3, B1, B2, B3. Qed.

Lemma same_env_refl h : same_env h h.
Proof. done. Qed.

Lemma meets_same s p h h' a b :
  handles s !! p = Some h -> same_env h h' ->
  meets (s <| handles := <[p := h']> (handles s) |>) a b -> meets s a b.
Proof.
  intros Hp He (ha & Hha & Hacc). unfold accepts in Hacc. cbn [handles upd eta_of eta_node] in *.
  assert (forall q g, <[p := h']> (handles s) !! q = Some g -> exists g0, handles s !! q = Some g0 /\ same_env g0 g) as Hold.
  { intros q g Hq. destruct (decide (q = p)) as [->|Hne].
    - rewrite lookup_insert_eq in Hq. injection Hq as <-. eauto.
    - rewrite lookup_insert_ne in Hq by done. eauto using same_env_refl. }
  destruct (Hold a ha Hha) as (ha0 & Ha0 & Ea). exists ha0. split; [done|].
  unfold accepts. destruct (<[p := h']> (handles s) !! b) as [hb|] eqn:Eb; [|done].
  destruct (Hold b hb Eb) as (hb0 & Hb0 & Eb0). rewrite Hb0. by rewrite (env_matches_same _ _ _ _ Ea Eb0).
Qed.

Section Wait.
Context (R : qmem cmp_fn -> qview cmp_fn -> Prop) {HQ : QueueSpec R}.

(** A handle may change in its queue, as long as it stays pending with the same
    envelope. *)
Lemma inv_upd_pending s v p h h' :
  node_inv R s v -> handles s !! p = Some h -> same_env h h' ->
  let s' := s <| handles := <[p := h']> (handles s) |> in
  (pending_send s p -> pending_send s' p) -> (pending_recv s p -> pending_recv s' p) ->
  node_inv R s' v.
Proof.
  intros HI Hp He s' Hs Hr. destruct HI as [I1 I2 I3 I4]. split; try done.
  intros i c ch Hi. destruct (I3 i c ch Hi) as (? & ? & ? & ls & lr & H1 & H2 & H3 & H4 & H5 & H6 & H7).
  split_and!; try done. exists ls, lr. rewrite Forall_forall in H5. rewrite Forall_forall in H6.
  split_and!; try done.
  - apply Forall_forall. intros e Hin. destruct (decide (e = p)) as [->|Hne]; [by apply Hs, H5|].
    eapply pending_send_frame; [|by apply H5]. cbn. by apply lookup_insert_ne.
  - apply Forall_forall. intros e Hin. destruct (decide (e = p)) as [->|Hne]; [by apply Hr, H6|].
    eapply pending_recv_frame; [|by apply H6]. cbn. by apply lookup_insert_ne.
  - intros a b Ha Hb Hm. apply (H7 a b Ha Hb). by eapply meets_same.
Qed.

(** The invariant when a handle in no queue is given back. *)
Lemma inv_freed s v p h q' L m' :
  node_inv R s v -> unqueued v p -> R q' (v <| v_live := L |>) ->
  node_inv R (post s q' (<[p := h]> (handles s)) (data s) (signals s) <| mb := m' |>) (v <| v_live := L |>).
Proof.
  intros HI Hun HR'. destruct HI as [I1 I2 I3 I4]. split; try done.
  intros i c ch Hi. destruct (I3 i c ch Hi) as (? & ? & ? & Hok). split_and!; try done.
  eapply chan_ok_frame; [done|done|done| |exact Hok].
  intros e l [Hl|Hl] He; cbn; apply lookup_insert_ne; intros ->; by apply (Hun _ _ Hl).
Qed.

(** *** Receives *)

(** The handle of a receive that is about to be waited for by its owner. *)
Record owned_rh (s : node) (v : qview cmp_fn) (rh : Z) (y : RHandle) : Prop := {
  or_handle : handles s !! rh = Some (HR y);
  or_nonnull : rh <> NULL;
  or_lock : rh_lock y = false
}.

Lemma wait_rh_matched s v rh y c ch st :
  node_inv R s v -> owned_rh s v rh y -> rh ∈ v_live v -> unqueued v rh ->
  rh_stat y = TMPI_MATCH -> rh_type y <> MPI_PERSISTENT_RECV ->
  chan_at s (lrank (nq s) (rh_dest y)) = Some (c, ch) ->
  exists q', tmpi_intra_wait_rh rh st s =
      Ret (Ready (Completion MPI_SUCCESS MPI_REQUEST_NULL (status_rh st y)))
        (post s q' (<[rh := HR (done_rh y)]> (handles s)) (data s) (signals s)) /\
    R q' (v <| v_live := v_live v ∖ {[rh]} |>).
Proof.
  intros HI [Hy Hnn Hl] Hlive Hun Hst Hty Hch. unfold tmpi_intra_wait_rh.
  rewrite (proj2 (Z.eqb_neq _ _) Hnn), (bind_Ret _ _ _ _ _ (load_rh_spec _ _ _ Hy)), Hst.
  change (has TMPI_MATCH recv_waitable) with true. cbn [negb].
  rewrite (bind_Ret _ _ _ _ _ (lock_rh_spec s rh y Hy Hl)). rewrite Z.eqb_refl.
  set (y1 := y <| rh_lock := true |>). set (s1 := s <| handles := <[rh := HR y1]> (handles s) |>).
  assert (handles s1 !! rh = Some (HR y1)) as Hy1 by (cbn; by rewrite lookup_insert_eq).
  assert (node_inv R s1 v) as HI1 by (by apply inv_upd_handle).
  destruct (finish_rh_spec R s1 v c ch rh y1 HI1 Hy1 Hlive Hun Hty Hch) as (q' & E & HR').
  exists q'. split; [|done]. unfold complete_rh. rewrite bind_assoc.
  rewrite (bind_Ret _ _ _ _ _ (load_rh_spec s1 _ _ Hy1)), bind_assoc, (bind_Ret _ _ _ _ _ E), bind_mret.
  unfold mret, M_ret. f_equal. subst s1 y1. unfold post. cbn. by rewrite insert_insert_eq.
Qed.

Lemma wake_rh_matched s v rh y c ch st :
  node_inv R s v -> owned_rh s v rh y -> rh ∈ v_live v -> unqueued v rh ->
  rh_stat y = TMPI_MATCH -> rh_type y <> MPI_PERSISTENT_RECV ->
  chan_at s (lrank (nq s) (rh_dest y)) = Some (c, ch) ->
  resume_wait AT_RECV rh st s = tmpi_intra_wait_rh rh st s.
Proof.
  intros HI [Hy Hnn Hl] Hlive Hun Hst Hty Hch. unfold tmpi_intra_wait_rh, resume_wait.
  rewrite (proj2 (Z.eqb_neq _ _) Hnn), (bind_Ret _ _ _ _ _ (load_rh_spec _ _ _ Hy)), Hst.
  change (has TMPI_MATCH recv_waitable) with true. cbn [negb].
  rewrite !(bind_Ret _ _ _ _ _ (lock_rh_spec s rh y Hy Hl)). rewrite Z.eqb_refl.
  set (s1 := s <| handles := _ |>).
  assert (handles s1 !! rh = Some (HR (y <| rh_lock := true |>))) as Hy1 by (cbn; by rewrite lookup_insert_eq).
  rewrite (bind_Ret _ _ _ _ _ (load_rh_spec s1 _ _ Hy1)).
  change (rh_stat (y <| rh_lock := true |>)) with (rh_stat y). by rewrite Hst, Z.eqb_refl.
Qed.

(** Waiting for a receive nobody has matched: the caller sleeps. *)
Lemma wait_rh_pending s v rh y st :
  node_inv R s v -> owned_rh s v rh y -> rh_stat y = TMPI_PEND_STRT ->
  let s' := s <| handles := <[rh := HR (y <| rh_stat := TMPI_PEND_WAIT |>)]> (handles s) |> in
  tmpi_intra_wait_rh rh st s = Ret (Sleeping AT_RECV) s' /\ node_inv R s' v.
Proof.
  intros HI [Hy Hnn Hl] Hst s'. split.
  - unfold tmpi_intra_wait_rh.
    rewrite (proj2 (Z.eqb_neq _ _) Hnn), (bind_Ret _ _ _ _ _ (load_rh_spec _ _ _ Hy)), Hst.
    change (has TMPI_PEND_STRT recv_waitable) with true. cbn [negb].
    rewrite (bind_Ret _ _ _ _ _ (lock_rh_spec s rh y Hy Hl)).
    change (TMPI_PEND_STRT =? TMPI_MATCH) with false. cbv iota.
    set (y1 := y <| rh_lock := true |>). set (s1 := s <| handles := <[rh := HR y1]> (handles s) |>).
    assert (handles s1 !! rh = Some (HR y1)) as Hy1 by (cbn; by rewrite lookup_insert_eq).
    rewrite (bind_Ret _ _ _ _ _ (upd_rh_spec s1 _ _ _ Hy1)).
    change (rh_stat y1) with (rh_stat y). rewrite Hst, Z.eqb_refl.
    set (y2 := y1 <| rh_stat := TMPI_PEND_WAIT |>). set (s2 := s1 <| handles := _ |>).
    assert (handles s2 !! rh = Some (HR y2)) as Hy2 by (cbn; by rewrite lookup_insert_eq).
    rewrite (bind_Ret _ _ _ _ _ (unlock_rh_spec s2 _ _ Hy2)).
    unfold mret, M_ret. f_equal. subst s2 s1 s' y2 y1. cbn. rewrite !insert_insert_eq.
    do 3 f_equal. destruct y. cbn in *. by subst.
  - eapply inv_upd_pending; [done|exact Hy|done| |].
    + intros (h & Hh & Hc & Hp). rewrite Hy in Hh. injection Hh as <-. done.
    + intros (y0 & Hy0 & Hc & Hl0 & Hs0). rewrite Hy in Hy0. injection Hy0 as <-.
      exists (y <| rh_stat := TMPI_PEND_WAIT |>). cbn. rewrite lookup_insert_eq. split_and!; auto.
Qed.

(** *** Sends *)

Lemma unlock_sh_spec s p x : handles s !! p = Some (HS x) ->
  unlock_sh p s = Ret tt (s <| handles := <[p := HS (x <| sh_lock := false |>)]> (handles s) |>).
Proof. apply upd_sh_spec. Qed.
Lemma lock_sh_spec s p x : handles s !! p = Some (HS x) -> sh_lock x = false ->
  lock_sh p s = Ret tt (s <| handles := <[p := HS (x <| sh_lock := true |>)]> (handles s) |>).
Proof.
  intros H Hl. unfold lock_sh. rewrite (bind_Ret _ _ _ _ _ (load_sh_spec _ _ _ H)), Hl. by apply upd_sh_spec.
Qed.

Record owned_sh (s : node) (sh : Z) (x : SHandle) : Prop := {
  os_handle : handles s !! sh = Some (HS x);
  os_nonnull : sh <> NULL;
  os_local : sh_isRemote x = false;
  os_lock : sh_lock x = false
}.

(** The send handle after its completion. *)
Definition done_sh (x : SHandle) : SHandle :=
  x <| sh_stat := TMPI_FREE |> <| sh_errval := MPI_SUCCESS |> <| sh_lock := false |>.

Lemma finish_sh_spec s v c ch sh x m' :
  node_inv R s v -> handles s !! sh = Some (HS x) -> sh ∈ v_live v -> unqueued v sh ->
  sh_type x <> MPI_PERSISTENT_SEND -> chan_at s (lrank (nq s) (sh_src x)) = Some (c, ch) ->
  buffer_freed s x m' ->
  exists q', finish_sh sh s = Ret MPI_REQUEST_NULL
      (post s q' (<[sh := HS (done_sh x)]> (handles s)) (data s) (signals s) <| mb := m' |>) /\
    R q' (v <| v_live := v_live v ∖ {[sh]} |>).
Proof.
  intros HI Hx Hlive Hun Hty Hch Hb.
  destruct (ni_chan _ _ _ HI _ _ _ Hch) as (Hcn & _ & _ & ls & _ & Hls & _).
  destruct (get_channel_spec _ _ _ _ Hch) as [Hget Hcm].
  unfold finish_sh. rewrite (bind_Ret _ _ _ _ _ (upd_sh_spec _ _ _ _ Hx)).
  set (x1 := x <| sh_stat := TMPI_FREE |> <| sh_errval := MPI_SUCCESS |>).
  set (s1 := s <| handles := <[sh := HS x1]> (handles s) |>).
  assert (handles s1 !! sh = Some (HS x1)) as Hx1 by (cbn; by rewrite lookup_insert_eq).
  rewrite (bind_Ret _ _ _ _ _ (load_sh_spec s1 _ _ Hx1)). change (sh_type x1) with (sh_type x).
  rewrite (proj2 (Z.eqb_neq _ _) Hty). cbn [negb].
  rewrite (bind_Ret _ _ _ _ _ (grank_to_lrank_spec s1 _ (ni_netq _ _ _ HI))).
  rewrite (bind_Ret (tmpi_intra_get_channel _) _ s1 c s1) by (apply (get_channel_spec s1 _ c ch); exact Hch).
  rewrite (bind_Ret _ _ _ _ _ (unlock_sh_spec s1 _ _ Hx1)).
  rewrite (proj2 (Z.eqb_neq _ _) Hcn). cbn [negb when].
  set (s2 := s1 <| handles := _ |>).
  assert (handles s2 !! sh = Some (HS (done_sh x))) as Hx2 by (cbn; by rewrite lookup_insert_eq).
  destruct (free_sh_spec R s2 v c ch ls sh _ m' Hx2 (ni_netq _ _ _ HI) Hcm (ni_rep _ _ _ HI) Hls Hlive Hun Hb)
    as (q' & E & HR').
  exists q'. split; [|done]. rewrite (bind_Ret _ _ _ _ _ E). unfold mret, M_ret. f_equal.
  subst s2 s1. unfold post. cbn. rewrite insert_insert_eq. by destruct s.
Qed.

Lemma wait_sh_matched s v sh x c ch m' st :
  node_inv R s v -> owned_sh s sh x -> sh ∈ v_live v -> unqueued v sh ->
  sh_stat x = TMPI_MATCH -> sh_type x <> MPI_PERSISTENT_SEND ->
  chan_at s (lrank (nq s) (sh_src x)) = Some (c, ch) -> buffer_freed s x m' ->
  exists q', tmpi_intra_wait_sh sh st s =
      Ret (Ready (Completion MPI_SUCCESS MPI_REQUEST_NULL (status_sh st x (sh_errval x))))
        (post s q' (<[sh := HS (done_sh x)]> (handles s)) (data s) (signals s) <| mb := m' |>) /\
    R q' (v <| v_live := v_live v ∖ {[sh]} |>).
Proof.
  intros HI [Hx Hnn Hrem Hl] Hlive Hun Hst Hty Hch Hb. unfold tmpi_intra_wait_sh.
  rewrite (proj2 (Z.eqb_neq _ _) Hnn), (bind_Ret _ _ _ _ _ (load_sh_spec _ _ _ Hx)), Hrem, Hst.
  change (has TMPI_MATCH (Z.lor TMPI_PEND_STRT TMPI_MATCH)) with true. cbn [negb].
  rewrite (bind_Ret _ _ _ _ _ (lock_sh_spec s sh x Hx Hl)). rewrite Z.eqb_refl.
  set (x1 := x <| sh_lock := true |>). set (s1 := s <| handles := <[sh := HS x1]> (handles s) |>).
  assert (handles s1 !! sh = Some (HS x1)) as Hx1 by (cbn; by rewrite lookup_insert_eq).
  assert (node_inv R s1 v) as HI1 by (by apply inv_upd_handle).
  destruct (finish_sh_spec s1 v c ch sh x1 m' HI1 Hx1 Hlive Hun Hty Hch Hb) as (q' & E & HR').
  exists q'. split; [|done]. unfold complete_sh. rewrite bind_assoc.
  rewrite (bind_Ret _ _ _ _ _ (load_sh_spec s1 _ _ Hx1)), bind_assoc, (bind_Ret _ _ _ _ _ E), bind_mret.
  unfold mret, M_ret. f_equal. subst s1 x1. unfold post. cbn. by rewrite insert_insert_eq.
Qed.

(** A synchronous sender nobody has received from sleeps. *)
Lemma wait_sh_sync s v sh x st :
  node_inv R s v -> owned_sh s sh x -> sh_stat x = TMPI_PEND_STRT -> is_sync x = true ->
  let s' := s <| handles := <[sh := HS (x <| sh_stat := TMPI_PEND_WAIT |>)]> (handles s) |> in
  tmpi_intra_wait_sh sh st s = Ret (Sleeping AT_INTRA_SYNC) s' /\ node_inv R s' v.
Proof.
  intros HI [Hx Hnn Hrem Hl] Hst Hsync s'. split.
  - unfold tmpi_intra_wait_sh.
    rewrite (proj2 (Z.eqb_neq _ _) Hnn), (bind_Ret _ _ _ _ _ (load_sh_spec _ _ _ Hx)), Hrem, Hst, Hsync.
    change (has TMPI_PEND_STRT (Z.lor TMPI_PEND_STRT TMPI_MATCH)) with true. cbn [negb].
    rewrite (bind_Ret _ _ _ _ _ (lock_sh_spec s sh x Hx Hl)).
    change (TMPI_PEND_STRT =? TMPI_MATCH) with false. cbv iota.
    set (x1 := x <| sh_lock := true |>). set (s1 := s <| handles := <[sh := HS x1]> (handles s) |>).
    assert (handles s1 !! sh = Some (HS x1)) as Hx1 by (cbn; by rewrite lookup_insert_eq).
    rewrite (bind_Ret _ _ _ _ _ (upd_sh_spec s1 _ _ _ Hx1)).
    set (x2 := x1 <| sh_stat := TMPI_PEND_WAIT |>). set (s2 := s1 <| handles := _ |>).
    assert (handles s2 !! sh = Some (HS x2)) as Hx2 by (cbn; by rewrite lookup_insert_eq).
    rewrite (bind_Ret _ _ _ _ _ (unlock_sh_spec s2 _ _ Hx2)).
    unfold mret, M_ret. f_equal. subst s2 s1 s' x2 x1. cbn. rewrite !insert_insert_eq.
    do 3 f_equal. destruct x. cbn in *. by subst.
  - eapply inv_upd_pending; [done|exact Hx|done| |].
    + intros (h & Hh & Hc & Hp). rewrite Hx in Hh. injection Hh as <-. destruct Hp as (H1 & H2 & H3 & _).
      exists (HS (x <| sh_stat := TMPI_PEND_WAIT |>)). cbn. rewrite lookup_insert_eq. split_and!; auto.
    + intros (y0 & Hy0 & _). congruence.
Qed.

(** A woken synchronous sender goes on as if it had found the match at once. *)
Lemma wake_sh_matched s sh x st :
  owned_sh s sh x -> sh_stat x = TMPI_MATCH ->
  resume_wait AT_INTRA_SYNC sh st s = tmpi_intra_wait_sh sh st s.
Proof.
  intros [Hx Hnn Hrem Hl] Hst. unfold tmpi_intra_wait_sh, resume_wait.
  rewrite (proj2 (Z.eqb_neq _ _) Hnn), (bind_Ret _ _ _ _ _ (load_sh_spec _ _ _ Hx)), Hrem, Hst.
  change (has TMPI_MATCH (Z.lor TMPI_PEND_STRT TMPI_MATCH)) with true. cbn [negb].
  rewrite !(bind_Ret _ _ _ _ _ (lock_sh_spec s sh x Hx Hl)). rewrite Z.eqb_refl.
  set (s1 := s <| handles := _ |>).
  assert (handles s1 !! sh = Some (HS (x <| sh_lock := true |>))) as Hx1 by (cbn; by rewrite lookup_insert_eq).
  rewrite (bind_Ret _ _ _ _ _ (load_sh_spec s1 _ _ Hx1)).
  change (sh_stat (x <| sh_lock := true |>)) with (sh_stat x). rewrite Hst.
  by change (TMPI_MATCH =? TMPI_PEND_WAIT) with false.
Qed.

(** A buffered sender leaves: the message is moved out of the user's buffer. *)
Definition buffered_sh (x : SHandle) : SHandle :=
  x <| sh_curdata := sh_sys_buf x |> <| sh_stat := TMPI_PEND_RELS |>.

Lemma wait_sh_buffered s v sh x st :
  node_inv R s v -> owned_sh s sh x -> sh_stat x = TMPI_PEND_STRT -> is_buffered x = true ->
  sh_type x <> MPI_PERSISTENT_SEND -> sh_curdata x = sh_user_buf x -> sh_sys_buf x <> NULL ->
  let s' := s <| data := memcpy (data s) (sh_sys_buf x) (sh_user_buf x) (sh_buflen x) |>
              <| handles := <[sh := HS (buffered_sh x)]> (handles s) |> in
  tmpi_intra_wait_sh sh st s =
    Ret (Ready (Completion MPI_SUCCESS MPI_REQUEST_NULL (status_sh st x (sh_errval x)))) s' /\
  node_inv R s' v.
Proof.
  intros HI [Hx Hnn Hrem Hl] Hst Hbuf Hty Hcur Hsys s'. split.
  - unfold tmpi_intra_wait_sh.
    rewrite (proj2 (Z.eqb_neq _ _) Hnn), (bind_Ret _ _ _ _ _ (load_sh_spec _ _ _ Hx)), Hrem, Hst, Hbuf.
    assert (is_sync x = false) as ->.
    { unfold is_buffered, is_sync in *. rewrite (proj2 (Z.eqb_neq _ _) Hsys) in *. cbn [negb] in Hbuf.
      rewrite andb_false_r, orb_false_r. destruct (Z.eqb_spec (sh_send_mode x) SYNC) as [E|]; [|done].
      by rewrite E in Hbuf. }
    change (has TMPI_PEND_STRT (Z.lor TMPI_PEND_STRT TMPI_MATCH)) with true. cbn [negb].
    rewrite (bind_Ret _ _ _ _ _ (lock_sh_spec s sh x Hx Hl)).
    change (TMPI_PEND_STRT =? TMPI_MATCH) with false. cbv iota.
    set (x1 := x <| sh_lock := true |>). set (s1 := s <| handles := <[sh := HS x1]> (handles s) |>).
    assert (handles s1 !! sh = Some (HS x1)) as Hx1 by (cbn; by rewrite lookup_insert_eq).
    unfold release_sh. rewrite bind_assoc, (bind_Ret _ _ _ _ _ (load_sh_spec s1 _ _ Hx1)).
    change (sh_curdata x1) with (sh_curdata x). change (sh_user_buf x1) with (sh_user_buf x).
    change (sh_sys_buf x1) with (sh_sys_buf x). change (sh_buflen x1) with (sh_buflen x).
    rewrite Hcur, Z.eqb_refl, (proj2 (Z.eqb_neq _ _) Hsys). cbn [negb andb orb]. rewrite !bind_assoc.
    set (D := memcpy (data s) (sh_sys_buf x) (sh_user_buf x) (sh_buflen x)).
    set (s2 := s1 <| data := D |>).
    rewrite (bind_Ret (copy _ _ _) _ s1 tt s2) by done.
    assert (handles s2 !! sh = Some (HS x1)) as Hx2 by done. rewrite bind_assoc.
    rewrite (bind_Ret _ _ _ _ _ (upd_sh_spec s2 _ _ _ Hx2)). rewrite bind_mret.
    set (x3 := x1 <| sh_curdata := sh_sys_buf x1 |>). set (s3 := s2 <| handles := _ |>).
    assert (handles s3 !! sh = Some (HS x3)) as Hx3 by (cbn; by rewrite lookup_insert_eq).
    rewrite bind_assoc, (bind_Ret _ _ _ _ _ (upd_sh_spec s3 _ _ _ Hx3)).
    set (x4 := x3 <| sh_stat := TMPI_PEND_RELS |>). set (s4 := s3 <| handles := _ |>).
    assert (handles s4 !! sh = Some (HS x4)) as Hx4 by (cbn; by rewrite lookup_insert_eq).
    rewrite bind_assoc, (bind_Ret _ _ _ _ _ (unlock_sh_spec s4 _ _ Hx4)), bind_mret.
    change (sh_type x1) with (sh_type x). rewrite (proj2 (Z.eqb_neq _ _) Hty). cbn [negb fst snd].
    unfold mret, M_ret. f_equal. subst s4 s3 s2 s1 s' D x4 x3 x1. cbn. rewrite !insert_insert_eq.
    do 3 f_equal. destruct x. cbn in *. by subst.
  - set (sd := s <| data := memcpy (data s) (sh_sys_buf x) (sh_user_buf x) (sh_buflen x) |>).
    assert (node_inv R sd v) as HI' by (destruct HI; by split).
    apply (inv_upd_pending sd v sh (HS x) (HS (buffered_sh x)) HI' Hx); [done| |].
    + intros (h & Hh & Hc & Hp). cbn in Hh. rewrite Hx in Hh. injection Hh as <-. destruct Hp as (H1 & H2 & H3 & _).
      exists (HS (buffered_sh x)). cbn. rewrite lookup_insert_eq. split_and!; auto.
    + intros (y0 & Hy0 & _). cbn in Hy0. congruence.
Qed.
End Wait.
