(* ===== verification/IntraNew.v ===== *)
(** Creating a request: what [tmpi_intra_init_sh] and [tmpi_intra_init_rh] hand
    out can be started. *)
From S2P Require Import Prelude Types MBufferRep TQueue TQueueRep Netq Group Comm IntraSR IntraRep IntraWait.

(** The communicator handle is good for process [lid], its object is [cm]. *)
Definition comm_ok (s : node) (comm lid : Z) (cm : tmpi_Comm) : Prop :=
  exists tc, tmpi_comm_verify comm lid (cs s) = Ret tc (cs s) /\ tc <> NULL /\ comms (cs s) !! tc = Some cm.

Lemma on_comm_Ret {A} (m : M cstate A) s a : m (cs s) = Ret a (cs s) -> on_comm m s = Ret a s.
Proof. intros H. unfold on_comm. rewrite (zoom_Ret _ _ _ _ _ _ H). by destruct s. Qed.
Lemma comm_ok_verify s comm lid cm : comm_ok s comm lid cm ->
  exists tc, on_comm (tmpi_comm_verify comm lid) s = Ret tc s /\ tc <> NULL /\ comms (cs s) !! tc = Some cm.
Proof. intros (tc & E & Hn & Hc). exists tc. split_and!; try done. by apply on_comm_Ret. Qed.
Lemma on_comm_load s tc cm : comms (cs s) !! tc = Some cm -> on_comm (load_comm tc) s = Ret cm s.
Proof. intros H. apply on_comm_Ret. unfold load_comm. mrun. by rewrite H. Qed.

(** The length in bytes of [count] items. *)
Definition msg_len (datatype count : Z) : Z := int32 (tmpi_Usize datatype * count).

Section Request.
Context (comm buf from to tag datatype count : Z) (cm : tmpi_Comm).

Definition recv_type (isPersistent isImmediate : bool) : Z :=
  if isPersistent then MPI_PERSISTENT_RECV else if isImmediate then MPI_IMMEDIATE_RECV else MPI_RECV.
Definition send_type (isPersistent isImmediate : bool) : Z :=
  if isPersistent then MPI_PERSISTENT_SEND else if isImmediate then MPI_IMMEDIATE_SEND else MPI_SEND.

(** A new receive; the last three fields of one that is not persistent are indeterminate. *)
Definition created_rh (isPersistent isImmediate : bool) : RHandle :=
  mkRHandle (recv_type isPersistent isImmediate) MPI_REQUEST_COOKIE TMPI_CREATE (cm_pt2pt_context cm) tag
    from to comm count buf (msg_len datatype count) MPI_SUCCESS false datatype
    (if isPersistent then from else -1) (if isPersistent then tag else -1)
    (if isPersistent then msg_len datatype count else -1).
(** A new send with the system buffer [b]. *)
Definition created_sh (isPersistent isImmediate isRemote : bool) (mode b : Z) : SHandle :=
  mkSHandle (send_type isPersistent isImmediate) MPI_REQUEST_COOKIE TMPI_CREATE (cm_pt2pt_context cm) tag
    from to comm count buf (msg_len datatype count) mode buf MPI_SUCCESS b isRemote false datatype.
End Request.

Section New.
Context (R : qmem cmp_fn -> qview cmp_fn -> Prop) {HQ : QueueSpec R}.

(** A new handle in a state: the queues' memory, the handle. *)
Definition with_handle (s : node) (q : qmem cmp_fn) (p : Z) (h : handle) : node :=
  s <| qm := q |> <| handles := <[p := h]> (handles s) |>.

Lemma new_rh_spec s v c ch l :
  R (qm s) v -> ch_mem s !! c = Some ch -> v_list v !! ch_rq ch = Some l ->
  exists rh q', R q' (if rh =? NULL then v else v <| v_live := {[rh]} ∪ v_live v |>) /\
    tmpi_intra_new_rh c s = Ret rh (if rh =? NULL then s <| qm := q' |> else with_handle s q' rh (HR fresh_rh)) /\
    (rh <> NULL -> rh ∉ v_live v /\ unqueued v rh).
Proof.
  intros HR Hc Hl. destruct (newElem_law _ _ _ _ HR Hl) as (rh & q' & E & H).
  exists rh, q'. unfold tmpi_intra_new_rh. rewrite (bind_Ret _ _ _ _ _ (load_channel_spec s c ch Hc)).
  unfold on_queue. rewrite (bind_Ret _ _ _ _ _ (zoom_Ret _ _ _ _ _ _ E)).
  destruct H as [[-> HR']|(Hn & Hnl & Hu & HR')].
  - rewrite Z.eqb_refl. done.
  - rewrite (proj2 (Z.eqb_neq _ _) Hn). done.
Qed.

Lemma new_sh_spec s v c ch l :
  R (qm s) v -> ch_mem s !! c = Some ch -> v_list v !! ch_sq ch = Some l ->
  exists sh q', R q' (if sh =? NULL then v else v <| v_live := {[sh]} ∪ v_live v |>) /\
    tmpi_intra_new_sh c s = Ret sh (if sh =? NULL then s <| qm := q' |> else with_handle s q' sh (HS fresh_sh)) /\
    (sh <> NULL -> sh ∉ v_live v /\ unqueued v sh).
Proof.
  intros HR Hc Hl. destruct (newElem_law _ _ _ _ HR Hl) as (sh & q' & E & H).
  exists sh, q'. unfold tmpi_intra_new_sh. rewrite (bind_Ret _ _ _ _ _ (load_channel_spec s c ch Hc)).
  unfold on_queue. rewrite (bind_Ret _ _ _ _ _ (zoom_Ret _ _ _ _ _ _ E)).
  destruct H as [[-> HR']|(Hn & Hnl & Hu & HR')].
  - rewrite Z.eqb_refl. done.
  - rewrite (proj2 (Z.eqb_neq _ _) Hn). done.
Qed.

(** The invariant does not depend on handles that are in no queue, nor on the
    elements handed out. *)
Lemma inv_new_handle s v q' p h :
  node_inv R s v -> R q' (v <| v_live := {[p]} ∪ v_live v |>) -> unqueued v p ->
  node_inv R (with_handle s q' p h) (v <| v_live := {[p]} ∪ v_live v |>).
Proof.
  intros HI HR' Hun. destruct HI as [I1 I2 I3 I4]. split; try done.
  intros i c ch Hi. destruct (I3 i c ch Hi) as (? & ? & ? & Hok). split_and!; try done.
  eapply chan_ok_frame; [done|done|done| |exact Hok].
  intros e l [Hl|Hl] He; cbn; apply lookup_insert_ne; intros ->; by apply (Hun _ _ Hl).
Qed.

Lemma with_handle_upd s q p h h' :
  with_handle s q p h <| handles := <[p := h']> (handles (with_handle s q p h)) |> = with_handle s q p h'.
Proof. unfold with_handle. cbn. by rewrite insert_insert_eq. Qed.
Lemma with_handle_upd_rh s q p y f :
  upd_rh p f (with_handle s q p (HR y)) = Ret tt (with_handle s q p (HR (f y))).
Proof.
  rewrite (upd_rh_spec _ _ _ y) by (cbn; by rewrite lookup_insert_eq). by rewrite with_handle_upd.
Qed.
Lemma with_handle_upd_sh s q p x f :
  upd_sh p f (with_handle s q p (HS x)) = Ret tt (with_handle s q p (HS (f x))).
Proof.
  rewrite (upd_sh_spec _ _ _ x) by (cbn; by rewrite lookup_insert_eq). by rewrite with_handle_upd.
Qed.

(** The outcome of creating a receive. *)
Lemma init_rh_spec s v comm buf from to tag datatype count pers imm c ch ls lr cm :
  node_inv R s v -> chan_at s (lrank (nq s) to) = Some (c, ch) ->
  v_list v !! ch_sq ch = Some ls -> v_list v !! ch_rq ch = Some lr ->
  comm_ok s comm (lrank (nq s) to) cm -> 0 <= msg_len datatype count ->
  is_uint32 (cm_pt2pt_context cm) = true ->
  exists q',
    (tmpi_intra_init_rh comm buf from to tag datatype count pers imm true s =
       Ret (MPI_ERR_INTERN, MPI_REQUEST_NULL) (s <| qm := q' |>) /\ R q' v) \/
    exists rh, let y := created_rh comm buf from to tag datatype count cm pers imm in
      tmpi_intra_init_rh comm buf from to tag datatype count pers imm true s =
        Ret (MPI_SUCCESS, rh) (with_handle s q' rh (HR y)) /\
      rh ∉ v_live v /\ rh <> NULL /\
      let v' := v <| v_live := {[rh]} ∪ v_live v |> in
      node_inv R (with_handle s q' rh (HR y)) v' /\
      can_recv (with_handle s q' rh (HR y)) v' rh y c ch ls lr.
Proof.
  intros HI Hch Hls Hlr Hcomm Hlen Hctx. destruct (ni_chan _ _ _ HI _ _ _ Hch) as (Hcn & _).
  destruct (get_channel_spec _ _ _ _ Hch) as [Hget Hcm].
  destruct (comm_ok_verify _ _ _ _ Hcomm) as (tc & Ev & Htc & Hcmm).
  unfold tmpi_intra_init_rh. fold (msg_len datatype count).
  rewrite (bind_Ret _ _ _ _ _ (grank_to_lrank_spec s to (ni_netq _ _ _ HI))), (bind_Ret _ _ _ _ _ Hget).
  rewrite (bind_Ret _ _ _ _ _ Ev). cbv zeta. cbn [negb].
  rewrite (proj2 (Z.eqb_neq _ _) Hcn), (proj2 (Z.ltb_ge _ _) Hlen), (proj2 (Z.eqb_neq _ _) Htc).
  destruct (new_rh_spec s v c ch lr (ni_rep _ _ _ HI) Hcm Hlr) as (rh & q' & HR' & E & Hnew).
  exists q'. rewrite (bind_Ret _ _ _ _ _ E). destruct (Z.eqb_spec rh NULL) as [Hn|Hn]; [by left|].
  right. exists rh. destruct (Hnew Hn) as [Hnl Hun].
  rewrite (bind_Ret (on_comm (load_comm tc)) _ _ cm (with_handle s q' rh (HR fresh_rh))) by (by apply on_comm_load).
  set (y := created_rh comm buf from to tag datatype count cm pers imm).
  split; [|split; [done|split; [done|split]]].
  - destruct pers; cbn [when].
    + rewrite (bind_Ret _ _ _ _ _ (with_handle_upd_rh s q' rh _ _)).
      by rewrite (bind_Ret _ _ _ _ _ (with_handle_upd_rh s q' rh _ _)).
    + rewrite bind_mret. by rewrite (bind_Ret _ _ _ _ _ (with_handle_upd_rh s q' rh _ _)).
  - by apply inv_new_handle.
  - split; try done.
    + cbn. by rewrite lookup_insert_eq.
    + cbn. set_solver.
Qed.

(** Whether a system buffer is wanted, and what the allocator gives. *)
Definition wants_buffer (mode len : Z) : bool := has mode (Z.lor STANDARD BUFFERED) && (len >? 0).

Lemma on_mbuf_Ret {A} (m : M mbuf A) s a b : m (mb s) = Ret a b -> on_mbuf m s = Ret a (s <| mb := b |>).
Proof. intros H. unfold on_mbuf. by rewrite (zoom_Ret _ _ _ _ _ _ H). Qed.

Definition isRemote (s : node) (to : Z) : bool :=
  match netq_isLocalNode to (nq s) with Ret b _ => negb b | _ => true end.

Lemma isLocalNode_spec s to : netq_ok (nq s) ->
  on_netq (netq_isLocalNode to) s = Ret (negb (isRemote s to)) s.
Proof.
  intros Hq. unfold on_netq, zoom, isRemote.
  assert (exists b, netq_isLocalNode to (nq s) = Ret b (nq s)) as [b ->].
  { unfold netq_isLocalNode. rewrite (bind_Ret _ _ _ _ _ (transGlobalRank_spec _ to Hq)).
    destruct ((to <? 0) || (to >=? gTableSize (nq s))); [by eexists|].
    destruct (gTable (nq s)) as [t|]; [|by eexists]. destruct (t !! Z.to_nat to); by eexists. }
  rewrite negb_involutive. by destruct s.
Qed.

Lemma init_sh_spec s v comm buf from to tag datatype count mode pers imm c ch ls lr cm b m' :
  node_inv R s v -> chan_at s (lrank (nq s) from) = Some (c, ch) ->
  v_list v !! ch_sq ch = Some ls -> v_list v !! ch_rq ch = Some lr ->
  comm_ok s comm (lrank (nq s) from) cm -> 0 <= msg_len datatype count ->
  (if wants_buffer mode (msg_len datatype count)
   then mb_alloc (lrank (nq s) from) (msg_len datatype count) (mb s) = Ret b m'
   else b = NULL /\ m' = mb s) ->
  (mode =? BUFFERED) && (b =? NULL) && (msg_len datatype count >? 0) = false ->
  exists q',
    (tmpi_intra_init_sh comm buf from to tag datatype count mode pers imm true s =
       Ret (MPI_ERR_INTERN, MPI_REQUEST_NULL) (s <| qm := q' |>) /\ R q' v) \/
    exists sh, let x := created_sh comm buf from to tag datatype count cm pers imm (isRemote s to) mode b in
      let s' := with_handle s q' sh (HS x) <| mb := m' |> in
      let v' := v <| v_live := {[sh]} ∪ v_live v |> in
      tmpi_intra_init_sh comm buf from to tag datatype count mode pers imm true s = Ret (MPI_SUCCESS, sh) s' /\
      sh ∉ v_live v /\ sh <> NULL /\ unqueued v' sh /\ node_inv R s' v'.
Proof.
  intros HI Hch Hls Hlr Hcomm Hlen Hb Hbuf. destruct (ni_chan _ _ _ HI _ _ _ Hch) as (Hcn & _).
  destruct (get_channel_spec _ _ _ _ Hch) as [Hget Hcm].
  destruct (comm_ok_verify _ _ _ _ Hcomm) as (tc & Ev & Htc & Hcmm).
  unfold tmpi_intra_init_sh. fold (msg_len datatype count).
  rewrite (bind_Ret _ _ _ _ _ (grank_to_lrank_spec s from (ni_netq _ _ _ HI))), (bind_Ret _ _ _ _ _ Hget).
  rewrite (bind_Ret _ _ _ _ _ Ev). cbv zeta. cbn [negb].
  rewrite (proj2 (Z.eqb_neq _ _) Hcn), (proj2 (Z.ltb_ge _ _) Hlen), (proj2 (Z.eqb_neq _ _) Htc).
  destruct (new_sh_spec s v c ch ls (ni_rep _ _ _ HI) Hcm Hls) as (sh & q' & HR' & E & Hnew).
  exists q'. rewrite (bind_Ret _ _ _ _ _ E). destruct (Z.eqb_spec sh NULL) as [Hn|Hn]; [by left|].
  right. exists sh. destruct (Hnew Hn) as [Hnl Hun].
  set (s1 := with_handle s q' sh (HS fresh_sh)).
  rewrite (bind_Ret (on_comm (load_comm tc)) _ _ cm s1) by (by apply on_comm_load).
  rewrite (bind_Ret _ _ _ _ _ (isLocalNode_spec s1 to (ni_netq _ _ _ HI))).
  change (isRemote s1 to) with (isRemote s to). rewrite negb_involutive. subst s1.
  rewrite (bind_Ret _ _ _ _ _ (with_handle_upd_sh s q' sh _ _)).
  fold (wants_buffer mode (msg_len datatype count)).
  set (x0 := created_sh comm buf from to tag datatype count cm pers imm (isRemote s to) mode b).
  set (s' := with_handle s q' sh (HS x0) <| mb := m' |>).
  split; [|split; [done|split; [done|split]]].
  - match goal with |- context [with_handle s q' sh (HS ?z)] => set (x := z) end.
    assert (forall x1, x1 <| sh_errval := MPI_SUCCESS |> = x0 -> sh_sys_buf x1 = b ->
      (x2 ← load_sh sh;
       if (mode =? BUFFERED) && (sh_sys_buf x2 =? NULL) && (msg_len datatype count >? 0)
       then upd_sh sh (fun x => x <| sh_errval := MPI_ERR_BUFFER |>);; mret (MPI_ERR_BUFFER, sh)
       else upd_sh sh (fun x => x <| sh_errval := MPI_SUCCESS |>);; mret (MPI_SUCCESS, sh))
        (with_handle (s <| mb := m' |>) q' sh (HS x1)) = Ret (MPI_SUCCESS, sh) s') as Hend.
    { intros x1 Hx1 Hb1. set (s2 := s <| mb := m' |>).
      rewrite (bind_Ret (load_sh sh) _ _ x1 (with_handle s2 q' sh (HS x1)))
        by (apply load_sh_spec; cbn; by rewrite lookup_insert_eq).
      rewrite Hb1, Hbuf, (bind_Ret _ _ _ _ _ (with_handle_upd_sh s2 q' sh _ _)), Hx1. done. }
    destruct (wants_buffer mode (msg_len datatype count)); cbn [when].
    + rewrite bind_assoc. rewrite (bind_Ret _ _ _ _ _ (on_mbuf_Ret _ (with_handle s q' sh (HS x)) _ _ Hb)).
      set (s2 := s <| mb := m' |>).
      rewrite (bind_Ret (upd_sh sh _) _ _ tt (with_handle s2 q' sh (HS (x <| sh_sys_buf := b |>))))
        by (exact (with_handle_upd_sh s2 q' sh x _)).
      by apply Hend.
    + destruct Hb as [-> ->]. rewrite bind_mret.
      assert (s <| mb := mb s |> = s) as Es by (by destruct s). rewrite Es in Hend. by apply Hend.
  - intros p l Hl. exact (Hun p l Hl).
  - assert (node_inv R (with_handle s q' sh (HS x0)) (v <| v_live := {[sh]} ∪ v_live v |>)) as H
      by (by apply inv_new_handle).
    destruct H. by split.
Qed.
End New.

(** Another handle's step leaves a request that is ready to start ready. *)
Lemma can_send_frame s v sh x c ch ls lr s' v' ls' lr' :
  can_send s v sh x c ch ls lr ->
  nq s' = nq s -> (forall i, chan_at s' i = chan_at s i) -> handles s' !! sh = Some (HS x) ->
  sh ∈ v_live v' -> unqueued v' sh ->
  v_list v' !! ch_sq ch = Some ls' -> v_list v' !! ch_rq ch = Some lr' ->
  can_send s' v' sh x c ch ls' lr'.
Proof. intros [C1 C2 C3 C4 C5 C6 C7 C8 C9 C10 C11 C12] Hn Hc. split; try done. by rewrite Hc, Hn. Qed.
Lemma can_recv_frame s v rh y c ch ls lr s' v' ls' lr' :
  can_recv s v rh y c ch ls lr ->
  nq s' = nq s -> (forall i, chan_at s' i = chan_at s i) -> handles s' !! rh = Some (HR y) ->
  rh ∈ v_live v' -> unqueued v' rh ->
  v_list v' !! ch_sq ch = Some ls' -> v_list v' !! ch_rq ch = Some lr' ->
  can_recv s' v' rh y c ch ls' lr'.
Proof. intros [C1 C2 C3 C4 C5 C6 C7 C8 C9 C10] Hn Hc. split; try done. by rewrite Hc, Hn. Qed.
