(* ===== verification/IntraDemo.v ===== *)
(** A concrete node for witnesses: two processes, two receives created by process 1,
    a buffered and a synchronous send created by process 0. *)
From S2P Require Import Prelude Types MBufferRep TQueue TQueueRep TQueueHeap Netq Group Comm IntraSR.
From S2P Require Import IntraRep IntraInit IntraWait IntraNew.

Definition state_of {A} (d : node) (o : outcome node A) : node := match o with Ret _ s => s | _ => d end.

(** Eight bytes of process 0's memory. *)
Definition demo0 : node := node2 <| data := store_bytes ∅ 40000 [11; 12; 13; 14; 21; 22; 23; 24] |>.
Definition demo1 : node := state_of demo0
  (tmpi_intra_init_rh MPI_COMM_WORLD 50000 MPI_ANY_SOURCE 1 MPI_ANY_TAG MPI_CHAR 8 false false true demo0).
Definition demo2 : node := state_of demo1
  (tmpi_intra_init_rh MPI_COMM_WORLD 50016 0 1 7 MPI_CHAR 2 false false true demo1).
Definition demo3 : node := state_of demo2
  (tmpi_intra_init_sh MPI_COMM_WORLD 40000 0 1 7 MPI_CHAR 4 BUFFERED false false true demo2).
Definition demo : node := state_of demo3
  (tmpi_intra_init_sh MPI_COMM_WORLD 40004 0 1 7 MPI_CHAR 4 SYNC false false true demo3).

Definition world0 : tmpi_Comm :=
  zero_comm <| cm_cookie := MPI_COMM_COOKIE |> <| cm_np := 2 |> <| cm_local_rank := 0 |>
            <| cm_pt2pt_context := MPI_COMM_WORLD_PT2PT_CONTEXT |>.
Definition world1 : tmpi_Comm := world0 <| cm_local_rank := 1 |>.

Definition demo_ch : tmpi_Channel := mkChannel false 5664 5160.
Definition rh_any : RHandle :=
  created_rh MPI_COMM_WORLD 50000 MPI_ANY_SOURCE 1 MPI_ANY_TAG MPI_CHAR 8 world1 false false.
Definition rh_exact : RHandle := created_rh MPI_COMM_WORLD 50016 0 1 7 MPI_CHAR 2 world1 false false.
Definition sh_buffered : SHandle :=
  created_sh MPI_COMM_WORLD 40000 0 1 7 MPI_CHAR 4 world0 false false false BUFFERED 8224.
Definition sh_sync : SHandle :=
  created_sh MPI_COMM_WORLD 40004 0 1 7 MPI_CHAR 4 world0 false false false SYNC NULL.

Lemma demo1_run :
  tmpi_intra_init_rh MPI_COMM_WORLD 50000 MPI_ANY_SOURCE 1 MPI_ANY_TAG MPI_CHAR 8 false false true demo0 =
    Ret (MPI_SUCCESS, 5728) demo1.
Proof. vm_compute. reflexivity. Qed.
Lemma demo2_run :
  tmpi_intra_init_rh MPI_COMM_WORLD 50016 0 1 7 MPI_CHAR 2 false false true demo1 =
    Ret (MPI_SUCCESS, 5872) demo2.
Proof. vm_compute. reflexivity. Qed.
Lemma demo3_run :
  tmpi_intra_init_sh MPI_COMM_WORLD 40000 0 1 7 MPI_CHAR 4 BUFFERED false false true demo2 =
    Ret (MPI_SUCCESS, 4200) demo3.
Proof. vm_compute. reflexivity. Qed.
Lemma demo_run :
  tmpi_intra_init_sh MPI_COMM_WORLD 40004 0 1 7 MPI_CHAR 4 SYNC false false true demo3 =
    Ret (MPI_SUCCESS, 4348) demo.
Proof. vm_compute. reflexivity. Qed.

(** The message buffers after the buffered send took its block. *)
Definition demo_mb : mbuf :=
  match mb_alloc 0 4 (mb demo2) with Ret _ m => m | _ => mb demo2 end.
Lemma demo_mb_run : mb_alloc 0 4 (mb demo2) = Ret 8224 demo_mb.
Proof. vm_compute. reflexivity. Qed.

Lemma chan0 s : chan_at s 0 = chan_at node2 0 -> chan_at s 0 = Some (4104, mkChannel false 4640 4136).
Proof. intros ->. vm_compute. reflexivity. Qed.
Lemma chan1 s : chan_at s 1 = chan_at node2 1 -> chan_at s 1 = Some (5128, demo_ch).
Proof. intros ->. vm_compute. reflexivity. Qed.

Lemma node2_nq : nq node2 = netq2.
Proof. vm_compute. reflexivity. Qed.
Lemma node2_cs : cs node2 = cstate2.
Proof. vm_compute. reflexivity. Qed.
Lemma demo_nq : nq demo = netq2.
Proof. vm_compute. reflexivity. Qed.

#[local] Opaque node2 demo0 demo1 demo2 demo3 demo demo_mb.

(** A queue that is empty in [node2] is empty as long as only handles are made. *)
Record demo_inv (s : node) (v : qview cmp_fn) : Prop := {
  di_inv : node_inv Rep s v;
  di_nq : nq s = netq2;
  di_cs : cs s = cstate2;
  di_chan : forall i, chan_at s i = chan_at node2 i;
  di_lists : v_list v !! 4136 = Some [] /\ v_list v !! 4640 = Some [] /\
             v_list v !! 5160 = Some [] /\ v_list v !! 5664 = Some [];
}.

Lemma demo0_ok : exists v, demo_inv demo0 v.
Proof.
  destruct node2_inv as (v & HI & _ & Hch). exists v.
  destruct (Hch 0) as (c & ch & Hc & H1 & H2); [lia|].
  rewrite (chan0 node2 eq_refl) in Hc. injection Hc as <- <-.
  destruct (Hch 1) as (c & ch & Hc & H3 & H4); [lia|].
  rewrite (chan1 node2 eq_refl) in Hc. injection Hc as <- <-.
  assert (node_inv Rep demo0 v) as HI' by (destruct HI; by split).
  split; [done| | |done|done].
  - exact node2_nq.
  - exact node2_cs.
Qed.

Lemma demo_comm s v p : demo_inv s v -> p = 0 \/ p = 1 ->
  comm_ok s MPI_COMM_WORLD (lrank (nq s) p) (if p =? 0 then world0 else world1).
Proof.
  intros [_ Hn Hc _ _] Hp. rewrite Hn. exists (if p =? 0 then 16 else 80). rewrite Hc.
  destruct Hp as [-> | ->]; repeat split; discriminate.
Qed.

(** Making another handle keeps what is there. *)
Lemma demo_inv_frame s v q p h m :
  demo_inv s v -> let v' := v <| v_live := {[p]} ∪ v_live v |> in
  node_inv Rep (with_handle s q p h <| mb := m |>) v' -> demo_inv (with_handle s q p h <| mb := m |>) v'.
Proof. intros [H1 H2 H3 H4 H5] v' HI. by split. Qed.

Lemma demo_recv s v buf from tag count rh s' :
  demo_inv s v ->
  tmpi_intra_init_rh MPI_COMM_WORLD buf from 1 tag MPI_CHAR count false false true s = Ret (MPI_SUCCESS, rh) s' ->
  0 <= msg_len MPI_CHAR count ->
  let y := created_rh MPI_COMM_WORLD buf from 1 tag MPI_CHAR count world1 false false in
  let v' := v <| v_live := {[rh]} ∪ v_live v |> in
  rh ∉ v_live v /\ demo_inv s' v' /\ can_recv s' v' rh y 5128 demo_ch [] [] /\
  (forall p, p <> rh -> handles s' !! p = handles s !! p) /\ mb s' = mb s.
Proof.
  intros HD E Hlen y v'. destruct (di_lists _ _ HD) as (L1 & L2 & L3 & L4).
  pose proof (chan1 s (di_chan _ _ HD 1)) as Hch.
  assert (lrank (nq s) 1 = 1) as Hr by (by rewrite (di_nq _ _ HD)).
  destruct (init_rh_spec Rep s v MPI_COMM_WORLD buf from 1 tag MPI_CHAR count false false 5128 demo_ch [] [] world1
    (di_inv _ _ HD)) as (q' & [[E' _]|(rh' & E' & Hl & Hn & HI & HC)]); try done.
  - by rewrite Hr.
  - exact (demo_comm s v 1 HD (or_intror eq_refl)).
  - rewrite E in E'. by apply Ret_inj in E' as [? _].
  - rewrite E in E'. apply Ret_inj in E' as [[= <-] ->]. split_and!; try done.
    + destruct HD. by split.
    + intros p Hp. cbn. by rewrite lookup_insert_ne.
Qed.

Lemma demo_send s v buf tag count mode b m sh s' :
  demo_inv s v ->
  tmpi_intra_init_sh MPI_COMM_WORLD buf 0 1 tag MPI_CHAR count mode false false true s = Ret (MPI_SUCCESS, sh) s' ->
  0 <= msg_len MPI_CHAR count ->
  (if wants_buffer mode (msg_len MPI_CHAR count) then mb_alloc 0 (msg_len MPI_CHAR count) (mb s) = Ret b m
   else b = NULL /\ m = mb s) ->
  (mode =? BUFFERED) && (b =? NULL) && (msg_len MPI_CHAR count >? 0) = false ->
  let x := created_sh MPI_COMM_WORLD buf 0 1 tag MPI_CHAR count world0 false false false mode b in
  let v' := v <| v_live := {[sh]} ∪ v_live v |> in
  sh ∉ v_live v /\ demo_inv s' v' /\ can_send s' v' sh x 5128 demo_ch [] [] /\
  (forall p, p <> sh -> handles s' !! p = handles s !! p) /\ mb s' = m.
Proof.
  intros HD E Hlen Hb Hbuf x v'. destruct (di_lists _ _ HD) as (L1 & L2 & L3 & L4).
  pose proof (chan0 s (di_chan _ _ HD 0)) as Hch0. pose proof (chan1 s (di_chan _ _ HD 1)) as Hch1.
  assert (lrank (nq s) 0 = 0) as Hr by (by rewrite (di_nq _ _ HD)).
  assert (isRemote s 1 = false) as Hrem by (unfold isRemote; by rewrite (di_nq _ _ HD)).
  destruct (init_sh_spec Rep s v MPI_COMM_WORLD buf 0 1 tag MPI_CHAR count mode false false 4104
    (mkChannel false 4640 4136) [] [] world0 b m (di_inv _ _ HD)) as (q' & [[E' _]|(sh' & E' & Hl & Hn & Hu & HI)]); try done.
  - by rewrite Hr.
  - exact (demo_comm s v 0 HD (or_introl eq_refl)).
  - by rewrite Hr.
  - rewrite E in E'. by apply Ret_inj in E' as [? _].
  - rewrite Hrem in E', HI. fold x in E', HI. rewrite E in E'. apply Ret_inj in E' as [[= <-] ->].
    split_and!; try done.
    + by apply demo_inv_frame.
    + split; try done.
      * cbn. by rewrite lookup_insert_eq.
      * cbn. set_solver.
      * change (chan_at s (lrank (nq s) 1) = Some (5128, demo_ch)). by rewrite (di_nq _ _ HD).
    + intros p Hp. cbn. by rewrite lookup_insert_ne.
Qed.

Lemma live_more (X : gset Z) a p : p ∈ X -> p ∈ {[a]} ∪ X.
Proof. set_solver. Qed.

(** The four requests are ready on the node. *)
Lemma demo_ok : exists v,
  node_inv Rep demo v /\
  can_recv demo v 5728 rh_any 5128 demo_ch [] [] /\ can_recv demo v 5872 rh_exact 5128 demo_ch [] [] /\
  can_send demo v 4200 sh_buffered 5128 demo_ch [] [] /\ can_send demo v 4348 sh_sync 5128 demo_ch [] [] /\
  mb demo = demo_mb /\ v_list v !! 4136 = Some [] /\ v_list v !! 4640 = Some [].
Proof.
  destruct demo0_ok as [v0 D0].
  destruct (demo_recv demo0 v0 _ _ _ _ _ _ D0 demo1_run) as (N1 & D1 & C1 & F1 & M1); [by vm_compute|].
  set (v1 := v0 <| v_live := _ |>) in *.
  destruct (demo_recv demo1 v1 _ _ _ _ _ _ D1 demo2_run) as (N2 & D2 & C2 & F2 & M2); [by vm_compute|].
  set (v2 := v1 <| v_live := _ |>) in *.
  destruct (demo_send demo2 v2 _ _ _ _ 8224 demo_mb _ _ D2 demo3_run) as (N3 & D3 & C3 & F3 & M3);
    [by vm_compute|exact demo_mb_run|done|].
  set (v3 := v2 <| v_live := _ |>) in *.
  destruct (demo_send demo3 v3 _ _ _ _ NULL demo_mb _ _ D3 demo_run) as (N4 & D4 & C4 & F4 & M4);
    [by vm_compute|by split|done|].
  set (v4 := v3 <| v_live := _ |>) in *.
  exists v4. destruct (di_lists _ _ D4) as (L1 & L2 & L3 & L4).
  assert (forall p, p ∈ v_live v3 -> handles demo !! p = handles demo3 !! p) as G4
    by (intros p Hp; apply F4; intros Heq; apply N4; rewrite <- Heq; exact Hp).
  assert (forall p, p ∈ v_live v2 -> handles demo3 !! p = handles demo2 !! p) as G3
    by (intros p Hp; apply F3; intros Heq; apply N3; rewrite <- Heq; exact Hp).
  assert (forall p, p ∈ v_live v1 -> handles demo2 !! p = handles demo1 !! p) as G2
    by (intros p Hp; apply F2; intros Heq; apply N2; rewrite <- Heq; exact Hp).
  assert (forall p, p ∈ v_live v1 -> p ∈ v_live v2) as S12 by (intros p; exact (live_more _ _ _)).
  assert (forall p, p ∈ v_live v2 -> p ∈ v_live v3) as S23 by (intros p; exact (live_more _ _ _)).
  assert (forall p, p ∈ v_live v3 -> p ∈ v_live v4) as S34 by (intros p; exact (live_more _ _ _)).
  assert (forall e, unqueued v1 e -> unqueued v4 e) as U1 by (intros e H; exact H).
  assert (forall e, unqueued v2 e -> unqueued v4 e) as U2 by (intros e H; exact H).
  assert (forall e, unqueued v3 e -> unqueued v4 e) as U3 by (intros e H; exact H).
  clearbody v4 v3 v2 v1.
  split; [apply D4|].
  split; [|split; [|split; [|split; [exact C4|by split_and!]]]].
  - eapply can_recv_frame; [exact C1|..|exact L3|exact L4].
    + by rewrite (di_nq _ _ D4), (di_nq _ _ D1).
    + intros i. by rewrite (di_chan _ _ D4), (di_chan _ _ D1).
    + pose proof (cr_live _ _ _ _ _ _ _ _ C1) as Hl. rewrite G4, G3, G2 by auto. apply C1.
    + apply S34, S23, S12, C1.
    + apply U1, C1.
  - eapply can_recv_frame; [exact C2|..|exact L3|exact L4].
    + by rewrite (di_nq _ _ D4), (di_nq _ _ D2).
    + intros i. by rewrite (di_chan _ _ D4), (di_chan _ _ D2).
    + pose proof (cr_live _ _ _ _ _ _ _ _ C2) as Hl. rewrite G4, G3 by auto. apply C2.
    + apply S34, S23, C2.
    + apply U2, C2.
  - eapply can_send_frame; [exact C3|..|exact L3|exact L4].
    + by rewrite (di_nq _ _ D4), (di_nq _ _ D3).
    + intros i. by rewrite (di_chan _ _ D4), (di_chan _ _ D3).
    + pose proof (cs_live _ _ _ _ _ _ _ _ C3) as Hl. rewrite G4 by auto. apply C3.
    + apply S34, C3.
    + apply U3, C3.
Qed.
