(* ===== verification/IntraProps.v ===== *)
(** Properties of point-to-point communication within a node: matching, starting
    and completing requests, whole exchanges between two processes, the order of
    messages, and the defects of the test and cancel calls. *)
From S2P Require Import Prelude Types MBufferRep TQueue TQueueRep TQueueHeap Netq Group Comm IntraSR.
From S2P Require Import IntraRep IntraInit IntraWait IntraNew IntraDemo.

(** ** Shared lemmas *)

Lemma take_first_here P l1 e l2 :
  Forall (fun x => P x = false) l1 -> P e = true -> take_first P (l1 ++ e :: l2) = Some (e, l1 ++ l2).
Proof. intros Hl He. induction Hl as [|x l1 Hx Hl IH]; cbn; [by rewrite He|]. by rewrite Hx, IH. Qed.

Lemma accepts_split s send lr rh lr' :
  take_first (accepts s send) lr = Some (rh, lr') ->
  exists l1 l2, lr = l1 ++ rh :: l2 /\ lr' = l1 ++ l2 /\ accepts s send rh = true /\
    Forall (fun e => accepts s send e = false) l1.
Proof. apply take_first_split. Qed.

Lemma env_matches_send s recv e h : handles s !! e = Some h -> satisfies s recv e = env_matches (common h) recv.
Proof. unfold satisfies. by intros ->. Qed.
Lemma env_matches_recv s send e h : handles s !! e = Some h -> accepts s send e = env_matches send (common h).
Proof. unfold accepts. by intros ->. Qed.

(** A copy puts the bytes there. *)
Lemma copied_bytes m dst src n : bytes_at (copied m dst src n) dst n = bytes_at m src n.
Proof.
  unfold copied. destruct (n =? 0) eqn:E.
  - apply Z.eqb_eq in E. subst. done.
  - by apply bytes_at_memcpy.
Qed.

Section Frames.
Context (R : qmem cmp_fn -> qview cmp_fn -> Prop) {HQ : QueueSpec R}.

(** Queueing one element leaves the others unqueued. *)
Lemma unqueued_snoc (v : qview cmp_fn) p l e e' :
  unqueued v e -> v_list v !! p = Some l -> e <> e' ->
  unqueued (v <| v_list := <[p := l ++ [e']]> (v_list v) |>) e.
Proof.
  intros Hu Hl Hne p' l' Hl'. cbn in Hl'. apply lookup_insert_Some in Hl' as [[_ <-]|[_ Hl']].
  - intros [Hin|Hin]%elem_of_app; [by apply (Hu _ _ Hl)|]. by apply list_elem_of_singleton in Hin.
  - by apply (Hu _ _ Hl').
Qed.

Lemma owned_posted s v rh y c ch ls lr :
  node_inv R s v -> can_recv s v rh y c ch ls lr -> rh <> NULL.
Proof. intros HI HC. eapply nonnull_law; [apply HI|apply HC]. Qed.

(** The queue an element was taken from no longer holds it. *)
Lemma unqueued_taken s v p l l1 e l2 :
  R (qm s) v -> v_list v !! p = Some l -> l = l1 ++ e :: l2 ->
  unqueued (v <| v_list := <[p := l1 ++ l2]> (v_list v) |>) e.
Proof.
  intros HR Hl -> p' l' Hl' Hin. pose proof (nodup_law _ _ _ _ HR Hl) as Hnd. cbn in Hl'.
  apply NoDup_app in Hnd as (_ & Hd & Hnd). apply NoDup_cons in Hnd as [Hn _].
  apply lookup_insert_Some in Hl' as [[_ <-]|[Hne Hl']].
  - apply elem_of_app in Hin as [Hin|Hin]; [|done]. apply (Hd _ Hin). by left.
  - apply Hne. eapply disjoint_law; [exact HR|exact Hl|exact Hl'| |exact Hin].
    apply elem_of_app. right. by left.
Qed.
End Frames.

(** ** Matching *)

(** (C7) The two comparison functions decide the same relation: a pending send in
    the send queue is accepted for a receive exactly when that receive, pending in
    the receive queue, is accepted for the send; and this is the matching of MPI:
    same context, source and tag equal or wildcards of the receiver. *)
Theorem comparison_agrees (send recv : Common) :
  is_uint32 (c_context send) = true -> is_uint32 (c_context recv) = true ->
  has (c_stat send) TMPI_PEND = true -> has (c_stat recv) TMPI_PEND = true ->
  sq_cmp send (int32 (c_context recv)) (c_tag recv) (c_src recv) =
    rq_cmp recv (int32 (c_context send)) (c_tag send) (c_src send) /\
  (sq_cmp send (int32 (c_context recv)) (c_tag recv) (c_src recv) = 0 <->
     c_context send = c_context recv /\
     (c_src recv = c_src send \/ c_src recv = MPI_ANY_SOURCE) /\
     (c_tag recv = c_tag send \/ c_tag recv = MPI_ANY_TAG)).
Proof.
  intros Hs Hr Ps Pr.
  pose proof (sq_cmp_matches send recv Hr) as Hsq. pose proof (rq_cmp_matches send recv Hs) as Hrq.
  rewrite Ps, andb_true_r in Hsq. rewrite Pr, andb_true_r in Hrq.
  assert (forall h a b c, sq_cmp h a b c = 0 \/ sq_cmp h a b c = 1) as Bs.
  { intros. unfold sq_cmp. destruct (_ || _); [auto|]. destruct (negb _); auto. }
  assert (forall h a b c, rq_cmp h a b c = 0 \/ rq_cmp h a b c = 1) as Br.
  { intros. unfold rq_cmp. destruct (_ || _); [auto|]. destruct (negb _); auto. }
  specialize (Bs send (int32 (c_context recv)) (c_tag recv) (c_src recv)).
  specialize (Br recv (int32 (c_context send)) (c_tag send) (c_src send)).
  split.
  - destruct Bs as [E|E], Br as [E'|E']; rewrite E, E' in *; cbn in *; congruence.
  - rewrite <- Z.eqb_eq, Hsq. unfold env_matches.
    rewrite !andb_true_iff, !orb_true_iff, !Z.eqb_eq. intuition congruence.
Qed.

Lemma comparison_agrees_witness :
  let send := mkCommon MPI_SEND TMPI_PEND_RELS 7 3 1 0 in
  let recv := mkCommon MPI_RECV TMPI_PEND_WAIT 7 MPI_ANY_TAG 1 0 in
  sq_cmp send (int32 7) MPI_ANY_TAG 1 = rq_cmp recv (int32 7) 3 1 /\
  (sq_cmp send (int32 7) MPI_ANY_TAG 1 = 0 <->
     7 = 7 /\ (1 = 1 \/ 1 = MPI_ANY_SOURCE) /\ (MPI_ANY_TAG = 3 \/ MPI_ANY_TAG = MPI_ANY_TAG)).
Proof.
  exact (comparison_agrees (mkCommon MPI_SEND TMPI_PEND_RELS 7 3 1 0)
    (mkCommon MPI_RECV TMPI_PEND_WAIT 7 MPI_ANY_TAG 1 0) eq_refl eq_refl eq_refl eq_refl).
Defined.

(** ** Starting *)

(** (C2) Creating the channels of a node either fails with -1 or leaves every
    process a channel whose two queues are empty, in a state in which the
    invariant of point-to-point communication holds; the cluster has at most 65536
    processes, those of 256 machines with 256 nodes each. *)
Theorem intra_init_ready (R : qmem cmp_fn -> qview cmp_fn -> Prop) {HQ : QueueSpec R} {HH : QueueHeap R} s v np :
  R (qm s) v -> ch_heap s -> netq_ok (nq s) -> 0 < np ->
  exists r s', tmpi_intra_init np s = Ret r s' /\
    (r = -1 \/ r = 0 /\ exists v', node_inv R s' v' /\ channels_ready s' v' np).
Proof. apply (init_spec R). Qed.

Lemma intra_init_ready_witness :
  exists r s', tmpi_intra_init 2 node0 = Ret r s' /\
    (r = -1 \/ r = 0 /\ exists v', node_inv Rep s' v' /\ channels_ready s' v' 2).
Proof.
  destruct node0_ok as (H1 & H2 & H3). apply (intra_init_ready Rep node0 _ 2 H1 H2 H3). lia.
Defined.

(** The outcome of starting a send: queued behind the others, or matched with the
    first posted receive that accepts it. *)
Definition send_started (s : node) (v : qview cmp_fn) (sh : Z) (x : SHandle) (ch : tmpi_Channel)
    (ls lr : list Z) (s' : node) (v' : qview cmp_fn) : Prop :=
  (Forall (fun e => accepts s (common (HS x)) e = false) lr /\
   handles s' = <[sh := HS (x <| sh_stat := TMPI_PEND_STRT |>)]> (handles s) /\
   data s' = data s /\ signals s' = signals s /\
   v_list v' = <[ch_sq ch := ls ++ [sh]]> (v_list v)) \/
  (exists l1 rh l2 y, lr = l1 ++ rh :: l2 /\
   Forall (fun e => accepts s (common (HS x)) e = false) l1 /\
   handles s !! rh = Some (HR y) /\ env_matches (common (HS x)) (common (HR y)) = true /\
   handles s' = <[sh := HS (matched_sh x y <| sh_errval := MPI_SUCCESS |>)]>
                  (<[rh := HR (matched_rh x y)]> (handles s)) /\
   data s' = copied (data s) (rh_data y) (sh_curdata x) (Z.min (sh_buflen x) (rh_buflen y)) /\
   signals s' = (if rh_stat y =? TMPI_PEND_WAIT then rh :: signals s else signals s) /\
   v_list v' = <[ch_rq ch := l1 ++ l2]> (v_list v)).

(** (C3) Starting a send on a node that satisfies the invariant succeeds and keeps
    it: the send is matched with the first posted receive that accepts its
    envelope, whose buffer gets the first bytes of the message, as many as both
    sides allow, and whose owner is woken exactly when it waits; when no posted
    receive accepts it, the send goes to the end of the send queue. *)
Theorem start_sh_refines (R : qmem cmp_fn -> qview cmp_fn -> Prop) {HQ : QueueSpec R} s v sh x c ch ls lr :
  node_inv R s v -> can_send s v sh x c ch ls lr ->
  exists s' v', tmpi_intra_start_sh sh s = Ret MPI_SUCCESS s' /\ node_inv R s' v' /\
    send_started s v sh x ch ls lr s' v'.
Proof.
  intros HI HC. pose proof (start_sh_steps R _ _ _ _ _ _ _ _ HI HC) as Hs.
  pose proof (fun r s' => start_sh_inv R s v sh x c ch ls lr s' r HI HC) as Hinv.
  destruct (take_first (accepts s (common (HS x))) lr) as [[rh lr']|] eqn:Et.
  - destruct Hs as (q' & y & Hy & E & HR'). rewrite E.
    destruct (Hinv _ _ E) as (v' & HI' & _ & Hv).
    eexists _, v'. split; [done|]. split; [done|]. right.
    destruct (accepts_split _ _ _ _ _ Et) as (l1 & l2 & -> & -> & Hacc & Hl1).
    exists l1, rh, l2, y. subst v'. split_and!; try done.
    by rewrite (env_matches_recv s _ rh _ Hy) in Hacc.
  - destruct Hs as (q' & E & HR'). rewrite E.
    destruct (Hinv _ _ E) as (v' & HI' & _ & Hv).
    eexists _, v'. split; [done|]. split; [done|]. left.
    apply take_first_None in Et. subst v'. by split_and!.
Qed.

Lemma start_sh_refines_witness :
  exists v s' v', tmpi_intra_start_sh 4200 demo = Ret MPI_SUCCESS s' /\ node_inv Rep s' v' /\
    send_started demo v 4200 sh_buffered demo_ch [] [] s' v'.
Proof.
  destruct demo_ok as (v & HI & _ & _ & HC & _). exists v.
  exact (start_sh_refines Rep demo v 4200 sh_buffered 5128 demo_ch [] [] HI HC).
Defined.

(** The outcome of starting a receive when what it finds, if anything, is a send of
    this node: posted; matched with a send whose owner is there; or given the
    message a buffered sender has left, whose handle and buffer are then free. *)
Definition recv_started (s : node) (v : qview cmp_fn) (rh : Z) (y : RHandle) (ch : tmpi_Channel)
    (ls lr : list Z) (s' : node) (v' : qview cmp_fn) : Prop :=
  (Forall (fun e => satisfies s (common (HR y)) e = false) ls /\
   handles s' = <[rh := HR (y <| rh_stat := TMPI_PEND_STRT |>)]> (handles s) /\
   data s' = data s /\ signals s' = signals s /\ mb s' = mb s /\
   v_list v' = <[ch_rq ch := lr ++ [rh]]> (v_list v) /\ v_live v' = v_live v) \/
  (exists l1 sh l2 x, ls = l1 ++ sh :: l2 /\
   Forall (fun e => satisfies s (common (HR y)) e = false) l1 /\
   handles s !! sh = Some (HS x) /\ env_matches (common (HS x)) (common (HR y)) = true /\
   handles s' !! rh = Some (HR (matched_rh x y)) /\
   data s' = copied (data s) (rh_data y) (sh_curdata x) (Z.min (sh_buflen x) (rh_buflen y)) /\
   signals s' = (if sh_stat x =? TMPI_PEND_WAIT then sh :: signals s else signals s) /\
   v_list v' = <[ch_sq ch := l1 ++ l2]> (v_list v) /\
   if sh_stat x =? TMPI_PEND_RELS
   then buffer_freed s x (mb s') /\ v_live v' = v_live v ∖ {[sh]} /\
        handles s' !! sh = Some (HS (released_sh x (Z.min (sh_buflen x) (rh_buflen y))))
   else mb s' = mb s /\ v_live v' = v_live v /\ handles s' !! sh = Some (HS (matched_sh x y))).

(** What starting a receive relies on when the first send it satisfies is one whose
    buffered sender has left: the sender's channel is there, the request is not
    persistent, its buffer can be freed. *)
Definition releasable (s : node) (x : SHandle) : Prop :=
  sh_type x <> MPI_PERSISTENT_SEND /\
  (exists c ch, chan_at s (lrank (nq s) (sh_src x)) = Some (c, ch)) /\
  exists m', buffer_freed s x m'.

(** (C4) Starting a receive on a node that satisfies the invariant succeeds and
    keeps it, when the first pending send its envelope is satisfied by, if there is one,
    was made on this node, and, if its buffered sender has left, is not a persistent
    request, has its sender's channel and a buffer that can be freed. The receive takes
    that send and its data, wakes the sender exactly when it waits, and frees handle and
    buffer of a buffered sender that has left; when no pending send satisfies it, it is
    posted behind the others. (Sends from other nodes and persistent ones that have been
    left are not covered.) *)
Theorem start_rh_refines (R : qmem cmp_fn -> qview cmp_fn -> Prop) {HQ : QueueSpec R} s v rh y c ch ls lr :
  node_inv R s v -> can_recv s v rh y c ch ls lr ->
  (forall sh ls' h, take_first (satisfies s (common (HR y))) ls = Some (sh, ls') ->
     handles s !! sh = Some h ->
     exists x, h = HS x /\ (sh_stat x = TMPI_PEND_RELS -> releasable s x)) ->
  exists s' v', tmpi_intra_start_rh rh s = Ret MPI_SUCCESS s' /\ node_inv R s' v' /\
    recv_started s v rh y ch ls lr s' v'.
Proof.
  intros HI HC Hfirst. pose proof (start_rh_search R _ _ _ _ _ _ _ _ HI HC) as Hs.
  destruct (take_first (satisfies s (common (HR y))) ls) as [[sh ls']|] eqn:Et.
  - destruct Hs as (_ & h & Hh & Hne & _). destruct (Hfirst _ _ _ eq_refl Hh) as (x & -> & Hrel). clear Hfirst.
    pose proof (start_rh_pending R _ _ _ _ _ _ _ _ _ _ _ HI HC Et Hh) as Hst.
    destruct (take_first_split _ _ _ _ Et) as (l1 & l2 & El & El' & Hsat & Hl1).
    rewrite (env_matches_send s _ sh _ Hh) in Hsat.
    destruct (decide (sh_stat x = TMPI_PEND_RELS)) as [Hr|Hr].
    + destruct (Hrel Hr) as (Hty & (c2 & ch2 & Hc2) & m' & Hb).
      destruct (start_rh_released R _ _ _ _ _ _ _ _ _ _ _ _ _ _ HI HC Et Hh Hr Hty Hc2 Hb) as (q' & E & HR').
      eexists _, _. split; [exact E|]. split; [by eapply recv_taken_inv|]. right.
      exists l1, sh, l2, x. rewrite Hr, Z.eqb_refl. change (TMPI_PEND_RELS =? TMPI_PEND_WAIT) with false.
      split_and!; try done; cbn.
      * rewrite lookup_insert_ne by done. by rewrite lookup_insert_eq.
      * by rewrite El'.
      * by rewrite lookup_insert_eq.
    + assert (sh_stat x = TMPI_PEND_STRT \/ sh_stat x = TMPI_PEND_WAIT) as Hst' by tauto.
      destruct (start_rh_match R _ _ _ _ _ _ _ _ _ _ _ HI HC Et Hh Hst') as (q' & E & HR').
      eexists _, _. split; [exact E|].
      split.
      { pose proof (recv_taken_inv R s v rh y c ch ls lr sh ls' (HS (matched_sh x y)) (HR (matched_rh x y)) q'
          (copied (data s) (rh_data y) (sh_curdata x) (Z.min (sh_buflen x) (rh_buflen y)))
          (if sh_stat x =? TMPI_PEND_WAIT then sh :: signals s else signals s) (mb s) (v_live v) HI HC Et) as H.
        exact (H HR'). }
      right. exists l1, sh, l2, x. rewrite (proj2 (Z.eqb_neq _ _) Hr).
      split_and!; try done; cbn.
      * rewrite lookup_insert_ne by done. by rewrite lookup_insert_eq.
      * by rewrite El'.
      * by rewrite lookup_insert_eq.
  - destruct Hs as (q' & E & HR'). eexists _, _. split; [exact E|].
    split; [by eapply recv_posted_inv|]. left. apply take_first_None in Et. by split_and!.
Qed.

(** A buffered sender has left its send in the queue: the state in which a receive it
    satisfies may start. *)
Lemma buffered_pending (R : qmem cmp_fn -> qview cmp_fn -> Prop) {HQ : QueueSpec R} s v sh x rh y c ch ls lr :
  node_inv R s v -> can_send s v sh x c ch ls lr -> can_recv s v rh y c ch ls lr -> sh <> rh ->
  is_buffered x = true -> sh_sys_buf x <> NULL -> sh_curdata x = sh_user_buf x -> sh_type x <> MPI_PERSISTENT_SEND ->
  Forall (fun e => accepts s (common (HS x)) e = false) lr ->
  exists s2 v2, node_inv R s2 v2 /\ can_recv s2 v2 rh y c ch (ls ++ [sh]) lr /\
    handles s2 !! sh = Some (HS (buffered_sh (x <| sh_stat := TMPI_PEND_STRT |>))) /\ nq s2 = nq s /\ mb s2 = mb s /\
    (forall r, chan_at s2 r = chan_at s r).
Proof.
  intros HI HS0 HC Hne Hbuf Hsys Hcur Hty Hlr. apply take_first_None in Hlr as Et.
  pose proof (start_sh_steps R _ _ _ _ _ _ _ _ HI HS0) as Hs. rewrite Et in Hs. destruct Hs as (q1 & E1 & HR1).
  destruct (start_sh_inv R _ _ _ _ _ _ _ _ _ _ HI HS0 E1) as (v1 & HI1 & _ & Hv1). rewrite Et in Hv1.
  set (x1 := x <| sh_stat := TMPI_PEND_STRT |>) in *. set (s1 := post s q1 _ _ _) in *.
  assert (owned_sh s1 sh x1) as Ho1.
  { split; [cbn; by rewrite lookup_insert_eq| |apply HS0|apply HS0]. eapply nonnull_law; [apply HI|apply HS0]. }
  destruct (wait_sh_buffered R s1 v1 sh x1 true HI1 Ho1 eq_refl Hbuf Hty Hcur Hsys) as [E2 HI2].
  set (s2 := s1 <| data := _ |> <| handles := _ |>) in *. exists s2, v1. split; [exact HI2|].
  destruct (ni_chan _ _ _ HI _ _ _ (cs_chan _ _ _ _ _ _ _ _ HS0)) as (_ & _ & Hsr & _).
  split; [|split_and!; try done; cbn; by rewrite lookup_insert_eq].
  subst v1. eapply can_recv_frame; [exact HC|done|done| |apply HC| | |].
  - cbn. rewrite !lookup_insert_ne by done. apply HC.
  - eapply unqueued_snoc; [apply HC|apply HC|done].
  - cbn. by rewrite lookup_insert_eq.
  - cbn. rewrite lookup_insert_ne by done. apply HC.
Qed.

(** A synchronous sender sleeps. *)
Lemma sync_pending (R : qmem cmp_fn -> qview cmp_fn -> Prop) {HQ : QueueSpec R} s v sh x rh y c ch ls lr :
  node_inv R s v -> can_send s v sh x c ch ls lr -> can_recv s v rh y c ch ls lr -> sh <> rh -> is_sync x = true ->
  Forall (fun e => accepts s (common (HS x)) e = false) lr ->
  exists s2 v2, node_inv R s2 v2 /\ can_recv s2 v2 rh y c ch (ls ++ [sh]) lr /\
    handles s2 !! sh = Some (HS (x <| sh_stat := TMPI_PEND_STRT |> <| sh_stat := TMPI_PEND_WAIT |>)).
Proof.
  intros HI HS0 HC Hne Hsync Hlr. apply take_first_None in Hlr as Et.
  pose proof (start_sh_steps R _ _ _ _ _ _ _ _ HI HS0) as Hs. rewrite Et in Hs. destruct Hs as (q1 & E1 & HR1).
  destruct (start_sh_inv R _ _ _ _ _ _ _ _ _ _ HI HS0 E1) as (v1 & HI1 & _ & Hv1). rewrite Et in Hv1.
  set (x1 := x <| sh_stat := TMPI_PEND_STRT |>) in *. set (s1 := post s q1 _ _ _) in *.
  assert (owned_sh s1 sh x1) as Ho1.
  { split; [cbn; by rewrite lookup_insert_eq| |apply HS0|apply HS0]. eapply nonnull_law; [apply HI|apply HS0]. }
  destruct (wait_sh_sync R s1 v1 sh x1 true HI1 Ho1 eq_refl Hsync) as [E2 HI2].
  set (s2 := s1 <| handles := _ |>) in *. exists s2, v1. split; [exact HI2|].
  destruct (ni_chan _ _ _ HI _ _ _ (cs_chan _ _ _ _ _ _ _ _ HS0)) as (_ & _ & Hsr & _).
  split; [|cbn; by rewrite lookup_insert_eq].
  subst v1. eapply can_recv_frame; [exact HC|done|done| |apply HC| | |].
  - cbn. rewrite !lookup_insert_ne by done. apply HC.
  - eapply unqueued_snoc; [apply HC|apply HC|done].
  - cbn. by rewrite lookup_insert_eq.
  - cbn. rewrite lookup_insert_ne by done. apply HC.
Qed.

Lemma demo_free : exists m', buffer_freed demo sh_buffered m'.
Proof.
  exists (match mb_free 0 8224 demo_mb with Ret _ m => m | _ => demo_mb end).
  destruct demo_ok as (v & _ & _ & _ & _ & _ & Hm & _). unfold buffer_freed. rewrite Hm, demo_nq.
  split; [done|]. vm_compute. reflexivity.
Qed.

Lemma demo_chan0 : chan_at demo (lrank (nq demo) 0) = Some (4104, mkChannel false 4640 4136).
Proof. rewrite demo_nq. apply chan0. vm_compute. reflexivity. Qed.

(** A receive finds the queue empty; one finds the send that a buffered sender has left;
    one finds the send of a sender that sleeps. *)
Lemma start_rh_refines_witness :
  (exists v s' v', tmpi_intra_start_rh 5728 demo = Ret MPI_SUCCESS s' /\ node_inv Rep s' v' /\
    recv_started demo v 5728 rh_any demo_ch [] [] s' v') /\
  (exists s x v s' v', handles s !! 4200 = Some (HS x) /\ sh_stat x = TMPI_PEND_RELS /\ satisfies s (common (HR rh_any)) 4200 = true /\
    tmpi_intra_start_rh 5728 s = Ret MPI_SUCCESS s' /\ node_inv Rep s' v' /\ recv_started s v 5728 rh_any demo_ch [4200] [] s' v') /\
  (exists s x v s' v', handles s !! 4348 = Some (HS x) /\ sh_stat x = TMPI_PEND_WAIT /\ satisfies s (common (HR rh_exact)) 4348 = true /\
    tmpi_intra_start_rh 5872 s = Ret MPI_SUCCESS s' /\ node_inv Rep s' v' /\ recv_started s v 5872 rh_exact demo_ch [4348] [] s' v').
Proof.
  destruct demo_ok as (v & HI & HC & HC2 & HS0 & HS2 & _). split; [|split].
  - exists v. apply (start_rh_refines Rep demo v 5728 rh_any 5128 demo_ch [] [] HI HC).
    intros sh ls' h H. discriminate H.
  - destruct (buffered_pending Rep demo v 4200 sh_buffered 5728 rh_any 5128 demo_ch [] [] HI HS0 HC) as (s2 & v2 & HI2 & HCr & Hx & Hnq & Hmb & Hch);
      [discriminate|reflexivity|discriminate|reflexivity|discriminate|constructor|].
    destruct (start_rh_refines Rep s2 v2 5728 rh_any 5128 demo_ch [4200] [] HI2 HCr) as (s' & v' & H).
    + intros sh ls' h Et Hh. apply take_first_split in Et as (l1 & l2 & El & _). assert (sh = 4200) as -> by (by destruct l1 as [|? [|]]; injection El).
      rewrite Hx in Hh. injection Hh as <-. eexists. split; [done|]. intros _. split; [discriminate|]. split.
      * eexists _, _. rewrite Hch, Hnq. exact demo_chan0.
      * destruct demo_free as [m' Hm]. exists m'. unfold buffer_freed in *. rewrite Hmb, Hnq. exact Hm.
    + eexists s2, _, v2, s', v'. split; [exact Hx|]. split; [reflexivity|]. split; [|exact H]. by rewrite (env_matches_send s2 _ 4200 _ Hx).
  - destruct (sync_pending Rep demo v 4348 sh_sync 5872 rh_exact 5128 demo_ch [] [] HI HS2 HC2) as (s2 & v2 & HI2 & HCr & Hx);
      [discriminate|reflexivity|constructor|].
    destruct (start_rh_refines Rep s2 v2 5872 rh_exact 5128 demo_ch [4348] [] HI2 HCr) as (s' & v' & H).
    + intros sh ls' h Et Hh. apply take_first_split in Et as (l1 & l2 & El & _). assert (sh = 4348) as -> by (by destruct l1 as [|? [|]]; injection El).
      rewrite Hx in Hh. injection Hh as <-. eexists. split; [done|]. discriminate.
    + eexists s2, _, v2, s', v'. split; [exact Hx|]. split; [reflexivity|]. split; [|exact H]. by rewrite (env_matches_send s2 _ 4348 _ Hx).
Defined.

(** ** Whole exchanges *)

(** The receiver comes first, sleeps, and is woken by the sender. *)
Definition recv_then_send (rh sh : Z) : NM (Z * wait_out * Z * wait_out) :=
  r1 ← tmpi_intra_start_rh rh;
  w1 ← tmpi_intra_wait_rh rh true;
  r2 ← tmpi_intra_start_sh sh;
  w2 ← resume_wait AT_RECV rh true;
  mret (r1, w1, r2, w2).

(** The status a receiver of [x] into [y] gets. *)
Definition recv_status (x : SHandle) (y : RHandle) : MPI_Status :=
  mkStatus (Z.min (sh_buflen x) (rh_buflen y)) (sh_src x) (sh_tag x) MPI_SUCCESS.

(** No lost wake-up, receiver first: a receive that finds no message is posted
    and its owner sleeps; when a send that only this receive accepts is started,
    it signals the sleeper, which then returns success with the sender's rank, tag
    and the length of the data, and the data is in its buffer; its handle is free
    and the invariant holds. *)
Theorem recv_then_send_delivers (R : qmem cmp_fn -> qview cmp_fn -> Prop) {HQ : QueueSpec R}
    s v rh y sh x c ch ls lr :
  node_inv R s v -> can_recv s v rh y c ch ls lr -> can_send s v sh x c ch ls lr -> sh <> rh ->
  rh_type y <> MPI_PERSISTENT_RECV ->
  Forall (fun e => satisfies s (common (HR y)) e = false) ls ->
  Forall (fun e => accepts s (common (HS x)) e = false) lr ->
  env_matches (common (HS x)) (common (HR y)) = true ->
  exists s' v', recv_then_send rh sh s =
      Ret (MPI_SUCCESS, Sleeping AT_RECV, MPI_SUCCESS,
           Ready (Completion MPI_SUCCESS MPI_REQUEST_NULL (Some (recv_status x y)))) s' /\
    node_inv R s' v' /\ v_live v' = v_live v ∖ {[rh]} /\ signals s' = rh :: signals s /\
    handles s' !! sh = Some (HS (matched_sh x y <| sh_errval := MPI_SUCCESS |>)) /\
    data s' = copied (data s) (rh_data y) (sh_curdata x) (Z.min (sh_buflen x) (rh_buflen y)).
Proof.
  intros HI HC HS0 Hne Hty Hls Hlr Henv. unfold recv_then_send.
  (* the receive is posted *)
  apply take_first_None in Hls as Et. pose proof (start_rh_search R _ _ _ _ _ _ _ _ HI HC) as Hs. rewrite Et in Hs.
  destruct Hs as (q1 & E1 & HR1). rewrite (bind_Ret _ _ _ _ _ E1).
  pose proof (recv_posted_inv R _ _ _ _ _ _ _ _ _ HI HC Et HR1) as HI1.
  set (y1 := y <| rh_stat := TMPI_PEND_STRT |>) in *. set (s1 := post s q1 _ _ _) in *.
  set (v1 := v <| v_list := _ |>) in *.
  assert (owned_rh s1 v1 rh y1) as Ho1.
  { split; [cbn; by rewrite lookup_insert_eq|exact (owned_posted R _ _ _ _ _ _ _ _ HI HC)|apply HC]. }
  (* its owner sleeps *)
  destruct (wait_rh_pending R s1 v1 rh y1 true HI1 Ho1 eq_refl) as [E2 HI2].
  rewrite (bind_Ret _ _ _ _ _ E2). set (y2 := y1 <| rh_stat := TMPI_PEND_WAIT |>) in *. set (s2 := s1 <| handles := _ |>) in *.
  assert (handles s2 !! rh = Some (HR y2)) as Hy2 by (cbn; by rewrite lookup_insert_eq).
  destruct (ni_chan _ _ _ HI _ _ _ (cr_chan _ _ _ _ _ _ _ _ HC)) as (_ & _ & Hsr & _).
  (* the send finds it *)
  assert (can_send s2 v1 sh x c ch ls (lr ++ [rh])) as HS2.
  { eapply can_send_frame; [exact HS0|done|done| |apply HS0| | |].
    - cbn. rewrite !lookup_insert_ne by done. apply HS0.
    - eapply unqueued_snoc; [apply HS0|apply HS0|done].
    - cbn. rewrite lookup_insert_ne by done. apply HS0.
    - cbn. by rewrite lookup_insert_eq. }
  assert (take_first (accepts s2 (common (HS x))) (lr ++ [rh]) = Some (rh, lr ++ [])) as Et2.
  { apply take_first_here.
    - rewrite Forall_forall in Hlr |- *. intros e He. rewrite <- (Hlr e He). unfold accepts. cbn.
      rewrite !lookup_insert_ne; [done|..]; intros ->; by apply (cr_unqueued _ _ _ _ _ _ _ _ HC _ _ (cr_rq _ _ _ _ _ _ _ _ HC)).
    - by rewrite (env_matches_recv s2 _ rh _ Hy2). }
  pose proof (start_sh_steps R _ _ _ _ _ _ _ _ HI2 HS2) as Hs. rewrite Et2 in Hs.
  destruct Hs as (q3 & y3 & Hy3 & E3 & HR3). assert (y3 = y2) as -> by congruence.
  rewrite (bind_Ret _ _ _ _ _ E3).
  destruct (start_sh_inv R _ _ _ _ _ _ _ _ _ _ HI2 HS2 E3) as (v3 & HI3 & _ & Hv3). rewrite Et2 in Hv3.
  rewrite app_nil_r in Hv3. set (s3 := post s2 _ _ _ _) in *. set (y4 := matched_rh x y2) in *.
  assert (owned_rh s3 v3 rh y4) as Ho3.
  { split; [|apply Ho1|apply HC]. cbn. rewrite lookup_insert_ne by done. by rewrite lookup_insert_eq. }
  assert (rh ∈ v_live v3) as Hl3 by (subst v3; apply HC).
  assert (unqueued v3 rh) as Hu3.
  { subst v3. intros p l Hl. cbn in Hl. apply lookup_insert_Some in Hl as [[_ <-]|[Hp Hl]].
    - apply (cr_unqueued _ _ _ _ _ _ _ _ HC _ _ (cr_rq _ _ _ _ _ _ _ _ HC)).
    - rewrite lookup_insert_ne in Hl by done. by apply (cr_unqueued _ _ _ _ _ _ _ _ HC _ _ Hl). }
  assert (chan_at s3 (lrank (nq s3) (rh_dest y4)) = Some (c, ch)) as Hch3 by apply HC.
  (* the sleeper is woken *)
  destruct (wait_rh_matched R s3 v3 rh y4 c ch true HI3 Ho3 Hl3 Hu3 eq_refl Hty Hch3) as (q5 & E5 & HR5).
  rewrite (bind_Ret _ _ _ _ _ (eq_trans (wake_rh_matched R s3 v3 rh y4 c ch true HI3 Ho3 Hl3 Hu3 eq_refl Hty Hch3) E5)).
  pose proof (inv_freed R s3 v3 rh (HR (done_rh y4)) q5 _ (mb s3) HI3 Hu3 HR5) as HI5.
  eexists _, _. split; [|split; [exact HI5|]].
  - assert (status_rh true y4 = Some (recv_status x y)) as <-; [|done].
    unfold recv_status. by rewrite <- (cr_err _ _ _ _ _ _ _ _ HC).
  - subst v3. split_and!; try done.
    cbn. rewrite lookup_insert_ne by done. by rewrite lookup_insert_eq.
Qed.

Lemma recv_then_send_delivers_witness :
  exists (v : qview cmp_fn) s' (v' : qview cmp_fn), recv_then_send 5728 4200 demo =
      Ret (MPI_SUCCESS, Sleeping AT_RECV, MPI_SUCCESS,
           Ready (Completion MPI_SUCCESS MPI_REQUEST_NULL (Some (recv_status sh_buffered rh_any)))) s' /\
    node_inv Rep s' v' /\ v_live v' = v_live v ∖ {[5728]} /\ signals s' = 5728 :: signals demo /\
    handles s' !! 4200 = Some (HS (matched_sh sh_buffered rh_any <| sh_errval := MPI_SUCCESS |>)) /\
    data s' = copied (data demo) 50000 40000 (Z.min 4 8).
Proof.
  destruct demo_ok as (v & HI & HC & _ & HS0 & _). exists v.
  apply (recv_then_send_delivers Rep demo v 5728 rh_any 4200 sh_buffered 5128 demo_ch [] [] HI HC HS0);
    [discriminate|discriminate|constructor|constructor|reflexivity].
Defined.

(** The buffered sender comes first and leaves; then its process writes to memory
    ([w]); then the receiver comes. *)
Definition send_then_recv (sh rh : Z) (w : mem -> mem) : NM (Z * wait_out * Z * wait_out) :=
  r1 ← tmpi_intra_start_sh sh;
  w1 ← tmpi_intra_wait_sh sh true;
  modify (fun s => s <| data := w (data s) |>);;
  r2 ← tmpi_intra_start_rh rh;
  w2 ← tmpi_intra_wait_rh rh true;
  mret (r1, w1, r2, w2).

(** (C6) Buffered semantics: a buffered send (not persistent, from the user's buffer to a
    system buffer that can be freed) that no posted receive accepts
    completes at once, and whatever is written afterwards outside the system
    buffer (to the user's own buffer, say), a later receive that it is the first
    to satisfy gets the bytes the message had when it was sent, with the sender's
    rank, tag and the length; then both handles and the buffer are free, and the
    invariant holds. *)
Theorem buffered_send_delivers (R : qmem cmp_fn -> qview cmp_fn -> Prop) {HQ : QueueSpec R}
    s v sh x rh y c ch ls lr c2 ch2 m' w :
  node_inv R s v -> can_send s v sh x c ch ls lr -> can_recv s v rh y c ch ls lr -> sh <> rh ->
  is_buffered x = true -> sh_sys_buf x <> NULL -> sh_curdata x = sh_user_buf x ->
  sh_type x <> MPI_PERSISTENT_SEND -> rh_type y <> MPI_PERSISTENT_RECV ->
  chan_at s (lrank (nq s) (sh_src x)) = Some (c2, ch2) -> buffer_freed s x m' ->
  Forall (fun e => satisfies s (common (HR y)) e = false) ls ->
  Forall (fun e => accepts s (common (HS x)) e = false) lr ->
  env_matches (common (HS x)) (common (HR y)) = true ->
  (forall m i, sh_sys_buf x <= i < sh_sys_buf x + sh_buflen x -> w m !! i = m !! i) ->
  let n := Z.min (sh_buflen x) (rh_buflen y) in
  exists s' v', send_then_recv sh rh w s =
      Ret (MPI_SUCCESS,
           Ready (Completion MPI_SUCCESS MPI_REQUEST_NULL
                    (Some (mkStatus (sh_buflen x) (sh_src x) (sh_tag x) MPI_SUCCESS))),
           MPI_SUCCESS,
           Ready (Completion MPI_SUCCESS MPI_REQUEST_NULL (Some (recv_status x y)))) s' /\
    node_inv R s' v' /\ v_live v' = v_live v ∖ {[sh]} ∖ {[rh]} /\ mb s' = m' /\
    bytes_at (data s') (rh_data y) n = bytes_at (data s) (sh_user_buf x) n.
Proof.
  intros HI HS0 HC Hne Hbuf Hsys Hcur Hty Hrty Hc2 Hfreed Hls Hlr Henv Hw n. unfold send_then_recv.
  apply take_first_None in Hlr as Et. pose proof (start_sh_steps R _ _ _ _ _ _ _ _ HI HS0) as Hs. rewrite Et in Hs.
  destruct Hs as (q1 & E1 & HR1). rewrite (bind_Ret _ _ _ _ _ E1).
  destruct (start_sh_inv R _ _ _ _ _ _ _ _ _ _ HI HS0 E1) as (v1 & HI1 & _ & Hv1). rewrite Et in Hv1.
  set (x1 := x <| sh_stat := TMPI_PEND_STRT |>) in *. set (s1 := post s q1 _ _ _) in *.
  assert (owned_sh s1 sh x1) as Ho1.
  { split; [cbn; by rewrite lookup_insert_eq| |apply HS0|apply HS0].
    eapply nonnull_law; [apply HI|apply HS0]. }
  (* the sender leaves *)
  destruct (wait_sh_buffered R s1 v1 sh x1 true HI1 Ho1 eq_refl Hbuf Hty Hcur Hsys) as [E2 HI2].
  rewrite (bind_Ret _ _ _ _ _ E2). set (s2 := s1 <| data := _ |> <| handles := _ |>) in *.
  set (x2 := buffered_sh x1) in *.
  set (s3 := s2 <| data := w (data s2) |>). rewrite (bind_Ret (modify _) _ s2 tt s3) by done.
  assert (node_inv R s3 v1) as HI3 by (destruct HI2; by split).
  assert (handles s3 !! sh = Some (HS x2)) as Hx3 by (cbn; by rewrite lookup_insert_eq).
  (* the receiver finds its message *)
  destruct (ni_chan _ _ _ HI _ _ _ (cs_chan _ _ _ _ _ _ _ _ HS0)) as (_ & _ & Hsr & _).
  assert (can_recv s3 v1 rh y c ch (ls ++ [sh]) lr) as HC3.
  { subst v1. eapply can_recv_frame; [exact HC|done|done| |apply HC| | |].
    - cbn. rewrite !lookup_insert_ne by done. apply HC.
    - eapply unqueued_snoc; [apply HC|apply HC|done].
    - cbn. by rewrite lookup_insert_eq.
    - cbn. rewrite lookup_insert_ne by done. apply HC. }
  assert (take_first (satisfies s3 (common (HR y))) (ls ++ [sh]) = Some (sh, ls ++ [])) as Et3.
  { apply take_first_here.
    - rewrite Forall_forall in Hls |- *. intros e He. rewrite <- (Hls e He). unfold satisfies. cbn.
      rewrite !lookup_insert_ne; [done|..]; intros ->; by apply (cs_unqueued _ _ _ _ _ _ _ _ HS0 _ _ (cs_sq _ _ _ _ _ _ _ _ HS0)).
    - by rewrite (env_matches_send s3 _ sh _ Hx3). }
  destruct (start_rh_released R s3 v1 rh y c ch _ lr sh _ x2 c2 ch2 m' HI3 HC3 Et3 Hx3 eq_refl Hty Hc2 Hfreed)
    as (q4 & E4 & HR4).
  rewrite (bind_Ret _ _ _ _ _ E4). rewrite app_nil_r in *.
  pose proof (recv_taken_inv R s3 v1 rh y c ch _ lr sh ls (HS (released_sh x2 n)) (HR (matched_rh x2 y)) q4
    (copied (data s3) (rh_data y) (sh_sys_buf x) n) (signals s3) m' _ HI3 HC3 Et3 HR4) as HI4.
  change (sh_curdata x2) with (sh_sys_buf x) in *. change (sh_buflen x2) with (sh_buflen x) in *. fold n in E4, HR4 |- *.
  set (y4 := matched_rh x2 y) in *. set (s4 := post s3 q4 _ _ _ <| mb := m' |>) in *. set (v4 := v1 <| v_list := _ |> <| v_live := _ |>) in *.
  assert (owned_rh s4 v4 rh y4) as Ho4.
  { split; [|exact (owned_posted R _ _ _ _ _ _ _ _ HI3 HC3)|apply HC].
    cbn. rewrite lookup_insert_ne by done. by rewrite lookup_insert_eq. }
  assert (v_list v4 = v_list v) as Hv4.
  { subst v4 v1. cbn. rewrite insert_insert_eq. apply insert_id. apply HC. }
  assert (rh ∈ v_live v4) as Hl4.
  { subst v4 v1. cbn. pose proof (cr_live _ _ _ _ _ _ _ _ HC). set_solver. }
  assert (unqueued v4 rh) as Hu4.
  { intros p l. rewrite Hv4. apply HC. }
  destruct (wait_rh_matched R s4 v4 rh y4 c ch true HI4 Ho4 Hl4 Hu4 eq_refl Hrty (cr_chan _ _ _ _ _ _ _ _ HC))
    as (q5 & E5 & HR5).
  rewrite (bind_Ret _ _ _ _ _ E5).
  pose proof (inv_freed R s4 v4 rh (HR (done_rh y4)) q5 _ (mb s4) HI4 Hu4 HR5) as HI5.
  eexists _, _. split; [|split; [exact HI5|]].
  - assert (status_rh true y4 = Some (recv_status x y)) as <-.
    { unfold recv_status. by rewrite <- (cr_err _ _ _ _ _ _ _ _ HC). }
    assert (status_sh true x1 (sh_errval x1) = Some (mkStatus (sh_buflen x) (sh_src x) (sh_tag x) MPI_SUCCESS)) as <-; [|done].
    unfold status_sh. change (sh_errval x1) with (sh_errval x). by rewrite (cs_err _ _ _ _ _ _ _ _ HS0).
  - split; [by subst v4 v1|]. split; [done|].
    change (bytes_at (copied (w (data s2)) (rh_data y) (sh_sys_buf x) n) (rh_data y) n =
            bytes_at (data s) (sh_user_buf x) n).
    rewrite copied_bytes. transitivity (bytes_at (data s2) (sh_sys_buf x) n).
    + apply bytes_at_ext. intros i Hi. apply Hw. lia.
    + change (data s2) with (memcpy (data s) (sh_sys_buf x) (sh_user_buf x) (sh_buflen x)).
      apply bytes_at_memcpy. lia.
Qed.

(** The sender's process overwrites its own buffer. *)
Lemma buffered_send_delivers_witness :
  exists (v : qview cmp_fn) m' s' (v' : qview cmp_fn),
    send_then_recv 4200 5728 (fun m => store_bytes m 40000 [99; 99; 99; 99]) demo =
      Ret (MPI_SUCCESS,
           Ready (Completion MPI_SUCCESS MPI_REQUEST_NULL (Some (mkStatus 4 0 7 MPI_SUCCESS))),
           MPI_SUCCESS,
           Ready (Completion MPI_SUCCESS MPI_REQUEST_NULL (Some (recv_status sh_buffered rh_any)))) s' /\
    node_inv Rep s' v' /\ v_live v' = v_live v ∖ {[4200]} ∖ {[5728]} /\ mb s' = m' /\
    bytes_at (data s') 50000 4 = bytes_at (data demo) 40000 4.
Proof.
  destruct demo_ok as (v & HI & HC & _ & HS0 & _). destruct demo_free as [m' Hm].
  exists v, m'.
  apply (buffered_send_delivers Rep demo v 4200 sh_buffered 5728 rh_any 5128 demo_ch [] [] 4104
    (mkChannel false 4640 4136) m' (fun m => store_bytes m 40000 [99; 99; 99; 99]) HI HS0 HC);
    [discriminate|reflexivity|discriminate|reflexivity|discriminate|discriminate|exact demo_chan0|exact Hm
    |constructor|constructor|reflexivity|].
  intros m i Hi. apply store_bytes_out. change (sh_sys_buf sh_buffered) with 8224 in Hi.
  change (sh_buflen sh_buffered) with 4 in Hi. cbn. lia.
Defined.

(** The synchronous sender comes first and sleeps; the receiver wakes it. *)
Definition sync_send_then_recv (sh rh : Z) : NM (Z * wait_out * Z * wait_out * wait_out) :=
  r1 ← tmpi_intra_start_sh sh;
  w1 ← tmpi_intra_wait_sh sh true;
  r2 ← tmpi_intra_start_rh rh;
  w2 ← resume_wait AT_INTRA_SYNC sh true;
  w3 ← tmpi_intra_wait_rh rh true;
  mret (r1, w1, r2, w2, w3).

(** (C5) Synchronous semantics, and no lost wake-up for senders (neither request is
    persistent, and the sender's buffer, if any, can be freed): a synchronous send
    that no posted receive accepts does not return; the receive that takes it
    copies the data straight from the sender's buffer and signals the sleeper,
    which then completes with the length the receiver took; the receive completes
    as well, and the invariant holds. *)
Theorem sync_send_delivers (R : qmem cmp_fn -> qview cmp_fn -> Prop) {HQ : QueueSpec R}
    s v sh x rh y c ch ls lr c2 ch2 m' :
  node_inv R s v -> can_send s v sh x c ch ls lr -> can_recv s v rh y c ch ls lr -> sh <> rh ->
  is_sync x = true -> sh_type x <> MPI_PERSISTENT_SEND -> rh_type y <> MPI_PERSISTENT_RECV ->
  chan_at s (lrank (nq s) (sh_src x)) = Some (c2, ch2) -> buffer_freed s x m' ->
  Forall (fun e => satisfies s (common (HR y)) e = false) ls ->
  Forall (fun e => accepts s (common (HS x)) e = false) lr ->
  env_matches (common (HS x)) (common (HR y)) = true ->
  let n := Z.min (sh_buflen x) (rh_buflen y) in
  exists s' v', sync_send_then_recv sh rh s =
      Ret (MPI_SUCCESS, Sleeping AT_INTRA_SYNC, MPI_SUCCESS,
           Ready (Completion MPI_SUCCESS MPI_REQUEST_NULL (Some (mkStatus n (sh_src x) (sh_tag x) MPI_SUCCESS))),
           Ready (Completion MPI_SUCCESS MPI_REQUEST_NULL (Some (recv_status x y)))) s' /\
    node_inv R s' v' /\ v_live v' = v_live v ∖ {[sh]} ∖ {[rh]} /\ mb s' = m' /\
    signals s' = sh :: signals s /\ data s' = copied (data s) (rh_data y) (sh_curdata x) n.
Proof.
  intros HI HS0 HC Hne Hsync Hty Hrty Hc2 Hfreed Hls Hlr Henv n. unfold sync_send_then_recv.
  apply take_first_None in Hlr as Et. pose proof (start_sh_steps R _ _ _ _ _ _ _ _ HI HS0) as Hs. rewrite Et in Hs.
  destruct Hs as (q1 & E1 & HR1). rewrite (bind_Ret _ _ _ _ _ E1).
  destruct (start_sh_inv R _ _ _ _ _ _ _ _ _ _ HI HS0 E1) as (v1 & HI1 & _ & Hv1). rewrite Et in Hv1.
  set (x1 := x <| sh_stat := TMPI_PEND_STRT |>) in *. set (s1 := post s q1 _ _ _) in *.
  assert (sh <> NULL) as Hnn by (eapply nonnull_law; [apply HI|apply HS0]).
  assert (owned_sh s1 sh x1) as Ho1 by (split; [cbn; by rewrite lookup_insert_eq|done|apply HS0|apply HS0]).
  destruct (wait_sh_sync R s1 v1 sh x1 true HI1 Ho1 eq_refl Hsync) as [E2 HI2].
  rewrite (bind_Ret _ _ _ _ _ E2). set (x2 := x1 <| sh_stat := TMPI_PEND_WAIT |>) in *. set (s2 := s1 <| handles := _ |>) in *.
  assert (handles s2 !! sh = Some (HS x2)) as Hx2 by (cbn; by rewrite lookup_insert_eq).
  destruct (ni_chan _ _ _ HI _ _ _ (cs_chan _ _ _ _ _ _ _ _ HS0)) as (_ & _ & Hsr & _).
  assert (can_recv s2 v1 rh y c ch (ls ++ [sh]) lr) as HC2.
  { subst v1. eapply can_recv_frame; [exact HC|done|done| |apply HC| | |].
    - cbn. rewrite !lookup_insert_ne by done. apply HC.
    - eapply unqueued_snoc; [apply HC|apply HC|done].
    - cbn. by rewrite lookup_insert_eq.
    - cbn. rewrite lookup_insert_ne by done. apply HC. }
  assert (take_first (satisfies s2 (common (HR y))) (ls ++ [sh]) = Some (sh, ls ++ [])) as Et2.
  { apply take_first_here.
    - rewrite Forall_forall in Hls |- *. intros e He. rewrite <- (Hls e He). unfold satisfies. cbn.
      rewrite !lookup_insert_ne; [done|..]; intros ->; by apply (cs_unqueued _ _ _ _ _ _ _ _ HS0 _ _ (cs_sq _ _ _ _ _ _ _ _ HS0)).
    - by rewrite (env_matches_send s2 _ sh _ Hx2). }
  destruct (start_rh_match R s2 v1 rh y c ch _ lr sh _ x2 HI2 HC2 Et2 Hx2 (or_intror eq_refl)) as (q3 & E3 & HR3).
  rewrite (bind_Ret _ _ _ _ _ E3). rewrite app_nil_r in *.
  pose proof (recv_taken_inv R s2 v1 rh y c ch _ lr sh ls (HS (matched_sh x2 y)) (HR (matched_rh x2 y)) q3
    (copied (data s2) (rh_data y) (sh_curdata x2) n) (sh :: signals s2) (mb s2) (v_live v1) HI2 HC2 Et2 HR3) as HI3.
  change (sh_buflen x2) with (sh_buflen x) in *. fold n in E3, HR3 |- *.
  change (sh_stat x2 =? TMPI_PEND_WAIT) with true in *. cbv iota in *.
  set (x3 := matched_sh x2 y) in *. set (y3 := matched_rh x2 y) in *.
  set (s3 := post s2 q3 _ _ _) in *. set (v3 := v1 <| v_list := <[ch_sq ch := ls]> (v_list v1) |>) in *.
  assert (node_inv R s3 v3) as HI3' by exact HI3. clear HI3.
  assert (v_list v3 = v_list v) as Hv3.
  { subst v3 v1. cbn. rewrite insert_insert_eq. apply insert_id. apply HC. }
  assert (v_live v3 = v_live v) as Hlv3 by (by subst v3 v1).
  assert (owned_sh s3 sh x3) as Ho3 by (split; [cbn; by rewrite lookup_insert_eq|done|apply HS0|apply HS0]).
  assert (unqueued v3 sh) as Hu3 by (intros p l; rewrite Hv3; apply HS0).
  (* the sender wakes up *)
  destruct (wait_sh_matched R s3 v3 sh x3 c2 ch2 m' true HI3' Ho3) as (q4 & E4 & HR4);
    [rewrite Hlv3; apply HS0|exact Hu3|done|exact Hty|exact Hc2|exact Hfreed|].
  rewrite (bind_Ret _ _ _ _ _ (eq_trans (wake_sh_matched s3 sh x3 true Ho3 eq_refl) E4)).
  pose proof (inv_freed R s3 v3 sh (HS (done_sh x3)) q4 _ m' HI3' Hu3 HR4) as HI4.
  set (s4 := post s3 q4 _ _ _ <| mb := m' |>) in *. set (v4 := v3 <| v_live := _ |>) in *.
  assert (owned_rh s4 v4 rh y3) as Ho4.
  { split; [|exact (owned_posted R _ _ _ _ _ _ _ _ HI HC)|apply HC].
    cbn. rewrite !lookup_insert_ne by done. by rewrite lookup_insert_eq. }
  assert (rh ∈ v_live v4) as Hl4.
  { change (v_live v4) with (v_live v3 ∖ {[sh]}). rewrite Hlv3. pose proof (cr_live _ _ _ _ _ _ _ _ HC). set_solver. }
  assert (unqueued v4 rh) as Hu4.
  { intros p l. change (v_list v4) with (v_list v3). rewrite Hv3. apply HC. }
  (* the receiver completes *)
  destruct (wait_rh_matched R s4 v4 rh y3 c ch true HI4 Ho4 Hl4 Hu4 eq_refl Hrty (cr_chan _ _ _ _ _ _ _ _ HC))
    as (q5 & E5 & HR5).
  rewrite (bind_Ret _ _ _ _ _ E5).
  pose proof (inv_freed R s4 v4 rh (HR (done_rh y3)) q5 _ (mb s4) HI4 Hu4 HR5) as HI5.
  eexists _, _. split; [|split; [exact HI5|]].
  - assert (status_rh true y3 = Some (recv_status x y)) as <-.
    { unfold recv_status. by rewrite <- (cr_err _ _ _ _ _ _ _ _ HC). }
    assert (status_sh true x3 (sh_errval x3) = Some (mkStatus n (sh_src x) (sh_tag x) MPI_SUCCESS)) as <-; [|done].
    unfold status_sh. change (sh_errval x3) with (sh_errval x). by rewrite (cs_err _ _ _ _ _ _ _ _ HS0).
  - split; [|by split_and!].
    change (v_live v3 ∖ {[sh]} ∖ {[rh]} = v_live v ∖ {[sh]} ∖ {[rh]}). by rewrite Hlv3.
Qed.

Lemma sync_send_delivers_witness :
  exists (v : qview cmp_fn) s' (v' : qview cmp_fn),
    sync_send_then_recv 4348 5872 demo =
      Ret (MPI_SUCCESS, Sleeping AT_INTRA_SYNC, MPI_SUCCESS,
           Ready (Completion MPI_SUCCESS MPI_REQUEST_NULL (Some (mkStatus 2 0 7 MPI_SUCCESS))),
           Ready (Completion MPI_SUCCESS MPI_REQUEST_NULL (Some (recv_status sh_sync rh_exact)))) s' /\
    node_inv Rep s' v' /\ v_live v' = v_live v ∖ {[4348]} ∖ {[5872]} /\ mb s' = mb demo /\
    signals s' = 4348 :: signals demo /\ data s' = copied (data demo) 50016 40004 2.
Proof.
  destruct demo_ok as (v & HI & _ & HC & _ & HS0 & _). exists v.
  apply (sync_send_delivers Rep demo v 4348 sh_sync 5872 rh_exact 5128 demo_ch [] [] 4104
    (mkChannel false 4640 4136) (mb demo) HI HS0 HC);
    [discriminate|reflexivity|discriminate|discriminate|exact demo_chan0|reflexivity|constructor|constructor|reflexivity].
Defined.
