(* ===== verification/AsMalloc.v ===== *)
(** The checked allocator of the translator (compile/mpitrans/asmalloc.c): each block is
    five times as large as it was asked for, the excess is filled with a test character
    and inspected later. [malloc] and [free] of the system keep the blocks in [heap];
    which address [malloc] returns is an argument. *)
From S2P Require Import Prelude.

Open Scope Z_scope.

Definition MALLARRSZ : Z := 4096.
Definition BLOWUP : Z := 5.
Definition TESTCHAR : Z := 17.

Record memblockDesc := mkDesc { ptr : Z; size : Z; line : Z; file : Z }.
#[export] Instance eta_memblockDesc : Eta memblockDesc := MkEta _ (fun r => mkDesc (ptr r) (size r) (line r) (file r)).

(** The bytes of memory, the blocks of the system's allocator with their sizes, the
    table of blocks and how much of it is used. *)
Record amem := mkAmem { bytes : gmap Z Z; heap : gmap Z Z; m : list memblockDesc; m_pos : Z }.
#[export] Instance eta_amem : Eta amem := MkEta _ (fun r => mkAmem (bytes r) (heap r) (m r) (m_pos r)).

#[local] Notation M := (Prelude.M amem).

(** ** Memory *)

(** Whether [p[j]] lies in the block at [p]. *)
Definition in_block (h : gmap Z Z) (p j : Z) : bool :=
  match h !! p with Some n => (0 <=? j) && (j <? n) | None => false end.
Definition byte_at (b : gmap Z Z) (a : Z) : Z := default 0 (b !! a).

Definition load (p j : Z) : M Z :=
  s ← get; if in_block (heap s) p j then mret (byte_at (bytes s) (p + j)) else fault.
Definition store (p j v : Z) : M unit :=
  s ← get; if in_block (heap s) p j then modify (fun s => s <| bytes := <[p + j := v]> (bytes s) |>) else fault.

(** [m[i]] *)
Definition desc_at (i : nat) : M memblockDesc := s ← get; or_fault (m s !! i).
Definition set_desc (i : nat) (d : memblockDesc) : M unit :=
  _ ← desc_at i; modify (fun s => s <| m := <[i := d]> (m s) |>).

(** Writes [v] to [p[i]], ..., [p[i+k-1]]. *)
Fixpoint fill (k : nat) (p i v : Z) : M unit :=
  match k with O => mret tt | S k' => store p i v;; fill k' p (i + 1) v end.

(** The first index from [j] on, of [k], at which a test character is overwritten. *)
Fixpoint first_bad (k : nat) (p j : Z) : M (option Z) :=
  match k with
  | O => mret None
  | S k' => c ← load p j; if c =? TESTCHAR then first_bad k' p (j + 1) else mret (Some j)
  end.

(** The loop over the excess of a block, with the product as an [int]. *)
Definition check_excess (d : memblockDesc) : M (option Z) :=
  first_bad (Z.to_nat (int32 (BLOWUP * size d) - size d)) (ptr d) (size d).

(** The first of the entries [i], ..., [i+k-1] with the pointer [p]. *)
Fixpoint find_ptr (k i : nat) (p : Z) : M (option nat) :=
  match k with
  | O => mret None
  | S k' => d ← desc_at i; if ptr d =? p then mret (Some i) else find_ptr k' (S i) p
  end.

(** ** Operations *)

Definition AS_InitMem : M unit :=
  modify (fun s => s <| m := replicate (Z.to_nat MALLARRSZ) (mkDesc NULL 0 0 NULL) |>).

Fixpoint check_entries (k i : nat) : M bool :=
  match k with
  | O => mret true
  | S k' =>
      d ← desc_at i;
      if ptr d =? NULL then check_entries k' (S i)
      else
        bad ← check_excess d;
        match bad with
        | Some _ => mret false
        | None => check_entries k' (S i)
        end
  end.

(** Returns false where the code calls [abort]. *)
Definition AS_CheckMem : M bool := s ← get; check_entries (Z.to_nat (m_pos s)) 0.

(** [p] is what [malloc] returns; no result when [AS_CheckMem] aborts. *)
Definition AS_Malloc1 (p sz ln fl : Z) : M (option Z) :=
  ok ← AS_CheckMem;
  if negb ok then mret None
  else if p =? NULL then mret (Some NULL)
  else
    modify (fun s => s <| heap := <[p := uint32 (BLOWUP * sz)]> (heap s) |>);;
    fill (Z.to_nat (uint32 (BLOWUP * sz) - sz)) p sz TESTCHAR;;
    s ← get;
    r ← find_ptr (Z.to_nat (m_pos s)) 0 NULL;
    match r with
    | Some i => set_desc i (mkDesc p (int32 sz) ln fl);; mret (Some p)
    | None =>
        set_desc (Z.to_nat (m_pos s)) (mkDesc p (int32 sz) ln fl);;
        modify (fun s => s <| m_pos := m_pos s + 1 |>);;
        s ← get;
        if m_pos s =? MALLARRSZ then mret (Some NULL) else mret (Some p)
    end.

Definition AS_Free1 (p : Z) : M unit :=
  if p =? NULL then mret tt
  else
    s ← get;
    r ← find_ptr (Z.to_nat (m_pos s)) 0 p;
    match r with
    | Some i =>
        d ← desc_at i;
        bad ← check_excess d;
        match bad with
        | Some _ => mret tt
        | None =>
            fill (Z.to_nat (uint32 (int32 (BLOWUP * size d)))) p 0 0;;
            set_desc i (d <| ptr := NULL |> <| size := -1 |>);;
            modify (fun s => s <| heap := delete p (heap s) |>)
        end
    | None => mret tt
    end.

(** The entries that are printed, with their indices. *)
Definition AS_DumpMem (s : amem) : list (nat * memblockDesc) :=
  List.filter (fun e => negb (ptr e.2 =? NULL)) (imap pair (take (Z.to_nat (m_pos s)) (m s))).

(** ** The blocks that are in use *)

(** The entry [d] of the table holds the block of size [n] at [p]. *)
Definition entry (s : amem) (i : nat) (p n : Z) : Prop :=
  (i < Z.to_nat (m_pos s))%nat /\ exists d, m s !! i = Some d /\ ptr d = p /\ size d = n /\ p <> NULL.

(** [L] gives for each block in use the size it was asked for. *)
Record good (s : amem) (L : gmap Z Z) : Prop := {
  g_len : length (m s) = Z.to_nat MALLARRSZ;
  g_pos : 0 <= m_pos s <= MALLARRSZ;
  g_tab : forall p n, L !! p = Some n <-> exists i, entry s i p n;
  g_inj : forall i j p n k, entry s i p n -> entry s j p k -> i = j;
  g_blk : forall p n, L !! p = Some n -> 0 <= n /\ BLOWUP * n < 2 ^ 31 /\ heap s !! p = Some (BLOWUP * n);
  g_disj : forall p n q k, heap s !! p = Some n -> heap s !! q = Some k -> p <> q -> p + n <= q \/ q + k <= p
}.

(** Nobody has written behind the end of a block. *)
Definition excess_ok (s : amem) (L : gmap Z Z) : Prop :=
  forall p n j, L !! p = Some n -> n <= j < BLOWUP * n -> byte_at (bytes s) (p + j) = TESTCHAR.

(** ** The loops *)

Lemma load_in p j s : in_block (heap s) p j = true -> load p j s = Ret (byte_at (bytes s) (p + j)) s.
Proof. intros H. unfold load. mrun. by rewrite H. Qed.

Lemma in_block_in (h : gmap Z Z) p n j : h !! p = Some n -> 0 <= j < n -> in_block h p j = true.
Proof. intros H Hj. unfold in_block. rewrite H. apply andb_true_intro. split; [apply Z.leb_le|apply Z.ltb_lt]; lia. Qed.

Lemma first_bad_spec s p n k : forall j, heap s !! p = Some n -> 0 <= j -> j + Z.of_nat k <= n ->
  exists r, first_bad k p j s = Ret r s /\
    match r with
    | None => forall i, j <= i < j + Z.of_nat k -> byte_at (bytes s) (p + i) = TESTCHAR
    | Some i => j <= i < j + Z.of_nat k /\ byte_at (bytes s) (p + i) <> TESTCHAR
    end.
Proof.
  induction k as [|k IH]; intros j Hp Hj Hn; [exists None; split; [done|]; intros; lia|]. cbn [first_bad].
  rewrite (bind_Ret _ _ _ _ _ (load_in p j s (in_block_in (heap s) p n j Hp ltac:(lia)))).
  destruct (Z.eqb_spec (byte_at (bytes s) (p + j)) TESTCHAR) as [E|E].
  - destruct (IH (j + 1)) as (r & -> & Hr); [done|lia|lia|]. exists r. split; [done|]. destruct r as [i|].
    + destruct Hr. split; [lia|done].
    + intros i Hi. destruct (decide (i = j)) as [->|]; [done|apply Hr; lia].
  - exists (Some j). split; [done|]. split; [lia|done].
Qed.

Lemma fill_spec p n v k : forall i s, heap s !! p = Some n -> 0 <= i -> i + Z.of_nat k <= n ->
  exists b, fill k p i v s = Ret tt (s <| bytes := b |>) /\
    forall a, byte_at b a = if decide (p + i <= a < p + i + Z.of_nat k) then v else byte_at (bytes s) a.
Proof.
  induction k as [|k IH]; intros i s Hp Hi Hn.
  - exists (bytes s). split; [by destruct s|]. intros a. rewrite decide_False by lia. done.
  - cbn [fill]. set (s1 := s <| bytes := <[p + i := v]> (bytes s) |>).
    assert (store p i v s = Ret tt s1) as E by (unfold store; mrun; by rewrite (in_block_in (heap s) p n i Hp ltac:(lia))).
    rewrite (bind_Ret _ _ _ _ _ E). destruct (IH (i + 1) s1) as (b & Hb & Hb'); [done|lia|lia|].
    exists b. split; [rewrite Hb; by destruct s|]. intros a. rewrite Hb'. cbn. unfold byte_at.
    destruct (decide (a = p + i)) as [->|Hne].
    + rewrite decide_False, decide_True, lookup_insert_eq by lia. done.
    + rewrite lookup_insert_ne by done. repeat case_decide; try done; lia.
Qed.

Lemma find_ptr_spec s p k : forall i, (i + k <= length (m s))%nat ->
  exists r, find_ptr k i p s = Ret r s /\
    match r with
    | Some j => (i <= j < i + k)%nat /\ exists d, m s !! j = Some d /\ ptr d = p
    | None => forall j d, (i <= j < i + k)%nat -> m s !! j = Some d -> ptr d <> p
    end.
Proof.
  induction k as [|k IH]; intros i Hi; [exists None; split; [done|]; intros; lia|]. cbn [find_ptr].
  destruct (lookup_lt_is_Some_2 (m s) i) as [d Hd]; [lia|].
  assert (desc_at i s = Ret d s) as E by (unfold desc_at; mrun; by rewrite Hd). rewrite (bind_Ret _ _ _ _ _ E).
  destruct (Z.eqb_spec (ptr d) p) as [Ep|Ep].
  - exists (Some i). split; [done|]. split; [lia|]. by exists d.
  - destruct (IH (S i)) as (r & -> & Hr); [lia|]. exists r. split; [done|]. destruct r as [j|].
    + destruct Hr as [Hj Hr]. split; [lia|done].
    + intros j e Hj He. destruct (decide (j = i)) as [->|]; [congruence|]. apply (Hr j e); [lia|done].
Qed.

Section Good.
Context (s : amem) (L : gmap Z Z) (HG : good s L).

Lemma desc_at_in i : (i < Z.to_nat MALLARRSZ)%nat -> exists d, m s !! i = Some d /\ desc_at i s = Ret d s.
Proof.
  intros Hi. destruct (lookup_lt_is_Some_2 (m s) i) as [d Hd]; [by rewrite (g_len _ _ HG)|].
  exists d. split; [done|]. unfold desc_at. mrun. by rewrite Hd.
Qed.

(** The excess of a block that is in use is inspected up to its end. *)
Lemma check_excess_spec d : L !! ptr d = Some (size d) ->
  exists r, check_excess d s = Ret r s /\
    (r = None <-> forall j, size d <= j < BLOWUP * size d -> byte_at (bytes s) (ptr d + j) = TESTCHAR).
Proof.
  intros Hd. destruct (g_blk _ _ HG _ _ Hd) as (H0 & Hmax & Hheap). unfold check_excess. unfold BLOWUP in *.
  rewrite int32_id by (unfold is_int32; apply andb_true_intro; split; [apply Z.leb_le|apply Z.ltb_lt]; lia).
  destruct (first_bad_spec s (ptr d) (5 * size d) (Z.to_nat (5 * size d - size d)) (size d)) as (r & -> & Hr); [done|lia|lia|].
  exists r. split; [done|]. destruct r as [i|].
  - split; [done|]. intros H. destruct Hr as [Hi Hne]. destruct Hne. apply H. lia.
  - split; [|done]. intros _ j Hj. apply Hr. lia.
Qed.

Lemma check_entries_spec k : forall i, (i + k <= Z.to_nat (m_pos s))%nat ->
  exists b, check_entries k i s = Ret b s /\
    (b = true <-> forall i' p n j, (i <= i' < i + k)%nat -> entry s i' p n -> n <= j < BLOWUP * n ->
       byte_at (bytes s) (p + j) = TESTCHAR).
Proof.
  induction k as [|k IH]; intros i Hi; [exists true; split; [done|]; split; [intros; lia|done]|]. cbn [check_entries].
  pose proof (g_pos _ _ HG) as Hpos. destruct (desc_at_in i) as (d & Hd & E); [lia|]. rewrite (bind_Ret _ _ _ _ _ E).
  destruct (IH (S i)) as (b & Eb & Hb); [lia|].
  destruct (Z.eqb_spec (ptr d) NULL) as [En|En].
  - exists b. split; [done|]. rewrite Hb. split; intros H i' p n j Hi' He; [|apply (H i'); [lia|done]].
    apply (H i' p n j); [|done]. destruct (decide (i' = i)) as [->|]; [|lia]. exfalso.
    destruct He as (_ & d' & Hd' & <- & _ & Hne). congruence.
  - assert (entry s i (ptr d) (size d)) as He by (split; [lia|]; by exists d).
    destruct (check_excess_spec d) as (r & Er & Hr); [apply (g_tab _ _ HG); by exists i|]. rewrite (bind_Ret _ _ _ _ _ Er). destruct r as [j0|].
    + exists false. split; [done|]. split; [done|]. intros H. exfalso.
      assert (Some j0 = None); [apply Hr|done]. intros j Hj. apply (H i (ptr d) (size d) j); [lia|done|done].
    + exists b. split; [exact Eb|]. rewrite Hb. split; intros H i' p n j Hi' He' Hj; [|apply (H i' p n j); [lia|done|done]].
      destruct (decide (i' = i)) as [->|Hne]; [|apply (H i' p n j); [lia|done|done]].
      destruct He' as (_ & d' & Hd' & <- & <- & _). assert (d' = d) as -> by congruence. by apply Hr.
Qed.

Lemma check_mem_spec : exists b, AS_CheckMem s = Ret b s /\ (b = true <-> excess_ok s L).
Proof.
  destruct (check_entries_spec (Z.to_nat (m_pos s)) 0) as (b & Eb & Hb); [lia|].
  exists b. split; [exact Eb|]. rewrite Hb. split.
  - intros H p n j Hp Hj. apply (g_tab _ _ HG) in Hp as [i Hi]. apply (H i p n j); [|done|done]. destruct Hi. lia.
  - intros H i p n j _ Hi Hj. apply (H p n j); [apply (g_tab _ _ HG); by exists i|done].
Qed.

Lemma find_ptr_entry p : p <> NULL ->
  exists r, find_ptr (Z.to_nat (m_pos s)) 0 p s = Ret r s /\
    match r with Some i => exists n, entry s i p n /\ L !! p = Some n | None => L !! p = None end.
Proof.
  intros Hp. pose proof (g_pos _ _ HG) as Hpos. destruct (find_ptr_spec s p (Z.to_nat (m_pos s)) 0) as (r & -> & Hr).
  { rewrite (g_len _ _ HG). lia. }
  exists r. split; [done|]. destruct r as [i|].
  - destruct Hr as [Hi (d & Hd & Hdp)]. assert (entry s i p (size d)) as He by (split; [lia|]; by exists d).
    exists (size d). split; [done|]. apply (g_tab _ _ HG). by exists i.
  - destruct (L !! p) as [n|] eqn:E; [|done]. exfalso. apply (g_tab _ _ HG) in E as (i & Hi & d & Hd & Hdp & _).
    by apply (Hr i d); [lia|..].
Qed.
End Good.

(** ** Adding and removing a block *)

(** [malloc] returns memory that no block has. *)
Definition fresh (h : gmap Z Z) (p n : Z) : Prop :=
  p <> NULL /\ h !! p = None /\ forall q k, h !! q = Some k -> p + n <= q \/ q + k <= p.

Definition add_at (s : amem) (i : nat) (b : gmap Z Z) (p sz ln fl pos : Z) : amem :=
  mkAmem b (<[p := BLOWUP * sz]> (heap s)) (<[i := mkDesc p sz ln fl]> (m s)) pos.

Definition free_place (s : amem) (i : nat) (pos : Z) : Prop :=
  (i < Z.to_nat (m_pos s))%nat /\ pos = m_pos s /\ (exists d, m s !! i = Some d /\ ptr d = NULL) \/
  i = Z.to_nat (m_pos s) /\ pos = m_pos s + 1 /\ pos <= MALLARRSZ.

Lemma entry_add s i b p sz ln fl pos : (i < length (m s))%nat -> 0 <= m_pos s -> free_place s i pos -> p <> NULL ->
  forall j q n, entry (add_at s i b p sz ln fl pos) j q n <-> j = i /\ q = p /\ n = sz \/ entry s j q n.
Proof.
  intros Hi Hpos Hfree Hp j q n. unfold entry. cbn [m_pos m add_at]. destruct (decide (j = i)) as [->|Hne].
  - rewrite list_lookup_insert_eq by done. split.
    + intros (_ & d & [= <-] & <- & <- & _). by left.
    + intros [(_ & -> & ->)|(Hlt & d & Hd & <- & _ & Hn)].
      * split; [|by eexists]. destruct Hfree as [(? & -> & _)|(-> & -> & _)]; lia.
      * exfalso. destruct Hfree as [(_ & _ & d' & Hd' & E)|(-> & _)]; [congruence|lia].
  - rewrite list_lookup_insert_ne by done. split.
    + intros (Hlt & H). right. split; [|done]. destruct Hfree as [(? & -> & _)|(-> & -> & _)]; lia.
    + intros [[? _]|[Hlt H]]; [done|]. split; [|done]. destruct Hfree as [(? & -> & _)|(-> & -> & _)]; lia.
Qed.

Lemma good_add s L i b p sz ln fl pos : good s L -> free_place s i pos ->
  fresh (heap s) p (BLOWUP * sz) -> 0 <= sz -> BLOWUP * sz < 2 ^ 31 ->
  good (add_at s i b p sz ln fl pos) (<[p := sz]> L).
Proof.
  intros HG Hfree (Hp & Hnone & Hdisj) Hsz Hmax. pose proof (g_pos _ _ HG) as Hpos. pose proof (g_len _ _ HG) as Hlen.
  assert (i < length (m s))%nat as Hi by (rewrite Hlen; destruct Hfree as [(? & _)|(-> & -> & ?)]; lia).
  pose proof (entry_add s i b p sz ln fl pos Hi (proj1 Hpos) Hfree Hp) as Hent.
  assert (L !! p = None) as HLp.
  { destruct (L !! p) eqn:E; [|done]. apply (g_blk _ _ HG) in E as (_ & _ & E). congruence. }
  assert (Hold : forall j n, ~ entry s j p n).
  { intros j n H. assert (L !! p = Some n) by (apply (g_tab _ _ HG); by exists j). congruence. }
  split; cbn [add_at m m_pos heap].
  - by rewrite length_insert.
  - destruct Hfree as [(_ & -> & _)|(_ & -> & ?)]; lia.
  - intros q n. setoid_rewrite Hent. destruct (decide (q = p)) as [->|Hne].
    + rewrite lookup_insert_eq. split; [intros [= ->]; exists i; by left|]. intros (j & [(_ & _ & ->)|H]); [done|by apply Hold in H].
    + rewrite lookup_insert_ne, (g_tab _ _ HG) by done. split; intros [j H]; exists j; [by right|]. destruct H as [(_ & ? & _)|H]; done.
  - intros j1 j2 q n k [(-> & -> & ->)|H1]%Hent [(-> & E & ->)|H2]%Hent; try done.
    + by apply Hold in H2.
    + subst q. by apply Hold in H1.
    + by eapply (g_inj _ _ HG).
  - intros q n Hq. apply lookup_insert_Some in Hq as [[<- <-]|[Hne Hq]]; [by rewrite lookup_insert_eq|].
    rewrite lookup_insert_ne by done. by apply (g_blk _ _ HG).
  - intros q n q' k Hq Hq' Hne. apply lookup_insert_Some in Hq as [[<- <-]|[Hnq Hq]];
      apply lookup_insert_Some in Hq' as [[<- <-]|[Hnq' Hq']]; try done.
    + by apply Hdisj.
    + destruct (Hdisj _ _ Hq); lia.
    + by apply (g_disj _ _ HG _ _ _ _ Hq Hq').
Qed.

Lemma excess_add s L i b p sz ln fl pos : good s L -> excess_ok s L -> fresh (heap s) p (BLOWUP * sz) -> 0 <= sz ->
  (forall a, byte_at b a = if decide (p + sz <= a < p + BLOWUP * sz) then TESTCHAR else byte_at (bytes s) a) ->
  excess_ok (add_at s i b p sz ln fl pos) (<[p := sz]> L).
Proof.
  intros HG Hex (_ & _ & Hdisj) Hsz Hb q n j Hq Hj. cbn [bytes add_at]. rewrite Hb.
  apply lookup_insert_Some in Hq as [[<- <-]|[Hne Hq]]; [rewrite decide_True by lia; done|].
  destruct (g_blk _ _ HG _ _ Hq) as (H0 & _ & Hh). unfold BLOWUP in *.
  rewrite decide_False; [by apply Hex with n|]. destruct (Hdisj _ _ Hh); lia.
Qed.

Definition remove_at (s : amem) (i : nat) (b : gmap Z Z) (p : Z) (d : memblockDesc) : amem :=
  mkAmem b (delete p (heap s)) (<[i := d <| ptr := NULL |> <| size := -1 |>]> (m s)) (m_pos s).

Lemma good_remove s L i b p n d : good s L -> entry s i p n -> good (remove_at s i b p d) (delete p L).
Proof.
  intros HG Hi. pose proof Hi as (Hlt & _ & _ & _ & _ & Hp).
  assert (i < length (m s))%nat as Hi' by (pose proof (g_pos _ _ HG); rewrite (g_len _ _ HG); lia).
  assert (Hent : forall j q k, entry (remove_at s i b p d) j q k <-> j <> i /\ entry s j q k).
  { intros j q k. unfold entry. cbn [m_pos m remove_at]. destruct (decide (j = i)) as [->|Hne].
    - rewrite list_lookup_insert_eq by done. split; [|by intros [? _]]. intros (_ & e & [= <-] & E & _ & Hq). by cbn in E.
    - rewrite list_lookup_insert_ne by done. naive_solver. }
  split; cbn [remove_at m m_pos heap].
  - rewrite length_insert. apply (g_len _ _ HG).
  - apply (g_pos _ _ HG).
  - intros q k. setoid_rewrite Hent. rewrite lookup_delete_Some, (g_tab _ _ HG). split.
    + intros (Hne & j & Hj). exists j. split; [|done]. intros ->. destruct Hi as (_ & e & He & <- & _), Hj as (_ & e' & He' & <- & _). congruence.
    + intros (j & Hne & Hj). split; [|by exists j]. intros <-. destruct Hne. by eapply (g_inj _ _ HG).
  - intros j1 j2 q k k' [_ H1]%Hent [_ H2]%Hent. by eapply (g_inj _ _ HG).
  - intros q k [Hne Hq]%lookup_delete_Some. rewrite lookup_delete_ne by done. by apply (g_blk _ _ HG).
  - intros q k q' k' [_ Hq]%lookup_delete_Some [_ Hq']%lookup_delete_Some. by apply (g_disj _ _ HG).
Qed.

Lemma excess_remove s L i b p n d : good s L -> excess_ok s L -> L !! p = Some n ->
  (forall a, ~ (p <= a < p + BLOWUP * n) -> byte_at b a = byte_at (bytes s) a) ->
  excess_ok (remove_at s i b p d) (delete p L).
Proof.
  intros HG Hex Hp Hb q k j [Hne Hq]%lookup_delete_Some Hj. cbn [bytes remove_at].
  destruct (g_blk _ _ HG _ _ Hp) as (_ & _ & Hh). destruct (g_blk _ _ HG _ _ Hq) as (? & _ & Hh'). unfold BLOWUP in *.
  rewrite Hb; [by apply Hex with k|]. destruct (g_disj _ _ HG _ _ _ _ Hh Hh'); [done|lia..].
Qed.

(** ** What the operations do *)

(** An allocation up to the search for an entry. *)
Lemma malloc_searches s L p sz ln fl : good s L -> excess_ok s L -> fresh (heap s) p (BLOWUP * sz) ->
  0 <= sz -> BLOWUP * sz < 2 ^ 31 ->
  exists b r, let s2 := s <| heap := <[p := BLOWUP * sz]> (heap s) |> <| bytes := b |> in
    (forall a, byte_at b a = if decide (p + sz <= a < p + BLOWUP * sz) then TESTCHAR else byte_at (bytes s) a) /\
    match r with
    | Some j => (j < Z.to_nat (m_pos s))%nat /\ exists d, m s !! j = Some d /\ ptr d = NULL
    | None => forall j d, (j < Z.to_nat (m_pos s))%nat -> m s !! j = Some d -> ptr d <> NULL
    end /\
    AS_Malloc1 p sz ln fl s =
      match r with
      | Some i => (set_desc i (mkDesc p sz ln fl);; mret (Some p)) s2
      | None =>
          (set_desc (Z.to_nat (m_pos s)) (mkDesc p sz ln fl);;
           modify (fun s => s <| m_pos := m_pos s + 1 |>);;
           s ← get;
           if m_pos s =? MALLARRSZ then mret (Some NULL) else mret (Some p)) s2
      end.
Proof.
  intros HG Hex Hfresh Hsz Hmax. pose proof (g_pos _ _ HG) as Hpos. pose proof (g_len _ _ HG) as Hlen.
  destruct (check_mem_spec s L HG) as (ok & Eok & Hok). rewrite (proj2 Hok Hex) in Eok.
  unfold AS_Malloc1. rewrite (bind_Ret _ _ _ _ _ Eok). cbn [negb]. rewrite (proj2 (Z.eqb_neq p NULL)) by apply Hfresh.
  rewrite uint32_id by (unfold is_uint32; unfold BLOWUP in *; apply andb_true_intro; split; [apply Z.leb_le|apply Z.ltb_lt]; lia).
  rewrite int32_id by (unfold is_int32; unfold BLOWUP in *; apply andb_true_intro; split; [apply Z.leb_le|apply Z.ltb_lt]; lia).
  set (s1 := s <| heap := <[p := BLOWUP * sz]> (heap s) |>). rewrite bind_modify. fold s1.
  destruct (fill_spec p (BLOWUP * sz) TESTCHAR (Z.to_nat (BLOWUP * sz - sz)) sz s1) as (b & Eb & Hb);
    [apply lookup_insert_eq|lia|unfold BLOWUP in *; lia|].
  rewrite (bind_Ret _ _ _ _ _ Eb). set (s2 := s1 <| bytes := b |>).
  destruct (find_ptr_spec s2 NULL (Z.to_nat (m_pos s)) 0) as (r & Er & Hr); [cbn; lia|].
  exists b, r. cbn zeta. fold s1. fold s2. split; [|split].
  - intros a. rewrite Hb. cbn. unfold BLOWUP in *. repeat case_decide; try done; lia.
  - destruct r as [i|]; [destruct Hr as [Hi Hr]; split; [lia|done]|]. intros j d Hj. apply Hr. lia.
  - rewrite bind_get. change (m_pos s2) with (m_pos s). rewrite (bind_Ret _ _ _ _ _ Er). by destruct r.
Qed.

Lemma malloc_at s L p sz ln fl : good s L -> excess_ok s L -> fresh (heap s) p (BLOWUP * sz) ->
  0 <= sz -> BLOWUP * sz < 2 ^ 31 ->
  (m_pos s < MALLARRSZ \/ exists i d, (i < Z.to_nat (m_pos s))%nat /\ m s !! i = Some d /\ ptr d = NULL) ->
  exists i b pos, free_place s i pos /\
    AS_Malloc1 p sz ln fl s =
      Ret (Some (if (i =? Z.to_nat (m_pos s))%nat && (pos =? MALLARRSZ) then NULL else p)) (add_at s i b p sz ln fl pos) /\
    excess_ok (add_at s i b p sz ln fl pos) (<[p := sz]> L) /\
    (i = Z.to_nat (m_pos s) -> forall j d, (j < i)%nat -> m s !! j = Some d -> ptr d <> NULL) /\
    forall a, ~ (p + sz <= a < p + BLOWUP * sz) -> byte_at b a = byte_at (bytes s) a.
Proof.
  intros HG Hex Hfresh Hsz Hmax Hroom. pose proof (g_pos _ _ HG) as Hpos. pose proof (g_len _ _ HG) as Hlen.
  destruct (malloc_searches s L p sz ln fl HG Hex Hfresh Hsz Hmax) as (b & r & Hb' & Hr & ->).
  set (s2 := s <| heap := _ |> <| bytes := b |>).
  assert (Hset : forall i, (i < length (m s))%nat ->
    set_desc i (mkDesc p sz ln fl) s2 = Ret tt (add_at s i b p sz ln fl (m_pos s))).
  { intros i Hi. unfold set_desc, desc_at. mrun. change (m s2) with (m s).
    destruct (lookup_lt_is_Some_2 (m s) i Hi) as [d ->]. done. }
  assert (Hout : forall a, ~ (p + sz <= a < p + BLOWUP * sz) -> byte_at b a = byte_at (bytes s) a)
    by (intros a Ha; rewrite Hb', decide_False; done).
  destruct r as [i|].
  - destruct Hr as [Hi (d & Hd & Hdp)]. exists i, b, (m_pos s). split; [left; split; [lia|]; split; [done|by exists d]|].
    rewrite (bind_Ret _ _ _ _ _ (Hset i ltac:(lia))). rewrite (proj2 (Nat.eqb_neq i _)) by lia.
    split; [done|]. split; [by apply excess_add|]. split; [lia|done].
  - assert (m_pos s < MALLARRSZ) as Hlt.
    { destruct Hroom as [|(i & d & Hi & Hd & Hdp)]; [done|]. by destruct (Hr i d Hi Hd). }
    exists (Z.to_nat (m_pos s)), b, (m_pos s + 1). split; [right; split; [done|]; split; [done|lia]|].
    rewrite (bind_Ret _ _ _ _ _ (Hset (Z.to_nat (m_pos s)) ltac:(lia))). rewrite Nat.eqb_refl. cbn [andb].
    split; [|split; [by apply excess_add|split; [intros _ j d; apply Hr|done]]]. mrun. cbn [m_pos upd add_at]. by destruct (m_pos s + 1 =? MALLARRSZ).
Qed.

(** Freeing what is no block in use does nothing. *)
Lemma free_unknown s L p : good s L -> L !! p = None -> AS_Free1 p s = Ret tt s.
Proof.
  intros HG Hp. unfold AS_Free1. destruct (Z.eqb_spec p NULL) as [|Hne]; [done|]. rewrite bind_get.
  destruct (find_ptr_entry s L HG p Hne) as (r & Er & Hr). rewrite (bind_Ret _ _ _ _ _ Er). destruct r as [i|]; [|done].
  destruct Hr as (n & _ & E). congruence.
Qed.

(** What [AS_Free1] finds for a block in use. *)
Lemma free_found s L p n : good s L -> L !! p = Some n ->
  exists i d, entry s i p n /\ m s !! i = Some d /\ ptr d = p /\ size d = n /\
    forall r, check_excess d s = Ret r s ->
    AS_Free1 p s = match r with
      | Some _ => Ret tt s
      | None => (fill (Z.to_nat (uint32 (int32 (BLOWUP * size d)))) p 0 0;;
                 set_desc i (d <| ptr := NULL |> <| size := -1 |>);;
                 modify (fun s => s <| heap := delete p (heap s) |>)) s
      end.
Proof.
  intros HG Hp. pose proof Hp as (i0 & Hi0)%(g_tab _ _ HG). pose proof Hi0 as (_ & _ & _ & _ & _ & Hne).
  destruct (find_ptr_entry s L HG p Hne) as (r & Er & Hr). destruct r as [i|]; [|congruence].
  destruct Hr as (n' & Hi & Hn'). assert (n' = n) as -> by congruence. pose proof Hi as (Hlt & d & Hd & Hdp & Hdn & _).
  exists i, d. split; [done|]. split; [done|]. split; [done|]. split; [done|]. intros r Hchk. unfold AS_Free1.
  rewrite (proj2 (Z.eqb_neq p NULL)) by done. rewrite bind_get, (bind_Ret _ _ _ _ _ Er).
  assert (desc_at i s = Ret d s) as Ed by (unfold desc_at; mrun; by rewrite Hd).
  rewrite (bind_Ret _ _ _ _ _ Ed), (bind_Ret _ _ _ _ _ Hchk). by destruct r.
Qed.

Lemma free_used s L p n : good s L -> excess_ok s L -> L !! p = Some n ->
  exists i b d, entry s i p n /\ AS_Free1 p s = Ret tt (remove_at s i b p d) /\
    excess_ok (remove_at s i b p d) (delete p L) /\
    forall a, ~ (p <= a < p + BLOWUP * n) -> byte_at b a = byte_at (bytes s) a.
Proof.
  intros HG Hex Hp. destruct (free_found s L p n HG Hp) as (i & d & Hi & Hd & Hdp & Hdn & Hfree).
  destruct (g_blk _ _ HG _ _ Hp) as (H0 & Hmax & Hheap).
  destruct (check_excess_spec s L HG d) as (r & Er & Hr); [by rewrite Hdp, Hdn|].
  assert (r = None) as -> by (apply Hr; rewrite Hdp, Hdn; intros j Hj; by apply (Hex p n j)).
  specialize (Hfree _ Er). cbn beta iota in Hfree. rewrite Hdn in Hfree.
  rewrite int32_id, uint32_id in Hfree by (unfold is_uint32, is_int32; unfold BLOWUP in *; apply andb_true_intro; split; [apply Z.leb_le|apply Z.ltb_lt]; lia).
  destruct (fill_spec p (BLOWUP * n) 0 (Z.to_nat (BLOWUP * n)) 0 s) as (b & Eb & Hb); [done|lia|unfold BLOWUP in *; lia|].
  rewrite (bind_Ret _ _ _ _ _ Eb) in Hfree. exists i, b, d. split; [done|]. split.
  - rewrite Hfree. unfold set_desc, desc_at. mrun. cbn [m upd]. rewrite Hd. done.
  - assert (forall a, ~ (p <= a < p + BLOWUP * n) -> byte_at b a = byte_at (bytes s) a) as Hout.
    { intros a Ha. rewrite Hb, decide_False; [done|]. unfold BLOWUP in *. lia. }
    split; [by eapply excess_remove|done].
Qed.

(** A write to a block in use changes nothing else. *)
Lemma good_write s L b : good s L -> good (s <| bytes := b |>) L.
Proof. intros [H1 H2 H3 H4 H5 H6]. by split. Qed.

(** While fewer blocks are in use than there are entries, one entry is free. *)
Lemma entries_le s L : good s L ->
  (forall i d, (i < Z.to_nat (m_pos s))%nat -> m s !! i = Some d -> ptr d <> NULL) -> m_pos s <= Z.of_nat (base.size (dom L)).
Proof.
  intros HG Hall. pose proof (g_pos _ _ HG) as Hpos. set (ps := ptr <$> take (Z.to_nat (m_pos s)) (m s)).
  assert (length ps = Z.to_nat (m_pos s)) as Hlen.
  { unfold ps. rewrite length_fmap, length_take, (g_len _ _ HG). lia. }
  assert (forall i p, ps !! i = Some p -> exists n, entry s i p n) as Hent.
  { intros i p Hi. unfold ps in Hi. rewrite list_lookup_fmap in Hi. apply fmap_Some in Hi as (d & Hd & ->).
    apply lookup_take_Some in Hd as [Hd Hlt]. exists (size d). split; [done|]. exists d. split_and!; try done. by apply (Hall i). }
  assert (NoDup ps) as Hnd.
  { apply NoDup_alt. intros i j p Hi Hj. apply Hent in Hi as [n Hi]. apply Hent in Hj as [k Hj]. by eapply (g_inj _ _ HG). }
  assert (list_to_set ps ⊆ dom L) as Hsub.
  { intros p Hp%elem_of_list_to_set. apply list_elem_of_lookup in Hp as [i Hi]. apply Hent in Hi as [n Hi].
    apply elem_of_dom. exists n. apply (g_tab _ _ HG). by exists i. }
  apply subseteq_size in Hsub. rewrite size_list_to_set in Hsub by done. lia.
Qed.

Lemma room_left s L : good s L -> Z.of_nat (base.size (dom L)) < MALLARRSZ - 1 ->
  m_pos s < MALLARRSZ - 1 \/ exists i d, (i < Z.to_nat (m_pos s))%nat /\ m s !! i = Some d /\ ptr d = NULL.
Proof.
  intros HG Hsz. pose proof (g_pos _ _ HG) as Hpos.
  destruct (find_ptr_spec s NULL (Z.to_nat (m_pos s)) 0) as (r & _ & Hr); [rewrite (g_len _ _ HG); lia|].
  destruct r as [i|].
  - destruct Hr as [Hi (d & Hd & Hdp)]. right. exists i, d. split; [lia|done].
  - left. assert (m_pos s <= Z.of_nat (base.size (dom L))); [|lia]. apply entries_le; [done|]. intros i d Hi. apply Hr. lia.
Qed.

(** ** Programs *)

(** What the program does: it allocates (the address is what [malloc] returns), frees,
    and writes a byte. *)
Inductive op := Malloc (p sz ln fl : Z) | Free (p : Z) | Write (a v : Z).

Definition exec (o : op) : M (option Z) :=
  match o with
  | Malloc p sz ln fl => AS_Malloc1 p sz ln fl
  | Free p => AS_Free1 p;; mret (Some 0)
  | Write a v => modify (fun s => s <| bytes := <[a := v]> (bytes s) |>);; mret (Some 0)
  end.

(** What is to come of it for the blocks in use, and the result. *)
Definition blocks_after (o : op) (L : gmap Z Z) : gmap Z Z :=
  match o with
  | Malloc p sz _ _ => if p =? NULL then L else <[p := sz]> L
  | Free p => delete p L
  | Write _ _ => L
  end.
Definition result (o : op) : Z := match o with Malloc p _ _ _ => p | _ => 0 end.

(** The program writes to blocks in use and inside of them, asks for less than a fifth of
    [2 ^ 31] and has at most 4094 blocks; it may free what it likes. *)
Definition legal (s : amem) (L : gmap Z Z) (o : op) : Prop :=
  match o with
  | Malloc p sz _ _ => 0 <= sz /\ BLOWUP * sz < 2 ^ 31 /\ (p = NULL \/ fresh (heap s) p (BLOWUP * sz)) /\
      Z.of_nat (base.size (dom L)) < MALLARRSZ - 1
  | Free _ => True
  | Write a _ => exists p n, L !! p = Some n /\ p <= a < p + n
  end.

(** Every call of the program gives its result, as long as the program is legal. *)
Fixpoint gives_results (ops : list op) (s : amem) (L : gmap Z Z) : Prop :=
  match ops with
  | [] => True
  | o :: ops' => legal s L o -> exists s', exec o s = Ret (Some (result o)) s' /\
      (forall p n, L !! p = Some n -> blocks_after o L !! p = Some n -> forall j, 0 <= j < n ->
         (match o with Write a _ => p + j <> a | _ => True end) -> byte_at (bytes s') (p + j) = byte_at (bytes s) (p + j)) /\
      (forall p n, blocks_after o L !! p = Some n -> heap s' !! p = Some (BLOWUP * n)) /\
      gives_results ops' s' (blocks_after o L)
  end.

Lemma exec_ok s L o : good s L -> excess_ok s L -> legal s L o ->
  exists s', exec o s = Ret (Some (result o)) s' /\ good s' (blocks_after o L) /\ excess_ok s' (blocks_after o L) /\
    (forall p n, L !! p = Some n -> blocks_after o L !! p = Some n -> forall j, 0 <= j < n ->
       (match o with Write a _ => p + j <> a | _ => True end) -> byte_at (bytes s') (p + j) = byte_at (bytes s) (p + j)).
Proof.
  intros HG Hex Hlegal. destruct o as [p sz ln fl|p|a v]; cbn [exec legal blocks_after result] in *.
  - destruct Hlegal as (H0 & Hmax & Hp & Hsz). destruct (Z.eqb_spec p NULL) as [->|Hne].
    + exists s. split; [|done]. destruct (check_mem_spec s L HG) as (ok & Eok & Hok). rewrite (proj2 Hok Hex) in Eok.
      unfold AS_Malloc1. by rewrite (bind_Ret _ _ _ _ _ Eok).
    + destruct Hp as [|Hfresh]; [done|]. pose proof (room_left s L HG Hsz) as Hroom.
      destruct (malloc_at s L p sz ln fl HG Hex Hfresh H0 Hmax) as (i & b & pos & Hfree & E & Hex' & Hnone & Hb).
      { destruct Hroom as [|?]; [left; lia|by right]. }
      exists (add_at s i b p sz ln fl pos). rewrite E. split; [|split; [by apply good_add|split; [done|]]].
      * do 2 f_equal. destruct (Nat.eqb_spec i (Z.to_nat (m_pos s))) as [->|]; [|done].
        destruct Hfree as [(? & _)|(_ & -> & _)]; [lia|]. destruct (Z.eqb_spec (m_pos s + 1) MALLARRSZ) as [Em|]; [|done].
        exfalso. destruct Hroom as [?|(i & d & Hi & Hd & Hdp)]; [lia|]. by apply (Hnone eq_refl i d).
      * intros q n Hq _ j Hj _. cbn [bytes add_at]. apply Hb. destruct Hfresh as (_ & _ & Hd). destruct (g_blk _ _ HG _ _ Hq) as (? & _ & Hh).
        unfold BLOWUP in *. destruct (Hd _ _ Hh); lia.
  - destruct (L !! p) as [n|] eqn:Hp.
    + destruct (free_used s L p n HG Hex Hp) as (i & b & d & Hi & E & Hex' & Hb). exists (remove_at s i b p d).
      rewrite (bind_Ret _ _ _ _ _ E). split; [done|]. split; [by eapply good_remove|]. split; [done|].
      intros q k Hq [Hne _]%lookup_delete_Some j Hj _. cbn [bytes remove_at]. apply Hb.
      destruct (g_blk _ _ HG _ _ Hp) as (? & _ & Hh), (g_blk _ _ HG _ _ Hq) as (? & _ & Hh'). unfold BLOWUP in *.
      destruct (g_disj _ _ HG _ _ _ _ Hh Hh' Hne); lia.
    + exists s. rewrite (bind_Ret _ _ _ _ _ (free_unknown s L p HG Hp)). rewrite delete_id by done. done.
  - destruct Hlegal as (p & n & Hp & Ha). exists (s <| bytes := <[a := v]> (bytes s) |>). split; [done|].
    split; [by apply good_write|]. split.
    + intros q k j Hq Hj. cbn. unfold byte_at. rewrite lookup_insert_ne; [by apply (Hex q k)|].
      destruct (g_blk _ _ HG _ _ Hp) as (? & _ & Hh), (g_blk _ _ HG _ _ Hq) as (? & _ & Hh'). unfold BLOWUP in *.
      destruct (decide (p = q)) as [->|Hne]; [assert (k = n) by congruence; lia|].
      destruct (g_disj _ _ HG _ _ _ _ Hh Hh' Hne); lia.
    + intros q k Hq _ j Hj Hne. cbn. unfold byte_at. by rewrite lookup_insert_ne.
Qed.

(** ** Properties *)

(** The state after [AS_InitMem]; other allocations of the process may be there. *)
Lemma good_init b h t : (forall p n q k, h !! p = Some n -> h !! q = Some k -> p <> q -> p + n <= q \/ q + k <= p) ->
  exists s, AS_InitMem (mkAmem b h t 0) = Ret tt s /\ heap s = h /\ good s ∅ /\ excess_ok s ∅.
Proof.
  intros Hd. eexists. split; [reflexivity|]. split; [done|]. split; [|by intros p n j Hp%lookup_empty_Some].
  split.
  - apply length_replicate.
  - done.
  - intros p n. rewrite lookup_empty. split; [done|]. intros (i & Hi & _). cbn in Hi. lia.
  - intros i j p n k (Hi & _) _. cbn in Hi. lia.
  - done.
  - done.
Qed.

(** (C33) No false alarm: a program that asks for blocks of less than a fifth of [2 ^ 31]
    bytes, has at most 4094 at a time, and writes inside of blocks it has not freed, is
    served as by [malloc] and [free]: no call aborts or touches memory that is not the
    allocator's, every allocation gives the block that [malloc] found, every block in use
    has its five-fold room, and what the program wrote stays until the block is freed.
    Freeing what is not in use has no effect. *)
Theorem as_malloc_serves ops b h t
  (Hh : forall p n q k, h !! p = Some n -> h !! q = Some k -> p <> q -> p + n <= q \/ q + k <= p) :
  exists s, AS_InitMem (mkAmem b h t 0) = Ret tt s /\ gives_results ops s ∅.
Proof.
  destruct (good_init b h t Hh) as (s & E & _ & HG & Hex). exists s. split; [done|]. clear E Hh.
  revert s HG Hex. generalize (∅ : gmap Z Z) as L. induction ops as [|o ops IH]; intros L s HG Hex; [done|].
  intros Hlegal. destruct (exec_ok s L o HG Hex Hlegal) as (s' & E & HG' & Hex' & Hb).
  exists s'. split; [done|]. split; [done|]. split; [|by apply IH]. intros p n Hp. by apply (g_blk _ _ HG').
Qed.

(** (C34) No overrun escapes: once the program has written anything but the test character
    behind the end of a block in use, within its excess, the next inspection aborts, and
    so does the next allocation; freeing that block reports it and keeps it. *)
Theorem as_overrun_caught s L p n j v (HG : good s L) (Hp : L !! p = Some n) (Hj : n <= j < BLOWUP * n) (Hv : v <> TESTCHAR) :
  let s' := s <| bytes := <[p + j := v]> (bytes s) |> in
  AS_CheckMem s' = Ret false s' /\ (forall q sz ln fl, AS_Malloc1 q sz ln fl s' = Ret None s') /\
  AS_Free1 p s' = Ret tt s'.
Proof.
  intros s'. pose proof (good_write s L (<[p + j := v]> (bytes s)) HG) as HG'. fold s' in HG'.
  assert (byte_at (bytes s') (p + j) <> TESTCHAR) as Hbad by (cbn; unfold byte_at; by rewrite lookup_insert_eq).
  destruct (check_mem_spec s' L HG') as (ok & Eok & Hok).
  assert (ok = false) as ->.
  { destruct ok; [|done]. destruct Hbad. by apply (proj1 Hok eq_refl p n). }
  split; [done|]. split; [intros; unfold AS_Malloc1; by rewrite (bind_Ret _ _ _ _ _ Eok)|].
  destruct (free_found s' L p n HG' Hp) as (i & d & Hi & Hd & Hdp & Hdn & Hfree).
  destruct (check_excess_spec s' L HG' d) as (r & Er & Hr); [by rewrite Hdp, Hdn|].
  rewrite (Hfree _ Er). destruct r as [|]; [done|]. destruct Hbad. rewrite <- Hdp. apply (proj1 Hr eq_refl). by rewrite Hdn.
Qed.

(** The table overflows: when 4095 entries hold blocks in use, an allocation enters
    the new block and returns NULL nevertheless, so the block is lost, and the next
    allocation writes behind the end of the table. *)
Theorem as_table_overflows s L p sz ln fl (HG : good s L) (Hex : excess_ok s L)
  (Hfull : m_pos s = MALLARRSZ - 1 /\ forall i d, (i < Z.to_nat (m_pos s))%nat -> m s !! i = Some d -> ptr d <> NULL)
  (Hfresh : fresh (heap s) p (BLOWUP * sz)) (Hsz : 0 <= sz) (Hmax : BLOWUP * sz < 2 ^ 31) :
  exists s', AS_Malloc1 p sz ln fl s = Ret (Some NULL) s' /\ heap s' = <[p := BLOWUP * sz]> (heap s) /\
    good s' (<[p := sz]> L) /\
    forall q k ln' fl', fresh (heap s') q (BLOWUP * k) -> 0 <= k -> BLOWUP * k < 2 ^ 31 ->
      AS_Malloc1 q k ln' fl' s' = Fault.
Proof.
  destruct Hfull as [Hpos Hfull]. destruct (malloc_at s L p sz ln fl HG Hex Hfresh Hsz Hmax) as (i & b & pos & Hfree & E & Hex' & _).
  { left. lia. }
  destruct Hfree as [(Hi & _ & d & Hd & Hdp)|(-> & -> & Hle)]; [by destruct (Hfull i d)|]. rewrite Nat.eqb_refl in E.
  replace (m_pos s + 1) with MALLARRSZ in * by lia. cbn in E. eexists. split; [exact E|]. split; [done|].
  assert (good (add_at s (Z.to_nat (m_pos s)) b p sz ln fl MALLARRSZ) (<[p := sz]> L)) as HG' by (apply good_add; [done|right; lia|done..]).
  split; [done|]. intros q k ln' fl' Hq Hk Hkmax. set (s' := add_at _ _ _ _ _ _ _ _) in *.
  destruct (malloc_searches s' _ q k ln' fl' HG' Hex' Hq Hk Hkmax) as (b' & r & _ & Hr & ->). destruct r as [i|].
  - exfalso. destruct Hr as [Hi (d & Hd & Hdp)]. cbn [m_pos add_at s'] in Hi. destruct (decide (i = Z.to_nat (m_pos s))) as [->|Hne].
    + cbn [m add_at s'] in Hd. rewrite list_lookup_insert_eq in Hd by (rewrite (g_len _ _ HG); unfold MALLARRSZ in *; lia).
      injection Hd as <-. by destruct Hfresh.
    + cbn [m add_at s'] in Hd. rewrite list_lookup_insert_ne in Hd by done. apply (Hfull i d); [lia|done|done].
  - unfold set_desc, desc_at. mrun. change (m_pos s') with MALLARRSZ. cbn [m upd]. rewrite lookup_ge_None_2; [done|].
    by rewrite (g_len _ _ HG').
Qed.

(** ** Examples *)

(** A block of three bytes at 100, in a process that has another block at 50. *)
Definition demo_ops : list op := [Malloc 100 3 7 1; Write 102 9; Free 55; Free 100; Malloc 200 1 8 1].

Lemma as_malloc_serves_witness : exists s, AS_InitMem (mkAmem ∅ {[50 := 20]} [] 0) = Ret tt s /\
  legal s ∅ (Malloc 100 3 7 1) /\ gives_results demo_ops s ∅.
Proof.
  destruct (as_malloc_serves demo_ops ∅ {[50 := 20]} []) as (s & E & Hs).
  - intros p n q k Hp Hq Hne. apply lookup_singleton_Some in Hp as [<- _], Hq as [<- _]. done.
  - exists s. split; [done|]. split; [|exact Hs]. injection E as <-. cbn. split; [lia|]. split; [unfold BLOWUP; lia|]. split; [right|done].
    split; [done|]. split; [done|]. intros q k [<- <-]%lookup_singleton_Some. unfold BLOWUP. lia.
Defined.

Definition demo_state : amem :=
  add_at (mkAmem ∅ ∅ (replicate (Z.to_nat MALLARRSZ) (mkDesc NULL 0 0 NULL)) 0) 0 ∅ 100 3 7 1 1.

Lemma demo_good : good demo_state {[100 := 3]}.
Proof.
  destruct (good_init ∅ ∅ []) as (s & E & _ & HG & _); [intros p n q k Hp; by rewrite lookup_empty in Hp|]. injection E as <-.
  apply (good_add _ ∅); [done|by right| |lia|unfold BLOWUP; lia]. split; [done|]. split; [done|]. intros q k Hq. cbn in Hq. by rewrite lookup_empty in Hq.
Qed.

(** The byte behind the third is overwritten. *)
Lemma as_overrun_caught_witness :
  let s' := demo_state <| bytes := <[103 := 0]> (bytes demo_state) |> in
  AS_CheckMem s' = Ret false s' /\ (forall q sz ln fl, AS_Malloc1 q sz ln fl s' = Ret None s') /\
  AS_Free1 100 s' = Ret tt s'.
Proof. apply (as_overrun_caught demo_state {[100 := 3]} 100 3 3 0 demo_good); [by rewrite lookup_singleton_eq|unfold BLOWUP; lia|done]. Defined.

(** 4095 blocks of no bytes. *)
Definition full_blocks : gmap Z Z := gset_to_gmap 0 (list_to_set (seqZ 1 4095)).
Definition full_state : amem := mkAmem ∅ full_blocks ((fun i => mkDesc i 0 0 0) <$> seqZ 1 4096) 4095.

Lemma full_blocks_lookup p n : full_blocks !! p = Some n <-> 1 <= p < 4096 /\ n = 0.
Proof. unfold full_blocks. rewrite lookup_gset_to_gmap_Some, elem_of_list_to_set, elem_of_seqZ. intuition lia. Qed.

Lemma full_entry i d : m full_state !! i = Some d <-> d = mkDesc (1 + Z.of_nat i) 0 0 0 /\ (i < 4096)%nat.
Proof.
  cbn [full_state m]. rewrite list_lookup_fmap_Some. setoid_rewrite lookup_seqZ. split.
  - intros (x & -> & -> & Hi). split; [done|lia].
  - intros [-> Hi]. exists (1 + Z.of_nat i). split; [done|]. split; [done|lia].
Qed.

Lemma full_good : good full_state full_blocks /\ excess_ok full_state full_blocks.
Proof.
  split.
  - split; cbn [full_state m m_pos heap].
    + by rewrite length_fmap, length_seqZ.
    + unfold MALLARRSZ. lia.
    + intros p n. rewrite full_blocks_lookup. split.
      * intros [Hp ->]. exists (Z.to_nat (p - 1)). split; [cbn; lia|]. exists (mkDesc p 0 0 0). split; [|split; [done|split; [done|unfold NULL; lia]]].
        apply full_entry. split; [f_equal; lia|lia].
      * intros (i & Hi & d & [-> _]%full_entry & <- & <- & _). cbn in *. lia.
    + intros i j p n k (_ & d & [-> _]%full_entry & <- & _) (_ & e & [-> _]%full_entry & E & _). cbn in E. lia.
    + intros p n [Hp ->]%full_blocks_lookup. split; [lia|]. split; [unfold BLOWUP; lia|]. by apply full_blocks_lookup.
    + intros p n q k [_ ->]%full_blocks_lookup [_ ->]%full_blocks_lookup Hne. lia.
  - intros p n j [_ ->]%full_blocks_lookup Hj. unfold BLOWUP in Hj. lia.
Qed.

Lemma as_table_overflows_witness :
  exists s', AS_Malloc1 5000 2 1 1 full_state = Ret (Some NULL) s' /\ heap s' = <[5000 := BLOWUP * 2]> (heap full_state) /\
    good s' (<[5000 := 2]> full_blocks) /\
    forall q k ln' fl', fresh (heap s') q (BLOWUP * k) -> 0 <= k -> BLOWUP * k < 2 ^ 31 ->
      AS_Malloc1 q k ln' fl' s' = Fault.
Proof.
  apply (as_table_overflows full_state full_blocks 5000 2 1 1 (proj1 full_good) (proj2 full_good)).
  - split; [done|]. intros i d _ [-> _]%full_entry. cbn. unfold NULL. lia.
  - split; [done|]. split.
    + apply eq_None_not_Some. intros [n E]. change (full_blocks !! 5000 = Some n) in E. apply full_blocks_lookup in E. lia.
    + intros q k Hq. change (full_blocks !! q = Some k) in Hq. apply full_blocks_lookup in Hq. unfold BLOWUP. lia.
  - lia.
  - unfold BLOWUP. lia.
Defined.
