(* ===== verification/HashTab.v ===== *)
(** The hash table of the source-to-source translator (compile/mpitrans/hash.c):
    buckets in doubly linked lists, where a bucket points back at the place that points
    at it - the [next] of the bucket before, or the place of the table. A user pointer
    is the address just past a bucket's header. *)
From S2P Require Import Prelude.

Definition sizeof_BUCKET : Z := 2 * sizeof_ptr.
Definition user_of (b : Z) : Z := b + sizeof_BUCKET.
Definition header_of (sym : Z) : Z := sym - sizeof_BUCKET.

(** [BUCKET **]: a place of the table, or the [next] of a bucket. *)
Inductive slot := InTable (i : Z) | NextOf (b : Z) | NoSlot.
Record BUCKET := mkBucket { next : Z; prev : slot }.
#[export] Instance eta_bucket : Eta BUCKET := MkEta _ (fun r => mkBucket (next r) (prev r)).

(** The table with its buckets, and what is left of the heap. *)
Record HASH_TAB := mkTab { size : Z; numsyms : Z; table : list Z; buckets : gmap Z BUCKET; brk : Z; lim : Z }.
#[export] Instance eta_tab : Eta HASH_TAB :=
  MkEta _ (fun r => mkTab (size r) (numsyms r) (table r) (buckets r) (brk r) (lim r)).

(** ** Hash functions, on the bytes of a string *)

Definition hash_add (name : list Z) : Z := fold_left (fun h c => uint32 (h + c)) name 0.

Definition HIGH_BITS : Z := Z.lxor (Z.ones 32) (Z.shiftr (Z.ones 32) 4).
Definition pjw_step (h c : Z) : Z :=
  let h := uint32 (uint32 (Z.shiftl h 4) + c) in
  let g := Z.land h HIGH_BITS in
  if negb (g =? 0) then Z.land (Z.lxor h (Z.shiftr g 24)) (Z.lxor (Z.ones 32) HIGH_BITS) else h.
Definition hash_pjw (name : list Z) : Z := fold_left pjw_step name 0.
(** [hash_pjw2] keeps what the last step had before its high bits were folded in. *)
Definition hash_pjw2 (name : list Z) : Z :=
  snd (fold_left (fun '(h, _) c => (pjw_step h c, uint32 (uint32 (Z.shiftl h 4) + c))) name (0, 0)).

Section Operations.
(** The keys, their hash, their comparison (0 for equal), and the key of the symbol at a
    user pointer. *)
Context {K : Type} (hash : K -> Z) (cmp : K -> K -> Z) (get_key : Z -> option K).
Notation M := (M HASH_TAB).

(** *** Loads and stores *)

Definition load_bucket (b : Z) : M BUCKET := t ← get; or_fault (buckets t !! b).
Definition upd_bucket (b : Z) (f : BUCKET -> BUCKET) : M unit :=
  k ← load_bucket b; modify (fun t => t <| buckets := <[b := f k]> (buckets t) |>).
Definition load_slot (p : slot) : M Z :=
  match p with
  | InTable i => t ← get; if i <? 0 then fault else or_fault (table t !! Z.to_nat i)
  | NextOf b => k ← load_bucket b; mret (next k)
  | NoSlot => fault
  end.
Definition store_slot (p : slot) (v : Z) : M unit :=
  match p with
  | InTable i =>
      t ← get;
      if (0 <=? i) && (i <? Z.of_nat (length (table t))) then
        modify (fun t => t <| table := <[Z.to_nat i := v]> (table t) |>)
      else fault
  | NextOf b => upd_bucket b (fun k => k <| next := v |>)
  | NoSlot => fault
  end.
Definition key_of (sym : Z) : M K := or_fault (get_key sym).

(** *** The routines *)

(** [calloc(size + sizeof(BUCKET), 1)]. *)
Definition newsym (size : Z) : M Z :=
  t ← get;
  let n := (size + sizeof_BUCKET + 7) / 8 * 8 in
  if lim t <? brk t + n then mret NULL
  else
    modify (fun t => t <| brk := brk t + n |> <| buckets := <[brk t := mkBucket NULL NoSlot]> (buckets t) |>);;
    mret (user_of (brk t)).

Definition freesym (sym : Z) : M unit :=
  load_bucket (header_of sym);; modify (fun t => t <| buckets := delete (header_of sym) (buckets t) |>).

(** [maketab]: the default is 127 chains. *)
Definition maketab (maxsym : Z) (avail : bool) : M bool :=
  let maxsym := if maxsym =? 0 then 127 else maxsym in
  if avail then
    modify (fun t => t <| size := maxsym |> <| numsyms := 0 |> <| table := replicate (Z.to_nat maxsym) NULL |>);;
    mret true
  else mret false.

Definition symcmp (sym1 sym2 : Z) : M Z := k1 ← key_of sym1; k2 ← key_of sym2; mret (cmp k1 k2).
Definition symhash (sym : Z) : M Z := k ← key_of sym; mret (hash k).

Definition addsym (isym : Z) : M Z :=
  h ← symhash isym;
  let sym := header_of isym in
  t ← get;
  if size t =? 0 then fault
  else
    let p := InTable (h mod size t) in
    tmp ← load_slot p;
    store_slot p sym;;
    upd_bucket sym (fun k => k <| prev := p |>);;
    upd_bucket sym (fun k => k <| next := tmp |>);;
    when (negb (tmp =? NULL)) (upd_bucket tmp (fun k => k <| prev := NextOf sym |>));;
    modify (fun t => t <| numsyms := int32 (numsyms t + 1) |>);;
    mret (user_of sym).

Definition delsym (isym : Z) : M unit :=
  if isym =? NULL then mret tt
  else
    modify (fun t => t <| numsyms := int32 (numsyms t - 1) |>);;
    let sym := header_of isym in
    k ← load_bucket sym;
    store_slot (prev k) (next k);;
    k ← load_bucket sym;
    when (negb (next k =? NULL)) (upd_bucket (next k) (fun k' => k' <| prev := prev k |>)).

(** [while (p && cmp(key, get_key(p+1)))]: a chain has no more buckets than there are. *)
Fixpoint find_loop (fuel : nat) (key : K) (p : Z) : M Z :=
  match fuel with
  | O => stuck
  | S fuel' =>
      if p =? NULL then mret NULL
      else
        k ← key_of (user_of p);
        if cmp key k =? 0 then mret (user_of p)
        else b ← load_bucket p; find_loop fuel' key (next b)
  end.
Definition chain_fuel (t : HASH_TAB) : nat := S (base.size (buckets t)).
Definition findsym (key : K) : M Z :=
  t ← get;
  if size t =? 0 then fault
  else p ← load_slot (InTable (hash key mod size t)); find_loop (chain_fuel t) key p.

(** [for (--last; last->next; last=last->next)]. *)
Fixpoint next_loop (fuel : nat) (last : Z) : M Z :=
  match fuel with
  | O => stuck
  | S fuel' =>
      b ← load_bucket last;
      if next b =? NULL then mret NULL
      else
        c ← symcmp (user_of last) (user_of (next b));
        if c =? 0 then mret (user_of (next b)) else next_loop fuel' (next b)
  end.
Definition nextsym (i_last : Z) : M Z := t ← get; next_loop (chain_fuel t) (header_of i_last).
End Operations.
