(* ===== verification/HashRep.v ===== *)
(** What the hash table of the translator represents: the list of its symbols, the last
    one added first. The chain of a place of the table is the part of the list that
    hashes to it. *)
From S2P Require Import Prelude HashTab.
Open Scope Z_scope.

(** The chain that starts in the slot [p] with the pointer [h]. *)
Fixpoint chain (bs : gmap Z BUCKET) (p : slot) (h : Z) (l : list Z) : Prop :=
  match l with
  | [] => h = NULL
  | b :: l' => h = b /\ b <> NULL /\ exists k, bs !! b = Some k /\ prev k = p /\ chain bs (NextOf b) (next k) l'
  end.

Lemma bucket_chain_frame bs bs' p h l : (forall b, b ∈ l -> bs' !! b = bs !! b) -> chain bs p h l -> chain bs' p h l.
Proof.
  revert p h. induction l as [|b l IH]; intros p h Hf; [done|]. intros (-> & Hb & k & Hk & Hp & Hc).
  split; [done|]. split; [done|]. exists k. rewrite Hf by left. repeat split; [done|done|].
  apply IH; [|done]. intros c Hc'. apply Hf. by right.
Qed.

(** The first bucket of a chain may be told to point back somewhere else. *)
Definition reslot (bs : gmap Z BUCKET) (h : Z) (p : slot) : gmap Z BUCKET :=
  match bs !! h with
  | Some k => if h =? NULL then bs else <[h := k <| prev := p |>]> bs
  | None => bs
  end.

Lemma chain_reslot bs p p' h l : NoDup l -> chain bs p h l -> chain (reslot bs h p') p' h l.
Proof.
  destruct l as [|b l]; [done|]. intros [Hb _]%NoDup_cons (-> & Hn & k & Hk & Hp & Hc). cbn.
  unfold reslot. rewrite Hk. replace (b =? NULL) with false by lia. split; [done|]. split; [done|].
  eexists. split; [apply lookup_insert_eq|]. split; [done|]. eapply bucket_chain_frame; [|exact Hc].
  intros c Hc'. rewrite lookup_insert_ne; [done|]. by intros ->.
Qed.

Lemma reslot_other bs h p b : b <> h -> reslot bs h p !! b = bs !! b.
Proof.
  intros Hb. unfold reslot. destruct (bs !! h); [|done]. destruct (h =? NULL); [done|]. by rewrite lookup_insert_ne.
Qed.

Lemma reslot_is_Some bs h p b : is_Some (bs !! b) -> is_Some (reslot bs h p !! b).
Proof.
  intros [k Hk]. unfold reslot. destruct (bs !! h) eqn:E; [|by eexists]. destruct (h =? NULL); [by eexists|].
  destruct (decide (b = h)) as [->|Hn]; [rewrite lookup_insert_eq; by eexists|]. rewrite lookup_insert_ne by done. by eexists.
Qed.

Lemma chain_head bs p h l : chain bs p h l -> h = NULL \/ h ∈ l /\ is_Some (bs !! h).
Proof. destruct l as [|b l]; cbn; [by left|]. intros (-> & _ & k & -> & _). right. split; [left|by eexists]. Qed.

(** A bucket in a chain points back at the slot that points at it. *)
Lemma chain_at bs p h l1 b l2 : chain bs p h (l1 ++ b :: l2) ->
  exists k, bs !! b = Some k /\ b <> NULL /\ prev k = match last l1 with Some a => NextOf a | None => p end /\
    chain bs (NextOf b) (next k) l2.
Proof.
  revert p h. induction l1 as [|a l1 IH]; intros p h; cbn.
  - intros (-> & Hb & k & Hk & Hp & Hc). by exists k.
  - intros (-> & _ & k & _ & _ & Hc). destruct (IH _ _ Hc) as (k' & ? & ? & E & ?). exists k'. split; [done|]. split; [done|]. split; [|done].
    rewrite E. destruct l1 as [|c l1 _] using rev_ind; [done|]. by rewrite app_comm_cons, !last_snoc.
Qed.

(** What [delsym] does to the buckets: the slot that pointed at the bucket, and the bucket
    that followed it, are joined. *)
Definition unlink (bs : gmap Z BUCKET) (k : BUCKET) : gmap Z BUCKET :=
  reslot (match prev k with NextOf a => alter (fun c => c <| next := next k |>) a bs | _ => bs end) (next k) (prev k).

Lemma chain_unlink bs p h l1 b l2 k : NoDup (l1 ++ b :: l2) -> bs !! b = Some k -> (forall a, p <> NextOf a) ->
  chain bs p h (l1 ++ b :: l2) -> chain (unlink bs k) p (if last l1 then h else next k) (l1 ++ l2).
Proof.
  intros Hn Hk Hp Hc. destruct (chain_at _ _ _ _ _ _ Hc) as (k' & Hk' & Hb & Hpk & Hc2). rewrite Hk in Hk'. injection Hk' as <-.
  unfold unlink. rewrite Hpk. revert p h Hp Hpk Hc. destruct l1 as [|a l1 _] using rev_ind; intros p h Hp Hpk Hc.
  { cbn. destruct p; try by destruct (Hp b0). all: apply NoDup_cons in Hn as [_ Hn]; by eapply chain_reslot. }
  rewrite last_snoc in *. clear Hpk. set (bs1 := alter _ a bs).
  assert (Ha : a ∉ l1 /\ a <> b /\ a ∉ l2 /\ NoDup l2 /\ b ∉ l2).
  { rewrite <- app_assoc in Hn. apply NoDup_app in Hn as (Hn1 & Hd & Hn). cbn in Hn. apply NoDup_cons in Hn as [H1 Hn].
    apply NoDup_cons in Hn as [H2 Hn]. split; [|set_solver]. intros Hi. apply (Hd a Hi). left. }
  destruct Ha as (Ha1 & Hab & Ha2 & Hn2 & Hb2).
  assert (Hc1 : chain bs1 (NextOf b) (next k) l2).
  { eapply bucket_chain_frame; [|exact Hc2]. intros c Hc'. unfold bs1. rewrite lookup_alter_ne; [done|]. by intros ->. }
  assert (Hc3 : chain (reslot bs1 (next k) (NextOf a)) (NextOf a) (next k) l2) by (by eapply chain_reslot).
  assert (Hh : next k = NULL \/ next k ∈ l2) by (destruct (chain_head _ _ _ _ Hc2) as [|[? _]]; auto).
  assert (Hout : forall c, c ∈ l1 ++ [a] -> c <> NULL -> reslot bs1 (next k) (NextOf a) !! c = bs1 !! c).
  { intros c Hc' Hc0. apply reslot_other. intros ->. destruct Hh as [?|Hh]; [done|].
    rewrite <- app_assoc in Hn. cbn in Hn. apply NoDup_app in Hn as (_ & Hd & _).
    apply elem_of_app in Hc' as [Hc'|Hc'%list_elem_of_singleton]; [|by rewrite Hc' in Hh]. apply (Hd _ Hc'). set_solver. }
  rewrite <- !app_assoc in *. cbn [app] in *. clear Hp Hn Hh. revert p h Hc. induction l1 as [|c l1 IH]; intros p h; cbn.
  - intros (-> & Ha0 & ka & Hka & Hpa & _). split; [done|]. split; [done|]. exists (ka <| next := next k |>).
    split; [|by split]. rewrite Hout by (done || set_solver). unfold bs1. by rewrite lookup_alter_eq, Hka.
  - intros (-> & Hc0 & kc & Hkc & Hpc & Hc). split; [done|]. split; [done|]. exists kc.
    split; [|split; [done|]].
    + rewrite Hout by (done || set_solver). unfold bs1. rewrite lookup_alter_ne; [done|]. set_solver.
    + apply IH; [set_solver|set_solver|done].
Qed.

Lemma unlink_other bs k c : c <> next k -> (forall a, prev k = NextOf a -> c <> a) -> unlink bs k !! c = bs !! c.
Proof.
  intros H1 H2. unfold unlink. rewrite reslot_other by done. destruct (prev k); try done.
  rewrite lookup_alter_ne; [done|]. intros ->. by apply (H2 c).
Qed.

Lemma unlink_is_Some bs k c : is_Some (bs !! c) -> is_Some (unlink bs k !! c).
Proof.
  intros H. unfold unlink. apply reslot_is_Some. destruct (prev k); try done. destruct (decide (b = c)) as [->|Hn].
  - rewrite lookup_alter_eq. by apply fmap_is_Some.
  - by rewrite lookup_alter_ne.
Qed.

Section Rep.
Context {K : Type} `{EqDecision K} (hash : K -> Z) (cmp : K -> K -> Z).
(** What [strcmp] documents. *)
Context (cmp_spec : forall k k', cmp k k' = 0 <-> k = k').

(** The buckets of a list that belong into the place [i] of a table of [n]. *)
Definition placed (get_key : Z -> option K) (n i b : Z) : bool :=
  match get_key (user_of b) with Some k => hash k mod n =? i | None => false end.
Definition in_place (get_key : Z -> option K) (n i : Z) (L : list Z) : list Z :=
  filter (fun b => placed get_key n i b = true) L.
Arguments in_place : simpl never.
(** The last symbol added with a key. *)
Definition newest (get_key : Z -> option K) (key : K) (L : list Z) : option Z :=
  head (filter (fun b => get_key (user_of b) = Some key) L).

Record tab_rep (get_key : Z -> option K) (t : HASH_TAB) (L : list Z) : Prop := {
  tr_size : 0 < size t;
  tr_len : Z.of_nat (length (table t)) = size t;
  tr_num : numsyms t = int32 (Z.of_nat (length L));
  tr_nodup : NoDup L;
  tr_pos : forall b, b ∈ L -> 0 < b;
  tr_keys : forall b, b ∈ L -> is_Some (get_key (user_of b));
  tr_chain : forall i, 0 <= i < size t ->
    exists h, table t !! Z.to_nat i = Some h /\ chain (buckets t) (InTable i) h (in_place get_key (size t) i L)
}.

Context (get_key : Z -> option K).

Lemma tab_rep_ext get_key' t L : (forall b, b ∈ L -> get_key' (user_of b) = get_key (user_of b)) ->
  tab_rep get_key t L -> tab_rep get_key' t L.
Proof.
  intros He [H1 H2 H3 H4 H0 H5 H6]. constructor; try done.
  - intros b Hb. rewrite He by done. by apply H5.
  - intros i Hi. destruct (H6 i Hi) as (h & Hh & Hc). exists h. split; [done|].
    replace (in_place get_key' (size t) i L) with (in_place get_key (size t) i L); [done|].
    unfold in_place. clear -He. induction L as [|b L IH]; [done|]. rewrite !filter_cons.
    assert (E : placed get_key' (size t) i b = placed get_key (size t) i b) by (unfold placed; by rewrite He by left).
    rewrite E, IH; [done|]. intros; apply He; by right.
Qed.

Lemma placed_key n k b : get_key (user_of b) = Some k -> placed get_key n (hash k mod n) b = true.
Proof. unfold placed. intros ->. apply Z.eqb_refl. Qed.

Lemma in_place_other n i k b L : get_key (user_of b) = Some k -> hash k mod n <> i -> b ∉ in_place get_key n i L.
Proof. intros Hk Hi [Hp _]%list_elem_of_filter. unfold placed in Hp. rewrite Hk in Hp. lia. Qed.

Lemma newest_in_place n key L :
  newest get_key key (in_place get_key n (hash key mod n) L) = newest get_key key L.
Proof.
  unfold newest, in_place. rewrite list_filter_filter. f_equal. induction L as [|b L IH]; [done|].
  rewrite !filter_cons, IH. destruct (decide (get_key (user_of b) = Some key)) as [E|E].
  - rewrite decide_True; [done|]. split; [done|]. by apply placed_key.
  - rewrite decide_False; [done|]. by intros [? _].
Qed.

(** *** Finding *)

Lemma chain_NoDup_length bs p h l : NoDup l -> chain bs p h l -> (length l <= base.size bs)%nat.
Proof.
  intros Hn Hc. rewrite <- size_dom. rewrite <- (size_list_to_set (C := gset Z) l) by done. apply subseteq_size.
  intros b Hb%elem_of_list_to_set. apply elem_of_dom. clear Hn. revert p h Hc.
  induction l as [|c l IH]; intros p h; [by apply elem_of_nil in Hb|]. cbn. intros (_ & _ & k & Hk & _ & Hc).
  apply elem_of_cons in Hb as [->|Hb]; [by eexists|by eapply IH].
Qed.

Lemma key_of_spec sym k (t : HASH_TAB) : get_key sym = Some k -> key_of get_key sym t = Ret k t.
Proof. unfold key_of. by intros ->. Qed.

Lemma load_bucket_spec b k t : buckets t !! b = Some k -> load_bucket b t = Ret k t.
Proof. unfold load_bucket. mrun. by intros ->. Qed.

Lemma find_loop_spec fuel key p h l (t : HASH_TAB) : chain (buckets t) p h l ->
  (forall b, b ∈ l -> is_Some (get_key (user_of b))) -> (length l < fuel)%nat ->
  find_loop cmp get_key fuel key h t = Ret (from_option user_of NULL (newest get_key key l)) t.
Proof.
  revert fuel p h. induction l as [|b l IH]; intros fuel p h Hc Hk Hf; (destruct fuel as [|fuel]; [cbn in Hf; lia|]); cbn [find_loop].
  - cbn in Hc. subst h. done.
  - destruct Hc as (-> & Hb & k & Hbk & _ & Hc). destruct (Z.eqb_spec b NULL) as [?|_]; [done|].
    destruct (Hk b ltac:(left)) as [kb Hkb]. rewrite (bind_Ret _ _ _ _ _ (key_of_spec _ _ _ Hkb)).
    unfold newest. rewrite filter_cons. destruct (Z.eqb_spec (cmp key kb) 0) as [E|E].
    + apply cmp_spec in E as ->. by rewrite decide_True by done.
    + rewrite decide_False by (rewrite Hkb; intros [= ->]; by apply E, cmp_spec).
      rewrite (bind_Ret _ _ _ _ _ (load_bucket_spec _ _ _ Hbk)).
      apply (IH fuel (NextOf b)); [done|intros; apply Hk; by right|cbn in Hf; lia].
Qed.

Lemma mod_place n h : 0 < n -> 0 <= h mod n < n.
Proof. apply Z.mod_pos_bound. Qed.

Lemma load_place t L i h : tab_rep get_key t L -> 0 <= i < size t -> table t !! Z.to_nat i = Some h ->
  load_slot (InTable i) t = Ret h t.
Proof. intros _ Hi Hh. unfold load_slot. mrun. destruct (Z.ltb_spec i 0); [lia|]. by rewrite Hh. Qed.

Lemma in_place_NoDup n i L : NoDup L -> NoDup (in_place get_key n i L).
Proof. apply NoDup_filter. Qed.

Lemma elem_of_in_place n i L b : b ∈ in_place get_key n i L -> b ∈ L.
Proof. by intros [_ ?]%list_elem_of_filter. Qed.

Lemma findsym_rep key t L : tab_rep get_key t L ->
  findsym hash cmp get_key key t = Ret (from_option user_of NULL (newest get_key key L)) t.
Proof.
  intros HR. pose proof HR as [Hs _ _ Hn _ Hk Hc]. destruct (Hc _ (mod_place _ (hash key) Hs)) as (h & Hh & Hch).
  unfold findsym. rewrite (bind_Ret get _ t t t eq_refl). destruct (Z.eqb_spec (size t) 0); [lia|].
  rewrite (bind_Ret _ _ _ _ _ (load_place t L _ h HR (mod_place _ _ Hs) Hh)).
  erewrite find_loop_spec; [by rewrite newest_in_place|exact Hch| |].
  - intros b Hb. apply Hk. by eapply elem_of_in_place.
  - unfold chain_fuel. pose proof (chain_NoDup_length _ _ _ _ (in_place_NoDup _ _ _ Hn) Hch). lia.
Qed.

(** *** Adding *)

Lemma header_user b : header_of (user_of b) = b.
Proof. unfold header_of, user_of. lia. Qed.

Lemma upd_bucket_spec b f k t : buckets t !! b = Some k ->
  upd_bucket b f t = Ret tt (t <| buckets := <[b := f k]> (buckets t) |>).
Proof. intros E. unfold upd_bucket, load_bucket. mrun. by rewrite E. Qed.

Lemma store_place i v t : 0 <= i < Z.of_nat (length (table t)) ->
  store_slot (InTable i) v t = Ret tt (t <| table := <[Z.to_nat i := v]> (table t) |>).
Proof. intros Hi. unfold store_slot. mrun. by replace ((0 <=? i) && (i <? Z.of_nat (length (table t)))) with true by lia. Qed.

(** Pointing back from the bucket at [h], if there is one. *)
Lemma when_reslot h p t : h = NULL \/ is_Some (buckets t !! h) ->
  when (negb (h =? NULL)) (upd_bucket h (fun k => k <| prev := p |>)) t = Ret tt (t <| buckets := reslot (buckets t) h p |>).
Proof.
  intros Hh. unfold reslot. destruct (Z.eqb_spec h NULL) as [E|E].
  - destruct (buckets t !! h); by destruct t.
  - destruct Hh as [?|[k Hk]]; [done|]. cbn. rewrite (upd_bucket_spec _ _ k) by done. by rewrite Hk.
Qed.

(** The table with a bucket more at the head of a chain. *)
Definition linked_in (t : HASH_TAB) (i b h : Z) : HASH_TAB :=
  t <| table := <[Z.to_nat i := b]> (table t) |>
    <| buckets := reslot (<[b := mkBucket h (InTable i)]> (buckets t)) h (NextOf b) |>
    <| numsyms := int32 (numsyms t + 1) |>.

Lemma addsym_run t L b k h : tab_rep get_key t L -> b ∉ L -> b <> NULL -> is_Some (buckets t !! b) ->
  get_key (user_of b) = Some k -> table t !! Z.to_nat (hash k mod size t) = Some h ->
  (h = NULL \/ h ∈ L /\ is_Some (buckets t !! h)) ->
  addsym hash get_key (user_of b) t = Ret (user_of b) (linked_in t (hash k mod size t) b h).
Proof.
  intros HR Hb Hb0 [kb Hkb] Hk Hh Hhd. pose proof HR as [Hs Hl _ _ _ _ _]. pose proof (mod_place _ (hash k) Hs) as Hi.
  assert (Hhb : h <> b) by (destruct Hhd as [->|[? _]]; congruence).
  assert (Hsh : symhash hash get_key (user_of b) t = Ret (hash k) t)
    by (unfold symhash; by rewrite (bind_Ret _ _ _ _ _ (key_of_spec _ _ _ Hk))).
  unfold addsym. rewrite (bind_Ret _ _ _ _ _ Hsh), header_user. rewrite (bind_Ret get _ t t t eq_refl).
  destruct (Z.eqb_spec (size t) 0); [lia|]. rewrite (bind_Ret _ _ _ _ _ (load_place t L _ h HR Hi Hh)).
  rewrite (bind_Ret _ _ _ _ _ (store_place (hash k mod size t) b t ltac:(lia))).
  erewrite bind_Ret; [|apply upd_bucket_spec; exact Hkb].
  erewrite bind_Ret; [|apply upd_bucket_spec; cbn; apply lookup_insert_eq].
  erewrite bind_Ret; [|apply when_reslot].
  2:{ cbn. destruct Hhd as [->|[_ ?]]; [by left|right]. by rewrite !lookup_insert_ne by done. }
  cbn. unfold linked_in. by rewrite insert_insert_eq.
Qed.

Lemma chain_nonnull bs p h l b : chain bs p h l -> b ∈ l -> b <> NULL /\ is_Some (bs !! b).
Proof.
  revert p h. induction l as [|c l IH]; intros p h; cbn; [by intros _ ?%elem_of_nil|].
  intros (-> & H & k & Hk & _ & Hc) [->|Hb]%elem_of_cons; [split; [done|by eexists]|by eapply IH].
Qed.

Lemma tab_rep_bucket t L b : tab_rep get_key t L -> b ∈ L -> b <> NULL /\ is_Some (buckets t !! b).
Proof.
  intros [Hs _ _ _ _ Hk Hc] Hb. destruct (Hk b Hb) as [k Ek]. destruct (Hc _ (mod_place _ (hash k) Hs)) as (h & _ & Hch).
  eapply chain_nonnull; [exact Hch|]. apply list_elem_of_filter. split; [by apply placed_key|done].
Qed.

Lemma in_place_cons n i b L :
  in_place get_key n i (b :: L) = if placed get_key n i b then b :: in_place get_key n i L else in_place get_key n i L.
Proof. unfold in_place. rewrite filter_cons. destruct (placed get_key n i b); case_decide; done. Qed.

Lemma reslot_null bs p : reslot bs NULL p = bs.
Proof. unfold reslot. by destruct (bs !! NULL). Qed.

(** Chains of different places share no bucket. *)
Lemma in_place_apart n i j L b : b ∈ in_place get_key n i L -> b ∈ in_place get_key n j L -> i = j.
Proof.
  intros [H1 _]%list_elem_of_filter [H2 _]%list_elem_of_filter. unfold placed in *.
  destruct (get_key (user_of b)); lia.
Qed.

Lemma linked_in_rep t L b k h : tab_rep get_key t L -> b ∉ L -> 0 < b -> get_key (user_of b) = Some k ->
  table t !! Z.to_nat (hash k mod size t) = Some h ->
  chain (buckets t) (InTable (hash k mod size t)) h (in_place get_key (size t) (hash k mod size t) L) ->
  tab_rep get_key (linked_in t (hash k mod size t) b h) (b :: L).
Proof.
  intros [Hs Hl Hnum Hnd Hpos Hk Hc] Hb Hbp Ek Hh Hch. assert (Hb0 : b <> NULL) by (unfold NULL; lia). set (i := hash k mod size t) in *.
  assert (Hi : 0 <= i < size t) by (by apply mod_place).
  assert (Hhl : h = NULL \/ h ∈ in_place get_key (size t) i L) by (destruct (chain_head _ _ _ _ Hch) as [|[? _]]; auto).
  constructor; cbn.
  - done.
  - by rewrite length_insert.
  - rewrite Hnum, int32_add_l. f_equal. lia.
  - by constructor.
  - intros c [->|Hc']%elem_of_cons; [done|by apply Hpos].
  - intros c [->|Hc']%elem_of_cons; [by eexists|by apply Hk].
  - intros j Hj. rewrite in_place_cons. destruct (decide (j = i)) as [->|Hji].
    + exists b. split; [by rewrite list_lookup_insert_eq by lia|]. assert (E : placed get_key (size t) i b = true) by (by apply placed_key). rewrite E.
      split; [done|]. split; [done|]. exists (mkBucket h (InTable i)).
      split; [|split; [done|]].
      * rewrite reslot_other, lookup_insert_eq; [done|]. intros <-. destruct Hhl as [?|Hhl]; [done|].
        by apply elem_of_in_place in Hhl.
      * apply (chain_reslot _ (InTable i)); [by apply in_place_NoDup|]. eapply bucket_chain_frame; [|exact Hch].
        intros c Hc'. rewrite lookup_insert_ne; [done|]. intros <-. by apply elem_of_in_place in Hc'.
    + destruct (Hc j Hj) as (hj & Hhj & Hcj). exists hj. split; [by rewrite list_lookup_insert_ne by lia|].
      assert (E : placed get_key (size t) j b = false) by (unfold placed; rewrite Ek; fold i; lia). rewrite E. eapply bucket_chain_frame; [|exact Hcj].
      intros c Hc'. rewrite reslot_other.
      * rewrite lookup_insert_ne; [done|]. intros <-. by apply elem_of_in_place in Hc'.
      * intros ->. destruct Hhl as [->|Hhl]; [by destruct (chain_nonnull _ _ _ _ _ Hcj Hc')|].
        apply Hji. by eapply in_place_apart.
Qed.

(** Nothing happens to the buckets that are not in the table. *)
Definition keeps (L : list Z) (t t' : HASH_TAB) : Prop :=
  size t' = size t /\ brk t' = brk t /\ lim t' = lim t /\
  (forall b, b ∉ L -> buckets t' !! b = buckets t !! b) /\
  (forall b, is_Some (buckets t !! b) -> is_Some (buckets t' !! b)).

Lemma addsym_rep t L b k : tab_rep get_key t L -> b ∉ L -> 0 < b -> is_Some (buckets t !! b) ->
  get_key (user_of b) = Some k ->
  exists t', addsym hash get_key (user_of b) t = Ret (user_of b) t' /\ tab_rep get_key t' (b :: L) /\ keeps (b :: L) t t'.
Proof.
  intros HR Hb Hbp Hbs Ek. assert (Hb0 : b <> NULL) by (unfold NULL; lia). pose proof HR as [Hs _ _ _ _ _ Hc]. destruct (Hc _ (mod_place _ (hash k) Hs)) as (h & Hh & Hch).
  assert (Hhd : h = NULL \/ h ∈ L /\ is_Some (buckets t !! h)).
  { destruct (chain_head _ _ _ _ Hch) as [|[? ?]]; [by left|right]. split; [by eapply elem_of_in_place|done]. }
  eexists. split; [by eapply addsym_run|]. split; [by apply linked_in_rep|]. unfold keeps. cbn. repeat split.
  - intros c Hc'. assert (c <> b) by set_solver. destruct Hhd as [->|[? _]].
    + by rewrite reslot_null, lookup_insert_ne.
    + rewrite reslot_other, lookup_insert_ne; set_solver.
  - intros c Hc'. apply reslot_is_Some. destruct (decide (c = b)) as [->|Hn]; [rewrite lookup_insert_eq; by eexists|].
    by rewrite lookup_insert_ne.
Qed.

(** *** Deleting *)

Lemma in_place_app n i L1 L2 : in_place get_key n i (L1 ++ L2) = in_place get_key n i L1 ++ in_place get_key n i L2.
Proof. apply filter_app. Qed.

Definition unlinked (t : HASH_TAB) (k : BUCKET) : HASH_TAB :=
  t <| numsyms := int32 (numsyms t - 1) |>
    <| table := match prev k with InTable i => <[Z.to_nat i := next k]> (table t) | _ => table t end |>
    <| buckets := unlink (buckets t) k |>.

Lemma alter_as_insert (f : BUCKET -> BUCKET) (a : Z) k (bs : gmap Z BUCKET) : bs !! a = Some k -> alter f a bs = <[a := f k]> bs.
Proof.
  intros Hk. apply map_eq. intros c. destruct (decide (c = a)) as [->|Hn].
  - by rewrite lookup_alter_eq, lookup_insert_eq, Hk.
  - by rewrite lookup_alter_ne, lookup_insert_ne.
Qed.

Lemma delsym_run t b k : 0 < b -> buckets t !! b = Some k ->
  match prev k with
  | InTable i => 0 <= i < Z.of_nat (length (table t))
  | NextOf a => a <> b /\ is_Some (buckets t !! a)
  | NoSlot => False
  end ->
  next k = NULL \/ next k <> b /\ is_Some (buckets t !! next k) ->
  delsym (user_of b) t = Ret tt (unlinked t k).
Proof.
  intros Hb Hk Hp Hn. unfold delsym. destruct (Z.eqb_spec (user_of b) NULL) as [E|_]; [unfold user_of, sizeof_BUCKET, sizeof_ptr, NULL in E; lia|].
  rewrite header_user. unfold modify at 1. set (t0 := t <| numsyms := int32 (numsyms t - 1) |>).
  rewrite (bind_Ret _ _ t tt t0) by done.
  rewrite (bind_Ret _ _ t0 k t0) by (by apply load_bucket_spec).
  set (t1 := t0 <| table := match prev k with InTable i => <[Z.to_nat i := next k]> (table t) | _ => table t end |>
                <| buckets := match prev k with NextOf a => alter (fun c => c <| next := next k |>) a (buckets t) | _ => buckets t end |>).
  assert (E1 : store_slot (prev k) (next k) t0 = Ret tt t1).
  { unfold t1. destruct (prev k) as [i|a|]; [| |done].
    - rewrite store_place by done. by destruct t.
    - destruct Hp as [_ [ka Hka]]. cbn [store_slot]. rewrite (upd_bucket_spec _ _ ka) by done. by rewrite (alter_as_insert _ _ ka). }
  rewrite (bind_Ret _ _ _ _ _ E1). 
  assert (Hk1 : buckets t1 !! b = Some k).
  { cbn. destruct (prev k); try done. destruct Hp as [? _]. by rewrite lookup_alter_ne. }
  rewrite (bind_Ret _ _ t1 k t1) by (by apply load_bucket_spec). rewrite when_reslot.
  - done.
  - destruct Hn as [->|[_ Hs]]; [by left|right]. cbn. destruct (prev k) as [i|a|]; try done.
    destruct (decide (a = next k)) as [->|Ha]; [rewrite lookup_alter_eq; by apply fmap_is_Some|by rewrite lookup_alter_ne].
Qed.

Lemma delsym_rep t L1 b L2 : tab_rep get_key t (L1 ++ b :: L2) ->
  exists t', delsym (user_of b) t = Ret tt t' /\ tab_rep get_key t' (L1 ++ L2) /\ keeps (L1 ++ b :: L2) t t'.
Proof.
  intros HR. pose proof HR as [Hs Hl Hnum Hnd Hpos Hk Hc]. assert (Hb : b ∈ L1 ++ b :: L2) by set_solver.
  destruct (Hk b Hb) as [kb Ekb]. set (i := hash kb mod size t). assert (Hi : 0 <= i < size t) by (by apply mod_place).
  assert (Hpl : placed get_key (size t) i b = true) by (by apply placed_key).
  assert (Hsplit : forall j, in_place get_key (size t) j (L1 ++ b :: L2) =
    if placed get_key (size t) j b then in_place get_key (size t) j L1 ++ b :: in_place get_key (size t) j L2
    else in_place get_key (size t) j (L1 ++ L2)).
  { intros j. rewrite !in_place_app, in_place_cons. by destruct (placed get_key (size t) j b). }
  destruct (Hc i Hi) as (h & Hh & Hch). pose proof (in_place_NoDup (size t) i _ Hnd) as Hndi. rewrite Hsplit, Hpl in Hch, Hndi.
  set (l1 := in_place get_key (size t) i L1) in *. set (l2 := in_place get_key (size t) i L2) in *.
  destruct (chain_at _ _ _ _ _ _ Hch) as (k & Hkb & Hb0 & Hpk & Hc2).
  assert (Hin : forall c, c ∈ l1 ++ b :: l2 -> c ∈ in_place get_key (size t) i (L1 ++ b :: L2)) by (intros c; by rewrite Hsplit, Hpl).
  assert (Hnx : next k = NULL \/ next k ∈ l2 /\ is_Some (buckets t !! next k)) by (by apply chain_head in Hc2).
  assert (Hb2 : b ∉ l2 /\ b ∉ l1).
  { apply NoDup_app in Hndi as (_ & Hd & [? _]%NoDup_cons). split; [done|]. intros H1. apply (Hd _ H1). left. }
  assert (Hpa : forall a, prev k = NextOf a -> a ∈ l1).
  { intros a. rewrite Hpk. destruct (last l1) as [a'|] eqn:El; [|done]. intros [= ->]. by apply last_Some_elem_of. }
  exists (unlinked t k). split; [|split].
  - apply delsym_run; [by apply Hpos|done| |].
    + destruct (prev k) as [j|a|] eqn:Ep; [|split|].
      * destruct (last l1); [done|]. injection Hpk as ->. lia.
      * intros ->. by destruct Hb2 as [_ []]; apply Hpa.
      * eapply chain_nonnull; [exact Hch|]. apply elem_of_app. left. by apply Hpa.
      * by destruct (last l1).
    + destruct Hnx as [?|[? ?]]; [by left|right]. split; [|done]. intros E. rewrite E in *. tauto.
  - constructor; cbn.
    + done.
    + destruct (prev k); rewrite ?length_insert; done.
    + rewrite Hnum. unfold Z.sub. rewrite int32_add_l, !length_app. cbn [length]. f_equal. lia.
    + apply NoDup_app in Hnd as (? & Hd & [_ ?]%NoDup_cons). apply NoDup_app. split; [done|]. split; [|done].
      intros c Hc' Hc''. apply (Hd c Hc'). by right.
    + intros c Hc'. apply Hpos. set_solver.
    + intros c Hc'. apply Hk. set_solver.
    + intros j Hj. destruct (decide (j = i)) as [->|Hji].
      * exists (if last l1 then h else next k). split.
        { destruct (last l1); rewrite Hpk; [done|]. by rewrite list_lookup_insert_eq by lia. }
        rewrite in_place_app. by apply chain_unlink with b.
      * destruct (Hc j Hj) as (hj & Hhj & Hcj). exists hj. split.
        { destruct (last l1); rewrite Hpk; [done|]. by rewrite list_lookup_insert_ne by lia. }
        assert (Hpj : placed get_key (size t) j b = false) by (unfold placed in *; rewrite Ekb in *; lia).
        rewrite Hsplit, Hpj in Hcj. eapply bucket_chain_frame; [|exact Hcj]. intros c Hc'.
        assert (Hcj' : c ∈ in_place get_key (size t) j (L1 ++ b :: L2)) by (by rewrite Hsplit, Hpj).
        assert (Hout : c ∉ l1 ++ b :: l2) by (intros Hci%Hin; apply Hji; symmetry; by eapply in_place_apart).
        apply unlink_other.
        -- intros ->. destruct Hnx as [Hn|[Hn _]]; [by destruct (chain_nonnull _ _ _ _ _ Hcj Hc')|]. apply Hout. set_solver.
        -- intros a Ha ->. apply Hout. apply elem_of_app. left. by apply Hpa.
  - unfold keeps. cbn. repeat split.
    + intros c Hc'. assert (Hout : c ∉ l1 ++ b :: l2) by (intros Hci%Hin; by apply elem_of_in_place in Hci).
      destruct Hnx as [Hn|[Hn _]].
      * unfold unlink. rewrite Hn, reslot_null. destruct (prev k) as [|a|] eqn:Ep; try done.
        rewrite lookup_alter_ne; [done|]. intros ->. apply Hout. apply elem_of_app. left. by apply Hpa.
      * apply unlink_other; [intros ->; apply Hout; set_solver|]. intros a Ha ->. apply Hout. apply elem_of_app. left. by apply Hpa.
    + intros c. apply unlink_is_Some.
Qed.
End Rep.
