(* ===== verification/MiscTr.v ===== *)
(** Strings of the source-to-source translator (compile/mpitrans/misc.c): the stack of
    frames and the buffer the names of symbols live in; the growing strings ([STR]) the
    parser's values are, with the list of those that can be used again. *)
From S2P Require Import Prelude.

Definition STACK_SIZE : Z := 126.
Record Stack := mkStack { thestk : list Z; limit : Z; top : Z }.
#[export] Instance eta_stack : Eta Stack := MkEta _ (fun r => mkStack (thestk r) (limit r) (top r)).

Definition STRBUF_SIZE : Z := 65000.
(** [buf] holds what was written to the array, by offset. *)
Record StrBuf := mkStrBuf { stk : Stack; buf : mem; current : Z }.
#[export] Instance eta_strbuf : Eta StrBuf := MkEta _ (fun r => mkStrBuf (stk r) (buf r) (current r)).

Definition STRBLK : Z := 128.
(** A string and the memory [namex] points to. *)
Record STR := mkSTR { namex : list Z; strnext : Z; maxlen : Z; curlen : Z }.
#[export] Instance eta_str : Eta STR := MkEta _ (fun r => mkSTR (namex r) (strnext r) (maxlen r) (curlen r)).

(** The module's variables, the symbol names of the program, the strings by address, and
    the heap they come from. *)
Record misc := mkMisc {
  errmsgno : Z; symnames : StrBuf; strs : gmap Z STR; freestrlist : Z; str_brk : Z; str_lim : Z
}.
#[export] Instance eta_misc : Eta misc :=
  MkEta _ (fun r => mkMisc (errmsgno r) (symnames r) (strs r) (freestrlist r) (str_brk r) (str_lim r)).
#[local] Notation M := (Prelude.M misc).

Definition int16 (z : Z) : Z := (z + 2 ^ 15) mod 2 ^ 16 - 2 ^ 15.
Definition uint16 (z : Z) : Z := z mod 2 ^ 16.

(** The message is printed, and counted. *)
Definition yyerror : M unit := modify (fun s => s <| errmsgno := int32 (errmsgno s + 1) |>).

(** ** The stack of frames *)

Definition new_stack : Stack := mkStack (replicate (Z.to_nat STACK_SIZE) 0) STACK_SIZE 0.
Definition upd_stk (f : Stack -> Stack) : M unit :=
  modify (fun s => s <| symnames := symnames s <| stk := f (stk (symnames s)) |> |>).

Definition stk_pop : M Z :=
  s ← gets (fun s => stk (symnames s));
  if top s <=? 0 then yyerror;; mret 0
  else
    upd_stk (fun s => s <| top := top s - 1 |>);;
    or_fault (thestk s !! Z.to_nat (top s - 1)).
Definition stk_push (elem : Z) : M unit :=
  s ← gets (fun s => stk (symnames s));
  if limit s <=? top s then yyerror
  else if Z.of_nat (length (thestk s)) <=? top s then fault
  else upd_stk (fun s => s <| thestk := <[Z.to_nat (top s) := elem]> (thestk s) |> <| top := top s + 1 |>).

(** ** The buffer of names *)

Definition new_strbuf : StrBuf := mkStrBuf new_stack ∅ 0.
Definition sb_newframe : M unit := s ← get; stk_push (current (symnames s)).

(** The offset is returned as a [short]. *)
Definition sb_alloc (size : Z) : M Z :=
  s ← get;
  let previous := int16 (current (symnames s)) in
  if uint32 (current (symnames s) + size + 1) <? STRBUF_SIZE then
    modify (fun s => s <| symnames := symnames s <| current := uint16 (current (symnames s) + (size + 1)) |> |>);;
    mret previous
  else yyerror;; mret (-1).
Definition sb_restore : M unit :=
  e ← stk_pop; modify (fun s => s <| symnames := symnames s <| current := uint16 e |> |>).

(** The bytes of a string up to its null; there is none if it runs into something that
    was never written, or is longer than the buffer. *)
Fixpoint cstr (fuel : nat) (m : mem) (a : Z) : option (list Z) :=
  match fuel, m !! a with
  | S fuel', Some c => if c =? 0 then Some [] else cons c <$> cstr fuel' m (a + 1)
  | _, _ => None
  end.
(** [sb_string(symnames, offset)], read as a string. *)
Definition sb_read (s : StrBuf) (offset : Z) : option (list Z) :=
  if (0 <=? offset) && (offset <? STRBUF_SIZE) then cstr (Z.to_nat (STRBUF_SIZE - offset)) (buf s) offset else None.
(** [strcpy(sb_string(symnames, offset), name)]. *)
Definition sb_strcpy (offset : Z) (name : list Z) : M unit :=
  if (0 <=? offset) && (offset + Z.of_nat (length name) <? STRBUF_SIZE) then
    modify (fun s => s <| symnames := symnames s <| buf := store_bytes (buf (symnames s)) offset (name ++ [0]) |> |>)
  else fault.

(** ** Growing strings *)

Definition load_str (p : Z) : M STR := s ← get; or_fault (strs s !! p).
Definition upd_str (p : Z) (f : STR -> STR) : M unit :=
  x ← load_str p; modify (fun s => s <| strs := <[p := f x]> (strs s) |>).

(** Memory that was just allocated holds nothing that is a byte. A negative size is far
    more than there is. *)
Definition uninit : Z := -1.
Definition new_bytes (n : Z) : M (list Z) := if n <? 0 then fault else mret (replicate (Z.to_nat n) uninit).
(** The null pointer is written to at once when there is no memory left. *)
Definition new_STR (x : STR) : M Z :=
  s ← get;
  let n := 2 * sizeof_ptr + 2 * 2 in
  if str_lim s <? str_brk s + n + 4 then fault
  else
    modify (fun s => s <| str_brk := str_brk s + n + 4 |> <| strs := <[str_brk s := x]> (strs s) |>);;
    mret (str_brk s).

(** [strcpy(b+off, s)] into memory of the length of [b]. *)
Definition strcpy (b : list Z) (off : Z) (s : list Z) : M (list Z) :=
  if (0 <=? off) && (off + Z.of_nat (length s) <? Z.of_nat (length b)) then
    mret (take (Z.to_nat off) b ++ s ++ [0] ++ drop (Z.to_nat off + length s + 1) b)
  else fault.
Fixpoint bytes_str (b : list Z) : option (list Z) :=
  match b with
  | [] => None
  | c :: b' => if c =? 0 then Some [] else if c =? uninit then None else cons c <$> bytes_str b'
  end.

(** [(len+STRBLK-1)/STRBLK*STRBLK], unsigned because [STRBLK] is. *)
Definition blocks (len : Z) : Z := uint32 (uint32 (len + STRBLK - 1) / STRBLK * STRBLK).

Definition new_blankstr : M Z :=
  str ← gets freestrlist;
  big ← (if str =? NULL then mret false else x ← load_str str; mret (STRBLK <=? uint32 (maxlen x)));
  if big : bool then
    x ← load_str str;
    modify (fun s => s <| freestrlist := strnext x |>);;
    b ← (if 0 <? Z.of_nat (length (namex x)) then mret (<[0%nat := 0]> (namex x)) else fault);
    upd_str str (fun x => x <| curlen := 1 |> <| namex := b |>);;
    mret str
  else
    new_STR (mkSTR (<[0%nat := 0]> (replicate (Z.to_nat STRBLK) uninit)) NULL STRBLK 1).

Definition new_str (s : option (list Z)) : M Z :=
  match s with
  | None => new_blankstr
  | Some s =>
      st ← get;
      let len := int16 (Z.of_nat (length s) + 1) in
      if negb (freestrlist st =? NULL) then
        let str := freestrlist st in
        x ← load_str str;
        modify (fun s => s <| freestrlist := strnext x |>);;
        upd_str str (fun x => x <| curlen := len |>);;
        when (maxlen x <? len)
          (let m := int16 (blocks len) in
           b ← new_bytes m; upd_str str (fun x => x <| maxlen := m |> <| namex := b |>));;
        x ← load_str str;
        b ← strcpy (namex x) 0 s;
        upd_str str (fun x => x <| namex := b |>);;
        mret str
      else
        let m := int16 (blocks len) in
        b ← new_bytes m;
        b ← strcpy b 0 s;
        new_STR (mkSTR b NULL m len)
  end.

Definition del_str (str : Z) : M unit :=
  if str =? NULL then mret tt
  else
    f ← gets freestrlist;
    upd_str str (fun x => x <| strnext := f |>);;
    modify (fun s => s <| freestrlist := str |>).

(** [str_string(str)], read as a string. *)
Definition str_string (str : Z) : M (list Z) := x ← load_str str; or_fault (bytes_str (namex x)).

(** The part [str_append] and [str_cat] share: the bytes [s] after the string, in memory
    for [size] bytes. *)
Definition append_bytes (str : Z) (s : list Z) (size : Z) : M Z :=
  x ← load_str str;
  (if maxlen x <? size then
     let m := int32 (blocks size) in
     ss ← new_bytes m;
     old ← str_string str;
     ss ← strcpy ss 0 old;
     ss ← strcpy ss (curlen x - 1) s;
     upd_str str (fun x => x <| namex := ss |> <| maxlen := int16 m |> <| curlen := int16 size |>)
   else
     b ← strcpy (namex x) (curlen x - 1) s;
     upd_str str (fun x => x <| namex := b |> <| curlen := int16 size |>));;
  mret str.

Definition str_append (str : Z) (s : option (list Z)) : M Z :=
  match s with
  | None => mret str
  | Some s => x ← load_str str; append_bytes str s (Z.of_nat (length s) + curlen x)
  end.
(** Copying a string behind itself in place overwrites the null that ends it. *)
Definition str_cat (str1 str2 : Z) : M Z :=
  if str2 =? NULL then mret str1
  else
    x1 ← load_str str1;
    x2 ← load_str str2;
    s ← str_string str2;
    if (str1 =? str2) && (curlen x1 + curlen x2 - 1 <=? maxlen x1) then fault
    else append_bytes str1 s (curlen x1 + curlen x2 - 1).

Fixpoint indent_loop (n : nat) (str : Z) : M unit :=
  match n with O => mret tt | S n' => str_append str (Some [9]);; indent_loop n' str end.
Definition strIndent (str indent : Z) : M unit :=
  str_append str (Some [10]);; indent_loop (Z.to_nat indent) str.

(** ** Names of generated identifiers *)

(** Decimal digits of an [int], as [%d] prints them. *)
Fixpoint digits (fuel : nat) (n : Z) : list Z :=
  match fuel with
  | O => []
  | S fuel' => if n <? 10 then [48 + n] else digits fuel' (n / 10) ++ [48 + n mod 10]
  end.
Definition print_int (n : Z) : list Z := if n <? 0 then 45 :: digits 10 (- n) else digits 10 n.
(** [sprintf] into the static array of 128 bytes. *)
Definition sprint128 (s : list Z) : M (list Z) := if Z.of_nat (length s) <? 128 then mret s else fault.
Definition make_typedef (prefix : list Z) (typecnt : Z) : M (list Z) :=
  sprint128 (prefix ++ [84; 89; 80; 69] ++ print_int typecnt).
Definition make_gvkey (prefix gvname : list Z) : M (list Z) := sprint128 (prefix ++ [75; 69; 89] ++ gvname).
Definition make_lgvw (prefix gvname : list Z) : M (list Z) := sprint128 (prefix ++ [76; 71; 86; 87] ++ gvname).
