(* ===== verification/MiscProps.v ===== *)
(** Theorems on the growing strings of the translator (compile/mpitrans/misc.c). *)
From S2P Require Import Prelude MiscTr.
Open Scope Z_scope.
#[local] Notation M := (Prelude.M misc).

(** The string at [p] is [t]. *)
Definition is_text (t : list Z) : Prop := Forall (fun c => c <> 0 /\ c <> uninit) t.
Definition str_is (s : misc) (p : Z) (t : list Z) : Prop :=
  p <> NULL /\ is_text t /\ exists x rest, strs s !! p = Some x /\ namex x = t ++ 0 :: rest /\
    curlen x = Z.of_nat (length t) + 1 /\ curlen x < 2 ^ 15 /\ maxlen x <= Z.of_nat (length (namex x)).

Lemma bytes_str_text t rest : is_text t -> bytes_str (t ++ 0 :: rest) = Some t.
Proof.
  induction 1 as [|c t [H0 H1] Ht IH]; [done|]. cbn. destruct (Z.eqb_spec c 0); [done|].
  destruct (Z.eqb_spec c uninit); [done|]. by rewrite IH.
Qed.

Lemma load_str_spec p x (s : misc) : strs s !! p = Some x -> load_str p s = Ret x s.
Proof. unfold load_str. mrun. by intros ->. Qed.
Lemma upd_str_spec p f x s : strs s !! p = Some x -> upd_str p f s = Ret tt (s <| strs := <[p := f x]> (strs s) |>).
Proof. unfold upd_str, load_str. mrun. by intros ->. Qed.
Lemma str_string_spec s p t : str_is s p t -> str_string p s = Ret t s.
Proof.
  intros (_ & Ht & x & rest & Hx & Hb & _). unfold str_string. rewrite (bind_Ret _ _ _ _ _ (load_str_spec _ _ _ Hx)), Hb.
  by rewrite bytes_str_text.
Qed.

(** Copying behind a prefix of known length. *)
Lemma strcpy_app pre post u (s : misc) off : off = Z.of_nat (length pre) -> (length u < length post)%nat ->
  strcpy (pre ++ post) off u s = Ret (pre ++ u ++ 0 :: drop (S (length u)) post) s.
Proof.
  intros -> Hl. unfold strcpy. rewrite length_app.
  assert (E : (0 <=? Z.of_nat (length pre)) && (Z.of_nat (length pre) + Z.of_nat (length u) <? Z.of_nat (length pre + length post)) = true).
  { apply andb_true_intro. split; [apply Z.leb_le; lia|apply Z.ltb_lt; lia]. }
  rewrite E. unfold mret, M_ret. f_equal.
  rewrite Nat2Z.id, take_app_length. f_equal. f_equal. cbn. f_equal.
  replace (length pre + length u + 1)%nat with (length pre + S (length u))%nat by lia. by rewrite drop_app_add.
Qed.

Lemma blocks_bounds n : 0 <= n < 2 ^ 31 -> n <= blocks n <= n + 127 /\ blocks n mod 128 = 0.
Proof.
  intros Hn. unfold blocks, STRBLK, uint32. rewrite (Z.mod_small (n + 128 - 1) (2 ^ 32)) by lia.
  pose proof (Z.div_mod (n + 128 - 1) 128 ltac:(lia)). pose proof (Z.mod_pos_bound (n + 128 - 1) 128 ltac:(lia)).
  rewrite Z.mod_small by lia. split; [lia|]. by rewrite Z.mod_mul.
Qed.

Lemma int16_small z : - 2 ^ 15 <= z < 2 ^ 15 -> int16 z = z.
Proof. intros H. unfold int16. rewrite Z.mod_small; lia. Qed.
Lemma int16_le z : 0 <= z -> int16 z <= z.
Proof. intros H. unfold int16. pose proof (Z.div_mod (z + 2 ^ 15) (2 ^ 16) ltac:(lia)). pose proof (Z.div_pos (z + 2 ^ 15) (2 ^ 16)). lia. Qed.
Lemma int16_large z : 2 ^ 15 <= z < 2 ^ 16 + 2 ^ 15 -> int16 z = z - 2 ^ 16.
Proof.
  intros H. unfold int16. assert (E : z + 2 ^ 15 = z - 2 ^ 15 + 1 * 2 ^ 16) by lia. rewrite E, Z.mod_add, Z.mod_small by lia. lia.
Qed.

Lemma new_bytes_spec n (s : misc) : 0 <= n -> new_bytes n s = Ret (replicate (Z.to_nat n) uninit) s.
Proof. intros H. unfold new_bytes. destruct (Z.ltb_spec n 0); [lia|done]. Qed.

(** What appending leaves, whatever became of the memory. *)
Lemma append_bytes_run p t u s n : str_is s p t -> n = Z.of_nat (length t) + Z.of_nat (length u) + 1 -> n < 2 ^ 31 - 128 ->
  exists x rest, append_bytes p u n s = Ret p (s <| strs := <[p := x]> (strs s) |>) /\
    namex x = t ++ u ++ 0 :: rest /\ curlen x = int16 n /\ maxlen x <= Z.of_nat (length (namex x)).
Proof.
  intros (Hp & Ht & x & rest & Hx & Hb & Hc & Hc2 & Hm) Hn Hmax.
  destruct (blocks_bounds n ltac:(lia)) as [Hbl _]. unfold append_bytes. rewrite (bind_Ret _ _ _ _ _ (load_str_spec _ _ _ Hx)).
  assert (Hoff : curlen x - 1 = Z.of_nat (length t)) by lia. rewrite Hoff.
  destruct (Z.ltb_spec (maxlen x) n) as [Hl|Hl].
  - assert (Em : int32 (blocks n) = blocks n) by (apply int32_id; unfold is_int32; lia). rewrite Em.
    rewrite bind_assoc, (bind_Ret _ _ _ _ _ (new_bytes_spec (blocks n) s ltac:(lia))).
    assert (Hst : str_string p s = Ret t s) by (apply str_string_spec; split; [done|]; split; [done|]; by exists x, rest).
    rewrite bind_assoc, (bind_Ret _ _ _ _ _ Hst).
    pose proof (strcpy_app [] (replicate (Z.to_nat (blocks n)) uninit) t s 0 eq_refl ltac:(rewrite length_replicate; lia)) as E1.
    rewrite bind_assoc, (bind_Ret _ _ _ _ _ E1). cbn [app].
    pose proof (strcpy_app t (0 :: drop (S (length t)) (replicate (Z.to_nat (blocks n)) uninit)) u s _ eq_refl
      ltac:(cbn [length]; rewrite length_drop, length_replicate; lia)) as E2.
    rewrite bind_assoc, (bind_Ret _ _ _ _ _ E2). rewrite (bind_Ret _ _ _ _ _ (upd_str_spec _ _ x s Hx)).
    eexists _, _. split; [done|]. cbn [namex curlen maxlen upd]. split; [done|]. split; [done|].
    etransitivity; [apply int16_le; lia|]. rewrite !length_app. cbn [length]. rewrite length_drop. cbn [length].
    rewrite length_drop, length_replicate. lia.
  - rewrite bind_assoc. rewrite Hb.
    pose proof (strcpy_app t (0 :: rest) u s _ eq_refl) as E. rewrite Hb, length_app in Hm. cbn [length] in *.
    rewrite (bind_Ret _ _ _ _ _ (E ltac:(lia))). rewrite (bind_Ret _ _ _ _ _ (upd_str_spec _ _ x s Hx)).
    eexists _, _. split; [done|]. cbn [namex curlen maxlen upd]. split; [done|]. split; [done|].
    rewrite !length_app. cbn [length]. rewrite length_drop. cbn [length]. lia.
Qed.

Lemma str_append_run p t u s : str_is s p t -> Z.of_nat (length t) + Z.of_nat (length u) + 1 < 2 ^ 31 - 128 ->
  str_append p (Some u) s = append_bytes p u (Z.of_nat (length t) + Z.of_nat (length u) + 1) s.
Proof.
  intros (_ & _ & x & rest & Hx & _ & Hc & _) _. unfold str_append. rewrite (bind_Ret _ _ _ _ _ (load_str_spec _ _ _ Hx)), Hc.
  f_equal. lia.
Qed.

Lemma is_text_app t u : is_text t -> is_text u -> is_text (t ++ u).
Proof. intros. by apply Forall_app. Qed.

Lemma append_bytes_spec p t u s n : str_is s p t -> is_text u -> n = Z.of_nat (length t) + Z.of_nat (length u) + 1 -> n < 2 ^ 15 ->
  exists s', append_bytes p u n s = Ret p s' /\ str_is s' p (t ++ u) /\ (exists x, s' = s <| strs := <[p := x]> (strs s) |>).
Proof.
  intros Hp Hu Hn Hb. destruct (append_bytes_run p t u s n Hp Hn ltac:(lia)) as (x & rest & E & Hbs & Hc & Hm).
  rewrite int16_small in Hc by lia. eexists. split; [exact E|]. split; [|by eexists]. destruct Hp as (Hp & Ht & _).
  split; [done|]. split; [by apply is_text_app|]. exists x, rest. cbn [strs upd]. rewrite lookup_insert_eq, <- app_assoc.
  split; [done|]. split; [done|]. rewrite Hc, length_app. repeat split; lia.
Qed.

(** ** The pool of strings *)

Fixpoint strchain (ss : gmap Z STR) (h : Z) (F : list Z) : Prop :=
  match F with [] => h = NULL | p :: F' => h = p /\ exists x, ss !! p = Some x /\ strchain ss (strnext x) F' end.
(** The strings that can be used again, and the heap they come from. *)
Record pool (s : misc) (F : list Z) : Prop := {
  po_chain : strchain (strs s) (freestrlist s) F;
  po_nodup : NoDup F;
  po_free : forall p, p ∈ F -> p <> NULL /\ exists x, strs s !! p = Some x /\ maxlen x <= Z.of_nat (length (namex x));
  po_brk : 0 < str_brk s /\ forall p, is_Some (strs s !! p) -> p < str_brk s
}.

Lemma strchain_frame ss p x h F : p ∉ F -> strchain ss h F -> strchain (<[p := x]> ss) h F.
Proof.
  revert h. induction F as [|q F IH]; intros h Hp; [done|]. intros (-> & y & Hy & Hc). split; [done|]. exists y.
  rewrite lookup_insert_ne by set_solver. split; [done|]. apply IH; [set_solver|done].
Qed.

(** A string outside of the list of those that can be used again may be written. *)
Lemma pool_write s F p x : pool s F -> p ∉ F -> is_Some (strs s !! p) -> pool (s <| strs := <[p := x]> (strs s) |>) F.
Proof.
  intros [H1 H2 H3 H4] Hp Hs. constructor; cbn.
  - by apply strchain_frame.
  - done.
  - intros q Hq. rewrite lookup_insert_ne by (by intros ->). by apply H3.
  - split; [exact (proj1 H4)|]. intros q Hq. apply (proj2 H4). destruct (decide (q = p)) as [->|]; [done|]. by rewrite lookup_insert_ne in Hq.
Qed.

Lemma str_is_other s s' p t : strs s' !! p = strs s !! p -> str_is s p t -> str_is s' p t.
Proof. intros E (? & ? & x & rest & Hx & ?). split; [done|]. split; [done|]. exists x, rest. by rewrite E. Qed.

Definition str_room (s : misc) (F : list Z) (n : nat) : Prop := str_brk s + 16 * Z.of_nat (n - length F) <= str_lim s.

Lemma blocks_len u : is_text u -> Z.of_nat (length u) < 2 ^ 15 - 128 ->
  int16 (Z.of_nat (length u) + 1) = Z.of_nat (length u) + 1 /\
  Z.of_nat (length u) + 1 <= int16 (blocks (Z.of_nat (length u) + 1)) < 2 ^ 15 /\
  int16 (blocks (Z.of_nat (length u) + 1)) = blocks (Z.of_nat (length u) + 1).
Proof.
  intros _ Hu. destruct (blocks_bounds (Z.of_nat (length u) + 1) ltac:(lia)) as [Hb Hm].
  assert (Hlt : blocks (Z.of_nat (length u) + 1) < 2 ^ 15).
  { pose proof (Z.div_mod (blocks (Z.of_nat (length u) + 1)) 128 ltac:(lia)). lia. }
  rewrite !int16_small by lia. lia.
Qed.

Lemma new_str_spec u s F n : pool s F -> str_room s F (S n) -> is_text u -> Z.of_nat (length u) < 2 ^ 15 - 128 ->
  exists p s', new_str (Some u) s = Ret p s' /\ str_is s' p u /\ pool s' (tail F) /\ str_room s' (tail F) n /\ p ∉ tail F /\
    (p ∈ F \/ strs s !! p = None) /\ (forall q, q <> p -> strs s' !! q = strs s !! q) /\ symnames s' = symnames s.
Proof.
  intros HP Hr Hu Hlen. destruct (blocks_len u Hu Hlen) as (E1 & E2 & E3). unfold new_str. 
  rewrite (bind_Ret get _ s s s eq_refl). rewrite E1. set (len := Z.of_nat (length u) + 1) in *. set (m := int16 (blocks len)) in *.
  assert (Hle : len = Z.of_nat (length u) + 1) by done.
  destruct F as [|p F].
  - rewrite (po_chain _ _ HP). change (negb (NULL =? NULL)) with false. cbv iota.
    rewrite (bind_Ret _ _ _ _ _ (new_bytes_spec m s ltac:(lia))).
    pose proof (strcpy_app [] (replicate (Z.to_nat m) uninit) u s 0 eq_refl ltac:(rewrite length_replicate; lia)) as E.
    rewrite (bind_Ret _ _ _ _ _ E). unfold str_room in Hr. cbn [length] in Hr.
    destruct (po_brk _ _ HP) as [Hb0 Hb]. set (b := str_brk s) in *. assert (Hbe : b = str_brk s) by done.
    assert (Hn : strs s !! b = None) by (destruct (strs s !! b) eqn:Es; [|done]; specialize (Hb b ltac:(by rewrite Es)); lia).
    eexists b, _. split.
    { unfold new_STR. mrun. destruct (Z.ltb_spec (str_lim s) (str_brk s + (2 * sizeof_ptr + 2 * 2) + 4)) as [Hl|_]; [|reflexivity].
      unfold sizeof_ptr in Hl. fold b in Hl. lia. }
    split; [|split; [|split; [|split; [apply not_elem_of_nil|split; [by right|split; [|done]]]]]].
    + split; [unfold NULL; lia|]. split; [done|]. eexists _, _. cbn [strs upd]. rewrite lookup_insert_eq. split; [done|].
      split; [done|]. cbn [curlen maxlen namex]. split; [done|]. split; [lia|]. rewrite !length_app. cbn [length]. rewrite length_drop, length_replicate. lia.
    + destruct HP as [H1 H2 H3 H4]. constructor; cbn -[sizeof_ptr]; try done; [by intros ? ?%elem_of_nil|]. unfold sizeof_ptr. split; [lia|]. intros q Hq. destruct (decide (q = b)) as [->|]; [lia|].
      rewrite lookup_insert_ne in Hq by done. apply (proj2 H4) in Hq. fold b in Hq. lia.
    + unfold str_room, sizeof_ptr. cbn. fold b. lia.
    + intros q Hq. cbn. by rewrite lookup_insert_ne.
  - destruct (po_chain _ _ HP) as (Hf & x & Hx & Hc). destruct (po_free _ _ HP p ltac:(left)) as (Hp0 & x' & Hx' & Hm).
    rewrite Hx in Hx'. injection Hx' as <-. rewrite Hf. destruct (Z.eqb_spec p NULL) as [?|_]; [done|]. cbn [negb].
    rewrite (bind_Ret _ _ _ _ _ (load_str_spec _ _ _ Hx)). set (s1 := s <| freestrlist := strnext x |>).
    rewrite (bind_Ret _ _ s tt s1) by done. rewrite (bind_Ret _ _ _ _ _ (upd_str_spec p _ x s1 Hx)).
    set (s2 := s1 <| strs := _ |>).
    assert (HF : p ∉ F) by (by destruct (proj1 (NoDup_cons _ _) (po_nodup _ _ HP))).
    assert (Hg : exists x3, when (maxlen x <? len) (b ← new_bytes m; upd_str p (fun x => x <| maxlen := m |> <| namex := b |>)) s2 =
      Ret tt (s <| freestrlist := strnext x |> <| strs := <[p := x3]> (strs s) |>) /\ curlen x3 = len /\
      maxlen x3 <= Z.of_nat (length (namex x3)) /\ len <= Z.of_nat (length (namex x3))).
    { assert (Hx2 : strs s2 !! p = Some (x <| curlen := len |>)) by apply lookup_insert_eq.
      destruct (Z.ltb_spec (maxlen x) len) as [Hl|Hl]; cbn [when].
      - rewrite (bind_Ret _ _ _ _ _ (new_bytes_spec m s2 ltac:(lia))).
        rewrite (upd_str_spec p _ _ s2 Hx2). eexists. split; [unfold s2; cbn; by rewrite insert_insert_eq|].
        cbn [curlen maxlen namex upd]. rewrite length_replicate. lia.
      - eexists. split; [reflexivity|]. cbn [curlen maxlen namex upd]. lia. }
    destruct Hg as (x3 & E & Hc3 & Hm3 & Hl3). rewrite (bind_Ret _ _ _ _ _ E). set (s3 := _ <| strs := _ |>).
    assert (Hx3 : strs s3 !! p = Some x3) by apply lookup_insert_eq. rewrite (bind_Ret _ _ _ _ _ (load_str_spec _ _ _ Hx3)).
    pose proof (strcpy_app [] (namex x3) u s3 0 eq_refl ltac:(lia)) as Ec. cbn [app] in Ec. rewrite (bind_Ret _ _ _ _ _ Ec).
    rewrite (bind_Ret _ _ _ _ _ (upd_str_spec p _ x3 s3 Hx3)). eexists p, _. split; [done|].
    assert (Hpool : pool (s <| freestrlist := strnext x |>) F).
    { destruct HP as [H1 H2 H3 H4]. apply NoDup_cons in H2 as [_ H2]. constructor; cbn; try done. intros q Hq. apply H3. by right. }
    split; [|split; [|split; [|split; [done|split; [left; left|split; [|done]]]]]].
    + split; [done|]. split; [done|]. eexists _, _. cbn [strs upd s3]. rewrite lookup_insert_eq. split; [done|].
      cbn [namex curlen maxlen upd]. split; [done|]. split; [by rewrite Hc3|]. split; [lia|].
      rewrite !length_app. cbn [length]. rewrite length_drop. lia.
    + cbn [tail]. assert (Hpool3 : pool s3 F) by (apply (pool_write _ F p x3 Hpool HF); by eexists).
      apply (pool_write _ F p _ Hpool3 HF). by eexists.
    + unfold str_room in *. cbn in *. lia.
    + intros q Hq. cbn. by rewrite !lookup_insert_ne.
Qed.

(** ** Theorems *)

(** A string that is used again later comes first. *)
Lemma del_str_spec s F p t : pool s F -> str_is s p t -> p ∉ F ->
  exists s', del_str p s = Ret tt s' /\ pool s' (p :: F) /\ (forall q, q <> p -> strs s' !! q = strs s !! q) /\
    symnames s' = symnames s /\ str_brk s' = str_brk s /\ str_lim s' = str_lim s.
Proof.
  intros HP (Hp & _ & x & rest & Hx & _ & _ & _ & Hm) HF. unfold del_str. destruct (Z.eqb_spec p NULL) as [?|_]; [done|].
  unfold gets. rewrite (bind_Ret _ _ s (freestrlist s) s) by done. rewrite (bind_Ret _ _ _ _ _ (upd_str_spec p _ x s Hx)).
  eexists. split; [done|]. destruct HP as [H1 H2 H3 H4]. split; [|split; [intros q Hq; cbn; by rewrite lookup_insert_ne|done]].
  constructor; cbn.
  - split; [done|]. eexists. split; [apply lookup_insert_eq|]. by apply strchain_frame.
  - by constructor.
  - intros q [->|Hq]%elem_of_cons.
    + split; [done|]. eexists. split; [apply lookup_insert_eq|]. exact Hm.
    + rewrite lookup_insert_ne by (by intros ->). by apply H3.
  - split; [exact (proj1 H4)|]. intros q Hq. apply (proj2 H4). destruct (decide (q = p)) as [->|]; [by eexists|]. by rewrite lookup_insert_ne in Hq.
Qed.

Lemma str_cat_spec s p q t u : str_is s p t -> str_is s q u -> p <> q ->
  Z.of_nat (length t) + Z.of_nat (length u) + 1 < 2 ^ 15 ->
  exists s' x, str_cat p q s = Ret p s' /\ str_is s' p (t ++ u) /\ s' = s <| strs := <[p := x]> (strs s) |>.
Proof.
  intros Hp Hq Hne Hb. pose proof Hp as (_ & _ & x & rest & Hx & _ & Hcx & _). pose proof Hq as (Hq0 & Hu & y & rest' & Hy & _ & Hcy & _).
  unfold str_cat. destruct (Z.eqb_spec q NULL) as [?|_]; [done|].
  rewrite (bind_Ret _ _ _ _ _ (load_str_spec _ _ _ Hx)), (bind_Ret _ _ _ _ _ (load_str_spec _ _ _ Hy)).
  rewrite (bind_Ret _ _ _ _ _ (str_string_spec _ _ _ Hq)). destruct (Z.eqb_spec p q) as [?|_]; [done|]. cbn [andb].
  rewrite Hcx, Hcy. destruct (append_bytes_spec p t u s (Z.of_nat (length t) + 1 + (Z.of_nat (length u) + 1) - 1) Hp Hu ltac:(lia) ltac:(lia))
    as (s' & E & Hs' & z & Hz). by exists s', z.
Qed.

(** The parser's way with strings: two tokens become one value. *)
Definition concat_tokens (u v w : list Z) : M (list Z) :=
  a ← new_str (Some u); b ← new_str (Some v);
  c ← str_cat a b; del_str b;; c ← str_append c (Some w); str_string c.

(** Growing strings hold what was put into them: a string made from a token, with
    another one and a literal appended, reads back as the three behind each other,
    whichever of them fit the memory they found and whichever had to move, and whatever
    strings were taken from the list of those that can be used again; the list stays
    well formed, and the strings of others are not touched. *)
Theorem strings_concat s F u v w : pool s F -> str_room s F 2 -> is_text u -> is_text v -> is_text w ->
  Z.of_nat (length u + length v + length w) < 2 ^ 15 - 128 ->
  exists s' F', concat_tokens u v w s = Ret (u ++ v ++ w) s' /\ pool s' F' /\
    (forall q, is_Some (strs s !! q) -> q ∉ F -> strs s' !! q = strs s !! q).
Proof.
  intros HP Hr Hu Hv Hw Hlen. unfold concat_tokens.
  destruct (new_str_spec u s F 1 HP Hr Hu ltac:(lia)) as (a & s1 & E1 & Ha1 & HP1 & Hr1 & HaF & HaN & Hk1 & _). rewrite (bind_Ret _ _ _ _ _ E1).
  destruct (new_str_spec v s1 _ 0 HP1 Hr1 Hv ltac:(lia)) as (b & s2 & E2 & Hb2 & HP2 & _ & HbF & HbN & Hk2 & _). rewrite (bind_Ret _ _ _ _ _ E2).
  assert (Hab : a <> b).
  { intros ->. destruct HbN as [?|Hn]; [done|]. destruct Ha1 as (_ & _ & x & rest & Hx & _). congruence. }
  assert (Ha2 : str_is s2 a u) by (eapply str_is_other; [by apply Hk2|done]).
  destruct (str_cat_spec s2 a b u v Ha2 Hb2 Hab ltac:(lia)) as (s3 & x & E3 & Ha3 & Es3). rewrite (bind_Ret _ _ _ _ _ E3).
  assert (HaF2 : a ∉ tail (tail F)) by (destruct F as [|? [|? ?]]; cbn in *; set_solver).
  assert (HP3 : pool s3 (tail (tail F))).
  { rewrite Es3. apply pool_write; [done|done|]. destruct Ha2 as (_ & _ & y & rest & Hy & _). by eexists. }
  assert (Hb3 : str_is s3 b v) by (eapply str_is_other; [|exact Hb2]; rewrite Es3; cbn; by rewrite lookup_insert_ne).
  destruct (del_str_spec s3 _ b v HP3 Hb3 HbF) as (s4 & E4 & HP4 & Hk4 & _). rewrite (bind_Ret _ _ _ _ _ E4).
  assert (Ha4 : str_is s4 a (u ++ v)) by (eapply str_is_other; [by apply Hk4|done]).
  destruct (append_bytes_spec a (u ++ v) w s4 _ Ha4 Hw eq_refl) as (s5 & E5 & Ha5 & y & Es5); [rewrite length_app; lia|].
  rewrite <- str_append_run in E5 by (done || (rewrite length_app; lia)). rewrite (bind_Ret _ _ _ _ _ E5).
  rewrite (str_string_spec _ _ _ Ha5), <- app_assoc. eexists s5, _. split; [done|]. split.
  - rewrite Es5. apply pool_write; [exact HP4|set_solver|]. destruct Ha4 as (_ & _ & z & rest & Hz & _). by eexists.
  - intros q [z Hq] HqF. assert (q <> a) by (intros ->; destruct HaN; congruence).
    assert (Hq1 : strs s1 !! q = Some z) by (by rewrite Hk1).
    assert (q <> b) by (intros ->; destruct HbN as [Hb'|?]; [apply HqF; destruct F; [done|by right]|congruence]).
    rewrite Es5. cbn. rewrite lookup_insert_ne, Hk4 by done. rewrite Es3. cbn. by rewrite lookup_insert_ne, Hk2, Hk1.
Qed.

Definition misc0 : misc := mkMisc 0 new_strbuf ∅ NULL 1000 2000.
Lemma misc0_pool : pool misc0 [].
Proof.
  constructor; cbn; try done; [by constructor|by intros ? ?%elem_of_nil|]. split; [lia|]. intros p [x Hx]. by rewrite lookup_empty in Hx.
Qed.

(** The second string is longer than a block: the first one has to move. *)
Lemma strings_concat_witness :
  pool misc0 [] /\
  exists s' F', concat_tokens [97; 98] (replicate 130 99) [100] misc0 = Ret ([97; 98] ++ replicate 130 99 ++ [100]) s' /\ pool s' F' /\
    (forall q, is_Some (strs misc0 !! q) -> q ∉ [] -> strs s' !! q = strs misc0 !! q).
Proof.
  split; [exact misc0_pool|].
  assert (Ht : forall c n, c <> 0 -> c <> -1 -> is_text (replicate n c)) by (intros c n ? ?; by apply Forall_replicate).
  apply (strings_concat misc0 [] [97; 98] (replicate 130 99) [100] misc0_pool);
    [vm_compute; done|repeat constructor; done|by apply Ht|repeat constructor; done|vm_compute; done].
Defined.

Lemma strcpy_before b off u (s : misc) : off < 0 -> strcpy b off u s = Fault.
Proof. intros H. unfold strcpy. by destruct (Z.leb_spec 0 off); [lia|]. Qed.

(** A string whose recorded length has become negative cannot be appended to. *)
Lemma append_negative p v s n x t : strs s !! p = Some x -> curlen x < 0 -> bytes_str (namex x) = Some t ->
  append_bytes p v n s = Fault.
Proof.
  intros Hx Hc Ht. unfold append_bytes. rewrite (bind_Ret _ _ _ _ _ (load_str_spec _ _ _ Hx)).
  assert (Hs : str_string p s = Ret t s) by (unfold str_string; rewrite (bind_Ret _ _ _ _ _ (load_str_spec _ _ _ Hx)); by rewrite Ht).
  destruct (maxlen x <? n).
  - rewrite bind_assoc. unfold mbind at 1, M_bind at 1, new_bytes. destruct (int32 (blocks n) <? 0); [done|].
    cbn [mret M_ret]. rewrite bind_assoc, (bind_Ret _ _ _ _ _ Hs), bind_assoc. unfold mbind at 1, M_bind at 1.
    unfold strcpy at 1. destruct (_ && _); [|done]. cbn [mret M_ret]. rewrite bind_assoc. unfold mbind at 1, M_bind at 1.
    by rewrite strcpy_before by lia.
  - rewrite bind_assoc. unfold mbind at 1, M_bind at 1. by rewrite strcpy_before by lia.
Qed.

(** Appending beyond 32767 bytes succeeds and reports nothing, but the length, a [short],
    becomes negative: whatever is appended next is written in front of the string. *)
Theorem str_append_overruns p t u s : str_is s p t -> is_text u ->
  2 ^ 15 <= Z.of_nat (length t) + Z.of_nat (length u) + 1 < 2 ^ 16 ->
  exists s', str_append p (Some u) s = Ret p s' /\ errmsgno s' = errmsgno s /\ forall v, str_append p (Some v) s' = Fault.
Proof.
  intros Hp Hu Hn. rewrite (str_append_run p t u s Hp) by lia.
  destruct (append_bytes_run p t u s _ Hp eq_refl ltac:(lia)) as (x & rest & E & Hb & Hc & Hm).
  rewrite int16_large in Hc by lia. eexists. split; [exact E|]. split; [done|]. intros v.
  unfold str_append. erewrite bind_Ret by (apply load_str_spec; cbn; apply lookup_insert_eq).
  eapply append_negative; [cbn; apply lookup_insert_eq|lia|]. rewrite Hb, app_assoc. apply bytes_str_text.
  apply is_text_app; [apply Hp|done].
Qed.
