(* ===== verification/Symbol.v ===== *)
(** The symbols of the source-to-source translator (compile/mpitrans/symbol.c): their
    table, the chains of declarations, the list of global variables a function uses, and
    the code generated for them. *)
From Stdlib Require Import String Ascii.
From S2P Require Import Prelude HashTab MiscTr.
Open Scope list_scope.

(** [Bool] and [STG_CLS]. *)
Definition FALSE : Z := 0.
Definition TRUE : Z := 1.
Definition UNKNOWN : Z := 2.
Definition EXTERN : Z := 1.
Definition STATIC : Z := 2.
Definition NONE : Z := 3.
Definition TYPEDEF : Z := 4.
Definition AUTO : Z := 5.
Definition SYS : Z := 7.
Definition ERR : Z := 8.

Record SYM := mkSYM {
  snext : Z; decltor : Z; name : Z; LEVEL : Z; isFunc : Z; isConst : Z; stg_cls : Z;
  initstr : Z; stype : Z; wrap_type : Z; isDup : Z
}.
#[export] Instance eta_sym : Eta SYM :=
  MkEta _ (fun r => mkSYM (snext r) (decltor r) (name r) (LEVEL r) (isFunc r) (isConst r) (stg_cls r)
                     (initstr r) (stype r) (wrap_type r) (isDup r)).
Definition sizeof_SYM : Z := 36.

(** A global variable the current function refers to. *)
Record LGL := mkLGL { ref : Z; lnext : Z }.
#[export] Instance eta_lgl : Eta LGL := MkEta _ (fun r => mkLGL (ref r) (lnext r)).

(** The variables of symbol.c, the symbols by user pointer, the list items by address,
    the components used, and what was written to the three files. *)
Record trans := mkTrans {
  sym_tab : HASH_TAB; syms : gmap Z SYM; freesymlist : Z;
  lgls : gmap Z LGL; lglist : Z; freelgl : Z; lgl_brk : Z; lgl_lim : Z;
  strings : misc; prefix : list Z; type_counter : Z; insert_counter : Z; indent_level : Z;
  INS : list Z; INIT : list Z; yyout : list Z
}.
#[export] Instance eta_trans : Eta trans :=
  MkEta _ (fun r => mkTrans (sym_tab r) (syms r) (freesymlist r) (lgls r) (lglist r) (freelgl r) (lgl_brk r) (lgl_lim r)
                     (strings r) (prefix r) (type_counter r) (insert_counter r) (indent_level r) (INS r) (INIT r) (yyout r)).
#[local] Notation M := (Prelude.M trans).

Definition on_tab {A} : Prelude.M HASH_TAB A -> M A := zoom sym_tab (fun t w => w <| sym_tab := t |>).
Definition on_strings {A} : Prelude.M misc A -> M A := zoom strings (fun m w => w <| strings := m |>).

Definition load_sym (p : Z) : M SYM := w ← get; or_fault (syms w !! p).
Definition upd_sym (p : Z) (f : SYM -> SYM) : M unit :=
  x ← load_sym p; modify (fun w => w <| syms := <[p := f x]> (syms w) |>).

(** [cmp] is [strcmp], of which only zero matters here. *)
Definition cmp (s1 s2 : list Z) : Z := if decide (s1 = s2) then 0 else 1.
(** [SYMSTR] of the symbol's name. *)
Definition sym_get_key (w : trans) (sym : Z) : option (list Z) :=
  x ← syms w !! sym; sb_read (symnames (strings w)) (name x).
Definition SYMSTR (sym : Z) : M (list Z) := w ← get; or_fault (sym_get_key w sym).

Definition symtab_init (avail : bool) : M bool := on_tab (maketab 1021 avail).

Definition find_sym (key : list Z) : M Z := w ← get; on_tab (findsym hash_add cmp (sym_get_key w) key).
Definition add_sym (sym : Z) : M Z := w ← get; on_tab (addsym hash_add (sym_get_key w) sym).
Definition del_sym (sym : Z) : M unit := on_tab (delsym sym).

(** ** Making and discarding symbols *)

Definition new_SYM (nm : list Z) (level : Z) : M Z :=
  w ← get;
  symp ← (if negb (freesymlist w =? NULL) then
            x ← load_sym (freesymlist w);
            modify (fun w => w <| freesymlist := snext x |>);; mret (freesymlist w)
          else
            p ← on_tab (newsym sizeof_SYM);
            (if p =? NULL then mret tt
             else modify (fun w => w <| syms := <[p := mkSYM 0 0 0 0 0 0 0 0 0 0 0]> (syms w) |>));;
            mret p);
  off ← on_strings (sb_alloc (Z.of_nat (length nm) + 1));
  upd_sym symp (fun x => x <| name := off |>);;
  on_strings (sb_strcpy off nm);;
  upd_sym symp (fun x => x <| LEVEL := int16 level |> <| decltor := NULL |> <| stg_cls := ERR |> <| isFunc := UNKNOWN |>
                           <| isConst := UNKNOWN |> <| initstr := NULL |> <| snext := NULL |>);;
  mret symp.

Definition discard_SYM (symp : Z) : M unit :=
  x ← load_sym symp;
  when (negb (decltor x =? NULL)) (on_strings (del_str (decltor x));; upd_sym symp (fun x => x <| decltor := NULL |>));;
  when (negb (initstr x =? NULL)) (on_strings (del_str (initstr x));; upd_sym symp (fun x => x <| initstr := NULL |>));;
  f ← gets freesymlist;
  upd_sym symp (fun x => x <| snext := f |>);;
  modify (fun w => w <| freesymlist := symp |>).

Definition add_SYM (sym : Z) : M unit :=
  key ← SYMSTR sym;
  exists_ ← find_sym key;
  fresh ← (if exists_ =? NULL then mret true
           else e ← load_sym exists_; x ← load_sym sym; mret (negb (LEVEL e =? LEVEL x)));
  if fresh : bool then add_sym sym;; upd_sym sym (fun x => x <| isDup := FALSE |>)
  else upd_sym sym (fun x => x <| isDup := TRUE |>).

(** Loops along [next]: a chain has no more symbols than there are. *)
Definition sym_fuel (w : trans) : nat := S (base.size (syms w)).

Fixpoint add_loop (fuel : nat) (first new : Z) : M unit :=
  match fuel with
  | O => stuck
  | S fuel' =>
      if new =? NULL then mret tt
      else
        key ← SYMSTR new;
        exists_ ← find_sym key;
        (if exists_ =? NULL then mret tt
         else
           e ← load_sym exists_; x ← load_sym first;
           if LEVEL e =? LEVEL x then on_strings yyerror else mret tt);;
        add_sym new;;
        upd_sym new (fun x => x <| isDup := FALSE |>);;
        x ← load_sym new;
        add_loop fuel' first (snext x)
  end.
Definition add_SYMs_to_table (s : Z) : M Z := w ← get; add_loop (sym_fuel w) s s;; mret s.

Fixpoint reverse_loop (fuel : nat) (previous current : Z) : M Z :=
  match fuel with
  | O => stuck
  | S fuel' =>
      if current =? NULL then mret previous
      else
        x ← load_sym current;
        upd_sym current (fun x => x <| snext := previous |>);;
        reverse_loop fuel' current (snext x)
  end.
Definition reverse_symlink (sym : Z) : M Z :=
  if sym =? NULL then mret NULL
  else
    x ← load_sym sym;
    w ← get;
    p ← reverse_loop (sym_fuel w) sym (snext x);
    upd_sym sym (fun x => x <| snext := NULL |>);;
    mret p.

Fixpoint discard_loop (fuel : nat) (sym : Z) : M unit :=
  match fuel with
  | O => stuck
  | S fuel' =>
      if sym =? NULL then mret tt
      else
        x ← load_sym sym;
        when (isDup x =? FALSE) (del_sym sym);;
        discard_SYM sym;;
        discard_loop fuel' (snext x)
  end.
Definition discard_SYM_chain (sym : Z) : M unit := w ← get; discard_loop (sym_fuel w) sym.

(** ** Global variables a function uses *)

Definition load_lgl (p : Z) : M LGL := w ← get; or_fault (lgls w !! p).
Definition upd_lgl (p : Z) (f : LGL -> LGL) : M unit :=
  x ← load_lgl p; modify (fun w => w <| lgls := <[p := f x]> (lgls w) |>).
Definition lgl_fuel (w : trans) : nat := S (base.size (lgls w)).

Fixpoint seen_loop (fuel : nat) (sym p : Z) : M (option Z) :=
  match fuel with
  | O => stuck
  | S fuel' =>
      if p =? NULL then mret None
      else x ← load_lgl p; if sym =? ref x then mret (Some p) else seen_loop fuel' sym (lnext x)
  end.
Definition new_LGL (sym : Z) : M Z :=
  w ← get;
  seen ← seen_loop (lgl_fuel w) sym (lglist w);
  match seen with
  | Some p => mret p
  | None =>
      lglp ← (if negb (freelgl w =? NULL) then
                x ← load_lgl (freelgl w);
                modify (fun w => w <| freelgl := lnext x |>);; mret (freelgl w)
              else if lgl_lim w <? lgl_brk w + 8 then mret NULL
              else
                modify (fun w => w <| lgl_brk := lgl_brk w + 8 |> <| lgls := <[lgl_brk w := mkLGL 0 0]> (lgls w) |>);;
                mret (lgl_brk w));
      upd_lgl lglp (fun x => x <| ref := sym |>);;
      upd_lgl lglp (fun x => x <| lnext := lglist w |>);;
      modify (fun w => w <| lglist := lglp |>);;
      mret lglp
  end.

Fixpoint last_lgl (fuel : nat) (p : Z) : M Z :=
  match fuel with
  | O => stuck
  | S fuel' => x ← load_lgl p; if lnext x =? NULL then mret p else last_lgl fuel' (lnext x)
  end.
Definition discard_LGL_chain : M unit :=
  w ← get;
  if lglist w =? NULL then mret tt
  else
    p ← last_lgl (lgl_fuel w) (lglist w);
    upd_lgl p (fun x => x <| lnext := freelgl w |>);;
    modify (fun w => w <| freelgl := lglist w |> <| lglist := NULL |>).

(** ** Generated code *)

Definition txt (s : string) : list Z := (fun a => Z.of_N (N_of_ascii a)) <$> list_ascii_of_string s.
Definition TAB : list Z := [9].
Definition NL : list Z := [10].
Definition to_INS (s : list (list Z)) : M unit := modify (fun w => w <| INS := INS w ++ concat s |>).
Definition to_INIT (s : list (list Z)) : M unit := modify (fun w => w <| INIT := INIT w ++ concat s |>).
Definition emitCode (s : list (list Z)) : M unit := modify (fun w => w <| yyout := yyout w ++ concat s |>).
Definition setIndent (indent : Z) : M unit := emitCode (NL :: replicate (Z.to_nat indent) TAB).

(** The names generated from a symbol. *)
Definition typedef_of (x : SYM) : M (list Z) := w ← get; on_strings (make_typedef (prefix w) (stype x)).
Definition gvkey_of (nm : list Z) : M (list Z) := w ← get; on_strings (make_gvkey (prefix w) nm).
Definition lgvw_of (nm : list Z) : M (list Z) := w ← get; on_strings (make_lgvw (prefix w) nm).

Fixpoint lgvw_loop (fuel : nat) (p : Z) : M unit :=
  match fuel with
  | O => stuck
  | S fuel' =>
      if p =? NULL then mret tt
      else
        l ← load_lgl p;
        x ← load_sym (ref l);
        nm ← SYMSTR (ref l);
        key ← gvkey_of nm; lg ← lgvw_of nm; ty ← typedef_of x;
        to_INS [TAB; ty; txt " *"; lg; txt "=thrMPI_getval("; key; txt ");"; NL];;
        lgvw_loop fuel' (lnext l)
  end.
Definition lgvw_gen : M unit :=
  w ← get;
  to_INS [txt "# if ("; prefix w; txt "=="; print_int (insert_counter w); txt ")"; NL];;
  modify (fun w => w <| insert_counter := int32 (insert_counter w + 1) |>);;
  lgvw_loop (lgl_fuel w) (lglist w);;
  to_INS [txt "# endif"; NL; NL];;
  discard_LGL_chain.

(** The code for one local static variable. *)
Definition init_one (sym : Z) (x : SYM) : M unit :=
  w ← get;
  let lev := indent_level w in
  symname ← SYMSTR sym;
  symtype ← typedef_of x; symlgvw ← lgvw_of symname; symkey ← gvkey_of symname;
  let init := negb (initstr x =? NULL) in
  setIndent lev;; emitCode [txt "if ("; symkey; txt "==-1) {"];;
  setIndent (lev + 1);; emitCode [txt "int tmpkey;"];;
  setIndent (lev + 1);; emitCode [txt "tmpkey=thrMPI_createkey();"];;
  setIndent (lev + 1);; emitCode [txt "__compare_and_swap(&"; symkey; txt ", -1, tmpkey);"];;
  setIndent lev;; emitCode [txt "}"];;
  setIndent lev;; emitCode [txt "if (("; symlgvw; txt "=thrMPI_getval("; symkey; txt "))==0) {"];;
  when init
    (setIndent (lev + 1);; s ← on_strings (str_string (initstr x)); emitCode [symtype; txt " tmp="; s; txt ";"; NL]);;
  setIndent (lev + 1);;
  (if init then emitCode [symlgvw; txt "=("; symtype; txt " *)malloc(sizeof(tmp));"]
   else emitCode [symlgvw; txt "=("; symtype; txt " *)malloc(sizeof("; symtype; txt "));"]);;
  setIndent (lev + 1);; emitCode [txt "thrMPI_setval("; symkey; txt ", "; symlgvw; txt ");"];;
  when init
    (setIndent (lev + 1);;
     emitCode [txt "memcpy((char *)"; symlgvw; txt ", (char *)&tmp, sizeof(tmp));"];;
     on_strings (del_str (initstr x));;
     upd_sym sym (fun x => x <| initstr := NULL |>));;
  setIndent lev;; emitCode [txt "}"].

Fixpoint init_loop (fuel : nat) (sym : Z) : M unit :=
  match fuel with
  | O => stuck
  | S fuel' =>
      if sym =? NULL then mret tt
      else
        x ← load_sym sym;
        when ((stg_cls x =? STATIC) && (0 <? LEVEL x) && negb (isFunc x =? TRUE) && negb (isConst x =? TRUE)) (init_one sym x);;
        init_loop fuel' (snext x)
  end.
Definition init_localstatic (symlink : Z) : M unit := w ← get; init_loop (sym_fuel w) symlink.

Definition sym_init (sym : Z) (init : option (list Z)) : M unit :=
  x ← load_sym sym;
  if stg_cls x =? EXTERN then mret tt
  else
    to_INIT [TAB; txt "do {"; NL];;
    symname ← typedef_of x;
    (match init with Some s => to_INIT [TAB; TAB; symname; txt " tmp="; s; txt ";"; NL] | None => mret tt end);;
    nm ← SYMSTR sym;
    symname2 ← gvkey_of nm;
    to_INIT [TAB; TAB; symname; txt " *tmp2;"; NL];;
    to_INIT [NL];;
    to_INIT [TAB; TAB; txt "if ((tmp2=thrMPI_getval("; symname2; txt "))==0) {"; NL];;
    (match init with
     | Some _ => to_INIT [TAB; TAB; TAB; txt "tmp2=("; symname; txt " *)malloc(sizeof(tmp));"; NL]
     | None => to_INIT [TAB; TAB; TAB; txt "tmp2=("; symname; txt " *)malloc(sizeof("; symname; txt "));"; NL]
     end);;
    to_INIT [TAB; TAB; TAB; txt "thrMPI_setval("; symname2; txt ", tmp2);"; NL];;
    to_INIT [TAB; TAB; txt "}"; NL];;
    (match init with
     | Some _ => to_INIT [TAB; TAB; txt "memcpy((char *)tmp2, (char *)&tmp, sizeof(tmp));"; NL]
     | None => mret tt
     end);;
    to_INIT [TAB; txt "} while(0);"; NL].
