(* ===== verification/SymRep.v ===== *)
(** What the symbols of the translator represent: the bindings of the scopes, the last
    one first; and what each routine does to them. *)
From S2P Require Import Prelude HashTab HashRep MiscTr Symbol.
Open Scope Z_scope.
#[local] Notation M := (Prelude.M trans).

(** ** Names in the buffer *)

Definition is_name (nm : list Z) : Prop := Forall (fun c => c <> 0) nm.

Lemma cstr_frame fuel m m' a s : (forall i, a <= i <= a + Z.of_nat (length s) -> m' !! i = m !! i) ->
  cstr fuel m a = Some s -> cstr fuel m' a = Some s.
Proof.
  revert a s. induction fuel as [|fuel IH]; intros a s Hm; [done|]. cbn. intros H.
  rewrite Hm by lia. destruct (m !! a) as [c|]; [|done]. destruct (c =? 0); [done|].
  destruct (cstr fuel m (a + 1)) as [r|] eqn:E; [|done]. injection H as <-. rewrite (IH (a + 1) r); [done| |done].
  intros i Hi. apply Hm. cbn. lia.
Qed.

Lemma cstr_stored fuel m a nm : is_name nm -> (length nm < fuel)%nat -> cstr fuel (store_bytes m a (nm ++ [0])) a = Some nm.
Proof.
  revert fuel m a. induction nm as [|c nm IH]; intros fuel m a Hn Hf; (destruct fuel as [|fuel]; [cbn in Hf; lia|]).
  - cbn. by rewrite lookup_insert_eq.
  - apply Forall_cons in Hn as [Hc Hn]. cbn. rewrite store_bytes_out by lia. rewrite lookup_insert_eq.
    destruct (Z.eqb_spec c 0); [done|]. rewrite IH by (done || cbn in Hf; lia). done.
Qed.

Lemma cstr_length fuel m a s : cstr fuel m a = Some s -> (length s < fuel)%nat.
Proof.
  revert a s. induction fuel as [|fuel IH]; intros a s; cbn; [done|]. destruct (m !! a) as [c|]; [|done].
  destruct (c =? 0); [intros [= <-]; cbn; lia|]. destruct (cstr fuel m (a + 1)) as [r|] eqn:E; [|done].
  intros [= <-]. apply IH in E. cbn. lia.
Qed.

(** The name at an offset, below the limit [cur]. *)
Definition name_at (sb : StrBuf) (cur off : Z) (nm : list Z) : Prop :=
  0 <= off /\ off + Z.of_nat (length nm) < cur /\ sb_read sb off = Some nm.

(** The buffer keeps what is below the limit. *)
Lemma name_at_frame sb sb' cur off nm : (forall i, 0 <= i < cur -> buf sb' !! i = buf sb !! i) ->
  name_at sb cur off nm -> name_at sb' cur off nm.
Proof.
  intros Hm (H0 & H1 & H2). split; [done|]. split; [done|]. unfold sb_read in *.
  destruct ((0 <=? off) && (off <? STRBUF_SIZE)); [|done]. eapply cstr_frame; [|exact H2]. intros i Hi. apply Hm. lia.
Qed.

(** ** Chains of symbols *)

Fixpoint schain (ss : gmap Z SYM) (h : Z) (C : list Z) : Prop :=
  match C with
  | [] => h = NULL
  | p :: C' => h = p /\ p <> NULL /\ exists x, ss !! p = Some x /\ schain ss (snext x) C'
  end.

Lemma schain_frame ss ss' h C : (forall p, p ∈ C -> snext <$> ss' !! p = snext <$> ss !! p) -> schain ss h C -> schain ss' h C.
Proof.
  revert h. induction C as [|p C IH]; intros h Hf; [done|]. intros (-> & Hp & x & Hx & Hc). split; [done|]. split; [done|].
  specialize (Hf p ltac:(left)) as E. rewrite Hx in E. destruct (ss' !! p) as [x'|]; [|done]. injection E as E.
  exists x'. split; [done|]. rewrite E. apply IH; [|done]. intros q Hq. apply Hf. by right.
Qed.

Lemma schain_frame_notin ss p x h C : p ∉ C -> schain ss h C -> schain (<[p := x]> ss) h C.
Proof. intros Hp. apply schain_frame. intros q Hq. rewrite lookup_insert_ne; [done|]. by intros ->. Qed.

Lemma schain_is_Some ss h C p : schain ss h C -> p ∈ C -> p <> NULL /\ is_Some (ss !! p).
Proof.
  revert h. induction C as [|c C IH]; intros h; [by intros _ ?%elem_of_nil|]. cbn.
  intros (-> & ? & x & Hx & Hc) [->|Hp]%elem_of_cons; [split; [done|by eexists]|by eapply IH].
Qed.

Lemma NoDup_size (ss : gmap Z SYM) C : NoDup C -> (forall p, p ∈ C -> is_Some (ss !! p)) -> (length C <= base.size ss)%nat.
Proof.
  intros Hn H. rewrite <- size_dom, <- (size_list_to_set (C := gset Z) C) by done. apply subseteq_size.
  intros p Hp%elem_of_list_to_set. apply elem_of_dom. by apply H.
Qed.

(** ** The invariant *)

(** [L] are the buckets in the table, the last first; [F] the symbols that can be used
    again; [D] those that are neither. *)
Record tinv (w : trans) (L F D : list Z) : Prop := {
  ti_tab : tab_rep hash_add (sym_get_key w) (sym_tab w) L;
  ti_free : schain (syms w) (freesymlist w) F;
  ti_nodup : NoDup (F ++ D ++ (user_of <$> L));
  ti_syms : forall p, p ∈ F ++ D ++ (user_of <$> L) ->
    0 < header_of p /\ is_Some (buckets (sym_tab w) !! header_of p) /\ is_Some (syms w !! p);
  ti_names : forall p, p ∈ D ++ (user_of <$> L) -> exists x nm, syms w !! p = Some x /\
    name_at (symnames (strings w)) (current (symnames (strings w))) (name x) nm;
  ti_brk : 0 < brk (sym_tab w) /\ forall b, is_Some (buckets (sym_tab w) !! b) -> b < brk (sym_tab w);
  ti_stack : let s := stk (symnames (strings w)) in
    0 <= top s <= STACK_SIZE /\ limit s = STACK_SIZE /\ Z.of_nat (length (thestk s)) = STACK_SIZE;
  ti_cur : 0 <= current (symnames (strings w)) < 2 ^ 15
}.

Lemma user_header p : user_of (header_of p) = p.
Proof. unfold user_of, header_of. lia. Qed.

Lemma key_of_name w p x nm cur : syms w !! p = Some x -> name_at (symnames (strings w)) cur (name x) nm ->
  sym_get_key w p = Some nm.
Proof. intros Hx (_ & _ & H). unfold sym_get_key. rewrite Hx. exact H. Qed.

Lemma get_ret {A} (f : trans -> M A) w : (get ≫= f) w = f w w.
Proof. done. Qed.
Lemma load_sym_spec p x (w : trans) : syms w !! p = Some x -> load_sym p w = Ret x w.
Proof. unfold load_sym. mrun. by intros ->. Qed.
Lemma upd_sym_spec p f x w : syms w !! p = Some x -> upd_sym p f w = Ret tt (w <| syms := <[p := f x]> (syms w) |>).
Proof. unfold upd_sym, load_sym. mrun. by intros ->. Qed.

(** A symbol that is not in the free list may be written, if its name stays. *)
Lemma tinv_upd w L F D p f x : tinv w L F D -> p ∉ F -> syms w !! p = Some x -> (name (f x) = name x) ->
  tinv (w <| syms := <[p := f x]> (syms w) |>) L F D.
Proof.
  intros [H1 H2 H3 H4 H5 H6 H7 H8] Hp Hx Hn. constructor; cbn; try done.
  - eapply tab_rep_ext; [|exact H1]. intros b _. unfold sym_get_key. cbn.
    destruct (decide (user_of b = p)) as [->|Hne]; [by rewrite lookup_insert_eq, Hx; cbn; rewrite Hn|by rewrite lookup_insert_ne].
  - by apply schain_frame_notin.
  - intros q Hq. destruct (H4 q Hq) as (? & ? & ?). split; [done|]. split; [done|].
    destruct (decide (q = p)) as [->|Hne]; [rewrite lookup_insert_eq; by eexists|by rewrite lookup_insert_ne].
  - intros q Hq. destruct (H5 q Hq) as (y & nm & Hy & Hnm).
    destruct (decide (q = p)) as [->|Hne]; [|exists y, nm; by rewrite lookup_insert_ne].
    rewrite Hx in Hy. injection Hy as <-. exists (f x), nm. by rewrite lookup_insert_eq, Hn.
Qed.

(** ** Bindings *)

Definition binding (w : trans) (p : Z) : option (list Z * Z) :=
  x ← syms w !! p; nm ← sym_get_key w p; Some (nm, LEVEL x).
Definition bindings (w : trans) (L : list Z) : list (list Z * Z) := omap (fun b => binding w (user_of b)) L.
(** The binding of a name: the first of the list. *)
Definition bound (V : list (list Z * Z)) (key : list Z) : option (list Z * Z) :=
  head (filter (fun v => fst v = key) V).

Lemma cmp_eq s1 s2 : cmp s1 s2 = 0 <-> s1 = s2.
Proof. unfold cmp. case_decide; split; (done || lia). Qed.

Lemma find_sym_spec w L F D key : tinv w L F D ->
  find_sym key w = Ret (from_option user_of NULL (newest (sym_get_key w) key L)) w.
Proof.
  intros HI. unfold find_sym. rewrite get_ret. unfold on_tab. erewrite zoom_Ret.
  2:{ apply (findsym_rep hash_add cmp cmp_eq). apply HI. }
  by destruct w.
Qed.

Lemma newest_bound w L F D key : tinv w L F D ->
  (newest (sym_get_key w) key L ≫= fun b => binding w (user_of b)) = bound (bindings w L) key.
Proof.
  intros HI. pose proof (ti_names _ _ _ _ HI) as Hn.
  assert (HL : forall b, b ∈ L -> exists nm lev, sym_get_key w (user_of b) = Some nm /\ binding w (user_of b) = Some (nm, lev)).
  { intros b Hb. destruct (Hn (user_of b)) as (x & nm & Hx & Hnm); [set_solver|]. exists nm, (LEVEL x).
    pose proof (key_of_name _ _ _ _ _ Hx Hnm) as E. split; [done|]. unfold binding. by rewrite Hx; cbn; rewrite E. }
  clear HI Hn. unfold newest, bound, bindings. induction L as [|b L IH]; [done|].
  destruct (HL b ltac:(left)) as (nm & lev & E1 & E2). rewrite filter_cons. cbn [omap list_omap]. rewrite E2, filter_cons, E1. cbn [fst].
  destruct (decide (nm = key)) as [->|Hne].
  - rewrite decide_True by done. cbn. exact E2.
  - rewrite decide_False by congruence. apply IH. intros c Hc. apply HL. by right.
Qed.

(** ** Making a symbol *)

(** Memory for [n] symbols: those that can be used again, and the heap. *)
Definition room (w : trans) (F : list Z) (n : nat) : Prop :=
  brk (sym_tab w) + 48 * Z.of_nat (n - length F) <= lim (sym_tab w).

(** [p] is a symbol the invariant says nothing about. *)
Definition raw (w : trans) (L F D : list Z) (p : Z) : Prop :=
  p ∉ F ++ D ++ (user_of <$> L) /\ 0 < header_of p /\ is_Some (buckets (sym_tab w) !! header_of p) /\ is_Some (syms w !! p).

(** The part of [new_SYM] that finds memory. *)
Definition sym_memory : M Z :=
  w ← get;
  if negb (freesymlist w =? NULL) then
    x ← load_sym (freesymlist w); modify (fun w => w <| freesymlist := snext x |>);; mret (freesymlist w)
  else
    p ← on_tab (newsym sizeof_SYM);
    (if p =? NULL then mret tt else modify (fun w => w <| syms := <[p := mkSYM 0 0 0 0 0 0 0 0 0 0 0]> (syms w) |>));;
    mret p.

Lemma tab_rep_bigger get_key t L b n : tab_rep hash_add get_key t L -> b ∉ L ->
  tab_rep hash_add get_key (t <| brk := n |> <| buckets := <[b := mkBucket NULL NoSlot]> (buckets t) |>) L.
Proof.
  intros [H1 H2 H3 H4 H5 H6 H7] Hb. constructor; try done. intros i Hi. destruct (H7 i Hi) as (h & Hh & Hc).
  exists h. split; [done|]. cbn. eapply bucket_chain_frame; [|exact Hc]. intros c Hc'. rewrite lookup_insert_ne; [done|].
  intros <-. by apply elem_of_in_place in Hc'.
Qed.

Lemma tinv_mono_names w L F D p : tinv w L F D -> p ∈ F ++ D ++ (user_of <$> L) -> header_of p < brk (sym_tab w).
Proof. intros HI Hp. destruct (ti_syms _ _ _ _ HI p Hp) as (_ & Hb & _). by apply (ti_brk _ _ _ _ HI). Qed.

Lemma sym_memory_spec w L F D n : tinv w L F D -> room w F (S n) ->
  exists p w1, sym_memory w = Ret p w1 /\ tinv w1 L (tail F) D /\ raw w1 L (tail F) D p /\ p <> NULL /\
    strings w1 = strings w /\ (forall q, q ∈ F ++ D ++ (user_of <$> L) -> syms w1 !! q = syms w !! q) /\ room w1 (tail F) n.
Proof.
  intros HI Hr. pose proof HI as [H1 H2 H3 H4 H5 H6 H7 H8]. unfold sym_memory. rewrite get_ret. destruct F as [|p F].
  - cbn in H2. rewrite H2. cbn [Z.eqb negb NULL]. unfold room in Hr. cbn [length] in Hr.
    set (t := sym_tab w) in *. set (b := brk t) in *.
    assert (Hb : buckets t !! b = None) by (destruct (buckets t !! b) eqn:E; [|done]; pose proof (proj2 H6 b); rewrite E in H; specialize (H ltac:(by eexists)); lia).
    assert (Hnot : user_of b ∉ [] ++ D ++ (user_of <$> L)).
    { intros Hin. destruct (H4 _ Hin) as (_ & [k Hk] & _). rewrite header_user in Hk. congruence. }
    set (w0 := w <| sym_tab := t <| brk := b + 48 |> <| buckets := <[b := mkBucket NULL NoSlot]> (buckets t) |> |>).
    assert (E : on_tab (newsym sizeof_SYM) w = Ret (user_of b) w0).
    { unfold on_tab, zoom, newsym. mrun. fold t. destruct (Z.ltb_spec (lim t) (brk t + (sizeof_SYM + sizeof_BUCKET + 7) / 8 * 8)) as [Hl|_]; [|done].
      change ((sizeof_SYM + sizeof_BUCKET + 7) / 8 * 8) with 48 in Hl. lia. }
    rewrite (bind_Ret _ _ _ _ _ E). assert (Hu : user_of b <> NULL) by (unfold user_of, sizeof_BUCKET, sizeof_ptr, NULL; lia).
    replace (user_of b =? NULL) with false by lia. eexists (user_of b), _. split; [done|].
    assert (Hin : forall q, q ∈ D ++ (user_of <$> L) -> q <> user_of b) by (intros q Hq ->; by apply Hnot).
    assert (Hkeep : forall q, q ∈ D ++ (user_of <$> L) ->
      <[user_of b := mkSYM 0 0 0 0 0 0 0 0 0 0 0]> (syms w) !! q = syms w !! q).
    { intros q Hq. rewrite lookup_insert_ne; [done|]. intros Ep. by apply (Hin q). }
    assert (Hbk : forall c, is_Some (buckets t !! c) -> is_Some (<[b := mkBucket NULL NoSlot]> (buckets t) !! c)).
    { intros c Hc. destruct (decide (c = b)) as [->|?]; [rewrite lookup_insert_eq; by eexists|by rewrite lookup_insert_ne]. }
    split; [|split; [|split; [done|split; [done|split; [exact Hkeep|]]]]].
    + constructor; cbn; try done.
      * eapply (tab_rep_ext _ (sym_get_key w)).
        -- intros c Hc. unfold sym_get_key. cbn. rewrite Hkeep; [done|set_solver].
        -- apply tab_rep_bigger; [done|]. intros Hb'. apply (Hin (user_of b)); [set_solver|done].
      * intros q Hq. destruct (H4 q Hq) as (? & ? & ?). rewrite Hkeep by done. split; [done|]. split; [by apply Hbk|done].
      * intros q Hq. destruct (H5 q Hq) as (x & nm & ? & ?). exists x, nm. by rewrite Hkeep.
      * split; [lia|]. intros c. destruct (decide (c = b)) as [->|?]; [lia|]. rewrite lookup_insert_ne by done.
        intros Hc. apply (proj2 H6) in Hc. unfold b, t in *. lia.
    + split; [done|]. rewrite header_user. cbn. rewrite !lookup_insert_eq. split; [lia|]. split; by eexists.
    + unfold room. cbn. fold t b. lia.
  - destruct H2 as (Hf & Hp0 & x & Hx & Hc). subst p. destruct (Z.eqb_spec (freesymlist w) NULL) as [?|_]; [done|]. cbn [negb].
    rewrite (bind_Ret _ _ _ _ _ (load_sym_spec _ _ _ Hx)). eexists (freesymlist w), _. split; [done|].
    cbn in H3. apply NoDup_cons in H3 as [Hp3 H3]. cbn [tail].
    split; [|split; [|split; [done|split; [done|split; [done|]]]]].
    + constructor; cbn; try done. intros q Hq. apply H4. by right.
    + split; [done|]. apply (H4 (freesymlist w)). left.
    + unfold room in *. cbn in *. lia.
Qed.

(** ** Allocating a name *)

Lemma int16_id z : 0 <= z < 2 ^ 15 -> int16 z = z.
Proof. intros H. unfold int16. rewrite Z.mod_small; lia. Qed.
Lemma uint16_id z : 0 <= z < 2 ^ 16 -> uint16 z = z.
Proof. intros H. unfold uint16. by apply Z.mod_small. Qed.

Lemma sb_alloc_spec size s : 0 <= current (symnames s) -> 0 <= size -> current (symnames s) + size + 1 < 2 ^ 15 ->
  sb_alloc size s = Ret (current (symnames s))
    (s <| symnames := symnames s <| current := current (symnames s) + (size + 1) |> |>).
Proof.
  intros Hc Hs Hb. unfold sb_alloc. mrun. rewrite uint32_id by (unfold is_uint32; lia).
  destruct (Z.ltb_spec (current (symnames s) + size + 1) STRBUF_SIZE) as [_|H]; [|unfold STRBUF_SIZE in H; lia].
  by rewrite int16_id, uint16_id by lia.
Qed.

Lemma sb_strcpy_spec off nm s : 0 <= off -> off + Z.of_nat (length nm) < 2 ^ 15 ->
  sb_strcpy off nm s = Ret tt (s <| symnames := symnames s <| buf := store_bytes (buf (symnames s)) off (nm ++ [0]) |> |>).
Proof. intros H1 H2. unfold sb_strcpy. replace (_ && _) with true by (unfold STRBUF_SIZE; lia). done. Qed.

Lemma on_strings_Ret {A} (m : Prelude.M misc A) w a s : m (strings w) = Ret a s -> on_strings m w = Ret a (w <| strings := s |>).
Proof. unfold on_strings. intros E. by rewrite (zoom_Ret _ _ _ _ _ _ E). Qed.

(** The buffer after a name was added. *)
Definition with_name (sb : StrBuf) (nm : list Z) : StrBuf :=
  sb <| buf := store_bytes (buf sb) (current sb) (nm ++ [0]) |> <| current := current sb + Z.of_nat (length nm) + 2 |>.

Lemma with_name_below sb nm i : i < current sb -> buf (with_name sb nm) !! i = buf sb !! i.
Proof. intros Hi. cbn. apply store_bytes_out. lia. Qed.

Lemma with_name_new sb nm : is_name nm -> 0 <= current sb -> current sb + Z.of_nat (length nm) + 2 < 2 ^ 15 ->
  name_at (with_name sb nm) (current (with_name sb nm)) (current sb) nm.
Proof.
  intros Hn Hc Hb. split; [done|]. split; [cbn; lia|]. unfold sb_read, STRBUF_SIZE.
  replace ((0 <=? current sb) && (current sb <? 65000)) with true by lia. apply cstr_stored; [done|lia].
Qed.

Lemma new_SYM_memory nm level w : new_SYM nm level w =
  (symp ← sym_memory;
   off ← on_strings (sb_alloc (Z.of_nat (length nm) + 1));
   upd_sym symp (fun x => x <| name := off |>);;
   on_strings (sb_strcpy off nm);;
   upd_sym symp (fun x => x <| LEVEL := int16 level |> <| decltor := NULL |> <| stg_cls := ERR |> <| isFunc := UNKNOWN |>
                            <| isConst := UNKNOWN |> <| initstr := NULL |> <| snext := NULL |>);;
   mret symp) w.
Proof.
  unfold new_SYM, sym_memory. rewrite !get_ret. rewrite bind_assoc, get_ret. by destruct (negb (freesymlist w =? NULL)).
Qed.

Lemma name_at_more sb cur cur' off nm : cur <= cur' -> name_at sb cur off nm -> name_at sb cur' off nm.
Proof. intros Hc (? & ? & ?). split; [done|]. split; [lia|done]. Qed.


Lemma get_key_write w p x q : q <> p -> sym_get_key (w <| syms := <[p := x]> (syms w) |>) q = sym_get_key w q.
Proof. intros Hq. unfold sym_get_key. cbn. by rewrite lookup_insert_ne. Qed.

(** What the invariant says nothing about may be written. *)
Lemma tinv_write w L F D p x : tinv w L F D -> p ∉ F ++ D ++ (user_of <$> L) ->
  tinv (w <| syms := <[p := x]> (syms w) |>) L F D.
Proof.
  intros [H1 H2 H3 H4 H5 H6 H7 H8] Hp.
  assert (Hk : forall q, q ∈ F ++ D ++ (user_of <$> L) -> <[p := x]> (syms w) !! q = syms w !! q).
  { intros q Hq. rewrite lookup_insert_ne; [done|]. by intros ->. }
  constructor; cbn; try done.
  - eapply tab_rep_ext; [|exact H1]. intros b Hb. apply get_key_write. intros <-. apply Hp. set_solver.
  - apply schain_frame_notin; [set_solver|done].
  - intros q Hq. rewrite Hk by done. by apply H4.
  - intros q Hq. rewrite Hk by set_solver. by apply H5.
Qed.

(** A name more in the buffer. *)
Lemma tinv_name w L F D s nm : tinv w L F D -> symnames s = with_name (symnames (strings w)) nm ->
  current (symnames (strings w)) + Z.of_nat (length nm) + 2 < 2 ^ 15 -> tinv (w <| strings := s |>) L F D.
Proof.
  intros [H1 H2 H3 H4 H5 H6 H7 H8] Hs Hb.
  assert (Hn : forall p, p ∈ D ++ (user_of <$> L) -> exists x nm', syms w !! p = Some x /\
    name_at (symnames (strings w)) (current (symnames (strings w))) (name x) nm' /\
    name_at (symnames s) (current (symnames s)) (name x) nm').
  { intros p Hp. destruct (H5 p Hp) as (x & nm' & Hx & Hnm). exists x, nm'. split; [done|]. split; [done|]. rewrite Hs.
    apply name_at_more with (current (symnames (strings w))); [cbn; lia|].
    eapply name_at_frame; [|exact Hnm]. intros i Hi. apply with_name_below. lia. }
  constructor; cbn; try done.
  - eapply tab_rep_ext; [|exact H1]. intros b Hb'. destruct (Hn (user_of b)) as (x & nm' & Hx & Ha & Hb2); [set_solver|].
    rewrite (key_of_name w _ _ _ _ Hx Ha). exact (key_of_name (w <| strings := s |>) _ _ _ _ Hx Hb2).
  - intros p Hp. destruct (Hn p Hp) as (x & nm' & ? & _ & ?). by exists x, nm'.
  - rewrite Hs. cbn. apply H7.
  - rewrite Hs. cbn. lia.
Qed.

(** A symbol nobody knows is taken in hand. *)
Lemma tinv_take w L F D p x nm : tinv w L F D -> raw w L F D p -> syms w !! p = Some x ->
  name_at (symnames (strings w)) (current (symnames (strings w))) (name x) nm -> tinv w L F (p :: D).
Proof.
  intros [H1 H2 H3 H4 H5 H6 H7 H8] (Hp & Ha & Hb & Hc) Hx Hnm. constructor; try done.
  - apply NoDup_app in H3 as (? & Hd & ?). apply NoDup_app. split; [done|]. split.
    + intros q Hq. cbn. intros [->|Hq']%elem_of_cons; [set_solver|]. by apply (Hd q).
    + cbn. constructor; [set_solver|done].
  - intros q Hq. destruct (decide (q = p)) as [->|Hne]; [done|]. apply H4. set_solver.
  - intros q Hq. destruct (decide (q = p)) as [->|Hne]; [by exists x, nm|]. apply H5. set_solver.
Qed.

Lemma new_SYM_spec nm level w L F D n : tinv w L F D -> room w F (S n) -> is_name nm -> 0 <= level < 2 ^ 15 ->
  current (symnames (strings w)) + Z.of_nat (length nm) + 2 < 2 ^ 15 ->
  exists p w' x, new_SYM nm level w = Ret p w' /\ tinv w' L (tail F) (p :: D) /\ room w' (tail F) n /\ p <> NULL /\
    p ∉ tail F ++ D ++ (user_of <$> L) /\ syms w' !! p = Some x /\ LEVEL x = level /\ decltor x = NULL /\ initstr x = NULL /\
    sym_get_key w' p = Some nm /\ (forall q, q ∈ D ++ (user_of <$> L) -> syms w' !! q = syms w !! q) /\
    strings w' = strings w <| symnames := with_name (symnames (strings w)) nm |> /\ stg_cls x = ERR /\ isFunc x = UNKNOWN.
Proof.
  intros HI Hr Hnm Hlev Hroom. destruct (sym_memory_spec w L F D n HI Hr) as (p & w1 & E & HI1 & Hraw & Hp0 & Hs & Hkeep & Hr1).
  pose proof (ti_cur _ _ _ _ HI) as Hcur. destruct Hraw as (Hp & Hh & Hb & [x1 Hx1]).
  rewrite new_SYM_memory, (bind_Ret _ _ _ _ _ E).
  set (sb := symnames (strings w)) in *. set (off := current sb) in *.
  erewrite bind_Ret; [|apply on_strings_Ret, sb_alloc_spec; rewrite ?Hs; fold sb; lia].
  rewrite Hs. fold sb off. set (m2 := strings w <| symnames := _ |>).
  erewrite bind_Ret; [|apply upd_sym_spec; exact Hx1].
  erewrite bind_Ret; [|apply on_strings_Ret, sb_strcpy_spec; lia].
  erewrite bind_Ret; [|apply upd_sym_spec; cbn; apply lookup_insert_eq]. 
  set (m3 := strings w <| symnames := with_name sb nm |>).
  set (x3 := x1 <| name := off |> <| LEVEL := int16 level |> <| decltor := NULL |> <| stg_cls := ERR |> <| isFunc := UNKNOWN |>
                <| isConst := UNKNOWN |> <| initstr := NULL |> <| snext := NULL |>).
  set (w' := (w1 <| strings := m3 |>) <| syms := <[p := x3]> (syms w1) |>).
  assert (HI2 : tinv w' L (tail F) D).
  { change w' with ((w1 <| strings := m3 |>) <| syms := <[p := x3]> (syms (w1 <| strings := m3 |>)) |>).
    apply tinv_write; [|done]. apply tinv_name with nm; [done| |].
    - by rewrite Hs.
    - rewrite Hs. fold sb. lia. }
  assert (Hx3 : syms w' !! p = Some x3) by apply lookup_insert_eq.
  assert (Hname : name_at (symnames (strings w')) (current (symnames (strings w'))) (name x3) nm).
  { cbn [strings upd w']. change (symnames (strings w')) with (with_name sb nm). apply with_name_new; [done|lia|lia]. }
  exists p, w', x3. split.
  { unfold mret, M_ret. f_equal. unfold w', m3, m2, with_name. fold off.
    replace (off + (Z.of_nat (length nm) + 1 + 1)) with (off + Z.of_nat (length nm) + 2) by lia. cbn. by rewrite insert_insert_eq. }
  split; [|split; [|split; [done|split; [done|split; [done|]]]]].
  - apply tinv_take with x3 nm; [done| |done|done]. split; [done|]. split; [done|]. split; [done|by eexists].
  - exact Hr1.
  - split; [by apply int16_id|]. split; [done|]. split; [done|]. split; [by apply (key_of_name w' p x3 nm _ Hx3 Hname)|].
    split; [|done].
    intros q Hq. cbn. rewrite lookup_insert_ne by (intros ->; apply Hp; set_solver). apply Hkeep. set_solver.
Qed.

(** ** Declaring *)

(** What [add_SYM] does to the bindings. *)
Definition declared (V : list (list Z * Z)) (nm : list Z) (level : Z) : list (list Z * Z) :=
  match bound V nm with
  | Some (_, l) => if l =? level then V else (nm, level) :: V
  | None => (nm, level) :: V
  end.

Lemma bindings_ext w w' L : (forall b, b ∈ L -> binding w' (user_of b) = binding w (user_of b)) -> bindings w' L = bindings w L.
Proof.
  unfold bindings. induction L as [|b L IH]; intros H; [done|]. cbn. rewrite (H b) by left. rewrite IH; [done|].
  intros c Hc. apply H. by right.
Qed.

(** The symbol and its name are the same in both states. *)
Definition same_sym (w w' : trans) (p : Z) : Prop :=
  syms w' !! p = syms w !! p /\ sym_get_key w' p = sym_get_key w p.
Lemma same_sym_binding w w' p : same_sym w w' p -> binding w' p = binding w p.
Proof. intros [H1 H2]. unfold binding. by rewrite H1, H2. Qed.

Lemma SYMSTR_spec p nm w : sym_get_key w p = Some nm -> SYMSTR p w = Ret nm w.
Proof. unfold SYMSTR. mrun. by intros ->. Qed.

Lemma bound_binding w p x nm : syms w !! p = Some x -> sym_get_key w p = Some nm -> binding w p = Some (nm, LEVEL x).
Proof. intros Hx Hk. unfold binding. by rewrite Hx; cbn; rewrite Hk. Qed.

Lemma binding_inv w p nm l : binding w p = Some (nm, l) -> exists x, syms w !! p = Some x /\ LEVEL x = l.
Proof.
  unfold binding. destruct (syms w !! p) as [x|]; [|done]. cbn. destruct (sym_get_key w p); [|done]. cbn. intros [= _ <-].
  by exists x.
Qed.

(** The symbol in hand goes into the table. *)
Lemma tinv_added w L F D p t : tinv w L F (p :: D) -> tab_rep hash_add (sym_get_key w) t (header_of p :: L) ->
  keeps (header_of p :: L) (sym_tab w) t -> tinv (w <| sym_tab := t |>) (header_of p :: L) F D.
Proof.
  intros [H1 H2 H3 H4 H5 H6 H7 H8] Ht (K1 & K2 & K3 & K4 & K5).
  assert (Hperm : F ++ D ++ (user_of <$> header_of p :: L) ≡ₚ F ++ (p :: D) ++ (user_of <$> L)).
  { rewrite fmap_cons, user_header. apply Permutation_app_head. cbn. by rewrite Permutation_middle. }
  constructor.
  - exact Ht.
  - done.
  - by rewrite Hperm.
  - intros q Hq. rewrite Hperm in Hq.
    destruct (H4 q Hq) as (? & ? & ?). split; [done|]. split; [by apply K5|done].
  - intros q Hq. apply H5. rewrite fmap_cons, user_header in Hq. set_solver.
  - cbn [sym_tab upd]. rewrite K2. split; [exact (proj1 H6)|]. intros b Hb. destruct (decide (b ∈ header_of p :: L)) as [Hin|Hin].
    + apply (proj2 H6). destruct (H4 (user_of b)) as (_ & Hs & _); [|by rewrite header_user in Hs].
      rewrite <- Hperm. apply elem_of_app. right. apply elem_of_app. right. by apply list_elem_of_fmap_2.
    + apply (proj2 H6). by rewrite <- K4.
  - done.
  - done.
Qed.

Lemma add_SYM_spec w L F D p x nm : tinv w L F (p :: D) -> syms w !! p = Some x -> sym_get_key w p = Some nm ->
  exists w' d, add_SYM p w = Ret tt w' /\ syms w' = <[p := x <| isDup := d |>]> (syms w) /\ strings w' = strings w /\
    brk (sym_tab w') = brk (sym_tab w) /\ lim (sym_tab w') = lim (sym_tab w) /\
    (d = TRUE /\ tinv w' L F (p :: D) /\ declared (bindings w L) nm (LEVEL x) = bindings w L \/
     d = FALSE /\ tinv w' (header_of p :: L) F D /\ declared (bindings w L) nm (LEVEL x) = (nm, LEVEL x) :: bindings w L).
Proof.
  intros HI Hx Hk. pose proof (newest_bound w L F (p :: D) nm HI) as Hnb. unfold declared.
  unfold add_SYM. rewrite (bind_Ret _ _ _ _ _ (SYMSTR_spec _ _ _ Hk)), (bind_Ret _ _ _ _ _ (find_sym_spec w L F _ nm HI)).
  pose proof (ti_nodup _ _ _ _ HI) as Hnd. 
  assert (HpF : p ∉ F) by (intros Hp; apply NoDup_app in Hnd as (_ & Hd & _); apply (Hd p Hp); left).
  assert (HpL : header_of p ∉ L).
  { intros Hp. apply NoDup_app in Hnd as (_ & _ & Hnd). cbn in Hnd. apply NoDup_cons in Hnd as [Hn _]. apply Hn.
    apply elem_of_app. right. rewrite <- (user_header p). by apply list_elem_of_fmap_2. }
  assert (Hadd : exists w', (add_sym p;; upd_sym p (fun x => x <| isDup := FALSE |>)) w = Ret tt w' /\
    syms w' = <[p := x <| isDup := FALSE |>]> (syms w) /\ strings w' = strings w /\
    brk (sym_tab w') = brk (sym_tab w) /\ lim (sym_tab w') = lim (sym_tab w) /\ tinv w' (header_of p :: L) F D).
  { destruct (ti_syms _ _ _ _ HI p) as (Hp0 & Hb & _); [set_solver|].
    destruct (addsym_rep hash_add cmp cmp_eq (sym_get_key w) (sym_tab w) L (header_of p) nm (ti_tab _ _ _ _ HI) HpL Hp0 Hb) as (t & E & Ht & HK);
      [by rewrite user_header|]. rewrite user_header in E.
    exists ((w <| sym_tab := t |>) <| syms := <[p := x <| isDup := FALSE |>]> (syms w) |>).
    assert (Ea : add_sym p w = Ret p (w <| sym_tab := t |>)) by (unfold add_sym, on_tab; rewrite get_ret; by rewrite (zoom_Ret _ _ _ _ _ _ E)).
    rewrite (bind_Ret _ _ _ _ _ Ea). split; [by rewrite (upd_sym_spec p _ x)|]. split; [done|]. split; [done|].
    split; [apply HK|]. split; [apply HK|].
    pose proof (tinv_upd (w <| sym_tab := t |>) _ _ _ p (fun x => x <| isDup := FALSE |>) x (tinv_added _ _ _ _ _ _ HI Ht HK) HpF Hx eq_refl) as H.
    exact H. }
  destruct (newest (sym_get_key w) nm L) as [b|] eqn:En; cbn [from_option] in *.
  - assert (Hb : b ∈ L /\ sym_get_key w (user_of b) = Some nm).
    { unfold newest in En. apply head_Some_elem_of in En. apply list_elem_of_filter in En. tauto. }
    destruct Hb as [Hb Hbk]. cbn in Hnb. destruct (ti_names _ _ _ _ HI (user_of b)) as (y & nm' & Hy & _); [set_solver|].
    rewrite (bound_binding w _ _ _ Hy Hbk) in Hnb. rewrite <- Hnb.
    destruct (Z.eqb_spec (user_of b) NULL) as [E0|_].
    { pose proof (tr_pos _ _ _ _ (ti_tab _ _ _ _ HI) b Hb). unfold user_of, sizeof_BUCKET, sizeof_ptr, NULL in E0. lia. }
    erewrite bind_Ret.
    2:{ rewrite (bind_Ret _ _ _ _ _ (load_sym_spec _ _ _ Hy)), (bind_Ret _ _ _ _ _ (load_sym_spec _ _ _ Hx)). reflexivity. }
    destruct (Z.eqb_spec (LEVEL y) (LEVEL x)) as [El|El]; cbn [negb].
    + eexists _, TRUE. split; [by apply upd_sym_spec|]. split; [done|]. split; [done|]. split; [done|]. split; [done|].
      left. split; [done|]. split; [|done]. by apply (tinv_upd _ _ _ _ p (fun x => x <| isDup := TRUE |>)).
    + destruct Hadd as (w' & ? & ? & ? & ? & ? & ?). exists w', FALSE. split; [done|]. split; [done|]. split; [done|]. split; [done|].
      split; [done|]. by right.
  - cbn in Hnb. rewrite <- Hnb. change (NULL =? NULL) with true. cbv iota.
    destruct Hadd as (w' & E & ? & ? & ? & ? & ?). exists w', FALSE.
    split; [by rewrite (bind_mret true)|]. split; [done|]. split; [done|]. split; [done|]. split; [done|]. by right.
Qed.

Definition names_size (names : list (list Z)) : Z := foldr (fun nm t => Z.of_nat (length nm) + 2 + t) 0 names.

(** A symbol of a chain of declarations: it is in the table unless it was a duplicate.
    [d] is the text of its declarator. *)
Definition declared_sym (w : trans) (A Dn : list Z) (p d : Z) : Prop :=
  exists x, syms w !! p = Some x /\ decltor x = d /\ initstr x = NULL /\
    (isDup x = FALSE /\ header_of p ∈ A \/ isDup x = TRUE /\ p ∈ Dn).

(** What declaring leaves alone: the symbols there were, and the names below. *)
Record same_below (w w' : trans) (ps : list Z) : Prop := {
  sb_syms : forall q, q ∈ ps -> syms w' !! q = syms w !! q;
  sb_buf : forall i, 0 <= i < current (symnames (strings w)) ->
    buf (symnames (strings w')) !! i = buf (symnames (strings w)) !! i;
  sb_stk : stk (symnames (strings w')) = stk (symnames (strings w))
}.

Lemma same_below_key w w' ps p x nm : same_below w w' ps -> p ∈ ps -> syms w !! p = Some x ->
  name_at (symnames (strings w)) (current (symnames (strings w))) (name x) nm -> same_sym w w' p.
Proof.
  intros [H1 H2 _] Hp Hx Hn. split; [by apply H1|]. rewrite (key_of_name w _ _ _ _ Hx Hn).
  apply (key_of_name w' p x nm (current (symnames (strings w)))); [by rewrite H1|]. by eapply name_at_frame.
Qed.

Lemma same_below_bindings w w' L F D ps : tinv w L F D -> same_below w w' ps -> (forall b, b ∈ L -> user_of b ∈ ps) ->
  bindings w' L = bindings w L.
Proof.
  intros HI HS Hps. apply bindings_ext. intros b Hb. destruct (ti_names _ _ _ _ HI (user_of b)) as (x & nm & Hx & Hn).
  - apply elem_of_app. right. by apply list_elem_of_fmap_2.
  - apply same_sym_binding. eapply same_below_key; [done|by apply Hps|done|done].
Qed.

Lemma same_below_trans w w1 w2 ps ps1 : same_below w w1 ps -> same_below w1 w2 ps1 -> (forall q, q ∈ ps -> q ∈ ps1) ->
  current (symnames (strings w)) <= current (symnames (strings w1)) -> same_below w w2 ps.
Proof.
  intros [A1 A2 A3] [B1 B2 B3] Hps Hc. constructor.
  - intros q Hq. rewrite B1 by auto. by apply A1.
  - intros i Hi. rewrite B2 by lia. by apply A2.
  - by rewrite B3.
Qed.

Lemma same_below_refl w ps : same_below w w ps.
Proof. by constructor. Qed.

Lemma declared_sym_later w w' A Dn A' Dn' p d : declared_sym w A Dn p d -> syms w' !! p = syms w !! p ->
  (forall b, b ∈ A -> b ∈ A') -> (forall q, q ∈ Dn -> q ∈ Dn') -> declared_sym w' A' Dn' p d.
Proof.
  intros (x & Hx & ? & ? & Hd) Hs HA HD. exists x. rewrite Hs. repeat split; try done.
  destruct Hd as [[? ?]|[? ?]]; [left|right]; split; auto.
Qed.

(** ** Discarding *)

Definition without (C L : list Z) : list Z := filter (fun b => user_of b ∉ C) L.

Lemma user_of_inj b c : user_of b = user_of c -> b = c.
Proof. unfold user_of. lia. Qed.

Lemma without_id C L : (forall b, b ∈ L -> user_of b ∉ C) -> without C L = L.
Proof.
  unfold without. induction L as [|b L IH]; intros H; [done|]. rewrite filter_cons, decide_True by (apply H; left).
  f_equal. apply IH. intros c Hc. apply H. by right.
Qed.

Lemma without_app C L1 L2 : without C (L1 ++ L2) = without C L1 ++ without C L2.
Proof. apply filter_app. Qed.

Lemma without_one L1 b L2 : NoDup (L1 ++ b :: L2) -> without [user_of b] (L1 ++ b :: L2) = L1 ++ L2.
Proof.
  intros Hn. apply NoDup_app in Hn as (_ & Hd & [Hb _]%NoDup_cons).
  rewrite without_app. unfold without at 2. rewrite filter_cons, decide_False by (intros H; apply H; left).
  change (without [user_of b] L1 ++ without [user_of b] L2 = L1 ++ L2).
  rewrite !without_id; [done| |]; intros c Hc ->%list_elem_of_singleton%user_of_inj; [done|]. apply (Hd b Hc). left.
Qed.

Lemma without_cons p C L : without (p :: C) L = without C (without [p] L).
Proof.
  unfold without. rewrite list_filter_filter. induction L as [|b L IH]; [done|]. rewrite !filter_cons, IH.
  destruct (decide (user_of b ∉ p :: C)); case_decide; try done; exfalso; set_solver.
Qed.

Lemma tinv_perm w L F D D' : D ≡ₚ D' -> tinv w L F D -> tinv w L F D'.
Proof.
  intros Hp [H1 H2 H3 H4 H5 H6 H7 H8]. constructor; try done.
  - by rewrite <- Hp.
  - intros q. rewrite <- Hp. apply H4.
  - intros q. rewrite <- Hp. apply H5.
Qed.

(** A symbol of the table is taken out. *)
Lemma tinv_removed w L1 b L2 F D t : tinv w (L1 ++ b :: L2) F D -> tab_rep hash_add (sym_get_key w) t (L1 ++ L2) ->
  keeps (L1 ++ b :: L2) (sym_tab w) t -> tinv (w <| sym_tab := t |>) (L1 ++ L2) F (user_of b :: D).
Proof.
  intros [H1 H2 H3 H4 H5 H6 H7 H8] Ht (K1 & K2 & K3 & K4 & K5).
  assert (Hl : (user_of <$> L1 ++ b :: L2) ≡ₚ user_of b :: (user_of <$> L1 ++ L2)).
  { rewrite !fmap_app, fmap_cons. symmetry. apply Permutation_middle. }
  assert (Hperm : F ++ (user_of b :: D) ++ (user_of <$> L1 ++ L2) ≡ₚ F ++ D ++ (user_of <$> L1 ++ b :: L2)).
  { rewrite Hl. apply Permutation_app_head. cbn. apply Permutation_middle. }
  constructor.
  - exact Ht.
  - done.
  - by rewrite Hperm.
  - intros q Hq. rewrite Hperm in Hq. destruct (H4 q Hq) as (? & ? & ?). split; [done|]. split; [by apply K5|done].
  - intros q Hq. apply H5. rewrite Hl. set_solver.
  - cbn [sym_tab upd]. rewrite K2. split; [exact (proj1 H6)|]. intros c Hc. destruct (decide (c ∈ L1 ++ b :: L2)) as [Hin|Hin].
    + apply (proj2 H6). destruct (H4 (user_of c)) as (_ & Hs & _); [|by rewrite header_user in Hs].
      apply elem_of_app. right. apply elem_of_app. right. by apply list_elem_of_fmap_2.
    + apply (proj2 H6). by rewrite <- K4.
  - done.
  - done.
Qed.

(** A symbol in hand is given back. *)
Lemma tinv_freed w L F D p x : tinv w L F (p :: D) -> p <> NULL ->
  tinv (w <| syms := <[p := x <| snext := freesymlist w |>]> (syms w) |> <| freesymlist := p |>) L (p :: F) D.
Proof.
  intros [H1 H2 H3 H4 H5 H6 H7 H8] Hp0.
  assert (Hperm : (p :: F) ++ D ++ (user_of <$> L) ≡ₚ F ++ (p :: D) ++ (user_of <$> L)) by (cbn; apply Permutation_middle).
  assert (Hp : p ∉ F ++ D ++ (user_of <$> L)).
  { intros Hp. rewrite <- Hperm in H3. cbn in H3. by apply NoDup_cons in H3 as [? _]. }
  constructor; cbn [syms freesymlist sym_tab strings upd].
  - eapply tab_rep_ext; [|exact H1]. intros b Hb. unfold sym_get_key. cbn. rewrite lookup_insert_ne; [done|].
    intros Ep. apply Hp. rewrite Ep, !elem_of_app. right. right. by apply list_elem_of_fmap_2.
  - split; [done|]. split; [done|]. eexists. split; [apply lookup_insert_eq|]. apply schain_frame_notin; [set_solver|done].
  - by rewrite Hperm.
  - intros q Hq. rewrite Hperm in Hq. destruct (H4 q Hq) as (? & ? & ?). split; [done|]. split; [done|].
    destruct (decide (q = p)) as [->|]; [rewrite lookup_insert_eq; by eexists|by rewrite lookup_insert_ne].
  - intros q Hq. rewrite lookup_insert_ne by (intros ->; apply Hp; set_solver). apply H5. set_solver.
  - done.
  - done.
  - done.
Qed.

Lemma discard_SYM_spec w p x : syms w !! p = Some x -> decltor x = NULL -> initstr x = NULL ->
  discard_SYM p w = Ret tt (w <| syms := <[p := x <| snext := freesymlist w |>]> (syms w) |> <| freesymlist := p |>).
Proof.
  intros Hx Hd Hi. unfold discard_SYM. rewrite (bind_Ret _ _ _ _ _ (load_sym_spec _ _ _ Hx)), Hd, Hi.
  change (negb (NULL =? NULL)) with false. cbn [when]. rewrite !(bind_mret tt).
  unfold gets. rewrite (bind_Ret _ _ w (freesymlist w) w) by done. by rewrite (bind_Ret _ _ _ _ _ (upd_sym_spec p _ x w Hx)).
Qed.

(** One symbol of a chain is discarded: it is taken out of the table unless it is a
    duplicate. *)
Lemma discard_one w L F D p fuel : tinv w L F D -> declared_sym w L D p NULL -> p <> NULL ->
  exists x w' D', syms w !! p = Some x /\ discard_loop (S fuel) p w = discard_loop fuel (snext x) w' /\
    tinv w' (without [p] L) (p :: F) D' /\ (forall q, q ∈ D' <-> q ∈ D /\ q <> p) /\
    strings w' = strings w /\ (forall q, q <> p -> syms w' !! q = syms w !! q).
Proof.
  intros HI (x & Hx & Hdn & Hin & Hdup) Hp0. exists x. cbn [discard_loop]. replace (p =? NULL) with false by lia.
  rewrite (bind_Ret _ _ _ _ _ (load_sym_spec _ _ _ Hx)). pose proof (ti_nodup _ _ _ _ HI) as Hnd.
  assert (Hfin : forall w1 L1 D1, syms w1 = syms w -> freesymlist w1 = freesymlist w -> strings w1 = strings w -> tinv w1 L1 F (p :: D1) ->
    when (isDup x =? FALSE) (del_sym p) w = Ret tt w1 -> L1 = without [p] L -> (forall q, q ∈ D1 <-> q ∈ D /\ q <> p) ->
    exists w' D', syms w !! p = Some x /\ (when (isDup x =? FALSE) (del_sym p);; discard_SYM p;; discard_loop fuel (snext x)) w =
      discard_loop fuel (snext x) w' /\ tinv w' (without [p] L) (p :: F) D' /\ (forall q, q ∈ D' <-> q ∈ D /\ q <> p) /\
      strings w' = strings w /\ (forall q, q <> p -> syms w' !! q = syms w !! q)).
  { intros w1 L1 D1 Es Ef Est HI1 E -> HD. eexists _, D1. split; [done|].
    rewrite (bind_Ret _ _ _ _ _ E). assert (Hx1 : syms w1 !! p = Some x) by (by rewrite Es).
    rewrite (bind_Ret _ _ _ _ _ (discard_SYM_spec w1 p x Hx1 Hdn Hin)). split; [done|]. split; [by apply tinv_freed|].
    split; [done|]. split; [done|]. intros q Hq. cbn. by rewrite lookup_insert_ne, Es. }
  destruct Hdup as [[Hd HpL]|[Hd HpD]]; rewrite Hd in *.
  - change (FALSE =? FALSE) with true in *. cbn [when] in *. apply list_elem_of_split in HpL as (L1 & L2 & ->).
    destruct (delsym_rep hash_add cmp cmp_eq (sym_get_key w) (sym_tab w) L1 (header_of p) L2 (ti_tab _ _ _ _ HI)) as (t & E & Ht & HK).
    rewrite user_header in E. apply (Hfin (w <| sym_tab := t |>) (L1 ++ L2) D); try done.
    + rewrite <- (user_header p) at 1. by apply tinv_removed.
    + unfold del_sym, on_tab. by rewrite (zoom_Ret _ _ _ _ _ _ E).
    + rewrite <- (user_header p) at 1. symmetry. apply without_one. apply (ti_tab _ _ _ _ HI).
    + intros q. split; [|tauto]. intros Hq. split; [done|]. intros ->. apply NoDup_app in Hnd as (_ & _ & Hnd).
      apply NoDup_app in Hnd as (_ & Hd' & _). apply (Hd' p Hq), list_elem_of_fmap.
      exists (header_of p). rewrite user_header. split; [done|]. apply elem_of_app. right. left.
  - change (TRUE =? FALSE) with false in *. cbn [when] in *. apply list_elem_of_split in HpD as (D1 & D2 & ->).
    apply (Hfin w L (D1 ++ D2)); try done.
    + eapply tinv_perm; [|exact HI]. symmetry. apply Permutation_middle.
    + symmetry. apply without_id. intros b Hb Ep%list_elem_of_singleton. subst p. apply NoDup_app in Hnd as (_ & _ & Hnd).
      apply NoDup_app in Hnd as (_ & Hd' & _). apply (Hd' (user_of b)); [apply elem_of_app; right; left|by apply list_elem_of_fmap_2].
    + intros q. apply NoDup_app in Hnd as (_ & _ & Hnd). apply NoDup_app in Hnd as (Hnd & _ & _).
      apply NoDup_app in Hnd as (_ & Hd' & [Hp2 _]%NoDup_cons). split.
      * intros Hq. split; [set_solver|]. intros ->. apply elem_of_app in Hq as [Hq|Hq]; [|done]. apply (Hd' p Hq). left.
      * set_solver.
Qed.

Lemma discard_loop_spec C : forall fuel head w L F D, tinv w L F D -> schain (syms w) head C -> NoDup C ->
  (forall p, p ∈ C -> declared_sym w L D p NULL) -> (length C < fuel)%nat ->
  exists w' D', discard_loop fuel head w = Ret tt w' /\ tinv w' (without C L) (reverse C ++ F) D' /\
    (forall q, q ∈ D' <-> q ∈ D /\ q ∉ C) /\ strings w' = strings w /\ (forall q, q ∉ C -> syms w' !! q = syms w !! q).
Proof.
  induction C as [|p C IH]; intros fuel head w L F D HI HC Hn Hd Hf; (destruct fuel as [|fuel]; [cbn in Hf; lia|]).
  - cbn in HC. subst head. exists w, D. split; [done|]. rewrite without_id by (intros ? _ ?%elem_of_nil; done).
    split; [done|]. split; [|done]. intros q. split; [|tauto]. intros Hq. split; [done|]. apply not_elem_of_nil.
  - destruct HC as (-> & Hp0 & x0 & Hx0 & HC). apply NoDup_cons in Hn as [HpC Hn]. cbn in Hf.
    destruct (discard_one w L F D p fuel HI (Hd p ltac:(left)) Hp0) as (x & w1 & D1 & Hx & E & HI1 & HD1 & Hs1 & Hk1).
    rewrite Hx0 in Hx. injection Hx as <-. rewrite E.
    destruct (IH fuel (snext x0) w1 _ _ _ HI1) as (w' & D' & E' & HI' & HD' & Hs' & Hk').
    + eapply schain_frame; [|exact HC]. intros q Hq. rewrite Hk1; [done|]. by intros ->.
    + done.
    + intros q Hq. assert (q <> p) by (by intros ->). destruct (Hd q ltac:(by right)) as (y & Hy & ? & ? & Hdup). exists y.
      rewrite Hk1 by done. repeat split; try done. destruct Hdup as [[? Hl]|[? ?]]; [left|right; split; [done|by apply HD1]].
      split; [done|]. apply list_elem_of_filter. split; [|done]. rewrite user_header. by intros ?%list_elem_of_singleton.
    + lia.
    + exists w', D'. split; [done|]. rewrite without_cons. split; [by rewrite reverse_cons, <- app_assoc|]. split.
      { intros q. rewrite HD', HD1. set_solver. }
      split; [by rewrite Hs'|]. intros q Hq. rewrite Hk' by set_solver. apply Hk1. set_solver.
Qed.
