(* ===== verification/TransDecl.v ===== *)
(** The rules of the translator's grammar a declaration in a block goes through
    (compile/mpitrans/mpitrans.y): a declarator that is an identifier, the list of
    declarators, its reversal at the end of the declaration, and the writing of the
    declarators. What they do to the symbols and to the strings. *)
From Stdlib Require Import String.
From S2P Require Import Prelude HashTab HashRep MiscTr MiscProps Symbol SymRep.
Open Scope list_scope.
Open Scope Z_scope.
#[local] Notation M := (Prelude.M trans).

(** [level] and [cls] are the parser's [LEVEL] and [last_stg_cls]. *)
Definition isGlobalDecl (level cls : Z) : bool :=
  (level =? 0) && (cls =? NONE) || (cls =? EXTERN) || (cls =? STATIC).
Definition isNewSYM (sym : Z) : M bool :=
  if sym =? NULL then mret false else x ← load_sym sym; mret (stg_cls x =? ERR).

(** The scanner's part for a name where no tag or attribute is expected: nothing for the
    name of a type, otherwise the symbol of the identifier. *)
Definition check_type (yytext : list Z) (level cls : Z) : M (option Z) :=
  sym ← find_sym yytext;
  if negb (sym =? NULL) then
    x ← load_sym sym;
    if stg_cls x =? TYPEDEF then mret None
    else if cls =? ERR then mret (Some sym)
    else if negb (level =? LEVEL x) || (stg_cls x =? EXTERN) && (cls =? EXTERN) || (stg_cls x =? SYS) && (cls =? EXTERN)
            || (isFunc x =? TRUE) then
      p ← new_SYM yytext level; mret (Some p)
    else mret (Some sym)
  else if cls =? ERR then mret (Some NULL)
  else p ← new_SYM yytext level; mret (Some p).
(** What the parser keeps of an identifier. *)
Definition MAX_SYM_LEN : Z := 127.
Definition last_ident (token : list Z) : list Z := take (Z.to_nat MAX_SYM_LEN) token.

(** The rule for a declarator that is an identifier. [tbool] is the answer of
    [toBeTranslated]. *)
Definition declarator2 (sym : Z) (ident : list Z) (level cls : Z) (tbool : bool) : M Z :=
  isnew ← isNewSYM sym;
  sym ← (if isnew : bool then mret sym else on_strings yyerror;; new_SYM ident level);
  upd_sym sym (fun x => x <| LEVEL := int16 level |>);;
  upd_sym sym (fun x => x <| stg_cls := if negb tbool && isGlobalDecl level cls then SYS else cls |>);;
  (if isGlobalDecl level cls && tbool then
     t ← gets type_counter;
     upd_sym sym (fun x => x <| stype := int16 t |>);;
     upd_sym sym (fun x => x <| wrap_type := int16 (int32 (t + 1)) |>);;
     modify (fun w => w <| type_counter := int32 (int32 (t + 1) + 1) |>);;
     x ← load_sym sym;
     nm ← typedef_of x;
     d ← on_strings (new_str (Some nm));
     upd_sym sym (fun x => x <| decltor := d |>)
   else
     nm ← SYMSTR sym;
     d ← on_strings (new_str (Some nm));
     upd_sym sym (fun x => x <| decltor := d |>));;
  mret sym.

(** The two rules for a list of declarators; [before] is the list so far with the comma
    behind it. The names of a function's parameters end with its declarator. *)
Definition init_declarator_list (before : option (Z * Z)) (sym : Z) : M Z :=
  x ← load_sym sym;
  when (isFunc x =? TRUE)
    (when (negb (snext x =? NULL)) (discard_SYM_chain (snext x));; on_strings sb_restore);;
  match before with
  | None => upd_sym sym (fun x => x <| snext := NULL |>)
  | Some (l, comma) => upd_sym sym (fun x => x <| snext := l |>);; on_strings (del_str comma)
  end;;
  add_SYM sym;;
  mret sym.

(** The list is turned round, and the type of a declarator that left it open is filled
    in: [is_func] and [is_const] are what the specifiers say. *)
Fixpoint spec_loop (fuel : nat) (is_func is_const sym : Z) : M unit :=
  match fuel with
  | O => stuck
  | S fuel' =>
      if sym =? NULL then mret tt
      else
        x ← load_sym sym;
        when (isFunc x =? UNKNOWN) (upd_sym sym (fun x => x <| isFunc := is_func |>));;
        when (isConst x =? UNKNOWN) (upd_sym sym (fun x => x <| isConst := is_const |>));;
        spec_loop fuel' is_func is_const (snext x)
  end.
Definition ParseDeclList (is_func is_const list : Z) : M Z :=
  list ← reverse_symlink list;
  w ← get;
  spec_loop (sym_fuel w) is_func is_const list;;
  mret list.

(** The declarators and initializers of a declaration that is not translated are written
    and freed. *)
Fixpoint declarators_out (fuel : nat) (sym : Z) : M unit :=
  match fuel with
  | O => stuck
  | S fuel' =>
      if sym =? NULL then mret tt
      else
        x ← load_sym sym;
        s ← on_strings (str_string (decltor x));
        emitCode [s];;
        on_strings (del_str (decltor x));;
        upd_sym sym (fun x => x <| decltor := NULL |>);;
        when (negb (initstr x =? NULL))
          (s ← on_strings (str_string (initstr x));
           emitCode [txt "="; s];;
           on_strings (del_str (initstr x));;
           upd_sym sym (fun x => x <| initstr := NULL |>));;
        when (negb (snext x =? NULL)) (emitCode [txt ", "]);;
        declarators_out fuel' (snext x)
  end.

(** The parser makes a string for each comma, and the scanner finds or makes a symbol for
    each identifier; the rules above take them in. The name of a type is the business of
    other rules. *)
Fixpoint declare (names : list (list Z)) (level cls : Z) (tbool : bool) (list : option Z) : M Z :=
  match names with
  | [] => mret (default NULL list)
  | nm :: names' =>
      before ← (match list with
                | None => mret None
                | Some l => comma ← on_strings (new_str (Some (txt ","))); mret (Some (l, comma))
                end);
      sym ← check_type nm level cls;
      s ← from_option mret stuck sym;
      s ← declarator2 s (last_ident nm) level cls tbool;
      l ← init_declarator_list before s;
      declare names' level cls tbool (Some l)
  end.
(** The end of the declaration. *)
Definition declared_all (is_func is_const list : Z) : M Z :=
  list ← ParseDeclList is_func is_const list;
  w ← get;
  declarators_out (sym_fuel w) list;;
  mret list.

(** ** The strings in use *)

(** [F] can be used again, [H] are texts somebody holds. *)
Record spool (s : misc) (F H : list Z) : Prop := {
  sp_pool : pool s F;
  sp_held : forall d, d ∈ H -> (exists t, str_is s d t) /\ d ∉ F;
  sp_nodup : NoDup H
}.

Lemma str_is_Some s d t : str_is s d t -> is_Some (strs s !! d).
Proof. intros (_ & _ & x & rest & -> & _). by eexists. Qed.

Lemma spool_perm s F H H' : H ≡ₚ H' -> spool s F H -> spool s F H'.
Proof. intros Hp [H1 H2 H3]. constructor; [done| |by rewrite <- Hp]. intros d. rewrite <- Hp. apply H2. Qed.

Lemma spool_names s F H sb : spool s F H -> spool (s <| symnames := sb |>) F H.
Proof.
  intros [[H1 H2 H3 H4] H5 H6]. constructor; [by constructor| |done]. intros d Hd. destruct (H5 d Hd) as [[t Ht] ?].
  split; [|done]. exists t. by eapply str_is_other; [|exact Ht].
Qed.

Lemma spool_new u s F H n : spool s F H -> str_room s F (S n) -> is_text u -> Z.of_nat (length u) < 2 ^ 15 - 128 ->
  exists d s', new_str (Some u) s = Ret d s' /\ str_is s' d u /\ spool s' (tail F) (d :: H) /\ str_room s' (tail F) n /\
    symnames s' = symnames s.
Proof.
  intros [HP HH Hn] Hr Hu Hlen. destruct (new_str_spec u s F n HP Hr Hu Hlen) as (d & s' & E & Hd & HP' & Hr' & HdF & HdN & Hk & Hs).
  assert (HdH : d ∉ H).
  { intros Hin. destruct (HH d Hin) as [[t Ht] HnF]. destruct HdN as [?|Hnone]; [done|].
    destruct (str_is_Some _ _ _ Ht). congruence. }
  assert (Hkeep : forall q, q ∈ H -> strs s' !! q = strs s !! q) by (intros q Hq; apply Hk; by intros ->).
  exists d, s'. split; [done|]. split; [done|]. split; [|done]. constructor; [done| |by constructor].
  intros q [->|Hq]%elem_of_cons; [by split; [exists u|]|]. destruct (HH q Hq) as [[t Ht] HqF]. split.
  - exists t. eapply str_is_other; [by apply Hkeep|done].
  - intros Hin. apply HqF. destruct F; [done|by right].
Qed.

Lemma spool_del s F H d : spool s F (d :: H) ->
  exists s', del_str d s = Ret tt s' /\ spool s' (d :: F) H /\ symnames s' = symnames s /\
    (forall n, str_room s F n -> str_room s' (d :: F) (S n)).
Proof.
  intros [HP HH Hn]. destruct (HH d ltac:(left)) as [[t Ht] HdF]. apply NoDup_cons in Hn as [HdH Hn].
  destruct (del_str_spec s F d t HP Ht HdF) as (s' & E & HP' & Hk & Hs & Hb & Hl).
  exists s'. split; [done|]. split; [|split; [done|intros n Hr; unfold str_room in *; rewrite Hb, Hl; exact Hr]].
  constructor; [done| |done]. intros q Hq. destruct (HH q ltac:(by right)) as [[u Hu] HqF].
  assert (q <> d) by (by intros ->). split.
  - exists u. eapply str_is_other; [by apply Hk|done].
  - intros [->|?]%elem_of_cons; done.
Qed.

(** Strings are nothing to the table. *)
Lemma tinv_strings w L F D s : tinv w L F D -> symnames s = symnames (strings w) -> tinv (w <| strings := s |>) L F D.
Proof.
  intros [H1 H2 H3 H4 H5 H6 H7 H8] Hs. constructor; cbn; rewrite ?Hs; try done.
  eapply tab_rep_ext; [|exact H1]. intros b _. unfold sym_get_key. cbn. by rewrite Hs.
Qed.
Lemma key_strings w s p : symnames s = symnames (strings w) -> sym_get_key (w <| strings := s |>) p = sym_get_key w p.
Proof. intros Hs. unfold sym_get_key. cbn. by rewrite Hs. Qed.
Lemma tinv_yyout w L F D o : tinv w L F D -> tinv (w <| yyout := o |>) L F D.
Proof. intros [H1 H2 H3 H4 H5 H6 H7 H8]. by constructor. Qed.

(** ** The rules *)

Lemma tinv_in_hand w L F D p : tinv w L F (p :: D) -> p ∉ F.
Proof. intros HI Hp. pose proof (ti_nodup _ _ _ _ HI) as Hn. apply NoDup_app in Hn as (_ & Hd & _). apply (Hd p Hp). left. Qed.

Lemma int16_level level : 0 <= level < 2 ^ 15 -> int16 level = level.
Proof. intros H. apply int16_small. lia. Qed.

Lemma declarator2_spec p ident nm level cls tbool w L F D x SF H n : tinv w L F (p :: D) -> p <> NULL -> syms w !! p = Some x ->
  stg_cls x = ERR -> sym_get_key w p = Some nm -> isGlobalDecl level cls && tbool = false -> 0 <= level < 2 ^ 15 ->
  spool (strings w) SF H -> str_room (strings w) SF (S n) -> is_text nm -> Z.of_nat (length nm) < 2 ^ 15 - 128 ->
  exists d w' y, declarator2 p ident level cls tbool w = Ret p w' /\ tinv w' L F (p :: D) /\ syms w' = <[p := y]> (syms w) /\
    (LEVEL y = level /\ decltor y = d /\ initstr y = initstr x /\ isFunc y = isFunc x /\ (stg_cls y = cls \/ stg_cls y = SYS)) /\ sym_get_key w' p = Some nm /\
    spool (strings w') (tail SF) (d :: H) /\ str_room (strings w') (tail SF) n /\
    symnames (strings w') = symnames (strings w) /\ sym_tab w' = sym_tab w.
Proof.
  intros HI Hp0 Hx Hc Hk Hg Hl HS Hr Hu Hlen. pose proof (tinv_in_hand _ _ _ _ _ HI) as HpF. unfold declarator2, isNewSYM.
  replace (p =? NULL) with false by lia.
  rewrite (bind_Ret _ _ w true w) by (rewrite (bind_Ret _ _ _ _ _ (load_sym_spec _ _ _ Hx)), Hc; done). rewrite (bind_mret p).
  rewrite (bind_Ret _ _ _ _ _ (upd_sym_spec p _ x w Hx)). set (x1 := x <| LEVEL := _ |>). set (w1 := w <| syms := _ |>).
  assert (Hx1 : syms w1 !! p = Some x1) by apply lookup_insert_eq.
  rewrite (bind_Ret _ _ _ _ _ (upd_sym_spec p _ x1 w1 Hx1)). set (x2 := x1 <| stg_cls := _ |>). set (w2 := w1 <| syms := _ |>).
  assert (Hx2 : syms w2 !! p = Some x2) by apply lookup_insert_eq.
  assert (HI2 : tinv w2 L F (p :: D)).
  { apply (tinv_upd w1 _ _ _ p (fun x => x <| stg_cls := _ |>) x1); [|done|done|done].
    by apply (tinv_upd w _ _ _ p (fun x => x <| LEVEL := int16 level |>)). }
  assert (Hk2 : sym_get_key w2 p = Some nm) by (unfold sym_get_key in *; rewrite Hx in Hk; rewrite Hx2; exact Hk).
  rewrite Hg. rewrite bind_assoc, (bind_Ret _ _ _ _ _ (SYMSTR_spec _ _ _ Hk2)).
  destruct (spool_new nm (strings w2) SF H n HS Hr Hu Hlen) as (d & s & E & _ & HS' & Hr' & Hsn).
  rewrite bind_assoc, (bind_Ret _ _ _ _ _ (on_strings_Ret _ _ _ _ E)). set (w3 := w2 <| strings := s |>).
  assert (Hx3 : syms w3 !! p = Some x2) by done. rewrite (bind_Ret _ _ _ _ _ (upd_sym_spec p _ x2 w3 Hx3)).
  set (y := x2 <| decltor := d |>). set (w4 := w3 <| syms := _ |>). exists d, w4, y. split; [done|].
  split; [apply (tinv_upd w3 _ _ _ p (fun x => x <| decltor := d |>) x2); [by apply tinv_strings|done|done|done]|].
  split; [unfold w4, w3, w2, w1; cbn; by rewrite !insert_insert_eq|].
  split; [split; [by apply int16_level|]; do 3 (split; [done|]); cbn; destruct (negb tbool && _); [by right|by left]|].
  split; [|done]. rewrite <- Hk2, <- (key_strings w2 s p Hsn). unfold sym_get_key. fold w3. rewrite Hx3. cbn. by rewrite lookup_insert_eq.
Qed.

(** The list so far, and its comma. *)
Definition next_of (before : option (Z * Z)) : Z := from_option fst NULL before.
Definition comma_of (before : option (Z * Z)) : list Z := from_option (fun b => [snd b]) [] before.

Lemma init_declarator_list_spec before p nm w L F D x SF H n : tinv w L F (p :: D) -> syms w !! p = Some x -> isFunc x <> TRUE ->
  sym_get_key w p = Some nm -> spool (strings w) SF (comma_of before ++ H) -> str_room (strings w) SF n ->
  exists w' b, init_declarator_list before p w = Ret p w' /\
    syms w' = <[p := x <| snext := next_of before |> <| isDup := b |>]> (syms w) /\
    symnames (strings w') = symnames (strings w) /\ spool (strings w') (comma_of before ++ SF) H /\
    str_room (strings w') (comma_of before ++ SF) (length (comma_of before) + n) /\
    brk (sym_tab w') = brk (sym_tab w) /\ lim (sym_tab w') = lim (sym_tab w) /\
    (b = TRUE /\ tinv w' L F (p :: D) /\ declared (bindings w L) nm (LEVEL x) = bindings w L \/
     b = FALSE /\ tinv w' (header_of p :: L) F D /\ declared (bindings w L) nm (LEVEL x) = (nm, LEVEL x) :: bindings w L).
Proof.
  intros HI Hx Hf Hk HS Hr. pose proof (tinv_in_hand _ _ _ _ _ HI) as HpF. unfold init_declarator_list.
  rewrite (bind_Ret _ _ _ _ _ (load_sym_spec _ _ _ Hx)). destruct (Z.eqb_spec (isFunc x) TRUE) as [?|_]; [done|].
  cbn [when]. rewrite (bind_mret tt).
  assert (Hmid : exists s, match before with
      | None => upd_sym p (fun x => x <| snext := NULL |>)
      | Some (l, comma) => upd_sym p (fun x => x <| snext := l |>);; on_strings (del_str comma)
      end w = Ret tt (w <| syms := <[p := x <| snext := next_of before |>]> (syms w) |> <| strings := s |>) /\
    symnames s = symnames (strings w) /\ spool s (comma_of before ++ SF) H /\
    str_room s (comma_of before ++ SF) (length (comma_of before) + n)).
  { destruct before as [[l comma]|]; cbn [next_of comma_of from_option fst snd app length] in *.
    - destruct (spool_del _ _ _ _ HS) as (s & E & HS' & Hsn & Hr'). specialize (Hr' n Hr). exists s.
      rewrite (bind_Ret _ _ _ _ _ (upd_sym_spec p _ x w Hx)). split; [by apply on_strings_Ret|done].
    - exists (strings w). split; [by rewrite (upd_sym_spec p _ x w Hx)|done]. }
  destruct Hmid as (s & E & Hsn & HS' & Hr'). rewrite (bind_Ret _ _ _ _ _ E). set (w1 := _ <| strings := s |>).
  set (x1 := x <| snext := next_of before |>) in *.
  assert (Hx1 : syms w1 !! p = Some x1) by apply lookup_insert_eq.
  assert (HI1 : tinv w1 L F (p :: D)).
  { apply tinv_strings; [|done]. by apply (tinv_upd w _ _ _ p (fun x => x <| snext := next_of before |>)). }
  assert (Hsame : forall q, (name <$> syms w1 !! q) = (name <$> syms w !! q) /\ (LEVEL <$> syms w1 !! q) = (LEVEL <$> syms w !! q)).
  { intros q. cbn. destruct (decide (q = p)) as [->|?]; [by rewrite lookup_insert_eq, Hx|by rewrite lookup_insert_ne]. }
  assert (Hkey : forall q, sym_get_key w1 q = sym_get_key w q).
  { intros q. destruct (Hsame q) as [E1 _]. unfold sym_get_key. change (symnames (strings w1)) with (symnames s). rewrite Hsn.
    destruct (syms w1 !! q), (syms w !! q); try done. cbn in *. by injection E1 as ->. }
  assert (HB : bindings w1 L = bindings w L).
  { apply bindings_ext. intros b _. destruct (Hsame (user_of b)) as [_ E2]. unfold binding. rewrite Hkey.
    destruct (syms w1 !! user_of b), (syms w !! user_of b); try done. cbn in *. injection E2 as ->. done. }
  destruct (add_SYM_spec w1 L F D p x1 nm HI1 Hx1 ltac:(by rewrite Hkey)) as (w2 & b & E2 & Hs2 & Hst2 & Hb2 & Hl2 & Hd).
  exists w2, b. rewrite (bind_Ret _ _ _ _ _ E2). split; [done|]. rewrite Hs2, Hst2, Hb2, Hl2. rewrite HB in Hd.
  split; [unfold w1; cbn; by rewrite insert_insert_eq|]. done.
Qed.

(** ** The declarators of a declaration *)

Definition is_ident (nm : list Z) : Prop := is_text nm /\ Z.of_nat (length nm) <= MAX_SYM_LEN.

Lemma is_text_name nm : is_text nm -> is_name nm.
Proof. intros H. eapply Forall_impl; [exact H|]. cbn. tauto. Qed.

(** The comma between two declarators. *)
Lemma comma_spec (prev : option Z) w SF H m : spool (strings w) SF H -> str_room (strings w) SF (S (S m)) ->
  exists before s SF' r,
    (match prev with
     | None => mret None
     | Some l => comma ← on_strings (new_str (Some (txt ","))); mret (Some (l, comma))
     end) w = Ret before (w <| strings := s |>) /\ next_of before = default NULL prev /\
    symnames s = symnames (strings w) /\ spool s SF' (comma_of before ++ H) /\ str_room s SF' (S r) /\
    (length (comma_of before) + r = S m)%nat.
Proof.
  intros HS Hr. destruct prev as [l|].
  - destruct (spool_new (txt ",") (strings w) SF H (S m) HS Hr) as (d & s & E & _ & HS' & Hr' & Hsn); [by repeat constructor|done|].
    exists (Some (l, d)), s, (tail SF), m. rewrite (bind_Ret _ _ _ _ _ (on_strings_Ret _ _ _ _ E)). done.
  - exists None, (strings w), SF, (S m). split; [by destruct w|done].
Qed.

(** The symbols in the table are declared, and the names [names] are not names of types. *)
Definition variables (w : trans) (L : list Z) (names : list (list Z)) : Prop :=
  forall b, b ∈ L -> exists x, syms w !! user_of b = Some x /\ stg_cls x <> ERR /\
    (stg_cls x = TYPEDEF -> forall nm, sym_get_key w (user_of b) = Some nm -> nm ∉ names).

Lemma last_ident_id nm : Z.of_nat (length nm) <= MAX_SYM_LEN -> last_ident nm = nm.
Proof. intros H. apply take_ge. lia. Qed.

(** Whatever the scanner found, the parser goes on with a new symbol: it makes one itself,
    with an error message, where the scanner takes the name for one already declared. *)
Lemma check_type_spec nm names level cls tbool w L F D SF H n m : tinv w L F D -> room w F (S n) ->
  variables w L (nm :: names) -> cls <> ERR -> is_ident nm -> 0 <= level < 2 ^ 15 ->
  current (symnames (strings w)) + Z.of_nat (length nm) + 2 < 2 ^ 15 -> spool (strings w) SF H -> str_room (strings w) SF m ->
  exists s, symnames s = symnames (strings w) /\ spool s SF H /\ str_room s SF m /\
    forall A (k : Z -> M A),
      (sym ← check_type nm level cls; s ← from_option mret stuck sym; s ← declarator2 s (last_ident nm) level cls tbool; k s) w =
      (s ← new_SYM nm level; s ← declarator2 s nm level cls tbool; k s) (w <| strings := s |>).
Proof.
  intros HI Hr HV Hcls [Hu Hlen] Hlev Hroom HS Hsr. rewrite (last_ident_id nm Hlen).
  assert (Hnew : forall s, symnames s = symnames (strings w) -> exists p w' x, new_SYM nm level (w <| strings := s |>) = Ret p w' /\
    p <> NULL /\ syms w' !! p = Some x /\ stg_cls x = ERR).
  { intros s Hs. destruct (new_SYM_spec nm level (w <| strings := s |>) L F D n) as (p & w' & x & ? & ? & ? & ? & ? & ? & HH);
      [by apply tinv_strings|done|by apply is_text_name|done|by cbn; rewrite Hs|]. exists p, w', x. tauto. }
  assert (Hw : w <| strings := strings w |> = w) by (by destruct w).
  assert (Hmade : forall A (k : Z -> M A), (sym ← (p ← new_SYM nm level; mret (Some p)); s ← from_option mret stuck sym;
      s ← declarator2 s nm level cls tbool; k s) w = (s ← new_SYM nm level; s ← declarator2 s nm level cls tbool; k s) w).
  { intros A k. destruct (Hnew (strings w) eq_refl) as (p & w' & x & E & _). rewrite Hw in E.
    by rewrite bind_assoc, !(bind_Ret _ _ _ _ _ E). }
  unfold check_type. destruct (newest (sym_get_key w) nm L) as [b|] eqn:En; cycle 1.
  { exists (strings w). do 3 (split; [done|]). intros A k. rewrite bind_assoc, (bind_Ret _ _ _ _ _ (find_sym_spec w L F D nm HI)), En, Hw.
    cbn [from_option]. change (negb (NULL =? NULL)) with false. cbv iota. destruct (Z.eqb_spec cls ERR); [done|]. apply Hmade. }
  assert (Hb : b ∈ L /\ sym_get_key w (user_of b) = Some nm).
  { unfold newest in En. apply head_Some_elem_of in En. apply list_elem_of_filter in En. tauto. }
  destruct Hb as [Hb Hbk]. destruct (HV b Hb) as (x & Hx & Hne & Hty).
  assert (Hnt : stg_cls x <> TYPEDEF) by (intros E; apply (Hty E nm Hbk); left).
  assert (Hb0 : user_of b <> NULL).
  { pose proof (tr_pos _ _ _ _ (ti_tab _ _ _ _ HI) b Hb). unfold user_of, sizeof_BUCKET, sizeof_ptr, NULL. lia. }
  destruct (negb (level =? LEVEL x) || (stg_cls x =? EXTERN) && (cls =? EXTERN) || (stg_cls x =? SYS) && (cls =? EXTERN)
    || (isFunc x =? TRUE)) eqn:Ec.
  - exists (strings w). do 3 (split; [done|]). intros A k. rewrite bind_assoc, (bind_Ret _ _ _ _ _ (find_sym_spec w L F D nm HI)), En, Hw.
    cbn [from_option]. replace (negb (user_of b =? NULL)) with true by lia. rewrite bind_assoc, (bind_Ret _ _ _ _ _ (load_sym_spec _ _ _ Hx)).
    destruct (Z.eqb_spec (stg_cls x) TYPEDEF); [done|]. destruct (Z.eqb_spec cls ERR); [done|]. rewrite Ec. apply Hmade.
  - set (s := strings w <| errmsgno := int32 (errmsgno (strings w) + 1) |>). exists s. split; [done|].
    split; [destruct HS as [[? ? ? ?] ? ?]; constructor; [by constructor|done|done]|]. split; [done|]. intros A k.
    rewrite bind_assoc, (bind_Ret _ _ _ _ _ (find_sym_spec w L F D nm HI)), En.
    cbn [from_option]. replace (negb (user_of b =? NULL)) with true by lia. rewrite bind_assoc, (bind_Ret _ _ _ _ _ (load_sym_spec _ _ _ Hx)).
    destruct (Z.eqb_spec (stg_cls x) TYPEDEF); [done|]. destruct (Z.eqb_spec cls ERR); [done|]. rewrite Ec, !(bind_mret _).
    cbn [from_option]. rewrite (bind_mret (user_of b)). destruct (Hnew s eq_refl) as (p & w' & y & E & Hp0 & Hy & Hyc).
    rewrite (bind_Ret _ _ _ _ _ E). unfold declarator2. rewrite !bind_assoc.
    assert (E1 : isNewSYM (user_of b) w = Ret false w).
    { unfold isNewSYM. replace (user_of b =? NULL) with false by lia. rewrite (bind_Ret _ _ _ _ _ (load_sym_spec _ _ _ Hx)).
      by replace (stg_cls x =? ERR) with false by lia. }
    assert (E2 : isNewSYM p w' = Ret true w').
    { unfold isNewSYM. replace (p =? NULL) with false by lia. by rewrite (bind_Ret _ _ _ _ _ (load_sym_spec _ _ _ Hy)), Hyc. }
    rewrite (bind_Ret _ _ _ _ _ E1), (bind_Ret _ _ _ _ _ E2), !bind_assoc, (bind_mret p).
    rewrite (bind_Ret (on_strings yyerror) _ w tt (w <| strings := s |>)) by done. by rewrite (bind_Ret _ _ _ _ _ E).
Qed.

Lemma bindings_strings w s L : symnames s = symnames (strings w) -> bindings (w <| strings := s |>) L = bindings w L.
Proof. intros Hs. apply bindings_ext. intros b _. unfold binding. by rewrite key_strings. Qed.

Lemma same_below_name w w' ps nm : 0 <= current (symnames (strings w)) -> (forall q, q ∈ ps -> syms w' !! q = syms w !! q) ->
  symnames (strings w') = with_name (symnames (strings w)) nm -> same_below w w' ps.
Proof. intros Hc Hs Hn. constructor; [done| |]; rewrite Hn; [|done]. intros i Hi. apply with_name_below. lia. Qed.

Lemma variables_strings w s L names : symnames s = symnames (strings w) -> variables w L names -> variables (w <| strings := s |>) L names.
Proof.
  intros Hs HV b Hb. destruct (HV b Hb) as (x & ? & ? & Ht). exists x. split; [done|]. split; [done|]. intros E nm. rewrite key_strings by done. by apply Ht.
Qed.

Lemma variables_more w w' L F D ps nm names p A : variables w L (nm :: names) -> tinv w L F D -> same_below w w' ps ->
  (forall b, b ∈ L -> user_of b ∈ ps) -> (forall b, b ∈ A -> user_of b = p) ->
  (exists x, syms w' !! p = Some x /\ stg_cls x <> ERR /\ stg_cls x <> TYPEDEF) -> variables w' (A ++ L) names.
Proof.
  intros HV HI HS HL HA (x & Hx & Hx1 & Hx2) b [Hb|Hb]%elem_of_app.
  - exists x. by rewrite (HA b Hb).
  - destruct (HV b Hb) as (y & Hy & Hy1 & Hy2). destruct (ti_names _ _ _ _ HI (user_of b)) as (z & nm' & Hz & Hn).
    { apply elem_of_app. right. by apply list_elem_of_fmap_2. }
    destruct (same_below_key w w' ps (user_of b) z nm' HS (HL b Hb) Hz Hn) as [E1 E2]. exists y. rewrite E1. split; [done|]. split; [done|].
    intros E nm2. rewrite E2. intros Hk Hin. apply (Hy2 E nm2 Hk). by right.
Qed.

(** One declarator. *)
Lemma declare_one nm names level cls tbool prev w L F D n C SF H m : variables w L (nm :: names) -> cls <> ERR -> cls <> TYPEDEF ->
  tinv w L F D -> room w F (S n) -> is_ident nm -> 0 <= level < 2 ^ 15 ->
  isGlobalDecl level cls && tbool = false -> current (symnames (strings w)) + Z.of_nat (length nm) + 2 < 2 ^ 15 ->
  spool (strings w) SF H -> str_room (strings w) SF (S (S m)) ->
  schain (syms w) (default NULL prev) C -> (forall q, q ∈ C -> q ∈ D ++ (user_of <$> L)) ->
  exists p w' A Dn d SF',
    (forall names', declare (nm :: names') level cls tbool prev w = declare names' level cls tbool (Some p) w') /\
    tinv w' (A ++ L) (tail F) (Dn ++ D) /\ room w' (tail F) n /\
    spool (strings w') SF' (d :: H) /\ str_room (strings w') SF' (S m) /\
    p ∉ D ++ (user_of <$> L) /\ schain (syms w') p (p :: C) /\ declared_sym w' A Dn p d /\
    (forall b, b ∈ A -> user_of b = p) /\ (forall q, q ∈ Dn -> q = p) /\
    same_below w w' (D ++ (user_of <$> L)) /\
    current (symnames (strings w')) = current (symnames (strings w)) + Z.of_nat (length nm) + 2 /\
    bindings w' (A ++ L) = declared (bindings w L) nm level /\ variables w' (A ++ L) names.
Proof.
  intros HV Hcls Hcls2 HI Hr Hid Hlev Hg Hroom HS Hsr HC HCin. pose proof Hid as [Hu Hlen].
  destruct (comma_spec prev w SF H m HS Hsr) as (before & sc & SF0 & r & E0 & Hnext & Hsc & HSc & Hrc & Hrm).
  set (wc := w <| strings := sc |>) in *. pose proof (tinv_strings _ _ _ _ sc HI Hsc) as HIc.
  destruct (check_type_spec nm names level cls tbool wc L F D SF0 _ n (S r) HIc Hr ltac:(by apply variables_strings) Hcls Hid Hlev
    ltac:(by cbn; rewrite Hsc) HSc Hrc) as (s0 & Hs0' & HS0 & Hr0 & Ek).
  assert (Hs0 : symnames s0 = symnames (strings w)) by (by rewrite Hs0').
  change (wc <| strings := s0 |>) with (w <| strings := s0 |>) in Ek.
  set (w0 := w <| strings := s0 |>) in *. pose proof (tinv_strings _ _ _ _ s0 HI Hs0) as HI0. fold w0 in HI0.
  assert (Hsn0 : symnames (strings w0) = symnames (strings w)) by done.
  destruct (new_SYM_spec nm level w0 L F D n HI0 Hr (is_text_name _ Hu) Hlev ltac:(by rewrite Hsn0)) as
    (p & w1 & x & E1 & HI1 & Hr1 & Hp0 & Hp & Hx & Hxl & Hxd & Hxi & Hk & Hkeep & Hsb & Herr & Hfn).
  assert (HS1 : spool (strings w1) SF0 (comma_of before ++ H)) by (rewrite Hsb; by apply spool_names).
  assert (Hsr1 : str_room (strings w1) SF0 (S r)) by (rewrite Hsb; exact Hr0).
  destruct (declarator2_spec p nm nm level cls tbool w1 L (tail F) D x SF0 _ r HI1 Hp0 Hx Herr Hk Hg Hlev HS1 Hsr1 Hu ltac:(unfold MAX_SYM_LEN in *; lia)) as
    (d & w2 & y & E2 & HI2 & Hs2 & (Hyl & Hyd & Hyi & Hyf & Hyc) & Hk2 & HS2 & Hsr2 & Hsn2 & Ht2).
  assert (Hy : syms w2 !! p = Some y) by (rewrite Hs2; apply lookup_insert_eq).
  assert (HS2' : spool (strings w2) (tail SF0) (comma_of before ++ d :: H)).
  { eapply spool_perm; [|exact HS2]. apply Permutation_middle. }
  destruct (init_declarator_list_spec before p nm w2 L (tail F) D y _ _ r HI2 Hy ltac:(by rewrite Hyf, Hfn) Hk2 HS2' Hsr2) as
    (w3 & b & E3 & Hs3 & Hsn3 & HS3 & Hsr3 & Hb3 & Hl3 & Hd).
  rewrite Hrm in Hsr3. rewrite Hyl in Hd. rewrite Ht2 in Hb3, Hl3.
  assert (HpD : p ∉ D ++ (user_of <$> L)) by set_solver.
  assert (Hcur : 0 <= current (symnames (strings w))) by apply HI.
  assert (Hsn : symnames (strings w3) = with_name (symnames (strings w)) nm) by (rewrite Hsn3, Hsn2, Hsb; cbn; by rewrite Hs0).
  set (y3 := y <| snext := next_of before |> <| isDup := b |>) in *.
  assert (Hsyms : forall q, q ∈ D ++ (user_of <$> L) -> syms w3 !! q = syms w !! q).
  { intros q Hq. assert (p <> q) by (intros ->; done). rewrite Hs3, lookup_insert_ne, Hs2, lookup_insert_ne by done. by apply Hkeep. }
  assert (Hsn2' : symnames (strings w2) = with_name (symnames (strings w)) nm) by (by rewrite <- Hsn3).
  pose proof (same_below_name w w3 _ nm Hcur Hsyms Hsn) as HSB.
  assert (HSB2 : same_below w w2 (D ++ (user_of <$> L))).
  { apply same_below_name with nm; [done| |done]. intros q Hq. rewrite Hs2, lookup_insert_ne by (by intros ->). by apply Hkeep. }
  assert (HB2 : bindings w2 L = bindings w L) by (eapply same_below_bindings; [done|done|set_solver]).
  assert (Hrun : forall names', declare (nm :: names') level cls tbool prev w = declare names' level cls tbool (Some p) w3).
  { intros names'. cbn [declare]. rewrite (bind_Ret _ _ _ _ _ E0). fold wc.
    rewrite Ek. fold w0. rewrite (bind_Ret _ _ _ _ _ E1), (bind_Ret _ _ _ _ _ E2). by rewrite (bind_Ret _ _ _ _ _ E3). }
  assert (Hx3 : syms w3 !! p = Some y3) by (rewrite Hs3; apply lookup_insert_eq).
  assert (Hchain : schain (syms w3) p (p :: C)).
  { split; [done|]. split; [done|]. exists y3. split; [done|]. cbn [snext upd y3]. rewrite Hnext.
    eapply schain_frame; [|exact HC]. intros q Hq. f_equal. by apply Hsyms, HCin. }
  assert (Hroom3 : room w3 (tail F) n) by (unfold room in *; rewrite Hb3, Hl3; exact Hr1).
  assert (Hcur3 : current (symnames (strings w3)) = current (symnames (strings w)) + Z.of_nat (length nm) + 2) by (by rewrite Hsn).
  assert (HpLb : binding w3 p = Some (nm, level)).
  { unfold binding. rewrite Hx3. unfold sym_get_key in *. rewrite Hx3, Hsn3. rewrite Hy in Hk2. cbn [mbind option_bind name upd y3] in *.
    rewrite Hk2. cbn. by rewrite Hyl. }
  assert (Hfin : bindings w3 L = bindings w L) by (eapply same_below_bindings; [done|done|set_solver]).
  assert (HV3 : forall A, (forall b, b ∈ A -> user_of b = p) -> variables w3 (A ++ L) names).
  { intros A HA. eapply variables_more; [exact HV|exact HI|exact HSB|set_solver|done|]. exists y3. split; [done|]. cbn. destruct Hyc as [->| ->]; done. }
  rewrite HB2 in Hd. destruct Hd as [(-> & HI3 & Hbd)|(-> & HI3 & Hbd)].
  - exists p, w3, [], [p], d, (comma_of before ++ tail SF0). do 3 (split; [done|]). split; [exact HS3|]. do 3 (split; [done|]).
    split; [exists y3; split; [done|split; [done|split; [exact (eq_trans Hyi Hxi)|]]]; right; split; [done|left]|].
    split; [by intros c ?%elem_of_nil|]. split; [by intros q ?%list_elem_of_singleton|]. split; [done|]. split; [done|].
    split; [cbn [app]; by rewrite Hbd|]. by apply HV3; intros c ?%elem_of_nil.
  - exists p, w3, [header_of p], [], d, (comma_of before ++ tail SF0). do 3 (split; [done|]). split; [exact HS3|]. do 3 (split; [done|]).
    split; [exists y3; split; [done|split; [done|split; [exact (eq_trans Hyi Hxi)|]]]; left; split; [done|left]|].
    split; [intros c ->%list_elem_of_singleton; apply user_header|]. split; [by intros q ?%elem_of_nil|]. split; [done|]. split; [done|].
    split; [|by apply HV3; intros c ->%list_elem_of_singleton; apply user_header].
    cbn [app bindings omap list_omap]. rewrite user_header, HpLb, Hbd. f_equal. exact Hfin.
Qed.

(** The declarators of one declaration; [Ds] are the texts of their declarators. *)
Lemma declare_spec names level cls tbool m : isGlobalDecl level cls && tbool = false -> 0 <= level < 2 ^ 15 ->
  cls <> ERR -> cls <> TYPEDEF -> forall prev w L F D C SF H, variables w L names ->
  tinv w L F D -> room w F (length names) -> Forall is_ident names ->
  current (symnames (strings w)) + names_size names < 2 ^ 15 ->
  spool (strings w) SF H -> str_room (strings w) SF (S (length names + m)) ->
  schain (syms w) (default NULL prev) C -> (forall q, q ∈ C -> q ∈ D ++ (user_of <$> L)) ->
  exists list' w' A Dn C' Ds SF', declare names level cls tbool prev w = Ret list' w' /\
    tinv w' (A ++ L) (drop (length names) F) (Dn ++ D) /\ schain (syms w') list' (C' ++ C) /\ length C' = length names /\
    spool (strings w') SF' (Ds ++ H) /\ str_room (strings w') SF' (S m) /\
    NoDup C' /\ (forall q, q ∈ C' -> q ∉ D ++ (user_of <$> L)) /\
    Forall2 (declared_sym w' A Dn) C' Ds /\ (forall b, b ∈ A -> user_of b ∈ C') /\ (forall q, q ∈ Dn -> q ∈ C') /\
    same_below w w' (D ++ (user_of <$> L)) /\
    bindings w' (A ++ L) = foldl (fun V nm => declared V nm level) (bindings w L) names.
Proof.
  intros Hg Hlev Hcls Hcls2. induction names as [|nm names IH]; intros prev w L F D C SF H HV HI Hr Hn Hroom HS Hsr HC HCin.
  - exists (default NULL prev), w, [], [], [], [], SF. repeat (split; [done|]). split; [constructor|].
    repeat split; try done; try (intros ? Hq; by apply elem_of_nil in Hq).
  - apply Forall_cons in Hn as [Hnm Hn]. cbn [length names_size foldr] in *. fold (names_size names) in Hroom.
    assert (Hns : 0 <= names_size names) by (clear; induction names; cbn; [lia|fold (names_size names) in *; lia]).
    destruct (declare_one nm names level cls tbool prev w L F D (length names) C SF H (length names + m) HV Hcls Hcls2 HI Hr Hnm Hlev Hg ltac:(lia) HS Hsr HC HCin) as
      (p & w1 & A1 & D1 & d & SF1 & E1 & HI1 & Hr1 & HS1 & Hsr1 & Hp & HC1 & Hd1 & HA1 & HD1 & HB1 & Hcur1 & Hbd1 & HV1).
    assert (HpIn : p ∈ D1 ++ (user_of <$> A1)).
    { destruct Hd1 as (x & _ & _ & _ & [[_ Hd]|[_ Hd]]); apply elem_of_app; [right|by left].
      rewrite <- (user_header p). by apply list_elem_of_fmap_2. }
    assert (Hold : forall q, q ∈ D ++ (user_of <$> L) -> q ∈ (D1 ++ D) ++ (user_of <$> A1 ++ L)).
    { intros q. rewrite fmap_app, !elem_of_app. tauto. }
    assert (Hnew : forall q, q ∈ D1 ++ (user_of <$> A1) -> q ∈ (D1 ++ D) ++ (user_of <$> A1 ++ L)).
    { intros q. rewrite fmap_app, !elem_of_app. tauto. }
    destruct (IH (Some p) w1 (A1 ++ L) (tail F) (D1 ++ D) (p :: C) SF1 (d :: H) HV1 HI1 Hr1 Hn ltac:(lia) HS1 Hsr1 HC1) as
      (list' & w' & A & Dn & C' & Ds & SF' & E & HI' & HC' & HlC & HS' & Hsr' & Hnd & Hnot & Hdecl & HA & HD & HB & Hbd).
    { intros q [->|Hq]%elem_of_cons; [by apply Hnew|]. by apply Hold, HCin. }
    exists list', w', (A ++ A1), (Dn ++ D1), (C' ++ [p]), (Ds ++ [d]), SF'.
    split; [by rewrite E1|]. rewrite <- !app_assoc.
    assert (Ed : drop (S (length names)) F = drop (length names) (tail F)) by (destruct F; cbn; [by rewrite drop_nil|done]).
    split; [by rewrite Ed|]. split; [done|]. split; [rewrite length_app; cbn; lia|]. split; [done|]. split; [done|].
    split. { apply NoDup_app. split; [done|]. split; [|apply NoDup_singleton]. intros q Hq ->%list_elem_of_singleton.
      apply (Hnot p Hq). by apply Hnew. }
    split. { intros q [Hq| ->%list_elem_of_singleton]%elem_of_app; [|done]. intros Hin. apply (Hnot q Hq). by apply Hold. }
    split. { apply Forall2_app; [|apply Forall2_cons; split; [|constructor]].
      - eapply Forall2_impl; [exact Hdecl|]. intros q e Hq. eapply declared_sym_later; [exact Hq|done|set_solver|set_solver].
      - eapply declared_sym_later; [exact Hd1| |set_solver|set_solver]. apply (sb_syms _ _ _ HB). by apply Hnew. }
    split. { intros b [Hb|Hb]%elem_of_app; [apply elem_of_app; left; by apply HA|]. rewrite (HA1 b Hb). set_solver. }
    split. { intros q [Hq|Hq]%elem_of_app; [apply elem_of_app; left; by apply HD|]. rewrite (HD1 q Hq). set_solver. }
    split; [eapply same_below_trans; [done|done|done|lia]|]. by rewrite Hbd, Hbd1.
Qed.

(** ** The end of the declaration *)

(** Links and types are left to change. *)
Definition alike (x y : SYM) : Prop :=
  name y = name x /\ LEVEL y = LEVEL x /\ decltor y = decltor x /\ initstr y = initstr x /\ isDup y = isDup x.
(** Only the symbols of [C] change, in the way [R]. *)
Definition changes (R : SYM -> SYM -> Prop) (C : list Z) (w w' : trans) : Prop :=
  (forall q, q ∉ C -> syms w' !! q = syms w !! q) /\
  (forall q x, q ∈ C -> syms w !! q = Some x -> exists y, syms w' !! q = Some y /\ R x y).

#[export] Instance alike_refl : Reflexive alike.
Proof. by intros x. Qed.
#[export] Instance alike_trans : Transitive alike.
Proof. intros x y z (H1 & H2 & H3 & H4 & H5) (? & ? & ? & ? & ?). unfold alike. rewrite <- H1, <- H2, <- H3, <- H4, <- H5. done. Qed.

Lemma changes_nil R w : changes R [] w w.
Proof. split; [done|]. by intros q x ?%elem_of_nil. Qed.

Lemma changes_cons R p C x y w w' : p ∉ C -> syms w !! p = Some x -> R x y ->
  changes R C (w <| syms := <[p := y]> (syms w) |>) w' -> changes R (p :: C) w w'.
Proof.
  intros Hp Hx HR [H1 H2]. split.
  - intros q Hq. rewrite H1 by set_solver. cbn. rewrite lookup_insert_ne; [done|]. intros ->. apply Hq. left.
  - intros q z Hq Hz. destruct (decide (q = p)) as [->|Hne].
    + rewrite Hx in Hz. injection Hz as <-. exists y. split; [|done]. rewrite H1 by done. apply lookup_insert_eq.
    + apply H2; [set_solver|]. cbn. by rewrite lookup_insert_ne.
Qed.

Lemma changes_compose (R : SYM -> SYM -> Prop) `{!Transitive R} C w w1 w2 : changes R C w w1 -> changes R C w1 w2 -> changes R C w w2.
Proof.
  intros [A1 A2] [B1 B2]. split; [intros q Hq; by rewrite B1, A1|]. intros q x Hq Hx.
  destruct (A2 q x Hq Hx) as (y & Hy & HR). destruct (B2 q y Hq Hy) as (z & Hz & HR'). exists z. split; [done|]. by trans y.
Qed.

Lemma changes_mono R C C' w w' : (forall x, R x x) -> (forall q, q ∈ C -> q ∈ C') -> changes R C w w' -> changes R C' w w'.
Proof.
  intros HR HC [H1 H2]. split; [intros q Hq; apply H1; auto|]. intros q x Hq Hx.
  destruct (decide (q ∈ C)) as [Hin|Hin]; [by apply H2|]. exists x. by rewrite H1.
Qed.

(** [reverse_symlink] *)
Lemma reverse_loop_spec L F D C : forall fuel prev cur w, tinv w L F D -> (forall q, q ∈ C -> q ∉ F) -> NoDup C ->
  schain (syms w) cur C -> (length C < fuel)%nat ->
  exists h w', reverse_loop fuel prev cur w = Ret h w' /\ tinv w' L F D /\ strings w' = strings w /\ sym_tab w' = sym_tab w /\
    changes alike C w w' /\
    (forall ss P, (forall q, q ∈ C -> ss !! q = syms w' !! q) -> schain ss prev P -> schain ss h (reverse C ++ P)).
Proof.
  induction C as [|p C IH]; intros fuel prev cur w HI HF Hn HC Hf; (destruct fuel as [|fuel]; [cbn in Hf; lia|]); cbn [reverse_loop].
  - cbn in HC. subst cur. exists prev, w. split; [done|]. do 3 (split; [done|]). split; [apply changes_nil|]. by intros ss P _.
  - destruct HC as (-> & Hp0 & x & Hx & HC). apply NoDup_cons in Hn as [HpC Hn]. replace (p =? NULL) with false by lia.
    rewrite (bind_Ret _ _ _ _ _ (load_sym_spec _ _ _ Hx)), (bind_Ret _ _ _ _ _ (upd_sym_spec p _ x w Hx)).
    set (w1 := w <| syms := _ |>).
    assert (HI1 : tinv w1 L F D) by (apply (tinv_upd w _ _ _ p (fun x => x <| snext := prev |>)); try done; apply HF; left).
    destruct (IH fuel p (snext x) w1 HI1) as (h & w' & E & HI' & Hs & Ht & Hch & Hlink); try done.
    + intros q Hq. apply HF. by right.
    + by apply schain_frame_notin.
    + cbn in Hf. lia.
    + exists h, w'. split; [done|]. do 3 (split; [done|]). split; [by refine (changes_cons _ _ _ _ (x <| snext := prev |>) _ _ HpC Hx _ Hch)|]. intros ss P Hss HP.
      rewrite reverse_cons, <- app_assoc. apply Hlink; [intros q Hq; apply Hss; by right|]. cbn. split; [done|]. split; [done|].
      exists (x <| snext := prev |>). split; [|done]. rewrite Hss by left. rewrite (proj1 Hch) by done. apply lookup_insert_eq.
Qed.

Lemma reverse_symlink_spec w L F D h C : tinv w L F D -> (forall q, q ∈ C -> q ∉ F) -> NoDup C -> schain (syms w) h C ->
  exists h' w', reverse_symlink h w = Ret h' w' /\ tinv w' L F D /\ strings w' = strings w /\ sym_tab w' = sym_tab w /\
    changes alike C w w' /\ schain (syms w') h' (reverse C).
Proof.
  intros HI HF Hn HC. unfold reverse_symlink. destruct C as [|p C].
  - cbn in HC. subst h. exists NULL, w. split; [done|]. do 3 (split; [done|]). split; [apply changes_nil|done].
  - pose proof (NoDup_size (syms w) _ Hn (fun q Hq => proj2 (schain_is_Some _ _ _ _ HC Hq))) as Hsz.
    destruct HC as (-> & Hp0 & x & Hx & HC). apply NoDup_cons in Hn as [HpC Hn]. replace (p =? NULL) with false by lia.
    rewrite (bind_Ret _ _ _ _ _ (load_sym_spec _ _ _ Hx)), get_ret.
    destruct (reverse_loop_spec L F D C (sym_fuel w) p (snext x) w HI) as (h & w1 & E & HI1 & Hs & Ht & Hch & Hlink); try done.
    { intros q Hq. apply HF. by right. }
    { unfold sym_fuel. cbn in Hsz. lia. }
    rewrite (bind_Ret _ _ _ _ _ E). assert (Hx1 : syms w1 !! p = Some x) by (rewrite (proj1 Hch p HpC); exact Hx).
    rewrite (bind_Ret _ _ _ _ _ (upd_sym_spec p _ x w1 Hx1)). set (w2 := w1 <| syms := _ |>). exists h, w2. split; [done|].
    split; [apply (tinv_upd w1 _ _ _ p (fun x => x <| snext := NULL |>) x); try done; apply HF; left|].
    do 2 (split; [done|]). split.
    + apply changes_compose with w1; [apply _| |].
      * eapply changes_mono; [by apply alike_refl| |exact Hch]. intros q Hq. by right.
      * apply changes_mono with [p]; [by apply alike_refl|intros q ->%list_elem_of_singleton; left|].
        eapply changes_cons; [apply not_elem_of_nil|exact Hx1| |apply changes_nil]. done.
    + rewrite reverse_cons. apply Hlink.
      * intros q Hq. cbn. rewrite lookup_insert_ne; [done|]. by intros ->.
      * split; [done|]. split; [done|]. eexists. split; [apply lookup_insert_eq|]. done.
Qed.

Lemma spec_loop_spec is_func is_const L F D C : forall fuel h w, tinv w L F D -> (forall q, q ∈ C -> q ∉ F) -> NoDup C ->
  schain (syms w) h C -> (length C < fuel)%nat ->
  exists w', spec_loop fuel is_func is_const h w = Ret tt w' /\ tinv w' L F D /\ strings w' = strings w /\ sym_tab w' = sym_tab w /\
    changes alike C w w' /\ schain (syms w') h C.
Proof.
  induction C as [|p C IH]; intros fuel h w HI HF Hn HC Hf; (destruct fuel as [|fuel]; [cbn in Hf; lia|]); cbn [spec_loop].
  - cbn in HC. subst h. exists w. split; [done|]. do 3 (split; [done|]). split; [apply changes_nil|done].
  - destruct HC as (-> & Hp0 & x & Hx & HC). apply NoDup_cons in Hn as [HpC Hn]. replace (p =? NULL) with false by lia.
    rewrite (bind_Ret _ _ _ _ _ (load_sym_spec _ _ _ Hx)). cbn in Hf.
    assert (Hup : exists y, alike x y /\ snext y = snext x /\
      (when (isFunc x =? UNKNOWN) (upd_sym p (fun x => x <| isFunc := is_func |>));;
       when (isConst x =? UNKNOWN) (upd_sym p (fun x => x <| isConst := is_const |>));;
       spec_loop fuel is_func is_const (snext x)) w = spec_loop fuel is_func is_const (snext x) (w <| syms := <[p := y]> (syms w) |>)).
    { set (x1 := if isFunc x =? UNKNOWN then x <| isFunc := is_func |> else x).
      assert (E1 : when (isFunc x =? UNKNOWN) (upd_sym p (fun x => x <| isFunc := is_func |>)) w = Ret tt (w <| syms := <[p := x1]> (syms w) |>)).
      { unfold x1. destruct (isFunc x =? UNKNOWN); cbn [when]; [by rewrite (upd_sym_spec p _ x)|]. rewrite insert_id by done. by destruct w. }
      rewrite (bind_Ret _ _ _ _ _ E1). set (w1 := w <| syms := _ |>). assert (Hx1 : syms w1 !! p = Some x1) by apply lookup_insert_eq.
      exists (if isConst x =? UNKNOWN then x1 <| isConst := is_const |> else x1).
      split; [unfold x1; by destruct (isFunc x =? UNKNOWN), (isConst x =? UNKNOWN)|].
      split; [unfold x1; by destruct (isFunc x =? UNKNOWN), (isConst x =? UNKNOWN)|].
      destruct (isConst x =? UNKNOWN); cbn [when]; [|by rewrite (bind_mret tt)].
      rewrite (bind_Ret _ _ _ _ _ (upd_sym_spec p _ x1 w1 Hx1)). unfold w1. cbn. by rewrite insert_insert_eq. }
    destruct Hup as (y & Hal & Hny & ->). set (w1 := w <| syms := _ |>).
    assert (HI1 : tinv w1 L F D) by (apply (tinv_upd w _ _ _ p (fun _ => y) x); [done|apply HF; left|done|apply Hal]).
    destruct (IH fuel (snext x) w1 HI1) as (w' & E & HI' & Hs & Ht & Hch & HC'); try done.
    + intros q Hq. apply HF. by right.
    + by apply schain_frame_notin.
    + lia.
    + exists w'. split; [done|]. do 3 (split; [done|]). split; [by refine (changes_cons _ _ _ _ y _ _ HpC Hx Hal Hch)|]. split; [done|]. split; [done|].
      exists y. split; [rewrite (proj1 Hch) by done; apply lookup_insert_eq|]. by rewrite Hny.
Qed.

Lemma ParseDeclList_spec is_func is_const w L F D h C : tinv w L F D -> (forall q, q ∈ C -> q ∉ F) -> NoDup C ->
  schain (syms w) h C ->
  exists h' w', ParseDeclList is_func is_const h w = Ret h' w' /\ tinv w' L F D /\ strings w' = strings w /\
    changes alike C w w' /\ schain (syms w') h' (reverse C).
Proof.
  intros HI HF Hn HC. destruct (reverse_symlink_spec w L F D h C HI HF Hn HC) as (h' & w1 & E1 & HI1 & Hs1 & Ht1 & Hch1 & HC1).
  unfold ParseDeclList. rewrite (bind_Ret _ _ _ _ _ E1), get_ret.
  assert (Hn1 : NoDup (reverse C)) by (by rewrite reverse_Permutation).
  destruct (spec_loop_spec is_func is_const L F D (reverse C) (sym_fuel w1) h' w1 HI1) as (w2 & E2 & HI2 & Hs2 & _ & Hch2 & HC2); try done.
  - intros q. rewrite elem_of_reverse. apply HF.
  - unfold sym_fuel. pose proof (NoDup_size (syms w1) _ Hn1 (fun q Hq => proj2 (schain_is_Some _ _ _ _ HC1 Hq))). lia.
  - exists h', w2. rewrite (bind_Ret _ _ _ _ _ E2). split; [done|]. split; [done|]. split; [by rewrite Hs2|]. split; [|done].
    apply changes_compose with w1; [apply _|done|]. eapply changes_mono; [by apply alike_refl| |exact Hch2].
    intros q. by rewrite elem_of_reverse.
Qed.

(** Writing the declarators frees their texts. *)
Definition written (x y : SYM) : Prop := y = x <| decltor := NULL |>.
Definition has_text (w : trans) (p d : Z) : Prop := exists x, syms w !! p = Some x /\ decltor x = d /\ initstr x = NULL.

Lemma has_text_frame w w' p d : syms w' !! p = syms w !! p -> has_text w p d -> has_text w' p d.
Proof. intros E (x & Hx & ?). exists x. by rewrite E. Qed.
Lemma Forall2_frame {A B} (P Q : A -> B -> Prop) C Ds : (forall p d, p ∈ C -> P p d -> Q p d) -> Forall2 P C Ds -> Forall2 Q C Ds.
Proof.
  intros H HF. induction HF as [|p d C Ds Hp _ IH]; constructor; [apply H; [left|done]|]. apply IH. intros q e Hq. apply H. by right.
Qed.

Lemma declarators_out_spec L F D C : forall Ds fuel h w SF, tinv w L F D -> (forall q, q ∈ C -> q ∉ F) -> NoDup C ->
  schain (syms w) h C -> (length C < fuel)%nat -> Forall2 (has_text w) C Ds -> spool (strings w) SF Ds ->
  exists w', declarators_out fuel h w = Ret tt w' /\ tinv w' L F D /\ changes written C w w' /\ schain (syms w') h C /\
    symnames (strings w') = symnames (strings w) /\ spool (strings w') (reverse Ds ++ SF) [].
Proof.
  induction C as [|p C IH]; intros Ds fuel h w SF HI HF Hn HC Hf HT HS; (destruct fuel as [|fuel]; [cbn in Hf; lia|]); cbn [declarators_out].
  - apply Forall2_nil_inv_l in HT as ->. cbn in HC. subst h. exists w. split; [done|]. split; [done|].
    split; [apply changes_nil|done].
  - apply Forall2_cons_inv_l in HT as (d & Ds' & Hd & HT & ->). destruct HC as (-> & Hp0 & x & Hx & HC).
    destruct Hd as (x' & Hx' & Hdx & Hi). rewrite Hx in Hx'. injection Hx' as <-. subst d.
    apply NoDup_cons in Hn as [HpC Hn]. replace (p =? NULL) with false by lia. cbn in Hf.
    rewrite (bind_Ret _ _ _ _ _ (load_sym_spec _ _ _ Hx)). destruct (sp_held _ _ _ HS (decltor x) ltac:(left)) as [[t Ht] _].
    rewrite (bind_Ret _ _ _ _ _ (on_strings_Ret _ _ _ _ (str_string_spec _ _ _ Ht))).
    set (w0 := w <| strings := strings w |>). rewrite (bind_Ret (emitCode [t]) _ w0 tt (w0 <| yyout := yyout w0 ++ concat [t] |>)) by done.
    set (w1 := w0 <| yyout := _ |>). destruct (spool_del (strings w) SF Ds' (decltor x) HS) as (s & E & HS' & Hsn & _).
    rewrite (bind_Ret _ _ _ _ _ (on_strings_Ret (del_str (decltor x)) w1 tt s E)). set (w2 := w1 <| strings := s |>).
    rewrite (bind_Ret _ _ _ _ _ (upd_sym_spec p _ x w2 Hx)). set (w3 := w2 <| syms := _ |>).
    rewrite Hi. change (negb (NULL =? NULL)) with false. cbn [when]. rewrite (bind_mret tt).
    assert (HI2 : tinv w2 L F D) by (apply tinv_strings; [apply (tinv_yyout w), HI|done]).
    assert (HI3 : tinv w3 L F D) by (apply (tinv_upd w2 _ _ _ p (fun x => x <| decltor := NULL |>) x); try done; apply HF; left).
    assert (Hemit : exists o, when (negb (snext x =? NULL)) (emitCode [txt ", "]) w3 = Ret tt (w3 <| yyout := o |>)).
    { destruct (negb (snext x =? NULL)); cbn [when]; [by eexists|]. exists (yyout w3). done. }
    destruct Hemit as [o Eo]. rewrite (bind_Ret _ _ _ _ _ Eo). set (w4 := w3 <| yyout := o |>).
    destruct (IH Ds' fuel (snext x) w4 (decltor x :: SF)) as (w' & E' & HI' & Hch & HC' & Hsn' & HS''); try done.
    + by apply tinv_yyout.
    + intros q Hq. apply HF. by right.
    + by apply schain_frame_notin.
    + lia.
    + eapply Forall2_frame; [|exact HT]. intros q e Hq. apply has_text_frame. cbn. rewrite lookup_insert_ne; [done|]. by intros ->.
    + exists w'. split; [done|]. split; [done|].
      split; [exact (changes_cons written p C x (x <| decltor := NULL |>) w w' HpC Hx eq_refl Hch)|]. split.
      { split; [done|]. split; [done|]. eexists. split; [rewrite (proj1 Hch) by done; apply lookup_insert_eq|]. done. }
      split; [by rewrite Hsn'|]. by rewrite reverse_cons, <- app_assoc.
Qed.

Lemma changes_bindings R C w w' L : changes R C w w' -> (forall x y, R x y -> name y = name x /\ LEVEL y = LEVEL x) ->
  (forall q, q ∈ C -> is_Some (syms w !! q)) -> symnames (strings w') = symnames (strings w) -> bindings w' L = bindings w L.
Proof.
  intros [H1 H2] HR HC Hs. apply bindings_ext. intros b _. set (q := user_of b). unfold binding, sym_get_key. rewrite Hs.
  destruct (decide (q ∈ C)) as [Hq|Hq]; [|by rewrite H1]. destruct (HC q Hq) as [x Hx].
  destruct (H2 q x Hq Hx) as (y & Hy & Hxy). rewrite Hx, Hy. destruct (HR x y Hxy) as [En El]. cbn. by rewrite En, El.
Qed.

(** Both together, for the list [declare] makes. *)
Lemma declared_all_spec is_func is_const w L F D A Dn h C Ds SF : tinv w L F D -> (forall q, q ∈ C -> q ∉ F) -> NoDup C ->
  schain (syms w) h C -> Forall2 (declared_sym w A Dn) C Ds -> spool (strings w) SF Ds ->
  exists h' w', declared_all is_func is_const h w = Ret h' w' /\ tinv w' L F D /\ schain (syms w') h' (reverse C) /\
    (forall q, q ∈ C -> declared_sym w' A Dn q NULL) /\ (forall q, q ∉ C -> syms w' !! q = syms w !! q) /\
    symnames (strings w') = symnames (strings w) /\ spool (strings w') (Ds ++ SF) [] /\ bindings w' L = bindings w L.
Proof.
  intros HI HF Hn HC HT HS. assert (Hsome : forall q, q ∈ C -> is_Some (syms w !! q)).
  { intros q Hq. by apply (schain_is_Some _ _ _ _ HC). }
  destruct (ParseDeclList_spec is_func is_const w L F D h C HI HF Hn HC) as (h' & w1 & E1 & HI1 & Hs1 & Hch1 & HC1).
  assert (Hn1 : NoDup (reverse C)) by (by rewrite reverse_Permutation).
  assert (HT1 : Forall2 (has_text w1) (reverse C) (reverse Ds)).
  { apply Forall2_reverse. eapply Forall2_frame; [|exact HT]. intros p d Hp (x & Hx & Hd & Hi & _).
    destruct (proj2 Hch1 p x Hp Hx) as (y & Hy & _ & _ & Ed & Ei & _). exists y. by rewrite Ed, Ei. }
  assert (HS1 : spool (strings w1) SF (reverse Ds)).
  { rewrite Hs1. eapply spool_perm; [|exact HS]. symmetry. apply reverse_Permutation. }
  destruct (declarators_out_spec L F D (reverse C) (reverse Ds) (sym_fuel w1) h' w1 SF HI1) as
    (w2 & E2 & HI2 & Hch2 & HC2 & Hsn2 & HS2); try done.
  { intros q. rewrite elem_of_reverse. apply HF. }
  { unfold sym_fuel. pose proof (NoDup_size (syms w1) _ Hn1 (fun q Hq => proj2 (schain_is_Some _ _ _ _ HC1 Hq))). lia. }
  rewrite reverse_involutive in HS2. exists h', w2. unfold declared_all. rewrite (bind_Ret _ _ _ _ _ E1), get_ret, (bind_Ret _ _ _ _ _ E2).
  assert (Hsome1 : forall q, q ∈ reverse C -> is_Some (syms w1 !! q)).
  { intros q Hq. by apply (schain_is_Some _ _ _ _ HC1). }
  split; [done|]. split; [done|]. split; [done|]. split; [|split; [|split; [by rewrite Hsn2, Hs1|split; [done|]]]].
  - intros p Hp. apply list_elem_of_lookup in Hp as [i Hi]. destruct (Forall2_lookup_l _ _ _ _ _ HT Hi) as (d & _ & x & Hx & _ & Hin & Hd).
    apply list_elem_of_lookup_2 in Hi as Hp. destruct (proj2 Hch1 p x Hp Hx) as (y & Hy & _ & _ & _ & Ei & Ed).
    destruct (proj2 Hch2 p y) as (z & Hz & ->); [by apply elem_of_reverse|done|]. exists (y <| decltor := NULL |>).
    split; [done|]. split; [done|]. split; [exact (eq_trans Ei Hin)|]. cbn. by rewrite Ed.
  - intros q Hq. rewrite (proj1 Hch2) by (by rewrite elem_of_reverse). by apply Hch1.
  - rewrite (changes_bindings written (reverse C) w1 w2 L Hch2); [|by intros x y ->|done|done].
    apply (changes_bindings alike C w w1 L Hch1); [by intros x y (-> & -> & _)|done|by rewrite Hs1].
Qed.
