(* ===== verification/SymProps.v ===== *)
(** Theorems on the symbols of the translator and their table: scopes nest, and the
    table refines a list. *)
From S2P Require Import Prelude HashTab HashRep MiscTr MiscProps Symbol SymRep TransDecl.
Open Scope Z_scope.
#[local] Notation M := (Prelude.M trans).

Lemma without_all C L : (forall b, b ∈ L -> user_of b ∈ C) -> without C L = [].
Proof.
  unfold without. induction L as [|b L IH]; intros H; [done|]. rewrite filter_cons, decide_False by (intros Hn; apply Hn, H; left).
  apply IH. intros c Hc. apply H. by right.
Qed.

Lemma discard_SYM_chain_spec C head w L F D : tinv w L F D -> schain (syms w) head C -> NoDup C ->
  (forall p, p ∈ C -> declared_sym w L D p NULL) ->
  exists w' D', discard_SYM_chain head w = Ret tt w' /\ tinv w' (without C L) (reverse C ++ F) D' /\
    (forall q, q ∈ D' <-> q ∈ D /\ q ∉ C) /\ strings w' = strings w /\ (forall q, q ∉ C -> syms w' !! q = syms w !! q).
Proof.
  intros HI HC Hn Hd. unfold discard_SYM_chain. rewrite get_ret. eapply discard_loop_spec; try done.
  unfold sym_fuel. pose proof (NoDup_size (syms w) C Hn (fun p Hp => proj2 (schain_is_Some _ _ _ _ HC Hp))). lia.
Qed.

(** ** Frames *)

(** The buffer with another stack and limit; the names that matter stay below it. *)
Lemma tinv_frame w L F D s st cur : tinv w L F D -> symnames s = symnames (strings w) <| stk := st |> <| current := cur |> ->
  0 <= top st <= STACK_SIZE -> limit st = STACK_SIZE -> Z.of_nat (length (thestk st)) = STACK_SIZE -> 0 <= cur < 2 ^ 15 ->
  (forall p, p ∈ D ++ (user_of <$> L) -> exists x nm, syms w !! p = Some x /\
    name_at (symnames (strings w)) cur (name x) nm) ->
  tinv (w <| strings := s |>) L F D.
Proof.
  intros [H1 H2 H3 H4 H5 H6 H7 H8] Hs Ht1 Ht2 Ht3 Hc Hn. constructor; cbn [strings syms sym_tab freesymlist upd]; rewrite ?Hs; try done.
  eapply tab_rep_ext; [|exact H1]. intros b _. unfold sym_get_key. cbn. by rewrite Hs.
Qed.

Lemma tinv_newframe w L F D : tinv w L F D -> top (stk (symnames (strings w))) < STACK_SIZE ->
  exists s, sb_newframe (strings w) = Ret tt s /\ tinv (w <| strings := s |>) L F D /\
    buf (symnames s) = buf (symnames (strings w)) /\ current (symnames s) = current (symnames (strings w)) /\
    top (stk (symnames s)) = top (stk (symnames (strings w))) + 1 /\
    thestk (stk (symnames s)) !! Z.to_nat (top (stk (symnames (strings w)))) = Some (current (symnames (strings w))) /\
    (exists sb, s = strings w <| symnames := sb |>).
Proof.
  intros HI Ht. destruct (ti_stack _ _ _ _ HI) as (H1 & H2 & H3). set (sb := symnames (strings w)) in *.
  set (st := stk sb <| thestk := <[Z.to_nat (top (stk sb)) := current sb]> (thestk (stk sb)) |> <| top := top (stk sb) + 1 |>).
  set (s := strings w <| symnames := sb <| stk := st |> |>). exists s.
  assert (E : sb_newframe (strings w) = Ret tt s).
  { unfold sb_newframe, stk_push, upd_stk. mrun. fold sb. rewrite H2. destruct (Z.leb_spec STACK_SIZE (top (stk sb))); [lia|].
    destruct (Z.leb_spec (Z.of_nat (length (thestk (stk sb)))) (top (stk sb))); [lia|]. done. }
  split; [done|]. split; [|repeat split].
  - apply tinv_frame with st (current sb); try done; cbn.
    + lia.
    + by rewrite length_insert.
    + apply HI.
    + apply HI.
  - cbn. apply list_lookup_insert_eq. lia.
  - by eexists.
Qed.

Lemma sb_restore_spec s e : 0 < top (stk (symnames s)) -> thestk (stk (symnames s)) !! Z.to_nat (top (stk (symnames s)) - 1) = Some e ->
  0 <= e < 2 ^ 15 ->
  sb_restore s = Ret tt (s <| symnames := symnames s <| stk := stk (symnames s) <| top := top (stk (symnames s)) - 1 |> |> <| current := e |> |>).
Proof.
  intros Ht He Hr. unfold sb_restore, stk_pop, upd_stk. mrun. destruct (Z.leb_spec (top (stk (symnames s))) 0); [lia|].
  rewrite He. by rewrite uint16_id by lia.
Qed.

(** Leaving a frame: the names below its start are still there. *)
Lemma leave_frame w w2 L F F2 e : tinv w L F [] -> tinv w2 L F2 [] -> e = current (symnames (strings w)) ->
  0 < top (stk (symnames (strings w2))) ->
  thestk (stk (symnames (strings w2))) !! Z.to_nat (top (stk (symnames (strings w2))) - 1) = Some e ->
  (forall b, b ∈ L -> syms w2 !! user_of b = syms w !! user_of b) ->
  (forall i, 0 <= i < e -> buf (symnames (strings w2)) !! i = buf (symnames (strings w)) !! i) ->
  exists w3, on_strings sb_restore w2 = Ret tt w3 /\ tinv w3 L F2 [] /\ bindings w3 L = bindings w L /\
    current (symnames (strings w3)) = e /\ (exists sb, strings w3 = strings w2 <| symnames := sb |>).
Proof.
  intros HI HI2 -> Htop Hst Hsy Hbuf. set (e := current (symnames (strings w))) in *.
  pose proof (ti_cur _ _ _ _ HI) as He. fold e in He. destruct (ti_stack _ _ _ _ HI2) as (S1 & S2 & S3).
  assert (Hkeep : forall b, b ∈ L -> exists x nm, syms w2 !! user_of b = Some x /\ syms w !! user_of b = Some x /\
    name_at (symnames (strings w)) e (name x) nm /\ name_at (symnames (strings w2)) e (name x) nm).
  { intros b Hb. destruct (ti_names _ _ _ _ HI (user_of b)) as (x & nm & Hx & Hnm); [by apply list_elem_of_fmap_2|].
    exists x, nm. rewrite Hsy by done. split; [done|]. split; [done|]. split; [done|]. by eapply name_at_frame. }
  pose proof (sb_restore_spec (strings w2) e Htop Hst He) as E3.
  match type of E3 with _ = Ret _ ?v => set (s3 := v) in * end.
  exists (w2 <| strings := s3 |>). split; [by apply on_strings_Ret|]. split; [|split; [|split; [done|by eexists]]].
  - apply tinv_frame with (stk (symnames (strings w2)) <| top := top (stk (symnames (strings w2))) - 1 |>) e; try done.
    + cbn. lia.
    + intros p Hp. apply list_elem_of_fmap in Hp as (b & -> & Hb). destruct (Hkeep b Hb) as (x & nm & ? & _ & _ & ?). by exists x, nm.
  - apply bindings_ext. intros b Hb. destruct (Hkeep b Hb) as (x & nm & Hx2 & Hx & Hn1 & Hn2).
    rewrite (bound_binding w _ _ _ Hx (key_of_name w _ _ _ _ Hx Hn1)).
    assert (Hk3 : sym_get_key (w2 <| strings := s3 |>) (user_of b) = Some nm).
    { unfold sym_get_key. cbn [syms upd]. rewrite Hx2. destruct Hn2 as (_ & _ & Hn2). exact Hn2. }
    unfold binding. rewrite Hk3. cbn [syms upd]. by rewrite Hx2.
Qed.

(** ** Theorems *)

(** What looking a name up in the table must give, for a list of bindings. *)
Definition finds (w : trans) (V : list (list Z * Z)) (key : list Z) : Prop :=
  exists p, find_sym key w = Ret p w /\
    match bound V key with Some v => binding w p = Some v | None => p = NULL end.

Lemma tinv_finds w L F D key : tinv w L F D -> finds w (bindings w L) key.
Proof.
  intros HI. pose proof (newest_bound w L F D key HI) as Hb. eexists. split; [by apply (find_sym_spec w L F D)|].
  destruct (newest (sym_get_key w) key L) as [b|] eqn:En; cbn in *.
  - assert (HbL : b ∈ L) by (unfold newest in En; apply head_Some_elem_of, list_elem_of_filter in En; tauto).
    destruct (ti_names _ _ _ _ HI (user_of b)) as (x & nm & Hx & Hn); [apply elem_of_app; right; by apply list_elem_of_fmap_2|].
    rewrite (bound_binding w _ _ _ Hx (key_of_name _ _ _ _ _ Hx Hn)) in Hb |- *. by rewrite <- Hb.
  - by rewrite <- Hb.
Qed.

(** The bindings of a scope: each declarator adds one, unless the name is already bound
    at this level. *)
Definition scope (V : list (list Z * Z)) (names : list (list Z)) (level : Z) : list (list Z * Z) :=
  foldl (fun V nm => declared V nm level) V names.

(** A declared symbol cannot be used again yet. *)
Lemma declared_not_free w A L F Dn C Ds : tinv w (A ++ L) F Dn -> Forall2 (declared_sym w A Dn) C Ds -> forall q, q ∈ C -> q ∉ F.
Proof.
  intros HI HT q Hq HF. apply list_elem_of_lookup in Hq as [i Hi]. destruct (Forall2_lookup_l _ _ _ _ _ HT Hi) as (d & _ & x & _ & _ & _ & Hd).
  pose proof (ti_nodup _ _ _ _ HI) as Hn. apply NoDup_app in Hn as (_ & Hno & _). apply (Hno q HF), elem_of_app.
  destruct Hd as [[_ Hd]|[_ Hd]]; [right|by left]. rewrite <- (user_header q). apply list_elem_of_fmap_2, elem_of_app. by left.
Qed.

(** (C25) Scopes nest. A block is entered with [sb_newframe], declares variables of which
    none is translated (they are neither global nor static, or the file is not the
    user's), and is left with [discard_SYM_chain] and [sb_restore]. In it the table finds
    the declaration of a name in the block, or else the one in force around it, before and
    after the declaration is written out; a name declared twice in the block keeps its
    first symbol. Leaving the block takes exactly its symbols out of the table and puts their
    memory, and that of the texts of the declarators and commas, where the next ones are
    taken from; every name is bound as it was, and the buffer of names is at the same
    place. The names are not longer than MAX_SYM_LEN and not names of types; with those in
    use they take less than 32 KB of the buffer; there is memory for the symbols and
    strings, and a place on the stack of frames. *)
Theorem scope_restores w L F SF names level cls tbool is_func is_const :
  tinv w L F [] -> spool (strings w) SF [] -> room w F (length names) -> str_room (strings w) SF (S (length names)) ->
  Forall is_ident names -> variables w L names -> cls <> ERR -> cls <> TYPEDEF ->
  0 <= level < 2 ^ 15 -> isGlobalDecl level cls && tbool = false ->
  current (symnames (strings w)) + names_size names < 2 ^ 15 -> top (stk (symnames (strings w))) < STACK_SIZE ->
  exists l l' C SF' w1 w2 w3,
    (on_strings sb_newframe;; declare names level cls tbool None) w = Ret l w1 /\
    (forall key, finds w1 (scope (bindings w L) names level) key) /\
    declared_all is_func is_const l w1 = Ret l' w2 /\
    (forall key, finds w2 (scope (bindings w L) names level) key) /\
    schain (syms w2) l' C /\ length C = length names /\
    (discard_SYM_chain l';; on_strings sb_restore) w2 = Ret tt w3 /\
    tinv w3 L (reverse C ++ drop (length names) F) [] /\ spool (strings w3) SF' [] /\
    bindings w3 L = bindings w L /\ (forall key, finds w3 (bindings w L) key) /\
    current (symnames (strings w3)) = current (symnames (strings w)).
Proof.
  intros HI HSp Hr Hsr Hn HV Hcls Hcls2 Hlev Hg Hroom Htop.
  destruct (tinv_newframe w L F [] HI Htop) as (s0 & E0 & HI0 & Hbuf0 & Hcur0 & Htop0 & Hst0 & sb0 & Hsb0).
  set (w0 := w <| strings := s0 |>) in *.
  assert (HB0 : bindings w0 L = bindings w L).
  { apply bindings_ext. intros b _. unfold binding, sym_get_key, sb_read. cbn. by rewrite Hbuf0. }
  assert (HV0 : variables w0 L names).
  { intros b Hb. destruct (HV b Hb) as (x & Hx & Hx1 & Hx2). exists x. split; [done|]. split; [done|]. intros E nm Hk. apply (Hx2 E nm).
    rewrite <- Hk. unfold sym_get_key, sb_read. cbn. by rewrite Hbuf0. }
  assert (HSp0 : spool (strings w0) SF []) by (cbn; rewrite Hsb0; by apply spool_names).
  destruct (declare_spec names level cls tbool 0 Hg Hlev Hcls Hcls2 None w0 L F [] [] SF [] HV0) as
    (l & w1 & A & Dn & C & Ds & SF1 & E1 & HI1 & HC & HlC & HS1 & _ & Hnd & Hnot & Hdecl & HA & HD & HS & HB); try done.
  { cbn. lia. }
  { rewrite Nat.add_0_r. cbn [strings upd w0]. rewrite Hsb0. exact Hsr. }
  { by intros q ?%elem_of_nil. }
  rewrite ?app_nil_r in *. cbn [app] in *.
  destruct (declared_all_spec is_func is_const w1 _ _ _ A Dn l C Ds SF1 HI1 (declared_not_free _ _ _ _ _ _ _ HI1 Hdecl) Hnd HC Hdecl HS1) as
    (l' & w2 & E2 & HI2 & HC2 & Hd2 & Hk2 & Hsn2 & HS2 & HB2).
  destruct (discard_SYM_chain_spec (reverse C) l' w2 (A ++ L) _ Dn HI2 HC2) as (w3 & D3 & E3 & HI3 & HD3 & Hs3 & Hk3).
  { by rewrite reverse_Permutation. }
  { intros p. rewrite elem_of_reverse. intros Hp. eapply declared_sym_later; [by apply Hd2|done|set_solver|done]. }
  assert (D3 = []) as ->.
  { destruct D3 as [|q D3]; [done|]. destruct (proj1 (HD3 q) ltac:(left)) as [? Hq]. rewrite elem_of_reverse in Hq. by apply HD in H. }
  assert (HL : without (reverse C) (A ++ L) = L).
  { rewrite without_app, without_all, without_id; [done| |].
    - intros b Hb. rewrite elem_of_reverse. intros Hin. apply (Hnot _ Hin). by apply list_elem_of_fmap_2.
    - intros b Hb. rewrite elem_of_reverse. by apply HA. }
  rewrite HL in HI3. rewrite HB0 in HB. destruct HS as [HSs HSb HSt].
  change (symnames (strings w0)) with (symnames s0) in *. rewrite Hcur0 in HSb.
  assert (Hst : stk (symnames (strings w3)) = stk (symnames s0)) by (by rewrite Hs3, Hsn2).
  pose proof (ti_stack _ _ _ _ HI) as (Ht & _).
  destruct (leave_frame w w3 L F _ _ HI HI3 eq_refl) as (w4 & E4 & HI4 & HB4 & Hc4 & sb4 & Hsb4).
  - rewrite Hst, Htop0. lia.
  - rewrite Hst, Htop0. by rewrite Z.add_simpl_r.
  - intros b Hb. assert (Hin : user_of b ∉ C) by (intros Hin; by apply (Hnot _ Hin), list_elem_of_fmap_2).
    rewrite Hk3, Hk2 by (by rewrite ?elem_of_reverse). apply HSs. by apply list_elem_of_fmap_2.
  - intros i Hi. rewrite Hs3, Hsn2, HSb by done. by rewrite Hbuf0.
  - exists l, l', (reverse C), (Ds ++ SF1), w1, w2, w4. split; [by rewrite (bind_Ret _ _ _ _ _ (on_strings_Ret _ _ _ _ E0))|].
    split; [intros key; unfold scope; rewrite <- HB; by eapply tinv_finds|]. split; [done|].
    split; [intros key; unfold scope; rewrite <- HB, <- HB2; by eapply tinv_finds|]. split; [done|].
    split; [by rewrite length_reverse|]. split; [by rewrite (bind_Ret _ _ _ _ _ E3)|]. split; [done|].
    split; [rewrite Hsb4, Hs3; by apply spool_names|]. split; [done|]. split; [|done].
    intros key. rewrite <- HB4. by eapply tinv_finds.
Qed.

(** The translator as [init] leaves it, with an empty table and a heap of 64 KB. *)
Definition trans0 : trans :=
  mkTrans (mkTab 1021 0 (replicate 1021 NULL) ∅ 4096 69632) ∅ NULL ∅ NULL NULL 80000 90000
    (mkMisc 0 new_strbuf ∅ NULL 100000 200000) [95; 71] 0 0 0 [] [] [].

Lemma trans0_tinv : tinv trans0 [] [] [].
Proof.
  constructor; try done.
  - constructor; try done; try (by intros ? ?%elem_of_nil); [constructor|].
    intros i Hi. exists NULL. split; [|done]. cbn [table sym_tab trans0]. apply lookup_replicate_2. cbn in Hi. lia.
  - constructor.
  - by intros ? ?%elem_of_nil.
  - by intros ? ?%elem_of_nil.
  - cbn. split; [lia|]. intros b [k Hk]. by rewrite lookup_empty in Hk.
Qed.

(** A scope with the names x, y and x again. *)
Definition demo_names : list (list Z) := [[120]; [121]; [120]].
Lemma trans0_spool : spool (strings trans0) [] [].
Proof.
  constructor; [|by intros ? ?%elem_of_nil|constructor]. constructor; cbn; try done; [by constructor|by intros ? ?%elem_of_nil|].
  split; [lia|]. intros p [x Hx]. by rewrite lookup_empty in Hx.
Qed.

Lemma scope_restores_witness : tinv trans0 [] [] [] /\
  exists l l' C SF' w1 w2 w3,
    (on_strings sb_newframe;; declare demo_names 1 NONE true None) trans0 = Ret l w1 /\
    (forall key, finds w1 (scope (bindings trans0 []) demo_names 1) key) /\
    declared_all FALSE UNKNOWN l w1 = Ret l' w2 /\
    (forall key, finds w2 (scope (bindings trans0 []) demo_names 1) key) /\
    schain (syms w2) l' C /\ length C = 3%nat /\
    (discard_SYM_chain l';; on_strings sb_restore) w2 = Ret tt w3 /\
    tinv w3 [] (reverse C ++ []) [] /\ spool (strings w3) SF' [] /\
    bindings w3 [] = bindings trans0 [] /\ (forall key, finds w3 (bindings trans0 []) key) /\
    current (symnames (strings w3)) = current (symnames (strings trans0)).
Proof.
  split; [exact trans0_tinv|].
  apply (scope_restores trans0 [] [] [] demo_names 1 NONE true FALSE UNKNOWN);
    [exact trans0_tinv|exact trans0_spool|vm_compute; done|vm_compute; done| |by intros b ?%elem_of_nil|done|done|lia|done|vm_compute; done|vm_compute; done].
  repeat constructor; done.
Defined.

(** A name that comes to lie behind the first 32767 bytes of the buffer gets a negative
    offset, because [sb_alloc] returns the place as a [short]: the name is then written
    in front of the buffer, although there is room in it and no error was reported. *)
Theorem sb_alloc_overruns nm s :
  2 ^ 15 <= current (symnames s) -> current (symnames s) + Z.of_nat (length nm) + 2 < STRBUF_SIZE ->
  exists off s', sb_alloc (Z.of_nat (length nm) + 1) s = Ret off s' /\ off < 0 /\ errmsgno s' = errmsgno s /\
    sb_strcpy off nm s' = Fault.
Proof.
  intros Hc Hb. unfold STRBUF_SIZE in Hb. unfold sb_alloc. mrun. rewrite uint32_id by (unfold is_uint32; lia). unfold STRBUF_SIZE.
  destruct (Z.ltb_spec (current (symnames s) + (Z.of_nat (length nm) + 1) + 1) 65000); [|lia].
  assert (Hneg : int16 (current (symnames s)) = current (symnames s) - 2 ^ 16).
  { unfold int16. assert (E : current (symnames s) + 2 ^ 15 = current (symnames s) - 2 ^ 15 + 1 * 2 ^ 16) by lia.
    rewrite E, Z.mod_add, Z.mod_small by lia. lia. }
  eexists _, _. split; [done|]. rewrite Hneg. split; [lia|]. split; [done|]. unfold sb_strcpy.
  by destruct (Z.leb_spec 0 (current (symnames s) - 2 ^ 16)); [lia|].
Qed.

(** ** The table by itself *)

(** Calls of the table's users; a symbol is given by its bucket. *)
Inductive call := Add (b : Z) | Del (b : Z) | Find (key : list Z).
Section Calls.
Context (get_key : Z -> option (list Z)).
#[local] Notation MT := (Prelude.M HASH_TAB).
Definition run_call (c : call) : MT Z :=
  match c with
  | Add b => addsym hash_add get_key (user_of b)
  | Del b => delsym (user_of b);; mret NULL
  | Find key => findsym hash_add cmp get_key key
  end.
Fixpoint run_calls (cs : list call) : MT (list Z) :=
  match cs with [] => mret [] | c :: cs' => r ← run_call c; rs ← run_calls cs'; mret (r :: rs) end.
(** The same calls on the list of symbols, the last one first. *)
Definition spec_call (c : call) (L : list Z) : Z * list Z :=
  match c with
  | Add b => (user_of b, b :: L)
  | Del b => (NULL, without [user_of b] L)
  | Find key => (from_option user_of NULL (newest get_key key L), L)
  end.
Fixpoint spec_calls (cs : list call) (L : list Z) : list Z * list Z :=
  match cs with
  | [] => ([], L)
  | c :: cs' => let '(r, L) := spec_call c L in let '(rs, L) := spec_calls cs' L in (r :: rs, L)
  end.
(** [D] are the buckets that were allocated. A symbol is added that is not in the table,
    and deleted when it is there. *)
Definition legal (D : list Z) (c : call) (L : list Z) : Prop :=
  match c with
  | Add b => b ∈ D /\ b ∉ L /\ is_Some (get_key (user_of b))
  | Del b => b ∈ L
  | Find _ => True
  end.
Fixpoint legal_calls (D : list Z) (cs : list call) (L : list Z) : Prop :=
  match cs with [] => True | c :: cs' => legal D c L /\ legal_calls D cs' (snd (spec_call c L)) end.

Definition allocated (D : list Z) (t : HASH_TAB) : Prop := forall b, b ∈ D -> 0 < b /\ is_Some (buckets t !! b).

Lemma allocated_keeps D L t t' : allocated D t -> keeps L t t' -> allocated D t'.
Proof. intros HD (_ & _ & _ & _ & HK) b Hb. destruct (HD b Hb). auto. Qed.

Lemma run_call_spec D c L t : tab_rep hash_add get_key t L -> allocated D t -> legal D c L ->
  exists t', run_call c t = Ret (fst (spec_call c L)) t' /\ tab_rep hash_add get_key t' (snd (spec_call c L)) /\ allocated D t'.
Proof.
  intros HR HD Hl. destruct c as [b|b|key]; cbn in *.
  - destruct Hl as (HbD & HbL & [k Hk]). destruct (HD b HbD) as [Hb Hbs].
    destruct (addsym_rep hash_add cmp cmp_eq get_key t L b k HR HbL Hb Hbs Hk) as (t' & ? & ? & ?).
    exists t'. split; [done|]. split; [done|]. by eapply allocated_keeps.
  - apply list_elem_of_split in Hl as (L1 & L2 & ->).
    destruct (delsym_rep hash_add cmp cmp_eq get_key t L1 b L2 HR) as (t' & E & ? & ?).
    exists t'. split; [by rewrite (bind_Ret _ _ _ _ _ E)|]. rewrite without_one by apply HR. split; [done|]. by eapply allocated_keeps.
  - exists t. split; [by apply (findsym_rep hash_add cmp cmp_eq)|]. done.
Qed.

(** (C26) The hash table refines a list of symbols: whatever symbols are added, deleted
    and looked up in whatever order, through all the manipulation of chains and of the
    pointers back into them, every call returns what it returns on the list with the
    symbol added last in front, of which a lookup finds the first one with its key. No
    call leaves the memory of the table and its buckets, and every lookup ends. *)
Theorem hash_table_refines D cs L t : tab_rep hash_add get_key t L -> allocated D t -> legal_calls D cs L ->
  exists t', run_calls cs t = Ret (fst (spec_calls cs L)) t' /\ tab_rep hash_add get_key t' (snd (spec_calls cs L)).
Proof.
  revert L t. induction cs as [|c cs IH]; intros L t HR HD Hl; [by exists t|]. destruct Hl as [Hc Hl]. cbn [run_calls spec_calls].
  destruct (run_call_spec D c L t HR HD Hc) as (t1 & E & HR1 & HD1). rewrite (bind_Ret _ _ _ _ _ E).
  destruct (spec_call c L) as [r L1]. cbn [fst snd] in *. destruct (IH L1 t1 HR1 HD1 Hl) as (t' & E' & HR').
  rewrite (bind_Ret _ _ _ _ _ E'). destruct (spec_calls cs L1) as [rs L2]. by exists t'.
Qed.
End Calls.

(** Four buckets; the keys of the first, the third and the fourth fall into one chain,
    those of the first and the fourth are the same. *)
Definition demo_key (p : Z) : option (list Z) :=
  if p =? 24 then Some [97; 98] else if p =? 40 then Some [120]
  else if p =? 56 then Some [98; 97] else if p =? 72 then Some [97; 98] else None.
Definition demo_tab : HASH_TAB :=
  mkTab 7 0 (replicate 7 NULL) (list_to_map ((fun b => (b, mkBucket NULL NoSlot)) <$> [16; 32; 48; 64])) 80 80.
Definition demo_calls : list call :=
  [Add 16; Add 32; Add 48; Add 64; Find [97; 98]; Del 64; Find [97; 98]; Del 48; Find [98; 97]; Find [120]; Del 16; Find [97; 98]].

Lemma demo_tab_rep : tab_rep hash_add demo_key demo_tab [].
Proof.
  constructor; try done; try (by intros ? ?%elem_of_nil); [constructor|].
  intros i Hi. exists NULL. split; [|done]. cbn [table demo_tab]. apply lookup_replicate_2. cbn in Hi. lia.
Qed.

Lemma hash_table_refines_witness :
  exists t', run_calls demo_key demo_calls demo_tab = Ret [24; 40; 56; 72; 72; 0; 24; 0; 0; 40; 0; 0] t' /\
    tab_rep hash_add demo_key t' [32].
Proof.
  assert (H : exists t', run_calls demo_key demo_calls demo_tab = Ret (fst (spec_calls demo_key demo_calls [])) t' /\
    tab_rep hash_add demo_key t' (snd (spec_calls demo_key demo_calls []))).
  { apply (hash_table_refines demo_key [16; 32; 48; 64]); [exact demo_tab_rep| |].
    - intros b Hb. repeat (apply elem_of_cons in Hb as [->|Hb]; [split; [lia|by eexists]|]). by apply elem_of_nil in Hb.
    - cbn. repeat split; try (by eexists); try set_solver. }
  destruct H as (t' & E & HR). exists t'. split; [exact E|]. exact HR.
Defined.

(** [nextsym] compares each symbol with the one behind it, not with the one it was
    called for: it misses an older symbol with the same key if one with another key is
    between them in the chain. *)
Example nextsym_misses :
  exists t', run_calls demo_key [Add 16; Add 48; Add 64] demo_tab = Ret [24; 56; 72] t' /\
    demo_key 72 = demo_key 24 /\ nextsym cmp demo_key 72 t' = Ret NULL t'.
Proof. eexists. split; [vm_compute; reflexivity|]. split; [reflexivity|]. vm_compute. reflexivity. Qed.
