(* ===== verification/TransMain.v ===== *)
(** The driver of the translator (compile/mpitrans/main.c): the command line, the names of
    the files that are generated, the prefix of generated symbols, and what is written
    before and after the translation. Which files can be opened, the date and the random
    number are arguments, and so is the result of the parser. *)
From Stdlib Require Import String Ascii.
From S2P Require Import Prelude Util.

Open Scope Z_scope.

Definition MAX_FILENAME : Z := 127.

(** The variables of the module, and the text of the four files. *)
Record trans := mkTrans {
  filename : list Z; ofilename : option (list Z); randomize : Z; id_suffix : list Z;
  userFile : list (list Z); mainfilename : list Z; initfilename : list Z; insfname : list Z;
  prefix : list Z; yyout : list Z; INS : list Z; INIT : list Z; MAIN : list Z
}.
#[export] Instance eta_trans : Eta trans := MkEta _ (fun r =>
  mkTrans (filename r) (ofilename r) (randomize r) (id_suffix r) (userFile r) (mainfilename r) (initfilename r)
    (insfname r) (prefix r) (yyout r) (INS r) (INIT r) (MAIN r)).
#[local] Notation M := (Prelude.M trans).

Definition trans0 : trans :=
  mkTrans [] None 0 [] (replicate 100 []) [] [] [] (bytes_of "_G000000") [] [] [] [].

(** A C string of [n] bytes and more is cut by [strncpy]. *)
Definition strncpy (n : Z) (s : list Z) : list Z := take (Z.to_nat n) s.

(** [strcpy] and [strcat] into an array for a file name. *)
Definition file_name (name suffix : list Z) : M (list Z) :=
  if Z.of_nat (List.length (name ++ suffix)) <=? MAX_FILENAME then mret (name ++ suffix) else fault.

(** ** The command line *)

Definition isdigit (c : Z) : bool := (48 <=? c) && (c <=? 57).
Fixpoint digits (s : list Z) (acc : Z) : Z :=
  match s with
  | c :: s' => if isdigit c then digits s' (acc * 10 + (c - 48)) else acc
  | [] => acc
  end.
(** A number beyond an [int] becomes the nearest one. *)
Definition atoi (s : list Z) : Z :=
  let clamp z := Z.max (- 2 ^ 31) (Z.min (2 ^ 31 - 1) z) in
  let s := (fix skip s := match s with c :: s' => if isspace c then skip s' else s | [] => [] end) s in
  match s with
  | 45 :: s' => clamp (- digits s' 0)
  | 43 :: s' => clamp (digits s' 0)
  | _ => clamp (digits s 0)
  end.

Definition first_char (s : list Z) : Z := default 0 (s !! 0%nat).
Definition starts_dash (s : list Z) : bool := first_char s =? 45.

(** A file of the list behind [-f], by its number. *)
Definition set_userFile (j : nat) (s : list Z) : M unit :=
  t ← get;
  _ ← or_fault (userFile t !! j);
  modify (fun t => t <| userFile := <[j := strncpy MAX_FILENAME s]> (userFile t) |>).

(** The loop over the arguments that are left; [absorb] is the number of the next file
    while a list of files is read. False where the code returns 0. *)
Fixpoint parse_args (absorb : option nat) (args : list (list Z)) : M bool :=
  match absorb, args with
  | Some _, [] => mret false
  | Some j, a :: args' =>
      set_userFile j a;;
      parse_args (match args' with b :: _ => if starts_dash b then None else Some (S j) | [] => None end) args'
  | None, [] => mret true
  | None, a :: args' =>
      if starts_dash a then
        let c := default 0 (a !! 1%nat) in
        if (c =? 104) || (c =? 72) then mret false
        else if (c =? 114) || (c =? 82) then
          match args' with
          | [] => mret false
          | b :: args'' => modify (fun t => t <| randomize := atoi b |>);; parse_args None args''
          end
        else if (c =? 101) || (c =? 69) then parse_args None args'
        else if (c =? 105) || (c =? 73) then
          match args' with
          | [] => mret false
          | b :: args'' => modify (fun t => t <| id_suffix := strncpy 100 b |>);; parse_args None args''
          end
        else if (c =? 111) || (c =? 79) then
          match args' with
          | [] => mret false
          | b :: args'' => modify (fun t => t <| ofilename := Some b |>);; parse_args None args''
          end
        else if (c =? 102) || (c =? 70) then parse_args (Some 0%nat) args'
        else if (c =? 0) || (c =? 45) then
          t ← get;
          match filename t with
          | _ :: _ => mret false
          | [] => modify (fun t => t <| filename := bytes_of "-" |>);; parse_args None args'
          end
        else mret false
      else
        t ← get;
        match filename t, ofilename t with
        | _ :: _, Some _ => mret false
        | _ :: _, None => modify (fun t => t <| ofilename := Some a |>);; parse_args None args'
        | [], _ => modify (fun t => t <| filename := strncpy MAX_FILENAME a |>);; parse_args None args'
        end
  end.

Section Driver.
Context (can_read can_write : list Z -> bool) (today : list Z) (random : Z).

Definition is_std (name : list Z) : bool := bool_decide (name = bytes_of "-").

(** [argv] without the name of the program. *)
Definition cmdline_parse (args : list (list Z)) : M Z :=
  match args with
  | [] => mret 0
  | _ =>
      ok ← parse_args None args;
      t ← get;
      if negb ok then mret 0
      else if bool_decide (filename t = []) then mret 0
      else
        opened ← (if is_std (filename t) then modify (fun t => t <| filename := bytes_of "$STDIN$" |>);; mret true
                  else mret (can_read (filename t)));
        if negb opened then mret (-1)
        else
          t ← get;
          m ← file_name (filename t) (bytes_of ".thrMain.c");
          modify (fun t => t <| mainfilename := m |>);;
          i ← file_name (filename t) (bytes_of ".thrUserInit.c");
          modify (fun t => t <| initfilename := i |>);;
          if match ofilename t with None => true | Some o => is_std o || can_write o end then
            modify (fun t => t <| yyout := yyout t ++ bytes_of "/* MPItrans processed. Date : " ++ today ++ bytes_of " */" ++ [10] ++
              bytes_of "int thrMPI_createkey(void);" ++ [10] ++ bytes_of "void thrMPI_setval(int, void *);" ++ [10] ++
              bytes_of "void *thrMPI_getval(int);" ++ [10] |>);;
            u ← or_fault (userFile t !! 0%nat);
            when (bool_decide (u = [])) (modify (fun t => t <| userFile := <[0%nat := filename t]> (userFile t) |>));;
            mret 1
          else mret (-1)
  end.

(** ** Before and after the translation *)

(** The digits from [prefix[i]] backwards; an [int] has at most ten. *)
Fixpoint put_digits (fuel : nat) (r i : Z) (p : list Z) : M (list Z) :=
  match fuel with
  | O => stuck
  | S fuel' =>
      if r =? 0 then mret p
      else if (i <? 0) then fault
      else put_digits fuel' (cdiv r 10) (i - 1) (<[Z.to_nat i := 48 + cmod r 10]> p)
  end.

Definition char_sum (s : list Z) : Z := foldl (fun acc c => int32 (acc + c)) 0 s.

Definition init : M unit :=
  t ← get;
  r ← (if randomize t =? 0 then mret (cmod random 1000000) else mret (randomize t));
  p ← put_digits 11 r 7 (prefix t);
  modify (fun t => t <| prefix := p |> <| randomize := 0 |>);;
  n ← file_name (filename t) (bytes_of ".ins");
  modify (fun t => t <| insfname := n |>);;
  if can_write n && can_write (initfilename t) && can_write (mainfilename t) then
    modify (fun t => t
      <| INS := bytes_of "/* Generated by mpiTrans, for file " ++ filename t ++ bytes_of ". This file is to be included in the main file. */" ++ [10] |>
      <| INIT := bytes_of "/* Generated by mpiTrans, for file " ++ filename t ++ bytes_of ". */" ++ [10] ++
           bytes_of "/* Do NOT compile! This file is not an independent C file. */" ++ [10] ++
           bytes_of "void tmpi_prog_user_init" ++ id_suffix t ++ bytes_of "(void)" ++ [10] ++
           bytes_of "{" ++ [10; 9] ++ bytes_of "/* allocate memory for external keys */" ++ [10] |>
      <| MAIN := bytes_of "void tmpi_prog_main_init" ++ id_suffix t ++ bytes_of "(void)" ++ [10] ++ bytes_of "{" ++ [10] |>)
  else fault.

Definition include_line (name : list Z) : list Z := [10] ++ bytes_of "# include " ++ [34] ++ name ++ [34; 10].

Definition cleanup : M unit :=
  modify (fun t => t <| yyout := yyout t ++ include_line (initfilename t) ++ include_line (mainfilename t) |>
    <| INIT := INIT t ++ bytes_of "}" ++ [10] |> <| MAIN := MAIN t ++ bytes_of "}" ++ [10] |>
    <| INS := INS t ++ bytes_of "#undef " ++ prefix t ++ [10] |>).

(** [parse] is [yyparse], which tells whether there were errors. The exit status. *)
Definition main (parse : M bool) (args : list (list Z)) : M Z :=
  r ← cmdline_parse args;
  if r =? -1 then mret (-1)
  else if r =? 0 then mret 0
  else init;; errors ← parse; cleanup;; mret (if (errors : bool) then -1 else 0).
End Driver.

(** ** Properties *)

(** The value of digits after [_G]. *)
Definition prefix_value (p : list Z) : Z := digits (drop 2 p) 0.

Lemma digits_app l c acc : Forall (fun d => isdigit d = true) l -> isdigit c = true ->
  digits (l ++ [c]) acc = digits l acc * 10 + (c - 48).
Proof.
  intros Hl Hc. revert acc. induction Hl as [|d l Hd _ IH]; intros acc; cbn [digits app]; [by rewrite Hc|]. rewrite Hd. apply IH.
Qed.

(** [k] decimal digits. *)
Fixpoint decimal (k : nat) (r : Z) : list Z :=
  match k with O => [] | S k' => decimal k' (r / 10) ++ [48 + r mod 10] end.

Lemma decimal_zero k : decimal k 0 = replicate k 48.
Proof. induction k as [|k IH]; [done|]. cbn [decimal]. change (0 / 10) with 0. change (0 mod 10) with 0. rewrite IH. by rewrite replicate_S_end. Qed.

Lemma decimal_digits k : forall r, Forall (fun d => isdigit d = true) (decimal k r).
Proof.
  induction k as [|k IH]; intros r; [constructor|]. cbn [decimal]. apply Forall_app. split; [apply IH|]. apply Forall_singleton.
  pose proof (Z.mod_pos_bound r 10 ltac:(lia)). unfold isdigit. apply andb_true_intro. split; apply Z.leb_le; lia.
Qed.

Lemma decimal_value k : forall r, 0 <= r < 10 ^ Z.of_nat k -> digits (decimal k r) 0 = r.
Proof.
  induction k as [|k IH]; intros r Hr; [cbn in *; lia|]. cbn [decimal]. rewrite Nat2Z.inj_succ, Z.pow_succ_r in Hr by lia.
  pose proof (Z.mod_pos_bound r 10 ltac:(lia)). pose proof (Z.div_mod r 10 ltac:(lia)).
  rewrite digits_app, IH; [lia| |apply decimal_digits|].
  - split; [apply Z.div_pos; lia|apply Z.div_lt_upper_bound; lia].
  - unfold isdigit. apply andb_true_intro. split; apply Z.leb_le; lia.
Qed.

(** The loop writes the digits of [r] over the zeros. *)
Lemma put_digits_zeros k : forall fuel r tl s, 0 <= r < 10 ^ Z.of_nat k -> (k < fuel)%nat ->
  put_digits fuel r (Z.of_nat k + 1) (bytes_of "_G" ++ replicate k 48 ++ tl) s = Ret (bytes_of "_G" ++ decimal k r ++ tl) s.
Proof.
  induction k as [|k IH]; intros fuel r tl s Hr Hf; (destruct fuel as [|fuel]; [lia|]); cbn [put_digits].
  - destruct (Z.eqb_spec r 0) as [->|]; [done|cbn in Hr; lia].
  - destruct (Z.eqb_spec r 0) as [->|Hne]; [by rewrite decimal_zero|].
    rewrite (proj2 (Z.ltb_ge _ 0)) by lia. rewrite Nat2Z.inj_succ in *. rewrite Z.pow_succ_r in Hr by lia.
    replace (Z.succ (Z.of_nat k) + 1 - 1) with (Z.of_nat k + 1) by lia.
    replace (Z.to_nat (Z.succ (Z.of_nat k) + 1)) with (2 + k)%nat by lia.
    assert (<[(2 + k)%nat := 48 + cmod r 10]> (bytes_of "_G" ++ replicate (S k) 48 ++ tl) =
      bytes_of "_G" ++ replicate k 48 ++ (48 + cmod r 10) :: tl) as ->.
    { rewrite insert_app_r_alt by (cbn; lia). f_equal. replace (2 + k - List.length (bytes_of "_G"))%nat with k by (cbn; lia).
      rewrite replicate_S_end, <- app_assoc. rewrite insert_app_r_alt by (rewrite length_replicate; lia).
      rewrite length_replicate, Nat.sub_diag. done. }
    rewrite IH; [|unfold cdiv; rewrite Z.quot_div_nonneg by lia; split; [apply Z.div_pos; lia|apply Z.div_lt_upper_bound; lia]|lia].
    cbn [decimal]. unfold cdiv, cmod. rewrite Z.quot_div_nonneg, Z.rem_mod_nonneg by lia. by rewrite <- app_assoc.
Qed.

(** The prefix of generated symbols is right: a number of up to six digits, given with
    [-r] or drawn, is written in full behind [_G], so that two translations with
    different numbers have different prefixes. *)
Lemma prefix_of_number r s : 0 <= r < 10 ^ 6 ->
  exists p, put_digits 11 r 7 (bytes_of "_G000000") s = Ret p s /\ take 2 p = bytes_of "_G" /\ List.length p = 8%nat /\ prefix_value p = r.
Proof.
  intros Hr. exists (bytes_of "_G" ++ decimal 6 r ++ []). split; [exact (put_digits_zeros 6 11 r [] s Hr ltac:(lia))|].
  split; [done|]. split; [done|]. rewrite app_nil_r. unfold prefix_value. change (drop 2 (bytes_of "_G" ++ decimal 6 r)) with (decimal 6 r).
  by apply decimal_value.
Qed.

Lemma put_digits_overruns k : forall fuel r p s, 10 ^ (Z.of_nat k) <= r -> (k < fuel)%nat ->
  put_digits fuel r (Z.of_nat k - 1) p s = Fault.
Proof.
  induction k as [|k IH]; intros fuel r p s Hr Hf; (destruct fuel as [|fuel]; [lia|]); cbn [put_digits].
  - cbn in Hr. rewrite (proj2 (Z.eqb_neq r 0)) by lia. done.
  - rewrite Nat2Z.inj_succ in *. rewrite Z.pow_succ_r in Hr by lia. assert (0 < 10 ^ Z.of_nat k) by (apply Z.pow_pos_nonneg; lia).
    rewrite (proj2 (Z.eqb_neq r 0)) by lia. rewrite (proj2 (Z.ltb_ge _ 0)) by lia.
    replace (Z.succ (Z.of_nat k) - 1 - 1) with (Z.of_nat k - 1) by lia. apply IH; [|lia].
    unfold cdiv. rewrite Z.quot_div_nonneg by lia. apply Z.div_le_lower_bound; lia.
Qed.

Lemma strncpy_short n s : Z.of_nat (List.length s) <= n -> strncpy n s = s.
Proof. intros H. unfold strncpy. apply take_ge. lia. Qed.

Lemma file_name_ok name suffix s : Z.of_nat (List.length name + List.length suffix) <= MAX_FILENAME ->
  file_name name suffix s = Ret (name ++ suffix) s.
Proof. intros H. unfold file_name. rewrite (proj2 (Z.leb_le _ _)); [done|]. rewrite length_app. lia. Qed.

Lemma file_name_long name suffix s : MAX_FILENAME < Z.of_nat (List.length name + List.length suffix) ->
  file_name name suffix s = Fault.
Proof. intros H. unfold file_name. rewrite (proj2 (Z.leb_gt _ _)); [done|]. rewrite length_app. lia. Qed.

Lemma file_name_cases name suffix :
  (exists n, forall s, file_name name suffix s = Ret n s) \/ forall s, file_name name suffix s = Fault.
Proof. unfold file_name. destruct (_ <=? _); [left; by eexists|by right]. Qed.

(** A name that is no option. *)
Definition plain (s : list Z) : Prop := s <> [] /\ starts_dash s = false.

Lemma plain_not_std s : plain s -> is_std s = false.
Proof. intros [_ H]. unfold is_std. apply bool_decide_eq_false. intros ->. done. Qed.

(** What the loop makes of a source and an output, in each form. *)
Definition parsed (src : list Z) (out : option (list Z)) : trans := trans0 <| filename := src |> <| ofilename := out |>.

Lemma parse_source src : plain src -> Z.of_nat (List.length src) <= MAX_FILENAME ->
  parse_args None [src] trans0 = Ret true (parsed src None).
Proof. intros [Hne Hd] Hlen. cbn [parse_args]. rewrite Hd. mrun. cbn. by rewrite strncpy_short. Qed.

Lemma parse_forms src out : plain src -> plain out -> Z.of_nat (List.length src) <= MAX_FILENAME ->
  parse_args None [src; out] trans0 = Ret true (parsed src (Some out)) /\
  parse_args None [bytes_of "-o"; out; src] trans0 = Ret true (parsed src (Some out)) /\
  parse_args None [src; bytes_of "-o"; out] trans0 = Ret true (parsed src (Some out)) /\
  parse_args None [bytes_of "-o"; out; bytes_of "-e"; src] trans0 = Ret true (parsed src (Some out)).
Proof.
  intros [Hne Hd] [Hne' Hd'] Hlen. assert (Hcopy : strncpy MAX_FILENAME src = src) by (by apply strncpy_short). split; [|split; [|split]].
  - cbn [parse_args]. rewrite Hd. mrun. cbn [filename trans0 upd ofilename]. rewrite Hd'. mrun. cbn. rewrite Hcopy. by destruct src.
  - change (parse_args None [bytes_of "-o"; out; src] trans0) with (parse_args None [src] (trans0 <| ofilename := Some out |>)).
    cbn [parse_args]. rewrite Hd. mrun. cbn. by rewrite Hcopy.
  - cbn [parse_args]. rewrite Hd. mrun. cbn. by rewrite Hcopy.
  - change (parse_args None [bytes_of "-o"; out; bytes_of "-e"; src] trans0) with (parse_args None [src] (trans0 <| ofilename := Some out |>)).
    cbn [parse_args]. rewrite Hd. mrun. cbn. by rewrite Hcopy.
Qed.

(** The command line behind its arguments. *)
Lemma cmdline_after can_read can_write today args src out : plain src -> plain out -> can_read src = true -> can_write out = true ->
  args <> [] -> parse_args None args trans0 = Ret true (parsed src (Some out)) ->
  cmdline_parse can_read can_write today args trans0 =
    (m ← file_name src (bytes_of ".thrMain.c");
     modify (fun t => t <| mainfilename := m |>);;
     i ← file_name src (bytes_of ".thrUserInit.c");
     modify (fun t => t <| initfilename := i |>);;
     modify (fun t => t <| yyout := yyout t ++ bytes_of "/* MPItrans processed. Date : " ++ today ++ bytes_of " */" ++ [10] ++
              bytes_of "int thrMPI_createkey(void);" ++ [10] ++ bytes_of "void thrMPI_setval(int, void *);" ++ [10] ++
              bytes_of "void *thrMPI_getval(int);" ++ [10] |>);;
     modify (fun t => t <| userFile := <[0%nat := filename t]> (userFile t) |>);;
     mret 1) (parsed src (Some out)).
Proof.
  intros Hsrc Hout Hr Hw Hargs E. unfold cmdline_parse. destruct args as [|a args]; [done|]. rewrite (bind_Ret _ _ _ _ _ E).
  rewrite (bind_Ret get _ _ _ _ eq_refl). cbn [negb parsed filename upd trans0].
  rewrite (bool_decide_eq_false_2 (src = [])) by apply Hsrc. rewrite (plain_not_std src Hsrc), Hr. cbv iota. rewrite bind_mret. cbn [negb].
  rewrite (bind_Ret get _ _ _ _ eq_refl). cbn [parsed filename ofilename upd trans0].
  destruct (file_name_cases src (bytes_of ".thrMain.c")) as [(n & En)|En]; [|mrun; by rewrite En].
  destruct (file_name_cases src (bytes_of ".thrUserInit.c")) as [(n' & En')|En']; mrun; rewrite En, En'; [|done].
  rewrite Hw, orb_true_r. done.
Qed.

(** Command lines: a source and an output can be given in any of the documented forms,
    with the same effect - the generated files are named after the source, the output
    starts with the declarations of the run-time functions, and the translation begins -
    as long as the source's name has at most 113 characters. A longer one, of up to 127
    characters, is accepted, and the name of the generated file is written behind the
    end of its array. *)
Theorem driver_command_line can_read can_write today src out (Hsrc : plain src) (Hout : plain out)
  (Hr : can_read src = true) (Hw : can_write out = true) :
  (Z.of_nat (List.length src) <= 113 ->
   exists t, yyout t <> [] /\ filename t = src /\ ofilename t = Some out /\ mainfilename t = src ++ bytes_of ".thrMain.c" /\
     initfilename t = src ++ bytes_of ".thrUserInit.c" /\
     forall args, args ∈ [[src; out]; [bytes_of "-o"; out; src]; [src; bytes_of "-o"; out]; [bytes_of "-o"; out; bytes_of "-e"; src]] ->
       cmdline_parse can_read can_write today args trans0 = Ret 1 t) /\
  (113 < Z.of_nat (List.length src) <= MAX_FILENAME -> cmdline_parse can_read can_write today [src; out] trans0 = Fault).
Proof.
  pose proof (fun args => cmdline_after can_read can_write today args src out Hsrc Hout Hr Hw) as Hrun. split; intros Hlen.
  - destruct (parse_forms src out Hsrc Hout) as (E1 & E2 & E3 & E4); [unfold MAX_FILENAME; lia|].
    eexists. split; [|split; [|split; [|split; [|split; [|intros args Hargs; rewrite Hrun; [|set_solver|]]]]]].
    6: { rewrite (bind_Ret _ _ _ _ _ (file_name_ok src (bytes_of ".thrMain.c") _ ltac:(cbn; unfold MAX_FILENAME; lia))). mrun.
         rewrite file_name_ok by (cbn; unfold MAX_FILENAME; lia). reflexivity. }
    all: try reflexivity.
    { discriminate. }
    rewrite !elem_of_cons in Hargs. destruct Hargs as [->|[->|[->|[->|Hargs]]]]; [exact E1|exact E2|exact E3|exact E4|by apply not_elem_of_nil in Hargs].
  - destruct (parse_forms src out Hsrc Hout) as (E1 & _); [lia|]. rewrite (Hrun [src; out] ltac:(discriminate) E1).
    destruct (decide (Z.of_nat (List.length src) <= 117)) as [H|H].
    + rewrite (bind_Ret _ _ _ _ _ (file_name_ok src (bytes_of ".thrMain.c") _ ltac:(cbn; unfold MAX_FILENAME; lia))). mrun.
      by rewrite file_name_long by (cbn; unfold MAX_FILENAME; lia).
    + mrun. by rewrite file_name_long by (cbn; unfold MAX_FILENAME; lia).
Qed.

(** The prefix of generated symbols: a number of up to six digits, given with [-r] or
    drawn, is written in full behind [_G], so translations with different numbers cannot
    have a prefix in common. A number of nine digits or more, which [-r] accepts, is
    written over what lies before the prefix. *)
Theorem driver_prefix can_write random t (Hp : prefix t = bytes_of "_G000000") (Hr : 0 <= random)
  (Hname : Z.of_nat (List.length (filename t)) <= 123)
  (Hopen : can_write (filename t ++ bytes_of ".ins") && can_write (initfilename t) && can_write (mainfilename t) = true) :
  (0 <= randomize t < 10 ^ 6 ->
   exists t', init can_write random t = Ret tt t' /\ take 2 (prefix t') = bytes_of "_G" /\ List.length (prefix t') = 8%nat /\
     prefix_value (prefix t') = if randomize t =? 0 then random mod 1000000 else randomize t) /\
  (10 ^ 8 <= randomize t -> init can_write random t = Fault).
Proof.
  split; intros Hn.
  - set (r := if randomize t =? 0 then random mod 1000000 else randomize t).
    assert (0 <= r < 10 ^ 6) as Hr6.
    { unfold r. destruct (_ =? _); [|done]. pose proof (Z.mod_pos_bound random 1000000). lia. }
    unfold init. rewrite (bind_Ret get _ _ _ _ eq_refl).
    rewrite (bind_Ret _ _ _ r t) by (unfold r, cmod; destruct (_ =? _); [by rewrite Z.rem_mod_nonneg by lia|done]).
    destruct (prefix_of_number r t Hr6) as (p & Ep & H2 & H8 & Hv). rewrite Hp, (bind_Ret _ _ _ _ _ Ep).
    rewrite (bind_Ret (modify _) _ _ tt (t <| prefix := p |> <| randomize := 0 |>)); [|reflexivity].
    rewrite (bind_Ret _ _ _ _ _ (file_name_ok (filename t) (bytes_of ".ins") _ ltac:(cbn; unfold MAX_FILENAME; lia))).
    rewrite (bind_Ret (modify _) _ _ tt (t <| prefix := p |> <| randomize := 0 |> <| insfname := filename t ++ bytes_of ".ins" |>)); [|reflexivity].
    rewrite Hopen. eexists. split; [reflexivity|]. done.
  - unfold init. rewrite (bind_Ret get _ _ _ _ eq_refl). rewrite (proj2 (Z.eqb_neq (randomize t) 0)) by lia. rewrite bind_mret.
    pose proof (put_digits_overruns 8 11 (randomize t) (prefix t) t Hn ltac:(lia)) as E. change (Z.of_nat 8 - 1) with 7 in E. mrun. by rewrite E.
Qed.

(** ** Examples *)

Lemma driver_command_line_witness :
  let can (f : list Z) := true in let src := bytes_of "prog.c" in let out := bytes_of "out.c" in
  (Z.of_nat (List.length src) <= 113 ->
   exists t, yyout t <> [] /\ filename t = src /\ ofilename t = Some out /\ mainfilename t = src ++ bytes_of ".thrMain.c" /\
     initfilename t = src ++ bytes_of ".thrUserInit.c" /\
     forall args, args ∈ [[src; out]; [bytes_of "-o"; out; src]; [src; bytes_of "-o"; out]; [bytes_of "-o"; out; bytes_of "-e"; src]] ->
       cmdline_parse can can [] args trans0 = Ret 1 t) /\
  (113 < Z.of_nat (List.length src) <= MAX_FILENAME -> cmdline_parse can can [] [src; out] trans0 = Fault).
Proof. apply driver_command_line; done. Defined.

Lemma driver_prefix_witness :
  let t := trans0 <| filename := bytes_of "prog.c" |> <| randomize := 40712 |> in
  (0 <= 40712 < 10 ^ 6 ->
   exists t', init (fun _ => true) 5 t = Ret tt t' /\ take 2 (prefix t') = bytes_of "_G" /\ List.length (prefix t') = 8%nat /\
     prefix_value (prefix t') = 40712) /\ (10 ^ 8 <= 40712 -> init (fun _ => true) 5 t = Fault).
Proof. intros t. apply (driver_prefix (fun _ => true) 5 t); done. Defined.
